(* ===== verification/_CoqProject ===== *)
-Q . S2P
Prelude.v
OrdDict.v
KVCacheBlock.v
FreeQueue.v
Request.v
BlockHash.v
BlockPool.v
BlockPoolInv.v
Demo.v
Managers.v
CacheHit.v
HitFinder.v
Coordinator.v
HybridLookup.v
ManagerInv.v
NelssaInv.v
KVCacheManager.v
CoordinatorInv.v
KVCacheManagerInv.v
PrefixAdmission.v
PoolProps.v
HashProps.v
LookupProps.v
AllocProps.v
CachePolicy.v
CachePolicyInv.v
OffloadManager.v
OffloadInv.v
OffloadProps.v
EncoderCache.v
EncoderProps.v
HeapQ.v
RequestQueue.v
QueueProps.v
SchedUtils.v
Scheduler.v
Schedule.v
SchedulerUpdate.v
SchedulerDemo.v
SchedulerInv.v
SchedulePass.v
ScheduleProps.v
Termination.v
Findings.v
EngineCore.v
Lifecycle.v
LifecycleSchedule.v
LifecycleUpdate.v
EngineInv.v
EngineProps.v
KVCacheInterface.v
KVCacheSizing.v
SizingInv.v
SizingGroups.v
SizingMemory.v
SizingProps.v
WorkerBlockTable.v
InputBatch.v
ModelRunner.v
InputBatchInv.v
InputBatchReorder.v
InputBatchStep.v
WorkerProps.v
NgramProposer.v
NgramProps.v
NelssaClusters.v
NelssaWorker.v
NelssaEngine.v
NelssaAttention.v
NelssaGatherInv.v
NelssaWorkerProps.v
NelssaSlotProps.v
NelssaStreams.v
NelssaFindings.v
RpcProtocol.v
RpcServer.v
RpcProps.v
RpcConnection.v
RpcExamples.v
NelssaMerge.v
