(* ===== verification/Prelude.v ===== *)
(** * Verification of request scheduling and memory management in vLLM with NELSSA

    ** The program
    The repository is vLLM, an inference server for large language models, extended with
    NELSSA (sparse attention for long requests). Its scheduler process decides which
    requests run and which blocks of GPU memory hold their key/value (KV) caches. The
    development covers the parts of that process that own state and decide about memory, and
    the state a GPU worker keeps in step with it:
    - the pool of KV-cache blocks with its free list and prefix cache (vllm/v1/core/block_pool.py,
      the data structures of vllm/v1/core/kv_cache_utils.py);
    - the hashing that identifies blocks of equal content (kv_cache_utils.py, vllm/v1/request.py);
    - one manager per attention type with its block tables (single_type_kv_cache_manager.py),
      the coordinator over all KV-cache groups (kv_cache_coordinator.py) and the manager the
      scheduler talks to (kv_cache_manager.py);
    - the encoder cache for multi-modal inputs (encoder_cache_manager.py);
    - the scheduler itself (sched/scheduler.py, async_scheduler.py) with its waiting queues and
      stop checks (sched/request_queue.py, sched/utils.py): it keeps the request objects in a
      running list and two waiting queues, and in every step decides how many tokens each
      request computes, allocates KV blocks through the managers above and preempts requests
      when there are none left;
    - the engine core around the scheduler (vllm/v1/engine/core.py): it adds and aborts
      requests, alternates scheduling, model execution and updates, keeps batches in flight,
      pauses and resumes;
    - the sizing of KV-cache memory at startup (kv_cache_interface.py, kv_cache_utils.py): the
      layers of the model are put into groups that share block tables, and the memory of every
      worker is divided into blocks;
    - the offloading of blocks to CPU memory (vllm/v1/kv_offload);
    - the worker (vllm/v1/worker): from the scheduler's output it updates its cached requests,
      a persistent batch with one row per request (gpu_input_batch.py) and block tables from
      which kernels take the slots of tokens (block_table.py, gpu_model_runner.py); draft tokens
      for speculative decoding are found by n-gram matching (spec_decode/ngram_proposer.py);
    - NELSSA in the worker (gpu_model_runner.py, vllm/v1/nelssa, vllm/v1/core/kmeans_utils.py):
      the middle tokens of a long prompt are copied to CPU memory while it is computed, then
      clustered and sorted by cluster; while tokens are generated, the CPU attends to the
      clusters that are selected for a query, the GPU to the first and last tokens, and the two
      results are merged. A prefill worker passes the centroids to a decode worker through
      staging slots, and serves attention to it by RPC (vllm/distributed/rpc_kv).

    ** Files
    Models and the component's own lemmas:
    - Prelude.v: exceptions, the state-and-exception monad [M], Python integers, lists and
      slices, Hoare triples and invariant preservation, multiset counting, tactics, hints.
    - OrdDict.v: OrderedDict as an association list.
    - KVCacheBlock.v, FreeQueue.v: block objects in a heap and FreeKVCacheBlockQueue, the
      doubly linked free list with its two sentinels, pointer by pointer.
    - Request.v: Request, RequestStatus, sampling parameters, token bookkeeping, [__lt__].
    - BlockHash.v: group-id packing, extra keys, hash_block_tokens, the request block hasher,
      BlockHashListWithBlockSize. Hash functions are parameters.
    - BlockPool.v: BlockHashToBlockMap and BlockPool, with KV events.
    - Managers.v: SingleTypeKVCacheManager and its subclasses (full, sliding-window,
      chunked-local, Mamba, cross attention, sink, NELSSA): admission, allocation, caching, freeing.
    - CacheHit.v: find_longest_cache_hit of every manager class; HitFinder.v is the interface
      (a class with laws) through which the coordinator's theorem uses these lookups.
    - Coordinator.v: construction, the three coordinators and the operations on all managers.
    - KVCacheManager.v: the interface to the scheduler.
    - CachePolicy.v: the replacement policies of CPU offloading, the class [CachePolicy] with
      the laws [CachePolicyLaws], and its instances LRU and ARC.
    - OffloadManager.v: CPUOffloadingManager over any policy, FilterReusedOffloadingManager.
    - EncoderCache.v: EncoderCacheManager, EncoderDecoderCacheManager.
    - HeapQ.v: the standard library's heapq; RequestQueue.v: the class [RequestQueue] and the
      FCFS and priority queues; SchedUtils.v: repetition detection, check_stop, remove_all.
    - Scheduler.v: the state of the scheduler, its configuration and outputs, and the class
      [Externals] of the calls to connectors and grammars. Schedule.v: the method schedule, its
      local variables as the record [Step]. SchedulerUpdate.v: the other methods (adding and
      finishing requests, update_from_output, streaming sessions, resets, KV transfers).
    - EngineCore.v: the engine core; the model executor is the class [Executor].
    - KVCacheInterface.v: the KV-cache specs of all layer types, their page sizes, memory bounds
      and merging. KVCacheSizing.v: get_kv_cache_groups with all its strategies, the search for
      the largest model length, get_kv_cache_configs and the scheduler's configuration.
    - WorkerBlockTable.v: BlockTable and MultiGroupBlockTable, the compaction of NELSSA and the
      slot-mapping kernel. InputBatch.v: InputBatch with its BatchUpdateBuilder, the reordering
      into decodes and prefills, and the data for the sampler. ModelRunner.v: _update_states of
      the model runner, the compaction of long requests, positions and tokens of a step.
    - NgramProposer.v: NgramProposer with the search in linear time.
    - NelssaClusters.v: numbers of centroids, the reverse index from tokens to clusters, cluster
      offsets, reorganization of a head in PyTorch and C++. NelssaWorker.v: the buffers and
      metadata of long requests and the offload callback; NelssaStreams.v: its two CUDA streams
      as a step relation. NelssaEngine.v: KVCacheClusteringEngine, staging slots, received
      metadata, cleanup. NelssaAttention.v: selection and gathering of clusters.
      NelssaMerge.v: attention of a head and the merges of partial results, on real numbers.
    - RpcProtocol.v: bytes of tensors, and the messages as instances of the class [Message].
      RpcServer.v: RPCKVServer on any runner (the class [RpcRunner]) and the calls of
      RPCKVClient. RpcConnection.v: connections and timeouts as a step relation.
    Invariants and specifications of the operations: BlockPoolInv.v, ManagerInv.v, NelssaInv.v,
    CoordinatorInv.v, KVCacheManagerInv.v, PrefixAdmission.v, HybridLookup.v,
    CachePolicyInv.v, OffloadInv.v; SchedulerInv.v (partial-correctness triples and the calls
    that leave the queues alone) and SchedulePass.v (the invariant of the two passes of
    schedule); Lifecycle.v, LifecycleSchedule.v, LifecycleUpdate.v and
    EngineInv.v (the places and statuses of requests through schedule, the updates and the
    calls of the engine); SizingInv.v (monotone memory needs and the search), SizingGroups.v
    (partitions and page sizes), SizingMemory.v (layouts of tensors, the
    configurations of all workers); InputBatchInv.v (views of rows, moving, condensing and
    swapping), InputBatchReorder.v (the cycles of the reordering) and InputBatchStep.v (adding
    and removing); NelssaGatherInv.v (gathering of clusters, the layers of a request). Demo.v and
    SchedulerDemo.v hold concrete states for the witnesses.
    Properties: PoolProps.v, HashProps.v, LookupProps.v, AllocProps.v, OffloadProps.v,
    EncoderProps.v, QueueProps.v, SchedUtils.v, ScheduleProps.v, Termination.v, Findings.v,
    EngineProps.v, SizingProps.v, WorkerProps.v (with the slots of compacted rows), NgramProps.v
    (with the prefix function), NelssaWorkerProps.v (with the offloaded tokens),
    NelssaSlotProps.v, NelssaStreams.v, NelssaMerge.v, NelssaFindings.v, RpcProps.v (with the
    encodings), RpcConnection.v, and RpcExamples.v, which puts the NELSSA worker behind the RPC
    server.

    ** How the code is modelled
    A method that changes an object is a function in [M S A], the state of the object and a
    value or an exception; the state at a raise is kept. Objects that are shared by reference
    (blocks, queued requests) live in a heap or store and are referred to by location, so
    that a block in a table, in the free list and in the prefix cache is one object. Python
    integers are [Z]; fields with a machine width (ctypes structures, 4-byte group ids) wrap
    or raise as in the code. Dictionaries are stdpp maps, or association lists where the
    insertion order matters. Floats are exact rationals with an arbitrary monotone rounding
    function (ARC), and time stamps are integers. In NELSSA a vector of a head is an element of
    an arbitrary type, so that the theorems are about where data goes; attention is on real
    numbers, where the conversion of CPU results to bfloat16 is a parameter. What the copies of
    the offload stream read from the shared temporary buffer is a parameter too (NelssaStreams.v
    derives what it can be). The order of GPU lanes, the element a set pops, the assignment
    of k-means and pickle are parameters with their documented laws.

    ** Fuel
    Loops over a known list are structural. The walk of the free list runs on the number of
    blocks, the hybrid lookup on the maximal hit length plus two (each round that does not
    end lowers the length), the sift loops of heapq on the length of the heap, the iteration
    of the priority queue on its length. In schedule the pass over the running requests and
    the preemption loop run on the number of running requests, the pass over the waiting
    requests on the sizes of the queues. The search for the model length runs on the logarithm
    of the configured length, since every round halves the range. condense of the worker runs on
    the number of removed rows, of which every round fills one; following a cycle of the
    reordering runs on the size of the map, as every swap puts one more request in its place. The n-gram search runs on twice the number of
    tokens, as every round advances the position or shortens the prefix, and the loop over a
    connection on its bytes.
    [OutOfFuel] marks exhausted fuel; the specifications of the loops of the managers and of the
    worker show that they return a value, and Termination.v that no loop of a scheduling step
    runs out of fuel.

    ** What the theorems show
    The doc comment of each theorem states its conditions; the findings show what happens
    outside some of them.
    - Blocks: the linked free list refines a FIFO list; in every reachable pool the free list
      holds exactly the unreferenced blocks and the prefix-cache map agrees with the blocks'
      hashes; the effect of each pool operation, with its errors.
    - Hashes: incremental hashing equals hashing from scratch; for a collision-free hash
      function equal hashes mean equal prefixes; so a reused block has the right content.
    - Lookups: each lookup returns the longest usable hit, and the hybrid fixed point
      terminates with a length that is usable in every group.
    - Allocation: in every state the methods of the KV-cache manager reach, for full,
      sliding-window, chunked-local and NELSSA groups, the reference count of each block is the
      number of table entries that hold it; allocate_slots grants exactly the
      blocks needed or refuses without effect; freeing releases everything; NELSSA's
      sparsification keeps exactly the head and tail blocks.
    - Offloading: slots are partitioned between keys and the free list for every lawful
      policy, if no store repeats a key; stored blocks are found and read from the slot they were written to; ARC's
      target stays within its bounds; the filter stores only reused blocks.
    - Encoder cache: exact slot accounting; the admission test is exact.
    - Scheduling: the priority queue refines a sorted list while the keys of its
      requests stay the same; the stop check is exact; a step
      only moves requests between the running list and the queues, schedules each request at
      most once with a positive number of tokens within the budget, cannot fail its own
      assertions (unless first-come first-served preemption meets long requests), and always
      terminates.
    - Engine: in every engine reachable by adding and aborting requests, steps without a
      batch queue (that do not schedule and preempt the same streaming session), pauses and
      resets, every registered request is finished or in exactly one
      of the running list and the two queues, as its status says; finishing requests touches
      exactly the named ones; pausing with aborts drains the engine.
    - Sizing: every grouping strategy partitions the layers and gives blocks of one positive
      size (with only MLA layers next to sliding-window MLA layers); the tensors of a worker fill its
      memory and hold every layer once; the search
      returns the largest model length that fits; the configurations of all workers agree and
      cover one request of that length, and a KV-cache manager built on such a configuration
      (with one block more, for the null block) grants it.
    - Worker: removing, adding, condensing and reordering always return, keep the requests in
      the first rows and give every request exactly its own data, apart from the allowed-token mask
      and the layout of compacted rows; compacting the row of a long
      request keeps the slots of its head, its tail and all tokens generated later.
    - Draft tokens: the search in linear time proposes what a direct search for the longest
      earlier occurrence of the last tokens proposes, for every request of a batch.
    - NELSSA: whatever chunks a prompt arrives in, exactly its middle tokens are offloaded in
      order, to the CPU if no copy of the offload stream is overtaken; after clustering and reorganization (by PyTorch or C++, with the same result)
      the fused gathering copies the tokens assigned to the clusters; merging the attention of
      GPU and CPU, by mask or with fixed shapes, gives the attention over all their tokens;
      staging slots are never both free and held, held twice or overwritten while held; under
      every interleaving of the streams a copy has no older data than its own call's.
    - RPC: tensors survive encoding and decoding, and cut-off messages raise; a remote call has
      the result and the effect of the local call; a client never takes the answer to another
      message, also after timeouts.
    - Findings.v, NelssaFindings.v and the ends of EngineProps.v, SizingProps.v, WorkerProps.v and
      NelssaStreams.v: executions in which the code does not do
      what it means to.

    ** Not modelled
    The invariant of the engine does not cover several batches in flight. Of the scheduler, log
    probabilities, routed experts, grammar bitmasks, statistics, time stamps and log messages
    are left out. Residency metrics (kv_cache_metrics.py) sample wall-clock time. Of NELSSA, the
    k-means iterations, the similarity search that selects clusters and the fused kernels compute
    on floats. The forward pass and sampling of the model runner, the models and
    kernels are tensor code on PyTorch and CUDA; executors, clients, entry points and KV connectors are process and
    network I/O, as are the handshakes and sockets of the engine core and of the RPC server. Of the connectors only
    the calls the scheduler makes are modelled, as functions on a state that is a parameter.

    ** This file
    The shared vocabulary: Python exceptions, the monad, integer and list helpers, Hoare
    triples, tactics and hint databases. *)
From Stdlib Require Import ZArith Lia.
From stdpp Require Export base numbers gmap fin_maps strings list.

#[global] Open Scope Z_scope.

(** ** Python exceptions *)

(** The exception classes the modelled code can raise. [AttributeError] is what
    Python raises for an attribute access on [None], [StructError] is struct.error. [OutOfFuel] is not a Python
    exception: it marks a [while] loop whose modelled iteration bound was too small, and
    the termination theorems show that it does not occur. *)
Inductive exn :=
  | ValueError | RuntimeError | AssertionError | IndexError | KeyError
  | AttributeError | OverflowError | NotImplementedError | ZeroDivisionError
  | StopIteration | TypeError | StructError | UnpicklingError | ConnectionError | OutOfFuel.

#[export] Instance exn_eq_dec : EqDecision exn.
Proof. solve_decision. Defined.

(** Result of a call: a value or a raised exception. *)
Inductive res (A : Type) :=
  | Ok (a : A)
  | Err (e : exn).
Arguments Ok {A} _.
Arguments Err {A} _.

(** ** The state-and-exception monad
    A method that mutates an object of state [S] and returns [A]. The state is kept
    when an exception is raised, as in Python. *)
Definition M (S A : Type) : Type := S -> res A * S.

Section monad.
Context {S : Type}.

Definition ret {A} (a : A) : M S A := fun s => (Ok a, s).
Definition raise {A} (e : exn) : M S A := fun s => (Err e, s).
Definition bind {A B} (m : M S A) (k : A -> M S B) : M S B := fun s =>
  match m s with
  | (Ok a, s') => k a s'
  | (Err e, s') => (Err e, s')
  end.
Definition get : M S S := fun s => (Ok s, s).
Definition put (s : S) : M S unit := fun _ => (Ok tt, s).
Definition modify (f : S -> S) : M S unit := fun s => (Ok tt, f s).
Definition gets {A} (f : S -> A) : M S A := fun s => (Ok (f s), s).
Definition lift {A} (r : res A) : M S A := fun s => (r, s).

(** Python's [assert]. *)
Definition assert (b : bool) : M S unit :=
  if b then ret tt else raise AssertionError.

(** [for x in l: body x] *)
Fixpoint foreach {A} (l : list A) (body : A -> M S unit) : M S unit :=
  match l with
  | [] => ret tt
  | x :: l' => bind (body x) (fun _ => foreach l' body)
  end.

(** [\[body x for x in l\]] with effects, in order. *)
Fixpoint traverse {A B} (l : list A) (body : A -> M S B) : M S (list B) :=
  match l with
  | [] => ret []
  | x :: l' => bind (body x) (fun y => bind (traverse l' body) (fun ys => ret (y :: ys)))
  end.
End monad.

(** Run a computation on a component of a larger state. *)
Definition zoom {S T A} (g : S -> T) (p : T -> S -> S) (m : M T A) : M S A := fun s =>
  match m (g s) with (r, t) => (r, p t s) end.

Declare Scope py_scope.
Delimit Scope py_scope with py.
Notation "'let*' x ':=' m 'in' k" := (bind m (fun x => k))
  (at level 10, x binder, m at level 100, k at level 200) : py_scope.
Notation "m ';;;' k" := (bind m (fun _ => k))
  (at level 199, right associativity) : py_scope.
#[global] Open Scope py_scope.

(** ** Hoare triples
    [triple P m Q]: from a state satisfying [P], [m] returns normally with a value
    and a state satisfying [Q] (total correctness, no exception). *)
Definition triple {S A} (P : S -> Prop) (m : M S A) (Q : A -> S -> Prop) : Prop :=
  forall s, P s -> exists a s', m s = (Ok a, s') /\ Q a s'.

Section triples.
Context {S : Type}.

Lemma triple_ret {A} (P : S -> Prop) (a : A) (Q : A -> S -> Prop) :
  (forall s, P s -> Q a s) -> triple P (ret a) Q.
Proof. intros H s Hs. exists a, s. split; [reflexivity | auto]. Qed.

Lemma triple_bind {A B} P (m : M S A) R (k : A -> M S B) Q :
  triple P m R -> (forall a, triple (R a) (k a) Q) -> triple P (bind m k) Q.
Proof.
  intros Hm Hk s Hs. destruct (Hm s Hs) as (a & s' & E & HR).
  destruct (Hk a s' HR) as (b & s'' & E' & HQ).
  exists b, s''. unfold bind. rewrite E. auto.
Qed.

(** Loop rule for [for x in l]: the invariant is indexed by the processed prefix
    and the remaining suffix. *)
Lemma triple_foreach {A} (I : list A -> list A -> S -> Prop) (body : A -> M S unit) :
  (forall pre x post, triple (I pre (x :: post)) (body x) (fun _ => I (pre ++ [x]) post)) ->
  forall l pre, triple (I pre l) (foreach l body) (fun _ => I (pre ++ l) []).
Proof.
  intros Hb l. induction l as [|x l IH]; intros pre; simpl.
  - apply triple_ret. intros st Hst. by rewrite app_nil_r.
  - eapply triple_bind; [apply Hb |]. intros [].
    replace (pre ++ x :: l) with ((pre ++ [x]) ++ l) by (by rewrite <- app_assoc).
    apply IH.
Qed.

End triples.

(** ** Preservation of an invariant by a method, also when it raises *)
Definition preserves {S A} (I : S -> Prop) (f : M S A) : Prop :=
  forall s r s', I s -> f s = (r, s') -> I s'.

Section preserves.
Context {S : Type} (I : S -> Prop).

Lemma preserves_bind {A B} (f : M S A) (k : A -> M S B) :
  preserves I f -> (forall a, preserves I (k a)) -> preserves I (bind f k).
Proof.
  intros Hf Hk s r s' Hs. unfold bind. destruct (f s) as [[a|e] s1] eqn:E.
  - apply Hk. by eapply Hf.
  - intros [= <- <-]. by eapply Hf.
Qed.
Lemma preserves_ret {A} (a : A) : preserves I (ret a).
Proof. intros s r s' Hs. by intros [= <- <-]. Qed.
Lemma preserves_raise {A} e : preserves I (raise (A := A) e).
Proof. intros s r s' Hs. by intros [= <- <-]. Qed.
Lemma preserves_gets {A} (g : S -> A) : preserves I (gets g).
Proof. intros s r s' Hs. by intros [= <- <-]. Qed.
Lemma preserves_assert b : preserves I (assert b).
Proof. destruct b; [apply preserves_ret | apply preserves_raise]. Qed.
Lemma preserves_modify f : (forall s, I s -> I (f s)) -> preserves I (modify f).
Proof. intros Hf s r s' Hs [= <- <-]. by apply Hf. Qed.
Lemma preserves_foreach {A} (l : list A) f : (forall x, preserves I (f x)) -> preserves I (foreach l f).
Proof. intros Hf. induction l; simpl; [apply preserves_ret | by apply preserves_bind]. Qed.
Lemma preserves_traverse {A B} (l : list A) (f : A -> M S B) :
  (forall x, preserves I (f x)) -> preserves I (traverse l f).
Proof.
  intros Hf. induction l; simpl; [apply preserves_ret |].
  apply preserves_bind; [done | intros b]. apply preserves_bind; [done | intros bs]. apply preserves_ret.
Qed.
End preserves.

Create HintDb preserve.
#[export] Hint Resolve preserves_bind preserves_ret preserves_raise preserves_gets preserves_assert
  preserves_modify preserves_foreach preserves_traverse : preserve.

(** ** Python integers and lists *)

(** Python's ceiling division [-(a // -b)] (vllm/utils/math_utils.py). *)
Definition cdiv (a b : Z) : Z := - (a / - b).

Lemma cdiv_spec a b : 0 < b -> cdiv a b = (a + b - 1) / b.
Proof.
  intros Hb. unfold cdiv.
  pose proof (Z.div_mod a (- b) ltac:(lia)).
  pose proof (Z.mod_neg_bound a (- b) ltac:(lia)).
  apply Z.div_unique_pos with (r := a + b - 1 - b * - (a / - b)); lia.
Qed.

Lemma cdiv_le_iff a b k : 0 < b -> cdiv a b <= k <-> a <= k * b.
Proof.
  intros Hb. rewrite cdiv_spec by done.
  pose proof (Z.div_mod (a + b - 1) b ltac:(lia)).
  pose proof (Z.mod_pos_bound (a + b - 1) b ltac:(lia)). nia.
Qed.

Lemma cdiv_bounds a b : 0 < b -> a <= cdiv a b * b < a + b.
Proof.
  intros Hb. rewrite cdiv_spec by done.
  pose proof (Z.div_mod (a + b - 1) b ltac:(lia)).
  pose proof (Z.mod_pos_bound (a + b - 1) b ltac:(lia)). nia.
Qed.

Lemma cdiv_nonneg a b : 0 < b -> 0 <= a -> 0 <= cdiv a b.
Proof. intros Hb Ha. pose proof (cdiv_bounds a b Hb). nia. Qed.

(** [len(l)] *)
Definition zlen {A} (l : list A) : Z := Z.of_nat (length l).

Lemma zlen_nonneg {A} (l : list A) : 0 <= zlen l.
Proof. unfold zlen. lia. Qed.

Lemma zlen_app {A} (l k : list A) : zlen (l ++ k) = zlen l + zlen k.
Proof. unfold zlen. rewrite length_app. lia. Qed.

Lemma zlen_cons {A} (x : A) (l : list A) : zlen (x :: l) = 1 + zlen l.
Proof. unfold zlen. simpl. lia. Qed.

(** [l\[i\]] with Python's negative indices; [IndexError] out of range. *)
Definition py_index {A} (l : list A) (i : Z) : res A :=
  let j := if i <? 0 then i + zlen l else i in
  if j <? 0 then Err IndexError
  else match l !! Z.to_nat j with Some x => Ok x | None => Err IndexError end.

Lemma py_index_nat {A} (l : list A) (i : nat) x :
  l !! i = Some x -> py_index l (Z.of_nat i) = Ok x.
Proof.
  intros H. unfold py_index. cbv zeta. rewrite !(proj2 (Z.ltb_ge (Z.of_nat i) 0)) by lia.
  by rewrite Nat2Z.id, H.
Qed.

Lemma py_index_last {A} (l : list A) x : py_index (l ++ [x]) (-1) = Ok x.
Proof.
  unfold py_index. change (-1 <? 0) with true. cbv zeta iota. rewrite zlen_app. pose proof (zlen_nonneg l).
  replace (zlen [x]) with 1 by done. rewrite (proj2 (Z.ltb_ge _ _)) by lia.
  rewrite lookup_app_r by (unfold zlen in *; lia).
  replace (Z.to_nat (-1 + (zlen l + 1)) - length l)%nat with 0%nat by (unfold zlen in *; lia).
  done.
Qed.

(** [l\[i\] = x] *)
Definition py_set {A} (l : list A) (i : Z) (x : A) : res (list A) :=
  let j := if i <? 0 then i + zlen l else i in
  if (j <? 0) || (zlen l <=? j) then Err IndexError else Ok (<[Z.to_nat j := x]> l).

(** Clamping of a slice bound: negative bounds count from the end. *)
Definition slice_bound (n i : Z) : Z :=
  if i <? 0 then Z.max 0 (i + n) else Z.min i n.

(** [l\[a:b\]] *)
Definition py_slice {A} (l : list A) (a b : Z) : list A :=
  let a' := slice_bound (zlen l) a in
  let b' := slice_bound (zlen l) b in
  take (Z.to_nat (b' - a')) (drop (Z.to_nat a') l).

(** [range(n)] *)
Definition range (n : Z) : list Z := seqZ 0 n.

Lemma range_split n pre x post :
  range n = pre ++ x :: post -> x = zlen pre /\ zlen pre < n.
Proof.
  intros E. assert (Hl : range n !! length pre = Some x).
  { rewrite E, lookup_app_r by lia. by rewrite Nat.sub_diag. }
  unfold range in Hl. apply lookup_seqZ in Hl as [-> Hl]. unfold zlen. lia.
Qed.

Lemma py_slice_nonneg {A} (l : list A) a b :
  0 <= a <= b -> py_slice l a b = take (Z.to_nat (b - a)) (drop (Z.to_nat a) l).
Proof.
  intros H. unfold py_slice, slice_bound, zlen.
  rewrite !(proj2 (Z.ltb_ge _ _)) by lia.
  destruct (decide (a <= Z.of_nat (length l))) as [Ha|Ha].
  - rewrite (Z.min_l a) by done.
    destruct (decide (b <= Z.of_nat (length l))) as [Hb|Hb].
    + by rewrite (Z.min_l b).
    + rewrite (Z.min_r b) by lia.
      rewrite !take_ge; [done | rewrite length_drop; lia ..].
  - rewrite !drop_ge by lia. by rewrite !take_nil.
Qed.

Lemma length_py_slice {A} (l : list A) a b :
  0 <= a <= b -> b <= zlen l -> length (py_slice l a b) = Z.to_nat (b - a).
Proof.
  intros H Hb. unfold zlen in Hb. rewrite py_slice_nonneg by done.
  rewrite length_take, length_drop. lia.
Qed.

Lemma elem_of_py_slice {A} (l : list A) a b x : x ∈ py_slice l a b -> x ∈ l.
Proof.
  unfold py_slice. intros [i Hi]%list_elem_of_lookup. apply lookup_take_Some in Hi as [Hi _].
  rewrite lookup_drop in Hi. by eapply list_elem_of_lookup_2.
Qed.

(** ** Generic list facts *)

Lemma NoDup_app_cons_not_in {A} (l k : list A) x :
  NoDup (l ++ x :: k) -> (x ∉ l) /\ (x ∉ k).
Proof.
  rewrite NoDup_app, NoDup_cons. intros (_ & H & Hx & _). split; [| done].
  intros Hin. apply (H x Hin). by left.
Qed.

Lemma NoDup_remove_mid {A} (l k : list A) x :
  NoDup (l ++ x :: k) -> NoDup (l ++ k).
Proof.
  rewrite !NoDup_app, NoDup_cons. intros (? & H & ? & ?). split_and!; [done | | done].
  intros y Hy Hk. apply (H y Hy). by right.
Qed.

Lemma filter_id {A} (P : A -> Prop) `{!forall x, Decision (P x)} (l : list A) :
  (forall x, x ∈ l -> P x) -> filter P l = l.
Proof.
  induction l as [|x l IH]; [done |]. intros HP. rewrite filter_cons_True by (apply HP; by left).
  rewrite IH; [done |]. intros y Hy. apply HP. by right.
Qed.

Lemma filter_ext_in {A} (P Q : A -> Prop) `{!forall x, Decision (P x), !forall x, Decision (Q x)} (l : list A) :
  (forall x, x ∈ l -> P x <-> Q x) -> filter P l = filter Q l.
Proof.
  induction l as [|x l IH]; [done |]. intros HPQ. specialize (IH (fun y Hy => HPQ y (list_elem_of_further _ _ _ Hy))).
  destruct (decide (P x)) as [HP | HP]; pose proof (HPQ x (list_elem_of_here _ _)) as Hx.
  - rewrite !filter_cons_True by tauto. by rewrite IH.
  - rewrite !filter_cons_False by tauto. done.
Qed.

(** Number of occurrences. *)
Section occ.
Context {A : Type} `{EqDecision A}.
Implicit Types (x : A) (l k : list A).

Definition occ (x : A) (l : list A) : Z := zlen (filter (fun y => y = x) l).

Lemma occ_nil x : occ x [] = 0.
Proof. done. Qed.
Lemma occ_cons x y l : occ x (y :: l) = (if decide (y = x) then 1 else 0) + occ x l.
Proof. unfold occ. rewrite filter_cons. case_decide; [apply zlen_cons | lia]. Qed.
Lemma occ_app x l k : occ x (l ++ k) = occ x l + occ x k.
Proof. unfold occ. by rewrite filter_app, zlen_app. Qed.
Lemma occ_nonneg x l : 0 <= occ x l.
Proof. apply zlen_nonneg. Qed.
Lemma occ_pos x l : 0 < occ x l <-> x ∈ l.
Proof.
  induction l as [|y l IH]; [rewrite occ_nil, elem_of_nil; lia |].
  rewrite occ_cons, elem_of_cons, <- IH. pose proof (occ_nonneg x l). case_decide; subst; [|].
  - split; [by left | lia].
  - split; [right; lia | intros [? | ?]; [congruence | lia]].
Qed.
Lemma occ_zero x l : occ x l = 0 <-> x ∉ l.
Proof. rewrite <- occ_pos. pose proof (occ_nonneg x l). lia. Qed.
Lemma occ_NoDup x l : NoDup l -> occ x l = if decide (x ∈ l) then 1 else 0.
Proof.
  induction l as [|y l IH]; [done |]. intros [Hy Hl]%NoDup_cons. rewrite occ_cons, IH by done.
  destruct (decide (y = x)) as [-> | Hne].
  - rewrite decide_False by done. by rewrite decide_True by (by left).
  - destruct (decide (x ∈ l)) as [Hx | Hx].
    + by rewrite decide_True by (by right).
    + rewrite decide_False; [done |]. intros [? | ?]%elem_of_cons; congruence.
Qed.
Lemma occ_filter (P : A -> Prop) `{!forall x, Decision (P x)} x l : P x -> occ x (filter P l) = occ x l.
Proof.
  intros HP. unfold occ. rewrite list_filter_filter. f_equal. apply list_filter_iff.
  intros y. split; [by intros [? _] | intros ->; done].
Qed.
Lemma occ_le_NoDup l : (forall x, occ x l <= 1) -> NoDup l.
Proof.
  induction l as [|y l IH]; intros H1; [constructor |]. apply NoDup_cons. split.
  - intros Hy%occ_pos. specialize (H1 y). rewrite occ_cons, decide_True in H1 by done. lia.
  - apply IH. intros x. specialize (H1 x). rewrite occ_cons in H1. case_decide; lia.
Qed.
Lemma occ_replicate_ne x y n : x <> y -> occ x (replicate n y) = 0.
Proof. intros Hne. apply occ_zero. intros [? _]%elem_of_replicate. congruence. Qed.
Lemma occ_Permutation x l k : l ≡ₚ k -> occ x l = occ x k.
Proof. intros H. unfold occ, zlen. by rewrite H. Qed.
Lemma occ_reverse x l : occ x (reverse l) = occ x l.
Proof. apply occ_Permutation. apply reverse_Permutation. Qed.
End occ.

Lemma Forall2_elem_r {A B} (P : A -> B -> Prop) l k y : Forall2 P l k -> y ∈ k -> exists x, x ∈ l /\ P x y.
Proof.
  intros H [i Hy]%list_elem_of_lookup. destruct (Forall2_lookup_r _ _ _ _ _ H Hy) as (x & Hx & ?).
  exists x. split; [by eapply list_elem_of_lookup_2 | done].
Qed.

(** ** Automation *)

(** Turn boolean tests on integers into propositions. *)
Ltac zbool :=
  repeat match goal with
  | H : (_ <? _) = true |- _ => apply Z.ltb_lt in H
  | H : (_ <? _) = false |- _ => apply Z.ltb_ge in H
  | H : (_ <=? _) = true |- _ => apply Z.leb_le in H
  | H : (_ <=? _) = false |- _ => apply Z.leb_gt in H
  | H : (_ =? _) = true |- _ => apply Z.eqb_eq in H
  | H : (_ =? _) = false |- _ => apply Z.eqb_neq in H
  | H : negb _ = true |- _ => apply negb_true_iff in H
  | H : negb _ = false |- _ => apply negb_false_iff in H
  | H : _ && _ = true |- _ => apply andb_true_iff in H as [? ?]
  end.

(** Unfold the monad on a concrete state. *)
Ltac mred :=
  unfold bind, ret, raise, get, put, modify, gets, lift, assert, zoom in *; simpl in *.

Create HintDb py.
#[export] Hint Resolve zlen_nonneg cdiv_nonneg : py.
Create Rewrite HintDb pylen.
Create Rewrite HintDb occ.
#[export] Hint Rewrite @occ_nil @occ_cons @occ_app @occ_reverse : occ.
#[export] Hint Rewrite @zlen_app @zlen_cons @length_app @length_take @length_drop : pylen.
