(* ===== verification/OrdDict.v ===== *)
(** * OrdDict
    Python's insertion-ordered [dict] / [OrderedDict] as an association list without
    duplicate keys: lookup, assignment (in place for an existing key, at the end for a new
    one), deletion, [move_to_end] and [popitem(last=False)]. *)
From S2P Require Import Prelude.

Section od.
Context {K V : Type} `{EqDecision K}.
Implicit Types (d : list (K * V)) (k : K) (v : V).

(** [d.get(k)] *)
Fixpoint od_get (k : K) (d : list (K * V)) : option V :=
  match d with
  | [] => None
  | (k', v) :: d' => if decide (k = k') then Some v else od_get k d'
  end.

(** [k in d] *)
Definition od_mem (k : K) (d : list (K * V)) : bool :=
  match od_get k d with Some _ => true | None => false end.

(** [d\[k\] = v] *)
Fixpoint od_set (k : K) (v : V) (d : list (K * V)) : list (K * V) :=
  match d with
  | [] => [(k, v)]
  | (k', v') :: d' => if decide (k = k') then (k', v) :: d' else (k', v') :: od_set k v d'
  end.

(** [del d\[k\]] / [d.pop(k, None)] *)
Fixpoint od_del (k : K) (d : list (K * V)) : list (K * V) :=
  match d with
  | [] => []
  | (k', v') :: d' => if decide (k = k') then d' else (k', v') :: od_del k d'
  end.

(** [d.move_to_end(k)]; [None] when the key is missing (Python raises KeyError). *)
Definition od_move_to_end (k : K) (d : list (K * V)) : option (list (K * V)) :=
  match od_get k d with
  | Some v => Some (od_del k d ++ [(k, v)])
  | None => None
  end.

Definition od_keys (d : list (K * V)) : list K := d.*1.

(** The representation invariant: no duplicate keys. *)
Definition od_ok (d : list (K * V)) : Prop := NoDup (od_keys d).

Lemma od_get_None k d : od_get k d = None <-> k ∉ od_keys d.
Proof.
  induction d as [|[k' v'] d IH]; simpl; [set_solver |].
  case_decide; subst; set_solver.
Qed.

Lemma od_get_Some_key k v d : od_get k d = Some v -> k ∈ od_keys d.
Proof.
  intros H. destruct (decide (k ∈ od_keys d)) as [Hk | Hk]; [done |].
  apply od_get_None in Hk. congruence.
Qed.

Lemma od_get_elem k v d : od_get k d = Some v -> (k, v) ∈ d.
Proof.
  induction d as [|[k' v'] d IH]; simpl; [done |].
  case_decide; subst; [intros [= ->]; by left | intros Hg; right; auto].
Qed.

Lemma od_elem_get k v d : od_ok d -> (k, v) ∈ d -> od_get k d = Some v.
Proof.
  unfold od_ok, od_keys. induction d as [|[k' v'] d IH]; simpl; [set_solver |].
  rewrite NoDup_cons. intros [Hn Hd] Hin. apply elem_of_cons in Hin as [[= -> ->] | Hin].
  - by rewrite decide_True.
  - rewrite decide_False; [auto |]. intros ->. apply Hn. apply list_elem_of_fmap. by exists (k', v).
Qed.

Lemma od_get_set k v d k' : od_get k' (od_set k v d) = if decide (k' = k) then Some v else od_get k' d.
Proof.
  induction d as [|[j u] d IH]; simpl.
  - repeat case_decide; congruence.
  - repeat (case_decide; simpl; subst); try congruence; rewrite IH; by repeat case_decide.
Qed.

Lemma od_keys_set_old k v d : k ∈ od_keys d -> od_keys (od_set k v d) = od_keys d.
Proof.
  unfold od_keys. induction d as [|[j u] d IH]; simpl; [set_solver |].
  destruct (decide (k = j)) as [-> | Hne]; simpl; [done |].
  intros [? | Hk]%elem_of_cons; [done |]. f_equal. by apply IH.
Qed.

Lemma od_set_new k v d : od_get k d = None -> od_set k v d = d ++ [(k, v)].
Proof.
  induction d as [|[j u] d IH]; simpl; [done |]. case_decide; [done |]. intros Hg. by rewrite IH.
Qed.

Lemma od_ok_set k v d : od_ok d -> od_ok (od_set k v d).
Proof.
  unfold od_ok. intros Hd. destruct (decide (k ∈ od_keys d)) as [Hk | Hk].
  - by rewrite od_keys_set_old.
  - rewrite od_set_new by (by apply od_get_None). unfold od_keys. rewrite fmap_app. simpl.
    apply NoDup_app. split_and!; [done | set_solver | apply NoDup_singleton].
Qed.

Lemma od_get_del k d k' : od_ok d -> od_get k' (od_del k d) = if decide (k' = k) then None else od_get k' d.
Proof.
  unfold od_ok, od_keys. induction d as [|[j u] d IH]; simpl; [by case_decide |].
  rewrite NoDup_cons. intros [Hn Hd].
  destruct (decide (k = j)) as [-> | Hne]; simpl.
  - destruct (decide (k' = j)) as [-> | Hne]; [by apply od_get_None | done].
  - rewrite IH by done. repeat case_decide; congruence.
Qed.

Lemma od_elem_del k d x : od_ok d -> x ∈ od_del k d <-> x ∈ d /\ x.1 <> k.
Proof.
  unfold od_ok, od_keys. induction d as [|[j u] d IH]; simpl; [set_solver |].
  rewrite NoDup_cons. intros [Hn Hd]. destruct (decide (k = j)) as [-> | Hne].
  - rewrite elem_of_cons. split.
    + intros Hx. split; [by right |]. intros <-. apply Hn. apply list_elem_of_fmap. eauto.
    + intros [[-> | Hx] Hne]; [done | done].
  - rewrite !elem_of_cons, IH by done. split.
    + intros [-> | [Hx Hk]]; [split; [by left | simpl; congruence] | split; [by right | done]].
    + intros [[-> | Hx] Hk]; [by left | by right].
Qed.

Lemma od_keys_del_elem k d k' : od_ok d -> k' ∈ od_keys (od_del k d) <-> k' ∈ od_keys d /\ k' <> k.
Proof.
  intros Hok. unfold od_keys. rewrite !list_elem_of_fmap. split.
  - intros (x & -> & Hx). apply od_elem_del in Hx as [Hx Hne]; [eauto | done].
  - intros [(x & -> & Hx) Hne]. exists x. split; [done |]. by apply od_elem_del.
Qed.

Lemma od_del_sublist k d : od_del k d `sublist_of` d.
Proof.
  induction d as [|[j u] d IH]; simpl; [done |]. case_decide; [by apply sublist_cons | by apply sublist_skip].
Qed.

Lemma od_ok_del k d : od_ok d -> od_ok (od_del k d).
Proof.
  unfold od_ok. intros H. eapply sublist_NoDup; [exact H |].
  unfold od_keys. apply fmap_sublist, od_del_sublist.
Qed.

Lemma od_del_None k d : od_get k d = None -> od_del k d = d.
Proof.
  induction d as [|[j u] d IH]; simpl; [done |]. case_decide; [done |]. intros Hg. by rewrite IH.
Qed.

Lemma od_length_del k v d : od_get k d = Some v -> length d = S (length (od_del k d)).
Proof.
  induction d as [|[j u] d IH]; simpl; [done |]. case_decide; [done |]. simpl. auto.
Qed.

Lemma od_length_set k v d :
  length (od_set k v d) = (if od_mem k d then length d else S (length d)).
Proof.
  unfold od_mem. induction d as [|[j u] d IH]; simpl; [done |].
  case_decide; [done |]. simpl. rewrite IH. by destruct (od_get k d).
Qed.

(** *** Dictionaries up to order *)

Lemma od_get_app k d1 d2 :
  od_get k (d1 ++ d2) = match od_get k d1 with Some v => Some v | None => od_get k d2 end.
Proof. induction d1 as [|[j u] d1 IH]; simpl; [done |]. by case_decide. Qed.

Lemma od_ok_perm d d' : d ≡ₚ d' -> od_ok d -> od_ok d'.
Proof. unfold od_ok, od_keys. intros Hp. by rewrite Hp. Qed.

Lemma od_get_perm k d d' : od_ok d -> d ≡ₚ d' -> od_get k d = od_get k d'.
Proof.
  intros Hok Hp. pose proof (od_ok_perm _ _ Hp Hok) as Hok'.
  destruct (od_get k d) as [v|] eqn:E; symmetry.
  - apply od_elem_get; [done |]. rewrite <- Hp. by apply od_get_elem.
  - apply od_get_None in E. apply od_get_None. unfold od_keys in *. by rewrite <- Hp.
Qed.

Lemma od_del_perm k v d : od_get k d = Some v -> d ≡ₚ (k, v) :: od_del k d.
Proof.
  induction d as [|[j u] d IH]; simpl; [done |]. case_decide; subst; [by intros [= ->] |].
  intros Hg. rewrite (IH Hg) at 1. apply Permutation_swap.
Qed.

Lemma od_set_perm k v v' d : od_get k d = Some v -> od_set k v' d ≡ₚ (k, v') :: od_del k d.
Proof.
  induction d as [|[j u] d IH]; simpl; [done |]. case_decide; subst; [done |].
  intros Hg. rewrite (IH Hg). apply Permutation_swap.
Qed.

Lemma od_set_set_perm k v d d' : od_ok d -> d ≡ₚ d' -> od_set k v d ≡ₚ od_set k v d'.
Proof.
  intros Hok Hp. pose proof (od_get_perm k d d' Hok Hp) as Hg. destruct (od_get k d) as [u|] eqn:E.
  - symmetry in Hg. rewrite (od_set_perm k u v d E), (od_set_perm k u v d' Hg). apply perm_skip.
    apply (Permutation_cons_inv (a := (k, u))).
    by rewrite <- (od_del_perm k u d E), <- (od_del_perm k u d' Hg).
  - rewrite !od_set_new by done. by rewrite Hp.
Qed.

Lemma od_move_to_end_spec k v d :
  od_ok d -> od_get k d = Some v ->
  od_move_to_end k d = Some (od_del k d ++ [(k, v)]) /\ od_ok (od_del k d ++ [(k, v)]) /\
  forall k', od_get k' (od_del k d ++ [(k, v)]) = od_get k' d.
Proof.
  intros Hok Hg. unfold od_move_to_end. rewrite Hg. split; [done |].
  rewrite <- (od_set_new k v (od_del k d)) by (rewrite od_get_del, decide_True; done).
  split; [by apply od_ok_set, od_ok_del |].
  intros k'. rewrite od_get_set, od_get_del by done. case_decide; subst; done.
Qed.
End od.

Create HintDb od.
#[export] Hint Resolve od_ok_set od_ok_del od_get_Some_key : od.
