(* ===== verification/KVCacheBlock.v ===== *)
(** * KVCacheBlock
    The KV-cache block objects of vllm/v1/core/kv_cache_utils.py. Blocks are mutable
    objects shared by reference (the pool's list, the free list, the block tables of the
    requests and the prefix-cache map all hold the same objects), so they live in a heap
    [gmap loc KVCacheBlock] and every holder keeps a location. *)
From S2P Require Import Prelude.

(** An object reference. *)
Abbreviation loc := nat.

(** Python [bytes]: a list of integers in [0, 256). *)
Abbreviation bytes := (list Z).

(** class KVCacheBlock *)
Record KVCacheBlock := mkKVCacheBlock {
  block_id : Z;
  ref_cnt : Z;
  _block_hash : option bytes;
  prev_free_block : option loc;
  next_free_block : option loc;
  is_null : bool;
}.

(** KVCacheBlock(block_id=i): the dataclass constructor with its defaults. *)
Definition new_block (i : Z) : KVCacheBlock := mkKVCacheBlock i 0 None None None false.

Definition upd_ref_cnt (f : Z -> Z) (b : KVCacheBlock) : KVCacheBlock :=
  mkKVCacheBlock (block_id b) (f (ref_cnt b)) (_block_hash b)
    (prev_free_block b) (next_free_block b) (is_null b).
Definition with_hash (h : option bytes) (b : KVCacheBlock) : KVCacheBlock :=
  mkKVCacheBlock (block_id b) (ref_cnt b) h (prev_free_block b) (next_free_block b) (is_null b).
Definition with_prev (v : option loc) (b : KVCacheBlock) : KVCacheBlock :=
  mkKVCacheBlock (block_id b) (ref_cnt b) (_block_hash b) v (next_free_block b) (is_null b).
Definition with_next (v : option loc) (b : KVCacheBlock) : KVCacheBlock :=
  mkKVCacheBlock (block_id b) (ref_cnt b) (_block_hash b) (prev_free_block b) v (is_null b).
Definition with_null (v : bool) (b : KVCacheBlock) : KVCacheBlock :=
  mkKVCacheBlock (block_id b) (ref_cnt b) (_block_hash b) (prev_free_block b) (next_free_block b) v.

(** Reset of the block hash on eviction (method reset_hash). *)
Definition reset_hash (b : KVCacheBlock) : KVCacheBlock := with_hash None b.

Abbreviation heap := (gmap loc KVCacheBlock).

(** ** The two views of a heap: links and data *)

(** The link fields of an object ([None] as well for an unallocated location). *)
Definition nx (h : heap) (l : loc) : option loc := h !! l ≫= next_free_block.
Definition pv (h : heap) (l : loc) : option loc := h !! l ≫= prev_free_block.

(** The fields the free list never writes. *)
Definition data (b : KVCacheBlock) : Z * Z * option bytes * bool :=
  (block_id b, ref_cnt b, _block_hash b, is_null b).

(** Two heaps that differ in link fields only. *)
Definition same_data (h h' : heap) : Prop := forall l, data <$> h !! l = data <$> h' !! l.

#[export] Instance same_data_equivalence : Equivalence same_data.
Proof.
  split.
  - intros h l. reflexivity.
  - intros h h' H l. symmetry. apply H.
  - intros h1 h2 h3 H1 H2 l. etransitivity; [apply H1 | apply H2].
Qed.

#[export] Instance is_Some_lookup_proper l :
  Proper (same_data ==> iff) (fun h : heap => is_Some (h !! l)).
Proof.
  intros h h' H. specialize (H l). rewrite <- !(fmap_is_Some data). by rewrite H.
Qed.

Section links.
Implicit Types (h : heap) (l z : loc) (v : option loc).

Lemma is_Some_alter (f : KVCacheBlock -> KVCacheBlock) h l z :
  is_Some (alter f l h !! z) <-> is_Some (h !! z).
Proof. rewrite lookup_alter. case_decide; subst; [apply fmap_is_Some | done]. Qed.

Lemma nx_next h l v z : is_Some (h !! l) ->
  nx (alter (with_next v) l h) z = if decide (l = z) then v else nx h z.
Proof.
  intros [b Hb]. unfold nx. rewrite lookup_alter. case_decide; subst; [by rewrite Hb | done].
Qed.
Lemma pv_prev h l v z : is_Some (h !! l) ->
  pv (alter (with_prev v) l h) z = if decide (l = z) then v else pv h z.
Proof.
  intros [b Hb]. unfold pv. rewrite lookup_alter. case_decide; subst; [by rewrite Hb | done].
Qed.
Lemma nx_prev h l v z : nx (alter (with_prev v) l h) z = nx h z.
Proof. unfold nx. rewrite lookup_alter. case_decide; subst; [by destruct (h !! z) | done]. Qed.
Lemma pv_next h l v z : pv (alter (with_next v) l h) z = pv h z.
Proof. unfold pv. rewrite lookup_alter. case_decide; subst; [by destruct (h !! z) | done]. Qed.

Lemma nx_is_Some h l z : nx h l = Some z -> is_Some (h !! l).
Proof. unfold nx. destruct (h !! l); [eauto | done]. Qed.
Lemma pv_is_Some h l z : pv h l = Some z -> is_Some (h !! l).
Proof. unfold pv. destruct (h !! l); [eauto | done]. Qed.

Lemma same_data_next h l v : same_data (alter (with_next v) l h) h.
Proof. intros z. rewrite lookup_alter. case_decide; subst; [by destruct (h !! z) | done]. Qed.
Lemma same_data_prev h l v : same_data (alter (with_prev v) l h) h.
Proof. intros z. rewrite lookup_alter. case_decide; subst; [by destruct (h !! z) | done]. Qed.

(** Updates of data fields keep the links. *)
Lemma nx_alter_data (f : KVCacheBlock -> KVCacheBlock) h l z :
  (forall b, next_free_block (f b) = next_free_block b) -> nx (alter f l h) z = nx h z.
Proof.
  intros Hf. unfold nx. rewrite lookup_alter. case_decide; subst; [| done].
  destruct (h !! z); simpl; [apply Hf | done].
Qed.
Lemma pv_alter_data (f : KVCacheBlock -> KVCacheBlock) h l z :
  (forall b, prev_free_block (f b) = prev_free_block b) -> pv (alter f l h) z = pv h z.
Proof.
  intros Hf. unfold pv. rewrite lookup_alter. case_decide; subst; [| done].
  destruct (h !! z); simpl; [apply Hf | done].
Qed.
End links.

Create HintDb links.
#[export] Hint Resolve nx_is_Some pv_is_Some same_data_next same_data_prev : links.

(** [links_tac]: read link fields through a stack of link updates. *)
Ltac links_dom :=
  repeat first [ apply is_Some_alter ]; eauto with links.
Ltac links_tac :=
  repeat first
    [ rewrite nx_prev | rewrite pv_next
    | rewrite nx_next by links_dom | rewrite pv_prev by links_dom ].

(** ** Linked segments
    [seg h a L b]: following the links from [a] one meets exactly [L] and then [b], and
    the back links mirror it. *)
Definition lnk (h : heap) (a b : loc) : Prop := nx h a = Some b /\ pv h b = Some a.

Fixpoint seg (h : heap) (a : loc) (L : list loc) (b : loc) : Prop :=
  match L with
  | [] => lnk h a b
  | x :: L' => lnk h a x /\ seg h x L' b
  end.

Lemma seg_app h a L1 x L2 b :
  seg h a (L1 ++ x :: L2) b <-> seg h a L1 x /\ seg h x L2 b.
Proof.
  revert a. induction L1 as [|y L1 IH]; intros a; simpl; [done |].
  rewrite IH. tauto.
Qed.

(** A segment only depends on the outgoing links of [a :: L] and the incoming links of
    [L ++ \[b\]]. *)
Lemma seg_frame h h' a L b :
  seg h a L b ->
  (forall z, z = a \/ z ∈ L -> nx h' z = nx h z) ->
  (forall z, z ∈ L \/ z = b -> pv h' z = pv h z) ->
  seg h' a L b.
Proof.
  revert a. induction L as [|x L IH]; intros a; simpl.
  - intros [Hn Hp] Hnx Hpv. split.
    + rewrite Hnx by auto. done.
    + rewrite Hpv by auto. done.
  - intros [[Hn Hp] Hs] Hnx Hpv. split; [split |].
    + rewrite Hnx by auto. done.
    + rewrite Hpv by (left; left). done.
    + apply IH; [done | |].
      * intros z [-> | Hz]; apply Hnx; right; [by left | by right].
      * intros z [Hz | ->]; apply Hpv; [left; by right | by right].
Qed.

Lemma seg_head_next h a L b : seg h a L b -> exists y, nx h a = Some y.
Proof. destruct L; simpl; intros H; [destruct H as [-> _] | destruct H as [[-> _] _]]; eauto. Qed.

Lemma seg_last_prev h a L b : seg h a L b -> exists y, pv h b = Some y.
Proof.
  revert a. induction L as [|x L IH]; intros a; simpl.
  - intros [_ ->]. eauto.
  - intros [_ H]. eauto.
Qed.

Lemma seg_alive h a L b z : seg h a L b -> z = a \/ z ∈ L \/ z = b -> is_Some (h !! z).
Proof.
  revert a. induction L as [|x L IH]; intros a; simpl.
  - intros [H1 H2] [-> | [Hz | ->]]; [eauto with links | by apply not_elem_of_nil in Hz | eauto with links].
  - intros [[H1 H2] Hs] [-> | [Hz | ->]]; [eauto with links | | eauto].
    apply elem_of_cons in Hz as [-> | Hz]; eauto.
Qed.

(** A pointwise chain of links over [a :: L ++ \[b\]] is a segment. *)
Lemma seg_of_links h a L b :
  (forall i x y, (a :: L ++ [b]) !! i = Some x -> (a :: L ++ [b]) !! S i = Some y -> lnk h x y) ->
  seg h a L b.
Proof.
  revert a. induction L as [|z L IH]; intros a H; simpl.
  - by apply (H 0%nat).
  - split; [by apply (H 0%nat) |]. apply IH. intros i x y Hx Hy. by apply (H (S i)).
Qed.

(** ** Open segments
    [oseg h a L]: the links along [a :: L], with no constraint on the outgoing link of the
    last element. *)
Fixpoint oseg (h : heap) (a : loc) (L : list loc) : Prop :=
  match L with
  | [] => True
  | x :: L' => lnk h a x /\ oseg h x L'
  end.

(** The last element of [a :: L]. *)
Definition lst (a : loc) (L : list loc) : loc := default a (last L).

Lemma lst_cons a x L : lst a (x :: L) = lst x L.
Proof. unfold lst. rewrite last_cons. by destruct (last L). Qed.
Lemma lst_snoc a L x : lst a (L ++ [x]) = x.
Proof. unfold lst. by rewrite last_snoc. Qed.
Lemma lst_elem a L : lst a L = a \/ lst a L ∈ L.
Proof.
  unfold lst. destruct (last L) as [x|] eqn:E; simpl; [| by left].
  right. apply last_Some in E as [L' ->]. set_solver.
Qed.

Lemma seg_oseg h a L b : seg h a L b <-> oseg h a L /\ lnk h (lst a L) b.
Proof.
  revert a. induction L as [|x L IH]; intros a; simpl.
  - unfold lst. simpl. tauto.
  - rewrite IH, lst_cons. tauto.
Qed.

Lemma oseg_snoc h a L b : oseg h a (L ++ [b]) <-> seg h a L b.
Proof.
  revert a. induction L as [|x L IH]; intros a; simpl; [tauto |]. rewrite IH. tauto.
Qed.

Lemma oseg_frame h h' a L :
  NoDup (a :: L) ->
  oseg h a L ->
  (forall z, z ∈ a :: L -> z <> lst a L -> nx h' z = nx h z) ->
  (forall z, z ∈ L -> pv h' z = pv h z) ->
  oseg h' a L.
Proof.
  revert a. induction L as [|x L IH]; intros a Hnd; simpl; [done |].
  intros [[Hn Hp] Hs] Hnx Hpv. apply NoDup_cons in Hnd as [Ha Hnd].
  split; [split |].
  - rewrite Hnx; [done | by left |]. rewrite lst_cons.
    destruct (lst_elem x L) as [-> | Hl]; [set_solver |]. intros ->. set_solver.
  - rewrite Hpv by (by left). done.
  - apply IH; [done | done | |].
    + intros z Hz Hne. apply Hnx; [by right | by rewrite lst_cons].
    + intros z Hz. apply Hpv. by right.
Qed.
