(* ===== verification/FreeQueue.v ===== *)
(** * FreeQueue
    [FreeKVCacheBlockQueue] of vllm/v1/core/kv_cache_utils.py: the doubly linked list of
    free blocks with fake head and tail, its methods translated statement by statement
    over the shared heap, and the proof that they implement a plain FIFO list with O(1)
    removal from the middle. *)
From S2P Require Import Prelude KVCacheBlock.

(** class FreeKVCacheBlockQueue: its attributes. *)
Record FreeKVCacheBlockQueue := mkQueue {
  num_free_blocks : Z;
  fake_free_list_head : loc;
  fake_free_list_tail : loc;
}.

(** The queue together with the heap its blocks live in. *)
Record qstate := mkQ { qheap : heap; fq : FreeKVCacheBlockQueue }.

Abbreviation QM A := (M qstate A).

(** ** Attribute access *)

Definition get_next (l : loc) : QM (option loc) := fun s =>
  match qheap s !! l with
  | Some b => (Ok (next_free_block b), s)
  | None => (Err AttributeError, s)
  end.
Definition get_prev (l : loc) : QM (option loc) := fun s =>
  match qheap s !! l with
  | Some b => (Ok (prev_free_block b), s)
  | None => (Err AttributeError, s)
  end.
Definition set_next (l : loc) (v : option loc) : QM unit := fun s =>
  match qheap s !! l with
  | Some b => (Ok tt, mkQ (alter (with_next v) l (qheap s)) (fq s))
  | None => (Err AttributeError, s)
  end.
Definition set_prev (l : loc) (v : option loc) : QM unit := fun s =>
  match qheap s !! l with
  | Some b => (Ok tt, mkQ (alter (with_prev v) l (qheap s)) (fq s))
  | None => (Err AttributeError, s)
  end.

(** Attribute access through an optional reference: [None.x] raises. *)
Definition deref (o : option loc) : QM loc :=
  match o with Some l => ret l | None => raise AttributeError end.

Definition add_free (d : Z) : QM unit :=
  modify (fun s => mkQ (qheap s)
    (mkQueue (num_free_blocks (fq s) + d) (fake_free_list_head (fq s)) (fake_free_list_tail (fq s)))).

(** ** The methods *)

(** __init__: one iteration of the loop that links consecutive blocks. *)
Definition init_link (blocks : list loc) (i : Z) : QM unit :=
  let* b := lift (py_index blocks i) in
  (if 0 <? i then let* p := lift (py_index blocks (i - 1)) in set_prev b (Some p) else ret tt) ;;;
  (if i <? zlen blocks - 1
   then let* n := lift (py_index blocks (i + 1)) in set_next b (Some n) else ret tt).

(** __init__: [hd] and [tl] are the two freshly allocated fake blocks. *)
Definition init_queue (blocks : list loc) : QM unit :=
  modify (fun s => mkQ (qheap s)
    (mkQueue (zlen blocks) (fake_free_list_head (fq s)) (fake_free_list_tail (fq s)))) ;;;
  foreach (range (zlen blocks)) (init_link blocks) ;;;
  (* self.fake_free_list_head = KVCacheBlock(block_id=-1); likewise the tail *)
  let* s := get in
  let hd := fresh (dom (qheap s)) in
  let h1 := <[hd := new_block (-1)]> (qheap s) in
  let tl := fresh (dom h1) in
  let h2 := <[tl := new_block (-1)]> h1 in
  put (mkQ h2 (mkQueue (num_free_blocks (fq s)) hd tl)) ;;;
  if 0 <? zlen blocks then
    let* b0 := lift (py_index blocks 0) in
    let* bl := lift (py_index blocks (-1)) in
    set_next hd (Some b0) ;;;
    set_prev b0 (Some hd) ;;;
    set_prev tl (Some bl) ;;;
    set_next bl (Some tl)
  else
    set_next hd (Some tl) ;;;
    set_prev tl (Some hd).

Definition popleft : QM loc :=
  let* q := gets fq in
  let* first := get_next (fake_free_list_head q) in
  let empty : QM loc :=
    assert (num_free_blocks q =? 0) ;;; raise ValueError in
  match first with
  | None => empty
  | Some first_block =>
    if decide (first_block = fake_free_list_tail q) then empty
    else
      let* nxt := get_next first_block in
      match nxt with
      | None => raise RuntimeError
      | Some _ =>
        let* n1 := get_next first_block in
        set_next (fake_free_list_head q) n1 ;;;
        let* n2 := get_next first_block in
        let* n2 := deref n2 in
        set_prev n2 (Some (fake_free_list_head q)) ;;;
        set_prev first_block None ;;;
        set_next first_block None ;;;
        add_free (-1) ;;;
        ret first_block
      end
  end.

(** The loop of popleft_n: returns the popped blocks and the current block. *)
Fixpoint popleft_n_loop (n : nat) (curr : option loc) : QM (list loc * option loc) :=
  match n with
  | O => ret ([], curr)
  | S n' =>
    match curr with
    | None => raise AssertionError
    | Some c =>
      let* nxt := get_next c in
      set_prev c None ;;;
      set_next c None ;;;
      let* r := popleft_n_loop n' nxt in
      ret (c :: r.1, r.2)
    end
  end.

Definition popleft_n (n : Z) : QM (list loc) :=
  if n =? 0 then ret []
  else
    let* q := gets fq in
    assert (n <=? num_free_blocks q) ;;;
    add_free (- n) ;;;
    let* curr := get_next (fake_free_list_head q) in
    let* r := popleft_n_loop (Z.to_nat n) curr in
    match r.2 with
    | Some c =>
      set_next (fake_free_list_head q) (Some c) ;;;
      set_prev c (Some (fake_free_list_head q)) ;;;
      ret r.1
    | None => ret r.1
    end.

Definition remove (block : loc) : QM unit :=
  let* p := get_prev block in
  let* n := get_next block in
  match p, n with
  | Some p, Some n =>
    set_next p (Some n) ;;;
    let* n' := get_next block in
    let* n' := deref n' in
    let* p' := get_prev block in
    set_prev n' p' ;;;
    set_prev block None ;;;
    set_next block None ;;;
    add_free (-1)
  | _, _ => raise RuntimeError
  end.

Definition append (block : loc) : QM unit :=
  let* q := gets fq in
  let* last := get_prev (fake_free_list_tail q) in
  match last with
  | None => raise RuntimeError
  | Some last_block =>
    set_next last_block (Some block) ;;;
    set_prev block (Some last_block) ;;;
    set_next block (Some (fake_free_list_tail q)) ;;;
    set_prev (fake_free_list_tail q) (Some block) ;;;
    add_free 1
  end.

(** The loop of append_n: returns the last linked block. *)
Fixpoint append_n_loop (blocks : list loc) (last_block : loc) : QM loc :=
  match blocks with
  | [] => ret last_block
  | b :: bs =>
    set_prev b (Some last_block) ;;;
    set_next last_block (Some b) ;;;
    append_n_loop bs b
  end.

Definition append_n (blocks : list loc) : QM unit :=
  match blocks with
  | [] => ret tt
  | _ =>
    let* q := gets fq in
    let* last := get_prev (fake_free_list_tail q) in
    match last with
    | None => raise AssertionError
    | Some last_block =>
      let* last_block := append_n_loop blocks last_block in
      set_next last_block (Some (fake_free_list_tail q)) ;;;
      set_prev (fake_free_list_tail q) (Some last_block) ;;;
      add_free (zlen blocks)
    end
  end.

(** The while loop of get_all_free_blocks, with fuel ([None]: out of fuel). *)
Fixpoint collect_free (fuel : nat) (curr : loc) : QM (option (list loc)) :=
  match fuel with
  | O => ret None
  | S fuel' =>
    let* n := get_next curr in
    match n with
    | None => ret (Some [])
    | Some c =>
      let* r := collect_free fuel' c in
      ret (cons curr <$> r)
    end
  end.

Definition get_all_free_blocks (fuel : nat) : QM (option (list loc)) :=
  let* q := gets fq in
  let* first := get_next (fake_free_list_head q) in
  match first with
  | None => raise RuntimeError
  | Some c => collect_free fuel c
  end.

(** ** Representation invariant
    [queue_rep s L]: the linked structure of [s] represents the free list [L], in order:
    the links from the fake head to the fake tail run through [L] in both directions, the
    counter agrees, and every other block is detached. *)
Record queue_rep (s : qstate) (L : list loc) : Prop := {
  rep_nodup : NoDup (fake_free_list_head (fq s) :: L ++ [fake_free_list_tail (fq s)]);
  rep_seg : seg (qheap s) (fake_free_list_head (fq s)) L (fake_free_list_tail (fq s));
  rep_num : num_free_blocks (fq s) = zlen L;
  rep_head : pv (qheap s) (fake_free_list_head (fq s)) = None;
  rep_tail : nx (qheap s) (fake_free_list_tail (fq s)) = None;
  rep_detached : forall l,
    l ∉ fake_free_list_head (fq s) :: L ++ [fake_free_list_tail (fq s)] ->
    nx (qheap s) l = None /\ pv (qheap s) l = None;
}.

(** The queue only ever changes links: object data, and which objects exist, stay. *)
Definition queue_frame (s s' : qstate) : Prop :=
  same_data (qheap s') (qheap s) /\
  fake_free_list_head (fq s') = fake_free_list_head (fq s) /\
  fake_free_list_tail (fq s') = fake_free_list_tail (fq s).

(** ** Running the primitives *)
Section run.
Implicit Types (s : qstate) (l : loc).

Lemma get_next_run s l : is_Some (qheap s !! l) -> get_next l s = (Ok (nx (qheap s) l), s).
Proof. intros [b Hb]. unfold get_next, nx. by rewrite Hb. Qed.
Lemma get_prev_run s l : is_Some (qheap s !! l) -> get_prev l s = (Ok (pv (qheap s) l), s).
Proof. intros [b Hb]. unfold get_prev, pv. by rewrite Hb. Qed.
Lemma set_next_run s l v : is_Some (qheap s !! l) ->
  set_next l v s = (Ok tt, mkQ (alter (with_next v) l (qheap s)) (fq s)).
Proof. intros [b Hb]. unfold set_next. by rewrite Hb. Qed.
Lemma set_prev_run s l v : is_Some (qheap s !! l) ->
  set_prev l v s = (Ok tt, mkQ (alter (with_prev v) l (qheap s)) (fq s)).
Proof. intros [b Hb]. unfold set_prev. by rewrite Hb. Qed.
End run.

(** Execute the attribute accesses of a method, discharging liveness from the context. *)
Ltac qrun :=
  repeat first
    [ rewrite get_next_run by (simpl; links_dom)
    | rewrite get_prev_run by (simpl; links_dom)
    | rewrite set_next_run by (simpl; links_dom)
    | rewrite set_prev_run by (simpl; links_dom)
    | progress (unfold bind, gets, ret, add_free, modify, deref, raise, assert)
    | progress simpl ].

(** ** Unlinking one block
    The four assignments shared by popleft and remove. *)
Definition unlink_heap (h : heap) (p x n : loc) : heap :=
  alter (with_next None) x (alter (with_prev None) x
    (alter (with_prev (Some p)) n (alter (with_next (Some n)) p h))).

(** The first element of [L ++ \[b\]]. *)
Definition fst_of (L : list loc) (b : loc) : loc := default b (head L).

Lemma seg_first h a L b : seg h a L b -> lnk h a (fst_of L b).
Proof. destruct L; simpl; [done | by intros [? _]]. Qed.

Section unlink.
Context (h : heap) (hd tl x p n : loc) (L1 L2 : list loc).
Hypothesis Hnd : NoDup (hd :: (L1 ++ x :: L2) ++ [tl]).
Hypothesis Hseg : seg h hd (L1 ++ x :: L2) tl.
Hypothesis Ep : p = lst hd L1.
Hypothesis En : n = fst_of L2 tl.

Lemma unlink_order :
  (hd ∉ L1) /\ hd <> x /\ (hd ∉ L2) /\ hd <> tl /\ (x ∉ L1) /\ (x ∉ L2) /\ x <> tl /\
  (tl ∉ L1) /\ (tl ∉ L2) /\ NoDup L1 /\ NoDup L2 /\ (forall z, z ∈ L1 -> z ∉ L2).
Proof. clear Hseg. rewrite NoDup_cons, !NoDup_app, NoDup_cons in Hnd. set_solver. Qed.

Lemma unlink_ends :
  lnk h p x /\ lnk h x n /\ (p = hd \/ p ∈ L1) /\ (n = tl \/ n ∈ L2).
Proof.
  rewrite Ep, En. apply seg_app in Hseg as [H1 H2].
  apply seg_oseg in H1 as [_ H1]. apply seg_first in H2.
  split_and!; [done | done | apply lst_elem |].
  destruct L2; unfold fst_of; simpl; [by left | right; by left].
Qed.

Lemma unlink_distinct : p <> x /\ n <> x /\ p <> n.
Proof.
  pose proof unlink_order as Ho. pose proof unlink_ends as (_ & _ & Hp & Hn).
  clear -Ho Hp Hn. set_solver.
Qed.

Lemma unlink_outer : hd <> n /\ hd <> x /\ tl <> p /\ tl <> x.
Proof.
  pose proof unlink_order as (?&?&?&?&?&?&?&?&?&_). pose proof unlink_ends as (_ & _ & Hp & Hn).
  split_and!; try done; intros ->; [destruct Hn | destruct Hp]; congruence.
Qed.

Lemma unlink_nx z :
  nx (unlink_heap h p x n) z =
    if decide (z = x) then None else if decide (z = p) then Some n else nx h z.
Proof.
  pose proof unlink_ends as ([? ?] & [? ?] & _). pose proof unlink_distinct as (? & ? & ?).
  unfold unlink_heap. links_tac. repeat case_decide; congruence.
Qed.

Lemma unlink_pv z :
  pv (unlink_heap h p x n) z =
    if decide (z = x) then None else if decide (z = n) then Some p else pv h z.
Proof.
  pose proof unlink_ends as ([? ?] & [? ?] & _). pose proof unlink_distinct as (? & ? & ?).
  unfold unlink_heap. links_tac. repeat case_decide; congruence.
Qed.

(** Deciding which of the rewritten links [z] is, from the order of the free list. *)
Ltac unlink_case Ho Hp Hn :=
  repeat case_decide; subst; try done; clear -Ho Hp Hn; set_solver.

Lemma unlink_oseg : oseg (unlink_heap h p x n) hd L1.
Proof.
  pose proof unlink_order as Ho. pose proof unlink_ends as (_ & _ & Hp & Hn).
  pose proof Hseg as [[H1 _]%seg_oseg _]%seg_app.
  apply (oseg_frame h); [clear -Ho; rewrite NoDup_cons; set_solver | done | |].
  - intros z Hz Hne. rewrite <- Ep in Hne. rewrite unlink_nx.
    repeat case_decide; [| done | done]. subst z. clear -Ho Hz. set_solver.
  - intros z Hz. rewrite unlink_pv. repeat case_decide; [| | done].
    + subst z. clear -Ho Hz. set_solver.
    + subst z. clear -Ho Hz Hn. set_solver.
Qed.

Lemma unlink_rest y L : L2 = y :: L -> seg (unlink_heap h p x n) y L tl.
Proof.
  intros E. pose proof unlink_order as Ho. pose proof unlink_ends as (_ & _ & Hp & Hn).
  pose proof Hseg as [_ H2]%seg_app. rewrite E in H2. destruct H2 as [_ H2].
  assert (n = y) by (rewrite En; unfold fst_of; by rewrite E).
  destruct Ho as (_ & _ & Hh2 & _ & _ & Hx2 & Hxt & _ & Ht2 & _ & Hnd2 & Hdis).
  assert (Hp2 : p ∉ L2) by (destruct Hp as [-> | Hp]; auto).
  rewrite E in Hh2, Hx2, Ht2, Hnd2, Hp2. apply NoDup_cons in Hnd2 as [Hy2 _].
  apply (seg_frame h); [done | |]; intros z Hz.
  - assert (z ∈ y :: L) by (rewrite elem_of_cons; tauto).
    rewrite unlink_nx, !decide_False by (by intros ->). done.
  - assert (z <> x) by (intros ->; destruct Hz; [apply Hx2; by right | congruence]).
    assert (z <> n) by (intros ->; destruct Hz; [congruence | apply Ht2; rewrite elem_of_cons; left; congruence]).
    by rewrite unlink_pv, !decide_False.
Qed.

Lemma unlink_seg : seg (unlink_heap h p x n) hd (L1 ++ L2) tl.
Proof.
  pose proof unlink_distinct as (? & ? & ?).
  assert (Hl : lnk (unlink_heap h p x n) (lst hd L1) (fst_of L2 tl)).
  { rewrite <- Ep, <- En. split; [rewrite unlink_nx | rewrite unlink_pv];
      repeat case_decide; congruence. }
  pose proof unlink_oseg as Ho. pose proof unlink_rest as Hr.
  destruct L2 as [|y L].
  - rewrite app_nil_r. apply seg_oseg. by split.
  - apply seg_app. split; [apply seg_oseg; by split | by apply Hr].
Qed.
End unlink.

Lemma unlink_same_data h p x n : same_data (unlink_heap h p x n) h.
Proof.
  unfold unlink_heap. repeat (etransitivity; [solve [eauto with links] |]). reflexivity.
Qed.

(** Unlinking block [x] from the represented list. *)
Lemma unlink_rep s L1 x L2 :
  queue_rep s (L1 ++ x :: L2) ->
  let q := fq s in
  queue_rep
    (mkQ (unlink_heap (qheap s) (lst (fake_free_list_head q) L1) x (fst_of L2 (fake_free_list_tail q)))
       (mkQueue (num_free_blocks q + -1) (fake_free_list_head q) (fake_free_list_tail q)))
    (L1 ++ L2).
Proof.
  intros [Hnd Hseg Hnum Hh Ht Hdet]; simpl.
  pose proof (unlink_outer _ _ _ _ _ _ _ _ Hnd Hseg eq_refl eq_refl) as Ho.
  pose proof (unlink_ends _ _ _ _ _ _ _ _ Hnd Hseg eq_refl eq_refl) as (_ & _ & Hp & Hn).
  split; simpl.
  - clear -Hnd. rewrite <- !app_assoc in *. rewrite app_comm_cons in *.
    by eapply NoDup_remove_mid.
  - by apply unlink_seg.
  - rewrite Hnum. autorewrite with pylen. lia.
  - rewrite (unlink_pv _ _ _ _ _ _ _ _ Hnd Hseg eq_refl eq_refl).
    rewrite !decide_False; [done | tauto ..].
  - rewrite (unlink_nx _ _ _ _ _ _ _ _ Hnd Hseg eq_refl eq_refl).
    rewrite !decide_False; [done | tauto ..].
  - intros l Hl.
    rewrite (unlink_nx _ _ _ _ _ _ _ _ Hnd Hseg eq_refl eq_refl).
    rewrite (unlink_pv _ _ _ _ _ _ _ _ Hnd Hseg eq_refl eq_refl).
    case_decide as Hx; [done |].
    rewrite !decide_False; [apply Hdet; clear -Hl Hx; set_solver | |]; intros ->;
      clear -Hl Hp Hn; set_solver.
Qed.

(** ** The methods implement a list *)

Lemma queue_rep_alive s L l :
  queue_rep s L -> l = fake_free_list_head (fq s) \/ l ∈ L \/ l = fake_free_list_tail (fq s) ->
  is_Some (qheap s !! l).
Proof. intros [_ Hs _ _ _ _]. by apply (seg_alive _ _ _ _ _ Hs). Qed.

Lemma queue_frame_refl s : queue_frame s s.
Proof. split_and!; reflexivity. Qed.

Lemma popleft_spec s x L :
  queue_rep s (x :: L) ->
  exists s', popleft s = (Ok x, s') /\ queue_rep s' L /\ queue_frame s s'.
Proof.
  intros Hrep. pose proof (unlink_rep s [] x L Hrep) as Hrep'. simpl in Hrep'.
  destruct Hrep as [Hnd [[Hn Hp] Hs] _ _ _ _]. simpl in *.
  pose proof (seg_first _ _ _ _ Hs) as [Hn2 Hp2].
  assert (x <> fake_free_list_tail (fq s)).
  { intros ->. rewrite !NoDup_cons in Hnd. set_solver. }
  assert (fake_free_list_head (fq s) <> x) by (intros E; rewrite NoDup_cons in Hnd; set_solver).
  eexists. split; [| split; [exact Hrep' | split_and!; [apply unlink_same_data | done | done]]].
  unfold popleft. qrun. rewrite Hn, decide_False by done.
  qrun. rewrite Hn2. qrun. links_tac.
  rewrite decide_False, Hn2 by done. qrun. done.
Qed.

Lemma popleft_empty s :
  queue_rep s [] -> popleft s = (Err ValueError, s).
Proof.
  intros [_ [Hn _] Hnum _ _ _]. unfold popleft. qrun.
  rewrite Hn. simpl. rewrite decide_True by done. by rewrite Hnum.
Qed.

Lemma remove_spec s L1 x L2 :
  queue_rep s (L1 ++ x :: L2) ->
  exists s', remove x s = (Ok tt, s') /\ queue_rep s' (L1 ++ L2) /\ queue_frame s s'.
Proof.
  intros Hrep. pose proof (unlink_rep s L1 x L2 Hrep) as Hrep'. simpl in Hrep'.
  destruct Hrep as [Hnd Hs _ _ _ _].
  pose proof (unlink_ends _ _ _ _ _ _ _ _ Hnd Hs eq_refl eq_refl) as ([Hn Hp] & [Hn2 Hp2] & _).
  pose proof (unlink_distinct _ _ _ _ _ _ _ _ Hnd Hs eq_refl eq_refl) as (? & ? & ?).
  eexists. split; [| split; [exact Hrep' | split_and!; [apply unlink_same_data | done | done]]].
  unfold remove. qrun. rewrite Hp, Hn2. qrun. links_tac.
  rewrite decide_False, Hn2 by done. qrun. links_tac. by rewrite Hp.
Qed.

(** Removing a block that is not in the free list is detected, and changes nothing. *)
Lemma remove_detached s L x :
  queue_rep s L -> is_Some (qheap s !! x) ->
  x ∉ fake_free_list_head (fq s) :: L ++ [fake_free_list_tail (fq s)] ->
  remove x s = (Err RuntimeError, s).
Proof.
  intros Hrep Hx Hnot. destruct (rep_detached _ _ Hrep x Hnot) as [Hn Hp].
  unfold remove. qrun. by rewrite Hp.
Qed.

(** *** Appending *)

(** What linking a chain of new blocks after [last] does to the heap. *)
Lemma append_n_loop_spec blocks : forall s a L,
  NoDup (a :: L ++ blocks) ->
  oseg (qheap s) a L ->
  is_Some (qheap s !! lst a L) ->
  (forall b, b ∈ blocks -> is_Some (qheap s !! b)) ->
  exists s',
    append_n_loop blocks (lst a L) s = (Ok (lst a (L ++ blocks)), s') /\
    fq s' = fq s /\ same_data (qheap s') (qheap s) /\
    oseg (qheap s') a (L ++ blocks) /\
    (forall z, z <> lst a L -> z ∉ blocks -> nx (qheap s') z = nx (qheap s) z) /\
    (forall z, z ∉ blocks -> pv (qheap s') z = pv (qheap s) z).
Proof.
  induction blocks as [|b bs IH]; intros s a L Hnd Hos Hal Hbs; simpl.
  - exists s. rewrite app_nil_r. split_and!; done.
  - assert (Hb : b ∉ a :: L).
    { rewrite app_comm_cons in Hnd. by apply NoDup_app_cons_not_in in Hnd as [? _]. }
    assert (Hal2 : is_Some (qheap s !! b)) by (apply Hbs; by left).
    assert (Hne : lst a L <> b) by (destruct (lst_elem a L); set_solver).
    set (s1 := mkQ (alter (with_next (Some b)) (lst a L)
                 (alter (with_prev (Some (lst a L))) b (qheap s))) (fq s)).
    destruct (IH s1 a (L ++ [b])) as (s' & Hrun & Hfq & Hsd & Hos' & Hnx & Hpv).
    + by rewrite <- app_assoc.
    + apply oseg_snoc, seg_oseg. simpl. split.
      * apply (oseg_frame (qheap s)); [| done | |].
        { rewrite app_comm_cons in Hnd. by apply NoDup_app in Hnd as [? _]. }
        { intros z Hz Hz'. links_tac. by rewrite decide_False. }
        { intros z Hz. links_tac. rewrite decide_False; set_solver. }
      * split; links_tac; by rewrite decide_True.
    + rewrite lst_snoc. simpl. by rewrite !is_Some_alter.
    + intros b' Hb'. simpl. rewrite !is_Some_alter. apply Hbs. by right.
    + exists s'. rewrite lst_snoc, <- app_assoc in *. simpl in *.
      split_and!.
      * qrun. exact Hrun.
      * done.
      * rewrite Hsd. etransitivity; apply same_data_next || apply same_data_prev.
      * done.
      * intros z Hz Hzb. rewrite Hnx by set_solver. links_tac. rewrite decide_False; done.
      * intros z Hzb. rewrite Hpv by set_solver. links_tac. rewrite decide_False; set_solver.
Qed.

#[local] Arguments append_n_loop : simpl never.
#[local] Arguments popleft_n_loop : simpl never.

(** New blocks at the end of a duplicate-free path. *)
Lemma path_extend (hd tl : loc) (L blocks : list loc) :
  NoDup (hd :: L ++ [tl]) -> NoDup blocks ->
  (forall b, b ∈ blocks -> b ∉ hd :: L ++ [tl]) ->
  NoDup (hd :: (L ++ blocks) ++ [tl]).
Proof.
  rewrite !NoDup_cons, !NoDup_app. intros (Hhd & HL & HLt & Ht) Hb Hout.
  split_and!; try done; set_solver.
Qed.

(** Linking the last new block [e] to the tail re-establishes the representation. *)
Lemma append_close s L blocks s' :
  queue_rep s L ->
  let q := fq s in
  let e := lst (fake_free_list_head q) (L ++ blocks) in
  NoDup (fake_free_list_head q :: (L ++ blocks) ++ [fake_free_list_tail q]) ->
  e ∈ blocks ->
  same_data (qheap s') (qheap s) ->
  oseg (qheap s') (fake_free_list_head q) (L ++ blocks) ->
  (forall z, z <> lst (fake_free_list_head q) L -> z ∉ blocks -> nx (qheap s') z = nx (qheap s) z) ->
  (forall z, z ∉ blocks -> pv (qheap s') z = pv (qheap s) z) ->
  (forall b, b ∈ blocks -> is_Some (qheap s !! b)) ->
  queue_rep
    (mkQ (alter (with_prev (Some e)) (fake_free_list_tail q)
            (alter (with_next (Some (fake_free_list_tail q))) e (qheap s')))
       (mkQueue (num_free_blocks q + zlen blocks) (fake_free_list_head q) (fake_free_list_tail q)))
    (L ++ blocks).
Proof.
  destruct s as [h [num hd tl]]. simpl.
  intros [Hnd0 Hs Hnum Hh Ht Hdet] Hnd Hein Hsd Hos Hnx Hpv Hal; simpl in *.
  set (e := lst hd (L ++ blocks)) in *.
  apply seg_oseg in Hs as [_ [_ Hp]].
  assert (is_Some (qheap s' !! tl)) by (apply (is_Some_lookup_proper tl _ _ Hsd); eauto with links).
  assert (is_Some (qheap s' !! e)) by (apply (is_Some_lookup_proper e _ _ Hsd); auto).
  pose proof Hnd as (Hhd & (_ & Htl & _)%NoDup_app)%NoDup_cons.
  assert (Htb : tl ∉ L ++ blocks) by set_solver.
  assert (e <> tl) by set_solver. assert (hd <> tl) by set_solver.
  assert (lst hd L <> tl) by (destruct (lst_elem hd L); set_solver).
  split; simpl.
  - done.
  - apply seg_oseg. split.
    + apply (oseg_frame (qheap s')); [| done | |].
      * rewrite app_comm_cons in Hnd. by apply NoDup_app in Hnd as [? _].
      * intros z Hz Hne. links_tac. by rewrite decide_False.
      * intros z Hz. links_tac. rewrite decide_False; [done | by intros ->].
    + split; links_tac; by rewrite decide_True.
  - rewrite Hnum. by autorewrite with pylen.
  - links_tac. rewrite decide_False, Hpv by set_solver. done.
  - links_tac. rewrite decide_False, Hnx by set_solver. done.
  - intros l Hl. links_tac.
    assert (l <> e) by set_solver. assert (l <> tl) by set_solver.
    rewrite !decide_False by done.
    rewrite Hnx, Hpv by (destruct (lst_elem hd L); set_solver). apply Hdet. set_solver.
Qed.

Lemma append_n_spec s L blocks :
  queue_rep s L ->
  NoDup blocks ->
  (forall b, b ∈ blocks -> b ∉ fake_free_list_head (fq s) :: L ++ [fake_free_list_tail (fq s)]) ->
  (forall b, b ∈ blocks -> is_Some (qheap s !! b)) ->
  exists s', append_n blocks s = (Ok tt, s') /\ queue_rep s' (L ++ blocks) /\ queue_frame s s'.
Proof.
  intros Hrep Hnb Hout Hal. destruct blocks as [|b0 bs].
  { exists s. rewrite app_nil_r. split_and!; [done | done | apply queue_frame_refl ..]. }
  set (blocks := b0 :: bs) in *.
  pose proof (path_extend _ _ _ _ (rep_nodup _ _ Hrep) Hnb Hout) as Hndb.
  pose proof (rep_seg _ _ Hrep) as [Hos [Hn Hp]]%seg_oseg.
  destruct (append_n_loop_spec blocks s (fake_free_list_head (fq s)) L)
    as (s' & Hrun & Hfq & Hsd & Hos' & Hnx & Hpv); [| done | eauto with links | done |].
  { rewrite app_comm_cons in Hndb. by apply NoDup_app in Hndb as [? _]. }
  assert (Hlin : lst (fake_free_list_head (fq s)) (L ++ blocks) ∈ blocks).
  { unfold lst. rewrite last_app. destruct (last blocks) as [y|] eqn:E.
    - apply last_Some in E as [k ->]. simpl. set_solver.
    - by apply last_None in E. }
  assert (Hlt : is_Some (qheap s' !! fake_free_list_tail (fq s))).
  { apply (is_Some_lookup_proper _ _ _ Hsd). eauto with links. }
  assert (Hll : is_Some (qheap s' !! lst (fake_free_list_head (fq s)) (L ++ blocks))).
  { apply (is_Some_lookup_proper _ _ _ Hsd). auto. }
  eexists. split; [| split].
  - unfold append_n, blocks. fold blocks. qrun. rewrite Hp. rewrite Hrun. qrun.
    rewrite Hfq. reflexivity.
  - by apply (append_close s L blocks s').
  - split_and!; simpl; [| done | done].
    rewrite <- Hsd. etransitivity; [apply same_data_prev | apply same_data_next].
Qed.

(** [append] is [append_n] of one block. *)
Lemma append_spec s L b :
  queue_rep s L -> is_Some (qheap s !! b) ->
  b ∉ fake_free_list_head (fq s) :: L ++ [fake_free_list_tail (fq s)] ->
  exists s', append b s = (Ok tt, s') /\ queue_rep s' (L ++ [b]) /\ queue_frame s s'.
Proof.
  intros Hrep Hal Hout. pose proof (rep_seg _ _ Hrep) as [Hos [Hn Hp]]%seg_oseg.
  destruct (append_n_spec s L [b] Hrep) as (s' & Hrun & ? & ?);
    [apply NoDup_singleton | set_solver | set_solver |].
  exists s'. split; [| done]. rewrite <- Hrun.
  assert (lst (fake_free_list_head (fq s)) L <> b).
  { destruct (lst_elem (fake_free_list_head (fq s)) L); set_solver. }
  unfold append, append_n, append_n_loop. qrun. rewrite Hp. qrun.
  by rewrite (alter_alter_ne (with_next (Some b)) _ _ (lst _ _) b).
Qed.

(** *** Popping several blocks *)

(** The links along a list of objects. *)
Definition chain (h : heap) (P : list loc) : Prop :=
  match P with [] => True | y :: R => oseg h y R end.

(** The loop walks down the list, detaching each popped block. *)
Lemma popleft_n_loop_spec K : forall s P,
  P <> [] -> chain (qheap s) (K ++ P) -> NoDup (K ++ P) ->
  exists s',
    popleft_n_loop (length K) (head (K ++ P)) s = (Ok (K, head P), s') /\
    fq s' = fq s /\ same_data (qheap s') (qheap s) /\
    (forall z, nx (qheap s') z = if decide (z ∈ K) then None else nx (qheap s) z) /\
    (forall z, pv (qheap s') z = if decide (z ∈ K) then None else pv (qheap s) z).
Proof.
  induction K as [|x K IH]; intros s P HP Hs Hnd; cbn [length popleft_n_loop app head].
  - exists s. split_and!; try done; intros z; by rewrite decide_False by set_solver.
  - destruct (K ++ P) as [|y R] eqn:E; [by apply app_eq_nil in E as [_ ->] |].
    simpl in Hs, Hnd. rewrite E in Hs, Hnd. destruct Hs as [[Hn Hp] Hs].
    apply NoDup_cons in Hnd as [Hx Hnd].
    set (s1 := mkQ (alter (with_next None) x (alter (with_prev None) x (qheap s))) (fq s)).
    assert (Hnx1 : forall z, nx (qheap s1) z = if decide (z = x) then None else nx (qheap s) z).
    { intros z. simpl. links_tac. repeat case_decide; congruence. }
    assert (Hpv1 : forall z, pv (qheap s1) z = if decide (z = x) then None else pv (qheap s) z).
    { intros z. simpl. links_tac. repeat case_decide; congruence. }
    destruct (IH s1 P HP) as (s' & Hrun & Hfq & Hsd & Hnx & Hpv).
    { rewrite E. simpl. apply (oseg_frame (qheap s)); [done | done | |].
      - intros z Hz _. rewrite Hnx1. rewrite decide_False; [done | by intros ->].
      - intros z Hz. rewrite Hpv1, decide_False; [done | intros ->; set_solver]. }
    { by rewrite E. }
    exists s'. rewrite E in Hrun. simpl in Hrun. split_and!.
    + unfold popleft_n_loop; fold popleft_n_loop. qrun. rewrite Hn. fold s1. by rewrite Hrun.
    + done.
    + rewrite Hsd. etransitivity; [apply same_data_next | apply same_data_prev].
    + intros z. rewrite Hnx, Hnx1. repeat case_decide; set_solver.
    + intros z. rewrite Hpv, Hpv1. repeat case_decide; set_solver.
Qed.

(** Relinking the fake head to the first remaining block re-establishes the
    representation. *)
Lemma popleft_n_close s K L s' :
  queue_rep s (K ++ L) ->
  let q := fq s in
  let f := fst_of L (fake_free_list_tail q) in
  same_data (qheap s') (qheap s) ->
  (forall z, nx (qheap s') z = if decide (z ∈ K) then None else nx (qheap s) z) ->
  (forall z, pv (qheap s') z = if decide (z ∈ K) then None else pv (qheap s) z) ->
  queue_rep
    (mkQ (alter (with_prev (Some (fake_free_list_head q))) f
            (alter (with_next (Some f)) (fake_free_list_head q) (qheap s')))
       (mkQueue (num_free_blocks q + - zlen K) (fake_free_list_head q) (fake_free_list_tail q))) L.
Proof.
  destruct s as [h [num hd tl]]. simpl.
  intros [Hnd Hs Hnum Hh Ht Hdet] Hsd Hnx Hpv; simpl in *.
  set (f := fst_of L tl) in *.
  pose proof Hnd as [Hhd Hnd']%NoDup_cons. rewrite <- app_assoc in Hnd', Hhd.
  pose proof Hnd' as (HK & HKL & HL)%NoDup_app.
  assert (Hf : f ∈ L ++ [tl]) by (subst f; unfold fst_of; destruct L; simpl; set_solver).
  assert (Hfd : f <> hd) by set_solver.
  assert (is_Some (qheap s' !! hd)).
  { apply (is_Some_lookup_proper _ _ _ Hsd). apply (seg_alive _ _ _ _ _ Hs); auto. }
  assert (is_Some (qheap s' !! f)).
  { apply (is_Some_lookup_proper _ _ _ Hsd). apply (seg_alive _ _ _ _ _ Hs). set_solver. }
  assert (Hl : lnk (alter (with_prev (Some hd)) f (alter (with_next (Some f)) hd (qheap s'))) hd f).
  { split; links_tac; by rewrite decide_True. }
  split; simpl.
  - apply NoDup_cons. split; [set_solver | done].
  - destruct L as [|y L]; [done |]. split; [done |].
    apply seg_app in Hs as [_ Hs]. simpl in HL. apply NoDup_cons in HL as [Hy _].
    change f with y in *. apply (seg_frame h); [done | |]; intros z Hz; links_tac.
    + rewrite decide_False, Hnx, decide_False by (intros ?; subst; set_solver). done.
    + rewrite decide_False, Hpv, decide_False by (intros ?; subst; set_solver). done.
  - rewrite Hnum, zlen_app. lia.
  - links_tac. rewrite decide_False, Hpv, decide_False by set_solver. done.
  - links_tac. rewrite decide_False, Hnx, decide_False by set_solver. done.
  - intros l Hl'. links_tac. rewrite !decide_False by (intros ?; subst; set_solver).
    rewrite Hnx, Hpv. case_decide; [done |]. apply Hdet. set_solver.
Qed.

Lemma popleft_n_spec s K L :
  queue_rep s (K ++ L) ->
  exists s', popleft_n (zlen K) s = (Ok K, s') /\ queue_rep s' L /\ queue_frame s s'.
Proof.
  intros Hrep. unfold popleft_n. destruct (Z.eqb_spec (zlen K) 0) as [E|E].
  { destruct K; [| unfold zlen in E; simpl in E; lia].
    exists s. split_and!; [done | done | apply queue_frame_refl ..]. }
  pose proof (popleft_n_close s K L) as Hclose. pose proof Hrep as Hrep0.
  destruct s as [h [num hd tl]]. destruct Hrep as [Hnd Hs Hnum Hh Ht Hdet]; simpl in *.
  set (s1 := mkQ h (mkQueue (num + - zlen K) hd tl)).
  pose proof Hnd as [Hhd Hnd']%NoDup_cons. rewrite <- app_assoc in Hnd', Hhd.
  pose proof (proj2 (oseg_snoc _ _ _ _) Hs) as Hos. rewrite <- app_assoc in Hos.
  destruct (popleft_n_loop_spec K s1 (L ++ [tl])) as (s' & Hrun & Hfq & Hsd & Hnx & Hpv).
  { by destruct L. }
  { destruct (K ++ L ++ [tl]); [done | by destruct Hos]. }
  { done. }
  assert (Hfst : nx h hd = head (K ++ L ++ [tl])).
  { destruct (K ++ L ++ [tl]) eqn:E'; [by apply app_eq_nil in E' as [-> _] | by destruct Hos as [[-> _] _]]. }
  assert (Hhn : head (L ++ [tl]) = Some (fst_of L tl)) by (by destruct L).
  rewrite Hhn in Hrun.
  assert (Hah : is_Some (qheap s' !! hd)).
  { apply (is_Some_lookup_proper _ _ _ Hsd). by apply (seg_alive _ _ _ _ _ Hs); auto. }
  assert (Haf : is_Some (qheap s' !! fst_of L tl)).
  { apply (is_Some_lookup_proper _ _ _ Hsd). apply (seg_alive _ _ _ _ _ Hs).
    destruct L; unfold fst_of; simpl; set_solver. }
  eexists. split; [| split].
  - qrun. rewrite (proj2 (Z.leb_le _ _)) by (rewrite Hnum, zlen_app; pose proof (zlen_nonneg L); lia).
    qrun. rewrite get_next_run by (simpl; apply (seg_alive _ _ _ _ _ Hs); auto).
    simpl. rewrite Hfst. replace (Z.to_nat (zlen K)) with (length K) by (unfold zlen; lia).
    fold s1. rewrite Hrun.
    qrun. rewrite Hfq. reflexivity.
  - by apply Hclose.
  - split_and!; simpl; [| done | done]. transitivity (qheap s'); [| exact Hsd].
    etransitivity; [apply same_data_prev | apply same_data_next].
Qed.

(** Asking for more blocks than are free fails the assertion and changes nothing. *)
Lemma popleft_n_too_many s L n :
  queue_rep s L -> 0 < n -> zlen L < n -> popleft_n n s = (Err AssertionError, s).
Proof.
  intros Hrep Hn Hlt. unfold popleft_n. rewrite (proj2 (Z.eqb_neq _ _)) by lia. qrun.
  rewrite (rep_num _ _ Hrep), (proj2 (Z.leb_gt _ _)) by lia. done.
Qed.

(** *** Traversal *)

Lemma collect_free_spec L : forall s a tl fuel,
  seg (qheap s) a L tl -> nx (qheap s) tl = None -> is_Some (qheap s !! tl) ->
  (length L < fuel)%nat ->
  collect_free fuel (fst_of L tl) s = (Ok (Some L), s).
Proof.
  induction L as [|x L IH]; intros s a tl fuel Hs Ht Hal Hf; destruct fuel as [|fuel]; try lia.
  - unfold fst_of. simpl. qrun. by rewrite Ht.
  - destruct Hs as [[Hn Hp] Hs]. pose proof (seg_first _ _ _ _ Hs) as [Hn2 _].
    change (fst_of (x :: L) tl) with x. cbn [collect_free].
    unfold bind. rewrite get_next_run by eauto with links. rewrite Hn2.
    rewrite (IH s x tl fuel) by (done || simpl in Hf; lia). done.
Qed.

Lemma get_all_free_blocks_spec s L fuel :
  queue_rep s L -> (length L < fuel)%nat ->
  get_all_free_blocks fuel s = (Ok (Some L), s).
Proof.
  intros [Hnd Hs Hnum Hh Ht Hdet] Hf. unfold get_all_free_blocks.
  pose proof (seg_first _ _ _ _ Hs) as [Hn2 Hp2].
  unfold bind, gets. rewrite get_next_run by eauto with links. rewrite Hn2.
  eapply collect_free_spec; eauto. apply (seg_alive _ _ _ _ _ Hs). auto.
Qed.

(** *** Construction *)

(** Links of the consecutive blocks after [k] iterations of the loop of __init__. *)
Definition init_inv (blocks : list loc) (h0 : heap) (k : nat) (s : qstate) : Prop :=
  same_data (qheap s) h0 /\
  (forall i b, blocks !! i = Some b ->
     nx (qheap s) b = (if decide (i < k)%nat then blocks !! S i else None) /\
     pv (qheap s) b = (if decide (i < k)%nat then (match i with O => None | S j => blocks !! j end) else None)) /\
  (forall z, z ∉ blocks -> nx (qheap s) z = None /\ pv (qheap s) z = None).

Section init.
Context (blocks : list loc) (h0 : heap).
Hypothesis Hnd : NoDup blocks.
Hypothesis Hal : forall b, b ∈ blocks -> is_Some (h0 !! b).

Lemma init_link_step k b s :
  blocks !! k = Some b -> init_inv blocks h0 k s ->
  exists s', init_link blocks (Z.of_nat k) s = (Ok tt, s') /\
    init_inv blocks h0 (S k) s' /\ fq s' = fq s.
Proof.
  intros Hb (Hsd & Hin & Hout).
  assert (Halb : is_Some (qheap s !! b)).
  { apply (is_Some_lookup_proper _ _ _ Hsd), Hal. apply list_elem_of_lookup. eauto. }
  pose proof (lookup_lt_Some _ _ _ Hb) as Hk.
  set (s1 := match k with O => s
             | S j => mkQ (alter (with_prev (blocks !! j)) b (qheap s)) (fq s) end).
  set (s2 := if decide (S k < length blocks)%nat
             then mkQ (alter (with_next (blocks !! S k)) b (qheap s1)) (fq s1) else s1).
  assert (Hrun : init_link blocks (Z.of_nat k) s = (Ok tt, s2)).
  { unfold init_link. rewrite (py_index_nat _ _ _ Hb). unfold bind, lift.
    assert (Hfirst : (if 0 <? Z.of_nat k
      then bind (lift (py_index blocks (Z.of_nat k - 1))) (fun p => set_prev b (Some p))
      else ret tt) s = (Ok tt, s1)).
    { unfold s1. destruct k as [|j]; [done |]. simpl.
      destruct (lookup_lt_is_Some_2 blocks j) as [y Hy]; [lia |].
      replace (Z.of_nat (S j) - 1) with (Z.of_nat j) by lia.
      unfold bind, lift. rewrite (py_index_nat _ _ _ Hy), Hy. by rewrite set_prev_run. }
    unfold bind, lift in Hfirst. rewrite Hfirst. unfold s2.
    case_decide as Hd.
    - rewrite (proj2 (Z.ltb_lt _ _)) by (unfold zlen; lia).
      destruct (lookup_lt_is_Some_2 blocks (S k)) as [y Hy]; [lia |].
      replace (Z.of_nat k + 1) with (Z.of_nat (S k)) by lia.
      rewrite (py_index_nat _ _ _ Hy), Hy. apply set_next_run.
      unfold s1. destruct k; simpl; [done | by apply is_Some_alter].
    - rewrite (proj2 (Z.ltb_ge _ _)) by (unfold zlen; lia). done. }
  exists s2. split; [done |].
  assert (Hn2 : forall z, nx (qheap s2) z = if decide (z = b) then blocks !! S k else nx (qheap s) z).
  { intros z. unfold s2, s1. destruct (Hin _ _ Hb) as [Hn _]. rewrite decide_False in Hn by lia.
    case_decide as Hd; destruct k; simpl; links_tac; repeat case_decide; try congruence;
      subst; rewrite Hn; symmetry; apply lookup_ge_None; lia. }
  assert (Hp2 : forall z, pv (qheap s2) z =
    if decide (z = b) then (match k with O => None | S j => blocks !! j end) else pv (qheap s) z).
  { intros z. unfold s2, s1. destruct (Hin _ _ Hb) as [_ Hp]. rewrite decide_False in Hp by lia.
    case_decide as Hd; destruct k; simpl; links_tac; repeat case_decide; congruence. }
  split; [| by unfold s2, s1; case_decide; destruct k].
  split_and!.
  - rewrite <- Hsd. unfold s2, s1. case_decide; destruct k; simpl;
      try reflexivity; try apply same_data_next; try apply same_data_prev.
    etransitivity; [apply same_data_next | apply same_data_prev].
  - intros i c Hc. rewrite Hn2, Hp2. destruct (Hin _ _ Hc) as [Hci Hcp].
    destruct (decide (c = b)) as [-> | Hne].
    + assert (i = k) as -> by (eapply NoDup_lookup; eauto). by rewrite !decide_True by lia.
    + rewrite Hci, Hcp. assert (i <> k) by congruence. by repeat case_decide; try lia.
  - intros z Hz. rewrite Hn2, Hp2, !decide_False; [auto | |];
      intros ->; apply Hz; apply list_elem_of_lookup; eauto.
Qed.

Lemma init_loop_spec s :
  init_inv blocks h0 0 s ->
  exists s', foreach (range (zlen blocks)) (init_link blocks) s = (Ok tt, s') /\
    init_inv blocks h0 (length blocks) s' /\ fq s' = fq s.
Proof.
  intros H0.
  destruct (triple_foreach (fun pre post st =>
    pre ++ post = range (zlen blocks) /\ init_inv blocks h0 (length pre) st /\ fq st = fq s)
    (init_link blocks)) with (l := range (zlen blocks)) (pre := @nil Z) (s := s)
    as ([] & s' & Hrun & E & Hinv & Hfq); [| done |].
  - intros pre x post st (E & Hinv & Hfq).
    destruct (range_split _ _ _ _ (eq_sym E)) as [-> Hlt].
    destruct (lookup_lt_is_Some_2 blocks (length pre)) as [b Hb]; [unfold zlen in Hlt; lia |].
    destruct (init_link_step _ _ _ Hb Hinv) as (s' & Hrun & Hinv' & Hfq').
    exists tt, s'. split; [done |]. rewrite <- app_assoc, length_app, Nat.add_1_r.
    split_and!; [done | done | congruence].
  - exists s'. simpl in Hinv. unfold range in Hinv. rewrite length_seqZ in Hinv.
    unfold zlen in Hinv. rewrite Nat2Z.id in Hinv. done.
Qed.
End init.

(** Allocating a fresh object keeps every other link and has no links itself. *)
Lemma nx_new h l i z : h !! l = None -> nx (<[l := new_block i]> h) z = nx h z.
Proof. intros H. unfold nx. rewrite lookup_insert. case_decide; subst; [by rewrite H | done]. Qed.
Lemma pv_new h l i z : h !! l = None -> pv (<[l := new_block i]> h) z = pv h z.
Proof. intros H. unfold pv. rewrite lookup_insert. case_decide; subst; [by rewrite H | done]. Qed.
Lemma fresh_dom (h : heap) : h !! fresh (dom h) = None.
Proof. apply not_elem_of_dom, is_fresh. Qed.

(** The state right before the fake head and tail are connected. *)
Record init_ready (blocks : list loc) (h : heap) (hd tl : loc) : Prop := {
  ir_nodup : NoDup (hd :: blocks ++ [tl]);
  ir_alive : forall l, l ∈ hd :: blocks ++ [tl] -> is_Some (h !! l);
  ir_next : forall i b, blocks !! i = Some b -> nx h b = blocks !! S i;
  ir_prev : forall i b, blocks !! i = Some b ->
    pv h b = match i with O => None | S j => blocks !! j end;
  ir_out : forall z, z ∉ blocks -> nx h z = None /\ pv h z = None;
}.

Lemma init_connect_nil h hd tl :
  init_ready [] h hd tl ->
  queue_rep (mkQ (alter (with_prev (Some hd)) tl (alter (with_next (Some tl)) hd h))
    (mkQueue 0 hd tl)) [].
Proof.
  intros [Hnd Hal _ _ Hout]. simpl in *.
  assert (is_Some (h !! hd)) by (apply Hal; set_solver).
  assert (is_Some (h !! tl)) by (apply Hal; set_solver).
  assert (hd <> tl) by (rewrite NoDup_cons in Hnd; set_solver).
  split; simpl; try done.
  - split; links_tac; by rewrite decide_True.
  - links_tac. rewrite decide_False by done. apply Hout. set_solver.
  - links_tac. rewrite decide_False by done. apply Hout. set_solver.
  - intros l Hl. links_tac. rewrite !decide_False by set_solver. apply Hout. set_solver.
Qed.

Section init_connect.
Context (bs : list loc) (b0 bl : loc) (h : heap) (hd tl : loc).
Hypothesis Hr : init_ready bs h hd tl.
Hypothesis H0 : bs !! 0%nat = Some b0.
Hypothesis Hl : last bs = Some bl.
Let h' := alter (with_next (Some tl)) bl (alter (with_prev (Some bl)) tl
            (alter (with_prev (Some hd)) b0 (alter (with_next (Some b0)) hd h))).

Lemma init_connect_in : b0 ∈ bs /\ bl ∈ bs /\ (hd ∉ bs) /\ (tl ∉ bs) /\ hd <> tl /\ NoDup bs.
Proof.
  pose proof (ir_nodup _ _ _ _ Hr) as Hnd. rewrite NoDup_cons, NoDup_app in Hnd.
  assert (b0 ∈ bs) by (apply list_elem_of_lookup; eauto).
  assert (bl ∈ bs) by (apply last_Some in Hl as [k ->]; set_solver).
  set_solver.
Qed.

Lemma init_connect_nx z :
  nx h' z = if decide (z = bl) then Some tl else if decide (z = hd) then Some b0 else nx h z.
Proof.
  pose proof init_connect_in as (? & ? & ? & ? & ? & _).
  assert (is_Some (h !! hd)) by (apply (ir_alive _ _ _ _ Hr); set_solver).
  assert (is_Some (h !! bl)) by (apply (ir_alive _ _ _ _ Hr); set_solver).
  unfold h'. links_tac. repeat case_decide; congruence.
Qed.

Lemma init_connect_pv z :
  pv h' z = if decide (z = tl) then Some bl else if decide (z = b0) then Some hd else pv h z.
Proof.
  pose proof init_connect_in as (? & ? & ? & ? & ? & _).
  assert (is_Some (h !! tl)) by (apply (ir_alive _ _ _ _ Hr); set_solver).
  assert (is_Some (h !! b0)) by (apply (ir_alive _ _ _ _ Hr); set_solver).
  unfold h'. links_tac. repeat case_decide; congruence.
Qed.

Lemma init_connect_seg : seg h' hd bs tl.
Proof.
  pose proof init_connect_in as (Hb0 & Hbl & Hhd & Htl & Hne & Hnd).
  apply seg_of_links. intros [|j] x y Hx Hy; simpl in Hx, Hy.
  - injection Hx as <-. rewrite lookup_app_l in Hy by (by apply lookup_lt_Some in H0).
    rewrite H0 in Hy. injection Hy as <-. split; [rewrite init_connect_nx | rewrite init_connect_pv];
      rewrite decide_False, decide_True by set_solver; done.
  - assert (Hj : bs !! j = Some x).
    { apply lookup_lt_Some in Hy. rewrite length_app in Hy. simpl in Hy.
      rewrite lookup_app_l in Hx by lia. done. }
    assert (Hxin : x ∈ bs) by (apply list_elem_of_lookup; eauto).
    pose proof Hl as Hl'. rewrite last_lookup in Hl'.
    destruct (decide (S j < length bs)%nat) as [Hlt|Hge].
    + rewrite lookup_app_l in Hy by lia.
      assert (x <> bl) by (intros ->; pose proof (NoDup_lookup _ _ _ _ Hnd Hj Hl'); lia).
      assert (y <> b0) by (intros ->; pose proof (NoDup_lookup _ _ _ _ Hnd Hy H0); lia).
      assert (y ∈ bs) by (apply list_elem_of_lookup; eauto).
      split; [rewrite init_connect_nx | rewrite init_connect_pv]; rewrite !decide_False by set_solver.
      * by rewrite (ir_next _ _ _ _ Hr _ _ Hj).
      * by rewrite (ir_prev _ _ _ _ Hr _ _ Hy).
    + apply lookup_lt_Some in Hj as Hj'. assert (length bs = S j) as E by lia.
      rewrite lookup_app_r, E, Nat.sub_diag in Hy by lia. injection Hy as <-.
      rewrite E in Hl'. simpl in Hl'. rewrite Hj in Hl'. injection Hl' as ->.
      split; [rewrite init_connect_nx | rewrite init_connect_pv]; by rewrite decide_True.
Qed.

Lemma init_connect : queue_rep (mkQ h' (mkQueue (zlen bs) hd tl)) bs.
Proof.
  pose proof init_connect_in as (Hb0 & Hbl & Hhd & Htl & Hne & Hnd).
  split; cbn [qheap fq num_free_blocks fake_free_list_head fake_free_list_tail].
  - apply (ir_nodup _ _ _ _ Hr).
  - apply init_connect_seg.
  - done.
  - rewrite init_connect_pv, !decide_False by set_solver. by apply (ir_out _ _ _ _ Hr).
  - rewrite init_connect_nx, !decide_False by set_solver. by apply (ir_out _ _ _ _ Hr).
  - intros l Hlo. rewrite init_connect_nx, init_connect_pv, !decide_False by set_solver.
    apply (ir_out _ _ _ _ Hr). set_solver.
Qed.
End init_connect.

(** Allocating the fake head and tail after the linking loop. *)
Section init_alloc.
Context (blocks : list loc) (h0 h : heap).
Hypothesis Hnd : NoDup blocks.
Hypothesis Hal : forall b, b ∈ blocks -> is_Some (h0 !! b).
Hypothesis Hinv : forall q, init_inv blocks h0 (length blocks) (mkQ h q).
Let hd := fresh (dom h).
Let h1 := <[hd := new_block (-1)]> h.
Let tl := fresh (dom h1).
Let h2 := <[tl := new_block (-1)]> h1.

Lemma init_alloc_fresh :
  h !! hd = None /\ h1 !! tl = None /\ hd <> tl /\ h0 !! hd = None /\ h0 !! tl = None.
Proof.
  assert (Hhd : h !! hd = None) by apply fresh_dom.
  assert (Htl : h1 !! tl = None) by apply fresh_dom.
  assert (Hne : hd <> tl) by (intros E; rewrite <- E in Htl; unfold h1 in Htl; by rewrite lookup_insert_eq in Htl).
  assert (Htl1 : h !! tl = None) by (unfold h1 in Htl; by rewrite lookup_insert_ne in Htl).
  destruct (Hinv (mkQueue 0 hd tl)) as (Hsd & _). simpl in Hsd.
  split_and!; [done | done | done | |]; apply eq_None_not_Some;
    rewrite <- (is_Some_lookup_proper _ _ _ Hsd); [rewrite Hhd | rewrite Htl1]; by intros [].
Qed.

Lemma init_alloc_ready : init_ready blocks h2 hd tl.
Proof.
  pose proof init_alloc_fresh as (Hhd & Htl & Hne & Hhs & Hts).
  destruct (Hinv (mkQueue 0 hd tl)) as (Hsd & Hin & Hout); simpl in *.
  assert (Hhb : hd ∉ blocks) by (intros Hb%Hal; rewrite Hhs in Hb; by destruct Hb).
  assert (Htb : tl ∉ blocks) by (intros Hb%Hal; rewrite Hts in Hb; by destruct Hb).
  split.
  - rewrite NoDup_cons, NoDup_app. split_and!; [set_solver | done | set_solver | apply NoDup_singleton].
  - intros l [-> | [Hl | ->%list_elem_of_singleton]%elem_of_app]%elem_of_cons; unfold h2, h1.
    + rewrite lookup_insert_ne, lookup_insert_eq by done. eauto.
    + rewrite !lookup_insert_ne by (intros ->; done).
      apply (is_Some_lookup_proper _ _ _ Hsd). auto.
    + rewrite lookup_insert_eq. eauto.
  - intros i b Hb. unfold h2, h1. rewrite !nx_new by done. destruct (Hin _ _ Hb) as [-> _].
    apply decide_True. by eapply lookup_lt_Some.
  - intros i b Hb. unfold h2, h1. rewrite !pv_new by done. destruct (Hin _ _ Hb) as [_ ->].
    apply decide_True. by eapply lookup_lt_Some.
  - intros z Hz. unfold h2, h1. rewrite !nx_new, !pv_new by done. auto.
Qed.

Lemma init_alloc_data l : l ∈ dom h0 -> data <$> h2 !! l = data <$> h0 !! l.
Proof.
  pose proof init_alloc_fresh as (_ & _ & _ & Hhs & Hts).
  destruct (Hinv (mkQueue 0 hd tl)) as (Hsd & _).
  intros Hl%elem_of_dom. unfold h2, h1. rewrite !lookup_insert_ne; [apply Hsd | |];
    intros <-; [rewrite Hhs in Hl | rewrite Hts in Hl]; by destruct Hl.
Qed.
End init_alloc.

Lemma init_queue_spec s blocks :
  NoDup blocks -> (forall b, b ∈ blocks -> is_Some (qheap s !! b)) ->
  (forall l, nx (qheap s) l = None /\ pv (qheap s) l = None) ->
  exists s', init_queue blocks s = (Ok tt, s') /\ queue_rep s' blocks /\
    (forall l, l ∈ dom (qheap s) -> data <$> qheap s' !! l = data <$> qheap s !! l) /\
    (fake_free_list_head (fq s') ∉ dom (qheap s)) /\ (fake_free_list_tail (fq s') ∉ dom (qheap s)).
Proof.
  intros Hnd Hal Hdet.
  set (s0 := mkQ (qheap s) (mkQueue (zlen blocks) (fake_free_list_head (fq s)) (fake_free_list_tail (fq s)))).
  destruct (init_loop_spec blocks (qheap s) Hnd Hal s0) as (s1 & Hrun & Hinv & Hfq).
  { split_and!; [reflexivity | | by intros; apply Hdet]. intros i b Hb. apply Hdet. }
  pose proof (init_alloc_fresh blocks (qheap s) (qheap s1) (fun _ => Hinv)) as (_ & _ & _ & Hhs & Hts).
  pose proof (init_alloc_ready blocks (qheap s) (qheap s1) Hnd Hal (fun _ => Hinv)) as Hr.
  pose proof (init_alloc_data blocks (qheap s) (qheap s1) (fun _ => Hinv)) as Hd2.
  unfold init_queue, bind at 1, modify. fold s0. unfold bind at 1. rewrite Hrun.
  unfold bind, get, put. rewrite Hfq. cbn [fq num_free_blocks].
  set (hd := fresh (dom (qheap s1))) in *. set (h1 := <[hd := new_block (-1)]> (qheap s1)) in *.
  set (tl := fresh (dom h1)) in *. set (h2 := <[tl := new_block (-1)]> h1) in *.
  assert (is_Some (h2 !! hd)) by (apply (ir_alive _ _ _ _ Hr); set_solver).
  assert (is_Some (h2 !! tl)) by (apply (ir_alive _ _ _ _ Hr); set_solver).
  destruct (0 <? zlen blocks) eqn:Hz.
  - destruct (last blocks) as [bl|] eqn:Hlast; [| by apply last_None in Hlast as ->].
    destruct (blocks !! 0%nat) as [b0|] eqn:Hb0; [| destruct blocks; [done | simpl in Hb0; done]].
    pose proof (init_connect blocks b0 bl h2 hd tl Hr Hb0 Hlast) as Hrep.
    pose proof (init_connect_in blocks b0 bl h2 hd tl Hr Hb0 Hlast) as (? & ? & _).
    assert (is_Some (h2 !! b0)) by (apply (ir_alive _ _ _ _ Hr); set_solver).
    assert (is_Some (h2 !! bl)) by (apply (ir_alive _ _ _ _ Hr); set_solver).
    assert (Hlast' : py_index blocks (-1) = Ok bl).
    { apply last_Some in Hlast as [k ->]. apply py_index_last. }
    eexists. split; [| split; [exact Hrep |]].
    + rewrite (py_index_nat _ 0 _ Hb0 : py_index blocks 0 = Ok b0), Hlast'. unfold lift. qrun. done.
    + split_and!; simpl; [| by apply not_elem_of_dom ..].
      intros l Hl. rewrite <- Hd2 by done.
      rewrite (same_data_next _ _ _ l), (same_data_prev _ _ _ l), (same_data_prev _ _ _ l). apply same_data_next.
  - assert (blocks = []) as -> by (destruct blocks; [done | zbool; unfold zlen in Hz; simpl in Hz; lia]).
    eexists. split; [| split; [exact (init_connect_nil h2 hd tl Hr) |]].
    + qrun. done.
    + split_and!; simpl; [| by apply not_elem_of_dom ..].
      intros l Hl. rewrite <- Hd2 by done. rewrite (same_data_prev _ _ _ l). apply same_data_next.
Qed.

(** ** Refinement
    The queue, seen through its public methods, is a list: any sequence of calls with
    admissible arguments returns (or raises) what the list operations below say. *)

Inductive qcall :=
  | CPopleft | CPopleftN (n : Z) | CRemove (b : loc) | CAppend (b : loc) | CAppendN (bs : list loc)
  | CGetAll.
Inductive qresult := RUnit | RBlock (b : loc) | RBlocks (bs : list loc).

(** A call of the implementation. An object lives at one location, so the heap size bounds
    the traversal of get_all_free_blocks. *)
Definition run_call (c : qcall) : QM qresult :=
  match c with
  | CPopleft => let* b := popleft in ret (RBlock b)
  | CPopleftN n => let* bs := popleft_n n in ret (RBlocks bs)
  | CRemove b => remove b ;;; ret RUnit
  | CAppend b => append b ;;; ret RUnit
  | CAppendN bs => append_n bs ;;; ret RUnit
  | CGetAll =>
    let* s := get in
    let* o := get_all_free_blocks (S (size (qheap s))) in
    match o with Some bs => ret (RBlocks bs) | None => raise OutOfFuel end
  end.

(** The specification: the same call on a list. *)
Definition spec_call (c : qcall) (L : list loc) : res qresult * list loc :=
  match c with
  | CPopleft => match L with [] => (Err ValueError, L) | x :: L' => (Ok (RBlock x), L') end
  | CPopleftN n =>
    if zlen L <? n then (Err AssertionError, L)
    else (Ok (RBlocks (take (Z.to_nat n) L)), drop (Z.to_nat n) L)
  | CRemove b => if decide (b ∈ L) then (Ok RUnit, filter (fun x => x <> b) L) else (Err RuntimeError, L)
  | CAppend b => (Ok RUnit, L ++ [b])
  | CAppendN bs => (Ok RUnit, L ++ bs)
  | CGetAll => (Ok (RBlocks L), L)
  end.

(** Admissible arguments: live blocks that are not the fake ends; appended blocks are
    distinct and not yet in the list; counts are not negative. *)
Definition outside (s : qstate) (b : loc) : Prop :=
  is_Some (qheap s !! b) /\ b <> fake_free_list_head (fq s) /\ b <> fake_free_list_tail (fq s).
Definition call_ok (s : qstate) (L : list loc) (c : qcall) : Prop :=
  match c with
  | CPopleftN n => 0 <= n
  | CRemove b => outside s b
  | CAppend b => outside s b /\ b ∉ L
  | CAppendN bs => NoDup bs /\ Forall (fun b => outside s b /\ b ∉ L) bs
  | CPopleft | CGetAll => True
  end.

Fixpoint run_calls (cs : list qcall) (s : qstate) : list (res qresult) * qstate :=
  match cs with
  | [] => ([], s)
  | c :: cs' => let (r, s1) := run_call c s in let (rs, s2) := run_calls cs' s1 in (r :: rs, s2)
  end.
Fixpoint spec_calls (cs : list qcall) (L : list loc) : list (res qresult) * list loc :=
  match cs with
  | [] => ([], L)
  | c :: cs' => let (r, L1) := spec_call c L in let (rs, L2) := spec_calls cs' L1 in (r :: rs, L2)
  end.
(** Every call of a sequence is admissible where it is made. *)
Fixpoint calls_ok (s : qstate) (L : list loc) (cs : list qcall) : Prop :=
  match cs with
  | [] => True
  | c :: cs' => call_ok s L c /\ calls_ok s (spec_call c L).2 cs'
  end.

#[export] Instance outside_dec s b : Decision (outside s b).
Proof. unfold outside. apply _. Defined.
#[export] Instance call_ok_dec s L c : Decision (call_ok s L c).
Proof. destruct c; simpl; apply _. Defined.
#[export] Instance calls_ok_dec s L cs : Decision (calls_ok s L cs).
Proof. revert L. induction cs as [|c cs IH]; intros L; simpl; apply _. Defined.

Lemma outside_not_in s L b :
  outside s b -> b ∉ L -> b ∉ fake_free_list_head (fq s) :: L ++ [fake_free_list_tail (fq s)].
Proof.
  intros (_ & ? & ?) HL. rewrite elem_of_cons, elem_of_app, list_elem_of_singleton. tauto.
Qed.

Lemma filter_remove {A} `{EqDecision A} (l : A) (L1 L2 : list A) :
  NoDup (L1 ++ l :: L2) -> filter (fun x => x <> l) (L1 ++ l :: L2) = L1 ++ L2.
Proof.
  intros [H1 H2]%NoDup_app_cons_not_in. rewrite filter_app, filter_cons_False by (intros ?; congruence).
  by rewrite !filter_id by (intros ? ? ->; done).
Qed.

Lemma queue_rep_NoDup s L : queue_rep s L -> NoDup L.
Proof. intros H. pose proof (rep_nodup _ _ H) as [_ Hd]%NoDup_cons. by apply NoDup_app in Hd as [? _]. Qed.

Lemma queue_rep_size s L : queue_rep s L -> (length L < S (size (qheap s)))%nat.
Proof.
  intros H. rewrite <- size_dom. rewrite <- (size_list_to_set (C := gset loc) L) by (by apply queue_rep_NoDup in H).
  apply le_n_S, subseteq_size. intros l Hl%elem_of_list_to_set. apply elem_of_dom.
  apply (queue_rep_alive s L); auto.
Qed.

Lemma outside_frame s s' b : queue_frame s s' -> outside s b -> outside s' b.
Proof.
  intros (Hd & Hh & Ht) (Ha & ? & ?). split; [by apply (is_Some_lookup_proper b _ _ Hd) |]. by rewrite Hh, Ht.
Qed.
Lemma call_ok_frame s s' L c : queue_frame s s' -> call_ok s L c -> call_ok s' L c.
Proof.
  intros Hf. destruct c; simpl; try done.
  - by apply outside_frame.
  - intros [? ?]. split; [by eapply outside_frame | done].
  - intros [? Hbs]. split; [done |]. eapply Forall_impl; [exact Hbs |].
    intros x [? ?]. split; [by eapply outside_frame | done].
Qed.
Lemma calls_ok_frame s s' cs : queue_frame s s' -> forall L, calls_ok s L cs -> calls_ok s' L cs.
Proof.
  intros Hf. induction cs as [|c cs IH]; intros L; simpl; [done |].
  intros [? ?]. split; [by eapply call_ok_frame | by apply IH].
Qed.

Lemma run_call_spec s L c :
  queue_rep s L -> call_ok s L c ->
  exists s', run_call c s = ((spec_call c L).1, s') /\ queue_rep s' (spec_call c L).2 /\ queue_frame s s'.
Proof.
  intros Hrep. destruct c as [|n|b|b|bs|]; simpl; unfold bind, ret.
  - intros _. destruct L as [|x L].
    + exists s. rewrite popleft_empty by done. split_and!; [done | done | apply queue_frame_refl ..].
    + destruct (popleft_spec s x L Hrep) as (s' & -> & ? & ?). eauto.
  - intros Hn. destruct (Z.ltb_spec (zlen L) n) as [Hlt | Hle].
    + exists s. rewrite (popleft_n_too_many s L) by (done || (pose proof (zlen_nonneg L); lia)).
      split_and!; [done | done | apply queue_frame_refl ..].
    + assert (Ek : zlen (take (Z.to_nat n) L) = n) by (unfold zlen in *; rewrite length_take; lia).
      rewrite <- (take_drop (Z.to_nat n) L) in Hrep.
      destruct (popleft_n_spec s _ _ Hrep) as (s' & Hrun & ? & ?). rewrite Ek in Hrun. rewrite Hrun. eauto.
  - intros Hb. case_decide as HbL.
    + apply list_elem_of_split in HbL as (L1 & L2 & ->).
      destruct (remove_spec s L1 b L2 Hrep) as (s' & -> & ? & ?).
      simpl. rewrite filter_remove by (by eapply queue_rep_NoDup). eauto.
    + exists s. rewrite (remove_detached s L) by (done || apply Hb || by apply outside_not_in).
      split_and!; [done | done | apply queue_frame_refl ..].
  - intros [Hb HbL]. destruct (append_spec s L b Hrep) as (s' & -> & ? & ?);
      [apply Hb | by apply outside_not_in |]. eauto.
  - intros [Hnd Hbs]. rewrite Forall_forall in Hbs.
    destruct (append_n_spec s L bs Hrep Hnd) as (s' & -> & ? & ?); [| | eauto].
    + intros b Hb. by apply outside_not_in; apply Hbs.
    + intros b Hb. apply Hbs, Hb.
  - intros _. exists s. unfold get. rewrite (get_all_free_blocks_spec s L) by (done || by apply queue_rep_size).
    split_and!; [done | done | apply queue_frame_refl ..].
Qed.
