(* ===== verification/Request.v ===== *)
(** * Request
    The request object of vllm/v1/request.py: the fields the scheduler-side components
    read and write, its constructor, its token bookkeeping, its status values and its
    ordering. The block hasher a request is built with is a parameter
    ([option (M Request (list bytes))]); BlockHash.v provides the real one. *)
From S2P Require Import Prelude KVCacheBlock.

(** class RequestStatus *)
Inductive RequestStatus :=
  | WAITING
  | WAITING_FOR_STRUCTURED_OUTPUT_GRAMMAR
  | WAITING_FOR_REMOTE_KVS
  | WAITING_FOR_STREAMING_REQ
  | RUNNING
  | PREEMPTED
  | FINISHED_STOPPED
  | FINISHED_LENGTH_CAPPED
  | FINISHED_ABORTED
  | FINISHED_IGNORED
  | FINISHED_ERROR
  | FINISHED_REPETITION.

#[export] Instance RequestStatus_eq_dec : EqDecision RequestStatus.
Proof. solve_decision. Defined.

(** The [enum.auto()] value of a status. *)
Definition status_value (s : RequestStatus) : Z :=
  match s with
  | WAITING => 1
  | WAITING_FOR_STRUCTURED_OUTPUT_GRAMMAR => 2
  | WAITING_FOR_REMOTE_KVS => 3
  | WAITING_FOR_STREAMING_REQ => 4
  | RUNNING => 5
  | PREEMPTED => 6
  | FINISHED_STOPPED => 7
  | FINISHED_LENGTH_CAPPED => 8
  | FINISHED_ABORTED => 9
  | FINISHED_IGNORED => 10
  | FINISHED_ERROR => 11
  | FINISHED_REPETITION => 12
  end.

(** RequestStatus.is_finished: [status > RequestStatus.PREEMPTED]. *)
Definition status_is_finished (s : RequestStatus) : bool :=
  status_value PREEMPTED <? status_value s.

(** class FinishReason of vllm/v1/engine/__init__.py *)
Inductive FinishReason := STOP | LENGTH | ABORT | ERROR | REPETITION.

(** RequestStatus.get_finished_reason with [_FINISHED_REASON_MAP]. *)
Definition status_finished_reason (s : RequestStatus) : option FinishReason :=
  match s with
  | FINISHED_STOPPED => Some STOP
  | FINISHED_LENGTH_CAPPED => Some LENGTH
  | FINISHED_ABORTED => Some ABORT
  | FINISHED_IGNORED => Some LENGTH
  | FINISHED_ERROR => Some ERROR
  | WAITING_FOR_STREAMING_REQ => Some STOP
  | FINISHED_REPETITION => Some REPETITION
  | _ => None
  end.

(** class RepetitionDetectionParams of vllm/sampling_params.py *)
Record RepetitionDetectionParams := mkRep {
  max_pattern_size : Z;
  min_pattern_size : Z;
  min_count : Z;
}.

(** The sampling parameters the modelled code reads. [structured_outputs] tells whether
    StructuredOutputRequest.from_sampling_params builds a request object. *)
Record SamplingParams := mkSP {
  sp_max_tokens : option Z;
  min_tokens : Z;
  eos_token_id : option Z;
  stop_token_ids : option (list Z);
  repetition_detection : option RepetitionDetectionParams;
  structured_outputs : bool;
  sp_skip_reading_prefix_cache : option bool;
}.

(** The pooling parameters the modelled code reads. *)
Record PoolingParams := mkPP { pp_skip_reading_prefix_cache : option bool }.

(** LoRARequest: name and adapter id. *)
Record LoRARequest := mkLoRA { lora_name : string; adapter_id : Z }.

(** MultiModalFeatureSpec: the identifier and the placeholder range, with the optional mask
    of the positions that get embeddings. *)
Record MMFeature := mkMM { identifier : string; mm_offset : Z; mm_length : Z; mm_is_embed : option (list bool) }.

(** PlaceholderRange.embeds_cumsum, get_num_embeds and get_embeds_indices_in_range *)
Fixpoint cumsum_from (acc : Z) (l : list bool) : list Z :=
  match l with [] => [] | b :: l' => let acc' := acc + (if b then 1 else 0) in acc' :: cumsum_from acc' l' end.
Definition embeds_cumsum (f : MMFeature) : option (list Z) := cumsum_from 0 <$> mm_is_embed f.
Definition mm_num_embeds (f : MMFeature) : Z :=
  match embeds_cumsum f with
  | None => mm_length f
  | Some l => default 0 (last l)
  end.
Definition get_embeds_indices_in_range (f : MMFeature) (start_idx end_idx : Z) : res (Z * Z) :=
  match embeds_cumsum f with
  | None => Ok (start_idx, end_idx)
  | Some l =>
    match (if 0 <? start_idx then py_index l (start_idx - 1) else Ok 0) with
    | Err e => Err e
    | Ok s =>
      match (if 0 <? end_idx then py_index l (end_idx - 1) else Ok 0) with
      | Err e => Err e
      | Ok e => Ok (s, e)
      end
    end
  end.

(** The stop reason: a token id or a string. *)
Inductive StopReason := StopToken (t : Z) | StopStr (s : string).

(** class Request: the fields used by the modelled components. [prompt_embeds] is the
    list of the raw bytes of the embedding rows. [arrival_time] is an integer time stamp,
    only ever compared. *)
Record Request := mkRequest {
  request_id : string;
  priority : Z;
  arrival_time : Z;
  sampling_params : option SamplingParams;
  pooling_params : option PoolingParams;
  lora_request : option LoRARequest;
  status : RequestStatus;
  stop_reason : option StopReason;
  max_tokens : Z;
  prompt_token_ids : option (list Z);
  prompt_embeds : option (list bytes);
  _prompt_embeds_per_block_hashes : gmap (Z * Z) bytes;
  num_prompt_tokens : Z;
  _output_token_ids : list Z;
  _all_token_ids : list Z;
  num_computed_tokens : Z;
  spec_token_ids : list Z;
  cache_salt : option string;
  mm_features : list MMFeature;
  num_preemptions : Z;
  nelssa_long_mask : bool;
  block_hashes : list bytes;
  skip_reading_prefix_cache : bool;
}.

Definition with_memo (m : gmap (Z * Z) bytes) (r : Request) : Request :=
  mkRequest (request_id r) (priority r) (arrival_time r) (sampling_params r) (pooling_params r)
    (lora_request r) (status r) (stop_reason r) (max_tokens r) (prompt_token_ids r)
    (prompt_embeds r) m (num_prompt_tokens r) (_output_token_ids r) (_all_token_ids r)
    (num_computed_tokens r) (spec_token_ids r) (cache_salt r) (mm_features r)
    (num_preemptions r) (nelssa_long_mask r) (block_hashes r) (skip_reading_prefix_cache r).
Definition with_hashes (hs : list bytes) (r : Request) : Request :=
  mkRequest (request_id r) (priority r) (arrival_time r) (sampling_params r) (pooling_params r)
    (lora_request r) (status r) (stop_reason r) (max_tokens r) (prompt_token_ids r)
    (prompt_embeds r) (_prompt_embeds_per_block_hashes r) (num_prompt_tokens r)
    (_output_token_ids r) (_all_token_ids r)
    (num_computed_tokens r) (spec_token_ids r) (cache_salt r) (mm_features r)
    (num_preemptions r) (nelssa_long_mask r) hs (skip_reading_prefix_cache r).
Definition with_tokens (out all : list Z) (r : Request) : Request :=
  mkRequest (request_id r) (priority r) (arrival_time r) (sampling_params r) (pooling_params r)
    (lora_request r) (status r) (stop_reason r) (max_tokens r) (prompt_token_ids r)
    (prompt_embeds r) (_prompt_embeds_per_block_hashes r) (num_prompt_tokens r) out all
    (num_computed_tokens r) (spec_token_ids r) (cache_salt r) (mm_features r)
    (num_preemptions r) (nelssa_long_mask r) (block_hashes r) (skip_reading_prefix_cache r).
Definition with_status (st : RequestStatus) (sr : option StopReason) (r : Request) : Request :=
  mkRequest (request_id r) (priority r) (arrival_time r) (sampling_params r) (pooling_params r)
    (lora_request r) st sr (max_tokens r) (prompt_token_ids r)
    (prompt_embeds r) (_prompt_embeds_per_block_hashes r) (num_prompt_tokens r)
    (_output_token_ids r) (_all_token_ids r)
    (num_computed_tokens r) (spec_token_ids r) (cache_salt r) (mm_features r)
    (num_preemptions r) (nelssa_long_mask r) (block_hashes r) (skip_reading_prefix_cache r).

Definition with_computed (n : Z) (r : Request) : Request :=
  mkRequest (request_id r) (priority r) (arrival_time r) (sampling_params r) (pooling_params r)
    (lora_request r) (status r) (stop_reason r) (max_tokens r) (prompt_token_ids r)
    (prompt_embeds r) (_prompt_embeds_per_block_hashes r) (num_prompt_tokens r)
    (_output_token_ids r) (_all_token_ids r)
    n (spec_token_ids r) (cache_salt r) (mm_features r)
    (num_preemptions r) (nelssa_long_mask r) (block_hashes r) (skip_reading_prefix_cache r).
Definition with_spec (l : list Z) (r : Request) : Request :=
  mkRequest (request_id r) (priority r) (arrival_time r) (sampling_params r) (pooling_params r)
    (lora_request r) (status r) (stop_reason r) (max_tokens r) (prompt_token_ids r)
    (prompt_embeds r) (_prompt_embeds_per_block_hashes r) (num_prompt_tokens r)
    (_output_token_ids r) (_all_token_ids r)
    (num_computed_tokens r) l (cache_salt r) (mm_features r)
    (num_preemptions r) (nelssa_long_mask r) (block_hashes r) (skip_reading_prefix_cache r).
Definition with_preemptions (n : Z) (r : Request) : Request :=
  mkRequest (request_id r) (priority r) (arrival_time r) (sampling_params r) (pooling_params r)
    (lora_request r) (status r) (stop_reason r) (max_tokens r) (prompt_token_ids r)
    (prompt_embeds r) (_prompt_embeds_per_block_hashes r) (num_prompt_tokens r)
    (_output_token_ids r) (_all_token_ids r)
    (num_computed_tokens r) (spec_token_ids r) (cache_salt r) (mm_features r)
    n (nelssa_long_mask r) (block_hashes r) (skip_reading_prefix_cache r).
Definition with_long_mask (b : bool) (r : Request) : Request :=
  mkRequest (request_id r) (priority r) (arrival_time r) (sampling_params r) (pooling_params r)
    (lora_request r) (status r) (stop_reason r) (max_tokens r) (prompt_token_ids r)
    (prompt_embeds r) (_prompt_embeds_per_block_hashes r) (num_prompt_tokens r)
    (_output_token_ids r) (_all_token_ids r)
    (num_computed_tokens r) (spec_token_ids r) (cache_salt r) (mm_features r)
    (num_preemptions r) b (block_hashes r) (skip_reading_prefix_cache r).

(** ** Properties (Python properties) *)
Definition num_tokens (r : Request) : Z := zlen (_all_token_ids r).
Definition num_tokens_with_spec (r : Request) : Z :=
  zlen (_all_token_ids r) + zlen (spec_token_ids r).
Definition num_output_tokens (r : Request) : Z := zlen (_output_token_ids r).
Definition num_encoder_inputs (r : Request) : Z := zlen (mm_features r).
Definition has_encoder_inputs (r : Request) : bool := 0 <? num_encoder_inputs r.
Definition is_finished (r : Request) : bool := status_is_finished (status r).

(** get_skip_reading_prefix_cache *)
Definition get_skip_reading_prefix_cache
    (sp : option SamplingParams) (pp : option PoolingParams) : bool :=
  match (sp ≫= sp_skip_reading_prefix_cache) with
  | Some b => b
  | None => match (pp ≫= pp_skip_reading_prefix_cache) with Some b => b | None => false end
  end.

(** get_num_encoder_embeds *)
Definition get_num_encoder_embeds (r : Request) (input_id : Z) : res Z :=
  if input_id <? zlen (mm_features r) then
    match py_index (mm_features r) input_id with
    | Ok f => Ok (mm_num_embeds f)
    | Err e => Err e
    end
  else Err AssertionError.

(** ** Block hashes and tokens *)

(** The block hasher a request carries: it reads the request (and fills the memo table
    of prompt-embedding hashes) and returns the new hashes. *)
Abbreviation BlockHasher := (option (M Request (list bytes))).

(** update_block_hashes *)
Definition update_block_hashes (hasher : BlockHasher) : M Request unit :=
  match hasher with
  | None => ret tt
  | Some f => let* hs := f in modify (fun r => with_hashes (block_hashes r ++ hs) r)
  end.

(** append_output_token_ids: a single token is a singleton list. *)
Definition append_output_token_ids (hasher : BlockHasher) (token_ids : list Z) : M Request unit :=
  modify (fun r => with_tokens (_output_token_ids r ++ token_ids) (_all_token_ids r ++ token_ids) r) ;;;
  update_block_hashes hasher.

(** length_from_prompt_token_ids_or_embeds of vllm/utils/__init__.py *)
Definition length_from_prompt_token_ids_or_embeds
    (ids : option (list Z)) (embeds : option (list bytes)) : res Z :=
  match ids, embeds with
  | None, None => Err ValueError
  | None, Some e => Ok (zlen e)
  | Some t, Some e => if zlen e =? zlen t then Ok (zlen t) else Err ValueError
  | Some t, None => Ok (zlen t)
  end.

(** __init__: the status and token limit the parameters determine. *)
Definition initial_status_and_limit
    (sp : option SamplingParams) (pp : option PoolingParams) : res (RequestStatus * Z) :=
  match pp with
  | Some _ => Ok (WAITING, 1)
  | None =>
    match sp with
    | None => Err ValueError
    | Some sp =>
      match sp_max_tokens sp with
      | None => Err AssertionError
      | Some m =>
        Ok (if structured_outputs sp then WAITING_FOR_STRUCTURED_OUTPUT_GRAMMAR else WAITING, m)
      end
    end
  end.

(** Request.__init__ *)
Definition new_request (rid : string) (ids : option (list Z))
    (sp : option SamplingParams) (pp : option PoolingParams) (arrival : Z)
    (embeds : option (list bytes)) (mms : list MMFeature) (lora : option LoRARequest)
    (salt : option string) (prio : Z) (hasher : BlockHasher) : res Request :=
  match initial_status_and_limit sp pp with
  | Err e => Err e
  | Ok (st, lim) =>
    match length_from_prompt_token_ids_or_embeds ids embeds with
    | Err e => Err e
    | Ok n =>
      let all := match ids with Some t => t | None => replicate (Z.to_nat n) 0 end in
      let r := mkRequest rid prio arrival sp pp lora st None lim ids embeds ∅ n [] all
                 0 [] salt mms 0 false [] (get_skip_reading_prefix_cache sp pp) in
      match update_block_hashes hasher r with
      | (Ok _, r') => Ok r'
      | (Err e, _) => Err e
      end
    end
  end.

(** ** Ordering (__lt__)
    Priority, then arrival time, then request id; [id_lt] is the comparison of the object
    identities used for the final tie. *)
Fixpoint ascii_list_ltb (a b : list Ascii.ascii) : bool :=
  match a, b with
  | _, [] => false
  | [], _ :: _ => true
  | x :: a', y :: b' =>
    if (Ascii.N_of_ascii x =? Ascii.N_of_ascii y)%N then ascii_list_ltb a' b'
    else (Ascii.N_of_ascii x <? Ascii.N_of_ascii y)%N
  end.
Definition str_ltb (a b : string) : bool :=
  ascii_list_ltb (String.list_ascii_of_string a) (String.list_ascii_of_string b).

Definition request_lt (id_lt : bool) (a b : Request) : bool :=
  if negb (priority a =? priority b) then priority a <? priority b
  else if negb (arrival_time a =? arrival_time b) then arrival_time a <? arrival_time b
  else if negb (String.eqb (request_id a) (request_id b)) then str_ltb (request_id a) (request_id b)
  else id_lt.
