(* ===== verification/BlockHash.v ===== *)
(** * BlockHash
    Prefix-cache keys (vllm/v1/core/kv_cache_utils.py): packing of a block hash with a
    KV-cache group id, the extra keys of a block (LoRA, multi-modal inputs, cache salt,
    prompt embeddings), the chained block hash and the request's block hasher.

    The hash function, the [NONE_HASH] seed and sha256 are parameters. The theorems show
    that the incremental hasher computes the chain over all full blocks, whatever way the
    tokens arrive, and that (for a collision-free hash) equal block hashes mean equal
    token prefixes and equal extra keys. *)
From Stdlib Require Sorted.
From S2P Require Import Prelude KVCacheBlock Request.

(** ** Group-id packing *)

(** [group_id.to_bytes(4, "big", signed=False)] *)
Definition to_bytes4 (g : Z) : res bytes :=
  if (0 <=? g) && (g <? 2 ^ 32) then
    Ok [Z.land (Z.shiftr g 24) 255; Z.land (Z.shiftr g 16) 255;
        Z.land (Z.shiftr g 8) 255; Z.land g 255]
  else Err OverflowError.

(** [int.from_bytes(b, "big", signed=False)] *)
Definition from_bytes_big (b : bytes) : Z := fold_left (fun acc x => acc * 256 + x) b 0.

Definition make_block_hash_with_group_id (block_hash : bytes) (group_id : Z) : res bytes :=
  match to_bytes4 group_id with
  | Ok g => Ok (block_hash ++ g)
  | Err e => Err e
  end.

(** [key\[:-4\]] and [key\[-4:\]] *)
Definition get_block_hash (key : bytes) : bytes := py_slice key 0 (-4).
Definition get_group_id (key : bytes) : Z := from_bytes_big (py_slice key (-4) (zlen key)).

(** ExternalBlockHash = bytes | int *)
Inductive ExternalBlockHash := EBytes (b : bytes) | EInt (z : Z).

(** maybe_convert_block_hash; [use_int] is VLLM_KV_EVENTS_USE_INT_BLOCK_HASHES. *)
Definition maybe_convert_block_hash (use_int : bool) (hash_bytes : bytes) : ExternalBlockHash :=
  if negb use_int then EBytes hash_bytes
  else EInt (Z.land (from_bytes_big hash_bytes) (Z.shiftl 1 64 - 1)).

(** ** Extra keys *)

(** The Python values that occur in an extra-keys tuple: strings (a LoRA name or a cache
    salt), pairs (mm identifier, offset) and bytes (hash of a slice of prompt embeddings). *)
Inductive PyKey :=
  | KStr (s : string)
  | KPair (s : string) (off : Z)
  | KBytes (b : bytes).

Definition need_extra_keys (r : Request) : bool :=
  match mm_features r with [] => false | _ => true end
  || match lora_request r with Some _ => true | None => false end
  || match cache_salt r with Some _ => true | None => false end.

(** The while loop of _gen_mm_extra_hash_keys over [mm_features\[curr_mm_idx:\]]. *)
Fixpoint mm_loop (fs : list MMFeature) (curr_mm_idx start_token_idx end_token_idx : Z)
    : list PyKey * Z :=
  match fs with
  | [] => ([], curr_mm_idx)
  | f :: fs' =>
    if mm_offset f <? end_token_idx then
      if mm_offset f + mm_length f <=? start_token_idx then
        mm_loop fs' (curr_mm_idx + 1) start_token_idx end_token_idx
      else
        let key := KPair (identifier f) (mm_offset f - start_token_idx) in
        if mm_offset f + mm_length f <=? end_token_idx then
          let (ks, c) := mm_loop fs' (curr_mm_idx + 1) start_token_idx end_token_idx in
          (key :: ks, c)
        else ([key], curr_mm_idx)
    else ([], curr_mm_idx)
  end.

Definition _gen_mm_extra_hash_keys (r : Request) (start_token_idx end_token_idx start_mm_idx : Z)
    : res (list PyKey * Z) :=
  match last (mm_features r) with
  | None => Ok ([], start_mm_idx)
  | Some lastf =>
    if mm_offset lastf + mm_length lastf <=? start_token_idx then Ok ([], start_mm_idx)
    else
      let n := zlen (mm_features r) in
      if (start_mm_idx <? 0) && (n <? - start_mm_idx) then Err AssertionError
      else
        let i := if start_mm_idx <? 0 then n + start_mm_idx else start_mm_idx in
        Ok (mm_loop (drop (Z.to_nat i) (mm_features r)) i start_token_idx end_token_idx)
  end.

Definition _gen_lora_extra_hash_keys (r : Request) : list PyKey :=
  match lora_request r with None => [] | Some l => [KStr (lora_name l)] end.

(** [\[cache_salt\]] for the first block, when the salt is a non-empty string. *)
Definition cache_salt_keys (r : Request) (start_token_idx : Z) : list PyKey :=
  match cache_salt r with
  | Some s => if (start_token_idx =? 0) && negb (String.eqb s "") then [KStr s] else []
  | None => []
  end.

Section hashing.
Context (sha256 : bytes -> bytes).

(** [hashlib.sha256(tensor_data(prompt_embeds\[s:e\])).digest()] *)
Definition embeds_digest (em : list bytes) (s e : Z) : bytes := sha256 (concat (py_slice em s e)).

(** _gen_prompt_embeds_extra_hash_keys: memoised per block range on the request. *)
Definition _gen_prompt_embeds_extra_hash_keys (s e : Z) : M Request (list PyKey) :=
  let* r := get in
  match prompt_embeds r with
  | None => ret []
  | Some em =>
    match _prompt_embeds_per_block_hashes r !! (s, e) with
    | Some h => ret [KBytes h]
    | None =>
      let h := embeds_digest em s e in
      modify (fun r => with_memo (<[(s, e) := h]> (_prompt_embeds_per_block_hashes r)) r) ;;;
      ret [KBytes h]
    end
  end.

Definition generate_block_hash_extra_keys (start_token_idx end_token_idx start_mm_idx : Z)
    : M Request (option (list PyKey) * Z) :=
  let* r := get in
  let* mm := lift (_gen_mm_extra_hash_keys r start_token_idx end_token_idx start_mm_idx) in
  let lora_extra_keys := _gen_lora_extra_hash_keys r in
  let salt_keys := cache_salt_keys r start_token_idx in
  let* prompt_embeds_keys := _gen_prompt_embeds_extra_hash_keys start_token_idx end_token_idx in
  let extra_keys := lora_extra_keys ++ mm.1 ++ salt_keys ++ prompt_embeds_keys in
  match extra_keys with
  | [] => ret (None, mm.2)
  | _ => ret (Some extra_keys, mm.2)
  end.

(** ** Block hashes *)
Context (hash_function : bytes * list Z * option (list PyKey) -> bytes) (NONE_HASH : bytes).

Definition hash_block_tokens (parent_block_hash : option bytes) (curr_block_token_ids : list Z)
    (extra_keys : option (list PyKey)) : bytes :=
  let parent := match parent_block_hash with
                | None | Some [] => NONE_HASH
                | Some h => h
                end in
  hash_function (parent, curr_block_token_ids, extra_keys).

(** The [while True] loop of request_block_hasher. *)
Fixpoint hasher_loop (fuel : nat) (block_size start_token_idx curr_mm_idx : Z)
    (prev_block_hash_value : option bytes) : M Request (list bytes) :=
  match fuel with
  | O => raise OutOfFuel
  | S fuel' =>
    let* r := get in
    let end_token_idx := start_token_idx + block_size in
    if num_tokens r <? end_token_idx then ret []
    else
      let* x := generate_block_hash_extra_keys start_token_idx end_token_idx curr_mm_idx in
      let block_tokens := py_slice (_all_token_ids r) start_token_idx end_token_idx in
      let block_hash := hash_block_tokens prev_block_hash_value block_tokens x.1 in
      let* rest := hasher_loop fuel' block_size (start_token_idx + block_size) x.2 (Some block_hash) in
      ret (block_hash :: rest)
  end.

(** request_block_hasher (returned by get_request_block_hasher). The loop advances by
    [block_size] tokens, so [num_tokens + 1] iterations always suffice. *)
Definition request_block_hasher (block_size : Z) : M Request (list bytes) :=
  let* r := get in
  let start_token_idx := zlen (block_hashes r) * block_size in
  if num_tokens r <? start_token_idx + block_size then ret []
  else
    let curr_mm_idx := if 0 <? start_token_idx then -1 else 0 in
    hasher_loop (S (Z.to_nat (num_tokens r))) block_size start_token_idx curr_mm_idx
      (last (block_hashes r)).
End hashing.

(** ** Block hashes at a coarser granularity *)

(** class BlockHashListWithBlockSize *)
Record BlockHashListWithBlockSize := mkBHL { bhl_hashes : list bytes; scale_factor : Z }.

Definition new_BlockHashListWithBlockSize (hs : list bytes) (hash_block_size target_block_size : Z)
    : res BlockHashListWithBlockSize :=
  if target_block_size mod hash_block_size =? 0
  then Ok (mkBHL hs (target_block_size / hash_block_size))
  else Err AssertionError.

Definition bhl_len (b : BlockHashListWithBlockSize) : Z := zlen (bhl_hashes b) / scale_factor b.

(** _get_value_at *)
Definition bhl_value_at (b : BlockHashListWithBlockSize) (idx : Z) : bytes :=
  let base := idx * scale_factor b in
  concat (py_slice (bhl_hashes b) base (base + scale_factor b)).

(** BlockHashList = list\[BlockHash\] | BlockHashListWithBlockSize *)
Inductive BlockHashList :=
  | HList (hs : list bytes)
  | HScaled (b : BlockHashListWithBlockSize).

(** [hashes\[i\]] *)
Definition bh_index (b : BlockHashList) (i : Z) : res bytes :=
  match b with
  | HList hs => py_index hs i
  | HScaled b => Ok (bhl_value_at b i)
  end.

(** Iteration ([list(hashes)]). *)
Definition bh_list (b : BlockHashList) : list bytes :=
  match b with
  | HList hs => hs
  | HScaled b => bhl_value_at b <$> range (bhl_len b)
  end.

(** [hashes\[start:\]] *)
Definition bh_from (b : BlockHashList) (start : Z) : list bytes :=
  py_slice (bh_list b) start (zlen (bh_list b)).

(** ** Packing round trip *)

Lemma to_bytes4_Ok g : 0 <= g < 2 ^ 32 ->
  to_bytes4 g = Ok [Z.land (Z.shiftr g 24) 255; Z.land (Z.shiftr g 16) 255;
        Z.land (Z.shiftr g 8) 255; Z.land g 255].
Proof.
  intros [H1 H2]. unfold to_bytes4.
  by rewrite (proj2 (Z.leb_le _ _) H1), (proj2 (Z.ltb_lt _ _) H2).
Qed.

Lemma land_255 z : Z.land z 255 = z mod 256.
Proof. change 255 with (Z.ones 8). by rewrite Z.land_ones by lia. Qed.

Lemma from_to_bytes4 g b : to_bytes4 g = Ok b -> from_bytes_big b = g /\ length b = 4%nat.
Proof.
  unfold to_bytes4. destruct ((0 <=? g) && (g <? 2 ^ 32)) eqn:E; [| done]. zbool.
  intros [= <-]. split; [| done]. unfold from_bytes_big. cbn [fold_left].
  rewrite !land_255, !Z.shiftr_div_pow2 by lia.
  change (2 ^ 24) with 16777216. change (2 ^ 16) with 65536. change (2 ^ 8) with 256.
  change (2 ^ 32) with 4294967296 in *.
  pose proof (Z.div_mod g 256 ltac:(lia)).
  pose proof (Z.div_mod (g / 256) 256 ltac:(lia)) as D1. rewrite Z.div_div in D1 by lia.
  pose proof (Z.div_mod (g / 65536) 256 ltac:(lia)) as D2. rewrite Z.div_div in D2 by lia.
  change (256 * 256) with 65536 in *. change (65536 * 256) with 16777216 in *.
  assert (g / 16777216 < 256) by (apply Z.div_lt_upper_bound; lia).
  assert (0 <= g / 16777216) by (apply Z.div_pos; lia).
  rewrite (Z.mod_small (g / 16777216)) by lia. lia.
Qed.

Lemma py_slice_drop_end {A} (l k : list A) :
  py_slice (l ++ k) 0 (- zlen k) = l \/ k = [].
Proof.
  destruct k as [|x k]; [by right | left].
  unfold py_slice, slice_bound.
  rewrite (proj2 (Z.ltb_ge 0 0)) by lia.
  rewrite (proj2 (Z.ltb_lt _ 0)) by (rewrite zlen_cons; pose proof (zlen_nonneg k); lia).
  rewrite zlen_app. pose proof (zlen_nonneg l). pose proof (zlen_nonneg (x :: k)).
  rewrite Z.min_l, drop_0 by lia. rewrite take_app_length'; [done |].
  unfold zlen in *. lia.
Qed.

Lemma py_slice_take_end {A} (l k : list A) :
  k <> [] -> py_slice (l ++ k) (- zlen k) (zlen (l ++ k)) = k.
Proof.
  intros Hk. destruct k as [|x k]; [done |]. set (k' := x :: k) in *.
  assert (0 < zlen k') by (subst k'; rewrite zlen_cons; pose proof (zlen_nonneg k); lia).
  unfold py_slice, slice_bound. pose proof (zlen_nonneg (l ++ k')).
  rewrite (proj2 (Z.ltb_lt (- zlen k') 0)), (proj2 (Z.ltb_ge (zlen (l ++ k')) 0)) by lia.
  rewrite zlen_app. pose proof (zlen_nonneg l).
  rewrite drop_app_length' by (unfold zlen in *; lia).
  rewrite take_ge; [done | unfold zlen in *; lia].
Qed.

Lemma unpack_pack h g key :
  make_block_hash_with_group_id h g = Ok key ->
  get_block_hash key = h /\ get_group_id key = g.
Proof.
  unfold make_block_hash_with_group_id. destruct (to_bytes4 g) as [b|] eqn:E; [| done].
  intros [= <-]. apply from_to_bytes4 in E as [Hb Hl].
  assert (Hz : zlen b = 4) by (unfold zlen; lia).
  unfold get_block_hash, get_group_id. split.
  - destruct (py_slice_drop_end h b) as [Hs | ->]; [| done]. by rewrite Hz in Hs.
  - replace (-4) with (- zlen b) by lia. rewrite py_slice_take_end; [done | by intros ->].
Qed.

(** A packed key determines both components, and every valid group id can be packed. *)
Lemma pack_inj h g h' g' key :
  make_block_hash_with_group_id h g = Ok key ->
  make_block_hash_with_group_id h' g' = Ok key -> h = h' /\ g = g'.
Proof. intros [<- <-]%unpack_pack [<- <-]%unpack_pack. done. Qed.

Lemma pack_total h g : 0 <= g < 2 ^ 32 -> exists key, make_block_hash_with_group_id h g = Ok key.
Proof. intros Hg. unfold make_block_hash_with_group_id. rewrite to_bytes4_Ok by done. eauto. Qed.

(** ** Multi-modal extra keys
    Reference: the features overlapping the block, in order, with their relative offset. *)
Definition mm_end (f : MMFeature) : Z := mm_offset f + mm_length f.
Definition mm_overlaps (s e : Z) (f : MMFeature) : bool := (mm_offset f <? e) && (s <? mm_end f).
Definition mm_ref (fs : list MMFeature) (s e : Z) : list PyKey :=
  (fun f => KPair (identifier f) (mm_offset f - s)) <$> filter (fun f => mm_overlaps s e f = true) fs.

(** Features are sorted by position and do not overlap each other. *)
Definition mm_sorted (fs : list MMFeature) : Prop :=
  Sorted.StronglySorted (fun f g => mm_end f <= mm_offset g) fs /\
  Forall (fun f => 0 < mm_length f) fs.

(** Every feature before index [i] (Python indexing) ends at or before [s]. *)
Definition norm_idx (fs : list MMFeature) (i : Z) : Z := if i <? 0 then zlen fs + i else i.
Definition mm_passed (fs : list MMFeature) (i s : Z) : Prop :=
  Forall (fun f => mm_end f <= s) (take (Z.to_nat (norm_idx fs i)) fs).

Lemma mm_ref_none fs s e :
  Forall (fun f => mm_overlaps s e f = false) fs -> mm_ref fs s e = [].
Proof.
  induction 1 as [|f fs Hf _ IH]; [done |]. unfold mm_ref in *.
  rewrite filter_cons_False; [done | congruence].
Qed.

Lemma mm_ref_app fs gs s e : mm_ref (fs ++ gs) s e = mm_ref fs s e ++ mm_ref gs s e.
Proof. unfold mm_ref. by rewrite filter_app, fmap_app. Qed.

Lemma mm_overlaps_before s e f : mm_end f <= s -> mm_overlaps s e f = false.
Proof. intros H. unfold mm_overlaps. rewrite (proj2 (Z.ltb_ge s _)) by done. by rewrite andb_false_r. Qed.
Lemma mm_overlaps_after s e f : e <= mm_offset f -> mm_overlaps s e f = false.
Proof. intros H. unfold mm_overlaps. by rewrite (proj2 (Z.ltb_ge _ e)) by done. Qed.

Lemma mm_loop_ref fs : forall c s e,
  mm_sorted fs -> s <= e ->
  exists k, (k <= length fs)%nat /\ mm_loop fs c s e = (mm_ref fs s e, c + Z.of_nat k) /\
    Forall (fun f => mm_end f <= e) (take k fs).
Proof.
  induction fs as [|f fs IH]; intros c s e [Hs Hp] Hse.
  { exists 0%nat. simpl. split_and!; [lia | | constructor]. by rewrite Z.add_0_r. }
  apply Sorted.StronglySorted_inv in Hs as [Hs Hf]. inversion Hp as [|? ? Hpf Hp']; subst.
  assert (Hafter : e <= mm_end f -> Forall (fun g => mm_overlaps s e g = false) fs).
  { intros He. eapply Forall_impl; [exact Hf |]. intros g Hg. apply mm_overlaps_after. simpl in Hg. lia. }
  fold (mm_end f) in *. cbn [mm_loop]. fold (mm_end f).
  destruct (mm_offset f <? e) eqn:E1; zbool.
  - destruct (mm_end f <=? s) eqn:E2; zbool.
    + destruct (IH (c + 1) s e) as (k & Hk & -> & Hfa); [by split | done |].
      exists (S k). simpl. split_and!; [lia | | constructor; [lia | done]].
      change (f :: fs) with ([f] ++ fs). rewrite mm_ref_app, (mm_ref_none [f]).
      * simpl. f_equal. lia.
      * constructor; [by apply mm_overlaps_before | constructor].
    + assert (Hov : mm_overlaps s e f = true).
      { unfold mm_overlaps. by rewrite (proj2 (Z.ltb_lt _ _) E1), (proj2 (Z.ltb_lt _ _) E2). }
      assert (Hcons : mm_ref (f :: fs) s e = KPair (identifier f) (mm_offset f - s) :: mm_ref fs s e).
      { unfold mm_ref. by rewrite filter_cons_True. }
      rewrite Hcons. destruct (mm_end f <=? e) eqn:E3; zbool.
      * destruct (IH (c + 1) s e) as (k & Hk & -> & Hfa); [by split | done |].
        exists (S k). simpl. split_and!; [lia | f_equal; lia | constructor; [lia | done]].
      * exists 0%nat. simpl. rewrite (mm_ref_none fs) by (apply Hafter; lia).
        split_and!; [lia | f_equal; lia | constructor].
  - exists 0%nat. simpl. rewrite mm_ref_none.
    + split_and!; [lia | f_equal; lia | constructor].
    + constructor; [by apply mm_overlaps_after | apply Hafter; unfold mm_end; lia].
Qed.

Lemma mm_sorted_drop k fs : mm_sorted fs -> mm_sorted (drop k fs).
Proof.
  intros [Hs Hp]. split; [| by apply Forall_drop].
  revert fs Hs Hp. induction k as [|k IH]; intros [|f fs] Hs Hp; simpl; try done.
  apply IH; [by apply Sorted.StronglySorted_inv in Hs as [? _] | by inversion Hp].
Qed.

Lemma mm_sorted_last fs l s :
  mm_sorted fs -> last fs = Some l -> mm_end l <= s -> Forall (fun f => mm_end f <= s) fs.
Proof.
  intros [Hs Hp] Hl Hle. apply last_Some in Hl as [k ->].
  rewrite Forall_app. split; [| by repeat constructor].
  apply Forall_app in Hp as [_ Hpl]. inversion Hpl as [|? ? Hpl' _]; subst.
  apply Forall_forall. intros f Hf. apply list_elem_of_lookup in Hf as [i Hi].
  assert (Hfl : mm_end f <= mm_offset l).
  { clear -Hs Hi. revert i Hi. induction k as [|g k IH]; intros i Hi; [done |].
    simpl in Hs. apply Sorted.StronglySorted_inv in Hs as [Hs Hg].
    destruct i as [|i]; simpl in Hi; [injection Hi as ->; by apply Forall_app in Hg as [_ Hg]; inversion Hg | eauto]. }
  unfold mm_end in *. lia.
Qed.

(** The scan from a hint index equals the reference, and returns a valid hint for the next
    block. *)
Lemma gen_mm_ref r s e i :
  mm_sorted (mm_features r) -> s <= e ->
  mm_passed (mm_features r) i s -> (mm_features r = [] \/ - zlen (mm_features r) <= i) ->
  exists i', _gen_mm_extra_hash_keys r s e i = Ok (mm_ref (mm_features r) s e, i') /\
    mm_passed (mm_features r) i' e /\ (mm_features r = [] \/ - zlen (mm_features r) <= i').
Proof.
  intros Hs Hse Hp Hi. unfold _gen_mm_extra_hash_keys. set (fs := mm_features r) in *.
  assert (Hmono : mm_passed fs i e).
  { eapply Forall_impl; [exact Hp |]. intros f Hf. simpl in Hf. lia. }
  destruct (last fs) as [l|] eqn:El; cycle 1.
  { apply last_None in El. rewrite El in *. exists i. by auto. }
  fold (mm_end l). destruct (mm_end l <=? s) eqn:E1; zbool.
  { exists i. rewrite mm_ref_none; [auto |].
    eapply Forall_impl; [by eapply mm_sorted_last |]. intros f Hf. by apply mm_overlaps_before. }
  destruct Hi as [Hi | Hi]; [rewrite Hi in El; done |].
  rewrite (proj2 (Z.ltb_ge (zlen fs) (- i))) by lia. rewrite andb_false_r.
  fold (norm_idx fs i).
  assert (Hn : 0 <= norm_idx fs i) by (unfold norm_idx; destruct (i <? 0) eqn:?; zbool; lia).
  set (n := Z.to_nat (norm_idx fs i)) in *.
  destruct (mm_loop_ref (drop n fs) (norm_idx fs i) s e) as (k & Hk & -> & Hfa);
    [by apply mm_sorted_drop | done |].
  exists (norm_idx fs i + Z.of_nat k). split_and!.
  - do 2 f_equal. rewrite <- (take_drop n fs) at 2. rewrite mm_ref_app, (mm_ref_none (take n fs)); [done |].
    eapply Forall_impl; [exact Hp |]. intros f Hf. by apply mm_overlaps_before.
  - unfold mm_passed, norm_idx at 1. rewrite (proj2 (Z.ltb_ge _ 0)) by lia.
    replace (Z.to_nat (norm_idx fs i + Z.of_nat k)) with (n + k)%nat by lia.
    rewrite <- take_take_drop. apply Forall_app. split; [exact Hmono | done].
  - right. pose proof (zlen_nonneg fs). lia.
Qed.

(** ** The reference hash chain *)
Section chain.
Context (sha256 : bytes -> bytes).
Context (hash_function : bytes * list Z * option (list PyKey) -> bytes) (NONE_HASH : bytes).

(** Extra keys of the block of tokens [s, e), without hints and without memo. *)
Definition embeds_ref (r : Request) (s e : Z) : list PyKey :=
  match prompt_embeds r with None => [] | Some em => [KBytes (embeds_digest sha256 em s e)] end.
Definition extra_ref (r : Request) (s e : Z) : option (list PyKey) :=
  match _gen_lora_extra_hash_keys r ++ mm_ref (mm_features r) s e ++ cache_salt_keys r s
        ++ embeds_ref r s e with
  | [] => None
  | ks => Some ks
  end.

(** Hashes of blocks [k .. k + n - 1], chained from [prev]. *)
Fixpoint ref_chain (r : Request) (bs k : Z) (n : nat) (prev : option bytes) : list bytes :=
  match n with
  | O => []
  | S n' =>
    let h := hash_block_tokens hash_function NONE_HASH prev
               (py_slice (_all_token_ids r) (k * bs) ((k + 1) * bs))
               (extra_ref r (k * bs) ((k + 1) * bs)) in
    h :: ref_chain r bs (k + 1) n' (Some h)
  end.

(** The hashes of all full blocks of a request. *)
Definition full_hashes (r : Request) (bs : Z) : list bytes :=
  ref_chain r bs 0 (Z.to_nat (num_tokens r / bs)) None.

(** The memo table only holds digests of the request's own embeddings. *)
Definition memo_ok (r : Request) : Prop :=
  forall s e h, _prompt_embeds_per_block_hashes r !! (s, e) = Some h ->
  exists em, prompt_embeds r = Some em /\ h = embeds_digest sha256 em s e.

(** [r'] is [r] up to the memo table. *)
Definition memo_of (r r' : Request) : Prop := exists m, r' = with_memo m r.

Lemma memo_of_refl r : memo_of r r.
Proof. exists (_prompt_embeds_per_block_hashes r). by destruct r. Qed.
Lemma memo_of_trans r1 r2 r3 : memo_of r1 r2 -> memo_of r2 r3 -> memo_of r1 r3.
Proof. intros [m ->] [m' ->]. exists m'. by destruct r1. Qed.

Lemma embeds_keys_spec r s e :
  memo_ok r ->
  exists r', _gen_prompt_embeds_extra_hash_keys sha256 s e r = (Ok (embeds_ref r s e), r') /\
    memo_of r r' /\ memo_ok r'.
Proof.
  intros Hm. unfold _gen_prompt_embeds_extra_hash_keys, embeds_ref. mred.
  destruct (prompt_embeds r) as [em|] eqn:Ee; [| eauto using memo_of_refl].
  destruct (_prompt_embeds_per_block_hashes r !! (s, e)) as [h|] eqn:Em.
  - apply Hm in Em as (em' & Ee' & ->). rewrite Ee in Ee'. injection Ee' as <-.
    eauto using memo_of_refl.
  - eexists. split; [done |]. split; [by eexists |].
    intros s' e' h' H'. simpl in *. rewrite lookup_insert in H'. case_decide as Hd.
    + injection Hd as <- <-. injection H' as <-. eauto.
    + by apply Hm in H'.
Qed.

Lemma generate_spec r s e i :
  mm_sorted (mm_features r) -> memo_ok r -> s <= e ->
  mm_passed (mm_features r) i s -> (mm_features r = [] \/ - zlen (mm_features r) <= i) ->
  exists i' r', generate_block_hash_extra_keys sha256 s e i r = (Ok (extra_ref r s e, i'), r') /\
    memo_of r r' /\ memo_ok r' /\
    mm_passed (mm_features r) i' e /\ (mm_features r = [] \/ - zlen (mm_features r) <= i').
Proof.
  intros Hs Hm Hse Hp Hi.
  destruct (gen_mm_ref r s e i Hs Hse Hp Hi) as (i' & Hmm & Hp' & Hi').
  destruct (embeds_keys_spec r s e Hm) as (r' & He & Hr & Hm').
  exists i', r'. split; [| done].
  unfold generate_block_hash_extra_keys, bind, get, lift. rewrite Hmm, He. cbn [fst snd].
  unfold extra_ref.
  by destruct (_gen_lora_extra_hash_keys r ++ mm_ref (mm_features r) s e ++
               cache_salt_keys r s ++ embeds_ref r s e).
Qed.

Lemma extra_ref_memo r r' s e : memo_of r r' -> extra_ref r' s e = extra_ref r s e.
Proof. by intros [m ->]. Qed.
(** The chain depends on the tokens and the extra keys only. *)
Lemma ref_chain_ext r r' bs n : forall k prev,
  _all_token_ids r' = _all_token_ids r ->
  (forall s e, extra_ref r' s e = extra_ref r s e) ->
  ref_chain r' bs k n prev = ref_chain r bs k n prev.
Proof.
  induction n as [|n IH]; intros k prev Ht He; simpl; [done |]. by rewrite Ht, He, IH.
Qed.
Lemma ref_chain_memo r r' bs k n prev : memo_of r r' -> ref_chain r' bs k n prev = ref_chain r bs k n prev.
Proof. intros [m ->]. by apply ref_chain_ext. Qed.

Lemma hasher_loop_spec n : forall fuel r bs k i prev,
  0 < bs -> 0 <= k -> mm_sorted (mm_features r) -> memo_ok r ->
  mm_passed (mm_features r) i (k * bs) ->
  (mm_features r = [] \/ - zlen (mm_features r) <= i) ->
  num_tokens r / bs = k + Z.of_nat n -> (n < fuel)%nat ->
  exists r', hasher_loop sha256 hash_function NONE_HASH fuel bs (k * bs) i prev r
      = (Ok (ref_chain r bs k n prev), r') /\ memo_of r r' /\ memo_ok r'.
Proof.
  induction n as [|n IH]; intros fuel r bs k i prev Hbs Hk Hs Hm Hp Hi Hn Hf;
    (destruct fuel as [|fuel]; [lia |]); cbn [hasher_loop]; unfold bind at 1, get.
  - pose proof (Z.div_mod (num_tokens r) bs ltac:(lia)) as Hdm.
    pose proof (Z.mod_pos_bound (num_tokens r) bs Hbs).
    rewrite (proj2 (Z.ltb_lt _ _)) by nia. exists r. split; [done | eauto using memo_of_refl].
  - pose proof (Z.div_mod (num_tokens r) bs ltac:(lia)) as Hdm.
    pose proof (Z.mod_pos_bound (num_tokens r) bs Hbs).
    rewrite (proj2 (Z.ltb_ge _ _)) by nia.
    replace (k * bs + bs) with ((k + 1) * bs) by lia.
    destruct (generate_spec r (k * bs) ((k + 1) * bs) i Hs Hm ltac:(nia) Hp Hi)
      as (i' & r1 & Hg & Hr1 & Hm1 & Hp1 & Hi1).
    unfold bind at 1. rewrite Hg. cbn [fst snd ref_chain].
    set (h := hash_block_tokens _ _ _ _ _).
    assert (Eq : mm_features r1 = mm_features r /\ num_tokens r1 = num_tokens r)
      by (by destruct Hr1 as [m ->]). destruct Eq as [Efs Ent].
    destruct (IH fuel r1 bs (k + 1) i' (Some h)) as (r2 & Hl & Hr2 & Hm2);
      rewrite ?Efs, ?Ent; try done; try lia.
    exists r2. unfold bind. rewrite Hl, (ref_chain_memo r r1) by done.
    split; [done | eauto using memo_of_trans].
Qed.

Lemma length_ref_chain r bs n : forall k prev, length (ref_chain r bs k n prev) = n.
Proof. induction n; intros; simpl; auto. Qed.

(** Splitting a chain after [m] blocks. *)
Lemma ref_chain_split r bs m n : forall k prev,
  ref_chain r bs k (m + n) prev =
  let l := ref_chain r bs k m prev in
  l ++ ref_chain r bs (k + Z.of_nat m) n (match last l with Some h => Some h | None => prev end).
Proof.
  induction m as [|m IH]; intros k prev; simpl.
  - by rewrite Z.add_0_r.
  - rewrite IH. simpl. f_equal. f_equal.
    replace (k + 1 + Z.of_nat m) with (k + Z.of_nat (S m)) by lia.
    f_equal. set (h := hash_block_tokens _ _ _ _ _).
    rewrite last_cons. by destruct (last (ref_chain r bs (k + 1) m (Some h))).
Qed.

(** ** Functional correctness of the hasher
    The hint the hasher starts from is sound when no multi-modal input but the last one
    reaches beyond the blocks hashed so far. *)
Definition mm_hint_ok (r : Request) (bs : Z) : Prop :=
  block_hashes r = [] \/ mm_passed (mm_features r) (-1) (zlen (block_hashes r) * bs).

Lemma request_block_hasher_spec r bs m :
  0 < bs -> mm_sorted (mm_features r) -> memo_ok r -> mm_hint_ok r bs ->
  block_hashes r = take m (full_hashes r bs) ->
  exists r', request_block_hasher sha256 hash_function NONE_HASH bs r
      = (Ok (drop (length (block_hashes r)) (full_hashes r bs)), r') /\ memo_of r r' /\ memo_ok r'.
Proof.
  intros Hbs Hs Hm Hh Hpre. unfold request_block_hasher, bind at 1, get.
  set (N := Z.to_nat (num_tokens r / bs)).
  assert (HN : num_tokens r / bs = Z.of_nat N).
  { unfold N. rewrite Z2Nat.id; [done |]. apply Z.div_pos; [apply zlen_nonneg | done]. }
  set (j := length (block_hashes r)).
  assert (Hj : (j <= N)%nat).
  { unfold j. rewrite Hpre, length_take. unfold full_hashes. rewrite length_ref_chain. lia. }
  assert (Hb : block_hashes r = ref_chain r bs 0 j None).
  { assert (Hsp : full_hashes r bs = ref_chain r bs 0 (j + (N - j)) None)
      by (unfold full_hashes; f_equal; lia).
    rewrite ref_chain_split in Hsp. simpl in Hsp.
    assert (Htj : block_hashes r = take j (full_hashes r bs)).
    { rewrite Hpre at 1. unfold j. rewrite Hpre at 1. rewrite length_take.
      destruct (decide (m <= length (full_hashes r bs))%nat).
      - by rewrite Nat.min_l.
      - by rewrite Nat.min_r, !take_ge by lia. }
    rewrite Htj, Hsp. rewrite take_app_length'; [done | by rewrite length_ref_chain]. }
  assert (Hz : zlen (block_hashes r) = Z.of_nat j) by done.
  assert (Hd : drop j (full_hashes r bs) = ref_chain r bs (Z.of_nat j) (N - j) (last (block_hashes r))).
  { replace (full_hashes r bs) with (ref_chain r bs 0 (j + (N - j)) None)
      by (unfold full_hashes; f_equal; lia).
    rewrite ref_chain_split. simpl. rewrite <- Hb. rewrite drop_app_length'; [| done].
    rewrite Z.add_0_l. f_equal. by destruct (last (block_hashes r)). }
  rewrite Hz. rewrite Hd. clear Hd.
  pose proof (Z.div_mod (num_tokens r) bs ltac:(lia)) as Hdm.
  pose proof (Z.mod_pos_bound (num_tokens r) bs Hbs).
  destruct (num_tokens r <? Z.of_nat j * bs + bs) eqn:E; zbool.
  - assert (N - j = 0)%nat as -> by nia. simpl. exists r. eauto using memo_of_refl.
  - apply hasher_loop_spec; try done; try lia.
    + destruct (0 <? Z.of_nat j * bs) eqn:E0; zbool.
      * destruct Hh as [Hh | Hh]; [unfold j in E0; rewrite Hh in E0; simpl in E0; lia | by rewrite Hz in Hh].
      * unfold mm_passed, norm_idx. simpl. constructor.
    + destruct (0 <? Z.of_nat j * bs); [| right; pose proof (zlen_nonneg (mm_features r)); lia].
      destruct (mm_features r) as [|f fs]; [by left | right; rewrite zlen_cons; pose proof (zlen_nonneg fs); lia].
    + pose proof (zlen_nonneg (_all_token_ids r)). unfold num_tokens in *.
      assert (zlen (_all_token_ids r) / bs <= zlen (_all_token_ids r)) by (apply Z.div_le_upper_bound; nia).
      lia.
Qed.
End chain.

(** ** Incremental hashing *)
Section incremental.
Context (sha256 : bytes -> bytes).
Context (hash_function : bytes * list Z * option (list PyKey) -> bytes) (NONE_HASH : bytes).
Context (bs : Z) (Hbs : 0 < bs).

Abbreviation full r := (full_hashes sha256 hash_function NONE_HASH r bs).
Abbreviation hasher := (Some (request_block_hasher sha256 hash_function NONE_HASH bs)).

(** The block hashes of the request are those of its full blocks. *)
Record hash_inv (r : Request) : Prop := {
  hi_full : block_hashes r = full r;
  hi_memo : memo_ok sha256 r;
  hi_sorted : mm_sorted (mm_features r);
}.

(** No multi-modal input but the last one reaches beyond the hashed blocks (beyond the
    first block, when nothing is hashed yet). *)
Definition mm_tail_ok (r : Request) : Prop :=
  mm_passed (mm_features r) (-1) (Z.max bs (zlen (block_hashes r) * bs)).

Lemma mm_tail_hint r : mm_tail_ok r -> mm_hint_ok r bs.
Proof.
  intros H. destruct (block_hashes r) as [|h hs] eqn:E; [by left |]. right.
  unfold mm_tail_ok in H. rewrite E in H. rewrite E.
  assert (bs <= zlen (h :: hs) * bs) by (rewrite zlen_cons; pose proof (zlen_nonneg hs); nia).
  by rewrite Z.max_r in H.
Qed.

Lemma py_slice_app_l {A} (l k : list A) a b :
  0 <= a <= b -> b <= zlen l -> py_slice (l ++ k) a b = py_slice l a b.
Proof.
  intros Hab Hb. unfold zlen in Hb. rewrite !py_slice_nonneg by done.
  rewrite drop_app_le, take_app_le; [done | rewrite length_drop; lia | lia].
Qed.

Lemma ref_chain_more r out t n : forall k prev,
  0 <= k -> (k + Z.of_nat n) * bs <= num_tokens r ->
  ref_chain sha256 hash_function NONE_HASH (with_tokens out (_all_token_ids r ++ t) r) bs k n prev
  = ref_chain sha256 hash_function NONE_HASH r bs k n prev.
Proof.
  induction n as [|n IH]; intros k prev Hk Hle; simpl; [done |].
  rewrite py_slice_app_l by (unfold num_tokens in Hle; nia).
  change (extra_ref sha256 (with_tokens out (_all_token_ids r ++ t) r)) with (extra_ref sha256 r).
  by rewrite IH by nia.
Qed.

(** Appending tokens only extends the list of full-block hashes. *)
Lemma full_hashes_more r out t :
  full r = take (length (full r)) (full (with_tokens out (_all_token_ids r ++ t) r)).
Proof.
  set (r' := with_tokens out (_all_token_ids r ++ t) r).
  unfold full_hashes. rewrite length_ref_chain.
  pose proof (zlen_nonneg (_all_token_ids r)) as H0. pose proof (zlen_nonneg t) as Ht.
  set (N := Z.to_nat (num_tokens r / bs)). set (N' := Z.to_nat (num_tokens r' / bs)).
  assert (Hd0 : 0 <= num_tokens r / bs) by (apply Z.div_pos; done).
  assert (Hle : num_tokens r / bs <= num_tokens r' / bs).
  { apply Z.div_le_mono; [done |]. unfold r', num_tokens. simpl. rewrite zlen_app. lia. }
  replace N' with (N + (N' - N))%nat by lia.
  rewrite ref_chain_split. cbv zeta. rewrite take_app_length' by (by rewrite length_ref_chain).
  symmetry. apply ref_chain_more; [lia |].
  pose proof (Z.div_mod (num_tokens r) bs ltac:(lia)).
  pose proof (Z.mod_pos_bound (num_tokens r) bs Hbs). unfold N. nia.
Qed.

Lemma append_tokens_spec r t :
  hash_inv r -> mm_tail_ok r ->
  exists r', append_output_token_ids hasher t r = (Ok tt, r') /\
    hash_inv r' /\ mm_tail_ok r' /\ mm_features r' = mm_features r /\
    _all_token_ids r' = _all_token_ids r ++ t /\ _output_token_ids r' = _output_token_ids r ++ t.
Proof.
  intros [Hf Hm Hs] Ht.
  set (r1 := with_tokens (_output_token_ids r ++ t) (_all_token_ids r ++ t) r).
  destruct (request_block_hasher_spec sha256 hash_function NONE_HASH r1 bs (length (full r)))
    as (r2 & Hrun & [m ->] & Hm2); [done | done | done | apply (mm_tail_hint r Ht) | |].
  { unfold r1. simpl. rewrite Hf. apply full_hashes_more. }
  set (r3 := with_hashes (block_hashes r ++ drop (length (block_hashes r)) (full r1)) (with_memo m r1)).
  assert (Hr3 : block_hashes r3 = full r1).
  { unfold r3. simpl. rewrite Hf. rewrite (full_hashes_more r (_output_token_ids r ++ t) t) at 1.
    apply take_drop. }
  exists r3. split_and!; try done.
  - unfold append_output_token_ids, update_block_hashes, bind, modify. fold r1. by rewrite Hrun.
  - split; [rewrite Hr3 | intros ? ? ? H; apply Hm2 in H; exact H | done].
    unfold full_hashes. symmetry. by apply ref_chain_ext.
  - unfold mm_tail_ok in *. change (mm_features r3) with (mm_features r).
    eapply Forall_impl; [exact Ht |]. intros f Hfe. simpl in Hfe.
    assert (zlen (block_hashes r) <= zlen (block_hashes r3)).
    { rewrite Hr3, Hf. unfold zlen. rewrite (full_hashes_more r (_output_token_ids r ++ t) t).
      fold r1. rewrite length_take. lia. }
    nia.
Qed.

(** Any way of delivering the generated tokens yields the hashes of the full blocks. *)
Lemma append_chunks_spec chunks : forall r,
  hash_inv r -> mm_tail_ok r ->
  exists r', foreach chunks (append_output_token_ids hasher) r = (Ok tt, r') /\
    hash_inv r' /\ _all_token_ids r' = _all_token_ids r ++ concat chunks.
Proof.
  induction chunks as [|t ts IH]; intros r Hi Ht; simpl.
  - exists r. by rewrite app_nil_r.
  - destruct (append_tokens_spec r t Hi Ht) as (r1 & Hrun & Hi1 & Ht1 & _ & Ha & _).
    destruct (IH r1 Hi1 Ht1) as (r2 & Hrun2 & Hi2 & Ha2).
    exists r2. unfold bind. rewrite Hrun, Hrun2, Ha2, Ha, <- app_assoc. done.
Qed.
End incremental.

(** ** Soundness of hash equality *)
Section soundness.
Context (sha256 : bytes -> bytes).
Context (hash_function : bytes * list Z * option (list PyKey) -> bytes) (NONE_HASH : bytes).
Context (bs : Z) (Hbs : 0 < bs).
(** The hash function is collision-free, never returns an empty digest and never the
    seed. *)
Hypothesis Hinj : forall a b, hash_function a = hash_function b -> a = b.
Hypothesis Hseed : forall a, hash_function a <> NONE_HASH.
Hypothesis Hnonempty : forall a, hash_function a <> [].

Abbreviation full r := (full_hashes sha256 hash_function NONE_HASH r bs).

(** Tokens and extra keys of block [k] of a request. *)
Definition block_content (r : Request) (k : nat) : list Z * option (list PyKey) :=
  (py_slice (_all_token_ids r) (Z.of_nat k * bs) ((Z.of_nat k + 1) * bs),
   extra_ref sha256 r (Z.of_nat k * bs) ((Z.of_nat k + 1) * bs)).

Lemma ref_chain_lookup r n : forall k prev i h,
  0 <= k -> (forall p, prev = Some p -> p <> []) ->
  ref_chain sha256 hash_function NONE_HASH r bs k n prev !! i = Some h ->
  exists p, h = hash_function (p, (block_content r (Z.to_nat k + i)).1, (block_content r (Z.to_nat k + i)).2) /\
    match i with
    | O => p = default NONE_HASH prev
    | S i' => ref_chain sha256 hash_function NONE_HASH r bs k n prev !! i' = Some p
    end.
Proof.
  induction n as [|n IH]; intros k prev i h Hk Hp; simpl; [done |].
  set (h0 := hash_block_tokens _ _ _ _ _).
  assert (Eh0 : h0 = hash_function (default NONE_HASH prev, (block_content r (Z.to_nat k)).1, (block_content r (Z.to_nat k)).2)).
  { unfold h0, hash_block_tokens, block_content. simpl. rewrite Z2Nat.id by done.
    destruct prev as [[|x p]|]; [by destruct (Hp [] eq_refl) | done | done]. }
  destruct i as [|i]; simpl.
  - intros [= <-]. rewrite Nat.add_0_r. eauto.
  - intros Hi. destruct (IH (k + 1) (Some h0) i h) as (p & Eh & Hi'); [lia | | done |].
    { intros p [= <-]. rewrite Eh0. apply Hnonempty. }
    replace (Z.to_nat (k + 1) + i)%nat with (Z.to_nat k + S i)%nat in Eh by lia.
    exists p. split; [done |]. destruct i as [|i]; simpl in *; [by rewrite Hi' | done].
Qed.

Lemma full_lookup r i h :
  full r !! i = Some h ->
  exists p, h = hash_function (p, (block_content r i).1, (block_content r i).2) /\
    match i with O => p = NONE_HASH | S i' => full r !! i' = Some p end.
Proof. intros H. apply (ref_chain_lookup r _ 0) in H; [exact H | lia | done]. Qed.

Lemma full_sound r1 r2 i : forall j h,
  full r1 !! i = Some h -> full r2 !! j = Some h ->
  i = j /\ forall k, (k <= i)%nat -> block_content r1 k = block_content r2 k.
Proof.
  induction i as [|i IH]; intros j h H1 H2;
    destruct (full_lookup _ _ _ H1) as (p1 & E1 & Hp1);
    destruct (full_lookup _ _ _ H2) as (p2 & E2 & Hp2);
    rewrite E1 in E2; apply Hinj in E2; injection E2 as Ep Ec Ex;
    assert (Hc : forall a b : list Z * option (list PyKey), a.1 = b.1 -> a.2 = b.2 -> a = b)
      by (intros [] []; simpl; congruence).
  - destruct j as [|j].
    + split; [done |]. intros k Hk. assert (k = 0)%nat as -> by lia. by apply Hc.
    + apply full_lookup in Hp2 as (p & E & _). destruct (Hseed _ (eq_trans (eq_sym E) (eq_trans (eq_sym Ep) Hp1))).
  - destruct j as [|j].
    + apply full_lookup in Hp1 as (p & E & _). destruct (Hseed _ (eq_trans (eq_sym E) (eq_trans Ep Hp2))).
    + subst p2. destruct (IH j p1 Hp1 Hp2) as [-> Hk]. split; [done |].
      intros k Hle. destruct (decide (k = S j)) as [-> | Hne]; [by apply Hc | apply Hk; lia].
Qed.

Lemma take_blocks (l : list Z) (k : nat) :
  take (S k * Z.to_nat bs) l =
  take (k * Z.to_nat bs) l ++ py_slice l (Z.of_nat k * bs) ((Z.of_nat k + 1) * bs).
Proof.
  rewrite py_slice_nonneg by nia.
  replace (Z.to_nat ((Z.of_nat k + 1) * bs - Z.of_nat k * bs)) with (Z.to_nat bs) by lia.
  replace (Z.to_nat (Z.of_nat k * bs)) with (k * Z.to_nat bs)%nat by nia.
  rewrite take_take_drop. f_equal. lia.
Qed.

Lemma full_sound_tokens r1 r2 i j h :
  full r1 !! i = Some h -> full r2 !! j = Some h ->
  i = j /\ take (S i * Z.to_nat bs) (_all_token_ids r1) = take (S i * Z.to_nat bs) (_all_token_ids r2).
Proof.
  intros H1 H2. destruct (full_sound _ _ _ _ _ H1 H2) as [-> Hk]. split; [done |].
  clear H1 H2. induction j as [|j IH].
  - rewrite !(take_blocks _ 0). specialize (Hk 0%nat ltac:(lia)). injection Hk as -> _. done.
  - rewrite !(take_blocks _ (S j)). rewrite IH by (intros k ?; apply Hk; lia).
    specialize (Hk (S j) ltac:(lia)). injection Hk as -> _. done.
Qed.
End soundness.
