(* ===== verification/BlockPool.v ===== *)
(** * BlockPool
    vllm/v1/core/block_pool.py: the prefix-cache map [BlockHashToBlockMap] and the
    [BlockPool] that allocates, frees, caches and evicts KV-cache blocks. The pool owns the
    heap of block objects, the free queue and the cache map. The optional metrics collector
    (which only observes) is not modelled: [metrics_collector = None]. *)
From Stdlib Require Import QArith.
From S2P Require Import Prelude OrdDict KVCacheBlock FreeQueue Request BlockHash.
#[local] Open Scope Z_scope.

(** ** BlockHashToBlockMap *)

(** The union type [KVCacheBlock | dict\[int, KVCacheBlock\]]. *)
Inductive CacheEntry :=
  | OneBlock (b : loc)
  | BlockDict (d : list (Z * loc)).

Abbreviation CacheMap := (gmap bytes CacheEntry).

(** The [block_id] attribute of an object. *)
Definition id_of (h : heap) (l : loc) : Z := match h !! l with Some b => block_id b | None => -1 end.

Definition get_one_block (c : CacheMap) (key : bytes) : res (option loc) :=
  match c !! key with
  | None => Ok None
  | Some (OneBlock b) => Ok (Some b)
  | Some (BlockDict ((_, b) :: _)) => Ok (Some b)
  | Some (BlockDict []) => Err StopIteration
  end.

Definition cache_insert (h : heap) (key : bytes) (block : loc) (c : CacheMap) : CacheMap :=
  match c !! key with
  | None => <[key := OneBlock block]> c
  | Some (OneBlock b) =>
    <[key := BlockDict (od_set (id_of h block) block [(id_of h b, b)])]> c
  | Some (BlockDict d) => <[key := BlockDict (od_set (id_of h block) block d)]> c
  end.

(** pop: the popped block (or [None]) and the new map. *)
Definition cache_pop (h : heap) (key : bytes) (bid : Z) (c : CacheMap) : option loc * CacheMap :=
  match c !! key with
  | None => (None, c)
  | Some (OneBlock b) =>
    if id_of h b =? bid then (Some b, delete key c) else (None, <[key := OneBlock b]> (delete key c))
  | Some (BlockDict d) =>
    let d' := od_del bid d in
    (od_get bid d, match d' with [] => delete key c | _ => <[key := BlockDict d']> (delete key c) end)
  end.

(** ** KV cache events (vllm/distributed/kv_events.py) *)
Inductive KVCacheEvent :=
  | BlockStored (hashes : list ExternalBlockHash) (parent_block_hash : option ExternalBlockHash)
      (token_ids : list Z) (block_size : Z) (lora_id : option Z) (lora_name : option string)
      (extra_keys : option (list (option (list PyKey)))) (group_idx : Z)
  | BlockRemoved (hashes : list ExternalBlockHash) (group_idx : Z)
  | AllBlocksCleared.

(** ** BlockPool *)
Record BlockPool := mkPool {
  num_gpu_blocks : Z;
  enable_caching : bool;
  hash_block_size : Z;
  blocks : list loc;
  bq : qstate;  (* the heap of block objects and free_block_queue *)
  cached_block_hash_to_block : CacheMap;
  null_block : loc;
  enable_kv_cache_events : bool;
  kv_event_queue : list KVCacheEvent;
  use_int_hashes : bool;  (* VLLM_KV_EVENTS_USE_INT_BLOCK_HASHES *)
}.

Definition with_bq (q : qstate) (p : BlockPool) : BlockPool :=
  mkPool (num_gpu_blocks p) (enable_caching p) (hash_block_size p) (blocks p) q
    (cached_block_hash_to_block p) (null_block p) (enable_kv_cache_events p) (kv_event_queue p)
    (use_int_hashes p).
Definition with_cache (c : CacheMap) (p : BlockPool) : BlockPool :=
  mkPool (num_gpu_blocks p) (enable_caching p) (hash_block_size p) (blocks p) (bq p)
    c (null_block p) (enable_kv_cache_events p) (kv_event_queue p) (use_int_hashes p).
Definition with_events (ev : list KVCacheEvent) (p : BlockPool) : BlockPool :=
  mkPool (num_gpu_blocks p) (enable_caching p) (hash_block_size p) (blocks p) (bq p)
    (cached_block_hash_to_block p) (null_block p) (enable_kv_cache_events p) ev (use_int_hashes p).

Definition bheap (p : BlockPool) : heap := qheap (bq p).
Definition with_heap (h : heap) (p : BlockPool) : BlockPool := with_bq (mkQ h (fq (bq p))) p.

Abbreviation BP A := (M BlockPool A).

(** Operations of the free queue, and attribute access on block objects. *)
Definition onq {A} (m : M qstate A) : BP A := zoom bq with_bq m.
Definition read (l : loc) : BP KVCacheBlock := fun p =>
  match bheap p !! l with Some b => (Ok b, p) | None => (Err AttributeError, p) end.
Definition write (l : loc) (f : KVCacheBlock -> KVCacheBlock) : BP unit := fun p =>
  match bheap p !! l with
  | Some b => (Ok tt, with_heap (alter f l (bheap p)) p)
  | None => (Err AttributeError, p)
  end.
Definition add_event (e : KVCacheEvent) : BP unit :=
  modify (fun p => with_events (kv_event_queue p ++ [e]) p).

(** __init__: the blocks of the pool are allocated at locations [0 .. num_gpu_blocks - 1]. *)
Definition initial_heap (n : nat) : heap :=
  list_to_map ((fun i => (i, new_block (Z.of_nat i))) <$> seq 0 n).

Definition new_BlockPool (num : Z) (caching : bool) (hbs : Z) (events use_int : bool) : res BlockPool :=
  if negb (0 <? num) then Err AssertionError
  else
    let bl := seq 0 (Z.to_nat num) in
    let p0 := mkPool num caching hbs bl (mkQ (initial_heap (Z.to_nat num)) (mkQueue 0 0%nat 0%nat)) ∅
                0%nat events [] use_int in
    let m : BP loc :=
      onq (init_queue bl) ;;;
      let* nb := onq popleft in
      write nb (with_null true) ;;;
      ret nb in
    match m p0 with
    | (Ok nb, p) =>
      Ok (mkPool (num_gpu_blocks p) (enable_caching p) (hash_block_size p) (blocks p) (bq p)
            (cached_block_hash_to_block p) nb (enable_kv_cache_events p) (kv_event_queue p)
            (use_int_hashes p))
    | (Err e, _) => Err e
    end.

(** The loop of get_cached_block over the group ids. *)
Fixpoint get_cached_block (c : CacheMap) (block_hash : bytes) (gids : list Z) : res (option (list loc)) :=
  match gids with
  | [] => Ok (Some [])
  | g :: gs =>
    match make_block_hash_with_group_id block_hash g with
    | Err e => Err e
    | Ok key =>
      match get_one_block c key with
      | Err e => Err e
      | Ok None => Ok None
      | Ok (Some b) =>
        match get_cached_block c block_hash gs with
        | Ok (Some bs) => Ok (Some (b :: bs))
        | r => r
        end
      end
    end
  end.

(** _maybe_evict_cached_block *)
Definition _maybe_evict_cached_block (block : loc) : BP bool :=
  let* b := read block in
  match _block_hash b with
  | None => ret false
  | Some key =>
    let* p := get in
    let (o, c') := cache_pop (bheap p) key (block_id b) (cached_block_hash_to_block p) in
    modify (with_cache c') ;;;
    match o with
    | None => ret false
    | Some _ =>
      write block reset_hash ;;;
      let* p := get in
      (if enable_kv_cache_events p
       then add_event (BlockRemoved [maybe_convert_block_hash (use_int_hashes p) (get_block_hash key)]
                         (get_group_id key))
       else ret tt) ;;;
      ret true
    end
  end.

Definition get_num_free_blocks (p : BlockPool) : Z := num_free_blocks (fq (bq p)).

(** The body of the two loops of get_new_blocks. *)
Definition take_block (caching : bool) (block : loc) : BP unit :=
  (if caching then let* _ := _maybe_evict_cached_block block in ret tt else ret tt) ;;;
  let* b := read block in
  assert (ref_cnt b =? 0) ;;;
  write block (upd_ref_cnt (fun n => n + 1)).

Definition get_new_blocks (num_blocks : Z) : BP (list loc) :=
  let* p := get in
  if get_num_free_blocks p <? num_blocks then raise ValueError
  else
    let* rets := onq (popleft_n num_blocks) in
    foreach rets (take_block (enable_caching p)) ;;;
    ret rets.

(** The body of the loop of touch. *)
Definition touch_one (block : loc) : BP unit :=
  let* b := read block in
  (if (ref_cnt b =? 0) && negb (is_null b) then onq (remove block) else ret tt) ;;;
  write block (upd_ref_cnt (fun n => n + 1)).
Definition touch (bs : list loc) : BP unit := foreach bs touch_one.

Definition free_blocks (ordered_blocks : list loc) : BP unit :=
  foreach ordered_blocks (fun b => write b (upd_ref_cnt (fun n => n - 1))) ;;;
  let* p := get in
  onq (append_n (filter (fun l => match bheap p !! l with
                                  | Some b => (ref_cnt b =? 0) && negb (is_null b)
                                  | None => false
                                  end = true) ordered_blocks)).

(** evict_blocks: the set of ids in the order in which it is iterated. *)
Definition evict_blocks (block_ids : list Z) : BP unit :=
  foreach block_ids (fun i =>
    let* p := get in
    assert (i <? zlen (blocks p)) ;;;
    let* l := lift (py_index (blocks p) i) in
    let* _ := _maybe_evict_cached_block l in
    ret tt).

Definition reset_prefix_cache : BP bool :=
  let* p := get in
  if negb (num_gpu_blocks p - get_num_free_blocks p =? 1) then ret false
  else
    modify (with_cache ∅) ;;;
    foreach (blocks p) (fun l => write l reset_hash) ;;;
    (if enable_kv_cache_events p then add_event AllBlocksCleared else ret tt) ;;;
    ret true.

(** get_usage, as a rational. *)
Definition get_usage (p : BlockPool) : Q :=
  let total := num_gpu_blocks p - 1 in
  if total =? 0 then 0%Q
  else (1 - inject_Z (get_num_free_blocks p) / inject_Z total)%Q.

Definition take_events : BP (list KVCacheEvent) :=
  let* p := get in
  if enable_kv_cache_events p then modify (with_events []) ;;; ret (kv_event_queue p)
  else ret [].

(** *** cache_full_blocks *)

(** One iteration of its main loop; returns the external hash when one is recorded. *)
Definition cache_one (gid : Z) (bh : loc * bytes) : BP (list ExternalBlockHash) :=
  let* b := read bh.1 in
  if is_null b then ret []
  else
    assert (match _block_hash b with None => true | Some _ => false end) ;;;
    let* key := lift (make_block_hash_with_group_id bh.2 gid) in
    write bh.1 (with_hash (Some key)) ;;;
    modify (fun p => with_cache (cache_insert (bheap p) key bh.1 (cached_block_hash_to_block p)) p) ;;;
    let* p := get in
    ret (if enable_kv_cache_events p then [maybe_convert_block_hash (use_int_hashes p) bh.2] else []).

(** The pairs (block, hash) the loop meets: [new_block_hashes\[i\]] raises for a block
    that is not null and has no hash. *)
Fixpoint cache_loop (gid : Z) (bls : list loc) (hs : list bytes) : BP (list ExternalBlockHash) :=
  match bls with
  | [] => ret []
  | l :: ls =>
    match hs with
    | h :: hs' =>
      let* e := cache_one gid (l, h) in
      let* es := cache_loop gid ls hs' in
      ret (e ++ es)
    | [] =>
      let* b := read l in
      if is_null b then cache_loop gid ls []
      else assert (match _block_hash b with None => true | Some _ => false end) ;;; raise IndexError
    end
  end.

Section events.
Context (sha256 : bytes -> bytes).

(** The extra keys recorded in a BlockStored event, one per non-null block; the request
    is threaded for its memo table. *)
Fixpoint stored_extra_keys (bs : Z) (idxs : list Z) (bls : list loc) (curr_mm_idx : Z) (r : Request)
    : BP (list (option (list PyKey)) * Request) :=
  match idxs with
  | [] => ret ([], r)
  | i :: rest =>
    let* l := lift (py_index bls i) in
    let* b := read l in
    if is_null b then stored_extra_keys bs rest bls curr_mm_idx r
    else
      match generate_block_hash_extra_keys sha256 (i * bs) (i * bs + bs) curr_mm_idx r with
      | (Err e, _) => raise e
      | (Ok (ks, idx), r') =>
        let* x := stored_extra_keys bs rest bls idx r' in
        ret (ks :: x.1, x.2)
      end
  end.

(** cache_full_blocks; returns the request (its memo table may have been filled). *)
Definition cache_full_blocks (request : Request) (bls : list loc)
    (num_cached_blocks num_full_blocks block_size kv_cache_group_id : Z) : BP Request :=
  if num_full_blocks <=? num_cached_blocks then ret request
  else
    let new_full_blocks := py_slice bls num_cached_blocks num_full_blocks in
    assert (num_full_blocks <=? zlen (block_hashes request)) ;;;
    let* p := get in
    let* bhs := lift (if block_size =? hash_block_size p then Ok (HList (block_hashes request))
      else match new_BlockHashListWithBlockSize (block_hashes request) (hash_block_size p) block_size with
           | Ok b => Ok (HScaled b)
           | Err e => Err e
           end) in
    let new_block_hashes := bh_from bhs num_cached_blocks in
    let* new_hashes := cache_loop kv_cache_group_id new_full_blocks new_block_hashes in
    if negb (enable_kv_cache_events p) then ret request
    else
      let* parent := (if num_cached_blocks =? 0 then ret None
        else let* h := lift (bh_index bhs (num_cached_blocks - 1)) in
             ret (Some (maybe_convert_block_hash (use_int_hashes p) h))) in
      let* x := stored_extra_keys block_size
        ((fun i => i + num_cached_blocks) <$> range (num_full_blocks - num_cached_blocks)) bls 0 request in
      add_event (BlockStored new_hashes parent
        (py_slice (_all_token_ids request) (num_cached_blocks * block_size) (num_full_blocks * block_size))
        block_size
        (adapter_id <$> lora_request request) (lora_name <$> lora_request request)
        (match x.1 with [] => None | ks => Some ks end) kv_cache_group_id) ;;;
      ret x.2.
End events.

(** ** Field views of the heap *)

Definition hash_of (h : heap) (l : loc) : option bytes := h !! l ≫= _block_hash.
Definition ref_of (h : heap) (l : loc) : Z := match h !! l with Some b => ref_cnt b | None => 0 end.
Definition null_of (h : heap) (l : loc) : bool := match h !! l with Some b => is_null b | None => false end.

Lemma hash_of_same_data h h' l : same_data h h' -> hash_of h l = hash_of h' l.
Proof.
  intros H. specialize (H l). unfold hash_of.
  destruct (h !! l), (h' !! l); simpl in *; [by injection H | done | done | done].
Qed.
Lemma id_of_same_data h h' l : same_data h h' -> id_of h l = id_of h' l.
Proof.
  intros H. specialize (H l). unfold id_of.
  destruct (h !! l), (h' !! l); simpl in *; [by injection H | done | done | done].
Qed.
Lemma ref_of_same_data h h' l : same_data h h' -> ref_of h l = ref_of h' l.
Proof.
  intros H. specialize (H l). unfold ref_of.
  destruct (h !! l), (h' !! l); simpl in *; [by injection H | done | done | done].
Qed.
Lemma null_of_same_data h h' l : same_data h h' -> null_of h l = null_of h' l.
Proof.
  intros H. specialize (H l). unfold null_of.
  destruct (h !! l), (h' !! l); simpl in *; [by injection H | done | done | done].
Qed.

(** ** The invariant of the cache map *)

Definition entry_blocks (e : CacheEntry) : list loc :=
  match e with OneBlock b => [b] | BlockDict d => d.*2 end.

(** A dict entry is not empty and is keyed by block id. *)
Definition entry_ok (h : heap) (e : CacheEntry) : Prop :=
  match e with
  | OneBlock _ => True
  | BlockDict d => d <> [] /\ od_ok d /\ forall i l, (i, l) ∈ d -> id_of h l = i
  end.

(** [B] are the blocks of the pool and [nul] its null block: a block carries hash [k]
    exactly when it is stored under [k]. *)
Record cache_inv (B : list loc) (nul : loc) (h : heap) (c : CacheMap) : Prop := {
  ci_sound : forall k e l, c !! k = Some e -> l ∈ entry_blocks e ->
    l ∈ B /\ l <> nul /\ hash_of h l = Some k;
  ci_complete : forall k l, l ∈ B -> hash_of h l = Some k ->
    exists e, c !! k = Some e /\ l ∈ entry_blocks e;
  ci_ok : forall k e, c !! k = Some e -> entry_ok h e;
}.

Definition ids_inj (B : list loc) (h : heap) : Prop :=
  forall l l', l ∈ B -> l' ∈ B -> id_of h l = id_of h l' -> l = l'.

Lemma entry_ok_ids h h' e : (forall l, id_of h' l = id_of h l) -> entry_ok h e -> entry_ok h' e.
Proof.
  intros H. destruct e as [b|d]; [done |]. intros (? & ? & Hd). split_and!; [done | done |].
  intros i l Hl. rewrite H. by apply Hd.
Qed.

Lemma cache_inv_data B nul h h' c :
  (forall l, id_of h' l = id_of h l) -> (forall l, hash_of h' l = hash_of h l) ->
  cache_inv B nul h c -> cache_inv B nul h' c.
Proof.
  intros Hi Hh [Hs Hc Ho]. split.
  - intros k e l. rewrite Hh. apply Hs.
  - intros k l. rewrite Hh. apply Hc.
  - intros k e He. apply (entry_ok_ids h); [done | by eapply Ho].
Qed.

(** In a consistent dict entry, the value under a block's id is that block. *)
Lemma dict_get B h d l :
  ids_inj B h -> l ∈ B -> (forall x, x ∈ d.*2 -> x ∈ B) -> entry_ok h (BlockDict d) ->
  l ∈ d.*2 -> od_get (id_of h l) d = Some l.
Proof.
  intros Hinj Hl HB (_ & Hok & Hd) ((i & l') & -> & Hin)%list_elem_of_fmap. simpl in *.
  apply od_elem_get; [done |]. by rewrite (Hd _ _ Hin).
Qed.

Lemma dict_del_blocks B h d l x :
  ids_inj B h -> l ∈ B -> (forall x, x ∈ d.*2 -> x ∈ B) -> entry_ok h (BlockDict d) ->
  x ∈ (od_del (id_of h l) d).*2 <-> x ∈ d.*2 /\ x <> l.
Proof.
  intros Hinj Hl HB (_ & Hok & Hd). rewrite !list_elem_of_fmap. split.
  - intros ((i & y) & -> & Hin). apply od_elem_del in Hin as [Hin Hne]; [| done]. simpl in *.
    split; [by exists (i, y) |]. intros ->. by rewrite (Hd _ _ Hin) in Hne.
  - intros [((i & y) & -> & Hin) Hne]. exists (i, y). split; [done |]. simpl in *.
    apply od_elem_del; [done |]. split; [done |]. simpl. intros E. apply Hne, Hinj; [| done |].
    + apply HB, list_elem_of_fmap. by exists (i, y).
    + by rewrite (Hd _ _ Hin).
Qed.

(** Popping a block that carries its hash finds it, and removes exactly it. *)
Lemma cache_pop_spec B nul h h' c l k :
  ids_inj B h -> cache_inv B nul h c -> l ∈ B -> hash_of h l = Some k ->
  (forall x, id_of h' x = id_of h x) ->
  (forall x, hash_of h' x = if decide (x = l) then None else hash_of h x) ->
  exists c', cache_pop h k (id_of h l) c = (Some l, c') /\ cache_inv B nul h' c'.
Proof.
  intros Hinj [Hs Hc Ho] Hl Hk Hid Hh. destruct (Hc k l Hl Hk) as (e & He & Hin).
  assert (Hgone : forall c', (forall k', k' <> k -> c' !! k' = c !! k') ->
     (forall e', c' !! k = Some e' -> entry_ok h e' /\ forall x, x ∈ entry_blocks e' -> x ∈ entry_blocks e /\ x <> l) ->
     (forall x, x ∈ entry_blocks e -> x <> l -> exists e', c' !! k = Some e' /\ x ∈ entry_blocks e') ->
     cache_inv B nul h' c').
  { intros c' Hother Hthis Hthis'. split.
    - intros k' e' x He' Hx. rewrite Hh. destruct (decide (k' = k)) as [-> | Hne].
      + destruct (Hthis e' He') as [_ Hb]. destruct (Hb x Hx) as [Hxe Hxl].
        rewrite decide_False by done. by apply (Hs k e).
      + rewrite Hother in He' by done. destruct (Hs k' e' x He' Hx) as (? & ? & E).
        rewrite decide_False by congruence. done.
    - intros k' x Hx. rewrite Hh. case_decide as Hxl; [done |]. intros E.
      destruct (Hc k' x Hx E) as (e' & He' & Hxe). destruct (decide (k' = k)) as [-> | Hne].
      + apply Hthis'; [congruence | done].
      + exists e'. by rewrite Hother.
    - intros k' e' He'. apply (entry_ok_ids h); [done |]. destruct (decide (k' = k)) as [-> | Hne].
      + by apply Hthis.
      + rewrite Hother in He' by done. by apply (Ho k'). }
  unfold cache_pop. rewrite He. destruct e as [b|d]; simpl in *.
  - apply list_elem_of_singleton in Hin as <-. rewrite Z.eqb_refl. eexists. split; [done |].
    apply Hgone.
    + intros k' Hne. by rewrite lookup_delete_ne.
    + intros e'. by rewrite lookup_delete_eq.
    + intros x ->%list_elem_of_singleton. done.
  - pose proof (Ho k _ He) as Hok.
    assert (HB : forall x, x ∈ d.*2 -> x ∈ B) by (intros x Hx; by apply (Hs k _ x He)).
    rewrite (dict_get B h d l) by done.
    pose proof (dict_del_blocks B h d l) as Hdel.
    eexists. split; [done |]. apply Hgone.
    + intros k' Hne. destruct (od_del _ d); [by rewrite lookup_delete_ne |].
      by rewrite lookup_insert_ne, lookup_delete_ne.
    + destruct (od_del (id_of h l) d) as [|y d'] eqn:E; intros e'; [by rewrite lookup_delete_eq |].
      rewrite lookup_insert_eq. intros [= <-]. destruct Hok as (? & ? & Hids). rewrite <- E in *. split.
      * split_and!; [by rewrite E | by apply od_ok_del |].
        intros i x Hx. apply od_elem_del in Hx as [Hx _]; [by apply Hids | done].
      * intros x Hx. by apply Hdel.
    + intros x Hx Hne. destruct (od_del (id_of h l) d) as [|y d'] eqn:E.
      * exfalso. assert (x ∈ ([] : list (Z * loc)).*2) as Hx0 by (by apply Hdel). by apply elem_of_nil in Hx0.
      * eexists. rewrite lookup_insert_eq. split; [done |]. simpl. by apply Hdel.
Qed.

(** Replacing the entry of [k] by one that also has the uncached block [l]. *)
Lemma cache_add_entry B nul h h' c l k e' :
  cache_inv B nul h c -> l ∈ B -> l <> nul -> hash_of h l = None -> (forall x, id_of h' x = id_of h x) ->
  (forall x, hash_of h' x = if decide (x = l) then Some k else hash_of h x) -> entry_ok h e' ->
  (forall x, x ∈ entry_blocks e' <-> x = l \/ exists e, c !! k = Some e /\ x ∈ entry_blocks e) ->
  cache_inv B nul h' (<[k := e']> c).
Proof.
  intros [Hs Hc Ho] Hl Hnul Hk Hid Hh Hok' Hbl. split.
  - intros k' e'' x. rewrite Hh. destruct (decide (k' = k)) as [-> | Hne].
    + rewrite lookup_insert_eq. intros [= <-] [-> | (e & He & Hx)]%Hbl; [by rewrite decide_True |].
      destruct (Hs k e x He Hx) as (? & ? & E). rewrite decide_False by congruence. done.
    + rewrite lookup_insert_ne by done. intros He' Hx. destruct (Hs k' e'' x He' Hx) as (? & ? & E).
      rewrite decide_False by congruence. done.
  - intros k' x Hx. rewrite Hh. case_decide as Hxl.
    + intros [= <-]. exists e'. rewrite lookup_insert_eq. split; [done |]. apply Hbl. by left.
    + intros E. destruct (Hc k' x Hx E) as (e & He & Hxe). destruct (decide (k' = k)) as [-> | Hne].
      * exists e'. rewrite lookup_insert_eq. split; [done |]. apply Hbl. eauto.
      * exists e. by rewrite lookup_insert_ne.
  - intros k' e''. intros He''. apply (entry_ok_ids h); [done |]. destruct (decide (k' = k)) as [-> | Hne].
    + rewrite lookup_insert_eq in He''. by injection He'' as <-.
    + rewrite lookup_insert_ne in He'' by done. by apply (Ho k').
Qed.

(** Inserting an uncached block under [k] makes it, and keeps the others, visible. *)
Lemma cache_insert_spec B nul h h' c l k :
  ids_inj B h -> cache_inv B nul h c -> l ∈ B -> l <> nul -> hash_of h l = None ->
  (forall x, id_of h' x = id_of h x) ->
  (forall x, hash_of h' x = if decide (x = l) then Some k else hash_of h x) ->
  cache_inv B nul h' (cache_insert h' k l c).
Proof.
  intros Hinj [Hs Hc Ho] Hl Hnul Hk Hid Hh.
  pose proof (fun e' => cache_add_entry B nul h h' c l k e' (Build_cache_inv _ _ _ _ Hs Hc Ho) Hl Hnul Hk Hid Hh) as Hadd.
  unfold cache_insert. destruct (c !! k) as [[b|d]|] eqn:He.
  - destruct (Hs k _ b He) as (Hb & ? & Hkb); [by apply list_elem_of_singleton |].
    assert (Hbl : b <> l) by congruence.
    assert (Hidne : id_of h l <> id_of h b) by (intros E; by apply Hbl, Hinj).
    simpl. rewrite !Hid, decide_False by done. apply Hadd.
    + split_and!; [done | |].
      * unfold od_ok, od_keys. simpl. apply NoDup_cons.
        split; [rewrite list_elem_of_singleton; congruence | apply NoDup_singleton].
      * intros i x. rewrite elem_of_cons, list_elem_of_singleton. by intros [[= -> ->] | [= -> ->]].
    + intros x. simpl. rewrite elem_of_cons, list_elem_of_singleton. split.
      * intros [-> | ->]; [right | by left]. exists (OneBlock b). split; [done | by left].
      * intros [-> | (e & [= <-] & Hx%list_elem_of_singleton)]; auto.
  - pose proof (Ho k _ He) as (Hne & Hok & Hids).
    assert (Hnew : od_get (id_of h l) d = None).
    { destruct (od_get _ d) as [y|] eqn:E; [| done]. apply od_get_elem in E.
      assert (Hy : y ∈ d.*2) by (apply list_elem_of_fmap; by exists (id_of h l, y)).
      destruct (Hs k _ y He Hy) as (HyB & _ & Hky). pose proof (Hids _ _ E) as Ei.
      pose proof (Hinj y l HyB Hl Ei) as ->. congruence. }
    rewrite !Hid. apply Hadd.
    + split_and!; [| by apply od_ok_set |].
      * rewrite od_set_new by done. by destruct d.
      * intros i x. rewrite od_set_new by done. rewrite elem_of_app, list_elem_of_singleton.
        intros [Hx | [= -> ->]]; [by apply Hids | done].
    + intros x. simpl. rewrite od_set_new by done. rewrite fmap_app, elem_of_app. simpl.
      rewrite list_elem_of_singleton. split; [intros [? | ->]; eauto |].
      intros [-> | (e & [= <-] & ?)]; [by right | by left].
  - apply Hadd; [done |]. intros x. simpl. rewrite list_elem_of_singleton.
    split; [by left |]. intros [-> | (e & ? & _)]; [done | congruence].
Qed.
