(* ===== verification/BlockPoolInv.v ===== *)
(** * BlockPoolInv
    The invariant of [BlockPool]: the free list holds exactly the blocks with reference
    count zero, and a block carries a hash exactly when the prefix-cache map stores it under
    that hash. Every public method is shown to preserve it, with its functional effect. *)
From Stdlib Require Import QArith.
From S2P Require Import Prelude OrdDict KVCacheBlock FreeQueue Request BlockHash BlockPool.
#[local] Open Scope Z_scope.

(** ** The invariant *)

(** Everything but the reference counts: holds in the middle of an allocation too. *)
Record pool_core (p : BlockPool) (L : list loc) : Prop := {
  pi_rep : queue_rep (bq p) L;
  pi_head : fake_free_list_head (fq (bq p)) ∉ blocks p;
  pi_tail : fake_free_list_tail (fq (bq p)) ∉ blocks p;
  pi_len : zlen (blocks p) = num_gpu_blocks p;
  pi_ids : forall i l, blocks p !! i = Some l ->
    is_Some (bheap p !! l) /\ id_of (bheap p) l = Z.of_nat i;
  pi_null : null_block p ∈ blocks p;
  pi_isnull : forall l, l ∈ blocks p -> null_of (bheap p) l = bool_decide (l = null_block p);
  pi_sub : forall l, l ∈ L -> l ∈ blocks p /\ l <> null_block p;
  pi_cache : cache_inv (blocks p) (null_block p) (bheap p) (cached_block_hash_to_block p);
}.

(** A block other than the null block is free exactly when nobody references it. *)
Definition pool_refs (p : BlockPool) (L : list loc) : Prop :=
  forall l, l ∈ blocks p -> l <> null_block p ->
    0 <= ref_of (bheap p) l /\ (ref_of (bheap p) l = 0 <-> l ∈ L).

Record pool_inv (p : BlockPool) (L : list loc) : Prop := {
  pinv_core : pool_core p L;
  pinv_refs : pool_refs p L;
}.

(** What no method changes: the configuration, the objects and their ids. *)
Record pool_frame (p p' : BlockPool) : Prop := {
  pf_num : num_gpu_blocks p' = num_gpu_blocks p;
  pf_caching : enable_caching p' = enable_caching p;
  pf_hbs : hash_block_size p' = hash_block_size p;
  pf_blocks : blocks p' = blocks p;
  pf_null : null_block p' = null_block p;
  pf_ev : enable_kv_cache_events p' = enable_kv_cache_events p;
  pf_head : fake_free_list_head (fq (bq p')) = fake_free_list_head (fq (bq p));
  pf_tail : fake_free_list_tail (fq (bq p')) = fake_free_list_tail (fq (bq p));
  pf_alive : forall l, is_Some (bheap p' !! l) <-> is_Some (bheap p !! l);
  pf_id : forall l, id_of (bheap p') l = id_of (bheap p) l;
  pf_isnull : forall l, null_of (bheap p') l = null_of (bheap p) l;
}.

#[export] Instance pool_frame_preorder : PreOrder pool_frame.
Proof.
  split.
  - intros p. by split.
  - intros p1 p2 p3 H H'. destruct H, H'. split; try congruence.
    intros l. rewrite pf_alive1. apply pf_alive0.
Qed.

Section basics.
Context {p : BlockPool} {L : list loc} (Hinv : pool_core p L).

Lemma pool_alive l : l ∈ blocks p -> is_Some (bheap p !! l).
Proof. intros [i Hi]%list_elem_of_lookup. by apply (pi_ids _ _ Hinv i l). Qed.

Lemma pool_ids_inj : ids_inj (blocks p) (bheap p).
Proof.
  intros l l' [i Hi]%list_elem_of_lookup [j Hj]%list_elem_of_lookup E.
  rewrite (proj2 (pi_ids _ _ Hinv _ _ Hi)), (proj2 (pi_ids _ _ Hinv _ _ Hj)) in E.
  apply Nat2Z.inj in E as ->. congruence.
Qed.

Lemma pool_blocks_NoDup : NoDup (blocks p).
Proof.
  apply NoDup_alt. intros i j l Hi Hj.
  pose proof (proj2 (pi_ids _ _ Hinv _ _ Hi)). pose proof (proj2 (pi_ids _ _ Hinv _ _ Hj)). lia.
Qed.

Lemma pool_L_NoDup : NoDup L.
Proof.
  pose proof (rep_nodup _ _ (pi_rep _ _ Hinv)) as [_ H]%NoDup_cons.
  by apply NoDup_app in H as [? _].
Qed.

Lemma pool_id_lookup l : l ∈ blocks p -> blocks p !! Z.to_nat (id_of (bheap p) l) = Some l.
Proof.
  intros [i Hi]%list_elem_of_lookup. rewrite (proj2 (pi_ids _ _ Hinv _ _ Hi)). by rewrite Nat2Z.id.
Qed.

Lemma pool_free_count : num_free_blocks (fq (bq p)) = zlen L.
Proof. apply (rep_num _ _ (pi_rep _ _ Hinv)). Qed.

Lemma pool_read l : l ∈ blocks p -> exists b, bheap p !! l = Some b /\ read l p = (Ok b, p).
Proof. intros [b Hb]%pool_alive. exists b. unfold read. by rewrite Hb. Qed.

(** The null block never carries a hash. *)
Lemma null_no_hash : hash_of (bheap p) (null_block p) = None.
Proof.
  destruct (hash_of (bheap p) (null_block p)) as [k|] eqn:E; [| done].
  destruct (ci_complete _ _ _ _ (pi_cache _ _ Hinv) k _ (pi_null _ _ Hinv) E) as (e & He & Hin).
  by destruct (ci_sound _ _ _ _ (pi_cache _ _ Hinv) k e _ He Hin) as (_ & ? & _).
Qed.
End basics.

(** Rebuilding the invariant after an operation. *)
Lemma pool_core_update p p' L L' :
  pool_core p L -> pool_frame p p' -> queue_rep (bq p') L' ->
  (forall l, l ∈ L' -> l ∈ blocks p /\ l <> null_block p) ->
  cache_inv (blocks p) (null_block p) (bheap p') (cached_block_hash_to_block p') ->
  pool_core p' L'.
Proof.
  intros [] [] Hrep Hsub Hc. split; rewrite ?pf_head0, ?pf_tail0, ?pf_blocks0, ?pf_null0, ?pf_num0; try done.
  - intros i l Hi. rewrite pf_alive0, pf_id0. by apply pi_ids0.
  - intros l Hl. rewrite pf_isnull0. by apply pi_isnull0.
Qed.

(** ** Queue operations and data writes *)

Lemma frame_queue p s' :
  queue_frame (bq p) s' -> pool_frame p (with_bq s' p).
Proof.
  intros (Hd & ? & ?). split; simpl; try done; intros l; unfold bheap; simpl.
  - by apply is_Some_lookup_proper.
  - by apply id_of_same_data.
  - by apply null_of_same_data.
Qed.

Lemma cache_inv_same_data B nul h h' c :
  same_data h' h -> cache_inv B nul h c -> cache_inv B nul h' c.
Proof.
  intros H. apply cache_inv_data; intros l; [by apply id_of_same_data | by apply hash_of_same_data].
Qed.

(** A heap update that keeps links keeps the represented list. *)
Lemma queue_rep_data s h' L :
  queue_rep s L -> (forall l, nx h' l = nx (qheap s) l) -> (forall l, pv h' l = pv (qheap s) l) ->
  queue_rep (mkQ h' (fq s)) L.
Proof.
  intros [Hnd Hs Hnum Hh Ht Hdet] Hn Hp. split; simpl; try done.
  - by apply (seg_frame (qheap s)).
  - by rewrite Hp.
  - by rewrite Hn.
  - intros l Hl. rewrite Hn, Hp. by apply Hdet.
Qed.

(** [f] writes data fields only, and keeps the id and the null flag. *)
Definition data_write (f : KVCacheBlock -> KVCacheBlock) : Prop :=
  forall b, next_free_block (f b) = next_free_block b /\ prev_free_block (f b) = prev_free_block b /\
    block_id (f b) = block_id b /\ is_null (f b) = is_null b.

Section data_write.
Context (f : KVCacheBlock -> KVCacheBlock) (Hf : data_write f) (p : BlockPool) (l : loc).

Lemma write_run : is_Some (bheap p !! l) -> write l f p = (Ok tt, with_heap (alter f l (bheap p)) p).
Proof. intros [b Hb]. unfold write. by rewrite Hb. Qed.

Lemma write_frame : pool_frame p (with_heap (alter f l (bheap p)) p).
Proof.
  split; simpl; try done; intros x; unfold bheap; simpl.
  - apply is_Some_alter.
  - unfold id_of. rewrite lookup_alter. case_decide; subst; [| done].
    destruct (qheap (bq p) !! x) as [b|]; simpl; [apply Hf | done].
  - unfold null_of. rewrite lookup_alter. case_decide; subst; [| done].
    destruct (qheap (bq p) !! x) as [b|]; simpl; [apply Hf | done].
Qed.

Lemma write_rep L : queue_rep (bq p) L -> queue_rep (bq (with_heap (alter f l (bheap p)) p)) L.
Proof.
  intros H. unfold with_heap, bheap. simpl. apply queue_rep_data; [done | |].
  - intros z. apply nx_alter_data. intros b. apply Hf.
  - intros z. apply pv_alter_data. intros b. apply Hf.
Qed.
End data_write.

Lemma data_write_ref g : data_write (upd_ref_cnt g).
Proof. by intros b. Qed.
Lemma data_write_hash k : data_write (with_hash k).
Proof. by intros b. Qed.
#[export] Hint Resolve data_write_ref data_write_hash : py.

Lemma ref_of_write g h l x : is_Some (h !! l) ->
  ref_of (alter (upd_ref_cnt g) l h) x = if decide (x = l) then g (ref_of h l) else ref_of h x.
Proof.
  intros [b Hb]. unfold ref_of. rewrite lookup_alter. repeat case_decide; subst; try done. by rewrite Hb.
Qed.
Lemma ref_of_write_hash k h l x : ref_of (alter (with_hash k) l h) x = ref_of h x.
Proof. unfold ref_of. rewrite lookup_alter. case_decide; subst; [by destruct (h !! x) | done]. Qed.
Lemma hash_of_write_ref g h l x : hash_of (alter (upd_ref_cnt g) l h) x = hash_of h x.
Proof. unfold hash_of. rewrite lookup_alter. case_decide; subst; [by destruct (h !! x) | done]. Qed.
Lemma hash_of_write k h l x : is_Some (h !! l) ->
  hash_of (alter (with_hash k) l h) x = if decide (x = l) then k else hash_of h x.
Proof.
  intros [b Hb]. unfold hash_of. rewrite lookup_alter. repeat case_decide; subst; try done. by rewrite Hb.
Qed.

Lemma frame_cache p p' c : pool_frame p p' -> pool_frame p (with_cache c p').
Proof. intros []. by split. Qed.
Lemma frame_events p p' ev : pool_frame p p' -> pool_frame p (with_events ev p').
Proof. intros []. by split. Qed.
Lemma core_events p L ev : pool_core p L -> pool_core (with_events ev p) L.
Proof. intros []. by split. Qed.
#[export] Hint Resolve frame_cache frame_events core_events : py.

(** ** Eviction *)

(** _maybe_evict_cached_block never fails, reports whether the block was cached, and removes
    exactly that block from the cache. *)
Lemma evict_spec p L l :
  pool_core p L -> l ∈ blocks p ->
  exists p', _maybe_evict_cached_block l p = (Ok (bool_decide (is_Some (hash_of (bheap p) l))), p') /\
    pool_core p' L /\ pool_frame p p' /\
    (forall x, ref_of (bheap p') x = ref_of (bheap p) x) /\
    (forall x, hash_of (bheap p') x = if decide (x = l) then None else hash_of (bheap p) x).
Proof.
  intros Hinv Hl. destruct (pool_read Hinv l Hl) as (b & Hb & Hrd).
  assert (Hh : hash_of (bheap p) l = _block_hash b) by (unfold hash_of; by rewrite Hb).
  unfold _maybe_evict_cached_block, bind. rewrite Hrd. rewrite Hh.
  destruct (_block_hash b) as [k|]; cycle 1.
  { exists p. split_and!; [done | done | reflexivity | done |].
    intros x. case_decide; subst; [by rewrite Hh | done]. }
  pose proof (pool_alive Hinv l Hl) as Hal.
  pose proof (hash_of_write None (bheap p) l) as Hhw.
  destruct (cache_pop_spec _ _ (bheap p) (alter reset_hash l (bheap p)) _ l k
              (pool_ids_inj Hinv) (pi_cache _ _ Hinv) Hl Hh) as (c' & Hpop & Hc').
  { intros x. apply (write_frame _ (data_write_hash None) p l). }
  { intros x. by apply Hhw. }
  replace (id_of (bheap p) l) with (block_id b) in Hpop by (unfold id_of; by rewrite Hb).
  set (p1 := with_cache c' (with_heap (alter reset_hash l (bheap p)) p)).
  assert (Hf : pool_frame p p1) by apply frame_cache, (write_frame _ (data_write_hash None) p l).
  assert (Hc1 : pool_core p1 L).
  { apply (pool_core_update p p1 L); [done | done | | by apply pi_sub | done].
    apply (write_rep _ (data_write_hash None)), Hinv. }
  assert (Hrun : write l reset_hash (with_cache c' p) = (Ok tt, p1)).
  { rewrite (write_run reset_hash); [done | exact Hal]. }
  unfold get, modify, ret. rewrite Hpop, Hrun.
  rewrite bool_decide_true by eauto.
  exists (if enable_kv_cache_events p1
          then with_events (kv_event_queue p1 ++
                 [BlockRemoved [maybe_convert_block_hash (use_int_hashes p1) (get_block_hash k)] (get_group_id k)]) p1
          else p1).
  destruct (enable_kv_cache_events p1); (split; [done |]).
  - split_and!; [by apply core_events | by apply frame_events | |]; intros x.
    + apply ref_of_write_hash.
    + by apply Hhw.
  - split_and!; [done | done | |]; intros x.
    + apply ref_of_write_hash.
    + by apply Hhw.
Qed.

(** ** Allocation *)

Lemma frame_blocks_in p p' l : pool_frame p p' -> l ∈ blocks p -> l ∈ blocks p'.
Proof. intros H. by rewrite (pf_blocks _ _ H). Qed.

(** One iteration of the loops of get_new_blocks. *)
Lemma take_block_spec p L l caching :
  pool_core p L -> l ∈ blocks p -> ref_of (bheap p) l = 0 ->
  exists p', take_block caching l p = (Ok tt, p') /\ pool_core p' L /\ pool_frame p p' /\
    (forall x, ref_of (bheap p') x = if decide (x = l) then 1 else ref_of (bheap p) x) /\
    (forall x, hash_of (bheap p') x =
       if caching && bool_decide (x = l) then None else hash_of (bheap p) x).
Proof.
  intros Hinv Hl Hr.
  assert (Hev : exists p1,
    (if caching then let* _ := _maybe_evict_cached_block l in ret tt else ret tt) p = (Ok tt, p1) /\
    pool_core p1 L /\ pool_frame p p1 /\ (forall x, ref_of (bheap p1) x = ref_of (bheap p) x) /\
    (forall x, hash_of (bheap p1) x = if caching && bool_decide (x = l) then None else hash_of (bheap p) x)).
  { destruct caching; simpl; [| exists p; split_and!; done].
    destruct (evict_spec p L l Hinv Hl) as (p1 & Hrun & ? & ? & ? & Hh).
    exists p1. unfold bind. rewrite Hrun. split_and!; try done.
    intros x. rewrite Hh. repeat case_decide; simplify_eq; [by rewrite bool_decide_true | by rewrite bool_decide_false]. }
  destruct Hev as (p1 & Hrun & Hc1 & Hf1 & Hr1 & Hh1).
  pose proof (frame_blocks_in _ _ _ Hf1 Hl) as Hl1. pose proof (pool_alive Hc1 l Hl1) as Hal.
  destruct (pool_read Hc1 l Hl1) as (b & Hb & Hrd).
  assert (Hb0 : ref_cnt b = 0).
  { rewrite <- (Hr1 l) in Hr. unfold ref_of in Hr. by rewrite Hb in Hr. }
  eexists. split.
  { unfold take_block. unfold bind at 1. rewrite Hrun. unfold bind at 1. rewrite Hrd, Hb0. apply (write_run _ _ _ Hal). }
  split_and!.
  - apply (pool_core_update p1 _ L); [done | | | by apply pi_sub |].
    + by apply write_frame, data_write_ref.
    + apply write_rep; [apply data_write_ref | apply Hc1].
    + eapply cache_inv_data; [| | apply Hc1]; intros x.
      * by apply (write_frame _ (data_write_ref _) p1 l).
      * apply hash_of_write_ref.
  - etransitivity; [done |]. by apply write_frame, data_write_ref.
  - intros x. unfold bheap at 1. simpl. rewrite ref_of_write by done. rewrite !Hr1, Hr. done.
  - intros x. unfold bheap at 1. simpl. rewrite hash_of_write_ref. apply Hh1.
Qed.

Lemma take_blocks_spec caching L K : forall p,
  pool_core p L -> NoDup K -> (forall l, l ∈ K -> l ∈ blocks p /\ ref_of (bheap p) l = 0) ->
  exists p', foreach K (take_block caching) p = (Ok tt, p') /\ pool_core p' L /\ pool_frame p p' /\
    (forall x, ref_of (bheap p') x = if decide (x ∈ K) then 1 else ref_of (bheap p) x) /\
    (forall x, hash_of (bheap p') x =
       if caching && bool_decide (x ∈ K) then None else hash_of (bheap p) x).
Proof.
  induction K as [|l K IH]; intros p Hc Hnd HK; simpl.
  { exists p. split_and!; try done. intros x. by destruct caching. }
  apply NoDup_cons in Hnd as [HlK Hnd]. destruct (HK l) as [Hl Hr]; [by left |].
  destruct (take_block_spec p L l caching Hc Hl Hr) as (p1 & Hrun & Hc1 & Hf1 & Hr1 & Hh1).
  destruct (IH p1) as (p2 & Hrun2 & Hc2 & Hf2 & Hr2 & Hh2); [done | done | |].
  { intros x Hx. rewrite Hr1, decide_False by (by intros ->).
    split; [eapply frame_blocks_in; [done |] |]; apply HK; by right. }
  exists p2. unfold bind. rewrite Hrun. split_and!; [done | done | by etransitivity | |]; intros x.
  - rewrite Hr2, Hr1. destruct (decide (x = l)) as [-> | Hne].
    + rewrite decide_False by done. by rewrite decide_True by (by left).
    + repeat case_decide; try done; exfalso; set_solver.
  - rewrite Hh2, Hh1. destruct caching; simpl; [| done]. destruct (decide (x = l)) as [-> | Hne].
    + rewrite bool_decide_false by done. by rewrite !bool_decide_true by (done || by left).
    + rewrite (bool_decide_false (x = l)) by done. do 2 case_bool_decide; try done; exfalso; set_solver.
Qed.

(** Popping the free list keeps everything but the list. *)
Lemma core_popped p K L s' :
  pool_core p (K ++ L) -> queue_rep s' L -> queue_frame (bq p) s' -> pool_core (with_bq s' p) L.
Proof.
  intros Hc Hrep Hf. apply (pool_core_update p _ (K ++ L)); [done | by apply frame_queue | done | |].
  - intros l Hl. apply (pi_sub _ _ Hc). apply elem_of_app. by right.
  - eapply cache_inv_same_data; [apply Hf | apply Hc].
Qed.

(** get_new_blocks takes the first [num_blocks] blocks of the free list; they end up with
    reference count 1 and, with caching, without hash. *)
Lemma get_new_blocks_spec p K L :
  pool_inv p (K ++ L) ->
  exists p', get_new_blocks (zlen K) p = (Ok K, p') /\ pool_inv p' L /\ pool_frame p p' /\
    (forall x, ref_of (bheap p') x = if decide (x ∈ K) then 1 else ref_of (bheap p) x) /\
    (forall x, hash_of (bheap p') x =
       if enable_caching p && bool_decide (x ∈ K) then None else hash_of (bheap p) x).
Proof.
  intros [Hc Hr]. unfold get_new_blocks, get_num_free_blocks, bind, get.
  rewrite (pool_free_count Hc), zlen_app. rewrite (proj2 (Z.ltb_ge _ _)) by (pose proof (zlen_nonneg L); lia).
  destruct (popleft_n_spec (bq p) K L (pi_rep _ _ Hc)) as (s' & Hpop & Hrep & Hf).
  unfold onq, zoom. rewrite Hpop.
  pose proof (core_popped p K L s' Hc Hrep Hf) as Hc1.
  pose proof (pool_L_NoDup Hc) as (HndK & Hdis & HndL)%NoDup_app.
  assert (Hsd : forall x, ref_of (bheap (with_bq s' p)) x = ref_of (bheap p) x).
  { intros x. apply ref_of_same_data, Hf. }
  destruct (take_blocks_spec (enable_caching p) L K (with_bq s' p) Hc1 HndK) as (p' & Hrun & Hc' & Hf' & Hr' & Hh').
  { intros l Hl. rewrite Hsd. destruct (pi_sub _ _ Hc l) as [HlB Hln]; [apply elem_of_app; by left |].
    split; [done |]. apply Hr; [done | done |]. apply elem_of_app. by left. }
  exists p'. rewrite Hrun. assert (Hfr : pool_frame p p') by (etransitivity; [by apply frame_queue | done]).
  split_and!; [done | split; [done |] | done | | ].
  - intros l. rewrite (pf_blocks _ _ Hfr), (pf_null _ _ Hfr), Hr', Hsd. intros Hl Hn.
    destruct (Hr l Hl Hn) as [H0 Hiff]. rewrite elem_of_app in Hiff. case_decide as HlK.
    + split; [lia |]. split; [lia |]. intros HlL. by destruct (Hdis l HlK).
    + split; [done |]. rewrite Hiff. split; [by intros [|] | by right].
  - intros x. by rewrite Hr', Hsd.
  - intros x. rewrite Hh'. by rewrite (hash_of_same_data (bheap (with_bq s' p)) (bheap p)) by apply Hf.
Qed.

(** Asking for more than there is raises ValueError and changes nothing. *)
Lemma get_new_blocks_too_many p L n :
  pool_core p L -> zlen L < n -> get_new_blocks n p = (Err ValueError, p).
Proof.
  intros Hc Hn. unfold get_new_blocks, get_num_free_blocks, bind, get.
  rewrite (pool_free_count Hc). by rewrite (proj2 (Z.ltb_lt _ _)).
Qed.

(** ** Touching *)

(** Removing a free block from the queue. *)
Lemma core_removed p L1 l L2 s' :
  pool_core p (L1 ++ l :: L2) -> queue_rep s' (L1 ++ L2) -> queue_frame (bq p) s' ->
  pool_core (with_bq s' p) (L1 ++ L2).
Proof.
  intros Hc Hrep Hf. apply (pool_core_update p _ (L1 ++ l :: L2)); [done | by apply frame_queue | done | |].
  - intros x Hx. apply (pi_sub _ _ Hc). rewrite elem_of_app, elem_of_cons. apply elem_of_app in Hx. tauto.
  - eapply cache_inv_same_data; [apply Hf | apply Hc].
Qed.

(** A change of a reference count alone. *)
Lemma core_ref_write p L l g :
  pool_core p L -> pool_core (with_heap (alter (upd_ref_cnt g) l (bheap p)) p) L.
Proof.
  intros Hc. apply (pool_core_update p _ L); [done | | | by apply pi_sub |].
  - by apply write_frame, data_write_ref.
  - apply write_rep; [apply data_write_ref | apply Hc].
  - eapply cache_inv_data; [| | apply Hc]; intros x.
    + by apply (write_frame _ (data_write_ref _) p l).
    + apply hash_of_write_ref.
Qed.

(** The conditional removal of touch takes [l] off the free list exactly when it is there. *)
Lemma touch_remove_spec p L l b :
  pool_inv p L -> l ∈ blocks p -> bheap p !! l = Some b ->
  exists p1, (if (ref_cnt b =? 0) && negb (is_null b) then onq (remove l) else ret tt) p = (Ok tt, p1) /\
    pool_core p1 (filter (fun x => x <> l) L) /\ pool_frame p p1 /\
    (forall x, ref_of (bheap p1) x = ref_of (bheap p) x) /\
    (forall x, hash_of (bheap p1) x = hash_of (bheap p) x).
Proof.
  intros [Hc Hr] Hl Hb.
  pose proof (pi_isnull _ _ Hc l Hl) as Hn. unfold null_of in Hn. rewrite Hb in Hn.
  destruct (decide (l ∈ L)) as [HlL | HlL].
  - destruct (pi_sub _ _ Hc l HlL) as [_ Hne].
    assert (ref_cnt b = 0) as ->.
    { destruct (Hr l Hl Hne) as [_ Hiff]. unfold ref_of in Hiff. rewrite Hb in Hiff. by apply Hiff. }
    rewrite Hn, bool_decide_false by done. simpl.
    apply list_elem_of_split in HlL as (L1 & L2 & ->).
    destruct (remove_spec (bq p) L1 l L2 (pi_rep _ _ Hc)) as (s' & Hrun & Hrep & Hf).
    exists (with_bq s' p). unfold onq, zoom. rewrite Hrun.
    rewrite filter_remove by apply (pool_L_NoDup Hc).
    split_and!; [done | by eapply core_removed | by apply frame_queue | |]; intros x.
    + apply ref_of_same_data, Hf.
    + apply hash_of_same_data, Hf.
  - rewrite filter_id by (by intros ? ? ->).
    assert ((ref_cnt b =? 0) && negb (is_null b) = false) as ->; [| by exists p].
    rewrite Hn. destruct (decide (l = null_block p)) as [-> | Hne].
    + rewrite bool_decide_true by done. apply andb_false_r.
    + apply andb_false_iff. left. apply Z.eqb_neq. intros E. apply HlL.
      destruct (Hr l Hl Hne) as [_ Hiff]. unfold ref_of in Hiff. rewrite Hb in Hiff. by apply Hiff.
Qed.

Lemma touch_one_spec p L l :
  pool_inv p L -> l ∈ blocks p ->
  exists p', touch_one l p = (Ok tt, p') /\ pool_inv p' (filter (fun x => x <> l) L) /\ pool_frame p p' /\
    (forall x, ref_of (bheap p') x = ref_of (bheap p) x + occ x [l]) /\
    (forall x, hash_of (bheap p') x = hash_of (bheap p) x).
Proof.
  intros [Hc Hr] Hl. destruct (pool_read Hc l Hl) as (b & Hb & Hrd).
  destruct (touch_remove_spec p L l b (Build_pool_inv _ _ Hc Hr) Hl Hb) as (p1 & Hrun & Hc1 & Hf1 & Hr1 & Hh1).
  pose proof (pool_alive Hc1 l (frame_blocks_in _ _ _ Hf1 Hl)) as Hal.
  set (p2 := with_heap (alter (upd_ref_cnt (fun n => n + 1)) l (bheap p1)) p1).
  assert (Href : forall x, ref_of (bheap p2) x = ref_of (bheap p) x + occ x [l]).
  { intros x. unfold p2, bheap at 1. simpl. rewrite ref_of_write by done. rewrite !Hr1, occ_cons, occ_nil.
    repeat case_decide; subst; lia || done. }
  assert (Hf2 : pool_frame p p2).
  { etransitivity; [done |]. by apply write_frame, data_write_ref. }
  exists p2. unfold touch_one. unfold bind at 1. rewrite Hrd. unfold bind. rewrite Hrun.
  split_and!; [by apply write_run | split; [by apply core_ref_write |] | done | done |].
  - intros x Hx Hn. rewrite (pf_blocks _ _ Hf2) in Hx. rewrite (pf_null _ _ Hf2) in Hn.
    rewrite Href, list_elem_of_filter, occ_cons, occ_nil. destruct (Hr x Hx Hn) as [H0 Hiff].
    case_decide; subst; rewrite <- Hiff; [lia |]. split; [lia |]. split; [split; [congruence | lia] | lia].
  - intros x. unfold p2, bheap at 1. simpl. rewrite hash_of_write_ref. apply Hh1.
Qed.

(** touch adds one reference per occurrence and takes the blocks off the free list. *)
Lemma touch_spec bs : forall p L,
  pool_inv p L -> (forall l, l ∈ bs -> l ∈ blocks p) ->
  exists p', touch bs p = (Ok tt, p') /\ pool_inv p' (filter (fun x => x ∉ bs) L) /\ pool_frame p p' /\
    (forall x, ref_of (bheap p') x = ref_of (bheap p) x + occ x bs) /\
    (forall x, hash_of (bheap p') x = hash_of (bheap p) x).
Proof.
  unfold touch. induction bs as [|l bs IH]; intros p L Hinv Hbs; simpl.
  - exists p. split_and!; try done; [| by intros; rewrite occ_nil, Z.add_0_r].
    rewrite filter_id; [done |]. intros x _. apply not_elem_of_nil.
  - destruct (touch_one_spec p L l Hinv) as (p1 & Hrun & Hi1 & Hf1 & Hr1 & Hh1); [apply Hbs; by left |].
    destruct (IH p1 _ Hi1) as (p2 & Hrun2 & Hi2 & Hf2 & Hr2 & Hh2).
    { intros x Hx. eapply frame_blocks_in; [done |]. apply Hbs. by right. }
    exists p2. unfold bind. rewrite Hrun. split_and!; [done | | by etransitivity | |].
    + rewrite list_filter_filter in Hi2.
      erewrite list_filter_iff; [exact Hi2 |]. intros x. simpl. rewrite elem_of_cons. tauto.
    + intros x. rewrite Hr2, Hr1, (occ_cons x l bs), occ_cons, occ_nil. lia.
    + intros x. by rewrite Hh2.
Qed.

(** ** Freeing *)

Lemma decrement_spec bs L : forall p,
  pool_core p L -> (forall l, l ∈ bs -> l ∈ blocks p) ->
  exists p', foreach bs (fun b => write b (upd_ref_cnt (fun n => n - 1))) p = (Ok tt, p') /\
    pool_core p' L /\ pool_frame p p' /\
    (forall x, ref_of (bheap p') x = ref_of (bheap p) x - occ x bs) /\
    (forall x, hash_of (bheap p') x = hash_of (bheap p) x).
Proof.
  induction bs as [|l bs IH]; intros p Hc Hbs; simpl.
  { exists p. split_and!; try done. intros x. rewrite occ_nil. lia. }
  pose proof (pool_alive Hc l (Hbs l ltac:(by left))) as Hal.
  set (p1 := with_heap (alter (upd_ref_cnt (fun n => n - 1)) l (bheap p)) p).
  assert (Hf1 : pool_frame p p1) by (by apply write_frame, data_write_ref).
  destruct (IH p1) as (p2 & Hrun2 & Hc2 & Hf2 & Hr2 & Hh2); [by apply core_ref_write | |].
  { intros x Hx. apply Hbs. by right. }
  exists p2. unfold bind. rewrite write_run by done. split_and!; [done | done | by etransitivity | |]; intros x.
  - rewrite Hr2, occ_cons. unfold p1, bheap at 1. simpl. rewrite ref_of_write by done.
    repeat case_decide; subst; lia || done.
  - rewrite Hh2. apply hash_of_write_ref.
Qed.

(** The blocks free_blocks puts back: those whose last reference goes away. *)
Definition released (p : BlockPool) (bs : list loc) : list loc :=
  filter (fun l => l <> null_block p /\ ref_of (bheap p) l = 1) bs.

Lemma freed_once p bs l :
  NoDup (filter (fun l => l <> null_block p) bs) -> l ∈ bs -> l <> null_block p -> occ l bs = 1.
Proof.
  intros Hnd Hl Hn. rewrite <- (occ_filter (fun l => l <> null_block p)) by done.
  rewrite occ_NoDup by done. rewrite decide_True; [done |]. by apply list_elem_of_filter.
Qed.

Lemma core_appended p L bs s' :
  pool_core p L -> queue_rep s' (L ++ bs) -> queue_frame (bq p) s' ->
  (forall l, l ∈ bs -> l ∈ blocks p /\ l <> null_block p) ->
  pool_core (with_bq s' p) (L ++ bs).
Proof.
  intros Hc Hrep Hf Hbs. apply (pool_core_update p _ L); [done | by apply frame_queue | done | |].
  - intros x [Hx | Hx]%elem_of_app; [by apply (pi_sub _ _ Hc) | by apply Hbs].
  - eapply cache_inv_same_data; [apply Hf | apply Hc].
Qed.

(** The filter of free_blocks, evaluated after the decrements, selects [released]. *)
Lemma released_filter p p1 L bs :
  pool_core p L -> pool_frame p p1 -> (forall l, l ∈ bs -> l ∈ blocks p) ->
  NoDup (filter (fun l => l <> null_block p) bs) ->
  (forall x, ref_of (bheap p1) x = ref_of (bheap p) x - occ x bs) ->
  filter (fun l => match bheap p1 !! l with
                   | Some b => (ref_cnt b =? 0) && negb (is_null b)
                   | None => false
                   end = true) bs = released p bs.
Proof.
  intros Hc Hf Hbs Hnd Hr. apply filter_ext_in. intros l Hl.
  assert (Hal : is_Some (bheap p1 !! l)) by (apply (pf_alive _ _ Hf), (pool_alive Hc); auto).
  destruct Hal as [b Hb]. rewrite Hb.
  assert (Hnull : is_null b = bool_decide (l = null_block p)).
  { rewrite <- (pi_isnull _ _ Hc l (Hbs l Hl)), <- (pf_isnull _ _ Hf). unfold null_of. by rewrite Hb. }
  assert (Hrb : ref_cnt b = ref_of (bheap p) l - occ l bs) by (rewrite <- Hr; unfold ref_of; by rewrite Hb).
  rewrite Hnull, andb_true_iff, Z.eqb_eq, Hrb. case_bool_decide as Hln; simpl; [naive_solver |].
  assert (occ l bs = 1) as ->; [| split; [intros [? _]; split; [done | lia] | intros [_ ?]; split; [lia | done]]].
  by apply (freed_once p bs).
Qed.

(** What [released] is, under the preconditions of free_blocks. *)
Lemma released_spec p L bs :
  pool_inv p L -> (forall l, l ∈ bs -> l ∈ blocks p) ->
  NoDup (filter (fun l => l <> null_block p) bs) ->
  NoDup (released p bs) /\
  (forall l, l ∈ released p bs -> l ∈ blocks p /\ l <> null_block p /\ l ∉ L).
Proof.
  intros [Hc Hr] Hbs Hnd. split.
  - eapply sublist_NoDup; [exact Hnd |].
    replace (released p bs)
      with (filter (fun l => ref_of (bheap p) l = 1) (filter (fun l => l <> null_block p) bs)).
    + apply sublist_filter.
    + rewrite list_filter_filter. apply list_filter_iff. naive_solver.
  - intros l [[Hn H1] Hl]%list_elem_of_filter. split_and!; [by apply Hbs | done |].
    intros HL. destruct (Hr l (Hbs l Hl) Hn) as [_ Hiff]. apply Hiff in HL. lia.
Qed.

Lemma released_refs p L bs :
  pool_refs p L -> NoDup (filter (fun l => l <> null_block p) bs) ->
  (forall l, l ∈ bs -> l <> null_block p -> 1 <= ref_of (bheap p) l) ->
  forall l, l ∈ blocks p -> l <> null_block p ->
    0 <= ref_of (bheap p) l - occ l bs /\
    (ref_of (bheap p) l - occ l bs = 0 <-> l ∈ L ++ released p bs).
Proof.
  intros Hr Hnd Hpos l Hl Hn.
  destruct (Hr l Hl Hn) as [H0 Hiff]. rewrite elem_of_app, <- Hiff.
  unfold released. rewrite list_elem_of_filter. destruct (decide (l ∈ bs)) as [Hin | Hin].
  - rewrite (freed_once p) by done. specialize (Hpos l Hin Hn). split; [lia |].
    split; [intros; right; split_and!; [done | lia | done] |]. intros [? | [[_ ?] _]]; lia.
  - rewrite (proj2 (occ_zero l bs)) by done. split; [lia |]. rewrite Z.sub_0_r. split; [by left |].
    intros [? | [_ ?]]; done.
Qed.

(** free_blocks drops one reference per block; those nobody references any more go to the
    end of the free list, in the given order. *)
Lemma free_blocks_spec p L bs :
  pool_inv p L -> (forall l, l ∈ bs -> l ∈ blocks p) ->
  NoDup (filter (fun l => l <> null_block p) bs) ->
  (forall l, l ∈ bs -> l <> null_block p -> 1 <= ref_of (bheap p) l) ->
  exists p', free_blocks bs p = (Ok tt, p') /\ pool_inv p' (L ++ released p bs) /\ pool_frame p p' /\
    (forall x, ref_of (bheap p') x = ref_of (bheap p) x - occ x bs) /\
    (forall x, hash_of (bheap p') x = hash_of (bheap p) x).
Proof.
  intros [Hc Hr] Hbs Hnd Hpos.
  destruct (decrement_spec bs L p Hc Hbs) as (p1 & Hrun & Hc1 & Hf1 & Hr1 & Hh1).
  destruct (released_spec p L bs (Build_pool_inv _ _ Hc Hr) Hbs Hnd) as [Hndr Hrel].
  destruct (append_n_spec (bq p1) L (released p bs) (pi_rep _ _ Hc1)) as (s' & Happ & Hrep & Hf).
  - done.
  - intros l Hl. destruct (Hrel l Hl) as (HlB & _ & HlL). rewrite elem_of_cons, elem_of_app, list_elem_of_singleton.
    rewrite (pf_head _ _ Hf1), (pf_tail _ _ Hf1). intros [-> | [? | ->]]; [| done |].
    + by apply (pi_head _ _ Hc).
    + by apply (pi_tail _ _ Hc).
  - intros l Hl. apply (pool_alive Hc1). rewrite (pf_blocks _ _ Hf1). by apply Hrel.
  - exists (with_bq s' p1). assert (Hfr : pool_frame p (with_bq s' p1)) by (etransitivity; [done | by apply frame_queue]).
    assert (Hr' : forall x, ref_of (bheap (with_bq s' p1)) x = ref_of (bheap p) x - occ x bs).
    { intros x. rewrite <- Hr1. apply ref_of_same_data, Hf. }
    split_and!; [| split | done | done |].
    + unfold free_blocks, bind. rewrite Hrun. unfold get, onq, zoom.
      rewrite (released_filter p p1 L) by done. by rewrite Happ.
    + apply core_appended; [done | done | done |]. rewrite (pf_blocks _ _ Hf1), (pf_null _ _ Hf1).
      intros l Hl. by destruct (Hrel l Hl) as (? & ? & ?).
    + intros l. rewrite (pf_blocks _ _ Hfr), (pf_null _ _ Hfr), Hr'. intros Hl Hn.
      by apply released_refs.
    + intros x. rewrite <- Hh1. apply hash_of_same_data, Hf.
Qed.

(** ** Evicting by id, and resetting the cache *)

Lemma evict_blocks_spec ids L : forall p,
  pool_inv p L -> (forall i, i ∈ ids -> 0 <= i < num_gpu_blocks p) ->
  exists p', evict_blocks ids p = (Ok tt, p') /\ pool_inv p' L /\ pool_frame p p' /\
    (forall x, ref_of (bheap p') x = ref_of (bheap p) x) /\
    (forall x, x ∈ blocks p -> hash_of (bheap p') x =
       if decide (id_of (bheap p) x ∈ ids) then None else hash_of (bheap p) x).
Proof.
  unfold evict_blocks. induction ids as [|i ids IH]; intros p [Hc Hr] Hids; simpl.
  { exists p. by split_and!. }
  pose proof (Hids i ltac:(by left)) as Hi.
  destruct (lookup_lt_is_Some_2 (blocks p) (Z.to_nat i)) as [l Hl].
  { pose proof (pi_len _ _ Hc). unfold zlen in *. lia. }
  pose proof (list_elem_of_lookup_2 _ _ _ Hl) as HlB.
  assert (Hid : id_of (bheap p) l = i) by (rewrite (proj2 (pi_ids _ _ Hc _ _ Hl)); lia).
  destruct (evict_spec p L l Hc HlB) as (p1 & Hrun & Hc1 & Hf1 & Hr1 & Hh1).
  assert (Hinv1 : pool_inv p1 L).
  { split; [done |]. intros x. rewrite (pf_blocks _ _ Hf1), (pf_null _ _ Hf1), Hr1. apply Hr. }
  destruct (IH p1 Hinv1) as (p2 & Hrun2 & Hi2 & Hf2 & Hr2 & Hh2).
  { intros j Hj. rewrite (pf_num _ _ Hf1). apply Hids. by right. }
  assert (Hix : py_index (blocks p) i = Ok l).
  { rewrite <- (Z2Nat.id i) by lia. by apply py_index_nat. }
  exists p2. unfold bind, get, assert, lift. rewrite (pi_len _ _ Hc), (proj2 (Z.ltb_lt _ _)) by lia.
  unfold ret. rewrite Hix, Hrun. split_and!; [done | done | by etransitivity | |].
  - intros x. by rewrite Hr2.
  - intros x Hx. rewrite Hh2 by (by eapply frame_blocks_in). rewrite (pf_id _ _ Hf1), Hh1.
    destruct (decide (x = l)) as [-> | Hne].
    + rewrite (decide_True (P := id_of (bheap p) l ∈ i :: ids)) by (rewrite Hid; by left). by case_decide.
    + assert (id_of (bheap p) x <> i) by (intros E; apply Hne, (pool_ids_inj Hc); congruence).
      do 2 case_decide; try done; set_solver.
Qed.

(** The loop that resets every hash. *)
Lemma reset_loop_spec bs L : forall p,
  queue_rep (bq p) L -> (forall l, l ∈ bs -> is_Some (bheap p !! l)) ->
  exists p', foreach bs (fun l => write l reset_hash) p = (Ok tt, p') /\ queue_rep (bq p') L /\
    pool_frame p p' /\ cached_block_hash_to_block p' = cached_block_hash_to_block p /\
    (forall x, ref_of (bheap p') x = ref_of (bheap p) x) /\
    (forall x, hash_of (bheap p') x = if decide (x ∈ bs) then None else hash_of (bheap p) x).
Proof.
  induction bs as [|l bs IH]; intros p Hrep Hal; simpl.
  { exists p. by split_and!. }
  pose proof (Hal l ltac:(by left)) as Hl.
  set (p1 := with_heap (alter reset_hash l (bheap p)) p).
  assert (Hf1 : pool_frame p p1) by apply write_frame, data_write_hash.
  destruct (IH p1) as (p2 & Hrun & Hrep2 & Hf2 & Hc2 & Hr2 & Hh2).
  { by apply write_rep; [apply data_write_hash |]. }
  { intros x Hx. apply (pf_alive _ _ Hf1), Hal. by right. }
  exists p2. unfold bind. rewrite write_run by done. split_and!; [done | done | by etransitivity | done | |]; intros x.
  - rewrite Hr2. apply ref_of_write_hash.
  - rewrite Hh2. unfold p1, bheap at 1. simpl. unfold reset_hash. rewrite hash_of_write by done.
    destruct (decide (x = l)) as [-> | Hne].
    + rewrite (decide_True (P := l ∈ l :: bs)) by (by left). by case_decide.
    + do 2 case_decide; try done; set_solver.
Qed.

Lemma cache_inv_empty B nul h : (forall l, l ∈ B -> hash_of h l = None) -> cache_inv B nul h ∅.
Proof.
  intros H. split.
  - intros k e l He. by rewrite lookup_empty in He.
  - intros k l Hl E. rewrite H in E by done. done.
  - intros k e He. by rewrite lookup_empty in He.
Qed.

(** reset_prefix_cache succeeds exactly when every block but the null block is free; then
    no block is cached any more and the free list is unchanged. *)
Lemma reset_prefix_cache_spec p L :
  pool_inv p L ->
  exists p', reset_prefix_cache p = (Ok (bool_decide (num_gpu_blocks p = 1 + zlen L)), p') /\
    pool_inv p' L /\ pool_frame p p' /\
    (forall x, ref_of (bheap p') x = ref_of (bheap p) x) /\
    (forall x, x ∈ blocks p -> hash_of (bheap p') x =
       if decide (num_gpu_blocks p = 1 + zlen L) then None else hash_of (bheap p) x) /\
    (num_gpu_blocks p = 1 + zlen L -> cached_block_hash_to_block p' = ∅) /\
    (num_gpu_blocks p <> 1 + zlen L -> p' = p).
Proof.
  intros [Hc Hr]. unfold reset_prefix_cache, bind, get, get_num_free_blocks.
  rewrite (pool_free_count Hc). destruct (decide (num_gpu_blocks p = 1 + zlen L)) as [E | E]; cycle 1.
  { rewrite (proj2 (Z.eqb_neq _ _)) by lia. simpl. rewrite bool_decide_false by done.
    exists p. by split_and!. }
  rewrite (proj2 (Z.eqb_eq _ _)) by lia. simpl. rewrite bool_decide_true by done.
  destruct (reset_loop_spec (blocks p) L (with_cache ∅ p)) as (p1 & Hrun & Hrep1 & Hf1 & Hc1 & Hr1 & Hh1).
  { apply Hc. }
  { apply (pool_alive Hc). }
  unfold modify. rewrite Hrun.
  assert (Hf : pool_frame p p1) by (etransitivity; [by apply frame_cache | done]).
  assert (Hnone : forall x, x ∈ blocks p -> hash_of (bheap p1) x = None).
  { intros x Hx. by rewrite Hh1, decide_True. }
  assert (Hcore : pool_core p1 L).
  { apply (pool_core_update p _ L); [done | done | done | by apply pi_sub |].
    rewrite Hc1. by apply cache_inv_empty. }
  set (p2 := if enable_kv_cache_events p then with_events (kv_event_queue p1 ++ [AllBlocksCleared]) p1 else p1).
  assert (Hf2 : pool_frame p p2) by (unfold p2; destruct (enable_kv_cache_events p); eauto with py).
  assert (Hb2 : bheap p2 = bheap p1) by (unfold p2; by destruct (enable_kv_cache_events p)).
  exists p2. split_and!; [| split | done | | | |]; rewrite ?Hb2.
  - unfold p2. by destruct (enable_kv_cache_events p).
  - unfold p2. destruct (enable_kv_cache_events p); eauto with py.
  - intros x. rewrite (pf_blocks _ _ Hf2), (pf_null _ _ Hf2), Hb2, Hr1. apply Hr.
  - intros x. by rewrite Hr1.
  - done.
  - intros _. unfold p2. by destruct (enable_kv_cache_events p).
  - done.
Qed.

(** ** Caching full blocks *)

(** The hash field of block [x] after [pairs] of blocks and hashes were cached. *)
Definition cached_as (nul : loc) (gid : Z) (pairs : list (loc * bytes)) (old : option bytes) (x : loc)
    : option bytes :=
  if decide (x = nul) then old
  else match od_get x pairs with
       | Some h => match make_block_hash_with_group_id h gid with Ok k => Some k | Err _ => old end
       | None => old
       end.

(** One iteration for a block that is not null. *)
Lemma cache_one_spec p L gid l h :
  pool_core p L -> 0 <= gid < 2 ^ 32 -> l ∈ blocks p -> l <> null_block p ->
  hash_of (bheap p) l = None ->
  exists es k p', cache_one gid (l, h) p = (Ok es, p') /\ make_block_hash_with_group_id h gid = Ok k /\
    pool_core p' L /\ pool_frame p p' /\ kv_event_queue p' = kv_event_queue p /\
    (forall x, ref_of (bheap p') x = ref_of (bheap p) x) /\
    (forall x, hash_of (bheap p') x = if decide (x = l) then Some k else hash_of (bheap p) x).
Proof.
  intros Hc Hg Hl Hn Hh. destruct (pool_read Hc l Hl) as (b & Hb & Hrd).
  destruct (pack_total h gid Hg) as [k Hk]. pose proof (pool_alive Hc l Hl) as Hal.
  pose proof (pi_isnull _ _ Hc l Hl) as Hnl. unfold null_of in Hnl. rewrite Hb, bool_decide_false in Hnl by done.
  assert (Hb0 : _block_hash b = None) by (unfold hash_of in Hh; by rewrite Hb in Hh).
  set (h1 := alter (with_hash (Some k)) l (bheap p)).
  set (p1 := with_cache (cache_insert h1 k l (cached_block_hash_to_block p)) (with_heap h1 p)).
  assert (Hf1 : pool_frame p p1) by (by apply frame_cache, write_frame, data_write_hash).
  assert (Hhash : forall x, hash_of h1 x = if decide (x = l) then Some k else hash_of (bheap p) x).
  { intros x. by apply hash_of_write. }
  exists (if enable_kv_cache_events p then [maybe_convert_block_hash (use_int_hashes p) h] else []), k, p1.
  split_and!; [| done | | done | done | intros x; apply ref_of_write_hash | done].
  - unfold cache_one. simpl. unfold bind at 1. rewrite Hrd, Hnl, Hb0. unfold lift, bind, assert, ret.
    rewrite Hk, write_run by done. done.
  - apply (pool_core_update p _ L); [done | done | | by apply pi_sub |].
    + apply (write_rep _ (data_write_hash _)), Hc.
    + apply (cache_insert_spec _ _ (bheap p)); try done; [apply (pool_ids_inj Hc) | apply Hc |].
      intros x. apply (write_frame _ (data_write_hash (Some k)) p l).
Qed.

Lemma cache_loop_spec gid L bls : forall hs p,
  pool_core p L -> 0 <= gid < 2 ^ 32 -> (forall l, l ∈ bls -> l ∈ blocks p) ->
  NoDup (filter (fun l => l <> null_block p) bls) ->
  (forall l, l ∈ bls -> l <> null_block p -> hash_of (bheap p) l = None) ->
  (length bls <= length hs)%nat ->
  exists es p', cache_loop gid bls hs p = (Ok es, p') /\ pool_core p' L /\ pool_frame p p' /\
    kv_event_queue p' = kv_event_queue p /\
    (forall x, ref_of (bheap p') x = ref_of (bheap p) x) /\
    (forall x, hash_of (bheap p') x = cached_as (null_block p) gid (zip bls hs) (hash_of (bheap p) x) x).
Proof.
  induction bls as [|l bls IH]; intros hs p Hc Hg Hin Hnd Hnone Hlen.
  { exists [], p. split_and!; try done. intros x. unfold cached_as. by case_decide. }
  destruct hs as [|h hs]; simpl in Hlen; [lia |]. simpl.
  pose proof (Hin l ltac:(by left)) as Hl. destruct (decide (l = null_block p)) as [E | Hn].
  - rewrite filter_cons_False in Hnd by congruence.
    destruct (IH hs p Hc Hg) as (es & p' & Hrun & ? & ? & ? & ? & Hh); [set_solver | done | set_solver | lia |].
    destruct (pool_read Hc l Hl) as (b & Hb & Hrd).
    pose proof (pi_isnull _ _ Hc l Hl) as Hnl. unfold null_of in Hnl. rewrite Hb, bool_decide_true in Hnl by done.
    exists es, p'. split_and!; try done.
    + unfold cache_one. simpl. unfold bind, ret. by rewrite Hrd, Hnl, Hrun.
    + intros x. rewrite Hh. unfold cached_as. case_decide; [done |]. simpl. by rewrite decide_False by congruence.
  - rewrite filter_cons_True, NoDup_cons, list_elem_of_filter in Hnd by done. destruct Hnd as [HlN Hnd].
    destruct (cache_one_spec p L gid l h Hc Hg Hl Hn) as (e1 & k & p1 & Hrun1 & Hk & Hc1 & Hf1 & He1 & Hr1 & Hh1);
      [apply Hnone; [by left | done] |].
    assert (Hfr : forall y, y ∈ bls -> y <> null_block p -> y <> l) by (intros y ? ? ->; tauto).
    destruct (IH hs p1 Hc1 Hg) as (es & p' & Hrun & ? & ? & He2 & Hr2 & Hh2); rewrite ?(pf_null _ _ Hf1);
      [rewrite (pf_blocks _ _ Hf1); set_solver | done | | lia |].
    { intros y Hy Hyn. rewrite Hh1, decide_False by auto. apply Hnone; [by right | done]. }
    exists (e1 ++ es), p'. unfold bind, ret. rewrite Hrun1, Hrun.
    split_and!; [done | done | by etransitivity | congruence | intros x; by rewrite Hr2 |].
    intros x. rewrite Hh2, (pf_null _ _ Hf1), Hh1. unfold cached_as. simpl.
    destruct (decide (x = null_block p)) as [-> | Hxn]; [by rewrite decide_False by congruence |].
    destruct (decide (x = l)) as [-> | Hxl]; [| done].
    assert (od_get l (zip bls hs) = None) as ->; [| by rewrite Hk].
    apply od_get_None. unfold od_keys. intros ((? & ?) & -> & Hz)%list_elem_of_fmap.
    apply list_elem_of_lookup in Hz as [i Hz]. apply lookup_zip_Some in Hz as [Hz _].
    apply HlN. split; [done |]. by apply list_elem_of_lookup_2 in Hz.
Qed.

(** *** The BlockStored event *)

Lemma mm_loop_mono fs : forall c s e, c <= (mm_loop fs c s e).2.
Proof.
  induction fs as [|f fs IH]; intros c s e; simpl; [lia |].
  repeat case_match; simpl; try lia; [pose proof (IH (c + 1) s e); lia |].
  pose proof (IH (c + 1) s e) as H'. rewrite H2 in H'. simpl in *. lia.
Qed.

(** The hashes cache_full_blocks reads for blocks of size [bs]. *)
Definition hash_list (hbs bs : Z) (r : Request) : BlockHashList :=
  if bs =? hbs then HList (block_hashes r) else HScaled (mkBHL (block_hashes r) (bs / hbs)).

Lemma hash_list_len hbs bs r n :
  0 < hbs -> 0 < bs -> bs mod hbs = 0 ->
  n <= zlen (bh_list (hash_list hbs bs r)) -> n <= zlen (block_hashes r).
Proof.
  intros Hh Hb Hm. unfold hash_list. destruct (Z.eqb_spec bs hbs); simpl; [done |].
  unfold zlen at 1. rewrite length_fmap. unfold range. rewrite length_seqZ. unfold bhl_len. simpl.
  apply Z.div_exact in Hm; [| lia]. pose proof (zlen_nonneg (block_hashes r)).
  assert (1 <= bs / hbs) by nia. set (k := bs / hbs) in *.
  pose proof (Z.div_le_upper_bound (zlen (block_hashes r)) k (zlen (block_hashes r)) ltac:(lia) ltac:(nia)).
  pose proof (Z.div_pos (zlen (block_hashes r)) k). lia.
Qed.

Lemma bh_index_total b i : 0 <= i < zlen (bh_list b) -> exists k, bh_index b i = Ok k.
Proof.
  intros Hi. destruct b as [hs|b]; simpl in *; [| eauto].
  destruct (lookup_lt_is_Some_2 hs (Z.to_nat i)) as [k Hk]; [unfold zlen in Hi; lia |].
  exists k. rewrite <- (Z2Nat.id i) by lia. by apply py_index_nat.
Qed.

Section caching.
Context (sha256 : bytes -> bytes).

(** With a hint that is not negative, the extra keys are computed without error. *)
Lemma generate_total r s e i :
  0 <= i -> exists ks i' r', generate_block_hash_extra_keys sha256 s e i r = (Ok (ks, i'), r') /\
    0 <= i' /\ memo_of r r'.
Proof.
  intros Hi.
  assert (Hmm : exists ks i', _gen_mm_extra_hash_keys r s e i = Ok (ks, i') /\ 0 <= i').
  { unfold _gen_mm_extra_hash_keys. destruct (last (mm_features r)) as [f|]; [| eauto].
    case_match; [eauto |]. rewrite (proj2 (Z.ltb_ge i 0)) by done. simpl.
    destruct (mm_loop _ i s e) as [ks i'] eqn:E. exists ks, i'. split; [done |].
    pose proof (mm_loop_mono (drop (Z.to_nat i) (mm_features r)) i s e) as H'. rewrite E in H'. simpl in H'. lia. }
  destruct Hmm as (ks & i' & Hmm & Hi').
  assert (Hem : exists es r', _gen_prompt_embeds_extra_hash_keys sha256 s e r = (Ok es, r') /\ memo_of r r').
  { unfold _gen_prompt_embeds_extra_hash_keys, bind, get. destruct (prompt_embeds r); [| eauto using memo_of_refl].
    case_match; [eauto using memo_of_refl |]. unfold modify, ret. do 2 eexists. split; [done |]. eexists. reflexivity. }
  destruct Hem as (es & r' & Hem & Hm).
  unfold generate_block_hash_extra_keys, bind, get, lift. rewrite Hmm. simpl. rewrite Hem.
  case_match; unfold ret; eauto 10.
Qed.

Lemma stored_extra_keys_total bs bls L idxs : forall p i r,
  pool_core p L -> (forall l, l ∈ bls -> l ∈ blocks p) ->
  (forall j, j ∈ idxs -> 0 <= j < zlen bls) -> 0 <= i ->
  exists ks r', stored_extra_keys sha256 bs idxs bls i r p = (Ok (ks, r'), p) /\ memo_of r r'.
Proof.
  induction idxs as [|j idxs IH]; intros p i r Hc Hbl Hj Hi; simpl.
  { do 2 eexists. split; [reflexivity | apply memo_of_refl]. }
  pose proof (Hj j ltac:(by left)) as Hj0.
  destruct (lookup_lt_is_Some_2 bls (Z.to_nat j)) as [l Hl]; [unfold zlen in Hj0; lia |].
  assert (Hix : py_index bls j = Ok l).
  { rewrite <- (Z2Nat.id j) by lia. by apply py_index_nat. }
  destruct (pool_read Hc l) as (b & Hb & Hrd); [apply Hbl; by eapply list_elem_of_lookup_2 |].
  unfold bind, lift. rewrite Hix, Hrd. destruct (is_null b).
  - apply (IH p i r); [done | done | | done]. intros x Hx. apply Hj. by right.
  - destruct (generate_total r (j * bs) (j * bs + bs) i Hi) as (ks & i' & r1 & Hgen & Hi' & Hm).
    rewrite Hgen. destruct (IH p i' r1) as (ks' & r2 & Hrun & Hm'); [done | done | | done |].
    { intros x Hx. apply Hj. by right. }
    rewrite Hrun. unfold ret. do 2 eexists. split; [reflexivity |]. by eapply memo_of_trans.
Qed.

(** cache_full_blocks caches the blocks [num_cached .. num_full) of the request under their
    hashes, and changes nothing else. *)
Lemma cache_full_blocks_spec p L r bls nc nf bs gid :
  pool_inv p L -> 0 <= gid < 2 ^ 32 -> 0 <= nc < nf -> nf <= zlen bls ->
  0 < hash_block_size p -> 0 < bs -> bs mod hash_block_size p = 0 ->
  nf <= zlen (bh_list (hash_list (hash_block_size p) bs r)) ->
  (forall l, l ∈ bls -> l ∈ blocks p) ->
  NoDup (filter (fun l => l <> null_block p) (py_slice bls nc nf)) ->
  (forall l, l ∈ py_slice bls nc nf -> l <> null_block p -> hash_of (bheap p) l = None) ->
  exists r' p', cache_full_blocks sha256 r bls nc nf bs gid p = (Ok r', p') /\ memo_of r r' /\
    pool_inv p' L /\ pool_frame p p' /\
    (forall x, ref_of (bheap p') x = ref_of (bheap p) x) /\
    (forall x, hash_of (bheap p') x =
       cached_as (null_block p) gid
         (zip (py_slice bls nc nf) (bh_from (hash_list (hash_block_size p) bs r) nc))
         (hash_of (bheap p) x) x).
Proof.
  intros [Hc Hr] Hg Hn Hnf Hhbs Hbs Hmod Hlen Hbl Hnd Hnone.
  set (bhs := hash_list (hash_block_size p) bs r) in *.
  assert (Hsl : forall l, l ∈ py_slice bls nc nf -> l ∈ blocks p).
  { intros l Hl. apply Hbl. by eapply elem_of_py_slice. }
  assert (Hlb : (length (py_slice bls nc nf) <= length (bh_from bhs nc))%nat).
  { unfold bh_from. rewrite !length_py_slice by lia. lia. }
  destruct (cache_loop_spec gid L (py_slice bls nc nf) (bh_from bhs nc) p Hc Hg Hsl Hnd Hnone Hlb)
    as (es & p1 & Hrun & Hc1 & Hf1 & He1 & Hr1 & Hh1).
  assert (Hrefs : forall p2, pool_frame p p2 -> bheap p2 = bheap p1 -> pool_refs p2 L).
  { intros p2 Hf2 Hb2 l. rewrite (pf_blocks _ _ Hf2), (pf_null _ _ Hf2), Hb2, Hr1. apply Hr. }
  assert (Hraw : nf <= zlen (block_hashes r)) by (by apply (hash_list_len (hash_block_size p) bs)).
  assert (Hsel : (if bs =? hash_block_size p then Ok (HList (block_hashes r))
      else match new_BlockHashListWithBlockSize (block_hashes r) (hash_block_size p) bs with
           | Ok b => Ok (HScaled b)
           | Err e => Err e
           end) = Ok bhs).
  { unfold bhs, hash_list, new_BlockHashListWithBlockSize. rewrite Hmod. by destruct (bs =? _). }
  unfold cache_full_blocks. rewrite (proj2 (Z.leb_gt _ _)), (proj2 (Z.leb_le nf _)) by lia.
  unfold assert, bind, get, lift, ret. rewrite Hsel, Hrun.
  destruct (enable_kv_cache_events p) eqn:Eev; simpl; cycle 1.
  { exists r, p1. split_and!; [done | apply memo_of_refl | split; [done | by apply Hrefs] | done | done | done]. }
  match goal with |- context [match ?t with pair _ _ => _ end] => assert (Hpar : exists o, t = (Ok o, p1)) end.
  { destruct (Z.eqb_spec nc 0); [eauto |].
    destruct (bh_index_total bhs (nc - 1)) as [k Hk]; [lia |]. rewrite Hk. eauto. }
  destruct Hpar as [o Hpar]. rewrite Hpar.
  destruct (stored_extra_keys_total bs bls L ((fun i => i + nc) <$> range (nf - nc)) p1 0 r)
    as (ks & r' & Hks & Hm); [done | by rewrite (pf_blocks _ _ Hf1) | | done |].
  { intros j (i & -> & Hi)%list_elem_of_fmap. unfold range in Hi. apply elem_of_seqZ in Hi. lia. }
  rewrite Hks. eexists r', _. split; [reflexivity |].
  split_and!; [done | | by apply frame_events | done | done].
  split; [by apply core_events | by apply Hrefs; [apply frame_events |]].
Qed.
End caching.

(** ** Lookup *)

(** [b] is cached under hash [h] for group [g]. *)
Definition cached_under (p : BlockPool) (h : bytes) (g : Z) (b : loc) : Prop :=
  exists k, make_block_hash_with_group_id h g = Ok k /\ b ∈ blocks p /\ hash_of (bheap p) b = Some k.

Lemma get_one_block_spec p L k :
  pool_core p L ->
  exists o, get_one_block (cached_block_hash_to_block p) k = Ok o /\
    match o with
    | Some b => b ∈ blocks p /\ b <> null_block p /\ hash_of (bheap p) b = Some k
    | None => forall b, b ∈ blocks p -> hash_of (bheap p) b <> Some k
    end.
Proof.
  intros Hc. pose proof (pi_cache _ _ Hc) as [Hs Hcm Ho]. unfold get_one_block.
  destruct (cached_block_hash_to_block p !! k) as [[b|[|[i b] d]]|] eqn:E.
  - exists (Some b). split; [done |]. eapply (Hs k); [done | by left].
  - by destruct (Ho k _ E).
  - exists (Some b). split; [done |]. eapply (Hs k); [done | simpl; by left].
  - exists None. split; [done |]. intros b Hb Hk. destruct (Hcm k b Hb Hk) as (e & He & _). congruence.
Qed.

(** get_cached_block is total and exact: a hit returns, per group, a block of the pool that
    carries the requested hash; a miss means that some group has no such block. *)
Lemma get_cached_block_spec p L h gids :
  pool_core p L -> (forall g, g ∈ gids -> 0 <= g < 2 ^ 32) ->
  exists o, get_cached_block (cached_block_hash_to_block p) h gids = Ok o /\
    match o with
    | Some bs => Forall2 (fun g b => cached_under p h g b /\ b <> null_block p) gids bs
    | None => exists g, g ∈ gids /\ forall b, ~ cached_under p h g b
    end.
Proof.
  intros Hc. induction gids as [|g gids IH]; intros Hg; simpl.
  { exists (Some []). split; [done | constructor]. }
  destruct (pack_total h g) as [k Hk]; [apply Hg; by left |]. rewrite Hk.
  destruct (get_one_block_spec p L k Hc) as (o & Ho & Hspec). rewrite Ho. destruct o as [b|].
  - destruct IH as (o' & Ho' & Hspec'); [intros; apply Hg; by right |]. rewrite Ho'. destruct o' as [bs|].
    + exists (Some (b :: bs)). split; [done |]. constructor; [| done]. split; [| by apply Hspec].
      exists k. split_and!; [done | by apply Hspec ..].
    + exists None. split; [done |]. destruct Hspec' as (g' & ? & ?). exists g'. split; [by right | done].
  - exists None. split; [done |]. exists g. split; [by left |]. intros b (k' & Hk' & Hb & Hh).
    rewrite Hk in Hk'. injection Hk' as <-. by apply (Hspec b).
Qed.

(** ** Construction *)

Lemma initial_heap_lookup n l :
  initial_heap n !! l = if decide (l < n)%nat then Some (new_block (Z.of_nat l)) else None.
Proof.
  unfold initial_heap. case_decide as Hl.
  - apply elem_of_list_to_map_1.
    + rewrite <- list_fmap_compose. simpl. rewrite list_fmap_id. apply NoDup_seq.
    + apply list_elem_of_fmap. exists l. split; [done |]. apply elem_of_seq. lia.
  - apply not_elem_of_list_to_map_1. rewrite <- list_fmap_compose. simpl. rewrite list_fmap_id.
    rewrite elem_of_seq. lia.
Qed.

Lemma lookup_data (h h' : heap) l b :
  data <$> h' !! l = data <$> h !! l -> h !! l = Some b -> exists b', h' !! l = Some b' /\ data b' = data b.
Proof.
  intros E Hb. rewrite Hb in E. destruct (h' !! l) as [b'|]; simpl in E; [| done].
  exists b'. split; [done | congruence].
Qed.

(** A block of the initial heap, seen through link updates. *)
Lemma initial_block n (h' : heap) l :
  (l < n)%nat -> data <$> h' !! l = data <$> initial_heap n !! l ->
  is_Some (h' !! l) /\ id_of h' l = Z.of_nat l /\ ref_of h' l = 0 /\ hash_of h' l = None /\ null_of h' l = false.
Proof.
  intros Hl Hd. destruct (lookup_data _ _ _ (new_block (Z.of_nat l)) Hd) as (b & Hb & E).
  { rewrite initial_heap_lookup. by rewrite decide_True. }
  injection E as ? ? ? ?. unfold id_of, ref_of, hash_of, null_of. rewrite Hb. simpl. split_and!; eauto.
Qed.

(** The fresh pool: all blocks unreferenced and without hash, block 0 is the null block. *)
Lemma initial_inv m p :
  queue_rep (bq p) (seq 1 m) ->
  (fake_free_list_head (fq (bq p)) ∉ seq 0 (S m)) -> (fake_free_list_tail (fq (bq p)) ∉ seq 0 (S m)) ->
  zlen (blocks p) = num_gpu_blocks p -> blocks p = seq 0 (S m) -> null_block p = 0%nat ->
  cached_block_hash_to_block p = ∅ ->
  (forall l, (l < S m)%nat -> is_Some (bheap p !! l) /\ id_of (bheap p) l = Z.of_nat l /\
     ref_of (bheap p) l = 0 /\ hash_of (bheap p) l = None /\ null_of (bheap p) l = bool_decide (l = 0%nat)) ->
  pool_inv p (seq 1 m).
Proof.
  intros Hrep Hh Ht Hlen Hb Hn Hc Hv. split; [split|]; rewrite ?Hb, ?Hn; try done.
  - by rewrite <- Hb.
  - intros i l [-> Hl]%lookup_seq. destruct (Hv i) as (? & ? & _); done.
  - apply elem_of_seq. lia.
  - intros l Hl%elem_of_seq. destruct (Hv l) as (_ & _ & _ & _ & ?); [lia |]. done.
  - intros l Hl%elem_of_seq. split; [apply elem_of_seq; lia | lia].
  - rewrite Hc. apply cache_inv_empty. intros l Hl%elem_of_seq. destruct (Hv l) as (_ & _ & _ & ? & _); [lia |]. done.
  - intros l. rewrite Hb, Hn, !elem_of_seq. intros Hl Hne.
    destruct (Hv l) as (_ & _ & Hr & _); [lia |]. rewrite Hr. lia.
Qed.

Lemma new_BlockPool_spec num caching hbs ev ui :
  0 < num ->
  exists p, new_BlockPool num caching hbs ev ui = Ok p /\
    pool_inv p (seq 1 (Z.to_nat num - 1)) /\ null_block p = 0%nat /\ blocks p = seq 0 (Z.to_nat num) /\
    num_gpu_blocks p = num /\ enable_caching p = caching /\ hash_block_size p = hbs /\
    enable_kv_cache_events p = ev /\ kv_event_queue p = [] /\ cached_block_hash_to_block p = ∅ /\
    (forall x, x ∈ blocks p -> ref_of (bheap p) x = 0 /\ hash_of (bheap p) x = None).
Proof.
  intros Hn. unfold new_BlockPool. rewrite (proj2 (Z.ltb_lt _ _)) by done. simpl.
  set (n := Z.to_nat num). destruct n as [|m] eqn:En; [unfold n in En; lia |]. rewrite Nat.sub_succ, Nat.sub_0_r.
  set (s0 := mkQ (initial_heap (S m)) (mkQueue 0 0%nat 0%nat)).
  assert (Hlnk : forall l, nx (qheap s0) l = None /\ pv (qheap s0) l = None).
  { intros l. simpl. unfold nx, pv. rewrite initial_heap_lookup. by case_decide. }
  destruct (init_queue_spec s0 (seq 0 (S m))) as (s1 & Hinit & Hrep1 & Hd1 & Hh1 & Ht1);
    [apply NoDup_seq | | done |].
  { intros l Hl. simpl. rewrite initial_heap_lookup. apply elem_of_seq in Hl. rewrite decide_True by lia. eauto. }
  destruct (popleft_spec s1 0%nat (seq 1 m) Hrep1) as (s2 & Hpop & Hrep2 & Hsd & Hhd & Htl).
  assert (Hblk : forall l, (l < S m)%nat -> is_Some (qheap s2 !! l) /\ id_of (qheap s2) l = Z.of_nat l /\
     ref_of (qheap s2) l = 0 /\ hash_of (qheap s2) l = None /\ null_of (qheap s2) l = false).
  { intros l Hl. apply (initial_block (S m)); [done |]. rewrite (Hsd l). apply Hd1. simpl.
    apply elem_of_dom. rewrite initial_heap_lookup, decide_True by lia. eauto. }
  destruct (Hblk 0%nat ltac:(lia)) as ([b0 Hb0] & _).
  change (seq 0 (S m)) with (0%nat :: seq 1 m) in Hinit.
  unfold onq, zoom, bind, write. simpl. fold s0. rewrite Hinit. simpl. rewrite Hpop. simpl.
  unfold bheap. simpl. rewrite Hb0. unfold ret.
  set (h3 := alter (with_null true) 0%nat (qheap s2)).
  assert (Hv : forall l, (l < S m)%nat -> is_Some (h3 !! l) /\ id_of h3 l = Z.of_nat l /\
     ref_of h3 l = 0 /\ hash_of h3 l = None /\ null_of h3 l = bool_decide (l = 0%nat)).
  { intros l Hl. destruct (Hblk l Hl) as ([b Hb] & Hv). revert Hv. unfold id_of, ref_of, hash_of, null_of, h3.
    rewrite lookup_alter. case_decide as E; [subst l | rewrite bool_decide_false by congruence];
      rewrite Hb; simpl; intros (? & ? & ? & ?); split_and!; eauto. }
  assert (Hnot : forall l, l ∈ seq 0 (S m) -> l ∈ dom (qheap s0)).
  { intros l [_ Hl]%elem_of_seq. simpl. apply elem_of_dom. rewrite initial_heap_lookup, decide_True by lia. eauto. }
  eexists. split; [reflexivity |]. split_and!; try done; cycle 1.
  { intros x Hx. change (x ∈ seq 0 (S m)) in Hx. apply elem_of_seq in Hx.
    destruct (Hv x) as (_ & _ & ? & ? & _); [lia | done]. }
  apply (initial_inv m); simpl; try done.
  - apply (queue_rep_data s2); [done | |]; intros l; [apply nx_alter_data | apply pv_alter_data]; done.
  - rewrite Hhd. intros Hin. by apply Hh1, Hnot.
  - rewrite Htl. intros Hin. by apply Ht1, Hnot.
  - unfold zlen. simpl. rewrite length_seq. lia.
Qed.

Lemma new_BlockPool_bad num caching hbs ev ui :
  num <= 0 -> new_BlockPool num caching hbs ev ui = Err AssertionError.
Proof. intros Hn. unfold new_BlockPool. by rewrite (proj2 (Z.ltb_ge _ _)). Qed.
