(* ===== verification/Demo.v ===== *)
(** * Demo
    Concrete requests and pools in which the hypotheses of the properties hold. *)
From S2P Require Import Prelude OrdDict KVCacheBlock FreeQueue Request BlockHash BlockPool BlockPoolInv.

(** A request with given tokens and block hashes. *)
Definition demo_request (rid : string) (tokens : list Z) (hashes : list bytes) : Request :=
  mkRequest rid 0 0 None None None WAITING None 1 (Some tokens) None ∅ (zlen tokens) [] tokens 0 [] None [] 0 false
    hashes false.

(** A new pool of four blocks. *)
Lemma demo_pool : exists p, new_BlockPool 4 true 16 false false = Ok p /\ pool_inv p [1; 2; 3]%nat /\
  null_block p = 0%nat /\ blocks p = [0; 1; 2; 3]%nat /\ num_gpu_blocks p = 4 /\ enable_caching p = true /\
  hash_block_size p = 16 /\ (forall x, x ∈ blocks p -> ref_of (bheap p) x = 0 /\ hash_of (bheap p) x = None).
Proof.
  destruct (new_BlockPool_spec 4 true 16 false false eq_refl)
    as (p & Hp & Hinv & Hn & Hb & Hnum & Hc & Hh & _ & _ & _ & Hz).
  exists p. by split_and!.
Qed.

(** Blocks 1 and 2 are allocated. *)
Lemma demo_allocated : exists p, pool_inv p [3%nat] /\ null_block p = 0%nat /\ blocks p = [0; 1; 2; 3]%nat /\
  enable_caching p = true /\ hash_block_size p = 16 /\
  (forall x, x ∈ blocks p -> ref_of (bheap p) x = (if decide (x ∈ [1; 2]%nat) then 1 else 0) /\ hash_of (bheap p) x = None).
Proof.
  destruct demo_pool as (p0 & _ & Hinv0 & Hn & Hb & _ & Hc & Hh & Hz).
  destruct (get_new_blocks_spec p0 [1; 2]%nat [3%nat] Hinv0) as (p & _ & Hinv & Hf & Hr & Hhash).
  exists p. rewrite (pf_null _ _ Hf), (pf_blocks _ _ Hf), (pf_caching _ _ Hf), (pf_hbs _ _ Hf).
  split_and!; try done. intros x Hx. destruct (Hz x Hx) as [Hz1 Hz2]. rewrite Hr, Hhash, Hz1, Hz2. by destruct (_ && _).
Qed.

(** In addition they are cached for group 0 under two given hashes. *)
Lemma demo_cached_under h1 h2 :
  exists p, pool_inv p [3%nat] /\ null_block p = 0%nat /\ blocks p = [0; 1; 2; 3]%nat /\ enable_caching p = true /\
    hash_block_size p = 16 /\ (forall x, x ∈ blocks p -> ref_of (bheap p) x = if decide (x ∈ [1; 2]%nat) then 1 else 0) /\
    cached_under p h1 0 1%nat /\ cached_under p h2 0 2%nat.
Proof.
  destruct demo_allocated as (p & Hinv & Hn & Hb & Hc & Hh & Hz).
  assert (Hbl : forall l, l ∈ [1; 2]%nat -> l ∈ blocks p).
  { intros l. rewrite Hb. rewrite !elem_of_cons, elem_of_nil. lia. }
  destruct (cache_full_blocks_spec (fun x => x) p [3%nat] (demo_request "r" [] [h1; h2]) [1; 2]%nat 0 2 16 0 Hinv)
    as (r' & p' & _ & _ & Hinv' & Hf' & Hr' & Hca); rewrite ?Hh, ?Hn; try done;
    try (intros l Hl _; apply Hz; by apply Hbl); try (apply (bool_decide_unpack _); exact I).
  rewrite Hh, Hn in Hca. exists p'.
  rewrite (pf_null _ _ Hf'), (pf_blocks _ _ Hf'), (pf_caching _ _ Hf'), (pf_hbs _ _ Hf'). split_and!; try done.
  - intros x Hx. rewrite Hr'. by apply Hz.
  - eexists. split; [reflexivity |]. rewrite (pf_blocks _ _ Hf'), Hca. split; [apply Hbl; left | reflexivity].
  - eexists. split; [reflexivity |]. rewrite (pf_blocks _ _ Hf'), Hca. split; [apply Hbl; right; left | reflexivity].
Qed.

(** The same blocks, cached and free. *)
Lemma demo_warm h1 h2 :
  exists p, pool_inv p [3; 2; 1]%nat /\ null_block p = 0%nat /\ hash_block_size p = 16 /\ enable_caching p = true /\
    (forall l, l ∈ blocks p -> ref_of (bheap p) l = 0) /\ cached_under p h1 0 1%nat /\ cached_under p h2 0 2%nat.
Proof.
  destruct (demo_cached_under h1 h2) as (p & Hinv & Hn & Hb & Hc & Hh & Hr & (k1 & Hk1 & Hb1 & H1) & (k2 & Hk2 & Hb2 & H2)).
  assert (Hbl : forall l, l ∈ [2; 1]%nat -> l ∈ blocks p /\ ref_of (bheap p) l = 1 /\ l <> null_block p).
  { intros l Hl. rewrite !elem_of_cons, elem_of_nil in Hl. rewrite Hn.
    destruct Hl as [-> | [-> | []]]; rewrite Hr by done; by split_and!. }
  destruct (free_blocks_spec p [3%nat] [2; 1]%nat Hinv) as (p2 & _ & Hinv2 & Hf2 & Hr2 & Hh2).
  - by intros l [? _]%Hbl.
  - apply NoDup_filter. apply (bool_decide_unpack _). exact I.
  - intros l (_ & -> & _)%Hbl _. lia.
  - assert (Erel : released p [2; 1]%nat = [2; 1]%nat).
    { unfold released. apply filter_id. intros l (_ & ? & ?)%Hbl. done. }
    rewrite Erel in Hinv2. exists p2.
    rewrite (pf_null _ _ Hf2), (pf_hbs _ _ Hf2), (pf_caching _ _ Hf2), (pf_blocks _ _ Hf2). split_and!; try done.
    + intros l Hl. rewrite Hr2, (Hr l Hl). rewrite Hb in Hl. rewrite !elem_of_cons, elem_of_nil in Hl.
      by destruct Hl as [-> | [-> | [-> | [-> | []]]]].
    + exists k1. by rewrite (pf_blocks _ _ Hf2), Hh2.
    + exists k2. by rewrite (pf_blocks _ _ Hf2), Hh2.
Qed.

Lemma zero_group g : g ∈ [0] -> 0 <= g < 2 ^ 32.
Proof. intros ->%list_elem_of_singleton. lia. Qed.
