(* ===== verification/Managers.v ===== *)
(** * Managers
    vllm/v1/core/single_type_kv_cache_manager.py: the per-attention-type managers that keep
    the block table of every request of one KV-cache group. [SingleTypeKVCacheManager] and
    its subclasses share one record; the dynamic dispatch of the overridden methods is a
    match on the manager's [kind]. The block pool is shared by all managers and is part of
    the state the methods run on.

    Objects are compared with [==] in the source; the dataclass comparison starts with
    [block_id], which is unique in a pool, so it coincides with identity of locations. *)
From S2P Require Import Prelude OrdDict KVCacheBlock FreeQueue Request BlockHash BlockPool.

(** ** State *)

(** The subclasses, with the parameters they take from their spec. *)
Inductive Kind :=
  | FullAttention
  | SlidingWindow (sliding_window : Z)
  | ChunkedLocalAttention (attention_chunk_size : Z)
  | Mamba (align : bool) (num_speculative_blocks : Z)
  | CrossAttention
  | SinkFullAttention (sink_blocks : list loc)
  | NELSSA (head_size tail_size : Z).

(** A manager object. The fields from [cached_blocks_this_step] on belong to MambaManager,
    those from [long_requests] on to NELSSACacheManager. [tracks_new_ids] is
    [type(self.kv_cache_spec) in (FullAttentionSpec, TQFullAttentionSpec)]. *)
Record Manager := mkManager {
  kind : Kind;
  block_size : Z;
  spec_block_size : Z;  (* self.kv_cache_spec.block_size *)
  m_enable_caching : bool;
  _max_admission_blocks_per_request : option Z;
  tracks_new_ids : bool;
  kv_cache_group_id : Z;
  _null_block : loc;
  new_block_ids : list Z;
  req_to_blocks : gmap string (list loc);
  num_cached_block : gmap string Z;
  cached_blocks_this_step : gset bytes;
  last_state_block_idx : gmap string Z;
  _allocated_block_reqs : gset string;
  long_requests : gset string;
  nelssa_tail_blocks : gmap string Z;
  nelssa_tail_start_pos : gmap string Z;
}.

Record mstate := mkMS { mg : Manager; pool : BlockPool }.
Abbreviation MM A := (M mstate A).

Definition with_mg (f : Manager -> Manager) : MM unit := modify (fun s => mkMS (f (mg s)) (pool s)).
Definition self : MM Manager := gets mg.
Definition on_pool {A} (m : M BlockPool A) : MM A := zoom pool (fun p s => mkMS (mg s) p) m.

Section fields.
Implicit Types m : Manager.
Definition set_blocks (b : gmap string (list loc)) m : Manager :=
  mkManager (kind m) (block_size m) (spec_block_size m) (m_enable_caching m) (_max_admission_blocks_per_request m)
    (tracks_new_ids m) (kv_cache_group_id m) (_null_block m) (new_block_ids m) b (num_cached_block m)
    (cached_blocks_this_step m) (last_state_block_idx m) (_allocated_block_reqs m) (long_requests m)
    (nelssa_tail_blocks m) (nelssa_tail_start_pos m).
Definition set_cached (c : gmap string Z) m : Manager :=
  mkManager (kind m) (block_size m) (spec_block_size m) (m_enable_caching m) (_max_admission_blocks_per_request m)
    (tracks_new_ids m) (kv_cache_group_id m) (_null_block m) (new_block_ids m) (req_to_blocks m) c
    (cached_blocks_this_step m) (last_state_block_idx m) (_allocated_block_reqs m) (long_requests m)
    (nelssa_tail_blocks m) (nelssa_tail_start_pos m).
Definition set_new_ids (ids : list Z) m : Manager :=
  mkManager (kind m) (block_size m) (spec_block_size m) (m_enable_caching m) (_max_admission_blocks_per_request m)
    (tracks_new_ids m) (kv_cache_group_id m) (_null_block m) ids (req_to_blocks m) (num_cached_block m)
    (cached_blocks_this_step m) (last_state_block_idx m) (_allocated_block_reqs m) (long_requests m)
    (nelssa_tail_blocks m) (nelssa_tail_start_pos m).
Definition set_mamba (c : gset bytes) (l : gmap string Z) (a : gset string) m : Manager :=
  mkManager (kind m) (block_size m) (spec_block_size m) (m_enable_caching m) (_max_admission_blocks_per_request m)
    (tracks_new_ids m) (kv_cache_group_id m) (_null_block m) (new_block_ids m) (req_to_blocks m)
    (num_cached_block m) c l a (long_requests m) (nelssa_tail_blocks m) (nelssa_tail_start_pos m).
Definition set_nelssa (l : gset string) (t p : gmap string Z) m : Manager :=
  mkManager (kind m) (block_size m) (spec_block_size m) (m_enable_caching m) (_max_admission_blocks_per_request m)
    (tracks_new_ids m) (kv_cache_group_id m) (_null_block m) (new_block_ids m) (req_to_blocks m)
    (num_cached_block m) (cached_blocks_this_step m) (last_state_block_idx m) (_allocated_block_reqs m) l t p.
End fields.

(** [self.req_to_blocks\[request_id\]] on a defaultdict: a missing key is inserted. *)
Definition blocks_of (rid : string) : MM (list loc) :=
  let* m := self in
  match req_to_blocks m !! rid with
  | Some bs => ret bs
  | None => with_mg (set_blocks (<[rid := []]> (req_to_blocks m))) ;;; ret []
  end.
(** In-place update of the list object under [rid]. *)
Definition store_blocks (rid : string) (bs : list loc) : MM unit :=
  with_mg (fun m => set_blocks (<[rid := bs]> (req_to_blocks m)) m).
(** [len(self.req_to_blocks.get(request_id, ()))] *)
Definition num_req_blocks (m : Manager) (rid : string) : Z := zlen (default [] (req_to_blocks m !! rid)).

(** [SingleTypeKVCacheManager.__init__] (the subclasses' own fields start out empty). The
    constructor of SinkFullAttentionManager also takes its sink blocks off the free queue. *)
Definition new_manager (k : Kind) (spec_bs : Z) (caching : bool) (max_adm : option Z) (tracks : bool)
    (gid dcp_world_size pcp_world_size : Z) (p : BlockPool) : Manager :=
  mkManager k
    (if 1 <? dcp_world_size * pcp_world_size
     then spec_bs * (dcp_world_size * pcp_world_size) else spec_bs)
    spec_bs
    caching max_adm tracks gid (null_block p) [] ∅ ∅ ∅ ∅ ∅ ∅ ∅ ∅.

Definition new_sink_manager (spec_bs : Z) (sink_len : option Z) (caching : bool)
    (gid dcp_world_size pcp_world_size : Z) : M BlockPool Manager :=
  let* p := get in
  let m := new_manager (SinkFullAttention []) spec_bs caching None false gid
             dcp_world_size pcp_world_size p in
  match sink_len with
  | None => raise AssertionError
  | Some n =>
    assert ((0 <? n) && (n mod block_size m =? 0)) ;;;
    let* sinks := onq (popleft_n (n / block_size m)) in
    ret (new_manager (SinkFullAttention sinks) spec_bs caching None false gid
           dcp_world_size pcp_world_size p)
  end.

(** ** Admission *)

(** _get_num_evictable_blocks *)
Definition _get_num_evictable_blocks (h : heap) (bs : list loc) : Z :=
  zlen (filter (fun l => (ref_of h l =? 0) && negb (null_of h l) = true) bs).

(** get_num_skipped_tokens, by subclass. *)
Definition get_num_skipped_tokens (k : Kind) (num_computed_tokens : Z) : Z :=
  match k with
  | SlidingWindow w => Z.max 0 (num_computed_tokens - w + 1)
  | ChunkedLocalAttention c => num_computed_tokens / c * c
  | Mamba _ _ => num_computed_tokens - 1
  | _ => 0
  end.

Definition base_get_num_blocks_to_allocate (rid : string) (num_tokens : Z) (new_computed_blocks : list loc)
    (total_computed_tokens : Z) : MM Z :=
  let* m := self in
  let* p := gets pool in
  let req := cdiv num_tokens (block_size m) in
  let num_required_blocks := match _max_admission_blocks_per_request m with
                             | Some c => Z.min req c
                             | None => req
                             end in
  let n := num_req_blocks m rid in
  match num_cached_block m !! rid with
  | Some _ =>
    assert (zlen new_computed_blocks =? 0) ;;;
    ret (Z.max (num_required_blocks - n) 0)
  | None =>
    let num_skipped_blocks := get_num_skipped_tokens (kind m) total_computed_tokens / block_size m in
    let num_local_computed_blocks := zlen new_computed_blocks + n in
    let num_new_blocks :=
      Z.max (num_required_blocks - Z.max num_skipped_blocks num_local_computed_blocks) 0 in
    let num_skipped_new_computed_blocks := Z.max 0 (num_skipped_blocks - n) in
    ret (num_new_blocks +
         _get_num_evictable_blocks (bheap p)
           (py_slice new_computed_blocks num_skipped_new_computed_blocks (zlen new_computed_blocks)))
  end.

(** The [block_hash] of the last new computed block is in [cached_blocks_this_step]. *)
Definition hit_this_step (m : Manager) (h : heap) (bs : list loc) : bool :=
  match last bs with
  | Some l => match hash_of h l with
              | Some k => bool_decide (k ∈ cached_blocks_this_step m)
              | None => false
              end
  | None => false
  end.

Definition get_num_blocks_to_allocate (rid : string) (num_tokens : Z) (new_computed_blocks : list loc)
    (total_computed_tokens num_tokens_main_model : Z) : MM Z :=
  let* m := self in
  match kind m with
  | Mamba align num_spec =>
    let* p := gets pool in
    if hit_this_step m (bheap p) new_computed_blocks then ret (num_gpu_blocks p + 1)
    else if negb align then
      base_get_num_blocks_to_allocate rid
        (if 0 <? num_spec then num_tokens + spec_block_size m * num_spec else num_tokens)
        new_computed_blocks total_computed_tokens
    else
      let num_required_blocks := cdiv num_tokens_main_model (block_size m) + num_spec in
      let* req_blocks := blocks_of rid in
      let num_new_blocks := num_required_blocks - zlen new_computed_blocks - zlen req_blocks in
      let num_new_blocks :=
        if 0 <? num_new_blocks
        then if decide (rid ∈ _allocated_block_reqs m) then 1 else 1 + num_spec
        else num_new_blocks in
      ret (num_new_blocks + _get_num_evictable_blocks (bheap p) new_computed_blocks)
  | NELSSA head_size tail_size =>
    if decide (rid ∈ long_requests m) then
      let head_blocks := cdiv head_size (block_size m) in
      let tail_blocks := default (cdiv tail_size (block_size m)) (nelssa_tail_blocks m !! rid) in
      let num_required := head_blocks + tail_blocks +
        cdiv (Z.max (num_tokens - total_computed_tokens) 0) (block_size m) in
      ret (Z.max (num_required - num_req_blocks m rid) 0)
    else base_get_num_blocks_to_allocate rid num_tokens new_computed_blocks total_computed_tokens
  | _ => base_get_num_blocks_to_allocate rid num_tokens new_computed_blocks total_computed_tokens
  end.

(** ** Allocation *)

(** [self.new_block_ids.extend(b.block_id for b in blocks)] for the tracked specs. *)
Definition record_new_ids (bs : list loc) : MM unit :=
  let* m := self in
  let* p := gets pool in
  if tracks_new_ids m
  then with_mg (set_new_ids (new_block_ids m ++ (id_of (bheap p) <$> bs)))
  else ret tt.

(** [self.num_cached_block\[request_id\] = n] *)
Definition store_num_cached (rid : string) (n : Z) : MM unit :=
  with_mg (fun m => set_cached (<[rid := n]> (num_cached_block m)) m).

(** Allocate [n] blocks and append them to [req_blocks], the list of [rid]. *)
Definition extend_new (rid : string) (req_blocks : list loc) (n : Z) : MM (list loc) :=
  let* new_blocks := on_pool (get_new_blocks n) in
  store_blocks rid (req_blocks ++ new_blocks) ;;;
  record_new_ids new_blocks ;;;
  ret new_blocks.

Definition base_allocate_new_computed_blocks (rid : string) (new_computed_blocks : list loc)
    (num_local_computed_tokens num_external_computed_tokens : Z) : MM unit :=
  let* m := self in
  match num_cached_block m !! rid with
  | Some _ => assert (zlen new_computed_blocks =? 0)
  | None =>
    let* req_blocks := blocks_of rid in
    assert (zlen req_blocks =? 0) ;;;
    let total := num_local_computed_tokens + num_external_computed_tokens in
    let num_skipped_tokens := get_num_skipped_tokens (kind m) total in
    let num_skipped_blocks := num_skipped_tokens / block_size m in
    let skip := 0 <? num_skipped_blocks in
    let computed := if skip then py_slice new_computed_blocks num_skipped_blocks (zlen new_computed_blocks)
                    else new_computed_blocks in
    let num_external := if skip then Z.min (total - num_skipped_tokens) num_external_computed_tokens
                        else num_external_computed_tokens in
    (if m_enable_caching m then on_pool (touch computed)
     else assert (match computed with [] => true | _ => false end)) ;;;
    let req_blocks := req_blocks ++ replicate (Z.to_nat num_skipped_blocks) (_null_block m) ++ computed in
    store_blocks rid req_blocks ;;;
    store_num_cached rid (zlen req_blocks) ;;;
    if 0 <? num_external then
      let* _ := extend_new rid req_blocks (cdiv total (block_size m) - zlen req_blocks) in ret tt
    else ret tt
  end.

Definition allocate_new_computed_blocks (rid : string) (new_computed_blocks : list loc)
    (num_local_computed_tokens num_external_computed_tokens : Z) : MM unit :=
  let* m := self in
  match kind m with
  | CrossAttention => assert (zlen new_computed_blocks =? 0)
  | _ => base_allocate_new_computed_blocks rid new_computed_blocks num_local_computed_tokens
           num_external_computed_tokens
  end.

Definition base_allocate_new_blocks (rid : string) (num_tokens : Z) : MM (list loc) :=
  let* req_blocks := blocks_of rid in
  let* m := self in
  let num_new_blocks := cdiv num_tokens (block_size m) - zlen req_blocks in
  if num_new_blocks <=? 0 then ret [] else extend_new rid req_blocks num_new_blocks.

(** The loop of MambaManager.allocate_new_blocks that moves the speculative blocks of the
    previous step to the end of the table. *)
Fixpoint reuse_spec_blocks (nul : loc) (num_skipped_blocks : Z) (idxs : list Z) (req_blocks : list loc)
    : res (list loc) :=
  match idxs with
  | [] => Ok req_blocks
  | i :: idxs' =>
    if i <? num_skipped_blocks then
      match py_index req_blocks i with
      | Err e => Err e
      | Ok b =>
        match py_set (req_blocks ++ [b]) i nul with
        | Err e => Err e
        | Ok bs => reuse_spec_blocks nul num_skipped_blocks idxs' bs
        end
      end
    else Ok req_blocks
  end.

Definition mamba_allocate_new_blocks (rid : string) (num_spec num_tokens_main_model : Z) : MM (list loc) :=
  let* m := self in
  let* req_blocks := blocks_of rid in
  let num_required_blocks := cdiv num_tokens_main_model (block_size m) + num_spec in
  if num_required_blocks =? zlen req_blocks then ret []
  else
    assert (zlen req_blocks <? num_required_blocks) ;;;
    let prev := zlen req_blocks in
    let allocated := bool_decide (rid ∈ _allocated_block_reqs m) in
    let set_last i := with_mg (fun m =>
      set_mamba (cached_blocks_this_step m) (<[rid := i]> (last_state_block_idx m)) (_allocated_block_reqs m) m) in
    (if allocated then set_last (prev - 1 - num_spec)
     else if 0 <? prev then set_last (prev - 1) else ret tt) ;;;
    let num_skipped_blocks := num_required_blocks - num_spec - 1 in
    let req1 := req_blocks ++ replicate (Z.to_nat (num_skipped_blocks - prev)) (_null_block m) in
    store_blocks rid req1 ;;;
    let* req2 := lift (if allocated
      then reuse_spec_blocks (_null_block m) num_skipped_blocks
             ((fun i => i + (prev - num_spec)) <$> range num_spec) req1
      else Ok req1) in
    store_blocks rid req2 ;;;
    let num_new_blocks := num_required_blocks - zlen req2 in
    assert (if allocated then num_new_blocks <=? 1 else num_new_blocks <=? num_spec + 1) ;;;
    let* new_blocks := on_pool (get_new_blocks num_new_blocks) in
    store_blocks rid (req2 ++ new_blocks) ;;;
    with_mg (fun m => set_mamba (cached_blocks_this_step m) (last_state_block_idx m)
                        ({[rid]} ∪ _allocated_block_reqs m) m) ;;;
    ret (py_slice (req2 ++ new_blocks) prev (zlen (req2 ++ new_blocks))).

Definition allocate_new_blocks (rid : string) (num_tokens num_tokens_main_model : Z) : MM (list loc) :=
  let* m := self in
  match kind m with
  | Mamba align num_spec =>
    if negb align then
      base_allocate_new_blocks rid
        (if 0 <? num_spec then num_tokens + block_size m * num_spec else num_tokens)
    else mamba_allocate_new_blocks rid num_spec num_tokens_main_model
  | _ => base_allocate_new_blocks rid num_tokens
  end.

(** take_new_block_ids *)
Definition take_new_block_ids : MM (list Z) :=
  let* m := self in with_mg (set_new_ids []) ;;; ret (new_block_ids m).

(** ** Caching and freeing *)

Section caching.
Context (sha256 : bytes -> bytes).

Definition base_cache_blocks (request : Request) (num_tokens : Z) : MM Request :=
  let* m := self in
  let rid := request_id request in
  let num_cached_blocks := default 0 (num_cached_block m !! rid) in
  let num_full_blocks := num_tokens / block_size m in
  if num_full_blocks <=? num_cached_blocks then ret request
  else
    let* bs := blocks_of rid in
    let* r := on_pool (cache_full_blocks sha256 request bs num_cached_blocks num_full_blocks
                         (block_size m) (kv_cache_group_id m)) in
    store_num_cached rid num_full_blocks ;;;
    ret r.

(** MambaManager.cache_blocks: the loop over the newly cached blocks. *)
Definition note_cached (l : loc) : MM unit :=
  let* b := on_pool (read l) in
  if is_null b then ret tt
  else match _block_hash b with
       | None => raise AssertionError
       | Some k => with_mg (fun m => set_mamba ({[k]} ∪ cached_blocks_this_step m)
                                       (last_state_block_idx m) (_allocated_block_reqs m) m)
       end.

Definition mamba_cache_blocks (request : Request) (num_tokens : Z) : MM Request :=
  let* m := self in
  let rid := request_id request in
  let before := default 0 (num_cached_block m !! rid) in
  let* r := base_cache_blocks request num_tokens in
  let* m := self in
  let after := default 0 (num_cached_block m !! rid) in
  if before <? after then
    let* bs := blocks_of rid in
    foreach (py_slice bs before after) note_cached ;;;
    ret r
  else ret r.

Definition cache_blocks (request : Request) (num_tokens : Z) : MM Request :=
  let* m := self in
  match kind m with
  | Mamba _ _ => mamba_cache_blocks request num_tokens
  | CrossAttention => raise ValueError
  | _ => base_cache_blocks request num_tokens
  end.
End caching.

(** free; MambaManager first forgets the request's allocation state (align mode). *)
Definition base_free (rid : string) : MM unit :=
  let* m := self in
  let req_blocks := default [] (req_to_blocks m !! rid) in
  with_mg (set_blocks (delete rid (req_to_blocks m))) ;;;
  on_pool (free_blocks (reverse req_blocks)) ;;;
  with_mg (fun m => set_cached (delete rid (num_cached_block m)) m).

Definition free (rid : string) : MM unit :=
  let* m := self in
  match kind m with
  | Mamba true _ =>
    with_mg (fun m => set_mamba (cached_blocks_this_step m) (delete rid (last_state_block_idx m))
                        (_allocated_block_reqs m ∖ {[rid]}) m) ;;;
    base_free rid
  | _ => base_free rid
  end.

(** The loop of remove_skipped_blocks from index [n - 1] down to 0: the removed blocks, in
    the order in which they are met, and the updated table. *)
Fixpoint null_out (nul : loc) (n : nat) (bs : list loc) : list loc * list loc :=
  match n with
  | O => ([], bs)
  | S i =>
    match bs !! i with
    | Some b => if decide (b = nul) then ([], bs)
                else let (removed, bs') := null_out nul i (<[i := nul]> bs) in (b :: removed, bs')
    | None => ([], bs)
    end
  end.

Definition base_remove_skipped_blocks (rid : string) (total_computed_tokens : Z) : MM unit :=
  let* m := self in
  let num_skipped_tokens := get_num_skipped_tokens (kind m) total_computed_tokens in
  if num_skipped_tokens <=? 0 then ret tt
  else
    let* bs := blocks_of rid in
    let num_skipped_blocks := Z.min (num_skipped_tokens / block_size m) (zlen bs) in
    let (removed, bs') := null_out (_null_block m) (Z.to_nat num_skipped_blocks) bs in
    store_blocks rid bs' ;;;
    on_pool (free_blocks removed).

Definition mamba_remove_skipped_blocks (rid : string) (align : bool) (num_spec num_computed_tokens : Z)
    : MM unit :=
  let num_computed_tokens := Z.max 0 (num_computed_tokens - num_spec) in
  base_remove_skipped_blocks rid num_computed_tokens ;;;
  let* m := self in
  if align then
    match last_state_block_idx m !! rid with
    | Some i =>
      if i <? cdiv num_computed_tokens (block_size m) - 1 then
        let* bs := blocks_of rid in
        let* b := lift (py_index bs i) in
        if decide (b = _null_block m) then ret tt
        else
          on_pool (free_blocks [b]) ;;;
          let* bs' := lift (py_set bs i (_null_block m)) in
          store_blocks rid bs'
      else ret tt
    | None => ret tt
    end
  else ret tt.

Definition remove_skipped_blocks (rid : string) (total_computed_tokens : Z) : MM unit :=
  let* m := self in
  match kind m with
  | Mamba align num_spec => mamba_remove_skipped_blocks rid align num_spec total_computed_tokens
  | _ => base_remove_skipped_blocks rid total_computed_tokens
  end.

(** FullAttentionManager.get_num_common_prefix_blocks; 0 for the types that override it. *)
Fixpoint count_common (h : heap) (n : Z) (bs : list loc) : Z :=
  match bs with
  | [] => 0
  | b :: bs' => if ref_of h b =? n then 1 + count_common h n bs' else 0
  end.
Definition get_num_common_prefix_blocks (rid : string) : MM Z :=
  let* m := self in
  match kind m with
  | FullAttention | SinkFullAttention _ | NELSSA _ _ =>
    let* bs := blocks_of rid in
    let* m := self in
    let* p := gets pool in
    ret (count_common (bheap p) (Z.of_nat (size (req_to_blocks m))) bs)
  | _ => ret 0
  end.

Definition new_step_starts : MM unit :=
  with_mg (fun m => match kind m with
    | Mamba _ _ => set_mamba ∅ (last_state_block_idx m) (_allocated_block_reqs m) m
    | _ => m
    end).

(** ** NELSSACacheManager *)

Definition _compute_tail_layout (bs tail_size prompt_len : Z) : Z * Z :=
  let tail_start_pos := Z.max (prompt_len - tail_size) 0 / bs * bs in
  let tail_tokens := Z.max (prompt_len - tail_start_pos) 0 in
  ((tail_tokens + bs - 1) / bs, tail_start_pos).

Definition mark_long_request (rid : string) (prompt_len : Z) : MM unit :=
  let* m := self in
  match kind m with
  | NELSSA _ tail_size =>
    let (tb, ts) := _compute_tail_layout (block_size m) tail_size prompt_len in
    with_mg (set_nelssa ({[rid]} ∪ long_requests m) (<[rid := tb]> (nelssa_tail_blocks m))
               (<[rid := ts]> (nelssa_tail_start_pos m)))
  | _ => ret tt  (* hasattr(mgr, 'mark_long_request') is false *)
  end.

(** The (index, block) pairs free_middle_blocks collects. *)
Definition middle_blocks (h : heap) (nul : loc) (first last : Z) (bs : list loc) : list (Z * loc) :=
  filter (fun x => negb (bool_decide (x.2 = nul)) && (0 <=? id_of h x.2) && (0 <? ref_of h x.2) = true)
    (omap (fun i => match py_index bs i with Ok b => Some (i, b) | Err _ => None end)
       ((fun i => i + first) <$> range (last - first))).

Definition free_middle_blocks (rid : string) : MM unit :=
  let* m := self in
  match kind m with
  | NELSSA head_size tail_size =>
    if negb (bool_decide (rid ∈ long_requests m)) then ret tt
    else
      match req_to_blocks m !! rid with
      | None => ret tt
      | Some bs =>
        let head_blocks := (head_size + block_size m - 1) / block_size m in
        let tail_blocks := default ((tail_size + block_size m - 1) / block_size m)
                             (nelssa_tail_blocks m !! rid) in
        let middle_end_idx := if 0 <? tail_blocks then zlen bs - tail_blocks else zlen bs in
        if 0 <? middle_end_idx - head_blocks then
          let* p := gets pool in
          let to_free := middle_blocks (bheap p) (_null_block m) head_blocks middle_end_idx bs in
          match to_free with
          | [] => ret tt
          | _ =>
            on_pool (free_blocks to_free.*2) ;;;
            store_blocks rid (foldl (fun l i => <[Z.to_nat i := _null_block m]> l) bs to_free.*1)
          end
        else ret tt
      end
  | _ => ret tt
  end.

Definition free_request_resources (rid : string) : MM unit :=
  with_mg (fun m => set_nelssa (long_requests m ∖ {[rid]}) (delete rid (nelssa_tail_blocks m))
                      (delete rid (nelssa_tail_start_pos m)) m).
