(* ===== verification/CacheHit.v ===== *)
(** * CacheHit
    The [find_longest_cache_hit] class methods of single_type_kv_cache_manager.py: the
    prefix-cache lookup of one attention type over a set of KV-cache groups. They only read
    the pool. A tuple of per-group lists is a list of lists. *)
From S2P Require Import Prelude OrdDict KVCacheBlock FreeQueue Request BlockHash BlockPool BlockPoolInv Managers.

(** The result monad (no state). *)
Definition rbind {A B} (m : res A) (k : A -> res B) : res B :=
  match m with Ok a => k a | Err e => Err e end.
Notation "'do' x '<-' m 'in' k" := (rbind m (fun x => k))
  (at level 200, x binder, m at level 100, k at level 200) : py_scope.
Definition rassert (b : bool) : res unit := if b then Ok tt else Err AssertionError.

(** [if cached := block_pool.get_cached_block(h, gids)]: a hit with a non-empty list. *)
Definition cached_hit (p : BlockPool) (h : bytes) (gids : list Z) : res (option (list loc)) :=
  do o <- get_cached_block (cached_block_hash_to_block p) h gids in
  Ok (match o with Some [] => None | _ => o end).

(** [for computed, cached in zip(computed_blocks, cached_block): computed.append(cached)] *)
Definition append_each (computed : list (list loc)) (cached : list loc) : list (list loc) :=
  zip_with (fun c b => c ++ [b]) computed cached.
(** [for computed in computed_blocks: computed.pop()] *)
Definition pop_each (computed : list (list loc)) : res (list (list loc)) :=
  if existsb (fun c => match c with [] => true | _ => false end) computed then Err IndexError
  else Ok ((fun c => take (length c - 1) c) <$> computed).
(** [computed_blocks\[0\]] *)
Definition first_group (computed : list (list loc)) : res (list loc) :=
  match computed with c :: _ => Ok c | [] => Err IndexError end.

(** [while block_size != alignment_tokens and len(computed_blocks\[0\]) * block_size %
    alignment_tokens != 0: pop]. An iteration shortens the first list, and an empty list ends
    the loop, so its length is enough fuel. *)
Fixpoint align_loop (fuel : nat) (bs alignment : Z) (computed : list (list loc)) : res (list (list loc)) :=
  if bs =? alignment then Ok computed
  else
    do c <- first_group computed in
    if zlen c * bs mod alignment =? 0 then Ok computed
    else match fuel with
         | O => Err OutOfFuel
         | S f => do computed' <- pop_each computed in align_loop f bs alignment computed'
         end.
Definition align_pop (bs alignment : Z) (computed : list (list loc)) : res (list (list loc)) :=
  align_loop (match computed with c :: _ => length c | [] => O end) bs alignment computed.

(** [if use_eagle and computed_blocks\[0\]: pop] *)
Definition eagle_pop (use_eagle : bool) (computed : list (list loc)) : res (list (list loc)) :=
  if use_eagle then
    do c <- first_group computed in
    match c with [] => Ok computed | _ => pop_each computed end
  else Ok computed.

Definition ctx_block_size (bs dcp pcp : Z) : Z := if 1 <? dcp * pcp then bs * (dcp * pcp) else bs.

(** ** FullAttentionManager *)

(** The loop over the first [max_num_blocks] hashes. *)
Fixpoint full_loop (p : BlockPool) (gids : list Z) (hs : list bytes) (computed : list (list loc))
    : res (list (list loc)) :=
  match hs with
  | [] => Ok computed
  | h :: hs' =>
    do o <- cached_hit p h gids in
    match o with
    | Some cached => full_loop p gids hs' (append_each computed cached)
    | None => Ok computed
    end
  end.

(** [spec_ok] is the outcome of [isinstance(kv_cache_spec, FullAttentionSpec |
    ChunkedLocalAttentionSpec)]. *)
Definition full_find (spec_ok : bool) (p : BlockPool) (block_hashes : BlockHashList) (max_length : Z) (gids : list Z)
    (spec_bs : Z) (use_eagle : bool) (alignment dcp pcp : Z) : res (list (list loc)) :=
  do _ <- rassert spec_ok in
  let bs := ctx_block_size spec_bs dcp pcp in
  let max_num_blocks := max_length / bs in
  if max_num_blocks <? 0 then Err ValueError  (* itertools.islice *)
  else
    do computed <- full_loop p gids (take (Z.to_nat max_num_blocks) (bh_list block_hashes))
                     (replicate (length gids) []) in
    do computed <- eagle_pop use_eagle computed in
    align_pop bs alignment computed.

(** ** SlidingWindowManager *)

Definition set_each (i : nat) (computed : list (list loc)) (cached : list loc) : list (list loc) :=
  zip_with (fun c b => <[i := b]> c) computed cached.

(** The right-to-left loop over the indices below [n]. Returns the blocks, the number of
    contiguous blocks and whether a match was found. *)
Fixpoint swa_loop (p : BlockPool) (block_hashes : BlockHashList) (gids : list Z) (bs alignment needed : Z)
    (use_eagle : bool) (n : nat) (contig : Z) (computed : list (list loc))
    : res (list (list loc) * Z * bool) :=
  match n with
  | O => Ok (computed, contig, false)
  | S i =>
    do h <- bh_index block_hashes (Z.of_nat i) in
    do o <- cached_hit p h gids in
    match o with
    | Some cached =>
      let post_pop_blocks := if use_eagle then Z.of_nat i else Z.of_nat i + 1 in
      if (contig =? 0) && negb (bs =? alignment) && negb (post_pop_blocks * bs mod alignment =? 0)
      then swa_loop p block_hashes gids bs alignment needed use_eagle i contig computed
      else
        let computed := set_each i computed cached in
        let contig := contig + 1 in
        if needed <=? contig
        then Ok (take (i + Z.to_nat contig) <$> computed, contig, true)
        else swa_loop p block_hashes gids bs alignment needed use_eagle i contig computed
    | None => swa_loop p block_hashes gids bs alignment needed use_eagle i 0 computed
    end
  end.

Definition swa_find (p : BlockPool) (block_hashes : BlockHashList) (max_length : Z) (gids : list Z)
    (spec_bs sliding_window : Z) (use_eagle : bool) (alignment dcp pcp : Z) : res (list (list loc)) :=
  do _ <- rassert (dcp =? 1) in
  do _ <- rassert (pcp =? 1) in
  let needed := cdiv (sliding_window - 1) spec_bs + (if use_eagle then 1 else 0) in
  let max_num_blocks := Z.to_nat (max_length / spec_bs) in
  do r <- swa_loop p block_hashes gids spec_bs alignment needed use_eagle max_num_blocks 0
            (replicate (length gids) (replicate max_num_blocks (null_block p))) in
  let '(computed, contig, match_found) := r in
  do computed <- (if match_found then Ok computed
                  else align_pop spec_bs alignment (take (Z.to_nat contig) <$> computed)) in
  if use_eagle then
    do c <- first_group computed in
    match c with
    | [] => Ok computed
    | _ => do computed <- pop_each computed in align_pop spec_bs alignment computed
    end
  else Ok computed.

(** ** ChunkedLocalAttentionManager *)

Fixpoint chunked_loop (p : BlockPool) (block_hashes : BlockHashList) (gids : list Z) (idxs : list Z)
    (computed : list (list loc)) : res (list (list loc)) :=
  match idxs with
  | [] => Ok computed
  | i :: idxs' =>
    do h <- bh_index block_hashes i in
    do o <- cached_hit p h gids in
    match o with
    | Some cached => chunked_loop p block_hashes gids idxs' (append_each computed cached)
    | None => Ok computed
    end
  end.

Definition chunked_find (p : BlockPool) (block_hashes : BlockHashList) (max_length : Z) (gids : list Z)
    (spec_bs chunk : Z) (use_eagle : bool) (alignment dcp pcp : Z) : res (list (list loc)) :=
  do _ <- rassert (negb use_eagle) in
  do _ <- rassert (dcp =? 1) in
  do _ <- rassert (pcp =? 1) in
  do _ <- rassert (spec_bs =? alignment) in
  let max_num_blocks := max_length / spec_bs in
  let start_idx := if 0 <? max_length then max_length / chunk * chunk else 0 in
  let start_block := start_idx / spec_bs in
  chunked_loop p block_hashes gids
    ((fun i => i + start_block) <$> range (max_num_blocks - start_block))
    (replicate (length gids) (replicate (Z.to_nat start_block) (null_block p))).

(** ** MambaManager *)

Fixpoint mamba_loop (p : BlockPool) (block_hashes : BlockHashList) (gids : list Z) (bs alignment : Z)
    (n : nat) (computed : list (list loc)) : res (list (list loc)) :=
  match n with
  | O => Ok computed
  | S i =>
    do h <- bh_index block_hashes (Z.of_nat i) in
    do o <- cached_hit p h gids in
    match o with
    | Some cached =>
      if negb (bs =? alignment) && negb ((Z.of_nat i + 1) * bs mod alignment =? 0)
      then mamba_loop p block_hashes gids bs alignment i computed
      else Ok (zip_with (fun c b => c ++ replicate i (null_block p) ++ [b]) computed cached)
    | None => mamba_loop p block_hashes gids bs alignment i computed
    end
  end.

Definition mamba_find (p : BlockPool) (block_hashes : BlockHashList) (max_length : Z) (gids : list Z)
    (spec_bs alignment dcp pcp : Z) : res (list (list loc)) :=
  do _ <- rassert (dcp =? 1) in
  do _ <- rassert (pcp =? 1) in
  mamba_loop p block_hashes gids spec_bs alignment (Z.to_nat (max_length / spec_bs))
    (replicate (length gids) []).

(** ** Dispatch
    The other classes assert their own spec class, which is the one they are built for; the
    managers with the lookup of full attention are built for other specs too. *)
Definition find_longest_cache_hit (spec_ok : bool) (k : Kind) (p : BlockPool) (block_hashes : BlockHashList) (max_length : Z)
    (gids : list Z) (spec_bs : Z) (use_eagle : bool) (alignment dcp pcp : Z) : res (list (list loc)) :=
  match k with
  | FullAttention | SinkFullAttention _ | NELSSA _ _ =>
    full_find spec_ok p block_hashes max_length gids spec_bs use_eagle alignment dcp pcp
  | SlidingWindow w => swa_find p block_hashes max_length gids spec_bs w use_eagle alignment dcp pcp
  | ChunkedLocalAttention c => chunked_find p block_hashes max_length gids spec_bs c use_eagle alignment dcp pcp
  | Mamba _ _ => mamba_find p block_hashes max_length gids spec_bs alignment dcp pcp
  | CrossAttention => Err NotImplementedError
  end.

(** ** Rows and columns
    The loops work on per-group columns; the specifications on rows: one row per block
    index, with one block per group. *)

Definition columns (g : nat) (rows : list (list loc)) : list (list loc) :=
  (fun j => (fun r => default 0%nat (r !! j)) <$> rows) <$> seq 0 g.

Section columns.
Context (g : nat).
Implicit Types (rows : list (list loc)) (r : list loc).

Lemma columns_lookup rows j :
  columns g rows !! j = if decide (j < g)%nat then Some ((fun r => default 0%nat (r !! j)) <$> rows) else None.
Proof.
  unfold columns. rewrite list_lookup_fmap. case_decide.
  - by rewrite lookup_seq_lt.
  - by rewrite lookup_seq_ge by lia.
Qed.

Lemma length_columns rows : length (columns g rows) = g.
Proof. unfold columns. by rewrite length_fmap, length_seq. Qed.

Lemma columns_nil : columns g [] = replicate g [].
Proof.
  apply list_eq. intros j. rewrite columns_lookup. case_decide; symmetry.
  - by apply lookup_replicate_2.
  - apply lookup_replicate_None. lia.
Qed.

Lemma columns_repeat (x : loc) n : columns g (replicate n (replicate g x)) = replicate g (replicate n x).
Proof.
  apply list_eq. intros j. rewrite columns_lookup. case_decide as Hj; symmetry.
  - rewrite lookup_replicate_2 by done. f_equal. by rewrite fmap_replicate, lookup_replicate_2.
  - apply lookup_replicate_None. lia.
Qed.

(** Mapping the columns of row-wise operations. *)
Lemma columns_fmap (f : forall A, list A -> list A) rows :
  (forall A B (k : A -> B) l, f B (k <$> l) = k <$> f A l) ->
  f loc <$> columns g rows = columns g (f (list loc) rows).
Proof.
  intros Hf. apply list_eq. intros j. rewrite list_lookup_fmap, !columns_lookup.
  case_decide; simpl; [by rewrite Hf | done].
Qed.

Lemma columns_zip (f : forall A, list A -> A -> list A) rows r :
  (forall A B (k : A -> B) l x, f B (k <$> l) (k x) = k <$> f A l x) -> length r = g ->
  zip_with (f loc) (columns g rows) r = columns g (f (list loc) rows r).
Proof.
  intros Hf Hr. apply list_eq. intros j. rewrite lookup_zip_with, !columns_lookup.
  case_decide as Hj; simpl; [| done].
  destruct (lookup_lt_is_Some_2 r j) as [b Hb]; [lia |]. rewrite Hb. simpl. rewrite <- Hf. by rewrite Hb.
Qed.

Lemma append_each_columns rows r :
  length r = g -> append_each (columns g rows) r = columns g (rows ++ [r]).
Proof.
  intros Hr. apply (columns_zip (fun A l x => l ++ [x])); [| done]. intros. by rewrite fmap_app.
Qed.
Lemma set_each_columns i rows r :
  length r = g -> set_each i (columns g rows) r = columns g (<[i := r]> rows).
Proof.
  intros Hr. pose proof (columns_zip (fun A (l : list A) (x : A) => <[i := x]> l) rows r) as H.
  apply H; [| done]. intros. by rewrite list_fmap_insert.
Qed.
Lemma take_columns n rows : take n <$> columns g rows = columns g (take n rows).
Proof. apply (columns_fmap (fun A l => take n l)). intros. by rewrite fmap_take. Qed.

Lemma first_group_columns rows : (0 < g)%nat -> exists c, first_group (columns g rows) = Ok c /\ length c = length rows.
Proof.
  intros Hg. destruct g as [|g']; [lia |]. unfold columns. simpl. eexists. split; [done |]. apply length_fmap.
Qed.

Lemma pop_each_columns rows : rows <> [] -> pop_each (columns g rows) = Ok (columns g (take (length rows - 1) rows)).
Proof.
  intros Hr. unfold pop_each. assert (existsb (fun c => match c with [] => true | _ => false end) (columns g rows) = false) as ->.
  { apply not_true_iff_false. rewrite existsb_exists. intros (c & Hc & E).
    destruct c; [| done]. apply list_elem_of_In in Hc. unfold columns in Hc.
    apply list_elem_of_fmap in Hc as (j & Hc & _). symmetry in Hc. apply fmap_nil_inv in Hc. done. }
  f_equal. transitivity (take (length rows - 1) <$> columns g rows).
  - apply list_fmap_ext. intros j c Hc. rewrite columns_lookup in Hc. case_decide; [| done].
    injection Hc as <-. by rewrite length_fmap.
  - apply take_columns.
Qed.
End columns.

(** ** Alignment *)

Definition aligned (bs a : Z) (n : nat) : bool := (bs =? a) || (Z.of_nat n * bs mod a =? 0).

(** The largest aligned number of blocks up to [n]. *)
Fixpoint align_down (bs a : Z) (n : nat) : nat :=
  match n with
  | O => O
  | S n' => if aligned bs a n then n else align_down bs a n'
  end.

Lemma aligned_0 bs a : aligned bs a 0 = true.
Proof. unfold aligned. rewrite Z.mul_0_l, Zmod_0_l. by rewrite orb_true_r. Qed.

Lemma align_down_spec bs a n :
  (align_down bs a n <= n)%nat /\ aligned bs a (align_down bs a n) = true /\
  forall k, (align_down bs a n < k <= n)%nat -> aligned bs a k = false.
Proof.
  induction n as [|n (IH1 & IH2 & IH3)]; simpl.
  - split_and!; [done | apply aligned_0 | lia].
  - destruct (aligned bs a (S n)) eqn:E.
    + split_and!; [done | done | lia].
    + split_and!; [lia | done |]. intros k Hk. destruct (decide (k = S n)) as [-> | ]; [done |]. apply IH3. lia.
Qed.

Lemma align_down_fix bs a n : aligned bs a n = true -> align_down bs a n = n.
Proof. destruct n; simpl; [done |]. by intros ->. Qed.

Lemma align_loop_columns g bs a fuel : forall rows,
  (0 < g)%nat -> length rows = fuel ->
  align_loop fuel bs a (columns g rows) = Ok (columns g (take (align_down bs a (length rows)) rows)).
Proof.
  induction fuel as [|f IH]; intros rows Hg Hlen; simpl; rewrite Hlen; unfold rbind;
    destruct (first_group_columns g rows Hg) as (c & Hc & Hcl).
  - apply nil_length_inv in Hlen as ->. simpl. rewrite Hc. unfold zlen. rewrite Hcl. simpl.
    by destruct (bs =? a).
  - destruct (aligned bs a (S f)) eqn:Ha; unfold aligned in Ha.
    + rewrite align_down_fix by done. rewrite take_ge by lia.
      destruct (bs =? a); [done |]. simpl in Ha. rewrite Hc. unfold zlen. rewrite Hcl, Hlen.
      rewrite Ha. done.
    + apply orb_false_iff in Ha as [Ha1 Ha2]. rewrite Ha1, Hc. unfold zlen. rewrite Hcl, Hlen, Ha2.
      rewrite pop_each_columns by (by destruct rows). simpl. unfold aligned. rewrite Ha1, Ha2. simpl.
      rewrite Hlen, IH; rewrite ?length_take, ?Hlen; [| lia ..].
      rewrite take_take. f_equal. f_equal. replace (S f - 1)%nat with f by lia.
      destruct (align_down_spec bs a f) as [? _]. replace (f `min` S f)%nat with f by lia. f_equal. lia.
Qed.

Lemma align_pop_columns g bs a rows :
  (0 < g)%nat -> align_pop bs a (columns g rows) = Ok (columns g (take (align_down bs a (length rows)) rows)).
Proof.
  intros Hg. unfold align_pop. destruct (first_group_columns g rows Hg) as (c & Hc & Hcl).
  destruct (columns g rows) as [|c0 cs] eqn:E; [done |]. injection Hc as ->. rewrite Hcl, <- E.
  by apply align_loop_columns.
Qed.

Lemma eagle_pop_columns g rows (e : bool) :
  (0 < g)%nat ->
  eagle_pop e (columns g rows) = Ok (columns g (take (length rows - if e then 1 else 0) rows)).
Proof.
  intros Hg. unfold eagle_pop. destruct e; [| by rewrite Nat.sub_0_r, firstn_all].
  destruct (first_group_columns g rows Hg) as (c & Hc & Hcl). unfold rbind. rewrite Hc.
  destruct c; [by destruct rows |]. apply pop_each_columns. by destruct rows.
Qed.

(** ** Lookup of one row *)

Definition row (p : BlockPool) (gids : list Z) (h : bytes) : option (list loc) :=
  match cached_hit p h gids with Ok o => o | Err _ => None end.
Definition is_hit (p : BlockPool) (gids : list Z) (h : bytes) : bool := bool_decide (is_Some (row p gids h)).

(** Number of leading hashes that hit. *)
Fixpoint hit_len (p : BlockPool) (gids : list Z) (hs : list bytes) : nat :=
  match hs with
  | [] => O
  | h :: hs' => if is_hit p gids h then S (hit_len p gids hs') else O
  end.

Section lookup.
Context (p : BlockPool) (L : list loc) (Hc : pool_core p L).
Context (gids : list Z) (Hg : forall g, g ∈ gids -> 0 <= g < 2 ^ 32) (Hne : gids <> []).

(** Lookups never fail; a hit gives one block per group, each of them cached under the
    hash for its group; without a hit some group has no such block. *)
Lemma row_spec h :
  cached_hit p h gids = Ok (row p gids h) /\
  match row p gids h with
  | Some r => Forall2 (fun g b => cached_under p h g b /\ b <> null_block p) gids r
  | None => exists g, g ∈ gids /\ forall b, ~ cached_under p h g b
  end.
Proof.
  unfold row, cached_hit, rbind.
  destruct (get_cached_block_spec p L h gids Hc Hg) as (o & -> & Ho).
  split; [done |]. destruct o as [[|b bs]|]; try done.
  inversion Ho; congruence.
Qed.

Lemma row_length h r : row p gids h = Some r -> length r = length gids.
Proof.
  intros E. destruct (row_spec h) as [_ Hs]. rewrite E in Hs. symmetry. by eapply Forall2_length.
Qed.

Lemma gids_pos : (0 < length gids)%nat.
Proof. destruct gids; [done | simpl; lia]. Qed.

(** The rows of a list of hashes that all hit. *)
Definition rows_of (hs : list bytes) : list (list loc) := omap (row p gids) hs.

Lemma rows_of_length hs : Forall (fun h => is_hit p gids h = true) hs -> length (rows_of hs) = length hs.
Proof.
  induction 1 as [|h hs Hh _ IH]; [done |]. unfold is_hit in Hh. apply bool_decide_eq_true in Hh as [r Hr].
  unfold rows_of in *. simpl. rewrite Hr. simpl. f_equal. exact IH.
Qed.

Lemma hit_len_Forall hs : Forall (fun h => is_hit p gids h = true) (take (hit_len p gids hs) hs).
Proof. induction hs as [|h hs IH]; simpl; [constructor |]. destruct (is_hit p gids h) eqn:E; [by constructor | constructor]. Qed.

Lemma hit_len_le hs : (hit_len p gids hs <= length hs)%nat.
Proof. induction hs as [|h hs IH]; simpl; [done |]. destruct (is_hit p gids h); lia. Qed.

(** The hash after the last leading hit misses. *)
Lemma hit_len_stop hs h : hs !! hit_len p gids hs = Some h -> is_hit p gids h = false.
Proof.
  induction hs as [|h' hs IH]; simpl; [done |]. destruct (is_hit p gids h') eqn:E; simpl; [done |]. congruence.
Qed.

Lemma full_loop_spec hs : forall rows,
  full_loop p gids hs (columns (length gids) rows) =
  Ok (columns (length gids) (rows ++ rows_of (take (hit_len p gids hs) hs))).
Proof.
  induction hs as [|h hs IH]; intros rows; simpl; [by rewrite app_nil_r |].
  destruct (row_spec h) as [-> _]. unfold rbind, is_hit. destruct (row p gids h) as [r|] eqn:E; simpl.
  - rewrite append_each_columns by (by eapply row_length). rewrite IH.
    unfold rows_of. simpl. rewrite E. by rewrite <- app_assoc.
  - by rewrite app_nil_r.
Qed.

Lemma rows_of_take n hs : Forall (fun h => is_hit p gids h = true) hs -> take n (rows_of hs) = rows_of (take n hs).
Proof.
  intros H. revert n. induction H as [|h hs Hh _ IH]; intros [|n]; try done.
  unfold is_hit in Hh. apply bool_decide_eq_true in Hh as [r Hr].
  unfold rows_of in *. simpl. rewrite Hr. simpl. f_equal. apply IH.
Qed.

(** FullAttentionManager.find_longest_cache_hit in closed form. *)
Definition full_hit_blocks (bs alignment : Z) (use_eagle : bool) (hs : list bytes) : nat :=
  align_down bs alignment (hit_len p gids hs - if use_eagle then 1 else 0).

Lemma full_find_eq bhs max_length spec_bs use_eagle alignment dcp pcp :
  let bs := ctx_block_size spec_bs dcp pcp in
  0 <= max_length / bs ->
  let hs := take (Z.to_nat (max_length / bs)) (bh_list bhs) in
  full_find true p bhs max_length gids spec_bs use_eagle alignment dcp pcp =
  Ok (columns (length gids) (rows_of (take (full_hit_blocks bs alignment use_eagle hs) hs))).
Proof.
  intros bs Hmax hs. unfold full_find, rassert, rbind at 1. fold bs. rewrite (proj2 (Z.ltb_ge _ _)) by done. fold hs.
  rewrite <- columns_nil, full_loop_spec. simpl. pose proof gids_pos as Hp.
  pose proof (hit_len_Forall hs) as Hall. pose proof (hit_len_le hs) as Hle.
  rewrite eagle_pop_columns by done. simpl. rewrite align_pop_columns by done. do 2 f_equal.
  set (m := (length (rows_of (take (hit_len p gids hs) hs)) - (if use_eagle then 1 else 0))%nat).
  rewrite length_take, rows_of_length by done. rewrite length_take.
  replace (hit_len p gids hs `min` length hs)%nat with (hit_len p gids hs) by lia.
  assert (m = (hit_len p gids hs - (if use_eagle then 1 else 0))%nat) as ->.
  { unfold m. rewrite rows_of_length by done. rewrite length_take. f_equal. lia. }
  rewrite take_take, rows_of_take by done. rewrite take_take. unfold full_hit_blocks. f_equal.
  destruct (align_down_spec bs alignment (hit_len p gids hs - (if use_eagle then 1 else 0))) as [? _].
  replace ((hit_len p gids hs - (if use_eagle then 1 else 0)) `min` hit_len p gids hs)%nat
    with (hit_len p gids hs - (if use_eagle then 1 else 0))%nat by lia.
  f_equal. lia.
Qed.

(** *** Sliding window *)

Context (bhs : BlockHashList).

Definition hit_at (i : nat) : bool :=
  match bh_list bhs !! i with Some h => is_hit p gids h | None => false end.
Definition row_at (i : nat) : list loc :=
  default [] (bh_list bhs !! i ≫= row p gids).

Lemma bh_index_lookup i h : bh_list bhs !! i = Some h -> bh_index bhs (Z.of_nat i) = Ok h.
Proof.
  destruct bhs as [hs|b]; simpl; [apply py_index_nat |]. rewrite list_lookup_fmap.
  destruct (range _ !! i) as [j|] eqn:E; [| done]. unfold range in E. apply lookup_seqZ in E as [-> _].
  intros [= <-]. done.
Qed.

(** The lookup at index [i] as the loops perform it. *)
Lemma lookup_at i : (i < length (bh_list bhs))%nat ->
  exists h, bh_index bhs (Z.of_nat i) = Ok h /\
    cached_hit p h gids = Ok (if hit_at i then Some (row_at i) else None) /\
    (hit_at i = true -> length (row_at i) = length gids).
Proof.
  intros [h Hh]%lookup_lt_is_Some_2. exists h. split; [by apply bh_index_lookup |].
  unfold hit_at, row_at. rewrite Hh. simpl. destruct (row_spec h) as [-> _]. unfold is_hit.
  destruct (row p gids h) as [r|] eqn:E; simpl; (split; [done |]).
  - intros _. by eapply row_length.
  - done.
Qed.

(** A hit of [n] blocks is usable when its end is aligned and the last [W] blocks (or all,
    when there are fewer) are cached. *)
Definition swa_end_ok (bs a : Z) (use_eagle : bool) (n : nat) : bool :=
  aligned bs a (if use_eagle then (n - 1)%nat else n).
Definition swa_ok (bs a : Z) (use_eagle : bool) (W n : nat) : Prop :=
  swa_end_ok bs a use_eagle n = true /\ forall j, (n <= j + W)%nat -> (j < n)%nat -> hit_at j = true.

(** The rows of such a hit: null blocks before the window. *)
Definition swa_rows (W n : nat) : list (list loc) :=
  (fun i => if decide (n <= i + W)%nat then row_at i else replicate (length gids) (null_block p)) <$> seq 0 n.

Lemma swa_rows_intro W n rows :
  length rows = n ->
  (forall i, (i < n)%nat -> rows !! i = Some (if decide (n <= i + W)%nat then row_at i
                                               else replicate (length gids) (null_block p))) ->
  rows = swa_rows W n.
Proof.
  intros Hl Hr. apply list_eq. intros i. unfold swa_rows. rewrite list_lookup_fmap.
  destruct (decide (i < n)%nat) as [Hi | Hi].
  - rewrite lookup_seq_lt by done. simpl. by apply Hr.
  - rewrite lookup_seq_ge by lia. apply lookup_ge_None. lia.
Qed.

Section swa_loop.
Context (bs a needed : Z) (use_eagle : bool) (mx : nat) (Hmx : (mx <= length (bh_list bhs))%nat).
#[local] Notation W := (Z.to_nat (Z.max 1 needed)).
#[local] Notation ok := (swa_ok bs a use_eagle W).

(** State of the loop before index [n - 1] is examined, in a run of [c] hits. *)
Record swa_inv (n c : nat) (rows : list (list loc)) : Prop := {
  si_len : length rows = mx;
  si_c : (c < W)%nat;
  si_bound : (n + c <= mx)%nat;
  si_low : forall i, (i < n)%nat -> rows !! i = Some (replicate (length gids) (null_block p));
  si_run : forall i, (n <= i < n + c)%nat -> hit_at i = true /\ rows !! i = Some (row_at i);
  si_al : (0 < c)%nat -> swa_end_ok bs a use_eagle (n + c) = true;
  si_max : forall e, (n + c < e <= mx)%nat -> ~ ok e;
}.

Lemma swa_inv_skip n rows : swa_inv (S n) 0 rows -> swa_end_ok bs a use_eagle (S n) = false -> swa_inv n 0 rows.
Proof.
  intros [] Hal. split; try done; try lia.
  - intros i Hi. apply si_low0. lia.
  - intros e He. destruct (decide (e = S n)) as [-> | ?]; [intros [? _]; congruence |]. apply si_max0. lia.
Qed.

Lemma swa_inv_miss n c rows : swa_inv (S n) c rows -> hit_at n = false -> swa_inv n 0 rows.
Proof.
  intros [] Hm. split; try done; try lia.
  - intros i Hi. apply si_low0. lia.
  - intros e He. destruct (decide (e <= S n + c)%nat) as [Hle | ?]; [| apply si_max0; lia].
    intros [_ Hw]. rewrite (Hw n) in Hm by lia. done.
Qed.

Lemma swa_inv_hit n c rows :
  swa_inv (S n) c rows -> hit_at n = true -> ((0 < c)%nat \/ swa_end_ok bs a use_eagle (S n) = true) ->
  (S c < W)%nat -> swa_inv n (S c) (<[n := row_at n]> rows).
Proof.
  intros [] Hh Hal Hc'. split; try lia.
  - by rewrite length_insert.
  - intros i Hi. rewrite list_lookup_insert_ne by lia. apply si_low0. lia.
  - intros i Hi. destruct (decide (i = n)) as [-> | ?].
    + split; [done |]. apply list_lookup_insert_eq. lia.
    + rewrite list_lookup_insert_ne by lia. apply si_run0. lia.
  - intros _. rewrite Nat.add_succ_r. destruct Hal as [Hpos | Hal]; [by apply si_al0 |].
    destruct c; [by rewrite Nat.add_0_r | apply si_al0; lia].
  - intros e He. apply si_max0. lia.
Qed.

(** The run reaches the required length. *)
Lemma swa_inv_found n c rows :
  swa_inv (S n) c rows -> hit_at n = true -> ((0 < c)%nat \/ swa_end_ok bs a use_eagle (S n) = true) ->
  S c = W -> ok (n + S c) /\ take (n + S c) (<[n := row_at n]> rows) = swa_rows W (n + S c).
Proof.
  intros [] Hh Hal HW. split.
  - split.
    + rewrite Nat.add_succ_r. destruct Hal as [Hpos | Hal]; [by apply si_al0 |].
      destruct c; [by rewrite Nat.add_0_r | apply si_al0; lia].
    + intros j Hj1 Hj2. destruct (decide (j = n)) as [-> | ?]; [done |]. apply si_run0. lia.
  - apply swa_rows_intro; [rewrite length_take, length_insert; lia |].
    intros i Hi. rewrite lookup_take_lt by lia. destruct (decide (i = n)) as [-> | Hin].
    + rewrite list_lookup_insert_eq by lia. by rewrite decide_True by lia.
    + rewrite list_lookup_insert_ne by lia. destruct (decide (n < i)%nat).
      * rewrite decide_True by lia. apply si_run0. lia.
      * rewrite decide_False by lia. apply si_low0. lia.
Qed.

Lemma swa_loop_spec n : forall c rows,
  swa_inv n c rows ->
  exists e rows' c' found,
    swa_loop p bhs gids bs a needed use_eagle n (Z.of_nat c) (columns (length gids) rows)
      = Ok (columns (length gids) rows', c', found) /\
    (e <= mx)%nat /\ ok e /\ (forall e', (e < e' <= mx)%nat -> ~ ok e') /\
    (if found : bool then rows' = swa_rows W e /\ (W <= e)%nat
     else c' = Z.of_nat e /\ (e < W)%nat /\ take e rows' = swa_rows W e).
Proof.
  induction n as [|n IH]; intros c rows Hinv; simpl.
  - exists c, rows, (Z.of_nat c), false. destruct Hinv. split_and!; try done; try lia.
    + split; [| intros j ? ?; apply si_run0; lia]. destruct c; [| apply si_al0; lia].
      unfold swa_end_ok. destruct use_eagle; apply aligned_0.
    + apply swa_rows_intro; [rewrite length_take; lia |]. intros i Hi. rewrite lookup_take_lt by lia.
      rewrite decide_True by lia. apply si_run0. lia.
  - destruct (lookup_at n) as (h & Hix & Hrow & Hlen); [destruct Hinv; lia |].
    unfold rbind. rewrite Hix, Hrow. destruct (hit_at n) eqn:Hh; [| by apply (IH 0%nat), (swa_inv_miss n c)].
    match goal with |- context [if ?g then swa_loop _ _ _ _ _ _ _ _ _ _ else _] => destruct g eqn:Eg end.
    + apply andb_true_iff in Eg as [Eg Ea2]. apply andb_true_iff in Eg as [Ec Ea1].
      assert (c = 0%nat) as -> by (apply Z.eqb_eq in Ec; lia).
      apply (IH 0%nat), swa_inv_skip; [done |]. unfold swa_end_ok, aligned. apply negb_true_iff in Ea1, Ea2.
      rewrite Ea1. destruct use_eagle; simpl; [rewrite Nat.sub_0_r; done |].
      rewrite <- Ea2. do 3 f_equal. lia.
    + assert (Hal : (0 < c)%nat \/ swa_end_ok bs a use_eagle (S n) = true).
      { destruct c; [right | left; lia]. simpl in Eg. unfold swa_end_ok, aligned.
        destruct (bs =? a); [done |]. simpl in *. apply negb_false_iff in Eg. rewrite <- Eg.
        destruct use_eagle; [by rewrite Nat.sub_0_r | do 3 f_equal; lia]. }
      rewrite set_each_columns by auto. replace (Z.of_nat c + 1) with (Z.of_nat (S c)) by lia.
      pose proof (si_c _ _ _ Hinv) as HcW. destruct (Z.leb_spec needed (Z.of_nat (S c))) as [Hnd | Hnd].
      * assert (HW : S c = W) by (lia).
        destruct (swa_inv_found n c rows Hinv Hh Hal HW) as [Hok Hrows].
        exists (n + S c)%nat, (swa_rows W (n + S c)), (Z.of_nat (S c)), true.
        rewrite Nat2Z.id, take_columns, Hrows. destruct Hinv.
        split_and!; [done | lia | done | | done | lia]. intros e' He'. apply si_max0. lia.
      * apply (IH (S c)), swa_inv_hit; [done | done | done |]. lia.
Qed.
End swa_loop.

Lemma length_swa_rows W n : length (swa_rows W n) = n.
Proof. unfold swa_rows. by rewrite length_fmap, length_seq. Qed.

(** SlidingWindowManager.find_longest_cache_hit returns the longest usable hit (without its
    last block for EAGLE). *)
Lemma swa_find_spec max_length bs w (use_eagle : bool) alignment :
  let mx := Z.to_nat (max_length / bs) in
  let W := Z.to_nat (Z.max 1 (cdiv (w - 1) bs + if use_eagle then 1 else 0)) in
  (mx <= length (bh_list bhs))%nat -> use_eagle = false \/ bs = alignment ->
  exists n, (n <= mx)%nat /\ swa_ok bs alignment use_eagle W n /\
    (forall n', (n < n' <= mx)%nat -> ~ swa_ok bs alignment use_eagle W n') /\
    swa_find p bhs max_length gids bs w use_eagle alignment 1 1 =
    Ok (columns (length gids) (take (n - if use_eagle then 1 else 0) (swa_rows W n))).
Proof.
  intros mx W Hmx Hcase. pose proof gids_pos as Hp.
  destruct (swa_loop_spec bs alignment (cdiv (w - 1) bs + if use_eagle then 1 else 0) use_eagle mx Hmx mx 0
              (replicate mx (replicate (length gids) (null_block p))))
    as (n & rows' & c' & found & Hrun & Hle & Hok & Hmax & Hres).
  { split; try lia.
    - apply length_replicate.
    - intros i Hi. by apply lookup_replicate_2. }
  fold W in Hok, Hmax, Hres. exists n. split_and!; [done | done | done |].
  unfold swa_find, rbind, rassert. change (1 =? 1) with true. cbv iota. fold mx.
  rewrite columns_repeat in Hrun. change (Z.of_nat 0) with 0 in Hrun. rewrite Hrun.
  assert (Hdown : align_down bs alignment n = n).
  { apply align_down_fix. destruct Hok as [Hal _]. unfold swa_end_ok in Hal. destruct Hcase as [-> | ->]; [done |].
    unfold aligned. by rewrite Z.eqb_refl. }
  assert (Hrows : (if found then Ok (columns (length gids) rows')
     else align_pop bs alignment (take (Z.to_nat c') <$> columns (length gids) rows'))
     = Ok (columns (length gids) (swa_rows W n))).
  { destruct found; [by destruct Hres as [-> _] |]. destruct Hres as (-> & _ & Hr).
    rewrite Nat2Z.id, take_columns, Hr, align_pop_columns by done. do 2 f_equal.
    rewrite length_swa_rows, Hdown. apply take_ge. by rewrite length_swa_rows. }
  rewrite Hrows. destruct use_eagle; [| rewrite Nat.sub_0_r, take_ge; [done | by rewrite length_swa_rows]].
  destruct Hcase as [? | <-]; [done |].
  destruct (first_group_columns (length gids) (swa_rows W n) Hp) as (c & Hcol & Hlen). rewrite Hcol.
  rewrite length_swa_rows in Hlen. destruct c as [|x c].
  - destruct n; [done | simpl in Hlen; lia].
  - rewrite pop_each_columns, length_swa_rows by (destruct n; done).
    rewrite align_pop_columns by done. do 2 f_equal. apply take_ge.
    rewrite length_take, length_swa_rows, align_down_fix; [lia |]. unfold aligned. by rewrite Z.eqb_refl.
Qed.

(** *** Chunked local attention *)

Lemma chunked_loop_spec n : forall s rows,
  (s + n <= length (bh_list bhs))%nat ->
  exists k, (k <= n)%nat /\ (forall i, (s <= i < s + k)%nat -> hit_at i = true) /\
    ((k < n)%nat -> hit_at (s + k) = false) /\
    chunked_loop p bhs gids (Z.of_nat <$> seq s n) (columns (length gids) rows) =
    Ok (columns (length gids) (rows ++ (row_at <$> seq s k))).
Proof.
  induction n as [|n IH]; intros s rows Hn; simpl.
  { exists 0%nat. split_and!; [done | lia | lia | by rewrite app_nil_r]. }
  destruct (lookup_at s) as (h & Hix & Hrow & Hlen); [lia |]. unfold rbind. rewrite Hix, Hrow.
  destruct (hit_at s) eqn:Hh.
  - rewrite append_each_columns by auto.
    destruct (IH (S s) (rows ++ [row_at s])) as (k & Hk & Hhit & Hmiss & Hrun); [lia |].
    exists (S k). split_and!; [lia | | |].
    + intros i Hi. destruct (decide (i = s)) as [-> | ?]; [done |]. apply Hhit. lia.
    + intros Hlt. rewrite Nat.add_succ_r. apply Hmiss. lia.
    + rewrite <- app_assoc in Hrun. exact Hrun.
  - exists 0%nat. split_and!; [lia | lia | by rewrite Nat.add_0_r | by rewrite app_nil_r].
Qed.

(** ChunkedLocalAttentionManager.find_longest_cache_hit: everything before the current chunk
    counts as computed (null blocks), then the leading hits inside the chunk. *)
Lemma chunked_find_spec max_length bs chunk :
  0 < bs -> 0 < chunk -> 0 < max_length ->
  let s := Z.to_nat (max_length / chunk * chunk / bs) in
  let mx := Z.to_nat (max_length / bs) in
  (mx <= length (bh_list bhs))%nat ->
  exists k, (s + k <= mx)%nat /\ (forall i, (s <= i < s + k)%nat -> hit_at i = true) /\
    ((s + k < mx)%nat -> hit_at (s + k) = false) /\
    chunked_find p bhs max_length gids bs chunk false bs 1 1 =
    Ok (columns (length gids) (replicate s (replicate (length gids) (null_block p)) ++ (row_at <$> seq s k))).
Proof.
  intros Hbs Hch Hml s mx Hmx.
  assert (Hq : 0 <= max_length / chunk * chunk <= max_length).
  { pose proof (Z.div_mod max_length chunk ltac:(lia)). pose proof (Z.mod_pos_bound max_length chunk Hch).
    pose proof (Z.div_pos max_length chunk). nia. }
  assert (Hs0 : 0 <= max_length / chunk * chunk / bs <= max_length / bs).
  { split; [apply Z.div_pos; lia | apply Z.div_le_mono; lia]. }
  destruct (chunked_loop_spec (mx - s) s (replicate s (replicate (length gids) (null_block p))))
    as (k & Hk & Hhit & Hmiss & Hrun); [unfold mx, s in *; lia |].
  exists k. split_and!; [unfold mx, s in *; lia | done | intros; apply Hmiss; lia |].
  unfold chunked_find, rbind, rassert. change (1 =? 1) with true. rewrite Z.eqb_refl. simpl.
  rewrite (proj2 (Z.ltb_lt _ _)) by done. rewrite columns_repeat in Hrun. fold s. rewrite <- Hrun. f_equal.
  apply list_eq. intros i. rewrite !list_lookup_fmap. unfold range.
  destruct (decide (i < mx - s)%nat) as [Hi | Hi].
  - rewrite lookup_seqZ_lt, lookup_seq_lt by (unfold mx, s in *; lia). simpl. f_equal. unfold s in *. lia.
  - rewrite lookup_seqZ_ge, lookup_seq_ge by (unfold mx, s in *; lia). done.
Qed.

(** *** Mamba *)

Lemma mamba_row_columns n r :
  length r = length gids ->
  zip_with (fun c b => c ++ replicate n (null_block p) ++ [b]) (columns (length gids) []) r =
  columns (length gids) (replicate n (replicate (length gids) (null_block p)) ++ [r]).
Proof.
  intros Hr. apply list_eq. intros j. rewrite lookup_zip_with, !columns_lookup. case_decide as Hj; [| done].
  destruct (lookup_lt_is_Some_2 r j) as [b Hb]; [lia |]. simpl. rewrite Hb. simpl. f_equal.
  rewrite fmap_app, fmap_replicate, lookup_replicate_2 by done. simpl. by rewrite Hb.
Qed.

(** The last aligned cached state below [n] blocks. *)
Lemma mamba_loop_spec bs a n :
  (n <= length (bh_list bhs))%nat ->
  (exists i, (i < n)%nat /\ hit_at i = true /\ aligned bs a (S i) = true /\
     (forall j, (i < j < n)%nat -> hit_at j && aligned bs a (S j) = false) /\
     mamba_loop p bhs gids bs a n (columns (length gids) []) =
     Ok (columns (length gids) (replicate i (replicate (length gids) (null_block p)) ++ [row_at i]))) \/
  ((forall j, (j < n)%nat -> hit_at j && aligned bs a (S j) = false) /\
   mamba_loop p bhs gids bs a n (columns (length gids) []) = Ok (columns (length gids) [])).
Proof.
  induction n as [|n IH]; intros Hn; simpl; [right; split; [lia | done] |].
  destruct (lookup_at n) as (h & Hix & Hrow & Hlen); [lia |]. unfold rbind. rewrite Hix, Hrow.
  assert (Hal : negb (bs =? a) && negb ((Z.of_nat n + 1) * bs mod a =? 0) = negb (aligned bs a (S n))).
  { unfold aligned. rewrite negb_orb. do 4 f_equal. do 2 f_equal. lia. }
  destruct (hit_at n && aligned bs a (S n)) eqn:E.
  - apply andb_true_iff in E as [E1 E2]. rewrite E1, Hal, E2. simpl. left. exists n.
    split_and!; [lia | done | done | lia |]. f_equal.
    apply mamba_row_columns. auto.
  - assert (Hskip : (match (if hit_at n then Some (row_at n) else None) with
      | Some cached =>
        if negb (bs =? a) && negb ((Z.of_nat n + 1) * bs mod a =? 0)
        then mamba_loop p bhs gids bs a n (columns (length gids) [])
        else Ok (zip_with (fun c b => c ++ replicate n (null_block p) ++ [b]) (columns (length gids) []) cached)
      | None => mamba_loop p bhs gids bs a n (columns (length gids) [])
      end) = mamba_loop p bhs gids bs a n (columns (length gids) [])).
    { rewrite Hal. destruct (hit_at n); [| done]. simpl in E. by rewrite E. }
    rewrite Hskip. destruct IH as [(i & Hi & Hh & Ha & Hm & Hrun) | (Hm & Hrun)]; [lia | |].
    + left. exists i. split_and!; [lia | done | done | | done].
      intros j Hj. destruct (decide (j = n)) as [-> | ?]; [done |]. apply Hm. lia.
    + right. split; [| done]. intros j Hj. destruct (decide (j = n)) as [-> | ?]; [done |]. apply Hm. lia.
Qed.

(** ** Usable hits
    [n] rows are a usable hit for an attention type that skips [skip t] of the first [t]
    tokens: every row is a cached row or all null, and the rows holding a token that the
    next query attends to are cached. *)
Definition null_row : list loc := replicate (length gids) (null_block p).
Definition row_ok (i : nat) (r : list loc) : Prop := r = null_row \/ (hit_at i = true /\ r = row_at i).
Definition usable (skip : Z -> Z) (bs : Z) (rows : list (list loc)) : Prop :=
  (forall i r, rows !! i = Some r -> row_ok i r) /\
  (forall j, (j < length rows)%nat -> skip (zlen rows * bs) < (Z.of_nat j + 1) * bs ->
     hit_at j = true /\ rows !! j = Some (row_at j)).
End lookup.

(** What a lookup promises to the coordinator. [pre bs use_eagle alignment] is what it
    requires of its arguments. *)
Abbreviation finder := (BlockPool -> BlockHashList -> Z -> list Z -> Z -> bool -> Z -> res (list (list loc))).

Class HitFinder (find : finder) (skip : Z -> Z) (pre : Z -> bool -> Z -> Prop) : Prop :=
  find_sound : forall p L gids bhs max_length bs use_eagle alignment,
    pool_core p L -> (forall g, g ∈ gids -> 0 <= g < 2 ^ 32) -> gids <> [] ->
    0 < bs -> 0 <= max_length -> max_length / bs <= zlen (bh_list bhs) -> pre bs use_eagle alignment ->
    exists rows, find p bhs max_length gids bs use_eagle alignment = Ok (columns (length gids) rows) /\
      zlen rows * bs <= max_length /\ aligned bs alignment (length rows) = true /\
      (use_eagle = true -> rows = [] \/ (zlen rows + 1) * bs <= max_length) /\
      usable p gids bhs skip bs rows.

Definition find_of (k : Kind) : finder := fun p bhs max_length gids bs use_eagle alignment =>
  find_longest_cache_hit true k p bhs max_length gids bs use_eagle alignment 1 1.
