(* ===== verification/HitFinder.v ===== *)
(** * HitFinder
    Every attention type's [find_longest_cache_hit] satisfies the interface [HitFinder] the
    coordinator relies on: it is total, returns an aligned hit within the requested length,
    and the blocks the next query attends to are cached under the request's hashes. *)
From S2P Require Import Prelude OrdDict KVCacheBlock FreeQueue Request BlockHash BlockPool BlockPoolInv Managers CacheHit.

Section instances.
Context (p : BlockPool) (L : list loc) (Hcore : pool_core p L).
Context (gids : list Z) (Hgid : forall g, g ∈ gids -> 0 <= g < 2 ^ 32) (Hne : gids <> []).
Context (bhs : BlockHashList).

(** ** Full attention *)

Lemma rows_of_lookup hs i h :
  Forall (fun h => is_hit p gids h = true) hs -> hs !! i = Some h -> rows_of p gids hs !! i = row p gids h.
Proof.
  intros Hall. revert i. induction Hall as [|h' hs Hh _ IH]; intros i; [done |].
  unfold is_hit in Hh. apply bool_decide_eq_true in Hh as [r Hr]. unfold rows_of in *. simpl. rewrite Hr.
  destruct i as [|i]; simpl; [by intros [= <-] | apply IH].
Qed.

Lemma full_sound_rows max_length bs use_eagle alignment :
  0 < bs -> 0 <= max_length -> max_length / bs <= zlen (bh_list bhs) ->
  exists rows, full_find true p bhs max_length gids bs use_eagle alignment 1 1 = Ok (columns (length gids) rows) /\
    zlen rows * bs <= max_length /\ aligned bs alignment (length rows) = true /\
    (use_eagle = true -> rows = [] \/ (zlen rows + 1) * bs <= max_length) /\
    (forall j, (j < length rows)%nat -> hit_at p gids bhs j = true /\ rows !! j = Some (row_at p gids bhs j)).
Proof.
  intros Hbs Hml Hmx. pose proof (Z.div_pos max_length bs Hml Hbs) as Hq.
  rewrite (full_find_eq p L Hcore gids Hgid Hne bhs max_length bs use_eagle alignment 1 1 Hq).
  change (ctx_block_size bs 1 1) with bs. set (hs := take (Z.to_nat (max_length / bs)) (bh_list bhs)).
  set (n := full_hit_blocks p gids bs alignment use_eagle hs).
  pose proof (hit_len_le p gids hs) as Hle. pose proof (hit_len_Forall p gids hs) as Hall.
  destruct (align_down_spec bs alignment (hit_len p gids hs - (if use_eagle then 1 else 0))) as (Hn & Hal & _).
  fold (full_hit_blocks p gids bs alignment use_eagle hs) in Hn, Hal. fold n in Hn, Hal.
  assert (Hlh : (length hs <= Z.to_nat (max_length / bs))%nat) by (unfold hs; rewrite length_take; lia).
  assert (Htk : Forall (fun h => is_hit p gids h = true) (take n hs)).
  { replace n with (n `min` hit_len p gids hs)%nat by lia. rewrite <- take_take. by apply Forall_take. }
  assert (Hlen : length (rows_of p gids (take n hs)) = n).
  { rewrite rows_of_length by done. rewrite length_take. lia. }
  exists (rows_of p gids (take n hs)). unfold zlen. rewrite Hlen.
  assert (Hmul : forall k, (k <= Z.to_nat (max_length / bs))%nat -> Z.of_nat k * bs <= max_length).
  { intros k Hk. pose proof (Z.mul_div_le max_length bs Hbs). nia. }
  split_and!; [done | apply Hmul; lia | done | |].
  - intros ->. destruct n as [|n'] eqn:En; [left; by apply nil_length_inv | right].
    specialize (Hmul (S (S n'))). lia.
  - intros j Hj. destruct (lookup_lt_is_Some_2 (take n hs) j) as [h Hh]; [rewrite length_take; lia |].
    pose proof (rows_of_lookup _ _ _ Htk Hh) as Hr.
    assert (Hhb : bh_list bhs !! j = Some h).
    { apply lookup_take_Some in Hh as [Hh _]. unfold hs in Hh. by apply lookup_take_Some in Hh as [Hh _]. }
    assert (Hhit : is_hit p gids h = true) by (by eapply Forall_lookup_1 in Htk).
    unfold hit_at, row_at. rewrite Hhb. simpl. split; [done |]. unfold is_hit in Hhit.
    apply bool_decide_eq_true in Hhit as [r Hrow]. by rewrite Hr, Hrow.
Qed.

(** ** Sliding window *)

(** A prefix of the rows of a run is usable when the run covers the window or starts at 0. *)
Lemma swa_prefix_usable bs w W e n :
  0 < bs -> (n <= e)%nat ->
  (forall j, (e <= j + W)%nat -> (j < e)%nat -> hit_at p gids bhs j = true) ->
  (e <= W)%nat \/ Z.of_nat e + cdiv (w - 1) bs <= Z.of_nat n + Z.of_nat W ->
  usable p gids bhs (get_num_skipped_tokens (SlidingWindow w)) bs (take n (swa_rows p gids bhs W e)).
Proof.
  intros Hbs Hn Hhit Hcase.
  assert (Hlen : length (take n (swa_rows p gids bhs W e)) = n) by (rewrite length_take, length_swa_rows; lia).
  assert (Hlk : forall i, (i < n)%nat -> take n (swa_rows p gids bhs W e) !! i =
    Some (if decide (e <= i + W)%nat then row_at p gids bhs i else null_row p gids)).
  { intros i Hi. rewrite lookup_take_lt by done. unfold swa_rows. rewrite list_lookup_fmap, lookup_seq_lt by lia. done. }
  split.
  - intros i r Hr. assert (Hi : (i < n)%nat) by (apply lookup_lt_Some in Hr; lia).
    rewrite Hlk in Hr by done. injection Hr as <-. case_decide; [right; split; [apply Hhit; lia | done] | by left].
  - rewrite Hlen. unfold zlen. rewrite Hlen. intros j Hj Hsk.
    assert (Hw : (e <= j + W)%nat).
    { destruct Hcase as [? | Hcov]; [lia |]. simpl in Hsk. pose proof (cdiv_bounds (w - 1) bs Hbs). nia. }
    rewrite Hlk, decide_True by lia. split; [apply Hhit; lia | done].
Qed.

(** The alignment after a loop that found no complete window. *)
Lemma swa_first_alignment bs alignment use_eagle W e c' (found : bool) rows' :
  swa_end_ok bs alignment use_eagle e = true ->
  (if found then rows' = swa_rows p gids bhs W e /\ (W <= e)%nat
   else c' = Z.of_nat e /\ (e < W)%nat /\ take e rows' = swa_rows p gids bhs W e) ->
  exists d, (d <= e)%nat /\ (found = true -> d = e) /\ (use_eagle = false -> aligned bs alignment d = true) /\
    (if found then Ok (columns (length gids) rows')
     else align_pop bs alignment (take (Z.to_nat c') <$> columns (length gids) rows'))
    = Ok (columns (length gids) (take d (swa_rows p gids bhs W e))).
Proof.
  intros Hok Hres. pose proof (gids_pos gids Hgid Hne) as Hp. destruct found.
  - destruct Hres as [-> _]. exists e. split_and!; [done | done | | rewrite take_ge; [done | by rewrite length_swa_rows]].
    intros ->. apply Hok.
  - destruct Hres as (-> & _ & Hr). exists (align_down bs alignment e).
    destruct (align_down_spec bs alignment e) as (? & ? & _). split_and!; [done | done | done |].
    rewrite Nat2Z.id, take_columns, Hr, align_pop_columns by done. by rewrite length_swa_rows.
Qed.

Lemma swa_sound_rows max_length bs w use_eagle alignment :
  0 < bs -> 0 <= max_length -> max_length / bs <= zlen (bh_list bhs) ->
  exists rows, swa_find p bhs max_length gids bs w use_eagle alignment 1 1 = Ok (columns (length gids) rows) /\
    zlen rows * bs <= max_length /\ aligned bs alignment (length rows) = true /\
    (use_eagle = true -> rows = [] \/ (zlen rows + 1) * bs <= max_length) /\
    usable p gids bhs (get_num_skipped_tokens (SlidingWindow w)) bs rows.
Proof.
  intros Hbs Hml Hmx. pose proof (gids_pos gids Hgid Hne) as Hp.
  set (mx := Z.to_nat (max_length / bs)). set (needed := cdiv (w - 1) bs + if use_eagle then 1 else 0).
  pose proof (Z.div_pos max_length bs Hml Hbs) as Hq.
  destruct (swa_loop_spec p L Hcore gids Hgid Hne bhs bs alignment needed use_eagle mx
              ltac:(unfold mx, zlen in *; lia) mx 0
              (replicate mx (replicate (length gids) (null_block p))))
    as (e & rows' & c' & found & Hrun & Hle & Hok & _ & Hres).
  { split; try lia.
    - apply length_replicate.
    - intros i Hi. by apply lookup_replicate_2. }
  set (W := Z.to_nat (Z.max 1 needed)) in *.
  assert (Hmul : forall k, (k <= mx)%nat -> Z.of_nat k * bs <= max_length).
  { intros k Hk. pose proof (Z.mul_div_le max_length bs Hbs). unfold mx in *. nia. }
  unfold swa_find, rbind, rassert. change (1 =? 1) with true. cbv iota. fold mx needed.
  rewrite columns_repeat in Hrun. change (Z.of_nat 0) with 0 in Hrun. rewrite Hrun.
  (* the blocks after the first alignment *)
  destruct (swa_first_alignment bs alignment use_eagle W e c' found rows' (proj1 Hok) Hres) as (d & Hde & Hfd & Hda & ->).
  assert (Hcov : (e <= W)%nat \/ found = true).
  { destruct found; [by right | left; destruct Hres as (_ & ? & _); lia]. }
  pose proof (proj2 Hok) as Hhit.
  assert (HW : cdiv (w - 1) bs + (if use_eagle then 1 else 0) <= Z.of_nat W) by (unfold W, needed; lia).
  assert (Hld : length (take d (swa_rows p gids bhs W e)) = d) by (rewrite length_take, length_swa_rows; lia).
  destruct use_eagle; cycle 1.
  { exists (take d (swa_rows p gids bhs W e)). unfold zlen. rewrite Hld.
    split_and!; [done | apply Hmul; lia | by apply Hda | done |].
    apply swa_prefix_usable; [done | done | done |]. destruct Hcov as [? | ->]; [by left | right; rewrite Hfd by done; lia]. }
  destruct (first_group_columns (length gids) (take d (swa_rows p gids bhs W e)) Hp) as (c & -> & Hlen).
  rewrite Hld in Hlen. destruct c as [|x c].
  - exists (take d (swa_rows p gids bhs W e)). destruct d; [| done]. split_and!; [done | done | apply aligned_0 | by left |].
    split; intros; simpl in *; [done | lia].
  - destruct d as [|d]; [done |].
    rewrite pop_each_columns by (by intros E; rewrite E in Hld). rewrite Hld, take_take, align_pop_columns by done.
    replace ((S d - 1) `min` S d)%nat with d by lia.
    rewrite length_take, length_swa_rows. replace (d `min` e)%nat with d by lia. rewrite take_take.
    destruct (align_down_spec bs alignment d) as (Hdd & Hal & _).
    set (n := align_down bs alignment d) in *. replace (n `min` d)%nat with n by lia.
    assert (Hln : length (take n (swa_rows p gids bhs W e)) = n) by (rewrite length_take, length_swa_rows; lia).
    exists (take n (swa_rows p gids bhs W e)). unfold zlen. rewrite Hln. split_and!; [done | apply Hmul; lia | done | |].
    + intros _. right. specialize (Hmul (S n)). lia.
    + apply swa_prefix_usable; [done | lia | done |]. destruct Hcov as [? | Hf]; [by left | right].
      assert (n = d); [| specialize (Hfd Hf); lia].
      apply align_down_fix. destruct Hok as [Hal' _]. unfold swa_end_ok in Hal'.
      rewrite <- (Hfd Hf) in Hal'. by replace (S d - 1)%nat with d in Hal' by lia.
Qed.

(** ** Chunked local attention *)

Lemma null_then_rows s k i :
  (replicate s (null_row p gids) ++ (row_at p gids bhs <$> seq s k)) !! i =
  if decide (i < s)%nat then Some (null_row p gids)
  else if decide (i < s + k)%nat then Some (row_at p gids bhs i) else None.
Proof.
  destruct (decide (i < s)%nat) as [Hi | Hi].
  - rewrite lookup_app_l by (rewrite length_replicate; lia). by apply lookup_replicate_2.
  - rewrite lookup_app_r by (rewrite length_replicate; lia). rewrite length_replicate, list_lookup_fmap.
    case_decide.
    + rewrite lookup_seq_lt by lia. simpl. do 2 f_equal. lia.
    + rewrite lookup_seq_ge by lia. done.
Qed.

(** Rounding down to a chunk boundary, for a length inside the same chunk. *)
Lemma same_chunk chunk t m : 0 < chunk -> m / chunk * chunk <= t <= m -> t / chunk = m / chunk.
Proof.
  intros Hc Ht. pose proof (Z.div_mod m chunk ltac:(lia)). pose proof (Z.mod_pos_bound m chunk Hc).
  symmetry. apply Z.div_unique with (r := t - m / chunk * chunk). left. lia. lia.
Qed.

Lemma chunked_sound_rows max_length bs chunk :
  0 < bs -> 0 < chunk -> chunk mod bs = 0 -> 0 <= max_length -> max_length / bs <= zlen (bh_list bhs) ->
  exists rows, chunked_find p bhs max_length gids bs chunk false bs 1 1 = Ok (columns (length gids) rows) /\
    zlen rows * bs <= max_length /\
    usable p gids bhs (get_num_skipped_tokens (ChunkedLocalAttention chunk)) bs rows.
Proof.
  intros Hbs Hch Hdiv Hml Hmx. destruct (Z.eq_dec max_length 0) as [-> | Hnz].
  { exists []. split_and!; [| done | split; intros; simpl in *; [done | lia]].
    unfold chunked_find, rbind, rassert. change (1 =? 1) with true. rewrite Z.eqb_refl. simpl.
    by rewrite columns_nil. }
  assert (Hpos : 0 < max_length) by lia. pose proof (Z.div_pos max_length bs Hml Hbs) as Hq.
  destruct (chunked_find_spec p L Hcore gids Hgid Hne bhs max_length bs chunk Hbs Hch Hpos)
    as (k & Hk & Hhit & _ & Hrun); [unfold zlen in Hmx; lia |].
  set (s := Z.to_nat (max_length / chunk * chunk / bs)) in *. fold (null_row p gids) in Hrun.
  set (rows := replicate s (null_row p gids) ++ (row_at p gids bhs <$> seq s k)) in *.
  assert (Hlen : zlen rows = Z.of_nat (s + k)).
  { unfold zlen, rows. rewrite length_app, length_replicate, length_fmap, length_seq. done. }
  assert (Hstart : Z.of_nat s * bs = max_length / chunk * chunk).
  { apply Z.div_exact in Hdiv; [| lia]. pose proof (Z.div_pos max_length chunk).
    unfold s. rewrite Z2Nat.id by (apply Z.div_pos; [| lia]; nia).
    rewrite Hdiv. replace (max_length / (bs * (chunk / bs)) * (bs * (chunk / bs)))
      with (max_length / (bs * (chunk / bs)) * (chunk / bs) * bs) by lia. by rewrite Z.div_mul by lia. }
  assert (Hmax : Z.of_nat (s + k) * bs <= max_length).
  { pose proof (Z.mul_div_le max_length bs Hbs). nia. }
  exists rows. split_and!; [done | by rewrite Hlen |]. split.
  - intros i r. unfold rows. rewrite null_then_rows. case_decide; [intros [= <-]; by left |].
    case_decide; [| done]. intros [= <-]. right. split; [apply Hhit; lia | done].
  - rewrite Hlen. intros j Hj. unfold rows. rewrite null_then_rows. simpl.
    rewrite (same_chunk chunk _ max_length) by (done || nia). intros Hsk.
    unfold zlen in Hlen. rewrite decide_False by nia. rewrite decide_True by lia. split; [apply Hhit; nia | done].
Qed.

(** ** Mamba *)

Lemma mamba_sound_rows max_length bs alignment :
  0 < bs -> 0 <= max_length -> max_length / bs <= zlen (bh_list bhs) ->
  exists rows, mamba_find p bhs max_length gids bs alignment 1 1 = Ok (columns (length gids) rows) /\
    zlen rows * bs <= max_length /\ aligned bs alignment (length rows) = true /\
    usable p gids bhs (fun t => t - 1) bs rows.
Proof.
  intros Hbs Hml Hmx. pose proof (Z.div_pos max_length bs Hml Hbs) as Hq.
  unfold mamba_find, rbind, rassert. change (1 =? 1) with true. cbv iota. rewrite <- columns_nil.
  destruct (mamba_loop_spec p L Hcore gids Hgid Hne bhs bs alignment (Z.to_nat (max_length / bs)))
    as [(i & Hi & Hh & Ha & _ & Hrun) | (_ & Hrun)]; [unfold zlen in Hmx; lia | |]; rewrite Hrun.
  - fold (null_row p gids). set (rows := replicate i (null_row p gids) ++ [row_at p gids bhs i]).
    assert (Hlk : forall j, rows !! j = (replicate i (null_row p gids) ++ (row_at p gids bhs <$> seq i 1)) !! j) by done.
    assert (Hlen : length rows = S i) by (unfold rows; rewrite length_app, length_replicate; simpl; lia).
    exists rows. unfold zlen. rewrite Hlen. split_and!; [done | | done |].
    + pose proof (Z.mul_div_le max_length bs Hbs). nia.
    + split.
      * intros j r. rewrite Hlk, null_then_rows. case_decide; [intros [= <-]; by left |].
        case_decide; [| done]. intros [= <-]. right. replace j with i by lia. done.
      * unfold zlen. rewrite Hlen. intros j Hj Hsk. rewrite Hlk, null_then_rows.
        assert (j = i) as -> by nia. rewrite decide_False, decide_True by lia. done.
  - exists []. split_and!; [done | done | apply aligned_0 | split; intros; simpl in *; [done | lia]].
Qed.
End instances.

(** ** The instances *)

(** What each lookup requires: chunked local attention works with one block size, which
    divides the chunk, and without EAGLE; the sliding window needs no EAGLE restriction. *)
Definition find_pre (k : Kind) (bs : Z) (use_eagle : bool) (alignment : Z) : Prop :=
  match k with
  | ChunkedLocalAttention c => use_eagle = false /\ bs = alignment /\ 0 < c /\ c mod bs = 0
  | Mamba _ _ => use_eagle = false
  | CrossAttention => False
  | _ => True
  end.

Lemma full_like_finder k :
  (forall t, get_num_skipped_tokens k t = 0) -> (forall p bhs ml gids bs e a,
     find_of k p bhs ml gids bs e a = full_find true p bhs ml gids bs e a 1 1) ->
  HitFinder (find_of k) (get_num_skipped_tokens k) (find_pre k).
Proof.
  intros Hsk Hf p L gids bhs ml bs e a Hc Hg Hne Hbs Hml Hmx _. rewrite Hf.
  destruct (full_sound_rows p L Hc gids Hg Hne bhs ml bs e a Hbs Hml Hmx) as (rows & ? & ? & ? & ? & Hr).
  exists rows. split_and!; try done. split.
  - intros i r Hi. destruct (Hr i) as [Hh Hri]; [by eapply lookup_lt_Some |]. right. split; [done | congruence].
  - intros j Hj _. by apply Hr.
Qed.

#[export] Instance full_attention_finder :
  HitFinder (find_of FullAttention) (get_num_skipped_tokens FullAttention) (find_pre FullAttention).
Proof. by apply full_like_finder. Qed.
#[export] Instance sink_finder sinks :
  HitFinder (find_of (SinkFullAttention sinks)) (get_num_skipped_tokens (SinkFullAttention sinks))
    (find_pre (SinkFullAttention sinks)).
Proof. by apply full_like_finder. Qed.
#[export] Instance nelssa_finder h t :
  HitFinder (find_of (NELSSA h t)) (get_num_skipped_tokens (NELSSA h t)) (find_pre (NELSSA h t)).
Proof. by apply full_like_finder. Qed.
#[export] Instance sliding_window_finder w :
  HitFinder (find_of (SlidingWindow w)) (get_num_skipped_tokens (SlidingWindow w)) (find_pre (SlidingWindow w)).
Proof.
  intros p L gids bhs ml bs e a Hc Hg Hne Hbs Hml Hmx _. by apply (swa_sound_rows p L).
Qed.
#[export] Instance chunked_finder c :
  HitFinder (find_of (ChunkedLocalAttention c)) (get_num_skipped_tokens (ChunkedLocalAttention c))
    (find_pre (ChunkedLocalAttention c)).
Proof.
  intros p L gids bhs ml bs e a Hc Hg Hne Hbs Hml Hmx (-> & <- & Hcp & Hdiv).
  destruct (chunked_sound_rows p L Hc gids Hg Hne bhs ml bs c Hbs Hcp Hdiv Hml Hmx) as (rows & ? & ? & ?).
  exists rows. split_and!; try done. unfold aligned. by rewrite Z.eqb_refl.
Qed.
#[export] Instance mamba_finder al n :
  HitFinder (find_of (Mamba al n)) (get_num_skipped_tokens (Mamba al n)) (find_pre (Mamba al n)).
Proof.
  intros p L gids bhs ml bs e a Hc Hg Hne Hbs Hml Hmx He. simpl in He. subst e.
  destruct (mamba_sound_rows p L Hc gids Hg Hne bhs ml bs a Hbs Hml Hmx) as (rows & ? & ? & ? & ?).
  exists rows. by split_and!.
Qed.

(** One instance for every type that supports prefix caching. *)
Lemma finder_of_kind k : HitFinder (find_of k) (get_num_skipped_tokens k) (find_pre k).
Proof.
  destruct k; try apply _. intros ? ? ? ? ? ? ? ? _ _ _ _ _ _ [].
Qed.
