(* ===== verification/Coordinator.v ===== *)
(** * Coordinator
    vllm/v1/core/kv_cache_coordinator.py: one manager per KV-cache group over a shared block
    pool. The three coordinator classes differ in how they look up prefix-cache hits; the
    other operations call every manager in turn. *)
From S2P Require Import Prelude OrdDict KVCacheBlock FreeQueue Request BlockHash BlockPool Managers CacheHit.

(** ** KV-cache specs and groups (vllm/v1/kv_cache_interface.py) *)

(** The spec classes, with the parameters the managers read. *)
Inductive SpecClass :=
  | FullAttentionSpec
  | TQFullAttentionSpec
  | MLAAttentionSpec
  | SlidingWindowSpec (sliding_window : Z)
  | SlidingWindowMLASpec (sliding_window : Z)
  | ChunkedLocalAttentionSpec (attention_chunk_size : Z)
  | MambaSpec (align : bool) (num_speculative_blocks : Z)
  | CrossAttentionSpec
  | SinkFullAttentionSpec (sink_len : option Z).

#[export] Instance SpecClass_eq_dec : EqDecision SpecClass.
Proof. solve_decision. Defined.

(** A spec: its class, its block size, and its remaining fields (head sizes, data type, ...),
    which the modelled code only compares for equality. *)
Record KVCacheSpec := mkSpec { spec_class : SpecClass; s_block_size : Z; spec_rest : Z }.

#[export] Instance KVCacheSpec_eq_dec : EqDecision KVCacheSpec.
Proof. solve_decision. Defined.

(** [isinstance(spec, FullAttentionSpec)] *)
Definition is_full_spec (s : KVCacheSpec) : bool :=
  match spec_class s with
  | FullAttentionSpec | TQFullAttentionSpec | MLAAttentionSpec | SinkFullAttentionSpec _ => true
  | _ => false
  end.

(** [isinstance(spec, FullAttentionSpec | ChunkedLocalAttentionSpec)] *)
Definition full_or_chunked (s : KVCacheSpec) : bool :=
  is_full_spec s || match spec_class s with ChunkedLocalAttentionSpec _ => true | _ => false end.

Record KVCacheGroupSpec := mkGroup { kv_cache_spec : KVCacheSpec; is_eagle_group : bool }.

(** KVCacheConfig: what the coordinator reads; [nelssa_config] holds (first_n, last_m). *)
Record KVCacheConfig := mkConfig {
  num_blocks : Z;
  kv_cache_groups : list KVCacheGroupSpec;
  nelssa_config : option (Z * Z);
}.

(** max_admission_blocks_per_request of SlidingWindowSpec and ChunkedLocalAttentionSpec. *)
Definition swa_max_admission (bs w max_num_batched_tokens max_model_len : Z) : Z :=
  cdiv (Z.min (w - 1 + max_num_batched_tokens) max_model_len) bs + 1.
Definition chunked_max_admission (bs c max_num_batched_tokens max_model_len : Z) : Z :=
  cdiv (Z.min (c + max_num_batched_tokens) max_model_len) bs.

(** ** Construction *)

(** spec_manager_map *)
Definition manager_class (s : KVCacheSpec) : Kind :=
  match spec_class s with
  | FullAttentionSpec | TQFullAttentionSpec | MLAAttentionSpec => FullAttention
  | SlidingWindowSpec w | SlidingWindowMLASpec w => SlidingWindow w
  | ChunkedLocalAttentionSpec c => ChunkedLocalAttention c
  | MambaSpec al n => Mamba al n
  | CrossAttentionSpec => CrossAttention
  | SinkFullAttentionSpec _ => SinkFullAttention []
  end.

Definition tracks_ids (s : KVCacheSpec) : bool :=
  match spec_class s with FullAttentionSpec | TQFullAttentionSpec => true | _ => false end.

Definition get_manager_for_kv_cache_spec (s : KVCacheSpec) (max_num_batched_tokens max_model_len : Z)
    (caching : bool) (gid dcp pcp : Z) (nelssa : option (Z * Z)) : M BlockPool Manager :=
  let* p := get in
  match nelssa with
  | Some (first_n, last_m) =>
    ret (new_manager (NELSSA first_n last_m) (s_block_size s) caching None (tracks_ids s) gid dcp pcp p)
  | None =>
    match spec_class s with
    | SinkFullAttentionSpec sink_len => new_sink_manager (s_block_size s) sink_len caching gid dcp pcp
    | c =>
      let cap := match c with
        | SlidingWindowSpec w | SlidingWindowMLASpec w =>
          Some (swa_max_admission (s_block_size s) w max_num_batched_tokens max_model_len)
        | ChunkedLocalAttentionSpec c =>
          Some (chunked_max_admission (s_block_size s) c max_num_batched_tokens max_model_len)
        | _ => None
        end in
      ret (new_manager (manager_class s) (s_block_size s) caching cap (tracks_ids s) gid dcp pcp p)
    end
  end.

(** Which coordinator class. *)
Inductive CoordinatorClass := NoPrefixCache | Unitary | Hybrid.

Record Coordinator := mkCoord {
  coord_class : CoordinatorClass;
  config : KVCacheConfig;
  c_max_model_len : Z;
  c_enable_caching : bool;
  block_pool : BlockPool;
  eagle_group_ids : list Z;
  single_type_managers : list Manager;
  c_block_size : Z;   (* UnitaryKVCacheCoordinator.block_size *)
  c_dcp : Z;
  c_pcp : Z;
  (* HybridKVCacheCoordinator *)
  attention_groups : list (KVCacheSpec * list Z * Kind);
  lcm_block_size : Z;
  eagle_attn_group_indices : list Z;
}.

(** The loop over the groups that builds the managers. *)
Fixpoint build_managers (gs : list KVCacheGroupSpec) (gid batched mml : Z) (caching : bool) (dcp pcp : Z)
    (nelssa : option (Z * Z)) : M BlockPool (list Manager) :=
  match gs with
  | [] => ret []
  | g :: gs' =>
    let* m := get_manager_for_kv_cache_spec (kv_cache_spec g) batched mml caching gid dcp pcp nelssa in
    let* ms := build_managers gs' (gid + 1) batched mml caching dcp pcp nelssa in
    ret (m :: ms)
  end.

(** verify_and_split_kv_cache_groups: insertion of group [i] into the list of attention groups. *)
Fixpoint add_to_groups (s : KVCacheSpec) (i : Z) (cls : Kind) (ags : list (KVCacheSpec * list Z * Kind))
    : list (KVCacheSpec * list Z * Kind) :=
  match ags with
  | [] => [(s, [i], cls)]
  | (s', ids, cls') :: ags' =>
    if decide (s' = s) then (s', ids ++ [i], cls') :: ags' else (s', ids, cls') :: add_to_groups s i cls ags'
  end.
Fixpoint split_groups (gs : list KVCacheGroupSpec) (ms : list Manager) (i : Z)
    (ags : list (KVCacheSpec * list Z * Kind)) : list (KVCacheSpec * list Z * Kind) :=
  match gs, ms with
  | g :: gs', m :: ms' => split_groups gs' ms' (i + 1) (add_to_groups (kv_cache_spec g) i (kind m) ags)
  | _, _ => ags
  end.
(** [sorted(..., key=lambda x: not isinstance(x\[0\], FullAttentionSpec))] is stable. *)
Definition full_first (ags : list (KVCacheSpec * list Z * Kind)) : list (KVCacheSpec * list Z * Kind) :=
  filter (fun x => is_full_spec x.1.1 = true) ags ++ filter (fun x => is_full_spec x.1.1 = false) ags.
Definition lcm_list (l : list Z) : Z := fold_right Z.lcm 1 l.

Definition eagle_indices (eagle : list Z) (ags : list (KVCacheSpec * list Z * Kind)) : list Z :=
  (filter (fun x => existsb (fun g => existsb (Z.eqb g) eagle) x.2.1.2 = true)
     (zip (Z.of_nat <$> seq 0 (length ags)) ags)).*1.

(** __init__ of the coordinators, through get_kv_cache_coordinator. *)
Definition get_kv_cache_coordinator (cfg : KVCacheConfig) (mml batched : Z) (use_eagle caching events : bool)
    (dcp pcp hbs : Z) (use_int : bool) : res Coordinator :=
  do p0 <- new_BlockPool (num_blocks cfg) caching hbs events use_int in
  let groups := kv_cache_groups cfg in
  let ids := Z.of_nat <$> seq 0 (length groups) in
  let flagged := (filter (fun x => is_eagle_group x.2 = true) (zip ids groups)).*1 in
  let eagle := match flagged with [] => if use_eagle then ids else [] | _ => flagged end in
  match build_managers groups 0 batched mml caching dcp pcp (nelssa_config cfg) p0 with
  | (Err e, _) => Err e
  | (Ok ms, p) =>
    if negb caching then Ok (mkCoord NoPrefixCache cfg mml caching p eagle ms 0 dcp pcp [] 0 [])
    else
      match groups with
      | [g] =>
        let bs := s_block_size (kv_cache_spec g) * (if 1 <? dcp then dcp else 1) * (if 1 <? pcp then pcp else 1) in
        do _ <- rassert (hbs =? bs) in
        Ok (mkCoord Unitary cfg mml caching p eagle ms bs dcp pcp [] 0 [])
      | _ =>
        do _ <- rassert (forallb (fun g => s_block_size (kv_cache_spec g) mod hbs =? 0) groups) in
        do _ <- rassert (dcp =? 1) in
        do _ <- rassert (pcp =? 1) in
        let ags := split_groups groups ms 0 [] in
        do _ <- rassert (1 <? zlen ags) in
        let sorted_ags := full_first ags in
        Ok (mkCoord Hybrid cfg mml caching p eagle ms 0 dcp pcp sorted_ags
              (lcm_list ((fun x => s_block_size x.1.1) <$> ags)) (eagle_indices eagle sorted_ags))
      end
  end.

(** ** Cache-hit lookup *)

(** _get_block_hashes *)
Definition hashes_for (hbs : Z) (block_hashes : list bytes) (s : KVCacheSpec) : res BlockHashList :=
  if s_block_size s =? hbs then Ok (HList block_hashes)
  else match new_BlockHashListWithBlockSize block_hashes hbs (s_block_size s) with
       | Ok b => Ok (HScaled b)
       | Err e => Err e
       end.

(** The state of the fixed-point loop of HybridKVCacheCoordinator.find_longest_cache_hit. *)
Record hybrid_state := mkHS {
  hs_curr : Z;                                (* curr_hit_length *)
  hs_blocks : list (option (list loc));       (* hit_blocks_by_group *)
  hs_verified : list Z;                       (* eagle_verified *)
}.

Definition store_hits (ids : list Z) (hits : list (list loc)) (bl : list (option (list loc)))
    : list (option (list loc)) :=
  foldl (fun b x => <[Z.to_nat x.1 := Some x.2]> b) bl (zip ids hits).

(** One attention group in the [for] loop. *)
Definition hybrid_step (c : Coordinator) (block_hashes : list bytes) (max_len : Z)
    (idx : Z) (ag : KVCacheSpec * list Z * Kind) (st : hybrid_state) : res hybrid_state :=
  let '(spec, ids, cls) := ag in
  let bs := s_block_size spec in
  do g0 <- py_index ids 0 in
  do cached <- py_index (hs_blocks st) g0 in
  if is_full_spec spec && bool_decide (is_Some cached)
  then Ok (mkHS (hs_curr st / bs * bs) (hs_blocks st) (hs_verified st))
  else
    let use_eagle := existsb (Z.eqb idx) (eagle_attn_group_indices c)
                     && negb (existsb (Z.eqb idx) (hs_verified st)) in
    let max_length := if use_eagle then Z.min (hs_curr st + bs) max_len else hs_curr st in
    do bhs <- hashes_for (hash_block_size (block_pool c)) block_hashes spec in
    do hits <- find_longest_cache_hit (full_or_chunked spec) cls (block_pool c) bhs max_length ids bs use_eagle
                 (lcm_block_size c) 1 1 in
    do h0 <- first_group hits in
    let new_len := zlen h0 * bs in
    let verified := if use_eagle then idx :: hs_verified st
                    else if new_len <? hs_curr st then [] else hs_verified st in
    Ok (mkHS new_len (store_hits ids hits (hs_blocks st)) verified).

Fixpoint hybrid_pass (c : Coordinator) (block_hashes : list bytes) (max_len : Z) (idx : Z)
    (ags : list (KVCacheSpec * list Z * Kind)) (st : hybrid_state) : res hybrid_state :=
  match ags with
  | [] => Ok st
  | ag :: ags' =>
    do st' <- hybrid_step c block_hashes max_len idx ag st in
    hybrid_pass c block_hashes max_len (idx + 1) ags' st'
  end.

Definition is_simple_hybrid (c : Coordinator) : bool :=
  (zlen (attention_groups c) =? 2) &&
  match attention_groups c with (s, _, _) :: _ => is_full_spec s | [] => false end.

(** The [while True] loop: [hit_length] strictly decreases from one iteration to the next. *)
Fixpoint hybrid_loop (fuel : nat) (c : Coordinator) (block_hashes : list bytes) (max_len hit_length : Z)
    (bl : list (option (list loc))) (verified : list Z) : res (Z * list (option (list loc))) :=
  match fuel with
  | O => Err OutOfFuel
  | S f =>
    do st <- hybrid_pass c block_hashes max_len 0 (attention_groups c) (mkHS hit_length bl verified) in
    if hit_length <=? hs_curr st then Ok (hit_length, hs_blocks st)
    else if is_simple_hybrid c then Ok (hs_curr st, hs_blocks st)
    else hybrid_loop f c block_hashes max_len (hs_curr st) (hs_blocks st) (hs_verified st)
  end.

(** Truncation of the full-attention blocks to the final hit length. *)
Definition truncate_full (c : Coordinator) (hit_length : Z) (bl : list (option (list loc)))
    : list (option (list loc)) :=
  match attention_groups c with
  | (s, ids, _) :: _ =>
    if is_full_spec s then
      foldl (fun b g => alter (fmap (fun l => py_slice l 0 (hit_length / s_block_size s))) (Z.to_nat g) b) bl ids
    else bl
  | [] => bl
  end.

Definition hybrid_find (c : Coordinator) (block_hashes : list bytes) (max_len : Z) : res (list (list loc) * Z) :=
  do r <- hybrid_loop (S (S (Z.to_nat max_len))) c block_hashes max_len max_len
            (replicate (length (kv_cache_groups (config c))) None) [] in
  Ok (default [] <$> truncate_full c r.1 r.2, r.1).

Definition coord_find_longest_cache_hit (c : Coordinator) (block_hashes : list bytes) (max_len : Z)
    : res (list (list loc) * Z) :=
  match coord_class c with
  | NoPrefixCache => Ok (replicate (length (single_type_managers c)) [], 0)
  | Unitary =>
    match single_type_managers c, kv_cache_groups (config c) with
    | m :: _, g :: _ =>
      do hits <- find_longest_cache_hit (full_or_chunked (kv_cache_spec g)) (kind m) (block_pool c) (HList block_hashes) max_len [0]
                   (s_block_size (kv_cache_spec g)) (existsb (Z.eqb 0) (eagle_group_ids c)) (c_block_size c)
                   (c_dcp c) (c_pcp c) in
      do h0 <- first_group hits in
      Ok (hits, zlen h0 * c_block_size c)
    | _, _ => Err IndexError
    end
  | Hybrid => hybrid_find c block_hashes max_len
  end.

(** ** Operations on all managers *)

Abbreviation CM A := (M Coordinator A).

Definition with_managers (p : BlockPool) (ms : list Manager) (c : Coordinator) : Coordinator :=
  mkCoord (coord_class c) (config c) (c_max_model_len c) (c_enable_caching c) p (eagle_group_ids c) ms
    (c_block_size c) (c_dcp c) (c_pcp c) (attention_groups c) (lcm_block_size c) (eagle_attn_group_indices c).

(** Call a method of manager [i]; its effects on the manager and the shared pool persist also
    when it raises. *)
Definition on_manager {A} (i : nat) (f : MM A) : CM A := fun c =>
  match single_type_managers c !! i with
  | None => (Err IndexError, c)
  | Some m =>
    let (r, s) := f (mkMS m (block_pool c)) in
    (r, with_managers (pool s) (<[i := mg s]> (single_type_managers c)) c)
  end.

(** [for i, manager in enumerate(self.single_type_managers)] *)
Definition for_managers {A} (f : nat -> MM A) : CM (list A) :=
  let* c := get in traverse (seq 0 (length (single_type_managers c))) (fun i => on_manager i (f i)).

Definition is_cross (m : Manager) : bool := match kind m with CrossAttention => true | _ => false end.

Definition coord_get_num_blocks_to_allocate (rid : string) (num_tokens : Z) (new_computed_blocks : list (list loc))
    (num_encoder_tokens total_computed_tokens num_tokens_main_model : Z) : CM Z :=
  let* ns := for_managers (fun i =>
    let* m := self in
    if is_cross m
    then get_num_blocks_to_allocate rid num_encoder_tokens [] 0 num_encoder_tokens
    else
      let* bs := lift (py_index new_computed_blocks (Z.of_nat i)) in
      get_num_blocks_to_allocate rid num_tokens bs total_computed_tokens num_tokens_main_model) in
  ret (fold_right Z.add 0 ns).

Definition coord_allocate_new_computed_blocks (rid : string) (new_computed_blocks : list (list loc))
    (num_local_computed_tokens num_external_computed_tokens : Z) : CM unit :=
  let* _ := for_managers (fun i =>
    let* bs := lift (py_index new_computed_blocks (Z.of_nat i)) in
    allocate_new_computed_blocks rid bs num_local_computed_tokens num_external_computed_tokens) in
  ret tt.

Definition coord_allocate_new_blocks (rid : string) (num_tokens num_tokens_main_model num_encoder_tokens : Z)
    : CM (list (list loc)) :=
  for_managers (fun _ =>
    let* m := self in
    allocate_new_blocks rid (if is_cross m then num_encoder_tokens else num_tokens) num_tokens_main_model).

Definition coord_free (rid : string) : CM unit := let* _ := for_managers (fun _ => free rid) in ret tt.

Definition coord_remove_skipped_blocks (rid : string) (total_computed_tokens : Z) : CM unit :=
  let* _ := for_managers (fun _ => remove_skipped_blocks rid total_computed_tokens) in ret tt.

Definition coord_get_num_common_prefix_blocks (rid : string) : CM (list Z) :=
  let* c := get in
  match coord_class c with
  | NoPrefixCache => ret (replicate (length (single_type_managers c)) 0)
  | _ => for_managers (fun _ => get_num_common_prefix_blocks rid)
  end.

(** get_blocks *)
Definition coord_get_blocks (rid : string) (c : Coordinator) : list (list loc) :=
  (fun m => default [] (req_to_blocks m !! rid)) <$> single_type_managers c.

Definition coord_new_step_starts : CM unit := let* _ := for_managers (fun _ => new_step_starts) in ret tt.

(** cache_blocks: the request is threaded through the managers (its memo table may grow). *)
Fixpoint cache_from (sha256 : bytes -> bytes) (idxs : list nat) (num_computed_tokens : Z) (r : Request) : CM Request :=
  match idxs with
  | [] => ret r
  | i :: idxs' =>
    let* r' := on_manager i (cache_blocks sha256 r num_computed_tokens) in
    cache_from sha256 idxs' num_computed_tokens r'
  end.
Definition coord_cache_blocks (sha256 : bytes -> bytes) (r : Request) (num_computed_tokens : Z) : CM Request :=
  let* c := get in
  cache_from sha256 (seq 0 (length (single_type_managers c))) num_computed_tokens r.
