(* ===== verification/HybridLookup.v ===== *)
(** * HybridLookup
    Correctness of the fixed-point loop of HybridKVCacheCoordinator.find_longest_cache_hit:
    it terminates, and its result is one hit length that every attention group can use. The
    proof only uses the interface [HitFinder] of the per-type lookups. *)
From S2P Require Import Prelude OrdDict KVCacheBlock FreeQueue Request BlockHash BlockPool BlockPoolInv Managers CacheHit HitFinder Coordinator.

Abbreviation AttnGroup := (KVCacheSpec * list Z * Kind)%type.
Definition ag_bs (ag : AttnGroup) : Z := s_block_size ag.1.1.
Definition ag_ids (ag : AttnGroup) : list Z := ag.1.2.
Definition ag_full (ag : AttnGroup) : bool := is_full_spec ag.1.1.

(** The classes with the lookup of full attention. *)
Definition full_lookup (k : Kind) : Prop :=
  match k with FullAttention | SinkFullAttention _ | NELSSA _ _ => True | _ => False end.

Lemma find_spec_ok b k p bhs n gids bs e a d c :
  (full_lookup k -> b = true) -> find_longest_cache_hit b k p bhs n gids bs e a d c = find_longest_cache_hit true k p bhs n gids bs e a d c.
Proof. intros Hb. unfold find_longest_cache_hit. destruct k; try done; by rewrite Hb. Qed.

(** What the constructor of the coordinator establishes for its attention groups. *)
Record group_wf (c : Coordinator) (ag : AttnGroup) : Prop := {
  gw_bs : 0 < ag_bs ag;
  gw_hash : ag_bs ag mod hash_block_size (block_pool c) = 0;
  gw_lcm : (ag_bs ag | lcm_block_size c);
  gw_ids : ag_ids ag <> [];
  gw_range : forall g, g ∈ ag_ids ag -> 0 <= g < 2 ^ 32 /\ g < zlen (kv_cache_groups (config c));
  gw_NoDup : NoDup (ag_ids ag);
  gw_full : ag_full ag = true -> forall t, get_num_skipped_tokens ag.2 t = 0;
  gw_pre : find_pre ag.2 (ag_bs ag) false (lcm_block_size c);
  gw_spec : full_lookup ag.2 -> full_or_chunked ag.1.1 = true;
}.

Record hybrid_wf (c : Coordinator) (L : list loc) : Prop := {
  hw_core : pool_core (block_pool c) L;
  hw_hbs : 0 < hash_block_size (block_pool c);
  hw_lcm : 0 < lcm_block_size c;
  hw_groups : forall ag, ag ∈ attention_groups c -> group_wf c ag;
  hw_disjoint : forall i j ag ag' g, attention_groups c !! i = Some ag -> attention_groups c !! j = Some ag' ->
    g ∈ ag_ids ag -> g ∈ ag_ids ag' -> i = j;
  hw_one_full : forall i ag, attention_groups c !! i = Some ag -> ag_full ag = true -> i = 0%nat;
  hw_eagle : forall i ag, attention_groups c !! i = Some ag ->
    existsb (Z.eqb (Z.of_nat i)) (eagle_attn_group_indices c) = true ->
    find_pre ag.2 (ag_bs ag) true (lcm_block_size c);
}.

Section hybrid.
Context (c : Coordinator) (L : list loc) (Hwf : hybrid_wf c L) (block_hashes : list bytes) (max_len : Z).
Context (Hmax : 0 <= max_len) (Hlen : max_len / hash_block_size (block_pool c) <= zlen block_hashes).
#[local] Notation lcm := (lcm_block_size c).
#[local] Notation hbs := (hash_block_size (block_pool c)).

Definition hashes_of (ag : AttnGroup) : BlockHashList :=
  if ag_bs ag =? hbs then HList block_hashes else HScaled (mkBHL block_hashes (ag_bs ag / hbs)).

Lemma hashes_for_ok ag : group_wf c ag -> hashes_for hbs block_hashes ag.1.1 = Ok (hashes_of ag).
Proof.
  intros Hg. unfold hashes_for, hashes_of, new_BlockHashListWithBlockSize.
  change (s_block_size ag.1.1) with (ag_bs ag). rewrite (gw_hash _ _ Hg). by destruct (_ =? hbs).
Qed.

(** There is a hash for every block the lookup can ask for. *)
Lemma hashes_enough ag l : group_wf c ag -> 0 <= l <= max_len -> l / ag_bs ag <= zlen (bh_list (hashes_of ag)).
Proof.
  intros Hg Hl. pose proof (gw_bs _ _ Hg) as Hbs. pose proof (hw_hbs _ _ Hwf) as Hh.
  assert (H1 : l / ag_bs ag <= max_len / ag_bs ag) by (apply Z.div_le_mono; lia).
  unfold hashes_of. destruct (Z.eqb_spec (ag_bs ag) hbs) as [E | E]; simpl; [rewrite E in *; lia |].
  pose proof (gw_hash _ _ Hg) as Hm. apply Z.div_exact in Hm; [| lia]. set (k := ag_bs ag / hbs) in *.
  assert (0 < k) by nia. unfold zlen at 1. rewrite length_fmap. unfold range. rewrite length_seqZ.
  unfold bhl_len. simpl. pose proof (Z.div_pos (zlen block_hashes) k (zlen_nonneg _)).
  rewrite Z2Nat.id by lia. etransitivity; [exact H1 |]. rewrite Hm, <- Z.div_div by lia.
  by apply Z.div_le_mono.
Qed.

(** The blocks stored for a group are a usable hit of [n] blocks. *)
Definition rows_stored (ag : AttnGroup) (bl : list (option (list loc))) (rows : list (list loc)) : Prop :=
  (forall j g, ag_ids ag !! j = Some g ->
     exists col, columns (length (ag_ids ag)) rows !! j = Some col /\ bl !! Z.to_nat g = Some (Some col)) /\
  usable (block_pool c) (ag_ids ag) (hashes_of ag) (get_num_skipped_tokens ag.2) (ag_bs ag) rows.
Definition group_at (ag : AttnGroup) (bl : list (option (list loc))) (n : Z) : Prop :=
  exists rows, zlen rows = n /\ rows_stored ag bl rows.

Lemma group_at_frame ag bl bl' n :
  (forall g, g ∈ ag_ids ag -> bl' !! Z.to_nat g = bl !! Z.to_nat g) -> group_at ag bl n -> group_at ag bl' n.
Proof.
  intros H (rows & ? & Hst & Hu). exists rows. split; [done |]. split; [| done]. intros j g Hj.
  rewrite H by (by eapply list_elem_of_lookup_2). by apply Hst.
Qed.

(** Storing the hits of a group. *)
Lemma store_hits_other ids hits : forall bl g,
  (forall x, x ∈ ids -> 0 <= x) -> 0 <= g -> (g ∉ ids) -> store_hits ids hits bl !! Z.to_nat g = bl !! Z.to_nat g.
Proof.
  unfold store_hits. revert hits. induction ids as [|i ids IH]; intros [|h hits] bl g Hpos Hg Hn; simpl; try done.
  rewrite IH; [| set_solver .. | done | set_solver]. apply list_lookup_insert_ne.
  intros E. apply Hn, elem_of_cons. left. specialize (Hpos i ltac:(by left)). lia.
Qed.

Lemma length_store_hits ids hits : forall bl, length (store_hits ids hits bl) = length bl.
Proof.
  unfold store_hits. revert hits. induction ids as [|i ids IH]; intros [|h hits] bl; simpl; try done.
  rewrite IH. apply length_insert.
Qed.

Lemma store_hits_lookup ids hits : forall bl j g col,
  NoDup ids -> (forall x, x ∈ ids -> 0 <= x < zlen bl) ->
  ids !! j = Some g -> hits !! j = Some col -> store_hits ids hits bl !! Z.to_nat g = Some (Some col).
Proof.
  revert hits. induction ids as [|i ids IH]; intros [|h hits] bl [|j] g col Hnd Hr Hj Hh; try done.
  - simpl in Hj, Hh. simplify_eq. apply NoDup_cons in Hnd as [Hn _].
    change (store_hits (g :: ids) (col :: hits) bl) with (store_hits ids hits (<[Z.to_nat g := Some col]> bl)).
    pose proof (Hr g ltac:(by left)) as Hg. unfold zlen in Hg.
    rewrite store_hits_other; [| intros x Hx; apply Hr; by right | lia | done].
    apply list_lookup_insert_eq. lia.
  - apply NoDup_cons in Hnd as [_ Hnd].
    change (store_hits (i :: ids) (h :: hits) bl) with (store_hits ids hits (<[Z.to_nat i := Some h]> bl)).
    apply (IH hits _ j); [done | | done | done]. intros x Hx. unfold zlen. rewrite length_insert. apply Hr. by right.
Qed.

(** *** One attention group *)

(** A full-attention group that already has blocks has at least the current length. *)
Definition ready (ag : AttnGroup) (curr : Z) (bl : list (option (list loc))) : Prop :=
  ag_full ag = true -> forall g0 l, head (ag_ids ag) = Some g0 -> bl !! Z.to_nat g0 = Some (Some l) ->
  (lcm | curr) /\ exists n, group_at ag bl n /\ curr <= n * ag_bs ag.

(** What a group's turn leaves behind. *)
Definition served (ag : AttnGroup) (curr : Z) (bl : list (option (list loc))) : Prop :=
  exists n, group_at ag bl n /\ curr <= n * ag_bs ag /\ (ag_full ag = true \/ n * ag_bs ag = curr).

Lemma aligned_lcm ag n : group_wf c ag -> aligned (ag_bs ag) lcm n = true -> (lcm | Z.of_nat n * ag_bs ag).
Proof.
  intros Hg. unfold aligned. rewrite orb_true_iff, !Z.eqb_eq. intros [-> | E]; [apply Z.divide_factor_r |].
  apply Z.mod_divide; [pose proof (hw_lcm _ _ Hwf); lia | done].
Qed.

Lemma head_lookup (ids : list Z) g0 : head ids = Some g0 -> ids !! 0%nat = Some g0.
Proof. by destruct ids. Qed.

(** The lookup of one group, through the interface. *)
Lemma lookup_step ag st (use_eagle : bool) :
  group_wf c ag -> (use_eagle = true -> find_pre ag.2 (ag_bs ag) true lcm) ->
  0 <= hs_curr st <= max_len -> zlen (hs_blocks st) = zlen (kv_cache_groups (config c)) ->
  let max_length := if use_eagle then Z.min (hs_curr st + ag_bs ag) max_len else hs_curr st in
  exists rows h0,
    find_longest_cache_hit (full_or_chunked ag.1.1) ag.2 (block_pool c) (hashes_of ag) max_length (ag_ids ag) (ag_bs ag)
      use_eagle lcm 1 1
      = Ok (columns (length (ag_ids ag)) rows) /\
    first_group (columns (length (ag_ids ag)) rows) = Ok h0 /\ zlen h0 = zlen rows /\
    zlen rows * ag_bs ag <= hs_curr st /\ (lcm | zlen rows * ag_bs ag) /\
    rows_stored ag (store_hits (ag_ids ag) (columns (length (ag_ids ag)) rows) (hs_blocks st)) rows.
Proof.
  intros Hg He Hcur Hbl max_length. pose proof (gw_bs _ _ Hg) as Hbs.
  assert (Hml : 0 <= max_length <= max_len) by (unfold max_length; destruct use_eagle; lia).
  destruct (finder_of_kind ag.2 (block_pool c) L (ag_ids ag) (hashes_of ag) max_length (ag_bs ag) use_eagle lcm)
    as (rows & Hfind & Hle & Hal & Heag & Hus).
  - apply (hw_core _ _ Hwf).
  - intros g Hgi. by apply (gw_range _ _ Hg).
  - apply (gw_ids _ _ Hg).
  - done.
  - lia.
  - by apply hashes_enough.
  - destruct use_eagle; [by apply He | apply (gw_pre _ _ Hg)].
  - destruct (first_group_columns (length (ag_ids ag)) rows) as (h0 & Hh0 & Hlen0).
    { pose proof (gw_ids _ _ Hg). destruct (ag_ids ag); [done | simpl; lia]. }
    exists rows, h0. unfold find_of in Hfind. rewrite find_spec_ok by apply (gw_spec _ _ Hg). split_and!; [done | done | unfold zlen; by rewrite Hlen0 | | |].
    + destruct use_eagle; [| done]. destruct (Heag eq_refl) as [-> | Hd]; [unfold zlen; simpl; lia |].
      unfold max_length in Hd. lia.
    + by apply aligned_lcm.
    + split; [| done]. intros j g Hj. destruct (lookup_lt_is_Some_2 (columns (length (ag_ids ag)) rows) j) as [col Hcol].
      { rewrite length_columns. by apply lookup_lt_Some in Hj. }
      exists col. split; [done |]. eapply store_hits_lookup; [apply (gw_NoDup _ _ Hg) | | done | done].
      intros x Hx. rewrite Hbl. destruct (gw_range _ _ Hg x Hx). lia.
Qed.

Lemma hybrid_step_spec ag idx st :
  group_wf c ag ->
  (existsb (Z.eqb idx) (eagle_attn_group_indices c) = true -> find_pre ag.2 (ag_bs ag) true lcm) ->
  0 <= hs_curr st <= max_len -> zlen (hs_blocks st) = zlen (kv_cache_groups (config c)) ->
  ready ag (hs_curr st) (hs_blocks st) ->
  exists st', hybrid_step c block_hashes max_len idx ag st = Ok st' /\
    0 <= hs_curr st' <= hs_curr st /\ (lcm | hs_curr st') /\
    zlen (hs_blocks st') = zlen (kv_cache_groups (config c)) /\
    (forall g, 0 <= g -> (g ∉ ag_ids ag) -> hs_blocks st' !! Z.to_nat g = hs_blocks st !! Z.to_nat g) /\
    served ag (hs_curr st') (hs_blocks st').
Proof.
  intros Hg He Hcur Hbl Hrdy. pose proof (gw_bs _ _ Hg) as Hbs. pose proof (gw_ids _ _ Hg) as Hids.
  destruct (head (ag_ids ag)) as [g0|] eqn:Eh; [| by destruct (ag_ids ag)].
  assert (Hr0 : 0 <= g0 < zlen (hs_blocks st)).
  { rewrite Hbl. destruct (gw_range _ _ Hg g0); [| lia]. destruct (ag_ids ag); [done |]. injection Eh as ->. by left. }
  destruct (lookup_lt_is_Some_2 (hs_blocks st) (Z.to_nat g0)) as [cached Hcached]; [unfold zlen in Hr0; lia |].
  unfold hybrid_step. destruct ag as [[spec ids] cls]. simpl in *. unfold ag_ids in Eh, Hids. simpl in *.
  rewrite (py_index_nat ids 0 g0 (head_lookup _ _ Eh) : py_index ids 0 = Ok g0). simpl.
  assert (py_index (hs_blocks st) g0 = Ok cached) as ->.
  { rewrite <- (Z2Nat.id g0) by lia. by apply py_index_nat. }
  simpl. destruct (is_full_spec spec && bool_decide (is_Some cached)) eqn:Esk.
  - apply andb_true_iff in Esk as [Ef [l ->]%bool_decide_eq_true].
    destruct (Hrdy Ef g0 l Eh Hcached) as (Hdiv & n & Hat & Hn).
    assert (Hsame : hs_curr st / s_block_size spec * s_block_size spec = hs_curr st).
    { assert (Hd : (s_block_size spec | hs_curr st)) by (etransitivity; [apply (gw_lcm _ _ Hg) | done]).
      destruct Hd as [q ->]. by rewrite Z.div_mul by (unfold ag_bs in Hbs; simpl in Hbs; lia). }
    eexists. split; [reflexivity |]. simpl. rewrite Hsame. split_and!; try done; try lia.
    exists n. split_and!; [done | done | by left].
  - set (use_eagle := existsb (Z.eqb idx) (eagle_attn_group_indices c) && negb (existsb (Z.eqb idx) (hs_verified st))).
    destruct (lookup_step (spec, ids, cls) st use_eagle Hg) as (rows & h0 & Hfind & Hfst & Hh0 & Hle & Hdiv & Hst);
      [| done | done |].
    { intros E. apply He. unfold use_eagle in E. by apply andb_true_iff in E as [? _]. }
    rewrite (hashes_for_ok (spec, ids, cls) Hg : hashes_for hbs block_hashes spec = _). simpl.
    unfold ag_bs, ag_ids in Hfind, Hfst, Hle, Hst, Hdiv. simpl in *. rewrite Hfind. simpl. rewrite Hfst. simpl.
    eexists. split; [reflexivity |]. simpl. rewrite Hh0. pose proof (zlen_nonneg rows).
    unfold ag_bs in Hbs. simpl in Hbs. split_and!; try done; try nia.
    + unfold zlen in *. by rewrite length_store_hits.
    + intros g Hg0 Hgn. apply store_hits_other; [| done | done]. intros x Hx. by apply (gw_range _ _ Hg).
    + exists (zlen rows). split_and!; [by exists rows | unfold ag_bs; simpl; lia | by right].
Qed.

(** *** One pass over the groups *)

Lemma served_frame ag curr bl bl' :
  (forall g, g ∈ ag_ids ag -> bl' !! Z.to_nat g = bl !! Z.to_nat g) -> served ag curr bl -> served ag curr bl'.
Proof. intros H (n & Hat & ? & ?). exists n. split_and!; [by eapply group_at_frame | done | done]. Qed.

Lemma ready_mono ag curr curr' bl bl' :
  group_wf c ag -> (forall g, g ∈ ag_ids ag -> bl' !! Z.to_nat g = bl !! Z.to_nat g) ->
  curr' <= curr -> (lcm | curr') -> ready ag curr bl -> ready ag curr' bl'.
Proof.
  intros Hg Hfr Hle Hdiv Hrdy Hf g0 l Hh Hl. split; [done |].
  rewrite Hfr in Hl by (apply head_lookup in Hh; by eapply list_elem_of_lookup_2).
  destruct (Hrdy Hf g0 l Hh Hl) as (_ & n & Hat & Hn). exists n. split; [by eapply group_at_frame | lia].
Qed.

(** What a pass leaves behind for a group, when it went from [start] to [curr]. *)
Definition passed (ag : AttnGroup) (start curr : Z) (bl : list (option (list loc))) : Prop :=
  exists n, group_at ag bl n /\ curr <= n * ag_bs ag /\ (ag_full ag = true \/ n * ag_bs ag <= start).

Lemma hybrid_pass_spec ags : forall pre st,
  attention_groups c = pre ++ ags -> 0 <= hs_curr st <= max_len ->
  zlen (hs_blocks st) = zlen (kv_cache_groups (config c)) ->
  (forall ag, ag ∈ ags -> ready ag (hs_curr st) (hs_blocks st)) ->
  exists st', hybrid_pass c block_hashes max_len (zlen pre) ags st = Ok st' /\
    0 <= hs_curr st' <= hs_curr st /\ (ags <> [] -> (lcm | hs_curr st')) /\
    zlen (hs_blocks st') = zlen (kv_cache_groups (config c)) /\
    (forall ag, ag ∈ pre -> forall g, g ∈ ag_ids ag -> hs_blocks st' !! Z.to_nat g = hs_blocks st !! Z.to_nat g) /\
    (forall ag, ag ∈ ags -> passed ag (hs_curr st) (hs_curr st') (hs_blocks st')) /\
    (forall ags' ag, ags = ags' ++ [ag] -> served ag (hs_curr st') (hs_blocks st')).
Proof.
  induction ags as [|ag ags IH]; intros pre st Hsplit Hcur Hbl Hrdy; simpl.
  { exists st. split_and!; try done; try lia; [intros ? ?%elem_of_nil; done |].
    intros ags' ag E. by destruct ags'. }
  assert (Hlk : attention_groups c !! length pre = Some ag).
  { rewrite Hsplit, lookup_app_r by lia. by rewrite Nat.sub_diag. }
  assert (Hg : forall x, x ∈ attention_groups c -> group_wf c x) by apply (hw_groups _ _ Hwf).
  assert (Hag : group_wf c ag) by (apply Hg; by eapply list_elem_of_lookup_2).
  (* the ids of another group are not touched *)
  assert (Hdis : forall x, x ∈ pre \/ x ∈ ags -> forall g, g ∈ ag_ids x -> g ∉ ag_ids ag).
  { intros x Hx g Hgx Hga. assert (Hi : exists i, attention_groups c !! i = Some x /\ i <> length pre).
    { destruct Hx as [[i Hi]%list_elem_of_lookup | [i Hi]%list_elem_of_lookup].
      - exists i. rewrite Hsplit. split; [by apply lookup_app_l_Some |]. apply lookup_lt_Some in Hi. lia.
      - exists (length pre + S i)%nat. rewrite Hsplit, lookup_app_r by lia.
        replace (length pre + S i - length pre)%nat with (S i) by lia. split; [done | lia]. }
    destruct Hi as (i & Hi & Hne). apply Hne. by eapply (hw_disjoint _ _ Hwf). }
  assert (Hpos : forall x, x ∈ attention_groups c -> forall g, g ∈ ag_ids x -> 0 <= g).
  { intros x Hx g Hgx. by apply (gw_range _ _ (Hg x Hx)). }
  destruct (hybrid_step_spec ag (zlen pre) st Hag) as (st1 & Hrun1 & Hc1 & Hd1 & Hl1 & Hfr1 & Hsv1);
    [by apply (hw_eagle _ _ Hwf) | done | done | apply Hrdy; by left |].
  assert (Hfr1' : forall x, x ∈ pre \/ x ∈ ags -> forall g, g ∈ ag_ids x ->
    hs_blocks st1 !! Z.to_nat g = hs_blocks st !! Z.to_nat g).
  { intros x Hx g Hgx. apply Hfr1; [| by eapply Hdis]. apply (Hpos x); [| done]. rewrite Hsplit, elem_of_app, elem_of_cons. tauto. }
  destruct (IH (pre ++ [ag]) st1) as (st2 & Hrun2 & Hc2 & Hd2 & Hl2 & Hfr2 & Hps2 & Hlast2).
  { by rewrite Hsplit, <- app_assoc. }
  { lia. }
  { done. }
  { intros x Hx. apply (ready_mono x (hs_curr st) _ (hs_blocks st)); [| by apply Hfr1'; right | lia | done | apply Hrdy; by right].
    apply Hg. rewrite Hsplit, elem_of_app, elem_of_cons. tauto. }
  exists st2. rewrite Hrun1. simpl. replace (zlen pre + 1) with (zlen (pre ++ [ag])) by (rewrite zlen_app; done).
  split_and!; [done | lia | lia | | done | | |].
  - intros _. destruct ags; [| by apply Hd2]. simpl in Hrun2. injection Hrun2 as <-. done.
  - intros x Hx g Hgx. rewrite (Hfr2 x) by (rewrite ?elem_of_app; tauto). apply (Hfr1' x); tauto.
  - intros x [-> | Hx]%elem_of_cons; [| destruct (Hps2 x Hx) as (n & ? & ? & Hn); exists n; split_and!; [done | done | ]].
    + destruct Hsv1 as (n & Hat & Hn & Hor). exists n. split_and!; [| lia | destruct Hor; [by left | right; lia]].
      apply (group_at_frame ag (hs_blocks st1)); [| done]. intros g Hgx. apply (Hfr2 ag); [| done].
      rewrite elem_of_app, list_elem_of_singleton. tauto.
    + destruct Hn; [by left | right; lia].
  - intros ags' x E. destruct ags' as [|y ags']; injection E as -> ->; [| by apply (Hlast2 ags')].
    simpl in Hrun2. injection Hrun2 as <-. done.
Qed.

(** *** The loop *)

Lemma hybrid_loop_spec fuel : forall hit bl verified,
  0 <= hit <= max_len -> (Z.to_nat hit < fuel)%nat -> attention_groups c <> [] ->
  zlen bl = zlen (kv_cache_groups (config c)) ->
  (forall ag, ag ∈ attention_groups c -> ready ag hit bl) ->
  exists hit' bl', hybrid_loop fuel c block_hashes max_len hit bl verified = Ok (hit', bl') /\
    0 <= hit' <= hit /\ (lcm | hit') /\ zlen bl' = zlen (kv_cache_groups (config c)) /\
    (forall ag, ag ∈ attention_groups c -> served ag hit' bl').
Proof.
  induction fuel as [|f IH]; intros hit bl verified Hhit Hf Hne Hbl Hrdy; [lia |]. simpl.
  destruct (hybrid_pass_spec (attention_groups c) [] (mkHS hit bl verified))
    as (st & Hrun & Hc & Hd & Hl & _ & Hps & Hlast); [done | done | done | done |].
  change (zlen []) with 0 in Hrun. rewrite Hrun. simpl in *. specialize (Hd Hne).
  destruct (Z.leb_spec hit (hs_curr st)) as [Hge | Hlt].
  - assert (Ec : hs_curr st = hit) by lia. exists hit, (hs_blocks st). split_and!; try done; try lia; [by rewrite <- Ec |].
    intros ag Hag. destruct (Hps ag Hag) as (n & Hat & Hn & Hor). exists n.
    split_and!; [done | lia | destruct Hor; [by left | right; lia]].
  - destruct (is_simple_hybrid c) eqn:Esimple.
    + exists (hs_curr st), (hs_blocks st). split_and!; try done; try lia. intros ag Hag.
      unfold is_simple_hybrid in Esimple. apply andb_true_iff in Esimple as [E2 Ef].
      destruct (attention_groups c) as [|ag1 [|ag2 [|? ?]]] eqn:Eags; try done;
        [| exfalso; apply Z.eqb_eq in E2; unfold zlen in E2; simpl in E2; lia].
      apply elem_of_cons in Hag as [-> | ->%list_elem_of_singleton]; [| by apply (Hlast [ag1])].
      destruct (Hps ag1) as (n & Hat & Hn & _); [by left |]. exists n. split_and!; [done | done | left].
      by destruct ag1 as [[? ?] ?].
    + destruct (IH (hs_curr st) (hs_blocks st) (hs_verified st)) as (hit' & bl' & Hrun' & ? & ? & ? & ?);
        [lia | lia | done | done | | exists hit', bl'; split_and!; try done; lia].
      intros ag Hag Hfull g0 l Hh Hl0. split; [done |]. destruct (Hps ag Hag) as (n & Hat & Hn & _). eauto.
Qed.

(** *** Truncation and result *)

(** A shorter prefix of a usable hit stays usable when nothing is skipped. *)
Lemma usable_prefix gids bhs skip bs rows n :
  (forall t, skip t = 0) -> 0 < bs -> usable (block_pool c) gids bhs skip bs rows ->
  usable (block_pool c) gids bhs skip bs (take n rows).
Proof.
  intros Hsk Hbs [Hok Hne]. split.
  - intros i r [Hi _]%lookup_take_Some. by apply Hok.
  - intros j Hj _. rewrite length_take in Hj. rewrite lookup_take_lt by lia.
    apply Hne; [lia |]. rewrite Hsk. nia.
Qed.

Lemma truncate_lookup (f : list loc -> list loc) ids : forall bl g,
  NoDup ids -> (forall x, x ∈ ids -> 0 <= x) -> 0 <= g ->
  foldl (fun (b : list (option (list loc))) (x : Z) => alter (fmap f) (Z.to_nat x) b) bl ids !! Z.to_nat g =
  if decide (g ∈ ids) then (fmap f) <$> bl !! Z.to_nat g else bl !! Z.to_nat g.
Proof.
  induction ids as [|i ids IH]; intros bl g Hnd Hpos Hg; simpl; [done |].
  apply NoDup_cons in Hnd as [Hi Hnd]. pose proof (Hpos i ltac:(by left)).
  rewrite IH; [| done | intros; apply Hpos; by right | done].
  destruct (decide (g = i)) as [-> | Hne].
  - rewrite decide_False by done. rewrite decide_True by (by left). by rewrite list_lookup_alter_eq.
  - rewrite list_lookup_alter_ne by lia. do 2 case_decide; try done; set_solver.
Qed.

(** The blocks of one group in the final result. *)
Definition group_result (ag : AttnGroup) (hit : Z) (blocks : list (list loc)) : Prop :=
  exists rows, zlen rows * ag_bs ag = hit /\
    (forall j g, ag_ids ag !! j = Some g ->
       exists col, columns (length (ag_ids ag)) rows !! j = Some col /\ blocks !! Z.to_nat g = Some col) /\
    usable (block_pool c) (ag_ids ag) (hashes_of ag) (get_num_skipped_tokens ag.2) (ag_bs ag) rows.

Lemma truncate_spec hit bl :
  0 <= hit -> (lcm | hit) -> (forall ag, ag ∈ attention_groups c -> served ag hit bl) ->
  forall ag, ag ∈ attention_groups c -> group_result ag hit (default [] <$> truncate_full c hit bl).
Proof.
  intros Hhit Hdiv Hsv ag Hag. pose proof (hw_groups _ _ Hwf ag Hag) as Hg. pose proof (gw_bs _ _ Hg) as Hbs.
  destruct (Hsv ag Hag) as (n & (rows & Hn & Hst & Hus) & Hle & Hor).
  apply list_elem_of_lookup in Hag as [i Hi].
  destruct (ag_full ag) eqn:Ef.
  - (* the full-attention group is the first one and is truncated *)
    pose proof (hw_one_full _ _ Hwf i ag Hi Ef) as ->.
    assert (Hd : (ag_bs ag | hit)) by (etransitivity; [apply (gw_lcm _ _ Hg) | done]). destruct Hd as [q Hq].
    exists (take (Z.to_nat q) rows). assert (Hq0 : 0 <= q <= n) by nia.
    split_and!; [| | by apply usable_prefix; [apply (gw_full _ _ Hg) | |]].
    + unfold zlen in *. rewrite length_take. rewrite Hq. f_equal. lia.
    + intros j g Hj. destruct (Hst j g Hj) as (col & Hcol & Hbl).
      exists (take (Z.to_nat q) col). rewrite <- take_columns, list_lookup_fmap, Hcol. split; [done |].
      rewrite list_lookup_fmap. unfold truncate_full. destruct (attention_groups c) as [|[[sp ids] cls] rest]; [done |].
      injection Hi as <-. unfold ag_full in Ef. simpl in Ef. rewrite Ef.
      assert (Hgr : forall x, x ∈ ids -> 0 <= x) by (intros x Hx; by apply (gw_range _ _ Hg)).
      assert (Hgi : g ∈ ids) by (by eapply list_elem_of_lookup_2 in Hj).
      rewrite truncate_lookup, decide_True, Hbl; [| done | apply (gw_NoDup _ _ Hg) | done | by apply Hgr]. simpl. f_equal.
      unfold ag_bs in *. simpl in *. rewrite Hq, Z.div_mul by lia. rewrite py_slice_nonneg by lia.
      by rewrite Z.sub_0_r.
  - destruct Hor as [? | Heq]; [done |]. exists rows. split_and!; [by rewrite Hn | | done].
    intros j g Hj. destruct (Hst j g Hj) as (col & Hcol & Hbl). exists col. split; [done |].
    rewrite list_lookup_fmap. unfold truncate_full.
    assert (Hgi : g ∈ ag_ids ag) by (by eapply list_elem_of_lookup_2).
    destruct (attention_groups c) as [|[[sp ids] cls] rest] eqn:Eags; [done |].
    destruct (is_full_spec sp) eqn:Esp; [| by rewrite Hbl].
    assert (Hg0 : group_wf c (sp, ids, cls)) by (apply (hw_groups _ _ Hwf); rewrite Eags; by left).
    rewrite truncate_lookup; [| apply (gw_NoDup _ _ Hg0) | intros x Hx; by apply (gw_range _ _ Hg0) | by apply (gw_range _ _ Hg)].
    rewrite decide_False; [by rewrite Hbl |]. intros Hin.
    assert (i = 0%nat) as ->.
    { eapply (hw_disjoint _ _ Hwf i 0%nat ag (sp, ids, cls)); rewrite ?Eags; try done. }
    injection Hi as <-. unfold ag_full in Ef. simpl in Ef. congruence.
Qed.

(** The fixed point terminates with one hit length that all groups share. *)
Lemma hybrid_find_spec :
  attention_groups c <> [] ->
  exists blocks hit, hybrid_find c block_hashes max_len = Ok (blocks, hit) /\
    0 <= hit <= max_len /\ (lcm | hit) /\
    forall ag, ag ∈ attention_groups c -> group_result ag hit blocks.
Proof.
  intros Hne. unfold hybrid_find.
  destruct (hybrid_loop_spec (S (S (Z.to_nat max_len))) max_len
              (replicate (length (kv_cache_groups (config c))) None) [])
    as (hit & bl & Hrun & Hh & Hd & _ & Hsv); [lia | lia | done | unfold zlen; by rewrite length_replicate | |].
  - intros ag Hag Hf g0 l Hh0 Hl. apply lookup_replicate in Hl as [? _]. done.
  - rewrite Hrun. simpl. do 2 eexists. split; [reflexivity |]. split_and!; [lia | lia | done |].
    apply truncate_spec; [lia | done | done].
Qed.
End hybrid.
