(* ===== verification/ManagerInv.v ===== *)
(** * ManagerInv
    The invariant that ties the block tables of a manager to the pool: every block of a table
    is a block of the pool, no table holds a (non-null) block twice, and the reference count
    of a block is the number of table entries that hold it, over all managers. The managers'
    methods preserve it, and the admission estimate is enough for the allocation. *)
From S2P Require Import Prelude OrdDict KVCacheBlock FreeQueue Request BlockHash BlockPool BlockPoolInv Managers.

(** ** References held by a table *)

Abbreviation Table := (gmap string (list loc)).
Definition tbl_held (t : Table) (l : loc) : Z := map_fold (fun _ bs acc => occ l bs + acc) 0 t.
Definition tbl (t : Table) (rid : string) : list loc := default [] (t !! rid).

Lemma tbl_held_insert t rid bs l :
  t !! rid = None -> tbl_held (<[rid := bs]> t) l = occ l bs + tbl_held t l.
Proof. intros H. unfold tbl_held. rewrite map_fold_insert_L; [done | | done]. intros. lia. Qed.

Lemma tbl_held_delete t rid l : tbl_held t l = occ l (tbl t rid) + tbl_held (delete rid t) l.
Proof.
  unfold tbl. destruct (t !! rid) as [bs|] eqn:E; simpl.
  - rewrite <- (insert_delete_id t rid bs E) at 1. apply tbl_held_insert, lookup_delete_eq.
  - rewrite delete_id by done. by rewrite occ_nil.
Qed.

Lemma tbl_held_set t rid bs l :
  tbl_held (<[rid := bs]> t) l = tbl_held t l - occ l (tbl t rid) + occ l bs.
Proof.
  rewrite (tbl_held_delete t rid l), <- insert_delete_eq, tbl_held_insert by apply lookup_delete_eq. lia.
Qed.

Lemma tbl_held_nonneg t l : 0 <= tbl_held t l.
Proof.
  unfold tbl_held. apply (map_fold_weak_ind (fun a _ => 0 <= a)); [done |].
  intros rid bs m r _ H. pose proof (occ_nonneg l bs). lia.
Qed.

Lemma tbl_held_ge t rid l : occ l (tbl t rid) <= tbl_held t l.
Proof. rewrite (tbl_held_delete t rid l). pose proof (tbl_held_nonneg (delete rid t) l). lia. Qed.

Lemma tbl_set t rid bs rid' : tbl (<[rid := bs]> t) rid' = if decide (rid' = rid) then bs else tbl t rid'.
Proof.
  unfold tbl. case_decide; subst; [by rewrite lookup_insert_eq | by rewrite lookup_insert_ne].
Qed.
Lemma tbl_delete t rid rid' : tbl (delete rid t) rid' = if decide (rid' = rid) then [] else tbl t rid'.
Proof.
  unfold tbl. case_decide; subst; [by rewrite lookup_delete_eq | by rewrite lookup_delete_ne].
Qed.

(** ** The invariant *)

Definition num_cached (m : Manager) (rid : string) : Z := default 0 (num_cached_block m !! rid).

(** [extra l]: references to [l] from other managers. A block past the cached prefix of a
    table has no hash and is referenced once: only cached blocks are shared. *)
Record mgr_ok (extra : loc -> Z) (s : mstate) (L : list loc) : Prop := {
  mo_pool : pool_inv (pool s) L;
  mo_null : _null_block (mg s) = null_block (pool s);
  mo_bs : 0 < block_size (mg s);
  mo_extra : forall l, 0 <= extra l;
  mo_in : forall rid l, l ∈ tbl (req_to_blocks (mg s)) rid -> l ∈ blocks (pool s);
  mo_NoDup : forall rid, NoDup (filter (fun l => l <> null_block (pool s)) (tbl (req_to_blocks (mg s)) rid));
  mo_ref : forall l, l ∈ blocks (pool s) -> l <> null_block (pool s) ->
    ref_of (bheap (pool s)) l = extra l + tbl_held (req_to_blocks (mg s)) l;
  mo_tail : forall rid i l, num_cached (mg s) rid <= Z.of_nat i ->
    tbl (req_to_blocks (mg s)) rid !! i = Some l -> l <> null_block (pool s) ->
    hash_of (bheap (pool s)) l = None /\ ref_of (bheap (pool s)) l = 1;
  mo_cached : forall rid, 0 <= num_cached (mg s) rid;
  mo_hash : enable_caching (pool s) = false -> forall l, l ∈ blocks (pool s) -> hash_of (bheap (pool s)) l = None;
}.

(** What a method guarantees to the other managers: the configuration of the pool is kept,
    and so is every uncached block that only they reference. *)
Record mgr_frame (extra : loc -> Z) (s s' : mstate) : Prop := {
  mf_pool : pool_frame (pool s) (pool s');
  mf_kind : kind (mg s') = kind (mg s);
  mf_bs : block_size (mg s') = block_size (mg s);
  mf_gid : kv_cache_group_id (mg s') = kv_cache_group_id (mg s);
  mf_caching : m_enable_caching (mg s') = m_enable_caching (mg s);
  mf_cap : _max_admission_blocks_per_request (mg s') = _max_admission_blocks_per_request (mg s);
  mf_null : _null_block (mg s') = _null_block (mg s);
  mf_keep : forall l, l ∈ blocks (pool s) -> l <> null_block (pool s) -> 0 < extra l ->
    ref_of (bheap (pool s)) l = 1 -> hash_of (bheap (pool s)) l = None ->
    ref_of (bheap (pool s')) l = 1 /\ hash_of (bheap (pool s')) l = None;
}.

#[export] Instance mgr_frame_preorder extra : PreOrder (mgr_frame extra).
Proof.
  split.
  - intros s. by split.
  - intros s1 s2 s3 [] []. split; try congruence; [by etransitivity |].
    intros l Hl Hn He Hr Hh. destruct (mf_keep0 l Hl Hn He Hr Hh) as [? ?].
    apply mf_keep1; [by rewrite (pf_blocks _ _ mf_pool0) | by rewrite (pf_null _ _ mf_pool0) | done | done | done].
Qed.

Section basics.
Context {extra : loc -> Z} {s : mstate} {L : list loc} (Hok : mgr_ok extra s L).

(** A block held in a table is not free. *)
Lemma held_not_free rid l :
  l ∈ tbl (req_to_blocks (mg s)) rid -> l <> null_block (pool s) ->
  1 <= ref_of (bheap (pool s)) l /\ (l ∉ L).
Proof.
  intros Hl Hn. pose proof (mo_in _ _ _ Hok rid l Hl) as HB.
  assert (Hr : 1 <= ref_of (bheap (pool s)) l).
  { rewrite (mo_ref _ _ _ Hok) by done. pose proof (mo_extra _ _ _ Hok l).
    pose proof (tbl_held_ge (req_to_blocks (mg s)) rid l). apply occ_pos in Hl. lia. }
  split; [done |]. intros HL. destruct (mo_pool _ _ _ Hok) as [_ Hrefs].
  destruct (Hrefs l HB Hn) as [_ Hiff]. apply Hiff in HL. lia.
Qed.

(** A free block is in no table and not referenced by other managers. *)
Lemma free_not_held l :
  l ∈ L -> extra l = 0 /\ tbl_held (req_to_blocks (mg s)) l = 0 /\ ref_of (bheap (pool s)) l = 0 /\
           l ∈ blocks (pool s) /\ l <> null_block (pool s).
Proof.
  intros HL. destruct (mo_pool _ _ _ Hok) as [Hc Hrefs]. destruct (pi_sub _ _ Hc l HL) as [HB Hn].
  destruct (Hrefs l HB Hn) as [_ Hiff]. pose proof (proj2 Hiff HL) as H0.
  pose proof (mo_ref _ _ _ Hok l HB Hn) as Hr. pose proof (mo_extra _ _ _ Hok l).
  pose proof (tbl_held_nonneg (req_to_blocks (mg s)) l). split_and!; [lia | lia | done | done | done].
Qed.

Lemma tbl_zero_not_in t rid l : tbl_held t l = 0 -> l ∉ tbl t rid.
Proof. intros H0. apply occ_zero. pose proof (tbl_held_ge t rid l). pose proof (occ_nonneg l (tbl t rid)). lia. Qed.
End basics.

(** Two different requests that hold a block. *)
Lemma tbl_held_two t r1 r2 l : r1 <> r2 -> occ l (tbl t r1) + occ l (tbl t r2) <= tbl_held t l.
Proof.
  intros Hne. rewrite (tbl_held_delete t r1 l). pose proof (tbl_held_ge (delete r1 t) r2 l) as H.
  rewrite tbl_delete, decide_False in H by done. lia.
Qed.

(** ** Giving blocks back *)

(** [m'] is [m] with the table of [rid] changed, releasing the references [rel]. *)
Record releases (m m' : Manager) (nul : loc) (rid : string) (rel : list loc) : Prop := {
  re_held : forall l, l <> nul -> tbl_held (req_to_blocks m') l = tbl_held (req_to_blocks m) l - occ l rel;
  re_other : forall r, r <> rid -> tbl (req_to_blocks m') r = tbl (req_to_blocks m) r /\ num_cached m' r = num_cached m r;
  re_in : forall l, l ∈ tbl (req_to_blocks m') rid -> l ∈ tbl (req_to_blocks m) rid \/ l = nul;
  re_NoDup : NoDup (filter (fun l => l <> nul) (tbl (req_to_blocks m') rid));
  re_cached : 0 <= num_cached m' rid;
  re_tail : forall i l, num_cached m' rid <= Z.of_nat i -> tbl (req_to_blocks m') rid !! i = Some l -> l <> nul ->
    num_cached m rid <= Z.of_nat i /\ tbl (req_to_blocks m) rid !! i = Some l /\ (l ∉ rel);
  re_kind : kind m' = kind m;
  re_bs : block_size m' = block_size m;
  re_gid : kv_cache_group_id m' = kv_cache_group_id m;
  re_caching : m_enable_caching m' = m_enable_caching m;
  re_cap : _max_admission_blocks_per_request m' = _max_admission_blocks_per_request m;
  re_null : _null_block m' = _null_block m;
}.

Lemma release_ok extra s L m' rid rel :
  mgr_ok extra s L ->
  (forall l, l ∈ rel -> l ∈ tbl (req_to_blocks (mg s)) rid) ->
  NoDup (filter (fun l => l <> null_block (pool s)) rel) ->
  releases (mg s) m' (null_block (pool s)) rid rel ->
  exists p', free_blocks rel (pool s) = (Ok tt, p') /\
    mgr_ok extra (mkMS m' p') (L ++ released (pool s) rel) /\ mgr_frame extra s (mkMS m' p') /\
    (forall x, hash_of (bheap p') x = hash_of (bheap (pool s)) x).
Proof.
  intros Hok Hin Hnd Hre. set (nul := null_block (pool s)) in *.
  destruct (free_blocks_spec (pool s) L rel (mo_pool _ _ _ Hok)) as (p' & Hrun & Hinv & Hfr & Hr & Hh).
  { intros l Hl. eapply (mo_in _ _ _ Hok), Hin, Hl. }
  { done. }
  { intros l Hl Hn. eapply (held_not_free Hok); [by apply Hin | done]. }
  (* an uncached block that somebody else holds alone is not released *)
  assert (Hnot : forall l, l ∈ blocks (pool s) -> l <> nul -> ref_of (bheap (pool s)) l = 1 ->
     (0 < extra l \/ exists r, r <> rid /\ l ∈ tbl (req_to_blocks (mg s)) r) -> occ l rel = 0).
  { intros l HB Hn H1 Hwho. apply occ_zero. intros Hrel. apply Hin in Hrel.
    pose proof (mo_ref _ _ _ Hok l HB Hn) as Hrf. pose proof (mo_extra _ _ _ Hok l).
    pose proof (proj2 (occ_pos l _) Hrel). destruct Hwho as [He | (r & Hr' & Hl)].
    - pose proof (tbl_held_ge (req_to_blocks (mg s)) rid l). lia.
    - pose proof (tbl_held_two (req_to_blocks (mg s)) r rid l Hr'). pose proof (proj2 (occ_pos l _) Hl). lia. }
  exists p'. split_and!; [done | | | done].
  - split; simpl; rewrite ?(pf_blocks _ _ Hfr), ?(pf_null _ _ Hfr), ?(re_null _ _ _ _ _ Hre), ?(re_bs _ _ _ _ _ Hre);
      try done; try apply Hok.
    + intros r l Hl. destruct (decide (r = rid)) as [-> | Hne].
      * destruct (re_in _ _ _ _ _ Hre l Hl) as [? | ->]; [by apply (mo_in _ _ _ Hok rid) |].
        apply (pi_null _ _ (pinv_core _ _ (mo_pool _ _ _ Hok))).
      * rewrite (proj1 (re_other _ _ _ _ _ Hre r Hne)) in Hl. by apply (mo_in _ _ _ Hok r).
    + intros r. destruct (decide (r = rid)) as [-> | Hne]; [apply (re_NoDup _ _ _ _ _ Hre) |].
      rewrite (proj1 (re_other _ _ _ _ _ Hre r Hne)). apply (mo_NoDup _ _ _ Hok).
    + intros l HB Hn. rewrite Hr, (mo_ref _ _ _ Hok l HB Hn), (re_held _ _ _ _ _ Hre l Hn). lia.
    + intros r i l Hi Hl Hn. rewrite Hh, Hr. destruct (decide (r = rid)) as [-> | Hne].
      * destruct (re_tail _ _ _ _ _ Hre i l Hi Hl Hn) as (Hi' & Hl' & Hnr).
        destruct (mo_tail _ _ _ Hok rid i l Hi' Hl' Hn) as [-> ->]. rewrite (proj2 (occ_zero l rel) Hnr). done.
      * destruct (re_other _ _ _ _ _ Hre r Hne) as [Et En]. rewrite Et in Hl. rewrite En in Hi.
        destruct (mo_tail _ _ _ Hok r i l Hi Hl Hn) as [-> H1].
        assert (HlT : l ∈ tbl (req_to_blocks (mg s)) r) by (by eapply list_elem_of_lookup_2).
        rewrite (Hnot l); [split; [done | lia] | by apply (mo_in _ _ _ Hok r) | done | done | eauto].
    + intros r. destruct (decide (r = rid)) as [-> | Hne]; [apply (re_cached _ _ _ _ _ Hre) |].
      rewrite (proj2 (re_other _ _ _ _ _ Hre r Hne)). apply (mo_cached _ _ _ Hok).
    + rewrite (pf_caching _ _ Hfr). intros E l. rewrite Hh. by apply (mo_hash _ _ _ Hok).
  - split; simpl; try done; try apply Hre. intros l HB Hn He H1 Hh0. rewrite Hr, Hh.
    rewrite (Hnot l) by auto. split; [lia | done].
Qed.

(** The references of the table [bs] of [rid] that remain in [bs']. *)
Lemma releases_table m m' nul rid bs' rel :
  req_to_blocks m' = <[rid := bs']> (req_to_blocks m) -> num_cached_block m' = num_cached_block m ->
  0 <= num_cached m rid ->
  (forall l, l <> nul -> occ l bs' = occ l (tbl (req_to_blocks m) rid) - occ l rel) ->
  (forall l, l ∈ bs' -> l ∈ tbl (req_to_blocks m) rid \/ l = nul) ->
  NoDup (filter (fun l => l <> nul) (tbl (req_to_blocks m) rid)) ->
  (forall i l, bs' !! i = Some l -> l <> nul -> tbl (req_to_blocks m) rid !! i = Some l) ->
  kind m' = kind m -> block_size m' = block_size m -> kv_cache_group_id m' = kv_cache_group_id m ->
  m_enable_caching m' = m_enable_caching m ->
  _max_admission_blocks_per_request m' = _max_admission_blocks_per_request m -> _null_block m' = _null_block m ->
  releases m m' nul rid rel.
Proof.
  intros Ht Hc H0 Hocc Hin Hnd Hpos ? ? ? ? ? ?.
  assert (Hone : forall l, l <> nul -> occ l (tbl (req_to_blocks m) rid) <= 1).
  { intros l Hn. rewrite <- (occ_filter (fun l => l <> nul)) by done. rewrite occ_NoDup by done. by case_decide. }
  split; rewrite ?Ht, ?tbl_set, ?decide_True by done; try done.
  - intros l Hn. rewrite tbl_held_set, Hocc by done. lia.
  - intros r Hne. rewrite tbl_set, decide_False by done. unfold num_cached. by rewrite Hc.
  - apply occ_le_NoDup. intros l. destruct (decide (l = nul)) as [-> | Hn].
    + rewrite (proj2 (occ_zero _ _)); [lia |]. rewrite list_elem_of_filter. tauto.
    + rewrite occ_filter by done. rewrite Hocc by done. specialize (Hone l Hn). pose proof (occ_nonneg l rel). lia.
  - unfold num_cached. by rewrite Hc.
  - intros i l. unfold num_cached at 1. rewrite Hc. intros Hi Hl Hn. split_and!; [done | by apply Hpos |].
    apply occ_zero. specialize (Hone l Hn). specialize (Hocc l Hn). pose proof (occ_nonneg l rel).
    assert (0 < occ l bs') by (apply occ_pos; by eapply list_elem_of_lookup_2). lia.
Qed.

(** *** free *)

Lemma base_free_spec extra s L rid :
  mgr_ok extra s L ->
  exists s', base_free rid s = (Ok tt, s') /\
    mgr_ok extra s' (L ++ released (pool s) (reverse (tbl (req_to_blocks (mg s)) rid))) /\
    mgr_frame extra s s' /\ req_to_blocks (mg s') = delete rid (req_to_blocks (mg s)) /\
    num_cached_block (mg s') = delete rid (num_cached_block (mg s)).
Proof.
  intros Hok. set (bs := tbl (req_to_blocks (mg s)) rid).
  set (m' := set_cached (delete rid (num_cached_block (mg s))) (set_blocks (delete rid (req_to_blocks (mg s))) (mg s))).
  destruct (release_ok extra s L m' rid (reverse bs) Hok) as (p' & Hrun & Hok' & Hfr & _).
  - intros l Hl. by rewrite elem_of_reverse in Hl.
  - rewrite reverse_Permutation. apply (mo_NoDup _ _ _ Hok).
  - split; try done; unfold m'; simpl; rewrite ?tbl_delete, ?decide_True by done; try done.
    + intros l _. rewrite (tbl_held_delete (req_to_blocks (mg s)) rid l), occ_reverse. fold bs. lia.
    + intros r Hne. rewrite tbl_delete, decide_False by done. split; [done |]. unfold num_cached. simpl.
      by rewrite lookup_delete_ne.
    + by intros l ?%elem_of_nil.
    + constructor.
    + unfold num_cached. simpl. by rewrite lookup_delete_eq.
  - exists (mkMS m' p'). split_and!; [| done | done | done | done].
    unfold base_free, self, gets, with_mg, bind, on_pool, zoom, modify. simpl. fold (tbl (req_to_blocks (mg s)) rid).
    fold bs. by rewrite Hrun.
Qed.

(** *** remove_skipped_blocks *)

(** [null_out] replaces the last run of non-null blocks below index [n] by null blocks, and
    returns that run from right to left. *)
Lemma null_out_spec nul n : forall bs, (n <= length bs)%nat ->
  exists k, (k <= n)%nat /\ (k = 0%nat \/ bs !! (k - 1)%nat = Some nul) /\
    Forall (fun l => l <> nul) (take (n - k) (drop k bs)) /\
    null_out nul n bs = (reverse (take (n - k) (drop k bs)), take k bs ++ replicate (n - k) nul ++ drop n bs).
Proof.
  induction n as [|n IH]; intros bs Hn; simpl.
  { exists 0%nat. split_and!; [done | by left | constructor | done]. }
  destruct (lookup_lt_is_Some_2 bs n) as [b Hb]; [lia |]. rewrite Hb.
  destruct (decide (b = nul)) as [-> | Hbn].
  - exists (S n). rewrite Nat.sub_diag. split_and!; [done | right; by rewrite Nat.sub_succ, Nat.sub_0_r | constructor |].
    simpl. by rewrite take_drop.
  - destruct (IH (<[n := nul]> bs)) as (k & Hk & Hstop & Hall & Hrun); [rewrite length_insert; lia |].
    rewrite drop_insert_ge in Hall, Hrun by lia. rewrite take_insert_ge in Hall by lia.
    rewrite !take_insert_ge in Hrun by lia.
    exists k. rewrite Hrun. replace (S n - k)%nat with (S (n - k)) by lia.
    assert (Hlk : drop k bs !! (n - k)%nat = Some b) by (rewrite lookup_drop; by replace (k + (n - k))%nat with n by lia).
    rewrite (take_S_r _ _ _ Hlk). split_and!; [lia | | |].
    + destruct (decide (k = 0%nat)) as [-> | Hk0]; [by left | right].
      destruct Hstop as [? | Hstop]; [lia |]. by rewrite list_lookup_insert_ne in Hstop by lia.
    + apply Forall_app. split; [done | by repeat constructor].
    + rewrite reverse_snoc. f_equal.
      rewrite replicate_S_end, <- app_assoc. do 2 f_equal.
      rewrite drop_insert_ge by lia. rewrite Nat.sub_diag.
      by rewrite (drop_S _ _ _ Hb).
Qed.

(** [m'] is [m] with the blocks [K] appended to the table of [rid]. *)
Record appends (m m' : Manager) (rid : string) (K : list loc) : Prop := {
  ap_blocks : forall r, tbl (req_to_blocks m') r =
    if decide (r = rid) then tbl (req_to_blocks m) rid ++ K else tbl (req_to_blocks m) r;
  ap_held : forall l, tbl_held (req_to_blocks m') l = tbl_held (req_to_blocks m) l + occ l K;
  ap_cached : num_cached_block m' = num_cached_block m;
  ap_kind : kind m' = kind m;
  ap_bs : block_size m' = block_size m;
  ap_gid : kv_cache_group_id m' = kv_cache_group_id m;
  ap_caching : m_enable_caching m' = m_enable_caching m;
  ap_cap : _max_admission_blocks_per_request m' = _max_admission_blocks_per_request m;
  ap_null : _null_block m' = _null_block m;
}.

Lemma appends_table m m' rid K :
  req_to_blocks m' = <[rid := tbl (req_to_blocks m) rid ++ K]> (req_to_blocks m) ->
  num_cached_block m' = num_cached_block m -> kind m' = kind m -> block_size m' = block_size m ->
  kv_cache_group_id m' = kv_cache_group_id m -> m_enable_caching m' = m_enable_caching m ->
  _max_admission_blocks_per_request m' = _max_admission_blocks_per_request m -> _null_block m' = _null_block m ->
  appends m m' rid K.
Proof.
  intros Ht ? ? ? ? ? ? ?. split; try done.
  - intros r. by rewrite Ht, tbl_set.
  - intros l. rewrite Ht, tbl_held_set, occ_app. lia.
Qed.

Lemma appends_trans m1 m2 m3 rid K1 K2 :
  appends m1 m2 rid K1 -> appends m2 m3 rid K2 -> appends m1 m3 rid (K1 ++ K2).
Proof.
  intros [] []. split; try congruence.
  - intros r. rewrite ap_blocks1, !ap_blocks0. case_decide; [| done]. by rewrite decide_True, <- app_assoc.
  - intros l. rewrite ap_held1, ap_held0, occ_app. lia.
Qed.

(** Looking up a table may insert an empty one (defaultdict). *)
Lemma blocks_of_spec extra s L rid :
  mgr_ok extra s L ->
  exists s', blocks_of rid s = (Ok (tbl (req_to_blocks (mg s)) rid), s') /\ mgr_ok extra s' L /\ mgr_frame extra s s' /\
    pool s' = pool s /\ (exists t, mg s' = set_blocks t (mg s)) /\
    (forall r, tbl (req_to_blocks (mg s')) r = tbl (req_to_blocks (mg s)) r) /\
    appends (mg s) (mg s') rid [].
Proof.
  intros Hok. unfold blocks_of, self, gets, bind.
  assert (Etbl : tbl (req_to_blocks (mg s)) rid = default [] (req_to_blocks (mg s) !! rid)) by done.
  destruct (req_to_blocks (mg s) !! rid) as [bs|] eqn:E; simpl in *; rewrite Etbl.
  - exists s. split_and!; try done; [exists (req_to_blocks (mg s)); by destruct s as [[] ?] |].
    split; try done.
    + intros r. rewrite app_nil_r. case_decide; by subst.
    + intros l. rewrite occ_nil. lia.
  - eexists. split; [reflexivity |]. simpl.
    assert (Ht : forall r, tbl (<[rid := []]> (req_to_blocks (mg s))) r = tbl (req_to_blocks (mg s)) r).
    { intros r. rewrite tbl_set. case_decide; subst; [unfold tbl; by rewrite E | done]. }
    split_and!; try done; [| by eexists | apply appends_table; try done; simpl; by rewrite Etbl].
    destruct Hok. split; simpl; try done.
    + intros r l. rewrite Ht. apply mo_in0.
    + intros r. rewrite Ht. apply mo_NoDup0.
    + intros l Hl Hn. rewrite tbl_held_set. unfold tbl. rewrite E. simpl. rewrite occ_nil. rewrite mo_ref0 by done. lia.
    + intros r i l. rewrite Ht. apply mo_tail0.
Qed.

Lemma occ_mid (l nul : loc) (bs : list loc) k n :
  (k <= n)%nat -> l <> nul ->
  occ l (take k bs ++ replicate (n - k) nul ++ drop n bs) = occ l bs - occ l (take (n - k) (drop k bs)).
Proof.
  intros Hk Hn.
  assert (E : occ l (take k bs ++ take (n - k) (drop k bs) ++ drop (n - k) (drop k bs)) = occ l bs)
    by (by rewrite !take_drop).
  rewrite drop_drop in E. replace (k + (n - k))%nat with n in E by lia. rewrite !occ_app in *.
  rewrite occ_replicate_ne by done. lia.
Qed.

Lemma null_mid_lookup (nul : loc) (bs : list loc) k n i l :
  (k <= n)%nat -> (n <= length bs)%nat ->
  (take k bs ++ replicate (n - k) nul ++ drop n bs) !! i = Some l -> l <> nul -> bs !! i = Some l.
Proof.
  intros Hk Hn Hl Hne. destruct (decide (i < k)%nat) as [Hi | Hi].
  - rewrite lookup_app_l in Hl by (rewrite length_take; lia). by apply lookup_take_Some in Hl as [? _].
  - rewrite lookup_app_r in Hl by (rewrite length_take; lia). rewrite length_take in Hl.
    destruct (decide (i < n)%nat).
    + rewrite lookup_app_l in Hl by (rewrite length_replicate; lia). by apply lookup_replicate in Hl as [? _].
    + rewrite lookup_app_r in Hl by (rewrite length_replicate; lia). rewrite length_replicate, lookup_drop in Hl.
      rewrite <- Hl. f_equal. lia.
Qed.

(** The effect of remove_skipped_blocks on a table. *)
Definition skipped_blocks (m : Manager) (rid : string) (total : Z) : nat :=
  Z.to_nat (Z.min (get_num_skipped_tokens (kind m) total / block_size m) (zlen (tbl (req_to_blocks m) rid))).

(** A part of a table has no block twice either. *)
Lemma NoDup_filter_run (P : loc -> Prop) `{!forall l, Decision (P l)} (bs : list loc) a n :
  NoDup (filter P bs) -> NoDup (filter P (take n (drop a bs))).
Proof.
  intros Hnd. eapply (sublist_NoDup _ (filter P bs)); [done |]. rewrite <- (take_drop a bs) at 2. rewrite filter_app. apply sublist_inserts_l.
  rewrite <- (take_drop n (drop a bs)) at 2. rewrite filter_app. apply sublist_inserts_r. done.
Qed.

(** remove_skipped_blocks keeps every block of the attention window where it is, and turns
    the last run of blocks before it into null blocks, which go back to the pool unless they
    are shared. *)
Lemma base_remove_skipped_spec extra s L rid total :
  mgr_ok extra s L ->
  exists s' L', base_remove_skipped_blocks rid total s = (Ok tt, s') /\ mgr_ok extra s' L' /\ mgr_frame extra s s' /\
    (forall l, l ∈ L -> l ∈ L') /\
    (forall r, r <> rid -> tbl (req_to_blocks (mg s')) r = tbl (req_to_blocks (mg s)) r) /\
    num_cached_block (mg s') = num_cached_block (mg s) /\
    (let bs := tbl (req_to_blocks (mg s)) rid in
     let n := if get_num_skipped_tokens (kind (mg s)) total <=? 0 then 0%nat else skipped_blocks (mg s) rid total in
     exists k, (k <= n)%nat /\ (k = 0%nat \/ bs !! (k - 1)%nat = Some (null_block (pool s))) /\
       tbl (req_to_blocks (mg s')) rid = take k bs ++ replicate (n - k) (null_block (pool s)) ++ drop n bs).
Proof.
  intros Hok. unfold base_remove_skipped_blocks, self, gets, bind at 1.
  destruct (get_num_skipped_tokens (kind (mg s)) total <=? 0) eqn:Esk.
  { exists s, L. split_and!; try done. exists 0%nat. split_and!; [done | by left | done]. }
  destruct (blocks_of_spec extra s L rid Hok) as (s1 & Hrun1 & Hok1 & Hf1 & Hp1 & (t1 & Hm1) & Ht1 & Hl1).
  unfold bind at 1. rewrite Hrun1. fold (skipped_blocks (mg s) rid total). set (n := skipped_blocks (mg s) rid total).
  set (bs := tbl (req_to_blocks (mg s)) rid). fold (skipped_blocks (mg s) rid total).
  destruct (null_out_spec (_null_block (mg s)) n bs) as (k & Hk & Hstop & Hall & Hno).
  { unfold n, skipped_blocks. fold bs. unfold zlen. lia. }
  rewrite (mo_null _ _ _ Hok) in Hno, Hstop, Hall. rewrite (mo_null _ _ _ Hok). set (nul := null_block (pool s)) in *.
  change (Z.to_nat (Z.min (get_num_skipped_tokens (kind (mg s)) total / block_size (mg s)) (zlen bs))) with n.
  rewrite Hno.
  set (rel := reverse (take (n - k) (drop k bs))). set (bs' := take k bs ++ replicate (n - k) nul ++ drop n bs).
  set (m' := set_blocks (<[rid := bs']> (req_to_blocks (mg s1))) (mg s1)).
  assert (Hocc : forall l, l <> nul -> occ l bs' = occ l bs - occ l rel).
  { intros l Hn. unfold bs', rel. rewrite occ_reverse. by apply occ_mid. }
  assert (Hlb : tbl (req_to_blocks (mg s1)) rid = bs) by apply Ht1.
  assert (Hrelin : forall l, l ∈ rel -> l ∈ bs /\ l <> nul).
  { intros l Hl. unfold rel in Hl. rewrite elem_of_reverse in Hl. rewrite Forall_forall in Hall. split; [| by apply Hall].
    apply list_elem_of_lookup in Hl as [i Hi]. apply lookup_take_Some in Hi as [Hi _].
    rewrite lookup_drop in Hi. by eapply list_elem_of_lookup_2. }
  destruct (release_ok extra s1 L m' rid rel Hok1) as (p' & Hfree & Hok' & Hfr' & _).
  - intros l Hl. rewrite Hlb. by apply Hrelin.
  - rewrite Hp1. fold nul. unfold rel. rewrite reverse_Permutation. apply NoDup_filter_run, (mo_NoDup _ _ _ Hok).
  - rewrite Hp1. fold nul. apply (releases_table _ _ _ _ bs'); try done; rewrite ?Hlb.
    + apply (mo_cached _ _ _ Hok1).
    + done.
    + intros l. unfold bs'. rewrite !elem_of_app. intros [Hl | [Hl | Hl]].
      * left. apply list_elem_of_lookup in Hl as [i [Hi _]%lookup_take_Some]. by eapply list_elem_of_lookup_2.
      * right. by apply elem_of_replicate_inv in Hl.
      * left. apply list_elem_of_lookup in Hl as [i Hi]. rewrite lookup_drop in Hi. by eapply list_elem_of_lookup_2.
    + apply (mo_NoDup _ _ _ Hok).
    + intros i l Hl Hn. unfold bs' in Hl. eapply null_mid_lookup; [done | | done | done].
      unfold n, skipped_blocks. fold bs. unfold zlen. lia.
  - exists (mkMS m' p'), (L ++ released (pool s1) rel). split_and!.
    + unfold store_blocks, with_mg, bind, modify, on_pool, zoom. simpl. fold m'. by rewrite Hfree.
    + done.
    + by etransitivity.
    + intros l Hl. apply elem_of_app. by left.
    + intros r Hne. unfold m'. simpl. rewrite tbl_set, decide_False by done. apply Ht1.
    + unfold m'. simpl. by rewrite Hm1.
    + exists k. split_and!; [done | done |]. unfold m'. simpl. by rewrite tbl_set, decide_True.
Qed.

(** ** Allocation *)

Lemma alloc_ok extra s K L m' rid :
  mgr_ok extra s (K ++ L) -> appends (mg s) m' rid K ->
  exists p', get_new_blocks (zlen K) (pool s) = (Ok K, p') /\
    mgr_ok extra (mkMS m' p') L /\ mgr_frame extra s (mkMS m' p').
Proof.
  intros Hok Hap.
  destruct (get_new_blocks_spec (pool s) K L (mo_pool _ _ _ Hok)) as (p' & Hrun & Hinv & Hfr & Hr & Hh).
  assert (HK : forall l, l ∈ K -> extra l = 0 /\ tbl_held (req_to_blocks (mg s)) l = 0 /\
     ref_of (bheap (pool s)) l = 0 /\ l ∈ blocks (pool s) /\ l <> null_block (pool s)).
  { intros l Hl. apply (free_not_held Hok). apply elem_of_app. by left. }
  pose proof (pool_L_NoDup (pinv_core _ _ (mo_pool _ _ _ Hok))) as (HndK & _ & _)%NoDup_app.
  assert (HhK : forall l, l ∈ K -> hash_of (bheap p') l = None).
  { intros l Hl. rewrite Hh, bool_decide_true by done. destruct (enable_caching (pool s)) eqn:Ec; simpl; [done |].
    apply (mo_hash _ _ _ Hok); [done | by apply HK]. }
  assert (Hold : forall l, l ∈ blocks (pool s) -> ref_of (bheap (pool s)) l = 1 ->
     hash_of (bheap (pool s)) l = None -> ref_of (bheap p') l = 1 /\ hash_of (bheap p') l = None).
  { intros l HB H1 Hn. assert (Hnk : l ∉ K) by (intros Hl; destruct (HK l Hl) as (_ & _ & ? & _); lia).
    rewrite Hr, Hh, decide_False, bool_decide_false, andb_false_r by done. done. }
  exists p'. split_and!; [done | |].
  - split; simpl; rewrite ?(pf_blocks _ _ Hfr), ?(pf_null _ _ Hfr), ?(ap_null _ _ _ _ Hap), ?(ap_bs _ _ _ _ Hap);
      try done; try apply Hok.
    + intros r l. rewrite (ap_blocks _ _ _ _ Hap). case_decide as E; [| by apply (mo_in _ _ _ Hok)].
      rewrite elem_of_app. intros [? | ?%HK]; [by eapply (mo_in _ _ _ Hok) | tauto].
    + intros r. rewrite (ap_blocks _ _ _ _ Hap). case_decide as E; [| by apply (mo_NoDup _ _ _ Hok)].
      rewrite filter_app. apply NoDup_app. split_and!; [apply (mo_NoDup _ _ _ Hok) | |].
      * intros l [_ Hl]%list_elem_of_filter [_ HlK]%list_elem_of_filter.
        destruct (HK l HlK) as (_ & H0 & _). by eapply tbl_zero_not_in in H0.
      * by eapply NoDup_filter.
    + intros l HB Hn. rewrite Hr, (ap_held _ _ _ _ Hap), occ_NoDup by done. case_decide as E.
      * destruct (HK l E) as (-> & -> & _). done.
      * rewrite (mo_ref _ _ _ Hok) by done. lia.
    + intros r i l. unfold num_cached. simpl. rewrite (ap_cached _ _ _ _ Hap), (ap_blocks _ _ _ _ Hap). intros Hi Hl Hn.
      assert (Hcase : l ∈ K \/ exists r' i', num_cached (mg s) r' <= Z.of_nat i' /\ tbl (req_to_blocks (mg s)) r' !! i' = Some l).
      { case_decide as E; [subst r | right; by exists r, i]. apply lookup_app_Some in Hl as [Hl | [_ Hl]].
        - right. by exists rid, i.
        - left. by eapply list_elem_of_lookup_2. }
      destruct Hcase as [HlK | (r' & i' & Hi' & Hl')].
      * split; [by apply HhK |]. by rewrite Hr, decide_True.
      * destruct (mo_tail _ _ _ Hok r' i' l Hi' Hl' Hn) as [? ?]. apply and_comm, Hold; try done.
        eapply (mo_in _ _ _ Hok r'), list_elem_of_lookup_2, Hl'.
    + intros r. unfold num_cached. simpl. rewrite (ap_cached _ _ _ _ Hap). apply (mo_cached _ _ _ Hok).
    + rewrite (pf_caching _ _ Hfr). intros E l. rewrite Hh, E. simpl. by apply (mo_hash _ _ _ Hok).
  - split; simpl; try done; try apply Hap. intros l HB Hn He H1 Hh0. by apply Hold.
Qed.

(** Allocating [n] blocks for a request: the first [n] free blocks, or a ValueError. *)
Lemma extend_new_spec extra s L rid n :
  mgr_ok extra s L -> 0 <= n <= zlen L ->
  exists s', extend_new rid (tbl (req_to_blocks (mg s)) rid) n s = (Ok (take (Z.to_nat n) L), s') /\
    mgr_ok extra s' (drop (Z.to_nat n) L) /\ mgr_frame extra s s' /\ appends (mg s) (mg s') rid (take (Z.to_nat n) L).
Proof.
  intros Hok Hn. set (K := take (Z.to_nat n) L).
  assert (HzK : zlen K = n) by (unfold K, zlen in *; rewrite length_take; lia).
  rewrite <- (take_drop (Z.to_nat n) L) in Hok. fold K in Hok.
  set (bs' := tbl (req_to_blocks (mg s)) rid ++ K).
  (* the ids are read from the pool after the allocation *)
  destruct (get_new_blocks_spec (pool s) K _ (mo_pool _ _ _ Hok)) as (p1 & Hrun1 & _).
  set (m1 := set_blocks (<[rid := bs']> (req_to_blocks (mg s))) (mg s)).
  set (m' := if tracks_new_ids m1 then set_new_ids (new_block_ids m1 ++ (id_of (bheap p1) <$> K)) m1 else m1).
  assert (Hap : appends (mg s) m' rid K).
  { unfold m'. destruct (tracks_new_ids m1); by apply appends_table. }
  destruct (alloc_ok extra s K _ m' rid Hok Hap) as (p' & Hrun & Hok' & Hfr).
  assert (p1 = p') as -> by congruence.
  exists (mkMS m' p'). split_and!; [| done | done | done].
  unfold extend_new, on_pool, zoom, bind. rewrite <- HzK, Hrun.
  unfold store_blocks, record_new_ids, self, with_mg, gets, modify, bind. simpl. fold bs' m1. unfold m'.
  change (tracks_new_ids m1) with (tracks_new_ids (mg s)). by destruct (tracks_new_ids (mg s)).
Qed.

Lemma base_allocate_new_blocks_spec extra s L rid num_tokens :
  mgr_ok extra s L ->
  let need := cdiv num_tokens (block_size (mg s)) - zlen (tbl (req_to_blocks (mg s)) rid) in
  let n := Z.max need 0 in
  if n <=? zlen L then
    exists s', base_allocate_new_blocks rid num_tokens s = (Ok (take (Z.to_nat n) L), s') /\
      mgr_ok extra s' (drop (Z.to_nat n) L) /\ mgr_frame extra s s' /\ appends (mg s) (mg s') rid (take (Z.to_nat n) L)
  else
    exists s', base_allocate_new_blocks rid num_tokens s = (Err ValueError, s') /\ mgr_ok extra s' L /\ pool s' = pool s.
Proof.
  intros Hok need n.
  destruct (blocks_of_spec extra s L rid Hok) as (s1 & Hrun1 & Hok1 & Hf1 & Hp1 & (t1 & Hm1) & Ht1 & Hl1).
  assert (Hrun : base_allocate_new_blocks rid num_tokens s =
    (if need <=? 0 then ret [] else extend_new rid (tbl (req_to_blocks (mg s)) rid) need) s1).
  { unfold base_allocate_new_blocks, bind at 1. rewrite Hrun1. unfold bind, self, gets.
    assert (Ebs : block_size (mg s1) = block_size (mg s)) by (by rewrite Hm1). by rewrite Ebs. }
  rewrite Hrun. destruct (Z.leb_spec n (zlen L)) as [Hle | Hgt].
  - destruct (Z.leb_spec need 0) as [Hn0 | Hn0].
    + exists s1. assert (n = 0) as -> by (unfold n; lia). by split_and!.
    + destruct (extend_new_spec extra s1 L rid n Hok1) as (s' & Hrun' & Hok' & Hf' & Hap); [unfold n in *; lia |].
      rewrite Ht1 in Hrun'. exists s'. replace need with n by (unfold n; lia).
      split_and!; [done | done | by etransitivity |]. by apply (appends_trans _ _ _ _ [] _ Hl1).
  - assert (Hbig : zlen L < need) by (unfold n in Hgt; pose proof (zlen_nonneg L); lia).
    exists s1. destruct (Z.leb_spec need 0) as [Hn0 | Hn0]; [pose proof (zlen_nonneg L); lia |].
    split_and!; [| done | done]. unfold extend_new, on_pool, zoom, bind.
    rewrite (get_new_blocks_too_many _ L); [by destruct s1 | apply (mo_pool _ _ _ Hok1) | done].
Qed.

(** ** Prefix-cache hits *)

(** Computed blocks handed to a manager: blocks of the pool, none twice, all cached. *)
Record hit_blocks (p : BlockPool) (ts : list loc) : Prop := {
  hb_in : forall l, l ∈ ts -> l ∈ blocks p;
  hb_NoDup : NoDup (filter (fun l => l <> null_block p) ts);
  hb_hash : forall l, l ∈ ts -> l <> null_block p -> is_Some (hash_of (bheap p) l);
}.

(** [m'] is [m] where [rid], which had no blocks, got [k] null blocks and then [ts]. *)
Record shares (m m' : Manager) (nul : loc) (rid : string) (k : nat) (ts : list loc) : Prop := {
  sh_empty : tbl (req_to_blocks m) rid = [];
  sh_blocks : forall r, tbl (req_to_blocks m') r =
    if decide (r = rid) then replicate k nul ++ ts else tbl (req_to_blocks m) r;
  sh_held : forall l, l <> nul -> tbl_held (req_to_blocks m') l = tbl_held (req_to_blocks m) l + occ l ts;
  sh_cached : num_cached_block m' = <[rid := Z.of_nat k + zlen ts]> (num_cached_block m);
  sh_kind : kind m' = kind m;
  sh_bs : block_size m' = block_size m;
  sh_gid : kv_cache_group_id m' = kv_cache_group_id m;
  sh_caching : m_enable_caching m' = m_enable_caching m;
  sh_cap : _max_admission_blocks_per_request m' = _max_admission_blocks_per_request m;
  sh_null : _null_block m' = _null_block m;
}.

Lemma share_ok extra s L m' rid k ts :
  mgr_ok extra s L -> hit_blocks (pool s) ts -> shares (mg s) m' (null_block (pool s)) rid k ts ->
  exists p', touch ts (pool s) = (Ok tt, p') /\
    mgr_ok extra (mkMS m' p') (filter (fun x => x ∉ ts) L) /\ mgr_frame extra s (mkMS m' p') /\
    (forall l, hash_of (bheap p') l = hash_of (bheap (pool s)) l).
Proof.
  intros Hok [Hin Hnd Hhash] Hsh. set (nul := null_block (pool s)) in *.
  destruct (touch_spec ts (pool s) L (mo_pool _ _ _ Hok) Hin) as (p' & Hrun & Hinv & Hfr & Hr & Hh).
  assert (Hold : forall l, l <> nul -> ref_of (bheap (pool s)) l = 1 -> hash_of (bheap (pool s)) l = None ->
     ref_of (bheap p') l = 1 /\ hash_of (bheap p') l = None).
  { intros l Hn H1 Hno. rewrite Hr, Hh. rewrite (proj2 (occ_zero l ts)); [split; [lia | done] |].
    intros Hl. destruct (Hhash l Hl Hn). congruence. }
  exists p'. split_and!; [done | | | done].
  - split; simpl; rewrite ?(pf_blocks _ _ Hfr), ?(pf_null _ _ Hfr), ?(sh_null _ _ _ _ _ _ Hsh), ?(sh_bs _ _ _ _ _ _ Hsh);
      try done; try apply Hok.
    + intros r l. rewrite (sh_blocks _ _ _ _ _ _ Hsh). case_decide; [| by apply (mo_in _ _ _ Hok)].
      rewrite elem_of_app. intros [->%elem_of_replicate_inv | ?]; [| by apply Hin].
      apply (pi_null _ _ (pinv_core _ _ (mo_pool _ _ _ Hok))).
    + intros r. fold nul. rewrite (sh_blocks _ _ _ _ _ _ Hsh). case_decide; [| apply (mo_NoDup _ _ _ Hok)].
      rewrite filter_app. replace (filter (fun l => l <> nul) (replicate k nul)) with (@nil loc); [done |].
      symmetry. clear. induction k as [|k IH]; [done |]. simpl. rewrite filter_cons_False; tauto.
    + intros l HB Hn. rewrite Hr, (sh_held _ _ _ _ _ _ Hsh) by done. rewrite (mo_ref _ _ _ Hok) by done. lia.
    + intros r i l. unfold num_cached. simpl. rewrite (sh_cached _ _ _ _ _ _ Hsh), (sh_blocks _ _ _ _ _ _ Hsh).
      case_decide as E.
      * subst r. rewrite lookup_insert_eq. simpl. intros Hi Hl%lookup_lt_Some. rewrite length_app, length_replicate in Hl.
        unfold zlen in Hi. lia.
      * rewrite lookup_insert_ne by done. intros Hi Hl Hn.
        destruct (mo_tail _ _ _ Hok r i l Hi Hl Hn) as [? ?]. by apply and_comm, Hold.
    + intros r. unfold num_cached. simpl. rewrite (sh_cached _ _ _ _ _ _ Hsh). destruct (decide (r = rid)) as [-> | Hne].
      * rewrite lookup_insert_eq. simpl. pose proof (zlen_nonneg ts). lia.
      * rewrite lookup_insert_ne by done. apply (mo_cached _ _ _ Hok).
    + rewrite (pf_caching _ _ Hfr). intros E l. rewrite Hh. by apply (mo_hash _ _ _ Hok).
  - split; simpl; try done; try apply Hsh. intros l HB Hn He H1 Hh0. by apply Hold.
Qed.

(** The blocks a touch takes off the free list are the evictable ones it counts. *)
Lemma evictable_count p L ts :
  pool_inv p L -> hit_blocks p ts ->
  zlen (filter (fun x => x ∉ ts) L) = zlen L - _get_num_evictable_blocks (bheap p) ts.
Proof.
  intros [Hc Hr] [Hin Hnd _]. unfold _get_num_evictable_blocks.
  assert (E : filter (fun l => (ref_of (bheap p) l =? 0) && negb (null_of (bheap p) l) = true) ts =
              filter (fun l => l ∈ L) (filter (fun l => l <> null_block p) ts)).
  { rewrite list_filter_filter. apply filter_ext_in. intros l Hl.
    rewrite (pi_isnull _ _ Hc l (Hin l Hl)), andb_true_iff, Z.eqb_eq. case_bool_decide as Hn; simpl.
    - split; [by intros [_ ?] | by intros [_ ?]].
    - destruct (Hr l (Hin l Hl) Hn) as [_ ->]. tauto. }
  rewrite E.
  assert (Hperm : filter (fun l => l ∈ L) (filter (fun l => l <> null_block p) ts) ≡ₚ filter (fun x => x ∈ ts) L).
  { apply NoDup_Permutation.
    - by apply NoDup_filter.
    - apply NoDup_filter, (pool_L_NoDup Hc).
    - intros l. rewrite !list_elem_of_filter. split; [tauto |]. intros [? ?]. split_and!; try done. by apply (pi_sub _ _ Hc). }
  unfold zlen. rewrite Hperm. clear. induction L as [|x L IH]; [done |].
  rewrite !filter_cons. repeat case_decide; simpl; try tauto; lia.
Qed.

(** A slice of hit blocks. *)
Lemma hit_blocks_drop p ts n : hit_blocks p ts -> hit_blocks p (drop n ts).
Proof.
  assert (Hsub : forall l, l ∈ drop n ts -> l ∈ ts).
  { intros l [i Hi]%list_elem_of_lookup. rewrite lookup_drop in Hi. by eapply list_elem_of_lookup_2. }
  intros [Hin Hnd Hh]. split; [auto | | auto].
  rewrite <- (take_drop n ts), filter_app in Hnd. by apply NoDup_app in Hnd as (_ & _ & ?).
Qed.

Lemma py_slice_to_end {A} (l : list A) n : 0 <= n -> py_slice l n (zlen l) = drop (Z.to_nat n) l.
Proof.
  intros Hn. unfold py_slice, slice_bound. pose proof (zlen_nonneg l). rewrite !(proj2 (Z.ltb_ge _ _)) by lia.
  rewrite Z.min_id. destruct (decide (n <= zlen l)) as [Hle | Hgt].
  - rewrite Z.min_l by done. apply take_ge. rewrite length_drop. unfold zlen in *. lia.
  - rewrite Z.min_r by lia. rewrite Z.sub_diag. simpl. by rewrite !drop_ge by (unfold zlen in *; lia).
Qed.

(** Quantities of allocate_new_computed_blocks. *)
Definition skipped_of (m : Manager) (total : Z) : Z := get_num_skipped_tokens (kind m) total / block_size m.
Definition external_of (m : Manager) (local ext : Z) : Z :=
  let total := local + ext in
  if 0 <? skipped_of m total then Z.min (total - get_num_skipped_tokens (kind m) total) ext else ext.
(** Blocks allocated for external tokens. *)
Definition external_blocks (m : Manager) (new : list loc) (local ext : Z) : Z :=
  if 0 <? external_of m local ext
  then cdiv (local + ext) (block_size m) - Z.max (skipped_of m (local + ext)) (zlen new) else 0.

(** What the caller guarantees about a request that is new to the manager. *)
Record unseen_request (s : mstate) (rid : string) (new : list loc) (local ext : Z) : Prop := {
  nr_cached : num_cached_block (mg s) !! rid = None;
  nr_blocks : tbl (req_to_blocks (mg s)) rid = [];
  nr_hits : hit_blocks (pool s) new;
  nr_caching : m_enable_caching (mg s) = false -> new = [];
  nr_local : zlen new * block_size (mg s) <= local;
  nr_ext : 0 <= ext;
  nr_skip : 0 <= get_num_skipped_tokens (kind (mg s)) (local + ext) <= local + ext;
}.

Lemma skipped_nonneg s L extra rid new local ext :
  mgr_ok extra s L -> unseen_request s rid new local ext -> 0 <= skipped_of (mg s) (local + ext).
Proof. intros Hok Hnew. apply Z.div_pos; [apply Hnew | apply Hok]. Qed.

Lemma covered_le extra s L rid new local ext :
  mgr_ok extra s L -> unseen_request s rid new local ext ->
  Z.max (skipped_of (mg s) (local + ext)) (zlen new) <= cdiv (local + ext) (block_size (mg s)).
Proof.
  intros Hok Hnew. pose proof (mo_bs _ _ _ Hok) as Hbs. pose proof (cdiv_bounds (local + ext) _ Hbs).
  pose proof (nr_skip _ _ _ _ _ Hnew). pose proof (nr_local _ _ _ _ _ Hnew). pose proof (nr_ext _ _ _ _ _ Hnew).
  assert (skipped_of (mg s) (local + ext) * block_size (mg s) <= local + ext).
  { pose proof (Z.mul_div_le (get_num_skipped_tokens (kind (mg s)) (local + ext)) _ Hbs). unfold skipped_of. lia. }
  destruct (Z.max_spec (skipped_of (mg s) (local + ext)) (zlen new)) as [[_ ->] | [_ ->]]; nia.
Qed.

(** The touch of the computed blocks that are not skipped. *)
Lemma allocate_hits_spec extra s L rid new local ext :
  mgr_ok extra s L -> unseen_request s rid new local ext ->
  let k := Z.to_nat (skipped_of (mg s) (local + ext)) in
  let ts := drop k new in
  exists s1, mgr_ok extra s1 (filter (fun x => x ∉ ts) L) /\ mgr_frame extra s s1 /\
    shares (mg s) (mg s1) (null_block (pool s)) rid k ts /\
    (forall l, hash_of (bheap (pool s1)) l = hash_of (bheap (pool s)) l) /\
    base_allocate_new_computed_blocks rid new local ext s =
    (if 0 <? external_of (mg s) local ext
     then let* _ := extend_new rid (tbl (req_to_blocks (mg s1)) rid)
            (cdiv (local + ext) (block_size (mg s)) - zlen (tbl (req_to_blocks (mg s1)) rid)) in ret tt
     else ret tt) s1.
Proof.
  intros Hok Hnew k ts. pose proof (skipped_nonneg _ _ _ _ _ _ _ Hok Hnew) as Hsk.
  destruct (blocks_of_spec extra s L rid Hok) as (s0 & Hrun0 & Hok0 & Hf0 & Hp0 & (t0 & Hm0) & Ht0 & Hap0).
  rewrite (nr_blocks _ _ _ _ _ Hnew) in Hrun0.
  set (nul := null_block (pool s)). set (bs' := replicate k nul ++ ts).
  set (m1 := set_cached (<[rid := zlen bs']> (num_cached_block (mg s0)))
               (set_blocks (<[rid := bs']> (req_to_blocks (mg s0))) (mg s0))).
  assert (Hsh0 : shares (mg s0) m1 nul rid k ts).
  { unfold m1. split; try done; simpl.
    - by rewrite Ht0, (nr_blocks _ _ _ _ _ Hnew).
    - intros r. by rewrite tbl_set.
    - intros l Hn. rewrite tbl_held_set, Ht0, (nr_blocks _ _ _ _ _ Hnew), occ_nil. unfold bs'.
      rewrite occ_app, occ_replicate_ne by done. lia.
    - f_equal. unfold bs'. rewrite zlen_app. unfold zlen. by rewrite length_replicate. }
  assert (Hits : hit_blocks (pool s0) ts) by (rewrite Hp0; apply hit_blocks_drop, Hnew).
  destruct (share_ok extra s0 L m1 rid k ts Hok0 Hits) as (p1 & Htouch & Hok1 & Hf1 & Hh1); [by rewrite Hp0 |].
  rewrite Hp0 in Htouch, Hh1. exists (mkMS m1 p1). split_and!; [done | by etransitivity | | done |].
  - destruct Hsh0. rewrite Hm0 in *. simpl in *. split; simpl; try done.
    + apply Hnew.
    + intros r. rewrite sh_blocks0. by rewrite Ht0.
    + intros l Hn. rewrite sh_held0 by done. pose proof (ap_held _ _ _ _ Hap0 l) as E. simpl in E. rewrite E, occ_nil. lia.
  - unfold base_allocate_new_computed_blocks, self, gets, bind at 1. rewrite (nr_cached _ _ _ _ _ Hnew).
    unfold bind at 1. rewrite Hrun0. unfold assert. change (zlen [] =? 0) with true. cbv iota. unfold bind at 1, ret at 1.
    fold (skipped_of (mg s) (local + ext)).
    assert (Hcomp : (if 0 <? skipped_of (mg s) (local + ext)
       then py_slice new (skipped_of (mg s) (local + ext)) (zlen new) else new) = ts).
    { unfold ts, k. destruct (Z.ltb_spec 0 (skipped_of (mg s) (local + ext))); [by apply py_slice_to_end |].
      by replace (skipped_of (mg s) (local + ext)) with 0 by lia. }
    rewrite Hcomp. fold (external_of (mg s) local ext).
    assert (Htc : (if m_enable_caching (mg s) then on_pool (touch ts)
       else if match ts with [] => true | _ => false end then ret tt else raise AssertionError) s0
       = (Ok tt, mkMS (mg s0) p1)).
    { destruct (m_enable_caching (mg s)) eqn:Ec.
      - unfold on_pool, zoom. by rewrite Hp0, Htouch.
      - assert (Ets : ts = []) by (unfold ts; rewrite (nr_caching _ _ _ _ _ Hnew Ec); apply drop_nil). rewrite Ets in *.
        unfold touch in Htouch. simpl in Htouch. injection Htouch as <-. unfold ret. rewrite <- Hp0. by destruct s0. }
    unfold bind at 1. rewrite Htc. unfold store_blocks, store_num_cached, with_mg, modify, bind at 1 2. simpl.
    rewrite (mo_null _ _ _ Hok). fold nul. fold k. fold bs'. fold m1.
    rewrite (sh_blocks _ _ _ _ _ _ Hsh0), decide_True by done. fold bs'. done.
Qed.

(** The table of [rid] starts with null blocks for what the window skips, then the computed
    blocks that are left. *)
Definition shared_prefix (m : Manager) (rid : string) (nul : loc) (skip : Z) (new : list loc) : Prop :=
  exists E, tbl (req_to_blocks m) rid = replicate (Z.to_nat skip) nul ++ drop (Z.to_nat skip) new ++ E.

Lemma allocate_new_computed_spec extra s L rid new local ext :
  mgr_ok extra s L -> unseen_request s rid new local ext ->
  let skip := skipped_of (mg s) (local + ext) in
  let evict := _get_num_evictable_blocks (bheap (pool s)) (drop (Z.to_nat skip) new) in
  evict + external_blocks (mg s) new local ext <= zlen L ->
  exists s' L', base_allocate_new_computed_blocks rid new local ext s = (Ok tt, s') /\
    mgr_ok extra s' L' /\ mgr_frame extra s s' /\
    zlen L' = zlen L - evict - external_blocks (mg s) new local ext /\
    zlen (tbl (req_to_blocks (mg s')) rid) = Z.max skip (zlen new) + external_blocks (mg s) new local ext /\
    shared_prefix (mg s') rid (null_block (pool s)) skip new /\
    (forall r, r <> rid -> tbl (req_to_blocks (mg s')) r = tbl (req_to_blocks (mg s)) r).
Proof.
  intros Hok Hnew skip evict Hroom. pose proof (skipped_nonneg _ _ _ _ _ _ _ Hok Hnew) as Hsk.
  destruct (allocate_hits_spec extra s L rid new local ext Hok Hnew) as (s1 & Hok1 & Hf1 & Hsh & _ & Hrun).
  fold skip in Hok1, Hsh, Hsk. set (ts := drop (Z.to_nat skip) new) in *.
  assert (HL1 : zlen (filter (fun x => x ∉ ts) L) = zlen L - evict).
  { apply evictable_count; [apply Hok | apply hit_blocks_drop, Hnew]. }
  assert (Hlen : zlen (tbl (req_to_blocks (mg s1)) rid) = Z.max skip (zlen new)).
  { rewrite (sh_blocks _ _ _ _ _ _ Hsh), decide_True by done. rewrite zlen_app. unfold zlen, ts.
    rewrite length_replicate, length_drop. lia. }
  rewrite Hrun. unfold external_blocks in *. fold skip in Hroom |- *.
  destruct (0 <? external_of (mg s) local ext) eqn:Eext.
  - rewrite Hlen. set (n := cdiv (local + ext) (block_size (mg s)) - Z.max skip (zlen new)) in *.
    pose proof (covered_le _ _ _ _ _ _ _ Hok Hnew) as Hn. fold skip in Hn.
    destruct (extend_new_spec extra s1 _ rid n Hok1) as (s2 & Hrun2 & Hok2 & Hf2 & Hap2); [unfold n; lia |].
    exists s2, (drop (Z.to_nat n) (filter (fun x => x ∉ ts) L)). unfold bind. rewrite Hrun2.
    split_and!; [done | done | by etransitivity | | | |].
    + rewrite <- HL1. unfold zlen in *. rewrite length_drop. lia.
    + rewrite (ap_blocks _ _ _ _ Hap2), decide_True by done. rewrite zlen_app, Hlen. unfold zlen in *. rewrite length_take. lia.
    + eexists. rewrite (ap_blocks _ _ _ _ Hap2), decide_True by done.
      rewrite (sh_blocks _ _ _ _ _ _ Hsh), decide_True by done. by rewrite <- app_assoc.
    + intros r Hne. rewrite (ap_blocks _ _ _ _ Hap2), decide_False by done.
      by rewrite (sh_blocks _ _ _ _ _ _ Hsh), decide_False.
  - exists s1, (filter (fun x => x ∉ ts) L). split_and!; [done | done | done | lia | lia | |].
    { exists []. rewrite (sh_blocks _ _ _ _ _ _ Hsh), decide_True by done. by rewrite app_nil_r. }
    intros r Hne. by rewrite (sh_blocks _ _ _ _ _ _ Hsh), decide_False.
Qed.

(** ** Admission *)

(** The manager uses the methods of the base class for [rid]. *)
Definition uses_base (m : Manager) (rid : string) : Prop :=
  match kind m with
  | Mamba _ _ | CrossAttention => False
  | NELSSA _ _ => rid ∉ long_requests m
  | _ => True
  end.

(** The admission cap does not bind. *)
Definition uncapped (m : Manager) (num_tokens : Z) : Prop :=
  match _max_admission_blocks_per_request m with Some c => cdiv num_tokens (block_size m) <= c | None => True end.

Lemma uses_base_get_num m p rid n new total main :
  uses_base m rid ->
  get_num_blocks_to_allocate rid n new total main (mkMS m p) = base_get_num_blocks_to_allocate rid n new total (mkMS m p).
Proof.
  unfold uses_base, get_num_blocks_to_allocate, self, gets, bind at 1. simpl. destruct (kind m); try done.
  intros Hn. by rewrite decide_False.
Qed.
Lemma uses_base_computed m p rid new local ext :
  uses_base m rid ->
  allocate_new_computed_blocks rid new local ext (mkMS m p) = base_allocate_new_computed_blocks rid new local ext (mkMS m p).
Proof. unfold uses_base, allocate_new_computed_blocks, self, gets, bind at 1. simpl. by destruct (kind m). Qed.
Lemma uses_base_alloc s rid n main :
  match kind (mg s) with Mamba _ _ => False | _ => True end ->
  allocate_new_blocks rid n main s = base_allocate_new_blocks rid n s.
Proof. unfold allocate_new_blocks, self, gets, bind at 1. by destruct (kind (mg s)). Qed.

Lemma uncapped_min m n :
  uncapped m n ->
  match _max_admission_blocks_per_request m with Some c => Z.min (cdiv n (block_size m)) c | None => cdiv n (block_size m) end
  = cdiv n (block_size m).
Proof. unfold uncapped. destruct (_max_admission_blocks_per_request m); lia. Qed.

(** The estimate for a new request. *)
Lemma estimate_new extra s L rid new local ext num_tokens :
  mgr_ok extra s L -> unseen_request s rid new local ext -> uncapped (mg s) num_tokens ->
  base_get_num_blocks_to_allocate rid num_tokens new (local + ext) s =
  (Ok (Z.max (cdiv num_tokens (block_size (mg s)) - Z.max (skipped_of (mg s) (local + ext)) (zlen new)) 0 +
       _get_num_evictable_blocks (bheap (pool s)) (drop (Z.to_nat (skipped_of (mg s) (local + ext))) new)), s).
Proof.
  intros Hok Hnew Hcap. pose proof (skipped_nonneg _ _ _ _ _ _ _ Hok Hnew) as Hsk.
  unfold base_get_num_blocks_to_allocate, self, gets, bind. rewrite (nr_cached _ _ _ _ _ Hnew).
  assert (Hn : num_req_blocks (mg s) rid = 0).
  { unfold num_req_blocks. fold (tbl (req_to_blocks (mg s)) rid). by rewrite (nr_blocks _ _ _ _ _ Hnew). }
  rewrite Hn, (uncapped_min _ _ Hcap), Z.add_0_r, Z.sub_0_r. fold (skipped_of (mg s) (local + ext)).
  rewrite (Z.max_r 0) by done. by rewrite py_slice_to_end.
Qed.

(** For a new request: with [n] the estimate and at least [n] free blocks, the allocation
    succeeds, uses exactly [n] of the free blocks, and covers [num_tokens] tokens. *)
Lemma admission_new_spec extra s L rid new local ext num_tokens main :
  mgr_ok extra s L -> unseen_request s rid new local ext -> uses_base (mg s) rid -> uncapped (mg s) num_tokens ->
  local + ext <= num_tokens ->
  exists n, get_num_blocks_to_allocate rid num_tokens new (local + ext) main s = (Ok n, s) /\
    (n <= zlen L -> exists s1 K s2 L2,
       allocate_new_computed_blocks rid new local ext s = (Ok tt, s1) /\ kind (mg s1) = kind (mg s) /\
       allocate_new_blocks rid num_tokens main s1 = (Ok K, s2) /\
       mgr_ok extra s2 L2 /\ mgr_frame extra s s2 /\ zlen L2 = zlen L - n /\
       cdiv num_tokens (block_size (mg s)) <= zlen (tbl (req_to_blocks (mg s2)) rid) /\
       shared_prefix (mg s2) rid (null_block (pool s)) (skipped_of (mg s) (local + ext)) new /\
       (forall r, r <> rid -> tbl (req_to_blocks (mg s2)) r = tbl (req_to_blocks (mg s)) r)).
Proof.
  intros Hok Hnew Hbase Hcap Hle. destruct s as [m p]. simpl in *.
  eexists. split; [rewrite uses_base_get_num by done; by apply (estimate_new extra _ L) |]. simpl.
  set (bs := block_size m). set (skip := skipped_of m (local + ext)).
  set (ev := _get_num_evictable_blocks (bheap p) (drop (Z.to_nat skip) new)).
  intros Hroom. pose proof (mo_bs _ _ _ Hok) as Hbs. simpl in Hbs. fold bs in Hbs.
  assert (Hmono : cdiv (local + ext) bs <= cdiv num_tokens bs).
  { apply cdiv_le_iff; [done |]. pose proof (cdiv_bounds num_tokens bs Hbs). lia. }
  assert (Hext : external_blocks m new local ext = 0 \/
     external_blocks m new local ext = cdiv (local + ext) bs - Z.max skip (zlen new)).
  { unfold external_blocks. destruct (0 <? _); [by right | by left]. }
  assert (Hev : 0 <= ev) by apply zlen_nonneg.
  pose proof (covered_le _ _ _ _ _ _ _ Hok Hnew) as Hcov. simpl in Hcov. fold skip bs in Hcov.
  destruct (allocate_new_computed_spec extra (mkMS m p) L rid new local ext Hok Hnew)
    as (s1 & L1 & Hrun1 & Hok1 & Hf1 & HL1 & Hlen1 & [E Hpre1] & Hoth1).
  { simpl. fold skip. fold ev. lia. }
  simpl in HL1, Hlen1, Hoth1. fold skip in HL1, Hlen1. fold ev in HL1.
  assert (Hbs1 : block_size (mg s1) = bs) by apply (mf_bs _ _ _ Hf1).
  pose proof (base_allocate_new_blocks_spec extra s1 L1 rid num_tokens Hok1) as Halloc. simpl in Halloc.
  rewrite Hbs1, Hlen1 in Halloc. rewrite (proj2 (Z.leb_le _ _)) in Halloc by lia.
  destruct Halloc as (s2 & Hrun2 & Hok2 & Hf2 & Hap2).
  eexists s1, _, s2, _. split_and!.
  - by rewrite uses_base_computed.
  - apply Hf1.
  - rewrite uses_base_alloc; [exact Hrun2 |]. rewrite (mf_kind _ _ _ Hf1). simpl.
    unfold uses_base in Hbase. by destruct (kind m).
  - exact Hok2.
  - by etransitivity.
  - unfold zlen in *. rewrite length_drop. lia.
  - rewrite (ap_blocks _ _ _ _ Hap2), decide_True by done. rewrite zlen_app, Hlen1. unfold zlen in *. rewrite length_take. lia.
  - eexists. rewrite (ap_blocks _ _ _ _ Hap2), decide_True, Hpre1 by done. by rewrite <- !app_assoc.
  - intros r Hne. rewrite (ap_blocks _ _ _ _ Hap2), decide_False by done. by apply Hoth1.
Qed.

(** The same for a request that is already running (or holds blocks). *)
Lemma admission_running_spec extra s L rid num_tokens total main :
  mgr_ok extra s L -> uses_base (mg s) rid -> uncapped (mg s) num_tokens ->
  is_Some (num_cached_block (mg s) !! rid) ->
  exists n, get_num_blocks_to_allocate rid num_tokens [] total main s = (Ok n, s) /\
    (n <= zlen L -> exists K s2 L2,
       allocate_new_blocks rid num_tokens main s = (Ok K, s2) /\
       mgr_ok extra s2 L2 /\ mgr_frame extra s s2 /\ zlen L2 = zlen L - n /\
       cdiv num_tokens (block_size (mg s)) <= zlen (tbl (req_to_blocks (mg s2)) rid) /\
       (forall r, r <> rid -> tbl (req_to_blocks (mg s2)) r = tbl (req_to_blocks (mg s)) r)) /\
    (zlen L < n -> exists s2, allocate_new_blocks rid num_tokens main s = (Err ValueError, s2)).
Proof.
  intros Hok Hbase Hcap [c Hc]. destruct s as [m p]. simpl in *.
  exists (Z.max (cdiv num_tokens (block_size m) - zlen (tbl (req_to_blocks m) rid)) 0). split.
  { rewrite uses_base_get_num by done. unfold base_get_num_blocks_to_allocate, self, gets, bind. simpl. rewrite Hc.
    rewrite (uncapped_min _ _ Hcap). unfold num_req_blocks. done. }
  assert (Hnm : match kind m with Mamba _ _ => False | _ => True end) by (unfold uses_base in Hbase; by destruct (kind m)).
  pose proof (base_allocate_new_blocks_spec extra (mkMS m p) L rid num_tokens Hok) as Halloc. simpl in Halloc.
  rewrite uses_base_alloc by done. split.
  - intros Hroom. rewrite (proj2 (Z.leb_le _ _)) in Halloc by done.
    destruct Halloc as (s2 & Hrun2 & Hok2 & Hf2 & Hap2). eexists _, s2, _. split_and!; [exact Hrun2 | exact Hok2 | done | | |].
    + unfold zlen in *. rewrite length_drop. lia.
    + rewrite (ap_blocks _ _ _ _ Hap2), decide_True by done. rewrite zlen_app. simpl. unfold zlen in *. rewrite length_take. lia.
    + intros r Hne. by rewrite (ap_blocks _ _ _ _ Hap2), decide_False.
  - intros Hroom. rewrite (proj2 (Z.leb_gt _ _)) in Halloc by done. destruct Halloc as (s2 & Hrun2 & _). eauto.
Qed.

(** ** Caching *)

Lemma cached_as_other nul gid bls hs old x :
  x ∉ bls -> cached_as nul gid (zip bls hs) old x = old.
Proof.
  intros Hx. unfold cached_as. case_decide; [done |].
  assert (od_get x (zip bls hs) = None) as ->; [| done]. apply od_get_None. unfold od_keys.
  intros ((? & ?) & -> & Hz)%list_elem_of_fmap. apply list_elem_of_lookup in Hz as [i Hz].
  apply lookup_zip_Some in Hz as [Hz _]. apply Hx. by eapply list_elem_of_lookup_2.
Qed.

(** A non-null block occurs at one index of a table only. *)
Lemma NoDup_filter_lookup (nul : loc) bs i j l :
  NoDup (filter (fun l => l <> nul) bs) -> l <> nul -> bs !! i = Some l -> bs !! j = Some l -> i = j.
Proof.
  intros Hnd Hn Hi Hj. destruct (decide (i = j)) as [? | Hne]; [done | exfalso].
  assert (H2 : forall i j, (i < j)%nat -> bs !! i = Some l -> bs !! j = Some l -> False); cycle 1.
  { destruct (decide (i < j)%nat); [by apply (H2 i j) | apply (H2 j i); [lia | done | done]]. }
  clear -Hnd Hn. intros i j Hij Hi Hj.
  assert (Hocc : occ l bs <= 1).
  { rewrite <- (occ_filter (fun l => l <> nul)) by done. rewrite occ_NoDup by done. by case_decide. }
  rewrite <- (take_drop j bs), occ_app in Hocc.
  assert (0 < occ l (take j bs)).
  { apply occ_pos, list_elem_of_lookup. exists i. by rewrite lookup_take_lt. }
  assert (0 < occ l (drop j bs)).
  { apply occ_pos, list_elem_of_lookup. exists 0%nat. by rewrite lookup_drop, Nat.add_0_r. }
  lia.
Qed.

Lemma elem_of_slice {A} (bs : list A) a b x :
  0 <= a <= b -> x ∈ py_slice bs a b -> exists i, bs !! i = Some x /\ a <= Z.of_nat i < b.
Proof.
  intros Hab. rewrite py_slice_nonneg by done. intros [i Hi]%list_elem_of_lookup.
  apply lookup_take_Some in Hi as [Hi Hlt]. rewrite lookup_drop in Hi. eexists. split; [done | lia].
Qed.

Section cache.
Context (sha256 : bytes -> bytes).

Record can_cache (s : mstate) (r : Request) (num_tokens : Z) : Prop := {
  cc_on : enable_caching (pool s) = true;
  cc_hbs : 0 < hash_block_size (pool s);
  cc_mod : block_size (mg s) mod hash_block_size (pool s) = 0;
  cc_gid : 0 <= kv_cache_group_id (mg s) < 2 ^ 32;
  cc_table : num_tokens / block_size (mg s) <= zlen (tbl (req_to_blocks (mg s)) (request_id r));
  cc_hashes : num_tokens / block_size (mg s) <=
    zlen (bh_list (hash_list (hash_block_size (pool s)) (block_size (mg s)) r));
}.

(** The blocks that are published are uncached blocks of this request. *)
Lemma published_mine extra s L rid nf l :
  mgr_ok extra s L -> num_cached (mg s) rid <= nf -> let bs := tbl (req_to_blocks (mg s)) rid in
  l ∈ py_slice bs (num_cached (mg s) rid) nf -> l <> null_block (pool s) ->
  hash_of (bheap (pool s)) l = None /\ ref_of (bheap (pool s)) l = 1 /\ l ∈ bs.
Proof.
  intros Hok Hle bs Hl Hn. pose proof (mo_cached _ _ _ Hok rid) as Hnc.
  apply elem_of_slice in Hl as (i & Hi & [Hri _]); [| lia].
  destruct (mo_tail _ _ _ Hok rid i l Hri Hi Hn) as [? ?]. split_and!; [done | done | by eapply list_elem_of_lookup_2].
Qed.

Lemma NoDup_filter_slice (P : loc -> Prop) `{!forall l, Decision (P l)} bs a b : 0 <= a <= b -> NoDup (filter P bs) -> NoDup (filter P (py_slice bs a b)).
Proof. intros Hab Hnd. rewrite py_slice_nonneg by done. by apply NoDup_filter_run. Qed.

(** Every other uncached block that is referenced once stays so: it is held by another
    manager, by another request, or lies behind the published ones. *)
Lemma published_others extra s L rid nf hs l :
  mgr_ok extra s L -> num_cached (mg s) rid <= nf -> let bs := tbl (req_to_blocks (mg s)) rid in
  l ∈ blocks (pool s) -> l <> null_block (pool s) -> ref_of (bheap (pool s)) l = 1 ->
  (0 < extra l \/ (exists r', r' <> rid /\ l ∈ tbl (req_to_blocks (mg s)) r') \/ (exists i, bs !! i = Some l /\ nf <= Z.of_nat i)) ->
  cached_as (null_block (pool s)) (kv_cache_group_id (mg s)) (zip (py_slice bs (num_cached (mg s) rid) nf) hs) (hash_of (bheap (pool s)) l) l
  = hash_of (bheap (pool s)) l.
Proof.
  intros Hok Hle bs HB Hn H1 Hwho. apply cached_as_other. intros Hin.
  destruct (published_mine extra s L rid nf l Hok Hle Hin Hn) as (_ & _ & Hbs). pose proof (proj2 (occ_pos l bs) Hbs).
  pose proof (mo_ref _ _ _ Hok l HB Hn). pose proof (mo_extra _ _ _ Hok l).
  destruct Hwho as [He | [(r2 & Hr2 & Hl2) | (i & Hi & Hnf)]].
  - pose proof (tbl_held_ge (req_to_blocks (mg s)) rid l) as Hge. fold bs in Hge. lia.
  - pose proof (tbl_held_two (req_to_blocks (mg s)) r2 rid l Hr2) as Hge. fold bs in Hge.
    pose proof (proj2 (occ_pos l _) Hl2). lia.
  - pose proof (mo_cached _ _ _ Hok rid). apply elem_of_slice in Hin as (j & Hj & Hjr); [| lia].
    pose proof (NoDup_filter_lookup _ _ i j l (mo_NoDup _ _ _ Hok rid) Hn Hi Hj). lia.
Qed.

(** The invariant after the blocks of [rid] up to [nf] are published. *)
Lemma published_ok extra s L rid nf m' p' :
  mgr_ok extra s L -> num_cached (mg s) rid < nf -> enable_caching (pool s) = true -> pool_inv p' L -> pool_frame (pool s) p' ->
  (forall x, ref_of (bheap p') x = ref_of (bheap (pool s)) x) ->
  (forall l, l ∈ blocks (pool s) -> l <> null_block (pool s) -> ref_of (bheap (pool s)) l = 1 ->
     (0 < extra l \/ (exists r', r' <> rid /\ l ∈ tbl (req_to_blocks (mg s)) r') \/
      (exists i, tbl (req_to_blocks (mg s)) rid !! i = Some l /\ nf <= Z.of_nat i)) ->
     hash_of (bheap p') l = hash_of (bheap (pool s)) l) ->
  (forall r2, num_cached m' r2 = if decide (r2 = rid) then nf else num_cached (mg s) r2) ->
  (forall r2, tbl (req_to_blocks m') r2 = tbl (req_to_blocks (mg s)) r2) ->
  (forall l, tbl_held (req_to_blocks m') l = tbl_held (req_to_blocks (mg s)) l) ->
  _null_block m' = _null_block (mg s) -> block_size m' = block_size (mg s) -> mgr_ok extra (mkMS m' p') L.
Proof.
  intros Hok Hlt Hon Hinv Hfr Hr Hkeep Hcn Ht' Hh' En Eb. pose proof (mo_cached _ _ _ Hok rid) as Hnc.
  split; cbn [mg pool]; rewrite ?(pf_blocks _ _ Hfr), ?(pf_null _ _ Hfr), ?En, ?Eb; try done; try apply Hok.
  - intros r2 l. rewrite Ht'. apply (mo_in _ _ _ Hok).
  - intros r2. rewrite Ht'. apply (mo_NoDup _ _ _ Hok).
  - intros l HB Hn. by rewrite Hr, (mo_ref _ _ _ Hok), Hh' by done.
  - intros r2 i l. rewrite Hcn, Ht'. intros Hi Hl Hn.
    assert (Hi' : num_cached (mg s) r2 <= Z.of_nat i) by (case_decide; subst; [lia | done]).
    destruct (mo_tail _ _ _ Hok r2 i l Hi' Hl Hn) as [H0 H1]. rewrite Hr, Hkeep; try done.
    + eapply (mo_in _ _ _ Hok r2), list_elem_of_lookup_2, Hl.
    + right. case_decide; [subst r2; right; eauto | left; exists r2; split; [done | by eapply list_elem_of_lookup_2]].
  - intros r2. rewrite Hcn. case_decide; [lia | apply (mo_cached _ _ _ Hok)].
  - rewrite (pf_caching _ _ Hfr), Hon. done.
Qed.

(** cache_blocks publishes the full blocks up to [num_tokens] and nothing else. *)
Lemma base_cache_blocks_spec extra s L r num_tokens :
  mgr_ok extra s L -> can_cache s r num_tokens ->
  let nf := num_tokens / block_size (mg s) in
  exists r' s', base_cache_blocks sha256 r num_tokens s = (Ok r', s') /\ memo_of r r' /\
    mgr_ok extra s' L /\ mgr_frame extra s s' /\
    (forall rid, tbl (req_to_blocks (mg s')) rid = tbl (req_to_blocks (mg s)) rid) /\
    num_cached (mg s') (request_id r) = Z.max nf (num_cached (mg s) (request_id r)).
Proof.
  intros Hok Hcc nf. set (rid := request_id r). set (nc := num_cached (mg s) rid).
  unfold base_cache_blocks, self, gets, bind at 1. fold rid. change (default 0 (num_cached_block (mg s) !! rid)) with nc.
  fold nf. destruct (Z.leb_spec nf nc) as [Hle | Hlt].
  { exists r, s. split_and!; [done | apply memo_of_refl | done | done | done | fold rid nc; lia]. }
  destruct (blocks_of_spec extra s L rid Hok) as (s0 & Hrun0 & Hok0 & Hf0 & Hp0 & (t0 & Hm0) & Ht0 & Hap0).
  set (bs := tbl (req_to_blocks (mg s)) rid) in *.
  pose proof (mo_cached _ _ _ Hok rid) as Hnc. fold nc in Hnc. assert (Hle : num_cached (mg s) rid <= nf) by (fold nc; lia).
  destruct (cache_full_blocks_spec sha256 (pool s) L r bs nc nf (block_size (mg s)) (kv_cache_group_id (mg s)))
    as (r' & p' & Hrun & Hmemo & Hinv & Hfr & Hr & Hh); try apply Hcc; try apply Hok; try done.
  { apply NoDup_filter_slice; [lia | apply Hok]. }
  { intros l Hl Hn. by apply (published_mine extra s L rid nf). }
  set (m' := set_cached (<[rid := nf]> (num_cached_block (mg s0))) (mg s0)).
  pose proof (fun l => published_others extra s L rid nf (bh_from (hash_list (hash_block_size (pool s)) (block_size (mg s)) r) nc) l Hok Hle) as Hkeep.
  cbn zeta in Hkeep. fold bs nc in Hkeep. setoid_rewrite <- Hh in Hkeep.
  exists r', (mkMS m' p'). split_and!.
  - unfold bind. rewrite Hrun0. unfold on_pool, zoom. rewrite Hp0, Hrun. done.
  - done.
  - apply (published_ok extra s L rid nf); try done; try apply Hcc; try (unfold m'; simpl; by rewrite Hm0).
    + intros r2. unfold m', num_cached. simpl. rewrite Hm0. simpl. case_decide; subst; [by rewrite lookup_insert_eq | by rewrite lookup_insert_ne].
    + intros l. etransitivity; [apply (ap_held _ _ _ _ Hap0) |]. rewrite occ_nil. lia.
  - split; unfold m'; simpl; rewrite ?Hm0; try done. intros l HB Hn He H1 H0. rewrite Hr, Hkeep; auto.
  - intros r2. unfold m'. simpl. apply Ht0.
  - unfold m', num_cached. simpl. fold rid. rewrite lookup_insert_eq. simpl. fold nc. unfold nc. lia.
Qed.
End cache.
