(* ===== verification/NelssaInv.v ===== *)
(** * NelssaInv
    The NELSSA extension of the full-attention manager: for a long request only the head and
    the tail of the prompt stay on the GPU. The layout of the tail, and the release of the
    middle blocks after prefill. *)
From S2P Require Import Prelude OrdDict KVCacheBlock FreeQueue Request BlockHash BlockPool BlockPoolInv Managers ManagerInv.

(** ** Collecting the middle *)

Definition index_pairs (bs : list loc) (idxs : list Z) : list (Z * loc) :=
  omap (fun i => match py_index bs i with Ok b => Some (i, b) | Err _ => None end) idxs.

Lemma index_pairs_seq bs n : forall a, (a + n <= length bs)%nat ->
  index_pairs bs (Z.of_nat <$> seq a n) = imap (fun j b => (Z.of_nat (a + j), b)) (take n (drop a bs)).
Proof.
  induction n as [|n IH]; intros a Hn; [done |].
  destruct (lookup_lt_is_Some_2 bs a) as [b Hb]; [lia |]. rewrite (drop_S _ _ _ Hb). simpl take.
  rewrite imap_cons, Nat.add_0_r. unfold index_pairs in *. simpl. rewrite (py_index_nat _ _ _ Hb).
  rewrite IH by lia. f_equal. apply imap_ext. intros j x _. simpl. do 2 f_equal. lia.
Qed.

Lemma middle_range a b : (a <= b)%nat ->
  (fun i => i + Z.of_nat a) <$> range (Z.of_nat b - Z.of_nat a) = Z.of_nat <$> seq a (b - a).
Proof.
  intros Hab. unfold range, seqZ. replace (Z.to_nat _) with (b - a)%nat by lia.
  apply list_eq. intros i. rewrite !list_lookup_fmap. destruct (decide (i < b - a)%nat).
  - rewrite !lookup_seq_lt by done. simpl. f_equal. lia.
  - by rewrite !lookup_seq_ge by lia.
Qed.

(** Filtering indexed pairs by a property of the element. *)
Lemma imap_filter_snd {A} (P : Z * A -> bool) (Q : A -> Prop) `{!forall x, Decision (Q x)} (f : nat -> Z) l : forall k,
  (forall i x, x ∈ l -> P (i, x) = true <-> Q x) ->
  (filter (fun y => P y = true) (imap (fun j x => (f (k + j)%nat, x)) l)).*2 = filter Q l.
Proof.
  induction l as [|x l IH]; intros k HP; [done |]. rewrite imap_cons.
  assert (IH' : (filter (fun y => P y = true) (imap ((fun j x => (f (k + j)%nat, x)) ∘ S) l)).*2 = filter Q l).
  { rewrite <- (IH (S k)) by (intros; apply HP; by right). do 2 f_equal. apply imap_ext. intros. simpl. do 2 f_equal. lia. }
  rewrite !filter_cons. pose proof (HP (f (k + 0)%nat) x ltac:(left)).
  destruct (decide (Q x)) as [HQ | HQ].
  - rewrite decide_True by tauto. rewrite fmap_cons. f_equal. exact IH'.
  - rewrite decide_False by tauto. exact IH'.
Qed.

(** Writing [nul] at a list of indices. *)
Lemma foldl_insert_lookup (nul : loc) idxs : forall (bs : list loc) j,
  foldl (fun l i => <[Z.to_nat i := nul]> l) bs idxs !! j =
  if decide (j ∈ Z.to_nat <$> idxs /\ (j < length bs)%nat) then Some nul else bs !! j.
Proof.
  induction idxs as [|i idxs IH]; intros bs j; cbn [foldl].
  { rewrite decide_False; [done |]. intros [Hj _]. by apply elem_of_nil in Hj. }
  rewrite fmap_cons, IH, length_insert. destruct (decide (j < length bs)%nat) as [Hj | Hj].
  - destruct (decide (j = Z.to_nat i)) as [-> | Hne].
    + rewrite list_lookup_insert_eq by done. rewrite (decide_True (P := _ ∈ _ :: _ /\ _)) by (split; [left | done]).
      by case_decide.
    + rewrite list_lookup_insert_ne by done. apply decide_ext. rewrite elem_of_cons. tauto.
  - rewrite !decide_False by tauto. rewrite !lookup_ge_None_2; rewrite ?length_insert; try lia. done.
Qed.

Section middle.
Context {extra : loc -> Z} {s : mstate} {L : list loc} (Hok : mgr_ok extra s L).
Context (rid : string) (a b : nat).
#[local] Notation bs := (tbl (req_to_blocks (mg s)) rid).
#[local] Notation nul := (null_block (pool s)).
Hypothesis Hab : (a <= b <= length bs)%nat.

Definition mid : list loc := take (b - a) (drop a bs).
Definition to_free : list (Z * loc) := middle_blocks (bheap (pool s)) nul (Z.of_nat a) (Z.of_nat b) bs.

Lemma mid_in l : l ∈ mid -> l ∈ bs.
Proof.
  intros [i [Hi _]%lookup_take_Some]%list_elem_of_lookup. rewrite lookup_drop in Hi. by eapply list_elem_of_lookup_2.
Qed.

(** The tests on id and reference count never exclude a block of a table. *)
Lemma middle_test (i : Z) l : l ∈ bs ->
  negb (bool_decide ((i, l).2 = nul)) && (0 <=? id_of (bheap (pool s)) (i, l).2) && (0 <? ref_of (bheap (pool s)) (i, l).2)
    = true <-> l <> nul.
Proof using Hok Hab.
  intros Hl. simpl. destruct (decide (l = nul)) as [-> | Hn]; [by rewrite bool_decide_true |].
  rewrite bool_decide_false by done. simpl. pose proof (mo_in _ _ _ Hok rid l Hl) as HB.
  destruct (mo_pool _ _ _ Hok) as [Hc _]. destruct (proj1 (list_elem_of_lookup _ _) HB) as [j Hj].
  rewrite (proj2 (pi_ids _ _ Hc j l Hj)). rewrite (proj2 (Z.leb_le _ _)) by lia.
  destruct (held_not_free Hok rid l Hl Hn) as [Hr _]. rewrite (proj2 (Z.ltb_lt _ _)) by lia. done.
Qed.

Lemma to_free_eq : to_free =
  filter (fun x : Z * loc => negb (bool_decide (x.2 = nul)) && (0 <=? id_of (bheap (pool s)) x.2) && (0 <? ref_of (bheap (pool s)) x.2) = true)
    (imap (fun j b => (Z.of_nat (a + j), b)) mid).
Proof using Hab.
  unfold to_free, middle_blocks. rewrite middle_range by lia. fold (index_pairs bs (Z.of_nat <$> seq a (b - a))).
  by rewrite index_pairs_seq by lia.
Qed.

Lemma to_free_blocks : to_free.*2 = filter (fun l => l <> nul) mid.
Proof using Hok Hab.
  rewrite to_free_eq. apply (imap_filter_snd _ (fun l => l <> nul) Z.of_nat). intros i x Hx. apply middle_test. by apply mid_in.
Qed.

(** The updated table: head, null blocks, tail. *)
Definition nulled : list loc := take a bs ++ replicate (b - a) nul ++ drop b bs.

Lemma nulled_lookup j : nulled !! j = if decide (a <= j < b)%nat then Some nul else bs !! j.
Proof using Hab.
  unfold nulled. destruct (decide (j < a)%nat) as [Hj | Hj].
  - rewrite lookup_app_l by (rewrite length_take; lia). rewrite lookup_take_lt by done. by rewrite decide_False by lia.
  - rewrite lookup_app_r by (rewrite length_take; lia). rewrite length_take, Nat.min_l by lia.
    case_decide.
    + rewrite lookup_app_l by (rewrite length_replicate; lia). apply lookup_replicate_2. lia.
    + rewrite lookup_app_r by (rewrite length_replicate; lia). rewrite length_replicate, lookup_drop. f_equal. lia.
Qed.

Lemma to_free_table : foldl (fun l i => <[Z.to_nat i := nul]> l) bs to_free.*1 = nulled.
Proof using Hok Hab.
  apply list_eq. intros j. rewrite foldl_insert_lookup. unfold nulled.
  assert (Hidx : j ∈ Z.to_nat <$> to_free.*1 <-> exists x, (a <= j < b)%nat /\ bs !! j = Some x /\ x <> nul).
  { rewrite to_free_eq, list_elem_of_fmap. split.
    - intros (i & -> & ([i' x] & -> & [Ht Hx]%list_elem_of_filter)%list_elem_of_fmap). simpl.
      apply elem_of_lookup_imap in Hx as (n & y & [= -> ->] & [Hy Hn]%lookup_take_Some). rewrite lookup_drop in Hy.
      rewrite Nat2Z.id. exists y. split_and!; [lia | lia | done |]. eapply middle_test; [| exact Ht]. by eapply list_elem_of_lookup_2.
    - intros (x & Hj & Hx & Hn). exists (Z.of_nat j). split; [by rewrite Nat2Z.id |]. apply list_elem_of_fmap.
      exists (Z.of_nat j, x). split; [done |]. apply list_elem_of_filter. split.
      + apply middle_test; [by eapply list_elem_of_lookup_2 | done].
      + apply elem_of_lookup_imap. exists (j - a)%nat, x. split; [do 2 f_equal; lia |]. unfold mid.
        rewrite lookup_take_lt, lookup_drop by lia. by replace (a + (j - a))%nat with j by lia. }
  rewrite nulled_lookup. destruct (decide (a <= j < b)%nat) as [Hj | Hj].
  - destruct (lookup_lt_is_Some_2 bs j) as [x Hx]; [lia |]. case_decide as Hd; [done |]. rewrite Hx. f_equal.
    destruct (decide (x = nul)) as [| Hn]; [done |]. destruct Hd. split; [| lia]. apply Hidx. eauto.
  - case_decide as Hd; [| done]. destruct Hd as [(x & ? & _)%Hidx _]. lia.
Qed.

(** Releasing the middle keeps the invariant. *)
Lemma free_middle_ok m' :
  m' = set_blocks (<[rid := nulled]> (req_to_blocks (mg s))) (mg s) ->
  exists p' L', free_blocks to_free.*2 (pool s) = (Ok tt, p') /\ mgr_ok extra (mkMS m' p') L' /\
    mgr_frame extra s (mkMS m' p') /\ (forall l, l ∈ L -> l ∈ L').
Proof using Hok Hab.
  intros ->. rewrite to_free_blocks. set (rel := filter (fun l => l <> nul) mid).
  assert (Hrel : forall l, l ∈ rel -> l ∈ bs /\ l <> nul).
  { intros l [Hn Hl]%list_elem_of_filter. split; [by apply mid_in | done]. }
  assert (Hocc : forall l, l <> nul -> occ l nulled = occ l bs - occ l rel).
  { intros l Hn. unfold nulled, rel. rewrite occ_filter by done. apply occ_mid; [lia | done]. }
  edestruct (release_ok extra s L) as (p' & Hfree & Hok' & Hfr & _); [done | | | |
    exists p'; eexists; split_and!; [exact Hfree | exact Hok' | exact Hfr | intros l Hl; apply elem_of_app; by left]].
  - intros l Hl. by apply Hrel.
  - unfold rel, mid. rewrite filter_id by (by intros l [? _]%list_elem_of_filter).
    pose proof (mo_NoDup _ _ _ Hok rid) as Hnd. rewrite <- (take_drop a bs), filter_app in Hnd.
    apply NoDup_app in Hnd as (_ & _ & Hnd). rewrite <- (take_drop (b - a) (drop a bs)), filter_app in Hnd.
    by apply NoDup_app in Hnd as (Hnd & _ & _).
  - apply (releases_table _ _ _ _ nulled); try done.
    + apply (mo_cached _ _ _ Hok).
    + intros l [j Hj]%list_elem_of_lookup. rewrite nulled_lookup in Hj. case_decide; [right; congruence |].
      left. by eapply list_elem_of_lookup_2.
    + apply (mo_NoDup _ _ _ Hok).
    + intros j l Hj Hn. rewrite nulled_lookup in Hj. case_decide; [congruence | done].
Qed.
End middle.

(** ** free_middle_blocks *)

Section free_middle.
Context (m : Manager) (rid : string) (head_size tail_size : Z).

(** Blocks that hold the head, and the blocks kept for the tail. *)
Definition head_blocks : Z := cdiv head_size (block_size m).
Definition tail_blocks : Z := default (cdiv tail_size (block_size m)) (nelssa_tail_blocks m !! rid).
Definition middle_end : Z :=
  let n := zlen (tbl (req_to_blocks m) rid) in if 0 <? tail_blocks then n - tail_blocks else n.
(** The table after the middle was given up. *)
Definition sparse_table (nul : loc) : list loc :=
  let bs := tbl (req_to_blocks m) rid in
  let a := Z.to_nat head_blocks in let b := Z.to_nat middle_end in
  if bool_decide (rid ∈ long_requests m) && (head_blocks <? middle_end)
  then take a bs ++ replicate (b - a) nul ++ drop b bs else bs.
End free_middle.

Lemma free_middle_spec extra s L rid head_size tail_size :
  mgr_ok extra s L -> kind (mg s) = NELSSA head_size tail_size -> 0 <= head_size ->
  exists s' L', free_middle_blocks rid s = (Ok tt, s') /\ mgr_ok extra s' L' /\ mgr_frame extra s s' /\
    (forall l, l ∈ L -> l ∈ L') /\
    num_cached_block (mg s') = num_cached_block (mg s) /\
    tbl (req_to_blocks (mg s')) rid = sparse_table (mg s) rid head_size tail_size (null_block (pool s)) /\
    (forall r, r <> rid -> tbl (req_to_blocks (mg s')) r = tbl (req_to_blocks (mg s)) r).
Proof.
  intros Hok Hk Hh. pose proof (mo_bs _ _ _ Hok) as Hbs. unfold free_middle_blocks, self, gets, bind at 1. rewrite Hk.
  unfold sparse_table. destruct (bool_decide (rid ∈ long_requests (mg s))) eqn:El; simpl negb; cbv iota; simpl andb.
  2: { exists s, L. by split_and!. }
  destruct (req_to_blocks (mg s) !! rid) as [bs|] eqn:Et.
  2: { exists s, L. split_and!; try done. unfold middle_end, tbl. rewrite Et. simpl default. change (zlen []) with 0.
       rewrite (proj2 (Z.ltb_ge _ _)); [done |]. pose proof (cdiv_nonneg head_size (block_size (mg s)) Hbs Hh).
       unfold head_blocks. destruct (0 <? tail_blocks (mg s) rid tail_size) eqn:E; zbool; lia. }
  assert (Eb : tbl (req_to_blocks (mg s)) rid = bs) by (unfold tbl; by rewrite Et).
  rewrite <- (cdiv_spec head_size) by done. rewrite <- (cdiv_spec tail_size) by done.
  fold (tail_blocks (mg s) rid tail_size). fold (head_blocks (mg s) head_size).
  set (hb := head_blocks (mg s) head_size). rewrite <- Eb. fold (middle_end (mg s) rid tail_size).
  set (me := middle_end (mg s) rid tail_size). cbv zeta.
  replace (0 <? me - hb) with (hb <? me) by (destruct (hb <? me) eqn:E; zbool; symmetry; [apply Z.ltb_lt | apply Z.ltb_ge]; lia).
  destruct (hb <? me) eqn:E; zbool; [| exists s, L; by split_and!].
  assert (H0 : 0 <= hb) by (by apply cdiv_nonneg).
  assert (Hme : me <= zlen (tbl (req_to_blocks (mg s)) rid)).
  { unfold me, middle_end. destruct (0 <? _) eqn:E'; zbool; lia. }
  assert (Hab : (Z.to_nat hb <= Z.to_nat me <= length (tbl (req_to_blocks (mg s)) rid))%nat) by (unfold zlen in Hme; lia).
  pose proof (to_free_table Hok rid _ _ Hab) as Htab.
  destruct (free_middle_ok Hok rid _ _ Hab _ eq_refl) as (p' & L' & Hfree & Hok' & Hfr & HL).
  unfold to_free in *. rewrite !Z2Nat.id in Htab, Hfree by lia. unfold bind at 1. rewrite (mo_null _ _ _ Hok). cbn [negb]. cbv beta iota.
  destruct (middle_blocks _ _ _ _ _) as [|x xs].
  - exists s, L. by split_and!.
  - unfold bind, on_pool, zoom. rewrite Hfree. unfold store_blocks, with_mg, modify. rewrite Htab. simpl.
    eexists (mkMS _ p'), L'. split_and!; [done | done | done | done | done | |].
    + simpl. by rewrite tbl_set, decide_True.
    + intros r Hne. simpl. by rewrite tbl_set, decide_False.
Qed.

(** ** The tail layout *)

(** _compute_tail_layout: the tail starts at a block boundary, covers the last [tail_size]
    tokens of the prompt (or all of it), and needs exactly the blocks behind that boundary. *)
Lemma tail_layout_spec bs tail_size prompt_len tb ts :
  0 < bs -> 0 <= tail_size -> 0 <= prompt_len ->
  _compute_tail_layout bs tail_size prompt_len = (tb, ts) ->
  ts mod bs = 0 /\ 0 <= ts <= Z.max (prompt_len - tail_size) 0 /\ Z.max (prompt_len - tail_size) 0 < ts + bs /\
  tb = cdiv prompt_len bs - ts / bs /\ cdiv (Z.min tail_size prompt_len) bs <= tb <= cdiv tail_size bs + 1.
Proof.
  intros Hbs Ht Hp. unfold _compute_tail_layout. set (q := Z.max (prompt_len - tail_size) 0 / bs). intros [= <- <-].
  pose proof (Z.div_mod (Z.max (prompt_len - tail_size) 0) bs ltac:(lia)) as Hd. fold q in Hd.
  pose proof (Z.mod_pos_bound (Z.max (prompt_len - tail_size) 0) bs Hbs).
  assert (Hq : 0 <= q) by (apply Z.div_pos; lia).
  rewrite Z_div_mult by lia. rewrite (Z.max_l (prompt_len - q * bs)) by nia. rewrite <- cdiv_spec by done.
  assert (Hc : cdiv (prompt_len - q * bs) bs = cdiv prompt_len bs - q).
  { rewrite !cdiv_spec by done. replace (prompt_len - q * bs + bs - 1) with (prompt_len + bs - 1 + (- q) * bs) by lia.
    rewrite Z_div_plus_full by lia. lia. }
  pose proof (cdiv_bounds (prompt_len - q * bs) bs Hbs). pose proof (cdiv_bounds tail_size bs Hbs).
  split_and!; [by apply Z_mod_mult | nia | nia | nia | done | |].
  - apply cdiv_le_iff; [done |]. nia.
  - apply cdiv_le_iff; [done |]. nia.
Qed.
