(* ===== verification/KVCacheManager.v ===== *)
(** * KVCacheManager
    vllm/v1/core/kv_cache_manager.py: the interface between the scheduler and the KV-cache
    blocks. *)
From Stdlib Require Import QArith.
From S2P Require Import Prelude OrdDict KVCacheBlock FreeQueue Request BlockHash BlockPool Managers CacheHit Coordinator.
#[local] Open Scope Z_scope.

(** ** KVCacheBlocks *)

(** The pre-constructed empty object, or an object of its own. *)
Inductive KVCacheBlocks := EmptyBlocks | Blocks (bl : list (list loc)).

(** [.blocks] for [n] KV-cache groups. *)
Definition kv_blocks (n : nat) (b : KVCacheBlocks) : list (list loc) :=
  match b with EmptyBlocks => replicate n [] | Blocks bl => bl end.

(** [__add__] *)
Definition kv_add (n : nat) (a b : KVCacheBlocks) : KVCacheBlocks :=
  Blocks (zip_with app (kv_blocks n a) (kv_blocks n b)).

Definition get_block_ids (h : heap) (n : nat) (allow_none : bool) (b : KVCacheBlocks) : option (list (list Z)) :=
  if allow_none && forallb (fun g => match g with [] => true | _ => false end) (kv_blocks n b) then None
  else Some ((fun g : list loc => id_of h <$> g) <$> kv_blocks n b).

Definition get_unhashed_block_ids (h : heap) (n : nat) (b : KVCacheBlocks) : res (list Z) :=
  match kv_blocks n b with
  | [g] => Ok (id_of h <$> filter (fun l => hash_of h l = None) g)
  | _ => Err AssertionError
  end.

Definition get_unhashed_block_ids_all_groups (h : heap) (n : nat) (b : KVCacheBlocks) : list (list Z) :=
  (fun g : list loc => id_of h <$> filter (fun l => hash_of h l = None /\ null_of h l = false) g) <$> kv_blocks n b.

(** ** PrefixCacheStats (vllm/v1/metrics/stats.py) *)
Record PrefixCacheStats := mkStats {
  st_reset : bool;
  requests : Z;
  queries : Z;
  hits : Z;
  preempted_requests : Z;
  preempted_queries : Z;
  preempted_hits : Z;
}.
Definition empty_stats : PrefixCacheStats := mkStats false 0 0 0 0 0 0.
Definition stats_record (num_tokens num_hits : Z) (preempted : bool) (s : PrefixCacheStats) : PrefixCacheStats :=
  if preempted
  then mkStats (st_reset s) (requests s) (queries s) (hits s) (preempted_requests s + 1)
         (preempted_queries s + num_tokens) (preempted_hits s + num_hits)
  else mkStats (st_reset s) (requests s + 1) (queries s + num_tokens) (hits s + num_hits)
         (preempted_requests s) (preempted_queries s) (preempted_hits s).

(** ** KVCacheManager *)
Record KVCacheManager := mkKVM {
  max_model_len : Z;
  k_enable_caching : bool;
  use_eagle : bool;
  log_stats : bool;
  prefix_cache_stats : option PrefixCacheStats;
  coordinator : Coordinator;
  num_kv_cache_groups : nat;
}.

Definition with_coordinator (c : Coordinator) (k : KVCacheManager) : KVCacheManager :=
  mkKVM (max_model_len k) (k_enable_caching k) (use_eagle k) (log_stats k) (prefix_cache_stats k) c
    (num_kv_cache_groups k).
Definition with_stats (s : option PrefixCacheStats) (k : KVCacheManager) : KVCacheManager :=
  mkKVM (max_model_len k) (k_enable_caching k) (use_eagle k) (log_stats k) s (coordinator k)
    (num_kv_cache_groups k).

Abbreviation KM A := (M KVCacheManager A).
Definition on_coord {A} (m : CM A) : KM A := zoom coordinator with_coordinator m.
Definition on_kpool {A} (m : M BlockPool A) : KM A :=
  on_coord (zoom block_pool (fun p c => with_managers p (single_type_managers c) c) m).

(** __init__ *)
Definition new_KVCacheManager (cfg : KVCacheConfig) (mml hbs : Z) (batched : option Z)
    (caching eagle logs events : bool) (dcp pcp : Z) (use_int : bool) : res KVCacheManager :=
  do c <- get_kv_cache_coordinator cfg mml (default mml batched) eagle caching events dcp pcp hbs use_int in
  Ok (mkKVM mml caching eagle logs (if logs then Some empty_stats else None) c (length (kv_cache_groups cfg))).

Definition usage (k : KVCacheManager) : Q := get_usage (block_pool (coordinator k)).

Definition make_prefix_cache_stats : KM (option PrefixCacheStats) :=
  let* k := get in
  if negb (log_stats k) then ret None
  else modify (with_stats (Some empty_stats)) ;;; ret (prefix_cache_stats k).

Definition create_kv_cache_blocks (bl : list (list loc)) : KVCacheBlocks :=
  if existsb (fun g => match g with [] => false | _ => true end) bl then Blocks bl else EmptyBlocks.

Definition get_computed_blocks (r : Request) : KM (KVCacheBlocks * Z) :=
  let* k := get in
  if negb (k_enable_caching k) || skip_reading_prefix_cache r then ret (EmptyBlocks, 0)
  else
    let* x := lift (coord_find_longest_cache_hit (coordinator k) (block_hashes r) (num_tokens r - 1)) in
    (if log_stats k then
       match prefix_cache_stats k with
       | None => raise AssertionError
       | Some st => modify (with_stats (Some (stats_record (num_tokens r) x.2 (0 <? num_preemptions r) st)))
       end
     else ret tt) ;;;
    ret (create_kv_cache_blocks x.1, x.2).

Definition can_fit_full_sequence (r : Request) (num_new_computed_tokens : Z) (new_computed : option KVCacheBlocks)
    (num_external_computed_tokens num_encoder_tokens : Z) : KM bool :=
  let* k := get in
  let bl := kv_blocks (num_kv_cache_groups k) (default EmptyBlocks new_computed) in
  let local := num_computed_tokens r + num_new_computed_tokens in
  let total := Z.min (local + num_external_computed_tokens) (max_model_len k) in
  let full := Z.min (num_tokens r) (max_model_len k) in
  let* n := on_coord (coord_get_num_blocks_to_allocate (request_id r) full bl num_encoder_tokens total full) in
  let* k := get in
  ret (n <=? get_num_free_blocks (block_pool (coordinator k))).

(** _mark_long_request, free_sparse_kv: the managers that have the method. *)
Definition _mark_long_request (rid : string) (prompt_len : Z) : KM unit :=
  let* _ := on_coord (for_managers (fun _ => mark_long_request rid prompt_len)) in ret tt.
Definition free_sparse_kv (rid : string) : KM unit :=
  let* _ := on_coord (for_managers (fun _ => free_middle_blocks rid)) in ret tt.

Section alloc.
Context (sha256 : bytes -> bytes).

(** allocate_slots; also returns the request, whose memo table caching may fill. *)
Definition allocate_slots (r : Request) (num_new_tokens num_new_computed_tokens : Z)
    (new_computed : option KVCacheBlocks) (num_lookahead_tokens num_external_computed_tokens : Z)
    (delay_cache_blocks : bool) (num_encoder_tokens : Z) : KM (option KVCacheBlocks * Request) :=
  if (num_new_tokens =? 0) && (num_external_computed_tokens =? 0) then raise ValueError
  else
    let* k := get in
    let rid := request_id r in
    let nc := default EmptyBlocks new_computed in
    let bl := kv_blocks (num_kv_cache_groups k) nc in
    let local := num_computed_tokens r + num_new_computed_tokens in
    let total := Z.min (local + num_external_computed_tokens) (max_model_len k) in
    let num_tokens_main_model := total + num_new_tokens in
    let num_tokens_need_slot := Z.min (num_tokens_main_model + num_lookahead_tokens) (max_model_len k) in
    on_coord (coord_remove_skipped_blocks rid total) ;;;
    (if nelssa_long_mask r then _mark_long_request rid (num_tokens r) else ret tt) ;;;
    let* n := on_coord (coord_get_num_blocks_to_allocate rid num_tokens_need_slot bl num_encoder_tokens
                          (local + num_external_computed_tokens) num_tokens_main_model) in
    let* k := get in
    if get_num_free_blocks (block_pool (coordinator k)) <? n then ret (None, r)
    else
      (if match nc with EmptyBlocks => false | Blocks _ => true end || (0 <? num_external_computed_tokens)
       then on_coord (coord_allocate_new_computed_blocks rid bl local num_external_computed_tokens)
       else ret tt) ;;;
      let* new_blocks := on_coord (coord_allocate_new_blocks rid num_tokens_need_slot num_tokens_main_model
                                     num_encoder_tokens) in
      if negb (k_enable_caching k) || delay_cache_blocks
      then ret (Some (create_kv_cache_blocks new_blocks), r)
      else
        let num_tokens_to_cache := Z.min (total + num_new_tokens) (num_tokens r) in
        let* r' := on_coord (coord_cache_blocks sha256 r num_tokens_to_cache) in
        ret (Some (create_kv_cache_blocks new_blocks), r').

Definition kv_cache_blocks (r : Request) (num_computed_tokens : Z) : KM Request :=
  let* k := get in
  if k_enable_caching k then on_coord (coord_cache_blocks sha256 r num_computed_tokens) else ret r.
End alloc.

Definition kv_free (r : Request) : KM unit := on_coord (coord_free (request_id r)).
Definition kv_remove_skipped_blocks (rid : string) (total_computed_tokens : Z) : KM unit :=
  on_coord (coord_remove_skipped_blocks rid total_computed_tokens).
Definition kv_evict_blocks (ids : list Z) : KM unit := on_kpool (evict_blocks ids).

Definition kv_reset_prefix_cache : KM bool :=
  let* ok := on_kpool reset_prefix_cache in
  if negb ok then ret false
  else
    let* k := get in
    if log_stats k then
      match prefix_cache_stats k with
      | None => raise AssertionError
      | Some s => modify (with_stats (Some (mkStats true (requests s) (queries s) (hits s)
                    (preempted_requests s) (preempted_queries s) (preempted_hits s)))) ;;; ret true
      end
    else ret true.

Definition kv_get_num_common_prefix_blocks (rid : string) : KM (list Z) :=
  on_coord (coord_get_num_common_prefix_blocks rid).
Definition kv_take_events : KM (list KVCacheEvent) := on_kpool take_events.
Definition kv_get_blocks (rid : string) (k : KVCacheManager) : KVCacheBlocks :=
  create_kv_cache_blocks (coord_get_blocks rid (coordinator k)).
Definition kv_get_block_ids (rid : string) (k : KVCacheManager) : option (list (list Z)) :=
  get_block_ids (bheap (block_pool (coordinator k))) (num_kv_cache_groups k) false (kv_get_blocks rid k).
Definition kv_take_new_block_ids : KM (list Z) :=
  let* ids := on_coord (for_managers (fun _ => take_new_block_ids)) in ret (concat ids).
Definition kv_new_step_starts : KM unit := on_coord coord_new_step_starts.
