(* ===== verification/CoordinatorInv.v ===== *)
(** * CoordinatorInv
    The global accounting invariant of a coordinator: over all managers and requests, the
    reference count of every block is the number of block-table entries that hold it. It is
    lifted from the managers' specifications, which are stated relative to the references of
    the other managers. *)
From S2P Require Import Prelude OrdDict KVCacheBlock FreeQueue Request BlockHash BlockPool BlockPoolInv Managers ManagerInv CacheHit Coordinator.

(** ** The invariant *)

Definition mheld (m : Manager) (l : loc) : Z := tbl_held (req_to_blocks m) l.
Definition total_held (ms : list Manager) (l : loc) : Z := fold_right (fun m acc => mheld m l + acc) 0 ms.
(** References from the managers other than number [i]. *)
Definition others (ms : list Manager) (i : nat) (l : loc) : Z := total_held (take i ms) l + total_held (drop (S i) ms) l.

Lemma total_held_app ms ms' l : total_held (ms ++ ms') l = total_held ms l + total_held ms' l.
Proof. induction ms as [|m ms IH]; simpl; [done | rewrite IH; lia]. Qed.
Lemma total_held_nonneg ms l : 0 <= total_held ms l.
Proof. induction ms as [|m ms IH]; simpl; [done |]. pose proof (tbl_held_nonneg (req_to_blocks m) l). unfold mheld. lia. Qed.
Lemma total_held_split ms i m l : ms !! i = Some m -> total_held ms l = others ms i l + mheld m l.
Proof.
  intros Hi. rewrite <- (take_drop_middle ms i m Hi) at 1. rewrite total_held_app. simpl. unfold others. lia.
Qed.
Lemma others_nonneg ms i l : 0 <= others ms i l.
Proof. unfold others. pose proof (total_held_nonneg (take i ms) l). pose proof (total_held_nonneg (drop (S i) ms) l). lia. Qed.
Lemma others_insert ms i m' l : (i < length ms)%nat -> others (<[i := m']> ms) i l = others ms i l.
Proof.
  intros Hi. unfold others. rewrite take_insert_ge by lia. by rewrite drop_insert_lt by lia.
Qed.
Lemma others_ge ms i j m l : ms !! j = Some m -> i <> j -> mheld m l <= others ms i l.
Proof.
  intros Hj Hne. unfold others. destruct (decide (j < i)%nat) as [Hlt | Hge].
  - rewrite <- (lookup_take_lt ms i j) in Hj by done. rewrite (total_held_split _ _ _ _ Hj).
    pose proof (others_nonneg (take i ms) j l). pose proof (total_held_nonneg (drop (S i) ms) l). lia.
  - assert (Hj' : drop (S i) ms !! (j - S i)%nat = Some m).
    { rewrite lookup_drop. by replace (S i + (j - S i))%nat with j by lia. }
    rewrite (total_held_split _ _ _ _ Hj'). pose proof (others_nonneg (drop (S i) ms) (j - S i) l).
    pose proof (total_held_nonneg (take i ms) l). lia.
Qed.

Record coord_ok (c : Coordinator) (L : list loc) : Prop := {
  co_pool : pool_inv (block_pool c) L;
  co_mgr : forall i m, single_type_managers c !! i = Some m ->
    mgr_ok (others (single_type_managers c) i) (mkMS m (block_pool c)) L;
}.

(** What stays the same across the managers' operations. *)
Record coord_frame (c c' : Coordinator) : Prop := {
  cf_pool : pool_frame (block_pool c) (block_pool c');
  cf_len : length (single_type_managers c') = length (single_type_managers c);
  cf_same : exists p ms, c' = with_managers p ms c;
}.

#[export] Instance coord_frame_preorder : PreOrder coord_frame.
Proof.
  split.
  - intros c. split; [reflexivity | done |]. exists (block_pool c), (single_type_managers c). by destruct c.
  - intros c1 c2 c3 [? ? (p & ms & E)] [? ? (p' & ms' & E')]. split; [by etransitivity | congruence |].
    exists p', ms'. by subst.
Qed.

(** A method call on manager [i] that keeps the manager's invariant keeps the global one. *)
Lemma on_manager_ok {A} c L i m (f : MM A) r s' L' :
  coord_ok c L -> single_type_managers c !! i = Some m ->
  f (mkMS m (block_pool c)) = (r, s') ->
  mgr_ok (others (single_type_managers c) i) s' L' ->
  mgr_frame (others (single_type_managers c) i) (mkMS m (block_pool c)) s' ->
  exists c', on_manager i f c = (r, c') /\ coord_ok c' L' /\ coord_frame c c' /\
    block_pool c' = pool s' /\ single_type_managers c' = <[i := mg s']> (single_type_managers c).
Proof.
  intros Hc Hi Hrun Hok Hfr. set (ms := single_type_managers c) in *.
  exists (with_managers (pool s') (<[i := mg s']> ms) c). unfold on_manager. fold ms. rewrite Hi, Hrun.
  pose proof (lookup_lt_Some _ _ _ Hi) as Hlt. destruct s' as [m' p']. simpl in *.
  pose proof (mf_pool _ _ _ Hfr) as Hpf. simpl in Hpf.
  split_and!; [done | | | done | done].
  - split; simpl; [apply Hok |]. intros j mj Hj. destruct (decide (i = j)) as [<- | Hne].
    + rewrite list_lookup_insert_eq in Hj by done. injection Hj as <-.
      destruct Hok. split; simpl in *; try done; intros l; rewrite ?others_insert by done; auto.
    + rewrite list_lookup_insert_ne in Hj by done. pose proof (co_mgr _ _ Hc j mj Hj) as Hoj. simpl in Hoj.
      split; simpl; rewrite ?(pf_blocks _ _ Hpf), ?(pf_null _ _ Hpf), ?(pf_caching _ _ Hpf); try apply Hoj.
      * apply Hok.
      * intros l. apply others_nonneg.
      * intros l HB Hn. pose proof (mo_ref _ _ _ Hok l) as Hr. simpl in Hr.
        rewrite (pf_blocks _ _ Hpf), (pf_null _ _ Hpf) in Hr. rewrite Hr by done.
        rewrite <- (others_insert ms i m') by done.
        assert (Hi' : <[i := m']> ms !! i = Some m') by (by apply list_lookup_insert_eq).
        assert (Hj' : <[i := m']> ms !! j = Some mj) by (by rewrite list_lookup_insert_ne).
        pose proof (total_held_split _ _ _ l Hi'). pose proof (total_held_split _ _ _ l Hj'). unfold mheld in *. lia.
      * intros rid k l Hk Hl Hn. destruct (mo_tail _ _ _ Hoj rid k l Hk Hl Hn) as [H0 H1]. simpl in *.
        apply and_comm. eapply (mf_keep _ _ _ Hfr); try done.
        -- eapply (mo_in _ _ _ Hoj rid), list_elem_of_lookup_2, Hl.
        -- assert (Hh : 0 < mheld mj l); [| pose proof (others_ge ms i j mj l Hj Hne); lia].
           unfold mheld. pose proof (tbl_held_ge (req_to_blocks mj) rid l).
           assert (0 < occ l (tbl (req_to_blocks mj) rid)); [| lia]. apply occ_pos. by eapply list_elem_of_lookup_2.
      * intros Ec l. pose proof (mo_hash _ _ _ Hok) as Hhash. simpl in Hhash. rewrite (pf_caching _ _ Hpf), (pf_blocks _ _ Hpf) in Hhash. by apply Hhash.
  - split; simpl; [done | by rewrite length_insert | eauto].
Qed.

(** The sum of a quantity over the managers. *)
Definition sum_over (f : Manager -> Z) (ms : list Manager) : Z := fold_right (fun m acc => f m + acc) 0 ms.

Lemma sum_over_drop f ms k m : ms !! k = Some m -> sum_over f (drop k ms) = f m + sum_over f (drop (S k) ms).
Proof. intros Hk. by rewrite (drop_S _ _ _ Hk). Qed.
Lemma sum_over_nonneg f ms : (forall m, m ∈ ms -> 0 <= f m) -> 0 <= sum_over f ms.
Proof.
  induction ms as [|m ms IH]; intros Hf; [done |]. change (0 <= f m + sum_over f ms).
  pose proof (Hf m ltac:(left)). enough (0 <= sum_over f ms) by lia. apply IH. intros. apply Hf. by right.
Qed.

Lemma sum_over_zero ms : sum_over (fun _ => 0) ms = 0.
Proof. by induction ms. Qed.

(** A call on every manager, in order. [need m] bounds how many free blocks the call on [m]
    uses, [R i m a m'] is what it does to manager [i]. With enough free blocks for all of
    them, every call succeeds. *)
Section for_managers.
Context {A : Type} (f : nat -> MM A) (need : Manager -> Z) (R : nat -> Manager -> A -> Manager -> Prop).
Context (c0 : Coordinator).
Hypothesis Hneed : forall m, m ∈ single_type_managers c0 -> 0 <= need m.
Hypothesis Hf : forall i m extra p L, single_type_managers c0 !! i = Some m ->
  pool_frame (block_pool c0) p -> mgr_ok extra (mkMS m p) L -> need m <= zlen L ->
  exists a s' L', f i (mkMS m p) = (Ok a, s') /\ mgr_ok extra s' L' /\ mgr_frame extra (mkMS m p) s' /\
    zlen L - need m <= zlen L' /\ R i m a (mg s').

Lemma for_managers_from n : forall k c L,
  coord_ok c L -> coord_frame c0 c -> (k + n = length (single_type_managers c0))%nat ->
  (forall i, (k <= i)%nat -> single_type_managers c !! i = single_type_managers c0 !! i) ->
  sum_over need (drop k (single_type_managers c0)) <= zlen L ->
  exists out c' L', traverse (seq k n) (fun i => on_manager i (f i)) c = (Ok out, c') /\ coord_ok c' L' /\
    coord_frame c c' /\ length out = n /\ zlen L - sum_over need (drop k (single_type_managers c0)) <= zlen L' /\
    (forall i, (i < k)%nat -> single_type_managers c' !! i = single_type_managers c !! i) /\
    (forall i m, (k <= i)%nat -> single_type_managers c0 !! i = Some m ->
      exists a m', out !! (i - k)%nat = Some a /\ single_type_managers c' !! i = Some m' /\ R i m a m').
Proof using Hneed Hf.
  induction n as [|n IH]; intros k c L Hc Hf0 Hk Hsame Hsum; simpl.
  { exists [], c, L. rewrite drop_ge by lia. split_and!; [done | done | done | done | simpl; lia | done |].
    intros i m Hi Hm. apply lookup_lt_Some in Hm. lia. }
  destruct (lookup_lt_is_Some_2 (single_type_managers c0) k) as [m Hm]; [lia |].
  assert (Hmc : single_type_managers c !! k = Some m) by (by rewrite Hsame by lia).
  rewrite (sum_over_drop _ _ _ _ Hm) in Hsum |- *.
  pose proof (sum_over_nonneg need (drop (S k) (single_type_managers c0))) as Hpos.
  assert (0 <= sum_over need (drop (S k) (single_type_managers c0))).
  { apply Hpos. intros x Hx. apply Hneed. rewrite <- (take_drop (S k) (single_type_managers c0)). apply elem_of_app. by right. }
  destruct (Hf k m _ _ L Hm (cf_pool _ _ Hf0) (co_mgr _ _ Hc k m Hmc)) as (a & s' & L1 & Hrun & Hok & Hfr & HL1 & HR); [lia |].
  destruct (on_manager_ok c L k m (f k) _ s' L1 Hc Hmc Hrun Hok Hfr) as (c1 & Hrun1 & Hc1 & Hf1 & Hp1 & Hms1).
  destruct (IH (S k) c1 L1 Hc1) as (out & c2 & L2 & Hrun2 & Hc2 & Hf2 & Hlen & HL2 & Hlow & Hhigh).
  { by etransitivity. }
  { lia. }
  { intros i Hi. rewrite Hms1, list_lookup_insert_ne by lia. apply Hsame. lia. }
  { lia. }
  exists (a :: out), c2, L2. unfold bind. rewrite Hrun1, Hrun2.
  split_and!; [done | done | by etransitivity | simpl; lia | lia | |].
  - intros i Hi. rewrite Hlow by lia. rewrite Hms1. by rewrite list_lookup_insert_ne by lia.
  - intros i mi Hi Hmi. destruct (decide (i = k)) as [-> | Hne].
    + rewrite Hm in Hmi. injection Hmi as <-. exists a, (mg s'). rewrite Nat.sub_diag. split_and!; [done | | done].
      rewrite Hlow by lia. rewrite Hms1. apply list_lookup_insert_eq. by eapply lookup_lt_Some.
    + destruct (Hhigh i mi) as (a' & m' & Ho & ? & ?); [lia | done |].
      exists a', m'. split_and!; [| done | done]. by replace (i - k)%nat with (S (i - S k)) by lia.
Qed.

Lemma for_managers_ok L :
  coord_ok c0 L -> sum_over need (single_type_managers c0) <= zlen L ->
  exists out c' L', for_managers f c0 = (Ok out, c') /\ coord_ok c' L' /\ coord_frame c0 c' /\
    length out = length (single_type_managers c0) /\
    zlen L - sum_over need (single_type_managers c0) <= zlen L' /\
    (forall i m, single_type_managers c0 !! i = Some m ->
       exists a m', out !! i = Some a /\ single_type_managers c' !! i = Some m' /\ R i m a m').
Proof using Hneed Hf.
  intros Hc Hsum. unfold for_managers, bind, get.
  destruct (for_managers_from (length (single_type_managers c0)) 0%nat c0 L Hc)
    as (out & c' & L' & Hrun & ? & ? & ? & ? & _ & Hr); [done | done | done | done |].
  exists out, c', L'. split_and!; try done. intros i m Hi.
  destruct (Hr i m ltac:(lia) Hi) as (a & m' & Ho & ?). rewrite Nat.sub_0_r in Ho. eauto.
Qed.
End for_managers.

(** Calls that change nothing. *)
Lemma on_manager_pure {A} c i m (f : MM A) a :
  single_type_managers c !! i = Some m -> f (mkMS m (block_pool c)) = (Ok a, mkMS m (block_pool c)) ->
  on_manager i f c = (Ok a, c).
Proof.
  intros Hi Hf. unfold on_manager. rewrite Hi, Hf. simpl. rewrite list_insert_id by done. by destruct c.
Qed.
Lemma for_managers_pure {A} (f : nat -> MM A) (g : nat -> Manager -> A) c :
  (forall i m, single_type_managers c !! i = Some m -> f i (mkMS m (block_pool c)) = (Ok (g i m), mkMS m (block_pool c))) ->
  for_managers f c = (Ok (imap g (single_type_managers c)), c).
Proof.
  intros Hf. unfold for_managers, bind, get.
  assert (Hgen : forall n k, (k + n = length (single_type_managers c))%nat ->
    traverse (seq k n) (fun i => on_manager i (f i)) c =
    (Ok (imap (fun i => g (k + i)%nat) (drop k (single_type_managers c))), c)).
  { induction n as [|n IH]; intros k Hk; simpl; [by rewrite drop_ge by lia |].
    destruct (lookup_lt_is_Some_2 (single_type_managers c) k) as [m Hm]; [lia |].
    unfold bind. rewrite (on_manager_pure c k m (f k) (g k m)) by auto. rewrite IH by lia.
    rewrite (drop_S _ _ _ Hm), imap_cons, Nat.add_0_r. unfold ret. do 3 f_equal.
    apply imap_ext. intros i x _. simpl. f_equal. lia. }
  rewrite Hgen by lia. rewrite drop_0. do 2 f_equal.
Qed.

(** ** free *)

Lemma free_spec extra s L rid :
  mgr_ok extra s L ->
  exists s' L', free rid s = (Ok tt, s') /\ mgr_ok extra s' L' /\ mgr_frame extra s s' /\
    req_to_blocks (mg s') = delete rid (req_to_blocks (mg s)) /\ zlen L <= zlen L'.
Proof.
  intros Hok. unfold free, self, gets, bind at 1.
  assert (Hb : forall s0, mgr_ok extra s0 L -> mgr_frame extra s s0 -> req_to_blocks (mg s0) = req_to_blocks (mg s) ->
    exists s' L', base_free rid s0 = (Ok tt, s') /\ mgr_ok extra s' L' /\ mgr_frame extra s s' /\
      req_to_blocks (mg s') = delete rid (req_to_blocks (mg s)) /\ zlen L <= zlen L').
  { intros s0 Hok0 Hf0 Et. destruct (base_free_spec extra s0 L rid Hok0) as (s' & ? & ? & ? & Ht & _).
    exists s'. eexists. split_and!; [done | done | by etransitivity | by rewrite Ht, Et |]. rewrite zlen_app. unfold zlen. lia. }
  destruct (kind (mg s)) as [| | |al ?| | |]; try by apply Hb.
  destruct al; [| by apply Hb]. unfold bind, with_mg, modify. apply Hb; [| | done].
  - destruct Hok. by split.
  - by split.
Qed.

(** KVCacheCoordinator.free: every manager gives up the blocks of the request. *)
Lemma coord_free_spec c L rid :
  coord_ok c L ->
  exists c' L', coord_free rid c = (Ok tt, c') /\ coord_ok c' L' /\ coord_frame c c' /\
    forall i m, single_type_managers c !! i = Some m ->
      exists m', single_type_managers c' !! i = Some m' /\ req_to_blocks m' = delete rid (req_to_blocks m).
Proof.
  intros Hc. destruct (for_managers_ok (fun _ => free rid) (fun _ => 0)
    (fun _ m _ m' => req_to_blocks m' = delete rid (req_to_blocks m)) c) with (L := L)
    as (out & c' & L' & Hrun & ? & ? & _ & _ & HR); [done | | done | by rewrite sum_over_zero; apply zlen_nonneg |].
  { intros i m extra p L0 _ _ Hok _. destruct (free_spec extra _ L0 rid Hok) as (s' & L' & ? & ? & ? & ? & ?).
    exists tt, s', L'. split_and!; try done. lia. }
  exists c', L'. unfold coord_free, bind. rewrite Hrun. split_and!; [done | done | done |].
  intros i m Hi. destruct (HR i m Hi) as (a & m' & _ & ? & ?). eauto.
Qed.

Lemma tbl_held_zero t l : (forall rid, tbl t rid = []) -> tbl_held t l = 0.
Proof.
  intros Ht. assert (Hf : map_Forall (fun _ bs => bs = []) t).
  { intros rid bs E. specialize (Ht rid). unfold tbl in Ht. by rewrite E in Ht. }
  clear Ht. induction t as [|rid bs t Hn IH] using map_ind; [done |].
  apply map_Forall_insert in Hf as [-> Hf]; [| done]. by rewrite tbl_held_insert, IH.
Qed.
Lemma total_held_zero ms l : Forall (fun m => mheld m l = 0) ms -> total_held ms l = 0.
Proof. induction 1 as [|m ms Hm _ IH]; [done |]. change (mheld m l + total_held ms l = 0). lia. Qed.

(** No block is lost: when no table holds a block, all blocks but the null block are free. *)
Lemma no_leak c L :
  coord_ok c L -> single_type_managers c <> [] ->
  (forall i m rid, single_type_managers c !! i = Some m -> tbl (req_to_blocks m) rid = []) ->
  get_num_free_blocks (block_pool c) = num_gpu_blocks (block_pool c) - 1.
Proof.
  intros Hc Hne Hempty. destruct (co_pool _ _ Hc) as [Hcore Hrefs]. set (p := block_pool c) in *.
  assert (Hzero : forall l, total_held (single_type_managers c) l = 0).
  { intros l. assert (Hall : Forall (fun m => mheld m l = 0) (single_type_managers c)).
    { apply Forall_forall. intros m [i Hi]%list_elem_of_lookup. apply tbl_held_zero. intros rid. by eapply Hempty. }
    by apply total_held_zero. }
  assert (Href : forall l, l ∈ blocks p -> l <> null_block p -> ref_of (bheap p) l = 0).
  { intros l HB Hn. destruct (single_type_managers c) as [|m ms] eqn:E; [done |].
    assert (Hm : single_type_managers c !! 0%nat = Some m) by (by rewrite E).
    pose proof (mo_ref _ _ _ (co_mgr _ _ Hc 0%nat m Hm) l HB Hn) as Hr. simpl in Hr. fold p in Hr. rewrite Hr, E.
    pose proof (total_held_split (m :: ms) 0 m l eq_refl) as Hs. rewrite Hzero in Hs. unfold mheld in Hs. lia. }
  unfold get_num_free_blocks. rewrite (pool_free_count Hcore), <- (pi_len _ _ Hcore).
  assert (Hperm : null_block p :: L ≡ₚ blocks p).
  { apply NoDup_Permutation.
    - apply NoDup_cons. split; [| apply (pool_L_NoDup Hcore)]. intros Hin. by apply (pi_sub _ _ Hcore) in Hin as [_ ?].
    - apply (pool_blocks_NoDup Hcore).
    - intros l. rewrite elem_of_cons. split.
      + intros [-> | Hin]; [apply (pi_null _ _ Hcore) | by apply (pi_sub _ _ Hcore)].
      + intros HB. destruct (decide (l = null_block p)) as [? | Hn]; [by left | right].
        apply (Hrefs l HB Hn). by apply Href. }
  unfold zlen. rewrite <- Hperm. simpl. lia.
Qed.

(** ** Construction *)

(** A manager as its constructor leaves it. *)
Definition blank (p : BlockPool) (m : Manager) : Prop :=
  req_to_blocks m = ∅ /\ num_cached_block m = ∅ /\ _null_block m = null_block p /\ 0 < block_size m.

(** Groups whose managers take no blocks when they are built, with positive block sizes. *)
Definition plain_group (nelssa : option (Z * Z)) (g : KVCacheGroupSpec) : Prop :=
  0 < s_block_size (kv_cache_spec g) /\
  (nelssa = None -> match spec_class (kv_cache_spec g) with SinkFullAttentionSpec _ => False | _ => True end).

Lemma new_manager_blank k bs caching cap tr gid dcp pcp p :
  0 < bs -> blank p (new_manager k bs caching cap tr gid dcp pcp p).
Proof. intros Hbs. split_and!; try done. simpl. destruct (1 <? dcp * pcp) eqn:E; zbool; [nia | done]. Qed.

Lemma build_managers_blank gs batched mml caching dcp pcp nelssa p : forall gid,
  Forall (plain_group nelssa) gs ->
  exists ms, build_managers gs gid batched mml caching dcp pcp nelssa p = (Ok ms, p) /\ Forall (blank p) ms /\
    length ms = length gs.
Proof.
  induction gs as [|g gs IH]; intros gid Hall; simpl; [by exists [] |].
  apply Forall_cons in Hall as [[Hbs Hg] Hall]. destruct (IH (gid + 1) Hall) as (ms & Hrun & Hms & Hlen).
  assert (Hm : exists m, get_manager_for_kv_cache_spec (kv_cache_spec g) batched mml caching gid dcp pcp nelssa p = (Ok m, p) /\
    blank p m).
  { unfold get_manager_for_kv_cache_spec, bind, get. destruct nelssa as [[? ?]|].
    - eexists. split; [done |]. by apply new_manager_blank.
    - specialize (Hg eq_refl). destruct (spec_class (kv_cache_spec g)); try done;
        (eexists; split; [done |]; by apply new_manager_blank). }
  destruct Hm as (m & Hm & Hb). exists (m :: ms). unfold bind. rewrite Hm, Hrun. split_and!; [done | by constructor | simpl; lia].
Qed.

Lemma tbl_empty rid : tbl ∅ rid = [].
Proof. done. Qed.
Lemma tbl_held_empty l : tbl_held ∅ l = 0.
Proof. apply tbl_held_zero. intros rid. apply tbl_empty. Qed.

Lemma blank_coord_ok c L :
  pool_inv (block_pool c) L -> Forall (blank (block_pool c)) (single_type_managers c) ->
  (forall l, l ∈ blocks (block_pool c) -> ref_of (bheap (block_pool c)) l = 0) ->
  (enable_caching (block_pool c) = false ->
     forall l, l ∈ blocks (block_pool c) -> hash_of (bheap (block_pool c)) l = None) -> coord_ok c L.
Proof.
  intros Hinv Hms Href Hhash. split; [done |]. intros i m Hi.
  pose proof (proj1 (Forall_lookup _ _) Hms i m Hi) as (Ht & Hc & Hn & Hbs).
  assert (Hz : forall l, total_held (single_type_managers c) l = 0).
  { intros l. apply total_held_zero. eapply Forall_impl; [exact Hms |]. intros x (Hx & _).
    unfold mheld. rewrite Hx. apply tbl_held_empty. }
  split; simpl; try done.
  - intros l. apply others_nonneg.
  - intros rid l. rewrite Ht. by intros ?%elem_of_nil.
  - intros rid. rewrite Ht. constructor.
  - intros l HB _. rewrite Href by done. pose proof (total_held_split _ _ _ l Hi) as Hs. rewrite Hz in Hs. unfold mheld in Hs. lia.
  - intros rid j l _. rewrite Ht. done.
  - intros rid. unfold num_cached. by rewrite Hc.
Qed.
