(* ===== verification/KVCacheManagerInv.v ===== *)
(** * KVCacheManagerInv
    [KVCacheManager.allocate_slots] end to end: for a request that brings no new prefix-cache
    hits (the running requests, and new requests that miss), with any number of KV-cache
    groups whose managers use the base-class allocation. The admission test is exact: the
    call returns None precisely when the free blocks do not suffice, and otherwise no step
    of it can fail. *)
From S2P Require Import Prelude OrdDict KVCacheBlock FreeQueue Request BlockHash BlockPool BlockPoolInv Managers ManagerInv CacheHit Coordinator CoordinatorInv KVCacheManager.

(** ** One manager *)

(** Blocks the allocation of [num_tokens] slots appends to the table of [rid]. *)
Definition need_of (rid : string) (num_tokens : Z) (m : Manager) : Z :=
  Z.max (cdiv num_tokens (block_size m) - zlen (tbl (req_to_blocks m) rid)) 0.

(** The manager knows the request, or its table already covers the skipped tokens. *)
Definition known (rid : string) (total : Z) (m : Manager) : Prop :=
  is_Some (num_cached_block m !! rid) \/ skipped_of m total <= zlen (tbl (req_to_blocks m) rid).

Lemma need_of_nonneg rid n m : 0 <= need_of rid n m.
Proof. unfold need_of. lia. Qed.

Lemma estimate_known m p rid num_tokens total main :
  uses_base m rid -> uncapped m num_tokens -> known rid total m ->
  get_num_blocks_to_allocate rid num_tokens [] total main (mkMS m p) = (Ok (need_of rid num_tokens m), mkMS m p).
Proof.
  intros Hb Hu Hk. rewrite uses_base_get_num by done. unfold base_get_num_blocks_to_allocate, need_of. mred.
  rewrite (uncapped_min _ _ Hu). change (num_req_blocks m rid) with (zlen (tbl (req_to_blocks m) rid)).
  destruct (num_cached_block m !! rid) as [x|] eqn:E; [done |].
  destruct Hk as [[? ?] | Hk]; [congruence |]. unfold skipped_of in Hk. unfold bind, ret. do 2 f_equal.
  assert (Hs : forall a b, py_slice ([] : list loc) a b = []).
  { intros a b. unfold py_slice. by rewrite drop_nil, take_nil. }
  rewrite Hs. change (_get_num_evictable_blocks (bheap p) []) with 0. change (zlen ([] : list loc)) with 0. lia.
Qed.

Lemma alloc_known extra s L rid num_tokens main :
  mgr_ok extra s L -> match kind (mg s) with Mamba _ _ => False | _ => True end ->
  need_of rid num_tokens (mg s) <= zlen L ->
  exists K s' L', allocate_new_blocks rid num_tokens main s = (Ok K, s') /\ mgr_ok extra s' L' /\ mgr_frame extra s s' /\
    zlen K = need_of rid num_tokens (mg s) /\ zlen L' = zlen L - zlen K /\ appends (mg s) (mg s') rid K.
Proof.
  intros Hok Hk Hn. rewrite uses_base_alloc by done.
  pose proof (base_allocate_new_blocks_spec extra s L rid num_tokens Hok) as Hspec. cbv zeta in Hspec.
  change (Z.max (cdiv num_tokens (block_size (mg s)) - zlen (tbl (req_to_blocks (mg s)) rid)) 0)
    with (need_of rid num_tokens (mg s)) in Hspec.
  rewrite (proj2 (Z.leb_le _ _) Hn) in Hspec. destruct Hspec as (s' & ? & ? & ? & ?).
  pose proof (need_of_nonneg rid num_tokens (mg s)).
  exists (take (Z.to_nat (need_of rid num_tokens (mg s))) L), s'. eexists. split_and!; try done.
  - unfold zlen in *. rewrite length_take. lia.
  - unfold zlen in *. rewrite length_take, length_drop. lia.
Qed.

(** remove_skipped_blocks leaves the layout of all tables as it is. *)
Definition same_layout (rid : string) (m m' : Manager) : Prop :=
  zlen (tbl (req_to_blocks m') rid) = zlen (tbl (req_to_blocks m) rid) /\
  (forall r, r <> rid -> tbl (req_to_blocks m') r = tbl (req_to_blocks m) r) /\
  num_cached_block m' = num_cached_block m /\
  kind m' = kind m /\ block_size m' = block_size m /\ kv_cache_group_id m' = kv_cache_group_id m /\
  _max_admission_blocks_per_request m' = _max_admission_blocks_per_request m /\
  (uses_base m rid -> uses_base m' rid).

Lemma remove_skipped_layout extra s L rid total :
  mgr_ok extra s L -> uses_base (mg s) rid ->
  exists s' L', remove_skipped_blocks rid total s = (Ok tt, s') /\ mgr_ok extra s' L' /\ mgr_frame extra s s' /\
    zlen L <= zlen L' /\ same_layout rid (mg s) (mg s').
Proof.
  intros Hok Hb.
  assert (E : remove_skipped_blocks rid total s = base_remove_skipped_blocks rid total s).
  { unfold uses_base in Hb. unfold remove_skipped_blocks, self, gets, bind at 1. by destruct (kind (mg s)). }
  destruct (base_remove_skipped_spec extra s L rid total Hok) as (s' & L' & Hrun & Hok' & Hfr & Hsub & Hother & Hnc & k & Hk & _ & Ht).
  exists s', L'. rewrite E. split_and!; try done.
  - unfold zlen. apply inj_le, submseteq_length, NoDup_submseteq; [| done].
    destruct (mo_pool _ _ _ Hok) as [Hc _]. apply (pool_L_NoDup Hc).
  - assert (Hn : (k <= (if (get_num_skipped_tokens (kind (mg s)) total <=? 0)%Z then 0 else skipped_blocks (mg s) rid total)
        <= length (tbl (req_to_blocks (mg s)) rid))%nat).
    { split; [done |]. destruct (_ <=? 0)%Z; [lia |]. unfold skipped_blocks, zlen. lia. }
    unfold same_layout. destruct Hfr. split_and!; try done.
    + rewrite Ht. unfold zlen. rewrite !length_app, length_take, length_replicate, length_drop. lia.
    + intros _. unfold uses_base in *. rewrite mf_kind. destruct (kind (mg s)) eqn:Ek; try done.
      unfold base_remove_skipped_blocks in Hrun. mred. rewrite Ek in Hrun. simpl in Hrun. by injection Hrun as <-.
Qed.

(** ** All managers *)

Section all.
Context (rid : string) (num_tokens total : Z).

(** What allocate_slots requires of every manager for a request without new hits. *)
Definition ready (m : Manager) : Prop := uses_base m rid /\ uncapped m num_tokens /\ known rid total m.

Lemma same_layout_ready m m' : same_layout rid m m' -> ready m -> ready m'.
Proof.
  intros (Hlen & _ & Hnc & Hk & Hb & _ & Hcap & Hu) (? & Hun & Hkn). split_and!; [by apply Hu | |].
  - unfold uncapped. by rewrite Hcap, Hb.
  - unfold known, skipped_of. by rewrite Hnc, Hk, Hb, Hlen.
Qed.
Lemma same_layout_need m m' n : same_layout rid m m' -> need_of rid n m' = need_of rid n m.
Proof. intros (Hlen & _ & _ & _ & Hb & _). unfold need_of. by rewrite Hlen, Hb. Qed.

Lemma coord_remove_skipped_layout c L t :
  coord_ok c L -> (forall m, m ∈ single_type_managers c -> ready m) ->
  exists c' L', coord_remove_skipped_blocks rid t c = (Ok tt, c') /\ coord_ok c' L' /\ coord_frame c c' /\
    zlen L <= zlen L' /\ Forall2 (same_layout rid) (single_type_managers c) (single_type_managers c').
Proof.
  intros Hc Hr. destruct (for_managers_ok (fun _ => remove_skipped_blocks rid t) (fun _ => 0)
    (fun _ m _ m' => same_layout rid m m') c) with (L := L)
    as (out & c' & L' & Hrun & ? & Hf & _ & HL & HR); [done | | done | by rewrite sum_over_zero; apply zlen_nonneg |].
  { intros i m extra p L0 Hi _ Hok _. apply list_elem_of_lookup_2, Hr in Hi as (Hb & _).
    destruct (remove_skipped_layout extra _ L0 rid t Hok Hb) as (s' & L' & ? & ? & ? & ? & ?).
    exists tt, s', L'. split_and!; try done. lia. }
  rewrite sum_over_zero in HL. exists c', L'. unfold coord_remove_skipped_blocks, bind. rewrite Hrun.
  split_and!; [done | done | done | lia |]. apply Forall2_same_length_lookup_2; [by rewrite (cf_len _ _ Hf) |].
  intros i m m' Hm Hm'. destruct (HR i m Hm) as (_ & m2 & _ & Hm2 & ?). by simplify_eq.
Qed.

Lemma imap_sum f ms : fold_right Z.add 0 (imap (fun _ m => f m) ms) = sum_over f ms.
Proof.
  induction ms as [|m ms IH]; [done |]. rewrite imap_cons. simpl. f_equal. rewrite <- IH. f_equal.
Qed.

Lemma coord_estimate_known c n main enc :
  (forall m, m ∈ single_type_managers c -> ready m) -> n = length (single_type_managers c) ->
  coord_get_num_blocks_to_allocate rid num_tokens (replicate n []) enc total main c =
  (Ok (sum_over (need_of rid num_tokens) (single_type_managers c)), c).
Proof.
  intros Hr ->. unfold coord_get_num_blocks_to_allocate, bind at 1.
  rewrite (for_managers_pure _ (fun _ m => need_of rid num_tokens m)).
  - by rewrite imap_sum.
  - intros i m Hi. pose proof (Hr m (list_elem_of_lookup_2 _ _ _ Hi)) as (Hb & ? & ?).
    unfold self, gets, bind at 1. simpl.
    assert (is_cross m = false) as -> by (unfold is_cross, uses_base in *; by destruct (kind m)).
    unfold bind, lift. rewrite (py_index_nat _ i []).
    + by apply estimate_known.
    + apply lookup_replicate_2. by eapply lookup_lt_Some.
Qed.

Lemma coord_allocate_known c L main enc :
  coord_ok c L -> (forall m, m ∈ single_type_managers c -> ready m) ->
  sum_over (need_of rid num_tokens) (single_type_managers c) <= zlen L ->
  exists Ks c' L', coord_allocate_new_blocks rid num_tokens main enc c = (Ok Ks, c') /\ coord_ok c' L' /\
    coord_frame c c' /\ length Ks = length (single_type_managers c) /\
    (forall i m, single_type_managers c !! i = Some m -> exists K m', Ks !! i = Some K /\
       single_type_managers c' !! i = Some m' /\ zlen K = need_of rid num_tokens m /\ appends m m' rid K).
Proof.
  intros Hc Hr Hsum. destruct (for_managers_ok (fun _ =>
      let* m := self in
      allocate_new_blocks rid (if is_cross m then enc else num_tokens) main) (need_of rid num_tokens)
    (fun _ m K m' => zlen K = need_of rid num_tokens m /\ appends m m' rid K) c) with (L := L)
    as (Ks & c' & L' & Hrun & ? & ? & ? & _ & HR); [intros; apply need_of_nonneg | | done | done |].
  { intros i m extra p L0 Hi _ Hok Hn. apply list_elem_of_lookup_2, Hr in Hi as (Hb & _).
    unfold self, gets, bind. simpl.
    assert (is_cross m = false) as -> by (unfold is_cross, uses_base in *; by destruct (kind m)).
    destruct (alloc_known extra _ L0 rid num_tokens main Hok) as (K & s' & L' & ? & ? & ? & ? & ? & ?); [| done |].
    { simpl. unfold uses_base in Hb. by destruct (kind m). }
    exists K, s', L'. split_and!; try done. simpl in *. lia. }
  by exists Ks, c', L'.
Qed.
End all.

(** ** Caching in all managers *)

Section caching.
Context (sha256 : bytes -> bytes).

(** cache_blocks of the base class runs for every manager type but Mamba and cross attention. *)
Definition caches_base (m : Manager) : Prop :=
  match kind m with Mamba _ _ | CrossAttention => False | _ => True end.

Lemma caches_base_eq m p r n :
  caches_base m -> cache_blocks sha256 r n (mkMS m p) = base_cache_blocks sha256 r n (mkMS m p).
Proof. unfold caches_base, cache_blocks, self, gets, bind at 1. simpl. by destruct (kind m). Qed.

Lemma can_cache_frame m p p' r r' n :
  pool_frame p p' -> memo_of r r' -> can_cache (mkMS m p) r n -> can_cache (mkMS m p') r' n.
Proof.
  intros Hf [memo ->] []. simpl in *.
  split; simpl; rewrite ?(pf_caching _ _ Hf), ?(pf_hbs _ _ Hf); done.
Qed.

(** What caching the blocks of [r] up to token [n] does to a manager. *)
Definition cached_upto (r : Request) (n : Z) (m m' : Manager) : Prop :=
  (forall rid, tbl (req_to_blocks m') rid = tbl (req_to_blocks m) rid) /\
  num_cached m' (request_id r) = Z.max (n / block_size m) (num_cached m (request_id r)) /\
  kind m' = kind m.

Lemma cache_from_spec n num : forall k c L r,
  coord_ok c L -> (k + num = length (single_type_managers c))%nat ->
  (forall i m, (k <= i)%nat -> single_type_managers c !! i = Some m ->
     caches_base m /\ can_cache (mkMS m (block_pool c)) r n) ->
  exists r' c', cache_from sha256 (seq k num) n r c = (Ok r', c') /\ memo_of r r' /\ coord_ok c' L /\ coord_frame c c' /\
    (forall i, (i < k)%nat -> single_type_managers c' !! i = single_type_managers c !! i) /\
    (forall i m, (k <= i)%nat -> single_type_managers c !! i = Some m ->
       exists m', single_type_managers c' !! i = Some m' /\ cached_upto r n m m').
Proof.
  induction num as [|num IH]; intros k c L r Hc Hk Hcc; simpl.
  { exists r, c. split_and!; [done | apply memo_of_refl | done | done | done |].
    intros i m Hi Hm. apply lookup_lt_Some in Hm. lia. }
  destruct (lookup_lt_is_Some_2 (single_type_managers c) k) as [m Hm]; [lia |].
  destruct (Hcc k m ltac:(lia) Hm) as [Hb Hcan].
  destruct (base_cache_blocks_spec sha256 _ _ _ r n (co_mgr _ _ Hc k m Hm) Hcan) as (r1 & s' & Hrun & Hmemo & Hok & Hfr & Ht & Hn).
  rewrite <- caches_base_eq in Hrun by done.
  destruct (on_manager_ok c L k m _ _ s' L Hc Hm Hrun Hok Hfr) as (c1 & Hrun1 & Hc1 & Hf1 & Hp1 & Hms1).
  destruct (IH (S k) c1 L r1 Hc1) as (r2 & c2 & Hrun2 & Hmemo2 & Hc2 & Hf2 & Hlow & Hhigh).
  { rewrite (cf_len _ _ Hf1). lia. }
  { intros i mi Hi Hmi. rewrite Hms1, list_lookup_insert_ne in Hmi by lia.
    destruct (Hcc i mi ltac:(lia) Hmi). split; [done |]. eapply can_cache_frame; [apply Hf1 | done | done]. }
  exists r2, c2. unfold bind. rewrite Hrun1, Hrun2.
  split_and!; [done | by eapply memo_of_trans | done | by etransitivity | |].
  - intros i Hi. rewrite Hlow by lia. by rewrite Hms1, list_lookup_insert_ne by lia.
  - intros i mi Hi Hmi. destruct (decide (i = k)) as [-> | Hne].
    + rewrite Hm in Hmi. injection Hmi as <-. exists (mg s'). split; [| split_and!; [done | done | exact (mf_kind _ _ _ Hfr)]].
      rewrite Hlow by lia. rewrite Hms1. apply list_lookup_insert_eq. by eapply lookup_lt_Some.
    + destruct Hmemo as [memo ->]. apply Hhigh; [lia |]. by rewrite Hms1, list_lookup_insert_ne.
Qed.

Lemma coord_cache_blocks_spec c L r n :
  coord_ok c L ->
  (forall m, m ∈ single_type_managers c -> caches_base m /\ can_cache (mkMS m (block_pool c)) r n) ->
  exists r' c', coord_cache_blocks sha256 r n c = (Ok r', c') /\ memo_of r r' /\ coord_ok c' L /\ coord_frame c c' /\
    Forall2 (cached_upto r n) (single_type_managers c) (single_type_managers c').
Proof.
  intros Hc Hcc. unfold coord_cache_blocks, bind at 1, get.
  destruct (cache_from_spec n (length (single_type_managers c)) 0 c L r Hc eq_refl) as (r' & c' & ? & ? & ? & Hf & _ & HR).
  { intros i m _ Hi. by eapply Hcc, list_elem_of_lookup_2. }
  exists r', c'. split_and!; try done. apply Forall2_same_length_lookup_2; [by rewrite (cf_len _ _ Hf) |].
  intros i m m' Hm Hm'. destruct (HR i m ltac:(lia) Hm) as (m2 & Hm2 & ?). by simplify_eq.
Qed.
End caching.

(** ** allocate_slots *)

(** The hashes of [r] cover its first [n] tokens in every group. *)
Record hashes_cover (r : Request) (n : Z) (k : KVCacheManager) : Prop := {
  hc_on : enable_caching (block_pool (coordinator k)) = true;
  hc_hbs : 0 < hash_block_size (block_pool (coordinator k));
  hc_mgr : forall m, m ∈ single_type_managers (coordinator k) ->
    block_size m mod hash_block_size (block_pool (coordinator k)) = 0 /\
    0 <= kv_cache_group_id m < 2 ^ 32 /\
    n / block_size m <=
      zlen (bh_list (hash_list (hash_block_size (block_pool (coordinator k))) (block_size m) r));
}.

Section allocate_slots.
Context (sha256 : bytes -> bytes) (r : Request) (num_new lookahead enc : Z) (delay : bool).
Context (k : KVCacheManager) (L : list loc).
#[local] Notation rid := (request_id r).
#[local] Notation managers := (single_type_managers (coordinator k)).

Definition slots_total : Z := Z.min (num_computed_tokens r) (max_model_len k).
Definition slots_needed : Z := Z.min (slots_total + num_new + lookahead) (max_model_len k).
Definition slots_cached : Z := Z.min (slots_total + num_new) (num_tokens r).

(** What the scheduler guarantees when it calls allocate_slots without new computed blocks. *)
Record slots_pre : Prop := {
  sp_ok : coord_ok (coordinator k) L;
  sp_groups : num_kv_cache_groups k = length managers;
  sp_short : nelssa_long_mask r = false;
  sp_new : 0 < num_new;
  sp_look : 0 <= lookahead;
  sp_max : slots_total + num_new <= max_model_len k;
  sp_ready : forall m, m ∈ managers -> ready rid slots_needed (num_computed_tokens r) m;
}.

(** With caching, the request's hashes cover the tokens to cache. *)
Definition slots_cache : Prop := hashes_cover r slots_cached k.

(** The outcome for one manager: the table covers the slots, the new blocks are at its
    end, and the tables of the other requests are as before. *)
Definition slots_done (m m' : Manager) (K : list loc) : Prop :=
  zlen K = need_of rid slots_needed m /\
  cdiv slots_needed (block_size m) <= zlen (tbl (req_to_blocks m') rid) /\
  (exists bs, tbl (req_to_blocks m') rid = bs ++ K) /\
  forall q, q <> rid -> tbl (req_to_blocks m') q = tbl (req_to_blocks m) q.

#[local] Notation alloc := (allocate_slots sha256 r num_new 0 None lookahead 0 delay enc).

(** The call up to the admission test. *)
Lemma allocate_slots_test :
  slots_pre ->
  exists c1 L1, coord_ok c1 L1 /\ coord_frame (coordinator k) c1 /\ zlen L <= zlen L1 /\
    Forall2 (same_layout rid) managers (single_type_managers c1) /\
    alloc k =
    (if get_num_free_blocks (block_pool c1) <? sum_over (need_of rid slots_needed) (single_type_managers c1)
     then ret (None, r)
     else
       let* new_blocks := on_coord (coord_allocate_new_blocks rid slots_needed (slots_total + num_new) enc) in
       if negb (k_enable_caching k) || delay
       then ret (Some (create_kv_cache_blocks new_blocks), r)
       else
         let* r' := on_coord (coord_cache_blocks sha256 r slots_cached) in
         ret (Some (create_kv_cache_blocks new_blocks), r')) (with_coordinator c1 k).
Proof.
  intros [Hc Hgr Hs Hn Hl Hm Hr].
  destruct (coord_remove_skipped_layout rid slots_needed (num_computed_tokens r) (coordinator k) L slots_total Hc Hr)
    as (c1 & L1 & Hrun & Hc1 & Hf1 & HL & Hlay).
  exists c1, L1. split_and!; try done.
  unfold allocate_slots. rewrite (proj2 (Z.eqb_neq num_new 0)) by lia. cbn [andb].
  unfold bind at 1, get at 1. cbv zeta. simpl default.
  rewrite !Z.add_0_r. fold slots_total. fold slots_needed. fold slots_cached.
  unfold bind at 1, on_coord at 1, zoom at 1. rewrite Hrun. rewrite Hs.
  unfold bind at 1, ret at 1. unfold bind at 1, on_coord at 1, zoom at 1. simpl coordinator. simpl kv_blocks.
  rewrite (coord_estimate_known rid slots_needed (num_computed_tokens r)).
  - done.
  - intros m Hm1. destruct (Forall2_elem_r _ _ _ _ Hlay Hm1) as (m0 & ? & ?). eapply same_layout_ready; eauto.
  - rewrite Hgr. by rewrite (cf_len _ _ Hf1).
Qed.

(** The outcome of a successful call. *)
Definition slots_result (Ks : list (list loc)) (r' : Request) (k' : KVCacheManager) : Prop :=
  memo_of r r' /\ coord_frame (coordinator k) (coordinator k') /\
  (exists L', coord_ok (coordinator k') L') /\
  forall i m, managers !! i = Some m -> exists K m', Ks !! i = Some K /\
    single_type_managers (coordinator k') !! i = Some m' /\ slots_done m m' K.

(** Caching after the allocation: the tables cover the tokens to cache. *)
Lemma slots_can_cache c2 m m1 m2 K :
  slots_pre -> slots_cache -> coord_frame (coordinator k) c2 ->
  m ∈ managers -> same_layout rid m m1 -> appends m1 m2 rid K -> zlen K = need_of rid slots_needed m1 ->
  0 < block_size m ->
  caches_base m2 /\ can_cache (mkMS m2 (block_pool c2)) r slots_cached.
Proof.
  intros Hpre [Hon Hhbs Hmgr] Hf Hm Hlay Hap HK Hbs. destruct (Hmgr m Hm) as (Hmod & Hgid & Hh).
  destruct (sp_ready Hpre m Hm) as (Hb & _).
  pose proof Hlay as (Hlen & _ & _ & Hkind & Hb1 & Hg1 & _). split.
  - unfold caches_base. rewrite (ap_kind _ _ _ _ Hap), Hkind. unfold uses_base in Hb. by destruct (kind m).
  - split; simpl; rewrite ?(ap_bs _ _ _ _ Hap), ?(ap_gid _ _ _ _ Hap), ?Hb1, ?Hg1, ?(pf_caching _ _ (cf_pool _ _ Hf)),
      ?(pf_hbs _ _ (cf_pool _ _ Hf)); try done.
    rewrite (ap_blocks _ _ _ _ Hap), decide_True by done. rewrite zlen_app, HK. unfold need_of. rewrite Hb1.
    assert (Hle : slots_cached / block_size m <= cdiv slots_needed (block_size m)); [| lia].
    pose proof (cdiv_bounds slots_needed (block_size m) Hbs). pose proof (Z.div_mod slots_cached (block_size m) ltac:(lia)).
    pose proof (Z.mod_pos_bound slots_cached (block_size m) Hbs).
    assert (slots_cached <= slots_needed) by (pose proof (sp_max Hpre); pose proof (sp_look Hpre); unfold slots_cached, slots_needed; lia).
    nia.
Qed.

Lemma slots_done_intro m m1 m2 K :
  same_layout rid m m1 -> appends m1 m2 rid K -> zlen K = need_of rid slots_needed m1 -> slots_done m m2 K.
Proof.
  intros Hlay Hap HK. rewrite (same_layout_need _ _ _ _ Hlay) in HK. destruct Hlay as (Hlen & Hoth & _ & _ & Hb1 & _).
  split_and!; [done | | |].
  - rewrite (ap_blocks _ _ _ _ Hap), decide_True by done. rewrite zlen_app, HK, Hlen. unfold need_of. lia.
  - exists (tbl (req_to_blocks m1) rid). by rewrite (ap_blocks _ _ _ _ Hap), decide_True.
  - intros q Hq. rewrite (ap_blocks _ _ _ _ Hap), decide_False by done. by apply Hoth.
Qed.

Lemma slots_done_cached m m2 m3 K : slots_done m m2 K -> cached_upto r slots_cached m2 m3 -> slots_done m m3 K.
Proof.
  intros (? & ? & ? & Ho) [Ht _]. split_and!; [done | by rewrite Ht | by rewrite Ht |].
  intros q Hq. rewrite Ht. by apply Ho.
Qed.

Lemma allocate_slots_spec :
  slots_pre -> (k_enable_caching k = true -> delay = false -> slots_cache) ->
  exists c1 L1, coord_ok c1 L1 /\ zlen L <= zlen L1 /\ Forall2 (same_layout rid) managers (single_type_managers c1) /\
    let n := sum_over (need_of rid slots_needed) managers in
    if zlen L1 <? n then alloc k = (Ok (None, r), with_coordinator c1 k)
    else exists Ks r' k', alloc k = (Ok (Some (create_kv_cache_blocks Ks), r'), k') /\ slots_result Ks r' k'.
Proof.
  intros Hpre Hcache. destruct (allocate_slots_test Hpre) as (c1 & L1 & Hc1 & Hf1 & HL & Hlay & Hrun).
  exists c1, L1. split_and!; try done. cbv zeta.
  assert (Esum : sum_over (need_of rid slots_needed) (single_type_managers c1) = sum_over (need_of rid slots_needed) managers).
  { clear -Hlay. induction Hlay as [|m m1 ms ms1 Hm _ IH]; [done |]. simpl.
    by rewrite (same_layout_need _ _ _ _ Hm), IH. }
  rewrite Esum in Hrun. unfold get_num_free_blocks in Hrun.
  destruct (co_pool _ _ Hc1) as [Hcore _]. rewrite (pool_free_count Hcore) in Hrun.
  destruct (_ <? _) eqn:Elt; [done |]. zbool.
  destruct (coord_allocate_known rid slots_needed (num_computed_tokens r) c1 L1 (slots_total + num_new) enc Hc1)
    as (Ks & c2 & L2 & Hrun2 & Hc2 & Hf2 & HlenK & HK).
  { intros m Hm1. destruct (Forall2_elem_r _ _ _ _ Hlay Hm1) as (m0 & ? & ?). eapply same_layout_ready; [done |].
    by apply (sp_ready Hpre). }
  { rewrite Esum. lia. }
  assert (Hboth : forall i m, managers !! i = Some m -> exists K m1 m2, Ks !! i = Some K /\
    single_type_managers c2 !! i = Some m2 /\ same_layout rid m m1 /\ appends m1 m2 rid K /\ zlen K = need_of rid slots_needed m1).
  { intros i m Hm. destruct (Forall2_lookup_l _ _ _ _ _ Hlay Hm) as (m1 & Hm1 & ?).
    destruct (HK i m1 Hm1) as (K & m2 & ? & ? & ? & ?). eauto 10. }
  assert (Hf02 : coord_frame (coordinator k) c2) by (by etransitivity).
  rewrite Hrun. unfold bind at 1, on_coord at 1, zoom at 1. simpl coordinator. rewrite Hrun2.
  destruct (negb (k_enable_caching k) || delay) eqn:Ecache.
  - exists Ks, r, (with_coordinator c2 k). split; [done |]. split_and!; [apply memo_of_refl | done | eauto |].
    intros i m Hm. destruct (Hboth i m Hm) as (K & m1 & m2 & ? & ? & ? & ? & ?). eauto 10 using slots_done_intro.
  - apply orb_false_iff in Ecache as [Eon ->]. zbool.
    destruct (coord_cache_blocks_spec sha256 c2 L2 r slots_cached Hc2) as (r' & c3 & Hrun3 & Hmemo & Hc3 & Hf3 & Hc).
    { intros m2 [i Hm2]%list_elem_of_lookup. pose proof (lookup_lt_Some _ _ _ Hm2) as Hlt.
      rewrite (cf_len _ _ Hf02) in Hlt. destruct (lookup_lt_is_Some_2 _ _ Hlt) as [m Hm].
      destruct (Hboth i m Hm) as (K & m1 & m2' & ? & Hm2' & ? & ? & ?). simplify_eq.
      eapply slots_can_cache; try done; [by apply Hcache | by eapply list_elem_of_lookup_2 |].
      exact (mo_bs _ _ _ (co_mgr _ _ (sp_ok Hpre) i m Hm)). }
    exists Ks, r', (with_coordinator c3 k). unfold bind, on_coord, zoom. simpl coordinator. rewrite Hrun3.
    split; [done |]. split_and!; [done | by etransitivity | eauto |].
    intros i m Hm. destruct (Hboth i m Hm) as (K & m1 & m2 & ? & Hm2 & ? & ? & ?).
    destruct (Forall2_lookup_l _ _ _ _ _ Hc Hm2) as (m3 & ? & ?). exists K, m3. split_and!; try done.
    eauto using slots_done_cached, slots_done_intro.
Qed.
End allocate_slots.
