(* ===== verification/PrefixAdmission.v ===== *)
(** * PrefixAdmission
    A new request of a model with one KV-cache group: [get_computed_blocks] finds the cached
    prefix and [allocate_slots] shares its blocks and allocates the rest. The blocks found
    are admissible (none twice, all cached), the admission estimate counts exactly the free
    blocks that will be used, and no step of the allocation can fail after the test. *)
From S2P Require Import Prelude OrdDict KVCacheBlock FreeQueue Request BlockHash BlockPool BlockPoolInv Managers ManagerInv CacheHit HitFinder Coordinator CoordinatorInv KVCacheManager KVCacheManagerInv.

(** ** The manager's steps for a request without blocks *)

Lemma with_bq_id p : with_bq (bq p) p = p.
Proof. by destruct p. Qed.

Lemma base_remove_skipped_empty s rid total :
  tbl (req_to_blocks (mg s)) rid = [] ->
  exists s', base_remove_skipped_blocks rid total s = (Ok tt, s') /\ pool s' = pool s /\
    (s' = s \/ mg s' = set_blocks (<[rid := []]> (req_to_blocks (mg s))) (mg s)).
Proof.
  intros He. unfold base_remove_skipped_blocks, self, gets, bind at 1. destruct (_ <=? 0); [by exists s; eauto |].
  assert (Hbl : exists s1, blocks_of rid s = (Ok [], s1) /\ pool s1 = pool s /\
      (forall t, set_blocks t (mg s1) = set_blocks t (mg s)) /\ <[rid := []]> (req_to_blocks (mg s1)) = <[rid := []]> (req_to_blocks (mg s))).
  { unfold blocks_of, tbl in *. mred. destruct (req_to_blocks (mg s) !! rid) as [bs|] eqn:Et; simpl in He.
    - subst bs. by exists s.
    - eexists. split_and!; [done | done | done |]. simpl. by rewrite insert_insert_eq. }
  destruct Hbl as (s1 & Hbl & Hp & Hset & Hins). unfold bind. rewrite Hbl. change (zlen ([] : list loc)) with 0.
  assert (En : null_out (_null_block (mg s)) (Z.to_nat (Z.min (get_num_skipped_tokens (kind (mg s)) total / block_size (mg s)) 0)) [] = ([], [])).
  { by replace (Z.to_nat _) with 0%nat by lia. }
  rewrite En. unfold store_blocks, with_mg, modify, on_pool, zoom. simpl. rewrite with_bq_id.
  eexists. split_and!; [done | done |]. right. simpl. by rewrite Hset, Hins.
Qed.
Lemma remove_skipped_empty s rid total :
  uses_base (mg s) rid -> tbl (req_to_blocks (mg s)) rid = [] ->
  exists s', remove_skipped_blocks rid total s = (Ok tt, s') /\ pool s' = pool s /\
    (s' = s \/ mg s' = set_blocks (<[rid := []]> (req_to_blocks (mg s))) (mg s)).
Proof.
  intros Hb He.
  assert (remove_skipped_blocks rid total s = base_remove_skipped_blocks rid total s) as ->.
  { unfold uses_base in Hb. unfold remove_skipped_blocks, self, gets, bind at 1. by destruct (kind (mg s)). }
  by apply base_remove_skipped_empty.
Qed.

Lemma unseen_request_after s s' rid new local ext :
  same_layout rid (mg s) (mg s') -> pool s' = pool s -> m_enable_caching (mg s') = m_enable_caching (mg s) ->
  unseen_request s rid new local ext -> unseen_request s' rid new local ext.
Proof.
  intros (Hlen & _ & Hnc & Hk & Hb & _) Hp Hc []. split; rewrite ?Hp, ?Hk, ?Hb, ?Hnc, ?Hc; try done.
  apply nil_length_inv. rewrite nr_blocks in Hlen. unfold zlen in Hlen. simpl in Hlen. lia.
Qed.

(** ** One manager in a coordinator *)

Lemma for_managers_one {A} (f : nat -> MM A) c m a s' :
  single_type_managers c = [m] -> f 0%nat (mkMS m (block_pool c)) = (Ok a, s') ->
  for_managers f c = (Ok [a], with_managers (pool s') [mg s'] c).
Proof.
  intros Hm Hf. unfold for_managers, bind, get. rewrite Hm. simpl. unfold bind, on_manager. rewrite Hm. simpl.
  by rewrite Hf.
Qed.

Lemma coord_ok_one c L m extra :
  single_type_managers c = [m] -> (forall l, extra l = 0) ->
  coord_ok c L <-> mgr_ok extra (mkMS m (block_pool c)) L.
Proof.
  intros Hm H0. split.
  - intros Hc. pose proof (co_mgr _ _ Hc 0%nat m ltac:(by rewrite Hm)) as Hok.
    destruct Hok. split; try done; simpl in *; intros l; rewrite H0; try done.
    intros. rewrite mo_ref by done. unfold others. by rewrite Hm.
  - intros Hok. split; [apply Hok |]. intros [|i] m' Hi; rewrite Hm in Hi; simpl in Hi; [| by rewrite lookup_nil in Hi].
    injection Hi as <-. rewrite Hm. destruct Hok. split; try done; simpl in *; intros l; try done.
    intros. rewrite mo_ref by done. by rewrite H0.
Qed.

Lemma one_manager c c' m' :
  coord_frame c c' -> single_type_managers c' !! 0%nat = Some m' -> length (single_type_managers c) = 1%nat ->
  single_type_managers c' = [m'].
Proof.
  intros Hf Hm Hl. rewrite <- (cf_len _ _ Hf) in Hl. destruct (single_type_managers c') as [|x [|]]; simpl in *; try done.
  by injection Hm as ->.
Qed.

(** ** allocate_slots with a cached prefix *)

Section hits.
Context (sha256 : bytes -> bytes) (r : Request) (num_new hit lookahead enc : Z) (delay : bool).
Context (k : KVCacheManager) (L : list loc) (m : Manager) (new : list loc).
#[local] Notation rid := (request_id r).
#[local] Notation c0 := (coordinator k).
#[local] Notation local := (num_computed_tokens r + hit).
#[local] Notation needed := (Z.min (local + num_new + lookahead) (max_model_len k)).
#[local] Notation to_cache := (Z.min (local + num_new) (num_tokens r)).

(** What the scheduler guarantees for a new request with the cached blocks [new]. *)
Record hits_pre : Prop := {
  hp_ok : coord_ok c0 L;
  hp_one : single_type_managers c0 = [m];
  hp_groups : num_kv_cache_groups k = 1%nat;
  hp_short : nelssa_long_mask r = false;
  hp_num : 0 < num_new;
  hp_look : 0 <= lookahead;
  hp_max : local + num_new <= max_model_len k;
  hp_new : unseen_request (mkMS m (block_pool c0)) rid new local 0;
  hp_hits : new <> [];
  hp_base : uses_base m rid;
  hp_cap : uncapped m needed;
  hp_cache : k_enable_caching k = true -> delay = false ->
    enable_caching (block_pool c0) = true /\ 0 < hash_block_size (block_pool c0) /\
    block_size m mod hash_block_size (block_pool c0) = 0 /\ 0 <= kv_cache_group_id m < 2 ^ 32 /\
    to_cache / block_size m <= zlen (bh_list (hash_list (hash_block_size (block_pool c0)) (block_size m) r));
}.

#[local] Notation alloc :=
  (allocate_slots sha256 r num_new hit (Some (create_kv_cache_blocks [new])) lookahead 0 delay enc).

(** The state after the blocks before the window are dropped: nothing happens. *)
Lemma hits_remove :
  hits_pre ->
  exists s1 L1, coord_remove_skipped_blocks rid local c0 = (Ok tt, with_managers (pool s1) [mg s1] c0) /\
    pool s1 = block_pool c0 /\ mgr_ok (fun _ => 0) s1 L1 /\ mgr_frame (fun _ => 0) (mkMS m (block_pool c0)) s1 /\
    zlen L1 = zlen L /\ same_layout rid m (mg s1) /\ unseen_request s1 rid new local 0.
Proof.
  intros []. set (s := mkMS m (block_pool c0)).
  assert (Hok : mgr_ok (fun _ => 0) s L) by (by apply (coord_ok_one c0)).
  destruct (remove_skipped_layout (fun _ => 0) s L rid local Hok hp_base0) as (s1 & L1 & Hrun & Hok1 & Hfr & _ & Hlay).
  destruct (remove_skipped_empty s rid local hp_base0 (nr_blocks _ _ _ _ _ hp_new0)) as (s1' & Hrun' & Hp & _).
  rewrite Hrun in Hrun'. injection Hrun' as <-. exists s1, L1. unfold coord_remove_skipped_blocks, bind.
  rewrite (for_managers_one _ c0 m tt s1) by done. split_and!; try done.
  - destruct (mo_pool _ _ _ Hok) as [H0 _], (mo_pool _ _ _ Hok1) as [H1 _].
    rewrite <- (pool_free_count H0), <- (pool_free_count H1). by rewrite Hp.
  - eapply unseen_request_after; [| | | exact hp_new0]; [done | done | apply Hfr].
Qed.

(** The outcome: the table starts with the shared blocks and covers the slots. *)
Definition hits_result (n : Z) (K : list loc) (r' : Request) (k' : KVCacheManager) : Prop :=
  memo_of r r' /\ exists L' m', single_type_managers (coordinator k') = [m'] /\
    coord_ok (coordinator k') L' /\ zlen L' = zlen L - n /\
    cdiv needed (block_size m) <= zlen (tbl (req_to_blocks m') rid) /\
    shared_prefix m' rid (null_block (block_pool c0)) (skipped_of m local) new /\
    (forall q, q <> rid -> tbl (req_to_blocks m') q = tbl (req_to_blocks m) q).

Lemma hits_cacheable m2 p2 :
  hits_pre -> k_enable_caching k = true -> delay = false ->
  mgr_frame (fun _ => 0) (mkMS m (block_pool c0)) (mkMS m2 p2) ->
  cdiv needed (block_size m) <= zlen (tbl (req_to_blocks m2) rid) ->
  0 < block_size m ->
  caches_base m2 /\ can_cache (mkMS m2 p2) r to_cache.
Proof.
  intros Hpre Hon Hd Hf Hlen Hbs. destruct (hp_cache Hpre Hon Hd) as (Hc & Hh & Hmod & Hg & Hhash).
  pose proof (hp_base Hpre) as Hb. destruct Hf as [Hpf Hk Hbs2 Hgid _ _ _ _]. simpl in *. split.
  - unfold caches_base, uses_base in *. rewrite Hk. by destruct (kind m).
  - split; simpl; rewrite ?Hbs2, ?Hgid, ?(pf_caching _ _ Hpf), ?(pf_hbs _ _ Hpf); try done.
    enough (to_cache / block_size m <= cdiv needed (block_size m)) by lia.
    pose proof (cdiv_bounds needed (block_size m) Hbs). pose proof (Z.div_mod to_cache (block_size m) ltac:(lia)).
    pose proof (Z.mod_pos_bound to_cache (block_size m) Hbs).
    pose proof (hp_max Hpre). pose proof (hp_look Hpre). nia.
Qed.

(** The call after the admission test. *)
Definition hits_rest : KM (option KVCacheBlocks * Request) :=
  on_coord (coord_allocate_new_computed_blocks rid [new] local 0) ;;;
  let* new_blocks := on_coord (coord_allocate_new_blocks rid needed (local + num_new) enc) in
  if negb (k_enable_caching k) || delay
  then ret (Some (create_kv_cache_blocks new_blocks), r)
  else
    let* r' := on_coord (coord_cache_blocks sha256 r to_cache) in
    ret (Some (create_kv_cache_blocks new_blocks), r').

Lemma hits_test s1 L1 n :
  hits_pre -> coord_remove_skipped_blocks rid local c0 = (Ok tt, with_managers (pool s1) [mg s1] c0) ->
  mgr_ok (fun _ => 0) s1 L1 -> zlen L1 = zlen L -> is_cross (mg s1) = false ->
  get_num_blocks_to_allocate rid needed new (local + 0) (local + num_new) s1 = (Ok n, s1) ->
  alloc k = (if zlen L <? n then ret (None, r) else hits_rest) (with_coordinator (with_managers (pool s1) [mg s1] c0) k).
Proof.
  intros Hpre Hrm Hok1 HL1 Hcross Hest. set (c1 := with_managers (pool s1) [mg s1] c0) in *.
  assert (Hfree : get_num_free_blocks (block_pool c1) = zlen L).
  { destruct (mo_pool _ _ _ Hok1) as [Hcore _]. rewrite <- HL1. exact (pool_free_count Hcore). }
  assert (Hcr : create_kv_cache_blocks [new] = Blocks [new]).
  { unfold create_kv_cache_blocks. pose proof (hp_hits Hpre). by destruct new. }
  assert (Etot : Z.min (local + 0) (max_model_len k) = local).
  { pose proof (hp_max Hpre). pose proof (hp_num Hpre). lia. }
  unfold allocate_slots. pose proof (hp_num Hpre). rewrite (proj2 (Z.eqb_neq num_new 0)) by lia. cbn [andb].
  unfold bind at 1, get at 1. cbv zeta. simpl default. rewrite Hcr, Etot. simpl kv_blocks.
  unfold bind at 1, on_coord at 1, zoom at 1. rewrite Hrm, (hp_short Hpre).
  unfold bind at 1, ret at 1. unfold bind at 1, on_coord at 1, zoom at 1. simpl coordinator.
  unfold coord_get_num_blocks_to_allocate, bind at 1. fold c1.
  rewrite (for_managers_one _ c1 (mg s1) n s1); [| done |].
  - unfold ret at 1. simpl fold_right. rewrite Z.add_0_r. unfold bind at 1, get at 1.
    change (with_managers (pool s1) [mg s1] c1) with c1.
    change (coordinator (with_coordinator c1 (with_coordinator c1 k))) with c1. rewrite Hfree. done.
  - unfold bind at 1, self at 1, gets at 1. cbn [mg]. rewrite Hcross. unfold bind, lift. simpl py_index.
    destruct s1; exact Hest.
Qed.

(** The run of the rest, given the runs of the manager. *)
Lemma hits_rest_run s1 s2 K s3 L3 n :
  hits_pre -> allocate_new_computed_blocks rid new local 0 s1 = (Ok tt, s2) ->
  is_cross (mg s2) = false ->
  allocate_new_blocks rid needed (local + num_new) s2 = (Ok K, s3) ->
  mgr_ok (fun _ => 0) s3 L3 -> mgr_frame (fun _ => 0) (mkMS m (block_pool c0)) s3 -> 0 < block_size m ->
  zlen L3 = zlen L - n -> cdiv needed (block_size m) <= zlen (tbl (req_to_blocks (mg s3)) rid) ->
  shared_prefix (mg s3) rid (null_block (block_pool c0)) (skipped_of m local) new ->
  (forall q, q <> rid -> tbl (req_to_blocks (mg s3)) q = tbl (req_to_blocks m) q) ->
  exists r' k', hits_rest (with_coordinator (with_managers (pool s1) [mg s1] c0) k) =
    (Ok (Some (create_kv_cache_blocks [K]), r'), k') /\ hits_result n K r' k'.
Proof.
  intros Hpre Hrun2 Hcross Hrun3 Hok3 Hf3 Hbs HL3 Hcov Hsp Hoth. destruct s1 as [m1 p1], s2 as [m2 p2], s3 as [m3 p3].
  set (c1 := with_managers p1 [m1] c0). set (c2 := with_managers p2 [m2] c0). set (c3 := with_managers p3 [m3] c0).
  assert (Hc3 : coord_ok c3 L3) by (by apply (coord_ok_one c3 L3 m3 (fun _ => 0))).
  assert (Hcomp : coord_allocate_new_computed_blocks rid [new] local 0 c1 = (Ok tt, c2)).
  { unfold coord_allocate_new_computed_blocks, bind at 1. by rewrite (for_managers_one _ c1 m1 tt (mkMS m2 p2)). }
  assert (Halloc : coord_allocate_new_blocks rid needed (local + num_new) enc c2 = (Ok [K], c3)).
  { unfold coord_allocate_new_blocks. rewrite (for_managers_one _ c2 m2 K (mkMS m3 p3)); try done.
    unfold bind, self, gets. cbn [mg] in *. by rewrite Hcross. }
  unfold hits_rest. unfold bind at 1, on_coord at 1, zoom at 1. simpl coordinator. fold c1. rewrite Hcomp.
  unfold bind at 1, on_coord at 1, zoom at 1. simpl coordinator. rewrite Halloc.
  destruct (negb (k_enable_caching k) || delay) eqn:Ec.
  - exists r, (with_coordinator c3 k). split; [done |]. split; [apply memo_of_refl |]. by exists L3, m3.
  - apply orb_false_iff in Ec as [Eon Ed]. zbool.
    destruct (coord_cache_blocks_spec sha256 c3 L3 r to_cache Hc3) as (r' & c4 & Hrun4 & Hmemo & Hc4 & Hf4 & Hcd).
    { intros m' Hm'. simpl in Hm'. apply list_elem_of_singleton in Hm' as ->. by apply hits_cacheable. }
    simpl in Hcd. inversion Hcd as [|? m4 ? ? [Ht _] Hnil E1 E2]; subst. inversion Hnil; subst.
    exists r', (with_coordinator c4 k). unfold bind, on_coord, zoom. simpl coordinator. rewrite Hrun4.
    split; [done |]. split; [done |]. exists L3, m4. split_and!; try done.
    + by rewrite Ht.
    + unfold shared_prefix. by rewrite Ht.
    + intros q Hq. rewrite Ht. by apply Hoth.
Qed.

Lemma allocate_slots_hits :
  hits_pre ->
  exists n, if zlen L <? n
    then exists c1 L1, alloc k = (Ok (None, r), with_coordinator c1 k) /\ coord_ok c1 L1 /\ zlen L1 = zlen L
    else exists K r' k', alloc k = (Ok (Some (create_kv_cache_blocks [K]), r'), k') /\ hits_result n K r' k'.
Proof.
  intros Hpre. destruct (hits_remove Hpre) as (s1 & L1 & Hrm & Hp1 & Hok1 & Hf1 & HL1 & Hlay & Hnew1).
  pose proof Hlay as (_ & Hoth1 & _ & Hk1 & Hb1 & _ & Hcap1 & Hub1).
  pose proof (mo_bs _ _ _ (proj1 (coord_ok_one c0 L m (fun _ => 0) (hp_one Hpre) (fun _ => eq_refl)) (hp_ok Hpre))) as Hbs.
  destruct (admission_new_spec (fun _ => 0) s1 L1 rid new local 0 needed (local + num_new) Hok1 Hnew1)
    as (n & Hest & Hroom).
  { apply Hub1, Hpre. }
  { unfold uncapped. rewrite Hcap1, Hb1. apply Hpre. }
  { pose proof (hp_num Hpre). pose proof (hp_max Hpre). pose proof (hp_look Hpre). lia. }
  set (c1 := with_managers (pool s1) [mg s1] c0) in *.
  assert (Hcross1 : is_cross (mg s1) = false).
  { unfold is_cross. rewrite Hk1. pose proof (hp_base Hpre) as Hb. unfold uses_base in Hb. by destruct (kind m). }
  exists n. rewrite (hits_test s1 L1 n Hpre Hrm Hok1 HL1 Hcross1 Hest).
  destruct (zlen L <? n) eqn:Elt.
  { exists c1, L1. split_and!; [done | | done]. apply (coord_ok_one c1 L1 (mg s1) (fun _ => 0)); try done. by destruct s1. }
  zbool. destruct Hroom as (s2 & K & s3 & L3 & Hrun2 & Hk2 & Hrun3 & Hok3 & Hf3 & HL3 & Hcov & Hsp & Hoth); [lia |].
  exists K. eapply (hits_rest_run s1 s2 K s3 L3 n); try done.
  - unfold is_cross in *. by rewrite Hk2.
  - by etransitivity.
  - lia.
  - by rewrite Hb1 in Hcov.
  - rewrite Hp1 in Hsp. unfold skipped_of in *. by rewrite Hk1, Hb1, Z.add_0_r in Hsp.
  - intros q Hq. rewrite Hoth by done. by apply Hoth1.
Qed.
End hits.

(** ** get_computed_blocks *)

(** Full attention, with the classes that inherit its lookup. *)
Definition full_like (k : Kind) : Prop :=
  match k with FullAttention | SinkFullAttention _ | NELSSA _ _ => True | _ => False end.

(** A coordinator for one KV-cache group of full attention, without context parallelism. *)
Record unitary_full (c : Coordinator) (m : Manager) : Prop := {
  uf_class : coord_class c = Unitary;
  uf_one : single_type_managers c = [m];
  uf_kind : full_like (kind m);
  uf_group : exists g, kv_cache_groups (config c) = [g] /\ s_block_size (kv_cache_spec g) = block_size m /\
    full_or_chunked (kv_cache_spec g) = true;
  uf_bs : c_block_size c = block_size m;
  uf_cp : c_dcp c = 1 /\ c_pcp c = 1;
  uf_gid : kv_cache_group_id m = 0;
  uf_caching : m_enable_caching m = true;
}.

(** [new] are blocks cached under the first hashes of the request. *)
Definition cached_prefix (p : BlockPool) (hashes : list bytes) (new : list loc) : Prop :=
  forall i b, new !! i = Some b -> exists h, hashes !! i = Some h /\ cached_under p h 0 b /\ b <> null_block p.

Lemma cached_prefix_hits p hashes new :
  NoDup hashes -> cached_prefix p hashes new -> hit_blocks p new.
Proof.
  intros Hnd Hc. split.
  - intros l [i Hi]%list_elem_of_lookup. by destruct (Hc i l Hi) as (h & _ & (k & _ & ? & _) & _).
  - apply NoDup_filter, NoDup_alt. intros i j b Hi Hj.
    destruct (Hc i b Hi) as (h & Hh & (k & Hk & _ & Hb) & _), (Hc j b Hj) as (h' & Hh' & (k' & Hk' & _ & Hb') & _).
    assert (k = k') as <- by congruence. destruct (pack_inj _ _ _ _ _ Hk Hk') as [-> _].
    eapply NoDup_lookup; eauto.
  - intros l [i Hi]%list_elem_of_lookup _. destruct (Hc i l Hi) as (h & _ & (k & _ & _ & Hb) & _). eauto.
Qed.

Lemma unitary_lookup c L m hashes max_len :
  coord_ok c L -> unitary_full c m -> 0 <= max_len -> max_len / block_size m <= zlen hashes ->
  exists new, coord_find_longest_cache_hit c hashes max_len = Ok ([new], zlen new * block_size m) /\
    zlen new * block_size m <= max_len /\ cached_prefix (block_pool c) hashes new.
Proof.
  intros Hc [Hcl Hone Hk (g & Hg & Hgs & Hsp) Hcb [Hd Hp] Hgid _] Hml Hmx. destruct (co_pool _ _ Hc) as [Hcore _].
  pose proof (mo_bs _ _ _ (co_mgr _ _ Hc 0%nat m ltac:(by rewrite Hone))) as Hbs. simpl in Hbs.
  destruct (full_sound_rows (block_pool c) L Hcore [0] ltac:(intros ? ->%list_elem_of_singleton; lia) ltac:(done)
    (HList hashes) max_len (block_size m) (existsb (Z.eqb 0) (eagle_group_ids c)) (block_size m) Hbs Hml Hmx)
    as (rows & Hfind & Hlen & _ & _ & Hrows).
  exists ((fun r => default 0%nat (r !! 0%nat)) <$> rows). unfold coord_find_longest_cache_hit. rewrite Hcl, Hone, Hg, Hcb, Hgs, Hd, Hp, Hsp.
  assert (E : find_longest_cache_hit true (kind m) (block_pool c) (HList hashes) max_len [0] (block_size m)
    (existsb (Z.eqb 0) (eagle_group_ids c)) (block_size m) 1 1 = Ok (columns 1 rows)).
  { etransitivity; [| exact Hfind]. unfold find_longest_cache_hit. destruct (kind m); by destruct Hk. }
  rewrite E. simpl. unfold zlen. rewrite length_fmap. split_and!; [done | done |].
  intros i b Hi. rewrite list_lookup_fmap in Hi. destruct (rows !! i) as [rw|] eqn:Er; [| done]. injection Hi as <-.
  destruct (Hrows i (lookup_lt_Some _ _ _ Er)) as [Hhit Hrow]. rewrite Er in Hrow. injection Hrow as ->.
  unfold hit_at, row_at in *. simpl in *. destruct (hashes !! i) as [h|] eqn:Eh; [| done]. exists h. split; [done |].
  unfold is_hit in Hhit. apply bool_decide_eq_true in Hhit as [rw Hrw]. simpl. rewrite Hrw. simpl.
  destruct (row_spec (block_pool c) L Hcore [0] ltac:(intros ? ->%list_elem_of_singleton; lia) ltac:(done) h) as [_ Hrsp].
  rewrite Hrw in Hrsp. inversion Hrsp as [|? b ? ? Hb Hnil]; subst. inversion Hnil; subst. done.
Qed.

(** ** From lookup to allocation *)

(** A request that is new to the manager of a full-attention model. *)
Record fresh_request (k : KVCacheManager) (L : list loc) (m : Manager) (r : Request) : Prop := {
  fr_ok : coord_ok (coordinator k) L;
  fr_unitary : unitary_full (coordinator k) m;
  fr_groups : num_kv_cache_groups k = 1%nat;
  fr_caching : k_enable_caching k = true /\ enable_caching (block_pool (coordinator k)) = true;
  fr_hbs : hash_block_size (block_pool (coordinator k)) = block_size m;
  fr_stats : log_stats k = true -> is_Some (prefix_cache_stats k);
  fr_reads : skip_reading_prefix_cache r = false;
  fr_short : nelssa_long_mask r = false /\ uses_base m (request_id r);
  fr_cap : _max_admission_blocks_per_request m = None;
  fr_start : num_computed_tokens r = 0;
  fr_tokens : 0 < num_tokens r <= max_model_len k;
  fr_new : num_cached_block m !! request_id r = None /\ tbl (req_to_blocks m) (request_id r) = [];
  fr_hashes : NoDup (block_hashes r) /\ zlen (block_hashes r) = num_tokens r / block_size m;
}.

Section grant.
Context (sha256 : bytes -> bytes) (k : KVCacheManager) (L : list loc) (m : Manager) (r : Request).
Hypothesis Hfr : fresh_request k L m r.
#[local] Notation rid := (request_id r).

Lemma fresh_bs : 0 < block_size m.
Proof using Hfr.
  destruct Hfr as [Hok [_ Hone _ _ _ _ _ _] _ _ _ _ _ _ _ _ _ _ _].
  exact (mo_bs _ _ _ (co_mgr _ _ Hok 0%nat m ltac:(by rewrite Hone))).
Qed.

(** get_computed_blocks only touches the statistics. *)
Lemma computed_blocks_run :
  exists new k1, get_computed_blocks r k = (Ok (create_kv_cache_blocks [new], zlen new * block_size m), k1) /\
    (exists st, k1 = with_stats st k) /\ zlen new * block_size m < num_tokens r /\
    cached_prefix (block_pool (coordinator k)) (block_hashes r) new.
Proof using Hfr.
  pose proof fresh_bs as Hbs. destruct Hfr as [Hok Hun _ [Hc _] _ Hst Hrd _ _ _ Htok _ [_ Hlen]].
  destruct (unitary_lookup (coordinator k) L m (block_hashes r) (num_tokens r - 1) Hok Hun) as (new & Hf & Hle & Hcp).
  { lia. }
  { rewrite Hlen. apply Z.div_le_mono; lia. }
  exists new. unfold get_computed_blocks, bind at 1, get at 1. rewrite Hc, Hrd. simpl orb. cbv iota.
  unfold bind at 1, lift. rewrite Hf. simpl fst. simpl snd. destruct (log_stats k) eqn:El.
  - destruct (Hst eq_refl) as [st Est]. rewrite Est. eexists. split; [done |]. split_and!; [eexists; done | lia | done].
  - exists k. split; [done |]. split_and!; [exists (prefix_cache_stats k); by destruct k | lia | done].
Qed.

(** The outcome of the allocation. *)
Definition granted (new : list loc) (res : option KVCacheBlocks) (k' : KVCacheManager) : Prop :=
  (exists L', coord_ok (coordinator k') L') /\
  (res <> None -> exists m' E, single_type_managers (coordinator k') = [m'] /\
     tbl (req_to_blocks m') rid = new ++ E /\ num_tokens r <= zlen (tbl (req_to_blocks m') rid) * block_size m).

(** Without a hit. *)
Lemma grant_miss st :
  exists res r' k', allocate_slots sha256 r (num_tokens r) 0 None 0 0 false 0 (with_stats st k) = (Ok (res, r'), k') /\
    granted [] res k'.
Proof using Hfr.
  pose proof fresh_bs as Hbs. destruct Hfr as [Hok Hun Hgr [Hc Hcp] Hh _ _ [Hs Hb] Hcap H0 Htok [Hnc Ht] [_ Hlen]].
  assert (Etot : slots_total r (with_stats st k) = 0) by (unfold slots_total; simpl; lia).
  assert (Hneed : slots_needed r (num_tokens r) 0 (with_stats st k) = num_tokens r)
    by (unfold slots_needed; rewrite Etot; simpl; lia).
  assert (Hone : forall x, x ∈ single_type_managers (coordinator k) -> x = m).
  { intros x. rewrite (uf_one _ _ Hun). apply list_elem_of_singleton. }
  destruct (allocate_slots_spec sha256 r (num_tokens r) 0 0 false (with_stats st k) L) as (c1 & L1 & Hc1 & _ & _ & Hres).
  { split; try done; simpl; rewrite ?Etot; try lia.
    - by rewrite (uf_one _ _ Hun).
    - intros x ->%Hone. split_and!; [done | by unfold uncapped; rewrite Hcap |]. right.
      rewrite Ht, H0. unfold skipped_of. pose proof (uf_kind _ _ Hun) as Hk. by destruct (kind m). }
  { intros _ _. split; simpl; [done | by rewrite Hh |]. intros x ->%Hone. rewrite Hh. unfold hash_list. rewrite Z.eqb_refl.
    rewrite (uf_gid _ _ Hun). split_and!; [by rewrite Z_mod_same_full | lia | lia |]. simpl. rewrite Hlen.
    apply Z.div_le_mono; [done |]. unfold slots_cached. lia. }
  cbv zeta in Hres. destruct (_ <? _).
  - eexists None, r, _. split; [exact Hres |]. split; [by exists L1 | done].
  - destruct Hres as (Ks & r' & k' & Hrun & _ & Hf & Hok' & Hall). do 3 eexists. split; [exact Hrun |].
    split; [done |]. intros _. destruct (Hall 0%nat m) as (K & m' & _ & Hm' & _ & Hcov & _); [simpl; by rewrite (uf_one _ _ Hun) |].
    apply (one_manager _ _ m' Hf) in Hm'; [| simpl; by rewrite (uf_one _ _ Hun)].
    exists m', (tbl (req_to_blocks m') rid). split_and!; [done | done |]. by rewrite Hneed, cdiv_le_iff in Hcov.
Qed.

(** With a hit: the rest of the tokens is allocated behind the shared blocks. *)
Lemma grant_hit st new :
  let hit := zlen new * block_size m in
  new <> [] -> cached_prefix (block_pool (coordinator k)) (block_hashes r) new -> hit < num_tokens r ->
  exists res r' k', allocate_slots sha256 r (num_tokens r - hit) hit (Some (create_kv_cache_blocks [new])) 0 0 false 0
      (with_stats st k) = (Ok (res, r'), k') /\ granted new res k'.
Proof using Hfr.
  intros hit Hne Hcpre Hlt. pose proof fresh_bs as Hbs.
  destruct Hfr as [Hok Hun Hgr [Hc Hcp] Hh _ _ [Hs Hb] Hcap H0 Htok [Hnc Ht] [Hnd Hlen]].
  assert (Hskip : forall t, get_num_skipped_tokens (kind m) t = 0).
  { intros t. pose proof (uf_kind _ _ Hun) as Hk. by destruct (kind m). }
  assert (Hhit : 0 <= hit) by (unfold hit; pose proof (zlen_nonneg new); nia).
  destruct (allocate_slots_hits sha256 r (num_tokens r - hit) hit 0 0 false (with_stats st k) L m new) as (n & Hres).
  { split; simpl; try done; rewrite ?H0; try lia.
    - apply Hun.
    - split; simpl; try done; rewrite ?Hskip; try lia.
      + eapply cached_prefix_hits; eauto.
      + rewrite (uf_caching _ _ Hun). done.
    - unfold uncapped. by rewrite Hcap.
    - intros _ _. rewrite Hh, (uf_gid _ _ Hun). unfold hash_list. rewrite Z.eqb_refl.
      split_and!; [done | done | by rewrite Z_mod_same_full | lia | lia |]. simpl. rewrite Hlen. apply Z.div_le_mono; lia. }
  destruct (_ <? _).
  - destruct Hres as (c1 & L1 & Hrun & Hc1 & _). do 3 eexists. split; [exact Hrun |]. split; [by exists L1 | done].
  - destruct Hres as (K & r' & k' & Hrun & _ & L' & m' & Hm' & Hok' & _ & Hcov & [E Hsp] & _). do 3 eexists.
    split; [exact Hrun |]. split; [by exists L' |]. intros _. exists m', E. split_and!; [done | |].
    + rewrite Hsp. unfold skipped_of. rewrite Hskip. done.
    + rewrite cdiv_le_iff in Hcov by done. simpl in Hcov. rewrite H0 in Hcov. lia.
Qed.
End grant.
