(* ===== verification/PoolProps.v ===== *)
(** * PoolProps
    The properties of the free-block queue and of the block pool, with concrete instances. *)
From Stdlib Require Import QArith.
From S2P Require Import Prelude OrdDict KVCacheBlock FreeQueue Request BlockHash BlockPool BlockPoolInv Demo.
#[local] Open Scope Z_scope.

(** ** The free queue *)

Lemma run_calls_spec cs : forall s L,
  queue_rep s L -> calls_ok s L cs ->
  exists s', run_calls cs s = ((spec_calls cs L).1, s') /\ queue_rep s' (spec_calls cs L).2.
Proof.
  induction cs as [|c cs IH]; intros s L Hrep Hok; simpl in *; [by exists s |]. destruct Hok as [Hc Hcs].
  destruct (run_call_spec s L c Hrep Hc) as (s1 & Hrun & Hrep1 & Hf1).
  destruct (IH s1 (spec_call c L).2 Hrep1) as (s2 & Hrun2 & Hrep2); [by eapply calls_ok_frame |].
  exists s2. rewrite Hrun, Hrun2. destruct (spec_call c L) as [r L1]. simpl in *.
  by destruct (spec_calls cs L1).
Qed.

(** C1 (refinement): the doubly linked free queue built by [__init__] from distinct blocks
    behaves as a FIFO list under every sequence of calls of popleft, popleft_n, remove,
    append, append_n and get_all_free_blocks with admissible arguments: the calls return, or
    raise, exactly what the list operations do, and the links represent the resulting list. *)
Theorem queue_refines_list h q bs cs s0 :
  NoDup bs -> (forall b, b ∈ bs -> is_Some (h !! b)) -> (forall l, nx h l = None /\ pv h l = None) ->
  init_queue bs (mkQ h q) = (Ok tt, s0) -> calls_ok s0 bs cs ->
  exists s', run_calls cs s0 = ((spec_calls cs bs).1, s') /\ queue_rep s' (spec_calls cs bs).2.
Proof.
  intros Hnd Hal Hlinks Hinit Hcs. destruct (init_queue_spec (mkQ h q) bs Hnd Hal Hlinks) as (s1 & Hrun & Hrep & _).
  rewrite Hinit in Hrun. injection Hrun as <-. by apply run_calls_spec.
Qed.

Definition demo_heap : heap := initial_heap 4.
Definition demo_queue : qstate := (init_queue [0; 1; 2; 3]%nat (mkQ demo_heap (mkQueue 0 0%nat 0%nat))).2.
Definition demo_calls : list qcall :=
  [CPopleft; CRemove 2%nat; CRemove 0%nat; CAppendN [2%nat; 0%nat]; CPopleftN 3; CGetAll; CPopleft; CPopleft].

Lemma demo_links l : nx demo_heap l = None /\ pv demo_heap l = None.
Proof.
  unfold nx, pv, demo_heap. rewrite initial_heap_lookup. by case_decide.
Qed.

Lemma queue_refines_list_witness :
  (spec_calls demo_calls [0; 1; 2; 3]%nat).1 =
    [Ok (RBlock 0%nat); Ok RUnit; Err RuntimeError; Ok RUnit; Ok (RBlocks [1; 3; 2]%nat); Ok (RBlocks [0%nat]);
     Ok (RBlock 0%nat); Err ValueError] /\
  exists s', run_calls demo_calls demo_queue = ((spec_calls demo_calls [0; 1; 2; 3]%nat).1, s') /\
    queue_rep s' (spec_calls demo_calls [0; 1; 2; 3]%nat).2.
Proof.
  split; [reflexivity |]. apply (queue_refines_list demo_heap (mkQueue 0 0%nat 0%nat)).
  - apply (bool_decide_unpack _). reflexivity.
  - intros b Hb. unfold demo_heap. rewrite initial_heap_lookup. rewrite !elem_of_cons, elem_of_nil in Hb.
    rewrite decide_True; [by eexists | lia].
  - apply demo_links.
  - vm_compute. reflexivity.
  - apply (bool_decide_unpack _). vm_compute. exact I.
Defined.

(** ** The pool as a transition system *)

Section steps.
Context (sha256 : bytes -> bytes).

(** A call of a public method that returns, with what its callers guarantee. *)
Inductive pool_step (p : BlockPool) : BlockPool -> Prop :=
  | step_get_new n bs p' : 0 <= n -> get_new_blocks n p = (Ok bs, p') -> pool_step p p'
  | step_touch bs p' : (forall l, l ∈ bs -> l ∈ blocks p) -> touch bs p = (Ok tt, p') -> pool_step p p'
  | step_free bs p' :
      (forall l, l ∈ bs -> l ∈ blocks p) -> NoDup (filter (fun l => l <> null_block p) bs) ->
      (forall l, l ∈ bs -> l <> null_block p -> 1 <= ref_of (bheap p) l) ->
      free_blocks bs p = (Ok tt, p') -> pool_step p p'
  | step_evict ids p' :
      (forall i, i ∈ ids -> 0 <= i < num_gpu_blocks p) -> evict_blocks ids p = (Ok tt, p') -> pool_step p p'
  | step_reset b p' : reset_prefix_cache p = (Ok b, p') -> pool_step p p'
  | step_events ev p' : take_events p = (Ok ev, p') -> pool_step p p'
  | step_cache r r' bls nc nf bs gid p' :
      0 <= gid < 2 ^ 32 -> 0 <= nc < nf -> nf <= zlen bls -> 0 < hash_block_size p -> 0 < bs ->
      bs mod hash_block_size p = 0 -> nf <= zlen (bh_list (hash_list (hash_block_size p) bs r)) ->
      (forall l, l ∈ bls -> l ∈ blocks p) ->
      NoDup (filter (fun l => l <> null_block p) (py_slice bls nc nf)) ->
      (forall l, l ∈ py_slice bls nc nf -> l <> null_block p -> hash_of (bheap p) l = None) ->
      cache_full_blocks sha256 r bls nc nf bs gid p = (Ok r', p') -> pool_step p p'.

Lemma get_new_blocks_inv p L n bs p' :
  pool_inv p L -> 0 <= n -> get_new_blocks n p = (Ok bs, p') ->
  n <= zlen L /\ bs = take (Z.to_nat n) L /\ pool_inv p' (drop (Z.to_nat n) L) /\ pool_frame p p'.
Proof.
  intros Hinv Hn Hrun. destruct (decide (n <= zlen L)) as [Hle | Hgt].
  - rewrite <- (take_drop (Z.to_nat n) L) in Hinv.
    destruct (get_new_blocks_spec p _ _ Hinv) as (q & Hq & ? & ? & _).
    assert (E : zlen (take (Z.to_nat n) L) = n) by (unfold zlen in *; rewrite length_take; lia).
    rewrite E, Hrun in Hq. by injection Hq as -> ->.
  - rewrite (get_new_blocks_too_many p L n) in Hrun; [done | apply Hinv | lia].
Qed.

Lemma pool_step_inv p p' L : pool_inv p L -> pool_step p p' -> exists L', pool_inv p' L' /\ pool_frame p p'.
Proof.
  intros Hinv Hstep. destruct Hstep as [n bs p' Hn Hrun | bs p' Hin Hrun | bs p' Hin Hnd Hr Hrun | ids p' Hid Hrun
    | b p' Hrun | ev p' Hrun | r r' bls nc nf bs gid p' Hg Hc Hf Hh Hb Hm Hl Hin Hnd Hn Hrun].
  - destruct (get_new_blocks_inv p L n bs p' Hinv Hn Hrun) as (_ & _ & ? & ?). eauto.
  - destruct (touch_spec bs p L Hinv Hin) as (q & Hq & ? & ? & _). rewrite Hrun in Hq. injection Hq as ->. eauto.
  - destruct (free_blocks_spec p L bs Hinv Hin Hnd Hr) as (q & Hq & ? & ? & _). rewrite Hrun in Hq. injection Hq as ->. eauto.
  - destruct (evict_blocks_spec ids L p Hinv Hid) as (q & Hq & ? & ? & _). rewrite Hrun in Hq. injection Hq as ->. eauto.
  - destruct (reset_prefix_cache_spec p L Hinv) as (q & Hq & ? & ? & _). rewrite Hrun in Hq. injection Hq as -> ->. eauto.
  - unfold take_events, bind, get in Hrun. exists L. destruct (enable_kv_cache_events p).
    + unfold modify, ret in Hrun. injection Hrun as _ <-. destruct Hinv as [Hcore Hrefs]. split; [| by split].
      split; [by destruct Hcore; split | done].
    + unfold ret in Hrun. by injection Hrun as _ <-.
  - destruct (cache_full_blocks_spec sha256 p L r bls nc nf bs gid Hinv Hg Hc Hf Hh Hb Hm Hl Hin Hnd Hn)
      as (r2 & q & Hq & _ & ? & ? & _). rewrite Hrun in Hq. injection Hq as -> ->. eauto.
Qed.
End steps.

(** C2 (invariant): in every pool reachable from a new one by its public methods, the free
    list holds exactly the blocks nobody references, each once, the free counter is its
    length, the links of the queue represent it, and a block carries a hash exactly when the
    prefix-cache map stores it under that hash. *)
Theorem pool_reachable_inv sha256 num caching hbs ev ui p0 p :
  new_BlockPool num caching hbs ev ui = Ok p0 -> rtc (pool_step sha256) p0 p ->
  exists L, pool_inv p L /\ get_num_free_blocks p = zlen L /\ pool_frame p0 p.
Proof.
  intros Hnew Hsteps. destruct (decide (0 < num)) as [Hn | Hn].
  2: { rewrite new_BlockPool_bad in Hnew by lia. done. }
  destruct (new_BlockPool_spec num caching hbs ev ui Hn) as (q & Hq & Hinv & _). rewrite Hnew in Hq. injection Hq as <-.
  assert (Hgen : exists L, pool_inv p L /\ pool_frame p0 p).
  { clear Hnew. revert Hinv. generalize (seq 1 (Z.to_nat num - 1)). induction Hsteps as [x | x y z Hxy _ IH]; intros L Hinv.
    - by exists L.
    - destruct (pool_step_inv sha256 x y L Hinv Hxy) as (L' & Hinv' & Hf). destruct (IH L' Hinv') as (L2 & ? & ?).
      exists L2. split; [done | by etransitivity]. }
  destruct Hgen as (L & Hinv' & Hf). exists L. split_and!; [done | | done]. apply (pool_free_count (pinv_core _ _ Hinv')).
Qed.

(** Two blocks are allocated and the first of them is shared. *)
Lemma pool_reachable_inv_witness :
  exists p0 p L, new_BlockPool 4 true 16 false false = Ok p0 /\ ref_of (bheap p) 1%nat = 2 /\
    pool_inv p L /\ get_num_free_blocks p = zlen L /\ pool_frame p0 p.
Proof.
  destruct demo_pool as (p0 & Hnew & Hinv & _ & Hb & _).
  destruct (get_new_blocks_spec p0 [1; 2]%nat [3%nat] Hinv) as (p1 & Hrun1 & Hinv1 & Hf1 & Hr1 & _).
  assert (Hin : forall l, l ∈ [1%nat] -> l ∈ blocks p1).
  { intros l ->%list_elem_of_singleton. rewrite (pf_blocks _ _ Hf1), Hb. right. left. }
  destruct (touch_spec [1%nat] p1 _ Hinv1 Hin) as (p2 & Hrun2 & _ & _ & Hr2 & _).
  exists p0, p2. destruct (pool_reachable_inv (fun x => x) 4 true 16 false false p0 p2 Hnew) as (L & ? & ? & ?).
  - eapply rtc_l; [| apply rtc_once].
    + exact (step_get_new _ p0 2 _ p1 ltac:(lia) Hrun1).
    + exact (step_touch _ p1 _ p2 Hin Hrun2).
  - exists L. split_and!; [exact Hnew | by rewrite Hr2, Hr1 | assumption..].
Defined.

(** Get_new_blocks returns the first [n] blocks of the free list; they get
    reference count 1 and, with caching, disappear from the prefix cache, while all other
    blocks keep their reference count and hash. *)
Lemma get_new_blocks_correct p L n :
  pool_inv p L -> 0 <= n <= zlen L ->
  let K := take (Z.to_nat n) L in
  exists p', get_new_blocks n p = (Ok K, p') /\ pool_inv p' (drop (Z.to_nat n) L) /\
    (forall x, x ∈ K -> ref_of (bheap p) x = 0 /\ ref_of (bheap p') x = 1) /\
    (forall x, x ∉ K -> ref_of (bheap p') x = ref_of (bheap p) x /\ hash_of (bheap p') x = hash_of (bheap p) x) /\
    (enable_caching p = true -> forall x h g, x ∈ K -> ~ cached_under p' h g x).
Proof.
  intros Hinv Hn K. assert (E : zlen K = n) by (unfold K, zlen in *; rewrite length_take; lia).
  pose proof Hinv as Hinv0. rewrite <- (take_drop (Z.to_nat n) L) in Hinv. fold K in Hinv.
  destruct (get_new_blocks_spec p K _ Hinv) as (p' & Hrun & Hinv' & Hf & Hr & Hh). rewrite E in Hrun.
  exists p'. split_and!; [done | done | | |].
  - intros x Hx. rewrite Hr, decide_True by done. split; [| done].
    assert (HxL : x ∈ L) by (rewrite <- (take_drop (Z.to_nat n) L); apply elem_of_app; by left).
    destruct Hinv0 as [Hcore Hrefs]. destruct (pi_sub _ _ Hcore x HxL) as [HB Hnul]. by apply (Hrefs x HB Hnul).
  - intros x Hx. rewrite Hr, Hh, decide_False, bool_decide_false by done. by rewrite andb_false_r.
  - intros Hc x h g Hx (k & _ & _ & Hk). rewrite Hh, Hc, bool_decide_true in Hk by done. done.
Qed.

(** Asking for more blocks than are free raises ValueError and changes nothing. *)
Theorem get_new_blocks_exhausted p L n :
  pool_inv p L -> zlen L < n -> get_new_blocks n p = (Err ValueError, p).
Proof. intros Hinv. apply get_new_blocks_too_many. apply Hinv. Qed.

(** ** Sharing *)

(** Touching distinct blocks and freeing them again restores every reference
    count and hash; the blocks that were free before are at the end of the free list, in
    the order in which they were freed (most recently used last). *)
Lemma touch_free_roundtrip p L bs :
  pool_inv p L -> NoDup bs -> (forall l, l ∈ bs -> l ∈ blocks p /\ l <> null_block p) ->
  exists p1 p2, touch bs p = (Ok tt, p1) /\ free_blocks bs p1 = (Ok tt, p2) /\
    pool_inv p2 (filter (fun x => x ∉ bs) L ++ filter (fun x => ref_of (bheap p) x = 0) bs) /\
    (forall x, ref_of (bheap p2) x = ref_of (bheap p) x) /\ (forall x, hash_of (bheap p2) x = hash_of (bheap p) x).
Proof.
  intros Hinv Hnd Hin. destruct (touch_spec bs p L Hinv) as (p1 & Hrun1 & Hinv1 & Hf1 & Hr1 & Hh1); [by apply Hin |].
  assert (Hocc : forall l, l ∈ bs -> occ l bs = 1) by (intros l Hl; rewrite occ_NoDup by done; by rewrite decide_True).
  destruct (free_blocks_spec p1 _ bs Hinv1) as (p2 & Hrun2 & Hinv2 & _ & Hr2 & Hh2).
  - intros l Hl. rewrite (pf_blocks _ _ Hf1). by apply Hin.
  - by apply NoDup_filter.
  - intros l Hl Hn. rewrite Hr1, Hocc by done. destruct (Hin l Hl) as [HB Hnul].
    destruct (pinv_refs _ _ Hinv l HB Hnul) as [? _]. lia.
  - exists p1, p2. split_and!; [done | done | | intros x | intros x].
    + assert (E : released p1 bs = filter (fun x => ref_of (bheap p) x = 0) bs); [| by rewrite <- E].
      unfold released. apply filter_ext_in. intros x Hx. rewrite (pf_null _ _ Hf1), Hr1, Hocc by done.
      destruct (Hin x Hx) as [_ ?]. split; [lia | intros; split; [done | lia]].
    + rewrite Hr2, Hr1. lia.
    + by rewrite Hh2, Hh1.
Qed.

(** Free_blocks drops one reference of every given block; the blocks whose
    last reference goes away are appended to the free list in the given order, so a request
    that frees its blocks from the last to the first offers its tail for eviction first. *)
Lemma free_blocks_order p L bs :
  pool_inv p L -> (forall l, l ∈ bs -> l ∈ blocks p) ->
  NoDup (filter (fun l => l <> null_block p) bs) ->
  (forall l, l ∈ bs -> l <> null_block p -> 1 <= ref_of (bheap p) l) ->
  exists p', free_blocks bs p = (Ok tt, p') /\
    pool_inv p' (L ++ filter (fun l => l <> null_block p /\ ref_of (bheap p) l = 1) bs) /\
    get_num_free_blocks p' = get_num_free_blocks p + zlen (filter (fun l => l <> null_block p /\ ref_of (bheap p) l = 1) bs) /\
    (forall x, ref_of (bheap p') x = ref_of (bheap p) x - occ x bs) /\
    (forall x, hash_of (bheap p') x = hash_of (bheap p) x).
Proof.
  intros Hinv Hin Hnd Hr. destruct (free_blocks_spec p L bs Hinv Hin Hnd Hr) as (p' & Hrun & Hinv' & _ & Hr' & Hh').
  exists p'. split_and!; [done | done | | done | done]. unfold get_num_free_blocks.
  rewrite (pool_free_count (pinv_core _ _ Hinv)), (pool_free_count (pinv_core _ _ Hinv')). apply zlen_app.
Qed.

(** ** The prefix cache *)

(** Get_cached_block is total and exact: a hit returns, for every group, a
    block of the pool that carries the hash for that group; a miss means that for some
    group no block of the pool carries it. *)
Lemma get_cached_block_exact p L h gids :
  pool_inv p L -> (forall g, g ∈ gids -> 0 <= g < 2 ^ 32) ->
  exists o, get_cached_block (cached_block_hash_to_block p) h gids = Ok o /\
    match o with
    | Some bs => Forall2 (fun g b => cached_under p h g b /\ b <> null_block p) gids bs
    | None => exists g, g ∈ gids /\ forall b, ~ cached_under p h g b
    end.
Proof. intros Hinv. apply (get_cached_block_spec p L). apply Hinv. Qed.

Lemma zip_od_get (nul : loc) ks : forall (hs : list bytes) j l h,
  NoDup (filter (fun l => l <> nul) ks) -> ks !! j = Some l -> l <> nul -> hs !! j = Some h -> od_get l (zip ks hs) = Some h.
Proof.
  induction ks as [|x ks IH]; intros [|h' hs] j l h Hnd Hk Hn Hh; try done.
  destruct j as [|j]; simpl in *.
  - simplify_eq. by rewrite decide_True.
  - rewrite decide_False.
    + eapply IH; try done. rewrite filter_cons in Hnd. case_decide; [by apply NoDup_cons in Hnd as [_ ?] | done].
    + intros ->. rewrite filter_cons_True in Hnd by done. apply NoDup_cons in Hnd as [Hx _]. apply Hx.
      apply list_elem_of_filter. split; [done | by eapply list_elem_of_lookup_2].
Qed.

(** After cache_full_blocks has cached the blocks [nc .. nf) of a request,
    looking up the hash of any of them (that is not the null block) finds a block with that
    content, and the reference counts and the free list are untouched. *)
Lemma cache_then_lookup sha256 p L r bls nc nf bs gid :
  pool_inv p L -> 0 <= gid < 2 ^ 32 -> 0 <= nc < nf -> nf <= zlen bls ->
  0 < hash_block_size p -> 0 < bs -> bs mod hash_block_size p = 0 ->
  nf <= zlen (bh_list (hash_list (hash_block_size p) bs r)) ->
  (forall l, l ∈ bls -> l ∈ blocks p) ->
  NoDup (filter (fun l => l <> null_block p) (py_slice bls nc nf)) ->
  (forall l, l ∈ py_slice bls nc nf -> l <> null_block p -> hash_of (bheap p) l = None) ->
  exists r' p', cache_full_blocks sha256 r bls nc nf bs gid p = (Ok r', p') /\ memo_of r r' /\ pool_inv p' L /\
    (forall x, ref_of (bheap p') x = ref_of (bheap p) x) /\
    (forall i l h, (Z.to_nat nc <= i)%nat -> (i < Z.to_nat nf)%nat -> bls !! i = Some l -> l <> null_block p ->
       bh_list (hash_list (hash_block_size p) bs r) !! i = Some h ->
       cached_under p' h gid l /\
       exists b, get_cached_block (cached_block_hash_to_block p') h [gid] = Ok (Some [b]) /\ cached_under p' h gid b).
Proof.
  intros Hinv Hg Hc Hnf Hh Hb Hm Hl Hin Hnd Hn.
  destruct (cache_full_blocks_spec sha256 p L r bls nc nf bs gid Hinv Hg Hc Hnf Hh Hb Hm Hl Hin Hnd Hn)
    as (r' & p' & Hrun & Hmemo & Hinv' & Hf & Hr & Hhash).
  exists r', p'. split_and!; [done | done | done | done |]. intros i l h Hi1 Hi2 Hli Hlnul Hhi.
  assert (Hcu : cached_under p' h gid l).
  { destruct (pack_total h gid Hg) as [key Hkey]. exists key. split; [done |].
    rewrite (pf_blocks _ _ Hf). split; [by apply Hin, (list_elem_of_lookup_2 _ i) |].
    rewrite Hhash. unfold cached_as. rewrite decide_False by done.
    assert (Hod : od_get l (zip (py_slice bls nc nf) (bh_from (hash_list (hash_block_size p) bs r) nc)) = Some h); [| by rewrite Hod, Hkey].
    unfold bh_from. rewrite !py_slice_nonneg by lia. apply (zip_od_get (null_block p) _ _ (i - Z.to_nat nc)%nat).
    - by rewrite <- py_slice_nonneg by lia.
    - rewrite lookup_take_lt, lookup_drop by lia. by replace (Z.to_nat nc + (i - Z.to_nat nc))%nat with i by lia.
    - done.
    - pose proof (lookup_lt_Some _ _ _ Hhi). rewrite lookup_take_lt, lookup_drop by (unfold zlen; lia).
      by replace (Z.to_nat nc + (i - Z.to_nat nc))%nat with i by lia. }
  split; [done |].
  destruct (get_cached_block_spec p' L h [gid] (pinv_core _ _ Hinv')) as (o & Ho & Hspec).
  { by intros g ->%list_elem_of_singleton. }
  destruct o as [out|].
  - inversion Hspec as [|? b ? ? [Hb' _] Hnil]; subst. inversion Hnil; subst. exists b. done.
  - destruct Hspec as (g & ->%list_elem_of_singleton & Hno). by destruct (Hno l).
Qed.

(** Evict_blocks removes exactly the blocks with the given ids from the prefix
    cache: no later lookup returns one of them, every other block stays cached, and free
    list and reference counts are untouched. *)
Lemma evicted_not_found p L ids :
  pool_inv p L -> (forall i, i ∈ ids -> 0 <= i < num_gpu_blocks p) ->
  exists p', evict_blocks ids p = (Ok tt, p') /\ pool_inv p' L /\
    (forall x, ref_of (bheap p') x = ref_of (bheap p) x) /\
    (forall h g x, cached_under p' h g x <-> cached_under p h g x /\ id_of (bheap p) x ∉ ids).
Proof.
  intros Hinv Hids. destruct (evict_blocks_spec ids L p Hinv Hids) as (p' & Hrun & Hinv' & Hf & Hr & Hh).
  exists p'. split_and!; [done | done | done |]. intros h g x. unfold cached_under. rewrite (pf_blocks _ _ Hf). split.
  - intros (k & Hk & HB & Hx). rewrite Hh in Hx by done. case_decide; [done |]. eauto.
  - intros [(k & Hk & HB & Hx) Hid]. exists k. rewrite Hh, decide_False by done. done.
Qed.

(** Reset_prefix_cache succeeds exactly when every block but the null block
    is free; then no block is cached any more, and otherwise nothing changes. *)
Lemma reset_prefix_cache_exact p L :
  pool_inv p L ->
  exists p', reset_prefix_cache p = (Ok (bool_decide (zlen L = num_gpu_blocks p - 1)), p') /\ pool_inv p' L /\
    (zlen L = num_gpu_blocks p - 1 -> forall h g x, ~ cached_under p' h g x) /\
    (zlen L <> num_gpu_blocks p - 1 -> p' = p).
Proof.
  intros Hinv. destruct (reset_prefix_cache_spec p L Hinv) as (p' & Hrun & Hinv' & Hf & _ & Hh & _ & Hsame).
  exists p'. split_and!; [| done | |].
  - rewrite Hrun. do 2 f_equal. apply bool_decide_ext. lia.
  - intros Hall h g x (k & _ & HB & Hx). rewrite (pf_blocks _ _ Hf) in HB. rewrite Hh, decide_True in Hx by (done || lia). done.
  - intros Hne. apply Hsame. lia.
Qed.

(** The reported cache usage is a number between 0 and 1. *)
Theorem usage_bounds p L : pool_inv p L -> (0 <= get_usage p <= 1)%Q.
Proof.
  intros Hinv. pose proof (pinv_core _ _ Hinv) as Hcore. unfold get_usage, get_num_free_blocks.
  rewrite (pool_free_count Hcore). destruct (num_gpu_blocks p - 1 =? 0) eqn:E; [done |]. zbool.
  assert (Hle : zlen L <= num_gpu_blocks p - 1).
  { rewrite <- (pi_len _ _ Hcore). unfold zlen. enough (length (null_block p :: L) <= length (blocks p))%nat by (simpl in *; lia).
    apply submseteq_length, NoDup_submseteq.
    - apply NoDup_cons. split; [| apply (pool_L_NoDup Hcore)]. intros Hin. by apply (pi_sub _ _ Hcore) in Hin as [_ ?].
    - intros x [-> | Hx]%elem_of_cons; [apply (pi_null _ _ Hcore) | by apply (pi_sub _ _ Hcore)]. }
  pose proof (zlen_nonneg L). set (t := num_gpu_blocks p - 1) in *. assert (Ht : 0 < t) by lia.
  assert (Hq : (0 <= inject_Z (zlen L) / inject_Z t <= 1)%Q).
  { split.
    - apply Qle_shift_div_l; [by rewrite <- (Zlt_Qlt 0) | rewrite Qmult_0_l; by rewrite <- (Zle_Qle 0)].
    - apply Qle_shift_div_r; [by rewrite <- (Zlt_Qlt 0) | rewrite Qmult_1_l; by rewrite <- Zle_Qle]. }
  destruct Hq as [Hq1 Hq2]. split.
  - apply Qle_minus_iff in Hq2. exact Hq2.
  - apply Qle_minus_iff. ring_simplify. exact Hq1.
Qed.

