(* ===== verification/HashProps.v ===== *)
(** * HashProps
    The properties of block hashes: packing with the group id, the incremental hasher, and
    what equality of hashes means for a collision-free hash function. *)
From S2P Require Import Prelude KVCacheBlock Request BlockHash.

(** A block hash packs with every group id that fits in 32 bits, and the two
    components are recovered from the key; any other group id raises OverflowError. *)
Lemma group_id_roundtrip h g :
  match make_block_hash_with_group_id h g with
  | Ok key => 0 <= g < 2 ^ 32 /\ get_block_hash key = h /\ get_group_id key = g
  | Err e => e = OverflowError /\ ~ (0 <= g < 2 ^ 32)
  end.
Proof.
  destruct (decide (0 <= g < 2 ^ 32)) as [Hg | Hg].
  - destruct (pack_total h g Hg) as [key Hk]. rewrite Hk. split; [done | by apply unpack_pack].
  - unfold make_block_hash_with_group_id, to_bytes4. destruct ((0 <=? g) && (g <? 2 ^ 32)) eqn:E; [| done].
    apply andb_true_iff in E as [? ?]. zbool. lia.
Qed.

(** ** Hashing as tokens arrive *)

Section hashing.
Context (sha256 : bytes -> bytes).
Context (hash_function : bytes * list Z * option (list PyKey) -> bytes) (NONE_HASH : bytes).
Context (bs : Z).
#[local] Notation hasher := (Some (request_block_hasher sha256 hash_function NONE_HASH bs)).

Lemma new_request_hashed rid ids sp pp arr emb mms lora salt prio r :
  0 < bs -> mm_sorted mms -> new_request rid ids sp pp arr emb mms lora salt prio hasher = Ok r ->
  hash_inv sha256 hash_function NONE_HASH bs r /\ mm_features r = mms.
Proof.
  intros Hbs Hs. unfold new_request. destruct (initial_status_and_limit sp pp) as [[st lim]|]; [| done].
  destruct (length_from_prompt_token_ids_or_embeds ids emb) as [n|]; [| done].
  set (all := match ids with Some t => t | None => _ end).
  set (r0 := mkRequest _ _ _ _ _ _ _ _ _ _ _ _ _ _ _ _ _ _ _ _ _ _ _).
  destruct (request_block_hasher_spec sha256 hash_function NONE_HASH r0 bs 0) as (r1 & Hrun & [m ->] & Hm).
  - done.
  - done.
  - intros s e h Hh. done.
  - by left.
  - done.
  - unfold update_block_hashes, bind. rewrite Hrun. intros [= <-]. split; [| done]. split; [| exact Hm | done].
    change (full_hashes sha256 hash_function NONE_HASH r0 bs = full_hashes sha256 hash_function NONE_HASH
      (with_hashes (full_hashes sha256 hash_function NONE_HASH r0 bs) (with_memo m r0)) bs).
    symmetry. unfold full_hashes. by apply ref_chain_ext.
Qed.
End hashing.

(** C30 (equivalence): when a request is created and its output tokens then arrive in any
    chunks, the incrementally maintained block hashes are those computed from scratch for
    all full blocks of its tokens, provided that its multi-modal inputs are sorted and
    disjoint and that all but the last of them end in the blocks that are hashed at creation
    (or in the first block); without this condition the two can differ. *)
Theorem incremental_hashing sha256 hash_function NONE_HASH bs rid ids sp pp arr emb mms lora salt prio r chunks :
  let hasher := Some (request_block_hasher sha256 hash_function NONE_HASH bs) in
  0 < bs -> mm_sorted mms ->
  new_request rid ids sp pp arr emb mms lora salt prio hasher = Ok r ->
  mm_passed mms (-1) (Z.max bs (zlen (block_hashes r) * bs)) ->
  exists r', foreach chunks (append_output_token_ids hasher) r = (Ok tt, r') /\
    _all_token_ids r' = _all_token_ids r ++ concat chunks /\
    block_hashes r' = full_hashes sha256 hash_function NONE_HASH r' bs /\
    zlen (block_hashes r') = num_tokens r' / bs.
Proof.
  intros hasher Hbs Hs Hnew Htail.
  destruct (new_request_hashed sha256 hash_function NONE_HASH bs _ _ _ _ _ _ _ _ _ _ _ Hbs Hs Hnew) as [Hinv Hmm].
  destruct (append_chunks_spec sha256 hash_function NONE_HASH bs Hbs chunks r Hinv) as (r' & Hrun & Hinv' & Ha).
  { unfold mm_tail_ok. by rewrite Hmm. }
  exists r'. split_and!; [done | done | apply Hinv' |].
  rewrite (hi_full _ _ _ _ _ Hinv'). unfold full_hashes, zlen. rewrite length_ref_chain, Z2Nat.id; [done |].
  apply Z.div_pos; [apply zlen_nonneg | done].
Qed.

Definition demo_tokens (tokens : list Z) (salt : option string) : Request :=
  mkRequest "r" 0 0 None None None WAITING None 1 (Some tokens) None ∅ (zlen tokens) [] tokens 0 [] salt [] 0 false [] false.
Definition demo_hasher : option (M Request (list bytes)) := Some (request_block_hasher (fun x => x) (fun x => x.1.2) [0] 2).
Definition demo_new : res Request :=
  new_request "r" (Some [1; 2; 3]) None (Some (mkPP None)) 0 None [mkMM "img" 0 1 None] None (Some "s") 0 demo_hasher.

(** Seven tokens in blocks of two: three full blocks. *)
Lemma incremental_hashing_witness :
  exists r r', demo_new = Ok r /\ block_hashes r = [[1; 2]] /\
    foreach [[4]; []; [5; 6; 7]] (append_output_token_ids demo_hasher) r = (Ok tt, r') /\
    _all_token_ids r' = [1; 2; 3; 4; 5; 6; 7] /\ zlen (block_hashes r') = 3.
Proof.
  destruct demo_new as [r|] eqn:E; [| discriminate E]. exists r.
  assert (Hr : block_hashes r = [[1; 2]] /\ _all_token_ids r = [1; 2; 3]) by (vm_compute in E; injection E as <-; done).
  destruct Hr as [Hh Ht].
  destruct (incremental_hashing (fun x => x) (fun x => x.1.2) [0] 2 "r" (Some [1; 2; 3]) None (Some (mkPP None)) 0 None
    [mkMM "img" 0 1 None] None (Some "s") 0 r [[4]; []; [5; 6; 7]]) as (r' & Hrun & Ha & _ & Hz).
  - lia.
  - split; [repeat constructor | by repeat constructor].
  - exact E.
  - rewrite Hh. vm_compute. constructor.
  - exists r'. rewrite Ht in Ha. split_and!; [reflexivity | exact Hh | exact Hrun | exact Ha |].
    rewrite Hz. unfold num_tokens. rewrite Ha. reflexivity.
Defined.

(** ** What equal hashes mean *)

(** For a collision-free hash function that returns neither the seed nor the
    empty string, two requests with the same hash for a block (at any positions) have it at
    the same position and agree on all tokens up to its end and on the extra keys (LoRA,
    multi-modal inputs, salt, prompt embeddings) of every block up to it. *)
Lemma hash_prefix_sound sha256 hash_function NONE_HASH bs r1 r2 i j h :
  (forall a b, hash_function a = hash_function b -> a = b) ->
  (forall a, hash_function a <> NONE_HASH) -> (forall a, hash_function a <> []) -> 0 < bs ->
  full_hashes sha256 hash_function NONE_HASH r1 bs !! i = Some h ->
  full_hashes sha256 hash_function NONE_HASH r2 bs !! j = Some h ->
  i = j /\
  take (S i * Z.to_nat bs) (_all_token_ids r1) = take (S i * Z.to_nat bs) (_all_token_ids r2) /\
  (forall k, (k <= i)%nat -> extra_ref sha256 r1 (Z.of_nat k * bs) ((Z.of_nat k + 1) * bs) =
                             extra_ref sha256 r2 (Z.of_nat k * bs) ((Z.of_nat k + 1) * bs)).
Proof.
  intros Hinj Hseed Hne Hbs H1 H2.
  destruct (full_sound_tokens sha256 hash_function NONE_HASH bs Hbs Hinj Hseed Hne r1 r2 i j h H1 H2) as [Hij Htok].
  destruct (full_sound sha256 hash_function NONE_HASH bs Hinj Hseed Hne r1 r2 i j h H1 H2) as [_ Hc].
  split_and!; [done | done |]. intros k Hk. specialize (Hc k Hk). by injection Hc.
Qed.

(** A concrete collision-free hash function. *)
Definition key_code (k : PyKey) : string + (string * Z) + list Z :=
  match k with KStr s => inl (inl s) | KPair s o => inl (inr (s, o)) | KBytes b => inr b end.
#[export] Instance pykey_eq : EqDecision PyKey.
Proof. solve_decision. Defined.
#[export] Instance pykey_countable : Countable PyKey.
Proof.
  refine (inj_countable' key_code
    (fun c => match c with inl (inl s) => KStr s | inl (inr (s, o)) => KPair s o | inr b => KBytes b end) _).
  by intros [].
Defined.
Definition demo_hash (x : bytes * list Z * option (list PyKey)) : bytes := [Z.pos (encode x)].
(** Two requests that share their first block only. *)
