(* ===== verification/LookupProps.v ===== *)
(** * LookupProps
    The properties of the prefix-cache lookups: each attention type returns the longest hit
    it may use, the hybrid coordinator one common length, and a reused block holds the
    tokens of the request that reuses it. *)
From S2P Require Import Prelude OrdDict KVCacheBlock FreeQueue Request BlockHash BlockPool BlockPoolInv Managers CacheHit HitFinder Coordinator HybridLookup PoolProps Demo HashProps.

(** ** A pool with cached blocks *)

Lemma demo_cached :
  exists p, pool_inv p [3%nat] /\ null_block p = 0%nat /\ cached_under p [10] 0 1%nat /\ cached_under p [11] 0 2%nat.
Proof. destruct (demo_cached_under [10] [11]) as (p & ? & ? & _ & _ & _ & _ & ? & ?). by exists p. Qed.

(** Blocks cached for group 0 are hits. *)
Lemma hit_intro p L bhs i h b :
  pool_inv p L -> bh_list bhs !! i = Some h -> cached_under p h 0 b -> hit_at p [0] bhs i = true.
Proof.
  intros Hinv Hi Hb. unfold hit_at, is_hit. rewrite Hi. apply bool_decide_eq_true.
  destruct (row_spec p L (pinv_core _ _ Hinv) [0] zero_group ltac:(done) h) as [_ Hr]. destruct (row p [0] h) as [r|]; [by eexists |].
  destruct Hr as (g & ->%list_elem_of_singleton & Hno). by destruct (Hno b).
Qed.

Lemma hit_row p L bhs i h :
  pool_inv p L -> bh_list bhs !! i = Some h -> hit_at p [0] bhs i = true ->
  exists b, row_at p [0] bhs i = [b] /\ cached_under p h 0 b.
Proof.
  intros Hinv Hi Hhit. unfold hit_at, row_at, is_hit in *. rewrite Hi in *. apply bool_decide_eq_true in Hhit as [rw Hrw].
  simpl. rewrite Hrw. simpl. destruct (row_spec p L (pinv_core _ _ Hinv) [0] zero_group ltac:(done) h) as [_ Hr].
  rewrite Hrw in Hr. inversion Hr as [|? b ? ? [Hb _] Hnil]; subst. inversion Hnil; subst. eauto.
Qed.

Lemma columns_length g rows rows' : columns g rows = columns g rows' -> (0 < g)%nat -> length rows = length rows'.
Proof.
  intros E Hg. apply (f_equal (fun c => c !! 0%nat)) in E. rewrite !columns_lookup, !decide_True in E by done.
  injection E as E. apply (f_equal length) in E. by rewrite !length_fmap in E.
Qed.

(** ** Full attention *)

Lemma full_longest p L gids bhs max_length bs (use_eagle : bool) alignment :
  let e := if use_eagle then 1%nat else 0%nat in
  pool_inv p L -> (forall g, g ∈ gids -> 0 <= g < 2 ^ 32) -> gids <> [] ->
  0 < bs -> 0 <= max_length -> max_length / bs <= zlen (bh_list bhs) ->
  exists rows, find_longest_cache_hit true FullAttention p bhs max_length gids bs use_eagle alignment 1 1
      = Ok (columns (length gids) rows) /\
    zlen rows * bs <= max_length /\ aligned bs alignment (length rows) = true /\
    (forall j, (j < length rows)%nat -> hit_at p gids bhs j = true /\ rows !! j = Some (row_at p gids bhs j)) /\
    (forall n, aligned bs alignment n = true -> Z.of_nat (n + e) * bs <= max_length ->
       (forall j, (j < n + e)%nat -> hit_at p gids bhs j = true) -> (n <= length rows)%nat).
Proof.
  intros e Hinv Hg Hne Hbs Hml Hmx. pose proof (pinv_core _ _ Hinv) as Hcore. simpl find_longest_cache_hit.
  destruct (full_sound_rows p L Hcore gids Hg Hne bhs max_length bs use_eagle alignment Hbs Hml Hmx)
    as (rows & Hrun & Hlen & Hal & _ & Hrows).
  exists rows. split_and!; try done. intros n Hn Hnm Hhit.
  pose proof (Z.div_pos max_length bs Hml Hbs) as Hq.
  rewrite (full_find_eq p L Hcore gids Hg Hne bhs max_length bs use_eagle alignment 1 1 Hq) in Hrun.
  change (ctx_block_size bs 1 1) with bs in Hrun. set (hs := take (Z.to_nat (max_length / bs)) (bh_list bhs)) in *.
  destruct (align_down_spec bs alignment (hit_len p gids hs - e)) as (Hdown & _ & Hmax).
  assert (Hrl : length rows = full_hit_blocks p gids bs alignment use_eagle hs).
  { injection Hrun as Hrun. apply columns_length in Hrun; [| destruct gids; [done | simpl; lia]]. rewrite <- Hrun.
    unfold full_hit_blocks. fold e. pose proof (hit_len_le p gids hs). rewrite rows_of_length; [rewrite length_take; lia |].
    replace (align_down _ _ _) with (align_down bs alignment (hit_len p gids hs - e) `min` hit_len p gids hs)%nat by lia.
    rewrite <- take_take. apply Forall_take, hit_len_Forall. }
  assert (Hhl : (n + e <= hit_len p gids hs)%nat).
  { destruct (decide (n + e <= hit_len p gids hs)%nat) as [|Hgt]; [done |].
    assert (Hlt : (hit_len p gids hs < n + e)%nat) by lia. pose proof (Hhit _ Hlt) as Hh. unfold hit_at in Hh.
    destruct (bh_list bhs !! hit_len p gids hs) as [h|] eqn:Eh; [| done].
    assert (Hsmall : (hit_len p gids hs < Z.to_nat (max_length / bs))%nat).
    { pose proof (Z.div_le_mono (Z.of_nat (n + e) * bs) max_length bs Hbs Hnm) as Hd. rewrite Z_div_mult in Hd by lia. lia. }
    rewrite (hit_len_stop p gids hs h) in Hh; [done |]. rewrite <- Eh. by apply lookup_take_lt. }
  rewrite Hrl. unfold full_hit_blocks. fold e.
  destruct (decide (n <= align_down bs alignment (hit_len p gids hs - e))%nat) as [|Hgt]; [done |].
  rewrite (Hmax n) in Hn; [done | lia].
Qed.

(** For full attention, the lookup returns for every group the cached blocks
    of the longest prefix within [max_length] that all groups have cached and whose length
    is aligned; with EAGLE, one more cached block is required and not returned. *)
Lemma full_lookup_longest p L gids bhs max_length bs (use_eagle : bool) alignment :
  let e := if use_eagle then 1%nat else 0%nat in
  pool_inv p L -> (forall g, g ∈ gids -> 0 <= g < 2 ^ 32) -> gids <> [] ->
  0 < bs -> 0 <= max_length -> max_length / bs <= zlen (bh_list bhs) ->
  exists rows, find_longest_cache_hit true FullAttention p bhs max_length gids bs use_eagle alignment 1 1
      = Ok (columns (length gids) rows) /\
    zlen rows * bs <= max_length /\ aligned bs alignment (length rows) = true /\
    (forall j, (j < length rows)%nat -> hit_at p gids bhs j = true /\ rows !! j = Some (row_at p gids bhs j)) /\
    (forall n, aligned bs alignment n = true -> Z.of_nat (n + e) * bs <= max_length ->
       (forall j, (j < n + e)%nat -> hit_at p gids bhs j = true) -> (n <= length rows)%nat).
Proof. apply full_longest. Qed.

(** ** Sliding window *)

(** For sliding-window attention, the lookup returns the longest hit whose
    end is aligned and whose last blocks, those the window of the next token covers, are
    cached in all groups; the blocks before them are null blocks. With EAGLE the window is
    one block longer and the last block is dropped. *)
Lemma swa_lookup_longest p L gids bhs max_length bs w (use_eagle : bool) alignment :
  pool_inv p L -> (forall g, g ∈ gids -> 0 <= g < 2 ^ 32) -> gids <> [] ->
  let mx := Z.to_nat (max_length / bs) in
  let W := Z.to_nat (Z.max 1 (cdiv (w - 1) bs + if use_eagle then 1 else 0)) in
  (mx <= length (bh_list bhs))%nat -> use_eagle = false \/ bs = alignment ->
  exists n, (n <= mx)%nat /\ swa_ok p gids bhs bs alignment use_eagle W n /\
    (forall n', (n < n' <= mx)%nat -> ~ swa_ok p gids bhs bs alignment use_eagle W n') /\
    find_longest_cache_hit true (SlidingWindow w) p bhs max_length gids bs use_eagle alignment 1 1 =
    Ok (columns (length gids) (take (n - if use_eagle then 1 else 0) (swa_rows p gids bhs W n))).
Proof. intros Hinv Hg Hne mx W. apply (swa_find_spec p L (pinv_core _ _ Hinv) gids Hg Hne). Qed.

(** A window of one block: the second cached block is found although nothing before it is
    looked at. *)
(** ** Chunked local attention and Mamba *)

(** For chunked local attention (block size dividing the chunk size), all
    blocks before the chunk of the next token count as computed and are null blocks, and
    inside the chunk the lookup takes the cached blocks up to the first miss. *)
Lemma chunked_lookup_correct p L gids bhs max_length bs chunk :
  pool_inv p L -> (forall g, g ∈ gids -> 0 <= g < 2 ^ 32) -> gids <> [] ->
  0 < bs -> 0 < chunk -> 0 < max_length ->
  let s := Z.to_nat (max_length / chunk * chunk / bs) in
  let mx := Z.to_nat (max_length / bs) in
  (mx <= length (bh_list bhs))%nat ->
  exists k, (s + k <= mx)%nat /\ (forall i, (s <= i < s + k)%nat -> hit_at p gids bhs i = true) /\
    ((s + k < mx)%nat -> hit_at p gids bhs (s + k) = false) /\
    find_longest_cache_hit true (ChunkedLocalAttention chunk) p bhs max_length gids bs false bs 1 1 =
    Ok (columns (length gids) (replicate s (replicate (length gids) (null_block p)) ++ (row_at p gids bhs <$> seq s k))).
Proof. intros Hinv Hg Hne. apply (chunked_find_spec p L (pinv_core _ _ Hinv) gids Hg Hne). Qed.

(** Chunks of two blocks: the third block is the first of its chunk. *)
(** For Mamba, the lookup finds the last cached state at an aligned position
    within [max_length]: only that block is returned, behind null blocks. *)
Lemma mamba_lookup_last p L gids bhs max_length bs alignment align spec :
  pool_inv p L -> (forall g, g ∈ gids -> 0 <= g < 2 ^ 32) -> gids <> [] ->
  0 < bs -> 0 <= max_length -> max_length / bs <= zlen (bh_list bhs) ->
  let n := Z.to_nat (max_length / bs) in
  let found i := hit_at p gids bhs i && aligned bs alignment (S i) in
  let run := find_longest_cache_hit true (Mamba align spec) p bhs max_length gids bs false alignment 1 1 in
  (exists i, (i < n)%nat /\ found i = true /\ (forall j, (i < j < n)%nat -> found j = false) /\
     run = Ok (columns (length gids) (replicate i (replicate (length gids) (null_block p)) ++ [row_at p gids bhs i]))) \/
  ((forall j, (j < n)%nat -> found j = false) /\ run = Ok (replicate (length gids) [])).
Proof.
  intros Hinv Hg Hne Hbs Hml Hmx n found run.
  assert (Hrun : run = mamba_loop p bhs gids bs alignment n (columns (length gids) [])).
  { unfold run. simpl. unfold mamba_find, rassert. simpl. by rewrite columns_nil. }
  rewrite Hrun. destruct (mamba_loop_spec p L (pinv_core _ _ Hinv) gids Hg Hne bhs bs alignment n) as [(i & Hi & Hh & Ha & Hmax & Hl) | [Hno Hl]].
  { unfold n, zlen in *. pose proof (Z.div_pos max_length bs Hml Hbs). lia. }
  - left. exists i. unfold found. rewrite Hh, Ha. by split_and!.
  - right. split; [done |]. rewrite Hl. by rewrite columns_nil.
Qed.

(** ** The hybrid coordinator *)

(** C31 (termination): the fixed-point iteration of the hybrid coordinator terminates with one
    hit length, a multiple of the least common multiple of the block sizes, and for every
    attention group the returned blocks are a hit of exactly that length in which the blocks
    the next query attends to are cached under the request's hashes. Conditions ([hybrid_wf]):
    at most one attention group is full attention, and it is the first; no Mamba or
    chunked-local group uses EAGLE; chunked-local groups have the common block size, which
    divides the chunk; the request has a hash for every block asked for. *)
Theorem hybrid_lookup_agrees c L block_hashes max_len :
  hybrid_wf c L -> attention_groups c <> [] -> coord_class c = Hybrid ->
  0 <= max_len -> max_len / hash_block_size (block_pool c) <= zlen block_hashes ->
  exists blocks hit, coord_find_longest_cache_hit c block_hashes max_len = Ok (blocks, hit) /\
    0 <= hit <= max_len /\ (lcm_block_size c | hit) /\
    forall ag, ag ∈ attention_groups c -> group_result c block_hashes ag hit blocks.
Proof.
  intros Hwf Hne Hcl Hml Hlen. unfold coord_find_longest_cache_hit. rewrite Hcl.
  by apply (hybrid_find_spec c L).
Qed.

Definition demo_full : KVCacheSpec := mkSpec FullAttentionSpec 16 0.
Definition demo_swa : KVCacheSpec := mkSpec (SlidingWindowSpec 20) 16 0.
Definition demo_hybrid (p : BlockPool) : Coordinator :=
  mkCoord Hybrid (mkConfig 4 [mkGroup demo_full false; mkGroup demo_swa false] None) 100 true p [] [] 0 1 1
    [(demo_full, [0], FullAttention); (demo_swa, [1], SlidingWindow 20)] 16 [].

Lemma demo_hybrid_wf p L : pool_inv p L -> hash_block_size p = 16 -> hybrid_wf (demo_hybrid p) L.
Proof.
  intros Hinv Hh.
  assert (Hcases : forall i ag, attention_groups (demo_hybrid p) !! i = Some ag ->
    (i = 0%nat /\ ag = (demo_full, [0], FullAttention)) \/ (i = 1%nat /\ ag = (demo_swa, [1], SlidingWindow 20))).
  { intros [|[|i]] ag [= <-]; auto. }
  split; simpl; rewrite ?Hh; try done; [apply Hinv | | |].
  - intros ag [i Hi]%list_elem_of_lookup. destruct (Hcases i ag Hi) as [[_ ->] | [_ ->]];
      (split; simpl; rewrite ?Hh; try done; [intros g ->%list_elem_of_singleton; done | by apply NoDup_singleton]).
  - intros i j ag ag' g Hi Hj Hg Hg'. destruct (Hcases i ag Hi) as [[-> ->] | [-> ->]], (Hcases j ag' Hj) as [[-> ->] | [-> ->]];
      try done; exfalso; apply list_elem_of_singleton in Hg, Hg'; simpl in *; congruence.
  - intros i ag Hi Hf. by destruct (Hcases i ag Hi) as [[-> ->] | [-> ->]].
Qed.

(** A pool in which two blocks are cached for each of the two groups. *)
Definition hybrid_request : Request := demo_request "r" (replicate 32 5) [[10]; [11]].
Definition hybrid_cache (bls : list loc) (gid : Z) : M BlockPool Request :=
  cache_full_blocks (fun x => x) hybrid_request bls 0 2 16 gid.
Definition hybrid_pool0 : BlockPool := Eval vm_compute in
  match new_BlockPool 8 true 16 false false as x return match x with Ok _ => BlockPool | Err _ => unit end with
  | Ok p => p | Err _ => tt
  end.
Definition hybrid_pool1 : BlockPool := Eval vm_compute in (get_new_blocks 4 hybrid_pool0).2.
Definition hybrid_pool2 : BlockPool := Eval vm_compute in (hybrid_cache [1; 2]%nat 0 hybrid_pool1).2.
Definition hybrid_pool : BlockPool := Eval vm_compute in (hybrid_cache [3; 4]%nat 1 hybrid_pool2).2.

Lemma hybrid_cache_inv p q L bls gid r' :
  pool_inv p L -> hybrid_cache bls gid p = (Ok r', q) -> 0 <= gid < 2 ^ 32 -> length bls = 2%nat -> hash_block_size p = 16 ->
  Forall (fun l => l ∈ blocks p /\ hash_of (bheap p) l = None) bls -> NoDup bls -> exists L', pool_inv q L'.
Proof.
  intros Hinv Hrun Hg Hlen Hh Hall Hnd.
  assert (Hsl : py_slice bls 0 2 = bls).
  { rewrite py_slice_nonneg by lia. simpl. rewrite drop_0. by apply take_ge; rewrite Hlen. }
  rewrite Forall_forall in Hall.
  destruct (pool_step_inv (fun x => x) p q L Hinv) as (L' & ? & _); [| by exists L'].
  apply (step_cache _ _ hybrid_request r' bls 0 2 16 gid); rewrite ?Hh, ?Hsl; try done; try lia.
  - unfold zlen. rewrite Hlen. lia.
  - intros l Hl. by apply Hall.
  - by apply NoDup_filter.
  - intros l Hl _. by apply Hall.
Qed.

Lemma hybrid_pool_inv : exists L, pool_inv hybrid_pool L.
Proof.
  destruct (new_BlockPool_spec 8 true 16 false false eq_refl) as (p0 & Hp0 & Hinv0 & _).
  assert (p0 = hybrid_pool0) as -> by (vm_compute in Hp0; injection Hp0 as <-; reflexivity).
  destruct (get_new_blocks_inv hybrid_pool0 _ 4 [1; 2; 3; 4]%nat hybrid_pool1 Hinv0) as (_ & _ & Hinv1 & _);
    [lia | vm_compute; reflexivity |].
  destruct (hybrid_cache_inv hybrid_pool1 hybrid_pool2 _ [1; 2]%nat 0 hybrid_request Hinv1) as [L2 Hinv2];
    [vm_compute; reflexivity | lia | reflexivity | reflexivity | | |]; try (apply (bool_decide_unpack _); vm_compute; exact I).
  apply (hybrid_cache_inv hybrid_pool2 hybrid_pool _ [3; 4]%nat 1 hybrid_request Hinv2);
    [vm_compute; reflexivity | lia | reflexivity | reflexivity | |]; apply (bool_decide_unpack _); vm_compute; exact I.
Qed.

(** Both groups hit their two blocks. *)
Lemma hybrid_lookup_agrees_witness :
  coord_find_longest_cache_hit (demo_hybrid hybrid_pool) [[10]; [11]] 40 = Ok ([[1; 2]; [3; 4]]%nat, 32) /\ (16 | 32) /\
  group_result (demo_hybrid hybrid_pool) [[10]; [11]] (demo_swa, [1], SlidingWindow 20) 32 [[1; 2]; [3; 4]]%nat.
Proof.
  assert (E : coord_find_longest_cache_hit (demo_hybrid hybrid_pool) [[10]; [11]] 40 = Ok ([[1; 2]; [3; 4]]%nat, 32)) by (vm_compute; reflexivity).
  destruct hybrid_pool_inv as [L Hinv].
  destruct (hybrid_lookup_agrees (demo_hybrid hybrid_pool) L [[10]; [11]] 40 (demo_hybrid_wf _ _ Hinv eq_refl)) as (blocks & hit & Hrun & _ & Hd & Hall).
  - discriminate.
  - reflexivity.
  - lia.
  - vm_compute. discriminate.
  - rewrite E in Hrun. injection Hrun as <- <-. refine (conj E (conj Hd _)). apply Hall. right. left.
Defined.

(** ** Reuse is sound *)

(** C29 (safety): for a group of full attention, without context parallelism and with a
    collision-free hash function: if a block carries the hash of block [i] computed from the
    tokens of one request (the hash cache_full_blocks gives it), and the lookup of another
    request, with its hashes computed from its tokens, returns that block at position [j], then
    the positions are equal and the two requests agree on all tokens up to the end of the
    block. *)
Theorem reused_block_same_prefix sha256 hash_function NONE_HASH p L r1 r2 i j h1 b max_length bs use_eagle alignment rows gid :
  (forall x y, hash_function x = hash_function y -> x = y) ->
  (forall x, hash_function x <> NONE_HASH) -> (forall x, hash_function x <> []) ->
  pool_inv p L -> 0 <= gid < 2 ^ 32 -> 0 < bs -> 0 <= max_length ->
  max_length / bs <= zlen (full_hashes sha256 hash_function NONE_HASH r2 bs) ->
  full_hashes sha256 hash_function NONE_HASH r1 bs !! i = Some h1 -> cached_under p h1 gid b ->
  find_longest_cache_hit true FullAttention p (HList (full_hashes sha256 hash_function NONE_HASH r2 bs)) max_length [gid] bs
    use_eagle alignment 1 1 = Ok [rows] ->
  rows !! j = Some b ->
  i = j /\ take (S i * Z.to_nat bs) (_all_token_ids r1) = take (S i * Z.to_nat bs) (_all_token_ids r2).
Proof.
  intros Hinj Hseed Hne Hinv Hg Hbs Hml Hmx Hi (k & Hk & HB & Hhash) Hrun Hj. pose proof (pinv_core _ _ Hinv) as Hcore.
  set (bhs := HList (full_hashes sha256 hash_function NONE_HASH r2 bs)) in *.
  destruct (full_sound_rows p L Hcore [gid] ltac:(by intros ? ->%list_elem_of_singleton) ltac:(done) bhs max_length bs use_eagle alignment Hbs Hml Hmx)
    as (rws & Hrun' & _ & _ & _ & Hrows).
  simpl find_longest_cache_hit in Hrun. rewrite Hrun' in Hrun. injection Hrun as Hcol. subst rows.
  rewrite list_lookup_fmap in Hj. destruct (rws !! j) as [rw|] eqn:Er; [| done]. injection Hj as <-.
  destruct (Hrows j (lookup_lt_Some _ _ _ Er)) as [Hhit Hrow]. rewrite Er in Hrow. injection Hrow as ->.
  unfold hit_at, row_at in *. destruct (bh_list bhs !! j) as [h2|] eqn:Eh; [| done]. simpl in *.
  apply bool_decide_eq_true in Hhit as [rw Hrw]. rewrite Hrw in HB, Hhash. simpl in *.
  destruct (row_spec p L Hcore [gid] ltac:(by intros ? ->%list_elem_of_singleton) ltac:(done) h2) as [_ Hsp].
  rewrite Hrw in Hsp. inversion Hsp as [|? b ? ? [(k' & Hk' & _ & Hb') _] Hnil]; subst. inversion Hnil; subst. simpl in *.
  assert (k' = k) as -> by congruence. destruct (pack_inj _ _ _ _ _ Hk Hk') as [-> _].
  exact (full_sound_tokens sha256 hash_function NONE_HASH bs Hbs Hinj Hseed Hne r1 r2 i j h2 Hi Eh).
Qed.

(** The second request reuses the first block of the first one. *)
Lemma reused_block_same_prefix_witness :
  exists p b rows,
    find_longest_cache_hit true FullAttention p (HList (full_hashes (fun x => x) demo_hash [0] (demo_tokens [1; 2; 9; 9] None) 2))
      2 [0] 2 false 2 1 1 = Ok [rows] /\ rows !! 0%nat = Some b /\
    take (1 * 2) [1; 2; 3; 4] = take (1 * 2) [1; 2; 9; 9].
Proof.
  set (h := demo_hash ([0], [1; 2], None)). destruct (demo_cached_under h []) as (p & Hinv & Hn & _ & _ & _ & _ & H1 & _).
  set (hs := full_hashes (fun x => x) demo_hash [0] (demo_tokens [1; 2; 9; 9] None) 2).
  assert (Hhit : hit_at p [0] (HList hs) 0 = true) by (eapply hit_intro; [exact Hinv | reflexivity | exact H1]).
  destruct (full_longest p [3%nat] [0] (HList hs) 2 2 false 2 Hinv zero_group)
    as (rws & Hrun & _ & _ & Hrows & Hmax); [done | lia | lia | vm_compute; discriminate |].
  assert (Hlen : (0 < length rws)%nat).
  { apply (Hmax 1%nat); [reflexivity | simpl; lia |]. intros j Hj. by replace j with 0%nat by lia. }
  destruct (Hrows 0%nat Hlen) as [_ Hrow]. destruct (hit_row p [3%nat] (HList hs) 0 h Hinv eq_refl Hhit) as (b & Eb & Hb).
  set (rows := (fun r => default 0%nat (r !! 0%nat)) <$> rws).
  assert (Hr0 : rows !! 0%nat = Some b) by (unfold rows; rewrite list_lookup_fmap, Hrow, Eb; reflexivity).
  exists p, b, rows. split_and!; [exact Hrun | exact Hr0 |].
  apply (reused_block_same_prefix (fun x => x) demo_hash [0] p [3%nat] (demo_tokens [1; 2; 3; 4] None) (demo_tokens [1; 2; 9; 9] None)
    0 0 h b 2 2 false 2 rows 0 ltac:(intros x y E; injection E; apply encode_inj) ltac:(discriminate) ltac:(discriminate) Hinv);
    [lia | lia | lia | vm_compute; discriminate | reflexivity | exact Hb | exact Hrun | exact Hr0].
Defined.
