(* ===== verification/AllocProps.v ===== *)
(** * AllocProps
    The properties of block accounting: what every manager, the coordinators and the
    KV-cache manager guarantee about the blocks of the requests. *)
From S2P Require Import Prelude OrdDict KVCacheBlock FreeQueue Request BlockHash BlockPool BlockPoolInv Managers ManagerInv NelssaInv CacheHit HitFinder Coordinator CoordinatorInv KVCacheManager KVCacheManagerInv PrefixAdmission Demo.

(** ** Construction *)

Lemma coordinator_parts cfg mml batched eagle caching ev dcp pcp hbs ui c :
  Forall (plain_group (nelssa_config cfg)) (kv_cache_groups cfg) ->
  get_kv_cache_coordinator cfg mml batched eagle caching ev dcp pcp hbs ui = Ok c ->
  exists p, new_BlockPool (num_blocks cfg) caching hbs ev ui = Ok p /\ block_pool c = p /\
    Forall (blank p) (single_type_managers c) /\ length (single_type_managers c) = length (kv_cache_groups cfg).
Proof.
  intros Hg. unfold get_kv_cache_coordinator. destruct (new_BlockPool _ _ _ _ _) as [p|]; [| done]. simpl rbind.
  destruct (build_managers_blank (kv_cache_groups cfg) batched mml caching dcp pcp (nelssa_config cfg) p 0 Hg)
    as (ms & Hrun & Hms & Hlen). cbv zeta. rewrite Hrun. intros Hc. exists p. split; [done |].
  destruct (negb caching); [by injection Hc as <- |].
  destruct (kv_cache_groups cfg) as [|g [|g' gs]] eqn:Eg; unfold rbind, rassert in Hc;
    repeat match type of Hc with context [if ?b then Ok tt else _] => destruct b; [| done] end;
    by injection Hc as <-.
Qed.

(** A new coordinator for any list of KV-cache groups (with positive block
    sizes and no sink attention, whose manager takes blocks at construction) starts with
    all blocks but the null block free and with exact reference accounting. *)
Lemma coordinator_initial_ok cfg mml batched eagle caching ev dcp pcp hbs ui c :
  Forall (plain_group (nelssa_config cfg)) (kv_cache_groups cfg) ->
  get_kv_cache_coordinator cfg mml batched eagle caching ev dcp pcp hbs ui = Ok c ->
  coord_ok c (seq 1 (Z.to_nat (num_blocks cfg) - 1)) /\
  get_num_free_blocks (block_pool c) = num_blocks cfg - 1 /\
  length (single_type_managers c) = length (kv_cache_groups cfg).
Proof.
  intros Hg Hc. destruct (coordinator_parts _ _ _ _ _ _ _ _ _ _ _ Hg Hc) as (p & Hp & Hcp & Hms & Hlen).
  destruct (decide (0 < num_blocks cfg)) as [Hn | Hn].
  2: { rewrite new_BlockPool_bad in Hp by lia. done. }
  destruct (new_BlockPool_spec (num_blocks cfg) caching hbs ev ui Hn) as (q & Hq & Hinv & _ & Hb & _ & _ & _ & _ & _ & _ & Hz).
  rewrite Hp in Hq. injection Hq as <-. subst p. split_and!; [| | done].
  - apply blank_coord_ok; try done; intros; by apply Hz.
  - unfold get_num_free_blocks. rewrite (pool_free_count (pinv_core _ _ Hinv)). unfold zlen. rewrite length_seq. lia.
Qed.

Definition demo_cfg : KVCacheConfig :=
  mkConfig 6 [mkGroup (mkSpec FullAttentionSpec 16 0) false; mkGroup (mkSpec (SlidingWindowSpec 20) 16 0) false] None.

Lemma demo_cfg_plain : Forall (plain_group (nelssa_config demo_cfg)) (kv_cache_groups demo_cfg).
Proof. by repeat constructor. Qed.

Lemma demo_coord :
  exists c, get_kv_cache_coordinator demo_cfg 100 100 false true false 1 1 16 false = Ok c /\ coord_ok c (seq 1 5) /\
    length (single_type_managers c) = 2%nat /\ Forall (blank (block_pool c)) (single_type_managers c).
Proof.
  destruct (get_kv_cache_coordinator demo_cfg 100 100 false true false 1 1 16 false) as [c|e] eqn:E.
  2: { vm_compute in E. discriminate E. }
  destruct (coordinator_parts _ _ _ _ _ _ _ _ _ _ _ demo_cfg_plain E) as (p & Hp & Hcp & Hms & Hlen). exists c.
  destruct (new_BlockPool_spec 6 true 16 false false eq_refl) as (q & Hq & Hinv & _ & _ & _ & _ & _ & _ & _ & _ & Hz).
  assert (Hpq : p = q) by (change (num_blocks demo_cfg) with 6 in Hp; congruence). subst q p.
  split_and!; [done | | done | done]. apply blank_coord_ok; [done | done | |]; intros; by apply Hz.
Qed.

(** ** The KV-cache manager as a transition system *)

(** Groups of full, sliding-window, chunked-local and NELSSA attention. *)
Definition base_kind (k : Kind) : Prop :=
  match k with
  | FullAttention | SinkFullAttention _ => True
  | SlidingWindow w => 1 <= w
  | ChunkedLocalAttention c => 1 <= c
  | NELSSA h _ => 0 <= h
  | Mamba _ _ | CrossAttention => False
  end.
Definition base_mgr (m : Manager) : Prop := base_kind (kind m).
Definition base_group (nelssa : option (Z * Z)) (g : KVCacheGroupSpec) : Prop :=
  plain_group nelssa g /\
  match nelssa, spec_class (kv_cache_spec g) with
  | Some (h, _), _ => 0 <= h
  | None, (SlidingWindowSpec w | SlidingWindowMLASpec w) => 1 <= w
  | None, ChunkedLocalAttentionSpec c => 1 <= c
  | None, (MambaSpec _ _ | CrossAttentionSpec) => False
  | None, _ => True
  end.

Lemma base_skipped k n : base_kind k -> 0 <= n -> 0 <= get_num_skipped_tokens k n <= n.
Proof.
  destruct k; simpl; try lia. intros Hc Hn. pose proof (Z.mul_div_le n attention_chunk_size ltac:(lia)).
  pose proof (Z.div_pos n attention_chunk_size). nia.
Qed.

(** What the methods keep of a manager. *)
Record same_mgr (m m' : Manager) : Prop := {
  sm_kind : kind m' = kind m;
  sm_bs : block_size m' = block_size m;
  sm_gid : kv_cache_group_id m' = kv_cache_group_id m;
  sm_caching : m_enable_caching m' = m_enable_caching m;
}.
#[export] Instance same_mgr_preorder : PreOrder same_mgr.
Proof. split; [by split |]. intros m1 m2 m3 [] []. split; congruence. Qed.

Lemma frame_same_mgr extra s s' : mgr_frame extra s s' -> same_mgr (mg s) (mg s').
Proof. intros []. by split. Qed.

(** A call on every manager that returns keeps the invariant when it does so on every single
    manager. [P i] holds of the pool before the call on manager [i], [R] relates a manager
    before and after. *)
Section for_managers_keep.
Context {A : Type} (f : nat -> MM A) (P : nat -> BlockPool -> Prop) (R : Manager -> Manager -> Prop) (c0 : Coordinator).
Hypothesis Hf : forall i m extra p L a s', single_type_managers c0 !! i = Some m ->
  pool_frame (block_pool c0) p -> P i p -> mgr_ok extra (mkMS m p) L -> f i (mkMS m p) = (Ok a, s') ->
  exists L', mgr_ok extra s' L' /\ mgr_frame extra (mkMS m p) s' /\ P (S i) (pool s') /\ R m (mg s').

#[local] Definition done_upto (k : nat) (c : Coordinator) : Prop :=
  forall i m, (i < k)%nat -> single_type_managers c0 !! i = Some m ->
    exists m', single_type_managers c !! i = Some m' /\ same_mgr m m' /\ R m m'.

Lemma keep_from n : forall k c L out c',
  coord_ok c L -> coord_frame c0 c -> (k + n = length (single_type_managers c0))%nat ->
  (forall i, (k <= i)%nat -> single_type_managers c !! i = single_type_managers c0 !! i) ->
  P k (block_pool c) -> done_upto k c ->
  traverse (seq k n) (fun i => on_manager i (f i)) c = (Ok out, c') ->
  exists L', coord_ok c' L' /\ coord_frame c0 c' /\ P (k + n) (block_pool c') /\ done_upto (k + n) c'.
Proof using Hf.
  induction n as [|n IH]; intros k c L out c' Hc Hf0 Hk Hsame HP Hdone; simpl.
  { intros [= _ <-]. exists L. by rewrite Nat.add_0_r. }
  destruct (lookup_lt_is_Some_2 (single_type_managers c0) k) as [m Hm]; [lia |].
  assert (Hmc : single_type_managers c !! k = Some m) by (by rewrite Hsame by lia).
  destruct (f k (mkMS m (block_pool c))) as [[a|e] s'] eqn:Erun; unfold bind at 1.
  2: { unfold on_manager. rewrite Hmc, Erun. done. }
  destruct (Hf k m _ _ L a s' Hm (cf_pool _ _ Hf0) HP (co_mgr _ _ Hc k m Hmc) Erun) as (L1 & Hok & Hfr & HP1 & HR).
  destruct (on_manager_ok c L k m (f k) _ s' L1 Hc Hmc Erun Hok Hfr) as (c1 & -> & Hc1 & Hf1 & Hp1 & Hms1).
  unfold bind at 1. destruct (traverse _ _ c1) as [[out'|e] c2] eqn:Erest; [| done]. intros [= _ <-].
  rewrite Nat.add_succ_r. apply (IH (S k) c1 L1 out' c2 Hc1); [by etransitivity | lia | | by rewrite Hp1 | | done].
  - intros i Hi. rewrite Hms1, list_lookup_insert_ne by lia. apply Hsame. lia.
  - intros i mi Hi Hmi. rewrite Hms1. destruct (decide (i = k)) as [-> | Hne].
    + rewrite Hm in Hmi. injection Hmi as <-. rewrite list_lookup_insert_eq by (by eapply lookup_lt_Some).
      exists (mg s'). split_and!; [done | exact (frame_same_mgr _ _ _ Hfr) | done].
    + rewrite list_lookup_insert_ne by done. apply Hdone; [lia | done].
Qed.

Lemma for_managers_keep L out c' :
  coord_ok c0 L -> P 0 (block_pool c0) -> for_managers f c0 = (Ok out, c') ->
  exists L', coord_ok c' L' /\ coord_frame c0 c' /\ P (length (single_type_managers c0)) (block_pool c') /\
    Forall2 (fun m m' => same_mgr m m' /\ R m m') (single_type_managers c0) (single_type_managers c').
Proof using Hf.
  intros Hc HP. unfold for_managers, bind, get. intros Hrun.
  destruct (keep_from (length (single_type_managers c0)) 0 c0 L out c' Hc) as (L' & ? & Hfr & ? & Hd); try done.
  { intros i m Hi. lia. }
  exists L'. split_and!; try done. apply Forall2_same_length_lookup_2; [by rewrite (cf_len _ _ Hfr) |].
  intros i m m' Hi Hi'. destruct (Hd i m) as (m2 & Hm2 & ?); [by eapply lookup_lt_Some | done |]. by simplify_eq.
Qed.
End for_managers_keep.

(** ** The invariant *)

(** Exact accounting, in [n] groups of the base kinds. *)
Definition coord_inv (n : nat) (c : Coordinator) : Prop :=
  exists L, coord_ok c L /\ Forall base_mgr (single_type_managers c) /\ length (single_type_managers c) = n.

(** The same with the list [c] was computed from. *)
Lemma coord_inv_same n c c' L (R : Manager -> Manager -> Prop) :
  coord_ok c' L -> Forall2 (fun m m' => same_mgr m m' /\ R m m') (single_type_managers c) (single_type_managers c') ->
  coord_inv n c -> coord_inv n c'.
Proof.
  intros Hc H2 (L0 & _ & Hb & Hn). exists L. split_and!; [done | | by rewrite <- (Forall2_length _ _ _ H2)].
  clear -H2 Hb. induction H2 as [|m m' ms ms' [Hs _] _ IH]; [done |]. apply Forall_cons in Hb as [Hm Hb].
  constructor; [| by apply IH]. unfold base_mgr. by rewrite (sm_kind _ _ Hs).
Qed.

(** A call that keeps a manager's tables and the pool. *)
Lemma mgr_ok_fields extra m m' p L :
  mgr_ok extra (mkMS m p) L -> same_mgr m m' -> req_to_blocks m' = req_to_blocks m -> num_cached_block m' = num_cached_block m ->
  _null_block m' = _null_block m -> _max_admission_blocks_per_request m' = _max_admission_blocks_per_request m ->
  mgr_ok extra (mkMS m' p) L /\ mgr_frame extra (mkMS m p) (mkMS m' p).
Proof.
  intros Hok [Hk Hb Hg Hc] Ht Hn Hnul Hcap. split; [| by split].
  destruct Hok. split; simpl in *; unfold num_cached in *; simpl in *; rewrite ?Ht, ?Hn, ?Hb, ?Hnul; auto.
Qed.

Lemma base_mgr_of c i m : Forall base_mgr (single_type_managers c) -> single_type_managers c !! i = Some m -> base_mgr m.
Proof. intros Hb Hi. exact (proj1 (Forall_lookup _ _) Hb i m Hi). Qed.


(** ** The operations on all managers *)

(** remove_skipped_blocks; without blocks of the request nothing is released. *)
Lemma coord_skip_keep c L rid t c' :
  coord_ok c L -> Forall base_mgr (single_type_managers c) -> coord_remove_skipped_blocks rid t c = (Ok tt, c') ->
  exists L', coord_ok c' L' /\ coord_frame c c' /\
    ((forall m, m ∈ single_type_managers c -> tbl (req_to_blocks m) rid = []) -> block_pool c' = block_pool c) /\
    Forall2 (fun m m' => same_mgr m m' /\ (num_cached_block m' = num_cached_block m /\
      (tbl (req_to_blocks m) rid = [] -> tbl (req_to_blocks m') rid = []))) (single_type_managers c) (single_type_managers c').
Proof.
  intros Hc Hb. unfold coord_remove_skipped_blocks, bind.
  destruct (for_managers _ c) as [[out|] c1] eqn:Erun; [| done]. intros [= <-].
  unshelve epose proof (for_managers_keep (fun _ => remove_skipped_blocks rid t)
    (fun _ p => (forall m, m ∈ single_type_managers c -> tbl (req_to_blocks m) rid = []) -> p = block_pool c)
    (fun m m' => num_cached_block m' = num_cached_block m /\ (tbl (req_to_blocks m) rid = [] -> tbl (req_to_blocks m') rid = []))
    c _ L out c1 Hc _ Erun) as (L' & ? & ? & ? & ?); [| done | by exists L'].
  intros i m extra p L0 a s' Hi _ HP Hok Hrun. pose proof (base_mgr_of c i m Hb Hi) as Hk.
  assert (E : remove_skipped_blocks rid t (mkMS m p) = base_remove_skipped_blocks rid t (mkMS m p)).
  { unfold base_mgr in Hk. unfold remove_skipped_blocks, self, gets, bind at 1. simpl. by destruct (kind m). }
  cbv beta in Hrun. rewrite E in Hrun. destruct (base_remove_skipped_spec extra (mkMS m p) L0 rid t Hok)
    as (s1 & L1 & Hrun1 & ? & ? & _ & _ & Hn & _). rewrite Hrun in Hrun1. injection Hrun1 as _ <-.
  assert (He : tbl (req_to_blocks m) rid = [] -> pool s' = p /\ tbl (req_to_blocks (mg s')) rid = []).
  { intros Ht. destruct (base_remove_skipped_empty (mkMS m p) rid t Ht) as (s2 & Hrun2 & Hp2 & Hm2).
    rewrite Hrun in Hrun2. injection Hrun2 as _ <-. split; [done |].
    destruct Hm2 as [-> | ->]; [done |]. simpl. rewrite tbl_set. by case_decide. }
  exists L1. split_and!; [done | done | | done | by intros Ht; apply He].
  intros Hall. rewrite (proj1 (He (Hall m (list_elem_of_lookup_2 _ _ _ Hi)))). by apply HP.
Qed.

(** The estimate changes nothing. *)
Lemma for_managers_id {A} (f : nat -> MM A) c out c' :
  (forall i m a s', single_type_managers c !! i = Some m -> f i (mkMS m (block_pool c)) = (Ok a, s') -> s' = mkMS m (block_pool c)) ->
  for_managers f c = (Ok out, c') -> c' = c.
Proof.
  intros Hf. unfold for_managers, bind at 1, get. generalize (seq 0 (length (single_type_managers c))).
  intros idxs. revert out. induction idxs as [|i idxs IH]; intros out; simpl; [by intros [= _ <-] |]. unfold bind at 1.
  destruct (on_manager i (f i) c) as [[a|] c1] eqn:E; [| done]. unfold on_manager in E.
  destruct (single_type_managers c !! i) as [m|] eqn:Ei; [| done].
  destruct (f i (mkMS m (block_pool c))) as [[a'|] s'] eqn:Ef; [| done]. injection E as _ <-.
  rewrite (Hf i m a' s' Ei Ef). simpl. rewrite list_insert_id by done.
  replace (with_managers (block_pool c) (single_type_managers c) c) with c by (by destruct c).
  unfold bind. destruct (traverse idxs _ c) as [[out'|] c2] eqn:Er; [| done]. intros [= _ <-]. by eapply IH.
Qed.

Lemma estimate_id rid n new total main m p a s' :
  base_mgr m -> get_num_blocks_to_allocate rid n new total main (mkMS m p) = (Ok a, s') -> s' = mkMS m p.
Proof.
  assert (Hbase : forall a s', base_get_num_blocks_to_allocate rid n new total (mkMS m p) = (Ok a, s') -> s' = mkMS m p).
  { intros a' s1. unfold base_get_num_blocks_to_allocate, self, gets, assert, bind. simpl.
    destruct (num_cached_block m !! rid); [destruct (_ =? 0) |]; unfold ret, raise; congruence. }
  intros Hk. unfold get_num_blocks_to_allocate, self, gets, bind at 1. simpl.
  unfold base_mgr in Hk. destruct (kind m); try done; try apply Hbase. case_decide; [unfold ret; congruence | apply Hbase].
Qed.

Lemma coord_estimate_id c rid n new enc total main x c' :
  Forall base_mgr (single_type_managers c) ->
  coord_get_num_blocks_to_allocate rid n new enc total main c = (Ok x, c') -> c' = c.
Proof.
  intros Hb. unfold coord_get_num_blocks_to_allocate, bind at 1.
  destruct (for_managers _ c) as [[out|] c1] eqn:Erun; [| done]. intros [= _ <-].
  eapply for_managers_id, Erun. intros i m a s' Hi. pose proof (base_mgr_of c i m Hb Hi) as Hk. unfold self, gets, bind at 1. simpl.
  assert (is_cross m = false) as -> by (unfold is_cross, base_mgr in *; by destruct (kind m)).
  unfold bind, lift. destruct (py_index _ _); [| done]. by apply estimate_id.
Qed.

(** Marking a long request. *)
Lemma coord_mark_keep c L rid len out c' :
  coord_ok c L -> for_managers (fun _ => mark_long_request rid len) c = (Ok out, c') ->
  exists L', coord_ok c' L' /\ coord_frame c c' /\ block_pool c' = block_pool c /\
    Forall2 (fun m m' => same_mgr m m' /\ (num_cached_block m' = num_cached_block m /\ req_to_blocks m' = req_to_blocks m))
      (single_type_managers c) (single_type_managers c').
Proof.
  intros Hc Hrun. unshelve epose proof (for_managers_keep (fun _ => mark_long_request rid len) (fun _ p => p = block_pool c)
    (fun m m' => num_cached_block m' = num_cached_block m /\ req_to_blocks m' = req_to_blocks m) c _ L out c' Hc _ Hrun)
    as (L' & ? & ? & ? & ?); [| done | by exists L'].
  intros i m extra p L0 a s' Hi _ HP Hok. unfold mark_long_request, self, gets, bind at 1. cbn [mg].
  destruct (kind m) eqn:Ek; try (intros [= _ <-]; exists L0; by split_and!).
  destruct (_compute_tail_layout (block_size m) tail_size len) as [z z0]. unfold with_mg, modify. intros [= _ <-]. exists L0.
  destruct (mgr_ok_fields extra m (set_nelssa ({[rid]} ∪ long_requests m) (<[rid := z]> (nelssa_tail_blocks m))
    (<[rid := z0]> (nelssa_tail_start_pos m)) m) p L0 Hok) as [? ?]; [by split | done | done | done | done | by split_and!].
Qed.

(** The tokens up to [n] have blocks in the table of [rid]. *)
Definition covers (rid : string) (n : Z) (m : Manager) : Prop := cdiv n (block_size m) <= zlen (tbl (req_to_blocks m) rid).

Lemma coord_alloc_keep c L rid n main enc out c' :
  coord_ok c L -> Forall base_mgr (single_type_managers c) ->
  coord_allocate_new_blocks rid n main enc c = (Ok out, c') ->
  exists L', coord_ok c' L' /\ coord_frame c c' /\
    Forall2 (fun m m' => same_mgr m m' /\ covers rid n m') (single_type_managers c) (single_type_managers c').
Proof.
  intros Hc Hb Hrun. unfold coord_allocate_new_blocks in Hrun.
  unshelve epose proof (for_managers_keep _ (fun _ _ => True) (fun _ m' => covers rid n m') c _ L out c' Hc _ Hrun)
    as (L' & ? & ? & _ & ?); [| done | by exists L'].
  intros i m extra p L0 a s' Hi _ _ Hok. pose proof (base_mgr_of c i m Hb Hi) as Hk. unfold self, gets, bind. simpl.
  assert (is_cross m = false) as -> by (unfold is_cross, base_mgr in *; by destruct (kind m)).
  rewrite uses_base_alloc by (simpl; unfold base_mgr in Hk; by destruct (kind m)).
  pose proof (base_allocate_new_blocks_spec extra (mkMS m p) L0 rid n Hok) as Hspec. cbv zeta in Hspec. simpl in Hspec.
  destruct (Z.leb_spec (Z.max (cdiv n (block_size m) - zlen (tbl (req_to_blocks m) rid)) 0) (zlen L0)) as [Hle | Hgt];
    destruct Hspec as (s1 & -> & Hspec); [| done].
  destruct Hspec as (? & Hf & Hap). intros [= _ <-]. eexists. split_and!; [done | done | done |].
  unfold covers. rewrite (ap_bs _ _ _ _ Hap), (ap_blocks _ _ _ _ Hap), decide_True by done. rewrite zlen_app.
  simpl. unfold zlen in *. rewrite length_take. lia.
Qed.

(** The cached blocks of a request that is new to a manager. *)
Lemma computed_keep extra s L rid new local ext s' :
  mgr_ok extra s L -> unseen_request s rid new local ext ->
  base_allocate_new_computed_blocks rid new local ext s = (Ok tt, s') ->
  exists L', mgr_ok extra s' L' /\ mgr_frame extra s s' /\
    (ext = 0 -> forall l, hash_of (bheap (pool s')) l = hash_of (bheap (pool s)) l).
Proof.
  intros Hok Hnew. destruct (allocate_hits_spec extra s L rid new local ext Hok Hnew) as (s1 & Hok1 & Hf1 & Hsh & Hh & ->).
  set (ts := drop _ new) in *. destruct (Z.ltb_spec 0 (external_of (mg s) local ext)) as [Hpos | _].
  2: { intros [= <-]. eauto. }
  set (n := cdiv _ _ - _). assert (Hext : ext <> 0).
  { intros ->. unfold external_of in Hpos. pose proof (nr_skip _ _ _ _ _ Hnew). destruct (0 <? _); lia. }
  assert (Hn : 0 <= n).
  { pose proof (covered_le _ _ _ _ _ _ _ Hok Hnew). unfold n. rewrite (sh_blocks _ _ _ _ _ _ Hsh), decide_True by done.
    rewrite zlen_app. pose proof (skipped_nonneg _ _ _ _ _ _ _ Hok Hnew). unfold zlen, ts in *.
    rewrite length_replicate, length_drop. lia. }
  set (L1 := filter (fun x => x ∉ ts) L) in *. destruct (Z.le_gt_cases n (zlen L1)) as [Hle | Hgt].
  - destruct (extend_new_spec extra s1 L1 rid n Hok1) as (s2 & Hrun2 & Hok2 & Hf2 & _); [done |].
    unfold bind. rewrite Hrun2. intros [= <-]. eexists. split_and!; [done | by etransitivity | done].
  - unfold extend_new, on_pool, zoom, bind.
    rewrite (get_new_blocks_too_many _ L1); [done | apply (mo_pool _ _ _ Hok1) | done].
Qed.

(** A request without blocks, and the cached blocks [bl] (one list per group) it brings. *)
Record fresh_hits (c : Coordinator) (rid : string) (bl : list (list loc)) (local ext : Z) : Prop := {
  fh_new : forall m, m ∈ single_type_managers c -> num_cached_block m !! rid = None /\ tbl (req_to_blocks m) rid = [];
  fh_ext : 0 <= ext;
  fh_one : ext = 0 \/ length (single_type_managers c) = 1%nat;
  fh_local : 0 <= local;
  fh_hits : forall i m new, single_type_managers c !! i = Some m -> bl !! i = Some new ->
    hit_blocks (block_pool c) new /\ (m_enable_caching m = false -> new = []) /\ zlen new * block_size m <= local;
}.

Lemma hit_blocks_frame p p' ts :
  pool_frame p p' -> (forall l, hash_of (bheap p') l = hash_of (bheap p) l) -> hit_blocks p ts -> hit_blocks p' ts.
Proof.
  intros Hf Hh [Hin Hnd Hs]. split.
  - intros l Hl. rewrite (pf_blocks _ _ Hf). auto.
  - by rewrite (pf_null _ _ Hf).
  - intros l. rewrite (pf_null _ _ Hf), Hh. auto.
Qed.

Lemma coord_computed_keep c L rid bl local ext c' :
  coord_ok c L -> Forall base_mgr (single_type_managers c) -> fresh_hits c rid bl local ext ->
  coord_allocate_new_computed_blocks rid bl local ext c = (Ok tt, c') ->
  exists L', coord_ok c' L' /\ coord_frame c c' /\
    Forall2 (fun m m' => same_mgr m m' /\ True) (single_type_managers c) (single_type_managers c').
Proof.
  intros Hc Hb Hfr. unfold coord_allocate_new_computed_blocks, bind at 1.
  destruct (for_managers _ c) as [[out|] c1] eqn:Erun; [| done]. intros [= <-].
  set (P := fun (i : nat) (p : BlockPool) => (ext = 0 \/ i = 0%nat) -> forall l, hash_of (bheap p) l = hash_of (bheap (block_pool c)) l).
  unshelve epose proof (for_managers_keep _ P (fun _ _ => True) c _ L out c1 Hc _ Erun) as (L' & ? & ? & _ & ?);
    [| done | by exists L'].
  intros i m extra p L0 a s' Hi Hpf HP Hok. pose proof (base_mgr_of c i m Hb Hi) as Hk. unfold lift, bind at 1.
  destruct (py_index bl (Z.of_nat i)) as [new|] eqn:Ebl; [| done].
  assert (Hbl : bl !! i = Some new).
  { unfold py_index in Ebl. cbv zeta in Ebl. rewrite !(proj2 (Z.ltb_ge (Z.of_nat i) 0)), Nat2Z.id in Ebl by lia.
    by destruct (bl !! i); simplify_eq. }
  destruct (fh_hits _ _ _ _ _ Hfr i m new Hi Hbl) as (Hhit & Hcache & Hlocal).
  destruct (fh_new _ _ _ _ _ Hfr m (list_elem_of_lookup_2 _ _ _ Hi)) as [Hnc Ht].
  assert (Hzero : ext = 0 \/ i = 0%nat).
  { destruct (fh_one _ _ _ _ _ Hfr) as [? | Hone]; [by left | right]. apply lookup_lt_Some in Hi. lia. }
  assert (Hun : unseen_request (mkMS m p) rid new local ext).
  { split; simpl; try done; [| apply Hfr |].
    - eapply hit_blocks_frame; [exact Hpf | by apply HP | done].
    - apply base_skipped; [done |]. pose proof (fh_local _ _ _ _ _ Hfr). pose proof (fh_ext _ _ _ _ _ Hfr). lia. }
  unfold allocate_new_computed_blocks, self, gets, bind at 1. simpl. intros Hrun.
  assert (Hrun' : base_allocate_new_computed_blocks rid new local ext (mkMS m p) = (Ok a, s')) by (unfold base_mgr in Hk; by destruct (kind m)).
  destruct a. destruct (computed_keep _ _ _ _ _ _ _ _ Hok Hun Hrun') as (L1 & ? & ? & Hh). exists L1. split_and!; try done.
  intros [Hz | ?] l; [| lia]. rewrite Hh by done. by apply HP.
Qed.

(** ** The pool alone *)

(** A call on the pool that keeps all references and gives no block a hash. *)
Lemma coord_pool_step c L p' :
  coord_ok c L -> pool_inv p' L -> pool_frame (block_pool c) p' ->
  (forall l, ref_of (bheap p') l = ref_of (bheap (block_pool c)) l) ->
  (forall l, l ∈ blocks (block_pool c) -> hash_of (bheap (block_pool c)) l = None -> hash_of (bheap p') l = None) ->
  coord_ok (with_managers p' (single_type_managers c) c) L.
Proof.
  intros Hc Hinv Hf Hr Hh. split; [done |]. simpl. intros i m Hi. pose proof (co_mgr _ _ Hc i m Hi) as Hok.
  split; simpl; rewrite ?(pf_blocks _ _ Hf), ?(pf_null _ _ Hf), ?(pf_caching _ _ Hf); try done; try apply Hok.
  - intros l. rewrite Hr. apply Hok.
  - intros rid j l Hj Hl Hn. destruct (mo_tail _ _ _ Hok rid j l Hj Hl Hn) as [? ?]. rewrite Hr. split; [| done].
    apply Hh; [| done]. by eapply (mo_in _ _ _ Hok), list_elem_of_lookup_2.
  - intros Hoff l HB. apply Hh; [done |]. by apply (mo_hash _ _ _ Hok).
Qed.

Lemma coord_inv_pool n c p' :
  coord_inv n c -> (forall L, pool_inv (block_pool c) L -> pool_inv p' L) -> pool_frame (block_pool c) p' ->
  (forall l, ref_of (bheap p') l = ref_of (bheap (block_pool c)) l) ->
  (forall l, l ∈ blocks (block_pool c) -> hash_of (bheap (block_pool c)) l = None -> hash_of (bheap p') l = None) ->
  coord_inv n (with_managers p' (single_type_managers c) c).
Proof. intros (L & Hc & Hb & Hn) Hi Hf Hr Hh. exists L. split_and!; [| done | done]. apply coord_pool_step; auto. apply Hi, Hc. Qed.

(** ** The steps *)

Section steps.
Context (sha256 : bytes -> bytes).

(** What the scheduler guarantees for a call of allocate_slots: numbers of tokens within the
    model length; no blocks of a cached prefix and no external tokens, or a request that has
    no blocks yet; hashes for the tokens that are cached after the allocation. *)
Record alloc_args (r : Request) (num_new hit : Z) (nc : option KVCacheBlocks) (lookahead ext : Z) (delay : bool)
    (k : KVCacheManager) : Prop := {
  aa_computed : 0 <= num_computed_tokens r + hit;
  aa_ext : 0 <= ext;
  aa_look : 0 <= lookahead;
  aa_max : num_computed_tokens r + hit + ext + num_new <= max_model_len k /\ num_computed_tokens r + hit + ext <= max_model_len k;
  aa_hits : default EmptyBlocks nc = EmptyBlocks /\ ext = 0 \/
    fresh_hits (coordinator k) (request_id r) (kv_blocks (num_kv_cache_groups k) (default EmptyBlocks nc))
      (num_computed_tokens r + hit) ext;
  aa_cache : k_enable_caching k = true -> delay = false ->
    hashes_cover r (Z.min (num_computed_tokens r + hit + ext + num_new) (num_tokens r)) k;
}.

(** A call of a public method that returns. *)
Inductive kv_step (k : KVCacheManager) : KVCacheManager -> Prop :=
  | ks_computed r out k' : get_computed_blocks r k = (Ok out, k') -> kv_step k k'
  | ks_fit r hit nc ext enc b k' : can_fit_full_sequence r hit nc ext enc k = (Ok b, k') -> kv_step k k'
  | ks_slots r num_new hit nc lookahead ext delay enc out k' :
      alloc_args r num_new hit nc lookahead ext delay k ->
      allocate_slots sha256 r num_new hit nc lookahead ext delay enc k = (Ok out, k') -> kv_step k k'
  | ks_cache r n r' k' :
      (k_enable_caching k = true -> forall m, m ∈ single_type_managers (coordinator k) ->
         can_cache (mkMS m (block_pool (coordinator k))) r n) ->
      kv_cache_blocks sha256 r n k = (Ok r', k') -> kv_step k k'
  | ks_skip rid total k' : kv_remove_skipped_blocks rid total k = (Ok tt, k') -> kv_step k k'
  | ks_sparse rid k' : free_sparse_kv rid k = (Ok tt, k') -> kv_step k k'
  | ks_free r k' : kv_free r k = (Ok tt, k') -> kv_step k k'
  | ks_evict ids k' :
      (forall i, i ∈ ids -> 0 <= i < num_gpu_blocks (block_pool (coordinator k))) ->
      kv_evict_blocks ids k = (Ok tt, k') -> kv_step k k'
  | ks_reset b k' : kv_reset_prefix_cache k = (Ok b, k') -> kv_step k k'
  | ks_common rid out k' : kv_get_num_common_prefix_blocks rid k = (Ok out, k') -> kv_step k k'
  | ks_new_ids out k' : kv_take_new_block_ids k = (Ok out, k') -> kv_step k k'
  | ks_new_step k' : kv_new_step_starts k = (Ok tt, k') -> kv_step k k'
  | ks_events ev k' : kv_take_events k = (Ok ev, k') -> kv_step k k'
  | ks_stats out k' : make_prefix_cache_stats k = (Ok out, k') -> kv_step k k'.

Lemma computed_blocks_coord r k out k' : get_computed_blocks r k = (Ok out, k') -> coordinator k' = coordinator k.
Proof.
  unfold get_computed_blocks. unfold bind at 1, get at 1. destruct (_ || _); [unfold ret; congruence |].
  unfold bind at 1, lift. destruct (coord_find_longest_cache_hit _ _ _) as [x|]; [| by intros [=]].
  unfold bind. destruct (log_stats k); [destruct (prefix_cache_stats k) |]; unfold modify, raise, ret;
    first [by intros [= <- <-] | by intros [=]].
Qed.

(** A method of the coordinator that returns. *)
Lemma on_coord_run {A} (f : CM A) k a k' :
  on_coord f k = (Ok a, k') -> exists c', f (coordinator k) = (Ok a, c') /\ k' = with_coordinator c' k.
Proof. unfold on_coord, zoom. destruct (f (coordinator k)) as [[x|] c']; intros [= <- <-]; eauto. Qed.

(** A call on every manager that keeps the tables and the pool of each. *)
Lemma coord_inv_each {A} (f : nat -> MM A) n c out c' :
  (forall i m extra p L a s', base_mgr m -> mgr_ok extra (mkMS m p) L -> f i (mkMS m p) = (Ok a, s') ->
     exists L', mgr_ok extra s' L' /\ mgr_frame extra (mkMS m p) s') ->
  for_managers f c = (Ok out, c') -> coord_inv n c -> coord_inv n c'.
Proof.
  intros Hf Hrun (L & Hc & Hb & Hn).
  unshelve epose proof (for_managers_keep f (fun _ _ => True) (fun _ _ => True) c _ L out c' Hc I Hrun) as (L' & ? & _ & _ & H2).
  { intros i m extra p L0 a s' Hi _ _ Hok Hr. destruct (Hf i m extra p L0 a s' (base_mgr_of c i m Hb Hi) Hok Hr) as (L1 & ? & ?). eauto. }
  eapply coord_inv_same; [done | exact H2 | by exists L].
Qed.

Lemma sparse_manager extra s L rid :
  mgr_ok extra s L -> base_mgr (mg s) ->
  exists s' L', free_middle_blocks rid s = (Ok tt, s') /\ mgr_ok extra s' L' /\ mgr_frame extra s s'.
Proof.
  intros Hok Hwf. unfold base_mgr in Hwf. destruct (kind (mg s)) eqn:Ek;
    try (exists s, L; unfold free_middle_blocks, self, gets, bind; rewrite Ek; by split_and!).
  destruct (free_middle_spec extra s L rid _ _ Hok Ek Hwf) as (s' & L' & ? & ? & ? & _). by exists s', L'.
Qed.

(** From one coordinator to a later one: the pool's configuration and the managers' stay. *)
Record follows (c c' : Coordinator) : Prop := {
  fo_frame : coord_frame c c';
  fo_mgrs : Forall2 same_mgr (single_type_managers c) (single_type_managers c');
}.
#[local] Instance follows_preorder : PreOrder follows.
Proof.
  split.
  - intros c. split; reflexivity.
  - intros c1 c2 c3 [? H1] [? H2]. split; [by etransitivity |]. by etransitivity.
Qed.
Lemma follows_intro c c' (R : Manager -> Manager -> Prop) :
  coord_frame c c' -> Forall2 (fun m m' => same_mgr m m' /\ R m m') (single_type_managers c) (single_type_managers c') -> follows c c'.
Proof. intros Hf H2. split; [done |]. eapply Forall2_impl; [exact H2 |]. by intros ?? [? _]. Qed.
Lemma follows_inv n c c' L : follows c c' -> coord_ok c' L -> coord_inv n c -> coord_inv n c'.
Proof.
  intros [Hf H2] Hc Hinv. eapply (coord_inv_same n c c' L (fun _ _ => True)); [done | | done].
  eapply Forall2_impl; [exact H2 |]. done.
Qed.

(** The steps up to the admission test keep a new request new. *)
Lemma fresh_after c c' rid bl local ext :
  follows c c' -> block_pool c' = block_pool c ->
  Forall2 (fun m m' => num_cached_block m' = num_cached_block m /\ (tbl (req_to_blocks m) rid = [] -> tbl (req_to_blocks m') rid = []))
    (single_type_managers c) (single_type_managers c') ->
  fresh_hits c rid bl local ext -> fresh_hits c' rid bl local ext.
Proof.
  intros [Hf Hs] Hp H2 Hfr. split; [| apply Hfr | | apply Hfr |].
  - intros m' Hm'. destruct (Forall2_elem_r _ _ _ _ H2 Hm') as (m & Hm & Hn & Ht).
    destruct (fh_new _ _ _ _ _ Hfr m Hm). split; [congruence | auto].
  - rewrite (cf_len _ _ Hf). apply Hfr.
  - intros i m' new Hi Hbl. destruct (Forall2_lookup_r _ _ _ _ _ Hs Hi) as (m & Hm & Hsm).
    destruct (fh_hits _ _ _ _ _ Hfr i m new Hm Hbl) as (? & ? & ?). rewrite Hp, (sm_caching _ _ Hsm), (sm_bs _ _ Hsm). done.
Qed.

(** The first part of allocate_slots: the blocks before the window, and the mark of a long request. *)
Lemma slots_prologue n k rid total (long : bool) len k1 k2 :
  coord_inv n (coordinator k) -> kv_remove_skipped_blocks rid total k = (Ok tt, k1) ->
  (if long then _mark_long_request rid len else ret tt) k1 = (Ok tt, k2) ->
  exists c2, k2 = with_coordinator c2 k /\ coord_inv n c2 /\ follows (coordinator k) c2 /\
    forall bl local ext, fresh_hits (coordinator k) rid bl local ext -> fresh_hits c2 rid bl local ext.
Proof.
  intros Hinv Hrun1 Hrun2. pose proof Hinv as (L & Hc & Hb & _).
  apply on_coord_run in Hrun1 as (c1 & Hrun1 & ->).
  destruct (coord_skip_keep _ L rid total c1 Hc Hb Hrun1) as (L1 & Hc1 & Hf1 & Hp1 & H1).
  assert (Hfo1 : follows (coordinator k) c1) by exact (follows_intro _ _ _ Hf1 H1).
  assert (Hfr1 : forall bl local ext, fresh_hits (coordinator k) rid bl local ext -> fresh_hits c1 rid bl local ext).
  { intros bl local ext Hfr. eapply fresh_after; [done | | | done].
    - apply Hp1. intros m Hm. by apply Hfr.
    - eapply Forall2_impl; [exact H1 |]. by intros ?? [_ ?]. }
  pose proof (follows_inv n _ _ _ Hfo1 Hc1 Hinv) as Hinv1. destruct long.
  2: { injection Hrun2 as <-. by exists c1. }
  unfold _mark_long_request, bind in Hrun2. destruct (on_coord _ _) as [[out|] k2'] eqn:E; [| done]. injection Hrun2 as <-.
  apply on_coord_run in E as (c2 & Hm & ->). simpl in Hm.
  destruct (coord_mark_keep c1 L1 rid len out c2 Hc1 Hm) as (L2 & Hc2 & Hf2 & Hp2 & H2).
  assert (Hfo2 : follows c1 c2) by exact (follows_intro _ _ _ Hf2 H2).
  exists c2. split_and!; [done | exact (follows_inv n _ _ _ Hfo2 Hc2 Hinv1) | by etransitivity |]. intros bl local ext Hfr.
  eapply fresh_after; [exact Hfo2 | done | | by apply Hfr1].
  eapply Forall2_impl; [exact H2 |]. intros ?? [_ [? ->]]. done.
Qed.

Lemma div_le_cdiv a b d : 0 < d -> a <= b -> a / d <= cdiv b d.
Proof. intros Hd Hab. pose proof (cdiv_bounds b d Hd). pose proof (Z.mul_div_le a d Hd). nia. Qed.

(** Caching keeps the managers' kinds. *)
Lemma cached_inv n c c' L r num :
  coord_ok c' L -> coord_frame c c' -> Forall2 (cached_upto r num) (single_type_managers c) (single_type_managers c') ->
  coord_inv n c -> coord_inv n c'.
Proof.
  intros Hc' Hf H2 (_ & _ & Hb & Hn). exists L. split_and!; [done | | by rewrite (cf_len _ _ Hf)].
  apply Forall_lookup. intros i m2 Hi. destruct (Forall2_lookup_r _ _ _ _ _ H2 Hi) as (m1 & Hm1 & _ & _ & Hk).
  unfold base_mgr. rewrite Hk. exact (base_mgr_of c i m1 Hb Hm1).
Qed.

(** The last part: new blocks, then caching. *)
Lemma slots_epilogue n k c r needed main enc (caching : bool) to_cache out k' :
  coord_inv n c -> follows (coordinator k) c -> to_cache <= needed -> (caching = true -> hashes_cover r to_cache k) ->
  (let* new_blocks := on_coord (coord_allocate_new_blocks (request_id r) needed main enc) in
   if negb caching then ret (Some (create_kv_cache_blocks new_blocks), r)
   else let* r' := on_coord (coord_cache_blocks sha256 r to_cache) in
        ret (Some (create_kv_cache_blocks new_blocks), r')) (with_coordinator c k) = (Ok out, k') ->
  coord_inv n (coordinator k').
Proof.
  intros Hinv Hfo Hle Hhash. pose proof Hinv as (L & Hc & Hb & _). unfold bind at 1.
  destruct (on_coord _ _) as [[K|] k1] eqn:E; [| done]. apply on_coord_run in E as (c1 & Hrun & ->). simpl in Hrun.
  destruct (coord_alloc_keep c L (request_id r) needed main enc K c1 Hc Hb Hrun) as (L1 & Hc1 & Hf1 & H1).
  assert (Hfo1 : follows c c1) by exact (follows_intro _ _ _ Hf1 H1). pose proof (follows_inv n _ _ _ Hfo1 Hc1 Hinv) as Hinv1.
  destruct caching; simpl; [| by intros [= _ <-]]. specialize (Hhash eq_refl). destruct Hhash as [Hon Hhbs Hmgr].
  assert (Hfo2 : follows (coordinator k) c1) by (by etransitivity).
  destruct (coord_cache_blocks_spec sha256 c1 L1 r to_cache Hc1) as (r' & c2 & Hrun2 & _ & Hc2 & Hf2 & H2).
  { intros m1 [i Hi]%list_elem_of_lookup. destruct (Forall2_lookup_r _ _ _ _ _ (fo_mgrs _ _ Hfo2) Hi) as (m & Hm & Hsm).
    destruct (Hmgr m (list_elem_of_lookup_2 _ _ _ Hm)) as (Hmod & Hgid & Hh).
    destruct (Forall2_lookup_r _ _ _ _ _ H1 Hi) as (m0 & Hm0 & _ & Hcov).
    pose proof (mo_bs _ _ _ (co_mgr _ _ Hc1 i m1 Hi)) as Hbs. simpl in Hbs. pose proof (cf_pool _ _ (fo_frame _ _ Hfo2)) as Hpf.
    split.
    - destruct Hinv1 as (_ & _ & Hb1 & _). pose proof (base_mgr_of c1 i m1 Hb1 Hi). unfold caches_base, base_mgr in *. by destruct (kind m1).
    - pose proof (div_le_cdiv to_cache needed (block_size m1) Hbs Hle).
      split; simpl; rewrite ?(pf_caching _ _ Hpf), ?(pf_hbs _ _ Hpf); [done | done | | | |];
        rewrite ?(sm_bs _ _ Hsm), ?(sm_gid _ _ Hsm); try done. rewrite <- (sm_bs _ _ Hsm). unfold covers in Hcov. lia. }
  unfold bind, on_coord, zoom. simpl coordinator. rewrite Hrun2. intros [= _ <-]. simpl.
  exact (cached_inv n _ _ L1 r to_cache Hc2 Hf2 H2 Hinv1).
Qed.

Lemma slots_step n r num_new hit nc lookahead ext delay enc k out k' :
  coord_inv n (coordinator k) -> alloc_args r num_new hit nc lookahead ext delay k ->
  allocate_slots sha256 r num_new hit nc lookahead ext delay enc k = (Ok out, k') -> coord_inv n (coordinator k').
Proof.
  intros Hinv Hargs. unfold allocate_slots. destruct (_ && _); [done |]. unfold bind at 1, get at 1. cbv zeta.
  pose proof (aa_max _ _ _ _ _ _ _ _ Hargs) as [Hmax1 Hmax2]. rewrite (Z.min_l (_ + ext) (max_model_len k)) by done.
  set (local := num_computed_tokens r + hit) in *. set (bl := kv_blocks _ _).
  set (needed := Z.min (local + ext + num_new + lookahead) (max_model_len k)).
  unfold bind at 1. destruct (on_coord (coord_remove_skipped_blocks _ _) k) as [[[]|] k1] eqn:E1; [| done].
  unfold bind at 1. destruct ((if nelssa_long_mask r then _mark_long_request (request_id r) (num_tokens r) else ret tt) k1) as [[[]|] k2] eqn:E2; [| done].
  destruct (slots_prologue n k _ _ _ _ k1 k2 Hinv E1 E2) as (c2 & -> & Hinv2 & Hfo2 & Hfresh). clear E1 E2.
  pose proof Hinv2 as (L2 & Hc2 & Hb2 & _).
  unfold bind at 1. destruct (on_coord _ _) as [[need|] k3] eqn:E3; [| done]. apply on_coord_run in E3 as (c3 & E3 & ->).
  simpl in E3. apply coord_estimate_id in E3 as ->; [| done].
  change (with_coordinator c2 (with_coordinator c2 k)) with (with_coordinator c2 k).
  unfold bind at 1, get at 1. simpl coordinator. destruct (_ <? need); [by intros [= _ <-] |].
  set (hits := match default EmptyBlocks nc with EmptyBlocks => false | Blocks _ => true end || (0 <? ext)).
  unfold bind at 1.
  destruct ((if hits then on_coord (coord_allocate_new_computed_blocks (request_id r) bl local ext) else ret tt)
    (with_coordinator c2 k)) as [[[]|] k4] eqn:E4; [| done].
  assert (Hc4 : exists c4, k4 = with_coordinator c4 k /\ coord_inv n c4 /\ follows (coordinator k) c4).
  { destruct hits eqn:Eh; [| injection E4 as <-; by exists c2]. apply on_coord_run in E4 as (c4 & E4 & ->). simpl in E4.
    destruct (aa_hits _ _ _ _ _ _ _ _ Hargs) as [[He Hz] | Hfr]; [unfold hits in Eh; by rewrite He, Hz in Eh |].
    destruct (coord_computed_keep c2 L2 _ bl local ext c4 Hc2 Hb2 (Hfresh _ _ _ Hfr) E4) as (L4 & Hc4 & Hf4 & H4).
    assert (Hfo4 : follows c2 c4) by exact (follows_intro _ _ _ Hf4 H4).
    exists c4. split_and!; [done | exact (follows_inv n _ _ _ Hfo4 Hc4 Hinv2) | by etransitivity]. }
  destruct Hc4 as (c4 & -> & Hinv4 & Hfo4). intros Hrun.
  apply (slots_epilogue n k c4 r needed (local + ext + num_new) enc (k_enable_caching k && negb delay)
    (Z.min (local + ext + num_new) (num_tokens r)) out k' Hinv4 Hfo4).
  - pose proof (aa_look _ _ _ _ _ _ _ _ Hargs). unfold needed. lia.
  - intros [Hon Hd]%andb_true_iff. apply (aa_cache _ _ _ _ _ _ _ _ Hargs); [done | by destruct delay].
  - rewrite <- Hrun. simpl k_enable_caching. by destruct (k_enable_caching k), delay.
Qed.

(** Methods of the pool. *)
Lemma on_kpool_run {A} (f : M BlockPool A) k a k' :
  on_kpool f k = (Ok a, k') -> exists p', f (block_pool (coordinator k)) = (Ok a, p') /\
    k' = with_coordinator (with_managers p' (single_type_managers (coordinator k)) (coordinator k)) k.
Proof.
  intros H. apply on_coord_run in H as (c' & H & ->). unfold zoom in H.
  destruct (f (block_pool (coordinator k))) as [[x|] p']; [| done]. injection H as <- <-. eauto.
Qed.

Lemma evict_step n ids k k' :
  coord_inv n (coordinator k) -> (forall i, i ∈ ids -> 0 <= i < num_gpu_blocks (block_pool (coordinator k))) ->
  kv_evict_blocks ids k = (Ok tt, k') -> coord_inv n (coordinator k').
Proof.
  intros Hinv Hids Hrun. apply on_kpool_run in Hrun as (p' & Hrun & ->). pose proof Hinv as (L & Hc & _).
  destruct (evict_blocks_spec ids L _ (co_pool _ _ Hc) Hids) as (q & Hq & _ & Hf & Hr & Hh). rewrite Hrun in Hq. injection Hq as <-.
  simpl. apply coord_inv_pool; [done | | done | done |].
  - intros L' HL'. destruct (evict_blocks_spec ids L' _ HL' Hids) as (q & Hq & ? & _). rewrite Hrun in Hq. by injection Hq as <-.
  - intros l HB Hn. rewrite Hh by done. by case_decide.
Qed.

Lemma reset_pool_step n k b k1 :
  coord_inv n (coordinator k) -> on_kpool reset_prefix_cache k = (Ok b, k1) -> coord_inv n (coordinator k1).
Proof.
  intros Hinv Hrun. apply on_kpool_run in Hrun as (p' & Hrun & ->). pose proof Hinv as (L & Hc & _).
  destruct (reset_prefix_cache_spec _ L (co_pool _ _ Hc)) as (q & Hq & _ & Hf & Hr & Hh & _). rewrite Hrun in Hq. injection Hq as _ <-.
  simpl. apply coord_inv_pool; [done | | done | done |].
  - intros L' HL'. destruct (reset_prefix_cache_spec _ L' HL') as (q & Hq & ? & _). rewrite Hrun in Hq. by injection Hq as _ <-.
  - intros l HB Hn. rewrite Hh by done. by case_decide.
Qed.

Lemma reset_step n k b k' : coord_inv n (coordinator k) -> kv_reset_prefix_cache k = (Ok b, k') -> coord_inv n (coordinator k').
Proof.
  intros Hinv. unfold kv_reset_prefix_cache, bind at 1. destruct (on_kpool _ k) as [[ok|] k1] eqn:E; [| done].
  pose proof (reset_pool_step n k ok k1 Hinv E) as Hinv1. destruct ok; simpl; [| by intros [= _ <-]].
  unfold bind, get. destruct (log_stats k1); [destruct (prefix_cache_stats k1) |]; unfold modify, raise, ret;
    first [by intros [= _ <-] | by intros [=]].
Qed.

Lemma events_step n k ev k' : coord_inv n (coordinator k) -> kv_take_events k = (Ok ev, k') -> coord_inv n (coordinator k').
Proof.
  intros Hinv Hrun. apply on_kpool_run in Hrun as (p' & Hrun & ->). simpl.
  assert (Hp : p' = block_pool (coordinator k) \/ exists e, p' = with_events e (block_pool (coordinator k))).
  { unfold take_events, bind, get in Hrun. destruct (enable_kv_cache_events _); unfold modify, ret in Hrun;
      injection Hrun as _ <-; eauto. }
  destruct Hp as [-> | [e ->]]; apply coord_inv_pool; try done.
  intros L [Hcore Hrefs]. split; [by apply core_events | done].
Qed.

Lemma fit_step k r hit nc ext enc b k' :
  Forall base_mgr (single_type_managers (coordinator k)) ->
  can_fit_full_sequence r hit nc ext enc k = (Ok b, k') -> coordinator k' = coordinator k.
Proof.
  intros Hb. unfold can_fit_full_sequence, bind at 1, get at 1. cbv zeta. unfold bind at 1.
  destruct (on_coord _ k) as [[x|] k1] eqn:E; [| done]. apply on_coord_run in E as (c1 & E & ->).
  apply coord_estimate_id in E as ->; [| done]. unfold bind, get, ret. by intros [= _ <-].
Qed.

(** The methods that only touch bookkeeping of the managers. *)
Lemma common_step n rid k out k' :
  coord_inv n (coordinator k) -> kv_get_num_common_prefix_blocks rid k = (Ok out, k') -> coord_inv n (coordinator k').
Proof.
  intros Hinv Hrun. apply on_coord_run in Hrun as (c' & Hrun & ->). simpl.
  unfold coord_get_num_common_prefix_blocks, bind at 1, get in Hrun.
  assert (Hf : forall out, for_managers (fun _ => get_num_common_prefix_blocks rid) (coordinator k) = (Ok out, c') -> coord_inv n c').
  { intros out'. intros H. eapply coord_inv_each; [| exact H | exact Hinv]. intros i0 m extra p L a s' _ Hok.
    unfold get_num_common_prefix_blocks, self, gets, bind at 1. cbn [mg].
    destruct (blocks_of_spec extra (mkMS m p) L rid Hok) as (s1 & Hb & ? & ? & _).
    destruct (kind m); unfold bind; rewrite ?Hb; unfold ret; intros [= _ <-]; exists L; (split; [done | first [done | reflexivity]]). }
  destruct (coord_class (coordinator k)); [by injection Hrun as _ <- | by eapply Hf | by eapply Hf].
Qed.

Lemma new_ids_step n k out k' :
  coord_inv n (coordinator k) -> kv_take_new_block_ids k = (Ok out, k') -> coord_inv n (coordinator k').
Proof.
  intros Hinv. unfold kv_take_new_block_ids, bind. destruct (on_coord _ k) as [[ids|] k1] eqn:E; [| done]. intros [= _ <-].
  apply on_coord_run in E as (c' & E & ->). eapply coord_inv_each; [| exact E | exact Hinv].
  intros i0 m extra p L a s' _ Hok. unfold take_new_block_ids, self, gets, with_mg, modify, bind, ret. intros [= _ <-]. exists L.
  by apply mgr_ok_fields.
Qed.

Lemma new_step_step n k k' :
  coord_inv n (coordinator k) -> kv_new_step_starts k = (Ok tt, k') -> coord_inv n (coordinator k').
Proof.
  intros Hinv Hrun. apply on_coord_run in Hrun as (c' & Hrun & ->). unfold coord_new_step_starts, bind in Hrun.
  destruct (for_managers _ _) as [[ids|] c1] eqn:E; [| done]. injection Hrun as <-. eapply coord_inv_each; [| exact E | exact Hinv].
  intros i0 m extra p L a s' Hk Hok. unfold new_step_starts, with_mg, modify. intros [= _ <-]. exists L. cbn [mg pool].
  unfold base_mgr in Hk. destruct (kind m); by split.
Qed.

Lemma kv_step_inv n k k' : coord_inv n (coordinator k) -> kv_step k k' -> coord_inv n (coordinator k').
Proof.
  intros Hinv Hstep. pose proof Hinv as (L & Hc & Hb & _).
  destruct Hstep as [r out k' Hrun | r hit nc ext enc b k' Hrun | | r num r' k' Hcan Hrun | rid t k' Hrun | rid k' Hrun | r k' Hrun | | | | | | | out k' Hrun].
  - by rewrite (computed_blocks_coord r k out k' Hrun).
  - by rewrite (fit_step k r hit nc ext enc b k' Hb Hrun).
  - by eapply slots_step.
  - unfold kv_cache_blocks, bind, get in Hrun. destruct (k_enable_caching k); [| by injection Hrun as _ <-].
    apply on_coord_run in Hrun as (c' & Hrun & ->). specialize (Hcan eq_refl).
    destruct (coord_cache_blocks_spec sha256 (coordinator k) L r num Hc) as (r2 & c2 & Hrun2 & _ & Hc2 & Hf2 & H2).
    { intros m Hm. split; [| by apply Hcan]. apply list_elem_of_lookup in Hm as [i Hi].
      pose proof (base_mgr_of _ i m Hb Hi). unfold caches_base, base_mgr in *. by destruct (kind m). }
    rewrite Hrun in Hrun2. injection Hrun2 as _ <-. exact (cached_inv n _ _ L r num Hc2 Hf2 H2 Hinv).
  - apply on_coord_run in Hrun as (c' & Hrun & ->). destruct (coord_skip_keep _ L rid t c' Hc Hb Hrun) as (L' & ? & _ & _ & H2).
    exact (coord_inv_same n _ _ L' _ H H2 Hinv).
  - unfold free_sparse_kv, bind in Hrun. destruct (on_coord _ k) as [[x|] k1] eqn:E; [| done]. injection Hrun as <-.
    apply on_coord_run in E as (c' & E & ->). eapply coord_inv_each; [| exact E | exact Hinv].
    intros i0 m extra p L0 a s' Hm Hok Hr. destruct (sparse_manager extra (mkMS m p) L0 rid Hok Hm) as (s1 & L1 & Hr1 & ? & ?).
    cbv beta in Hr. rewrite Hr in Hr1. injection Hr1 as _ <-. eauto.
  - apply on_coord_run in Hrun as (c' & Hrun & ->). unfold coord_free, bind in Hrun.
    destruct (for_managers _ _) as [[x|] c1] eqn:E; [| done]. injection Hrun as <-. eapply coord_inv_each; [| exact E | exact Hinv].
    intros i0 m extra p L0 a s' _ Hok Hr. destruct (free_spec extra (mkMS m p) L0 (request_id r) Hok) as (s1 & L1 & Hr1 & ? & ? & _).
    cbv beta in Hr. rewrite Hr in Hr1. injection Hr1 as _ <-. eauto.
  - by eapply evict_step.
  - by eapply reset_step.
  - by eapply common_step.
  - by eapply new_ids_step.
  - by eapply new_step_step.
  - by eapply events_step.
  - unfold make_prefix_cache_stats, bind, get in Hrun. destruct (negb (log_stats k)); by injection Hrun as _ <-.
Qed.
End steps.

Lemma build_managers_base gs batched mml caching dcp pcp nelssa : forall gid p ms p',
  Forall (base_group nelssa) gs -> build_managers gs gid batched mml caching dcp pcp nelssa p = (Ok ms, p') -> Forall base_mgr ms.
Proof.
  induction gs as [|g gs IH]; intros gid p ms p' Hall; simpl; [by intros [= <- _] |]. apply Forall_cons in Hall as [[[_ Hs] Hg] Hall].
  unfold bind at 1. destruct (get_manager_for_kv_cache_spec _ _ _ _ _ _ _ _ p) as [[m|] p1] eqn:Em; [| done].
  unfold bind at 1. destruct (build_managers gs _ _ _ _ _ _ _ p1) as [[ms'|] p2] eqn:E; [| done]. intros [= <- _].
  constructor; [| by eapply IH]. unfold get_manager_for_kv_cache_spec, bind, get in Em. unfold base_mgr.
  destruct nelssa as [[h t]|]; [by injection Em as <- _ |]. specialize (Hs eq_refl).
  unfold manager_class in Em. destruct (spec_class (kv_cache_spec g)); try done; by injection Em as <- _.
Qed.

Lemma coordinator_base cfg mml batched eagle caching ev dcp pcp hbs ui c :
  Forall (base_group (nelssa_config cfg)) (kv_cache_groups cfg) ->
  get_kv_cache_coordinator cfg mml batched eagle caching ev dcp pcp hbs ui = Ok c -> coord_inv (length (kv_cache_groups cfg)) c.
Proof.
  intros Hg Hc. assert (Hp : Forall (plain_group (nelssa_config cfg)) (kv_cache_groups cfg)).
  { eapply Forall_impl; [exact Hg |]. by intros ? [? _]. }
  destruct (coordinator_initial_ok _ _ _ _ _ _ _ _ _ _ _ Hp Hc) as (Hok & _ & Hlen). eexists. split_and!; [exact Hok | | done].
  unfold get_kv_cache_coordinator in Hc. destruct (new_BlockPool _ _ _ _ _) as [p|]; [| done]. cbv zeta in Hc. simpl rbind in Hc.
  destruct (build_managers _ _ _ _ _ _ _ _ p) as [[ms|] p'] eqn:Eb; [| done]. apply build_managers_base in Eb; [| done].
  destruct (negb caching); [by injection Hc as <- |].
  destruct (kv_cache_groups cfg) as [|g [|g' gs]] eqn:Eg; unfold rbind, rassert in Hc;
    repeat match type of Hc with context [if ?b then Ok tt else _] => destruct b; [| done] end; by injection Hc as <-.
Qed.

(** The reference count of a block is the number of table entries that hold it. *)
Lemma coord_refs c L l :
  coord_ok c L -> single_type_managers c <> [] -> l ∈ blocks (block_pool c) -> l <> null_block (block_pool c) ->
  ref_of (bheap (block_pool c)) l = total_held (single_type_managers c) l.
Proof.
  intros Hc Hne HB Hn. destruct (single_type_managers c) as [|m ms] eqn:E; [done |].
  assert (Hm : single_type_managers c !! 0%nat = Some m) by (by rewrite E).
  pose proof (mo_ref _ _ _ (co_mgr _ _ Hc 0%nat m Hm) l HB Hn) as Hr. simpl in Hr. rewrite Hr.
  rewrite <- E. symmetry. apply (total_held_split _ _ _ l Hm).
Qed.

(** C3 (invariant): for any groups of full, sliding-window, chunked-local and NELSSA attention,
    in every state reachable from a new KV-cache manager by calls of its methods that return
    (lookup, admission test, allocation with or without cached blocks, with long requests
    marked, caching, removal of skipped blocks, release of the middle blocks of long requests,
    freeing, eviction by id, reset of the prefix cache, the counters and events), the reference
    count of every block is the number of block-table entries that hold it, over all groups
    and requests, and the free list holds exactly the blocks no table holds. The callers are
    assumed to pass cached blocks and external tokens only for a request without blocks,
    external tokens only with one group, and cached blocks that are in the prefix cache;
    numbers of tokens within the model length; for tokens to cache, requests with their hashes and
    tables that cover them; and block ids of the pool for an eviction ([alloc_args], [kv_step]). *)
Theorem kv_reachable_accounting sha256 cfg mml hbs batched caching eagle logs ev dcp pcp ui k0 k :
  Forall (base_group (nelssa_config cfg)) (kv_cache_groups cfg) -> kv_cache_groups cfg <> [] ->
  new_KVCacheManager cfg mml hbs batched caching eagle logs ev dcp pcp ui = Ok k0 -> rtc (kv_step sha256) k0 k ->
  let c := coordinator k in
  exists L, coord_ok c L /\ get_num_free_blocks (block_pool c) = zlen L /\
    forall l, l ∈ blocks (block_pool c) -> l <> null_block (block_pool c) ->
      ref_of (bheap (block_pool c)) l = total_held (single_type_managers c) l /\
      (l ∈ L <-> total_held (single_type_managers c) l = 0).
Proof.
  intros Hg Hne Hnew Hsteps c. unfold new_KVCacheManager in Hnew.
  destruct (get_kv_cache_coordinator cfg mml (default mml batched) eagle caching ev dcp pcp hbs ui) as [c0|] eqn:Ec; [| done].
  injection Hnew as Hk0. set (n := length (kv_cache_groups cfg)).
  assert (Hinv : coord_inv n (coordinator k)).
  { assert (H0 : coord_inv n (coordinator k0)) by (subst k0; exact (coordinator_base _ _ _ _ _ _ _ _ _ _ _ Hg Ec)).
    clear -Hsteps H0. induction Hsteps as [|x y z Hxy _ IH]; [done |]. by eapply IH, kv_step_inv. }
  destruct Hinv as (L & HL & _ & Hn). exists L. pose proof (co_pool _ _ HL) as Hpool. destruct Hpool as [Hcore Hrefs].
  assert (Hm : single_type_managers c <> []).
  { intros E. unfold c in E. rewrite E in Hn. unfold n in Hn. by destruct (kv_cache_groups cfg). }
  split_and!; [done | apply (pool_free_count Hcore) |].
  intros l HB Hnl. rewrite <- (coord_refs c L l HL Hm HB Hnl). split; [done |]. symmetry. apply (Hrefs l HB Hnl).
Qed.

(** A run: a long request is allocated and its middle blocks released; a second request with
    the same prompt takes the cached blocks and one new block. *)
Definition sparse_cfg : KVCacheConfig := mkConfig 10 [mkGroup (mkSpec FullAttentionSpec 16 0) false] (Some (16, 16)).
Definition long_request (rid : string) : Request :=
  mkRequest rid 0 0 None None None WAITING None 1 (Some (replicate 64 5)) None ∅ 64 [] (replicate 64 5) 0 [] None [] 0 true
    [[1]; [2]; [3]; [4]] false.
Definition sparse_kv : KVCacheManager := Eval vm_compute in
  match new_KVCacheManager sparse_cfg 100 16 None true false false false 1 1 false as x
    return match x with Ok _ => KVCacheManager | Err _ => unit end with Ok k => k | Err _ => tt end.
Definition after {A} (f : KM A) (k : KVCacheManager) : KVCacheManager := (f k).2.
Definition sparse_kv1 : KVCacheManager := after (allocate_slots (fun x => x) (long_request "a") 64 0 None 0 0 false 0) sparse_kv.
Definition sparse_kv2 : KVCacheManager := after (free_sparse_kv "a") sparse_kv1.
Definition sparse_hits : KVCacheBlocks := Blocks [[1; 2; 3]%nat].
Definition sparse_kv3 : KVCacheManager :=
  after (allocate_slots (fun x => x) (long_request "b") 16 48 (Some sparse_hits) 0 0 false 0) sparse_kv2.

Lemma after_run {A} (f : KM A) k : match (f k).1 with Ok _ => True | Err _ => False end -> exists a, f k = (Ok a, after f k).
Proof. unfold after. destruct (f k) as [[a|] k']; [eauto | done]. Qed.

Lemma hashes_cover_dec r n k :
  enable_caching (block_pool (coordinator k)) = true -> hash_block_size (block_pool (coordinator k)) = 16 ->
  Forall (fun m => block_size m mod 16 = 0 /\ 0 <= kv_cache_group_id m < 2 ^ 32 /\
    n / block_size m <= zlen (bh_list (hash_list 16 (block_size m) r))) (single_type_managers (coordinator k)) ->
  hashes_cover r n k.
Proof. intros Hon Hh Hall. split; rewrite ?Hh; [done | lia |]. by apply Forall_forall. Qed.

Lemma hit_blocks_dec p ts :
  Forall (fun l => l ∈ blocks p /\ (l <> null_block p -> is_Some (hash_of (bheap p) l))) ts ->
  NoDup (filter (fun l => l <> null_block p) ts) -> hit_blocks p ts.
Proof. intros Hall Hnd. rewrite Forall_forall in Hall. split; [| done |]; intros l Hl; by apply Hall. Qed.

Lemma sparse_args_a : alloc_args (long_request "a") 64 0 None 0 0 false sparse_kv.
Proof.
  split; [done | done | done | done | by left |]. intros _ _. apply hashes_cover_dec; [done | done |].
  apply (bool_decide_unpack _). vm_compute. exact I.
Qed.

Lemma sparse_fresh_b : fresh_hits (coordinator sparse_kv2) "b" [[1; 2; 3]%nat] 48 0.
Proof.
  split; [| done | by left | done |].
  - apply Forall_forall, (bool_decide_unpack _). vm_compute. exact I.
  - intros [|i] m new Hm Hnew; [| done]. injection Hnew as <-.
    assert (Hall : Forall (fun m => m_enable_caching m = true /\ block_size m = 16) (single_type_managers (coordinator sparse_kv2))).
    { apply (bool_decide_unpack _). vm_compute. exact I. }
    destruct (proj1 (Forall_lookup _ _) Hall 0%nat m Hm) as [-> ->]. split_and!; [| done | done].
    apply hit_blocks_dec; apply (bool_decide_unpack _); vm_compute; exact I.
Qed.

Lemma sparse_args_b : alloc_args (long_request "b") 16 48 (Some sparse_hits) 0 0 false sparse_kv2.
Proof.
  split; [done | done | done | | right; exact sparse_fresh_b |].
  - split; vm_compute; discriminate.
  - intros _ _. apply hashes_cover_dec; [vm_compute; reflexivity | vm_compute; reflexivity |].
    apply (bool_decide_unpack _). vm_compute. exact I.
Qed.

Lemma sparse_run : rtc (kv_step (fun x => x)) sparse_kv sparse_kv3.
Proof.
  eapply rtc_l; [| eapply rtc_l; [| eapply rtc_l; [| reflexivity]]].
  - destruct (after_run (allocate_slots (fun x => x) (long_request "a") 64 0 None 0 0 false 0) sparse_kv) as [out Hrun];
      [vm_compute; exact I |]. exact (ks_slots _ _ _ _ _ _ _ _ _ _ _ _ sparse_args_a Hrun).
  - destruct (after_run (free_sparse_kv "a") sparse_kv1) as [[] Hrun]; [vm_compute; exact I |]. exact (ks_sparse _ _ _ _ Hrun).
  - destruct (after_run (allocate_slots (fun x => x) (long_request "b") 16 48 (Some sparse_hits) 0 0 false 0) sparse_kv2)
      as [out Hrun]; [vm_compute; exact I |]. exact (ks_slots _ _ _ _ _ _ _ _ _ _ _ _ sparse_args_b Hrun).
Qed.

Lemma sparse_cfg_base : Forall (base_group (nelssa_config sparse_cfg)) (kv_cache_groups sparse_cfg).
Proof. by repeat constructor. Qed.

(** In the run the released middle blocks 2 and 3 are reused and block 1 is shared. *)
Lemma kv_reachable_accounting_witness :
  get_block_ids (bheap (block_pool (coordinator sparse_kv3))) 1 false (kv_get_blocks "a" sparse_kv3) = Some [[1; 0; 0; 4]] /\
  get_block_ids (bheap (block_pool (coordinator sparse_kv3))) 1 false (kv_get_blocks "b" sparse_kv3) = Some [[1; 2; 3; 5]] /\
  total_held (single_type_managers (coordinator sparse_kv3)) 1%nat = 2 /\
  ref_of (bheap (block_pool (coordinator sparse_kv3))) 1%nat = total_held (single_type_managers (coordinator sparse_kv3)) 1%nat.
Proof.
  refine (conj _ (conj _ (conj _ _))); [vm_compute; reflexivity | vm_compute; reflexivity | vm_compute; reflexivity |].
  assert (Hnew : new_KVCacheManager sparse_cfg 100 16 None true false false false 1 1 false = Ok sparse_kv) by (vm_compute; reflexivity).
  destruct (kv_reachable_accounting (fun x => x) sparse_cfg 100 16 None true false false false 1 1 false sparse_kv sparse_kv3
    sparse_cfg_base ltac:(discriminate) Hnew sparse_run) as (L & _ & _ & Hall).
  refine (proj1 (Hall 1%nat _ _)); [apply (bool_decide_unpack _); vm_compute; exact I | vm_compute; discriminate].
Defined.

(** ** Freeing *)

(** C32 (safety): freeing a request gives up its blocks in every group and keeps the accounting;
    once no request holds blocks, all blocks but the null block are free again (no leak). *)
Theorem free_releases_all c L rid :
  coord_ok c L -> single_type_managers c <> [] ->
  exists c' L', coord_free rid c = (Ok tt, c') /\ coord_ok c' L' /\
    (forall i m, single_type_managers c !! i = Some m -> exists m', single_type_managers c' !! i = Some m' /\
       req_to_blocks m' = delete rid (req_to_blocks m)) /\
    ((forall m q, m ∈ single_type_managers c -> q <> rid -> tbl (req_to_blocks m) q = []) ->
     get_num_free_blocks (block_pool c') = num_gpu_blocks (block_pool c') - 1).
Proof.
  intros Hc Hne. destruct (coord_free_spec c L rid Hc) as (c' & L' & Hrun & Hc' & Hf & Hm).
  exists c', L'. split_and!; [done | done | done |]. intros Hempty. apply (no_leak c' L' Hc').
  - intros E. pose proof (cf_len _ _ Hf) as Hl. rewrite E in Hl. by destruct (single_type_managers c).
  - intros i m' q Hi. pose proof (lookup_lt_Some _ _ _ Hi) as Hlt. rewrite (cf_len _ _ Hf) in Hlt.
    destruct (lookup_lt_is_Some_2 _ _ Hlt) as [m Hmi]. destruct (Hm i m Hmi) as (m2 & Hm2 & Et).
    rewrite Hi in Hm2. injection Hm2 as <-. rewrite Et, tbl_delete. case_decide; [done |].
    apply Hempty; [by eapply list_elem_of_lookup_2 | done].
Qed.

Lemma free_releases_all_witness :
  exists c c', coord_ok c (seq 1 5) /\ coord_free "r" c = (Ok tt, c') /\
    get_num_free_blocks (block_pool c') = num_gpu_blocks (block_pool c') - 1.
Proof.
  destruct demo_coord as (c & _ & Hok & Hlen & Hms).
  destruct (free_releases_all c (seq 1 5) "r" Hok) as (c' & L' & Hrun & _ & _ & Hfree).
  - intros E. rewrite E in Hlen. discriminate Hlen.
  - exists c, c'. split_and!; [exact Hok | exact Hrun |]. apply Hfree. intros m q Hm _.
    destruct (proj1 (Forall_forall _ _) Hms m Hm) as (Et & _). rewrite Et. reflexivity.
Defined.

(** ** Allocation *)

(** C11 (functional): allocate_slots for a request that is not marked long, without new cached blocks
    and external tokens, over any number of groups that allocate by the base method (no
    Mamba alignment, no cross attention) and whose admission cap is not below the blocks needed:
    with [n] the blocks that all groups together lack for the tokens plus lookahead, the
    call returns None when fewer than [n] blocks are free (after the blocks before the windows
    were given up), and otherwise it cannot fail: every group's table is extended by exactly
    the missing blocks, covers the tokens, the full blocks are cached, and the tables of other
    requests and the accounting are kept. *)
Theorem allocate_slots_exact sha256 r num_new lookahead enc delay k L :
  slots_pre r num_new lookahead k L ->
  (k_enable_caching k = true -> delay = false -> slots_cache r num_new k) ->
  exists c1 L1, coord_ok c1 L1 /\ zlen L <= zlen L1 /\
    Forall2 (same_layout (request_id r)) (single_type_managers (coordinator k)) (single_type_managers c1) /\
    let run := allocate_slots sha256 r num_new 0 None lookahead 0 delay enc k in
    if zlen L1 <? sum_over (need_of (request_id r) (slots_needed r num_new lookahead k)) (single_type_managers (coordinator k))
    then run = (Ok (None, r), with_coordinator c1 k)
    else exists Ks r' k', run = (Ok (Some (create_kv_cache_blocks Ks), r'), k') /\
           slots_result r num_new lookahead k Ks r' k'.
Proof. apply allocate_slots_spec. Qed.

(** A model with one full-attention group, for a pool where nothing is allocated. *)
Definition demo_manager (p : BlockPool) : Manager := new_manager FullAttention 16 true None true 0 1 1 p.
Definition demo_kv (p : BlockPool) : KVCacheManager :=
  mkKVM 100 true false false None
    (mkCoord Unitary (mkConfig 4 [mkGroup (mkSpec FullAttentionSpec 16 0) false] None) 100 true p [] [demo_manager p] 16 1 1 [] 0 []) 1.

Lemma demo_kv_ok p L :
  pool_inv p L -> (forall l, l ∈ blocks p -> ref_of (bheap p) l = 0) -> enable_caching p = true -> coord_ok (coordinator (demo_kv p)) L.
Proof.
  intros Hinv Hr Hc. apply blank_coord_ok; simpl; [done | | done | by rewrite Hc].
  repeat constructor.
Qed.

Lemma allocate_slots_exact_witness :
  exists p Ks r' k' K, pool_inv p [1; 2; 3]%nat /\
    allocate_slots (fun x => x) (demo_request "r" (replicate 20 5) [[10]]) 20 0 None 0 0 false 0 (demo_kv p) =
      (Ok (Some (create_kv_cache_blocks Ks), r'), k') /\ Ks !! 0%nat = Some K /\ zlen K = 2.
Proof.
  destruct demo_pool as (p & _ & Hinv & Hn & Hb & _ & Hc & Hh & Hz).
  assert (Hok : coord_ok (coordinator (demo_kv p)) [1; 2; 3]%nat) by (apply demo_kv_ok; [exact Hinv | intros; by apply Hz | exact Hc]).
  assert (Hone : forall m, m ∈ single_type_managers (coordinator (demo_kv p)) -> m = demo_manager p).
  { intros m. apply list_elem_of_singleton. }
  destruct (allocate_slots_exact (fun x => x) (demo_request "r" (replicate 20 5) [[10]]) 20 0 0 false (demo_kv p) [1; 2; 3]%nat)
    as (c1 & L1 & Hc1 & HL1 & _ & Hres).
  - split; try done. intros m ->%Hone. split_and!; [done | done |]. right. vm_compute. discriminate.
  - intros _ _. split; simpl; [exact Hc | rewrite Hh; lia |]. intros m ->%Hone. rewrite Hh. vm_compute.
    split_and!; discriminate || reflexivity.
  - cbv zeta in Hres. rewrite (proj2 (Z.ltb_ge _ _)) in Hres by (etransitivity; [| exact HL1]; vm_compute; discriminate).
    destruct Hres as (Ks & r' & k' & Hrun & _ & _ & _ & Hall).
    destruct (Hall 0%nat (demo_manager p) eq_refl) as (K & m' & HK & _ & Hlen & _).
    exists p, Ks, r', k', K. split_and!; [exact Hinv | exact Hrun | exact HK |]. rewrite Hlen. vm_compute. reflexivity.
Defined.

(** A new request of a full-attention model: get_computed_blocks returns blocks
    cached under the request's first hashes, for fewer tokens than the request has (so the
    last token is always computed); allocate_slots with them either reports that there are
    not enough free blocks or lets the request's table start with exactly those blocks,
    shared, and cover all its tokens. No step raises, and the accounting is kept. *)
Lemma prefix_admission sha256 k L m r :
  fresh_request k L m r ->
  exists new k1, get_computed_blocks r k = (Ok (create_kv_cache_blocks [new], zlen new * block_size m), k1) /\
    cached_prefix (block_pool (coordinator k)) (block_hashes r) new /\ zlen new * block_size m < num_tokens r /\
    exists res r' k2,
      allocate_slots sha256 r (num_tokens r - zlen new * block_size m) (zlen new * block_size m)
        (Some (create_kv_cache_blocks [new])) 0 0 false 0 k1 = (Ok (res, r'), k2) /\
      granted m r new res k2.
Proof.
  intros Hfr. destruct (computed_blocks_run k L m r Hfr) as (new & k1 & Hrun & [st ->] & Hlt & Hcp).
  exists new, (with_stats st k). split_and!; [done | done | done |]. destruct (decide (new = [])) as [-> | Hne].
  - destruct (grant_miss sha256 k L m r Hfr st) as (res & r' & k' & Hrun' & Hg). exists res, r', k'.
    change (zlen (@nil loc) * block_size m) with 0. by rewrite Z.sub_0_r.
  - by apply (grant_hit sha256 k L m r Hfr st new).
Qed.

(** ** One manager *)

(** The admission estimate of a manager is exact for a request that is new to it,
    with cached blocks [new] for [local] tokens and [ext] tokens coming from a connector: if
    at least the estimated number of blocks is free, sharing the cached blocks and allocating
    the others succeeds, uses exactly that many free blocks, and the table starts with the
    cached blocks the window still needs (null blocks before them) and covers [num_tokens]
    tokens. (The manager's admission cap does not bind.) *)
Lemma admission_exact extra s L rid new local ext num_tokens main :
  mgr_ok extra s L -> unseen_request s rid new local ext -> uses_base (mg s) rid -> uncapped (mg s) num_tokens ->
  local + ext <= num_tokens ->
  exists n, get_num_blocks_to_allocate rid num_tokens new (local + ext) main s = (Ok n, s) /\
    (n <= zlen L -> exists s1 K s2 L2,
       allocate_new_computed_blocks rid new local ext s = (Ok tt, s1) /\
       allocate_new_blocks rid num_tokens main s1 = (Ok K, s2) /\
       mgr_ok extra s2 L2 /\ zlen L2 = zlen L - n /\
       cdiv num_tokens (block_size (mg s)) <= zlen (tbl (req_to_blocks (mg s2)) rid) /\
       shared_prefix (mg s2) rid (null_block (pool s)) (skipped_of (mg s) (local + ext)) new /\
       (forall r, r <> rid -> tbl (req_to_blocks (mg s2)) r = tbl (req_to_blocks (mg s)) r)).
Proof.
  intros Hok Hnew Hb Hc Hle. destruct (admission_new_spec extra s L rid new local ext num_tokens main Hok Hnew Hb Hc Hle)
    as (n & Hn & Hrun). exists n. split; [done |]. intros Hroom.
  destruct (Hrun Hroom) as (s1 & K & s2 & L2 & ? & _ & ? & ? & _ & ? & ? & ? & ?). by exists s1, K, s2, L2.
Qed.

(** A sliding window of one block: of two cached blocks only the second is shared. *)
Definition demo_swa_manager (p : BlockPool) : Manager := new_manager (SlidingWindow 16) 16 true (Some 9) false 0 1 1 p.

Lemma demo_swa_ok p L :
  pool_inv p L -> (forall l, l ∈ blocks p -> ref_of (bheap p) l = 0) -> enable_caching p = true ->
  mgr_ok (fun _ => 0) (mkMS (demo_swa_manager p) p) L.
Proof.
  intros Hinv Hr Hc. split; simpl; try done.
  - intros rid l Hl. by apply elem_of_nil in Hl.
  - constructor.
  - intros l HB _. by rewrite Hr.
  - by rewrite Hc.
Qed.

(** Null blocks come first in a table. *)
Definition null_prefix (nul : loc) (bs : list loc) : Prop :=
  forall i j, (i < j)%nat -> bs !! j = Some nul -> bs !! i = Some nul.

(** Remove_skipped_blocks keeps, at its place, every block that holds a token the
    attention type still needs after [total] computed tokens, and leaves other requests
    alone; in a table whose null blocks come first, all blocks before are null afterwards.
    The released blocks are free unless another request shares them, and nothing that was
    free is lost. *)
Lemma remove_skipped_keeps_window extra s L rid total :
  mgr_ok extra s L -> uses_base (mg s) rid ->
  let bs := tbl (req_to_blocks (mg s)) rid in
  let skipped := get_num_skipped_tokens (kind (mg s)) total in
  exists s' L', remove_skipped_blocks rid total s = (Ok tt, s') /\ mgr_ok extra s' L' /\ (forall l, l ∈ L -> l ∈ L') /\
    let bs' := tbl (req_to_blocks (mg s')) rid in
    length bs' = length bs /\
    (forall i, skipped < (Z.of_nat i + 1) * block_size (mg s) -> bs' !! i = bs !! i) /\
    (null_prefix (null_block (pool s)) bs -> forall i, (i < length bs)%nat ->
       (Z.of_nat i + 1) * block_size (mg s) <= skipped -> bs' !! i = Some (null_block (pool s))) /\
    (forall r, r <> rid -> tbl (req_to_blocks (mg s')) r = tbl (req_to_blocks (mg s)) r).
Proof.
  intros Hok Hb bs skipped. pose proof (mo_bs _ _ _ Hok) as Hbs.
  assert (E : remove_skipped_blocks rid total s = base_remove_skipped_blocks rid total s).
  { unfold uses_base in Hb. unfold remove_skipped_blocks, self, gets, bind at 1. by destruct (kind (mg s)). }
  destruct (base_remove_skipped_spec extra s L rid total Hok) as (s' & L' & Hrun & Hok' & _ & HL & Hoth & _ & k & Hk & Hstop & Ht).
  fold bs skipped in Hk, Hstop, Ht. set (n := if skipped <=? 0 then 0%nat else skipped_blocks (mg s) rid total) in *.
  assert (Hn : (n <= length bs)%nat /\ forall i, (i < length bs)%nat -> (i < n)%nat <-> (Z.of_nat i + 1) * block_size (mg s) <= skipped).
  { unfold n, skipped_blocks. fold bs skipped. unfold zlen. destruct (skipped <=? 0) eqn:E0; zbool; [split; [lia | intros; nia] |].
    split; [lia |]. intros i Hi. pose proof (Z.div_mod skipped (block_size (mg s)) ltac:(lia)).
    pose proof (Z.mod_pos_bound skipped (block_size (mg s)) Hbs). split; intros; nia. }
  destruct Hn as [Hnl Hn].
  assert (Hlook : forall i, tbl (req_to_blocks (mg s')) rid !! i = if decide (k <= i < n)%nat then Some (null_block (pool s)) else bs !! i).
  { intros i. rewrite Ht. apply (nulled_lookup (s := s) rid k n). fold bs. lia. }
  exists s', L'. rewrite E. cbv zeta. split_and!; [done | done | done | | | | done].
  - rewrite Ht. rewrite !length_app, length_take, length_replicate, length_drop. lia.
  - intros i Hi. rewrite Hlook. destruct (decide (k <= i < n)%nat) as [Hin |]; [| done].
    pose proof (proj1 (Hn i ltac:(lia)) ltac:(lia)). lia.
  - intros Hpre i Hi Hs. rewrite Hlook. case_decide as Hd; [done |]. apply (Hn i Hi) in Hs.
    destruct Hstop as [-> | Hk1]; [lia |]. destruct (decide (i = k - 1)%nat) as [-> |]; [done |]. apply (Hpre i (k - 1)%nat); [lia | done].
Qed.

(** The admission caps of the sliding-window and (for a chunk size that is a
    multiple of the block size) chunked-local specs are at least the number of blocks of a
    request that are not skipped, at every step of at most [batched] tokens. *)
Theorem admission_cap_covers_window bs w batched mml total num_tokens k :
  0 < bs -> 0 <= total -> 0 < w -> num_tokens <= total + batched -> num_tokens <= mml ->
  match k with
  | SlidingWindow w' => w' = w
  | ChunkedLocalAttention c => c = w /\ w mod bs = 0
  | _ => False
  end ->
  cdiv num_tokens bs - get_num_skipped_tokens k total / bs <=
  match k with
  | SlidingWindow _ => swa_max_admission bs w batched mml
  | _ => chunked_max_admission bs w batched mml
  end.
Proof.
  intros Hbs Ht Hw Hn Hm. assert (Hsub : forall a s, 0 <= s -> cdiv a bs - s / bs <= cdiv (a - s) bs + 1).
  { intros a s Hs. pose proof (cdiv_bounds (a - s) bs Hbs). pose proof (Z.div_mod s bs ltac:(lia)).
    pose proof (Z.mod_pos_bound s bs Hbs). enough (cdiv a bs <= s / bs + cdiv (a - s) bs + 1) by lia. apply cdiv_le_iff; nia. }
  assert (Hmono : forall a b, a <= b -> cdiv a bs <= cdiv b bs).
  { intros a b Hab. apply cdiv_le_iff; [done |]. pose proof (cdiv_bounds b bs Hbs). lia. }
  destruct k; try done; simpl.
  - intros ->. unfold swa_max_admission. set (s := Z.max 0 (total - w + 1)). pose proof (Hsub num_tokens s ltac:(lia)).
    pose proof (Hmono (num_tokens - s) (Z.min (w - 1 + batched) mml) ltac:(lia)). lia.
  - intros [-> Hmod]. unfold chunked_max_admission. set (s := total / w * w).
    pose proof (Z.div_mod total w ltac:(lia)). pose proof (Z.mod_pos_bound total w Hw). pose proof (Z.div_pos total w Ht Hw).
    pose proof (Hmono (num_tokens - s) (Z.min (w + batched) mml) ltac:(unfold s; nia)).
    assert (Es : s = s / bs * bs).
    { pose proof (Z.div_mod s bs ltac:(lia)). enough (s mod bs = 0) by lia. unfold s. rewrite Z.mul_mod, Hmod, Z.mul_0_r by lia.
      by rewrite Zmod_0_l. }
    enough (cdiv num_tokens bs <= s / bs + cdiv (num_tokens - s) bs) by lia. apply cdiv_le_iff; [done |].
    pose proof (cdiv_bounds (num_tokens - s) bs Hbs). nia.
Qed.

(** ** Common prefixes *)

Lemma held_le_size t l :
  (forall q bs, t !! q = Some bs -> occ l bs <= 1) -> tbl_held t l <= Z.of_nat (size t).
Proof.
  induction t as [|q bs t Hn IH] using map_ind; intros Hone.
  - change (tbl_held ∅ l) with 0. lia.
  - rewrite tbl_held_insert, map_size_insert_None by done. pose proof (Hone q bs ltac:(apply lookup_insert_eq)).
    enough (tbl_held t l <= Z.of_nat (size t)) by lia. apply IH. intros q' bs' Hq. apply (Hone q').
    rewrite lookup_insert_ne; [done |]. intros ->. congruence.
Qed.

Lemma held_by_all t l :
  (forall q bs, t !! q = Some bs -> occ l bs <= 1) -> tbl_held t l = Z.of_nat (size t) ->
  forall q bs, t !! q = Some bs -> l ∈ bs.
Proof.
  intros Hone Hall q bs Hq. apply occ_pos. rewrite (tbl_held_delete t q l) in Hall. unfold tbl in Hall. rewrite Hq in Hall.
  simpl in Hall. pose proof (held_le_size (delete q t) l) as Hd. rewrite map_size_delete, Hq in Hd.
  assert (0 < size t)%nat by (apply Nat.neq_0_lt_0, map_size_non_empty_iff; intros ->; done).
  enough (tbl_held (delete q t) l <= Z.of_nat (pred (size t))) by lia. apply Hd. intros q' bs' Hq'.
  apply (Hone q'). by apply lookup_delete_Some in Hq' as [_ ?].
Qed.

(** Every block that get_num_common_prefix_blocks counts for a request of a
    full-attention model with one KV-cache group is held by every request that has a block
    table. *)
Lemma common_prefix_shared s L rid n s' :
  mgr_ok (fun _ => 0) s L -> full_like (kind (mg s)) ->
  get_num_common_prefix_blocks rid s = (Ok n, s') ->
  forall i l q, Z.of_nat i < n -> tbl (req_to_blocks (mg s)) rid !! i = Some l -> l <> null_block (pool s) ->
    is_Some (req_to_blocks (mg s) !! q) -> l ∈ tbl (req_to_blocks (mg s)) q.
Proof.
  intros Hok Hk Hrun i l q Hi Hl Hn [bs Hq].
  destruct (blocks_of_spec _ s L rid Hok) as (s1 & Hb & Hok1 & _ & Hp1 & _ & Ht & _).
  assert (Hcount : n = count_common (bheap (pool s1)) (Z.of_nat (size (req_to_blocks (mg s1)))) (tbl (req_to_blocks (mg s)) rid)).
  { unfold get_num_common_prefix_blocks, self, gets, bind at 1 in Hrun. cbv beta iota in Hrun.
    destruct (kind (mg s)); try done; unfold bind at 1 in Hrun; rewrite Hb in Hrun; unfold bind, ret in Hrun; congruence. }
  assert (Href : ref_of (bheap (pool s1)) l = Z.of_nat (size (req_to_blocks (mg s1)))).
  { subst n. clear -Hi Hl. revert i Hi Hl. generalize (tbl (req_to_blocks (mg s)) rid). intros t.
    induction t as [|x t IH]; intros i Hi Hl; [done |]. simpl in Hi. destruct (_ =? _) eqn:E; [| lia]. zbool.
    destruct i as [|i]; simpl in Hl; [congruence |]. apply (IH i); [lia | done]. }
  assert (HB : l ∈ blocks (pool s1)).
  { rewrite Hp1. apply (mo_in _ _ _ Hok rid). by eapply list_elem_of_lookup_2. }
  rewrite (mo_ref _ _ _ Hok1 l HB) in Href by (by rewrite Hp1).
  assert (Hq1 : l ∈ tbl (req_to_blocks (mg s1)) q); [| by rewrite Ht in Hq1].
  assert (Hone : forall q' bs', req_to_blocks (mg s1) !! q' = Some bs' -> occ l bs' <= 1).
  { intros q' bs' Hq'. pose proof (mo_NoDup _ _ _ Hok1 q') as Hnd. unfold tbl in Hnd. rewrite Hq' in Hnd. simpl in Hnd.
    rewrite <- (occ_filter (fun l => l <> null_block (pool s1))) by (by rewrite Hp1). rewrite occ_NoDup by done. by case_decide. }
  specialize (Ht q). unfold tbl in Ht |- *. rewrite Hq in Ht. destruct (req_to_blocks (mg s1) !! q) as [bs1|] eqn:E1.
  - simpl. by apply (held_by_all _ _ Hone Href q).
  - exfalso. unfold blocks_of, self, gets, bind in Hb. destruct (req_to_blocks (mg s) !! rid) as [b|] eqn:Er.
    + unfold ret in Hb. injection Hb as _ <-. congruence.
    + unfold with_mg, modify, ret in Hb. injection Hb as _ <-. simpl in E1. rewrite lookup_insert in E1. case_decide; congruence.
Qed.

(** Requests "a" and "b" share block 1. *)
Definition shared_manager (p : BlockPool) : Manager :=
  set_cached {["a" := 2; "b" := 1]} (set_blocks {["a" := [1; 2]%nat; "b" := [1%nat]]} (demo_manager p)).

Lemma demo_shared :
  exists p, mgr_ok (fun _ => 0) (mkMS (shared_manager p) p) [3%nat] /\ null_block p = 0%nat /\
    ref_of (bheap p) 1%nat = 2 /\ ref_of (bheap p) 2%nat = 1.
Proof.
  destruct demo_allocated as (p0 & Hinv0 & Hn0 & Hb0 & Hc0 & _ & Hz).
  destruct (touch_spec [1%nat] p0 [3%nat] Hinv0) as (p & _ & Hinv & Hf & Hr & Hh).
  { intros l ->%list_elem_of_singleton. rewrite Hb0. right. left. }
  assert (Hin : forall l, l ∈ [1; 2]%nat -> l ∈ blocks p0) by (intros l; rewrite Hb0, !elem_of_cons, elem_of_nil; lia).
  assert (Ht : forall q, tbl (req_to_blocks (shared_manager p)) q =
    if decide (q = "a") then [1; 2]%nat else if decide (q = "b") then [1%nat] else []).
  { intros q. unfold tbl, shared_manager. simpl. rewrite lookup_insert. case_decide as E1; [by rewrite decide_True by done |].
    rewrite decide_False by done. rewrite lookup_singleton. case_decide; case_decide; subst; try done. }
  assert (Hnc : forall q, num_cached (shared_manager p) q = if decide (q = "a") then 2 else if decide (q = "b") then 1 else 0).
  { intros q. unfold num_cached, shared_manager. simpl. rewrite lookup_insert. case_decide as E1; [by rewrite decide_True by done |].
    rewrite decide_False by done. rewrite lookup_singleton. case_decide; case_decide; subst; try done. }
  assert (Hheld : forall l, tbl_held (req_to_blocks (shared_manager p)) l = occ l [1; 2]%nat + occ l [1%nat]).
  { intros l. unfold shared_manager. simpl. rewrite tbl_held_insert by done. f_equal.
    rewrite <- insert_empty, tbl_held_insert by done. change (tbl_held ∅ l) with 0. lia. }
  assert (Href : forall l, l ∈ blocks p0 -> ref_of (bheap p) l = occ l [1; 2]%nat + occ l [1%nat]).
  { intros l Hl. rewrite Hr, (proj1 (Hz l Hl)). rewrite (occ_NoDup l [1; 2]%nat) by (apply (bool_decide_unpack _); exact I). done. }
  exists p. rewrite (pf_null _ _ Hf), Hn0. split_and!; [| done | by rewrite Href by (apply Hin; left) | by rewrite Href by (apply Hin; right; left)].
  split; simpl; rewrite ?(pf_blocks _ _ Hf), ?(pf_null _ _ Hf), ?Hn0; try done.
  - intros q l. rewrite Ht. intros Hl. apply Hin. repeat case_decide; [done | | by apply elem_of_nil in Hl].
    apply list_elem_of_singleton in Hl as ->. left.
  - intros q. rewrite Ht. repeat case_decide; apply (bool_decide_unpack _); exact I.
  - intros l Hl _. rewrite Href by done. by rewrite Hheld.
  - intros q i l. rewrite Hnc, Ht. intros Hq Hl. exfalso. apply lookup_lt_Some in Hl. repeat case_decide; simpl in *; lia.
  - intros q. rewrite Hnc. by repeat case_decide.
  - rewrite (pf_caching _ _ Hf), Hc0. done.
Qed.

(** ** NELSSA *)

(** Free_middle_blocks of a long request keeps the blocks of the head and of the
    tail in place, replaces all blocks between them by the null block, releases exactly
    those references, and leaves other requests alone; for any other request it does
    nothing. *)
Lemma nelssa_keeps_head_and_tail extra s L rid head_size tail_size :
  mgr_ok extra s L -> kind (mg s) = NELSSA head_size tail_size -> 0 <= head_size ->
  let bs := tbl (req_to_blocks (mg s)) rid in
  let hb := cdiv head_size (block_size (mg s)) in
  let me := middle_end (mg s) rid tail_size in
  exists s' L', free_middle_blocks rid s = (Ok tt, s') /\ mgr_ok extra s' L' /\ (forall l, l ∈ L -> l ∈ L') /\
    (forall i, tbl (req_to_blocks (mg s')) rid !! i =
       if decide (rid ∈ long_requests (mg s) /\ hb <= Z.of_nat i < me) then Some (null_block (pool s)) else bs !! i) /\
    (forall r, r <> rid -> tbl (req_to_blocks (mg s')) r = tbl (req_to_blocks (mg s)) r).
Proof.
  intros Hok Hk Hh bs hb me. destruct (free_middle_spec extra s L rid head_size tail_size Hok Hk Hh) as (s' & L' & Hrun & Hok' & _ & HL & _ & Ht & Hoth).
  exists s', L'. split_and!; [done | done | done | | done]. intros i. rewrite Ht. unfold sparse_table. fold bs me.
  change (head_blocks (mg s) head_size) with hb. assert (Hhb : 0 <= hb) by (apply cdiv_nonneg; [apply (mo_bs _ _ _ Hok) | done]).
  destruct (bool_decide (rid ∈ long_requests (mg s))) eqn:El.
  - apply bool_decide_eq_true in El. destruct (hb <? me) eqn:E; zbool; simpl andb; cbv iota.
    + rewrite (nulled_lookup (s := s) rid (Z.to_nat hb) (Z.to_nat me)).
      * apply decide_ext. split; [intros ?; split; [done | lia] | intros [_ ?]; lia].
      * assert (me <= zlen bs) by (unfold me, middle_end; fold bs; destruct (0 <? _) eqn:E'; zbool; lia). unfold zlen in *. fold bs. lia.
    + rewrite decide_False by lia. done.
  - apply bool_decide_eq_false in El. simpl. rewrite decide_False by tauto. done.
Qed.

Definition demo_nelssa (p : BlockPool) : Manager := new_manager (NELSSA 16 16) 16 true None true 0 1 1 p.

(** The tail that mark_long_request reserves starts at a block boundary, at or
    less than one block before the last [tail_size] tokens of the prompt, and its block
    count is exactly the number of blocks from that boundary to the end of the prompt. *)
Lemma nelssa_tail_layout bs tail_size prompt_len :
  0 < bs -> 0 <= tail_size -> 0 <= prompt_len ->
  let (tb, ts) := _compute_tail_layout bs tail_size prompt_len in
  ts mod bs = 0 /\ 0 <= ts <= Z.max (prompt_len - tail_size) 0 /\ Z.max (prompt_len - tail_size) 0 < ts + bs /\
  tb = cdiv prompt_len bs - ts / bs /\ cdiv (Z.min tail_size prompt_len) bs <= tb <= cdiv tail_size bs + 1.
Proof.
  intros Hbs Ht Hp. destruct (_compute_tail_layout bs tail_size prompt_len) as [tb ts] eqn:E.
  exact (tail_layout_spec bs tail_size prompt_len tb ts Hbs Ht Hp E).
Qed.

