(* ===== verification/CachePolicy.v ===== *)
(** * CachePolicy
    vllm/v1/kv_offload/cpu/policies: the replacement policies of the CPU offloading manager.
    [CachePolicy] is the interface (abstract.py) as a class of operations, [CachePolicyLaws]
    what the manager relies on, and the LRU (lru.py) and ARC (arc.py) policies are its two
    instances.

    A status object is referenced from exactly one dictionary slot of a policy, so the
    mutation of an object obtained from [get] is an update of that slot ([policy_set]).
    ARC's [target_t1_size] is a Python float: float arithmetic is exact rational arithmetic
    followed by the rounding function [rnd], a parameter. *)
From Stdlib Require Import QArith Qminmax.
From S2P Require Import Prelude OrdDict.
#[local] Open Scope Z_scope.

(** OffloadKey: raw bytes. *)
Abbreviation OffloadKey := (list Z).

(** ** BlockStatus
    A ctypes structure: assignments wrap around at the field's width. *)
Definition c_int (w z : Z) : Z := (z + 2 ^ (w - 1)) mod 2 ^ w - 2 ^ (w - 1).

Record BlockStatus := mkStatus { st_ref_cnt : Z; st_block_id : Z }.

#[export] Instance BlockStatus_eq_dec : EqDecision BlockStatus.
Proof. solve_decision. Defined.

Definition new_status (id : Z) : BlockStatus := mkStatus (-1) (c_int 64 id).
Definition with_ref_cnt (n : Z) (b : BlockStatus) : BlockStatus := mkStatus (c_int 32 n) (st_block_id b).
Definition is_ready (b : BlockStatus) : bool := 0 <=? st_ref_cnt b.

Lemma c_int_id w z : 0 < w -> - 2 ^ (w - 1) <= z < 2 ^ (w - 1) -> c_int w z = z.
Proof.
  intros Hw Hz. unfold c_int. assert (2 ^ w = 2 * 2 ^ (w - 1)) as ->.
  { rewrite <- Z.pow_succ_r by lia. f_equal. lia. }
  rewrite Z.mod_small by lia. lia.
Qed.

(** ** The interface *)
Abbreviation Items := (list (OffloadKey * BlockStatus)).

Class CachePolicy (P : Type) := {
  policy_init : Z -> P;
  policy_get : OffloadKey -> P -> option BlockStatus;
  policy_set : OffloadKey -> BlockStatus -> P -> P;
  policy_insert : OffloadKey -> BlockStatus -> P -> P;
  policy_remove : OffloadKey -> M P unit;
  policy_touch : list OffloadKey -> P -> P;
  policy_evict : Z -> gset OffloadKey -> M P (option Items);
}.

(** A block that may be evicted. *)
Definition evictable (protected : gset OffloadKey) (kb : OffloadKey * BlockStatus) : Prop :=
  st_ref_cnt kb.2 = 0 /\ kb.1 ∉ protected.

(** What a policy promises: it stores a finite map, its operations change the map as their
    names say, and an eviction either takes [n] idle unprotected blocks or nothing. *)
Class CachePolicyLaws (P : Type) `{CachePolicy P} := {
  policy_ok : P -> Prop;
  policy_items : P -> Items;
  policy_init_ok n : 0 <= n -> policy_ok (policy_init n) /\ policy_items (policy_init n) = [];
  policy_keys p : policy_ok p -> NoDup (od_keys (policy_items p));
  policy_get_items p k : policy_ok p -> policy_get k p = od_get k (policy_items p);
  policy_set_ok p k b b' : policy_ok p -> policy_get k p = Some b ->
    policy_ok (policy_set k b' p) /\ policy_items (policy_set k b' p) ≡ₚ od_set k b' (policy_items p);
  policy_insert_ok p k b : policy_ok p -> policy_get k p = None ->
    policy_ok (policy_insert k b p) /\ policy_items (policy_insert k b p) ≡ₚ (k, b) :: policy_items p;
  policy_remove_ok p k b : policy_ok p -> policy_get k p = Some b ->
    exists p', policy_remove k p = (Ok tt, p') /\ policy_ok p' /\ (k, b) :: policy_items p' ≡ₚ policy_items p;
  policy_touch_ok p ks : policy_ok p ->
    policy_ok (policy_touch ks p) /\ policy_items (policy_touch ks p) ≡ₚ policy_items p;
  policy_evict_ok p n protected : policy_ok p -> 0 <= n ->
    exists o p', policy_evict n protected p = (Ok o, p') /\
      match o with
      | None => p' = p
      | Some ev => policy_ok p' /\ zlen ev = n /\ ev ++ policy_items p' ≡ₚ policy_items p /\
                   Forall (evictable protected) ev
      end;
}.

(** ** LRU *)
Record LRUCachePolicy := mkLRU { lru_blocks : Items }.

Definition lru_get (k : OffloadKey) (p : LRUCachePolicy) : option BlockStatus := od_get k (lru_blocks p).
Definition lru_insert (k : OffloadKey) (b : BlockStatus) (p : LRUCachePolicy) : LRUCachePolicy :=
  mkLRU (od_set k b (lru_blocks p)).
Definition lru_remove (k : OffloadKey) : M LRUCachePolicy unit :=
  let* p := get in
  if od_mem k (lru_blocks p) then put (mkLRU (od_del k (lru_blocks p))) else raise KeyError.

Definition lru_touch_one (p : LRUCachePolicy) (k : OffloadKey) : LRUCachePolicy :=
  match od_move_to_end k (lru_blocks p) with
  | Some d => mkLRU d
  | None => p
  end.
Definition lru_touch (ks : list OffloadKey) (p : LRUCachePolicy) : LRUCachePolicy :=
  foldl lru_touch_one p (reverse ks).

Definition is_evictable (protected : gset OffloadKey) (kb : OffloadKey * BlockStatus) : bool :=
  (st_ref_cnt kb.2 =? 0) && negb (bool_decide (kb.1 ∈ protected)).

(** The loop that collects candidates. *)
Fixpoint lru_collect (n : Z) (protected : gset OffloadKey) (d candidates : Items) : Items :=
  match d with
  | [] => candidates
  | kb :: d' =>
    if is_evictable protected kb then
      let candidates := candidates ++ [kb] in
      if zlen candidates =? n then candidates else lru_collect n protected d' candidates
    else lru_collect n protected d' candidates
  end.
Definition lru_evict (n : Z) (protected : gset OffloadKey) : M LRUCachePolicy (option Items) :=
  if n =? 0 then ret (Some [])
  else
    let* p := get in
    let candidates := lru_collect n protected (lru_blocks p) [] in
    if zlen candidates <? n then ret None
    else
      put (mkLRU (foldl (fun d kb => od_del kb.1 d) (lru_blocks p) candidates)) ;;;
      ret (Some candidates).

#[export] Instance lru_policy : CachePolicy LRUCachePolicy := {|
  policy_init := fun _ => mkLRU [];
  policy_get := lru_get;
  policy_set := lru_insert;
  policy_insert := lru_insert;
  policy_remove := lru_remove;
  policy_touch := lru_touch;
  policy_evict := lru_evict;
|}.

(** ** ARC *)
Record ARCCachePolicy := mkARC {
  cache_capacity : Z;
  target_t1_size : Q;
  t1 : Items;
  t2 : Items;
  b1 : list (OffloadKey * unit);
  b2 : list (OffloadKey * unit);
}.

Definition arc_get (k : OffloadKey) (p : ARCCachePolicy) : option BlockStatus :=
  match od_get k (t1 p) with Some b => Some b | None => od_get k (t2 p) end.

Definition arc_set (k : OffloadKey) (b : BlockStatus) (p : ARCCachePolicy) : ARCCachePolicy :=
  if od_mem k (t1 p)
  then mkARC (cache_capacity p) (target_t1_size p) (od_set k b (t1 p)) (t2 p) (b1 p) (b2 p)
  else mkARC (cache_capacity p) (target_t1_size p) (t1 p) (od_set k b (t2 p)) (b1 p) (b2 p).

Definition arc_insert (k : OffloadKey) (b : BlockStatus) (p : ARCCachePolicy) : ARCCachePolicy :=
  mkARC (cache_capacity p) (target_t1_size p) (od_set k b (t1 p)) (t2 p) (od_del k (b1 p)) (od_del k (b2 p)).

Definition arc_remove (k : OffloadKey) : M ARCCachePolicy unit :=
  modify (fun p =>
    if od_mem k (t1 p)
    then mkARC (cache_capacity p) (target_t1_size p) (od_del k (t1 p)) (t2 p) (b1 p) (b2 p)
    else mkARC (cache_capacity p) (target_t1_size p) (t1 p) (od_del k (t2 p)) (b1 p) (b2 p)).

(** [int(x)] of a float: truncation. *)
Definition py_int (x : Q) : Z := Z.quot (Qnum x) (Z.pos (Qden x)).
(** [max(a, b)] and [min(a, b)] keep the first of two equal arguments. *)
Definition py_max (a b : Q) : Q := if Qlt_le_dec a b then b else a.
Definition py_min (a b : Q) : Q := if Qlt_le_dec b a then b else a.

Section arc.
Context (rnd : Q -> Q).

(** One key of the loop of touch. *)
Definition arc_touch_one (p : ARCCachePolicy) (k : OffloadKey) : ARCCachePolicy :=
  match od_get k (t1 p) with
  | Some block =>
    let t1' := od_del k (t1 p) in
    if negb (is_ready block)
    then mkARC (cache_capacity p) (target_t1_size p) (od_set k block t1') (t2 p) (b1 p) (b2 p)
    else mkARC (cache_capacity p) (target_t1_size p) t1' (od_set k block (t2 p)) (b1 p) (b2 p)
  | None =>
    match od_move_to_end k (t2 p) with
    | Some t2' => mkARC (cache_capacity p) (target_t1_size p) (t1 p) t2' (b1 p) (b2 p)
    | None =>
      match od_move_to_end k (b1 p) with
      | Some b1' =>
        let delta := py_max 1 (rnd (inject_Z (zlen (b2 p)) / inject_Z (zlen (b1 p)))) in
        mkARC (cache_capacity p)
          (py_min (rnd (target_t1_size p + delta)) (inject_Z (cache_capacity p))) (t1 p) (t2 p) b1' (b2 p)
      | None =>
        match od_move_to_end k (b2 p) with
        | Some b2' =>
          let delta := py_max 1 (rnd (inject_Z (zlen (b1 p)) / inject_Z (zlen (b2 p)))) in
          mkARC (cache_capacity p) (py_max (rnd (target_t1_size p - delta)) 0) (t1 p) (t2 p) (b1 p) b2'
        | None => p
        end
      end
    end
  end.
Definition arc_touch (ks : list OffloadKey) (p : ARCCachePolicy) : ARCCachePolicy :=
  foldl arc_touch_one p (reverse ks).
End arc.

(** The first item of a list that can be evicted and is not selected yet. *)
Fixpoint arc_find (protected : gset OffloadKey) (selected : list OffloadKey) (d : Items)
    : option (OffloadKey * BlockStatus) :=
  match d with
  | [] => None
  | kb :: d' =>
    if is_evictable protected kb && negb (bool_decide (kb.1 ∈ selected)) then Some kb
    else arc_find protected selected d'
  end.

(** The selection loop: [n] candidates with their origin, or [None]. *)
Fixpoint arc_select (n : nat) (p : ARCCachePolicy) (protected : gset OffloadKey) (virtual_t1_size : Z)
    (candidates : list (OffloadKey * BlockStatus * bool)) : option (list (OffloadKey * BlockStatus * bool)) :=
  match n with
  | O => Some candidates
  | S n' =>
    let selected := (fun c => c.1.1) <$> candidates in
    match (if py_int (target_t1_size p) <=? virtual_t1_size then arc_find protected selected (t1 p) else None) with
    | Some kb => arc_select n' p protected (virtual_t1_size - 1) (candidates ++ [(kb, true)])
    | None =>
      match arc_find protected selected (t2 p) with
      | Some kb => arc_select n' p protected virtual_t1_size (candidates ++ [(kb, false)])
      | None => None
      end
    end
  end.

Definition arc_apply (p : ARCCachePolicy) (c : OffloadKey * BlockStatus * bool) : ARCCachePolicy :=
  if c.2
  then mkARC (cache_capacity p) (target_t1_size p) (od_del c.1.1 (t1 p)) (t2 p) (od_set c.1.1 tt (b1 p)) (b2 p)
  else mkARC (cache_capacity p) (target_t1_size p) (t1 p) (od_del c.1.1 (t2 p)) (b1 p) (od_set c.1.1 tt (b2 p)).

(** [for _ in range(len(ghost) - cache_capacity): ghost.popitem(last=False)]; popitem
    raises on an empty dictionary. *)
Definition trim_ghost (cap : Z) (ghost : list (OffloadKey * unit)) : res (list (OffloadKey * unit)) :=
  if zlen ghost <? zlen ghost - cap then Err KeyError
  else Ok (drop (Z.to_nat (zlen ghost - cap)) ghost).

Definition arc_evict (n : Z) (protected : gset OffloadKey) : M ARCCachePolicy (option Items) :=
  if n =? 0 then ret (Some [])
  else
    let* p := get in
    match arc_select (Z.to_nat n) p protected (zlen (t1 p)) [] with
    | None => ret None
    | Some candidates =>
      let p' := foldl arc_apply p candidates in
      put p' ;;;
      let* b1' := lift (trim_ghost (cache_capacity p') (b1 p')) in
      put (mkARC (cache_capacity p') (target_t1_size p') (t1 p') (t2 p') b1' (b2 p')) ;;;
      let* b2' := lift (trim_ghost (cache_capacity p') (b2 p')) in
      put (mkARC (cache_capacity p') (target_t1_size p') (t1 p') (t2 p') b1' b2') ;;;
      ret (Some candidates.*1)
    end.

(** The ARC policy under a rounding function. *)
Definition arc_policy (rnd : Q -> Q) : CachePolicy ARCCachePolicy := {|
  policy_init := fun cap => mkARC cap 0 [] [] [] [];
  policy_get := arc_get;
  policy_set := arc_set;
  policy_insert := arc_insert;
  policy_remove := arc_remove;
  policy_touch := arc_touch rnd;
  policy_evict := arc_evict;
|}.
