(* ===== verification/CachePolicyInv.v ===== *)
(** * CachePolicyInv
    The two policies satisfy the laws of [CachePolicyLaws], and what only one of them
    promises: LRU evicts the least recently used idle blocks and fails only when there are
    too few of them; ARC keeps its four lists disjoint and its target within the capacity. *)
From Stdlib Require Import QArith Qminmax Lqa.
From S2P Require Import Prelude OrdDict CachePolicy.
#[local] Open Scope Z_scope.

Lemma is_evictable_spec protected kb : is_evictable protected kb = true <-> evictable protected kb.
Proof.
  unfold is_evictable, evictable. rewrite andb_true_iff, negb_true_iff, Z.eqb_eq, bool_decide_eq_false. done.
Qed.

(** ** LRU *)

(** The idle unprotected items, in order. *)
Definition idle (protected : gset OffloadKey) (d : Items) : Items :=
  filter (fun kb => is_evictable protected kb = true) d.

Lemma lru_collect_spec n protected d : forall c, zlen c < n ->
  lru_collect n protected d c = c ++ take (Z.to_nat (n - zlen c)) (idle protected d).
Proof.
  unfold idle. induction d as [|kb d IH]; intros c Hc; simpl.
  - by rewrite filter_nil, take_nil, app_nil_r.
  - destruct (is_evictable protected kb) eqn:E.
    + rewrite filter_cons_True by done.
      assert (zlen (c ++ [kb]) = zlen c + 1) as Hl by (rewrite zlen_app; done).
      replace (Z.to_nat (n - zlen c)) with (S (Z.to_nat (n - zlen (c ++ [kb])))) by lia. simpl.
      case_match eqn:En; [apply Z.eqb_eq in En | apply Z.eqb_neq in En].
      * rewrite En, Z.sub_diag. simpl. done.
      * rewrite IH by lia. by rewrite <- app_assoc.
    + rewrite filter_cons_False by congruence. by apply IH.
Qed.

Lemma od_del_all (c : Items) : forall d, od_ok d -> c ⊆+ d ->
  c ++ foldl (fun d kb => od_del kb.1 d) d c ≡ₚ d /\ od_ok (foldl (fun d kb => od_del kb.1 d) d c).
Proof.
  induction c as [|[k v] c IH]; intros d Hok Hsub; simpl; [done |].
  assert (od_get k d = Some v) as Hg.
  { apply od_elem_get; [done |]. eapply elem_of_submseteq; [| exact Hsub]. by left. }
  pose proof (od_del_perm _ _ _ Hg) as Hp.
  assert (c ⊆+ od_del k d) as Hsub'.
  { rewrite Hp in Hsub. by apply (submseteq_app_inv_l _ _ [(k, v)]). }
  destruct (IH (od_del k d) (od_ok_del _ _ Hok) Hsub') as [Hq Hok']. split; [| done].
  rewrite Hp at 2. by apply perm_skip.
Qed.

Lemma idle_evictable protected d : Forall (evictable protected) (idle protected d).
Proof. apply Forall_forall. intros kb [H _]%list_elem_of_filter. by apply is_evictable_spec. Qed.

(** LRU's eviction: exactly the first [n] idle blocks in recency order, or nothing when
    there are fewer. *)
Lemma lru_evict_spec n protected p : od_ok (lru_blocks p) -> 0 <= n ->
  let c := take (Z.to_nat n) (idle protected (lru_blocks p)) in
  if n <=? zlen (idle protected (lru_blocks p))
  then exists p', lru_evict n protected p = (Ok (Some c), p') /\ od_ok (lru_blocks p') /\ zlen c = n /\
    c ++ lru_blocks p' ≡ₚ lru_blocks p
  else lru_evict n protected p = (Ok None, p).
Proof.
  intros Hok Hn c. unfold lru_evict. destruct (Z.eqb_spec n 0) as [-> | Hn0].
  - rewrite (proj2 (Z.leb_le _ _)) by apply zlen_nonneg. exists p. split_and!; done.
  - unfold bind, get, put, ret. rewrite lru_collect_spec by (unfold zlen; simpl; lia). simpl.
    replace (n - zlen (@nil (OffloadKey * BlockStatus))) with n by (unfold zlen; simpl; lia). fold c.
    assert (zlen c = Z.min n (zlen (idle protected (lru_blocks p)))) as Hl.
    { unfold c, zlen. rewrite length_take. lia. }
    destruct (Z.leb_spec n (zlen (idle protected (lru_blocks p)))) as [Hle | Hlt].
    + rewrite (proj2 (Z.ltb_ge _ _)) by lia.
      destruct (od_del_all c (lru_blocks p) Hok) as [Hp Hok'].
      { apply (submseteq_trans _ (idle protected (lru_blocks p)));
          apply sublist_submseteq; [apply sublist_take | apply sublist_filter]. }
      eexists. split_and!; [done | done | lia | exact Hp].
    + rewrite (proj2 (Z.ltb_lt _ _)) by lia. done.
Qed.

Lemma lru_touch_one_ok p k : od_ok (lru_blocks p) ->
  od_ok (lru_blocks (lru_touch_one p k)) /\ lru_blocks (lru_touch_one p k) ≡ₚ lru_blocks p.
Proof.
  intros Hok. unfold lru_touch_one. destruct (od_get k (lru_blocks p)) as [v|] eqn:E.
  - destruct (od_move_to_end_spec k v _ Hok E) as (-> & Hok' & _). simpl. split; [done |].
    rewrite (od_del_perm _ _ _ E) at 2. by rewrite Permutation_app_comm.
  - unfold od_move_to_end. by rewrite E.
Qed.

#[export] Program Instance lru_laws : CachePolicyLaws LRUCachePolicy := {|
  policy_ok := fun p => od_ok (lru_blocks p);
  policy_items := lru_blocks;
|}.
Next Obligation. intros n _. split; [apply NoDup_nil_2 | done]. Qed.
Next Obligation. done. Qed.
Next Obligation. done. Qed.
Next Obligation. intros p k b b' Hok _. split; [by apply od_ok_set | done]. Qed.
Next Obligation.
  intros p k b Hok Hg. split; [by apply od_ok_set |]. simpl in *. unfold lru_get in Hg.
  rewrite od_set_new by done. by rewrite Permutation_app_comm.
Qed.
Next Obligation.
  intros p k b Hok Hg. simpl in *. unfold lru_get in Hg. unfold lru_remove, bind, get, put, od_mem. rewrite Hg.
  eexists. split; [done |]. split; [by apply od_ok_del |]. symmetry. by apply od_del_perm.
Qed.
Next Obligation.
  intros p ks Hok. simpl. unfold lru_touch. generalize (reverse ks). clear ks. intros ks. revert p Hok.
  induction ks as [|k ks IH]; intros p Hok; simpl; [done |].
  destruct (lru_touch_one_ok p k Hok) as [Hok' Hp]. destruct (IH _ Hok') as [? Hq]. split; [done |]. by rewrite Hq.
Qed.
Next Obligation.
  intros p n protected Hok Hn. pose proof (lru_evict_spec n protected p Hok Hn) as H. simpl in H.
  destruct (n <=? _).
  - destruct H as (p' & E & Hok' & Hl & Hp). eexists _, _. split; [exact E |]. split_and!; try done.
    apply Forall_take, idle_evictable.
  - eexists _, _. split; [exact H | done].
Qed.

(** ** ARC *)

(** What the float rounding must satisfy: IEEE rounding is monotone and exact on the
    integers up to [2 ^ 53]. *)
Record float_rounding (rnd : Q -> Q) : Prop := {
  rnd_mono x y : (x <= y)%Q -> (rnd x <= rnd y)%Q;
  rnd_int z : Z.abs z <= 2 ^ 53 -> (rnd (inject_Z z) == inject_Z z)%Q;
}.

(** The four lists of keys. *)
Definition arc_keys (p : ARCCachePolicy) : list OffloadKey :=
  od_keys (t1 p) ++ od_keys (t2 p) ++ od_keys (b1 p) ++ od_keys (b2 p).

Record arc_ok (p : ARCCachePolicy) : Prop := {
  arc_disjoint : NoDup (arc_keys p);
  arc_cap : 0 <= cache_capacity p;
}.

Definition arc_items (p : ARCCachePolicy) : Items := t1 p ++ t2 p.

Lemma NoDup_of_sub {A} (l k : list A) : l ⊆+ k -> NoDup k -> NoDup l.
Proof. intros [r ->]%submseteq_Permutation H. by apply NoDup_app in H as [? _]. Qed.

(** The representation after a change of the four lists, up to order. *)
Lemma arc_ok_perm p c q l1 l2 g1 g2 :
  arc_ok p -> 0 <= c ->
  od_keys l1 ++ od_keys l2 ++ od_keys g1 ++ od_keys g2 ⊆+ arc_keys p ->
  arc_ok (mkARC c q l1 l2 g1 g2).
Proof.
  intros [Hd Hc] Hc' Hs. split; [| done]. by eapply NoDup_of_sub.
Qed.

Lemma arc_parts p : arc_ok p ->
  od_ok (t1 p) /\ od_ok (t2 p) /\ od_ok (b1 p) /\ od_ok (b2 p) /\ od_ok (arc_items p) /\
  (forall k, k ∈ od_keys (t1 p) -> (k ∉ od_keys (t2 p)) /\ (k ∉ od_keys (b1 p))) /\
  (forall k, k ∈ od_keys (t2 p) -> k ∉ od_keys (b2 p)).
Proof.
  intros [Hd _]. unfold arc_keys in Hd. unfold od_ok, arc_items, od_keys in *. rewrite fmap_app.
  rewrite !NoDup_app in Hd. rewrite NoDup_app. destruct Hd as (H1 & D1 & H2 & D2 & H3 & D3 & H4).
  split_and!; try done.
  - intros k Hk H. apply (D1 k Hk), elem_of_app. by left.
  - intros k Hk. split; intros H; apply (D1 k Hk); rewrite !elem_of_app; auto.
  - intros k Hk H. apply (D2 k Hk), elem_of_app. by right.
Qed.

Lemma od_set_app {K V} `{EqDecision K} (k : K) (v : V) d1 d2 :
  od_set k v (d1 ++ d2) = if od_mem k d1 then od_set k v d1 ++ d2 else d1 ++ od_set k v d2.
Proof.
  unfold od_mem. induction d1 as [|[j u] d1 IH]; simpl; [done |]. case_decide; [done |].
  rewrite IH. by destruct (od_get k d1).
Qed.

Lemma od_keys_app {K V} (d1 d2 : list (K * V)) : od_keys (d1 ++ d2) = od_keys d1 ++ od_keys d2.
Proof. apply fmap_app. Qed.
Lemma od_keys_del_perm {K V} `{EqDecision K} (k : K) (v : V) d :
  od_get k d = Some v -> od_keys d ≡ₚ k :: od_keys (od_del k d).
Proof. intros H. unfold od_keys. by rewrite (od_del_perm _ _ _ H) at 1. Qed.
Lemma od_keys_del_sub {K V} `{EqDecision K} (k : K) (d : list (K * V)) : od_keys (od_del k d) ⊆+ od_keys d.
Proof. apply sublist_submseteq, fmap_sublist, od_del_sublist. Qed.
Lemma od_keys_move {K V} `{EqDecision K} (k : K) (v : V) d :
  od_get k d = Some v -> od_keys (od_del k d ++ [(k, v)]) ≡ₚ od_keys d.
Proof. intros H. rewrite od_keys_app, (od_keys_del_perm _ _ _ H). simpl. by rewrite Permutation_app_comm. Qed.
Lemma od_move_perm {K V} `{EqDecision K} (k : K) (v : V) d :
  od_get k d = Some v -> od_del k d ++ [(k, v)] ≡ₚ d.
Proof. intros H. rewrite (od_del_perm _ _ _ H) at 2. by rewrite Permutation_app_comm. Qed.
Lemma od_mem_key {K V} `{EqDecision K} (k : K) (d : list (K * V)) : od_mem k d = true -> k ∈ od_keys d.
Proof. unfold od_mem. destruct (od_get k d) eqn:E; [| done]. intros _. by eapply od_get_Some_key. Qed.

Lemma arc_set_ok p k b b' : arc_ok p -> arc_get k p = Some b ->
  arc_ok (arc_set k b' p) /\ arc_items (arc_set k b' p) ≡ₚ od_set k b' (arc_items p).
Proof.
  intros Hok Hg. unfold arc_set, arc_items. rewrite od_set_app.
  destruct (od_mem k (t1 p)) eqn:Em; simpl; (split; [| done]); (eapply arc_ok_perm; [done | apply Hok |]).
  - by rewrite od_keys_set_old by (by apply od_mem_key).
  - unfold arc_get in Hg. unfold od_mem in Em. destruct (od_get k (t1 p)); [done |].
    by rewrite (od_keys_set_old k b' (t2 p)) by (by eapply od_get_Some_key).
Qed.

Lemma arc_insert_ok p k b : arc_ok p -> arc_get k p = None ->
  arc_ok (arc_insert k b p) /\ arc_items (arc_insert k b p) ≡ₚ (k, b) :: arc_items p.
Proof.
  intros Hok Hg. pose proof (arc_parts p Hok) as (O1 & O2 & O3 & O4 & _).
  unfold arc_get in Hg. destruct (od_get k (t1 p)) eqn:E1; [done |].
  unfold arc_insert, arc_items. simpl. rewrite (od_set_new k b (t1 p)) by done. split.
  - split; [| apply Hok]. unfold arc_keys. simpl. rewrite od_keys_app. simpl.
    rewrite <- app_assoc, Permutation_app_comm. simpl. rewrite !od_get_None in *.
    apply NoDup_cons. split.
    + rewrite !elem_of_app, !od_keys_del_elem by done. naive_solver.
    + rewrite Permutation_app_comm. eapply NoDup_of_sub; [| apply (arc_disjoint _ Hok)].
      unfold arc_keys. do 2 (apply submseteq_app; [done |]). apply submseteq_app; apply od_keys_del_sub.
  - rewrite <- app_assoc. simpl. by rewrite <- Permutation_middle.
Qed.

Lemma arc_remove_ok p k b : arc_ok p -> arc_get k p = Some b ->
  exists p', arc_remove k p = (Ok tt, p') /\ arc_ok p' /\ (k, b) :: arc_items p' ≡ₚ arc_items p.
Proof.
  intros Hok Hg. unfold arc_remove, modify. eexists. split; [done |]. unfold arc_get in Hg. unfold od_mem, arc_items.
  destruct (od_get k (t1 p)) as [b0|] eqn:E1; simpl; split.
  - eapply arc_ok_perm; [done | apply Hok |]. unfold arc_keys. apply submseteq_app; [apply od_keys_del_sub | done].
  - injection Hg as ->. by rewrite (od_del_perm _ _ _ E1) at 2.
  - eapply arc_ok_perm; [done | apply Hok |]. unfold arc_keys. apply submseteq_app; [done |].
    apply submseteq_app; [apply od_keys_del_sub | done].
  - rewrite (od_del_perm _ _ _ Hg) at 2. by rewrite <- Permutation_middle.
Qed.

(** Touching a key permutes the lists (T1 to T2 at most) and moves the target. *)
Lemma arc_touch_one_keys rnd p k : arc_ok p ->
  arc_keys (arc_touch_one rnd p k) ≡ₚ arc_keys p /\ cache_capacity (arc_touch_one rnd p k) = cache_capacity p /\
  arc_items (arc_touch_one rnd p k) ≡ₚ arc_items p.
Proof.
  intros Hok. pose proof (arc_parts p Hok) as (O1 & O2 & _ & _ & _ & D & _).
  unfold arc_touch_one, od_move_to_end, arc_keys, arc_items.
  destruct (od_get k (t1 p)) as [b|] eqn:E1.
  - assert (od_get k (od_del k (t1 p)) = None) as Hn by (by rewrite od_get_del, decide_True).
    assert (od_get k (t2 p) = None) as Hn2 by (apply od_get_None, D; by eapply od_get_Some_key).
    destruct (negb (is_ready b)); simpl; (split_and!; [| done |]).
    + rewrite od_set_new by done. by rewrite (od_keys_move _ _ _ E1).
    + rewrite od_set_new by done. by rewrite (od_move_perm _ _ _ E1).
    + rewrite od_set_new by done. rewrite (od_keys_del_perm _ _ _ E1), od_keys_app. simpl.
      solve_Permutation.
    + rewrite od_set_new by done. rewrite (od_del_perm _ _ _ E1) at 2. simpl.
      solve_Permutation.
  - destruct (od_get k (t2 p)) as [b|] eqn:E2; [| destruct (od_get k (b1 p)) as [u|] eqn:E3;
      [| destruct (od_get k (b2 p)) as [u|] eqn:E4]]; simpl; (split_and!; [| done |]); try done.
    + by rewrite (od_keys_move _ _ _ E2).
    + by rewrite (od_move_perm _ _ _ E2).
    + by rewrite (od_keys_move _ _ _ E3).
    + by rewrite (od_keys_move _ _ _ E4).
Qed.

Lemma arc_touch_keys rnd ks p : arc_ok p ->
  arc_ok (arc_touch rnd ks p) /\ arc_items (arc_touch rnd ks p) ≡ₚ arc_items p.
Proof.
  unfold arc_touch. generalize (reverse ks). clear ks. intros ks. revert p.
  induction ks as [|k ks IH]; intros p Hok; simpl; [done |].
  destruct (arc_touch_one_keys rnd p k Hok) as (Hk & Hc & Hi).
  destruct (IH (arc_touch_one rnd p k)) as [? Hq].
  - split; [rewrite Hk; apply Hok | rewrite Hc; apply Hok].
  - split; [done |]. by rewrite Hq.
Qed.

(** *** Eviction *)

Lemma arc_find_spec protected sel d kb :
  arc_find protected sel d = Some kb -> kb ∈ d /\ evictable protected kb /\ (kb.1 ∉ sel).
Proof.
  induction d as [|x d IH]; simpl; [done |].
  destruct (is_evictable protected x && negb (bool_decide (x.1 ∈ sel))) eqn:E.
  - intros [= ->]. apply andb_true_iff in E as [E1 E2]. split_and!; [by left | by apply is_evictable_spec |].
    by apply negb_true_iff, bool_decide_eq_false in E2.
  - intros (? & ? & ?)%IH. split_and!; [by right | done | done].
Qed.

(** A candidate is an idle block of the list it was taken from. *)
Definition candidate_ok (p : ARCCachePolicy) (protected : gset OffloadKey)
    (c : OffloadKey * BlockStatus * bool) : Prop :=
  evictable protected c.1 /\ c.1 ∈ (if c.2 then t1 p else t2 p).

#[local] Notation ckeys c := ((fun x : OffloadKey * BlockStatus * bool => x.1.1) <$> c).

Lemma arc_select_spec n p protected : forall v c0 c,
  NoDup (ckeys c0) -> Forall (candidate_ok p protected) c0 ->
  arc_select n p protected v c0 = Some c ->
  NoDup (ckeys c) /\ Forall (candidate_ok p protected) c /\ length c = (length c0 + n)%nat.
Proof.
  induction n as [|n IH]; intros v c0 c Hnd Hall; simpl; [intros [= ->]; split_and!; [done | done | lia] |].
  assert (forall kb (f : bool), kb ∈ (if f then t1 p else t2 p) -> evictable protected kb ->
    (kb.1 ∉ ckeys c0) ->
    NoDup (ckeys (c0 ++ [(kb, f)])) /\ Forall (candidate_ok p protected) (c0 ++ [(kb, f)])) as Hext.
  { intros kb f Hin He Hn. rewrite fmap_app. split.
    - apply NoDup_app. split_and!; [done | | apply NoDup_singleton]. intros x Hx Hy.
      apply list_elem_of_singleton in Hy. simpl in Hy. by subst.
    - apply Forall_app_2; [done |]. by apply Forall_singleton. }
  assert (forall kb (f : bool) v', kb ∈ (if f then t1 p else t2 p) -> evictable protected kb ->
    (kb.1 ∉ ckeys c0) ->
    arc_select n p protected v' (c0 ++ [(kb, f)]) = Some c ->
    NoDup (ckeys c) /\ Forall (candidate_ok p protected) c /\ length c = (length c0 + S n)%nat) as Hstep.
  { intros kb f v' Hin He Hn Hs. destruct (Hext kb f Hin He Hn) as [H1 H2].
    destruct (IH _ _ _ H1 H2 Hs) as (? & ? & Hl). split_and!; [done | done |]. rewrite length_app in Hl. simpl in Hl. lia. }
  destruct (if py_int (target_t1_size p) <=? v then arc_find protected (ckeys c0) (t1 p) else None) as [kb|] eqn:E.
  - destruct (py_int (target_t1_size p) <=? v); [| done]. apply arc_find_spec in E as (? & ? & ?). by apply (Hstep kb true).
  - clear E. destruct (arc_find _ _ (t2 p)) as [kb|] eqn:E; [| done].
    apply arc_find_spec in E as (? & ? & ?). by apply (Hstep kb false).
Qed.

Lemma arc_apply_ok p protected c : arc_ok p -> candidate_ok p protected c ->
  arc_ok (arc_apply p c) /\ c.1 :: arc_items (arc_apply p c) ≡ₚ arc_items p /\
  cache_capacity (arc_apply p c) = cache_capacity p.
Proof.
  intros Hok [He Hin]. pose proof (arc_parts p Hok) as (O1 & O2 & O3 & O4 & _ & D1 & D2).
  destruct c as [[k b] f]. unfold arc_apply, arc_items. simpl in *. destruct f; simpl.
  - pose proof (od_elem_get _ _ _ O1 Hin) as Hg. split_and!; [| | done].
    + eapply arc_ok_perm; [done | apply Hok |]. unfold arc_keys.
      rewrite od_set_new by (apply od_get_None, D1; by eapply od_get_Some_key).
      rewrite (od_keys_del_perm _ _ _ Hg), od_keys_app. simpl.
      apply Permutation_submseteq. rewrite <- app_assoc. simpl. solve_Permutation.
    + by rewrite (od_del_perm _ _ _ Hg) at 2.
  - pose proof (od_elem_get _ _ _ O2 Hin) as Hg. split_and!; [| | done].
    + eapply arc_ok_perm; [done | apply Hok |]. unfold arc_keys.
      rewrite od_set_new by (apply od_get_None, D2; by eapply od_get_Some_key).
      rewrite (od_keys_del_perm _ _ _ Hg), od_keys_app. simpl.
      apply Permutation_submseteq. solve_Permutation.
    + rewrite (od_del_perm _ _ _ Hg) at 2. by rewrite Permutation_middle.
Qed.

Lemma candidate_ok_after p protected c d : arc_ok p -> c.1.1 <> d.1.1 ->
  candidate_ok p protected d -> candidate_ok (arc_apply p c) protected d.
Proof.
  intros Hok Hne [He Hin]. pose proof (arc_parts p Hok) as (O1 & O2 & _). split; [done |].
  unfold arc_apply. destruct (c.2), (d.2); simpl; try done; (apply od_elem_del; [done |]; split; [done | congruence]).
Qed.

Lemma arc_apply_all protected cs : forall p, arc_ok p -> NoDup (ckeys cs) -> Forall (candidate_ok p protected) cs ->
  arc_ok (foldl arc_apply p cs) /\ cs.*1 ++ arc_items (foldl arc_apply p cs) ≡ₚ arc_items p.
Proof.
  induction cs as [|c cs IH]; intros p Hok Hnd Hall; simpl; [done |].
  apply NoDup_cons in Hnd as [Hn Hnd]. apply Forall_cons_1 in Hall as [Hc Hall].
  destruct (arc_apply_ok p protected c Hok Hc) as (Hok' & Hi & _).
  destruct (IH (arc_apply p c) Hok' Hnd) as [Hok2 Hi2].
  - rewrite Forall_forall in Hall |- *. intros d Hd. apply candidate_ok_after; [done | | by apply Hall].
    intros He. apply Hn. rewrite He. by apply (list_elem_of_fmap_2 (fun x : OffloadKey * BlockStatus * bool => x.1.1)).
  - split; [done |]. by rewrite Hi2.
Qed.

Lemma trim_ghost_spec cap g : 0 <= cap -> exists g', trim_ghost cap g = Ok g' /\ od_keys g' ⊆+ od_keys g /\ zlen g' <= cap.
Proof.
  intros Hc. unfold trim_ghost. rewrite (proj2 (Z.ltb_ge _ _)) by lia. eexists. split_and!; [done | |].
  - apply sublist_submseteq, fmap_sublist, sublist_drop.
  - unfold zlen. rewrite length_drop. lia.
Qed.

(** A successful eviction also bounds the ghost lists by the capacity. *)
Lemma arc_evict_spec p n protected : arc_ok p -> 0 <= n ->
  exists o p', arc_evict n protected p = (Ok o, p') /\
    match o with
    | None => p' = p
    | Some ev => arc_ok p' /\ zlen ev = n /\ ev ++ arc_items p' ≡ₚ arc_items p /\ Forall (evictable protected) ev /\
        (n = 0 \/ (zlen (b1 p') <= cache_capacity p' /\ zlen (b2 p') <= cache_capacity p'))
    end.
Proof.
  intros Hok Hn. unfold arc_evict. destruct (Z.eqb_spec n 0) as [-> | Hn0].
  { eexists _, _. split; [done |]. split_and!; try done. by left. }
  unfold bind, get, put, ret, lift. destruct (arc_select _ _ _ _ _) as [cs|] eqn:Es; [| by eexists _, _].
  apply arc_select_spec in Es as (Hnd & Hall & Hl); [| by apply NoDup_nil_2 | by apply Forall_nil_2].
  destruct (arc_apply_all protected cs p Hok Hnd Hall) as [Hok' Hi].
  destruct (trim_ghost_spec _ (b1 (foldl arc_apply p cs)) (arc_cap _ Hok')) as (g1 & -> & S1 & L1).
  destruct (trim_ghost_spec _ (b2 (foldl arc_apply p cs)) (arc_cap _ Hok')) as (g2 & -> & S2 & L2).
  eexists _, _. split; [done |]. split_and!.
  - eapply arc_ok_perm; [exact Hok' | apply Hok' |]. unfold arc_keys.
    do 2 (apply submseteq_app; [done |]). by apply submseteq_app.
  - unfold zlen. rewrite length_fmap, Hl. simpl. lia.
  - exact Hi.
  - rewrite Forall_fmap. eapply Forall_impl; [exact Hall |]. by intros c [? _].
  - right. by split.
Qed.

#[export] Program Instance arc_laws rnd : @CachePolicyLaws ARCCachePolicy (arc_policy rnd) := {|
  policy_ok := arc_ok;
  policy_items := arc_items;
|}.
Next Obligation. intros rnd n Hn. split; [| done]. split; [apply NoDup_nil_2 | done]. Qed.
Next Obligation. intros rnd p Hok. by apply arc_parts. Qed.
Next Obligation. intros rnd p k Hok. simpl. unfold arc_get, arc_items. by rewrite od_get_app. Qed.
Next Obligation. intros rnd p k b b'. apply arc_set_ok. Qed.
Next Obligation. intros rnd p k b. apply arc_insert_ok. Qed.
Next Obligation. intros rnd p k b. apply arc_remove_ok. Qed.
Next Obligation. intros rnd p ks. apply arc_touch_keys. Qed.
Next Obligation.
  intros rnd p n protected Hok Hn. destruct (arc_evict_spec p n protected Hok Hn) as (o & p' & E & H).
  exists o, p'. split; [exact E |]. destruct o; [| done]. by destruct H as (? & ? & ? & ? & _).
Qed.

(** *** The adaptive target *)

Definition target_ok (p : ARCCachePolicy) : Prop :=
  (0 <= target_t1_size p <= inject_Z (cache_capacity p))%Q.

Lemma py_max_le a b c : (a <= c -> b <= c -> py_max a b <= c)%Q.
Proof. unfold py_max. by destruct (Qlt_le_dec a b). Qed.
Lemma py_max_ge_l a b : (a <= py_max a b)%Q.
Proof. unfold py_max. destruct (Qlt_le_dec a b); lra. Qed.
Lemma py_max_ge_r a b : (b <= py_max a b)%Q.
Proof. unfold py_max. destruct (Qlt_le_dec a b); lra. Qed.
Lemma py_min_ge a b c : (c <= a -> c <= b -> c <= py_min a b)%Q.
Proof. unfold py_min. by destruct (Qlt_le_dec b a). Qed.
Lemma py_min_le_r a b : (py_min a b <= b)%Q.
Proof. unfold py_min. destruct (Qlt_le_dec b a); lra. Qed.

Lemma arc_touch_one_target rnd p k : float_rounding rnd -> arc_ok p -> cache_capacity p <= 2 ^ 53 ->
  target_ok p -> target_ok (arc_touch_one rnd p k).
Proof.
  intros Hr Hok Hcap [H0 H1]. unfold target_ok, arc_touch_one, od_move_to_end.
  assert (0 <= inject_Z (cache_capacity p))%Q as Hc0 by (rewrite <- (Zle_Qle 0); apply Hok).
  destruct (od_get k (t1 p)) as [b|]; [by destruct (negb (is_ready b)) |].
  destruct (od_get k (t2 p)) as [b|]; [done |].
  destruct (od_get k (b1 p)) as [b|]; [| destruct (od_get k (b2 p)) as [b|]]; simpl; [| | done].
  - set (delta := py_max 1 _). assert (1 <= delta)%Q by apply py_max_ge_l. split; [| apply py_min_le_r].
    apply py_min_ge; [| done]. rewrite <- (rnd_int rnd Hr 0) at 1 by done. apply (rnd_mono rnd Hr).
    change (inject_Z 0) with 0%Q. lra.
  - set (delta := py_max 1 _). assert (1 <= delta)%Q by apply py_max_ge_l. split; [apply py_max_ge_r |].
    apply py_max_le; [| done]. rewrite <- (rnd_int rnd Hr (cache_capacity p)).
    + apply (rnd_mono rnd Hr). lra.
    + rewrite Z.abs_eq; [done | apply Hok].
Qed.

Lemma arc_apply_all_target cs : forall p,
  target_t1_size (foldl arc_apply p cs) = target_t1_size p /\ cache_capacity (foldl arc_apply p cs) = cache_capacity p.
Proof.
  induction cs as [|c cs IH]; intros p; simpl; [done |]. destruct (IH (arc_apply p c)) as [-> ->].
  unfold arc_apply. by destruct (c.2).
Qed.

Lemma arc_evict_target n protected p r p' : arc_evict n protected p = (r, p') ->
  target_t1_size p' = target_t1_size p /\ cache_capacity p' = cache_capacity p.
Proof.
  unfold arc_evict, bind, get, put, ret, lift. destruct (n =? 0); [by intros [= <- <-] |].
  destruct (arc_select _ _ _ _ _) as [cs|]; [| by intros [= <- <-]].
  destruct (arc_apply_all_target cs p) as [Ht Hc].
  destruct (trim_ghost _ (b1 _)); [| by intros [= <- <-]].
  destruct (trim_ghost _ (b2 _)); by intros [= <- <-].
Qed.

Lemma arc_touch_target rnd ks p : float_rounding rnd -> arc_ok p -> cache_capacity p <= 2 ^ 53 -> target_ok p ->
  target_ok (arc_touch rnd ks p) /\ cache_capacity (arc_touch rnd ks p) = cache_capacity p.
Proof.
  intros Hr. unfold arc_touch. generalize (reverse ks). clear ks. intros ks. revert p.
  induction ks as [|k ks IH]; intros p Hok Hc Ht; simpl; [done |].
  destruct (arc_touch_one_keys rnd p k Hok) as (Hk & Hcap & _).
  destruct (IH (arc_touch_one rnd p k)) as [? Hq].
  - split; [rewrite Hk; apply Hok | rewrite Hcap; apply Hok].
  - lia.
  - by apply arc_touch_one_target.
  - split; [done | congruence].
Qed.
