(* ===== verification/OffloadManager.v ===== *)
(** * OffloadManager
    vllm/v1/kv_offload: the CPU offloading manager (cpu/manager.py) over any [CachePolicy],
    the constructor that selects the policy, the decorator that only stores blocks that
    were looked up often enough (reuse_manager.py), and the keys (abstract.py).

    The [medium] of the specs and events is the constant CPU and is left out. *)
From Stdlib Require Import QArith.
From S2P Require Import Prelude OrdDict CachePolicy Request BlockHash.
#[local] Open Scope Z_scope.

(** ** Keys *)
Definition make_offload_key (block_hash : OffloadKey) (group_idx : Z) : res OffloadKey :=
  match to_bytes4 group_idx with
  | Ok g => Ok (block_hash ++ g)
  | Err e => Err e
  end.
Definition get_offload_block_hash (key : OffloadKey) : OffloadKey := py_slice key 0 (-4).
Definition get_offload_group_idx (key : OffloadKey) : Z := from_bytes_big (py_slice key (-4) (zlen key)).

(** ** Data *)
Record OffloadingEvent := mkOEvent { ev_keys : list OffloadKey; ev_removed : bool }.

(** A load/store spec is the list of the slots. *)
Record PrepareStoreOutput := mkPSO {
  keys_to_store : list OffloadKey;
  store_spec : list Z;
  evicted_keys : list OffloadKey;
}.

Record CPUOffloadingManager (P : Type) := mkOM {
  _num_blocks : Z;
  _num_allocated_blocks : Z;
  _free_list : list Z;
  om_events : option (list OffloadingEvent);
  _policy : P;
}.
Arguments mkOM {P}.
Arguments _num_blocks {P}.
Arguments _num_allocated_blocks {P}.
Arguments _free_list {P}.
Arguments om_events {P}.
Arguments _policy {P}.

Section manager.
Context {P : Type} `{CachePolicy P}.
Implicit Types m : CPUOffloadingManager P.

Definition with_policy (p : P) m : CPUOffloadingManager P :=
  mkOM (_num_blocks m) (_num_allocated_blocks m) (_free_list m) (om_events m) p.
Definition with_slots (a : Z) (f : list Z) m : CPUOffloadingManager P :=
  mkOM (_num_blocks m) a f (om_events m) (_policy m).
Definition with_oevents (e : option (list OffloadingEvent)) m : CPUOffloadingManager P :=
  mkOM (_num_blocks m) (_num_allocated_blocks m) (_free_list m) e (_policy m).

Abbreviation OM A := (M (CPUOffloadingManager P) A).

Definition on_policy {A} (f : M P A) : OM A := zoom _policy with_policy f.
(** [self._policy.get(key)], and the mutation of the object it returned. *)
Definition block_of (k : OffloadKey) : OM (option BlockStatus) := gets (fun m => policy_get k (_policy m)).
Definition set_block (k : OffloadKey) (b : BlockStatus) : OM unit :=
  modify (fun m => with_policy (policy_set k b (_policy m)) m).

(** __init__ *)
Definition new_CPUOffloadingManager (num_blocks : Z) (enable_events : bool) : CPUOffloadingManager P :=
  mkOM num_blocks 0 [] (if enable_events then Some [] else None) (policy_init num_blocks).

(** *** Block pool *)
Definition _get_num_free_blocks m : Z := zlen (_free_list m) + _num_blocks m - _num_allocated_blocks m.

Definition _allocate_blocks (keys : list OffloadKey) : OM (list BlockStatus) :=
  let* m := get in
  let num_fresh := Z.min (zlen keys) (_num_blocks m - _num_allocated_blocks m) in
  let num_reused := zlen keys - num_fresh in
  assert (num_reused <=? zlen (_free_list m)) ;;;
  let fresh := (fun i => new_status (_num_allocated_blocks m + i)) <$> range num_fresh in
  let reused := new_status <$> take (Z.to_nat num_reused) (reverse (_free_list m)) in
  modify (with_slots (_num_allocated_blocks m + zlen fresh)
            (take (length (_free_list m) - Z.to_nat num_reused) (_free_list m))) ;;;
  ret (fresh ++ reused).

Definition _free_block (b : BlockStatus) : OM unit :=
  modify (fun m => with_slots (_num_allocated_blocks m) (_free_list m ++ [st_block_id b]) m).

Definition _get_load_store_spec (bs : list BlockStatus) : list Z := st_block_id <$> bs.

(** [if keys and self.events is not None: self.events.append(...)] *)
Definition emit (keys : list OffloadKey) (removed : bool) : OM unit :=
  modify (fun m => match keys, om_events m with
                   | _ :: _, Some es => with_oevents (Some (es ++ [mkOEvent keys removed])) m
                   | _, _ => m
                   end).

(** *** The OffloadingManager interface *)
Definition lookup (k : OffloadKey) m : bool :=
  match policy_get k (_policy m) with Some b => is_ready b | None => false end.

Definition load_one (k : OffloadKey) : OM BlockStatus :=
  let* o := block_of k in
  match o with
  | None => raise AssertionError
  | Some b =>
    assert (is_ready b) ;;;
    let b' := with_ref_cnt (st_ref_cnt b + 1) b in
    set_block k b' ;;;
    ret b'
  end.
Definition prepare_load (keys : list OffloadKey) : OM (list Z) :=
  let* bs := traverse keys load_one in ret (_get_load_store_spec bs).

Definition otouch (keys : list OffloadKey) : OM unit :=
  modify (fun m => with_policy (policy_touch keys (_policy m)) m).

Definition unload_one (k : OffloadKey) : OM unit :=
  let* o := block_of k in
  match o with
  | None => raise AssertionError
  | Some b => assert (0 <? st_ref_cnt b) ;;; set_block k (with_ref_cnt (st_ref_cnt b - 1) b)
  end.
Definition complete_load (keys : list OffloadKey) : OM unit := foreach keys unload_one.

Definition insert_all (kbs : list (OffloadKey * BlockStatus)) : OM unit :=
  foreach kbs (fun kb => modify (fun m => with_policy (policy_insert kb.1 kb.2 (_policy m)) m)).

Definition prepare_store (keys_list : list OffloadKey) : OM (option PrepareStoreOutput) :=
  let* m := get in
  let keys_to_store := filter (fun k => policy_get k (_policy m) = None) keys_list in
  match keys_to_store with
  | [] => ret (Some (mkPSO [] [] []))
  | _ =>
    let num_blocks_to_evict := zlen keys_to_store - _get_num_free_blocks m in
    let* ev := (if 0 <? num_blocks_to_evict
                then on_policy (policy_evict num_blocks_to_evict (list_to_set keys_list))
                else ret (Some [])) in
    match ev with
    | None => ret None
    | Some evicted =>
      foreach evicted (fun kb => _free_block kb.2) ;;;
      emit evicted.*1 true ;;;
      let* blocks := _allocate_blocks keys_to_store in
      assert (zlen blocks =? zlen keys_to_store) ;;;
      insert_all (zip keys_to_store blocks) ;;;
      ret (Some (mkPSO keys_to_store (_get_load_store_spec blocks) evicted.*1))
    end
  end.

(** The body of the two loops of complete_store; returns the keys it stored. *)
Definition store_one (success : bool) (k : OffloadKey) : OM (list OffloadKey) :=
  let* o := block_of k in
  match o with
  | Some b =>
    if is_ready b then ret []
    else if success then set_block k (with_ref_cnt 0 b) ;;; ret [k]
    else on_policy (policy_remove k) ;;; _free_block b ;;; ret []
  | None => ret []
  end.
Definition complete_store (keys : list OffloadKey) (success : bool) : OM unit :=
  let* stored := traverse keys (store_one success) in
  emit (concat stored) false.

(** take_events, consumed completely. *)
Definition take_oevents : OM (list OffloadingEvent) :=
  let* m := get in
  match om_events m with
  | Some es => modify (with_oevents (Some [])) ;;; ret es
  | None => ret []
  end.
End manager.
Abbreviation OM P A := (M (CPUOffloadingManager P) A).

(** __init__ with the policy given by name. *)
Definition new_offloading_manager (rnd : Q -> Q) (num_blocks : Z) (cache_policy : string) (enable_events : bool)
    : res (CPUOffloadingManager LRUCachePolicy + CPUOffloadingManager ARCCachePolicy) :=
  if String.eqb cache_policy "lru" then Ok (inl (new_CPUOffloadingManager num_blocks enable_events))
  else if String.eqb cache_policy "arc"
  then Ok (inr (@new_CPUOffloadingManager _ (arc_policy rnd) num_blocks enable_events))
  else Err ValueError.

(** ** FilterReusedOffloadingManager *)
Record FilterReusedOffloadingManager (P : Type) := mkFilter {
  _backing : CPUOffloadingManager P;
  store_threshold : Z;
  max_tracker_size : Z;
  counts : list (OffloadKey * Z);
}.
Arguments mkFilter {P}.
Arguments _backing {P}.
Arguments store_threshold {P}.
Arguments max_tracker_size {P}.
Arguments counts {P}.

Section reuse.
Context {P : Type} `{CachePolicy P}.
Abbreviation FM A := (M (FilterReusedOffloadingManager P) A).

Definition new_filter (backing : CPUOffloadingManager P) (threshold max_size : Z)
    : res (FilterReusedOffloadingManager P) :=
  if threshold <? 2 then Err ValueError
  else if max_size <? 1 then Err ValueError
  else Ok (mkFilter backing threshold max_size []).

Definition on_backing {A} (f : OM P A) : FM A :=
  zoom _backing (fun b s => mkFilter b (store_threshold s) (max_tracker_size s) (counts s)) f.

(** The counting part of lookup. *)
Definition count_key (k : OffloadKey) (max_size : Z) (d : list (OffloadKey * Z)) : list (OffloadKey * Z) :=
  match od_get k d with
  | Some n => od_set k (n + 1) (default d (od_move_to_end k d))
  | None => od_set k 1 (if max_size <=? zlen d then drop 1 d else d)
  end.
Definition filter_lookup (k : OffloadKey) : FM bool :=
  modify (fun s => mkFilter (_backing s) (store_threshold s) (max_tracker_size s)
                     (count_key k (max_tracker_size s) (counts s))) ;;;
  gets (fun s => lookup k (_backing s)).

Definition filter_prepare_store (keys : list OffloadKey) : FM (option PrepareStoreOutput) :=
  let* s := get in
  on_backing (prepare_store (filter (fun k => store_threshold s <= default 0 (od_get k (counts s))) keys)).

Definition filter_prepare_load (keys : list OffloadKey) : FM (list Z) := on_backing (prepare_load keys).
Definition filter_touch (keys : list OffloadKey) : FM unit := on_backing (otouch keys).
Definition filter_complete_load (keys : list OffloadKey) : FM unit := on_backing (complete_load keys).
Definition filter_complete_store (keys : list OffloadKey) (success : bool) : FM unit :=
  on_backing (complete_store keys success).
Definition filter_take_events : FM (list OffloadingEvent) := on_backing take_oevents.
End reuse.
