(* ===== verification/OffloadInv.v ===== *)
(** * OffloadInv
    The invariant of the CPU offloading manager, for every policy that satisfies
    [CachePolicyLaws]: the slots of the stored blocks and the free list partition the slots
    handed out so far. *)
From S2P Require Import Prelude OrdDict CachePolicy OffloadManager.

(** The slots of a list of items. *)
Definition ids (d : Items) : list Z := (fun kb => st_block_id kb.2) <$> d.

#[export] Instance ids_proper : Proper ((≡ₚ) ==> (≡ₚ)) ids.
Proof. intros d d' Hd. unfold ids. by rewrite Hd. Qed.

Section inv.
Context {P : Type} `{CachePolicyLaws P}.
Implicit Types (m : CPUOffloadingManager P) (p : P) (k : OffloadKey) (b : BlockStatus).

(** ** Lookups after an operation of the policy *)
Lemma get_set p k b b' k' : policy_ok p -> policy_get k p = Some b ->
  policy_get k' (policy_set k b' p) = if decide (k' = k) then Some b' else policy_get k' p.
Proof.
  intros Hok Hg. destruct (policy_set_ok p k b b' Hok Hg) as [Hok' Hp]. rewrite !policy_get_items by done.
  rewrite (od_get_perm _ _ _ (policy_keys _ Hok') Hp). apply od_get_set.
Qed.
Lemma get_insert p k b k' : policy_ok p -> policy_get k p = None ->
  policy_get k' (policy_insert k b p) = if decide (k' = k) then Some b else policy_get k' p.
Proof.
  intros Hok Hg. destruct (policy_insert_ok p k b Hok Hg) as [Hok' Hp]. rewrite !policy_get_items by done.
  by rewrite (od_get_perm _ _ _ (policy_keys _ Hok') Hp).
Qed.

(** The number of slots the manager was created with. *)
Context (total : Z).

Record om_inv (m : CPUOffloadingManager P) : Prop := {
  oi_policy : policy_ok (_policy m);
  oi_slots : ids (policy_items (_policy m)) ++ _free_list m ≡ₚ seqZ 0 (_num_allocated_blocks m);
  oi_alloc : 0 <= _num_allocated_blocks m <= _num_blocks m;
  oi_width : _num_blocks m = total /\ total < 2 ^ 63;
}.

Lemma new_manager_inv ev : 0 <= total < 2 ^ 63 -> om_inv (new_CPUOffloadingManager total ev).
Proof.
  intros Hn. destruct (policy_init_ok total) as [Hok Hi]; [lia |]. split; simpl; [done | | lia | lia]. by rewrite Hi.
Qed.

(** Changing a stored block in place keeps the slots. *)
Lemma set_block_inv m k b b' : om_inv m -> policy_get k (_policy m) = Some b -> st_block_id b' = st_block_id b ->
  om_inv (with_policy (policy_set k b' (_policy m)) m).
Proof.
  intros [Hok Hs Ha Hw] Hg Hid. destruct (policy_set_ok _ k b b' Hok Hg) as [Hok' Hp].
  split; simpl; [done | | done | done]. rewrite <- Hs. apply Permutation_app_tail. unfold ids. rewrite Hp.
  rewrite policy_get_items in Hg by done. rewrite (od_set_perm k b b' _ Hg). simpl. rewrite Hid.
  by rewrite (od_del_perm k b _ Hg) at 2.
Qed.

Lemma remove_block_inv m k b p' : om_inv m -> policy_get k (_policy m) = Some b ->
  policy_remove k (_policy m) = (Ok tt, p') ->
  om_inv (with_slots (_num_allocated_blocks m) (_free_list m ++ [st_block_id b]) (with_policy p' m)).
Proof.
  intros [Hok Hs Ha Hw] Hg E. destruct (policy_remove_ok _ k b Hok Hg) as (p & E' & Hok' & Hp).
  rewrite E in E'. injection E' as <-. split; simpl; [done | | done | done]. rewrite <- Hs. unfold ids.
  rewrite <- Hp. simpl. rewrite app_assoc, Permutation_app_comm. done.
Qed.

Lemma preserves_with_block k {A} (f : option BlockStatus -> OM P A) :
  preserves om_inv (f None) ->
  (forall b m r m', om_inv m -> policy_get k (_policy m) = Some b -> f (Some b) m = (r, m') -> om_inv m') ->
  preserves om_inv (let* o := block_of k in f o).
Proof.
  intros Hn Hs m r m' Hi. unfold bind, block_of, gets. destruct (policy_get k (_policy m)) as [b|] eqn:E.
  - by apply (Hs b).
  - by apply Hn.
Qed.

Lemma prepare_load_inv keys : preserves om_inv (prepare_load keys).
Proof.
  unfold prepare_load. apply preserves_bind; [| intros; apply preserves_ret]. apply preserves_traverse. intros k.
  apply preserves_with_block; [apply preserves_raise |]. intros b m r m' Hi Hg.
  unfold bind, assert, set_block, modify. destruct (is_ready b); intros [= <- <-]; [| done].
  by apply (set_block_inv m k b).
Qed.

Lemma complete_load_inv keys : preserves om_inv (complete_load keys).
Proof.
  apply preserves_foreach. intros k. apply preserves_with_block; [apply preserves_raise |]. intros b m r m' Hi Hg.
  unfold bind, assert, set_block, modify. destruct (0 <? st_ref_cnt b); intros [= <- <-]; [| done].
  by apply (set_block_inv m k b).
Qed.

Lemma otouch_inv keys : preserves om_inv (otouch keys).
Proof.
  apply preserves_modify. intros m [Hok Hs Ha Hw]. destruct (policy_touch_ok _ keys Hok) as [Hok' Hp].
  split; simpl; try done. unfold ids. by rewrite Hp.
Qed.

Lemma emit_inv keys removed : preserves om_inv (emit keys removed).
Proof.
  apply preserves_modify. intros m [Hok Hs Ha Hw]. destruct keys; [done |]. by destruct (om_events m).
Qed.

Lemma complete_store_inv keys success : preserves om_inv (complete_store keys success).
Proof.
  unfold complete_store. apply preserves_bind; [| intros; apply emit_inv]. apply preserves_traverse. intros k.
  apply preserves_with_block; [apply preserves_ret |]. intros b m r m' Hi Hg. destruct (is_ready b); [by intros [= <- <-] |].
  destruct success; unfold bind, set_block, on_policy, zoom, modify, _free_block.
  - intros [= <- <-]. by apply (set_block_inv m k b).
  - destruct (policy_remove_ok _ k b (oi_policy _ Hi) Hg) as (p' & E & _). rewrite E. intros [= <- <-].
    by apply (remove_block_inv m k b p').
Qed.

Lemma take_oevents_inv : preserves om_inv take_oevents.
Proof. intros m r m' [Hok Hs Ha Hw]. unfold take_oevents, bind, get, modify, ret. destruct (om_events m); by intros [= <- <-]. Qed.

(** ** prepare_store *)

Lemma free_all_run (ev : Items) m :
  foreach ev (fun kb => _free_block kb.2) m =
  (Ok tt, with_slots (_num_allocated_blocks m) (_free_list m ++ ids ev) m).
Proof.
  revert m. induction ev as [|kb ev IH]; intros m; simpl.
  - unfold ret, ids. simpl. rewrite app_nil_r. by destruct m.
  - unfold bind at 1, _free_block at 1, modify. rewrite IH. unfold with_slots, ids. simpl. by rewrite <- app_assoc.
Qed.

Lemma new_status_ids l : Forall (fun i => 0 <= i < 2 ^ 63) l -> st_block_id <$> (new_status <$> l) = l.
Proof.
  induction 1 as [|i l Hi _ IH]; simpl; [done |]. f_equal; [| done]. apply c_int_id; lia.
Qed.

(** Allocation hands out slots that are fresh or from the free list. *)
Lemma allocate_spec keys m :
  0 <= _num_allocated_blocks m <= _num_blocks m -> _num_blocks m < 2 ^ 63 ->
  Forall (fun i => 0 <= i < 2 ^ 63) (_free_list m) -> zlen keys <= _get_num_free_blocks m ->
  exists l a f, _allocate_blocks keys m = (Ok (new_status <$> l), with_slots a f m) /\
    length l = length keys /\ st_block_id <$> (new_status <$> l) = l /\ _num_allocated_blocks m <= a <= _num_blocks m /\
    l ++ f ≡ₚ _free_list m ++ seqZ (_num_allocated_blocks m) (a - _num_allocated_blocks m).
Proof.
  intros Ha Hw Hf Hk. unfold _get_num_free_blocks in Hk. pose proof (zlen_nonneg keys) as Hn.
  set (nf := Z.min (zlen keys) (_num_blocks m - _num_allocated_blocks m)).
  set (nr := zlen keys - nf). set (al := _num_allocated_blocks m) in *.
  exists (((fun i => al + i) <$> range nf) ++ take (Z.to_nat nr) (reverse (_free_list m))), (al + nf),
    (take (length (_free_list m) - Z.to_nat nr) (_free_list m)).
  assert (0 <= nf <= zlen keys /\ 0 <= nr <= zlen (_free_list m)) as [H1 H2].
  { pose proof (zlen_nonneg (_free_list m)). unfold nr, nf, al in *. lia. }
  assert (length ((fun i => al + i) <$> range nf) = Z.to_nat nf) as Hl by (unfold range; by rewrite length_fmap, length_seqZ).
  split_and!.
  - unfold _allocate_blocks, bind, get, assert. fold al nf nr. rewrite (proj2 (Z.leb_le _ _)) by lia.
    unfold ret, modify. rewrite fmap_app, <- list_fmap_compose. repeat f_equal. unfold zlen, range. rewrite length_fmap, length_seqZ. lia.
  - rewrite length_app, Hl, length_take, length_reverse. unfold zlen in *. lia.
  - apply new_status_ids, Forall_app. split.
    + apply Forall_fmap, Forall_forall. intros i Hi. apply elem_of_seqZ in Hi. simpl. unfold nf in Hi. lia.
    + apply Forall_take. rewrite Forall_forall in Hf |- *. intros i Hi. apply Hf. by apply elem_of_reverse.
  - lia.
  - unfold nf. lia.
  - replace (al + nf - al) with nf by lia. unfold range.
    assert (((fun i => al + i) <$> seqZ 0 nf) = seqZ al nf) as ->.
    { unfold seqZ. rewrite <- list_fmap_compose. apply list_fmap_ext. intros ? ? ?. simpl. lia. }
    rewrite take_reverse, reverse_Permutation.
    rewrite <- app_assoc, (Permutation_app_comm (drop _ _)), take_drop. apply Permutation_app_comm.
Qed.

(** Inserting new keys adds them to the map. *)
Lemma insert_all_run (kbs : Items) m : policy_ok (_policy m) -> NoDup kbs.*1 ->
  (forall k, k ∈ kbs.*1 -> policy_get k (_policy m) = None) ->
  exists p', insert_all kbs m = (Ok tt, with_policy p' m) /\ policy_ok p' /\
    policy_items p' ≡ₚ kbs ++ policy_items (_policy m) /\
    (forall k, policy_get k p' = match od_get k kbs with Some b => Some b | None => policy_get k (_policy m) end).
Proof.
  revert m. induction kbs as [|[k b] kbs IH]; intros m Hok Hnd Hnew; simpl.
  - exists (_policy m). unfold insert_all. simpl. unfold ret. destruct m. done.
  - apply NoDup_cons in Hnd as [Hn Hnd]. assert (policy_get k (_policy m) = None) as Hk by (apply Hnew; by left).
    destruct (policy_insert_ok _ k b Hok Hk) as [Hok1 Hp1].
    destruct (IH (with_policy (policy_insert k b (_policy m)) m)) as (p' & E & Hok' & Hp & Hg); [done | done | |].
    { intros k' Hk'. simpl. rewrite get_insert by done. rewrite decide_False; [apply Hnew; by right |]. by intros ->. }
    exists p'. split_and!; [| done | |].
    + unfold insert_all in *. simpl. unfold bind at 1, modify at 1. exact E.
    + rewrite Hp. simpl. rewrite Hp1. by rewrite Permutation_middle.
    + intros k'. rewrite Hg. simpl. rewrite get_insert by done. case_decide; subst; [| done].
      rewrite (proj2 (od_get_None k kbs)); done.
Qed.

Lemma slots_bound m : om_inv m -> Forall (fun i => 0 <= i < _num_blocks m) (_free_list m).
Proof.
  intros [_ Hs Ha _]. apply Forall_forall. intros i Hi.
  assert (i ∈ seqZ 0 (_num_allocated_blocks m)) as Hin by (rewrite <- Hs; apply elem_of_app; by right).
  apply elem_of_seqZ in Hin. lia.
Qed.

(** Allocation and insertion, once enough slots are free. *)
Lemma store_tail ks evk m : om_inv m -> NoDup ks -> (forall k, k ∈ ks -> policy_get k (_policy m) = None) ->
  zlen ks <= _get_num_free_blocks m ->
  exists l m',
    (let* blocks := _allocate_blocks ks in
     assert (zlen blocks =? zlen ks) ;;;
     insert_all (zip ks blocks) ;;;
     ret (Some (mkPSO ks (_get_load_store_spec blocks) evk))) m = (Ok (Some (mkPSO ks l evk)), m') /\
    om_inv m' /\ Forall2 (fun k i => policy_get k (_policy m') = Some (mkStatus (-1) i)) ks l /\
    (forall k, k ∉ ks -> policy_get k (_policy m') = policy_get k (_policy m)).
Proof.
  intros Hi Hnd Hnew Hfree. pose proof (slots_bound m Hi) as Hb. destruct Hi as [Hok Hs Ha Hw].
  destruct (allocate_spec ks m) as (l & a & f & E & Hl & Hids & Hal & Hp); [done | lia | | done |].
  { eapply Forall_impl; [exact Hb |]. simpl. lia. }
  assert ((zip ks (new_status <$> l)).*1 = ks) as Hkeys by (apply fst_zip; rewrite length_fmap; lia).
  destruct (insert_all_run (zip ks (new_status <$> l)) (with_slots a f m)) as (p' & E' & Hok' & Hp' & Hg);
    [done | by rewrite Hkeys | by rewrite Hkeys |].
  exists l. eexists. split_and!.
  - unfold bind at 1. rewrite E. unfold assert, zlen. rewrite length_fmap, Hl, Z.eqb_refl.
    unfold bind at 1, ret at 1. unfold bind. rewrite E'. unfold _get_load_store_spec. rewrite Hids. done.
  - split; simpl; [done | | lia | lia].
    rewrite Hp'. unfold ids. rewrite fmap_app. simpl.
    assert ((fun kb : OffloadKey * BlockStatus => st_block_id kb.2) <$> zip ks (new_status <$> l) = l) as ->.
    { change (st_block_id ∘ snd <$> zip ks (new_status <$> l) = l).
      rewrite list_fmap_compose, snd_zip by (rewrite length_fmap; lia). exact Hids. }
    rewrite (Permutation_app_comm l), <- app_assoc, Hp, app_assoc, Hs, <- seqZ_app by lia.
    by replace (_num_allocated_blocks m + (a - _num_allocated_blocks m)) with a by lia.
  - apply Forall2_same_length_lookup_2; [done |]. intros i k s Hk Hsl. simpl. rewrite Hg.
    rewrite (od_elem_get k (new_status s)).
    + f_equal. unfold new_status. f_equal. assert ((st_block_id <$> (new_status <$> l)) !! i = Some s) as Hx by (by rewrite Hids).
      rewrite !list_lookup_fmap, Hsl in Hx. simpl in Hx. congruence.
    + unfold od_ok, od_keys. by rewrite Hkeys.
    + apply list_elem_of_lookup. exists i. rewrite lookup_zip_with. simpl. rewrite Hk, list_lookup_fmap, Hsl. done.
  - intros k Hk. simpl. rewrite Hg. rewrite (proj2 (od_get_None k _)); [done |]. unfold od_keys. by rewrite Hkeys.
Qed.

Lemma evicted_get p p' ev k : policy_ok p -> policy_ok p' -> ev ++ policy_items p' ≡ₚ policy_items p ->
  policy_get k p = match od_get k ev with Some b => Some b | None => policy_get k p' end /\
  (k ∈ ev.*1 -> policy_get k p' = None).
Proof.
  intros Hok Hok' Hp. rewrite !policy_get_items by done.
  rewrite <- (od_get_perm k (ev ++ policy_items p') (policy_items p)); [| | done].
  2: { eapply od_ok_perm; [symmetry; exact Hp | by apply policy_keys]. }
  split; [apply od_get_app |]. intros Hk. apply od_get_None. intros Hk'.
  pose proof (policy_keys p Hok) as Hnd. unfold od_keys in *. rewrite <- Hp, fmap_app in Hnd.
  apply NoDup_app in Hnd as (_ & Hd & _). by apply (Hd k).
Qed.

(** The state after the eviction and the return of the evicted slots to the free list. *)
Definition evicted_state (p' : P) (ev : Items) m : CPUOffloadingManager P :=
  with_slots (_num_allocated_blocks m) (_free_list m ++ ids ev) (with_policy p' m).

Lemma evicted_state_inv p' ev m : om_inv m -> policy_ok p' -> ev ++ policy_items p' ≡ₚ policy_items (_policy m) ->
  om_inv (evicted_state p' ev m) /\ _get_num_free_blocks (evicted_state p' ev m) = _get_num_free_blocks m + zlen ev.
Proof.
  intros [Hok Hs Ha Hw] Hok' Hp. split.
  - split; simpl; [done | | done | done]. rewrite <- Hs. unfold ids. rewrite <- Hp, fmap_app. solve_Permutation.
  - unfold _get_num_free_blocks. simpl. rewrite zlen_app. unfold zlen, ids. rewrite length_fmap. lia.
Qed.

(** What a successful prepare_store did. *)
Record stored (keys : list OffloadKey) m (out : PrepareStoreOutput) m' : Prop := {
  so_keys : keys_to_store out = filter (fun k => policy_get k (_policy m) = None) keys;
  so_count : zlen (evicted_keys out) = Z.max 0 (zlen (keys_to_store out) - _get_num_free_blocks m);
  so_evicted k : k ∈ evicted_keys out ->
    (k ∉ keys) /\ exists b, policy_get k (_policy m) = Some b /\ st_ref_cnt b = 0;
  so_slots : Forall2 (fun k i => policy_get k (_policy m') = Some (mkStatus (-1) i)) (keys_to_store out) (store_spec out);
  so_others k : k ∉ keys_to_store out ->
    policy_get k (_policy m') = if decide (k ∈ evicted_keys out) then None else policy_get k (_policy m);
}.

Lemma emit_run ev removed m : exists e, emit ev removed m = (Ok tt, with_oevents e m).
Proof.
  unfold emit, modify. destruct ev; [exists (om_events m); by destruct m |].
  destruct (om_events m) eqn:E; [by eexists |]. exists None. destruct m. simpl in *. by subst.
Qed.

Lemma om_inv_events e m : om_inv m -> om_inv (with_oevents e m).
Proof. by intros [Hok Hs Ha Hw]. Qed.

Lemma free_nonneg m : om_inv m -> 0 <= _get_num_free_blocks m.
Proof. intros [_ _ Ha _]. unfold _get_num_free_blocks. pose proof (zlen_nonneg (_free_list m)). lia. Qed.

(** The eviction phase of prepare_store. *)
Lemma evict_phase n keys m : om_inv m ->
  exists o p', (if 0 <? n then on_policy (policy_evict n (list_to_set keys)) else ret (Some [])) m = (Ok o, with_policy p' m) /\
    match o with
    | None => p' = _policy m /\ 0 < n
    | Some ev => policy_ok p' /\ zlen ev = Z.max 0 n /\ ev ++ policy_items p' ≡ₚ policy_items (_policy m) /\
                 Forall (evictable (list_to_set keys)) ev
    end.
Proof.
  intros Hi. destruct (Z.ltb_spec 0 n) as [Hn | Hn].
  - destruct (policy_evict_ok (_policy m) n (list_to_set keys) (oi_policy _ Hi)) as (o & p' & E & Ho); [lia |].
    exists o, p'. unfold on_policy, zoom. rewrite E. split; [done |]. destruct o as [ev|]; [| by subst].
    destruct Ho as (? & Hl & ? & ?). split_and!; [done | lia | done | done].
  - exists (Some []), (_policy m). split; [unfold ret; by destruct m |].
    split_and!; [apply Hi | unfold zlen; simpl; lia | done | by apply Forall_nil_2].
Qed.

(** Evicted keys were idle and not asked for; all other keys are untouched. *)
Lemma evicted_facts p' ev keys m : om_inv m -> policy_ok p' -> ev ++ policy_items p' ≡ₚ policy_items (_policy m) ->
  Forall (evictable (list_to_set keys)) ev ->
  (forall k, (k ∉ ev.*1) -> policy_get k p' = policy_get k (_policy m)) /\
  (forall k, k ∈ ev.*1 -> (k ∉ keys) /\ exists b, policy_get k (_policy m) = Some b /\ st_ref_cnt b = 0).
Proof.
  intros Hi Hok' Hp Hev. split; intros k Hk; destruct (evicted_get _ p' ev k (oi_policy _ Hi) Hok' Hp) as [-> _].
  - by rewrite (proj2 (od_get_None k ev)).
  - destruct (od_get k ev) as [b|] eqn:Eg; [| by apply od_get_None in Eg]. apply od_get_elem in Eg.
    rewrite Forall_forall in Hev. destruct (Hev _ Eg) as [H1 H2]. simpl in *.
    rewrite elem_of_list_to_set in H2. eauto.
Qed.

Lemma prepare_store_spec keys m : om_inv m -> NoDup keys ->
  exists o m', prepare_store keys m = (Ok o, m') /\ om_inv m' /\
    match o with
    | None => m' = m /\ _get_num_free_blocks m < zlen (filter (fun k => policy_get k (_policy m) = None) keys)
    | Some out => stored keys m out m'
    end.
Proof.
  intros Hi Hnd. pose proof (free_nonneg m Hi) as Hfr. unfold prepare_store, bind at 1, get.
  remember (filter (fun k => policy_get k (_policy m) = None) keys) as ks eqn:Eks.
  assert (forall k, k ∈ ks -> policy_get k (_policy m) = None /\ k ∈ keys) as Hks.
  { intros k. rewrite Eks, list_elem_of_filter. done. }
  destruct ks as [|k0 ks0] eqn:Ek.
  { eexists _, _. split; [done |]. split; [done |].
    split; [by rewrite <- Eks | unfold zlen; simpl; lia | by intros k ?%not_elem_of_nil | constructor |].
    intros k _. by rewrite decide_False by apply not_elem_of_nil. }
  rewrite <- Ek in *. clear Ek.
  destruct (evict_phase (zlen ks - _get_num_free_blocks m) keys m Hi) as (o & p' & E & Ho).
  unfold bind at 1. rewrite E. destruct o as [ev|].
  2: { destruct Ho as [-> Hn]. eexists _, _. split; [done |]. replace (with_policy (_policy m) m) with m by (by destruct m).
       split_and!; [done | done | lia]. }
  destruct Ho as (Hok' & Hl & Hp & Hev). destruct (evicted_state_inv p' ev m Hi Hok' Hp) as [Hi1 Hfree].
  destruct (evicted_facts p' ev keys m Hi Hok' Hp Hev) as [Hsame Hidle].
  unfold bind at 1. rewrite free_all_run. change (with_slots _ _ (with_policy p' m)) with (evicted_state p' ev m).
  destruct (emit_run ev.*1 true (evicted_state p' ev m)) as (e & Ee). unfold bind at 1. rewrite Ee.
  destruct (store_tail ks ev.*1 (with_oevents e (evicted_state p' ev m))) as (l & m' & Et & Hi' & Hslots & Hoth).
  - by apply om_inv_events.
  - rewrite Eks. by apply NoDup_filter.
  - intros k Hk. simpl. destruct (Hks k Hk). rewrite Hsame; [done |]. intros Hk'. by destruct (Hidle k Hk').
  - change (_get_num_free_blocks (with_oevents e (evicted_state p' ev m))) with (_get_num_free_blocks (evicted_state p' ev m)).
    lia.
  - eexists _, m'. split; [exact Et |]. split; [done |]. split; simpl; try done.
    + unfold zlen at 1. rewrite length_fmap. fold (zlen ev). lia.
    + intros k Hk. rewrite Hoth by done. simpl. case_decide as Hd; [| by apply Hsame].
      by apply (evicted_get _ p' ev k (oi_policy _ Hi) Hok' Hp).
Qed.

Lemma prepare_store_inv keys : NoDup keys -> preserves om_inv (prepare_store keys).
Proof.
  intros Hnd m r m' Hi E. destruct (prepare_store_spec keys m Hi Hnd) as (o & m1 & E1 & Hi1 & _). congruence.
Qed.

(** ** Loops that update one stored block per key *)
Section updates.
Context {A : Type} (body : OffloadKey -> OM P A) (g : BlockStatus -> BlockStatus) (out : OffloadKey -> BlockStatus -> A).
Context (guard : BlockStatus -> Prop).
Hypothesis Hbody : forall k b m, policy_get k (_policy m) = Some b -> guard b ->
  body k m = (Ok (out k b), with_policy (policy_set k (g b) (_policy m)) m).

Lemma traverse_updates ks bs m : policy_ok (_policy m) -> NoDup ks ->
  Forall2 (fun k b => policy_get k (_policy m) = Some b /\ guard b) ks bs ->
  exists p', traverse ks body m = (Ok (zip_with out ks bs), with_policy p' m) /\ policy_ok p' /\
    forall k, policy_get k p' = if decide (k ∈ ks) then g <$> policy_get k (_policy m) else policy_get k (_policy m).
Proof using Hbody.
  intros Hok Hnd Hf. revert m Hok Hnd Hf. revert bs. induction ks as [|k ks IH]; intros bs m Hok Hnd Hf.
  - inversion Hf; subst. exists (_policy m). split_and!; [by destruct m | done |].
    intros k. by rewrite decide_False by apply not_elem_of_nil.
  - inversion Hf as [|? b ? bs' [Hg Hgu] Hf']; subst. apply NoDup_cons in Hnd as [Hn Hnd].
    set (m1 := with_policy (policy_set k (g b) (_policy m)) m).
    assert (forall k', policy_get k' (_policy m1) = if decide (k' = k) then Some (g b) else policy_get k' (_policy m)) as Hm1
      by (intros k'; by apply get_set with b).
    destruct (IH bs' m1) as (p' & E & Hok' & Hall); [by eapply policy_set_ok | done | |].
    { apply Forall2_same_length_lookup_2; [by eapply Forall2_length |]. intros i k' b' Hk Hb.
      destruct (Forall2_lookup_lr _ _ _ _ _ _ Hf' Hk Hb) as [H1 H2]. rewrite Hm1, decide_False; [done |].
      intros ->. apply Hn. by eapply list_elem_of_lookup_2. }
    exists p'. split_and!; [| done |].
    + simpl. unfold bind at 1. rewrite (Hbody k b m Hg Hgu). fold m1. unfold bind. by rewrite E.
    + intros k'. rewrite Hall, !Hm1. destruct (decide (k' = k)) as [-> | Hne].
      * rewrite (decide_False (P := k ∈ ks)) by done. rewrite decide_True by (by left). by rewrite Hg.
      * destruct (decide (k' ∈ ks)) as [Hin | Hin].
        -- by rewrite decide_True by (by right).
        -- rewrite decide_False; [done |]. by intros [-> | ?]%elem_of_cons.
Qed.
End updates.

(** ** Storing and loading back *)
Lemma Forall2_get_in {B} (Q : OffloadKey -> B -> Prop) (R : OffloadKey -> B -> Prop) ks (l : list B) :
  Forall2 Q ks l -> (forall k i, k ∈ ks -> Q k i -> R k i) -> Forall2 R ks l.
Proof.
  intros Hf Himp. apply Forall2_same_length_lookup_2; [by eapply Forall2_length |]. intros j k i Hk Hl.
  apply Himp; [by eapply list_elem_of_lookup_2 |]. exact (Forall2_lookup_lr _ _ _ _ _ _ Hf Hk Hl).
Qed.

(** complete_store makes waiting blocks readable. *)
Lemma complete_store_waiting ks l m : om_inv m -> NoDup ks ->
  Forall2 (fun k i => policy_get k (_policy m) = Some (mkStatus (-1) i)) ks l ->
  exists m1, complete_store ks true m = (Ok tt, m1) /\ om_inv m1 /\
    Forall2 (fun k i => policy_get k (_policy m1) = Some (mkStatus 0 i)) ks l.
Proof.
  intros Hi Hnd Hf.
  destruct (traverse_updates (store_one true) (with_ref_cnt 0) (fun k _ => [k]) (fun b => is_ready b = false))
    with ks (mkStatus (-1) <$> l) m as (p1 & E1 & Hok1 & Hg1); [| apply Hi | done | |].
  { intros k b m0 Hk Hw. unfold store_one, bind, block_of, gets. rewrite Hk. by rewrite Hw. }
  { apply Forall2_fmap_r. eapply Forall2_impl; [exact Hf |]. by intros. }
  destruct (emit_run (concat (zip_with (fun k _ => [k]) ks (mkStatus (-1) <$> l))) false (with_policy p1 m)) as [e Ee].
  assert (complete_store ks true m = (Ok tt, with_oevents e (with_policy p1 m))) as Ec.
  { unfold complete_store, bind. by rewrite E1. }
  eexists. split; [exact Ec |]. split; [by eapply complete_store_inv |].
  eapply Forall2_get_in; [exact Hf |]. intros k i Hk Hg. simpl. rewrite Hg1, decide_True by done. by rewrite Hg.
Qed.

(** prepare_load of readable blocks returns their slots. *)
Lemma prepare_load_ready ks l m : om_inv m -> NoDup ks ->
  Forall2 (fun k i => policy_get k (_policy m) = Some (mkStatus 0 i)) ks l ->
  exists m1, prepare_load ks m = (Ok l, m1) /\ om_inv m1.
Proof.
  intros Hi Hnd Hf.
  destruct (traverse_updates load_one (fun b => with_ref_cnt (st_ref_cnt b + 1) b)
    (fun _ b => with_ref_cnt (st_ref_cnt b + 1) b) (fun b => is_ready b = true)) with ks (mkStatus 0 <$> l) m
    as (p2 & E2 & _); [| apply Hi | done | |].
  { intros k b m0 Hk Hw. unfold load_one, bind, block_of, gets. rewrite Hk. by rewrite Hw. }
  { apply Forall2_fmap_r. eapply Forall2_impl; [exact Hf |]. by intros. }
  assert (prepare_load ks m = (Ok l, with_policy p2 m)) as El.
  { unfold prepare_load, bind. rewrite E2. unfold ret, _get_load_store_spec. repeat f_equal.
    pose proof (Forall2_length _ _ _ Hf) as Hlen. clear - Hlen. revert l Hlen.
    induction ks as [|k ks IH]; intros [|i l]; simpl; intros; try done. f_equal. apply IH. lia. }
  eexists. split; [exact El |]. by eapply prepare_load_inv.
Qed.

Lemma ready_lookup ks l m : Forall2 (fun k i => policy_get k (_policy m) = Some (mkStatus 0 i)) ks l ->
  forall k, k ∈ ks -> lookup k m = true.
Proof.
  intros Hf k Hk. unfold lookup. apply list_elem_of_lookup in Hk as [j Hj].
  destruct (Forall2_lookup_l _ _ _ _ _ Hf Hj) as (i & _ & ->). done.
Qed.
End inv.
