(* ===== verification/OffloadProps.v ===== *)
(** * OffloadProps
    The properties of the CPU offloading of KV-cache blocks, for both replacement policies,
    with concrete instances. *)
From Stdlib Require Import QArith Lqa.
From S2P Require Import Prelude OrdDict CachePolicy CachePolicyInv OffloadManager OffloadInv.
#[local] Open Scope Z_scope.

(** ** The manager as a transition system *)
Section steps.
Context {P : Type} `{CachePolicyLaws P}.

(** A call of a public method, whether it returns or raises. The keys of one prepare_store are
    distinct, as the hashes of a request's blocks are; a repeated key would lose a slot. *)
Inductive om_step (m : CPUOffloadingManager P) : CPUOffloadingManager P -> Prop :=
  | os_prepare_load ks r m' : prepare_load ks m = (r, m') -> om_step m m'
  | os_complete_load ks r m' : complete_load ks m = (r, m') -> om_step m m'
  | os_touch ks r m' : otouch ks m = (r, m') -> om_step m m'
  | os_prepare_store ks r m' : NoDup ks -> prepare_store ks m = (r, m') -> om_step m m'
  | os_complete_store ks b r m' : complete_store ks b m = (r, m') -> om_step m m'
  | os_take_events r m' : take_oevents m = (r, m') -> om_step m m'.

Lemma om_step_inv total m m' : om_inv total m -> om_step m m' -> om_inv total m'.
Proof.
  intros Hi Hs. destruct Hs as [ks r m' E | ks r m' E | ks r m' E | ks r m' Hnd E | ks b r m' E | r m' E].
  - by eapply prepare_load_inv.
  - by eapply complete_load_inv.
  - by eapply otouch_inv.
  - by eapply prepare_store_inv.
  - by eapply complete_store_inv.
  - by eapply take_oevents_inv.
Qed.

Lemma om_steps_inv total m m' : om_inv total m -> rtc om_step m m' -> om_inv total m'.
Proof. intros Hi Hs. induction Hs; [done |]. eauto using om_step_inv. Qed.
End steps.

(** C33 (invariant): in every state of a CPU offloading manager that its methods can reach,
    also by calls that raise, when no call of prepare_store repeats a key (it would lose a
    slot), no key is stored twice, no two stored blocks share a slot, a stored block's slot
    is never in the free list, all slots are below [num_blocks], and stored blocks and free
    blocks add up to [num_blocks]. This holds for every cache policy that satisfies the laws. *)
Theorem offload_slots_partition {P} `{CachePolicyLaws P} n ev (m : CPUOffloadingManager P) :
  0 <= n < 2 ^ 63 -> rtc om_step (new_CPUOffloadingManager n ev) m ->
  let blocks := policy_items (_policy m) in
  NoDup (od_keys blocks) /\ NoDup (ids blocks ++ _free_list m) /\
  Forall (fun i => 0 <= i < n) (ids blocks ++ _free_list m) /\
  zlen blocks + _get_num_free_blocks m = n /\
  (forall k, policy_get k (_policy m) = od_get k blocks).
Proof.
  intros Hn Hs. apply (om_steps_inv n) in Hs as [Hok Hp Ha [Hnb Hw]]; [| by apply new_manager_inv].
  intros blocks. fold blocks in Hp. split_and!.
  - by apply policy_keys.
  - rewrite Hp. apply NoDup_seqZ.
  - rewrite Hp. apply Forall_forall. intros i Hi. apply elem_of_seqZ in Hi. lia.
  - apply Permutation_length in Hp. rewrite length_app, length_seqZ in Hp. unfold ids in Hp. rewrite length_fmap in Hp.
    unfold _get_num_free_blocks, zlen. lia.
  - intros k. by apply policy_get_items.
Qed.

(** C34 (safety): prepare_store of distinct keys never raises. Either it returns None and
    changes nothing, or it returns exactly the keys that were not stored, each now stored in
    a slot of its own and not yet readable; it evicts as many blocks as are missing, only
    blocks no transfer reads and none of the given keys, and leaves every other block
    untouched. *)
Theorem prepare_store_correct {P} `{CachePolicyLaws P} total (m : CPUOffloadingManager P) keys :
  om_inv total m -> NoDup keys ->
  exists o m', prepare_store keys m = (Ok o, m') /\ om_inv total m' /\
    match o with
    | None => m' = m /\ _get_num_free_blocks m < zlen (filter (fun k => policy_get k (_policy m) = None) keys)
    | Some out =>
      keys_to_store out = filter (fun k => policy_get k (_policy m) = None) keys /\
      zlen (evicted_keys out) = Z.max 0 (zlen (keys_to_store out) - _get_num_free_blocks m) /\
      (forall k, k ∈ evicted_keys out -> (k ∉ keys) /\ exists b, policy_get k (_policy m) = Some b /\ st_ref_cnt b = 0) /\
      Forall2 (fun k i => policy_get k (_policy m') = Some (mkStatus (-1) i)) (keys_to_store out) (store_spec out) /\
      (forall k, k ∉ keys_to_store out ->
         policy_get k (_policy m') = if decide (k ∈ evicted_keys out) then None else policy_get k (_policy m))
    end.
Proof.
  intros Hi Hnd. destruct (prepare_store_spec total keys m Hi Hnd) as (o & m' & E & Hi' & Ho).
  exists o, m'. split_and!; [done | done |]. destruct o as [out|]; [| done]. destruct Ho. by split_and!.
Qed.

(** C35 (roundtrip): blocks that were prepared for storing and whose transfer completed are
    found by lookup, and loading them reads exactly the slots they were stored to. *)
Theorem store_load_roundtrip {P} `{CachePolicyLaws P} total (m m1 : CPUOffloadingManager P) keys out :
  om_inv total m -> NoDup keys -> prepare_store keys m = (Ok (Some out), m1) ->
  exists m2 m3, complete_store (keys_to_store out) true m1 = (Ok tt, m2) /\
    (forall k, k ∈ keys_to_store out -> lookup k m2 = true) /\
    prepare_load (keys_to_store out) m2 = (Ok (store_spec out), m3) /\ om_inv total m3.
Proof.
  intros Hi Hnd E. destruct (prepare_store_spec total keys m Hi Hnd) as (o & m1' & E' & Hi1 & Ho).
  rewrite E in E'. injection E' as <- <-. destruct Ho as [Hk _ _ Hs _].
  assert (NoDup (keys_to_store out)) as Hnd' by (rewrite Hk; by apply NoDup_filter).
  destruct (complete_store_waiting total _ _ m1 Hi1 Hnd' Hs) as (m2 & E2 & Hi2 & Hs2).
  destruct (prepare_load_ready total _ _ m2 Hi2 Hnd' Hs2) as (m3 & E3 & Hi3).
  exists m2, m3. split_and!; try done. by eapply ready_lookup.
Qed.

(** ** ARC *)
Section arc_steps.
Context (rnd : Q -> Q).

(** An operation of the policy as the manager calls it. *)
Inductive arc_step (p : ARCCachePolicy) : ARCCachePolicy -> Prop :=
  | as_insert k b : arc_get k p = None -> arc_step p (arc_insert k b p)
  | as_set k b b' : arc_get k p = Some b -> arc_step p (arc_set k b' p)
  | as_remove k b p' : arc_get k p = Some b -> arc_remove k p = (Ok tt, p') -> arc_step p p'
  | as_touch ks : arc_step p (arc_touch rnd ks p)
  | as_evict n protected o p' : 0 <= n -> arc_evict n protected p = (Ok o, p') -> arc_step p p'.

(** The lists are disjoint and the target is within the capacity. *)
Definition arc_inv (cap : Z) (p : ARCCachePolicy) : Prop := arc_ok p /\ target_ok p /\ cache_capacity p = cap.

Lemma arc_step_inv cap p p' : float_rounding rnd -> cap <= 2 ^ 53 -> arc_inv cap p -> arc_step p p' -> arc_inv cap p'.
Proof.
  intros Hr Hc (Hok & Ht & Hcap) Hs. unfold arc_inv, target_ok in *. destruct Hs as [k b Hg | k b b' Hg | k b p' Hg E | ks | n pr o p' Hn E].
  - split; [by apply arc_insert_ok | done].
  - split; [by eapply arc_set_ok |]. unfold arc_set. by destruct (od_mem k (t1 p)).
  - destruct (arc_remove_ok p k b Hok Hg) as (p1 & E1 & Hok1 & _). rewrite E in E1. injection E1 as <-.
    split; [done |]. unfold arc_remove, modify in E. injection E as <-. by destruct (od_mem k (t1 p)).
  - split; [by apply arc_touch_keys |]. destruct (arc_touch_target rnd ks p Hr Hok) as [Ht' Hc']; [lia | done |].
    split; [exact Ht' | congruence].
  - destruct (arc_evict_target n pr p _ _ E) as [Ht' Hc']. rewrite Ht', Hc'. split; [| done].
    destruct (arc_evict_spec p n pr Hok Hn) as (o' & p1 & E1 & H). rewrite E in E1. injection E1 as <- <-.
    destruct o; [apply H | by subst].
Qed.
End arc_steps.

(** However the ARC policy is used, its four lists never share a key, and its
    adaptive target, computed in floating point, stays between 0 and the capacity. *)
Lemma arc_target_bounded rnd cap p :
  float_rounding rnd -> 0 <= cap <= 2 ^ 53 -> rtc (arc_step rnd) (mkARC cap 0 [] [] [] []) p ->
  NoDup (od_keys (t1 p) ++ od_keys (t2 p) ++ od_keys (b1 p) ++ od_keys (b2 p)) /\
  (0 <= target_t1_size p <= inject_Z cap)%Q.
Proof.
  intros Hr Hc Hs. assert (arc_inv cap p) as (Hok & Ht & <-); [| split; [apply Hok | exact Ht]].
  assert (arc_inv cap (mkARC cap 0 [] [] [] [])) as Hi.
  { split; [| split; [| done]]; [split; [apply NoDup_nil_2 | simpl; lia] |]. unfold target_ok. simpl.
    split; [lra |]. rewrite <- (Zle_Qle 0). lia. }
  induction Hs as [|x y z Hxy Hs IH]; [done |]. apply IH. by eapply arc_step_inv; [| lia | |].
Qed.

(** ** Reuse filter *)
Section filter.
Context {P : Type} `{CachePolicy P}.

Inductive filter_op :=
  | FLookup (k : OffloadKey) | FPrepareStore (ks : list OffloadKey) | FPrepareLoad (ks : list OffloadKey)
  | FTouch (ks : list OffloadKey) | FCompleteLoad (ks : list OffloadKey)
  | FCompleteStore (ks : list OffloadKey) (success : bool) | FTakeEvents.

#[export] Instance filter_op_eq_dec : EqDecision filter_op.
Proof. solve_decision. Defined.

(** The state after a call, whether it returns or raises. *)
Definition run_filter (s : FilterReusedOffloadingManager P) (op : filter_op) : FilterReusedOffloadingManager P :=
  match op with
  | FLookup k => (filter_lookup k s).2
  | FPrepareStore ks => (filter_prepare_store ks s).2
  | FPrepareLoad ks => (filter_prepare_load ks s).2
  | FTouch ks => (filter_touch ks s).2
  | FCompleteLoad ks => (filter_complete_load ks s).2
  | FCompleteStore ks b => (filter_complete_store ks b s).2
  | FTakeEvents => (filter_take_events s).2
  end.

(** The counters never overestimate the lookups, and the tracker is bounded. *)
Record counts_ok (history : list filter_op) (s : FilterReusedOffloadingManager P) : Prop := {
  co_keys : od_ok (counts s);
  co_size : zlen (counts s) <= max_tracker_size s;
  co_count k n : od_get k (counts s) = Some n -> n <= occ (FLookup k) history;
}.

Lemma occ_snoc_op op history k :
  occ (FLookup k) (history ++ [op]) = occ (FLookup k) history + if decide (op = FLookup k) then 1 else 0.
Proof. rewrite occ_app, occ_cons, occ_nil. by case_decide. Qed.

Lemma count_key_spec k mx (d : list (OffloadKey * Z)) : od_ok d -> 1 <= mx -> zlen d <= mx ->
  od_ok (count_key k mx d) /\ zlen (count_key k mx d) <= mx /\
  forall k' n, od_get k' (count_key k mx d) = Some n ->
    if decide (k' = k) then n <= default 0 (od_get k d) + 1 else od_get k' d = Some n.
Proof.
  intros Hok Hmx Hlen. unfold count_key. destruct (od_get k d) as [c|] eqn:E.
  - destruct (od_move_to_end_spec k c d Hok E) as (-> & Hok' & Hg). simpl. split_and!.
    + by apply od_ok_set.
    + unfold zlen in *. rewrite od_length_set. unfold od_mem. rewrite Hg, E. rewrite length_app. simpl.
      apply od_length_del in E. lia.
    + intros k' n. rewrite od_get_set, Hg. case_decide; [intros [= <-]; lia | done].
  - set (d0 := if mx <=? zlen d then drop 1 d else d).
    assert (d0 `sublist_of` d /\ zlen d0 + 1 <= mx) as [Hs Hl].
    { unfold d0. destruct (Z.leb_spec mx (zlen d)); [| split; [done | lia]].
      split; [apply sublist_drop |]. unfold zlen in *. rewrite length_drop. lia. }
    assert (od_ok d0) as Hok0 by (eapply sublist_NoDup; [exact Hok | by apply fmap_sublist]).
    split_and!.
    + by apply od_ok_set.
    + unfold zlen in *. rewrite od_length_set. destruct (od_mem k d0); lia.
    + intros k' n. rewrite od_get_set. case_decide; [intros [= <-]; simpl; lia |]. intros Hg.
      apply od_elem_get; [done |]. eapply elem_of_submseteq; [| by apply sublist_submseteq]. by apply od_get_elem.
Qed.

Lemma on_backing_frame {A} (f : OM P A) (s : FilterReusedOffloadingManager P) :
  counts (on_backing f s).2 = counts s /\ store_threshold (on_backing f s).2 = store_threshold s /\
  max_tracker_size (on_backing f s).2 = max_tracker_size s.
Proof. unfold on_backing, zoom. by destruct (f (_backing s)). Qed.

Lemma run_filter_frame op s : (forall k, op <> FLookup k) ->
  counts (run_filter s op) = counts s /\ store_threshold (run_filter s op) = store_threshold s /\
  max_tracker_size (run_filter s op) = max_tracker_size s.
Proof.
  intros Hop. destruct op as [k| | | | | |]; [by destruct (Hop k) | exact (on_backing_frame _ _) ..].
Qed.

Lemma run_filter_params op s :
  store_threshold (run_filter s op) = store_threshold s /\ max_tracker_size (run_filter s op) = max_tracker_size s.
Proof. destruct op as [k| | | | | |]; [done | exact (proj2 (on_backing_frame _ _)) ..]. Qed.

Lemma run_filter_counts history op s : 1 <= max_tracker_size s ->
  counts_ok history s -> counts_ok (history ++ [op]) (run_filter s op).
Proof.
  intros Hmx [Hk Hs Hc]. assert ((exists k, op = FLookup k) \/ (forall k, op <> FLookup k)) as [[k ->] | Hop]
    by (destruct op; [left; by eexists | right; done ..]).
  - unfold run_filter, filter_lookup, bind, modify, gets. simpl.
    destruct (count_key_spec k _ (counts s) Hk Hmx Hs) as (Hk' & Hs' & Hc'). split; simpl; [done | done |].
    intros k' n Hg. apply Hc' in Hg. rewrite occ_snoc_op. case_decide as Hd.
    + subst. rewrite decide_True by done. destruct (od_get k (counts s)) eqn:E; simpl in Hg; [apply Hc in E; lia |].
      pose proof (occ_nonneg (FLookup k) history). lia.
    + rewrite decide_False by congruence. apply Hc in Hg. lia.
  - destruct (run_filter_frame op s) as (E1 & _ & E3); [done |].
    split; rewrite E1; [done | by rewrite E3 |]. intros k n Hg. apply Hc in Hg. rewrite occ_snoc_op.
    case_decide; lia.
Qed.
End filter.

Lemma prepare_store_keys {P} `{CachePolicy P} ks (m m' : CPUOffloadingManager P) out k :
  prepare_store ks m = (Ok (Some out), m') -> k ∈ keys_to_store out -> k ∈ ks.
Proof.
  unfold prepare_store, bind at 1, get.
  remember (filter (fun k => policy_get k (_policy m) = None) ks) as sel eqn:Es.
  assert (forall x, x ∈ sel -> x ∈ ks) as Hsub by (intros x; rewrite Es, list_elem_of_filter; naive_solver).
  destruct sel as [|k0 sel'] eqn:E0; [by intros [= <- <-] ?%not_elem_of_nil |]. rewrite <- E0 in *. clear E0 Es.
  unfold bind, ret. repeat case_match; intros Hr; simplify_eq/=; auto.
Qed.

Lemma filter_history {P} `{CachePolicy P} history : forall past (s : FilterReusedOffloadingManager P),
  1 <= max_tracker_size s -> counts_ok past s ->
  counts_ok (past ++ history) (foldl run_filter s history) /\
  store_threshold (foldl run_filter s history) = store_threshold s /\
  max_tracker_size (foldl run_filter s history) = max_tracker_size s.
Proof.
  induction history as [|op history IH]; intros past s Hmx Hc; simpl; [by rewrite app_nil_r |].
  destruct (run_filter_params op s) as [Et Em].
  destruct (IH (past ++ [op]) (run_filter s op)) as (H1 & H2 & H3); [lia | by apply run_filter_counts |].
  rewrite <- app_assoc in H1. split_and!; [done | congruence | congruence].
Qed.

(** After any calls of the reuse filter, a block that prepare_store selects for
    storing was looked up at least [store_threshold] times, and the table of counters never
    exceeds [max_tracker_size]. *)
Lemma filter_stores_reused {P} `{CachePolicy P} (backing : CPUOffloadingManager P) threshold mx s0 history keys out s' :
  new_filter backing threshold mx = Ok s0 ->
  filter_prepare_store keys (foldl run_filter s0 history) = (Ok (Some out), s') ->
  (forall k, k ∈ keys_to_store out -> k ∈ keys /\ threshold <= occ (FLookup k) history) /\
  zlen (counts (foldl run_filter s0 history)) <= mx.
Proof.
  unfold new_filter. destruct (threshold <? 2) eqn:Et; [done |]. destruct (Z.ltb_spec mx 1) as [|Hmx]; [done |]. intros [= <-].
  destruct (filter_history history [] (mkFilter backing threshold mx [])) as ([_ Hsz Hc] & Eth & Emx); [simpl; lia | |].
  { split; simpl; [apply NoDup_nil_2 | unfold zlen; simpl; lia | done]. }
  simpl in *. rewrite Emx in Hsz. split; [| done].
  unfold filter_prepare_store, bind, get, on_backing, zoom in H0.
  destruct (prepare_store _ _) as [r b] eqn:E. injection H0 as -> <-. intros k Hk.
  apply (prepare_store_keys _ _ _ _ _ E) in Hk. apply list_elem_of_filter in Hk as [Hk Hin]. split; [done |].
  rewrite Eth in Hk. destruct (od_get k _) as [n|] eqn:Eg; simpl in Hk; [apply Hc in Eg; lia |].
  apply Z.ltb_ge in Et. lia.
Qed.

(** ** Concrete instances *)

(** Two slots; two blocks are stored and their transfers complete. *)
Definition demo_key (i : Z) : OffloadKey := [i].
Definition demo_lru : CPUOffloadingManager LRUCachePolicy := new_CPUOffloadingManager 2 true.
Definition demo_full_store {P} `{CachePolicy P} (m : CPUOffloadingManager P) : CPUOffloadingManager P :=
  (complete_store [demo_key 1; demo_key 2] true (prepare_store [demo_key 1; demo_key 2] m).2).2.

Lemma demo_keys_NoDup : NoDup [demo_key 1; demo_key 2].
Proof. apply (bool_decide_unpack _). vm_compute. done. Qed.

Lemma demo_full_store_steps {P} `{CachePolicyLaws P} (m : CPUOffloadingManager P) : rtc om_step m (demo_full_store m).
Proof.
  eapply rtc_l; [eapply os_prepare_store; [apply demo_keys_NoDup | apply surjective_pairing] |].
  eapply rtc_l; [eapply os_complete_store, surjective_pairing |]. apply rtc_refl.
Qed.

Lemma offload_slots_partition_witness :
  let m := demo_full_store demo_lru in
  zlen (policy_items (_policy m)) = 2 /\ zlen (policy_items (_policy m)) + _get_num_free_blocks m = 2 /\
  NoDup (ids (policy_items (_policy m)) ++ _free_list m).
Proof.
  intros m. destruct (offload_slots_partition 2 true m) as (_ & H1 & _ & H2 & _); [lia | apply demo_full_store_steps |].
  split_and!; [vm_compute; done | exact H2 | exact H1].
Defined.

(** The rounding of an exact arithmetic. *)
Lemma exact_rounding : float_rounding (fun x => x).
Proof. split; [done | reflexivity]. Qed.

(** With ARC, a third block evicts the first one. *)
#[local] Instance demo_arc_policy : CachePolicy ARCCachePolicy := arc_policy (fun x => x).
#[local] Instance demo_arc_laws : CachePolicyLaws ARCCachePolicy := arc_laws (fun x => x).
Definition demo_arc : CPUOffloadingManager ARCCachePolicy := demo_full_store (new_CPUOffloadingManager 2 false).

Lemma demo_arc_inv : om_inv 2 demo_arc.
Proof. eapply om_steps_inv; [apply new_manager_inv; lia | apply demo_full_store_steps]. Qed.

Lemma prepare_store_correct_witness :
  exists o m', prepare_store [demo_key 1; demo_key 3] demo_arc = (Ok o, m') /\ om_inv 2 m' /\
    (evicted_keys <$> o) = Some [demo_key 2] /\ (keys_to_store <$> o) = Some [demo_key 3].
Proof.
  destruct (prepare_store_correct 2 demo_arc [demo_key 1; demo_key 3] demo_arc_inv) as (o & m' & E & Hi & _).
  { apply (bool_decide_unpack _). vm_compute. done. }
  exists o, m'. split; [exact E |]. split; [exact Hi |]. vm_compute in E. injection E as <- _. done.
Defined.

Lemma store_load_roundtrip_witness :
  exists out m2 m3, store_spec out = [1] /\ lookup (demo_key 3) m2 = true /\
    prepare_load [demo_key 3] m2 = (Ok [1], m3) /\ om_inv 2 m3.
Proof.
  destruct (store_load_roundtrip 2 demo_arc (prepare_store [demo_key 3; demo_key 1] demo_arc).2 [demo_key 3; demo_key 1]
    (mkPSO [demo_key 3] [1] [demo_key 2]) demo_arc_inv) as (m2 & m3 & _ & Hl & Hp & Hi).
  - apply (bool_decide_unpack _). vm_compute. done.
  - vm_compute. done.
  - exists (mkPSO [demo_key 3] [1] [demo_key 2]), m2, m3. split; [done |]. split; [apply Hl; by left |]. by split.
Defined.

(** A hit in the ghost list of recently evicted blocks moves the target. *)
(** Two lookups make a block eligible. *)
