(* ===== verification/EncoderCache.v ===== *)
(** * EncoderCache
    vllm/v1/core/encoder_cache_manager.py: the cache of multi-modal encoder outputs
    (EncoderCacheManager), its stand-in for encoder-decoder models
    (EncoderDecoderCacheManager) and the computation of the encoder budgets. *)
From S2P Require Import Prelude OrdDict KVCacheBlock Request.

(** ** EncoderCacheManager *)
Record EncoderCacheManager := mkECM {
  cache_size : Z;
  num_free_slots : Z;
  num_freeable_slots : Z;
  cached : gmap string (gset string);
  freeable : list (string * Z);
  freed : list string;
}.

Abbreviation EM A := (M EncoderCacheManager A).

Definition new_EncoderCacheManager (size : Z) : EncoderCacheManager := mkECM size size size ∅ [] [].

Definition enc_reset : EM unit :=
  modify (fun c => mkECM (cache_size c) (cache_size c) (cache_size c) ∅ [] []).

(** [request.mm_features\[input_id\].identifier] *)
Definition mm_hash_of (r : Request) (input_id : Z) : res string :=
  match py_index (mm_features r) input_id with
  | Ok f => Ok (identifier f)
  | Err e => Err e
  end.

Definition check_and_update_cache (r : Request) (input_id : Z) : EM bool :=
  let* mm_hash := lift (mm_hash_of r input_id) in
  let* c := get in
  match cached c !! mm_hash with
  | None => ret false
  | Some refs =>
    (if decide (refs = ∅) then
       match od_get mm_hash (freeable c) with
       | None => raise KeyError
       | Some n => put (mkECM (cache_size c) (num_free_slots c) (num_freeable_slots c - n) (cached c)
                          (od_del mm_hash (freeable c)) (freed c))
       end
     else ret tt) ;;;
    modify (fun c => mkECM (cache_size c) (num_free_slots c) (num_freeable_slots c)
              (<[mm_hash := {[request_id r]} ∪ refs]> (cached c)) (freeable c) (freed c)) ;;;
    ret true
  end.

(** The eviction loop of can_allocate; [fr] is the current [freeable]. *)
Fixpoint evict_until (num_embeds : Z) (fr : list (string * Z)) : EM unit := fun c =>
  if num_embeds <=? num_free_slots c then (Ok tt, c)
  else
    match fr with
    | [] => (Err KeyError, c)
    | (mm_hash, n) :: fr' =>
      match cached c !! mm_hash with
      | None => (Err KeyError, mkECM (cache_size c) (num_free_slots c) (num_freeable_slots c) (cached c) fr' (freed c))
      | Some _ =>
        evict_until num_embeds fr'
          (mkECM (cache_size c) (num_free_slots c + n) (num_freeable_slots c) (delete mm_hash (cached c)) fr'
             (freed c ++ [mm_hash]))
      end
    end.

Definition can_allocate (r : Request) (input_id encoder_compute_budget num_embeds_to_schedule : Z) : EM bool :=
  let* num_embeds := lift (get_num_encoder_embeds r input_id) in
  if encoder_compute_budget <? num_embeds then ret false
  else
    let num_embeds := num_embeds + num_embeds_to_schedule in
    let* c := get in
    if num_embeds <=? num_free_slots c then ret true
    else if num_freeable_slots c <? num_embeds then ret false
    else evict_until num_embeds (freeable c) ;;; ret true.

Definition allocate (r : Request) (input_id : Z) : EM unit :=
  let* mm_hash := lift (mm_hash_of r input_id) in
  modify (fun c => match cached c !! mm_hash with
    | None => mkECM (cache_size c) (num_free_slots c) (num_freeable_slots c) (<[mm_hash := ∅]> (cached c)) (freeable c) (freed c)
    | Some _ => c
    end) ;;;
  let* n := lift (get_num_encoder_embeds r input_id) in
  let* c := get in
  assert (n <=? num_free_slots c) ;;;
  assert (n <=? num_freeable_slots c) ;;;
  put (mkECM (cache_size c) (num_free_slots c - n) (num_freeable_slots c - n)
         (<[mm_hash := {[request_id r]} ∪ default ∅ (cached c !! mm_hash)]> (cached c)) (freeable c) (freed c)).

Definition get_cached_input_ids (r : Request) (c : EncoderCacheManager) : list Z :=
  filter (fun i => match mm_hash_of r i with Ok h => bool_decide (is_Some (cached c !! h)) | Err _ => false end = true)
    (range (zlen (mm_features r))).

Definition free_encoder_input (r : Request) (input_id : Z) : EM unit :=
  let* mm_hash := lift (mm_hash_of r input_id) in
  let* c := get in
  match cached c !! mm_hash with
  | None => ret tt
  | Some refs =>
    if decide (refs = ∅) then ret tt
    else
      let refs' := refs ∖ {[request_id r]} in
      put (mkECM (cache_size c) (num_free_slots c) (num_freeable_slots c) (<[mm_hash := refs']> (cached c))
             (freeable c) (freed c)) ;;;
      if decide (refs' = ∅) then
        let* n := lift (get_num_encoder_embeds r input_id) in
        modify (fun c => mkECM (cache_size c) (num_free_slots c) (num_freeable_slots c + n) (cached c)
                  (od_set mm_hash n (freeable c)) (freed c))
      else ret tt
  end.

(** free; the set of input ids is iterated in increasing order. *)
Definition enc_free (r : Request) : EM unit :=
  let* c := get in
  foreach (get_cached_input_ids r c) (free_encoder_input r).

Definition get_freed_mm_hashes : EM (list string) :=
  let* c := get in
  put (mkECM (cache_size c) (num_free_slots c) (num_freeable_slots c) (cached c) (freeable c) []) ;;;
  ret (freed c).

(** ** compute_mm_encoder_budget
    The parameters are the fields of the scheduler configuration it reads. *)
Definition compute_mm_encoder_budget (disable_chunked_mm_input : bool)
    (max_num_batched_tokens max_num_encoder_input_tokens encoder_cache_size : Z)
    (mm_max_toks_per_item : list (string * Z)) : res (Z * Z) :=
  match mm_max_toks_per_item with
  | [] => Ok (0, 0)
  | (_, t) :: rest =>
    let max_tokens_per_mm_item := foldl Z.max t rest.*2 in
    if disable_chunked_mm_input && (max_num_batched_tokens <? max_tokens_per_mm_item) then Err ValueError
    else Ok (Z.max max_num_encoder_input_tokens max_tokens_per_mm_item,
             Z.max encoder_cache_size max_tokens_per_mm_item)
  end.

(** ** EncoderDecoderCacheManager *)
Record EncoderDecoderCacheManager := mkEDM {
  ed_cache_size : Z;
  ed_num_free_slots : Z;
  ed_allocated : list string;
  ed_to_free : list string;
}.

Abbreviation EDM A := (M EncoderDecoderCacheManager A).

Definition new_EncoderDecoderCacheManager (size : Z) : EncoderDecoderCacheManager := mkEDM size size [] [].
Definition ed_reset : EDM unit := modify (fun c => mkEDM (ed_cache_size c) (ed_cache_size c) [] []).
Definition ed_check_and_update_cache (r : Request) (input_id : Z) : EDM bool := ret false.
Definition ed_can_allocate (r : Request) (input_id encoder_compute_budget num_embeds_to_schedule : Z) : EDM bool :=
  let* n := lift (get_num_encoder_embeds r input_id) in
  if encoder_compute_budget <? n then ret false
  else gets (fun c => n + num_embeds_to_schedule <=? ed_num_free_slots c).
Definition ed_allocate (r : Request) (input_id : Z) : EDM unit :=
  let* n := lift (get_num_encoder_embeds r input_id) in
  modify (fun c => mkEDM (ed_cache_size c) (ed_num_free_slots c - n) (ed_allocated c) (ed_to_free c)) ;;;
  let* mm_hash := lift (mm_hash_of r input_id) in
  modify (fun c => mkEDM (ed_cache_size c) (ed_num_free_slots c) (ed_allocated c ++ [mm_hash]) (ed_to_free c)).
Definition ed_free_encoder_input (r : Request) (input_id : Z) : EDM unit :=
  let* n := lift (get_num_encoder_embeds r input_id) in
  modify (fun c => mkEDM (ed_cache_size c) (ed_num_free_slots c + n) (ed_allocated c) (ed_to_free c)).
Definition ed_free (r : Request) : EDM unit := foreach (range (zlen (mm_features r))) (ed_free_encoder_input r).
Definition ed_get_cached_input_ids (r : Request) : list Z := range (zlen (mm_features r)).
Definition ed_get_freed_mm_hashes : EDM (list string) :=
  let* c := get in
  put (mkEDM (ed_cache_size c) (ed_num_free_slots c) [] (ed_allocated c)) ;;;
  ret (ed_to_free c).
