(* ===== verification/EncoderProps.v ===== *)
(** * EncoderProps
    The accounting of the encoder cache: the slot counters describe the cached entries, and
    eviction only removes entries no request refers to. *)
From S2P Require Import Prelude OrdDict KVCacheBlock Request EncoderCache.

(** ** Sums over a finite map *)
Section map_sum.
Context {A : Type} (f : string -> A -> Z).
Implicit Types m : gmap string A.

Definition map_sum m : Z := map_fold (fun k a acc => f k a + acc) 0 m.

Lemma map_sum_insert m k a : m !! k = None -> map_sum (<[k := a]> m) = f k a + map_sum m.
Proof. intros H. unfold map_sum. rewrite map_fold_insert_L; [done | | done]. intros. lia. Qed.
Lemma map_sum_delete m k a : m !! k = Some a -> map_sum m = f k a + map_sum (delete k m).
Proof. intros H. rewrite <- (insert_delete_id m k a H) at 1. apply map_sum_insert, lookup_delete_eq. Qed.
Lemma map_sum_set m k a a' : m !! k = Some a -> map_sum (<[k := a']> m) = map_sum m - f k a + f k a'.
Proof.
  intros H. rewrite <- insert_delete_eq, map_sum_insert by apply lookup_delete_eq.
  rewrite (map_sum_delete m k a H). lia.
Qed.
Lemma map_sum_nonneg m : (forall k a, 0 <= f k a) -> 0 <= map_sum m.
Proof.
  intros Hf. unfold map_sum. apply (map_fold_weak_ind (fun z _ => 0 <= z)); [done |].
  intros k a m' z _ Hz. specialize (Hf k a). lia.
Qed.
End map_sum.

Lemma map_sum_ext {A} (f g : string -> A -> Z) (m : gmap string A) :
  (forall k a, m !! k = Some a -> f k a = g k a) -> map_sum f m = map_sum g m.
Proof.
  induction m as [|k a m Hk IH] using map_ind; intros Hfg; [done |].
  rewrite !map_sum_insert by done. rewrite Hfg by apply lookup_insert_eq. rewrite IH; [done |].
  intros k' a' H'. apply Hfg. rewrite lookup_insert_ne; congruence.
Qed.

(** ** The invariant *)
Section inv.
(** The number of embeddings of an encoder input is a function of its content hash. *)
Context (size : string -> Z) (Hsize : forall h, 0 <= size h).

Definition held (_ : string) (refs : gset string) : Z := if decide (refs = ∅) then 0 else 1.

(** Slots of all cached entries, and of those some request refers to. *)
Definition used (c : EncoderCacheManager) : Z := map_sum (fun h _ => size h) (cached c).
Definition pinned (c : EncoderCacheManager) : Z := map_sum (fun h refs => size h * held h refs) (cached c).

Record enc_inv (c : EncoderCacheManager) : Prop := {
  ei_free : num_free_slots c = cache_size c - used c;
  ei_freeable : num_freeable_slots c = cache_size c - pinned c;
  ei_fits : used c <= cache_size c;
  ei_keys : od_ok (freeable c);
  ei_entries h n : od_get h (freeable c) = Some n <-> n = size h /\ cached c !! h = Some ∅;
}.

(** The inputs of a request have the sizes of their contents. *)
Definition sized (r : Request) : Prop := Forall (fun f => mm_num_embeds f = size (identifier f)) (mm_features r).

(** Input [i] of request [r] is the feature [f]. *)
Definition input (r : Request) (i : Z) (f : MMFeature) : Prop := 0 <= i /\ mm_features r !! Z.to_nat i = Some f.

Lemma input_hash r i f : input r i f -> mm_hash_of r i = Ok (identifier f).
Proof. intros [Hi Hf]. unfold mm_hash_of. rewrite <- (Z2Nat.id i) by done. by rewrite (py_index_nat _ _ f). Qed.

Lemma input_embeds r i f : sized r -> input r i f -> get_num_encoder_embeds r i = Ok (size (identifier f)).
Proof.
  intros Hs [Hi Hf]. unfold get_num_encoder_embeds. assert (i < zlen (mm_features r)) as Hlt.
  { apply lookup_lt_Some in Hf. unfold zlen. lia. }
  rewrite (proj2 (Z.ltb_lt _ _)) by done. rewrite <- (Z2Nat.id i) by done. rewrite (py_index_nat _ _ f) by done.
  f_equal. unfold sized in Hs. rewrite Forall_lookup in Hs. by apply (Hs (Z.to_nat i)).
Qed.

Lemma new_encoder_inv n : 0 <= n -> enc_inv (new_EncoderCacheManager n).
Proof.
  intros Hn. unfold new_EncoderCacheManager. split; unfold used, pinned; simpl; change (map_sum _ ∅) with 0; try lia.
  - apply NoDup_nil_2.
  - intros h m. split; [done | by intros [_ H]].
Qed.

(** With nothing to reclaim, every cached entry is in use. *)
Lemma nothing_freeable c : enc_inv c -> freeable c = [] -> used c = pinned c.
Proof.
  intros Hi Hn. apply map_sum_ext. intros h refs Hh. unfold held. case_decide as Hd; [| lia]. subst.
  assert (od_get h (freeable c) = Some (size h)) as Hg by (by apply (ei_entries c Hi)). by rewrite Hn in Hg.
Qed.

Lemma enc_bounds c : enc_inv c -> 0 <= num_free_slots c <= num_freeable_slots c /\ num_freeable_slots c <= cache_size c.
Proof using Hsize.
  intros [Hf Hfr Hfit _ _]. rewrite Hf, Hfr. assert (0 <= pinned c <= used c); [| lia].
  unfold pinned, used. split.
  - apply map_sum_nonneg. intros h refs. unfold held. specialize (Hsize h). case_decide; lia.
  - induction (cached c) as [|h refs m Hm IH] using map_ind; [done |]. rewrite !map_sum_insert by done.
    unfold held at 1. specialize (Hsize h). case_decide; lia.
Qed.

(** Removing the oldest reclaimable entry. *)
Lemma evict_one_inv c h n fr fd : enc_inv c -> freeable c = (h, n) :: fr ->
  cached c !! h = Some ∅ /\ n = size h /\
  enc_inv (mkECM (cache_size c) (num_free_slots c + n) (num_freeable_slots c) (delete h (cached c)) fr fd).
Proof using Hsize.
  intros [Hf Hfr Hfit Hk He] Efr. destruct (proj1 (He h n)) as [-> Hc].
  { rewrite Efr. simpl. by rewrite decide_True. }
  split; [done |]. split; [done |]. unfold used, pinned in *.
  rewrite (map_sum_delete _ _ _ _ Hc) in Hf, Hfit. rewrite (map_sum_delete _ _ _ _ Hc) in Hfr. unfold held at 1 in Hfr. rewrite decide_True in Hfr by done.
  rewrite Efr in Hk. apply NoDup_cons in Hk as [Hn Hk].
  split; unfold used, pinned; simpl; [lia | lia | specialize (Hsize h); lia | done |].
  intros h' n'. specialize (He h' n'). rewrite Efr in He. simpl in He. destruct (decide (h' = h)) as [-> | Hne].
  - rewrite lookup_delete_eq. rewrite (proj2 (od_get_None h fr)) by done. split; [done | by intros [_ ?]].
  - rewrite lookup_delete_ne by done. exact He.
Qed.

(** The oldest reclaimable entries [ev], which nothing refers to, are evicted from [c]. *)
Record evicts (ev : list (string * Z)) (c c' : EncoderCacheManager) : Prop := {
  ev_oldest : freeable c = ev ++ freeable c';
  ev_freed : freed c' = freed c ++ ev.*1;
  ev_gone h : h ∈ ev.*1 -> cached c !! h = Some ∅ /\ cached c' !! h = None;
  ev_kept h : h ∉ ev.*1 -> cached c' !! h = cached c !! h;
}.

Lemma evicts_nil c : evicts [] c c.
Proof. split; try done; [by rewrite app_nil_r | by intros ? ?%not_elem_of_nil]. Qed.

Lemma evict_until_spec num fr : forall c, freeable c = fr -> enc_inv c -> num <= num_freeable_slots c ->
  exists ev c', evict_until num fr c = (Ok tt, c') /\ enc_inv c' /\ num <= num_free_slots c' /\
    cache_size c' = cache_size c /\ evicts ev c c'.
Proof using Hsize.
  induction fr as [|[h n] fr IH]; intros c Efr Hi Hnum; simpl.
  - pose proof (nothing_freeable c Hi Efr) as Hu.
    rewrite (proj2 (Z.leb_le _ _)) by (rewrite (ei_free c Hi), Hu, <- (ei_freeable c Hi); done).
    exists [], c. split_and!; try done; [| apply evicts_nil]. rewrite (ei_free c Hi), Hu, <- (ei_freeable c Hi). done.
  - destruct (Z.leb_spec num (num_free_slots c)) as [Hle | Hlt]; [exists [], c; split_and!; try done; apply evicts_nil |].
    destruct (evict_one_inv c h n fr (freed c ++ [h]) Hi Efr) as (Hc & Hn & Hi1). rewrite Hc.
    edestruct IH as (ev & c' & E & Hi' & Hn' & Ecs & [Ef Efd Hev Hoth]); [| exact Hi1 | exact Hnum |]; [done |].
    exists ((h, n) :: ev), c'. simpl in *. split_and!; try done. split; simpl.
    + by rewrite Efr, Ef.
    + rewrite Efd, <- app_assoc. done.
    + intros h' [-> | Hin]%elem_of_cons.
      * split; [done |]. destruct (decide (h ∈ ev.*1)) as [Hin | Hin]; [by apply Hev |].
        rewrite Hoth by done. apply lookup_delete_eq.
      * destruct (Hev h' Hin) as [H1 H2]. split; [| done]. destruct (decide (h' = h)) as [-> | Hne]; [done |].
        by rewrite lookup_delete_ne in H1.
    + intros h' [Hne Hin]%not_elem_of_cons. rewrite Hoth by done. by apply lookup_delete_ne.
Qed.

(** ** The operations *)

(** Changing the references of a cached entry. *)
Lemma enc_inv_refs c h refs refs' nf fr fd : enc_inv c -> cached c !! h = Some refs ->
  nf = num_freeable_slots c + size h * (held h refs - held h refs') -> od_ok fr ->
  (forall h' n, od_get h' fr = Some n <->
     if decide (h' = h) then n = size h /\ refs' = ∅ else od_get h' (freeable c) = Some n) ->
  enc_inv (mkECM (cache_size c) (num_free_slots c) nf (<[h := refs']> (cached c)) fr fd).
Proof.
  intros [Hf Hfr Hfit Hk He] Hc -> Hok Hget. unfold used, pinned in *.
  split; unfold used, pinned; simpl; try done; rewrite ?(map_sum_set _ _ _ refs) by done; try lia.
  intros h' n. rewrite Hget. destruct (decide (h' = h)) as [-> | Hd].
  - rewrite lookup_insert_eq. naive_solver.
  - rewrite lookup_insert_ne by done. apply He.
Qed.

Lemma held_empty h : held h ∅ = 0.
Proof. unfold held. by rewrite decide_True. Qed.
Lemma held_nonempty h refs : refs <> ∅ -> held h refs = 1.
Proof. intros. unfold held. by rewrite decide_False. Qed.

(** Referring to a cached entry; an unreferenced one leaves the reclaimable entries. *)
Lemma check_and_update_spec r i f c : enc_inv c -> input r i f ->
  exists c', check_and_update_cache r i c = (Ok (bool_decide (is_Some (cached c !! identifier f))), c') /\ enc_inv c' /\
    cache_size c' = cache_size c /\ num_free_slots c' = num_free_slots c /\
    (forall h, h <> identifier f -> cached c' !! h = cached c !! h) /\
    cached c' !! identifier f = union {[request_id r]} <$> cached c !! identifier f.
Proof.
  intros Hi Hin. unfold check_and_update_cache, bind, lift, get. rewrite (input_hash _ _ _ Hin).
  remember (identifier f) as h eqn:Eh. clear Eh.
  destruct (cached c !! h) as [refs|] eqn:Ec; [| exists c; by rewrite Ec].
  assert ({[request_id r]} ∪ refs <> ∅) as Hne' by set_solver.
  destruct (decide (refs = ∅)) as [-> | Hne].
  - assert (od_get h (freeable c) = Some (size h)) as -> by (by apply (ei_entries c Hi)).
    unfold put, modify, ret. eexists. split; [done |]. simpl.
    split; [| split_and!; try done; [intros; by apply lookup_insert_ne | by rewrite lookup_insert_eq]].
    eapply enc_inv_refs; [done | done | | by apply od_ok_del, Hi |].
    + rewrite held_empty, held_nonempty by done. lia.
    + intros h' n. rewrite od_get_del by apply Hi. case_decide; [| done]. split; [done | by intros [_ ?]].
  - unfold put, modify, ret. eexists. split; [done |]. simpl.
    split; [| split_and!; try done; [intros; by apply lookup_insert_ne | by rewrite lookup_insert_eq]].
    eapply enc_inv_refs; [done | done | | apply Hi |].
    + rewrite !held_nonempty by done. lia.
    + intros h' n. case_decide; [| done]. subst. rewrite (ei_entries c Hi), Ec. naive_solver.
Qed.

(** Reserving slots for a new entry. *)
Lemma enc_allocate_spec r i f c : enc_inv c -> sized r -> input r i f -> cached c !! identifier f = None ->
  size (identifier f) <= num_free_slots c ->
  exists c', allocate r i c = (Ok tt, c') /\ enc_inv c' /\ cache_size c' = cache_size c /\
    num_free_slots c' = num_free_slots c - size (identifier f) /\
    cached c' = <[identifier f := {[request_id r]}]> (cached c).
Proof using Hsize.
  intros Hi Hs Hin Hc Hfree. pose proof (enc_bounds c Hi) as Hb. destruct Hi as [Hf Hfr Hfit Hk He].
  unfold allocate, bind, lift, get, modify, put, assert. rewrite (input_hash _ _ _ Hin), (input_embeds _ _ _ Hs Hin).
  rewrite Hc. simpl. rewrite !(proj2 (Z.leb_le _ _)) by lia. unfold ret. eexists. split; [done |]. simpl.
  rewrite lookup_insert_eq, insert_insert_eq. simpl. rewrite union_empty_r_L.
  split; [| split_and!; done]. unfold used, pinned in *. split; unfold used, pinned; simpl.
  - rewrite map_sum_insert by done. lia.
  - rewrite map_sum_insert by done. rewrite held_nonempty by set_solver. lia.
  - rewrite map_sum_insert by done. lia.
  - done.
  - intros h n. rewrite He. destruct (decide (h = identifier f)) as [-> | Hd].
    + rewrite lookup_insert_eq, Hc. naive_solver.
    + by rewrite lookup_insert_ne by done.
Qed.

(** Dropping a request's reference; the last one makes the entry reclaimable. *)
Lemma free_input_spec r i f c : enc_inv c -> sized r -> input r i f ->
  exists c', free_encoder_input r i c = (Ok tt, c') /\ enc_inv c' /\ cache_size c' = cache_size c /\
    num_free_slots c' = num_free_slots c /\
    (forall h, cached c' !! h = if decide (h = identifier f) then (.∖ {[request_id r]}) <$> cached c !! h else cached c !! h).
Proof.
  intros Hi Hs Hin. unfold free_encoder_input, bind, lift, get. rewrite (input_hash _ _ _ Hin).
  remember (identifier f) as h eqn:Eh.
  destruct (cached c !! h) as [refs|] eqn:Ec.
  2: { exists c. split_and!; try done. intros h'. case_decide; [subst; by rewrite Ec | done]. }
  destruct (decide (refs = ∅)) as [-> | Hne].
  { exists c. split_and!; try done. intros h'. case_decide; [| done]. subst h'. rewrite Ec. simpl. f_equal. set_solver. }
  assert (forall h', <[h := refs ∖ {[request_id r]}]> (cached c) !! h' =
    if decide (h' = h) then (.∖ {[request_id r]}) <$> cached c !! h' else cached c !! h') as Hcached.
  { intros h'. case_decide; [subst h'; by rewrite lookup_insert_eq, Ec | by apply lookup_insert_ne]. }
  unfold put. destruct (decide (refs ∖ {[request_id r]} = ∅)) as [He | He].
  - rewrite (input_embeds _ _ _ Hs Hin), <- Eh. unfold modify. eexists. split; [done |]. simpl.
    split; [| split_and!; try done; by apply Hcached].
    eapply enc_inv_refs; [done | done | | by apply od_ok_set, Hi |].
    + rewrite He, held_empty, held_nonempty by done. lia.
    + intros h' n. rewrite od_get_set, He. case_decide; [| done]. naive_solver.
  - unfold ret. eexists. split; [done |]. simpl. split; [| split_and!; try done; by apply Hcached].
    eapply enc_inv_refs; [done | done | | apply Hi |].
    + rewrite !held_nonempty by done. lia.
    + intros h' n. case_decide; [| done]. subst h'. rewrite (ei_entries c Hi), Ec. naive_solver.
Qed.

(** The test for space, with its evictions. *)
Lemma can_allocate_spec r i f budget sched c : enc_inv c -> sized r -> input r i f ->
  let n := size (identifier f) in
  exists b ev c', can_allocate r i budget sched c = (Ok b, c') /\ enc_inv c' /\ cache_size c' = cache_size c /\
    (b = true <-> n <= budget /\ n + sched <= num_freeable_slots c) /\
    (if b then n + sched <= num_free_slots c' else c' = c) /\ evicts ev c c'.
Proof using Hsize.
  intros Hi Hs Hin n. pose proof (enc_bounds c Hi) as Hb. unfold can_allocate, bind, lift, get, ret.
  rewrite (input_embeds _ _ _ Hs Hin). fold n.
  destruct (Z.ltb_spec budget n).
  { exists false, [], c. split_and!; try done; [lia | apply evicts_nil]. }
  destruct (Z.leb_spec (n + sched) (num_free_slots c)).
  { exists true, [], c. split_and!; try done; [lia | apply evicts_nil]. }
  destruct (Z.ltb_spec (num_freeable_slots c) (n + sched)).
  { exists false, [], c. split_and!; try done; [lia | apply evicts_nil]. }
  destruct (evict_until_spec (n + sched) (freeable c) c eq_refl Hi) as (ev & c' & E & Hi' & Hn & Hcs & Hev); [lia |].
  exists true, ev, c'. rewrite E. split_and!; try done; lia.
Qed.

Lemma free_inputs_spec r ids : forall c, enc_inv c -> sized r ->
  (forall i, i ∈ ids -> exists f, input r i f) ->
  exists c', foreach ids (free_encoder_input r) c = (Ok tt, c') /\ enc_inv c' /\ cache_size c' = cache_size c /\
    (forall h, cached c' !! h = cached c !! h \/ cached c' !! h = (.∖ {[request_id r]}) <$> cached c !! h) /\
    (forall i f, i ∈ ids -> input r i f -> cached c' !! identifier f = (.∖ {[request_id r]}) <$> cached c !! identifier f).
Proof.
  induction ids as [|i ids IH]; intros c Hi Hs Hin.
  - exists c. split_and!; try done; [by left |]. by intros i f ?%not_elem_of_nil.
  - destruct (Hin i) as [f Hf]; [by left |].
    destruct (free_input_spec r i f c Hi Hs Hf) as (c1 & E1 & Hi1 & Hcs1 & _ & Hc1).
    destruct (IH c1 Hi1 Hs) as (c' & E & Hi' & Hcs & Hany & Hall); [intros j Hj; apply Hin; by right |].
    assert (forall o : option (gset string), (.∖ {[request_id r]}) <$> ((.∖ {[request_id r]}) <$> o) = (.∖ {[request_id r]}) <$> o) as Hidem.
    { intros [x|]; simpl; [| done]. f_equal. set_solver. }
    assert (forall h, cached c' !! h = cached c !! h \/ cached c' !! h = (.∖ {[request_id r]}) <$> cached c !! h) as Hany'.
    { intros h. destruct (Hany h) as [-> | ->]; rewrite Hc1; case_decide; rewrite ?Hidem; auto. }
    exists c'. split_and!; [| done | congruence | done |].
    + simpl. unfold bind. by rewrite E1.
    + intros j f' [-> | Hj]%elem_of_cons Hf'.
      * assert (f' = f) as -> by (destruct Hf, Hf'; congruence).
        destruct (Hany (identifier f)) as [-> | ->]; rewrite Hc1, decide_True, ?Hidem by done; done.
      * rewrite (Hall j f' Hj Hf'), Hc1. case_decide; rewrite ?Hidem; done.
Qed.

Lemma cached_ids_input r c i : i ∈ get_cached_input_ids r c -> exists f, input r i f.
Proof.
  unfold get_cached_input_ids. intros [_ Hi]%list_elem_of_filter. apply elem_of_seqZ in Hi. unfold zlen in Hi.
  destruct (lookup_lt_is_Some_2 (mm_features r) (Z.to_nat i)) as [f Hf]; [lia |]. exists f. split; [lia | done].
Qed.

(** A finished request refers to nothing. *)
Lemma enc_free_spec r c : enc_inv c -> sized r ->
  exists c', enc_free r c = (Ok tt, c') /\ enc_inv c' /\ cache_size c' = cache_size c /\
    (forall f refs, f ∈ mm_features r -> cached c' !! identifier f = Some refs -> request_id r ∉ refs).
Proof.
  intros Hi Hs. unfold enc_free, bind, get.
  destruct (free_inputs_spec r (get_cached_input_ids r c) c Hi Hs) as (c' & E & Hi' & Hcs & Hany & Hall).
  { intros i. apply cached_ids_input. }
  exists c'. split_and!; [done | done | done |]. intros f refs Hf Hrefs.
  apply list_elem_of_lookup in Hf as [j Hj]. assert (input r (Z.of_nat j) f) as Hin by (split; [lia | by rewrite Nat2Z.id]).
  destruct (cached c !! identifier f) as [refs0|] eqn:Ec.
  - rewrite (Hall (Z.of_nat j) f) in Hrefs; [| | done].
    + rewrite Ec in Hrefs. injection Hrefs as <-. set_solver.
    + apply list_elem_of_filter. rewrite (input_hash _ _ _ Hin), Ec. split; [by apply bool_decide_eq_true |].
      apply elem_of_seqZ. apply lookup_lt_Some in Hj. unfold zlen. lia.
  - destruct (Hany (identifier f)) as [H1 | H1]; rewrite Ec in H1; simpl in H1; congruence.
Qed.
End inv.

(** ** The manager as a transition system *)
Section steps.
Context (size : string -> Z).

(** A call of the scheduler that returns. An input is allocated only when its content is not
    cached and the free slots suffice, which is what a preceding successful can_allocate
    provides. *)
Inductive enc_step (c : EncoderCacheManager) : EncoderCacheManager -> Prop :=
  | es_check r i f b c' : input r i f -> check_and_update_cache r i c = (Ok b, c') -> enc_step c c'
  | es_can_allocate r i f budget sched b c' : sized size r -> input r i f ->
      can_allocate r i budget sched c = (Ok b, c') -> enc_step c c'
  | es_allocate r i f c' : sized size r -> input r i f -> cached c !! identifier f = None ->
      size (identifier f) <= num_free_slots c -> allocate r i c = (Ok tt, c') -> enc_step c c'
  | es_free_input r i f c' : sized size r -> input r i f -> free_encoder_input r i c = (Ok tt, c') -> enc_step c c'
  | es_free r c' : sized size r -> enc_free r c = (Ok tt, c') -> enc_step c c'
  | es_freed l c' : get_freed_mm_hashes c = (Ok l, c') -> enc_step c c'
  | es_reset c' : enc_reset c = (Ok tt, c') -> enc_step c c'.

Lemma enc_step_inv c c' : (forall h, 0 <= size h) -> 0 <= cache_size c -> enc_inv size c -> enc_step c c' ->
  enc_inv size c' /\ cache_size c' = cache_size c.
Proof.
  intros Hsz Hcs Hi Hs. destruct Hs as [r i f b c' Hin E | r i f budget sched b c' Hs Hin E | r i f c' Hs Hin Hc Hn E |
    r i f c' Hs Hin E | r c' Hs E | l c' E | c' E].
  - destruct (check_and_update_spec size Hsz r i f c Hi Hin) as (c1 & E1 & ? & ? & _). rewrite E in E1. by injection E1 as _ ->.
  - destruct (can_allocate_spec size Hsz r i f budget sched c Hi Hs Hin) as (b1 & ev & c1 & E1 & ? & ? & _).
    rewrite E in E1. by injection E1 as _ ->.
  - destruct (enc_allocate_spec size Hsz r i f c Hi Hs Hin Hc Hn) as (c1 & E1 & ? & ? & _). rewrite E in E1. by injection E1 as ->.
  - destruct (free_input_spec size Hsz r i f c Hi Hs Hin) as (c1 & E1 & ? & ? & _). rewrite E in E1. by injection E1 as ->.
  - destruct (enc_free_spec size Hsz r c Hi Hs) as (c1 & E1 & ? & ? & _). rewrite E in E1. by injection E1 as ->.
  - injection E as _ <-. split; [| done]. by destruct Hi.
  - injection E as <-. split; [| done]. by apply new_encoder_inv.
Qed.

Lemma enc_steps_inv n c : (forall h, 0 <= size h) -> 0 <= n -> rtc enc_step (new_EncoderCacheManager n) c ->
  enc_inv size c /\ cache_size c = n.
Proof.
  intros Hsz Hn Hs. remember (new_EncoderCacheManager n) as c0 eqn:E0.
  assert (enc_inv size c0 /\ cache_size c0 = n) as H0 by (subst; split; [by apply new_encoder_inv | done]). clear E0.
  induction Hs as [|x y z Hxy _ IH]; [done |]. apply IH. destruct H0 as [H1 H2].
  destruct (enc_step_inv x y Hsz) as [H3 H4]; [lia | done | done |]. split; [done | congruence].
Qed.
End steps.

(** In every state of the encoder cache that the scheduler can reach, the
    free slots are what the cached entries leave of the cache, the reclaimable slots what
    the referenced entries leave, both within the cache size, and the reclaimable entries
    are exactly the cached ones no request refers to. *)
Lemma encoder_cache_accounting size n c :
  (forall h, 0 <= size h) -> 0 <= n -> rtc (enc_step size) (new_EncoderCacheManager n) c ->
  num_free_slots c + map_sum (fun h _ => size h) (cached c) = n /\
  num_freeable_slots c + map_sum (fun h refs => size h * held h refs) (cached c) = n /\
  0 <= num_free_slots c <= num_freeable_slots c /\ num_freeable_slots c <= n /\
  (forall h, h ∈ od_keys (freeable c) <-> cached c !! h = Some ∅).
Proof.
  intros Hsz Hn Hs. destruct (enc_steps_inv size n c Hsz Hn Hs) as [Hi Hc].
  pose proof (enc_bounds size Hsz c Hi) as Hb. destruct Hi as [Hf Hfr Hfit Hk He]. unfold used, pinned in *.
  split_and!; try lia. intros h. split.
  - intros Hh. destruct (od_get h (freeable c)) as [m|] eqn:E; [by apply He in E as [_ ?] | by apply od_get_None in E].
  - intros Hh. assert (od_get h (freeable c) = Some (size h)) as E by (by apply He). by eapply od_get_Some_key.
Qed.

(** Can_allocate never raises. It succeeds exactly when the input is within
    the compute budget and fits, with the inputs already scheduled, into the reclaimable
    slots; then that many slots are free. It evicts the oldest reclaimable entries and
    nothing a request refers to, and a refusal changes nothing. *)
Lemma can_allocate_correct size r i f budget sched c :
  (forall h, 0 <= size h) -> enc_inv size c -> sized size r -> input r i f ->
  let n := size (identifier f) in
  exists b ev c', can_allocate r i budget sched c = (Ok b, c') /\ enc_inv size c' /\
    (b = true <-> n <= budget /\ n + sched <= num_freeable_slots c) /\
    (if b then n + sched <= num_free_slots c' else c' = c) /\
    freeable c = ev ++ freeable c' /\ freed c' = freed c ++ ev.*1 /\
    (forall h refs, cached c !! h = Some refs -> refs <> ∅ -> cached c' !! h = Some refs) /\
    (forall h, cached c' !! h = if decide (h ∈ ev.*1) then None else cached c !! h).
Proof.
  intros Hsz Hi Hs Hin n.
  destruct (can_allocate_spec size Hsz r i f budget sched c Hi Hs Hin) as (b & ev & c' & E & Hi' & _ & Hb & Hr & [E1 E2 E3 E4]).
  exists b, ev, c'. split_and!; try done; try apply Hb.
  - intros h refs Hh Hne. destruct (decide (h ∈ ev.*1)) as [H0 | H0]; [destruct (E3 h H0); congruence | by rewrite E4].
  - intros h. case_decide as Hd; [by apply E3 | by apply E4].
Qed.

(** ** Concrete instances *)
Definition demo_mm_request (rid : string) (fs : list MMFeature) : Request :=
  mkRequest rid 0 0 None None None WAITING None 1 (Some []) None ∅ 0 [] [] 0 [] None fs 0 false [] false.
Definition demo_image (h : string) (n : Z) : MMFeature := mkMM h 0 n None.
(** Images "a" and "b" have 3 embeddings, all others 2. *)
Definition demo_size (h : string) : Z := if decide (h = "a" \/ h = "b") then 3 else 2.
Lemma demo_size_nonneg h : 0 <= demo_size h.
Proof. unfold demo_size. case_decide; lia. Qed.

(** A cache of 7 slots: "a" is cached and released again, "b" is in use. *)
Definition demo_enc : EncoderCacheManager :=
  (allocate (demo_mm_request "r2" [demo_image "b" 3]) 0
    (enc_free (demo_mm_request "r1" [demo_image "a" 3])
      (allocate (demo_mm_request "r1" [demo_image "a" 3]) 0 (new_EncoderCacheManager 7)).2).2).2.

Lemma demo_sized rid h : sized demo_size (demo_mm_request rid [demo_image h (demo_size h)]).
Proof. apply Forall_singleton. done. Qed.

Lemma demo_enc_steps : rtc (enc_step demo_size) (new_EncoderCacheManager 7) demo_enc.
Proof.
  eapply rtc_l; [eapply (es_allocate _ _ (demo_mm_request "r1" [demo_image "a" 3]) 0 (demo_image "a" 3));
    [apply (demo_sized "r1" "a") | done | done | vm_compute; done | vm_compute; reflexivity] |].
  eapply rtc_l; [eapply (es_free _ _ (demo_mm_request "r1" [demo_image "a" 3]));
    [apply (demo_sized "r1" "a") | vm_compute; reflexivity] |].
  eapply rtc_l; [eapply (es_allocate _ _ (demo_mm_request "r2" [demo_image "b" 3]) 0 (demo_image "b" 3));
    [apply (demo_sized "r2" "b") | done | done | vm_compute; done | vm_compute; reflexivity] |].
  apply rtc_refl.
Qed.

(** Image "c" fits once "a" is evicted. *)
