(* ===== verification/HeapQ.v ===== *)
(** * HeapQ
    Python's [heapq] on a list, over a strict weak order [ltb] (the elements' [__lt__]):
    heappush, heappop and heapify with their sift loops as the library has them, and their
    correctness. Positions are natural numbers; the sift loops run on fuel that bounds their
    number of iterations. *)
From S2P Require Import Prelude.
#[local] Open Scope nat_scope.

Section heapq.
Context {A : Type} (ltb : A -> A -> bool).
Implicit Types (heap : list A) (x : A).

(** _siftdown: [newitem] moves from [pos] towards [startpos]. *)
Fixpoint siftdown_loop (fuel startpos pos : nat) (newitem : A) heap : list A :=
  match fuel with
  | O => <[pos := newitem]> heap
  | S fuel' =>
    if startpos <? pos then
      let parentpos := (pos - 1) / 2 in
      match heap !! parentpos with
      | Some parent =>
        if ltb newitem parent then siftdown_loop fuel' startpos parentpos newitem (<[pos := parent]> heap)
        else <[pos := newitem]> heap
      | None => <[pos := newitem]> heap
      end
    else <[pos := newitem]> heap
  end.
Definition siftdown (startpos pos : nat) heap : list A :=
  match heap !! pos with
  | Some newitem => siftdown_loop pos startpos pos newitem heap
  | None => heap
  end.

(** The loop of _siftup: the hole moves from [pos] down to a leaf along the smaller
    children. Returns the heap and the position of the leaf. *)
Fixpoint siftup_loop (fuel pos : nat) heap : list A * nat :=
  match fuel with
  | O => (heap, pos)
  | S fuel' =>
    let childpos := 2 * pos + 1 in
    match heap !! childpos with
    | None => (heap, pos)
    | Some c =>
      match heap !! (childpos + 1) with
      | Some c' =>
        if negb (ltb c c') then siftup_loop fuel' (childpos + 1) (<[pos := c']> heap)
        else siftup_loop fuel' childpos (<[pos := c]> heap)
      | None => siftup_loop fuel' childpos (<[pos := c]> heap)
      end
    end
  end.
Definition siftup (pos : nat) heap : list A :=
  match heap !! pos with
  | Some newitem =>
    let (h, p) := siftup_loop (length heap) pos heap in
    siftdown pos p (<[p := newitem]> h)
  | None => heap
  end.

Definition heappush heap x : list A := siftdown 0 (length heap) (heap ++ [x]).

Definition heappop heap : res (A * list A) :=
  match last heap with
  | None => Err IndexError
  | Some lastelt =>
    let h := take (length heap - 1) heap in
    match h with
    | [] => Ok (lastelt, [])
    | returnitem :: _ => Ok (returnitem, siftup 0 (<[0 := lastelt]> h))
    end
  end.

Definition heapify heap : list A := foldl (fun h i => siftup i h) heap (reverse (seq 0 (length heap / 2))).

(** ** Specification *)
Definition le (a b : A) : Prop := ltb b a = false.

(** What [__lt__] must satisfy. *)
Class StrictOrder : Prop := {
  lt_asym a b : ltb a b = true -> ltb b a = false;
  le_trans a b c : le a b -> le b c -> le a c;
}.

Definition parent (j : nat) : nat := (j - 1) / 2.

(** The edge from the parent of [j] to [j] is ordered. *)
Definition edge heap (j : nat) : Prop :=
  forall a b, heap !! parent j = Some a -> heap !! j = Some b -> le a b.
(** All edges below position [s] and later ones are ordered. *)
Definition heap_from (s : nat) heap : Prop := forall j, 0 < j -> s <= parent j -> edge heap j.
Definition is_heap heap : Prop := heap_from 0 heap.

(** ** The functions permute the elements, whatever the order *)
Lemma siftdown_loop_perm fuel : forall s pos x heap, pos <= fuel -> pos < length heap ->
  siftdown_loop fuel s pos x heap ≡ₚ <[pos := x]> heap.
Proof.
  induction fuel as [|fuel IH]; intros s pos x heap Hf Hl; cbn [siftdown_loop]; [done |].
  destruct (Nat.ltb_spec s pos) as [Hlt | Hge]; [| done]. cbv zeta. set (p := (pos - 1) / 2).
  assert (p < pos) as Hp by (apply Nat.Div0.div_lt_upper_bound; lia).
  destruct (heap !! p) as [y|] eqn:Hy; [| done]. destruct (ltb x y); [| done].
  rewrite IH by (rewrite ?length_insert; lia). rewrite <- (list_insert_insert_eq heap pos y x).
  apply Permutation_insert_swap; [by apply list_lookup_insert_eq | by rewrite list_lookup_insert_ne by lia].
Qed.

Lemma siftdown_perm s pos heap : siftdown s pos heap ≡ₚ heap.
Proof.
  unfold siftdown. destruct (heap !! pos) as [x|] eqn:Hx; [| done]. apply lookup_lt_Some in Hx as Hl.
  rewrite siftdown_loop_perm by lia. by rewrite list_insert_id.
Qed.

Lemma siftup_loop_perm fuel : forall pos x heap, pos < length heap ->
  let (h, p) := siftup_loop fuel pos heap in p < length h /\ <[p := x]> h ≡ₚ <[pos := x]> heap.
Proof.
  induction fuel as [|fuel IH]; intros pos x heap Hl; cbn [siftup_loop]; [done |]. cbv zeta.
  assert (forall q y, q <> pos -> heap !! q = Some y ->
    let (h, p) := siftup_loop fuel q (<[pos := y]> heap) in p < length h /\ <[p := x]> h ≡ₚ <[pos := x]> heap) as Hstep.
  { intros q y Hq Hy. apply lookup_lt_Some in Hy as Hlt. specialize (IH q x (<[pos := y]> heap)). rewrite length_insert in IH.
    specialize (IH Hlt). destruct (siftup_loop fuel q _) as [h p]. destruct IH as [H1 H2]. split; [done |].
    rewrite H2. rewrite <- (list_insert_insert_eq heap pos y x).
    apply Permutation_insert_swap; [by apply list_lookup_insert_eq | by rewrite list_lookup_insert_ne]. }
  destruct (heap !! (2 * pos + 1)) as [c|] eqn:Ec; [| done].
  destruct (heap !! (2 * pos + 1 + 1)) as [c'|] eqn:Ec'; [destruct (negb (ltb c c')) |]; apply Hstep; try done; lia.
Qed.

Lemma siftup_perm pos heap : siftup pos heap ≡ₚ heap.
Proof.
  unfold siftup. destruct (heap !! pos) as [x|] eqn:Hx; [| done]. apply lookup_lt_Some in Hx as Hl.
  pose proof (siftup_loop_perm (length heap) pos x heap Hl) as Hs. destruct (siftup_loop _ _ _) as [h p].
  destruct Hs as [_ Hs]. by rewrite siftdown_perm, Hs, list_insert_id.
Qed.

Lemma heappush_perm heap x : heappush heap x ≡ₚ x :: heap.
Proof. unfold heappush. rewrite siftdown_perm. apply Permutation_app_comm. Qed.

Lemma heappop_perm heap x heap' : heappop heap = Ok (x, heap') -> heap !! 0 = Some x /\ x :: heap' ≡ₚ heap.
Proof.
  unfold heappop. destruct heap as [|z heap0 _] using rev_ind; [done |].
  rewrite last_snoc, length_app. simpl. replace (length heap0 + 1 - 1) with (length heap0) by lia.
  rewrite take_app_length. destruct heap0 as [|r rest]; intros [= <- <-]; [done |]. split; [done |].
  rewrite siftup_perm. simpl. apply perm_skip. change (z :: rest) with ([z] ++ rest). apply Permutation_app_comm.
Qed.

Lemma heapify_perm heap : heapify heap ≡ₚ heap.
Proof.
  unfold heapify. generalize (reverse (seq 0 (length heap / 2))). intros l. revert heap.
  induction l as [|i l IH]; intros heap; [done |]. simpl. by rewrite IH, siftup_perm.
Qed.

Context `{StrictOrder}.

Lemma le_lt a b : ltb a b = true -> le a b.
Proof. apply lt_asym. Qed.
Lemma le_refl a : le a a.
Proof. unfold le. destruct (ltb a a) eqn:E; [by rewrite (lt_asym a a E) in E | done]. Qed.

Lemma parent_children j : 0 < j -> j = 2 * parent j + 1 \/ j = 2 * parent j + 2.
Proof.
  intros Hj. unfold parent. pose proof (Nat.div_mod (j - 1) 2 ltac:(lia)). pose proof (Nat.mod_upper_bound (j - 1) 2). lia.
Qed.
Lemma parent_left p : parent (2 * p + 1) = p.
Proof. pose proof (parent_children (2 * p + 1)). lia. Qed.
Lemma parent_right p : parent (2 * p + 2) = p.
Proof. pose proof (parent_children (2 * p + 2)). lia. Qed.
Lemma parent_lt j : 0 < j -> parent j < j.
Proof. intros Hj. pose proof (parent_children j Hj). lia. Qed.

(** Positions below [s]. *)
Inductive desc (s : nat) : nat -> Prop :=
  | desc_refl : desc s s
  | desc_step p : 0 < p -> desc s (parent p) -> desc s p.

Lemma desc_le s p : desc s p -> s <= p.
Proof. induction 1 as [|p Hp _ IH]; [lia |]. pose proof (parent_lt p Hp). lia. Qed.
Lemma desc_inv s p : desc s p -> s < p -> desc s (parent p) /\ s <= parent p.
Proof. intros [|p' Hp Hd] Hlt; [lia |]. split; [done | by apply desc_le]. Qed.
Lemma desc_root p : desc 0 p.
Proof.
  induction p as [p IH] using lt_wf_ind. destruct p as [|p]; [apply desc_refl |].
  apply desc_step; [lia |]. apply IH, parent_lt. lia.
Qed.

Lemma lookup_ins heap i j x : i < length heap -> <[i := x]> heap !! j = if decide (i = j) then Some x else heap !! j.
Proof.
  intros Hi. case_decide; subst; [by apply list_lookup_insert_eq | by apply list_lookup_insert_ne].
Qed.

(** Moving up: only the edge into [pos] may be violated. *)
Record up_inv (s pos : nat) (v : list A) : Prop := {
  up_desc : desc s pos;
  up_edges j : 0 < j -> s <= parent j -> j <> pos -> edge v j;
  up_skip j a b : s < pos -> 0 < j -> parent j = pos -> v !! parent pos = Some a -> v !! j = Some b -> le a b;
}.

Lemma up_done s pos v : up_inv s pos v -> edge v pos \/ pos = s -> heap_from s v.
Proof.
  intros [Hd He _] Hp j Hj Hs. destruct (decide (j = pos)) as [-> | Hne]; [| by apply He].
  destruct Hp as [Hp | ->]; [done |]. pose proof (parent_lt s Hj). lia.
Qed.

(** One step of _siftdown swaps the new item with its parent. *)
Lemma up_step s pos v x y : up_inv s pos v -> s < pos -> v !! pos = Some x -> v !! parent pos = Some y ->
  ltb x y = true -> up_inv s (parent pos) (<[parent pos := x]> (<[pos := y]> v)).
Proof.
  intros [Hd He Hk] Hlt Hx Hy Hxy. destruct (desc_inv s pos Hd Hlt) as [Hd' Hs'].
  assert (0 < pos) as Hpos by lia. pose proof (parent_lt pos Hpos) as Hpp.
  set (p := parent pos) in *. set (w := <[p := x]> (<[pos := y]> v)).
  assert (forall j, w !! j = if decide (p = j) then Some x else if decide (pos = j) then Some y else v !! j) as Hw.
  { intros j. unfold w. apply lookup_lt_Some in Hx, Hy. rewrite lookup_ins by (rewrite length_insert; done).
    case_decide; [done |]. by apply lookup_ins. }
  split; [done | |].
  - intros j Hj Hsj Hne a b. rewrite !Hw. rewrite (decide_False (P := p = j)) by congruence.
    destruct (decide (p = parent j)) as [Ep | Ep].
    + intros [= <-]. destruct (decide (pos = j)) as [<- | Hpj]; [intros [= <-]; by apply le_lt |].
      intros Hb. eapply le_trans; [by apply le_lt |]. apply (He j Hj Hsj ltac:(done)); [by rewrite <- Ep | done].
    + destruct (decide (pos = parent j)) as [Eq | Eq].
      * intros [= <-]. rewrite decide_False by (intros ->; pose proof (parent_lt _ Hj); lia).
        intros Hb. by apply (Hk j y b).
      * assert (pos <> j) as Hpj by (intros ->; by apply Ep). rewrite decide_False by done. by apply (He j Hj Hsj).
  - intros j a b Hsp Hj Hpj. rewrite !Hw. assert (0 < p) as Hp0 by (pose proof (desc_le _ _ Hd'); lia).
    pose proof (parent_lt p Hp0) as Hpp'. rewrite (decide_False (P := p = parent p)) by lia.
    rewrite (decide_False (P := pos = parent p)) by lia. intros Ha.
    assert (le a y) as Hay.
    { apply (He p Hp0); [by destruct (desc_inv s p Hd' Hsp) | lia | done | done]. }
    rewrite decide_False by (intros ->; pose proof (parent_lt _ Hj); lia).
    destruct (decide (pos = j)) as [-> | Hne]; [by intros [= <-] |].
    intros Hb. eapply le_trans; [exact Hay |]. apply (He j Hj); [lia | congruence | by rewrite Hpj | done].
Qed.

Lemma siftdown_loop_spec fuel : forall s pos x heap, pos <= fuel -> pos < length heap ->
  up_inv s pos (<[pos := x]> heap) ->
  siftdown_loop fuel s pos x heap ≡ₚ <[pos := x]> heap /\ heap_from s (siftdown_loop fuel s pos x heap).
Proof.
  induction fuel as [|fuel IH]; intros s pos x heap Hf Hl Hu; cbn [siftdown_loop].
  { split; [done |]. apply (up_done _ _ _ Hu). right. pose proof (desc_le _ _ (up_desc _ _ _ Hu)). lia. }
  destruct (Nat.ltb_spec s pos) as [Hlt | Hge].
  2: { split; [done |]. apply (up_done _ _ _ Hu). right. pose proof (desc_le _ _ (up_desc _ _ _ Hu)). lia. }
  assert (0 < pos) as Hpos by lia. pose proof (parent_lt pos Hpos) as Hpp. cbv zeta.
  change ((pos - 1) / 2) with (parent pos).
  destruct (lookup_lt_is_Some_2 heap (parent pos)) as [y Hy]; [lia |]. rewrite Hy.
  assert (<[pos := x]> heap !! pos = Some x) as Hvx by (by apply list_lookup_insert_eq).
  assert (<[pos := x]> heap !! parent pos = Some y) as Hvy by (by rewrite list_lookup_insert_ne by lia).
  destruct (ltb x y) eqn:Exy.
  - pose proof (up_step s pos _ x y Hu Hlt Hvx Hvy Exy) as Hu'. rewrite list_insert_insert_eq in Hu'.
    destruct (IH s (parent pos) x (<[pos := y]> heap)) as [Hp Hh]; [lia | rewrite length_insert; lia | done |].
    split; [| done]. rewrite Hp. rewrite <- (list_insert_insert_eq heap pos y x).
    by apply Permutation_insert_swap.
  - split; [done |]. apply (up_done _ _ _ Hu). left. intros a b Ha Hb. rewrite Hvy in Ha. rewrite Hvx in Hb.
    simplify_eq. done.
Qed.

Lemma siftdown_spec s pos heap : pos < length heap -> up_inv s pos heap ->
  siftdown s pos heap ≡ₚ heap /\ heap_from s (siftdown s pos heap).
Proof.
  intros Hl Hu. unfold siftdown. destruct (lookup_lt_is_Some_2 heap pos Hl) as [x Hx]. rewrite Hx.
  assert (<[pos := x]> heap = heap) as Hid by (by apply list_insert_id).
  destruct (siftdown_loop_spec pos s pos x heap) as [H1 H2]; [lia | done | by rewrite Hid |].
  by rewrite Hid in H1.
Qed.

(** Moving down: the edges into and out of the hole [pos] may be violated. *)
Record down_inv (s pos : nat) (v : list A) : Prop := {
  dn_desc : desc s pos;
  dn_edges j : 0 < j -> s <= parent j -> j <> pos -> parent j <> pos -> edge v j;
  dn_skip j a b : s < pos -> 0 < j -> parent j = pos -> v !! parent pos = Some a -> v !! j = Some b -> le a b;
}.

(** Filling the hole with its smaller child [c] moves the hole there. *)
Lemma down_step s pos c x y v : down_inv s pos v -> v !! pos = Some x -> v !! c = Some y -> 0 < c -> parent c = pos ->
  (forall j b, 0 < j -> parent j = pos -> v !! j = Some b -> le y b) ->
  down_inv s c (<[c := x]> (<[pos := y]> v)).
Proof.
  intros [Hd He Hk] Hx Hy Hc Hpc Hmin. pose proof (parent_lt c Hc) as Hlt. rewrite Hpc in Hlt.
  pose proof (desc_le _ _ Hd) as Hsp. set (w := <[c := x]> (<[pos := y]> v)).
  assert (forall j, w !! j = if decide (c = j) then Some x else if decide (pos = j) then Some y else v !! j) as Hw.
  { intros j. unfold w. apply lookup_lt_Some in Hx, Hy. rewrite lookup_ins by (rewrite length_insert; done).
    case_decide; [done |]. by apply lookup_ins. }
  split.
  - apply desc_step; [done |]. by rewrite Hpc.
  - intros j Hj Hsj Hne Hnp a b. rewrite !Hw. rewrite (decide_False (P := c = parent j)) by congruence.
    rewrite (decide_False (P := c = j)) by congruence. destruct (decide (pos = parent j)) as [Ep | Ep].
    + intros [= <-]. rewrite decide_False by (intros ->; pose proof (parent_lt _ Hj); lia). by apply Hmin.
    + destruct (decide (pos = j)) as [<- | Hpj]; [| apply (He j Hj Hsj); congruence].
      intros Ha [= <-]. destruct (decide (s = pos)) as [<- | Hs]; [pose proof (parent_lt s Hj); lia |].
      by apply (Hk c); [lia | | | |].
  - intros j a b _ Hj Hjc. rewrite !Hw, Hpc. rewrite (decide_False (P := c = pos)) by lia. rewrite decide_True by done.
    intros [= <-]. pose proof (parent_lt j Hj). rewrite (decide_False (P := c = j)) by lia.
    rewrite (decide_False (P := pos = j)) by lia. intros Hb. apply (He j Hj); [lia | lia | lia | by rewrite Hjc | done].
Qed.

(** The hole ends at a leaf. *)
Lemma down_leaf s pos v : down_inv s pos v -> v !! (2 * pos + 1) = None -> up_inv s pos v.
Proof.
  intros [Hd He Hk] Hleaf. assert (forall j, 0 < j -> parent j = pos -> v !! j = None) as Hno.
  { intros j Hj Hp. apply lookup_ge_None in Hleaf. apply lookup_ge_None. pose proof (parent_children j Hj). lia. }
  split; [done | | done]. intros j Hj Hs Hne. destruct (decide (parent j = pos)) as [Hp | Hp]; [| by apply He].
  intros a b _ Hb. by rewrite (Hno j Hj Hp) in Hb.
Qed.

(** The smaller child, as _siftup chooses it. *)
Lemma smaller_child (pos : nat) (v : list A) (q : nat) (c y : A) : v !! (2 * pos + 1) = Some c ->
  (match v !! (2 * pos + 1 + 1) with
   | Some c' => if negb (ltb c c') then q = 2 * pos + 1 + 1 /\ y = c' else q = 2 * pos + 1 /\ y = c
   | None => q = 2 * pos + 1 /\ y = c
   end) ->
  v !! q = Some y /\ 0 < q /\ parent q = pos /\ forall j b, 0 < j -> parent j = pos -> v !! j = Some b -> le y b.
Proof.
  intros Hl Hx. assert (2 * pos + 1 + 1 = 2 * pos + 2) as E2 by lia. rewrite E2 in Hx.
  assert (forall z, (forall b, v !! (2 * pos + 1) = Some b -> le z b) -> (forall b, v !! (2 * pos + 2) = Some b -> le z b) ->
    forall j b, 0 < j -> parent j = pos -> v !! j = Some b -> le z b) as Hall.
  { intros z H1 H2 j b Hj Hp. pose proof (parent_children j Hj) as Hc. rewrite Hp in Hc.
    destruct Hc as [-> | ->]; [apply H1 | apply H2]. }
  destruct (v !! (2 * pos + 2)) as [c'|] eqn:Er; [destruct (ltb c c') eqn:Ec |]; simpl in Hx; destruct Hx as [-> ->].
  - split_and!; [done | lia | apply parent_left |]. apply Hall; intros b Hb; simplify_eq; [apply le_refl | by apply le_lt].
  - split_and!; [done | lia | apply parent_right |]. apply Hall; intros b Hb; simplify_eq; [done | apply le_refl].
  - split_and!; [done | lia | apply parent_left |]. apply Hall; intros b Hb; simplify_eq. apply le_refl.
Qed.

(** Stepping the hole in the real heap is stepping it in the heap with the new item. *)
Lemma hole_step s pos q x y heap : pos < length heap -> q <> pos -> heap !! q = Some y ->
  down_inv s pos (<[pos := x]> heap) -> 0 < q -> parent q = pos ->
  (forall j b, 0 < j -> parent j = pos -> heap !! j = Some b -> le y b) ->
  down_inv s q (<[q := x]> (<[pos := y]> heap)) /\ <[q := x]> (<[pos := y]> heap) ≡ₚ <[pos := x]> heap.
Proof.
  intros Hl Hne Hy Hd Hq Hp Hmin. assert (<[pos := x]> heap !! pos = Some x) as Hx by (by apply list_lookup_insert_eq).
  assert (<[pos := x]> heap !! q = Some y) as Hyq by (by rewrite list_lookup_insert_ne).
  rewrite <- (list_insert_insert_eq heap pos y x). split; [| by apply Permutation_insert_swap].
  eapply down_step; try done. intros j b Hj Hpj. rewrite list_lookup_insert_ne; [by apply Hmin |].
  pose proof (parent_lt j Hj). lia.
Qed.

Lemma siftup_loop_spec fuel : forall s pos x heap, length heap <= pos + fuel -> pos < length heap ->
  down_inv s pos (<[pos := x]> heap) ->
  let (h, p) := siftup_loop fuel pos heap in
  p < length h /\ up_inv s p (<[p := x]> h) /\ <[p := x]> h ≡ₚ <[pos := x]> heap.
Proof.
  induction fuel as [|fuel IH]; intros s pos x heap Hf Hl Hd; cbn [siftup_loop]; [lia |]. cbv zeta.
  destruct (heap !! (2 * pos + 1)) as [c|] eqn:Ec.
  2: { split_and!; [done | | done]. apply down_leaf; [done |]. by rewrite list_lookup_insert_ne by lia. }
  assert (forall q y, q = 2 * pos + 1 + 1 \/ q = 2 * pos + 1 -> heap !! q = Some y /\ 0 < q /\ parent q = pos /\
      (forall j b, 0 < j -> parent j = pos -> heap !! j = Some b -> le y b) ->
    let (h, p) := siftup_loop fuel q (<[pos := y]> heap) in
    p < length h /\ up_inv s p (<[p := x]> h) /\ <[p := x]> h ≡ₚ <[pos := x]> heap) as Hstep.
  { intros q y Hq (Hy & Hq0 & Hp & Hmin). pose proof (parent_lt q Hq0).
    destruct (hole_step s pos q x y heap) as [Hd' Hperm]; try done; [lia |].
    apply lookup_lt_Some in Hy. specialize (IH s q x (<[pos := y]> heap)). rewrite length_insert in IH.
    specialize (IH ltac:(lia) ltac:(lia) Hd'). destruct (siftup_loop fuel q _) as [h p].
    destruct IH as (? & ? & Hp'). split_and!; [done | done |]. by rewrite Hp'. }
  destruct (heap !! (2 * pos + 1 + 1)) as [c'|] eqn:Ec'; [destruct (negb (ltb c c')) eqn:Eb |]; apply Hstep; auto;
    apply (smaller_child pos heap _ c _ Ec); rewrite Ec'; rewrite ?Eb; done.
Qed.

(** _siftup restores the heap order at [s] when it holds at all later positions. *)
Lemma siftup_spec s heap : s < length heap -> heap_from (S s) heap ->
  siftup s heap ≡ₚ heap /\ heap_from s (siftup s heap).
Proof.
  intros Hl Hh. unfold siftup. destruct (lookup_lt_is_Some_2 heap s Hl) as [x Hx]. rewrite Hx.
  assert (<[s := x]> heap = heap) as Hid by (by apply list_insert_id).
  pose proof (siftup_loop_spec (length heap) s s x heap) as Hs. rewrite Hid in Hs.
  specialize (Hs ltac:(lia) Hl). destruct (siftup_loop _ _ _) as [h p].
  destruct Hs as (Hp & Hu & Hperm).
  - split; [apply desc_refl | | lia]. intros j Hj Hsj _ Hne. apply Hh; [done | lia].
  - destruct (siftdown_spec s p (<[p := x]> h)) as [H1 H2]; [by rewrite length_insert | done |].
    split; [by rewrite H1 | done].
Qed.

(** ** The public functions *)
Lemma heappush_spec heap x : is_heap heap -> heappush heap x ≡ₚ x :: heap /\ is_heap (heappush heap x).
Proof.
  intros Hh. unfold heappush. destruct (siftdown_spec 0 (length heap) (heap ++ [x])) as [H1 H2].
  - rewrite length_app. simpl. lia.
  - assert (forall j, length heap < j -> (heap ++ [x]) !! j = None) as Hout.
    { intros j Hj. apply lookup_ge_None. rewrite length_app. simpl. lia. }
    split; [apply desc_root | |].
    + intros j Hj _ Hne a b Ha Hb. destruct (decide (j < length heap)) as [Hlt | Hge].
      * pose proof (parent_lt j Hj). rewrite lookup_app_l in Ha, Hb by lia. by apply (Hh j Hj ltac:(lia) a b).
      * rewrite Hout in Hb by lia. done.
    + intros j a b _ Hj Hp _ Hb. pose proof (parent_lt j Hj). rewrite Hout in Hb by lia. done.
  - split; [| done]. rewrite H1. apply Permutation_app_comm.
Qed.

(** The root is a least element. *)
Lemma heap_min heap x : is_heap heap -> heap !! 0 = Some x -> forall y, y ∈ heap -> le x y.
Proof.
  intros Hh Hx y Hy. apply list_elem_of_lookup in Hy as [i Hi]. revert y Hi.
  induction i as [i IH] using lt_wf_ind. intros y Hy. destruct (decide (i = 0)) as [-> | Hne].
  - simplify_eq. apply le_refl.
  - pose proof (parent_lt i ltac:(lia)) as Hp. apply lookup_lt_Some in Hy as Hl.
    destruct (lookup_lt_is_Some_2 heap (parent i)) as [z Hz]; [lia |].
    apply (le_trans x z y); [by eapply IH |]. by eapply (Hh i ltac:(lia) ltac:(lia)).
Qed.

Lemma heappop_spec heap : is_heap heap -> heap <> [] ->
  exists x heap', heappop heap = Ok (x, heap') /\ x :: heap' ≡ₚ heap /\ is_heap heap' /\ forall y, y ∈ heap -> le x y.
Proof.
  intros Hh Hne. destruct heap as [|z heap0 _] using rev_ind; [done |]. unfold heappop.
  rewrite last_snoc, length_app. simpl. replace (length heap0 + 1 - 1) with (length heap0) by lia.
  rewrite take_app_length. destruct heap0 as [|r rest].
  - exists z, []. split_and!; [done | done | by intros j Hj _ a b Ha |].
    intros y Hy. by apply (heap_min [z]).
  - assert (is_heap (r :: rest)) as Hh'.
    { intros j Hj Hs a b Ha Hb. apply (Hh j Hj Hs); by apply lookup_app_l_Some. }
    destruct (siftup_spec 0 (<[0 := z]> (r :: rest))) as [H1 H2].
    + rewrite length_insert. simpl. lia.
    + intros j Hj Hs a b. pose proof (parent_lt j Hj). rewrite !list_lookup_insert_ne by lia.
      apply (Hh' j Hj ltac:(lia)).
    + eexists r, _. split_and!; [done | | done |].
      * rewrite H1. simpl. apply perm_skip. change (z :: rest) with ([z] ++ rest). apply Permutation_app_comm.
      * by apply (heap_min ((r :: rest) ++ [z])).
Qed.

Lemma heapify_spec heap : heapify heap ≡ₚ heap /\ is_heap (heapify heap).
Proof.
  unfold heapify. set (n := length heap).
  assert (forall k h, h ≡ₚ heap -> k <= n / 2 -> heap_from k h ->
    foldl (fun h i => siftup i h) h (reverse (seq 0 k)) ≡ₚ heap /\
    is_heap (foldl (fun h i => siftup i h) h (reverse (seq 0 k)))) as Hloop.
  { induction k as [|k IH]; intros h Hp Hk Hh; [done |].
    rewrite seq_S, reverse_app. simpl. apply IH; [| lia |].
    - destruct (siftup_spec k h) as [H1 _]; [| done | by rewrite H1].
      rewrite (Permutation_length Hp). fold n. pose proof (Nat.div_mod n 2 ltac:(lia)). lia.
    - destruct (siftup_spec k h) as [_ H2]; [| done | done].
      rewrite (Permutation_length Hp). fold n. pose proof (Nat.div_mod n 2 ltac:(lia)). lia. }
  apply Hloop; [done | lia |]. intros j Hj Hs a b _ Hb. apply lookup_lt_Some in Hb. fold n in Hb.
  pose proof (parent_children j Hj). pose proof (Nat.div_mod n 2 ltac:(lia)). pose proof (Nat.mod_upper_bound n 2). lia.
Qed.
End heapq.
