(* ===== verification/RequestQueue.v ===== *)
(** * RequestQueue
    vllm/v1/core/sched/request_queue.py: the waiting queues of the scheduler. [RequestQueue]
    is the abstract base class as a class of operations; FCFSRequestQueue (a deque) and
    PriorityRequestQueue (a binary heap) are its instances.

    A queue holds references to request objects. A reference is the object's identity, and
    [store] gives the object it refers to; requests have no [__eq__], so membership and
    removal compare identities, and [__lt__] reads the priority, the arrival time and the
    request id the object has at the time of the comparison: every operation takes the store
    of its own time, and the scheduler's store changes between operations (a session that is
    continued gets a new arrival time, scheduler.py:1164). [prepend_requests] takes the other queue as the list its iterator yields. *)
From S2P Require Import Prelude KVCacheBlock Request HeapQ.

Inductive SchedulingPolicy := FCFS | PRIORITY.

(** ** The interface *)
Class RequestQueue (Q : Type) := {
  add_request : Z -> M Q unit;
  pop_request : M Q Z;
  peek_request : M Q Z;
  prepend_request : Z -> M Q unit;
  prepend_requests : list Z -> M Q unit;
  remove_request : Z -> M Q unit;
  remove_requests : list Z -> M Q unit;
  queue_bool : Q -> bool;
  queue_len : Q -> Z;
  queue_iter : Q -> list Z;
}.

(** list.remove and deque.remove: the first occurrence, ValueError when there is none. *)
Fixpoint remove_first (x : Z) (l : list Z) : res (list Z) :=
  match l with
  | [] => Err ValueError
  | y :: l' =>
    if y =? x then Ok l'
    else match remove_first x l' with Ok k => Ok (y :: k) | Err e => Err e end
  end.

(** [req for req in self if req not in requests_to_remove] *)
Definition without (xs l : list Z) : list Z := filter (fun r => r ∉ xs) l.

(** ** FCFSRequestQueue *)
Record FCFSRequestQueue := mkFCFS { deque : list Z }.

Definition fcfs_add (r : Z) : M FCFSRequestQueue unit := modify (fun q => mkFCFS (deque q ++ [r])).
Definition fcfs_pop : M FCFSRequestQueue Z := fun q =>
  match deque q with [] => (Err IndexError, q) | r :: l => (Ok r, mkFCFS l) end.
Definition fcfs_peek : M FCFSRequestQueue Z := fun q =>
  match deque q with [] => (Err IndexError, q) | r :: _ => (Ok r, q) end.
Definition fcfs_prepend (r : Z) : M FCFSRequestQueue unit := modify (fun q => mkFCFS (r :: deque q)).
(** [extendleft] appends the elements to the left one after another. *)
Definition fcfs_prepend_requests (rs : list Z) : M FCFSRequestQueue unit := foreach rs fcfs_prepend.
Definition fcfs_remove (r : Z) : M FCFSRequestQueue unit := fun q =>
  match remove_first r (deque q) with Ok l => (Ok tt, mkFCFS l) | Err e => (Err e, q) end.
Definition fcfs_remove_requests (rs : list Z) : M FCFSRequestQueue unit :=
  modify (fun q => mkFCFS (without rs (deque q))).

#[export] Instance fcfs_queue : RequestQueue FCFSRequestQueue := {
  add_request := fcfs_add;
  pop_request := fcfs_pop;
  peek_request := fcfs_peek;
  prepend_request := fcfs_prepend;
  prepend_requests := fcfs_prepend_requests;
  remove_request := fcfs_remove;
  remove_requests := fcfs_remove_requests;
  queue_bool q := 0 <? zlen (deque q);
  queue_len q := zlen (deque q);
  queue_iter q := deque q;
}.

Section store.
Variable store : Z -> Request.

(** Request.__lt__ on references, with the objects as they are at the comparison. *)
Definition obj_lt (a b : Z) : bool := request_lt (a <? b) (store a) (store b).

(** ** PriorityRequestQueue *)
Record PriorityRequestQueue := mkPrio { _heap : list Z }.

Definition prio_add (r : Z) : M PriorityRequestQueue unit := modify (fun q => mkPrio (heappush obj_lt (_heap q) r)).
Definition prio_pop : M PriorityRequestQueue Z := fun q =>
  match _heap q with
  | [] => (Err IndexError, q)
  | _ => match heappop obj_lt (_heap q) with Ok (r, h) => (Ok r, mkPrio h) | Err e => (Err e, q) end
  end.
Definition prio_peek : M PriorityRequestQueue Z := fun q =>
  match _heap q with [] => (Err IndexError, q) | r :: _ => (Ok r, q) end.
Definition prio_prepend (r : Z) : M PriorityRequestQueue unit := prio_add r.
Definition prio_prepend_requests (rs : list Z) : M PriorityRequestQueue unit := foreach rs prio_add.
Definition prio_remove (r : Z) : M PriorityRequestQueue unit := fun q =>
  match remove_first r (_heap q) with Ok l => (Ok tt, mkPrio (heapify obj_lt l)) | Err e => (Err e, q) end.
Definition prio_remove_requests (rs : list Z) : M PriorityRequestQueue unit :=
  modify (fun q => mkPrio (heapify obj_lt (without rs (_heap q)))).

(** __iter__: pops from a copy of the heap until it is empty; [fuel] is its length. *)
Fixpoint heap_iter (fuel : nat) (heap_copy : list Z) : list Z :=
  match fuel with
  | O => []
  | S fuel' =>
    match heappop obj_lt heap_copy with
    | Ok (r, heap_copy') => r :: heap_iter fuel' heap_copy'
    | Err _ => []
    end
  end.
Definition prio_iter (q : PriorityRequestQueue) : list Z := heap_iter (length (_heap q)) (_heap q).

Definition priority_queue : RequestQueue PriorityRequestQueue := {|
  add_request := prio_add;
  pop_request := prio_pop;
  peek_request := prio_peek;
  prepend_request := prio_prepend;
  prepend_requests := prio_prepend_requests;
  remove_request := prio_remove;
  remove_requests := prio_remove_requests;
  queue_bool q := match _heap q with [] => false | _ => true end;
  queue_len q := zlen (_heap q);
  queue_iter := prio_iter;
|}.
End store.

(** create_request_queue: the initial queue of a policy. The enumeration has no other
    members, so the final ValueError is not reachable. *)
Definition create_request_queue (policy : SchedulingPolicy) : FCFSRequestQueue + PriorityRequestQueue :=
  match policy with PRIORITY => inr (mkPrio []) | FCFS => inl (mkFCFS []) end.

(** ** Request.__lt__ is a strict total order on references *)
Lemma ascii_list_ltb_asym a : forall b, ascii_list_ltb a b = true -> ascii_list_ltb b a = false.
Proof.
  induction a as [|x a IH]; intros [|y b]; simpl; try done.
  destruct (N.eqb_spec (Ascii.N_of_ascii x) (Ascii.N_of_ascii y)) as [-> | Hne].
  - rewrite N.eqb_refl. apply IH.
  - rewrite (proj2 (N.eqb_neq _ _)) by done. rewrite N.ltb_lt, N.ltb_ge. lia.
Qed.

Lemma ascii_list_ltb_trans a : forall b c,
  ascii_list_ltb a b = true -> ascii_list_ltb b c = true -> ascii_list_ltb a c = true.
Proof.
  induction a as [|x a IH]; intros [|y b] [|z c]; simpl; try done.
  destruct (N.eqb_spec (Ascii.N_of_ascii x) (Ascii.N_of_ascii y)) as [-> | H1],
    (N.eqb_spec (Ascii.N_of_ascii y) (Ascii.N_of_ascii z)) as [E2 | H2]; rewrite ?E2, ?N.eqb_refl; [by apply IH | | |].
  - done.
  - by rewrite <- E2, (proj2 (N.eqb_neq _ _) H1).
  - intros Hx%N.ltb_lt Hy%N.ltb_lt. rewrite (proj2 (N.eqb_neq _ _)) by lia. apply N.ltb_lt. lia.
Qed.

Lemma ascii_list_ltb_total a : forall b, ascii_list_ltb a b = false -> ascii_list_ltb b a = false -> a = b.
Proof.
  induction a as [|x a IH]; intros [|y b]; simpl; try done.
  destruct (N.eqb_spec (Ascii.N_of_ascii x) (Ascii.N_of_ascii y)) as [E | Hne].
  - rewrite <- E, N.eqb_refl. intros H1 H2. f_equal; [| by apply IH].
    by rewrite <- (Ascii.ascii_N_embedding x), E, Ascii.ascii_N_embedding.
  - rewrite (proj2 (N.eqb_neq _ _)) by done. rewrite !N.ltb_ge. lia.
Qed.

Lemma str_ltb_asym a b : str_ltb a b = true -> str_ltb b a = false.
Proof. apply ascii_list_ltb_asym. Qed.
Lemma str_ltb_trans a b c : str_ltb a b = true -> str_ltb b c = true -> str_ltb a c = true.
Proof. apply ascii_list_ltb_trans. Qed.
Lemma str_ltb_total a b : str_ltb a b = false -> str_ltb b a = false -> a = b.
Proof.
  intros H1 H2. rewrite <- (String.string_of_list_ascii_of_string a), <- (String.string_of_list_ascii_of_string b).
  f_equal. by apply ascii_list_ltb_total.
Qed.

(** Lexicographic order of the four keys. *)
Lemma obj_lt_spec store a b : obj_lt store a b = true <->
  let x := store a in let y := store b in
  priority x < priority y \/ priority x = priority y /\
  (arrival_time x < arrival_time y \/ arrival_time x = arrival_time y /\
   (str_ltb (request_id x) (request_id y) = true \/ request_id x = request_id y /\ a < b)).
Proof.
  unfold obj_lt, request_lt. cbv zeta. destruct (Z.eqb_spec (priority (store a)) (priority (store b))) as [Ep | Ep]; simpl.
  2: { rewrite Z.ltb_lt. intuition lia. }
  destruct (Z.eqb_spec (arrival_time (store a)) (arrival_time (store b))) as [Ea | Ea]; simpl.
  2: { rewrite Z.ltb_lt. intuition lia. }
  destruct (String.eqb_spec (request_id (store a)) (request_id (store b))) as [Er | Er]; simpl.
  - rewrite Z.ltb_lt. rewrite Er. assert (str_ltb (request_id (store b)) (request_id (store b)) = true -> False) as Hirr.
    { intros H. pose proof (str_ltb_asym _ _ H). congruence. }
    rewrite Ep, Ea. intuition lia.
  - rewrite Ep, Ea. intuition lia.
Qed.

Lemma obj_lt_asym store a b : obj_lt store a b = true -> obj_lt store b a = false.
Proof.
  intros Hab%obj_lt_spec. apply not_true_is_false. intros Hba%obj_lt_spec. simpl in *.
  destruct Hab as [|[? [|[? [Hs|[Er ?]]]]]], Hba as [|[? [|[? [Hs'|[Er' ?]]]]]]; try lia.
  - apply str_ltb_asym in Hs. congruence.
  - rewrite Er' in Hs. pose proof (str_ltb_asym _ _ Hs). congruence.
  - rewrite Er in Hs'. pose proof (str_ltb_asym _ _ Hs'). congruence.
Qed.

Lemma obj_lt_trans store a b c : obj_lt store a b = true -> obj_lt store b c = true -> obj_lt store a c = true.
Proof.
  rewrite !obj_lt_spec. cbv zeta. intros [|[? [|[? [Hs|[Er ?]]]]]] [|[? [|[? [Hs'|[Er' ?]]]]]];
    try (left; lia); right; (split; [lia|]); try (left; lia); right; (split; [lia|]).
  - left. by eapply str_ltb_trans.
  - left. by rewrite <- Er'.
  - left. by rewrite Er.
  - right. split; [congruence | lia].
Qed.

Lemma obj_lt_total store a b : obj_lt store a b = false -> obj_lt store b a = false -> a = b.
Proof.
  intros Hab%not_true_iff_false Hba%not_true_iff_false. rewrite obj_lt_spec in Hab, Hba. cbv zeta in *.
  assert (priority (store a) = priority (store b)) as Ep by (destruct (Z.lt_trichotomy (priority (store a)) (priority (store b))); intuition lia).
  assert (arrival_time (store a) = arrival_time (store b)) as Ea
    by (destruct (Z.lt_trichotomy (arrival_time (store a)) (arrival_time (store b))); intuition lia).
  assert (request_id (store a) = request_id (store b)) as Er
    by (apply str_ltb_total; apply not_true_iff_false; intuition).
  destruct (Z.lt_trichotomy a b) as [|[|]]; [exfalso; apply Hab | done | exfalso; apply Hba]; auto 10.
Qed.

#[export] Instance obj_lt_order store : StrictOrder (obj_lt store).
Proof.
  split; [apply obj_lt_asym |]. unfold le. intros a b c Hba Hcb. apply not_true_is_false. intros Hca.
  destruct (obj_lt store a b) eqn:Hab.
  - pose proof (obj_lt_trans store _ _ _ Hca Hab). congruence.
  - pose proof (obj_lt_total store _ _ Hab Hba) as ->. congruence.
Qed.
