(* ===== verification/QueueProps.v ===== *)
(** * QueueProps
    The priority queue of the scheduler refines a sorted list: an abstract queue that keeps
    its references sorted by Request.__lt__ and inserts each one at its place. Sequences of
    operations run against the interface [RequestQueue], so the same program runs on the
    binary heap and on the specification; the request objects may change between operations,
    as long as those in the queue keep what [__lt__] reads. *)
From stdpp Require Import sorting.
From S2P Require Import Prelude KVCacheBlock Request HeapQ RequestQueue.

(** ** Programs over a queue *)
Inductive QOp :=
  | QAdd (r : Z) | QPop | QPeek | QPrepend (r : Z) | QPrependAll (rs : list Z)
  | QRemove (r : Z) | QRemoveAll (rs : list Z).

Section run.
Context {Q : Type} `{RequestQueue Q}.

Definition unit_out (m : M Q unit) : M Q (option Z) := let* _ := m in ret None.
Definition val_out (m : M Q Z) : M Q (option Z) := let* r := m in ret (Some r).
Definition queue_step (op : QOp) : M Q (option Z) :=
  match op with
  | QAdd r => unit_out (add_request r)
  | QPop => val_out pop_request
  | QPeek => val_out peek_request
  | QPrepend r => unit_out (prepend_request r)
  | QPrependAll rs => unit_out (prepend_requests rs)
  | QRemove r => unit_out (remove_request r)
  | QRemoveAll rs => unit_out (remove_requests rs)
  end.

End run.

(** The outputs and exceptions of the operations in turn, each with the request objects of its
    time, and the final queue; a caller that catches an exception goes on with the queue as
    the failed operation left it. *)
Definition Store := Z -> Request.
Fixpoint queue_run {Q} (impl : Store -> RequestQueue Q) (ops : list (Store * QOp)) (q : Q) : list (res (option Z)) * Q :=
  match ops with
  | [] => ([], q)
  | (store, op) :: ops' =>
    let (o, q') := queue_step (H := impl store) op q in
    let (os, q'') := queue_run impl ops' q' in (o :: os, q'')
  end.
(** The request objects after the last operation. *)
Definition final_store (store : Store) (ops : list (Store * QOp)) : Store := default store (last ops.*1).

(** ** The specification: a sorted list *)
Section spec.
Variable store : Z -> Request.

Record SortedQueue := mkSorted { sq_items : list Z }.

Fixpoint insert_sorted (r : Z) (l : list Z) : list Z :=
  match l with
  | [] => [r]
  | y :: l' => if obj_lt store r y then r :: l else y :: insert_sorted r l'
  end.

Definition sorted_add (r : Z) : M SortedQueue unit := modify (fun q => mkSorted (insert_sorted r (sq_items q))).
Definition sorted_pop : M SortedQueue Z := fun q =>
  match sq_items q with [] => (Err IndexError, q) | r :: l => (Ok r, mkSorted l) end.
Definition sorted_peek : M SortedQueue Z := fun q =>
  match sq_items q with [] => (Err IndexError, q) | r :: l => (Ok r, q) end.
Definition sorted_remove (r : Z) : M SortedQueue unit := fun q =>
  match remove_first r (sq_items q) with Ok l => (Ok tt, mkSorted l) | Err e => (Err e, q) end.

Definition sorted_queue : RequestQueue SortedQueue := {|
  add_request := sorted_add;
  pop_request := sorted_pop;
  peek_request := sorted_peek;
  prepend_request := sorted_add;
  prepend_requests rs := foreach rs sorted_add;
  remove_request := sorted_remove;
  remove_requests rs := modify (fun q => mkSorted (without rs (sq_items q)));
  queue_bool q := negb (bool_decide (sq_items q = []));
  queue_len q := zlen (sq_items q);
  queue_iter := sq_items;
|}.
End spec.

(** ** The refinement *)
Lemma remove_first_ok x l k : remove_first x l = Ok k -> l ≡ₚ x :: k.
Proof.
  revert k. induction l as [|y l IH]; simpl; [done |]. intros k. destruct (Z.eqb_spec y x) as [-> | _].
  - by intros [= ->].
  - destruct (remove_first x l) as [k'|]; [| done]. intros [= <-]. rewrite (IH k' eq_refl). apply Permutation_swap.
Qed.
Lemma remove_first_err x l e : remove_first x l = Err e -> e = ValueError /\ (x ∉ l).
Proof.
  induction l as [|y l IH]; simpl; [intros [= <-]; split; [done | apply not_elem_of_nil] |].
  destruct (Z.eqb_spec y x) as [-> | Hne]; [done |]. destruct (remove_first x l) as [k'|e']; [done |].
  intros [= <-]. destruct (IH eq_refl) as [-> Hn]. split; [done |]. by rewrite not_elem_of_cons.
Qed.
Lemma remove_first_sublist x l k : remove_first x l = Ok k -> k `sublist_of` l.
Proof.
  revert k. induction l as [|y l IH]; simpl; [done |]. intros k. destruct (Z.eqb_spec y x) as [-> | _].
  - intros [= ->]. by apply sublist_cons.
  - destruct (remove_first x l) as [k'|]; [| done]. intros [= <-]. by apply sublist_skip, IH.
Qed.

Section refine.
Variable store : Z -> Request.
Local Notation lt := (obj_lt store).
Local Notation le := (HeapQ.le (obj_lt store)).
Local Notation sorted := (StronglySorted (HeapQ.le (obj_lt store))).
Implicit Types (q : PriorityRequestQueue) (s : SortedQueue) (l : list Z).

#[local] Instance le_antisymm : AntiSymm (=) le.
Proof. intros a b Hab Hba. by apply (obj_lt_total store). Qed.

Lemma sorted_sublist l k : k `sublist_of` l -> sorted l -> sorted k.
Proof.
  induction 1 as [| x l1 l2 Hs IH | x l1 l2 Hs IH]; intros Hl; [done | |]; inversion Hl; subst.
  - constructor; [by apply IH |]. apply Forall_forall. intros y Hy. eapply Forall_forall; [done |]. by eapply elem_of_sublist.
  - by apply IH.
Qed.

Lemma insert_sorted_perm r l : insert_sorted store r l ≡ₚ r :: l.
Proof.
  induction l as [|y l IH]; simpl; [done |]. destruct (lt r y); [done |]. rewrite IH. apply Permutation_swap.
Qed.
Lemma insert_sorted_sorted r l : sorted l -> sorted (insert_sorted store r l).
Proof.
  induction 1 as [|y l Hl IH Hy]; simpl; [repeat constructor |]. destruct (lt r y) eqn:E.
  - constructor; [by constructor |]. pose proof (le_lt lt r y E) as Hr.
    constructor; [done |]. eapply Forall_impl; [exact Hy |]. intros z Hz. exact (HeapQ.le_trans lt r y z Hr Hz).
  - constructor; [done |]. rewrite insert_sorted_perm. by constructor.
Qed.

(** The simulation relation. *)
Record queue_rel q s : Prop := {
  qr_heap : is_heap lt (_heap q);
  qr_perm : _heap q ≡ₚ sq_items s;
  qr_sorted : sorted (sq_items s);
}.

Lemma sorted_head x l y : sorted (x :: l) -> y ∈ x :: l -> le x y.
Proof.
  intros Hs. inversion Hs; subst. rewrite elem_of_cons. intros [-> | Hy]; [apply HeapQ.le_refl, _ |].
  by eapply Forall_forall.
Qed.

(** A least element of the heap is the head of the list. *)
Lemma rel_head h x l r : h ≡ₚ x :: l -> sorted (x :: l) -> r ∈ h -> (forall y, y ∈ h -> le r y) -> r = x.
Proof.
  intros Hp Hs Hr Hmin. apply (anti_symm le).
  - apply Hmin. rewrite Hp. apply list_elem_of_here.
  - eapply sorted_head; [done |]. by rewrite <- Hp.
Qed.

Lemma rel_pop q s : queue_rel q s ->
  match sq_items s with
  | [] => _heap q = []
  | x :: l => exists h, heappop lt (_heap q) = Ok (x, h) /\ queue_rel (mkPrio h) (mkSorted l)
  end.
Proof.
  intros [Hh Hp Hs]. destruct (sq_items s) as [|x l]; [by apply Permutation_nil_r |].
  destruct (heappop_spec lt (_heap q) Hh) as (r & h & Hpop & Hperm & Hh' & Hmin).
  { intros E. rewrite E in Hp. by apply Permutation_nil_cons in Hp. }
  assert (r = x) as ->.
  { apply (rel_head (_heap q) x l); try done. rewrite <- Hperm. apply list_elem_of_here. }
  exists h. split; [done |]. split; simpl; [done | | by inversion Hs].
  apply (Permutation_cons_inv (a := x)). by rewrite Hperm.
Qed.

Lemma rel_add r q s : queue_rel q s ->
  queue_rel (mkPrio (heappush lt (_heap q) r)) (mkSorted (insert_sorted store r (sq_items s))).
Proof.
  intros [Hh Hp Hs]. destruct (heappush_spec lt (_heap q) r Hh) as [Hperm Hh'].
  split; simpl; [done | | by apply insert_sorted_sorted]. by rewrite Hperm, insert_sorted_perm, Hp.
Qed.

Lemma rel_heapify h l : h ≡ₚ l -> sorted l -> queue_rel (mkPrio (heapify lt h)) (mkSorted l).
Proof. intros Hp Hs. destruct (heapify_spec lt h) as [Hperm Hh]. split; simpl; [done | by rewrite Hperm | done]. Qed.

Lemma rel_add_all rs : forall q s, queue_rel q s ->
  (foreach rs (prio_add store) q).1 = (foreach rs (sorted_add store) s).1 /\
  queue_rel (foreach rs (prio_add store) q).2 (foreach rs (sorted_add store) s).2.
Proof.
  induction rs as [|r rs IH]; intros q s Hr; [done |]. apply (IH (mkPrio _) (mkSorted _)). by apply rel_add.
Qed.

(** One operation: the same result, and the relation again. *)
Lemma queue_step_sim op q s : queue_rel q s ->
  (queue_step (H := priority_queue store) op q).1 = (queue_step (H := sorted_queue store) op s).1 /\
  queue_rel (queue_step (H := priority_queue store) op q).2 (queue_step (H := sorted_queue store) op s).2.
Proof.
  intros Hr. pose proof Hr as [Hh Hp Hs]. destruct op as [r | | | r | rs | r | rs]; cbn.
  - split; [done | by apply rel_add].
  - unfold val_out, bind, prio_pop, sorted_pop. pose proof (rel_pop q s Hr) as Hpop.
    destruct (sq_items s) as [|x l]; [by rewrite Hpop |]. destruct Hpop as (h & Hpop & Hr').
    destruct (_heap q); [done |]. by rewrite Hpop.
  - unfold val_out, bind, prio_peek, sorted_peek. pose proof (rel_pop q s Hr) as Hpop.
    destruct (sq_items s) as [|x l] eqn:El; [by rewrite Hpop |]. destruct (_heap q) as [|y h] eqn:Eh.
    { by apply Permutation_nil_cons in Hp. }
    split; [| done]. simpl. do 2 f_equal. apply (rel_head (y :: h) x l); [done | done | apply list_elem_of_here |].
    exact (heap_min lt (y :: h) y Hh eq_refl).
  - split; [done | by apply rel_add].
  - unfold unit_out, bind, prio_prepend_requests. destruct (rel_add_all rs q s Hr) as [H1 H2].
    destruct (foreach rs (prio_add store) q) as [o q'], (foreach rs (sorted_add store) s) as [o' s']; simpl in *.
    subst o'. by destruct o.
  - unfold unit_out, bind, prio_remove, sorted_remove.
    destruct (remove_first r (_heap q)) as [k|e] eqn:E1, (remove_first r (sq_items s)) as [k'|e'] eqn:E2.
    + split; [done |]. apply rel_heapify; [| by eapply sorted_sublist; [eapply remove_first_sublist |]].
      apply (Permutation_cons_inv (a := r)). by rewrite <- (remove_first_ok _ _ _ E1), <- (remove_first_ok _ _ _ E2).
    + apply remove_first_err in E2 as [_ Hn]. apply remove_first_ok in E1. destruct Hn. rewrite <- Hp, E1.
      apply list_elem_of_here.
    + apply remove_first_err in E1 as [_ Hn]. apply remove_first_ok in E2. destruct Hn. rewrite Hp, E2.
      apply list_elem_of_here.
    + apply remove_first_err in E1 as [-> _], E2 as [-> _]. done.
  - split; [done |]. apply rel_heapify; [unfold without; by rewrite Hp |].
    eapply sorted_sublist; [apply sublist_filter | done].
Qed.

(** Iterating yields the list. *)
Lemma rel_iter q s : queue_rel q s -> prio_iter store q = sq_items s.
Proof.
  intros Hr. unfold prio_iter. rewrite (Permutation_length (qr_perm _ _ Hr)). revert Hr.
  destruct s as [l]; simpl. revert q. induction l as [|x l IH]; intros q Hr; [done |].
  pose proof (rel_pop _ _ Hr) as (h & Hpop & Hr'). cbn [length heap_iter]. rewrite Hpop. f_equal. apply (IH (mkPrio h) Hr').
Qed.
End refine.

(** What [__lt__] reads of a request. *)
Definition same_key (r r' : Request) : Prop :=
  priority r' = priority r /\ arrival_time r' = arrival_time r /\ request_id r' = request_id r.
(** No operation sees a queued request with another key than the operation before it. *)
Fixpoint keys_kept (store : Store) (ops : list (Store * QOp)) (s : SortedQueue) : Prop :=
  match ops with
  | [] => True
  | (store', op) :: ops' =>
    Forall (fun r => same_key (store r) (store' r)) (sq_items s) /\
    keys_kept store' ops' (queue_step (H := sorted_queue store') op s).2
  end.

Lemma same_key_lt store store' a b :
  same_key (store a) (store' a) -> same_key (store b) (store' b) -> obj_lt store' a b = obj_lt store a b.
Proof. intros (Hp & Ht & Hr) (Hp' & Ht' & Hr'). unfold obj_lt, request_lt. by rewrite Hp, Ht, Hr, Hp', Ht', Hr'. Qed.

(** A queue stays related when its requests keep their keys. *)
Lemma queue_rel_store store store' q s :
  queue_rel store q s -> Forall (fun r => same_key (store r) (store' r)) (sq_items s) -> queue_rel store' q s.
Proof.
  intros [Hh Hp Hs] Hk. rewrite Forall_forall in Hk.
  assert (Hle : forall a b, a ∈ sq_items s -> b ∈ sq_items s -> HeapQ.le (obj_lt store) a b -> HeapQ.le (obj_lt store') a b).
  { intros a b Ha Hb. unfold HeapQ.le. by rewrite (same_key_lt store store') by auto. }
  split; [| done |].
  - intros j H0 H1 a b Ha Hb. apply Hle; [rewrite <- Hp; by eapply list_elem_of_lookup_2 .. | exact (Hh j H0 H1 a b Ha Hb)].
  - clear Hh Hp Hk. induction Hs as [|x l Hl IH Hx]; [constructor |]. constructor.
    + apply IH. intros a b Ha Hb. apply Hle; by right.
    + apply Forall_forall. intros y Hy. rewrite Forall_forall in Hx. apply Hle; [by left | by right | by apply Hx].
Qed.

Lemma queue_run_sim ops : forall store q s, queue_rel store q s -> keys_kept store ops s ->
  (queue_run priority_queue ops q).1 = (queue_run sorted_queue ops s).1 /\
  queue_rel (final_store store ops) (queue_run priority_queue ops q).2 (queue_run sorted_queue ops s).2.
Proof.
  induction ops as [|[store' op] ops IH]; intros store q s Hr Hk; [done |]. destruct Hk as [Hk Hk']. cbn [queue_run].
  destruct (queue_step_sim store' op q s (queue_rel_store _ _ _ _ Hr Hk)) as [Ho Hr'].
  destruct (queue_step op q) as [o q'], (queue_step op s) as [o' s']; simpl in *.
  destruct (IH store' q' s' Hr' Hk') as [Hos Hr'']. unfold final_store in *. rewrite fmap_cons, last_cons. simpl.
  destruct (queue_run priority_queue ops q'), (queue_run sorted_queue ops s'); simpl in *. subst.
  split; [done |]. by destruct (last ops.*1).
Qed.

(** C36 (refinement): PriorityRequestQueue implements the sorted queue. Whatever operations
    the scheduler performs on a new priority queue, while the request objects change between
    them in any way that keeps the priority, arrival time and id of the requests in the queue,
    the values the operations return and the exceptions they raise are those of a queue that
    keeps its requests in a list sorted by (priority, arrival time, request id, identity): in
    particular [pop_request] and [peek_request] give the least request, and iterating the
    queue yields all its requests in that order, each as often as it was added and not
    removed. *)
Theorem priority_queue_refines_sorted store ops :
  keys_kept store ops (mkSorted []) ->
  let (outs, q) := queue_run priority_queue ops (mkPrio []) in
  let (outs', s) := queue_run sorted_queue ops (mkSorted []) in
  let store' := final_store store ops in
  outs = outs' /\
  queue_iter (RequestQueue := priority_queue store') q = sq_items s /\
  StronglySorted (HeapQ.le (obj_lt store')) (sq_items s) /\
  queue_len (RequestQueue := priority_queue store') q = zlen (sq_items s).
Proof.
  intros Hk. destruct (queue_run_sim ops store (mkPrio []) (mkSorted [])) as [Ho Hr];
    [by split; [intros j a b Ha | |constructor] | done |].
  destruct (queue_run priority_queue ops (mkPrio [])) as [outs q], (queue_run sorted_queue ops (mkSorted [])) as [outs' s].
  simpl in *. split_and!; [done | by apply rel_iter | apply Hr |]. unfold zlen. by rewrite (Permutation_length (qr_perm _ _ _ Hr)).
Qed.

(** A run of the queue: b (priority 0) overtakes a (priority 1); removing a request that is
    not queued raises ValueError and changes nothing; b gets a new arrival time after it was
    taken and is queued again, behind the others. *)
Definition queue_demo (p t : Z) (rid : string) : Request :=
  mkRequest rid p t None None None WAITING None 1 None None ∅ 0 [] [] 0 [] None [] 0 false [] false.
Definition demo_store (b : Request) : Store := fun i =>
  if i =? 1 then queue_demo 1 5 "a" else if i =? 2 then b else queue_demo 1 4 "c".
Definition demo_ops : list (Store * QOp) :=
  let s1 := demo_store (queue_demo 0 9 "b") in let s2 := demo_store (queue_demo 1 12 "b") in
  [(s1, QAdd 1); (s1, QAdd 3); (s1, QAdd 2); (s1, QPeek); (s1, QRemove 7); (s1, QPop); (s2, QAdd 2); (s2, QPop); (s2, QPeek)].

Lemma priority_queue_refines_sorted_witness :
  keys_kept (demo_store (queue_demo 0 9 "b")) demo_ops (mkSorted []) /\
  queue_run priority_queue demo_ops (mkPrio []) =
    ([Ok None; Ok None; Ok None; Ok (Some 2); Err ValueError; Ok (Some 2); Ok None; Ok (Some 3); Ok (Some 1)], mkPrio [1; 2]) /\
  StronglySorted (HeapQ.le (obj_lt (demo_store (queue_demo 1 12 "b")))) [1; 2].
Proof.
  assert (Hk : keys_kept (demo_store (queue_demo 0 9 "b")) demo_ops (mkSorted [])).
  { cbn. repeat split; repeat constructor. }
  pose proof (priority_queue_refines_sorted (demo_store (queue_demo 0 9 "b")) demo_ops Hk) as Hp.
  refine (conj Hk (conj _ _)); [vm_compute; reflexivity |].
  vm_compute in Hp. exact (proj1 (proj2 (proj2 Hp))).
Defined.

(** Without the condition: when the arrival time of a queued request changes, as
    _update_request_as_session does, the queue still gives the request that was first. *)
Example changed_key_breaks_order :
  let s1 := demo_store (queue_demo 1 9 "b") in let s2 := demo_store (queue_demo 1 3 "b") in
  (queue_run priority_queue [(s1, QAdd 1); (s1, QAdd 2); (s2, QPeek)] (mkPrio [])).1 = [Ok None; Ok None; Ok (Some 1)] /\
  obj_lt s2 2 1 = true.
Proof. vm_compute. split; reflexivity. Qed.
