(* ===== verification/SchedUtils.v ===== *)
(** * SchedUtils
    vllm/v1/core/sched/utils.py: repetition detection, the stop check that ends a request,
    and the bulk removal from the scheduler's lists; with the correctness of the stop check. *)
From S2P Require Import Prelude KVCacheBlock Request.

(** ** _has_repeating_pattern
    The two loops, each over the values its [range] yields. *)
Fixpoint same_repetitions (token_ids : list Z) (pattern_len n target_token : Z) (ms : list Z) : res bool :=
  match ms with
  | [] => Ok true
  | m :: ms' =>
    match py_index token_ids (- (pattern_len * m + n)) with
    | Err e => Err e
    | Ok t => if negb (t =? target_token) then Ok false else same_repetitions token_ids pattern_len n target_token ms'
    end
  end.
Fixpoint pattern_positions (token_ids : list Z) (pattern_len repetition_min_count : Z) (ns : list Z) : res bool :=
  match ns with
  | [] => Ok true
  | n :: ns' =>
    match py_index token_ids (- n) with
    | Err e => Err e
    | Ok target_token =>
      match same_repetitions token_ids pattern_len n target_token (seqZ 1 (repetition_min_count - 1)) with
      | Ok true => pattern_positions token_ids pattern_len repetition_min_count ns'
      | r => r
      end
    end
  end.
Definition _has_repeating_pattern (token_ids : list Z) (pattern_len repetition_min_count : Z) : res bool :=
  pattern_positions token_ids pattern_len repetition_min_count (seqZ 1 pattern_len).

(** ** check_sequence_repetition *)
Fixpoint try_patterns (token_ids : list Z) (min_count : Z) (lens : list Z) : res bool :=
  match lens with
  | [] => Ok false
  | pattern_len :: lens' =>
    if zlen token_ids <? pattern_len * min_count then Ok false
    else
      match _has_repeating_pattern token_ids pattern_len min_count with
      | Ok false => try_patterns token_ids min_count lens'
      | r => r
      end
  end.
Definition check_sequence_repetition (token_ids : list Z) (params : RepetitionDetectionParams) : res bool :=
  let max_pattern_size := max_pattern_size params in
  let min_count := min_count params in
  let min_pattern_size := if min_pattern_size params <=? 0 then 1 else min_pattern_size params in
  if (max_pattern_size <=? 0) || (min_count <? 2) || (max_pattern_size <? min_pattern_size) then Ok false
  else try_patterns token_ids min_count (seqZ min_pattern_size (max_pattern_size + 1 - min_pattern_size)).

(** ** remove_all
    [items_to_remove] is a set, so its list has no duplicates. A single item is removed by
    [list.remove], which takes the first occurrence. *)
Fixpoint remove_one (x : Z) (l : list Z) : list Z :=
  match l with [] => [] | y :: l' => if y =? x then l' else y :: remove_one x l' end.
Definition remove_all (lst items_to_remove : list Z) : list Z :=
  match items_to_remove with
  | [] => lst
  | [item] => remove_one item lst
  | _ => filter (fun item => item ∉ items_to_remove) lst
  end.

(** ** check_stop *)
Definition set_status (st : RequestStatus) : M Request unit := modify (fun r => with_status st (stop_reason r) r).
Definition set_stop_reason (sr : StopReason) : M Request unit := modify (fun r => with_status (status r) (Some sr) r).

Definition check_stop (max_model_len : Z) : M Request bool :=
  let* request := get in
  assert (negb (bool_decide (is_Some (pooling_params request)))) ;;;
  match sampling_params request with
  | None => raise AssertionError
  | Some sp =>
    if num_output_tokens request <? min_tokens sp then ret false
    else
      let* last_token_id := lift (py_index (_output_token_ids request) (-1)) in
      if bool_decide (eos_token_id sp = Some last_token_id) then
        set_status FINISHED_STOPPED ;;; ret true
      else if bool_decide (last_token_id ∈ default [] (stop_token_ids sp)) then
        set_status FINISHED_STOPPED ;;; set_stop_reason (StopToken last_token_id) ;;; ret true
      else if (max_model_len <=? num_tokens request) || (max_tokens request <=? num_output_tokens request) then
        set_status FINISHED_LENGTH_CAPPED ;;; ret true
      else
        let* repeats := match repetition_detection sp with
                        | Some rd => lift (check_sequence_repetition (_output_token_ids request) rd)
                        | None => ret false
                        end in
        if repeats : bool then
          set_status FINISHED_REPETITION ;;; set_stop_reason (StopStr "repetition_detected"%string) ;;; ret true
        else ret false
  end.

(** ** Specification of the repetition check *)
Definition ends_with_repeats (l : list Z) (p c : Z) : Prop :=
  exists pre pat, zlen pat = p /\ l = pre ++ concat (replicate (Z.to_nat c) pat).

(** The repetition the parameters ask for. *)
Definition repetition_found (l : list Z) (ps : RepetitionDetectionParams) : Prop :=
  2 <= min_count ps /\
  exists p, Z.max 1 (min_pattern_size ps) <= p <= max_pattern_size ps /\ ends_with_repeats l p (min_count ps).

(** ** Proofs *)
Lemma py_index_neg {A} (l : list A) (k : Z) : 1 <= k <= zlen l ->
  exists x, py_index l (- k) = Ok x /\ reverse l !! Z.to_nat (k - 1) = Some x.
Proof.
  intros Hk. unfold zlen in Hk. destruct (lookup_lt_is_Some_2 (reverse l) (Z.to_nat (k - 1))) as [x Hx].
  { rewrite length_reverse. lia. }
  exists x. split; [| done]. rewrite reverse_lookup in Hx by lia. unfold py_index, zlen. cbv zeta.
  rewrite (proj2 (Z.ltb_lt (- k) 0)) by lia. rewrite (proj2 (Z.ltb_ge _ _)) by lia.
  replace (Z.to_nat (- k + Z.of_nat (length l))) with (length l - S (Z.to_nat (k - 1)))%nat by lia. by rewrite Hx.
Qed.

(** Periodicity of a list by index. *)
Lemma periodic_iff {A} (pat : list A) c : forall r : list A, (length pat * c <= length r)%nat ->
  (forall m i, (m < c)%nat -> (i < length pat)%nat -> r !! (length pat * m + i)%nat = pat !! i) <->
  exists rest, r = concat (replicate c pat) ++ rest.
Proof.
  induction c as [|c IH]; intros r Hl; simpl.
  { split; [by exists r | intros _ m i Hm; lia]. }
  split.
  - intros H. assert (take (length pat) r = pat) as Hpat.
    { apply list_eq_same_length with (n := length pat); [done | rewrite length_take; lia |].
      intros i x y Hi Hx Hy. rewrite lookup_take_lt in Hx by done. specialize (H 0%nat i ltac:(lia) Hi).
      rewrite Nat.mul_0_r, Nat.add_0_l in H. congruence. }
    destruct (proj1 (IH (drop (length pat) r) ltac:(rewrite length_drop; lia))) as [rest Hrest].
    { intros m i Hm Hi. rewrite lookup_drop. rewrite <- (H (S m) i) by lia. f_equal. lia. }
    exists rest. by rewrite <- (take_drop (length pat) r), Hpat, Hrest, app_assoc.
  - intros [rest ->] m i Hm Hi. rewrite <- app_assoc in *. rewrite length_app, Nat.mul_succ_r in Hl. destruct m as [|m].
    { rewrite lookup_app_l by lia. f_equal. lia. }
    rewrite lookup_app_r by lia. replace (length pat * S m + i - length pat)%nat with (length pat * m + i)%nat by lia.
    apply IH; [lia | by exists rest | lia | done].
Qed.

Lemma concat_replicate_reverse {A} (pat : list A) c :
  reverse (concat (replicate c pat)) = concat (replicate c (reverse pat)).
Proof.
  induction c as [|c IH]; [done |]. rewrite replicate_S_end at 1. rewrite concat_app, reverse_app, IH. simpl.
  by rewrite app_nil_r.
Qed.

(** [r] repeats its first [p] elements [c] times. *)
Definition periodic (r : list Z) (p c : Z) : Prop :=
  forall m i, 0 <= m < c -> 0 <= i < p -> r !! Z.to_nat (p * m + i) = r !! Z.to_nat i.

Lemma ends_periodic l p c : 1 <= p -> 1 <= c -> p * c <= zlen l -> ends_with_repeats l p c <-> periodic (reverse l) p c.
Proof.
  intros Hp Hc Hl. unfold zlen in Hl. set (r := reverse l). assert (length r = length l) as Hr by apply length_reverse.
  assert (forall pat, zlen pat = p -> (exists rest, r = concat (replicate (Z.to_nat c) pat) ++ rest) <->
    forall m i, 0 <= m < c -> 0 <= i < p -> r !! Z.to_nat (p * m + i) = pat !! Z.to_nat i) as Hiff.
  { intros pat Hpat. unfold zlen in Hpat. rewrite <- periodic_iff by nia. split; intros H m i Hm Hi.
    - rewrite <- (H (Z.to_nat m) (Z.to_nat i)) by lia. f_equal. lia.
    - rewrite <- (Nat2Z.id i), <- (H (Z.of_nat m) (Z.of_nat i)) by lia. f_equal. lia. }
  split.
  - intros (pre & pat & Hpat & Heq). assert (exists rest, r = concat (replicate (Z.to_nat c) (reverse pat)) ++ rest) as Hex.
    { exists (reverse pre). unfold r. by rewrite Heq, reverse_app, concat_replicate_reverse. }
    assert (zlen (reverse pat) = p) as Hrp by (unfold zlen in *; by rewrite length_reverse).
    rewrite (Hiff _ Hrp) in Hex. intros m i Hm Hi. rewrite (Hex m i Hm Hi). rewrite <- (Hex 0 i ltac:(lia) Hi). f_equal. lia.
  - intros H. assert (zlen (take (Z.to_nat p) r) = p) as Hrp by (unfold zlen; rewrite length_take; nia).
    destruct (proj2 (Hiff _ Hrp)) as [rest Hrest].
    { intros m i Hm Hi. rewrite (H m i Hm Hi). symmetry. apply lookup_take_lt. lia. }
    exists (reverse rest), (reverse (take (Z.to_nat p) r)). split; [unfold zlen in *; by rewrite length_reverse |].
    rewrite <- concat_replicate_reverse, <- reverse_app, <- Hrest. unfold r. by rewrite reverse_involutive.
Qed.

Lemma same_repetitions_spec l p n t ms : 1 <= n -> 0 <= p ->
  (forall m, m ∈ ms -> 0 <= m /\ p * m + n <= zlen l) ->
  exists b, same_repetitions l p n t ms = Ok b /\
    (b = true <-> forall m, m ∈ ms -> reverse l !! Z.to_nat (p * m + (n - 1)) = Some t).
Proof.
  intros Hn Hp. induction ms as [|m ms IH]; intros Hms; simpl.
  { exists true. split; [done |]. split; [intros _ m Hm; by apply elem_of_nil in Hm | done]. }
  destruct (Hms m (list_elem_of_here _ _)) as [Hm0 Hm].
  destruct (py_index_neg l (p * m + n)) as (x & -> & Hx); [nia |].
  replace (p * m + n - 1) with (p * m + (n - 1)) in Hx by lia.
  destruct (Z.eqb_spec x t) as [-> | Hne]; simpl.
  - destruct IH as (b & -> & Hb); [intros m' Hm'; apply Hms; by right |]. exists b. split; [done |].
    rewrite Hb. setoid_rewrite elem_of_cons. naive_solver.
  - exists false. split; [done |]. split; [done |]. intros H. rewrite (H m (list_elem_of_here _ _)) in Hx. congruence.
Qed.

Lemma pattern_positions_spec l p c ns : 1 <= p -> 1 <= c -> p * c <= zlen l ->
  (forall n, n ∈ ns -> 1 <= n <= p) ->
  exists b, pattern_positions l p c ns = Ok b /\
    (b = true <-> forall n m, n ∈ ns -> 1 <= m < c ->
      reverse l !! Z.to_nat (p * m + (n - 1)) = reverse l !! Z.to_nat (n - 1)).
Proof.
  intros Hp Hc Hl. induction ns as [|n ns IH]; intros Hns; simpl.
  { exists true. split; [done |]. split; [intros _ n m Hn; by apply elem_of_nil in Hn | done]. }
  destruct (Hns n (list_elem_of_here _ _)) as [Hn0 Hn].
  destruct (py_index_neg l n) as (x & -> & Hx); [nia |].
  destruct (same_repetitions_spec l p n x (seqZ 1 (c - 1))) as (b & -> & Hb); [lia | lia | |].
  { intros m [Hm1 Hm2]%elem_of_seqZ. split; [lia | nia]. }
  destruct IH as (b' & Hrec & Hb'); [intros n' Hn'; apply Hns; by right |]. destruct b.
  - rewrite Hrec. exists b'. split; [done |]. rewrite Hb'. split; intros H n' m.
    + rewrite elem_of_cons. intros [-> | Hn'] Hm; [| by apply H]. rewrite Hx. apply Hb; [done |]. apply elem_of_seqZ. lia.
    + intros Hn'. apply H. by right.
  - exists false. split; [done |]. split; [done |]. intros H. apply Hb. intros m Hm%elem_of_seqZ.
    rewrite <- Hx. apply H; [apply list_elem_of_here | lia].
Qed.

Lemma has_repeating_pattern_spec l p c : 1 <= p -> 2 <= c -> p * c <= zlen l ->
  exists b, _has_repeating_pattern l p c = Ok b /\ (b = true <-> ends_with_repeats l p c).
Proof.
  intros Hp Hc Hl. destruct (pattern_positions_spec l p c (seqZ 1 p)) as (b & Hrun & Hb); [lia | lia | lia | |].
  { intros n Hn%elem_of_seqZ. lia. }
  exists b. split; [done |]. rewrite Hb, ends_periodic by lia. unfold periodic. split.
  - intros H m i Hm Hi. destruct (decide (m = 0)) as [-> | Hm0]; [f_equal; lia |].
    specialize (H (i + 1) m). replace (i + 1 - 1) with i in H by lia. apply H; [apply elem_of_seqZ |]; lia.
  - intros H n m Hn%elem_of_seqZ Hm. apply H; lia.
Qed.

Lemma ends_with_repeats_length l p c : 0 <= c -> ends_with_repeats l p c -> p * c <= zlen l.
Proof.
  intros Hc (pre & pat & <- & ->). rewrite zlen_app. assert (forall k, zlen (concat (replicate k pat)) = zlen pat * Z.of_nat k) as ->.
  { induction k as [|k IH]; [simpl; unfold zlen; simpl; lia |]. simpl. rewrite zlen_app, IH. lia. }
  pose proof (zlen_nonneg pre). rewrite Z2Nat.id by done. lia.
Qed.

Lemma try_patterns_spec l c k : forall a, 1 <= a -> 2 <= c ->
  exists b, try_patterns l c (seqZ a (Z.of_nat k)) = Ok b /\
    (b = true <-> exists p, a <= p < a + Z.of_nat k /\ ends_with_repeats l p c).
Proof.
  induction k as [|k IH]; intros a Ha Hc.
  { exists false. split; [done |]. split; [done |]. intros (p & Hp & _). lia. }
  rewrite seqZ_cons by lia. cbn [try_patterns]. destruct (Z.ltb_spec (zlen l) (a * c)) as [Hlt | Hge].
  { exists false. split; [done |]. split; [done |]. intros (p & Hp & He). apply ends_with_repeats_length in He; nia. }
  destruct (has_repeating_pattern_spec l a c Ha Hc Hge) as (b & -> & Hb). destruct b.
  - exists true. split; [done |]. split; [intros _ | done]. exists a. split; [lia | by apply Hb].
  - replace (Z.pred (Z.of_nat (S k))) with (Z.of_nat k) by lia. destruct (IH (Z.succ a)) as (b & -> & Hb'); [lia | done |].
    exists b. split; [done |]. rewrite Hb'. split.
    + intros (p & Hp & He). exists p. split; [lia | done].
    + intros (p & Hp & He). exists p. split; [| done]. destruct (decide (p = a)) as [-> |]; [| lia].
      apply Hb in He. done.
Qed.

(** check_sequence_repetition never raises, and it is exact. *)
Lemma check_sequence_repetition_spec l ps :
  exists b, check_sequence_repetition l ps = Ok b /\ (b = true <-> repetition_found l ps).
Proof.
  unfold check_sequence_repetition, repetition_found. cbv zeta. set (a := if _ <=? 0 then 1 else _).
  assert (a = Z.max 1 (min_pattern_size ps)) as Ha by (unfold a; destruct (Z.leb_spec (min_pattern_size ps) 0); lia).
  destruct ((max_pattern_size ps <=? 0) || (min_count ps <? 2) || (max_pattern_size ps <? a)) eqn:E.
  - exists false. split; [done |]. split; [done |]. intros (Hc & p & Hp & _). rewrite !orb_true_iff in E. zbool.
    destruct E as [[E | E] | E]; zbool; lia.
  - rewrite !orb_false_iff in E. destruct E as [[E1 E2] E3]. zbool.
    destruct (try_patterns_spec l (min_count ps) (Z.to_nat (max_pattern_size ps + 1 - a)) a) as (b & Hb & Hiff); [lia | lia |].
    rewrite Z2Nat.id in Hb by lia. exists b. split; [done |]. rewrite Hiff. split.
    + intros (p & Hp & He). split; [lia |]. exists p. split; [lia | done].
    + intros (_ & p & Hp & He). exists p. split; [lia | done].
Qed.

(** remove_all removes the given items from a list without duplicates. *)
Lemma remove_all_spec lst items : NoDup lst -> remove_all lst items = filter (fun x => x ∉ items) lst.
Proof.
  intros Hnd. destruct items as [|x [|y items]]; [| | done].
  - symmetry. apply filter_id. intros x _. apply not_elem_of_nil.
  - simpl. induction lst as [|z lst IH]; [done |]. apply NoDup_cons in Hnd as [Hz Hnd].
    rewrite filter_cons. simpl. destruct (Z.eqb_spec z x) as [-> | Hne].
    + rewrite decide_False by (intros H; apply H; apply list_elem_of_here). symmetry. apply filter_id.
      intros w Hw. rewrite list_elem_of_singleton. congruence.
    + rewrite decide_True by (rewrite list_elem_of_singleton; done). f_equal. by apply IH.
Qed.

(** ** The stop check *)
Section stop.
Context (max_model_len : Z) (r : Request) (sp : SamplingParams) (outs : list Z) (last : Z).
Hypotheses (Hpool : pooling_params r = None) (Hsp : sampling_params r = Some sp)
  (Houts : _output_token_ids r = outs ++ [last]).

(** The conditions, in the order the code tests them. *)
Definition stop_token : Prop := eos_token_id sp = Some last \/ last ∈ default [] (stop_token_ids sp).
Definition stop_length : Prop := max_model_len <= num_tokens r \/ max_tokens r <= num_output_tokens r.
Definition stop_repetition : Prop :=
  exists rd, repetition_detection sp = Some rd /\ repetition_found (_output_token_ids r) rd.

Lemma check_stop_unfold : min_tokens sp <= num_output_tokens r ->
  exists rep : bool, (rep = true <-> stop_repetition) /\
  check_stop max_model_len r =
    if decide (eos_token_id sp = Some last) then (Ok true, with_status FINISHED_STOPPED (stop_reason r) r)
    else if decide (last ∈ default [] (stop_token_ids sp))
      then (Ok true, with_status FINISHED_STOPPED (Some (StopToken last)) r)
    else if decide stop_length then (Ok true, with_status FINISHED_LENGTH_CAPPED (stop_reason r) r)
    else if rep then (Ok true, with_status FINISHED_REPETITION (Some (StopStr "repetition_detected"%string)) r)
    else (Ok false, r).
Proof using Hpool Hsp Houts.
  intros Hmin. assert (exists rep, (rep = true <-> stop_repetition) /\
    match repetition_detection sp with
    | Some rd => check_sequence_repetition (_output_token_ids r) rd = Ok rep
    | None => rep = false
    end) as (rep & Hrep & Hrun).
  { unfold stop_repetition. destruct (repetition_detection sp) as [rd|].
    - destruct (check_sequence_repetition_spec (_output_token_ids r) rd) as (b & Hb & Hiff). exists b. split; [| done].
      rewrite Hiff. naive_solver.
    - exists false. split; [naive_solver | done]. }
  exists rep. split; [done |]. unfold check_stop, bind, get, assert, lift. simpl. rewrite Hpool, Hsp. simpl.
  rewrite (proj2 (Z.ltb_ge _ _)) by done. rewrite Houts at 1. rewrite py_index_last.
  case_bool_decide; case_decide; try done. case_bool_decide; case_decide; try done.
  destruct ((max_model_len <=? num_tokens r) || (max_tokens r <=? num_output_tokens r)) eqn:El.
  - rewrite decide_True; [done |]. rewrite orb_true_iff in El. unfold stop_length. destruct El; zbool; auto.
  - rewrite decide_False; [| rewrite orb_false_iff in El; unfold stop_length; destruct El; zbool; lia].
    destruct (repetition_detection sp) as [rd|]; [rewrite Hrun; by destruct rep | by subst rep].
Qed.
End stop.

(** When a request stops. For a generation request that has produced a
    token, [check_stop] returns normally, and it returns true exactly when the request has
    its minimum number of output tokens and (a) the last token is the end-of-sequence
    token or a stop token, or (b) the model length or the token limit is reached, or (c) the
    output ends with a pattern of an admissible length repeated [min_count] times. The
    request then has the finish reason of the first of (a), (b), (c) that holds, nothing but
    its status and stop reason changes, and a request that does not stop is unchanged. *)
Lemma check_stop_correct max_model_len r sp outs last :
  pooling_params r = None -> sampling_params r = Some sp -> _output_token_ids r = outs ++ [last] ->
  exists stop r', check_stop max_model_len r = (Ok stop, r') /\
    (stop = true <-> min_tokens sp <= num_output_tokens r /\
       (stop_token sp last \/ stop_length max_model_len r \/ stop_repetition r sp)) /\
    (stop = false -> r' = r) /\
    (stop = true -> r' = with_status (status r') (stop_reason r') r /\ is_finished r' = true /\
       status_finished_reason (status r') =
         Some (if decide (stop_token sp last) then STOP
               else if decide (stop_length max_model_len r) then LENGTH else REPETITION)).
Proof.
  intros Hpool Hsp Houts. destruct (Z.lt_ge_cases (num_output_tokens r) (min_tokens sp)) as [Hlt | Hge].
  { exists false, r. split_and!; [| split; [done | lia] | done | done]. unfold check_stop, bind, get, assert. simpl.
    rewrite Hpool, Hsp. simpl. by rewrite (proj2 (Z.ltb_lt _ _)). }
  destruct (check_stop_unfold max_model_len r sp outs last Hpool Hsp Houts Hge) as (rep & Hrep & ->).
  unfold stop_token. repeat case_decide; try destruct rep; eexists _, _; split_and!;
    try reflexivity; try done; naive_solver.
Qed.

Definition stop_params : SamplingParams :=
  mkSP (Some 100) 2 (Some 50) (Some [60]) (Some (mkRep 3 1 2)) false None.
Definition stop_example : Request :=
  mkRequest "r"%string 0 0 (Some stop_params) None None RUNNING None 100 (Some [9]) None ∅ 1 [5; 1; 2; 1; 2] [9; 5; 1; 2; 1; 2]
    6 [] None [] 0 false [] false.

(** The output 5 1 2 1 2 ends with 1 2 twice: the request stops with reason REPETITION. *)
