(* ===== verification/Scheduler.v ===== *)
(** * Scheduler
    vllm/v1/core/sched/scheduler.py and async_scheduler.py: the state of the scheduler, its
    configuration, the request objects it shares between its queues, and the parts it calls
    outside of the modelled code.

    Request objects live in [objs] and are referred to by identity, as in the queues of
    RequestQueue.v; the dictionary [self.requests] maps request ids to references. The KV and
    encoder-cache connectors and the grammars of structured output are not part of the
    scheduler: the class [Externals] lists the calls made to them, on a state [W] of their
    own. Log messages, time stamps and statistics objects are left out. *)
From S2P Require Import Prelude OrdDict KVCacheBlock FreeQueue Request BlockHash BlockPool Managers CacheHit Coordinator KVCacheManager EncoderCache HeapQ RequestQueue SchedUtils.

(** ** Requests as the scheduler sees them *)

(** class StreamingUpdate *)
Record StreamingUpdate := mkUpdate {
  up_mm_features : list MMFeature;
  up_prompt_token_ids : option (list Z);
  up_max_tokens : Z;
  up_arrival_time : Z;
  up_sampling_params : option SamplingParams;
}.

(** The fields of a request that only the scheduler uses. [has_prefill_stats] tells whether
    [prefill_stats] is set. *)
Record SchedRequest := mkSR {
  rq : Request;
  num_output_placeholders : Z;
  is_prefill_chunk : bool;
  resumable : bool;
  streaming_queue : option (list (option StreamingUpdate));
  discard_latest_async_tokens : bool;
  client_index : Z;
  has_prefill_stats : bool;
}.

Definition on_rq (f : Request -> Request) (o : SchedRequest) : SchedRequest :=
  mkSR (f (rq o)) (num_output_placeholders o) (is_prefill_chunk o) (resumable o) (streaming_queue o)
    (discard_latest_async_tokens o) (client_index o) (has_prefill_stats o).
Definition with_placeholders (n : Z) (o : SchedRequest) : SchedRequest :=
  mkSR (rq o) n (is_prefill_chunk o) (resumable o) (streaming_queue o) (discard_latest_async_tokens o) (client_index o)
    (has_prefill_stats o).
Definition with_prefill_chunk (b : bool) (o : SchedRequest) : SchedRequest :=
  mkSR (rq o) (num_output_placeholders o) b (resumable o) (streaming_queue o) (discard_latest_async_tokens o)
    (client_index o) (has_prefill_stats o).
Definition with_resumable (b : bool) (o : SchedRequest) : SchedRequest :=
  mkSR (rq o) (num_output_placeholders o) (is_prefill_chunk o) b (streaming_queue o) (discard_latest_async_tokens o)
    (client_index o) (has_prefill_stats o).
Definition with_streaming (q : option (list (option StreamingUpdate))) (o : SchedRequest) : SchedRequest :=
  mkSR (rq o) (num_output_placeholders o) (is_prefill_chunk o) (resumable o) q (discard_latest_async_tokens o)
    (client_index o) (has_prefill_stats o).
Definition with_discard (b : bool) (o : SchedRequest) : SchedRequest :=
  mkSR (rq o) (num_output_placeholders o) (is_prefill_chunk o) (resumable o) (streaming_queue o) b (client_index o)
    (has_prefill_stats o).
Definition with_prefill_stats (b : bool) (o : SchedRequest) : SchedRequest :=
  mkSR (rq o) (num_output_placeholders o) (is_prefill_chunk o) (resumable o) (streaming_queue o)
    (discard_latest_async_tokens o) (client_index o) b.

(** use_structured_output: the request object of the parameters exists. *)
Definition use_structured_output (r : Request) : bool :=
  match sampling_params r with Some sp => structured_outputs sp | None => false end.

(** StreamingUpdate.from_request *)
Definition update_from_request (o : SchedRequest) : option StreamingUpdate :=
  if resumable o
  then Some (mkUpdate (mm_features (rq o)) (prompt_token_ids (rq o)) (max_tokens (rq o)) (arrival_time (rq o))
               (sampling_params (rq o)))
  else None.

(** ** Configuration *)

(** class NELSSAConfig: the fields the scheduler reads *)
Record NELSSAConfig := mkNelssa {
  nelssa_enabled : bool;
  first_n : Z;
  last_m : Z;
  prompt_length_threshold : Z;
  max_num_long_requests : Z;
}.
Definition nelssa_check (c : NELSSAConfig) (prompt_length : Z) : bool :=
  nelssa_enabled c && (prompt_length_threshold c <=? prompt_length).

Inductive PauseState := UNPAUSED | PAUSED_NEW | PAUSED_ALL.

(** What __init__ takes from the configuration; it reads a field of the NELSSA configuration,
    so there always is one. [is_async] selects AsyncScheduler, [max_loras] is set when LoRA is
    configured. *)
Record SchedulerConfig := mkSchedConfig {
  policy : SchedulingPolicy;
  is_async : bool;
  max_num_running_reqs : Z;
  max_num_scheduled_tokens : Z;
  s_max_model_len : Z;
  long_prefill_token_threshold : Z;
  enable_chunked_prefill : bool;
  disable_chunked_mm_input : bool;
  scheduler_reserve_full_isl : bool;
  max_num_encoder_input_tokens : Z;
  is_encoder_decoder : bool;
  s_use_eagle : bool;
  num_spec_tokens : Z;
  num_lookahead_tokens : Z;
  need_mamba_block_aligned_split : bool;
  sched_block_size : Z;
  cache_block_size : Z;
  max_loras : option Z;
  s_nelssa_config : NELSSAConfig;
  needs_kv_cache_zeroing : bool;
  use_pp : bool;
  use_v2_model_runner : bool;
  recompute_kv_load_failures : bool;
}.

(** ** The output of a step (sched/output.py)
    Without the connectors' metadata and the fields copied from the requests. *)

(** class NewRequestData *)
Record NewRequestData := mkNew {
  new_req_id : string;
  new_block_ids : list (list Z);
  new_num_computed_tokens : Z;
  new_prefill_token_ids : option (list Z);
}.

(** class CachedRequestData *)
Record CachedRequestData := mkCachedData {
  cd_req_ids : list string;
  cd_resumed_req_ids : list string;
  cd_new_token_ids : list (list Z);
  cd_all_token_ids : list (string * list Z);
  cd_new_block_ids : list (option (list (list Z)));
  cd_num_computed_tokens : list Z;
  cd_num_output_tokens : list Z;
}.

(** An entry of [chunk_info] *)
Record ChunkInfo := mkChunk {
  ci_is_prefill_chunk : bool;
  ci_prompt_len : Z;
  ci_max_total_len : Z;
  ci_chunk_start : Z;
  ci_chunk_end : Z;
  ci_req_idx : Z;
}.

(** class SchedulerOutput *)
Record SchedulerOutput := mkOutput {
  scheduled_new_reqs : list NewRequestData;
  scheduled_cached_reqs : CachedRequestData;
  num_scheduled_tokens : list (string * Z);
  total_num_scheduled_tokens : Z;
  scheduled_spec_decode_tokens : list (string * list Z);
  scheduled_encoder_inputs : list (string * list Z);
  num_common_prefix_blocks : list Z;
  preempted_req_ids : list string;
  out_finished_req_ids : gset string;
  free_encoder_mm_hashes : list string;
  new_block_ids_to_zero : option (list Z);
  chunk_info : list (string * ChunkInfo);
  prefill_complete_reqs : list string;
  has_structured_output_requests : bool;
  pending_structured_output_tokens : bool;
}.

(** ** Calls to parts outside of the scheduler *)
Class Externals (W : Type) := {
  (** the KV connector; [None] when there is none, with whether it supports several groups *)
  kv_connector : option bool;
  get_num_new_matched_tokens : Request -> Z -> W -> option Z * bool * W;
  conn_update_state_after_alloc : Request -> KVCacheBlocks -> Z -> W -> W;
  request_finished : Request -> list (list Z) -> W -> bool * W;
  update_connector_output : list string -> list string -> W -> W;
  conn_reset_cache : W -> bool * W;
  build_connector_meta : SchedulerOutput -> W -> W;
  (** the encoder-cache connector *)
  ec_connector : bool;
  has_cache_item : string -> W -> bool;
  ec_update_state_after_alloc : Request -> Z -> W -> W;
  ec_build_connector_meta : SchedulerOutput -> W -> W;
  (** structured output: whether the grammar of a request is compiled, whether it is
      advanced by new tokens, whether it accepts them, and the valid prefix of drafts *)
  grammar_ready : string -> W -> bool;
  should_advance : Request -> W -> bool;
  accept_tokens : string -> list Z -> W -> bool * W;
  validate_tokens : string -> list Z -> W -> list Z;
}.

(** ** State *)
Abbreviation AnyQueue := (FCFSRequestQueue + PriorityRequestQueue)%type.
Abbreviation EncManager := (EncoderCacheManager + EncoderDecoderCacheManager)%type.

Record Scheduler (W : Type) := mkSched {
  objs : gmap Z SchedRequest;
  s_requests : list (string * Z);
  waiting : AnyQueue;
  skipped_waiting : AnyQueue;
  running : list Z;
  finished_req_ids : gset string;
  finished_req_ids_dict : option (gmap Z (gset string));
  num_waiting_for_streaming_input : Z;
  finished_recving_kv_req_ids : gset string;
  failed_recving_kv_req_ids : gset string;
  prev_step_scheduled_req_ids : gset string;
  kv_cache_manager : KVCacheManager;
  encoder_cache_manager : EncManager;
  _pause_state : PauseState;
  world : W;
}.
Arguments mkSched {W}.
Arguments objs {W}.
Arguments s_requests {W}.
Arguments waiting {W}.
Arguments skipped_waiting {W}.
Arguments running {W}.
Arguments finished_req_ids {W}.
Arguments finished_req_ids_dict {W}.
Arguments num_waiting_for_streaming_input {W}.
Arguments finished_recving_kv_req_ids {W}.
Arguments failed_recving_kv_req_ids {W}.
Arguments prev_step_scheduled_req_ids {W}.
Arguments kv_cache_manager {W}.
Arguments encoder_cache_manager {W}.
Arguments _pause_state {W}.
Arguments world {W}.

Abbreviation SM W A := (M (Scheduler W) A).

Section setters.
Context {W : Type}.
Implicit Types s : Scheduler W.

Definition with_objs x s := mkSched x (s_requests s) (waiting s) (skipped_waiting s) (running s) (finished_req_ids s)
  (finished_req_ids_dict s) (num_waiting_for_streaming_input s) (finished_recving_kv_req_ids s) (failed_recving_kv_req_ids s)
  (prev_step_scheduled_req_ids s) (kv_cache_manager s) (encoder_cache_manager s) (_pause_state s) (world s).
Definition with_requests x s := mkSched (objs s) x (waiting s) (skipped_waiting s) (running s) (finished_req_ids s)
  (finished_req_ids_dict s) (num_waiting_for_streaming_input s) (finished_recving_kv_req_ids s) (failed_recving_kv_req_ids s)
  (prev_step_scheduled_req_ids s) (kv_cache_manager s) (encoder_cache_manager s) (_pause_state s) (world s).
Definition with_waiting x s := mkSched (objs s) (s_requests s) x (skipped_waiting s) (running s) (finished_req_ids s)
  (finished_req_ids_dict s) (num_waiting_for_streaming_input s) (finished_recving_kv_req_ids s) (failed_recving_kv_req_ids s)
  (prev_step_scheduled_req_ids s) (kv_cache_manager s) (encoder_cache_manager s) (_pause_state s) (world s).
Definition with_skipped x s := mkSched (objs s) (s_requests s) (waiting s) x (running s) (finished_req_ids s)
  (finished_req_ids_dict s) (num_waiting_for_streaming_input s) (finished_recving_kv_req_ids s) (failed_recving_kv_req_ids s)
  (prev_step_scheduled_req_ids s) (kv_cache_manager s) (encoder_cache_manager s) (_pause_state s) (world s).
Definition with_running x s := mkSched (objs s) (s_requests s) (waiting s) (skipped_waiting s) x (finished_req_ids s)
  (finished_req_ids_dict s) (num_waiting_for_streaming_input s) (finished_recving_kv_req_ids s) (failed_recving_kv_req_ids s)
  (prev_step_scheduled_req_ids s) (kv_cache_manager s) (encoder_cache_manager s) (_pause_state s) (world s).
Definition with_finished x d s := mkSched (objs s) (s_requests s) (waiting s) (skipped_waiting s) (running s) x
  d (num_waiting_for_streaming_input s) (finished_recving_kv_req_ids s) (failed_recving_kv_req_ids s)
  (prev_step_scheduled_req_ids s) (kv_cache_manager s) (encoder_cache_manager s) (_pause_state s) (world s).
Definition with_num_streaming x s := mkSched (objs s) (s_requests s) (waiting s) (skipped_waiting s) (running s) (finished_req_ids s)
  (finished_req_ids_dict s) x (finished_recving_kv_req_ids s) (failed_recving_kv_req_ids s)
  (prev_step_scheduled_req_ids s) (kv_cache_manager s) (encoder_cache_manager s) (_pause_state s) (world s).
Definition with_recving x y s := mkSched (objs s) (s_requests s) (waiting s) (skipped_waiting s) (running s) (finished_req_ids s)
  (finished_req_ids_dict s) (num_waiting_for_streaming_input s) x y
  (prev_step_scheduled_req_ids s) (kv_cache_manager s) (encoder_cache_manager s) (_pause_state s) (world s).
Definition with_prev x s := mkSched (objs s) (s_requests s) (waiting s) (skipped_waiting s) (running s) (finished_req_ids s)
  (finished_req_ids_dict s) (num_waiting_for_streaming_input s) (finished_recving_kv_req_ids s) (failed_recving_kv_req_ids s)
  x (kv_cache_manager s) (encoder_cache_manager s) (_pause_state s) (world s).
Definition with_kv x s := mkSched (objs s) (s_requests s) (waiting s) (skipped_waiting s) (running s) (finished_req_ids s)
  (finished_req_ids_dict s) (num_waiting_for_streaming_input s) (finished_recving_kv_req_ids s) (failed_recving_kv_req_ids s)
  (prev_step_scheduled_req_ids s) x (encoder_cache_manager s) (_pause_state s) (world s).
Definition with_enc x s := mkSched (objs s) (s_requests s) (waiting s) (skipped_waiting s) (running s) (finished_req_ids s)
  (finished_req_ids_dict s) (num_waiting_for_streaming_input s) (finished_recving_kv_req_ids s) (failed_recving_kv_req_ids s)
  (prev_step_scheduled_req_ids s) (kv_cache_manager s) x (_pause_state s) (world s).
Definition with_pause x s := mkSched (objs s) (s_requests s) (waiting s) (skipped_waiting s) (running s) (finished_req_ids s)
  (finished_req_ids_dict s) (num_waiting_for_streaming_input s) (finished_recving_kv_req_ids s) (failed_recving_kv_req_ids s)
  (prev_step_scheduled_req_ids s) (kv_cache_manager s) (encoder_cache_manager s) x (world s).
Definition with_world (x : W) s := mkSched (objs s) (s_requests s) (waiting s) (skipped_waiting s) (running s) (finished_req_ids s)
  (finished_req_ids_dict s) (num_waiting_for_streaming_input s) (finished_recving_kv_req_ids s) (failed_recving_kv_req_ids s)
  (prev_step_scheduled_req_ids s) (kv_cache_manager s) (encoder_cache_manager s) (_pause_state s) x.

(** *** Access to the parts *)
Definition no_request : Request :=
  mkRequest EmptyString 0 0 None None None WAITING None 0 None None ∅ 0 [] [] 0 [] None [] 0 false [] false.
(** The request a reference stands for. *)
Definition deref s (i : Z) : Request := match objs s !! i with Some o => rq o | None => no_request end.

Definition obj (i : Z) : SM W SchedRequest := fun s =>
  match objs s !! i with Some o => (Ok o, s) | None => (Err AttributeError, s) end.
Definition set_obj (i : Z) (f : SchedRequest -> SchedRequest) : SM W unit := modify (fun s => with_objs (alter f i (objs s)) s).
Definition set_rq (i : Z) (f : Request -> Request) : SM W unit := set_obj i (on_rq f).
(** [request.status = st] *)
Definition set_state (i : Z) (st : RequestStatus) : SM W unit := set_rq i (fun r => with_status st (stop_reason r) r).

Definition on_kv {A} (f : KM A) : SM W A := zoom kv_cache_manager with_kv f.
(** Calls to the parts outside. *)
Definition on_world {A} (f : W -> A * W) : SM W A := fun s => let (a, w) := f (world s) in (Ok a, with_world w s).
Definition upd_world (f : W -> W) : SM W unit := modify (fun s => with_world (f (world s)) s).

(** The encoder cache manager of either class. *)
Definition on_enc {A} (f : M EncoderCacheManager A) (g : M EncoderDecoderCacheManager A) : SM W A :=
  zoom encoder_cache_manager with_enc (fun m =>
    match m with
    | inl c => let (r, c') := f c in (r, inl c')
    | inr c => let (r, c') := g c in (r, inr c')
    end).
End setters.

(** *** The queue of a policy *)
Definition on_left {A B X} (m : M A X) (q : A) : res X * (A + B) := let (r, q') := m q in (r, inl q').
Definition on_right {A B X} (m : M B X) (q : B) : res X * (A + B) := let (r, q') := m q in (r, inr q').
Definition any_op {A} (f : M FCFSRequestQueue A) (g : M PriorityRequestQueue A) : M AnyQueue A := fun q =>
  match q with inl q => on_left f q | inr q => on_right g q end.

#[global] Instance any_queue (store : Z -> Request) : RequestQueue AnyQueue := {|
  add_request r := any_op (fcfs_add r) (prio_add store r);
  pop_request := any_op fcfs_pop (prio_pop store);
  peek_request := any_op fcfs_peek prio_peek;
  prepend_request r := any_op (fcfs_prepend r) (prio_prepend store r);
  prepend_requests rs := any_op (fcfs_prepend_requests rs) (prio_prepend_requests store rs);
  remove_request r := any_op (fcfs_remove r) (prio_remove store r);
  remove_requests rs := any_op (fcfs_remove_requests rs) (prio_remove_requests store rs);
  queue_bool q := match q with inl q => queue_bool q | inr q => queue_bool (RequestQueue := priority_queue store) q end;
  queue_len q := match q with inl q => queue_len q | inr q => queue_len (RequestQueue := priority_queue store) q end;
  queue_iter q := match q with inl q => queue_iter q | inr q => queue_iter (RequestQueue := priority_queue store) q end;
|}.

(** Which of the two queues of the scheduler. *)
Inductive QueueName := Waiting | Skipped.
Definition queue_of {W} (n : QueueName) (s : Scheduler W) : AnyQueue := match n with Waiting => waiting s | Skipped => skipped_waiting s end.
Definition with_queue {W} (n : QueueName) (q : AnyQueue) (s : Scheduler W) : Scheduler W :=
  match n with Waiting => with_waiting q s | Skipped => with_skipped q s end.
(** An operation on a queue; [f] is given the requests the references stand for. *)
Definition on_queue {W A} (n : QueueName) (f : (Z -> Request) -> M AnyQueue A) : SM W A := fun s =>
  let (r, q) := f (deref s) (queue_of n s) in (r, with_queue n q s).
Definition queue_nonempty {W} (n : QueueName) (s : Scheduler W) : bool := queue_bool (RequestQueue := any_queue (deref s)) (queue_of n s).
Definition queue_size {W} (n : QueueName) (s : Scheduler W) : Z := queue_len (RequestQueue := any_queue (deref s)) (queue_of n s).

(** __init__ *)
Definition new_scheduler {W} (cfg : SchedulerConfig) (kv : KVCacheManager) (encoder_cache_size : Z) (include_finished_set : bool) (w : W)
    : Scheduler W :=
  mkSched ∅ [] (create_request_queue (policy cfg)) (create_request_queue (policy cfg)) [] ∅
    (if include_finished_set then Some ∅ else None) 0 ∅ ∅ ∅ kv
    (if is_encoder_decoder cfg then inr (new_EncoderDecoderCacheManager encoder_cache_size)
     else inl (new_EncoderCacheManager encoder_cache_size)) UNPAUSED w.
