(* ===== verification/Schedule.v ===== *)
(** * Schedule
    Scheduler.schedule: the pass over the running requests with preemption, the pass over the
    waiting requests, the output of the step, and _update_after_schedule.

    The local variables of [schedule] are the record [Step]; the passes are computations on
    the scheduler and the step. A [while] loop runs on fuel: every round of the first pass
    moves its index towards the end of the running list, every preemption removes a running
    request, and every round of the second pass takes a request out of a queue or ends it. *)
From S2P Require Import Prelude OrdDict KVCacheBlock FreeQueue Request BlockHash BlockPool Managers CacheHit Coordinator KVCacheManager EncoderCache HeapQ RequestQueue SchedUtils Scheduler.

(** The local variables of schedule. *)
Record Step := mkStep {
  st_new : list Z;
  st_resumed : list Z;
  st_running : list Z;
  st_preempted : list Z;
  st_blocks : list (string * KVCacheBlocks);
  st_tokens : list (string * Z);
  st_budget : Z;
  st_enc_inputs : list (string * list Z);
  st_enc_budget : Z;
  st_spec : list (string * list Z);
  st_index : Z;
  st_loras : gset Z;
  st_skipped : AnyQueue;
}.

Definition set_new x t := mkStep x (st_resumed t) (st_running t) (st_preempted t) (st_blocks t) (st_tokens t) (st_budget t)
  (st_enc_inputs t) (st_enc_budget t) (st_spec t) (st_index t) (st_loras t) (st_skipped t).
Definition set_resumed x t := mkStep (st_new t) x (st_running t) (st_preempted t) (st_blocks t) (st_tokens t) (st_budget t)
  (st_enc_inputs t) (st_enc_budget t) (st_spec t) (st_index t) (st_loras t) (st_skipped t).
Definition set_sched_running x t := mkStep (st_new t) (st_resumed t) x (st_preempted t) (st_blocks t) (st_tokens t) (st_budget t)
  (st_enc_inputs t) (st_enc_budget t) (st_spec t) (st_index t) (st_loras t) (st_skipped t).
Definition set_preempted x t := mkStep (st_new t) (st_resumed t) (st_running t) x (st_blocks t) (st_tokens t) (st_budget t)
  (st_enc_inputs t) (st_enc_budget t) (st_spec t) (st_index t) (st_loras t) (st_skipped t).
(** The blocks and tokens of a request are recorded together, with the budget. *)
Definition set_grant b n budget t := mkStep (st_new t) (st_resumed t) (st_running t) (st_preempted t) b n budget
  (st_enc_inputs t) (st_enc_budget t) (st_spec t) (st_index t) (st_loras t) (st_skipped t).
Definition set_enc i b t := mkStep (st_new t) (st_resumed t) (st_running t) (st_preempted t) (st_blocks t) (st_tokens t) (st_budget t)
  i b (st_spec t) (st_index t) (st_loras t) (st_skipped t).
Definition set_spec x t := mkStep (st_new t) (st_resumed t) (st_running t) (st_preempted t) (st_blocks t) (st_tokens t) (st_budget t)
  (st_enc_inputs t) (st_enc_budget t) x (st_index t) (st_loras t) (st_skipped t).
Definition set_index x t := mkStep (st_new t) (st_resumed t) (st_running t) (st_preempted t) (st_blocks t) (st_tokens t) (st_budget t)
  (st_enc_inputs t) (st_enc_budget t) (st_spec t) x (st_loras t) (st_skipped t).
Definition set_loras x t := mkStep (st_new t) (st_resumed t) (st_running t) (st_preempted t) (st_blocks t) (st_tokens t) (st_budget t)
  (st_enc_inputs t) (st_enc_budget t) (st_spec t) (st_index t) x (st_skipped t).
Definition set_step_skipped x t := mkStep (st_new t) (st_resumed t) (st_running t) (st_preempted t) (st_blocks t) (st_tokens t) (st_budget t)
  (st_enc_inputs t) (st_enc_budget t) (st_spec t) (st_index t) (st_loras t) x.

Definition sum_list (l : list Z) : Z := foldr Z.add 0 l.

Section schedule.
Context {W : Type} `{Externals W} (cfg : SchedulerConfig) (sha256 : bytes -> bytes).

Abbreviation SS := (Scheduler W * Step)%type.
Definition sch {A} (f : SM W A) : M SS A := zoom fst (fun s x => (s, x.2)) f.
Definition stp (f : Step -> Step) : M SS unit := modify (fun x => (x.1, f x.2)).

(** ** Helpers *)
Definition sum_embeds (r : Request) (ids : list Z) : res Z :=
  foldl (fun acc i => match acc with
                      | Err e => Err e
                      | Ok n => match get_num_encoder_embeds r i with Ok k => Ok (n + k) | Err e => Err e end
                      end) (Ok 0) ids.

Definition _mamba_block_aligned_split (request : Request) (num_new_tokens num_new_local num_external : Z) : res Z :=
  if negb (num_external =? 0) then Err AssertionError
  else
    let num_computed := num_computed_tokens request + num_new_local + num_external in
    if num_computed <? Z.max (num_prompt_tokens request) (num_tokens request - 1) then
      let block_size := cache_block_size cfg in
      if block_size =? 0 then Err ZeroDivisionError
      else
        let last0 := num_tokens request - num_tokens request mod block_size in
        let last_cache_position := if s_use_eagle cfg then Z.max (last0 - block_size) 0 else last0 in
        let after := num_computed + num_new_tokens in
        if after <? last_cache_position then Ok (num_new_tokens / block_size * block_size)
        else if (num_computed <? last_cache_position) && (last_cache_position <? after)
        then Ok (last_cache_position - num_computed)
        else Ok num_new_tokens
    else Ok num_new_tokens.

(** *** _try_schedule_encoder_inputs *)
Record EncAcc := mkAcc {
  acc_inputs : list Z;
  acc_new_tokens : Z;
  acc_budget : Z;
  acc_external : list Z;
  acc_hashes : list string;
  acc_embeds : Z;
}.

Definition can_alloc (r : Request) (i budget embeds : Z) : SM W bool :=
  on_enc (can_allocate r i budget embeds) (ed_can_allocate r i budget embeds).

Fixpoint enc_loop (request : Request) (computed shift : Z) (i : Z) (fs : list MMFeature) (a : EncAcc) : SM W EncAcc :=
  match fs with
  | [] => ret a
  | f :: fs' =>
    let start_pos := mm_offset f in
    let num_encoder_tokens := mm_length f in
    let next := enc_loop request computed shift (i + 1) fs' in
    if computed + acc_new_tokens a + shift <=? start_pos then ret a
    else if is_encoder_decoder cfg && (0 <? computed) then assert (start_pos =? 0) ;;; next a
    else if start_pos + num_encoder_tokens <=? computed then next a
    else if negb (is_encoder_decoder cfg) && bool_decide (identifier f ∈ acc_hashes a) then next a
    else
      let* hit := (if is_encoder_decoder cfg then ret false
                   else on_enc (check_and_update_cache request i) (ed_check_and_update_cache request i)) in
      if hit : bool then next a
      else if disable_chunked_mm_input cfg && (computed <? start_pos)
              && (computed + acc_new_tokens a <? start_pos + num_encoder_tokens)
      then ret (mkAcc (acc_inputs a) (Z.max 0 (start_pos - (computed + shift))) (acc_budget a) (acc_external a) (acc_hashes a)
                  (acc_embeds a))
      else
        let* ok := can_alloc request i (acc_budget a) (acc_embeds a) in
        if negb ok
        then ret (mkAcc (acc_inputs a) (if computed + shift <? start_pos then start_pos - (computed + shift) else 0)
                    (acc_budget a) (acc_external a) (acc_hashes a) (acc_embeds a))
        else
          let start_idx_rel := Z.max 0 (computed - start_pos) in
          let end_idx_rel := Z.min num_encoder_tokens (computed + acc_new_tokens a - start_pos) in
          let* range := lift (get_embeds_indices_in_range f start_idx_rel end_idx_rel) in
          if range.2 - range.1 =? 0 then next a
          else
            let* s := get in
            if ec_connector && has_cache_item (identifier f) (world s)
            then next (mkAcc (acc_inputs a) (acc_new_tokens a) (acc_budget a) (acc_external a ++ [i])
                         (acc_hashes a ++ [identifier f]) (acc_embeds a + mm_num_embeds f))
            else next (mkAcc (acc_inputs a ++ [i]) (acc_new_tokens a) (acc_budget a - mm_num_embeds f) (acc_external a)
                         (acc_hashes a ++ [identifier f]) (acc_embeds a + mm_num_embeds f))
  end.

(** Returns the inputs to schedule, the new tokens, the compute budget and the inputs to load. *)
Definition _try_schedule_encoder_inputs (request : Request) (computed num_new_tokens budget shift : Z)
    : SM W (list Z * Z * Z * list Z) :=
  if (num_new_tokens =? 0) || negb (has_encoder_inputs request) then ret ([], num_new_tokens, budget, [])
  else
    let* a := enc_loop request computed shift 0 (mm_features request) (mkAcc [] num_new_tokens budget [] [] 0) in
    ret (acc_inputs a, acc_new_tokens a, acc_budget a, acc_external a).

Definition shift_tokens : Z := if s_use_eagle cfg then 1 else 0.

(** Allocating the encoder cache for the inputs scheduled or loaded. *)
Definition alloc_encoder (i : Z) (inputs : list Z) : SM W unit :=
  foreach inputs (fun k =>
    let* o := obj i in
    on_enc (allocate (rq o) k) (ed_allocate (rq o) k) ;;;
    if ec_connector then upd_world (ec_update_state_after_alloc (rq o) k) else ret tt).

Definition enc_free_request (r : Request) : SM W unit := on_enc (enc_free r) (ed_free r).

(** kv_cache_manager.allocate_slots on the request object *)
Definition alloc_slots (i num_new_tokens num_new_computed_tokens : Z) (new_computed : option KVCacheBlocks)
    (lookahead external : Z) (delay : bool) (num_encoder_tokens : Z) : SM W (option KVCacheBlocks) :=
  let* o := obj i in
  let* x := on_kv (allocate_slots sha256 (rq o) num_new_tokens num_new_computed_tokens new_computed lookahead external delay
                     num_encoder_tokens) in
  set_rq i (fun _ => x.2) ;;;
  ret x.1.

(** *** _preempt_request *)
Definition _preempt_request (i : Z) : SM W unit :=
  let* o := obj i in
  assert (bool_decide (status (rq o) = RUNNING)) ;;;
  on_kv (kv_free (rq o)) ;;;
  enc_free_request (rq o) ;;;
  set_state i PREEMPTED ;;;
  set_rq i (with_computed 0) ;;;
  set_rq i (with_spec []) ;;;
  set_rq i (fun r => with_preemptions (num_preemptions r + 1) r) ;;;
  on_queue Waiting (fun st => prepend_request (RequestQueue := any_queue st) i).

Definition _is_nelssa_preempt_protected (r : Request) : bool :=
  nelssa_long_mask r && (num_prompt_tokens r <=? num_computed_tokens r).

(** *** The request to preempt *)

(** [max(l, key=lambda r: (r.priority, r.arrival_time))]: the first of the greatest. *)
Definition key_lt (a b : Request) : bool :=
  (priority a <? priority b) || ((priority a =? priority b) && (arrival_time a <? arrival_time b)).
Fixpoint max_by (store : Z -> Request) (best : Z) (l : list Z) : Z :=
  match l with
  | [] => best
  | x :: l' => max_by store (if key_lt (store best) (store x) then x else best) l'
  end.

(** The last element that satisfies [f], and the list without it. *)
Fixpoint pop_last_if (f : Z -> bool) (l : list Z) : option (Z * list Z) :=
  match l with
  | [] => None
  | x :: l' =>
    match pop_last_if f l' with
    | Some (v, rest) => Some (v, x :: rest)
    | None => if f x then Some (x, l') else None
    end
  end.

(** What a request preempted in its own step gives back (PRIORITY). *)
Definition unschedule (i : Z) : M SS unit :=
  let* o := sch (obj i) in
  let rid := request_id (rq o) in
  let* x := get in
  let* rest := lift (remove_first i (st_running x.2)) in
  stp (set_sched_running rest) ;;;
  let* n := match od_get rid (st_tokens x.2) with Some n => ret n | None => raise KeyError end in
  match od_get rid (st_blocks x.2) with Some _ => ret tt | None => raise KeyError end ;;;
  stp (fun t => set_grant (od_del rid (st_blocks t)) (od_del rid (st_tokens t)) (st_budget t + n) t) ;;;
  stp (fun t => set_spec (od_del rid (st_spec t)) t) ;;;
  match od_get rid (st_enc_inputs x.2) with
  | Some ((_ :: _) as ids) =>
    let* n := lift (sum_embeds (rq o) ids) in
    stp (fun t => set_enc (od_del rid (st_enc_inputs t)) (st_enc_budget t + n) t)
  | _ => stp (fun t => set_enc (od_del rid (st_enc_inputs t)) (st_enc_budget t) t)
  end ;;;
  stp (fun t => set_index (st_index t - 1) t).

(** Takes a request out of the running list. *)
Definition pick_victim : M SS Z :=
  let* x := get in
  let s := x.1 in
  match policy cfg with
  | PRIORITY =>
    let preemptable := filter (fun i => _is_nelssa_preempt_protected (deref s i) = false) (running s) in
    let* v := match preemptable, running s with
              | p :: ps, _ => ret (max_by (deref s) p ps)
              | [], r :: rs => ret (max_by (deref s) r rs)
              | [], [] => raise ValueError
              end in
    let* rest := lift (remove_first v (running s)) in
    sch (modify (with_running rest)) ;;;
    (if bool_decide (v ∈ st_running x.2) then unschedule v else ret tt) ;;;
    ret v
  | FCFS =>
    match pop_last_if (fun i => negb (_is_nelssa_preempt_protected (deref s i))) (running s) with
    | Some (v, rest) => sch (modify (with_running rest)) ;;; ret v
    | None =>
      match last (running s) with
      | Some v => sch (modify (with_running (take (length (running s) - 1) (running s)))) ;;; ret v
      | None => raise IndexError
      end
    end
  end.

(** The inner loop: allocate, preempting requests until it succeeds or the request itself is
    preempted. *)
Fixpoint alloc_or_preempt (fuel : nat) (i num_new_tokens : Z) : M SS (option KVCacheBlocks) :=
  match fuel with
  | O => raise OutOfFuel
  | S fuel' =>
    let* new_blocks := sch (alloc_slots i num_new_tokens 0 None (num_lookahead_tokens cfg) 0 false 0) in
    match new_blocks with
    | Some b => ret (Some b)
    | None =>
      let* v := pick_victim in
      sch (_preempt_request v) ;;;
      stp (fun t => set_preempted (st_preempted t ++ [v]) t) ;;;
      if v =? i then ret None else alloc_or_preempt fuel' i num_new_tokens
    end
  end.

(** ** The pass over the running requests *)
Inductive Flow := Next | Break.

(** Speculative tokens of a running request that is scheduled. *)
Definition take_spec (i num_new_tokens : Z) : M SS unit :=
  let* o := sch (obj i) in
  match spec_token_ids (rq o) with
  | [] => ret tt
  | spec =>
    let n := num_new_tokens + num_computed_tokens (rq o) - num_tokens (rq o) - num_output_placeholders o in
    (if 0 <? n then stp (fun t => set_spec (od_set (request_id (rq o)) (take (Z.to_nat n) spec) (st_spec t)) t) else ret tt) ;;;
    sch (set_rq i (with_spec []))
  end.

(** The encoder inputs of a request that is scheduled. *)
Definition record_encoder (i : Z) (rid : string) (inputs : option (list Z)) (new_budget : Z) (external : list Z) : M SS unit :=
  match inputs with
  | Some ((_ :: _) as ids) =>
    stp (fun t => set_enc (od_set rid ids (st_enc_inputs t)) (st_enc_budget t) t) ;;;
    sch (alloc_encoder i ids) ;;;
    stp (fun t => set_enc (st_enc_inputs t) new_budget t)
  | _ => ret tt
  end ;;;
  sch (alloc_encoder i external).

(** The number of tokens a running request can be given. *)
Definition running_tokens (o : SchedRequest) (budget : Z) : Z :=
  let n := num_tokens_with_spec (rq o) + num_output_placeholders o - num_computed_tokens (rq o) in
  let threshold := long_prefill_token_threshold cfg in
  let n := if (0 <? threshold) && (threshold <? n) then threshold else n in
  Z.min (Z.min n budget) (s_max_model_len cfg - 1 - num_computed_tokens (rq o)).

Definition skip_index : M SS unit := stp (fun t => set_index (st_index t + 1) t).

(** The request is scheduled with its new blocks and tokens. *)
Definition schedule_running (i : Z) (rid : string) (new_blocks : KVCacheBlocks) (num_new_tokens : Z) (inputs : option (list Z))
    (new_budget : Z) (external : list Z) : M SS unit :=
  stp (fun t => set_sched_running (st_running t ++ [i]) t) ;;;
  stp (fun t => set_grant (od_set rid new_blocks (st_blocks t)) (od_set rid num_new_tokens (st_tokens t))
                  (st_budget t - num_new_tokens) t) ;;;
  skip_index ;;;
  take_spec i num_new_tokens ;;;
  record_encoder i rid inputs new_budget external.

Definition running_step : M SS Flow :=
  let* x := get in
  let* i := lift (py_index (running x.1) (st_index x.2)) in
  let* o := sch (obj i) in
  if (0 <? num_output_placeholders o)
     && (num_prompt_tokens (rq o) + max_tokens (rq o) <=? num_computed_tokens (rq o) + 2 - num_output_placeholders o)
  then skip_index ;;; ret Next
  else
    let n0 := running_tokens o (st_budget x.2) in
    let* enc := (if has_encoder_inputs (rq o)
                 then let* e := sch (_try_schedule_encoder_inputs (rq o) (num_computed_tokens (rq o)) n0 (st_enc_budget x.2) shift_tokens) in
                      ret (Some e.1.1.1, e.1.1.2, e.1.2, e.2)
                 else ret (None, n0, st_enc_budget x.2, [])) in
    let '(inputs, n1, new_budget, external) := enc in
    let* num_new_tokens := (if need_mamba_block_aligned_split cfg
                            then lift (_mamba_block_aligned_split (rq o) n1 0 0) else ret n1) in
    if num_new_tokens =? 0 then skip_index ;;; ret Next
    else
      let* new_blocks := alloc_or_preempt (length (running x.1)) i num_new_tokens in
      match new_blocks with
      | None => ret Break
      | Some b =>
        schedule_running i (request_id (rq o)) b num_new_tokens inputs new_budget external ;;;
        ret Next
      end.

Fixpoint running_loop (fuel : nat) : M SS unit :=
  let* x := get in
  if (st_index x.2 <? zlen (running x.1)) && (0 <? st_budget x.2) then
    match fuel with
    | O => raise OutOfFuel
    | S fuel' =>
      let* f := running_step in
      match f with Next => running_loop fuel' | Break => ret tt end
    end
  else ret tt.

(** ** The pass over the waiting requests *)
Definition _is_blocked_waiting_status (st : RequestStatus) : bool :=
  match st with
  | WAITING_FOR_STRUCTURED_OUTPUT_GRAMMAR | WAITING_FOR_REMOTE_KVS | WAITING_FOR_STREAMING_REQ => true
  | _ => false
  end.

(** kv_cache_manager.cache_blocks on the request object *)
Definition cache_request (i num_computed : Z) : SM W unit :=
  let* o := obj i in
  let* r := on_kv (kv_cache_blocks sha256 (rq o) num_computed) in
  set_rq i (fun _ => r).

Definition _update_waiting_for_remote_kv (i : Z) : SM W unit :=
  assert (match kv_connector with Some _ => true | None => false end) ;;;
  let* o := obj i in
  let rid := request_id (rq o) in
  let* s := get in
  (if bool_decide (rid ∈ failed_recving_kv_req_ids s) then
     (if negb (num_computed_tokens (rq o) =? 0) then cache_request i (num_computed_tokens (rq o))
      else on_kv (kv_free (rq o))) ;;;
     modify (fun s => with_recving (finished_recving_kv_req_ids s) (failed_recving_kv_req_ids s ∖ {[rid]}) s)
   else
     cache_request i (num_computed_tokens (rq o)) ;;;
     if num_computed_tokens (rq o) =? num_tokens (rq o) then set_rq i (with_computed (num_tokens (rq o) - 1)) else ret tt) ;;;
  let* s := get in
  if bool_decide (rid ∈ finished_recving_kv_req_ids s)
  then modify (fun s => with_recving (finished_recving_kv_req_ids s ∖ {[rid]}) (failed_recving_kv_req_ids s) s)
  else raise KeyError.

Definition _try_promote_blocked_waiting_request (i : Z) : SM W bool :=
  let* o := obj i in
  let* s := get in
  match status (rq o) with
  | WAITING_FOR_REMOTE_KVS =>
    if bool_decide (request_id (rq o) ∈ finished_recving_kv_req_ids s) then
      _update_waiting_for_remote_kv i ;;;
      (if negb (num_preemptions (rq o) =? 0) then set_state i PREEMPTED else set_state i WAITING) ;;;
      ret true
    else ret false
  | WAITING_FOR_STRUCTURED_OUTPUT_GRAMMAR =>
    if use_structured_output (rq o) && grammar_ready (request_id (rq o)) (world s) then set_state i WAITING ;;; ret true
    else ret false
  | WAITING_FOR_STREAMING_REQ =>
    assert (match streaming_queue o with Some (_ :: _) => false | _ => true end) ;;; ret false
  | _ => raise AssertionError
  end.

(** _select_waiting_queue_for_scheduling *)
Definition _select_waiting_queue : SM W (option QueueName) :=
  let* s := get in
  let w := queue_nonempty Waiting s in
  let k := queue_nonempty Skipped s in
  let long := fun i => nelssa_long_mask (deref s i) in
  let peek := fun n => on_queue n (fun st => peek_request (RequestQueue := any_queue st)) in
  match policy cfg with
  | FCFS => ret (if k then Some Skipped else if w then Some Waiting else None)
  | PRIORITY =>
    if w && k then
      let* a := peek Waiting in
      let* b := peek Skipped in
      ret (Some (if long b && negb (long a) then Skipped
                 else if long a && negb (long b) then Waiting
                 else if obj_lt (deref s) a b then Waiting else Skipped))
    else ret (if w then Some Waiting else if k then Some Skipped else None)
  end.

(** [request_queue.pop_request(); step_skipped_waiting.prepend_request(request)]: the request
    that is popped is the one that was peeked (peek_pop in SchedulerInv.v). *)
Definition skip_request (n : QueueName) : M SS unit :=
  let* i := sch (on_queue n (fun st => pop_request (RequestQueue := any_queue st))) in
  let* x := get in
  let (r, q) := prepend_request (RequestQueue := any_queue (deref x.1)) i (st_skipped x.2) in
  let* _ := lift r in
  stp (set_step_skipped q).

(** The check and marking of long requests; [true] when the request must wait. *)
Definition nelssa_gate (i : Z) : SM W bool :=
  let nc := s_nelssa_config cfg in
  if 0 <? max_num_long_requests nc then
    let* s := get in
    let num_running_long := zlen (filter (fun j => nelssa_long_mask (deref s j) = true) (running s)) in
    let* o := obj i in
    (if nelssa_check nc (num_prompt_tokens (rq o)) then set_rq i (with_long_mask true) else ret tt) ;;;
    let* o := obj i in
    ret (nelssa_long_mask (rq o) && (max_num_long_requests nc <=? num_running_long))
  else ret false.

(** The computed tokens of a request that is about to be scheduled: the cached blocks, the
    local, external and total numbers of computed tokens, and whether the external ones are
    loaded asynchronously. [None] when the connector cannot tell yet. *)
Definition waiting_computed (i : Z) : SM W (option (KVCacheBlocks * Z * Z * Z * bool)) :=
  let* o := obj i in
  let r := rq o in
  if num_computed_tokens r =? 0 then
    let* c := on_kv (get_computed_blocks r) in
    let* ext := match kv_connector with
                | None => ret (Some 0, false)
                | Some _ => on_world (get_num_new_matched_tokens r c.2)
                end in
    match ext.1 with
    | None => ret None
    | Some external =>
      let total := c.2 + external in
      assert (total <=? num_tokens r) ;;;
      (if has_prefill_stats o then assert (total <=? num_prompt_tokens r) else ret tt) ;;;
      ret (Some (c.1, c.2, external, total, ext.2))
    end
  else ret (Some (EmptyBlocks, 0, 0, num_computed_tokens r, false)).

(** The number of new tokens of a waiting request and its encoder inputs; [None] ends the
    pass. *)
Definition waiting_tokens (i computed local external : Z) (load_kv_async : bool) (t : Step)
    : SM W (option (option (list Z) * Z * Z * list Z)) :=
  let* o := obj i in
  let r := rq o in
  let* e :=
    (if load_kv_async then assert (0 <? external) ;;; ret (Some (None, 0, st_enc_budget t, []))
     else
       let n := num_tokens r - computed in
       let threshold := long_prefill_token_threshold cfg in
       let n := if (0 <? threshold) && (threshold <? n) then threshold else n in
       if negb (enable_chunked_prefill cfg) && (st_budget t <? n) then ret None
       else
         let n := Z.min n (st_budget t) in
         assert (0 <? n) ;;;
         if has_encoder_inputs r then
           let* e := _try_schedule_encoder_inputs r computed n (st_enc_budget t) shift_tokens in
           if e.1.1.2 =? 0 then ret None else ret (Some (Some e.1.1.1, e.1.1.2, e.1.2, e.2))
         else ret (Some (None, n, st_enc_budget t, []))) in
  match e with
  | None => ret None
  | Some (inputs, n, budget, ext_inputs) =>
    if need_mamba_block_aligned_split cfg then
      let* n := lift (_mamba_block_aligned_split r n local external) in
      if n =? 0 then ret None else ret (Some (inputs, n, budget, ext_inputs))
    else ret (Some (inputs, n, budget, ext_inputs))
  end.

(** The request is admitted: it leaves its queue and runs, or waits for its KV blocks. *)
Definition admit_request (n : QueueName) (i : Z) (num_new_tokens computed : Z) (inputs : option (list Z))
    (new_budget : Z) (ext_inputs : list Z) (load_kv_async : bool) : M SS unit :=
  let* i := sch (on_queue n (fun st => pop_request (RequestQueue := any_queue st))) in
  if load_kv_async then
    sch (set_state i WAITING_FOR_REMOTE_KVS) ;;;
    let* x := get in
    let (r, q) := prepend_request (RequestQueue := any_queue (deref x.1)) i (st_skipped x.2) in
    let* _ := lift r in
    stp (set_step_skipped q) ;;;
    sch (set_rq i (with_computed computed))
  else
    sch (modify (fun s => with_running (running s ++ [i]) s)) ;;;
    let* o := sch (obj i) in
    let rid := request_id (rq o) in
    match status (rq o) with
    | WAITING => stp (fun t => set_new (st_new t ++ [i]) t)
    | PREEMPTED => stp (fun t => set_resumed (st_resumed t ++ [i]) t)
    | _ => raise RuntimeError
    end ;;;
    match max_loras cfg, lora_request (rq o) with
    | Some _, Some l => stp (fun t => set_loras (st_loras t ∪ {[adapter_id l]}) t)
    | _, _ => ret tt
    end ;;;
    let* x := get in
    stp (fun t => set_grant (od_set rid (kv_get_blocks rid (kv_cache_manager x.1)) (st_blocks t))
                    (od_set rid num_new_tokens (st_tokens t)) (st_budget t - num_new_tokens) t) ;;;
    sch (set_state i RUNNING) ;;;
    sch (set_rq i (with_computed computed)) ;;;
    record_encoder i rid inputs new_budget ext_inputs.

Definition lora_blocked (r : Request) (t : Step) : bool :=
  match max_loras cfg, lora_request r with
  | Some m, Some l => (Z.of_nat (size (st_loras t)) =? m) && negb (bool_decide (adapter_id l ∈ st_loras t))
  | _, _ => false
  end.

(** One round of the pass. *)
Definition waiting_step : M SS Flow :=
  let* x := get in
  if zlen (running x.1) =? max_num_running_reqs cfg then ret Break
  else
    let* sel := sch _select_waiting_queue in
    match sel with
    | None => raise AssertionError
    | Some n =>
      let* i := sch (on_queue n (fun st => peek_request (RequestQueue := any_queue st))) in
      let* o := sch (obj i) in
      let* blocked := (if _is_blocked_waiting_status (status (rq o))
                       then let* ok := sch (_try_promote_blocked_waiting_request i) in ret (negb ok)
                       else ret false) in
      if blocked : bool then skip_request n ;;; ret Next
      else if lora_blocked (rq o) x.2 then skip_request n ;;; ret Next
      else
        let* long := sch (nelssa_gate i) in
        if long : bool then skip_request n ;;; ret Next
        else
          let* c := sch (waiting_computed i) in
          match c with
          | None => skip_request n ;;; ret Next
          | Some (blocks, local, external, computed, load_kv_async) =>
            let* w := sch (waiting_tokens i computed local external load_kv_async x.2) in
            match w with
            | None => ret Break
            | Some (inputs, num_new_tokens, new_budget, ext_inputs) =>
              let* o := sch (obj i) in
              let r := rq o in
              let lookahead := if num_computed_tokens r =? 0 then 0 else num_lookahead_tokens cfg in
              let* num_encoder_tokens :=
                match inputs with
                | Some ((_ :: _) as ids) =>
                  if is_encoder_decoder cfg && has_encoder_inputs r then lift (sum_embeds r ids) else ret 0
                | _ => ret 0
                end in
              let* fits := (if scheduler_reserve_full_isl cfg
                            then sch (on_kv (can_fit_full_sequence r local (Some blocks) external num_encoder_tokens))
                            else ret true) in
              let refuse := (if has_encoder_inputs r then sch (enc_free_request r) else ret tt) ;;; ret Break in
              if negb fits then refuse
              else
                let* nb := sch (alloc_slots i num_new_tokens local (Some blocks) lookahead external load_kv_async num_encoder_tokens) in
                match nb with
                | None => refuse
                | Some _ =>
                  match kv_connector with
                  | Some _ =>
                    let* x := get in
                    sch (upd_world (conn_update_state_after_alloc r (kv_get_blocks (request_id r) (kv_cache_manager x.1)) external))
                  | None => ret tt
                  end ;;;
                  admit_request n i num_new_tokens computed inputs new_budget ext_inputs load_kv_async ;;;
                  ret Next
                end
            end
          end
    end.

Fixpoint waiting_loop (fuel : nat) : M SS unit :=
  let* x := get in
  if (queue_nonempty Waiting x.1 || queue_nonempty Skipped x.1) && (0 <? st_budget x.2) then
    match fuel with
    | O => raise OutOfFuel
    | S fuel' =>
      let* f := waiting_step in
      match f with Next => waiting_loop fuel' | Break => ret tt end
    end
  else ret tt.

(** The LoRAs of the running requests scheduled in this step. *)
Definition collect_loras : M SS unit :=
  match max_loras cfg with
  | None => ret tt
  | Some m =>
    let* x := get in
    let ids := omap (fun i => l ← lora_request (deref x.1 i); if 0 <? adapter_id l then Some (adapter_id l) else None)
                 (st_running x.2) in
    stp (set_loras (list_to_set ids)) ;;;
    assert (Z.of_nat (size (list_to_set ids : gset Z)) <=? m)
  end.

Definition waiting_pass : M SS unit :=
  let* x := get in
  if bool_decide (st_preempted x.2 = []) && match _pause_state x.1 with UNPAUSED => true | _ => false end then
    waiting_loop (Z.to_nat (queue_size Waiting x.1 + queue_size Skipped x.1)) ;;;
    let* x := get in
    let skipped := st_skipped x.2 in
    if queue_bool (RequestQueue := any_queue (deref x.1)) skipped
    then sch (on_queue Skipped (fun st => prepend_requests (RequestQueue := any_queue st)
                                            (queue_iter (RequestQueue := any_queue (deref x.1)) skipped)))
    else ret tt
  else ret tt.

(** ** The output of the step *)

(** [req_to_new_blocks\[req_id\].get_block_ids(allow_none)] *)
Definition block_ids_of (rid : string) (allow_none : bool) (x : SS) : res (option (list (list Z))) :=
  match od_get rid (st_blocks x.2) with
  | None => Err KeyError
  | Some b => Ok (get_block_ids (bheap (block_pool (coordinator (kv_cache_manager x.1)))) (num_kv_cache_groups (kv_cache_manager x.1)) allow_none b)
  end.

(** One request of _make_cached_request_data. *)
Definition cached_request (x : SS) (resumed : bool) (i : Z) (d : CachedRequestData) : res CachedRequestData :=
  let r := deref x.1 i in
  let rid := request_id r in
  match od_get rid (st_tokens x.2), block_ids_of rid true x with
  | None, _ => Err KeyError
  | _, Err e => Err e
  | Some n, Ok blocks =>
    let computed := num_computed_tokens r in
    let tokens := if use_pp cfg && negb (is_async cfg)
                  then [py_slice (_all_token_ids r) computed (computed + (n - zlen (default [] (od_get rid (st_spec x.2)))))]
                  else [] in
    let prev := bool_decide (rid ∈ prev_step_scheduled_req_ids x.1) in
    if resumed && prev then Err AssertionError
    else Ok (mkCachedData (cd_req_ids d ++ [rid]) (if resumed then cd_resumed_req_ids d ++ [rid] else cd_resumed_req_ids d)
               (cd_new_token_ids d ++ tokens)
               (if prev then cd_all_token_ids d else od_set rid (_all_token_ids r) (cd_all_token_ids d))
               (cd_new_block_ids d ++ [blocks]) (cd_num_computed_tokens d ++ [computed])
               (cd_num_output_tokens d ++ [num_output_tokens r + match objs x.1 !! i with Some o => num_output_placeholders o | None => 0 end]))
  end.

Fixpoint fold_res {A B} (f : B -> A -> res A) (l : list B) (a : A) : res A :=
  match l with
  | [] => Ok a
  | b :: l' => match f b a with Ok a' => fold_res f l' a' | Err e => Err e end
  end.

Definition _make_cached_request_data (running_reqs resumed_reqs : list Z) (x : SS) : res CachedRequestData :=
  match fold_res (cached_request x false) running_reqs (mkCachedData [] [] [] [] [] [] []) with
  | Ok d => fold_res (cached_request x true) resumed_reqs d
  | Err e => Err e
  end.

(** NewRequestData.from_request *)
Definition new_request_data (x : SS) (i : Z) (l : list NewRequestData) : res (list NewRequestData) :=
  let r := deref x.1 i in
  match block_ids_of (request_id r) false x with
  | Err e => Err e
  | Ok b => Ok (l ++ [mkNew (request_id r) (default [] b) (num_computed_tokens r)
                        (if use_v2_model_runner cfg then Some (_all_token_ids r) else None)])
  end.

(** The NELSSA part of the output: [chunk_info] and the requests whose prefill ends. *)
Definition chunk_of (x : SS) (req_idx : nat) (i : Z) : option (string * ChunkInfo) :=
  let r := deref x.1 i in
  let before := num_computed_tokens r in
  if nelssa_long_mask r then
    Some (request_id r,
          mkChunk (before <? num_prompt_tokens r) (num_tokens r)
            (num_tokens r + match sampling_params r with Some sp => default 0 (sp_max_tokens sp) | None => 0 end)
            before (before + default 0 (od_get (request_id r) (st_tokens x.2))) (Z.of_nat req_idx))
  else None.
Definition ends_prefill (c : string * ChunkInfo) : bool := (ci_prompt_len c.2 <=? ci_chunk_end c.2) && ci_is_prefill_chunk c.2.

(** ** _update_after_schedule *)
Definition advance_request (n : Z) (i : Z) : SM W bool :=
  set_rq i (fun r => with_computed (num_computed_tokens r + n) r) ;;;
  set_obj i (fun o => with_prefill_chunk (num_computed_tokens (rq o) <? num_tokens (rq o) + num_output_placeholders o) o) ;;;
  let* o := obj i in
  ret (use_structured_output (rq o) && negb (is_prefill_chunk o)).

(** [self.requests\[req_id\]] *)
Definition request_ref (rid : string) : SM W Z := fun s =>
  match od_get rid (s_requests s) with Some i => (Ok i, s) | None => (Err KeyError, s) end.

(** The additional part of AsyncScheduler. *)
Definition add_placeholders (spec : list (string * list Z)) (i : Z) : SM W bool :=
  let* o := obj i in
  if is_prefill_chunk o then ret false
  else
    set_obj i (fun o => with_placeholders (num_output_placeholders o + (1 + zlen (default [] (od_get (request_id (rq o)) spec)))) o) ;;;
    set_rq i (with_spec (replicate (Z.to_nat (num_spec_tokens cfg)) (-1))) ;;;
    ret (use_structured_output (rq o) && (0 <? num_output_placeholders o)).

Definition _update_after_schedule (out : SchedulerOutput) : SM W SchedulerOutput :=
  let* flags := traverse (num_scheduled_tokens out) (fun kn => let* i := request_ref kn.1 in advance_request kn.2 i) in
  modify (fun s => with_finished ∅ (finished_req_ids_dict s) s) ;;;
  let* pending := (if is_async cfg
                   then traverse (num_scheduled_tokens out)
                          (fun kn => let* i := request_ref kn.1 in add_placeholders (scheduled_spec_decode_tokens out) i)
                   else ret []) in
  ret (mkOutput (scheduled_new_reqs out) (scheduled_cached_reqs out) (num_scheduled_tokens out) (total_num_scheduled_tokens out)
         (scheduled_spec_decode_tokens out) (scheduled_encoder_inputs out) (num_common_prefix_blocks out) (preempted_req_ids out)
         (out_finished_req_ids out) (free_encoder_mm_hashes out) (new_block_ids_to_zero out) (chunk_info out)
         (prefill_complete_reqs out) (existsb (fun b => b) flags) (existsb (fun b => b) pending)).

(** ** schedule *)
Definition check_constraints : M SS unit :=
  let* x := get in
  let s := x.1 in
  let t := x.2 in
  assert (sum_list (st_tokens t).*2 <=? max_num_scheduled_tokens cfg) ;;;
  assert (0 <=? st_budget t) ;;;
  assert (zlen (running s) <=? max_num_running_reqs cfg) ;;;
  assert (zlen (st_new t) + zlen (st_resumed t) + zlen (st_running t) <=? zlen (running s)).

Definition build_output : M SS SchedulerOutput :=
  let* x := get in
  let* common := match running x.1 with
                 | [] => ret (replicate (num_kv_cache_groups (kv_cache_manager x.1)) 0)
                 | i :: _ => sch (on_kv (kv_get_num_common_prefix_blocks (request_id (deref x.1 i))))
                 end in
  let t := x.2 in
  let v2 := use_v2_model_runner cfg in
  let news := if v2 then st_new t ++ st_resumed t else st_new t in
  let resumed := if v2 then [] else st_resumed t in
  let* new_data := lift (fold_res (new_request_data x) news []) in
  let* cached := lift (_make_cached_request_data (st_running t) resumed x) in
  sch (modify (with_prev (list_to_set (st_tokens t).*1))) ;;;
  let* zero := (if needs_kv_cache_zeroing cfg
                then let* ids := sch (on_kv kv_take_new_block_ids) in ret (match ids with [] => None | _ => Some ids end)
                else ret None) in
  let* freed := sch (on_enc get_freed_mm_hashes ed_get_freed_mm_hashes) in
  let* x := get in
  let chunks := omap (fun c => c) (imap (chunk_of x) (news ++ st_running t ++ resumed)) in
  ret (mkOutput new_data cached (st_tokens t) (sum_list (st_tokens t).*2) (st_spec t) (st_enc_inputs t) common
         ((fun i => request_id (deref x.1 i)) <$> st_preempted t) (finished_req_ids x.1) freed zero chunks
         (filter (fun c => ends_prefill c = true) chunks).*1 false false).

(** Both passes. *)
Definition schedule_passes : M SS unit :=
  sch (on_kv kv_new_step_starts) ;;;
  let* x := get in
  running_loop (length (running x.1)) ;;;
  collect_loras ;;;
  waiting_pass.

Definition schedule_steps : M SS SchedulerOutput :=
  schedule_passes ;;;
  check_constraints ;;;
  build_output.

Definition initial_step (s : Scheduler W) : Step :=
  mkStep [] [] [] [] [] [] (match _pause_state s with PAUSED_ALL => 0 | _ => max_num_scheduled_tokens cfg end) []
    (max_num_encoder_input_tokens cfg) [] 0 ∅ (create_request_queue (policy cfg)).

Definition schedule : SM W SchedulerOutput :=
  let* out := (fun s => let (r, x) := schedule_steps (s, initial_step s) in (r, x.1)) in
  match kv_connector with Some _ => upd_world (build_connector_meta out) | None => ret tt end ;;;
  (if ec_connector then upd_world (ec_build_connector_meta out) else ret tt) ;;;
  _update_after_schedule out.
End schedule.
