(* ===== verification/SchedulerUpdate.v ===== *)
(** * SchedulerUpdate
    The rest of the scheduler: adding and finishing requests, streaming sessions, draft
    tokens, resets, KV transfers, and update_from_output, which takes the result of a step.

    Log probabilities, routed experts and statistics are left out of the outputs. A set whose
    iteration order matters is given as the list in that order. *)
From S2P Require Import Prelude OrdDict KVCacheBlock FreeQueue Request BlockHash BlockPool Managers CacheHit Coordinator KVCacheManager EncoderCache HeapQ RequestQueue SchedUtils Scheduler Schedule.

(** class KVConnectorOutput *)
Record KVConnectorOutput := mkKVOut {
  invalid_block_ids : list Z;
  finished_recving : list string;
  finished_sending : list string;
}.

(** class ModelRunnerOutput: for pooling models, which requests have an output. *)
Record ModelRunnerOutput := mkRunner {
  req_id_to_index : list (string * Z);
  sampled_token_ids : list (list Z);
  pooler_output : list bool;
  kv_connector_output : option KVConnectorOutput;
}.

(** class EngineCoreOutput *)
Record EngineCoreOutput := mkEngineOutput {
  eo_request_id : string;
  eo_new_token_ids : list Z;
  eo_finish_reason : option FinishReason;
  eo_stop_reason : option StopReason;
  eo_pooled : bool;
}.

Section update.
Context {W : Type} `{Externals W} (cfg : SchedulerConfig) (sha256 : bytes -> bytes) (hasher : BlockHasher).

(** A method of a request object. *)
Definition on_req {A} (i : Z) (f : M Request A) : SM W A := fun s =>
  match objs s !! i with
  | None => (Err AttributeError, s)
  | Some o => let (r, q) := f (rq o) in (r, with_objs (<[i := on_rq (fun _ => q) o]> (objs s)) s)
  end.

(** ** Queues *)
Definition _enqueue_waiting_request (i : Z) : SM W unit :=
  let* o := obj i in
  on_queue (if _is_blocked_waiting_status (status (rq o)) then Skipped else Waiting)
    (fun st => add_request (RequestQueue := any_queue st) i).

Definition get_request_counts (s : Scheduler W) : Z * Z := (zlen (running s), queue_size Waiting s + queue_size Skipped s).

Definition set_pause_state (p : PauseState) : SM W unit := modify (with_pause p).

Definition get_num_unfinished_requests (s : Scheduler W) : Z :=
  match _pause_state s with
  | PAUSED_ALL => 0
  | PAUSED_NEW => zlen (running s)
  | UNPAUSED => queue_size Waiting s + queue_size Skipped s - num_waiting_for_streaming_input s + zlen (running s)
  end.

Definition has_finished_requests (s : Scheduler W) : bool := negb (bool_decide (finished_req_ids s = ∅)).

(** ** Streaming sessions *)

(** The tokens of a session after an update: only computed output tokens are kept. *)
Definition session_tokens (u : StreamingUpdate) (r : Request) : Request :=
  let kept := py_slice (_all_token_ids r) (num_prompt_tokens r) (num_computed_tokens r) in
  let all := py_slice (_all_token_ids r) 0 (num_computed_tokens r) in
  let prompt := default [] (prompt_token_ids r) ++ kept in
  let new := default [] (up_prompt_token_ids u) in
  let mms := (fun f => mkMM (identifier f) (mm_offset f + zlen all) (mm_length f) (mm_is_embed f)) <$> up_mm_features u in
  mkRequest (request_id r) (priority r) (arrival_time r) (sampling_params r) (pooling_params r) (lora_request r) (status r)
    (stop_reason r) (max_tokens r) (Some (prompt ++ new)) (prompt_embeds r) (_prompt_embeds_per_block_hashes r)
    (num_prompt_tokens r) [] (all ++ new) (num_computed_tokens r) (spec_token_ids r) (cache_salt r) (mm_features r ++ mms)
    (num_preemptions r) (nelssa_long_mask r) (block_hashes r) (skip_reading_prefix_cache r).
Definition session_rest (u : StreamingUpdate) (r : Request) : Request :=
  mkRequest (request_id r) (priority r) (up_arrival_time u) (up_sampling_params u) (pooling_params r) (lora_request r) WAITING
    (stop_reason r) (max_tokens r) (prompt_token_ids r) (prompt_embeds r) (_prompt_embeds_per_block_hashes r)
    (zlen (default [] (prompt_token_ids r))) (_output_token_ids r) (_all_token_ids r) (num_computed_tokens r) (spec_token_ids r)
    (cache_salt r) (mm_features r) (num_preemptions r) (nelssa_long_mask r) (block_hashes r) (skip_reading_prefix_cache r).

Definition _update_request_as_session (i : Z) (u : StreamingUpdate) : SM W unit :=
  let* o := obj i in
  match prompt_token_ids (rq o) with
  | None =>
    set_rq i (fun r => with_tokens [] (py_slice (_all_token_ids r) 0 (num_computed_tokens r)) r) ;;;
    raise AssertionError
  | Some _ =>
    set_rq i (session_tokens u) ;;;
    on_req i (update_block_hashes hasher) ;;;
    (if bool_decide (status (rq o) = WAITING_FOR_STREAMING_REQ)
     then modify (fun s => with_num_streaming (num_waiting_for_streaming_input s - 1) s) else ret tt) ;;;
    set_rq i (session_rest u)
  end.

(** _handle_stopped_request: whether the request is finished. *)
Definition _handle_stopped_request (i : Z) : SM W bool :=
  let* o := obj i in
  if negb (resumable o) then ret true
  else
    match streaming_queue o with
    | Some (u :: q) =>
      set_obj i (with_streaming (Some q)) ;;;
      match u with
      | None => ret true
      | Some u => _update_request_as_session i u ;;; _enqueue_waiting_request i ;;; ret false
      end
    | _ =>
      set_state i WAITING_FOR_STREAMING_REQ ;;;
      modify (fun s => with_num_streaming (num_waiting_for_streaming_input s + 1) s) ;;;
      _enqueue_waiting_request i ;;;
      ret false
    end.

(** ** Freeing requests *)

(** _connector_finished: whether the connector keeps the blocks for now. *)
Definition _connector_finished (r : Request) : SM W bool :=
  match kv_connector with
  | None => ret false
  | Some hma =>
    on_kv (kv_remove_skipped_blocks (request_id r) (num_computed_tokens r)) ;;;
    let* s := get in
    let ids := default [] (kv_get_block_ids (request_id r) (kv_cache_manager s)) in
    (if hma : bool then ret tt else assert (Nat.eqb (num_kv_cache_groups (kv_cache_manager s)) 1)) ;;;
    on_world (request_finished r ids)
  end.

Definition _free_blocks (i : Z) : SM W unit :=
  let* o := obj i in
  assert (is_finished (rq o)) ;;;
  on_kv (kv_free (rq o)) ;;;
  let* _ := request_ref (request_id (rq o)) in
  modify (fun s => with_requests (od_del (request_id (rq o)) (s_requests s)) s).

Definition _free_request (i : Z) (delay_free_blocks : bool) : SM W unit :=
  let* o := obj i in
  assert (is_finished (rq o)) ;;;
  let* connector_delay := _connector_finished (rq o) in
  enc_free_request (rq o) ;;;
  let rid := request_id (rq o) in
  modify (fun s => with_finished (finished_req_ids s ∪ {[rid]})
    ((fun d => <[client_index o := {[rid]} ∪ default ∅ (d !! client_index o)]> d) <$> finished_req_ids_dict s) s) ;;;
  if delay_free_blocks || connector_delay then ret tt else _free_blocks i.

(** ** finish_requests
    [None] stands for all requests. Returns the ids and clients of the requests finished. *)
Fixpoint collect_finished (ids : list string) (running_out waiting_out : list Z) : SM W (list Z * list Z) :=
  match ids with
  | [] => ret (running_out, waiting_out)
  | rid :: ids' =>
    let* s := get in
    match od_get rid (s_requests s) with
    | None => collect_finished ids' running_out waiting_out
    | Some i =>
      let* o := obj i in
      if is_finished (rq o) then collect_finished ids' running_out waiting_out
      else if bool_decide (status (rq o) = RUNNING) then collect_finished ids' (running_out ++ [i]) waiting_out
      else
        (if bool_decide (status (rq o) = WAITING_FOR_STREAMING_REQ)
         then modify (fun s => with_num_streaming (num_waiting_for_streaming_input s - 1) s) else ret tt) ;;;
        collect_finished ids' running_out (waiting_out ++ [i])
    end
  end.

Definition finish_one (finished_status : RequestStatus) (i : Z) : SM W (string * Z) :=
  let* o := obj i in
  let rid := request_id (rq o) in
  let* s := get in
  let* delay := (if bool_decide (status (rq o) = WAITING_FOR_REMOTE_KVS) then
                   modify (fun s => with_recving (finished_recving_kv_req_ids s ∖ {[rid]}) (failed_recving_kv_req_ids s ∖ {[rid]}) s) ;;;
                   ret (negb (bool_decide (rid ∈ finished_recving_kv_req_ids s)))
                 else ret false) in
  set_state i finished_status ;;;
  _free_request i delay ;;;
  ret (rid, client_index o).

(** The requests in the order of the given ids, as the second pass handles them. *)
Definition valid_order (s : Scheduler W) (ids : list string) (valid : list Z) : list Z :=
  filter (fun i => i ∈ valid) (omap (fun rid => od_get rid (s_requests s)) ids).

Definition finish_requests (request_ids : option (list string)) (finished_status : RequestStatus) : SM W (list (string * Z)) :=
  assert (status_is_finished finished_status) ;;;
  let* s := get in
  let ids := match request_ids with Some l => l | None => od_keys (s_requests s) end in
  let* rw := collect_finished ids [] [] in
  let valid := valid_order s ids (rw.1 ++ rw.2) in
  (match rw.1 with [] => ret tt | _ => modify (fun s => with_running (remove_all (running s) rw.1) s) end) ;;;
  (match rw.2 with
   | [] => ret tt
   | _ => on_queue Waiting (fun st => remove_requests (RequestQueue := any_queue st) rw.2) ;;;
          on_queue Skipped (fun st => remove_requests (RequestQueue := any_queue st) rw.2)
   end) ;;;
  traverse valid (finish_one finished_status).

(** ** add_request: [i] is the identity of the new object [o]. *)
Definition add_new_request (i : Z) (o : SchedRequest) : SM W unit :=
  let* s := get in
  match od_get (request_id (rq o)) (s_requests s) with
  | Some j =>
    let update := update_from_request o in
    let* existing := obj j in
    if negb (bool_decide (status (rq existing) = WAITING_FOR_STREAMING_REQ)) then
      match streaming_queue existing with
      | None => raise AssertionError
      | Some q => set_obj j (with_streaming (Some (q ++ [update])))
      end
    else
      match update with
      | Some u => _update_request_as_session j u
      | None => let* _ := finish_requests (Some [request_id (rq o)]) FINISHED_ABORTED in ret tt
      end
  | None =>
    modify (fun s => with_objs (<[i := if resumable o then with_streaming (Some []) o else o]> (objs s)) s) ;;;
    _enqueue_waiting_request i ;;;
    modify (fun s => with_requests (od_set (request_id (rq o)) i (s_requests s)) s)
  end.

(** ** Tokens *)

(** The loop of _update_request_with_output: the tokens kept, and whether the request
    stopped. *)
Fixpoint append_tokens (i : Z) (tokens : list Z) : SM W (list Z * bool) :=
  match tokens with
  | [] => ret ([], false)
  | t :: tokens' =>
    on_req i (append_output_token_ids hasher [t]) ;;;
    let* stopped := on_req i (check_stop (s_max_model_len cfg)) in
    if stopped : bool then ret ([t], true)
    else let* rest := append_tokens i tokens' in ret (t :: rest.1, rest.2)
  end.

(** _update_request_with_output, with the override of AsyncScheduler. *)
Definition _update_request_with_output (i : Z) (new_token_ids : list Z) : SM W (list Z * bool) :=
  if negb (is_async cfg) then append_tokens i new_token_ids
  else
    let* o := obj i in
    if discard_latest_async_tokens o then set_obj i (with_discard false) ;;; ret ([], false)
    else
      let* x := append_tokens i new_token_ids in
      set_obj i (fun o => with_placeholders (num_output_placeholders o - zlen x.1) o) ;;;
      let* o' := obj i in
      assert (0 <=? num_output_placeholders o') ;;;
      (if bool_decide (status (rq o) = RUNNING)
       then cache_request sha256 i (num_computed_tokens (rq o') - num_output_placeholders o') else ret tt) ;;;
      ret x.

Definition _free_encoder_inputs (i : Z) : SM W unit :=
  let* o := obj i in
  let r := rq o in
  let* ids := on_enc (gets (get_cached_input_ids r)) (ret (ed_get_cached_input_ids r)) in
  foreach ids (fun k =>
    let* f := lift (py_index (mm_features r) k) in
    if (is_encoder_decoder cfg && (0 <? num_computed_tokens r)) || (mm_offset f + mm_length f <=? num_computed_tokens r)
    then on_enc (free_encoder_input r k) (ed_free_encoder_input r k) else ret tt).

Definition update_draft_token_ids (drafts : list (string * list Z)) : SM W unit :=
  foreach drafts (fun d =>
    let* s := get in
    match od_get d.1 (s_requests s) with
    | None => ret tt
    | Some i =>
      let* o := obj i in
      if is_finished (rq o) then ret tt
      else if is_prefill_chunk o then set_rq i (with_spec [])
      else set_rq i (with_spec (if should_advance (rq o) (world s) then validate_tokens d.1 d.2 (world s) else d.2))
    end).

(** update_draft_token_ids_in_output: the scheduled draft tokens, and the number of invalid
    ones of each request. *)
Fixpoint drafts_in_output (drafts : list (string * list Z)) (spec : list (string * list Z)) (invalid : list (string * Z))
    : SM W (list (string * list Z) * list (string * Z)) :=
  match drafts with
  | [] => ret (spec, invalid)
  | d :: drafts' =>
    let* s := get in
    match od_get d.1 (s_requests s) with
    | None => drafts_in_output drafts' spec invalid
    | Some i =>
      let* o := obj i in
      match od_get d.1 spec with
      | Some ((_ :: _) as placeholders) =>
        if is_finished (rq o) then drafts_in_output drafts' spec invalid
        else
          let kept := take (length placeholders) d.2 in
          let valid := if should_advance (rq o) (world s) then validate_tokens d.1 kept (world s) else kept in
          let n := zlen placeholders - zlen valid in
          drafts_in_output drafts' (od_set d.1 (valid ++ replicate (Z.to_nat n) (-1)) spec)
            (if n =? 0 then invalid else od_set d.1 n invalid)
      | _ => drafts_in_output drafts' spec invalid
      end
    end
  end.

(** ** Resets *)
Fixpoint preempt_all (fuel : nat) : SM W unit :=
  let* s := get in
  match last (running s) with
  | None => ret tt
  | Some i =>
    match fuel with
    | O => raise OutOfFuel
    | S fuel' =>
      modify (with_running (take (length (running s) - 1) (running s))) ;;;
      _preempt_request i ;;;
      set_obj i (with_placeholders 0) ;;;
      set_obj i (with_discard true) ;;;
      preempt_all fuel'
    end
  end.

Definition reset_connector_cache : SM W bool :=
  match kv_connector with
  | None => ret false
  | Some _ => on_world conn_reset_cache
  end.

Definition reset_prefix_cache (reset_running_requests reset_connector : bool) : SM W bool :=
  (if reset_running_requests then
     let* s := get in
     preempt_all (length (running s)) ;;;
     modify (with_prev ∅)
   else ret tt) ;;;
  let* ok := on_kv kv_reset_prefix_cache in
  if reset_running_requests && negb ok then raise RuntimeError
  else if reset_connector then let* c := reset_connector_cache in ret (c && ok)
  else ret ok.

Definition reset_encoder_cache : SM W unit := on_enc enc_reset ed_reset.

(** ** KV transfers *)
Definition _update_from_kv_xfer_finished (k : KVConnectorOutput) : SM W unit :=
  match kv_connector with
  | Some _ => upd_world (update_connector_output (finished_recving k) (finished_sending k))
  | None => ret tt
  end ;;;
  foreach (finished_recving k) (fun rid =>
    let* s := get in
    match od_get rid (s_requests s) with
    | None => raise AssertionError
    | Some i =>
      let* o := obj i in
      if bool_decide (status (rq o) = WAITING_FOR_REMOTE_KVS)
      then modify (fun s => with_recving (finished_recving_kv_req_ids s ∪ {[rid]}) (failed_recving_kv_req_ids s) s)
      else assert (is_finished (rq o)) ;;; _free_blocks i
    end) ;;;
  foreach (finished_sending k) (fun rid =>
    let* s := get in
    match od_get rid (s_requests s) with
    | None => raise AssertionError
    | Some i => _free_blocks i
    end).

(** The scan of the blocks of one request: whether it is affected, the number of computed
    tokens it is truncated to, the marked blocks and the blocks to evict. *)
Fixpoint scan_blocks (idx : Z) (ids all_ids invalid : list Z) (computed : Z) (st : bool * option Z * list Z * list Z)
    : bool * option Z * list Z * list Z :=
  match ids with
  | [] => st
  | b :: ids' =>
    let '(affected, truncated, marked, evict) := st in
    scan_blocks (idx + 1) ids' all_ids invalid computed
      (if negb (bool_decide (b ∈ invalid)) then st
       else if bool_decide (b ∈ marked) then (true, truncated, marked, evict)
       else
         match truncated with
         | Some _ => (true, truncated, marked ++ [b], evict)
         | None => (true, Some (idx * sched_block_size cfg), marked ++ [b], evict ++ drop (Z.to_nat idx) all_ids)
         end)
  end.

(** _update_requests_with_invalid_blocks: the affected ids and the blocks to evict. *)
Fixpoint _update_requests_with_invalid_blocks (reqs : list Z) (invalid : list Z) (scheduled : list (string * Z)) (marked : list Z)
    : SM W (list string * list Z) :=
  match reqs with
  | [] => ret ([], [])
  | i :: reqs' =>
    let* o := obj i in
    let rid := request_id (rq o) in
    let* s := get in
    match kv_get_block_ids rid (kv_cache_manager s) with
    | Some [ids] =>
      let computed := num_computed_tokens (rq o) - default 0 (od_get rid scheduled) in
      let num_blocks := (computed + sched_block_size cfg - 1) / sched_block_size cfg in
      let '(affected, truncated, marked', evict) :=
        scan_blocks 0 (take (Z.to_nat num_blocks) ids) ids invalid computed (false, None, marked, []) in
      (if affected : bool then set_rq i (with_computed (default computed truncated)) else ret tt) ;;;
      let* rest := _update_requests_with_invalid_blocks reqs' invalid scheduled marked' in
      ret ((if affected then rid :: rest.1 else rest.1), evict ++ rest.2)
    | _ => raise ValueError
    end
  end.

(** _handle_invalid_blocks: the requests to skip, or to fail. *)
Definition _handle_invalid_blocks (invalid : list Z) (scheduled : list (string * Z)) : SM W (list string) :=
  let* s := get in
  let waiting_kv := filter (fun i => status (deref s i) = WAITING_FOR_REMOTE_KVS)
                      (queue_iter (RequestQueue := any_queue (deref s)) (skipped_waiting s)) in
  let* a := _update_requests_with_invalid_blocks waiting_kv invalid scheduled [] in
  let* b := _update_requests_with_invalid_blocks (running s) invalid scheduled [] in
  match a.1 ++ b.1 with
  | [] => ret []
  | _ =>
    (if negb (bool_decide (b.2 = [])) && negb (recompute_kv_load_failures cfg)
     then on_kv (kv_evict_blocks (remove_dups b.2)) else ret tt) ;;;
    if negb (recompute_kv_load_failures cfg) then ret (remove_dups (a.1 ++ b.1))
    else
      modify (fun s => with_recving (finished_recving_kv_req_ids s) (failed_recving_kv_req_ids s ∪ list_to_set a.1) s) ;;;
      ret b.1
  end.

(** ** update_from_output *)
Record UpdateAcc := mkUpd {
  ua_outputs : list (Z * list EngineCoreOutput);
  ua_stopped_running : list Z;
  ua_stopped_preempted : list Z;
}.
Definition add_output (client : Z) (e : EngineCoreOutput) (a : UpdateAcc) : UpdateAcc :=
  mkUpd (od_set client (default [] (od_get client (ua_outputs a)) ++ [e]) (ua_outputs a)) (ua_stopped_running a) (ua_stopped_preempted a).

(** Draft tokens that were rejected are taken back. *)
Definition reject_drafts (i : Z) (scheduled_spec generated : list Z) : SM W unit :=
  match scheduled_spec, generated with
  | _ :: _, _ :: _ =>
    let num_rejected := zlen scheduled_spec - (zlen generated - 1) in
    set_rq i (fun r => if 0 <? num_computed_tokens r then with_computed (num_computed_tokens r - num_rejected) r else r) ;;;
    set_obj i (fun o => if 0 <? num_output_placeholders o then with_placeholders (num_output_placeholders o - num_rejected) o else o)
  | _, _ => ret tt
  end.

(** Appends the new tokens and decides whether the request stops. *)
Definition apply_tokens (i : Z) (generated : list Z) (pooled : bool) : SM W (list Z * bool) :=
  let* o := obj i in
  let* x := match generated with
            | _ :: _ => _update_request_with_output i generated
            | [] => if bool_decide (is_Some (pooling_params (rq o))) && pooled
                    then set_state i FINISHED_STOPPED ;;; ret ([], true) else ret ([], false)
            end in
  let* o := obj i in
  let* s := get in
  match x.1 with
  | _ :: _ =>
    if should_advance (rq o) (world s) then
      assert (use_structured_output (rq o)) ;;;
      let* ok := on_world (accept_tokens (request_id (rq o)) x.1) in
      if ok : bool then ret x
      else set_state i FINISHED_ERROR ;;; set_obj i (with_resumable false) ;;; ret (x.1, true)
    else ret x
  | [] => ret x
  end.

(** One request of the loop. *)
Definition update_one (out : SchedulerOutput) (m : ModelRunnerOutput) (failed : list string) (kn : string * Z) (a : UpdateAcc)
    : SM W UpdateAcc :=
  let rid := kn.1 in
  assert (0 <? kn.2) ;;;
  if bool_decide (rid ∈ failed) then ret a
  else
    let* s := get in
    match od_get rid (s_requests s) with
    | None => ret a
    | Some i =>
      let* o := obj i in
      if is_finished (rq o) then ret a
      else
        let* idx := match od_get rid (req_id_to_index m) with Some n => ret n | None => raise KeyError end in
        let* generated := match sampled_token_ids m with [] => ret [] | l => lift (py_index l idx) end in
        reject_drafts i (default [] (od_get rid (scheduled_spec_decode_tokens out))) generated ;;;
        (if has_encoder_inputs (rq o) then _free_encoder_inputs i else ret tt) ;;;
        (if bool_decide (rid ∈ prefill_complete_reqs out) then on_kv (free_sparse_kv rid) else ret tt) ;;;
        let* pooled := match pooler_output m with [] => ret false | l => lift (py_index l idx) end in
        let* x := apply_tokens i generated pooled in
        let* fin :=
          (if x.2 then
             let* o' := obj i in
             let reason := status_finished_reason (status (rq o')) in
             let* finished := _handle_stopped_request i in
             (if finished : bool then _free_request i false else ret tt) ;;;
             ret (reason, if bool_decide (status (rq o) = RUNNING)
                          then mkUpd (ua_outputs a) (ua_stopped_running a ++ [i]) (ua_stopped_preempted a)
                          else mkUpd (ua_outputs a) (ua_stopped_running a) (ua_stopped_preempted a ++ [i]))
           else ret (None, a)) in
        let* o' := obj i in
        if negb (bool_decide (x.1 = [])) || pooled || x.2 then
          set_obj i (with_prefill_stats false) ;;;
          ret (add_output (client_index o') (mkEngineOutput rid x.1 fin.1 (stop_reason (rq o')) pooled) fin.2)
        else ret fin.2
    end.

Fixpoint update_all (out : SchedulerOutput) (m : ModelRunnerOutput) (failed : list string) (l : list (string * Z)) (a : UpdateAcc)
    : SM W UpdateAcc :=
  match l with
  | [] => ret a
  | kn :: l' => let* a' := update_one out m failed kn a in update_all out m failed l' a'
  end.

(** The outputs for the requests failed by a load error. *)
Definition fail_requests (failed : list string) (a : UpdateAcc) : SM W UpdateAcc :=
  match failed with
  | [] => ret a
  | _ =>
    if recompute_kv_load_failures cfg then ret a
    else
      let* refs := traverse failed request_ref in
      let* _ := finish_requests (Some failed) FINISHED_ERROR in
      let* s := get in
      ret (foldl (fun a i =>
             match objs s !! i with
             | Some o => add_output (client_index o)
                           (mkEngineOutput (request_id (rq o)) [] (status_finished_reason (status (rq o))) None false) a
             | None => a
             end) a refs)
  end.

(** update_from_output: the outputs of each client, with the requests finished since the
    last outputs, and the KV events to publish. *)
Definition update_from_output (out : SchedulerOutput) (m : ModelRunnerOutput)
    : SM W (list (Z * list EngineCoreOutput) * gmap Z (gset string) * list KVCacheEvent) :=
  let* failed := match kv_connector_output m with
                 | Some k => match invalid_block_ids k with
                             | [] => ret []
                             | l => _handle_invalid_blocks l (num_scheduled_tokens out)
                             end
                 | None => ret []
                 end in
  let* a := update_all out m failed (num_scheduled_tokens out) (mkUpd [] [] []) in
  (match ua_stopped_running a with
   | [] => ret tt
   | l => modify (fun s => with_running (remove_all (running s) l) s)
   end) ;;;
  (match ua_stopped_preempted a with
   | [] => ret tt
   | l => on_queue Waiting (fun st => remove_requests (RequestQueue := any_queue st) l)
   end) ;;;
  let* a := fail_requests failed a in
  (match kv_connector_output m with Some k => _update_from_kv_xfer_finished k | None => ret tt end) ;;;
  let* events := on_kv kv_take_events in
  let* s := get in
  let finished := default ∅ (finished_req_ids_dict s) in
  modify (fun s => with_finished (finished_req_ids s) ((fun _ => ∅) <$> finished_req_ids_dict s) s) ;;;
  ret (ua_outputs a, finished, events).
End update.
