(* ===== verification/SchedulerDemo.v ===== *)
(** * SchedulerDemo
    A concrete scheduler: no connectors, one group of full-attention layers in a pool of
    eight usable blocks, three short requests and one long one, two steps old. In the next
    step every request needs one more block and there are fewer free blocks than requests. *)
From S2P Require Import Prelude OrdDict KVCacheBlock FreeQueue Request BlockHash BlockPool Managers CacheHit Coordinator KVCacheManager EncoderCache HeapQ RequestQueue SchedUtils Scheduler Schedule SchedulerUpdate.

#[global] Instance no_connectors : Externals unit := {|
  kv_connector := None;
  get_num_new_matched_tokens _ _ w := (Some 0, false, w);
  conn_update_state_after_alloc _ _ _ w := w;
  request_finished _ _ w := (false, w);
  update_connector_output _ _ w := w;
  conn_reset_cache w := (true, w);
  build_connector_meta _ w := w;
  ec_connector := false;
  has_cache_item _ _ := false;
  ec_update_state_after_alloc _ _ w := w;
  ec_build_connector_meta _ w := w;
  grammar_ready _ _ := true;
  should_advance _ _ := false;
  accept_tokens _ _ w := (true, w);
  validate_tokens _ l _ := l;
|}.

Definition demo_config (p : SchedulingPolicy) : SchedulerConfig :=
  mkSchedConfig p false 8 128 1000 0 true false false 0 false false 0 0 false 16 16 None (mkNelssa true 16 16 20 4) false false false true.
Definition demo_kv_config : KVCacheConfig := mkConfig 9 [mkGroup (mkSpec FullAttentionSpec 16 0) false] (Some (16, 16)).
Definition demo_sampling : SamplingParams := mkSP (Some 100) 0 None None None false None.
Definition demo_req (rid : string) (n arrival : Z) : SchedRequest :=
  let toks := replicate (Z.to_nat n) 5 in
  mkSR (mkRequest rid 0 arrival (Some demo_sampling) None None WAITING None 100 (Some toks) None ∅ n [] toks 0 [] None [] 0 false [] false)
    0 false false None false 0 false.
Definition demo_requests : list (Z * SchedRequest) :=
  [(0, demo_req "a" 15 0); (1, demo_req "b" 15 1); (2, demo_req "c" 15 2); (3, demo_req "l" 31 3)].

(** A step in which every scheduled request gets one token. *)
Definition demo_step (p : SchedulingPolicy) : SM unit unit :=
  let* o := schedule (demo_config p) (fun x => x) in
  let ids := ["a"; "b"; "c"; "l"]%string in
  let* _ := update_from_output (demo_config p) (fun x => x) None o
              (mkRunner (imap (fun i r => (r, Z.of_nat i)) ids) ((fun _ => [7]) <$> ids) [] None) in
  ret tt.

Definition demo_start (c : KVCacheConfig) (caching : bool) (p : SchedulingPolicy) : option (Scheduler unit) :=
  match new_KVCacheManager c 1000 16 (Some 128) caching false false false 1 1 false with
  | Err _ => None
  | Ok k =>
    match foreach demo_requests (fun x => add_new_request None x.1 x.2) (new_scheduler (demo_config p) k 0 false tt) with
    | (Ok _, s) => Some s
    | _ => None
    end
  end.
(** After [n] steps. *)
Fixpoint demo_after (n : nat) (p : SchedulingPolicy) (s : Scheduler unit) : Scheduler unit :=
  match n with O => s | S n' => demo_after n' p (demo_step p s).2 end.
Definition demo_state (n : nat) (p : SchedulingPolicy) : option (Scheduler unit) := demo_after n p <$> demo_start demo_kv_config false p.
(** A scheduler on full-attention and sliding-window layers, with prefix caching. *)
Definition demo_hybrid_config : KVCacheConfig :=
  mkConfig 9 [mkGroup (mkSpec FullAttentionSpec 16 0) false; mkGroup (mkSpec (SlidingWindowSpec 32) 16 0) false] None.

(** Facts about the state are computed. *)
Definition demo_test (n : nat) (p : SchedulingPolicy) (f : Scheduler unit -> bool) : bool :=
  match demo_state n p with Some s => f s | None => false end.
Lemma demo_test_spec n p f : demo_test n p f = true -> exists s, demo_state n p = Some s /\ f s = true.
Proof. unfold demo_test. destruct (demo_state n p) as [s|]; [| done]. by exists s. Qed.
