(* ===== verification/SchedulerInv.v ===== *)
(** * SchedulerInv
    Reasoning about the scheduler: partial-correctness triples for the exceptions monad, the
    calls that leave the queues alone, and the invariant of the two passes of [schedule]. *)
From S2P Require Import Prelude OrdDict KVCacheBlock FreeQueue Request BlockHash BlockPool Managers CacheHit Coordinator KVCacheManager EncoderCache HeapQ RequestQueue SchedUtils Scheduler Schedule.

(** ** Partial correctness: what holds when a computation returns *)
Definition hoare {S A} (P : S -> Prop) (m : M S A) (Q : A -> S -> Prop) : Prop :=
  forall s, P s -> match m s with (Ok a, s') => Q a s' | (Err _, _) => True end.

Section hoare.
Context {S : Type}.
Implicit Types P : S -> Prop.

Lemma hoare_run {A} P (m : M S A) Q s a s' : hoare P m Q -> P s -> m s = (Ok a, s') -> Q a s'.
Proof. intros H Hp E. specialize (H s Hp). by rewrite E in H. Qed.
Lemma hoare_bind {A B} P (m : M S A) R (k : A -> M S B) Q :
  hoare P m R -> (forall a, hoare (R a) (k a) Q) -> hoare P (bind m k) Q.
Proof.
  intros Hm Hk s Hs. unfold bind. specialize (Hm s Hs). destruct (m s) as [[a|e] s']; [by apply Hk | done].
Qed.
Lemma hoare_assoc {A B C} P (m : M S A) (k : M S B) (l : M S C) Q : hoare P ((m ;;; k) ;;; l) Q -> hoare P (m ;;; (k ;;; l)) Q.
Proof. intros H s Hs. specialize (H s Hs). unfold bind in *. by destruct (m s) as [[a|e] s']. Qed.
Lemma hoare_assoc_bind {A B C} P (m : M S A) (k : A -> M S B) (l : B -> M S C) Q :
  hoare P (let* b := (let* a := m in k a) in l b) Q -> hoare P (let* a := m in let* b := k a in l b) Q.
Proof. intros H s Hs. specialize (H s Hs). unfold bind in *. by destruct (m s) as [[a|e] s']. Qed.
Lemma hoare_ret {A} P (a : A) (Q : A -> S -> Prop) : (forall s, P s -> Q a s) -> hoare P (ret a) Q.
Proof. intros H s Hs. by apply H. Qed.
Lemma hoare_raise {A} P e (Q : A -> S -> Prop) : hoare P (raise e) Q.
Proof. by intros s Hs. Qed.
Lemma hoare_get P (Q : S -> S -> Prop) : (forall s, P s -> Q s s) -> hoare P get Q.
Proof. intros H s Hs. by apply H. Qed.
Lemma hoare_modify P f (Q : unit -> S -> Prop) : (forall s, P s -> Q tt (f s)) -> hoare P (modify f) Q.
Proof. intros H s Hs. by apply H. Qed.
Lemma hoare_assert P b : hoare P (assert b) (fun _ s => P s /\ b = true).
Proof. intros s Hs. by destruct b. Qed.
Lemma hoare_lift {A} P (r : res A) : hoare P (lift r) (fun a s => P s /\ r = Ok a).
Proof. intros s Hs. by destruct r. Qed.
Lemma hoare_weaken {A} P P' (m : M S A) Q Q' :
  hoare P m Q -> (forall s, P' s -> P s) -> (forall a s, Q a s -> Q' a s) -> hoare P' m Q'.
Proof. intros H HP HQ s Hs. specialize (H s (HP s Hs)). destruct (m s) as [[a|e] s']; [by apply HQ | done]. Qed.
Lemma hoare_pre {A} P P' (m : M S A) Q : hoare P m Q -> (forall s, P' s -> P s) -> hoare P' m Q.
Proof. intros H HP. by eapply hoare_weaken. Qed.
Lemma hoare_if {A} P (b : bool) (m k : M S A) Q : (b = true -> hoare P m Q) -> (b = false -> hoare P k Q) -> hoare P (if b then m else k) Q.
Proof. destruct b; auto. Qed.
Lemma hoare_pull {A} (X : Prop) P (m : M S A) Q : (X -> hoare P m Q) -> hoare (fun s => X /\ P s) m Q.
Proof. intros H s [Hx Hs]. by apply H. Qed.
Lemma hoare_foreach {A} (I : S -> Prop) (l : list A) f : (forall x, x ∈ l -> hoare I (f x) (fun _ => I)) -> hoare I (foreach l f) (fun _ => I).
Proof.
  induction l as [|x l IH]; intros H; [by apply hoare_ret |].
  eapply hoare_bind; [apply H; left | intros []; apply IH; intros y Hy; apply H; by right].
Qed.
End hoare.

(** ** Results that only complete the memo table of a request *)
Definition memo_of (r r' : Request) : Prop := with_memo ∅ r' = with_memo ∅ r.

#[local] Instance memo_of_equiv : Equivalence memo_of.
Proof. split; unfold memo_of; [done | by intros ??-> | congruence]. Qed.

(** Every value a computation returns satisfies [P]. *)
Definition returns {S A} (P : A -> Prop) (m : M S A) : Prop := hoare (fun _ => True) m (fun a _ => P a).

Section returns.
Context {S : Type}.
Lemma returns_bind {A B} (P : A -> Prop) (Q : B -> Prop) (m : M S A) k :
  returns P m -> (forall a, P a -> returns Q (k a)) -> returns Q (bind m k).
Proof.
  intros Hm Hk. eapply hoare_bind; [apply Hm |]. intros a s Ha. by apply (Hk a Ha s).
Qed.
Lemma returns_any {A} (m : M S A) : returns (fun _ => True) m.
Proof. intros s _. by destruct (m s) as [[a|e] s']. Qed.
Lemma returns_ret {A} (P : A -> Prop) a : P a -> returns (S := S) P (ret a).
Proof. intros H s _. done. Qed.
Lemma returns_raise {A} (P : A -> Prop) e : returns (S := S) P (raise e).
Proof. intros s _. done. Qed.
Lemma returns_zoom {T A} (g : T -> S) p (P : A -> Prop) (m : M S A) : returns P m -> returns P (zoom g p m).
Proof. intros H s _. unfold zoom. specialize (H (g s) I). by destruct (m (g s)) as [[a|e] s']. Qed.
End returns.

Ltac returns_step :=
  match goal with
  | |- returns _ (bind _ _) => eapply returns_bind; [| intros ? ?]
  | |- returns _ (ret _) => apply returns_ret
  | |- returns _ (raise _) => apply returns_raise
  | |- returns _ (if ?b then _ else _) => destruct b
  | |- returns _ (match ?x with _ => _ end) => destruct x
  end.

Lemma generate_memo sha256 s e i r : match generate_block_hash_extra_keys sha256 s e i r with (_, r') => memo_of r r' end.
Proof.
  unfold generate_block_hash_extra_keys, bind, get, lift. destruct (_gen_mm_extra_hash_keys r s e i) as [mm|]; [| done].
  unfold _gen_prompt_embeds_extra_hash_keys, bind, get, modify, ret. destruct (prompt_embeds r); [| by destruct (_ ++ _)].
  destruct (_ !! _); by destruct (_ ++ _).
Qed.

Section memo.
Context (sha256 : bytes -> bytes).

Lemma stored_extra_keys_memo bs idxs bls : forall i r, returns (fun x => memo_of r x.2) (stored_extra_keys sha256 bs idxs bls i r).
Proof.
  induction idxs as [|k idxs IH]; intros i r; simpl; [by apply returns_ret |].
  do 2 (eapply returns_bind; [apply returns_any | intros ? _]). returns_step; [apply IH |].
  pose proof (generate_memo sha256 (k * bs) (k * bs + bs) i r) as Hm. destruct (generate_block_hash_extra_keys _ _ _ _ r) as [[[ks j]|e] r'].
  - eapply returns_bind; [apply IH |]. intros x Hx. apply returns_ret. simpl. by transitivity r'.
  - apply returns_raise.
Qed.

Lemma cache_full_blocks_memo r bls a b c d : returns (memo_of r) (cache_full_blocks sha256 r bls a b c d).
Proof.
  unfold cache_full_blocks. cbv zeta. returns_step; [by apply returns_ret |].
  repeat (eapply returns_bind; [apply returns_any | intros ? _]). returns_step; [by apply returns_ret |].
  eapply returns_bind; [apply returns_any | intros ? _]. eapply returns_bind; [apply stored_extra_keys_memo | intros x Hx].
  eapply returns_bind; [apply returns_any | intros ? _]. by apply returns_ret.
Qed.

Lemma base_cache_blocks_memo r n : returns (memo_of r) (base_cache_blocks sha256 r n).
Proof.
  unfold base_cache_blocks. eapply returns_bind; [apply returns_any | intros m _]. cbv zeta. returns_step; [by apply returns_ret |].
  eapply returns_bind; [apply returns_any | intros ? _]. eapply returns_bind; [apply returns_zoom, cache_full_blocks_memo | intros x Hx].
  eapply returns_bind; [apply returns_any | intros ? _]. by apply returns_ret.
Qed.

Lemma cache_blocks_memo r n : returns (memo_of r) (cache_blocks sha256 r n).
Proof.
  unfold cache_blocks, mamba_cache_blocks. eapply returns_bind; [apply returns_any | intros m _].
  destruct (kind m); try apply base_cache_blocks_memo; [| apply returns_raise].
  eapply returns_bind; [apply returns_any | intros ? _]. cbv zeta. eapply returns_bind; [apply base_cache_blocks_memo | intros x Hx].
  eapply returns_bind; [apply returns_any | intros ? _]. returns_step; [| by apply returns_ret].
  repeat (eapply returns_bind; [apply returns_any | intros ? _]). by apply returns_ret.
Qed.

Lemma cache_from_memo idxs n : forall r, returns (memo_of r) (cache_from sha256 idxs n r).
Proof.
  induction idxs as [|i idxs IH]; intros r; simpl; [by apply returns_ret |].
  eapply (returns_bind (memo_of r)).
  - intros c _. unfold on_manager. destruct (_ !! i) as [m|]; [| done].
    pose proof (cache_blocks_memo r n (mkMS m (block_pool c)) I) as Hm. by destruct (cache_blocks _ _ _ _) as [[x|e] s].
  - intros r' Hr. intros s Hs. specialize (IH r' s I). destruct (cache_from _ _ _ _ _) as [[x|e] s']; [| done]. by transitivity r'.
Qed.

Lemma coord_cache_blocks_memo r n : returns (memo_of r) (coord_cache_blocks sha256 r n).
Proof. unfold coord_cache_blocks. eapply returns_bind; [apply returns_any | intros c _]. apply cache_from_memo. Qed.

Lemma kv_cache_blocks_memo r n : returns (memo_of r) (kv_cache_blocks sha256 r n).
Proof.
  unfold kv_cache_blocks. eapply returns_bind; [apply returns_any | intros c _]. returns_step; [| by apply returns_ret].
  apply returns_zoom, coord_cache_blocks_memo.
Qed.

Lemma allocate_slots_memo r n c bl la ext delay enc : returns (fun x => memo_of r x.2) (allocate_slots sha256 r n c bl la ext delay enc).
Proof.
  unfold allocate_slots. returns_step; [apply returns_raise |]. eapply returns_bind; [apply returns_any | intros k _]. cbv zeta.
  do 4 (eapply returns_bind; [apply returns_any | intros ? _]). returns_step; [by apply returns_ret |].
  do 2 (eapply returns_bind; [apply returns_any | intros ? _]). returns_step; [by apply returns_ret |].
  eapply returns_bind; [apply returns_zoom, coord_cache_blocks_memo | intros r' Hr]. by apply returns_ret.
Qed.
End memo.

(** ** Calls that leave the queues alone *)

(** A view of a request object that does not depend on the memo table, and one that
    scheduling does not change at all. *)
Class StableMemo {X} (π : SchedRequest -> X) : Prop :=
  stable_memo o r' : memo_of (rq o) r' -> π (on_rq (fun _ => r') o) = π o.
Class Stable {X} (π : SchedRequest -> X) : Prop := {
  #[global] stable_is_memo :: StableMemo π;
  stable_status st sr o : π (on_rq (fun r => with_status st (sr r) r) o) = π o;
  stable_computed n o : π (on_rq (with_computed n) o) = π o;
  stable_spec l o : π (on_rq (with_spec l) o) = π o;
  stable_preemptions n o : π (on_rq (fun r => with_preemptions (n r) r) o) = π o;
  stable_long b o : π (on_rq (with_long_mask b) o) = π o;
}.

(** The id, and everything but the memo table. *)
Definition oid_of (o : SchedRequest) : string := request_id (rq o).
Definition core (o : SchedRequest) : SchedRequest := on_rq (with_memo ∅) o.
#[export] Instance stable_oid : Stable oid_of.
Proof. split; try done. intros o r' Hm. exact (f_equal request_id Hm). Qed.
#[export] Instance stable_core : StableMemo core.
Proof. intros o r' Hm. unfold core, on_rq. simpl. f_equal. exact Hm. Qed.

Section frame.
Context {W : Type} `{Externals W} {X : Type} (π : SchedRequest -> X).
Implicit Types s : Scheduler W.

Record frame s s' : Prop := {
  fr_running : running s' = running s;
  fr_waiting : waiting s' = waiting s;
  fr_skipped : skipped_waiting s' = skipped_waiting s;
  fr_obj i : π <$> objs s' !! i = π <$> objs s !! i;
  fr_requests : s_requests s' = s_requests s;
}.

#[export] Instance frame_preorder : PreOrder frame.
Proof.
  split; [by split |]. intros s1 s2 s3 [H1 H2 H3 H4 H5] [G1 G2 G3 G4 G5].
  split; congruence.
Qed.

Definition quiet {A} (f : SM W A) : Prop := forall s, match f s with (Ok _, s') => frame s s' | _ => True end.

Lemma quiet_hoare {A} (f : SM W A) s0 : quiet f -> hoare (frame s0) f (fun _ => frame s0).
Proof. intros Hf s Hs. specialize (Hf s). destruct (f s) as [[a|e] s']; [by transitivity s | done]. Qed.

Lemma quiet_bind {A B} (f : SM W A) (k : A -> SM W B) : quiet f -> (forall a, quiet (k a)) -> quiet (bind f k).
Proof.
  intros Hf Hk s. unfold bind. specialize (Hf s). destruct (f s) as [[a|e] s']; [| done].
  specialize (Hk a s'). destruct (k a s') as [[b|e] s'']; [by transitivity s' | done].
Qed.
Lemma quiet_ret {A} (a : A) : quiet (ret a).
Proof. by intros s. Qed.
Lemma quiet_raise {A} e : quiet (raise (A := A) e).
Proof. by intros s. Qed.
Lemma quiet_get : quiet get.
Proof. by intros s. Qed.
Lemma quiet_assert b : quiet (assert b).
Proof. by destruct b. Qed.
Lemma quiet_lift {A} (r : res A) : quiet (lift r).
Proof. intros s. by destruct r. Qed.
Lemma quiet_foreach {A} (l : list A) f : (forall x, quiet (f x)) -> quiet (foreach l f).
Proof. intros Hf. induction l as [|x l IH]; [apply quiet_ret | apply quiet_bind; auto]. Qed.
Lemma quiet_obj i : quiet (obj i).
Proof. intros s. unfold obj. by destruct (objs s !! i). Qed.
Lemma quiet_modify f : (forall s, frame s (f s)) -> quiet (modify f).
Proof. intros Hf s. apply Hf. Qed.
Lemma quiet_set_obj i f : (forall o, π (f o) = π o) -> quiet (set_obj i f).
Proof.
  intros Hf. apply quiet_modify. intros s. split; try done. intros j. simpl. destruct (decide (j = i)) as [-> | Hne].
  - rewrite lookup_alter_eq. destruct (objs s !! i); simpl; [by rewrite Hf | done].
  - by rewrite lookup_alter_ne.
Qed.
Lemma quiet_set_rq i f : (forall o, π (on_rq f o) = π o) -> quiet (set_rq i f).
Proof. apply quiet_set_obj. Qed.
Lemma quiet_set_state `{!Stable π} i st : quiet (set_state i st).
Proof. apply quiet_set_rq. intros o. apply stable_status. Qed.
Lemma quiet_on_kv {A} (f : KM A) : quiet (on_kv f).
Proof. intros s. unfold on_kv, zoom. by destruct (f _) as [[a|e] k]. Qed.
Lemma quiet_on_enc {A} f g : quiet (on_enc (A := A) f g).
Proof. intros s. unfold on_enc, zoom. destruct (match encoder_cache_manager s with inl c => _ | inr c => _ end) as [[a|e] k]; done. Qed.
Lemma quiet_on_world {A} (f : W -> A * W) : quiet (on_world f).
Proof. intros s. unfold on_world. by destruct (f (world s)). Qed.
Lemma quiet_upd_world f : quiet (upd_world f).
Proof. by apply quiet_modify. Qed.
Lemma quiet_returns {A B} (P : A -> Prop) (f : SM W A) (k : A -> SM W B) :
  quiet f -> returns P f -> (forall a, P a -> quiet (k a)) -> quiet (bind f k).
Proof.
  intros Hf Hp Hk s. unfold bind. specialize (Hf s). specialize (Hp s I). destruct (f s) as [[a|e] s']; [| done].
  specialize (Hk a Hp s'). destruct (k a s') as [[b|e] s'']; [by transitivity s' | done].
Qed.
End frame.

Create HintDb quiet.
#[export] Hint Resolve quiet_ret quiet_raise quiet_get quiet_assert quiet_lift quiet_obj quiet_set_state quiet_on_kv quiet_on_enc
  quiet_on_world quiet_upd_world quiet_foreach quiet_bind : quiet.
Ltac quiet_step :=
  match goal with
  | |- quiet _ (bind _ _) => apply quiet_bind; [| intros ?]
  | |- quiet _ (if ?b then _ else _) => destruct b
  | |- quiet _ (match ?x with _ => _ end) => destruct x
  | |- quiet _ (foreach _ _) => apply quiet_foreach; intros ?
  | |- quiet _ (let _ := _ in _) => cbv zeta
  | |- quiet _ _ => solve [eauto with quiet]
  end.
Ltac solve_quiet := repeat quiet_step.

Section ops.
Context {W : Type} `{Externals W} {X : Type} (π : SchedRequest -> X) `{!StableMemo π} (cfg : SchedulerConfig) (sha256 : bytes -> bytes).

(** Replacing the request object by one that differs in its memo table. *)
Lemma quiet_replace {A B} i (f : Request -> KM A) (g : A -> Request) (b : A -> B) :
  (forall r, returns (fun a => memo_of r (g a)) (f r)) ->
  quiet (W := W) π (let* o := obj i in let* x := on_kv (f (rq o)) in set_rq i (fun _ => g x) ;;; ret (b x)).
Proof.
  intros Hf s. unfold bind, obj. destruct (objs s !! i) as [o|] eqn:Eo; [| done].
  unfold on_kv, zoom. specialize (Hf (rq o) (kv_cache_manager s) I). destruct (f _ _) as [[x|e] k]; [| done].
  split; try done. intros j. simpl. destruct (decide (j = i)) as [-> | Hne].
  - rewrite lookup_alter_eq, Eo. simpl. by rewrite (stable_memo _ _ Hf).
  - by rewrite lookup_alter_ne.
Qed.

Lemma quiet_alloc_slots i n c bl la ext d enc : quiet (W := W) π (alloc_slots sha256 i n c bl la ext d enc).
Proof.
  apply (quiet_replace i (fun r => allocate_slots sha256 r n c bl la ext d enc) snd fst). intros r. apply allocate_slots_memo.
Qed.

Lemma quiet_cache_request i n : quiet (W := W) π (cache_request sha256 i n).
Proof.
  pose proof (quiet_replace i (fun r => kv_cache_blocks sha256 r n) (fun r => r) (fun _ => tt)) as Hq. intros s.
  specialize (Hq (fun r => kv_cache_blocks_memo sha256 r n) s). unfold cache_request, bind, set_rq, set_obj, modify, ret in *.
  destruct (obj i s) as [[o|e] s1]; [| done]. destruct (on_kv _ s1) as [[x|e] s2]; done.
Qed.

Lemma quiet_enc_loop r computed shift fs : forall i a, quiet π (enc_loop cfg r computed shift i fs a).
Proof.
  induction fs as [|f fs IH]; intros i a; cbn [enc_loop]; [apply quiet_ret |]. unfold can_alloc. solve_quiet; try apply IH.
Qed.
Lemma quiet_try_encoder r c n b sh : quiet π (_try_schedule_encoder_inputs cfg r c n b sh).
Proof. unfold _try_schedule_encoder_inputs. solve_quiet. apply quiet_enc_loop. Qed.
Lemma quiet_alloc_encoder i l : quiet π (alloc_encoder i l).
Proof. unfold alloc_encoder. solve_quiet. Qed.
Lemma quiet_enc_free r : quiet (W := W) π (enc_free_request r).
Proof. apply quiet_on_enc. Qed.

Lemma quiet_remote_kv `{!Stable π} i : quiet π (_update_waiting_for_remote_kv sha256 i).
Proof.
  unfold _update_waiting_for_remote_kv. solve_quiet; try apply quiet_cache_request; try by apply quiet_modify.
  apply quiet_set_rq. intros o'. apply stable_computed.
Qed.
Lemma quiet_promote `{!Stable π} i : quiet π (_try_promote_blocked_waiting_request sha256 i).
Proof. unfold _try_promote_blocked_waiting_request. solve_quiet. apply quiet_remote_kv. Qed.
Lemma quiet_computed i : quiet π (waiting_computed i).
Proof. unfold waiting_computed. solve_quiet. Qed.
Lemma quiet_tokens i c l e a t : quiet π (waiting_tokens cfg i c l e a t).
Proof. unfold waiting_tokens. solve_quiet; apply quiet_try_encoder. Qed.
Lemma quiet_gate `{!Stable π} i : quiet (W := W) π (nelssa_gate cfg i).
Proof. unfold nelssa_gate. solve_quiet. apply quiet_set_rq. intros o'. apply stable_long. Qed.

(** Peeking changes nothing. *)
Lemma quiet_peek n : quiet (W := W) π (on_queue n (fun st => peek_request (RequestQueue := any_queue st))).
Proof.
  intros s. unfold on_queue. destruct n; simpl; unfold any_op.
  - destruct (waiting s) as [q|q] eqn:E; simpl; unfold on_left, on_right, fcfs_peek, prio_peek;
      [destruct (deque q) | destruct (_heap q)]; try done; split; done.
  - destruct (skipped_waiting s) as [q|q] eqn:E; simpl; unfold on_left, on_right, fcfs_peek, prio_peek;
      [destruct (deque q) | destruct (_heap q)]; try done; split; done.
Qed.
Lemma quiet_select : quiet (W := W) π (_select_waiting_queue cfg).
Proof. unfold _select_waiting_queue. solve_quiet; apply quiet_peek. Qed.
End ops.
#[export] Hint Resolve quiet_alloc_slots quiet_cache_request quiet_try_encoder quiet_alloc_encoder quiet_enc_free quiet_promote
  quiet_computed quiet_tokens quiet_gate quiet_peek quiet_select : quiet.

(** ** The references in the queues *)
Definition qitems (q : AnyQueue) : list Z := match q with inl q => deque q | inr q => _heap q end.
Definition refs {W} (s : Scheduler W) : list Z := running s ++ qitems (waiting s) ++ qitems (skipped_waiting s).

Lemma qitems_pop store q i q' : pop_request (RequestQueue := any_queue store) q = (Ok i, q') -> qitems q ≡ₚ i :: qitems q'.
Proof.
  destruct q as [q|q]; simpl; unfold on_left, on_right, fcfs_pop, prio_pop.
  - destruct (deque q) as [|r l] eqn:E; [done |]. by intros [= <- <-].
  - destruct (_heap q) as [|z l] eqn:E; [done |]. destruct (heappop _ _) as [[r h]|e] eqn:Ep; [| done].
    intros [= <- <-]. apply heappop_perm in Ep as [_ Hp]. simpl. by rewrite <- Hp.
Qed.
(** The request a pop returns is the one a peek shows. *)
Lemma peek_pop store q i q1 j q2 : peek_request (RequestQueue := any_queue store) q = (Ok i, q1) ->
  pop_request (RequestQueue := any_queue store) q = (Ok j, q2) -> i = j.
Proof.
  destruct q as [q|q]; simpl; unfold on_left, on_right, fcfs_peek, fcfs_pop, prio_peek, prio_pop.
  - destruct (deque q); [done |]. by intros [= -> _] [= -> _].
  - destruct (_heap q) as [|z l] eqn:E; [done |]. intros [= -> _]. unfold heappop. destruct (last (i :: l)) as [y|] eqn:El; [| done].
    destruct l as [|z' l]; simpl; [by injection El as ->; intros [= -> _] |]. by intros [= -> _].
Qed.
Lemma qitems_prepend store q i r q' : prepend_request (RequestQueue := any_queue store) i q = (r, q') -> qitems q' ≡ₚ i :: qitems q.
Proof.
  destruct q as [q|q]; simpl; unfold on_left, on_right; intros [= <- <-]; simpl; [done |]. apply heappush_perm.
Qed.
Lemma qitems_prepend_all store rs : forall q r q', prepend_requests (RequestQueue := any_queue store) rs q = (r, q') ->
  qitems q' ≡ₚ rs ++ qitems q.
Proof.
  induction rs as [|i rs IH]; intros q r q' E.
  - destruct q; injection E as <- <-; done.
  - assert (exists q1, qitems q1 ≡ₚ i :: qitems q /\ prepend_requests (RequestQueue := any_queue store) rs q1 = (r, q')) as (q1 & Hq & E1).
    { destruct q as [q|q]; [exists (inl (mkFCFS (i :: deque q))) | exists (inr (mkPrio (heappush (obj_lt store) (_heap q) i)))];
        (split; [simpl; first [done | apply heappush_perm] | exact E]). }
    rewrite (IH q1 r q' E1), Hq. symmetry. apply Permutation_middle.
Qed.

Lemma heap_iter_perm store n : forall h, length h = n -> heap_iter store n h ≡ₚ h.
Proof.
  induction n as [|n IH]; intros h Hn; [by apply nil_length_inv in Hn; subst |]. cbn [heap_iter].
  destruct (heappop (obj_lt store) h) as [[r h']|e] eqn:E.
  - apply heappop_perm in E as [_ Hp]. transitivity (r :: h'); [| done]. apply perm_skip, IH. apply Permutation_length in Hp. simpl in Hp. lia.
  - unfold heappop in E. destruct h as [|z h _] using rev_ind; [done |]. rewrite last_snoc in E. by destruct (take _ _).
Qed.
Lemma qitems_iter store q : queue_iter (RequestQueue := any_queue store) q ≡ₚ qitems q.
Proof. destruct q as [q|q]; simpl; [done |]. by apply heap_iter_perm. Qed.

(** ** Removing an element of a list *)
Lemma remove_first_split x l k : remove_first x l = Ok k -> exists a b, l = a ++ x :: b /\ k = a ++ b.
Proof.
  revert k. induction l as [|y l IH]; simpl; [done |]. intros k. destruct (Z.eqb_spec y x) as [-> | _].
  - intros [= ->]. by exists [], k.
  - destruct (remove_first x l) as [k'|]; [| done]. intros [= <-]. destruct (IH k' eq_refl) as (a & b & -> & ->). by exists (y :: a), b.
Qed.
Lemma pop_last_if_split f l v k : pop_last_if f l = Some (v, k) -> exists a b, l = a ++ v :: b /\ k = a ++ b.
Proof.
  revert v k. induction l as [|y l IH]; simpl; [done |]. intros v k. destruct (pop_last_if f l) as [[v' k']|].
  - intros [= <- <-]. destruct (IH v' k' eq_refl) as (a & b & -> & ->). by exists (y :: a), b.
  - destruct (f y); [| done]. intros [= <- <-]. by exists [], l.
Qed.
Lemma take_last_split (l : list Z) v : last l = Some v -> exists a, l = a ++ [v] /\ take (length l - 1) l = a.
Proof.
  intros Hl. destruct l as [|z l _] using rev_ind; [done |]. rewrite last_snoc in Hl. injection Hl as ->.
  exists l. split; [done |]. rewrite length_app. simpl. replace (length l + 1 - 1)%nat with (length l) by lia. apply take_app_length.
Qed.

Lemma drop_remove {A} n (a b : list A) v x : x ∈ drop n (a ++ b) -> x ∈ drop n (a ++ v :: b).
Proof.
  rewrite !drop_app. rewrite !elem_of_app. intros [Hx | Hx]; [by left | right].
  destruct (n - length a)%nat as [|k]; simpl; [by right |].
  apply list_elem_of_lookup in Hx as [i Hi]. rewrite lookup_drop in Hi. apply list_elem_of_lookup. exists (S i).
  rewrite lookup_drop. rewrite <- Hi. f_equal. lia.
Qed.
