(* ===== verification/SchedulePass.v ===== *)
(** * SchedulePass
    The invariant of the two passes of [schedule]: the references in the running list and the
    queues are only moved, every request is scheduled at most once with a positive number of
    tokens, and the granted tokens and the budget left add up. *)
From S2P Require Import Prelude OrdDict KVCacheBlock FreeQueue Request BlockHash BlockPool Managers CacheHit Coordinator KVCacheManager EncoderCache HeapQ RequestQueue SchedUtils Scheduler Schedule SchedulerInv.

(** ** Numbers of tokens *)
Section tokens.
Context {W : Type} `{Externals W} (cfg : SchedulerConfig).

Lemma enc_loop_tokens r computed shift fs : 0 <= shift -> forall i a, 0 <= acc_new_tokens a ->
  returns (fun a' => 0 <= acc_new_tokens a' <= acc_new_tokens a) (enc_loop (W := W) cfg r computed shift i fs a).
Proof.
  intros Hsh. induction fs as [|f fs IH]; intros i a Ha; cbn [enc_loop]; [apply returns_ret; lia |]. cbv zeta.
  destruct (Z.leb_spec (computed + acc_new_tokens a + shift) (mm_offset f)) as [_ | Hlt]; [apply returns_ret; lia |].
  destruct (is_encoder_decoder cfg && (0 <? computed)); [eapply returns_bind; [apply returns_any | intros; by apply IH] |].
  destruct (_ <=? computed); [by apply IH |]. destruct (_ && bool_decide _); [by apply IH |].
  eapply returns_bind; [apply returns_any | intros hit _]. destruct hit; [by apply IH |].
  destruct (disable_chunked_mm_input cfg && _ && _); [apply returns_ret; simpl; lia |].
  eapply returns_bind; [apply returns_any | intros ok _]. destruct ok; simpl.
  - eapply returns_bind; [apply returns_any | intros range _]. destruct (_ =? 0); [by apply IH |].
    eapply returns_bind; [apply returns_any | intros s _]. destruct (ec_connector && _); exact (IH _ (mkAcc _ _ _ _ _ _) Ha).
  - apply returns_ret. simpl. destruct (Z.ltb_spec (computed + shift) (mm_offset f)); lia.
Qed.

Lemma try_encoder_tokens r c n b sh : 0 <= sh -> 0 <= n ->
  returns (fun e => 0 <= e.1.1.2 <= n) (_try_schedule_encoder_inputs (W := W) cfg r c n b sh).
Proof.
  intros Hsh Hn. unfold _try_schedule_encoder_inputs. destruct (_ || _); [apply returns_ret; simpl; lia |].
  eapply returns_bind; [by apply enc_loop_tokens |]. intros a Ha. apply returns_ret. exact Ha.
Qed.

Lemma mamba_split_tokens r n l e n' : 0 < cache_block_size cfg -> 0 <= n ->
  _mamba_block_aligned_split cfg r n l e = Ok n' -> 0 <= n' <= n.
Proof.
  intros Hb Hn. unfold _mamba_block_aligned_split. cbv zeta. destruct (negb (e =? 0)); [done |].
  destruct (_ <? Z.max _ _); [| intros [= <-]; lia]. destruct (cache_block_size cfg =? 0); [done |].
  destruct (_ <? _) eqn:E1.
  - intros [= <-]. pose proof (Z.div_mod n (cache_block_size cfg) ltac:(lia)). pose proof (Z.mod_pos_bound n (cache_block_size cfg) Hb).
    pose proof (Z.div_pos n (cache_block_size cfg)). nia.
  - destruct (_ && _) eqn:E2; [| intros [= <-]; lia]. apply andb_true_iff in E2 as [E2 E3]. zbool. intros [= <-]. lia.
Qed.

Lemma shift_nonneg : 0 <= shift_tokens cfg.
Proof. unfold shift_tokens. destruct (s_use_eagle cfg); lia. Qed.

(** A request whose computed tokens do not exceed its tokens and the model length. *)
Definition ready (o : SchedRequest) : Prop :=
  num_computed_tokens (rq o) <= num_tokens_with_spec (rq o) + num_output_placeholders o /\
  num_computed_tokens (rq o) <= s_max_model_len cfg - 1.

Lemma ready_core o o' : core o = core o' -> ready o -> ready o'.
Proof.
  intros Hc [H1 H2]. unfold core, on_rq in Hc. assert (with_memo ∅ (rq o) = with_memo ∅ (rq o')) as Hr by congruence.
  assert (num_output_placeholders o = num_output_placeholders o') as Hp by congruence.
  pose proof (f_equal num_computed_tokens Hr) as E1. pose proof (f_equal num_tokens_with_spec Hr) as E2. simpl in E1.
  change (num_tokens_with_spec (with_memo ∅ (rq o))) with (num_tokens_with_spec (rq o)) in E2.
  change (num_tokens_with_spec (with_memo ∅ (rq o'))) with (num_tokens_with_spec (rq o')) in E2. unfold ready. lia.
Qed.

Lemma running_tokens_bounds o budget : ready o -> 0 < budget -> 0 <= running_tokens cfg o budget <= budget.
Proof.
  intros [H1 H2] Hb. unfold running_tokens. cbv zeta.
  destruct ((0 <? long_prefill_token_threshold cfg) && _) eqn:E; [apply andb_true_iff in E as [E _]; zbool |]; lia.
Qed.
End tokens.

(** ** Changes to one request *)
Definition fixed (o : SchedRequest) : string * bool := (request_id (rq o), nelssa_long_mask (rq o)).

Section near.
Context {W : Type} `{Externals W}.
Implicit Types s : Scheduler W.

(** Only request [v] changes, and not its id and mark. *)
Record near (v : Z) s s' : Prop := {
  nr_running : running s' = running s;
  nr_waiting : waiting s' = waiting s;
  nr_skipped : skipped_waiting s' = skipped_waiting s;
  nr_fixed i : fixed <$> objs s' !! i = fixed <$> objs s !! i;
  nr_core i : i <> v -> core <$> objs s' !! i = core <$> objs s !! i;
}.
#[export] Instance near_preorder v : PreOrder (near v).
Proof.
  split; [by split |]. intros s1 s2 s3 [H1 H2 H3 H4 H5] [G1 G2 G3 G4 G5]. split; try congruence.
  intros i Hi. etrans; [apply G5 | apply H5]; done.
Qed.

Lemma fixed_core o o' : core o = core o' -> fixed o = fixed o'.
Proof.
  intros Hc. unfold core, on_rq in Hc. assert (with_memo ∅ (rq o) = with_memo ∅ (rq o')) as Hr by congruence.
  pose proof (f_equal request_id Hr) as E1. pose proof (f_equal nelssa_long_mask Hr) as E2. simpl in *. unfold fixed. congruence.
Qed.

Lemma frame_near v s s' : frame core s s' -> near v s s'.
Proof.
  intros [H1 H2 H3 H4 _]. split; [done | done | done | | intros i _; apply H4]. intros i. specialize (H4 i).
  destruct (objs s' !! i), (objs s !! i); simpl in *; try congruence. f_equal. apply fixed_core. congruence.
Qed.

Definition quiet_at {A} (v : Z) (f : SM W A) : Prop := forall s, match f s with (Ok _, s') => near v s s' | _ => True end.
Lemma quiet_quiet_at {A} v (f : SM W A) : quiet core f -> quiet_at v f.
Proof. intros Hf s. specialize (Hf s). destruct (f s) as [[a|e] s']; [by apply frame_near | done]. Qed.
Lemma quiet_at_bind {A B} v (f : SM W A) (k : A -> SM W B) : quiet_at v f -> (forall a, quiet_at v (k a)) -> quiet_at v (bind f k).
Proof.
  intros Hf Hk s. unfold bind. specialize (Hf s). destruct (f s) as [[a|e] s']; [| done].
  specialize (Hk a s'). destruct (k a s') as [[b|e] s'']; [by transitivity s' | done].
Qed.
Lemma quiet_at_set_rq v f : (forall o, fixed (on_rq f o) = fixed o) -> quiet_at v (set_rq v f).
Proof.
  intros Hf s. split; try done; intros j; simpl.
  - destruct (decide (j = v)) as [-> | Hne]; [| by rewrite lookup_alter_ne].
    rewrite lookup_alter_eq. destruct (objs s !! v); simpl; [by rewrite Hf | done].
  - intros Hj. by rewrite lookup_alter_ne.
Qed.
End near.

Definition scheduled (t : Step) : list Z := st_running t ++ st_new t ++ st_resumed t.

Lemma sum_list_perm l k : l ≡ₚ k -> sum_list l = sum_list k.
Proof. unfold sum_list. induction 1; simpl; lia. Qed.

Section pass.
Context {W : Type} `{Externals W} (cfg : SchedulerConfig) (sha256 : bytes -> bytes).
(** The references of the scheduler, the ids of the requests, the tokens available. *)
Variables (L0 : list Z) (name : Z -> string) (B : Z).
Hypotheses (HL0 : NoDup L0) (Hinj : forall i j, i ∈ L0 -> j ∈ L0 -> name i = name j -> i = j).
Abbreviation SS := (Scheduler W * Step)%type.
Implicit Types (x : SS) (s : Scheduler W) (t : Step).

(** [miss]: references that are being moved. *)
Record pass (miss : list Z) x : Prop := {
  p_refs : miss ++ refs x.1 ++ qitems (st_skipped x.2) ≡ₚ L0;
  p_name i : i ∈ L0 -> oid_of <$> objs x.1 !! i = Some (name i);
  p_keys : (st_tokens x.2).*1 ≡ₚ name <$> scheduled x.2;
  p_nodup : NoDup (scheduled x.2);
  p_sub i : i ∈ scheduled x.2 -> i ∈ L0;
  p_pos : Forall (fun kn : string * Z => 0 < kn.2) (st_tokens x.2);
  p_sum : sum_list (st_tokens x.2).*2 + st_budget x.2 = B;
  p_budget : 0 <= st_budget x.2;
}.

Lemma pass_ids i s t miss o : pass miss (s, t) -> i ∈ L0 -> objs s !! i = Some o -> request_id (rq o) = name i.
Proof. intros Hp Hi Ho. pose proof (p_name _ _ Hp i Hi) as Hn. simpl in Hn. rewrite Ho in Hn. by injection Hn. Qed.

Lemma pass_in_running miss x i : pass miss x -> i ∈ running x.1 -> i ∈ L0.
Proof. intros Hp Hi. rewrite <- (p_refs _ _ Hp). unfold refs. rewrite !elem_of_app. auto. Qed.
Lemma pass_running_nodup miss x : pass miss x -> NoDup (running x.1).
Proof.
  intros Hp. assert (NoDup (miss ++ refs x.1 ++ qitems (st_skipped x.2))) as Hn by (by rewrite (p_refs _ _ Hp)).
  unfold refs in Hn. rewrite !NoDup_app in Hn. naive_solver.
Qed.

(** Keys of the token table. *)
Lemma pass_keys_nodup miss x : pass miss x -> NoDup (st_tokens x.2).*1.
Proof.
  intros Hp. rewrite (p_keys _ _ Hp). pose proof (p_sub _ _ Hp) as Hs. pose proof (p_nodup _ _ Hp) as Hn.
  induction (scheduled x.2) as [|i l IH]; [constructor |]. apply NoDup_cons in Hn as [Hi Hn]. simpl. constructor.
  - intros (j & Hj & Hin)%list_elem_of_fmap. apply Hi. rewrite (Hinj i j); [done | | | done]; apply Hs; [left | by right].
  - apply IH; [| done]. intros j Hj. apply Hs. by right.
Qed.
Lemma pass_key_fresh miss x i : pass miss x -> i ∈ L0 -> i ∉ scheduled x.2 -> od_get (name i) (st_tokens x.2) = None.
Proof.
  intros Hp Hi Hn. apply od_get_None. unfold od_keys. rewrite (p_keys _ _ Hp). intros (j & Hj & Hin)%list_elem_of_fmap.
  apply Hn. rewrite (Hinj i j Hi (p_sub _ _ Hp j Hin) Hj). done.
Qed.

(** Granting tokens to a request, and taking them back. *)
Lemma pass_grant miss s t t' i n : pass miss (s, t) -> i ∈ L0 -> i ∉ scheduled t -> 0 < n <= st_budget t ->
  scheduled t' ≡ₚ i :: scheduled t -> st_tokens t' = od_set (name i) n (st_tokens t) -> st_budget t' = st_budget t - n ->
  st_skipped t' = st_skipped t -> pass miss (s, t').
Proof.
  intros Hp Hi Hn Hb Hs Ht Hbud Hsk. pose proof (pass_key_fresh _ _ i Hp Hi Hn) as Hf.
  assert (st_tokens t' = st_tokens t ++ [(name i, n)]) as Ht' by (rewrite Ht; by apply od_set_new).
  destruct Hp as [H1 H2 H3 H4 H5 H6 H7 H8]; simpl in *. split; simpl.
  - by rewrite Hsk.
  - done.
  - rewrite Ht', fmap_app, H3, Hs. simpl. symmetry. apply Permutation_cons_append.
  - rewrite Hs. by constructor.
  - intros j. rewrite Hs. intros [-> | Hj]%elem_of_cons; auto.
  - rewrite Ht'. apply Forall_app. split; [done |]. repeat constructor. simpl. lia.
  - rewrite Ht', fmap_app. unfold sum_list in *. rewrite foldr_app. simpl.
    assert (forall l a, foldr Z.add a l = foldr Z.add 0 l + a) as Hfold by (induction l as [|y l IH]; intros a; simpl; [lia | rewrite IH; lia]).
    rewrite Hfold. lia.
  - lia.
Qed.

Lemma pass_ungrant miss s t t' i n : pass miss (s, t) -> scheduled t ≡ₚ i :: scheduled t' -> od_get (name i) (st_tokens t) = Some n ->
  st_tokens t' = od_del (name i) (st_tokens t) -> st_budget t' = st_budget t + n -> st_skipped t' = st_skipped t -> pass miss (s, t').
Proof.
  intros [H1 H2 H3 H4 H5 H6 H7 H8] Hs Hg Ht Hb Hsk; simpl in *. pose proof (od_del_perm _ _ _ Hg) as Hd. rewrite <- Ht in Hd.
  rewrite Hs in H4. apply NoDup_cons in H4 as [H4 H4']. split; simpl.
  - by rewrite Hsk.
  - done.
  - apply (Permutation_cons_inv (a := name i)). rewrite <- (fmap_cons name i), <- Hs, <- H3, Hd. done.
  - done.
  - intros j Hj. apply H5. rewrite Hs. by right.
  - rewrite Hd in H6. by apply Forall_cons in H6 as [_ H6].
  - rewrite (sum_list_perm _ _ (fmap_Permutation snd _ _ Hd)) in H7. rewrite fmap_cons in H7. unfold sum_list in *. cbn [foldr snd] in H7. lia.
  - rewrite Hd in H6. apply Forall_cons in H6 as [H6 _]. simpl in H6. lia.
Qed.

(** Changes of other parts of the step. *)
Lemma pass_step miss s t t' : pass miss (s, t) -> scheduled t' = scheduled t -> st_tokens t' = st_tokens t -> st_budget t' = st_budget t ->
  st_skipped t' = st_skipped t -> pass miss (s, t').
Proof. intros [H1 H2 H3 H4 H5 H6 H7 H8] E1 E2 E3 E4. split; simpl in *; rewrite ?E1, ?E2, ?E3, ?E4; done. Qed.

Lemma pass_objs miss s s' t : pass miss (s, t) -> (forall i, oid_of <$> objs s' !! i = oid_of <$> objs s !! i) ->
  refs s' = refs s -> pass miss (s', t).
Proof. intros [H1 H2 H3 H4 H5 H6 H7 H8] Ho Er. split; simpl in *; rewrite ?Er; try done. intros i Hi. by rewrite Ho, H2. Qed.

(** ** The pass over the running requests *)
Variable NoLong : Prop.
Definition good : Prop := policy cfg = PRIORITY \/ NoLong.
Definition idx t : nat := Z.to_nat (st_index t).

Record rpass (miss : list Z) x : Prop := {
  rp_pass : pass miss x;
  rp_new : st_new x.2 = [];
  rp_resumed : st_resumed x.2 = [];
  rp_idx : 0 <= st_index x.2;
  rp_after i : i ∈ st_running x.2 -> i ∉ drop (idx x.2) (running x.1);
  rp_ready i : i ∈ drop (idx x.2) (running x.1) -> exists o, objs x.1 !! i = Some o /\ ready cfg o;
  rp_keep : good \/ (st_preempted x.2 = [] /\ miss = []) -> forall i, i ∈ st_running x.2 -> i ∈ running x.1;
  rp_long : NoLong -> forall i, i ∈ running x.1 -> nelssa_long_mask (deref x.1 i) = false;
  rp_run : zlen (running x.1) <= max_num_running_reqs cfg;
  rp_skipped : qitems (st_skipped x.2) = [];
}.

(** The request [i] that is being given [n] tokens. *)
Record cur (i n : Z) x : Prop := {
  c_in : i ∈ running x.1;
  c_new : i ∉ st_running x.2;
  c_pos : i ∈ take (S (idx x.2)) (running x.1);
  c_fcfs : NoLong -> policy cfg = FCFS -> i ∈ drop (idx x.2) (running x.1);
  c_budget : n <= st_budget x.2;
}.

Lemma rpass_scheduled miss x : rpass miss x -> scheduled x.2 = st_running x.2.
Proof. intros Hr. unfold scheduled. by rewrite (rp_new _ _ Hr), (rp_resumed _ _ Hr), app_nil_r. Qed.

Lemma deref_fixed s s' i : fixed <$> objs s' !! i = fixed <$> objs s !! i ->
  nelssa_long_mask (deref s' i) = nelssa_long_mask (deref s i) /\ oid_of <$> objs s' !! i = oid_of <$> objs s !! i.
Proof.
  unfold deref, fixed, oid_of. intros Hf. destruct (objs s' !! i), (objs s !! i); simpl in *; try done.
  injection Hf as -> ->. done.
Qed.

Lemma rpass_change miss s s' t : rpass miss (s, t) -> running s' = running s -> waiting s' = waiting s ->
  skipped_waiting s' = skipped_waiting s -> (forall i, fixed <$> objs s' !! i = fixed <$> objs s !! i) ->
  (forall i, i ∈ drop (idx t) (running s) -> core <$> objs s' !! i = core <$> objs s !! i) -> rpass miss (s', t).
Proof.
  intros [H1 H2 H3 H4 H5 H6 H7 H8 H9 H10] N1 N2 N3 N4 N5; simpl in *. split; simpl; try done.
  - apply (pass_objs _ s); [done | intros i; by apply (deref_fixed s s') | unfold refs; by rewrite N1, N2, N3].
  - by rewrite N1.
  - intros i. rewrite N1. intros Hi. destruct (H6 i Hi) as (o & Ho & Hr).
    specialize (N5 i Hi). rewrite Ho in N5. destruct (objs s' !! i) as [o'|]; simpl in N5; [| done].
    exists o'. split; [done |]. apply (ready_core cfg o); [congruence | done].
  - by rewrite N1.
  - intros Hn i. rewrite N1. intros Hi. rewrite (proj1 (deref_fixed s s' i (N4 i))). by apply H8.
  - by rewrite N1.
Qed.
Lemma rpass_near miss v s s' t : rpass miss (s, t) -> near v s s' -> v ∉ drop (idx t) (running s) -> rpass miss (s', t).
Proof.
  intros Hr [N1 N2 N3 N4 N5] Hv. apply (rpass_change miss s); try done. intros i Hi. apply N5. by intros ->.
Qed.
Lemma rpass_frame miss s s' t : rpass miss (s, t) -> frame core s s' -> rpass miss (s', t).
Proof.
  intros Hr Hf. destruct (frame_near 0 s s' Hf) as [N1 N2 N3 N4 _]. apply (rpass_change miss s); try done. intros i _. apply Hf.
Qed.

Lemma cur_running i n s s' t : cur i n (s, t) -> running s' = running s -> cur i n (s', t).
Proof. intros [H1 H2 H3 H4 H5] E. split; simpl in *; rewrite ?E; done. Qed.

(** A predicate that calls like these keep. *)
Lemma hoare_sch {A X} (π : SchedRequest -> X) (P : SS -> Prop) (f : SM W A) : quiet π f ->
  (forall s s' t, P (s, t) -> frame π s s' -> P (s', t)) -> hoare P (sch f) (fun _ => P).
Proof.
  intros Hf HP [s t] Hs. unfold sch, zoom. simpl. specialize (Hf s). destruct (f s) as [[a|e] s']; [by eapply HP | done].
Qed.

(** *** Removing the request that is preempted *)
Lemma take_remove {A} n (a b : list A) v y : y <> v -> y ∈ take n (a ++ v :: b) -> y ∈ take n (a ++ b).
Proof.
  intros Hne. rewrite !take_app, !elem_of_app. intros [Hy | Hy]; [by left | right].
  destruct (n - length a)%nat as [|k]; simpl in *; [by apply elem_of_nil in Hy |].
  apply elem_of_cons in Hy as [-> | Hy]; [done |]. apply list_elem_of_lookup in Hy as [j Hj].
  apply lookup_take_Some in Hj as [Hj Hlt]. apply list_elem_of_lookup. exists j. apply lookup_take_Some. split; [done | lia].
Qed.

Lemma pass_remove s t v a b : pass [] (s, t) -> running s = a ++ v :: b -> pass [v] (with_running (a ++ b) s, t).
Proof.
  intros [G1 G2 G3 G4 G5 G6 G7 G8] E. split; simpl in *; try done. rewrite <- G1. unfold refs. simpl. rewrite E. solve_Permutation.
Qed.

Lemma rpass_remove s t v a b : rpass [] (s, t) -> running s = a ++ v :: b -> (good -> v ∉ st_running t) ->
  rpass [v] (with_running (a ++ b) s, t).
Proof.
  intros [H1 H2 H3 H4 H5 H6 H7 H8 H9 H10] E Hg; simpl in *. split; simpl; try done.
  - by apply pass_remove.
  - intros i Hi Hd. apply (H5 i Hi). rewrite E. by apply drop_remove.
  - intros i Hi. apply H6. rewrite E. by apply drop_remove.
  - intros [Hgood | [_ ?]] i Hi; [| done]. assert (i ∈ running s) as Hin by (apply H7; auto). rewrite E in Hin.
    rewrite elem_of_app, elem_of_cons in Hin. rewrite elem_of_app. destruct Hin as [? | [-> | ?]]; [auto | | auto]. by destruct (Hg Hgood).
  - intros Hn i Hi. apply H8; [done |]. rewrite E. rewrite elem_of_app, elem_of_cons. rewrite elem_of_app in Hi. naive_solver.
  - unfold zlen in *. rewrite E in H9. rewrite length_app in *. simpl in *. lia.
Qed.

Lemma cur_remove i n s t v a b : cur i n (s, t) -> running s = a ++ v :: b -> i <> v ->
  (NoLong -> policy cfg = FCFS -> b = []) -> cur i n (with_running (a ++ b) s, t).
Proof.
  intros [H1 H2 H3 H4 H5] E Hne Hb; simpl in *. rewrite E in *. split; simpl; try done.
  - rewrite elem_of_app, elem_of_cons in H1. rewrite elem_of_app. naive_solver.
  - by eapply take_remove.
  - intros Hn Hf. specialize (H4 Hn Hf). rewrite (Hb Hn Hf) in *. rewrite app_nil_r. rewrite drop_app in H4.
    rewrite elem_of_app in H4. destruct H4 as [? | H4]; [done |].
    assert (i ∈ [v]) as Hi%list_elem_of_singleton; [| done].
    eapply elem_of_submseteq; [exact H4 | apply sublist_submseteq, sublist_drop].
Qed.

(** A victim that was scheduled in this step gives its tokens back. *)
Lemma unschedule_run v s t s' t' : unschedule v (s, t) = (Ok tt, (s', t')) ->
  s' = s /\ exists o n rest, objs s !! v = Some o /\ remove_first v (st_running t) = Ok rest /\
  od_get (request_id (rq o)) (st_tokens t) = Some n /\ st_tokens t' = od_del (request_id (rq o)) (st_tokens t) /\
  st_budget t' = st_budget t + n /\ st_index t' = st_index t - 1 /\ st_running t' = rest /\ st_new t' = st_new t /\
  st_resumed t' = st_resumed t /\ st_skipped t' = st_skipped t /\ st_preempted t' = st_preempted t.
Proof.
  unfold unschedule, bind, sch, zoom, obj, get, lift, stp, modify, ret, raise. simpl.
  destruct (objs s !! v) as [o|] eqn:Eo; [| done]. cbn [fst snd]. destruct (remove_first v (st_running t)) as [rest|] eqn:Er; [| done]. simpl.
  destruct (od_get _ (st_tokens t)) as [n|] eqn:En; [| done]. destruct (od_get _ (st_blocks t)); [| done].
  intros E. destruct (od_get _ (st_enc_inputs t)) as [[|? ids]|]; [| destruct (sum_embeds _ _); [| done] |];
    injection E as <- <-; (split; [done |]; exists o, n, rest; done).
Qed.

Lemma rpass_remove_scheduled s t t' v a b o n rest : policy cfg = PRIORITY -> rpass [] (s, t) -> running s = a ++ v :: b -> v ∈ st_running t ->
  objs s !! v = Some o -> remove_first v (st_running t) = Ok rest -> od_get (request_id (rq o)) (st_tokens t) = Some n ->
  st_tokens t' = od_del (request_id (rq o)) (st_tokens t) -> st_budget t' = st_budget t + n -> st_index t' = st_index t - 1 ->
  st_running t' = rest -> st_new t' = st_new t -> st_resumed t' = st_resumed t -> st_skipped t' = st_skipped t ->
  st_preempted t' = st_preempted t ->
  rpass [v] (with_running (a ++ b) s, t') /\ forall i m, cur i m (s, t) -> i <> v -> cur i m (with_running (a ++ b) s, t').
Proof.
  intros Hpol Hr E Hv Ho Hrm Hg Ht Hb Hi Hrun Hnew Hres Hsk Hpre.
  pose proof Hr as [H1 H2 H3 H4 H5 H6 H7 H8 H9 H10]; simpl in *.
  assert (v ∈ L0) as HvL by (apply (pass_in_running _ _ v H1); simpl; rewrite E; set_solver).
  assert (request_id (rq o) = name v) as Hname by (by eapply pass_ids).
  apply remove_first_split in Hrm as (c & d & Ec & Erest). assert (st_running t ≡ₚ v :: st_running t') as Hperm.
  { rewrite Ec, Hrun, Erest. symmetry. apply Permutation_middle. }
  assert (length a < idx t)%nat as Hlen.
  { destruct (Nat.lt_ge_cases (length a) (idx t)) as [? | Hge]; [done |]. destruct (H5 v Hv). rewrite E, drop_app_le by done.
    rewrite elem_of_app. right. left. }
  assert (drop (idx t') (a ++ b) = drop (idx t) (running s)) as Hdrop.
  { unfold idx in *. rewrite E, Hi. rewrite !drop_app_ge by lia.
    replace (Z.to_nat (st_index t) - length a)%nat with (S (Z.to_nat (st_index t - 1) - length a)) by lia. done. }
  split; [split; simpl |].
  - eapply (pass_ungrant [v] (with_running (a ++ b) s) t t' v n); [by apply pass_remove | | by rewrite <- Hname | by rewrite <- Hname | done | done].
    unfold scheduled. rewrite Hperm, Hnew, Hres. done.
  - by rewrite Hnew.
  - by rewrite Hres.
  - unfold idx in Hlen. lia.
  - intros i Hin. rewrite Hdrop. apply H5. rewrite Hperm. by right.
  - intros i. rewrite Hdrop. apply H6.
  - intros _ i Hin. destruct H1 as [_ _ _ Hnd _ _ _ _]. unfold scheduled in Hnd. simpl in Hnd. rewrite H2, H3, app_nil_r, Hperm in Hnd.
    apply NoDup_cons in Hnd as [Hnv _]. assert (i ∈ running s) as Hir by (apply H7; [left; by left | rewrite Hperm; by right]).
    rewrite E, elem_of_app, elem_of_cons in Hir. rewrite elem_of_app. naive_solver.
  - intros Hn i Hin. apply H8; [done |]. rewrite E, elem_of_app, elem_of_cons. rewrite elem_of_app in Hin. naive_solver.
  - unfold zlen in *. rewrite E in H9. rewrite length_app in *. simpl in *. lia.
  - by rewrite Hsk.
  - intros i m [C1 C2 C3 C4 C5] Hne; simpl in *. rewrite E in *. split; simpl.
    + rewrite elem_of_app, elem_of_cons in C1. rewrite elem_of_app. naive_solver.
    + rewrite Hrun, Erest. rewrite Ec in C2. rewrite elem_of_app, elem_of_cons in C2. rewrite elem_of_app. tauto.
    + unfold idx in *. rewrite Hi. replace (S (Z.to_nat (st_index t - 1))) with (Z.to_nat (st_index t)) by lia.
      rewrite take_app_ge in C3 |- * by lia.
      replace (S (Z.to_nat (st_index t)) - length a)%nat with (S (Z.to_nat (st_index t) - length a)) in C3 by lia.
      simpl in C3. rewrite elem_of_app, elem_of_cons in C3. rewrite elem_of_app. naive_solver.
    + intros _ ?. congruence.
    + destruct H1 as [_ _ _ _ _ Hpos _ _]. rewrite (od_del_perm _ _ _ Hg) in Hpos. apply Forall_cons in Hpos as [Hpos _]. simpl in Hpos. lia.
Qed.

(** *** Choosing and preempting a request *)
Lemma pop_last_all (f : Z -> bool) (l : list Z) : (forall x : Z, x ∈ l -> f x = true) -> forall v k, pop_last_if f l = Some (v, k) -> l = k ++ [v].
Proof.
  induction l as [|y l IH]; intros Hf v k; simpl; [done |]. destruct (pop_last_if f l) as [[v' k']|] eqn:E.
  - intros [= <- <-]. simpl. f_equal. apply IH; [intros; apply Hf; by right | done].
  - rewrite Hf by left. intros [= <- <-]. destruct l as [|z l]; [done |]. simpl in E. destruct (pop_last_if f l) as [[]|]; [done |].
    rewrite Hf in E by (right; left). done.
Qed.

Lemma fcfs_last_unscheduled s t i n a v : rpass [] (s, t) -> cur i n (s, t) -> policy cfg = FCFS -> running s = a ++ [v] ->
  good -> v ∉ st_running t.
Proof.
  intros Hr Hc Hpol E [? | Hn] Hv; [congruence |]. apply (rp_after _ _ Hr v Hv). pose proof (c_fcfs _ _ _ Hc Hn Hpol) as Hi. simpl in *.
  rewrite E in *. rewrite drop_app, elem_of_app in *.
  destruct (decide (idx t <= length a)%nat) as [Hle | Hgt].
  - right. replace (idx t - length a)%nat with 0%nat by lia. left.
  - destruct Hi as [Hi | Hi]; [rewrite drop_ge in Hi by lia; by apply elem_of_nil in Hi |].
    replace (idx t - length a)%nat with (S (idx t - length a - 1)) in Hi by lia. simpl in Hi. rewrite drop_nil in Hi.
    by apply elem_of_nil in Hi.
Qed.

Lemma fcfs_victim s t i n a v b : rpass [] (s, t) -> cur i n (s, t) -> policy cfg = FCFS -> running s = a ++ v :: b -> (NoLong -> b = []) ->
  rpass [v] (with_running (a ++ b) s, t) /\ (v <> i -> cur i n (with_running (a ++ b) s, t)).
Proof.
  intros Hr Hc Hpol E Hb. split.
  - apply rpass_remove; [done | done |]. intros Hg. assert (b = []) as -> by (apply Hb; destruct Hg; [congruence | done]).
    by eapply fcfs_last_unscheduled.
  - intros Hne. eapply cur_remove; [done | done | congruence | auto].
Qed.

Lemma pick_victim_spec i n : hoare (fun x => rpass [] x /\ cur i n x) (pick_victim cfg) (fun v x => rpass [v] x /\ (v <> i -> cur i n x)).
Proof.
  intros [s t] [Hr Hc]. unfold pick_victim. unfold bind at 1, get. cbn [fst snd]. destruct (policy cfg) eqn:Hpol.
  - destruct (pop_last_if _ (running s)) as [[v rest]|] eqn:Ep.
    + cbn. destruct (pop_last_if_split _ _ _ _ Ep) as (a & b & E & ->). apply fcfs_victim; [done | done | done | done |].
      intros Hn. apply pop_last_all in Ep.
      * rewrite E, <- app_assoc in Ep. apply app_inv_head in Ep. destruct b as [|z b]; [done |]. injection Ep as <- _.
        pose proof (pass_running_nodup _ _ (rp_pass _ _ Hr)) as Hnd. simpl in Hnd. rewrite E, NoDup_app, !NoDup_cons, elem_of_cons in Hnd. tauto.
      * intros j Hj. pose proof (rp_long _ _ Hr Hn j Hj) as Hl. unfold _is_nelssa_preempt_protected. simpl in Hl. by rewrite Hl.
    + destruct (last (running s)) as [v|] eqn:El; [| done]. cbn. destruct (take_last_split _ _ El) as (a & E & ->).
      rewrite <- (app_nil_r a). by apply fcfs_victim.
  - set (pick := match filter _ _ with [] => _ | _ => _ end). unfold bind at 1. destruct (pick (s, t)) as [[v|e] x] eqn:Ev; [| done].
    assert (x = (s, t)) as -> by (unfold pick in Ev; destruct (filter _ _); [destruct (running s) |]; try done; by injection Ev).
    unfold bind at 1, lift. destruct (remove_first v (running s)) as [rest|] eqn:Er; [| done].
    unfold bind at 1, sch at 1, zoom, modify. cbn [fst snd]. destruct (remove_first_split _ _ _ Er) as (a & b & E & ->).
    case_bool_decide as Hv.
    + unfold bind. destruct (unschedule v _) as [[[]|e] [s' t']] eqn:Eu; [| done]. cbn.
      apply unschedule_run in Eu as (-> & o & k & rest & G1 & G2 & G3 & G4 & G5 & G6 & G7 & G8 & G9 & G10 & G11).
      destruct (rpass_remove_scheduled s t t' v a b o k rest) as [P1 P2]; try done. split; [done |]. intros Hne. apply P2; congruence.
    + cbn. split; [by apply rpass_remove |]. intros Hne. eapply cur_remove; [done | done | congruence |]. intros _ ?. congruence.
Qed.

Lemma pass_miss_fresh v x : pass [v] x -> v ∉ running x.1.
Proof.
  intros Hp. assert (NoDup ([v] ++ refs x.1 ++ qitems (st_skipped x.2))) as Hn by (by rewrite (p_refs _ _ Hp)).
  apply NoDup_cons in Hn as [Hn _]. unfold refs in Hn. rewrite !elem_of_app in Hn. tauto.
Qed.

(** Calls that change request [v] only and put it into the waiting queue. *)
Definition pushes (v : Z) (f : SM W unit) : Prop := forall s s', f s = (Ok tt, s') ->
  exists s1 q, near v s s1 /\ s' = with_waiting q s1 /\ qitems q ≡ₚ v :: qitems (waiting s1).
Lemma pushes_bind {A} v (f : SM W A) k : quiet_at v f -> (forall a, pushes v (k a)) -> pushes v (bind f k).
Proof.
  intros Hf Hk s s'. unfold bind. specialize (Hf s). destruct (f s) as [[a|e] s0]; [| done].
  intros (s1 & q & Hn & Hq)%Hk. exists s1, q. split; [by transitivity s0 | done].
Qed.

Lemma preempt_run v : pushes v (_preempt_request v).
Proof.
  unfold _preempt_request, set_state.
  repeat (apply pushes_bind; [first [apply quiet_at_set_rq; done | apply quiet_quiet_at; eauto with quiet] | intros ?]).
  intros s1 s2. unfold on_queue. simpl. destruct (any_op _ _ (waiting s1)) as [r q] eqn:E. intros [= -> <-]. exists s1, q.
  split; [done |]. split; [done |]. by eapply (qitems_prepend (deref s1)).
Qed.

Lemma preempt_spec i n v : hoare (fun x => rpass [v] x /\ (v <> i -> cur i n x))
  (sch (_preempt_request v) ;;; stp (fun t => set_preempted (st_preempted t ++ [v]) t)) (fun _ x => rpass [] x /\ (v <> i -> cur i n x)).
Proof.
  intros [s t] [Hr Hc]. unfold bind, sch, zoom. cbn [fst]. destruct (_preempt_request v s) as [[[]|e] s'] eqn:Ep; [| done]. cbn.
  apply preempt_run in Ep as (s1 & q & Hn & -> & Hq). pose proof (pass_miss_fresh _ _ (rp_pass _ _ Hr)) as Hv.
  assert (rpass [v] (s1, t)) as Hr1.
  { eapply rpass_near; [done | done |]. intros Hd. apply Hv. simpl. eapply elem_of_submseteq; [exact Hd | apply sublist_submseteq, sublist_drop]. }
  destruct Hr1 as [H1 H2 H3 H4 H5 H6 H7 H8 H9 H10]; simpl in *. split.
  - split; simpl; try done; [| intros [Hg | [Hp _]]; [apply H7; auto | by destruct (st_preempted t)]].
    destruct H1 as [G1 G2 G3 G4 G5 G6 G7 G8]. split; simpl in *; try done. rewrite <- G1. unfold refs. simpl. rewrite Hq. solve_Permutation.
  - intros Hne. destruct (Hc Hne) as [C1 C2 C3 C4 C5]. simpl in *. rewrite <- (nr_running _ _ _ Hn) in C1, C3, C4. by split.
Qed.

Lemma cur_frame i n s s' t : cur i n (s, t) -> frame core s s' -> cur i n (s', t).
Proof. intros Hc Hf. eapply cur_running; [done | apply Hf]. Qed.

Lemma alloc_or_preempt_spec fuel i n : hoare (fun x => rpass [] x /\ cur i n x) (alloc_or_preempt cfg sha256 fuel i n)
  (fun b x => rpass [] x /\ (b <> None -> cur i n x)).
Proof.
  induction fuel as [|fuel IH]; cbn [alloc_or_preempt]; [apply hoare_raise |].
  eapply hoare_bind; [apply (hoare_sch core); [apply quiet_alloc_slots; apply _ |] |].
  - intros s s' t [Hr Hc] Hf. split; [by eapply rpass_frame | by eapply cur_frame].
  - intros [b|]; [apply hoare_ret; naive_solver |]. eapply hoare_bind; [apply pick_victim_spec |]. intros v.
    apply hoare_assoc. eapply hoare_bind; [apply preempt_spec |]. intros []. destruct (Z.eqb_spec v i) as [-> | Hne].
    + apply hoare_ret. naive_solver.
    + eapply hoare_pre; [apply IH |]. naive_solver.
Qed.

(** *** One round of the pass *)
Lemma rpass_schedule s t i n b rid : rpass [] (s, t) -> cur i n (s, t) -> 0 < n -> rid = name i ->
  rpass [] (s, set_index (st_index t + 1) (set_grant b (od_set rid n (st_tokens t)) (st_budget t - n) (set_sched_running (st_running t ++ [i]) t))).
Proof.
  intros Hr Hc Hn ->. pose proof (rpass_scheduled _ _ Hr) as Hs. pose proof (pass_running_nodup _ _ (rp_pass _ _ Hr)) as Hnd.
  pose proof (pass_in_running _ _ i (rp_pass _ _ Hr) (c_in _ _ _ Hc)) as HiL. simpl in *.
  destruct Hr as [H1 H2 H3 H4 H5 H6 H7 H8 H9 H10], Hc as [C1 C2 C3 C4 C5]; simpl in *.
  assert (idx (set_index (st_index t + 1) t) = S (idx t)) as Eidx by (unfold idx; simpl; lia). unfold idx in Eidx. simpl in Eidx.
  assert (forall j, j ∈ drop (S (idx t)) (running s) -> j ∈ drop (idx t) (running s)) as Hsub.
  { intros j Hj. replace (S (idx t)) with (idx t + 1)%nat in Hj by lia. rewrite <- drop_drop in Hj.
    eapply elem_of_submseteq; [exact Hj | apply sublist_submseteq, sublist_drop]. }
  split; unfold idx; simpl; rewrite ?Eidx; try done.
  - eapply (pass_grant [] s t _ i n); [done | done | by rewrite Hs | lia | | done | done | done].
    unfold scheduled. simpl. rewrite H2, H3, !app_nil_r. symmetry. apply Permutation_cons_append.
  - lia.
  - intros j [Hj | ->%list_elem_of_singleton]%elem_of_app Hd; [exact (H5 j Hj (Hsub j Hd)) |].
    rewrite <- (take_drop (S (idx t)) (running s)) in Hnd. apply NoDup_app in Hnd as (_ & Hnd & _). exact (Hnd i C3 Hd).
  - intros j Hj. apply H6. by apply Hsub.
  - intros Hg j [Hj | ->%list_elem_of_singleton]%elem_of_app; [by apply H7 | done].
Qed.

Lemma rpass_step miss s t t' : rpass miss (s, t) -> st_running t' = st_running t -> st_new t' = st_new t -> st_resumed t' = st_resumed t ->
  st_preempted t' = st_preempted t -> st_tokens t' = st_tokens t -> st_budget t' = st_budget t -> st_skipped t' = st_skipped t ->
  st_index t <= st_index t' -> rpass miss (s, t').
Proof.
  intros [H1 H2 H3 H4 H5 H6 H7 H8 H9 H10] E1 E2 E3 E4 E5 E6 E7 E8; simpl in *.
  assert (forall j, j ∈ drop (idx t') (running s) -> j ∈ drop (idx t) (running s)) as Hsub.
  { intros j Hj. unfold idx in *. replace (Z.to_nat (st_index t')) with (Z.to_nat (st_index t) + Z.to_nat (st_index t' - st_index t))%nat in Hj by lia.
    rewrite <- drop_drop in Hj. eapply elem_of_submseteq; [exact Hj | apply sublist_submseteq, sublist_drop]. }
  split; simpl; rewrite ?E1, ?E2, ?E3, ?E4, ?E7; try done; [| lia | intros i Hi Hd; exact (H5 i Hi (Hsub i Hd)) | intros i Hi; apply H6; auto].
  apply (pass_step miss s t); [done | | done | done | done]. unfold scheduled. by rewrite E1, E2, E3.
Qed.

Lemma hoare_stp (P Q : SS -> Prop) f : (forall s t, P (s, t) -> Q (s, f t)) -> hoare P (stp f) (fun _ => Q).
Proof. intros H0 [s t] Hp. by apply H0. Qed.

Lemma hoare_obj (P : SS -> Prop) i : hoare P (sch (obj i)) (fun o x => P x /\ objs x.1 !! i = Some o).
Proof. intros [s t] Hp. unfold sch, zoom, obj. cbn. destruct (objs s !! i) eqn:E; done. Qed.

Lemma record_encoder_spec (P : SS -> Prop) i rid inputs nb ext : (forall s s' t, P (s, t) -> frame core s s' -> P (s', t)) ->
  (forall s t a b, P (s, t) -> P (s, set_enc a b t)) -> hoare P (record_encoder i rid inputs nb ext) (fun _ => P).
Proof.
  intros Hf He. unfold record_encoder. eapply (hoare_bind _ _ (fun _ => P)).
  - destruct inputs as [[|z l]|]; try by apply hoare_ret. eapply hoare_bind; [by apply hoare_stp; intros; apply He | intros []].
    eapply hoare_bind; [apply (hoare_sch core); [apply quiet_alloc_encoder | done] | intros []]. apply hoare_stp. auto.
  - intros []. apply (hoare_sch core); [apply quiet_alloc_encoder | done].
Qed.

Lemma take_spec_spec i n : hoare (fun x => rpass [] x /\ i ∉ drop (idx x.2) (running x.1)) (take_spec i n) (fun _ => rpass []).
Proof.
  unfold take_spec. eapply hoare_bind; [apply hoare_obj |]. intros o. destruct (spec_token_ids (rq o)) as [|z l]; [apply hoare_ret; naive_solver |].
  eapply (hoare_bind _ _ (fun _ x => rpass [] x /\ i ∉ drop (idx x.2) (running x.1))).
  - destruct (0 <? _); [| apply hoare_ret; naive_solver]. apply hoare_stp. intros s t [[Hr Hi] _]. split; [| done].
    eapply rpass_step; [exact Hr | try done ..]; simpl; lia.
  - intros _ [s t] [Hr Hi]. cbn. eapply (rpass_near [] i); [exact Hr | | done].
    apply (quiet_at_set_rq i (with_spec []) (fun o => eq_refl) s).
Qed.

Hypothesis Hcbs : 0 < cache_block_size cfg.

Lemma hoare_sch_returns {A X} (π : SchedRequest -> X) (P : SS -> Prop) (R : A -> Prop) (f : SM W A) : quiet π f -> returns R f ->
  (forall s s' t, P (s, t) -> frame π s s' -> P (s', t)) -> hoare P (sch f) (fun a x => R a /\ P x).
Proof.
  intros Hf Hr HP [s t] Hs. unfold sch, zoom. simpl. specialize (Hf s). specialize (Hr s I).
  destruct (f s) as [[a|e] s']; [split; [done | by eapply HP] | done].
Qed.

(** The number of tokens after the encoder inputs and the block alignment are considered. *)
Lemma running_enc_spec (P : SS -> Prop) r n0 eb : 0 <= n0 -> (forall s s' t, P (s, t) -> frame core s s' -> P (s', t)) ->
  hoare P (if has_encoder_inputs r
           then let* e := sch (_try_schedule_encoder_inputs cfg r (num_computed_tokens r) n0 eb (shift_tokens cfg)) in
                ret (Some e.1.1.1, e.1.1.2, e.1.2, e.2)
           else ret (None, n0, eb, []))
    (fun e x => 0 <= e.1.1.2 <= n0 /\ P x).
Proof.
  intros Hn Hf. destruct (has_encoder_inputs r).
  - eapply hoare_bind; [apply (hoare_sch_returns core P (fun e => 0 <= e.1.1.2 <= n0)); [apply quiet_try_encoder | | done] |].
    + apply try_encoder_tokens; [apply shift_nonneg | done].
    + intros e. by apply hoare_ret.
  - apply hoare_ret. simpl. intros x Hx. split; [lia | done].
Qed.

Lemma schedule_running_spec i n b inputs nb ext : 0 < n ->
  hoare (fun x => rpass [] x /\ cur i n x) (schedule_running i (name i) b n inputs nb ext) (fun _ => rpass []).
Proof.
  intros Hn. unfold schedule_running. apply hoare_assoc, hoare_assoc.
  eapply (hoare_bind _ _ (fun _ y => rpass [] y /\ i ∉ drop (idx y.2) (running y.1))).
  - intros [s t] [P1 P2]. cbn. pose proof (rpass_schedule s t i n (od_set (name i) b (st_blocks t)) (name i) P1 P2 Hn eq_refl) as P3.
    split; [exact P3 |]. apply (rp_after _ _ P3 i). simpl. rewrite elem_of_app. right. left.
  - intros []. eapply hoare_bind; [apply take_spec_spec |]. intros []. apply record_encoder_spec.
    + intros s s' t P1 Hf. by eapply rpass_frame.
    + intros s t u v P1. eapply rpass_step; [exact P1 | try done ..]; simpl; lia.
Qed.

Lemma running_step_spec :
  hoare (fun x => rpass [] x /\ st_index x.2 < zlen (running x.1) /\ 0 < st_budget x.2) (running_step cfg sha256) (fun _ => rpass []).
Proof.
  intros x0 (Hr0 & Hidx & Hb). pose (P := fun x => rpass [] x /\ running x.1 = running x0.1 /\ x.2 = x0.2).
  assert (hoare P (running_step cfg sha256) (fun _ => rpass [])) as Hgoal; [| by apply Hgoal].
  assert (forall s s' t, P (s, t) -> frame core s s' -> P (s', t)) as HP.
  { intros s s' t (P1 & P2 & P3) Hf. split; [by eapply rpass_frame | split; [rewrite <- P2; apply Hf | done]]. }
  assert (hoare P (skip_index ;;; ret Next) (fun _ => rpass [])) as Hskip.
  { intros [s t] (P1 & _). eapply rpass_step; [exact P1 | try done ..]. simpl. lia. }
  unfold running_step. eapply hoare_bind; [apply (hoare_get P (fun x y => P y /\ x = y)); done |]. intros x.
  eapply (hoare_pre (fun y => P x /\ P y)); [| intros y [Hy ->]; done]. apply hoare_pull. intros (Hr & Ex1 & Ex2).
  rewrite Ex1, Ex2. eapply hoare_bind; [apply hoare_lift |]. intros i. cbn beta.
  eapply (hoare_pre (fun y => py_index (running x0.1) (st_index x0.2) = Ok i /\ P y)); [| tauto]. apply hoare_pull. intros Hi.
  assert (running x0.1 !! idx x0.2 = Some i) as Hlook.
  { unfold py_index in Hi. pose proof (rp_idx _ _ Hr0). destruct (Z.ltb_spec (st_index x0.2) 0); [lia |].
    destruct (_ <? 0); [done |]. unfold idx. destruct (_ !! _); congruence. }
  assert (i ∈ drop (idx x0.2) (running x0.1)) as Hdrop by (rewrite (drop_S _ i) by done; left).
  eapply hoare_bind; [apply hoare_obj |]. intros o. cbn beta.
  eapply (hoare_pre (fun y => (ready cfg o /\ request_id (rq o) = name i) /\ P y)).
  2: { intros [s t] [(P1 & P2 & P3) Ho]. simpl in *. rewrite P3 in *. split; [| done]. split.
       - destruct (rp_ready _ _ P1 i) as (o' & Ho' & Hready); simpl; [by rewrite P2 |]. simpl in Ho'. congruence.
       - eapply pass_ids; [apply P1 | | done]. eapply (pass_in_running [] x0); [apply Hr0 |]. by apply list_elem_of_lookup_2 in Hlook. }
  apply hoare_pull. intros [Hready Hrid]. destruct (_ && (_ <=? _)); [done |].
  pose proof (running_tokens_bounds cfg o (st_budget x0.2) Hready Hb) as Hn0.
  eapply hoare_bind; [by apply (running_enc_spec P); [lia |] |]. intros [[[inputs n1] nb] ext]. simpl. apply hoare_pull. intros Hn1.
  eapply (hoare_bind _ _ (fun n y => 0 <= n <= n1 /\ P y)).
  { destruct (need_mamba_block_aligned_split cfg); [| apply hoare_ret; split; [lia | done]].
    eapply hoare_weaken; [apply hoare_lift | done |]. intros n y [Hy Hn]. split; [| done]. eapply mamba_split_tokens; [done | lia | done]. }
  intros n. apply hoare_pull. intros Hn. destruct (Z.eqb_spec n 0) as [_ | Hnz]; [done |].
  eapply hoare_bind; [eapply hoare_pre; [apply (alloc_or_preempt_spec _ i n) |] |].
  - intros [s t] (P1 & P2 & P3). split; [done |]. simpl in *. subst t. split; simpl; rewrite ?P2.
    + by apply list_elem_of_lookup_2 in Hlook.
    + intros Hin. apply (rp_after _ _ Hr0 i Hin). done.
    + erewrite take_S_r by done. rewrite elem_of_app. right. left.
    + done.
    + lia.
  - intros [b|]; [| apply hoare_ret; naive_solver]. rewrite Hrid.
    eapply hoare_bind; [eapply hoare_pre; [apply (schedule_running_spec i n); lia |] | intros []; by apply hoare_ret]. naive_solver.
Qed.

Lemma running_loop_spec fuel : hoare (rpass []) (running_loop cfg sha256 fuel) (fun _ => rpass []).
Proof.
  induction fuel as [|fuel IH]; cbn [running_loop].
  all: eapply hoare_bind; [apply (hoare_get _ (fun x y => rpass [] y /\ x = y)); done |]; intros x.
  all: destruct (_ && _) eqn:E; [| apply hoare_ret; naive_solver].
  - apply hoare_raise.
  - apply andb_true_iff in E as [E1 E2]. zbool. eapply hoare_bind.
    + eapply hoare_pre; [apply running_step_spec |]. intros y [Hy ->]. done.
    + intros []; [apply IH | by apply hoare_ret].
Qed.

(** ** The pass over the waiting requests *)
Record wpass (miss : list Z) x : Prop := {
  wp_pass : pass miss x;
  wp_sub i : i ∈ scheduled x.2 -> i ∈ running x.1;
  wp_run : zlen (running x.1) <= max_num_running_reqs cfg;
}.

Lemma wpass_frame miss s s' t : wpass miss (s, t) -> frame oid_of s s' -> wpass miss (s', t).
Proof.
  intros [H1 H2 H3] [F1 F2 F3 F4]. split; simpl in *; rewrite ?F1; try done.
  apply (pass_objs _ s); [done | done |]. unfold refs. by rewrite F1, F2, F3.
Qed.

(** Taking a request out of a queue. *)
Lemma pop_spec n s t i s' : on_queue n (fun st => pop_request (RequestQueue := any_queue st)) s = (Ok i, s') -> wpass [] (s, t) ->
  wpass [i] (s', t) /\ running s' = running s.
Proof.
  unfold on_queue. destruct (pop_request _) as [r q] eqn:E. intros [= -> <-] [[G1 G2 G3 G4 G5 G6 G7 G8] H2 H3].
  apply qitems_pop in E. simpl in *. split; [| by destruct n].
  split; [split | |]; simpl; try (by destruct n); try done.
  rewrite <- G1. unfold refs. destruct n; simpl in *; rewrite E; solve_Permutation.
Qed.

Lemma wpass_skip s t i q r store : wpass [i] (s, t) -> prepend_request (RequestQueue := any_queue store) i (st_skipped t) = (r, q) ->
  wpass [] (s, set_step_skipped q t).
Proof.
  intros [[G1 G2 G3 G4 G5 G6 G7 G8] H2 H3] E%qitems_prepend. simpl in *. split; [split | |]; simpl in *; try done.
  rewrite <- G1, E. solve_Permutation.
Qed.

Lemma skip_request_spec n : hoare (wpass []) (skip_request n) (fun _ => wpass []).
Proof.
  intros [s t] Hw. unfold skip_request, bind, sch, zoom, get, lift. cbn [fst snd].
  destruct (on_queue n _ s) as [[i|e] s'] eqn:E; [| done]. destruct (pop_spec n s t i s' E Hw) as [Hw' _].
  destruct (prepend_request _ _) as [[a|e] q] eqn:Ep; [| done]. cbn. by eapply wpass_skip.
Qed.

(** Admitting a request. *)
Lemma wpass_run s t i : wpass [i] (s, t) -> zlen (running s) < max_num_running_reqs cfg ->
  wpass [] (with_running (running s ++ [i]) s, t) /\ i ∉ scheduled t /\ i ∈ L0.
Proof.
  intros Hw Hlt. pose proof (pass_miss_fresh _ _ (wp_pass _ _ Hw)) as Hi. destruct Hw as [[G1 G2 G3 G4 G5 G6 G7 G8] H2 H3]. simpl in *.
  split; [split; [split | |] |]; simpl in *; try done.
  - rewrite <- G1. unfold refs. simpl. solve_Permutation.
  - intros j Hj. rewrite elem_of_app. auto.
  - unfold zlen in *. rewrite length_app. simpl. lia.
  - split; [intros Hs; apply Hi; auto |]. rewrite <- G1. left.
Qed.

(** The step in which request [i] is listed but has no tokens yet. *)
Definition listed (i n : Z) x : Prop := exists t, wpass [] (x.1, t) /\ i ∈ running x.1 /\ i ∈ L0 /\ (i ∉ scheduled t) /\ 0 < n <= st_budget t /\
  scheduled x.2 ≡ₚ i :: scheduled t /\ st_tokens x.2 = st_tokens t /\ st_budget x.2 = st_budget t /\ st_skipped x.2 = st_skipped t.

Lemma listed_grant i n s t b : listed i n (s, t) -> wpass [] (s, set_grant b (od_set (name i) n (st_tokens t)) (st_budget t - n) t).
Proof.
  intros (t0 & [Hp Hs Hr] & Hrun & HiL & Hi & Hn & E1 & E2 & E3 & E4). simpl in *. split; simpl.
  - eapply (pass_grant [] s t0 _ i n); [done | done | done | done | exact E1 | simpl; by rewrite E2 | simpl; by rewrite E3 | done].
  - intros j. change (scheduled (set_grant _ _ _ t)) with (scheduled t). rewrite E1, elem_of_cons. intros [-> | Hj]; auto.
  - done.
Qed.

Lemma admit_request_spec qn i0 n computed inputs nb ext async :
  hoare (fun x => wpass [] x /\ zlen (running x.1) < max_num_running_reqs cfg /\ (async = false -> 0 < n <= st_budget x.2))
    (admit_request cfg qn i0 n computed inputs nb ext async) (fun _ => wpass []).
Proof.
  unfold admit_request.
  eapply (hoare_bind _ _ (fun i x => wpass [i] x /\ zlen (running x.1) < max_num_running_reqs cfg /\ (async = false -> 0 < n <= st_budget x.2))).
  { intros [s t] (Hw & Hlt & Hn). unfold sch, zoom. cbn [fst snd]. destruct (on_queue qn _ s) as [[i|e] s'] eqn:E; [| done].
    destruct (pop_spec qn s t i s' E Hw) as [Hw' Er]. simpl in *. by rewrite Er. }
  intros i. destruct async.
  - eapply (hoare_bind _ _ (fun _ => wpass [i])).
    { eapply hoare_pre; [apply (hoare_sch oid_of); [apply quiet_set_state; apply _ | apply wpass_frame] | tauto]. }
    intros []. intros [s t] Hw. unfold bind, get, lift. cbn [fst snd]. destruct (prepend_request _ _) as [[a|e] q] eqn:Ep; [| done].
    cbn. eapply wpass_frame; [by eapply wpass_skip |]. apply (quiet_set_rq oid_of i (with_computed computed)). done.
  - eapply (hoare_bind _ _ (fun _ x => (wpass [] x /\ 0 < n <= st_budget x.2) /\ i ∈ running x.1 /\ (i ∉ scheduled x.2) /\ i ∈ L0)).
    { intros [s t] (Hw & Hlt & Hn). cbn. destruct (wpass_run s t i Hw Hlt) as (G1 & G2 & G3). split_and!; try done; try (by apply Hn).
      rewrite elem_of_app. right. left. }
    intros []. eapply hoare_bind; [apply hoare_obj |]. intros o. cbn beta.
    eapply (hoare_bind _ _ (fun _ x => listed i n x /\ request_id (rq o) = name i)).
    { eapply (hoare_pre (fun x => listed i n (x.1, set_new (st_new x.2 ++ [i]) x.2) /\ listed i n (x.1, set_resumed (st_resumed x.2 ++ [i]) x.2) /\ request_id (rq o) = name i)).
      - destruct (status (rq o)); try apply hoare_raise; apply hoare_stp; naive_solver.
      - intros [s t] (((Hw & Hn) & Hrun & Hs & HL) & Ho). simpl in *.
        split; [| split; [| eapply pass_ids; [apply Hw | done | done]]]; exists t; (split_and!; try done; try lia); unfold scheduled; simpl; solve_Permutation. }
    intros []. eapply (hoare_bind _ _ (fun _ x => listed i n x /\ request_id (rq o) = name i)).
    { destruct (max_loras cfg); [destruct (lora_request (rq o)) |]; try (by apply hoare_ret). apply hoare_stp. done. }
    intros []. eapply hoare_bind; [apply (hoare_get _ (fun _ x => listed i n x /\ request_id (rq o) = name i)); done |]. intros x.
    eapply (hoare_bind _ _ (fun _ => wpass [])).
    { apply hoare_stp. intros s t [Hl ->]. by apply listed_grant. }
    intros []. eapply (hoare_bind _ _ (fun _ => wpass [])); [apply (hoare_sch oid_of); [apply quiet_set_state; apply _ | apply wpass_frame] |].
    intros []. eapply (hoare_bind _ _ (fun _ => wpass [])); [apply (hoare_sch oid_of); [by apply quiet_set_rq | apply wpass_frame] |].
    intros []. apply record_encoder_spec.
    + intros s s' t Hw Hf. eapply wpass_frame; [done |]. destruct Hf as [F1 F2 F3 F4]. split; try done. intros j. specialize (F4 j).
      destruct (objs s' !! j), (objs s !! j); simpl in *; try done. f_equal. apply (f_equal (fmap oid_of)) in F4. by injection F4.
    + intros s t u v [[G1 G2 G3 G4 G5 G6 G7 G8] H2 H3]. done.
Qed.

Lemma waiting_tokens_returns i c l e a t : 0 < st_budget t ->
  returns (fun w => match w with Some w => a = false -> 0 < w.1.1.2 <= st_budget t | None => True end) (waiting_tokens (W := W) cfg i c l e a t).
Proof.
  intros Hb. unfold waiting_tokens. eapply returns_bind; [apply returns_any | intros o _]. cbv zeta.
  eapply (returns_bind (fun w : option (option (list Z) * Z * Z * list Z) =>
    match w with Some w => if a then w.1.1.2 = 0 else 0 < w.1.1.2 <= st_budget t | None => True end)).
  - destruct a; [eapply returns_bind; [apply returns_any | intros; by apply returns_ret] |].
    set (n := if (0 <? long_prefill_token_threshold cfg) && _ then _ else _). destruct (_ && (_ <? n)); [by apply returns_ret |].
    intros s _. unfold bind at 1, assert. destruct (Z.ltb_spec 0 (Z.min n (st_budget t))) as [Hn | _]; [| done]. cbn.
    destruct (has_encoder_inputs (rq o)); [| simpl; lia]. unfold bind.
    pose proof (try_encoder_tokens (W := W) cfg (rq o) c (Z.min n (st_budget t)) (st_enc_budget t) _ (shift_nonneg cfg) ltac:(lia) s I) as He.
    destruct (_try_schedule_encoder_inputs _ _ _ _ _ _ s) as [[w|] s']; [| done].
    destruct (Z.eqb_spec w.1.1.2 0); simpl; [done | lia].
  - intros [[[[inputs n] nb] ext]|] Hw; [| by apply returns_ret]. simpl in Hw.
    destruct (need_mamba_block_aligned_split cfg); [| apply returns_ret; by intros ->]. intros s _. unfold bind, lift.
    destruct (_mamba_block_aligned_split _ _ _ _ _) as [m|] eqn:Em; [| done]. apply mamba_split_tokens in Em; [| done | destruct a; lia].
    destruct (Z.eqb_spec m 0); simpl; [done |]. intros ->. lia.
Qed.


Lemma waiting_step_spec : hoare (fun x => wpass [] x /\ 0 < st_budget x.2) (waiting_step cfg sha256) (fun _ => wpass []).
Proof.
  intros x0 [Hw0 Hb]. pose (P := fun x => wpass [] x /\ running x.1 = running x0.1 /\ x.2 = x0.2).
  assert (hoare P (waiting_step cfg sha256) (fun _ => wpass [])) as Hgoal; [| by apply Hgoal].
  assert (forall s s' t, P (s, t) -> frame oid_of s s' -> P (s', t)) as HP.
  { intros s s' t (P1 & P2 & P3) Hf. split; [by eapply wpass_frame | split; [rewrite <- P2; apply Hf | done]]. }
  assert (forall A (f : SM W A), quiet oid_of f -> hoare P (sch f) (fun _ => P)) as Hq by (intros A f Hf; by apply (hoare_sch oid_of)).
  assert (forall qn, hoare P (skip_request qn ;;; ret Next) (fun _ => wpass [])) as Hskip.
  { intros qn. eapply hoare_bind; [eapply hoare_pre; [apply skip_request_spec | by intros y []] | intros []; by apply hoare_ret]. }
  unfold waiting_step. eapply hoare_bind; [apply (hoare_get P (fun x y => P y /\ x = y)); done |]. intros x.
  eapply (hoare_pre (fun y => P x /\ P y)); [| intros y [Hy ->]; done]. apply hoare_pull. intros (Hr & Ex1 & Ex2).
  rewrite Ex1, Ex2. destruct (Z.eqb_spec (zlen (running x0.1)) (max_num_running_reqs cfg)) as [_ | Hne]; [apply hoare_ret; by intros y [] |].
  pose proof (wp_run _ _ Hw0) as Hrun0.
  eapply hoare_bind; [apply Hq, quiet_select |]. intros [qn|]; [| apply hoare_raise].
  eapply hoare_bind; [apply Hq, quiet_peek |]. intros i. eapply hoare_bind; [apply Hq, quiet_obj |]. intros o.
  eapply (hoare_bind _ _ (fun _ => P)).
  { destruct (_is_blocked_waiting_status _); [| by apply hoare_ret].
    eapply hoare_bind; [apply Hq, quiet_promote; apply _ | intros; by apply hoare_ret]. }
  intros [|]; [done |]. destruct (lora_blocked cfg _ _); [done |].
  eapply hoare_bind; [apply Hq, quiet_gate; apply _ |]. intros [|]; [done |].
  eapply hoare_bind; [apply Hq, quiet_computed |]. intros [[[[[blocks local] external] computed] async]|]; [| done].
  eapply hoare_bind; [apply (hoare_sch_returns oid_of); [apply quiet_tokens | by apply waiting_tokens_returns | apply HP] |].
  intros [[[[inputs n] nb] ext]|]; [| apply hoare_ret; by intros y (_ & ? & _)]. apply hoare_pull. simpl. intros Hn.
  eapply hoare_bind; [apply Hq, quiet_obj |]. intros o1. cbv zeta.
  eapply (hoare_bind _ _ (fun _ => P)).
  { destruct inputs as [[|z zs]|]; try by apply hoare_ret. destruct (_ && _); [| by apply hoare_ret].
    eapply hoare_weaken; [apply hoare_lift | done | by intros a y [? _]]. }
  intros net. eapply (hoare_bind _ _ (fun _ => P)).
  { destruct (scheduler_reserve_full_isl cfg); [| by apply hoare_ret]. apply Hq, quiet_on_kv. }
  intros fits. set (refuse := bind _ (fun _ => ret Break)).
  assert (hoare P refuse (fun _ => wpass [])) as Hrefuse.
  { eapply (hoare_bind _ _ (fun _ => P)); [| intros []; apply hoare_ret; by intros y []].
    destruct (has_encoder_inputs _); [apply Hq, quiet_enc_free | by apply hoare_ret]. }
  destruct (negb fits); [done |]. eapply hoare_bind; [apply Hq, quiet_alloc_slots; apply _ |]. intros [b|]; [| done].
  eapply (hoare_bind _ _ (fun _ => P)).
  { destruct kv_connector; [| by apply hoare_ret]. eapply hoare_bind; [apply (hoare_get _ (fun _ => P)); done |]. intros y.
    apply Hq, quiet_upd_world. }
  intros []. eapply hoare_bind; [eapply hoare_pre; [apply admit_request_spec |] | intros []; by apply hoare_ret].
  intros [s t] (P1 & P2 & P3). simpl in *. subst t. rewrite P2. split; [done |]. split; [lia | done].
Qed.

Lemma waiting_loop_spec fuel : hoare (wpass []) (waiting_loop cfg sha256 fuel) (fun _ => wpass []).
Proof.
  induction fuel as [|fuel IH]; cbn [waiting_loop].
  all: eapply hoare_bind; [apply (hoare_get _ (fun x y => wpass [] y /\ x = y)); done |]; intros x.
  all: destruct (_ && _) eqn:E; [| apply hoare_ret; naive_solver].
  - apply hoare_raise.
  - apply andb_true_iff in E as [E1 E2]. zbool. eapply hoare_bind.
    + eapply hoare_pre; [apply waiting_step_spec |]. intros y [Hy ->]. done.
    + intros []; [apply IH | by apply hoare_ret].
Qed.

(** ** The result of the two passes *)
Record outcome x : Prop := {
  o_refs : refs x.1 ≡ₚ L0;
  o_name i : i ∈ L0 -> oid_of <$> objs x.1 !! i = Some (name i);
  o_keys : (st_tokens x.2).*1 ≡ₚ name <$> scheduled x.2;
  o_keys_nodup : NoDup (st_tokens x.2).*1;
  o_nodup : NoDup (scheduled x.2);
  o_pos : Forall (fun kn : string * Z => 0 < kn.2) (st_tokens x.2);
  o_sum : sum_list (st_tokens x.2).*2 + st_budget x.2 = B;
  o_budget : 0 <= st_budget x.2;
  o_keep : good \/ st_preempted x.2 = [] -> forall i, i ∈ scheduled x.2 -> i ∈ running x.1;
  o_run : zlen (running x.1) <= max_num_running_reqs cfg;
}.

Lemma rpass_outcome x : rpass [] x -> outcome x.
Proof.
  intros Hr. pose proof (rpass_scheduled _ _ Hr) as Hs. pose proof (pass_keys_nodup _ _ (rp_pass _ _ Hr)) as Hk.
  destruct Hr as [[G1 G2 G3 G4 G5 G6 G7 G8] H2 H3 H4 H5 H6 H7 H8 H9 H10]. split; try done.
  - by rewrite H10, app_nil_r in G1.
  - rewrite Hs. intros Hg. apply H7. tauto.
Qed.

Lemma rpass_wpass x : rpass [] x -> st_preempted x.2 = [] -> wpass [] x.
Proof.
  intros Hr Hp. split; [apply Hr | | apply Hr]. rewrite (rpass_scheduled _ _ Hr). apply (rp_keep _ _ Hr). by right.
Qed.

Lemma queue_bool_nil store q : queue_bool (RequestQueue := any_queue store) q = false -> qitems q = [].
Proof. destruct q as [[d]|[h]]; simpl; [destruct d | destruct h]; done. Qed.

Lemma wpass_outcome s s' t : wpass [] (s, t) -> running s' = running s -> objs s' = objs s -> refs s' ≡ₚ refs s ++ qitems (st_skipped t) -> outcome (s', t).
Proof.
  intros Hw Er Eo Hrefs. pose proof (pass_keys_nodup _ _ (wp_pass _ _ Hw)) as Hk. destruct Hw as [[G1 G2 G3 G4 G5 G6 G7 G8] H2 H3].
  split; simpl in *; rewrite ?Er, ?Eo; try done. by rewrite Hrefs.
Qed.

Lemma waiting_pass_spec : hoare (rpass []) (waiting_pass cfg sha256) (fun _ => outcome).
Proof.
  unfold waiting_pass. eapply hoare_bind; [apply (hoare_get _ (fun x y => rpass [] y /\ x = y)); done |]. intros x.
  destruct (_ && _) eqn:E; [| apply hoare_ret; intros y [Hy _]; by apply rpass_outcome].
  apply andb_true_iff in E as [E _]. apply bool_decide_eq_true in E.
  eapply hoare_bind; [eapply hoare_pre; [apply waiting_loop_spec | intros y [Hy ->]; by apply rpass_wpass] |]. intros [] [s t] Hw.
  unfold bind, get. cbn [fst snd]. destruct (queue_bool _) eqn:Eq.
  - unfold sch, zoom, on_queue. cbn [fst snd queue_of with_queue]. destruct (prepend_requests _ _) as [[a|e] q] eqn:Ep; [| done].
    apply qitems_prepend_all in Ep. rewrite qitems_iter in Ep. apply (wpass_outcome s); [done | done | done |].
    unfold refs. simpl. rewrite Ep. solve_Permutation.
  - apply queue_bool_nil in Eq. cbn. apply (wpass_outcome s); [done | done | done |]. by rewrite Eq, app_nil_r.
Qed.

Lemma collect_loras_spec : hoare (rpass []) (collect_loras (W := W) cfg) (fun _ => rpass []).
Proof.
  unfold collect_loras. destruct (max_loras cfg) as [m|]; [| by apply hoare_ret].
  eapply hoare_bind; [apply (hoare_get _ (fun _ => rpass [])); done |]. intros x.
  eapply (hoare_bind _ _ (fun _ => rpass [])).
  - apply hoare_stp. intros s t Hr. eapply rpass_step; [exact Hr | try done ..].
  - intros []. eapply hoare_weaken; [apply hoare_assert | done | tauto].
Qed.

(** The constraints that are asserted at the end of the passes. *)
Lemma constraints_ok x : outcome x -> good \/ st_preempted x.2 = [] -> B <= max_num_scheduled_tokens cfg ->
  check_constraints cfg x = (Ok tt, x).
Proof.
  intros Ho Hg HB. assert (zlen (scheduled x.2) <= zlen (running x.1)) as Hlen.
  { unfold zlen. apply inj_le, submseteq_length, NoDup_submseteq; [apply Ho |]. by apply (o_keep _ Ho). }
  destruct Ho as [H1 H2 H3 H4 H5 H6 H7 H8 H9 H10]. unfold scheduled, zlen in Hlen. rewrite !length_app in Hlen.
  unfold check_constraints, bind, get, assert, zlen in *.
  destruct (Z.leb_spec (sum_list (st_tokens x.2).*2) (max_num_scheduled_tokens cfg)); [| lia]. cbn.
  destruct (Z.leb_spec 0 (st_budget x.2)); [| lia]. cbn.
  destruct (Z.leb_spec (Z.of_nat (length (running x.1))) (max_num_running_reqs cfg)); [| lia]. cbn.
  destruct (Z.leb_spec (Z.of_nat (length (st_new x.2)) + Z.of_nat (length (st_resumed x.2)) + Z.of_nat (length (st_running x.2))) (Z.of_nat (length (running x.1)))); [done | lia].
Qed.
End pass.
