(* ===== verification/ScheduleProps.v ===== *)
(** * ScheduleProps
    What a scheduling step guarantees: no request is lost or duplicated, each request is
    scheduled once with a positive number of tokens within the budget, and the constraints
    that [schedule] asserts hold. *)
From S2P Require Import Prelude OrdDict KVCacheBlock FreeQueue Request BlockHash BlockPool Managers CacheHit Coordinator KVCacheManager EncoderCache HeapQ RequestQueue SchedUtils Scheduler Schedule SchedulerUpdate SchedulerDemo SchedulerInv SchedulePass.

(** A view of a request object that the end of a step does not change. *)
Class StepStable {X} (π : SchedRequest -> X) : Prop := {
  step_computed f o : π (on_rq (fun r => with_computed (f r) r) o) = π o;
  step_spec l o : π (on_rq (with_spec l) o) = π o;
  step_chunk f o : π (with_prefill_chunk (f o) o) = π o;
  step_placeholders f o : π (with_placeholders (f o) o) = π o;
}.
#[export] Instance step_stable_oid : StepStable oid_of.
Proof. done. Qed.

Definition id_in {W} (s : Scheduler W) (i : Z) : string := request_id (deref s i).
(** The fields of the output that the properties are about. *)
Definition output_of {W} (t : Step) (s : Scheduler W) (out : SchedulerOutput) : Prop :=
  num_scheduled_tokens out = st_tokens t /\ total_num_scheduled_tokens out = sum_list (st_tokens t).*2 /\
  preempted_req_ids out = id_in s <$> st_preempted t.

Section frames.
Context {W : Type} `{Externals W} (cfg : SchedulerConfig).

Lemma quiet_traverse {A B X} (π : SchedRequest -> X) (l : list A) (f : A -> SM W B) : (forall a, quiet π (f a)) -> quiet π (traverse l f).
Proof. intros Hf. induction l as [|a l IH]; [apply quiet_ret |]. apply quiet_bind; [done | intros b]. apply quiet_bind; [done |]. intros bs. apply quiet_ret. Qed.

Lemma quiet_request_ref {X} (π : SchedRequest -> X) rid : quiet (W := W) π (request_ref rid).
Proof. intros s. unfold request_ref. by destruct (od_get rid (s_requests s)). Qed.

Lemma quiet_after_schedule {X} (π : SchedRequest -> X) `{!StepStable π} out : quiet (W := W) π (_update_after_schedule cfg out).
Proof.
  unfold _update_after_schedule. apply quiet_bind.
  { apply quiet_traverse. intros [rid n]. apply quiet_bind; [apply quiet_request_ref |]. intros i. unfold advance_request.
    apply quiet_bind; [apply quiet_set_rq; intros o; apply (step_computed (fun r => num_computed_tokens r + n)) | intros _].
    apply quiet_bind; [apply quiet_set_obj; intros o; apply (step_chunk (fun o => num_computed_tokens (rq o) <? num_tokens (rq o) + num_output_placeholders o)) | intros _].
    solve_quiet. }
  intros flags. apply quiet_bind; [by apply quiet_modify | intros _]. apply quiet_bind; [| intros; apply quiet_ret].
  destruct (is_async cfg); [| apply quiet_ret]. apply quiet_traverse. intros [rid n]. apply quiet_bind; [apply quiet_request_ref |].
  intros i. unfold add_placeholders. apply quiet_bind; [apply quiet_obj | intros o]. destruct (is_prefill_chunk o); [apply quiet_ret |].
  apply quiet_bind; [| intros _; apply quiet_bind; [apply quiet_set_rq, step_spec | intros; apply quiet_ret]].
  apply quiet_set_obj. intros o'. apply (step_placeholders (fun o => num_output_placeholders o + (1 + zlen (default [] (od_get (request_id (rq o)) (scheduled_spec_decode_tokens out)))))).
Qed.

Lemma after_schedule_output out : returns (fun o => forall t (s : Scheduler W), output_of t s out -> output_of t s o) (_update_after_schedule (W := W) cfg out).
Proof. unfold _update_after_schedule. repeat (eapply returns_bind; [apply returns_any | intros ? _]). by apply returns_ret. Qed.

(** The output of the step and the requests it leaves. *)
Lemma build_output_spec {X} (π : SchedRequest -> X) (P : Scheduler W -> Prop) t : (forall s s', P s -> frame π s s' -> P s') ->
  hoare (fun x => P x.1 /\ x.2 = t) (build_output cfg) (fun out x => (P x.1 /\ x.2 = t) /\ output_of t x.1 out).
Proof.
  intros HP. pose (Q := fun x : Scheduler W * Step => P x.1 /\ x.2 = t). change (hoare Q (build_output cfg) (fun out x => Q x /\ output_of t x.1 out)).
  assert (forall A (f : SM W A), quiet π f -> hoare Q (sch f) (fun _ => Q)) as Hq.
  { intros A f Hf. apply (hoare_sch π); [done |]. intros s s' t' [H1 H2] Hfr. split; [by eapply HP | done]. }
  unfold build_output. eapply hoare_bind; [apply (hoare_get Q (fun x y => Q x /\ Q y)); done |]. intros x. apply hoare_pull. intros [_ Et].
  rewrite Et. eapply (hoare_bind _ _ (fun _ => Q)).
  { destruct (running x.1); [by apply hoare_ret |]. apply Hq, quiet_on_kv. }
  intros common. cbv zeta. do 2 (eapply hoare_bind; [eapply hoare_weaken; [apply hoare_lift | done |]; intros ? y [Hy _]; exact Hy | intros ?]).
  eapply hoare_bind; [apply Hq; by apply quiet_modify | intros []].
  eapply (hoare_bind _ _ (fun _ => Q)).
  { destruct (needs_kv_cache_zeroing cfg); [| by apply hoare_ret].
    eapply hoare_bind; [apply Hq, quiet_on_kv | intros ids; by apply hoare_ret]. }
  intros zero. eapply hoare_bind; [apply Hq, quiet_on_enc | intros freed].
  eapply hoare_bind; [apply (hoare_get Q (fun x y => Q y /\ x = y)); done |]. intros y. apply hoare_ret. by intros z [Hz ->].
Qed.
End frames.

(** ** The state a step starts from *)
Section step.
Context {W : Type} `{Externals W} (cfg : SchedulerConfig) (sha256 : bytes -> bytes).
Implicit Types s : Scheduler W.

Record step_ready s : Prop := {
  sr_nodup : NoDup (refs s);
  sr_objs i : i ∈ refs s -> is_Some (objs s !! i);
  sr_ids i j : i ∈ refs s -> j ∈ refs s -> request_id (deref s i) = request_id (deref s j) -> i = j;
  sr_ready i o : i ∈ running s -> objs s !! i = Some o -> ready cfg o;
  sr_run : zlen (running s) <= max_num_running_reqs cfg;
  sr_budget : 0 <= max_num_scheduled_tokens cfg;
  sr_block : 0 < cache_block_size cfg;
}.

(** No running request is marked long, or victims are chosen by priority. *)
Definition no_long s : Prop := forall i, i ∈ running s -> nelssa_long_mask (deref s i) = false.
Definition plain_victims s : Prop := good cfg (no_long s).

Definition budget_of s : Z := st_budget (initial_step cfg s).

Lemma budget_bounds s : step_ready s -> 0 <= budget_of s <= max_num_scheduled_tokens cfg.
Proof. intros Hs. pose proof (sr_budget _ Hs). unfold budget_of, initial_step. simpl. destruct (_pause_state s); lia. Qed.

Lemma initial_rpass s : step_ready s -> rpass cfg (refs s) (id_in s) (budget_of s) (no_long s) [] (s, initial_step cfg s).
Proof.
  intros Hs. assert (qitems (create_request_queue (policy cfg)) = []) as Hq by (by destruct (policy cfg)).
  assert (forall i, i ∈ running s -> i ∈ refs s) as Hrun by (intros i Hi; unfold refs; rewrite elem_of_app; auto).
  split; try done; simpl; try by intros ? ?%elem_of_nil.
  - split; simpl; try done; try by intros ? ?%elem_of_nil.
    + by rewrite Hq, app_nil_r.
    + intros i Hi. destruct (sr_objs _ Hs i Hi) as [o Ho]. unfold id_in, deref. by rewrite Ho.
    + constructor.
    + by apply budget_bounds.
  - intros i Hi. destruct (sr_objs _ Hs i (Hrun i Hi)) as [o Ho]. exists o. split; [done |]. by eapply sr_ready.
  - by intros _ i ?%elem_of_nil.
  - apply Hs.
Qed.

Lemma passes_outcome s x : step_ready s -> schedule_passes cfg sha256 (s, initial_step cfg s) = (Ok tt, x) ->
  outcome cfg (refs s) (id_in s) (budget_of s) (no_long s) x.
Proof.
  intros Hs. pose (P := rpass (W := W) cfg (refs s) (id_in s) (budget_of s) (no_long s) []).
  apply hoare_run with (P := P) (Q := fun _ => outcome cfg (refs s) (id_in s) (budget_of s) (no_long s)); [| by apply initial_rpass].
  pose proof (sr_nodup _ Hs) as Hnd. pose proof (sr_ids _ Hs) as Hids. pose proof (sr_block _ Hs) as Hb.
  unfold schedule_passes. eapply hoare_bind; [apply (hoare_sch core); [apply quiet_on_kv | intros; by eapply rpass_frame] | intros []].
  eapply hoare_bind; [apply (hoare_get P (fun _ => P)); done | intros y].
  eapply hoare_bind; [by apply running_loop_spec | intros []]. eapply hoare_bind; [by apply collect_loras_spec | intros []].
  by apply waiting_pass_spec.
Qed.

Lemma frame_refs {X} (π : SchedRequest -> X) s s' : frame π s s' -> refs s' = refs s.
Proof. intros [F1 F2 F3 _]. unfold refs. by rewrite F1, F2, F3. Qed.

(** A step: the two passes, the check, and changes that keep the queues. *)
Lemma schedule_run {X} (π : SchedRequest -> X) `{!StepStable π} s out s' : schedule cfg sha256 s = (Ok out, s') -> exists x y,
  schedule_passes cfg sha256 (s, initial_step cfg s) = (Ok tt, x) /\ check_constraints cfg x = (Ok tt, x) /\ frame π x.1 y /\ frame π y s' /\
  output_of x.2 y out.
Proof.
  unfold schedule, schedule_steps. unfold bind at 1. unfold bind at 1. destruct (schedule_passes _ _ _) as [[[]|e] x]; [| done].
  unfold bind at 1. destruct (check_constraints cfg x) as [[[]|e] y] eqn:Ec; [| done].
  assert (y = x) as ->.
  { revert Ec. unfold check_constraints, bind, get, assert. repeat (destruct (_ <=? _); [cbn | done]). by intros [= <-]. }
  pose proof (build_output_spec cfg π (frame π x.1) x.2 (fun s1 s2 H1 H2 => transitivity H1 H2) x (conj (reflexivity _) eq_refl)) as Hb.
  destruct (build_output cfg x) as [[out0|e] y] eqn:Eb; [| done]. destruct Hb as ([Hf _] & Ho).
  set (rest := bind _ _). assert (quiet π rest) as Hq.
  { unfold rest. solve_quiet. by apply quiet_after_schedule. }
  assert (returns (fun o => forall t (s : Scheduler W), output_of t s out0 -> output_of t s o) rest) as Hr.
  { unfold rest. do 2 (eapply returns_bind; [apply returns_any | intros ? _]). apply after_schedule_output. }
  intros Er. specialize (Hq y.1). specialize (Hr y.1 I). rewrite Er in Hq, Hr. exists x, y.1. split_and!; try done. by apply Hr.
Qed.
Lemma frame_id s s' i : frame oid_of s s' -> id_in s' i = id_in s i.
Proof.
  intros [_ _ _ F]. specialize (F i). unfold id_in, deref. destruct (objs s' !! i), (objs s !! i); simpl in *; try done. by injection F.
Qed.
End step.

(** ** Deciding the conditions on a concrete state *)
Definition readyb (cfg : SchedulerConfig) (o : SchedRequest) : bool :=
  (num_computed_tokens (rq o) <=? num_tokens_with_spec (rq o) + num_output_placeholders o)
  && (num_computed_tokens (rq o) <=? s_max_model_len cfg - 1).
Definition step_readyb {W} (cfg : SchedulerConfig) (s : Scheduler W) : bool :=
  bool_decide (NoDup (refs s)) && bool_decide (NoDup (id_in s <$> refs s))
  && forallb (fun i => bool_decide (is_Some (objs s !! i))) (refs s)
  && forallb (fun i => match objs s !! i with Some o => readyb cfg o | None => true end) (running s)
  && (zlen (running s) <=? max_num_running_reqs cfg) && (0 <=? max_num_scheduled_tokens cfg) && (0 <? cache_block_size cfg).

Lemma NoDup_fmap_inj {A B} (f : A -> B) (l : list A) : NoDup (f <$> l) -> forall a b, a ∈ l -> b ∈ l -> f a = f b -> a = b.
Proof.
  induction l as [|x l IH]; intros Hn a b; [by intros ?%elem_of_nil |]. apply NoDup_cons in Hn as [Hx Hn].
  intros [-> | Ha]%elem_of_cons [-> | Hb]%elem_of_cons Heq; [done | | | by apply IH].
  - destruct Hx. rewrite Heq. by apply list_elem_of_fmap_2.
  - destruct Hx. rewrite <- Heq. by apply list_elem_of_fmap_2.
Qed.

Lemma step_readyb_sound {W} cfg (s : Scheduler W) : step_readyb cfg s = true -> step_ready cfg s.
Proof.
  unfold step_readyb. rewrite !andb_true_iff, !bool_decide_eq_true, !forallb_forall. intros ((((((H1 & H2) & H3) & H4) & H5) & H6) & H7). zbool.
  split; try done.
  - intros i Hi. apply list_elem_of_In, H3, bool_decide_eq_true in Hi. done.
  - by apply NoDup_fmap_inj.
  - intros i o Hi Ho. apply list_elem_of_In, H4 in Hi. rewrite Ho in Hi. unfold readyb in Hi. apply andb_true_iff in Hi as [? ?]. zbool. by split.
Qed.

Definition preempts {W} (r : res unit * (Scheduler W * Step)) : bool :=
  match r with (Ok _, x) => negb (bool_decide (st_preempted x.2 = [])) | _ => false end.
Lemma preempts_run {W} (r : res unit * (Scheduler W * Step)) : preempts r = true -> exists x, r = (Ok tt, x) /\ st_preempted x.2 <> [].
Proof. destruct r as [[[]|e] x]; simpl; [| done]. intros Hp%negb_true_iff%bool_decide_eq_false. by exists x. Qed.

(** C4 (invariant): the constraints that schedule asserts after its two passes cannot fail:
    the tokens given out do not exceed max_num_scheduled_tokens, the budget is not negative,
    at most max_num_running_reqs requests run, and no more requests are scheduled than run.
    The scheduler starts from distinct requests whose running ones have tokens left within
    the model length; victims of preemption are chosen by priority or no running request is
    marked long. *)
Theorem schedule_constraints_hold {W} `{Externals W} cfg sha256 (s : Scheduler W) x :
  step_ready cfg s -> plain_victims cfg s -> schedule_passes cfg sha256 (s, initial_step cfg s) = (Ok tt, x) ->
  check_constraints cfg x = (Ok tt, x).
Proof.
  intros Hs Hg Hx. eapply constraints_ok; [by apply (passes_outcome cfg sha256) | by left | by apply budget_bounds].
Qed.

Lemma schedule_constraints_hold_witness : exists (s : Scheduler unit) x,
  schedule_passes (demo_config PRIORITY) (fun y => y) (s, initial_step (demo_config PRIORITY) s) = (Ok tt, x) /\
  st_preempted x.2 <> [] /\ check_constraints (demo_config PRIORITY) x = (Ok tt, x).
Proof.
  destruct (demo_test_spec 2 PRIORITY (fun s => step_readyb (demo_config PRIORITY) s &&
    preempts (schedule_passes (demo_config PRIORITY) (fun y => y) (s, initial_step (demo_config PRIORITY) s))))
    as (s & _ & [Hs Hp]%andb_true_iff); [vm_compute; reflexivity |].
  apply preempts_run in Hp as (x & Hx & Hp). exists s, x. split; [exact Hx |]. split; [exact Hp |].
  apply (schedule_constraints_hold (demo_config PRIORITY) (fun y => y) s x); [by apply step_readyb_sound | by left | exact Hx].
Defined.

(** C5 (invariant): when victims of preemption are chosen by priority or no running request is
    marked long (a NELSSA request under FCFS can make the step preempt a request it has already
    scheduled), a step that returns has only moved requests between the running list and
    the queues, each request it schedules is scheduled once, with a positive number of tokens,
    and runs, and the total is the sum of these numbers and within the budget. *)
Theorem schedule_output_sound {W} `{Externals W} cfg sha256 (s s' : Scheduler W) out :
  step_ready cfg s -> plain_victims cfg s -> schedule cfg sha256 s = (Ok out, s') ->
  refs s' ≡ₚ refs s /\ (forall i, i ∈ refs s -> id_in s' i = id_in s i) /\
  zlen (running s') <= max_num_running_reqs cfg /\
  NoDup (num_scheduled_tokens out).*1 /\ Forall (fun kn => 0 < kn.2) (num_scheduled_tokens out) /\
  (forall rid, rid ∈ (num_scheduled_tokens out).*1 -> rid ∈ id_in s' <$> running s') /\
  total_num_scheduled_tokens out = sum_list (num_scheduled_tokens out).*2 /\
  0 <= total_num_scheduled_tokens out <= max_num_scheduled_tokens cfg.
Proof.
  intros Hs Hg Hrun. destruct (schedule_run cfg sha256 oid_of s out s' Hrun) as (x & y & Hp & Hc & Hf1 & Hf2 & Hn & Ht & _).
  assert (frame oid_of x.1 s') as Hf by (by transitivity y).
  pose proof (passes_outcome cfg sha256 s x Hs Hp) as Ho. pose proof (budget_bounds cfg s Hs) as HB.
  assert (forall i, i ∈ refs s -> id_in s' i = id_in s i) as Hid.
  { intros i Hi. rewrite (frame_id _ _ i Hf). pose proof (o_name _ _ _ _ _ _ Ho i Hi) as Hname. unfold id_in at 1, deref.
    destruct (objs x.1 !! i); [| done]. by injection Hname. }
  rewrite Hn, Ht, (frame_refs _ _ _ Hf), (fr_running _ _ _ Hf). split_and!; try apply Ho; try done.
  - intros rid Hrid. rewrite (o_keys _ _ _ _ _ _ Ho) in Hrid. apply list_elem_of_fmap in Hrid as (i & -> & Hi).
    pose proof (o_keep _ _ _ _ _ _ Ho (or_introl Hg) i Hi) as Hir. apply list_elem_of_fmap. exists i. split; [| done]. symmetry. apply Hid.
    rewrite <- (o_refs _ _ _ _ _ _ Ho). unfold refs. rewrite elem_of_app. auto.
  - assert (forall l : list (string * Z), Forall (fun kn => 0 < kn.2) l -> 0 <= sum_list l.*2) as Hsum; [| apply Hsum, Ho].
    induction l as [|kn l IH]; intros Hl; [done |]. apply Forall_cons in Hl as [H1 H2]. rewrite fmap_cons. unfold sum_list in *. simpl. specialize (IH H2). lia.
  - pose proof (o_sum _ _ _ _ _ _ Ho). pose proof (o_budget _ _ _ _ _ _ Ho). lia.
Qed.

Lemma schedule_output_sound_witness : exists (s s' : Scheduler unit) out,
  schedule (demo_config PRIORITY) (fun y => y) s = (Ok out, s') /\ preempted_req_ids out <> [] /\ refs s' ≡ₚ refs s.
Proof.
  destruct (demo_test_spec 2 PRIORITY (fun s => step_readyb (demo_config PRIORITY) s &&
    match schedule (demo_config PRIORITY) (fun y => y) s with (Ok out, _) => negb (bool_decide (preempted_req_ids out = [])) | _ => false end))
    as (s & _ & [Hs Hp]%andb_true_iff); [vm_compute; reflexivity |].
  destruct (schedule _ _ s) as [[out|e] s'] eqn:E; [| done]. apply negb_true_iff, bool_decide_eq_false in Hp.
  exists s, s', out. split; [exact E |]. split; [exact Hp |].
  apply (schedule_output_sound (demo_config PRIORITY) (fun y => y) s s' out); [by apply step_readyb_sound | by left | exact E].
Defined.
