(* ===== verification/Termination.v ===== *)
(** * Termination
    The fuel of the loops of a scheduling step is enough: no operation it calls runs out of
    fuel. *)
From S2P Require Import Prelude OrdDict KVCacheBlock FreeQueue Request BlockHash BlockPool Managers CacheHit Coordinator KVCacheManager EncoderCache HeapQ RequestQueue SchedUtils Scheduler Schedule SchedulerUpdate SchedulerDemo SchedulerInv SchedulePass.

(** ** Computations that keep [I] and do not run out of fuel *)
Definition fuel_ok {S A} (I : S -> Prop) (m : M S A) : Prop :=
  forall s, I s -> match m s with (Ok _, s') => I s' | (Err e, _) => e <> OutOfFuel end.
Definition res_ok {A} (r : res A) : Prop := r <> Err OutOfFuel.

Section rules.
Context {S : Type} (I : S -> Prop).

Lemma fo_bind {A B} (m : M S A) (k : A -> M S B) : fuel_ok I m -> (forall a, fuel_ok I (k a)) -> fuel_ok I (bind m k).
Proof. intros Hm Hk s Hs. unfold bind. specialize (Hm s Hs). destruct (m s) as [[a|e] s']; [by apply Hk | done]. Qed.
Lemma fo_ret {A} (a : A) : fuel_ok I (ret a).
Proof. by intros s Hs. Qed.
Lemma fo_raise {A} e : e <> OutOfFuel -> fuel_ok I (raise (A := A) e).
Proof. by intros He s Hs. Qed.
Lemma fo_get : fuel_ok I get.
Proof. by intros s Hs. Qed.
Lemma fo_gets {A} (f : S -> A) : fuel_ok I (gets f).
Proof. by intros s Hs. Qed.
Lemma fo_modify f : (forall s, I s -> I (f s)) -> fuel_ok I (modify f).
Proof. intros Hf s Hs. by apply Hf. Qed.
Lemma fo_put s : I s -> fuel_ok I (put s).
Proof. by intros Hs s0 _. Qed.
Lemma fo_lift {A} (r : res A) : res_ok r -> fuel_ok I (lift r).
Proof. intros Hr s Hs. unfold lift. destruct r; [done |]. intros ->. by apply Hr. Qed.
Lemma fo_assert b : fuel_ok I (assert b).
Proof. destruct b; [apply fo_ret | by apply fo_raise]. Qed.
Lemma fo_foreach {A} (l : list A) f : (forall x, fuel_ok I (f x)) -> fuel_ok I (foreach l f).
Proof. intros Hf. induction l as [|x l IH]; [apply fo_ret | by apply fo_bind]. Qed.
Lemma fo_traverse {A B} (l : list A) (f : A -> M S B) : (forall x, fuel_ok I (f x)) -> fuel_ok I (traverse l f).
Proof. intros Hf. induction l as [|x l IH]; [apply fo_ret |]. apply fo_bind; [done | intros b]. apply fo_bind; [done | intros; apply fo_ret]. Qed.
Lemma fo_zoom {T A} (g : S -> T) p (J : T -> Prop) (m : M T A) : fuel_ok J m -> (forall s, I s -> J (g s)) ->
  (forall s t, I s -> J t -> I (p t s)) -> fuel_ok I (zoom g p m).
Proof. intros Hm H1 H2 s Hs. unfold zoom. specialize (Hm (g s) (H1 s Hs)). destruct (m (g s)) as [[a|e] t]; [by apply H2 | done]. Qed.
End rules.

(** Results. *)
Lemma ro_ok {A} (a : A) : res_ok (Ok a).
Proof. done. Qed.
Lemma ro_bind {A B} (r : res A) (k : A -> res B) : res_ok r -> (forall a, res_ok (k a)) -> res_ok (rbind r k).
Proof. intros Hr Hk. destruct r as [a|e]; simpl; [by apply Hk |]. intros [= ->]. by apply Hr. Qed.
Lemma ro_index {A} (l : list A) i : res_ok (py_index l i).
Proof. unfold py_index, res_ok. destruct (_ <? 0); [done |]. by destruct (_ !! _). Qed.
Lemma ro_set {A} (l : list A) i (x : A) : res_ok (py_set l i x).
Proof. unfold py_set, res_ok. by repeat case_match. Qed.

Create HintDb fuel.
#[export] Hint Resolve fo_ret fo_get fo_gets fo_assert ro_ok ro_index ro_set : fuel.
Ltac fuel_step :=
  match goal with
  | |- fuel_ok _ (bind _ _) => apply fo_bind; [| intros ?]
  | |- fuel_ok _ (let _ := _ in _) => cbv zeta
  | |- fuel_ok _ (raise _) => by apply fo_raise
  | |- fuel_ok _ (modify _) => apply fo_modify; done
  | |- fuel_ok _ (put _) => by apply fo_put
  | |- fuel_ok _ (foreach _ _) => apply fo_foreach; intros ?
  | |- fuel_ok _ (traverse _ _) => apply fo_traverse; intros ?
  | |- fuel_ok _ (if ?b then _ else _) => destruct b
  | |- fuel_ok _ (match ?x with _ => _ end) => destruct x
  | |- fuel_ok _ (lift _) => apply fo_lift
  | |- fuel_ok _ _ => solve [eauto with fuel]
  | |- res_ok (rbind _ _) => apply ro_bind; [| intros ?]
  | |- res_ok (if ?b then _ else _) => destruct b
  | |- res_ok (match ?x with _ => _ end) => destruct x eqn:?
  | |- res_ok (Err _) => done
  | |- res_ok _ => solve [eauto with fuel]
  end.
Ltac solve_fuel := repeat fuel_step.

(** ** The free queue and the pool *)
Abbreviation any := (fun _ => True).

Lemma fo_get_next l : fuel_ok any (get_next l).
Proof. intros s _. unfold get_next. by destruct (_ !! l). Qed.
Lemma fo_get_prev l : fuel_ok any (get_prev l).
Proof. intros s _. unfold get_prev. by destruct (_ !! l). Qed.
Lemma fo_set_next l v : fuel_ok any (set_next l v).
Proof. intros s _. unfold set_next. by destruct (_ !! l). Qed.
Lemma fo_set_prev l v : fuel_ok any (set_prev l v).
Proof. intros s _. unfold set_prev. by destruct (_ !! l). Qed.
Lemma fo_add_free d : fuel_ok any (add_free d).
Proof. unfold add_free. solve_fuel. Qed.
#[export] Hint Resolve fo_get_next fo_get_prev fo_set_next fo_set_prev fo_add_free : fuel.

Lemma fo_popleft_n_loop n : forall c, fuel_ok any (popleft_n_loop n c).
Proof. induction n as [|n IH]; intros c; cbn [popleft_n_loop]; solve_fuel. Qed.
#[export] Hint Resolve fo_popleft_n_loop : fuel.
Lemma fo_popleft_n n : fuel_ok any (popleft_n n).
Proof. unfold popleft_n. solve_fuel. Qed.
Lemma fo_remove b : fuel_ok any (remove b).
Proof. unfold remove, FreeQueue.deref. solve_fuel. Qed.
Lemma fo_append_n_loop bs : forall l, fuel_ok any (append_n_loop bs l).
Proof. induction bs as [|b bs IH]; intros l; cbn [append_n_loop]; solve_fuel. Qed.
#[export] Hint Resolve fo_append_n_loop : fuel.
Lemma fo_append_n bs : fuel_ok any (append_n bs).
Proof. unfold append_n. solve_fuel. Qed.
#[export] Hint Resolve fo_popleft_n fo_remove fo_append_n : fuel.

Lemma fo_onq {A} (m : M qstate A) : fuel_ok any m -> fuel_ok any (onq m).
Proof. intros Hm. by eapply fo_zoom. Qed.
Lemma fo_read l : fuel_ok any (read l).
Proof. intros s _. unfold read. by destruct (_ !! l). Qed.
Lemma fo_write l f : fuel_ok any (write l f).
Proof. intros s _. unfold write. by destruct (_ !! l). Qed.
Lemma fo_add_event e : fuel_ok any (add_event e).
Proof. unfold add_event. solve_fuel. Qed.
#[export] Hint Resolve fo_onq fo_read fo_write fo_add_event : fuel.

Lemma fo_maybe_evict b : fuel_ok any (_maybe_evict_cached_block b).
Proof. unfold _maybe_evict_cached_block. solve_fuel. Qed.
#[export] Hint Resolve fo_maybe_evict : fuel.
Lemma fo_get_new_blocks n : fuel_ok any (get_new_blocks n).
Proof. unfold get_new_blocks, take_block. solve_fuel. Qed.
Lemma fo_touch bs : fuel_ok any (touch bs).
Proof. unfold touch, touch_one. solve_fuel. Qed.
Lemma fo_free_blocks bs : fuel_ok any (free_blocks bs).
Proof. unfold free_blocks. solve_fuel. Qed.
#[export] Hint Resolve fo_get_new_blocks fo_touch fo_free_blocks : fuel.

Lemma ro_key h g : res_ok (make_block_hash_with_group_id h g).
Proof. unfold make_block_hash_with_group_id, to_bytes4, res_ok. by destruct (_ && _). Qed.
Lemma ro_scaled hs a b : res_ok (new_BlockHashListWithBlockSize hs a b).
Proof. unfold new_BlockHashListWithBlockSize, res_ok. by destruct (_ =? _). Qed.
Lemma ro_bh_index b i : res_ok (bh_index b i).
Proof. unfold bh_index. destruct b; solve_fuel. Qed.
#[export] Hint Resolve ro_key ro_bh_index : fuel.
Lemma ro_hashes hbs hs s : res_ok (hashes_for hbs hs s).
Proof. unfold hashes_for. pose proof (ro_scaled hs hbs (s_block_size s)). destruct (_ =? _); [done |]. destruct (new_BlockHashListWithBlockSize _ _ _); done || congruence. Qed.
#[export] Hint Resolve ro_hashes : fuel.

Section hashing.
Context (sha256 : bytes -> bytes).
Lemma ro_mm r s e i : res_ok (_gen_mm_extra_hash_keys r s e i).
Proof. unfold _gen_mm_extra_hash_keys. solve_fuel. Qed.
Lemma fo_generate s e i : fuel_ok any (generate_block_hash_extra_keys sha256 s e i).
Proof.
  unfold generate_block_hash_extra_keys, _gen_prompt_embeds_extra_hash_keys. pose proof (fun r => ro_mm r s e i). solve_fuel. all: eauto.
Qed.

Lemma fo_cache_loop gid bls : forall hs, fuel_ok any (cache_loop gid bls hs).
Proof. unfold cache_one. induction bls as [|l bls IH]; intros hs; cbn [cache_loop]; unfold cache_one; solve_fuel. Qed.
Lemma fo_stored_keys bs idxs bls : forall i r, fuel_ok any (stored_extra_keys sha256 bs idxs bls i r).
Proof.
  induction idxs as [|k idxs IH]; intros i r; cbn [stored_extra_keys]; [apply fo_ret |].
  apply fo_bind; [apply fo_lift, ro_index | intros l]. apply fo_bind; [apply fo_read | intros b]. destruct (is_null b); [apply IH |].
  pose proof (fo_generate (k * bs) (k * bs + bs) i r I) as Hg. destruct (generate_block_hash_extra_keys _ _ _ _ r) as [[[ks j]|e] r']; [| by apply fo_raise].
  solve_fuel.
Qed.
Lemma fo_cache_full_blocks r bls a b c d : fuel_ok any (cache_full_blocks sha256 r bls a b c d).
Proof.
  pose proof (fo_cache_loop d). pose proof fo_stored_keys. unfold cache_full_blocks. solve_fuel.
  intros [= ->]. by eapply ro_scaled.
Qed.
End hashing.
#[export] Hint Resolve fo_cache_full_blocks : fuel.

(** ** The managers *)
Lemma fo_with_mg f : fuel_ok any (with_mg f).
Proof. by intros s _. Qed.
Lemma fo_self : fuel_ok any self.
Proof. by intros s _. Qed.
Lemma fo_on_pool {A} (m : M BlockPool A) : fuel_ok any m -> fuel_ok any (on_pool m).
Proof. intros Hm. by eapply fo_zoom. Qed.
#[export] Hint Resolve fo_with_mg fo_self fo_on_pool : fuel.
Lemma fo_blocks_of rid : fuel_ok any (blocks_of rid).
Proof. unfold blocks_of. solve_fuel. Qed.
#[export] Hint Resolve fo_blocks_of : fuel.
Lemma fo_store_blocks rid bs : fuel_ok any (store_blocks rid bs).
Proof. apply fo_with_mg. Qed.
Lemma fo_record_new_ids bs : fuel_ok any (record_new_ids bs).
Proof. unfold record_new_ids. solve_fuel. Qed.
#[export] Hint Resolve fo_store_blocks fo_record_new_ids : fuel.

Lemma fo_num_blocks rid n bs t m : fuel_ok any (get_num_blocks_to_allocate rid n bs t m).
Proof. unfold get_num_blocks_to_allocate, base_get_num_blocks_to_allocate. solve_fuel. Qed.
Lemma fo_new_computed rid bs l e : fuel_ok any (allocate_new_computed_blocks rid bs l e).
Proof. unfold allocate_new_computed_blocks, base_allocate_new_computed_blocks, extend_new, store_num_cached. solve_fuel. Qed.
Lemma ro_reuse nul k idxs : forall bs, res_ok (reuse_spec_blocks nul k idxs bs).
Proof.
  induction idxs as [|i idxs IH]; intros bs; cbn [reuse_spec_blocks]; solve_fuel.
  all: intros [= ->]; first [by eapply ro_set | by eapply ro_index].
Qed.
#[export] Hint Resolve ro_reuse : fuel.
Lemma fo_new_blocks rid n m : fuel_ok any (allocate_new_blocks rid n m).
Proof. unfold allocate_new_blocks, mamba_allocate_new_blocks, base_allocate_new_blocks, extend_new. solve_fuel. Qed.
Lemma fo_base_cache_blocks sha256 r n : fuel_ok any (base_cache_blocks sha256 r n).
Proof. unfold base_cache_blocks, store_num_cached. solve_fuel. Qed.
#[export] Hint Resolve fo_base_cache_blocks : fuel.
Lemma fo_cache_blocks sha256 r n : fuel_ok any (cache_blocks sha256 r n).
Proof. unfold cache_blocks, mamba_cache_blocks, note_cached. solve_fuel. Qed.
Lemma fo_free rid : fuel_ok any (free rid).
Proof. unfold free, base_free. solve_fuel. Qed.
Lemma fo_remove_skipped rid n : fuel_ok any (remove_skipped_blocks rid n).
Proof. unfold remove_skipped_blocks, mamba_remove_skipped_blocks, base_remove_skipped_blocks. solve_fuel. Qed.
Lemma fo_mark_long rid n : fuel_ok any (mark_long_request rid n).
Proof. unfold mark_long_request. solve_fuel. Qed.
Lemma fo_common rid : fuel_ok any (get_num_common_prefix_blocks rid).
Proof. unfold get_num_common_prefix_blocks. solve_fuel. Qed.
Lemma fo_take_ids : fuel_ok any take_new_block_ids.
Proof. unfold take_new_block_ids. solve_fuel. Qed.
Lemma fo_step_starts : fuel_ok any new_step_starts.
Proof. apply fo_with_mg. Qed.
#[export] Hint Resolve fo_num_blocks fo_new_computed fo_new_blocks fo_cache_blocks fo_free fo_remove_skipped fo_mark_long fo_common
  fo_take_ids fo_step_starts : fuel.

(** ** Cache lookup *)
Lemma ro_cached_hit p h gids : res_ok (cached_hit p h gids).
Proof.
  unfold cached_hit. apply ro_bind; [| intros; apply ro_ok]. induction gids as [|g gids IH]; [done |]. cbn [get_cached_block].
  pose proof (ro_key h g) as Hk. destruct (make_block_hash_with_group_id h g) as [key|e]; [| by intros [= ->]].
  destruct (get_one_block _ key) as [[b|]|e] eqn:E; [| done |].
  - destruct (get_cached_block _ h gids) as [[bs|]|e]; [done | done |]. by intros [= ->].
  - unfold get_one_block in E. by repeat case_match; simplify_eq.
Qed.
Lemma ro_pop_each c : res_ok (pop_each c).
Proof. unfold pop_each. solve_fuel. Qed.
Lemma ro_first_group c : res_ok (first_group c).
Proof. by destruct c. Qed.
#[export] Hint Resolve ro_cached_hit ro_pop_each ro_first_group : fuel.

(** The alignment loop pops at most the blocks there are. *)
Lemma align_loop_ends bs a fuel : forall c rest, (length c <= fuel)%nat -> res_ok (align_loop fuel bs a (c :: rest)).
Proof.
  induction fuel as [|fuel IH]; intros c rest Hc; cbn [align_loop]; destruct (bs =? a); try done; cbn [first_group rbind].
  - apply Nat.le_0_r, nil_length_inv in Hc as ->. by rewrite Zmod_0_l.
  - destruct (_ =? 0); [done |]. destruct (pop_each (c :: rest)) as [k|e] eqn:E; simpl.
    + unfold pop_each in E. destruct (existsb _ _); [done |]. injection E as <-. apply IH. rewrite length_take. lia.
    + intros [= ->]. by eapply ro_pop_each.
Qed.
Lemma ro_align_pop bs a c : res_ok (align_pop bs a c).
Proof. unfold align_pop. destruct c as [|c rest]; [simpl; by destruct (bs =? a) | by apply align_loop_ends]. Qed.
#[export] Hint Resolve ro_align_pop : fuel.

Lemma ro_full_loop p gids hs : forall c, res_ok (full_loop p gids hs c).
Proof. induction hs as [|h hs IH]; intros c; cbn [full_loop]; solve_fuel. Qed.
Lemma ro_swa_loop p bhs gids bs a n e k : forall g c, res_ok (swa_loop p bhs gids bs a n e k g c).
Proof. induction k as [|k IH]; intros g c; cbn [swa_loop]; cbv zeta; solve_fuel. Qed.
Lemma ro_chunked_loop p bhs gids idxs : forall c, res_ok (chunked_loop p bhs gids idxs c).
Proof. induction idxs as [|h hs IH]; intros c; cbn [chunked_loop]; solve_fuel. Qed.
Lemma ro_mamba_loop p bhs gids bs a n : forall c, res_ok (mamba_loop p bhs gids bs a n c).
Proof. induction n as [|n IH]; intros c; cbn [mamba_loop]; solve_fuel. Qed.
#[export] Hint Resolve ro_full_loop ro_swa_loop ro_chunked_loop ro_mamba_loop : fuel.
Lemma ro_find b k p bhs n gids bs e a d c : res_ok (find_longest_cache_hit b k p bhs n gids bs e a d c).
Proof.
  unfold find_longest_cache_hit, full_find, swa_find, chunked_find, mamba_find, eagle_pop, rassert. destruct k; cbv zeta; solve_fuel.
Qed.
#[export] Hint Resolve ro_find : fuel.

(** The fixed-point loop of the hybrid lookup: the length is never negative once a group
    has been looked up, and it decreases. *)
Definition groups_pos (c : Coordinator) : Prop := Forall (fun ag => 0 < s_block_size ag.1.1) (attention_groups c).

Definition looked_up (n : Z) (st : hybrid_state) : Prop :=
  0 <= hs_curr st \/ (hs_curr st = n /\ forall g o, py_index (hs_blocks st) g = Ok o -> o = None).

Lemma hybrid_step_curr n c hs m i ag st st' : 0 < s_block_size ag.1.1 -> hybrid_step c hs m i ag st = Ok st' -> looked_up n st -> looked_up n st'.
Proof.
  destruct ag as [[spec ids] cls]. simpl. intros Hb. unfold hybrid_step, rbind.
  destruct (py_index ids 0) as [g0|]; [| done]. destruct (py_index (hs_blocks st) g0) as [cached|] eqn:Ec; [| done].
  destruct (is_full_spec spec && bool_decide (is_Some cached)) eqn:E.
  - apply andb_true_iff in E as [_ E]. apply bool_decide_eq_true in E. intros [= <-] [Hc | [_ Hn]]; [left; simpl | ].
    + pose proof (Z.div_pos (hs_curr st) (s_block_size spec) Hc Hb). nia.
    + rewrite (Hn g0 cached Ec) in E. by apply is_Some_None in E.
  - cbv zeta. destruct (hashes_for _ _ _); [| done]. destruct (find_longest_cache_hit _ _ _ _ _ _ _ _ _ _ _) as [hits|]; [| done].
    destruct (first_group hits) as [h0|]; [| done]. intros [= <-] _. left. simpl. pose proof (zlen_nonneg h0). nia.
Qed.
Lemma ro_hybrid_step c hs m i ag st : res_ok (hybrid_step c hs m i ag st).
Proof. destruct ag as [[spec ids] cls]. unfold hybrid_step. solve_fuel. Qed.
#[export] Hint Resolve ro_hybrid_step : fuel.
Lemma ro_hybrid_pass c hs m ags : forall i st, res_ok (hybrid_pass c hs m i ags st).
Proof. induction ags as [|ag ags IH]; intros i st; cbn [hybrid_pass]; solve_fuel. Qed.
Lemma hybrid_pass_curr n c hs m ags : Forall (fun ag => 0 < s_block_size ag.1.1) ags -> forall i st st',
  hybrid_pass c hs m i ags st = Ok st' -> looked_up n st -> looked_up n st'.
Proof.
  induction 1 as [|ag ags Hb Hf IH]; intros i st st'; cbn [hybrid_pass]; [by intros [= <-] |].
  destruct (hybrid_step c hs m i ag st) as [st1|] eqn:E; simpl; [| done]. intros Hp Hl. eapply IH; [done |]. by eapply hybrid_step_curr.
Qed.

Lemma hybrid_loop_ends c hs m : groups_pos c -> forall fuel n bl v, looked_up n (mkHS n bl v) -> (Z.to_nat n < fuel)%nat ->
  res_ok (hybrid_loop fuel c hs m n bl v).
Proof.
  intros Hg. induction fuel as [|fuel IH]; intros n bl v Hl Hn; [lia |]. cbn [hybrid_loop].
  pose proof (ro_hybrid_pass c hs m (attention_groups c) 0 (mkHS n bl v)) as Hp.
  destruct (hybrid_pass _ _ _ _ _ _) as [st|e] eqn:E; simpl; [| by intros [= ->]].
  destruct (Z.leb_spec n (hs_curr st)); [done |]. destruct (is_simple_hybrid c); [done |].
  destruct (hybrid_pass_curr n c hs m _ Hg _ _ _ E Hl) as [Hc | [Hc _]]; [| lia].
  apply IH; [by left | lia].
Qed.
Lemma ro_coord_find c hs m : groups_pos c -> res_ok (coord_find_longest_cache_hit c hs m).
Proof.
  intros Hg. unfold coord_find_longest_cache_hit, hybrid_find. destruct (coord_class c); [done | solve_fuel |].
  apply ro_bind; [| intros; apply ro_ok]. apply hybrid_loop_ends; [done | | lia]. right. split; [done |]. simpl. intros g o Ho.
  unfold py_index in Ho. destruct (_ <? 0); [done |]. destruct (_ !! _) as [o'|] eqn:El; [| done]. injection Ho as ->.
  by apply lookup_replicate in El as [-> _].
Qed.

(** ** The coordinator and the KV cache manager *)
Section coordinator.
Context (sha256 : bytes -> bytes).

Lemma fo_on_manager {A} i (f : MM A) : fuel_ok any f -> fuel_ok groups_pos (on_manager i f).
Proof.
  intros Hf c Hc. unfold on_manager. destruct (_ !! i) as [m|]; [| done]. specialize (Hf (mkMS m (block_pool c)) I).
  by destruct (f _) as [[a|e] s].
Qed.
Lemma fo_for_managers {A} (f : nat -> MM A) : (forall i, fuel_ok any (f i)) -> fuel_ok groups_pos (for_managers f).
Proof. intros Hf. unfold for_managers. apply fo_bind; [apply fo_get | intros c]. apply fo_traverse. intros i. by apply fo_on_manager. Qed.
Lemma fo_cache_from idxs n : forall r, fuel_ok groups_pos (cache_from sha256 idxs n r).
Proof. induction idxs as [|i idxs IH]; intros r; cbn [cache_from]; solve_fuel. apply fo_on_manager. eauto with fuel. Qed.
Lemma fo_coord_cache r n : fuel_ok groups_pos (coord_cache_blocks sha256 r n).
Proof. unfold coord_cache_blocks. apply fo_bind; [apply fo_get | intros c; apply fo_cache_from]. Qed.

Definition kv_pos (k : KVCacheManager) : Prop := groups_pos (coordinator k).
Lemma fo_on_coord {A} (m : CM A) : fuel_ok groups_pos m -> fuel_ok kv_pos (on_coord m).
Proof. intros Hm. by eapply fo_zoom. Qed.
#[local] Hint Resolve fo_on_coord fo_coord_cache : fuel.
#[local] Hint Extern 2 (fuel_ok groups_pos (for_managers _)) => (apply fo_for_managers; intros; solve_fuel) : fuel.

Lemma fo_kv_free r : fuel_ok kv_pos (kv_free r).
Proof. unfold kv_free, coord_free. apply fo_on_coord. solve_fuel. Qed.
Lemma fo_kv_step_starts : fuel_ok kv_pos kv_new_step_starts.
Proof. unfold kv_new_step_starts, coord_new_step_starts. apply fo_on_coord. solve_fuel. Qed.
Lemma fo_kv_cache_blocks r n : fuel_ok kv_pos (kv_cache_blocks sha256 r n).
Proof. unfold kv_cache_blocks. solve_fuel. Qed.
Lemma fo_kv_common rid : fuel_ok kv_pos (kv_get_num_common_prefix_blocks rid).
Proof. unfold kv_get_num_common_prefix_blocks, coord_get_num_common_prefix_blocks. apply fo_on_coord. solve_fuel. Qed.
Lemma fo_kv_take_ids : fuel_ok kv_pos kv_take_new_block_ids.
Proof. unfold kv_take_new_block_ids. solve_fuel. Qed.
Lemma fo_coord_num rid n bs e t m : fuel_ok groups_pos (coord_get_num_blocks_to_allocate rid n bs e t m).
Proof. unfold coord_get_num_blocks_to_allocate. solve_fuel. Qed.
Lemma fo_coord_new_computed rid bs l e : fuel_ok groups_pos (coord_allocate_new_computed_blocks rid bs l e).
Proof. unfold coord_allocate_new_computed_blocks. solve_fuel. Qed.
Lemma fo_coord_new_blocks rid a b c : fuel_ok groups_pos (coord_allocate_new_blocks rid a b c).
Proof. unfold coord_allocate_new_blocks. solve_fuel. Qed.
Lemma fo_coord_skipped rid n : fuel_ok groups_pos (coord_remove_skipped_blocks rid n).
Proof. unfold coord_remove_skipped_blocks. solve_fuel. Qed.
#[local] Hint Resolve fo_coord_num fo_coord_new_computed fo_coord_new_blocks fo_coord_skipped : fuel.

Lemma fo_get_computed r : fuel_ok kv_pos (get_computed_blocks r).
Proof.
  intros k Hk. unfold get_computed_blocks, bind at 1, get. destruct (_ || _); [done |].
  revert k Hk. assert (forall c, kv_pos c -> fuel_ok kv_pos (let* x := lift (coord_find_longest_cache_hit (coordinator c) (block_hashes r) (num_tokens r - 1)) in
    (if log_stats c then match prefix_cache_stats c with None => raise AssertionError
       | Some st => modify (with_stats (Some (stats_record (num_tokens r) x.2 (0 <? num_preemptions r) st))) end else ret tt) ;;;
    ret (create_kv_cache_blocks x.1, x.2))) as Hf; [| intros k Hk; by apply Hf].
  intros c Hc. apply fo_bind; [by apply fo_lift, ro_coord_find | intros x]. solve_fuel.
Qed.
Lemma fo_can_fit r a b c d : fuel_ok kv_pos (can_fit_full_sequence r a b c d).
Proof. unfold can_fit_full_sequence. solve_fuel. Qed.
Lemma fo_allocate_slots r a b c d e f g : fuel_ok kv_pos (allocate_slots sha256 r a b c d e f g).
Proof. unfold allocate_slots, _mark_long_request. solve_fuel. Qed.
End coordinator.
#[export] Hint Resolve fo_kv_free fo_kv_step_starts fo_kv_cache_blocks fo_kv_common fo_kv_take_ids fo_get_computed fo_can_fit fo_allocate_slots : fuel.

(** ** The encoder caches *)
Lemma ro_mm_hash r i : res_ok (mm_hash_of r i).
Proof. unfold mm_hash_of. pose proof (ro_index (mm_features r) i). destruct (py_index _ i); [done | congruence]. Qed.
Lemma ro_embeds r i : res_ok (get_num_encoder_embeds r i).
Proof. unfold get_num_encoder_embeds. pose proof (ro_index (mm_features r) i). destruct (_ <? _); [| done]. destruct (py_index _ i); [done | congruence]. Qed.
#[export] Hint Resolve ro_mm_hash ro_embeds : fuel.
Lemma fo_check_cache r i : fuel_ok any (check_and_update_cache r i).
Proof. unfold check_and_update_cache. solve_fuel. Qed.
Lemma fo_evict n fr : fuel_ok any (evict_until n fr).
Proof. induction fr as [|[h k] fr IH]; intros c _; cbn [evict_until]; destruct (_ <=? _); try done. destruct (_ !! h); [by apply IH | done]. Qed.
#[export] Hint Resolve fo_evict : fuel.
Lemma fo_can_allocate r i a b : fuel_ok any (can_allocate r i a b).
Proof. unfold can_allocate. solve_fuel. Qed.
Lemma fo_allocate r i : fuel_ok any (allocate r i).
Proof. unfold allocate. solve_fuel. Qed.
Lemma fo_enc_free r : fuel_ok any (enc_free r).
Proof. unfold enc_free, free_encoder_input. solve_fuel. Qed.
Lemma fo_freed : fuel_ok any get_freed_mm_hashes.
Proof. unfold get_freed_mm_hashes. solve_fuel. Qed.
Lemma fo_ed_check r i : fuel_ok any (ed_check_and_update_cache r i).
Proof. apply fo_ret. Qed.
Lemma fo_ed_can r i a b : fuel_ok any (ed_can_allocate r i a b).
Proof. unfold ed_can_allocate. solve_fuel. Qed.
Lemma fo_ed_allocate r i : fuel_ok any (ed_allocate r i).
Proof. unfold ed_allocate. solve_fuel. Qed.
Lemma fo_ed_free r : fuel_ok any (ed_free r).
Proof. unfold ed_free, ed_free_encoder_input. solve_fuel. Qed.
Lemma fo_ed_freed : fuel_ok any ed_get_freed_mm_hashes.
Proof. unfold ed_get_freed_mm_hashes. solve_fuel. Qed.
#[export] Hint Resolve fo_check_cache fo_can_allocate fo_allocate fo_enc_free fo_freed fo_ed_check fo_ed_can fo_ed_allocate fo_ed_free fo_ed_freed : fuel.

(** ** The scheduler *)
Section scheduler.
Context {W : Type} `{Externals W} (cfg : SchedulerConfig) (sha256 : bytes -> bytes).
Abbreviation SS := (Scheduler W * Step)%type.
Implicit Types s : Scheduler W.

Definition sched_pos s : Prop := kv_pos (kv_cache_manager s).

Lemma fo_obj i : fuel_ok sched_pos (obj (W := W) i).
Proof. intros s Hs. unfold obj. by destruct (objs s !! i). Qed.
Lemma fo_set_obj i f : fuel_ok sched_pos (set_obj (W := W) i f).
Proof. by apply fo_modify. Qed.
Lemma fo_on_kv {A} (f : KM A) : fuel_ok kv_pos f -> fuel_ok sched_pos (on_kv (W := W) f).
Proof. intros Hf. by eapply fo_zoom. Qed.
Lemma fo_on_enc {A} (f : M EncoderCacheManager A) g : fuel_ok any f -> fuel_ok any g -> fuel_ok sched_pos (on_enc (W := W) f g).
Proof.
  intros Hf Hg s Hs. unfold on_enc, zoom. destruct (encoder_cache_manager s) as [c|c]; [specialize (Hf c I) | specialize (Hg c I)].
  - by destruct (f c) as [[a|e] c'].
  - by destruct (g c) as [[a|e] c'].
Qed.
Lemma fo_on_world {A} (f : W -> A * W) : fuel_ok sched_pos (on_world f).
Proof. intros s Hs. unfold on_world. by destruct (f (world s)). Qed.
Lemma fo_upd_world f : fuel_ok sched_pos (upd_world f).
Proof. by apply fo_modify. Qed.
Lemma fo_on_queue {A} n (f : (Z -> Request) -> M AnyQueue A) : (forall st, fuel_ok any (f st)) -> fuel_ok sched_pos (on_queue (W := W) n f).
Proof.
  intros Hf s Hs. unfold on_queue. specialize (Hf (deref s) (queue_of n s) I). destruct (f _ _) as [[a|e] q]; [by destruct n | done].
Qed.
Lemma fo_pop st : fuel_ok any (pop_request (RequestQueue := any_queue st)).
Proof.
  intros [q|q] _; simpl; unfold on_left, on_right, fcfs_pop, prio_pop; [by destruct (deque q) |].
  destruct (_heap q) as [|z l]; [done |]. unfold heappop. by repeat case_match; simplify_eq.
Qed.
Lemma fo_peek st : fuel_ok any (peek_request (RequestQueue := any_queue st)).
Proof. intros [q|q] _; simpl; unfold on_left, on_right, fcfs_peek, prio_peek; [by destruct (deque q) | by destruct (_heap q)]. Qed.
Lemma fo_prepend st i : fuel_ok any (prepend_request (RequestQueue := any_queue st) i).
Proof. by intros [q|q] _. Qed.
End scheduler.
#[export] Hint Resolve fo_obj fo_set_obj fo_on_kv fo_on_enc fo_on_world fo_upd_world fo_on_queue fo_pop fo_peek fo_prepend : fuel.

Section scheduler_ops.
Context {W : Type} `{Externals W} (cfg : SchedulerConfig) (sha256 : bytes -> bytes).
Abbreviation SS := (Scheduler W * Step)%type.
Implicit Types s : Scheduler W.
Abbreviation pos := (sched_pos (W := W)).

Lemma fo_set_rq i f : fuel_ok pos (set_rq i f).
Proof. apply fo_set_obj. Qed.
Lemma fo_set_state i st : fuel_ok pos (set_state i st).
Proof. apply fo_set_obj. Qed.
#[local] Hint Resolve fo_set_rq fo_set_state : fuel.

Lemma fo_alloc_slots i a b c d e f g : fuel_ok pos (alloc_slots sha256 i a b c d e f g).
Proof. unfold alloc_slots. solve_fuel. Qed.
Lemma ro_embeds_range f a b : res_ok (get_embeds_indices_in_range f a b).
Proof.
  assert (forall l n, res_ok (if 0 <? n then py_index (A := Z) l (n - 1) else Ok 0)) as Hr by (intros; solve_fuel).
  unfold get_embeds_indices_in_range. destruct (embeds_cumsum f) as [l|]; [| done]. pose proof (Hr l a) as Ha. pose proof (Hr l b) as Hb.
  destruct (if 0 <? a then _ else _) as [?|?]; [| congruence]. destruct (if 0 <? b then _ else _) as [?|?]; [done | congruence].
Qed.
#[local] Hint Resolve ro_embeds_range : fuel.
Lemma fo_enc_loop r c sh fs : forall i a, fuel_ok pos (enc_loop cfg r c sh i fs a).
Proof. induction fs as [|f fs IH]; intros i a; cbn [enc_loop]; unfold can_alloc; solve_fuel. Qed.
#[local] Hint Resolve fo_enc_loop : fuel.
Lemma fo_try_encoder r c n b sh : fuel_ok pos (_try_schedule_encoder_inputs cfg r c n b sh).
Proof. unfold _try_schedule_encoder_inputs. solve_fuel. Qed.
Lemma fo_alloc_encoder i l : fuel_ok pos (alloc_encoder i l).
Proof. unfold alloc_encoder. solve_fuel. Qed.
Lemma fo_enc_free_request r : fuel_ok pos (enc_free_request r).
Proof. unfold enc_free_request. solve_fuel. Qed.
#[local] Hint Resolve fo_alloc_slots fo_try_encoder fo_alloc_encoder fo_enc_free_request : fuel.
Lemma fo_preempt i : fuel_ok pos (_preempt_request i).
Proof. unfold _preempt_request. solve_fuel. Qed.
Lemma fo_cache_request i n : fuel_ok pos (cache_request sha256 i n).
Proof. unfold cache_request. solve_fuel. Qed.
#[local] Hint Resolve fo_preempt fo_cache_request : fuel.
Lemma fo_promote i : fuel_ok pos (_try_promote_blocked_waiting_request sha256 i).
Proof. unfold _try_promote_blocked_waiting_request, _update_waiting_for_remote_kv. solve_fuel. Qed.
Lemma fo_select : fuel_ok pos (_select_waiting_queue cfg).
Proof. unfold _select_waiting_queue. solve_fuel. Qed.
Lemma fo_gate i : fuel_ok pos (nelssa_gate cfg i).
Proof. unfold nelssa_gate. solve_fuel. Qed.
Lemma fo_waiting_computed i : fuel_ok pos (waiting_computed i).
Proof. unfold waiting_computed. solve_fuel. Qed.
Lemma ro_mamba_split r a b c : res_ok (_mamba_block_aligned_split cfg r a b c).
Proof. unfold _mamba_block_aligned_split. cbv zeta. solve_fuel. Qed.
#[local] Hint Resolve ro_mamba_split : fuel.
Lemma fo_waiting_tokens i c l e a t : fuel_ok pos (waiting_tokens cfg i c l e a t).
Proof. unfold waiting_tokens. solve_fuel. Qed.
End scheduler_ops.
#[export] Hint Resolve fo_set_rq fo_set_state fo_alloc_slots fo_try_encoder fo_alloc_encoder fo_enc_free_request fo_preempt fo_promote fo_select fo_gate fo_waiting_computed
  ro_mamba_split fo_waiting_tokens : fuel.

(** ** The loops of schedule *)
Definition ends {S A} (P : S -> Prop) (m : M S A) : Prop := forall s, P s -> (m s).1 <> Err OutOfFuel.

Section ends.
Context {S : Type}.
Lemma ends_bind {A B} (P : S -> Prop) (R : A -> S -> Prop) (m : M S A) (k : A -> M S B) :
  ends P m -> hoare P m R -> (forall a, ends (R a) (k a)) -> ends P (bind m k).
Proof.
  intros Hm Hh Hk s Hs. unfold bind. specialize (Hm s Hs). specialize (Hh s Hs). destruct (m s) as [[a|e] s']; [by apply Hk |].
  simpl in *. congruence.
Qed.
Lemma ends_fuel {A} (I P : S -> Prop) (m : M S A) : fuel_ok I m -> (forall s, P s -> I s) -> ends P m.
Proof. intros Hm HP s Hs. specialize (Hm s (HP s Hs)). destruct (m s) as [[a|e] s']; [done |]. simpl. congruence. Qed.
Lemma ends_pre {A} (P Q : S -> Prop) (m : M S A) : ends Q m -> (forall s, P s -> Q s) -> ends P m.
Proof. intros Hm HP s Hs. apply Hm. auto. Qed.
Lemma ends_pull {A} (X : Prop) (P : S -> Prop) (m : M S A) : (X -> ends P m) -> ends (fun s => X /\ P s) m.
Proof. intros Hm s [Hx Hs]. by apply Hm. Qed.
End ends.

Section loops.
Context {W : Type} `{Externals W} (cfg : SchedulerConfig) (sha256 : bytes -> bytes).
Abbreviation SS := (Scheduler W * Step)%type.
Implicit Types (s : Scheduler W) (t : Step).

(** A view of the step that calls like [f] keep, together with the positive block sizes. *)
Definition keeps_view (V : SS -> Prop) : Prop := forall s s' t, V (s, t) -> frame oid_of s s' -> V (s', t).
Definition posn (V : SS -> Prop) : SS -> Prop := fun x => sched_pos x.1 /\ V x.

Lemma posn_sch {A} (V : SS -> Prop) (f : SM W A) : quiet oid_of f -> fuel_ok sched_pos f -> keeps_view V ->
  hoare (posn V) (sch f) (fun _ => posn V).
Proof.
  intros Hq Hf HV [s t] [Hs Ht]. unfold sch, zoom. simpl. specialize (Hq s). specialize (Hf s Hs). destruct (f s) as [[a|e] s']; [| done].
  split; [done |]. by eapply HV.
Qed.
Lemma ends_sch {A} (P : SS -> Prop) (f : SM W A) : fuel_ok sched_pos f -> (forall x, P x -> sched_pos x.1) -> ends P (sch f).
Proof.
  intros Hf HP [s t] Hs. unfold sch, zoom. simpl. specialize (Hf s (HP _ Hs)). destruct (f s) as [[a|e] s']; [done |]. simpl. congruence.
Qed.
Lemma seq_sch {A B} (V : SS -> Prop) (f : SM W A) (k : A -> M SS B) : quiet oid_of f -> fuel_ok sched_pos f -> keeps_view V ->
  (forall a, ends (posn V) (k a)) -> ends (posn V) (bind (sch f) k).
Proof. intros Hq Hf HV Hk. eapply ends_bind; [apply ends_sch; [done | by intros x []] | by apply posn_sch | done]. Qed.

Lemma core_oid {A} (f : SM W A) : quiet core f -> quiet oid_of f.
Proof.
  intros Hf s. specialize (Hf s). destruct (f s) as [[a|e] s']; [| done]. destruct Hf as [F1 F2 F3 F4]. split; try done. intros j. specialize (F4 j).
  destruct (objs s' !! j), (objs s !! j); simpl in *; try done. f_equal. apply (f_equal (fmap oid_of)) in F4. by injection F4.
Qed.

(** *** Preemption: every victim leaves the running list *)
Definition gap (x : SS) : Z := zlen (running x.1) - st_index x.2.
Definition victim_view (i : Z) (n : nat) (g : Z) (x : SS) : Prop := i ∈ running x.1 /\ (length (running x.1) <= n)%nat /\ gap x <= g.
Lemma victim_view_keeps i n g : keeps_view (victim_view i n g).
Proof. intros s s' t (H1 & H2 & H3) [F _ _ _]. unfold victim_view, gap in *. simpl in *. by rewrite F. Qed.

Lemma pick_victim_view i n g : hoare (posn (victim_view i (S n) g)) (pick_victim cfg)
  (fun v => posn (fun x => (v <> i -> victim_view i n g x) /\ gap x <= g)).
Proof.
  assert (forall s t v a b, posn (victim_view i (S n) g) (s, t) -> running s = a ++ v :: b -> forall t', st_index t - 1 <= st_index t' ->
    posn (fun x => (v <> i -> victim_view i n g x) /\ gap x <= g) (with_running (a ++ b) s, t')) as Hrem.
  { intros s t v a b (Hs & Hi & Hn & Hg) E t' Ht. unfold gap, zlen in *. simpl in *. rewrite E in *. split; [done |].
    unfold victim_view, gap, zlen. simpl. rewrite elem_of_app, elem_of_cons in Hi. rewrite length_app in *. simpl in *. split; [| lia].
    intros Hne. split; [| lia]. rewrite elem_of_app. naive_solver. }
  intros [s t] HP. unfold pick_victim. unfold bind at 1, get. cbn [fst snd]. destruct (policy cfg).
  - destruct (pop_last_if _ (running s)) as [[v rest]|] eqn:Ep.
    + cbn. destruct (pop_last_if_split _ _ _ _ Ep) as (a & b & E & ->). eapply Hrem; [done | done | lia].
    + destruct (last (running s)) as [v|] eqn:El; [| done]. cbn. destruct (take_last_split _ _ El) as (a & E & ->).
      rewrite <- (app_nil_r a). eapply Hrem; [done | done | lia].
  - set (pick := match filter _ _ with [] => _ | _ => _ end). unfold bind at 1. destruct (pick (s, t)) as [[v|e] x] eqn:Ev; [| done].
    assert (x = (s, t)) as -> by (unfold pick in Ev; destruct (filter _ _); [destruct (running s) |]; try done; by injection Ev).
    unfold bind at 1, lift. destruct (remove_first v (running s)) as [rest|] eqn:Er; [| done].
    unfold bind at 1, sch at 1, zoom, modify. cbn [fst snd]. destruct (remove_first_split _ _ _ Er) as (a & b & E & ->).
    case_bool_decide as Hv; [| cbn; eapply Hrem; [done | done | lia]].
    unfold bind. destruct (unschedule v _) as [[[]|e] [s' t']] eqn:Eu; [| done]. cbn.
    apply unschedule_run in Eu as (-> & o & k & rest & _ & _ & _ & _ & _ & Ei & _). eapply Hrem; [done | done | lia].
Qed.

Lemma remove_first_ends x l : res_ok (remove_first x l).
Proof. induction l as [|y l IH]; simpl; [done |]. destruct (_ =? _); [done |]. destruct (remove_first x l); [done | congruence]. Qed.
Lemma sum_embeds_ends r ids : res_ok (sum_embeds r ids).
Proof.
  unfold sum_embeds. assert (forall ids acc, res_ok acc -> res_ok (foldl (fun acc i => match acc with
    Err e => Err e | Ok n => match get_num_encoder_embeds r i with Ok k => Ok (n + k) | Err e => Err e end end) acc ids)) as Hf; [| by apply Hf].
  clear. induction ids as [|i ids IH]; intros acc Hacc; simpl; [done |]. apply IH. destruct acc as [n|]; [| done].
  pose proof (ro_embeds r i). destruct (get_num_encoder_embeds r i); [done | congruence].
Qed.
Lemma pick_victim_ends (P : SS -> Prop) : ends P (pick_victim cfg).
Proof.
  assert (fuel_ok any (pick_victim (W := W) cfg)) as Hf; [| by eapply ends_fuel].
  assert (forall f, fuel_ok any (sch (W := W) (modify f))) as Hm by (by intros f [s t] _).
  assert (forall i, fuel_ok any (sch (W := W) (obj i))) as Ho by (intros i [s t] _; unfold sch, zoom, obj; simpl; by destruct (objs s !! i)).
  assert (forall f, fuel_ok any (stp (W := W) f)) as Hs by (by intros f [s t] _).
  pose proof remove_first_ends. pose proof sum_embeds_ends. unfold pick_victim, unschedule. solve_fuel.
Qed.

Lemma preempt_view i v n g : hoare (posn (fun x => (v <> i -> victim_view i n g x) /\ gap x <= g))
  (sch (_preempt_request v)) (fun _ => posn (fun x => (v <> i -> victim_view i n g x) /\ gap x <= g)).
Proof.
  intros [s t] (Hs & Hv). unfold sch, zoom. cbn [fst]. pose proof (fo_preempt (W := W) v s Hs) as Hf.
  destruct (_preempt_request v s) as [[[]|e] s'] eqn:Ep; [| done]. split; [done |].
  apply preempt_run in Ep as (s1 & q & Hn & -> & _). unfold victim_view, gap in *. simpl in *. by rewrite (nr_running _ _ _ Hn).
Qed.

(** The fuel is the number of running requests, one of which is the request itself. *)
Lemma alloc_or_preempt_ends n i k g : ends (posn (victim_view i n g)) (alloc_or_preempt cfg sha256 n i k).
Proof.
  induction n as [|n IH]; cbn [alloc_or_preempt].
  { intros [s t] (_ & Hi & Hn & _). simpl in *. apply Nat.le_0_r, nil_length_inv in Hn. rewrite Hn in Hi. by apply elem_of_nil in Hi. }
  apply seq_sch; [apply core_oid, quiet_alloc_slots; apply _ | apply fo_alloc_slots | apply victim_view_keeps |].
  intros [b|]; [by intros x _ |]. eapply ends_bind; [apply pick_victim_ends | apply pick_victim_view |]. intros v.
  eapply ends_bind; [apply ends_sch; [apply fo_preempt | by intros x []] | apply preempt_view |]. intros [].
  eapply (ends_bind _ (fun _ => posn (fun x => (v <> i -> victim_view i n g x) /\ gap x <= g))); [by intros x _ | by intros [s t] |]. intros [].
  destruct (Z.eqb_spec v i) as [-> | Hne]; [by intros x _ |]. eapply ends_pre; [apply IH |]. intros x (Hs & Hv & _). split; [done | by apply Hv].
Qed.
Lemma alloc_or_preempt_gap n i k g : hoare (posn (victim_view i n g)) (alloc_or_preempt cfg sha256 n i k) (fun _ => posn (fun x => gap x <= g)).
Proof.
  induction n as [|n IH]; cbn [alloc_or_preempt]; [apply hoare_raise |].
  eapply hoare_bind; [apply posn_sch; [apply core_oid, quiet_alloc_slots; apply _ | apply fo_alloc_slots | apply victim_view_keeps] |].
  intros [b|]; [apply hoare_ret; by intros x (? & ? & ? & ?) |]. eapply hoare_bind; [apply pick_victim_view |]. intros v.
  eapply hoare_bind; [apply preempt_view |]. intros [].
  eapply (hoare_bind _ _ (fun _ => posn (fun x => (v <> i -> victim_view i n g x) /\ gap x <= g))); [by intros [s t] |]. intros [].
  destruct (Z.eqb_spec v i) as [-> | Hne]; [apply hoare_ret; by intros x (? & ? & ?) |].
  eapply hoare_pre; [apply IH |]. intros x (Hs & Hv & _). split; [done | by apply Hv].
Qed.

(** *** The pass over the running requests: the gap to the end of the list shrinks *)
Lemma gap_keeps g : keeps_view (fun x => gap x <= g).
Proof. intros s s' t Hg [F _ _ _]. unfold gap in *. simpl in *. by rewrite F. Qed.

(** A computation that ends in [P]-states, with a postcondition. *)
Definition runs {A} (P : SS -> Prop) (m : M SS A) (Q : A -> SS -> Prop) : Prop := ends P m /\ hoare P m Q.
Lemma runs_bind {A B} (P : SS -> Prop) (R : A -> SS -> Prop) (m : M SS A) (k : A -> M SS B) Q :
  runs P m R -> (forall a, runs (R a) (k a) Q) -> runs P (bind m k) Q.
Proof. intros [H1 H2] Hk. split; [eapply ends_bind; [done | done |]; apply Hk | eapply hoare_bind; [done |]; apply Hk]. Qed.
Lemma runs_ret {A} (P : SS -> Prop) (a : A) (Q : A -> SS -> Prop) : (forall x, P x -> Q a x) -> runs P (ret a) Q.
Proof. intros HQ. split; [by intros x _ | by apply hoare_ret]. Qed.
Lemma runs_raise {A} (P : SS -> Prop) e (Q : A -> SS -> Prop) : e <> OutOfFuel -> runs P (raise e) Q.
Proof. intros He. split; [intros x _; simpl; congruence | apply hoare_raise]. Qed.
Lemma runs_sch {A} (V : SS -> Prop) (f : SM W A) : quiet oid_of f -> fuel_ok sched_pos f -> keeps_view V -> runs (posn V) (sch f) (fun _ => posn V).
Proof. intros Hq Hf HV. split; [apply ends_sch; [done | by intros x []] | by apply posn_sch]. Qed.
Lemma runs_stp (P Q : SS -> Prop) f : (forall s t, P (s, t) -> Q (s, f t)) -> runs P (stp f) (fun _ => Q).
Proof. intros HQ. split; [by intros x _ | by apply hoare_stp]. Qed.
Lemma runs_lift {A} (P : SS -> Prop) (r : res A) : res_ok r -> runs P (lift r) (fun a x => r = Ok a /\ P x).
Proof. intros Hr. split; [by intros x _ | by intros x Hx; destruct r]. Qed.
Lemma runs_pre {A} (P P' : SS -> Prop) (m : M SS A) Q : runs P m Q -> (forall x, P' x -> P x) -> runs P' m Q.
Proof. intros [H1 H2] HP. split; [by eapply ends_pre | by eapply hoare_pre]. Qed.
Lemma runs_post {A} (P : SS -> Prop) (m : M SS A) (Q Q' : A -> SS -> Prop) : runs P m Q -> (forall a x, Q a x -> Q' a x) -> runs P m Q'.
Proof. intros [H1 H2] HP. split; [done | by eapply hoare_weaken]. Qed.
Lemma runs_pull {A} (X : Prop) (P : SS -> Prop) (m : M SS A) Q : (X -> runs P m Q) -> runs (fun x => X /\ P x) m Q.
Proof. intros Hm. split; [apply ends_pull; apply Hm | apply hoare_pull; apply Hm]. Qed.
(** Reading the state, which is then known up to the frame. *)
Lemma runs_get {B} (P : SS -> Prop) (k : SS -> M SS B) Q : (forall x0, P x0 -> runs (fun x => x = x0) (k x0) Q) -> runs P (bind get k) Q.
Proof. intros Hk. split; intros x Hx; unfold bind, get; [by apply (proj1 (Hk x Hx)) | by apply (proj2 (Hk x Hx))]. Qed.

Lemma record_encoder_runs V i rid inputs nb ext : keeps_view V -> (forall s t a b, V (s, t) -> V (s, set_enc a b t)) ->
  runs (posn V) (record_encoder i rid inputs nb ext) (fun _ => posn V).
Proof.
  intros HV He. assert (forall l, runs (posn V) (sch (alloc_encoder i l)) (fun _ => posn V)) as Ha.
  { intros l. apply runs_sch; [apply quiet_alloc_encoder | apply fo_alloc_encoder | done]. }
  assert (forall a b, runs (posn V) (stp (fun t => set_enc (a t) (b t) t)) (fun _ => posn V)) as Hs.
  { intros a b. apply runs_stp. intros s t [H1 H2]. split; [done | by apply He]. }
  unfold record_encoder. eapply (runs_bind _ (fun _ => posn V)); [| intros []; apply Ha].
  destruct inputs as [[|z l]|]; try by apply runs_ret.
  eapply runs_bind; [apply (Hs (fun t => od_set rid (z :: l) (st_enc_inputs t)) (fun t => st_enc_budget t)) | intros []].
  eapply runs_bind; [apply Ha | intros []]. apply (Hs (fun t => st_enc_inputs t) (fun _ => nb)).
Qed.

Lemma schedule_running_runs i rid b n inputs nb ext g :
  runs (posn (fun x => gap x <= g)) (schedule_running i rid b n inputs nb ext) (fun _ => posn (fun x => gap x <= g - 1)).
Proof.
  unfold schedule_running.
  pose (V1 := fun x : SS => gap x <= g). pose (V2 := fun x : SS => gap x <= g - 1).
  assert (forall V' f, (forall s t, V' (s, t) -> V' (s, f t)) -> runs (posn V') (stp f) (fun _ => posn V')) as Hst.
  { intros V' f Hf. apply runs_stp. intros s t [H1 H2]. split; [done | by apply Hf]. }
  eapply runs_bind; [by apply (Hst V1) | intros []]. eapply runs_bind; [by apply (Hst V1) | intros []].
  eapply (runs_bind _ (fun _ => posn V2)); [apply runs_stp; intros s t [H1 H2]; split; [done |]; unfold V1, V2, gap in *; simpl in *; lia | intros []].
  eapply (runs_bind _ (fun _ => posn V2)).
  { unfold take_spec. eapply runs_bind; [apply (runs_sch V2); [apply quiet_obj | apply fo_obj | apply gap_keeps] | intros o'].
    destruct (spec_token_ids _); [by apply runs_ret |]. eapply (runs_bind _ (fun _ => posn V2)); [destruct (0 <? _); [by apply (Hst V2) | by apply runs_ret] | intros []].
    apply runs_sch; [by apply quiet_set_rq | apply fo_set_rq | apply gap_keeps]. }
  intros []. apply record_encoder_runs; [apply gap_keeps | done].
Qed.

Lemma running_step_runs g : runs (posn (fun x => gap x <= g)) (running_step cfg sha256)
  (fun f => posn (fun x => f = Next -> gap x <= g - 1)).
Proof.
  unfold running_step. apply runs_get. intros x0 [Hs0 Hg0].
  set (V := fun x : SS => running x.1 = running x0.1 /\ x.2 = x0.2).
  assert (keeps_view V) as HV by (intros s s' t [H1 H2] [F _ _ _]; split; simpl in *; congruence).
  assert (runs (posn V) (skip_index ;;; ret Next) (fun f => posn (fun x => f = Next -> gap x <= g - 1))) as Hskip.
  { eapply (runs_bind _ (fun _ => posn (fun x => gap x <= g - 1))); [| intros []; apply runs_ret; by intros x [? ?]].
    apply runs_stp. intros s t (H1 & H2 & H3). simpl in *. subst t. split; [done |]. unfold gap in *. simpl. rewrite H2. lia. }
  eapply runs_pre; [| intros x ->; exact (conj Hs0 (conj eq_refl eq_refl) : posn V x0)].
  eapply runs_bind; [apply runs_lift, ro_index |]. intros i. apply runs_pull. intros Hi.
  assert (i ∈ running x0.1) as Hin.
  { unfold py_index in Hi. destruct (_ <? 0); [done |]. destruct (_ !! _) eqn:E; [| done]. injection Hi as ->. by eapply list_elem_of_lookup_2. }
  eapply runs_bind; [apply runs_sch; [apply quiet_obj | apply fo_obj | done] |]. intros o. destruct (_ && _); [done |]. cbv zeta.
  eapply (runs_bind _ (fun _ => posn V)).
  { destruct (has_encoder_inputs _); [| by apply runs_ret].
    eapply runs_bind; [apply runs_sch; [apply quiet_try_encoder | apply fo_try_encoder | done] | intros e; by apply runs_ret]. }
  intros [[[inputs n1] nb] ext]. eapply (runs_bind _ (fun _ => posn V)).
  { destruct (need_mamba_block_aligned_split cfg); [| by apply runs_ret].
    eapply runs_post; [apply runs_lift, ro_mamba_split |]. by intros n x [_ ?]. }
  intros n. destruct (_ =? 0); [done |].
  eapply (runs_bind _ (fun _ => posn (fun x => gap x <= g))).
  { eapply runs_pre; [split; [apply (alloc_or_preempt_ends _ i n g) | apply (alloc_or_preempt_gap _ i n g)] |].
    intros [s t] (H1 & H2 & H3). simpl in *. subst t. split; [done |]. unfold victim_view, gap in *. simpl in *. rewrite H2. split_and!; [done | lia | lia]. }
  intros [b|]; [| apply runs_ret; by intros x [? _]].
  eapply runs_bind; [apply schedule_running_runs | intros []; apply runs_ret; by intros x [? ?]].
Qed.

Lemma running_loop_runs fuel : runs (posn (fun x => gap x <= Z.of_nat fuel)) (running_loop cfg sha256 fuel) (fun _ x => sched_pos x.1).
Proof.
  induction fuel as [|fuel IH]; cbn [running_loop]; apply runs_get; intros x [Hs Hg].
  - destruct (Z.ltb_spec (st_index x.2) (zlen (running x.1))); [unfold gap in Hg; lia |]. simpl. apply runs_ret. by intros y ->.
  - destruct (_ && _); [| apply runs_ret; by intros y ->]. eapply runs_bind; [eapply runs_pre; [apply (running_step_runs (Z.of_nat (S fuel))) | by intros y ->] |].
    intros []; [| apply runs_ret; by intros y [? _]]. eapply runs_pre; [apply IH |]. intros y [H1 H2]. split; [done |]. specialize (H2 eq_refl). lia.
Qed.

(** *** The pass over the waiting requests: every round takes a request out of a queue *)
Definition queued (x : SS) : Z := zlen (qitems (waiting x.1)) + zlen (qitems (skipped_waiting x.1)).
Lemma queued_keeps n : keeps_view (fun x => queued x <= n).
Proof. intros s s' t Hg [_ F1 F2 _]. unfold queued in *. simpl in *. by rewrite F1, F2. Qed.

Lemma pop_runs qn n : runs (posn (fun x => queued x <= n)) (sch (on_queue qn (fun st => pop_request (RequestQueue := any_queue st))))
  (fun _ => posn (fun x => queued x <= n - 1)).
Proof.
  assert (fuel_ok (sched_pos (W := W)) (on_queue qn (fun st => pop_request (RequestQueue := any_queue st)))) as Hf by eauto with fuel.
  split; [apply ends_sch; [done | by intros x []] |]. intros [s t] [Hs Hq]. specialize (Hf s Hs). unfold sch, zoom. cbn [fst snd].
  destruct (on_queue qn _ s) as [[i|e] s'] eqn:E; [| done]. split; [done |]. unfold on_queue in E. destruct (pop_request _) as [r q] eqn:Ep.
  injection E as -> <-. apply qitems_pop, Permutation_length in Ep. unfold queued, zlen in *. simpl in *. destruct qn; simpl in *; lia.
Qed.

Lemma prepend_ok store i (q : AnyQueue) : exists q', prepend_request (RequestQueue := any_queue store) i q = (Ok tt, q').
Proof. destruct q; simpl; eexists; reflexivity. Qed.

Lemma skip_request_runs qn n : runs (posn (fun x => queued x <= n)) (skip_request qn ;;; ret Next) (fun f => posn (fun x => f = Next -> queued x <= n - 1)).
Proof.
  eapply (runs_bind _ (fun _ => posn (fun x => queued x <= n - 1))); [| intros []; apply runs_ret; by intros x [? ?]].
  unfold skip_request. eapply runs_bind; [apply pop_runs |]. intros i. apply runs_get. intros x Hx.
  destruct (prepend_ok (deref x.1) i (st_skipped x.2)) as [q ->].
  eapply runs_bind; [by apply runs_lift |]. intros b. apply runs_stp. intros s t [_ <-]. done.
Qed.

Lemma admit_request_runs qn i k c inputs nb ext async n :
  runs (posn (fun x => queued x <= n)) (admit_request cfg qn i k c inputs nb ext async) (fun _ => posn (fun x => queued x <= n - 1)).
Proof.
  set (V := fun x : SS => queued x <= n - 1). assert (keeps_view V) as HV by apply queued_keeps.
  assert (forall f, (forall t, True) -> runs (posn V) (stp f) (fun _ => posn V)) as Hst by (intros f _; apply runs_stp; by intros s t [? ?]).
  assert (forall f, (forall o, oid_of (on_rq f o) = oid_of o) -> forall j, runs (posn V) (sch (set_rq j f)) (fun _ => posn V)) as Hrq.
  { intros f Hf j. apply runs_sch; [by apply quiet_set_rq | apply fo_set_rq | done]. }
  unfold admit_request. eapply runs_bind; [apply pop_runs |]. intros j. destruct async.
  - eapply runs_bind; [by apply Hrq | intros []]. apply runs_get. intros x Hx. destruct (prepend_ok (deref x.1) j (st_skipped x.2)) as [q ->].
    eapply runs_bind; [by apply runs_lift |]. intros b. eapply (runs_bind _ (fun _ => posn V)); [apply runs_stp; by intros s t [_ <-] | intros []].
    by apply Hrq.
  - eapply (runs_bind _ (fun _ => posn V)).
    { split; [by intros x _ | by intros [s t] [? ?]]. }
    intros []. eapply runs_bind; [apply runs_sch; [apply quiet_obj | apply fo_obj | done] |]. intros o. cbv zeta.
    eapply (runs_bind _ (fun _ => posn V)); [destruct (status _); first [by apply Hst | by apply runs_raise] | intros []].
    eapply (runs_bind _ (fun _ => posn V)); [destruct (max_loras cfg); [destruct (lora_request _) |]; first [by apply Hst | by apply runs_ret] | intros []].
    apply runs_get. intros x Hx. eapply (runs_pre (posn V)); [| by intros y ->].
    eapply runs_bind; [by apply Hst | intros []]. eapply runs_bind; [by apply Hrq | intros []]. eapply runs_bind; [by apply Hrq | intros []].
    by apply record_encoder_runs.
Qed.

Lemma waiting_step_runs n : runs (posn (fun x => queued x <= n)) (waiting_step cfg sha256) (fun f => posn (fun x => f = Next -> queued x <= n - 1)).
Proof.
  set (V := fun x : SS => queued x <= n). assert (keeps_view V) as HV by apply queued_keeps.
  assert (forall A (f : SM W A), quiet oid_of f -> fuel_ok sched_pos f -> runs (posn V) (sch f) (fun _ => posn V)) as Hs by (intros A f Hq Hf; by apply runs_sch).
  assert (runs (posn V) (ret Break) (fun f => posn (fun x => f = Next -> queued x <= n - 1))) as Hbreak by (apply runs_ret; by intros x [? _]).
  pose proof (fun qn => skip_request_runs qn n) as Hskip.
  unfold waiting_step. apply runs_get. intros x0 Hx0. eapply (runs_pre (posn V)); [| by intros x ->]. destruct (_ =? _); [done |].
  eapply runs_bind; [apply Hs; [apply quiet_select | apply fo_select] |]. intros [qn|]; [| by apply runs_raise].
  eapply runs_bind; [apply Hs; [apply quiet_peek | eauto with fuel] |]. intros i. eapply runs_bind; [apply Hs; [apply quiet_obj | apply fo_obj] |]. intros o.
  eapply (runs_bind _ (fun _ => posn V)).
  { destruct (_is_blocked_waiting_status _); [| by apply runs_ret].
    eapply runs_bind; [apply Hs; [apply quiet_promote; apply _ | apply fo_promote] | intros; by apply runs_ret]. }
  intros [|]; [done |]. destruct (lora_blocked cfg _ _); [done |].
  eapply runs_bind; [apply Hs; [apply quiet_gate; apply _ | apply fo_gate] |]. intros [|]; [done |].
  eapply runs_bind; [apply Hs; [apply quiet_computed | apply fo_waiting_computed] |]. intros [[[[[blocks local] external] computed] async]|]; [| done].
  eapply runs_bind; [apply Hs; [apply quiet_tokens | apply fo_waiting_tokens] |]. intros [[[[inputs k] nb] ext]|]; [| done].
  eapply runs_bind; [apply Hs; [apply quiet_obj | apply fo_obj] |]. intros o1. cbv zeta.
  eapply (runs_bind _ (fun _ => posn V)).
  { destruct inputs as [[|z zs]|]; try by apply runs_ret. destruct (_ && _); [| by apply runs_ret].
    eapply runs_post; [apply runs_lift, sum_embeds_ends |]. by intros a x [_ ?]. }
  intros net. eapply (runs_bind _ (fun _ => posn V)).
  { destruct (scheduler_reserve_full_isl cfg); [| by apply runs_ret]. apply Hs; [apply quiet_on_kv | eauto with fuel]. }
  intros fits. set (refuse := bind _ (fun _ => ret Break)).
  assert (runs (posn V) refuse (fun f => posn (fun x => f = Next -> queued x <= n - 1))) as Hrefuse.
  { eapply (runs_bind _ (fun _ => posn V)); [| by intros []]. destruct (has_encoder_inputs _); [| by apply runs_ret].
    apply Hs; [apply quiet_enc_free | apply fo_enc_free_request]. }
  destruct (negb fits); [done |]. eapply runs_bind; [apply Hs; [apply quiet_alloc_slots; apply _ | apply fo_alloc_slots] |]. intros [b|]; [| done].
  eapply (runs_bind _ (fun _ => posn V)).
  { destruct kv_connector; [| by apply runs_ret]. apply runs_get. intros y Hy. eapply (runs_pre (posn V)); [| by intros z ->].
    apply Hs; [apply quiet_upd_world | apply fo_upd_world]. }
  intros []. eapply runs_bind; [apply admit_request_runs | intros []; apply runs_ret; by intros x [? ?]].
Qed.

Lemma queue_empty qn s : zlen (qitems (queue_of qn s)) <= 0 -> queue_nonempty qn s = false.
Proof. unfold queue_nonempty, zlen. destruct (queue_of qn s) as [[d]|[h]]; simpl; [destruct d | destruct h]; simpl; done || lia. Qed.
Lemma queue_size_items qn s : queue_size qn s = zlen (qitems (queue_of qn s)).
Proof. unfold queue_size. by destruct (queue_of qn s) as [[d]|[h]]. Qed.

Lemma waiting_loop_runs fuel : runs (posn (fun x => queued x <= Z.of_nat fuel)) (waiting_loop cfg sha256 fuel) (fun _ x => sched_pos x.1).
Proof.
  induction fuel as [|fuel IH]; cbn [waiting_loop]; apply runs_get; intros x [Hs Hg].
  - unfold queued in Hg. pose proof (zlen_nonneg (qitems (waiting x.1))). pose proof (zlen_nonneg (qitems (skipped_waiting x.1))).
    rewrite (queue_empty Waiting), (queue_empty Skipped) by (simpl; lia). simpl. apply runs_ret. by intros y ->.
  - destruct (_ && _); [| apply runs_ret; by intros y ->]. eapply runs_bind; [eapply runs_pre; [apply (waiting_step_runs (Z.of_nat (S fuel))) | by intros y ->] |].
    intros []; [| apply runs_ret; by intros y [? _]]. eapply runs_pre; [apply IH |]. intros y [H1 H2]. split; [done |]. specialize (H2 eq_refl). lia.
Qed.

(** *** The rest of the step *)
Abbreviation pos := (fun x : SS => sched_pos x.1).
Lemma fo_sch {A} (f : SM W A) : fuel_ok sched_pos f -> fuel_ok pos (sch f).
Proof. intros Hf [s t] Hs. unfold sch, zoom. simpl. specialize (Hf s Hs). by destruct (f s) as [[a|e] s']. Qed.
Lemma fo_stp f : fuel_ok pos (stp (W := W) f).
Proof. by intros [s t] Hs. Qed.
#[local] Hint Resolve fo_sch fo_stp : fuel.

Lemma fo_collect_loras : fuel_ok pos (collect_loras (W := W) cfg).
Proof. unfold collect_loras. solve_fuel. Qed.
Lemma fo_prepend_all st rs : fuel_ok any (prepend_requests (RequestQueue := any_queue st) rs).
Proof.
  assert (fuel_ok any (fcfs_prepend_requests rs)) as Hf by (unfold fcfs_prepend_requests, fcfs_prepend; solve_fuel).
  assert (fuel_ok any (prio_prepend_requests st rs)) as Hp by (unfold prio_prepend_requests, prio_add; solve_fuel).
  intros [q|q] _; simpl; unfold on_left, on_right; [specialize (Hf q I) | specialize (Hp q I)].
  - by destruct (fcfs_prepend_requests rs q) as [[a|e] q'].
  - by destruct (prio_prepend_requests st rs q) as [[a|e] q'].
Qed.
#[local] Hint Resolve fo_prepend_all : fuel.
Lemma waiting_pass_runs : runs pos (waiting_pass cfg sha256) (fun _ => pos).
Proof.
  unfold waiting_pass. apply runs_get. intros x Hx. destruct (_ && _); [| apply runs_ret; by intros y ->].
  eapply runs_bind; [eapply runs_pre; [apply waiting_loop_runs |] |].
  - intros y ->. split; [done |]. unfold queued. rewrite !queue_size_items. simpl.
    pose proof (zlen_nonneg (qitems (waiting x.1))). pose proof (zlen_nonneg (qitems (skipped_waiting x.1))). lia.
  - intros []. apply runs_get. intros y Hy. apply (runs_pre pos); [| by intros z ->]. destruct (queue_bool _); [| by apply runs_ret].
    assert (forall l, fuel_ok pos (sch (on_queue (W := W) Skipped (fun st => prepend_requests (RequestQueue := any_queue st) l)))) as Hp by eauto with fuel.
    split; [by eapply ends_fuel |]. intros z Hz. specialize (Hp (queue_iter (RequestQueue := any_queue (deref y.1)) (st_skipped y.2)) z Hz).
    by destruct (sch _ z) as [[a|e] z'].
Qed.

Lemma fold_res_ends {A B} (f : B -> A -> res A) l : (forall b a, res_ok (f b a)) -> forall a, res_ok (fold_res f l a).
Proof. intros Hf. induction l as [|b l IH]; intros a; simpl; [done |]. pose proof (Hf b a). destruct (f b a); [apply IH | congruence]. Qed.
Lemma new_data_ends x b l : res_ok (new_request_data (W := W) cfg x b l).
Proof. unfold new_request_data, block_ids_of. by destruct (od_get _ _). Qed.
Lemma cached_ends x r b l : res_ok (cached_request (W := W) cfg x r b l).
Proof. unfold cached_request, block_ids_of. destruct (od_get _ _); [| done]. destruct (od_get _ _); [| done]. cbv zeta. by destruct (r && _). Qed.
Lemma make_cached_ends a b x : res_ok (_make_cached_request_data (W := W) cfg a b x).
Proof.
  unfold _make_cached_request_data. pose proof (fold_res_ends _ a (cached_ends x false) (mkCachedData [] [] [] [] [] [] [])) as Ha.
  destruct (fold_res _ a _); [apply fold_res_ends, cached_ends | congruence].
Qed.
Lemma fo_build_output : fuel_ok pos (build_output (W := W) cfg).
Proof.
  pose proof make_cached_ends. pose proof (fun x l => fold_res_ends _ l (new_data_ends x)). unfold build_output. solve_fuel. by apply fo_sch, fo_modify.
Qed.
Lemma fo_check_constraints : fuel_ok pos (check_constraints (W := W) cfg).
Proof. unfold check_constraints. solve_fuel. Qed.
Lemma fo_request_ref rid : fuel_ok (sched_pos (W := W)) (request_ref rid).
Proof. intros s Hs. unfold request_ref. by destruct (od_get rid _). Qed.
#[local] Hint Resolve fo_request_ref : fuel.
Lemma fo_after_schedule out : fuel_ok (sched_pos (W := W)) (_update_after_schedule cfg out).
Proof. unfold _update_after_schedule, advance_request, add_placeholders. solve_fuel. Qed.

Lemma schedule_passes_runs : runs (posn (fun x => st_index x.2 = 0)) (schedule_passes cfg sha256) (fun _ => pos).
Proof.
  assert (forall (m : M SS unit), fuel_ok pos m -> runs pos m (fun _ => pos)) as Hrun.
  { intros m Hm. split; [by eapply ends_fuel |]. intros x Hx. specialize (Hm x Hx). by destruct (m x) as [[a|e] y]. }
  unfold schedule_passes. eapply runs_bind; [apply runs_sch; [apply quiet_on_kv | eauto with fuel | by intros s s' t] |]. intros [].
  apply runs_get. intros x [Hx Hi]. eapply runs_bind; [eapply runs_pre; [apply running_loop_runs |] |].
  - intros y ->. split; [done |]. unfold gap, zlen. lia.
  - intros []. eapply runs_bind; [apply Hrun, fo_collect_loras | intros []]. apply waiting_pass_runs.
Qed.

Lemma schedule_steps_runs x : sched_pos x.1 /\ st_index x.2 = 0 ->
  match schedule_steps cfg sha256 x with (Ok _, y) => sched_pos y.1 | (Err e, _) => e <> OutOfFuel end.
Proof.
  intros Hx. destruct schedule_passes_runs as [H1 H2]. specialize (H1 x Hx). specialize (H2 x Hx). unfold schedule_steps, bind at 1.
  destruct (schedule_passes _ _ x) as [[[]|e] y]; [| simpl in *; congruence].
  assert (fuel_ok pos (check_constraints cfg ;;; build_output cfg)) as Hf; [| by apply (Hf y)].
  apply fo_bind; [apply fo_check_constraints | intros []; apply fo_build_output].
Qed.
End loops.

(** C6 (termination): a scheduling step terminates: the loop over the running requests, the
    preemption loop inside of it, the loop over the waiting requests, and the loops of the
    prefix-cache lookup all end within the bounds on their rounds, whatever the state of the
    scheduler, if the block sizes of the attention groups are positive. *)
Theorem schedule_terminates {W} `{Externals W} cfg sha256 (s : Scheduler W) :
  Forall (fun ag => 0 < s_block_size ag.1.1) (attention_groups (coordinator (kv_cache_manager s))) ->
  (schedule cfg sha256 s).1 <> Err OutOfFuel.
Proof.
  intros Hs. assert (ends (fun s' : Scheduler W => s' = s) (schedule cfg sha256)) as He; [| by apply He]. unfold schedule.
  eapply (ends_bind _ (fun _ => sched_pos)).
  - intros s' ->. pose proof (schedule_steps_runs cfg sha256 (s, initial_step cfg s) (conj Hs eq_refl)) as Hp.
    destruct (schedule_steps _ _ _) as [[out|e] x]; [done | simpl; congruence].
  - intros s' ->. pose proof (schedule_steps_runs cfg sha256 (s, initial_step cfg s) (conj Hs eq_refl)) as Hp.
    by destruct (schedule_steps _ _ _) as [[out|e] x].
  - intros out. apply (ends_fuel sched_pos); [| done]. pose proof (fo_after_schedule (W := W) cfg). solve_fuel.
Qed.

Lemma schedule_terminates_witness : exists s : Scheduler unit,
  length (attention_groups (coordinator (kv_cache_manager s))) = 2%nat /\ zlen (qitems (waiting s)) = 4 /\
  (schedule (demo_config FCFS) (fun y => y) s).1 <> Err OutOfFuel.
Proof.
  destruct (demo_start demo_hybrid_config true FCFS) as [s|] eqn:E; [| by vm_compute in E].
  assert (match demo_start demo_hybrid_config true FCFS with
          | Some s => bool_decide (length (attention_groups (coordinator (kv_cache_manager s))) = 2%nat) && (zlen (qitems (waiting s)) =? 4) &&
                      forallb (fun ag => 0 <? s_block_size ag.1.1) (attention_groups (coordinator (kv_cache_manager s)))
          | None => false end = true) as Ht by (vm_compute; reflexivity).
  rewrite E in Ht. rewrite !andb_true_iff, bool_decide_eq_true, Z.eqb_eq, forallb_forall in Ht. destruct Ht as [[H1 H2] H3].
  exists s. split; [exact H1 |]. split; [exact H2 |]. apply (schedule_terminates (demo_config FCFS) (fun y => y) s).
  apply Forall_forall. intros ag Hag. apply list_elem_of_In in Hag. specialize (H3 ag Hag). zbool. done.
Defined.
