(* ===== verification/Findings.v ===== *)
(** * Findings
    Executions in which KV-cache management and scheduling do not do what they mean to. *)
From Stdlib Require Import QArith.
From S2P Require Import Prelude OrdDict KVCacheBlock FreeQueue Request BlockHash BlockPool Managers CacheHit Coordinator KVCacheManager CachePolicy OffloadManager EncoderCache HeapQ RequestQueue SchedUtils Scheduler Schedule SchedulerUpdate SchedulerDemo SchedulerInv SchedulePass ScheduleProps.
#[local] Open Scope Z_scope.

Definition plain_request (rid : string) (tokens : list Z) (hashes : list bytes) (computed : Z) : Request :=
  mkRequest rid 0 0 None None None RUNNING None 1 (Some tokens) None ∅ (zlen tokens) [] tokens computed [] None [] 0 false
    hashes false.

(** ** EAGLE with a Mamba group *)

(** A full-attention and a Mamba group of block size 16, EAGLE on; a request of three full
    blocks is cached, then a second one with the same prefix is looked up. *)
Definition eagle_mamba_lookup : res (list nat * Z) :=
  let cfg := mkConfig 12 [mkGroup (mkSpec FullAttentionSpec 16 0) false; mkGroup (mkSpec (MambaSpec false 0) 16 0) false] None in
  match new_KVCacheManager cfg 1000 16 (Some 64) true true false false 1 1 false with
  | Err e => Err e
  | Ok k =>
    ((let* _ := allocate_slots (fun x => x) (plain_request "a" (replicate 48 5) [[1]; [2]; [3]] 0) 48 0 None 0 0 false 0 in
      let* x := get_computed_blocks (plain_request "b" (replicate 64 5) [[1]; [2]; [3]; [4]] 0) in
      ret (match x.1 with Blocks b => length <$> b | EmptyBlocks => [] end, x.2)) k).1
  end.

(** With EAGLE and a Mamba group, get_computed_blocks can report more computed
    tokens than the full-attention group has blocks for. The Mamba lookup is asked for one
    block more, because EAGLE drops the last, but does not drop it: here 48 tokens are
    reported as computed while the full-attention group reuses only two blocks, 32 tokens. *)
Lemma eagle_mamba_hit_mismatch : eagle_mamba_lookup = Ok ([2%nat; 3%nat], 48).
Proof. vm_compute. reflexivity. Qed.

(** ** The admission cap of sliding-window attention *)

(** A pool of three usable blocks, window 20, block size 16, at most 8 tokens per step:
    each call schedules tokens of a request whose computed tokens are given; a refusal
    would be reported as KeyError. *)
Definition swa_calls (calls : list (string * Z * Z)) : res unit :=
  let cfg := mkConfig 4 [mkGroup (mkSpec (SlidingWindowSpec 20) 16 0) false] None in
  match new_KVCacheManager cfg 1000 16 (Some 8) true false false false 1 1 false with
  | Err e => Err e
  | Ok k =>
    (foreach calls (fun '(rid, computed, new) =>
       let* x := allocate_slots (fun x => x) (plain_request rid (replicate 100 5) [] computed) new 0 None 0 0 true 0 in
       match x.1 with Some _ => ret tt | None => raise KeyError end) k).1
  end.

(** Allocate_slots of a running request with sliding-window attention can raise
    ValueError instead of refusing. The estimate compares the capped number of required
    blocks with the length of a table that still counts the skipped blocks, so it reports
    that no block is needed when one is: request a has computed 48 tokens and holds two real
    blocks, request b holds the third, and the next token of a finds no free block. *)
Lemma swa_admission_gap :
  let a := fun n : Z => ("a"%string, n, 8) in
  let before := [a 0; a 8; a 16; a 24; a 32; a 40; ("b"%string, 0, 8)] in
  swa_calls before = Ok tt /\ swa_calls (before ++ [("a"%string, 48, 1)]) = Err ValueError.
Proof. split; vm_compute; reflexivity. Qed.

(** ** External tokens in a hybrid model *)

(** A full-attention and a sliding-window group; request a (one block) and request c are
    cached and finished, so a's blocks are the first in the eviction order. Request b has
    a's block as a local hit in both groups and 16 more tokens from a KV connector. The
    result is the number of locally computed tokens and the block table of b. *)
Definition external_tokens_run : res (Z * option (list (list Z))) :=
  let cfg := mkConfig 9 [mkGroup (mkSpec FullAttentionSpec 16 0) false; mkGroup (mkSpec (SlidingWindowSpec 64) 16 0) false] None in
  match new_KVCacheManager cfg 1000 16 (Some 1000) true false false false 1 1 false with
  | Err e => Err e
  | Ok k =>
    ((let a := plain_request "a" (replicate 16 5) [[1]] 0 in
      let c := plain_request "c" (replicate 48 6) [[7]; [8]; [9]] 0 in
      let b := plain_request "b" (replicate 48 5) [[1]; [2]; [3]] 0 in
      let* _ := allocate_slots (fun x => x) a 16 0 None 0 0 false 0 in
      let* _ := allocate_slots (fun x => x) c 48 0 None 0 0 false 0 in
      kv_free a ;;; kv_free c ;;;
      let* x := get_computed_blocks b in
      let* _ := allocate_slots (fun x => x) b 16 x.2 (Some x.1) 0 16 true 0 in
      let* k := get in
      ret (x.2, kv_get_block_ids "b" k)) k).1
  end.

(** With several KV-cache groups and tokens from a KV connector, allocate_slots
    can give one block to two groups of a request. The groups are served one after another:
    the first takes new blocks for the external tokens before the second has claimed its
    cached blocks. Here block 2, the sliding-window group's cached block, becomes the
    full-attention group's block for the external tokens and stays in both tables. *)
Lemma external_tokens_share_block : external_tokens_run = Ok (16, Some [[1; 2; 4]; [2; 5; 3]]).
Proof. vm_compute. reflexivity. Qed.

(** ** ARC *)

(** With a capacity of two, the target of T1 grows to 2 while one block is in each of T1 and
    T2. The block of T2 is then read, and eviction is refused although the block of T1 is
    idle. *)
Definition arc_refusal : res (bool * list Z) :=
  let store k := let* o := @prepare_store _ (arc_policy (fun x => x)) [[k]] in
                 @complete_store _ (arc_policy (fun x => x)) [[k]] true ;;; ret o in
  let touch k := @otouch _ (arc_policy (fun x => x)) [[k]] in
  ((store 1 ;;; store 2 ;;; store 3 ;;; touch 1 ;;; store 1 ;;; touch 2 ;;; touch 3 ;;;
    @prepare_load _ (arc_policy (fun x => x)) [[3]] ;;;
    let* o := @prepare_store _ (arc_policy (fun x => x)) [[4]] in
    let* m := get in
    ret (bool_decide (o = None), (fun kb => st_ref_cnt kb.2) <$> t1 (_policy m)))
   (@new_CPUOffloadingManager _ (arc_policy (fun x => x)) 2 false)).1.

Example arc_refuses_idle_block : arc_refusal = Ok (true, [0]).
Proof. vm_compute. reflexivity. Qed.

(** ** LoRA names and cache salts *)

(** The first block of a request with LoRA adapter x and that of a request with cache
    salt x get the same extra keys. *)
Example lora_and_salt_share_keys :
  let with_lora := mkRequest "a" 0 0 None None (Some (mkLoRA "x" 1)) RUNNING None 1 (Some [1; 2]) None ∅ 2 [] [1; 2] 0 [] None [] 0
                     false [] false in
  let with_salt := mkRequest "b" 0 0 None None None RUNNING None 1 (Some [1; 2]) None ∅ 2 [] [1; 2] 0 [] (Some "x"%string) [] 0
                     false [] false in
  (generate_block_hash_extra_keys (fun x => x) 0 2 0 with_lora).1 = (generate_block_hash_extra_keys (fun x => x) 0 2 0 with_salt).1.
Proof. vm_compute. reflexivity. Qed.

(** C38 (error): with first-come first-served preemption that protects long requests, the
    request taken out of the running list can be one that was already scheduled in the same
    step; it is not taken out of the scheduled ones, and the final check of the step fails.
    The state fulfils every condition under which the check holds, except that a running
    request is marked long. *)
Theorem nelssa_fcfs_constraint_fails : exists s : Scheduler unit,
  demo_state 2 FCFS = Some s /\ step_ready (demo_config FCFS) s /\
  (exists x, schedule_passes (demo_config FCFS) (fun y => y) (s, initial_step (demo_config FCFS) s) = (Ok tt, x) /\
             running x.1 = [0; 1; 3] /\ st_running x.2 = [0; 1; 2; 3] /\ st_preempted x.2 = [2]) /\
  (schedule (demo_config FCFS) (fun y => y) s).1 = Err AssertionError.
Proof.
  destruct (demo_test_spec 2 FCFS (fun s => step_readyb (demo_config FCFS) s &&
    match schedule_passes (demo_config FCFS) (fun y => y) (s, initial_step (demo_config FCFS) s) with
    | (Ok _, x) => bool_decide (running x.1 = [0; 1; 3] /\ st_running x.2 = [0; 1; 2; 3] /\ st_preempted x.2 = [2])
    | _ => false
    end && match (schedule (demo_config FCFS) (fun y => y) s).1 with Err AssertionError => true | _ => false end))
    as (s & Hs & [[H1 H2]%andb_true_iff H3]%andb_true_iff); [vm_compute; reflexivity |].
  exists s. split; [exact Hs |]. clear Hs. split; [by apply step_readyb_sound |]. split.
  - destruct (schedule_passes _ _ _) as [[[]|e] x]; [| discriminate H2]. apply bool_decide_eq_true in H2. exists x. split; [reflexivity | exact H2].
  - destruct (schedule _ _ s).1 as [|[]]; first [discriminate H3 | reflexivity].
Qed.

(** ** A streaming session whose last sampled token completed a block *)
Definition session_request : Request :=
  mkRequest "s" 0 0 (Some demo_sampling) None None RUNNING None 100 (Some [1; 2; 3]) None ∅ 3 [] [1; 2; 3] 3 [] None [] 0 false [] false.
Definition session_update : StreamingUpdate := mkUpdate [] (Some [5; 6]) 100 1 (Some demo_sampling).
(** The request samples token 9, then takes the update. *)
Definition session_run {W} (hasher : BlockHasher) : SM W unit :=
  on_req 0 (append_output_token_ids hasher [9]) ;;; _update_request_as_session hasher 0 session_update.

(** An update of a streaming session discards the last sampled token but not
    the hash of the block this token completed: afterwards the first block holds the tokens
    1, 2, 3, 5 and is recorded under the hash of 1, 2, 3, 9. *)
Lemma session_stale_hash {W} sha256 hash_function NONE_HASH (s : Scheduler W) :
  let hash := fun toks => hash_function (NONE_HASH, toks, None) in
  let r := deref (session_run (Some (request_block_hasher sha256 hash_function NONE_HASH 4))
                    (with_objs {[0 := mkSR session_request 0 false false None true 0 false]} s)).2 0 in
  _all_token_ids r = [1; 2; 3; 5; 6] /\ block_hashes r = [hash [1; 2; 3; 9]] /\
  full_hashes sha256 hash_function NONE_HASH r 4 = [hash [1; 2; 3; 5]].
Proof. by vm_compute. Qed.
