(* ===== verification/EngineCore.v ===== *)
(** * EngineCore
    vllm/v1/engine/core.py: the loop around the scheduler. [step] schedules, runs the model,
    aborts what was aborted meanwhile and takes the output; [step_with_batch_queue] keeps
    several batches in flight; [pause_scheduler] and the client requests of EngineCoreProc
    come in between.

    The model executor is not part of the engine core: the class [Executor] lists the calls
    to it. A batch in flight is its scheduler output, the result of its future is asked for
    when the batch is taken. Ids that arrive in the aborts queue while the model runs, and
    whether the oldest future is done, are arguments. Log messages are left out, and so is
    the multi-modal receiver cache. *)
From S2P Require Import Prelude OrdDict KVCacheBlock FreeQueue Request BlockHash BlockPool Managers CacheHit Coordinator KVCacheManager EncoderCache HeapQ RequestQueue SchedUtils Scheduler Schedule SchedulerUpdate.

(** ** Calls to the model executor *)
Class Executor (W : Type) := {
  (** execute_model, followed by sample_tokens where it returns nothing *)
  run_model : SchedulerOutput -> W -> res ModelRunnerOutput * W;
  take_draft_token_ids : W -> option (list (string * list Z)) * W;
  executor_reset_encoder_cache : W -> W;
  (** whether the task of the pooling parameters is among the supported tasks *)
  pooling_task_supported : Request -> bool;
}.

Record EngineConfig := mkEngineConfig {
  batch_queue_size : Z;
  is_ec_consumer : bool;
  is_pooling_model : bool;
  use_spec_decode : bool;
  shutdown_timeout : Z;
}.

(** class EngineShutdownState *)
Inductive EngineShutdownState := SD_RUNNING | SD_REQUESTED | SD_SHUTTING_DOWN.

(** What is put into the output queue for a client: outputs and the finished requests. *)
Record ClientOutput := mkClientOutput {
  co_client : Z;
  co_outputs : list EngineCoreOutput;
  co_finished : gset string;
}.

(** The batch queue has the newest batch first, as [appendleft] and [pop] use it. The
    callbacks are those of pause_scheduler: whether to clear the caches. *)
Record EngineCore (W : Type) := mkEngine {
  scheduler : Scheduler W;
  batch_queue : list SchedulerOutput;
  aborts_queue : list (list string);
  _idle_state_callbacks : list bool;
  shutdown_state : EngineShutdownState;
  output_queue : list ClientOutput;
}.
Arguments mkEngine {W}.
Arguments scheduler {W}.
Arguments batch_queue {W}.
Arguments aborts_queue {W}.
Arguments _idle_state_callbacks {W}.
Arguments shutdown_state {W}.
Arguments output_queue {W}.

Abbreviation StepOutputs := (list (Z * list EngineCoreOutput) * gmap Z (gset string) * list KVCacheEvent)%type.
Definition no_outputs : StepOutputs := ([], ∅, []).

Inductive PauseMode := PauseAbort | PauseWait | PauseKeep.

(** Requests of the clients; utility calls by the method they name. *)
Inductive UtilityCall :=
  | UResetPrefixCache (reset_running_requests reset_connector : bool)
  | UResetEncoderCache
  | UPauseScheduler (mode : PauseMode) (clear_cache : bool)
  | UResumeScheduler.
Inductive ClientRequest :=
  | WAKEUP
  | ADD (i : Z) (o : SchedRequest)
  | CLIENT_ABORT (request_ids : list string)
  | UTILITY (call : UtilityCall)
  | EXECUTOR_FAILED.

Section engine.
Context {W : Type} `{Externals W} `{Executor W} (cfg : SchedulerConfig) (ecfg : EngineConfig) (sha256 : bytes -> bytes) (hasher : BlockHasher).
Abbreviation EM A := (M (EngineCore W) A).
Implicit Types e : EngineCore W.

Definition with_scheduler (s : Scheduler W) e := mkEngine s (batch_queue e) (aborts_queue e) (_idle_state_callbacks e) (shutdown_state e) (output_queue e).
Definition with_batches q e := mkEngine (scheduler e) q (aborts_queue e) (_idle_state_callbacks e) (shutdown_state e) (output_queue e).
Definition with_aborts q e := mkEngine (scheduler e) (batch_queue e) q (_idle_state_callbacks e) (shutdown_state e) (output_queue e).
Definition with_callbacks l e := mkEngine (scheduler e) (batch_queue e) (aborts_queue e) l (shutdown_state e) (output_queue e).
Definition with_shutdown x e := mkEngine (scheduler e) (batch_queue e) (aborts_queue e) (_idle_state_callbacks e) x (output_queue e).
Definition with_output q e := mkEngine (scheduler e) (batch_queue e) (aborts_queue e) (_idle_state_callbacks e) (shutdown_state e) q.

Definition on_sched {A} (f : SM W A) : EM A := zoom scheduler with_scheduler f.
(** A call that may raise on the state of the parts outside. *)
Definition try_world {A} (f : W -> res A * W) : SM W A := fun s => let (r, w) := f (world s) in (r, with_world w s).

(** SchedulerInterface.has_unfinished_requests and has_requests *)
Definition has_unfinished_requests (s : Scheduler W) : bool := 0 <? get_num_unfinished_requests s.
Definition has_requests (s : Scheduler W) : bool := has_unfinished_requests s || has_finished_requests s.

(** ** Requests *)
Definition engine_add_request (i : Z) (o : SchedRequest) : EM unit :=
  match pooling_params (rq o) with
  | Some _ => if pooling_task_supported (rq o) then ret tt else raise ValueError
  | None => ret tt
  end ;;;
  on_sched (add_new_request hasher i o).

Definition abort_requests (request_ids : list string) : EM unit :=
  let* _ := on_sched (finish_requests (Some request_ids) FINISHED_ABORTED) in ret tt.

(** [arrived]: what other threads have put into the queue. *)
Definition _process_aborts_queue (arrived : list (list string)) : EM unit :=
  let* e := get in
  match aborts_queue e ++ arrived with
  | [] => ret tt
  | l => modify (with_aborts []) ;;; abort_requests (concat l)
  end.

(** ** Steps *)
Definition step (arrived : list (list string)) : EM (StepOutputs * bool) :=
  let* e := get in
  if negb (has_requests (scheduler e)) then ret (no_outputs, false)
  else
    let* out := on_sched (schedule cfg sha256) in
    let* m := on_sched (try_world (run_model out)) in
    _process_aborts_queue arrived ;;;
    let* r := on_sched (update_from_output cfg sha256 hasher out m) in
    ret (r, 0 <? total_num_scheduled_tokens out).

Definition post_step (model_executed : bool) : EM unit :=
  if negb (is_async cfg) && use_spec_decode ecfg && model_executed then
    let* d := on_sched (on_world take_draft_token_ids) in
    match d with
    | Some drafts => on_sched (update_draft_token_ids drafts)
    | None => ret tt
    end
  else ret tt.

(** The drafts of the earlier step put into the output of a batch whose sampling waits. *)
Definition with_spec_tokens (spec : list (string * list Z)) (out : SchedulerOutput) : SchedulerOutput :=
  mkOutput (scheduled_new_reqs out) (scheduled_cached_reqs out) (num_scheduled_tokens out) (total_num_scheduled_tokens out)
    spec (scheduled_encoder_inputs out) (num_common_prefix_blocks out) (preempted_req_ids out)
    (out_finished_req_ids out) (free_encoder_mm_hashes out) (new_block_ids_to_zero out) (chunk_info out)
    (prefill_complete_reqs out) (has_structured_output_requests out) (pending_structured_output_tokens out).

(** Scheduling a batch: [Left] when the method returns at once, otherwise the batch whose
    sampling is deferred, with whether the model executes. *)
Definition schedule_batch (oldest_done : bool) : EM (unit + option SchedulerOutput * bool) :=
  let* out := on_sched (schedule cfg sha256) in
  let model_executed := is_ec_consumer ecfg && (0 <? total_num_scheduled_tokens out) in
  if negb (is_pooling_model ecfg) && model_executed && pending_structured_output_tokens out
  then ret (inr (Some out, model_executed))
  else
    modify (fun e => with_batches (out :: batch_queue e) e) ;;;
    let* e := get in
    if model_executed && (zlen (batch_queue e) <? batch_queue_size ecfg) && negb oldest_done
    then ret (inl tt) else ret (inr (None, model_executed)).

(** Taking the oldest batch, then queueing the deferred one. *)
Definition take_batch (arrived : list (list string)) (deferred : option SchedulerOutput) : EM StepOutputs :=
  let* e := get in
  match last (batch_queue e) with
  | None => raise IndexError
  | Some out =>
    modify (with_batches (take (length (batch_queue e) - 1) (batch_queue e))) ;;;
    let* m := on_sched (try_world (run_model out)) in
    _process_aborts_queue arrived ;;;
    let* r := on_sched (update_from_output cfg sha256 hasher out m) in
    match deferred with
    | None => ret tt
    | Some d =>
      let* d :=
        (if use_spec_decode ecfg then
           let* drafts := on_sched (on_world take_draft_token_ids) in
           match drafts with
           | None => raise AssertionError
           | Some drafts =>
             let* x := on_sched (drafts_in_output drafts (scheduled_spec_decode_tokens d) []) in
             ret (with_spec_tokens x.1 d)
           end
         else ret d) in
      modify (fun e => with_batches (d :: batch_queue e) e)
    end ;;;
    ret r
  end.

Definition step_with_batch_queue (arrived : list (list string)) (oldest_done : bool) : EM (option StepOutputs * bool) :=
  let* e := get in
  assert (zlen (batch_queue e) <? batch_queue_size ecfg) ;;;
  if has_requests (scheduler e) then
    let* b := schedule_batch oldest_done in
    match b with
    | inl _ => ret (None, true)
    | inr (deferred, model_executed) => let* r := take_batch arrived deferred in ret (Some r, model_executed)
    end
  else
    match batch_queue e with
    | [] => ret (None, false)
    | _ => let* r := take_batch arrived None in ret (Some r, false)
    end.

(** [step_fn] *)
Definition step_fn (arrived : list (list string)) (oldest_done : bool) : EM (option StepOutputs * bool) :=
  if 1 <? batch_queue_size ecfg then step_with_batch_queue arrived oldest_done
  else let* x := step arrived in ret (Some x.1, x.2).

(** ** Resets and pausing *)
Definition engine_reset_prefix_cache (reset_running_requests reset_connector : bool) : EM bool :=
  on_sched (reset_prefix_cache reset_running_requests reset_connector).
Definition engine_reset_encoder_cache : EM unit :=
  on_sched reset_encoder_cache ;;; on_sched (upd_world executor_reset_encoder_cache).
Definition _reset_caches : EM unit :=
  let* _ := engine_reset_prefix_cache true false in engine_reset_encoder_cache.

(** EngineCore.pause_scheduler *)
Definition pause_scheduler (mode : PauseMode) (clear_cache : bool) : EM unit :=
  match mode with
  | PauseWait => raise ValueError
  | _ =>
    match mode with
    | PauseAbort => let* _ := on_sched (finish_requests None FINISHED_ABORTED) in ret tt
    | _ => ret tt
    end ;;;
    on_sched (set_pause_state (match mode with PauseKeep => PAUSED_ALL | _ => PAUSED_NEW end)) ;;;
    if clear_cache then _reset_caches else ret tt
  end.
Definition resume_scheduler : EM unit := on_sched (set_pause_state UNPAUSED).
Definition is_scheduler_paused (s : Scheduler W) : bool := match _pause_state s with UNPAUSED => false | _ => true end.

(** ** EngineCoreProc *)

(** has_work; engines_running is False without data parallelism. *)
Definition has_work e : bool := has_requests (scheduler e) || match batch_queue e with [] => false | _ => true end.

Definition _send_abort_outputs (aborted_reqs : list (string * Z)) : EM unit :=
  let clients := remove_dups aborted_reqs.*2 in
  modify (fun e => with_output (output_queue e ++
    ((fun c => let ids := remove_dups (filter (fun x => x.2 = c) aborted_reqs).*1 in
       mkClientOutput c ((fun rid => mkEngineOutput rid [] (Some ABORT) None false) <$> ids) (list_to_set ids)) <$> clients)) e).

(** EngineCoreProc.pause_scheduler *)
Definition proc_pause_scheduler (mode : PauseMode) (clear_cache : bool) : EM unit :=
  match mode with
  | PauseAbort => let* aborted := on_sched (finish_requests None FINISHED_ABORTED) in _send_abort_outputs aborted
  | _ => ret tt
  end ;;;
  on_sched (set_pause_state (match mode with PauseKeep => PAUSED_ALL | _ => PAUSED_NEW end)) ;;;
  let* e := get in
  if negb (has_work e) then (if clear_cache then _reset_caches else ret tt)
  else modify (fun e => with_callbacks (_idle_state_callbacks e ++ [clear_cache]) e).

(** The callbacks are popped from the end and called until there are none. *)
Fixpoint notify_callbacks (l : list bool) : EM unit :=
  match l with
  | [] => ret tt
  | clear :: l' => modify (with_callbacks (reverse l')) ;;; (if clear then _reset_caches else ret tt) ;;; notify_callbacks l'
  end.
Definition _notify_idle_state_callbacks : EM unit := let* e := get in notify_callbacks (reverse (_idle_state_callbacks e)).

(** _handle_shutdown: whether the loop goes on. *)
Definition _handle_shutdown : EM bool :=
  let* e := get in
  match shutdown_state e with
  | SD_RUNNING => ret true
  | st =>
    match st with
    | SD_REQUESTED =>
      (if shutdown_timeout ecfg =? 0
       then let* aborted := on_sched (finish_requests None FINISHED_ABORTED) in _send_abort_outputs aborted
       else ret tt) ;;;
      modify (with_shutdown SD_SHUTTING_DOWN)
    | _ => ret tt
    end ;;;
    let* e := get in
    ret (has_work e)
  end.

(** A utility method; its exceptions become the failure message of its output. *)
Definition utility (c : UtilityCall) : EM unit :=
  match c with
  | UResetPrefixCache a b => let* _ := engine_reset_prefix_cache a b in ret tt
  | UResetEncoderCache => engine_reset_encoder_cache
  | UPauseScheduler mode clear => proc_pause_scheduler mode clear
  | UResumeScheduler => resume_scheduler
  end.
Definition _invoke_utility_method (c : UtilityCall) : EM unit := fun e => let (_, e') := utility c e in (Ok tt, e').

Definition _handle_client_request (r : ClientRequest) : EM unit :=
  let* e := get in
  let up := match shutdown_state e with SD_RUNNING => true | _ => false end in
  match r with
  | WAKEUP => ret tt
  | ADD i o =>
    if up then engine_add_request i o
    else modify (fun e => with_output (output_queue e ++
           [mkClientOutput (client_index o) [mkEngineOutput (request_id (rq o)) [] (Some ABORT) None false] {[request_id (rq o)]}]) e)
  | CLIENT_ABORT ids => abort_requests ids
  | UTILITY c => if up then _invoke_utility_method c else ret tt
  | EXECUTOR_FAILED => raise RuntimeError
  end.

(** The outputs of a step go to the clients: the finished sets are merged in, clients that
    only have a finished set come last. *)
Definition client_outputs (r : StepOutputs) : list ClientOutput :=
  ((fun x => mkClientOutput x.1 x.2 (default ∅ (r.1.2 !! x.1))) <$> r.1.1)
  ++ ((fun x => mkClientOutput x.1 [] x.2) <$> filter (fun x => x.1 ∉ r.1.1.*1) (map_to_list r.1.2)).

Definition _process_engine_step (arrived : list (list string)) (oldest_done : bool) : EM bool :=
  let* x := step_fn arrived oldest_done in
  (match x.1 with
   | Some r => modify (fun e => with_output (output_queue e ++ client_outputs r) e)
   | None => ret tt
   end) ;;;
  post_step x.2 ;;;
  ret x.2.
End engine.

Definition new_engine {W} (s : Scheduler W) : EngineCore W := mkEngine s [] [] [] SD_RUNNING [].
