(* ===== verification/Lifecycle.v ===== *)
(** * Lifecycle
    Where requests are: every unfinished request of the scheduler is in exactly one of the
    running list and the two queues, with a status that fits the place. Here: the invariant,
    the ways a request moves, and the calls of the scheduler one by one up to [schedule]. *)
From S2P Require Import Prelude OrdDict KVCacheBlock FreeQueue Request BlockHash BlockPool Managers CacheHit Coordinator KVCacheManager EncoderCache HeapQ RequestQueue SchedUtils Scheduler Schedule SchedulerInv SchedulePass ScheduleProps.

(** ** Statuses *)
Definition queued (st : RequestStatus) : bool := negb (status_is_finished st) && negb (bool_decide (st = RUNNING)).
Definition plain (st : RequestStatus) : bool := bool_decide (st = WAITING) || bool_decide (st = PREEMPTED).
Definition unfinished (st : RequestStatus) : bool := negb (status_is_finished st).

Lemma plain_queued st : plain st = true -> queued st = true.
Proof. by destruct st. Qed.
Lemma queued_unfinished st : queued st = true -> unfinished st = true.
Proof. by destruct st. Qed.

(** The part of a request object the invariant is about. *)
Definition tag (o : SchedRequest) : string * RequestStatus * bool := (request_id (rq o), status (rq o), resumable o).
#[export] Instance stable_tag : StableMemo tag.
Proof.
  intros o r' Hm. unfold tag. simpl. pose proof (f_equal request_id Hm) as E1. pose proof (f_equal status Hm) as E2. simpl in *. congruence.
Qed.

Section placed.
Context {W : Type}.
Implicit Types s : Scheduler W.

Definition tag_of s (i : Z) : option (string * RequestStatus * bool) := tag <$> objs s !! i.
Definition name_of s (i : Z) : option string := (fun g => g.1.1) <$> tag_of s i.
Definition stat_of s (i : Z) : option RequestStatus := (fun g => g.1.2) <$> tag_of s i.
Definition is_stat (f : RequestStatus -> bool) s (i : Z) : Prop := exists st, stat_of s i = Some st /\ f st = true.

Lemma is_stat_eq f s s' i : stat_of s' i = stat_of s i -> is_stat f s i -> is_stat f s' i.
Proof. unfold is_stat. by intros ->. Qed.
Lemma is_stat_impl (f g : RequestStatus -> bool) s i : (forall st, f st = true -> g st = true) -> is_stat f s i -> is_stat g s i.
Proof. intros Hfg (st & H1 & H2). exists st. auto. Qed.
Lemma is_stat_not (f g : RequestStatus -> bool) s i : (forall st, f st = true -> g st = false) -> is_stat f s i -> is_stat g s i -> False.
Proof. intros Hfg (st & H1 & H2) (st' & H3 & H4). apply Hfg in H2. congruence. Qed.
Lemma tag_stat s s' i : tag_of s' i = tag_of s i -> stat_of s' i = stat_of s i.
Proof. unfold stat_of. by intros ->. Qed.
Lemma tag_name s s' i : tag_of s' i = tag_of s i -> name_of s' i = name_of s i.
Proof. unfold name_of. by intros ->. Qed.

(** The requests are in the lists [rs] of running, [ws] of waiting and [ss] of skipped
    requests; those in [ex] are on their way. *)
Record placed (rs ws ss ex : list Z) s : Prop := {
  pl_nodup : NoDup (rs ++ ws ++ ss ++ ex);
  pl_run i : i ∈ rs -> is_stat (fun st => bool_decide (st = RUNNING)) s i;
  pl_wait i : i ∈ ws -> is_stat plain s i;
  pl_skip i : i ∈ ss -> is_stat queued s i;
  pl_ex i : i ∈ ex -> is_stat unfinished s i;
  pl_reg i : i ∈ rs ++ ws ++ ss ++ ex -> exists rid, name_of s i = Some rid /\ od_get rid (s_requests s) = Some i;
  pl_all rid i : od_get rid (s_requests s) = Some i ->
    name_of s i = Some rid /\ (is_stat status_is_finished s i \/ i ∈ rs ++ ws ++ ss ++ ex);
  pl_ok : od_ok (s_requests s);
}.

#[export] Instance placed_perm : Proper (Permutation ==> Permutation ==> Permutation ==> Permutation ==> eq ==> iff) placed.
Proof.
  assert (forall rs rs' ws ws' ss ss' ex ex' s, rs ≡ₚ rs' -> ws ≡ₚ ws' -> ss ≡ₚ ss' -> ex ≡ₚ ex' -> placed rs ws ss ex s -> placed rs' ws' ss' ex' s) as Himp.
  { intros rs rs' ws ws' ss ss' ex ex' s E1 E2 E3 E4 [H1 H2 H3 H4 H5 H6 H7 H8].
    assert (rs' ++ ws' ++ ss' ++ ex' ≡ₚ rs ++ ws ++ ss ++ ex) as E by (by rewrite E1, E2, E3, E4).
    split; try done; try (intros i Hi; first [rewrite <- E1 in Hi | rewrite <- E2 in Hi | rewrite <- E3 in Hi | rewrite <- E4 in Hi]; by auto).
    - by rewrite E.
    - intros i Hi. apply H6. by rewrite <- E.
    - intros rid i Hg. rewrite E. auto. }
  intros rs rs' E1 ws ws' E2 ss ss' E3 ex ex' E4 s s' ->. split; apply Himp; done.
Qed.

(** A request that is in one of the lists. *)
Lemma placed_unfinished rs ws ss ex s i : placed rs ws ss ex s -> i ∈ rs ++ ws ++ ss ++ ex -> is_stat unfinished s i.
Proof.
  intros Hp. rewrite !elem_of_app. intros [Hi | [Hi | [Hi | Hi]]].
  - eapply is_stat_impl; [| by apply (pl_run _ _ _ _ _ Hp)]. intros st ->%bool_decide_eq_true. done.
  - eapply is_stat_impl; [| by apply (pl_wait _ _ _ _ _ Hp)]. intros st ?. by apply queued_unfinished, plain_queued.
  - eapply is_stat_impl; [| by apply (pl_skip _ _ _ _ _ Hp)]. apply queued_unfinished.
  - by apply (pl_ex _ _ _ _ _ Hp).
Qed.
Lemma placed_find rs ws ss ex s rid i : placed rs ws ss ex s -> od_get rid (s_requests s) = Some i -> is_stat unfinished s i ->
  i ∈ rs ++ ws ++ ss ++ ex.
Proof.
  intros Hp Hg Hu. destruct (pl_all _ _ _ _ _ Hp rid i Hg) as [_ [Hf | Hi]]; [| done]. exfalso. eapply is_stat_not; [| exact Hf | exact Hu].
  intros st Hst. unfold unfinished. by rewrite Hst.
Qed.
Lemma placed_name_inj rs ws ss ex s i j : placed rs ws ss ex s -> i ∈ rs ++ ws ++ ss ++ ex -> j ∈ rs ++ ws ++ ss ++ ex ->
  name_of s i = name_of s j -> i = j.
Proof.
  intros Hp Hi Hj E. destruct (pl_reg _ _ _ _ _ Hp i Hi) as (r & E1 & E2). destruct (pl_reg _ _ _ _ _ Hp j Hj) as (r' & E3 & E4). congruence.
Qed.

(** A request that is on its way is nowhere else. *)
Lemma placed_head rs ws ss ex s i : placed rs ws ss (i :: ex) s ->
  is_stat unfinished s i /\ is_Some (objs s !! i) /\ (i ∉ rs) /\ (i ∉ ws) /\ (i ∉ ss) /\ (i ∉ ex).
Proof.
  intros Hp. pose proof (pl_ex _ _ _ _ _ Hp i ltac:(left)) as Hu. split; [done |]. split.
  - destruct Hu as (st & Hst & _). unfold stat_of, tag_of in Hst. destruct (objs s !! i); [by eexists | done].
  - pose proof (pl_nodup _ _ _ _ _ Hp) as Hnd. rewrite !NoDup_app, NoDup_cons in Hnd. set_solver.
Qed.

(** ** Changes *)

(** Only the status and the session flag of request [i] change. *)
Record changes (i : Z) s s' : Prop := {
  ch_name j : name_of s' j = name_of s j;
  ch_tag j : j <> i -> tag_of s' j = tag_of s j;
  ch_requests : s_requests s' = s_requests s;
}.
#[export] Instance changes_preorder i : PreOrder (changes i).
Proof.
  split; [by split |]. intros s1 s2 s3 [H1 H2 H3] [G1 G2 G3]. split; try congruence. intros j Hj. etrans; [by apply G2 | by apply H2].
Qed.
Lemma frame_changes i s s' : frame tag s s' -> changes i s s'.
Proof. intros Hf. split; [intros j; apply tag_name, Hf | intros j _; apply Hf | apply Hf]. Qed.
Lemma changes_set i f s : (forall o, request_id (rq (f o)) = request_id (rq o)) -> changes i s (with_objs (alter f i (objs s)) s).
Proof.
  intros Hf. split; [| | done].
  - intros j. unfold name_of, tag_of. simpl. destruct (decide (j = i)) as [-> | Hne]; [| by rewrite lookup_alter_ne].
    rewrite lookup_alter_eq. destruct (objs s !! i); simpl; [by rewrite Hf | done].
  - intros j Hj. unfold tag_of. simpl. by rewrite lookup_alter_ne.
Qed.

(** A request moves, and nothing else changes. *)
Lemma placed_move rs ws ss ex rs' ws' ss' ex' i st s s' : placed rs ws ss ex s -> changes i s s' -> is_stat unfinished s i ->
  rs' ++ ws' ++ ss' ++ ex' ≡ₚ rs ++ ws ++ ss ++ ex ->
  (forall j, j <> i -> (j ∈ rs' -> j ∈ rs) /\ (j ∈ ws' -> j ∈ ws) /\ (j ∈ ss' -> j ∈ ss)) ->
  stat_of s' i = Some st -> unfinished st = true -> (i ∈ rs' -> st = RUNNING) -> (i ∈ ws' -> plain st = true) -> (i ∈ ss' -> queued st = true) ->
  placed rs' ws' ss' ex' s'.
Proof.
  intros Hp [C1 C2 C3] Hiu E Hsub Hst Hu Hr Hw Hs.
  assert (forall f j, j <> i -> is_stat f s j -> is_stat f s' j) as Hkeep.
  { intros f j Hj. apply is_stat_eq, tag_stat, C2, Hj. }
  assert (forall f j, (j = i -> f st = true) -> (j <> i -> is_stat f s j) -> is_stat f s' j) as Hi.
  { intros f j H1 H2. destruct (decide (j = i)) as [-> | Hne]; [exists st; auto | auto]. }
  split.
  - rewrite E. apply Hp.
  - intros j Hj. apply Hi; [intros ->; apply bool_decide_eq_true; auto |]. intros Hne. apply Hp. by apply Hsub.
  - intros j Hj. apply Hi; [intros ->; auto |]. intros Hne. apply (pl_wait _ _ _ _ _ Hp). by apply Hsub.
  - intros j Hj. apply Hi; [intros ->; auto |]. intros Hne. apply (pl_skip _ _ _ _ _ Hp). by apply Hsub.
  - intros j Hj. apply Hi; [by intros -> |]. intros Hne. eapply placed_unfinished; [done |]. rewrite <- E. rewrite !elem_of_app. auto.
  - intros j. rewrite E, C1, C3. apply Hp.
  - intros rid j. rewrite E, C1, C3. intros (Hn & Hj)%(pl_all _ _ _ _ _ Hp). split; [done |].
    destruct Hj as [Hf | Hj]; [left | by right]. apply Hkeep; [| done]. intros ->. eapply is_stat_not; [| exact Hf | exact Hiu].
    intros st' Hst'. unfold unfinished. by rewrite Hst'.
  - rewrite C3. apply Hp.
Qed.

(** Requests are taken out of the lists. *)
Lemma placed_shrink rs ws ss ex rs' ws' ss' ex' s s' : placed rs ws ss ex s -> rs' ++ ws' ++ ss' ++ ex' ≡ₚ rs ++ ws ++ ss ++ ex ->
  (forall j, (j ∈ rs' -> j ∈ rs) /\ (j ∈ ws' -> j ∈ ws) /\ (j ∈ ss' -> j ∈ ss)) -> (forall i, tag_of s' i = tag_of s i) ->
  s_requests s' = s_requests s -> placed rs' ws' ss' ex' s'.
Proof.
  intros Hp E Hsub Ht Hr. assert (forall f j, is_stat f s j -> is_stat f s' j) as Hs by (intros f j; apply is_stat_eq, tag_stat, Ht).
  split; rewrite ?E, ?Hr.
  - apply Hp.
  - intros j Hj. apply Hs, Hp. by apply Hsub.
  - intros j Hj. apply Hs, (pl_wait _ _ _ _ _ Hp). by apply Hsub.
  - intros j Hj. apply Hs, (pl_skip _ _ _ _ _ Hp). by apply Hsub.
  - intros j Hj. apply Hs. eapply placed_unfinished; [done |]. rewrite <- E. rewrite !elem_of_app. auto.
  - intros j. rewrite E, (tag_name _ _ _ (Ht j)). apply Hp.
  - intros rid j. rewrite E, (tag_name _ _ _ (Ht j)). intros (Hn & [Hf | Hj])%(pl_all _ _ _ _ _ Hp); auto.
  - apply Hp.
Qed.

(** A request that finishes leaves the lists. *)
Lemma placed_finish rs ws ss ex rs' ws' ss' ex' i s s' : placed rs ws ss ex s -> changes i s s' -> NoDup (rs' ++ ws' ++ ss' ++ ex') ->
  (forall j, j ∈ rs' ++ ws' ++ ss' ++ ex' <-> j ∈ rs ++ ws ++ ss ++ ex /\ j <> i) ->
  (forall j, (j ∈ rs' -> j ∈ rs) /\ (j ∈ ws' -> j ∈ ws) /\ (j ∈ ss' -> j ∈ ss)) ->
  is_stat status_is_finished s' i -> placed rs' ws' ss' ex' s'.
Proof.
  intros Hp [C1 C2 C3] Hnd E Hsub Hf.
  assert (forall f j, j ∈ rs' ++ ws' ++ ss' ++ ex' -> is_stat f s j -> is_stat f s' j) as Hkeep.
  { intros f j Hj. apply is_stat_eq, tag_stat, C2. by apply E. }
  split; [done | | | | | | | by rewrite C3; apply Hp].
  - intros j Hj. apply Hkeep, Hp, Hsub; [rewrite !elem_of_app; auto | done].
  - intros j Hj. apply Hkeep, (pl_wait _ _ _ _ _ Hp), Hsub; [rewrite !elem_of_app; auto | done].
  - intros j Hj. apply Hkeep, (pl_skip _ _ _ _ _ Hp), Hsub; [rewrite !elem_of_app; auto | done].
  - intros j Hj. assert (j ∈ rs' ++ ws' ++ ss' ++ ex') as Hj' by (rewrite !elem_of_app; auto). apply Hkeep; [done |].
    eapply placed_unfinished; [done |]. by apply E.
  - intros j Hj. rewrite C1, C3. apply Hp. by apply E.
  - intros rid j. rewrite C1, C3. intros (Hn & Hj)%(pl_all _ _ _ _ _ Hp). split; [done |].
    destruct (decide (j = i)) as [-> | Hne]; [by left |]. destruct Hj as [Hj | Hj]; [left | right; by apply E].
    by eapply is_stat_eq; [apply tag_stat, C2 |].
Qed.

(** Requests that are only changed in other ways. *)
Lemma placed_frame rs ws ss ex s s' : placed rs ws ss ex s -> (forall i, tag_of s' i = tag_of s i) -> s_requests s' = s_requests s -> placed rs ws ss ex s'.
Proof.
  intros [H1 H2 H3 H4 H5 H6 H7 H8] Ht Hr.
  assert (forall f i, is_stat f s i -> is_stat f s' i) as Hs by (intros f i; apply is_stat_eq, tag_stat, Ht).
  split; try done; try (by auto); rewrite ?Hr; try done.
  - intros i Hi. rewrite (tag_name _ _ _ (Ht i)). auto.
  - intros rid i Hg. rewrite (tag_name _ _ _ (Ht i)). destruct (H7 rid i Hg) as [E [Hf | Hi]]; auto.
Qed.

(** A new request. *)
Lemma placed_add rs ws ss ex rs' ws' ss' ex' i g s s' : placed rs ws ss ex s -> tag_of s i = None -> tag_of s' i = Some g ->
  (forall j, j <> i -> tag_of s' j = tag_of s j) -> od_get g.1.1 (s_requests s) = None -> s_requests s' = od_set g.1.1 i (s_requests s) ->
  rs' ++ ws' ++ ss' ++ ex' ≡ₚ i :: rs ++ ws ++ ss ++ ex ->
  (forall j, j <> i -> (j ∈ rs' -> j ∈ rs) /\ (j ∈ ws' -> j ∈ ws) /\ (j ∈ ss' -> j ∈ ss)) ->
  unfinished g.1.2 = true -> (i ∈ rs' -> g.1.2 = RUNNING) -> (i ∈ ws' -> plain g.1.2 = true) -> (i ∈ ss' -> queued g.1.2 = true) ->
  placed rs' ws' ss' ex' s'.
Proof.
  intros Hp Hn Hg Ht Hnew Hreq E Hsub Hu Hr Hw Hs.
  assert (forall j rid, name_of s j = Some rid -> j <> i) as Hne by (intros j rid Hj ->; unfold name_of in Hj; by rewrite Hn in Hj).
  assert (forall j, j ∈ rs ++ ws ++ ss ++ ex -> j <> i) as Hne' by (intros j (r & Hj & _)%(pl_reg _ _ _ _ _ Hp); eauto).
  assert (forall f j, (j = i -> f g.1.2 = true) -> (j <> i -> is_stat f s j) -> is_stat f s' j) as Hi.
  { intros f j H1 H2. destruct (decide (j = i)) as [-> | Hj]; [exists g.1.2; split; [unfold stat_of; by rewrite Hg | auto] |].
    eapply is_stat_eq; [by apply tag_stat, Ht | auto]. }
  assert (name_of s' i = Some g.1.1) as Hname by (unfold name_of; by rewrite Hg).
  split.
  - rewrite E. constructor; [intros Hx; by apply (Hne' i Hx) | apply Hp].
  - intros j Hj. apply Hi; [intros ->; apply bool_decide_eq_true; auto |]. intros Hji. apply Hp. by apply Hsub.
  - intros j Hj. apply Hi; [intros ->; auto |]. intros Hji. apply (pl_wait _ _ _ _ _ Hp). by apply Hsub.
  - intros j Hj. apply Hi; [intros ->; auto |]. intros Hji. apply (pl_skip _ _ _ _ _ Hp). by apply Hsub.
  - intros j Hj. apply Hi; [by intros -> |]. intros Hji. eapply placed_unfinished; [done |].
    assert (j ∈ i :: rs ++ ws ++ ss ++ ex) as [? | ?]%elem_of_cons; [| done | done]. rewrite <- E. rewrite !elem_of_app. auto.
  - intros j. rewrite E, Hreq. intros [-> | Hj]%elem_of_cons; [exists g.1.1; by rewrite od_get_set, decide_True |].
    destruct (pl_reg _ _ _ _ _ Hp j Hj) as (r & E1 & E2). exists r. rewrite (tag_name _ _ j (Ht j (Hne' j Hj))), od_get_set, decide_False; [done | congruence].
  - intros r j. rewrite Hreq, od_get_set, E. destruct (decide (r = g.1.1)) as [-> | Hr'].
    + intros [= <-]. split; [done | right; left].
    + intros Hj. destruct (pl_all _ _ _ _ _ Hp r j Hj) as [En Hj']. pose proof (Hne j r En) as Hji. rewrite (tag_name _ _ j (Ht j Hji)). split; [done |].
      destruct Hj' as [? | ?]; [left; by eapply is_stat_eq; [apply tag_stat, Ht |] | right; by right].
  - rewrite Hreq. apply od_ok_set, Hp.
Qed.

(** Forgetting a finished request. *)
Lemma placed_delete rs ws ss ex s i rid : placed rs ws ss ex s -> name_of s i = Some rid -> od_get rid (s_requests s) = Some i ->
  is_stat status_is_finished s i -> placed rs ws ss ex (with_requests (od_del rid (s_requests s)) s).
Proof.
  intros Hp Hn Hg Hf. pose proof (pl_ok _ _ _ _ _ Hp) as Hok. pose proof Hp as [H1 H2 H3 H4 H5 H6 H7 _]. split; try done.
  - intros j Hj. destruct (H6 j Hj) as (r & E1 & E2). exists r. split; [done |]. simpl. rewrite od_get_del by done.
    destruct (decide (r = rid)) as [-> | _]; [| done]. exfalso. assert (j = i) as -> by congruence.
    eapply is_stat_not; [| exact Hf | eapply placed_unfinished; [exact Hp | exact Hj]]. intros st Hst. unfold unfinished. by rewrite Hst.
  - intros r j. simpl. rewrite od_get_del by done. destruct (decide (r = rid)); [done |]. apply H7.
  - by apply od_ok_del.
Qed.
End placed.

(** The invariant of the scheduler between two calls. *)
Definition life {W} (s : Scheduler W) : Prop := placed (running s) (qitems (waiting s)) (qitems (skipped_waiting s)) [] s.
