(* ===== verification/LifecycleSchedule.v ===== *)
(** * LifecycleSchedule
    [schedule] moves requests between the running list and the queues and keeps the
    invariant of Lifecycle.v; every request it schedules runs, or was preempted in the same
    step and waits. *)
From S2P Require Import Prelude OrdDict KVCacheBlock FreeQueue Request BlockHash BlockPool Managers CacheHit Coordinator KVCacheManager EncoderCache HeapQ RequestQueue SchedUtils Scheduler Schedule SchedulerInv SchedulePass ScheduleProps Lifecycle.

(** ** Computations that keep a predicate *)
Definition keeps {S A} (P : S -> Prop) (m : M S A) : Prop := hoare P m (fun _ => P).

Section keeps.
Context {S : Type} (P : S -> Prop).
Lemma keeps_bind {A B} (m : M S A) (k : A -> M S B) : keeps P m -> (forall a, keeps P (k a)) -> keeps P (bind m k).
Proof. intros Hm Hk. eapply hoare_bind; [apply Hm | apply Hk]. Qed.
Lemma keeps_ret {A} (a : A) : keeps P (ret a).
Proof. by apply hoare_ret. Qed.
Lemma keeps_raise {A} e : keeps P (raise (A := A) e).
Proof. apply hoare_raise. Qed.
Lemma keeps_get : keeps P get.
Proof. by apply hoare_get. Qed.
Lemma keeps_lift {A} (r : res A) : keeps P (lift r).
Proof. eapply hoare_weaken; [apply hoare_lift | done | by intros ? ? []]. Qed.
Lemma keeps_assert b : keeps P (assert b).
Proof. eapply hoare_weaken; [apply hoare_assert | done | by intros ? ? []]. Qed.
Lemma keeps_foreach {A} (l : list A) f : (forall x, keeps P (f x)) -> keeps P (foreach l f).
Proof. intros Hf. apply hoare_foreach. intros x _. apply Hf. Qed.
Lemma keeps_traverse {A B} (l : list A) (f : A -> M S B) : (forall x, keeps P (f x)) -> keeps P (traverse l f).
Proof.
  intros Hf. induction l as [|x l IH]; [apply keeps_ret |]. apply keeps_bind; [done | intros b]. apply keeps_bind; [done |].
  intros bs. apply keeps_ret.
Qed.
Lemma keeps_run {A} (m : M S A) s a s' : keeps P m -> m s = (Ok a, s') -> P s -> P s'.
Proof. intros Hm E Hs. specialize (Hm s Hs). by rewrite E in Hm. Qed.
End keeps.

Create HintDb keeps.
#[export] Hint Resolve keeps_ret keeps_raise keeps_get keeps_lift keeps_assert : keeps.
Ltac keeps_step :=
  match goal with
  | |- keeps _ (bind _ _) => apply keeps_bind; [| intros ?]
  | |- keeps _ (if ?b then _ else _) => destruct b
  | |- keeps _ (match ?x with _ => _ end) => destruct x
  | |- keeps _ (foreach _ _) => apply keeps_foreach; intros ?
  | |- keeps _ (traverse _ _) => apply keeps_traverse; intros ?
  | |- keeps _ (let _ := _ in _) => cbv zeta
  | |- keeps _ _ => solve [eauto with keeps]
  end.
Ltac solve_keeps := repeat keeps_step.

(** ** Calls that change one request *)
Section local.
Context {W : Type} `{Externals W}.
Implicit Types s : Scheduler W.

Record local (i : Z) s s' : Prop := {
  lc_running : running s' = running s;
  lc_waiting : waiting s' = waiting s;
  lc_skipped : skipped_waiting s' = skipped_waiting s;
  lc_changes : changes i s s';
}.
#[export] Instance local_preorder i : PreOrder (local i).
Proof. split; [by split |]. intros s1 s2 s3 [H1 H2 H3 H4] [G1 G2 G3 G4]. split; [congruence .. | by transitivity s2]. Qed.
Lemma frame_local i s s' : frame tag s s' -> local i s s'.
Proof. intros Hf. split; [apply Hf .. | by apply frame_changes]. Qed.
Lemma local_some i j s s' : local i s s' -> is_Some (objs s !! j) -> is_Some (objs s' !! j).
Proof.
  intros Hl [o Ho]. pose proof (ch_name _ _ _ (lc_changes _ _ _ Hl) j) as Hn. unfold name_of, tag_of in Hn. rewrite Ho in Hn.
  destruct (objs s' !! j); [by eexists | done].
Qed.

(** [f] ends with request [i] in status [st]. *)
Definition moves {A} (i : Z) (st : RequestStatus) (f : SM W A) : Prop := forall s a s', f s = (Ok a, s') -> is_Some (objs s !! i) ->
  local i s s' /\ stat_of s' i = Some st.
Lemma moves_before {A B} i st (f : SM W A) (k : A -> SM W B) : quiet tag f -> (forall a, moves i st (k a)) -> moves i st (bind f k).
Proof.
  intros Hf Hk s b s'. unfold bind. specialize (Hf s). destruct (f s) as [[a|e] s1]; [| done]. intros E Hi.
  pose proof (frame_local i _ _ Hf) as Hl. destruct (Hk a s1 b s' E (local_some _ _ _ _ Hl Hi)) as [H1 H2]. split; [by transitivity s1 | done].
Qed.
Lemma moves_after {A B} i st (f : SM W A) (k : A -> SM W B) : moves i st f -> (forall a, quiet tag (k a)) -> moves i st (bind f k).
Proof.
  intros Hf Hk s b s'. unfold bind. destruct (f s) as [[a|e] s1] eqn:E1; [| done]. intros E Hi. destruct (Hf s a s1 E1 Hi) as [H1 H2].
  specialize (Hk a s1). rewrite E in Hk. split; [transitivity s1; [done | by apply frame_local] |]. rewrite <- H2. apply tag_stat, Hk.
Qed.
Lemma moves_state i st : moves i st (set_state i st).
Proof.
  intros s a s' [= <- <-] [o Ho]. split; [split; [done .. | by apply changes_set] |]. unfold stat_of, tag_of. simpl.
  by rewrite lookup_alter_eq, Ho.
Qed.

Lemma quiet_tag_gate cfg i : quiet (W := W) tag (nelssa_gate cfg i).
Proof. unfold nelssa_gate. solve_quiet. by apply quiet_set_rq. Qed.
Lemma quiet_tag_remote_kv sha256 i : quiet tag (_update_waiting_for_remote_kv (W := W) sha256 i).
Proof. unfold _update_waiting_for_remote_kv. solve_quiet; try apply quiet_cache_request; try apply _; first [by apply quiet_set_rq | by apply quiet_modify]. Qed.

(** A blocked request becomes waiting, or nothing happens. *)
Lemma promote_run sha256 i s b s' : _try_promote_blocked_waiting_request sha256 i s = (Ok b, s') ->
  frame tag s s' \/ is_stat _is_blocked_waiting_status s i /\ local i s s' /\ is_stat plain s' i.
Proof.
  unfold _try_promote_blocked_waiting_request. unfold bind at 1, obj. destruct (objs s !! i) as [o|] eqn:Eo; [| done].
  unfold bind at 1, get. assert (forall st (m : SM W bool), _is_blocked_waiting_status (status (rq o)) = true -> plain st = true ->
    moves i st m -> m s = (Ok b, s') -> frame tag s s' \/ is_stat _is_blocked_waiting_status s i /\ local i s s' /\ is_stat plain s' i) as Hm.
  { intros st m Hb Hp Hm E. destruct (Hm s b s' E) as [H1 H2]; [by exists o |]. right. split; [| split; [done | by exists st]].
    exists (status (rq o)). split; [| done]. unfold stat_of, tag_of. by rewrite Eo. }
  destruct (status (rq o)) eqn:Est; try done.
  - destruct (_ && _); [| intros [= <- <-]; by left]. apply (Hm WAITING); [done | done |]. apply moves_after; [apply moves_state | intros; apply quiet_ret].
  - destruct (bool_decide _); [| intros [= <- <-]; by left].
    destruct (negb _); [apply (Hm PREEMPTED) | apply (Hm WAITING)]; try done;
      (apply moves_before; [apply quiet_tag_remote_kv | intros _; apply moves_after; [apply moves_state | intros; apply quiet_ret]]).
  - unfold bind, assert. destruct (match streaming_queue o with Some _ => _ | None => _ end); [| done]. intros [= <- <-]. by left.
Qed.
(** *** Preemption *)
Lemma preempt_moves v : exists m : SM W unit, moves v PREEMPTED m /\
  forall s, _preempt_request v s = (m ;;; on_queue Waiting (fun st => prepend_request (RequestQueue := any_queue st) v)) s.
Proof.
  exists (let* o := obj v in assert (bool_decide (status (rq o) = RUNNING)) ;;; on_kv (kv_free (rq o)) ;;; enc_free_request (rq o) ;;;
    set_state v PREEMPTED ;;; set_rq v (with_computed 0) ;;; set_rq v (with_spec []) ;;;
    set_rq v (fun r => with_preemptions (num_preemptions r + 1) r)).
  split.
  - do 4 (apply moves_before; [eauto with quiet | intros ?]). apply moves_after; [apply moves_state | intros _].
    solve_quiet; by apply quiet_set_rq.
  - intros s. unfold _preempt_request, bind. destruct (obj v s) as [[o|e] s1]; [| done]. destruct (assert _ s1) as [[[]|e] s2]; [| done].
    destruct (on_kv _ s2) as [[[]|e] s3]; [| done]. by destruct (enc_free_request _ s3) as [[[]|e] s4].
Qed.

(** What a preemption does to the places. *)
Lemma preempt_place rs ss ex v s s' : placed rs (qitems (waiting s)) ss (v :: ex) s -> _preempt_request v s = (Ok tt, s') ->
  placed rs (qitems (waiting s')) ss ex s' /\ running s' = running s /\ skipped_waiting s' = skipped_waiting s /\
  qitems (waiting s') ≡ₚ v :: qitems (waiting s) /\ changes v s s'.
Proof.
  intros Hp. destruct (preempt_moves v) as (m & Hm & ->). destruct (placed_head _ _ _ _ _ _ Hp) as (Hu & Hs & Hv & _).
  unfold bind. destruct (m s) as [[[]|e] s1] eqn:E1; [| done]. destruct (Hm s tt s1 E1 Hs) as [[L1 L2 L3 L4] Hst].
  unfold on_queue. cbn [queue_of with_queue]. destruct (prepend_request _ _) as [r q] eqn:Eq. intros [= -> <-].
  apply qitems_prepend in Eq. rewrite L2 in Eq. cbn [waiting with_waiting running skipped_waiting].
  split; [| split; [done | split; [done | split; [done |]]]].
  - eapply (placed_move _ _ _ _ _ _ _ _ v PREEMPTED); [exact Hp | by destruct L4 | done | rewrite Eq; solve_Permutation | | done | done | done | done | done].
    intros j Hj. rewrite Eq. set_solver.
  - by destruct L4.
Qed.
End local.

(** ** The invariant of the passes *)
Section pass.
Context {W : Type} `{Externals W} (cfg : SchedulerConfig) (sha256 : bytes -> bytes).
Abbreviation SS := (Scheduler W * Step)%type.
Implicit Types (s : Scheduler W) (t : Step) (x : SS).

(** [miss]: requests that are being moved. *)
Record lpass (miss : list Z) x : Prop := {
  lp_placed : placed (running x.1) (qitems (waiting x.1)) (qitems (skipped_waiting x.1)) (miss ++ qitems (st_skipped x.2)) x.1;
  lp_skip i : i ∈ qitems (st_skipped x.2) -> is_stat queued x.1 i;
}.
(** The requests that have tokens, once each, are at places that satisfy [ok]. *)
Definition keyed (ok : Z -> Prop) x : Prop := od_ok (st_tokens x.2) /\
  forall rid, rid ∈ (st_tokens x.2).*1 -> exists i, name_of x.1 i = Some rid /\ ok i.

Lemma lpass_frame miss s s' t : lpass miss (s, t) -> frame tag s s' -> lpass miss (s', t).
Proof.
  intros [H1 H2] Hf. split; simpl in *.
  - rewrite (fr_running _ _ _ Hf), (fr_waiting _ _ _ Hf), (fr_skipped _ _ _ Hf). eapply placed_frame; [exact H1 | apply Hf | apply Hf].
  - intros i Hi. eapply is_stat_eq; [apply tag_stat, Hf | auto].
Qed.
Lemma lpass_step miss s t t' : lpass miss (s, t) -> st_skipped t' = st_skipped t -> lpass miss (s, t').
Proof. intros [H1 H2] E. split; simpl in *; by rewrite E. Qed.

Lemma keyed_frame (ok ok' : Z -> Prop) s s' t : keyed ok (s, t) -> (forall i, name_of s' i = name_of s i) -> (forall i, ok i -> ok' i) -> keyed ok' (s', t).
Proof. intros [Hd Hk] Hn Hok. split; [done |]. intros rid Hr. destruct (Hk rid Hr) as (i & E & Hi). exists i. simpl. rewrite Hn. auto. Qed.

(** Taking a request out of the running list. *)
Lemma lpass_victim s t v a b : lpass [] (s, t) -> running s = a ++ v :: b -> lpass [v] (with_running (a ++ b) s, t).
Proof.
  intros [H1 H2] E. split; [| done]. simpl in *. rewrite E in H1.
  eapply placed_shrink; [exact H1 | solve_Permutation | set_solver | done | done].
Qed.

Definition rok (miss : list Z) x (i : Z) : Prop := i ∈ running x.1 \/ i ∈ miss \/ i ∈ qitems (waiting x.1) /\ i ∈ st_preempted x.2.
Definition rlife miss x : Prop := lpass miss x /\ qitems (st_skipped x.2) = [] /\ keyed (rok miss x) x.

Lemma rlife_frame miss s s' t : rlife miss (s, t) -> frame tag s s' -> rlife miss (s', t).
Proof.
  intros (H1 & H0 & H2) Hf. split; [by eapply lpass_frame |]. split; [done |]. eapply keyed_frame; [exact H2 | intros i; apply tag_name, Hf |].
  intros i. unfold rok. simpl. by rewrite (fr_running _ _ _ Hf), (fr_waiting _ _ _ Hf).
Qed.
(** The keys of the token table do not grow. *)
Lemma rlife_step miss s t t' : rlife miss (s, t) -> st_skipped t' = st_skipped t -> st_preempted t' = st_preempted t ->
  st_tokens t' `sublist_of` st_tokens t -> rlife miss (s, t').
Proof.
  intros (H1 & H0 & Hd & H2) E1 E2 Hs. pose proof (fmap_sublist fst _ _ Hs) as Hk. split; [by eapply lpass_step |]. split; [simpl in *; by rewrite E1 |].
  split; [exact (sublist_NoDup _ _ Hd Hk) |]. apply sublist_submseteq in Hk. intros rid Hr. simpl in Hr. destruct (H2 rid (elem_of_submseteq _ _ _ Hr Hk)) as (i & E & Hi). exists i.
  unfold rok in *. simpl in *. by rewrite E2.
Qed.

Lemma rlife_victim s t v a b : rlife [] (s, t) -> running s = a ++ v :: b -> rlife [v] (with_running (a ++ b) s, t).
Proof.
  intros (H1 & H0 & Hd & H2) E. split; [by apply lpass_victim |]. split; [done |]. split; [done |]. intros rid Hr. destruct (H2 rid Hr) as (i & En & Hi). exists i. split; [done |].
  unfold rok in *. simpl in *. rewrite E in Hi. set_solver.
Qed.

(** [i] still runs when another request was taken out. *)
Definition still (i : Z) (g : string * RequestStatus * bool) x : Prop := i ∈ running x.1 /\ tag_of x.1 i = Some g.
Lemma still_victim i g s t v a b t' : still i g (s, t) -> running s = a ++ v :: b -> v <> i -> still i g (with_running (a ++ b) s, t').
Proof. intros [H1 H2] E Hne. split; [| done]. simpl in *. rewrite E in H1. set_solver. Qed.

Lemma py_index_elem {A} (l : list A) k a : py_index l k = Ok a -> a ∈ l.
Proof.
  unfold py_index. destruct (_ <? 0); [done |]. destruct (l !! _) as [b|] eqn:E; [| done]. intros [= <-]. by eapply list_elem_of_lookup_2.
Qed.
Lemma od_set_keys {V} (k : string) (v : V) (d : list (string * V)) rid : rid ∈ (od_set k v d).*1 -> rid = k \/ rid ∈ d.*1.
Proof.
  destruct (od_get k d) as [v'|] eqn:E.
  - pose proof (od_keys_set_old k v d (od_get_Some_key _ _ _ E)) as Ek. unfold od_keys in Ek. rewrite Ek. auto.
  - rewrite od_set_new by done. rewrite fmap_app, elem_of_app. simpl. set_solver.
Qed.

Lemma pick_victim_life i g : hoare (fun x => rlife [] x /\ still i g x) (pick_victim cfg) (fun v x => rlife [v] x /\ (v <> i -> still i g x)).
Proof.
  intros [s t] [Hr Hs]. unfold pick_victim. unfold bind at 1, get. cbn [fst snd].
  assert (forall v a b, running s = a ++ v :: b -> rlife [v] (with_running (a ++ b) s, t) /\ (v <> i -> still i g (with_running (a ++ b) s, t))) as Hv.
  { intros v a b E. split; [by apply rlife_victim | intros; by eapply still_victim]. }
  destruct (policy cfg).
  - destruct (pop_last_if _ (running s)) as [[v rest]|] eqn:Ep.
    + cbn. destruct (pop_last_if_split _ _ _ _ Ep) as (a & b & E & ->). by apply Hv.
    + destruct (last (running s)) as [v|] eqn:El; [| done]. cbn. destruct (take_last_split _ _ El) as (a & E & ->).
      rewrite <- (app_nil_r a). by apply Hv.
  - set (pick := match filter _ _ with [] => _ | _ => _ end). unfold bind at 1. destruct (pick (s, t)) as [[v|e] x] eqn:Ev; [| done].
    assert (x = (s, t)) as -> by (unfold pick in Ev; destruct (filter _ _); [destruct (running s) |]; try done; by injection Ev).
    unfold bind at 1, lift. destruct (remove_first v (running s)) as [rest|] eqn:Er; [| done].
    unfold bind at 1, sch at 1, zoom, modify. cbn [fst snd]. destruct (remove_first_split _ _ _ Er) as (a & b & E & ->).
    destruct (Hv v a b E) as [H1 H2]. case_bool_decide as Hv'; [| by cbn].
    unfold bind. destruct (unschedule v _) as [[[]|e] [s' t']] eqn:Eu; [| done]. cbn.
    apply unschedule_run in Eu as (-> & o & k & rest & _ & _ & _ & G4 & _ & _ & _ & _ & _ & G10 & G11). split; [| done].
    eapply rlife_step; [exact H1 | done | done |]. rewrite G4. apply od_del_sublist.
Qed.

Lemma preempt_life i g v : hoare (fun x => rlife [v] x /\ (v <> i -> still i g x))
  (sch (_preempt_request v) ;;; stp (fun t => set_preempted (st_preempted t ++ [v]) t)) (fun _ x => rlife [] x /\ (v <> i -> still i g x)).
Proof.
  intros [s t] [([Hp Hk] & H0 & Hd & Hkey) Hs]. unfold bind, sch, zoom. cbn [fst]. destruct (_preempt_request v s) as [[[]|e] s'] eqn:Ep; [| done]. cbn.
  simpl in Hp. destruct (preempt_place _ _ _ v s s' Hp Ep) as (P1 & P2 & P3 & P4 & P5). simpl in *.
  destruct (placed_head _ _ _ _ _ _ Hp) as (_ & _ & _ & _ & _ & Hv). split; [split; [split; simpl | split; [done | split; [done |]]] |].
  - by rewrite P2, P3.
  - intros j Hj. eapply is_stat_eq; [apply tag_stat, (ch_tag _ _ _ P5) | by apply Hk]. by intros ->.
  - intros rid Hr. destruct (Hkey rid Hr) as (j & E & Hj). exists j. simpl. rewrite (ch_name _ _ _ P5). split; [done |].
    unfold rok in *. simpl in *. rewrite P2, P4. set_solver.
  - intros Hne. destruct (Hs Hne) as [S1 S2]. split; simpl; [by rewrite P2 |]. rewrite (ch_tag _ _ _ P5); [done | congruence].
Qed.

Lemma alloc_or_preempt_life fuel i n g : hoare (fun x => rlife [] x /\ still i g x) (alloc_or_preempt cfg sha256 fuel i n)
  (fun b x => rlife [] x /\ (b <> None -> still i g x)).
Proof.
  induction fuel as [|fuel IH]; cbn [alloc_or_preempt]; [apply hoare_raise |].
  eapply hoare_bind; [apply (hoare_sch tag); [apply quiet_alloc_slots; apply _ |] |].
  - intros s s' t [Hr [S1 S2]] Hf. split; [by eapply rlife_frame |]. split; simpl in *; [by rewrite (fr_running _ _ _ Hf) |].
    rewrite <- S2. apply Hf.
  - intros [b|]; [apply hoare_ret; naive_solver |]. eapply hoare_bind; [apply (pick_victim_life i g) |]. intros v.
    apply hoare_assoc. eapply hoare_bind; [apply preempt_life |]. intros []. destruct (Z.eqb_spec v i) as [-> | Hne].
    + apply hoare_ret. naive_solver.
    + eapply hoare_pre; [apply IH |]. naive_solver.
Qed.

(** *** The pass over the running requests *)
Lemma keeps_sch {A} (P : SS -> Prop) (f : SM W A) : quiet tag f -> (forall s s' t, P (s, t) -> frame tag s s' -> P (s', t)) -> keeps P (sch f).
Proof. apply hoare_sch. Qed.
Lemma keeps_stp (P : SS -> Prop) f : (forall s t, P (s, t) -> P (s, f t)) -> keeps P (stp f).
Proof. intros HP. by apply hoare_stp. Qed.

Lemma rlife_stp f : (forall t, st_skipped (f t) = st_skipped t /\ st_preempted (f t) = st_preempted t /\ st_tokens (f t) = st_tokens t) ->
  keeps (rlife []) (stp f).
Proof. intros Hf. apply keeps_stp. intros s t Hr. destruct (Hf t) as (E1 & E2 & E3). eapply rlife_step; [done .. |]. by rewrite E3. Qed.

Lemma record_encoder_keeps (P : SS -> Prop) i rid inputs nb ext : (forall s s' t, P (s, t) -> frame tag s s' -> P (s', t)) ->
  (forall s t a b, P (s, t) -> P (s, set_enc a b t)) -> keeps P (record_encoder i rid inputs nb ext).
Proof.
  intros Hf He. unfold record_encoder. solve_keeps; first [by apply keeps_stp; intros; apply He | apply keeps_sch; [apply quiet_alloc_encoder | done]].
Qed.

Lemma take_spec_keeps i n : keeps (rlife []) (take_spec i n).
Proof.
  assert (forall A (f : SM W A), quiet tag f -> keeps (rlife []) (sch f)) as Hq.
  { intros A f Hf. apply keeps_sch; [done | intros; by eapply rlife_frame]. }
  unfold take_spec. solve_keeps; first [by apply rlife_stp | apply Hq, quiet_obj | by apply Hq, quiet_set_rq].
Qed.

Lemma schedule_running_life i b n inputs nb ext g :
  hoare (fun x => rlife [] x /\ still i g x) (schedule_running i g.1.1 b n inputs nb ext) (fun _ => rlife []).
Proof.
  unfold schedule_running. apply hoare_assoc. eapply (hoare_bind _ _ (fun _ => rlife [])).
  - intros [s t] [([H1 H2] & H0 & Hd & H3) [S1 S2]]. cbn. split; [by split |]. split; [done |]. split; [by apply od_ok_set |]. intros rid Hr. simpl in Hr.
    apply od_set_keys in Hr as [-> | Hr]; [| by apply H3]. exists i. split; [unfold name_of; simpl in *; by rewrite S2 | by left].
  - intros []. apply keeps_bind; [by apply rlife_stp | intros []]. apply keeps_bind; [apply take_spec_keeps | intros []].
    apply record_encoder_keeps; [intros; by eapply rlife_frame |]. intros. by eapply rlife_step.
Qed.

Lemma running_step_life : keeps (rlife []) (running_step cfg sha256).
Proof.
  intros [s t] Hr. unfold running_step. unfold bind at 1, get. cbn [fst snd]. unfold bind at 1, lift.
  destruct (py_index (running s) (st_index t)) as [i|] eqn:Ei; [| done]. unfold bind at 1, sch at 1, zoom, obj. cbn [fst snd].
  destruct (objs s !! i) as [o|] eqn:Eo; [| done]. pose (P := fun x : SS => rlife [] x /\ still i (tag o) x).
  assert (P (s, t)) as HP.
  { split; [done |]. split; simpl; [by apply py_index_elem in Ei | unfold tag_of; by rewrite Eo]. }
  lazymatch goal with |- match ?m (s, t) with _ => _ end => assert (hoare P m (fun _ => rlife [])) as Hg; [| by apply Hg] end.
  assert (keeps P skip_index) as Hskip.
  { apply keeps_stp. intros s1 t1 [H1 H2]. split; [by eapply rlife_step | done]. }
  assert (hoare P (skip_index ;;; ret Next) (fun _ => rlife [])) as Hnext.
  { eapply (hoare_bind _ _ (fun _ => P)); [exact Hskip | intros []; apply hoare_ret; by intros y []]. }
  destruct (_ && (_ <=? _)); [done |]. eapply (hoare_bind _ _ (fun _ => P)).
  { destruct (has_encoder_inputs _); [| apply keeps_ret]. apply (keeps_bind P); [| intros; apply keeps_ret].
    apply keeps_sch; [apply quiet_try_encoder |]. intros s1 s2 t1 [H1 [S1 S2]] Hf. split; [by eapply rlife_frame |].
    split; simpl in *; [by rewrite (fr_running _ _ _ Hf) | rewrite <- S2; apply Hf]. }
  intros [[[inputs n1] nb] ext]. eapply (hoare_bind _ _ (fun _ => P)); [destruct (need_mamba_block_aligned_split cfg); [apply keeps_lift | apply keeps_ret] |].
  intros n. destruct (n =? 0); [done |]. eapply hoare_bind; [apply alloc_or_preempt_life |]. intros [b|]; [| apply hoare_ret; by intros y []].
  eapply hoare_bind; [eapply hoare_pre; [apply (schedule_running_life i b n inputs nb ext (tag o)) |] | intros []; apply keeps_ret]. naive_solver.
Qed.

Lemma running_loop_life fuel : keeps (rlife []) (running_loop cfg sha256 fuel).
Proof.
  induction fuel as [|fuel IH]; cbn [running_loop]; (apply keeps_bind; [apply keeps_get | intros x]); destruct (_ && _); eauto with keeps.
  apply keeps_bind; [apply running_step_life | intros []; eauto with keeps].
Qed.

(** *** The pass over the waiting requests *)
Definition wlife (miss : list Z) x : Prop := lpass miss x /\ keyed (fun i => i ∈ running x.1) x.

Lemma wlife_frame miss s s' t : wlife miss (s, t) -> frame tag s s' -> wlife miss (s', t).
Proof.
  intros [H1 H2] Hf. split; [by eapply lpass_frame |]. eapply keyed_frame; [exact H2 | intros i; apply tag_name, Hf |].
  intros i. simpl. by rewrite (fr_running _ _ _ Hf).
Qed.

(** Taking a request out of a queue. *)
Lemma pop_place rs ex n s i s' : on_queue n (fun st => pop_request (RequestQueue := any_queue st)) s = (Ok i, s') ->
  placed rs (qitems (waiting s)) (qitems (skipped_waiting s)) ex s ->
  placed rs (qitems (waiting s')) (qitems (skipped_waiting s')) (i :: ex) s' /\ is_stat queued s' i /\ running s' = running s /\ objs s' = objs s.
Proof.
  unfold on_queue. destruct (pop_request _) as [r q] eqn:E. intros [= -> <-] Hp. apply qitems_pop in E.
  assert (is_stat queued s i) as (st & Hst & Hq).
  { destruct n; simpl in E; [eapply is_stat_impl; [apply plain_queued |]; apply (pl_wait _ _ _ _ _ Hp) | apply (pl_skip _ _ _ _ _ Hp)]; rewrite E; left. }
  split; [| by destruct n; (split; [by exists st | done])]. eapply placed_shrink; [exact Hp | | | by destruct n | by destruct n].
  - destruct n; simpl in *; rewrite E; solve_Permutation.
  - intros j. destruct n; simpl in *; rewrite E; set_solver.
Qed.

Lemma wlife_pop n s t i s' : on_queue n (fun st => pop_request (RequestQueue := any_queue st)) s = (Ok i, s') -> wlife [] (s, t) ->
  wlife [i] (s', t) /\ is_stat queued s' i.
Proof.
  intros E [[H1 H2] H3]. simpl in *. destruct (pop_place _ _ _ _ _ _ E H1) as (P1 & P2 & P3 & P4). split; [| done].
  assert (forall j, tag_of s' j = tag_of s j) as Ht by (intros j; unfold tag_of; by rewrite P4).
  split; [split; simpl |].
  - by rewrite P3.
  - intros j Hj. eapply is_stat_eq; [apply tag_stat, Ht | auto].
  - eapply keyed_frame; [exact H3 | intros j; apply tag_name, Ht |]. intros j. simpl. by rewrite P3.
Qed.

Lemma wlife_skip s t i q r store : wlife [i] (s, t) -> is_stat queued s i ->
  prepend_request (RequestQueue := any_queue store) i (st_skipped t) = (r, q) -> wlife [] (s, set_step_skipped q t).
Proof.
  intros [[H1 H2] H3] Hi E%qitems_prepend. simpl in *. split; [split; simpl |].
  - rewrite E. done.
  - intros j. rewrite E. intros [-> | Hj]%elem_of_cons; auto.
  - exact H3.
Qed.

Lemma skip_request_life n : keeps (wlife []) (skip_request n).
Proof.
  intros [s t] Hw. unfold skip_request, bind, sch, zoom, get, lift. cbn [fst snd].
  destruct (on_queue n _ s) as [[i|e] s'] eqn:E; [| done]. destruct (wlife_pop n s t i s' E Hw) as [Hw' Hi].
  destruct (prepend_request _ _) as [[a|e] q] eqn:Ep; [| done]. cbn. by eapply wlife_skip.
Qed.

Lemma promote_life i : keeps (wlife []) (sch (_try_promote_blocked_waiting_request sha256 i)).
Proof.
  intros [s t] Hw. unfold sch, zoom. cbn [fst snd]. destruct (_try_promote_blocked_waiting_request sha256 i s) as [[b|e] s'] eqn:E; [| done].
  apply promote_run in E as [Hf | (Hb & [L1 L2 L3 L4] & st & Hst & Hpl)]; [by eapply wlife_frame |].
  destruct Hw as [[H1 H2] H3]. simpl in *. split; [split; simpl |].
  - rewrite L1, L2, L3. eapply (placed_move _ _ _ _ _ _ _ _ i st); [exact H1 | done | | done | done | done | by apply queued_unfinished, plain_queued | | done | intros; by apply plain_queued].
    + eapply is_stat_impl; [| exact Hb]. by intros [].
    + intros Hi. exfalso. eapply is_stat_not; [| exact Hb | exact (pl_run _ _ _ _ _ H1 i Hi)]. by intros [].
  - intros j Hj. destruct (decide (j = i)) as [-> | Hne]; [exists st; split; [done | by apply plain_queued] |].
    eapply is_stat_eq; [by apply tag_stat, (ch_tag _ _ _ L4) | auto].
  - eapply keyed_frame; [exact H3 | apply L4 |]. intros j. simpl. by rewrite L1.
Qed.

(** Request [i] is in the running list, its status is still to be set. *)
Definition admitted i x : Prop := exists rs, running x.1 = rs ++ [i] /\
  placed rs (qitems (waiting x.1)) (qitems (skipped_waiting x.1)) (i :: qitems (st_skipped x.2)) x.1 /\
  (forall j, j ∈ qitems (st_skipped x.2) -> is_stat queued x.1 j) /\ keyed (fun j => j ∈ running x.1) x.

Lemma admitted_step i s t t' : admitted i (s, t) -> st_skipped t' = st_skipped t -> st_tokens t' = st_tokens t -> admitted i (s, t').
Proof. intros (rs & H1 & H2 & H3 & H4) E1 E2. exists rs. unfold keyed in *. simpl in *. by rewrite E1, E2. Qed.

Lemma admitted_run i s t : admitted i (s, t) -> wlife [] (with_objs (alter (on_rq (fun r => with_status RUNNING (stop_reason r) r)) i (objs s)) s, t).
Proof.
  intros (rs & H1 & H2 & H3 & H4). simpl in *. destruct (placed_head _ _ _ _ _ _ H2) as (Hu & Hs & Hr & Hw & Hk & Hx).
  destruct (moves_state i RUNNING s tt _ eq_refl Hs) as [[_ _ _ L4] Hst]. split; [split; simpl |].
  - rewrite H1. eapply (placed_move _ _ _ _ _ _ _ _ i RUNNING); [exact H2 | exact L4 | done | solve_Permutation | | exact Hst | done | done | done | done].
    intros j Hj. set_solver.
  - intros j Hj. eapply is_stat_eq; [apply tag_stat, (ch_tag _ _ _ L4) | auto]. by intros ->.
  - eapply keyed_frame; [exact H4 | apply L4 | done].
Qed.

Lemma wlife_enc miss s t a b : wlife miss (s, t) -> wlife miss (s, set_enc a b t).
Proof. by intros [[H1 H2] H3]. Qed.

Lemma admit_async_life i c : hoare (fun x => wlife [i] x) 
  (sch (set_state i WAITING_FOR_REMOTE_KVS) ;;; let* x := get in
   let (r, q) := prepend_request (RequestQueue := any_queue (deref x.1)) i (st_skipped x.2) in
   let* _ := lift r in stp (set_step_skipped q) ;;; sch (set_rq i (with_computed c))) (fun _ => wlife []).
Proof.
  intros [s t] [[H1 H2] H3]. simpl in *. destruct (placed_head _ _ _ _ _ _ H1) as (Hu & Hs & Hr & Hw & Hk & Hx).
  destruct (set_state i WAITING_FOR_REMOTE_KVS s) as [[[]|e] s1] eqn:E1; [| done].
  destruct (moves_state i WAITING_FOR_REMOTE_KVS s tt _ E1 Hs) as [[L1 L2 L3 L4] Hst].
  assert (wlife [i] (s1, t)) as Hw1.
  { split; [split; simpl |].
    - rewrite L1, L2, L3. eapply (placed_move _ _ _ _ _ _ _ _ i); [exact H1 | exact L4 | done | done | done | exact Hst | done | done | done | done].
    - intros j Hj. eapply is_stat_eq; [apply tag_stat, (ch_tag _ _ _ L4) | auto]. by intros ->.
    - eapply keyed_frame; [exact H3 | apply L4 |]. intros j. simpl. by rewrite L1. }
  unfold bind, sch, zoom, get, lift. cbn [fst snd]. rewrite E1. cbn [fst snd].
  destruct (any_op _ _ (st_skipped t)) as [[a|e] q] eqn:Ep; [| done]. cbn.
  eapply wlife_frame; [eapply (wlife_skip s1 t i q _ (deref s1)); [exact Hw1 | by eexists | exact Ep] |]. by apply (quiet_set_rq tag i (with_computed c)).
Qed.

Lemma admit_request_life qn i0 n c inputs nb ext async : keeps (wlife []) (admit_request cfg qn i0 n c inputs nb ext async).
Proof.
  unfold admit_request. eapply (hoare_bind _ _ (fun i => wlife [i])).
  { intros [s t] Hw. unfold sch, zoom. cbn [fst snd]. destruct (on_queue qn _ s) as [[i|e] s'] eqn:E; [| done]. by apply (wlife_pop qn s). }
  intros i. destruct async; [apply admit_async_life |]. eapply (hoare_bind _ _ (fun _ => admitted i)).
  { intros [s t] [[H1 H2] H3]. cbn. exists (running s). split; [done |]. split; [by apply placed_frame with (s := s) |]. split; [done |].
    eapply keyed_frame; [exact H3 | done |]. intros j Hj. simpl in *. set_solver. }
  intros []. eapply hoare_bind; [apply hoare_obj |]. intros o. cbn beta.
  pose (P := fun x : SS => admitted i x /\ objs x.1 !! i = Some o).
  assert (forall f, (forall t, st_skipped (f t) = st_skipped t /\ st_tokens (f t) = st_tokens t) -> keeps P (stp f)) as Hstp.
  { intros f Hf. apply keeps_stp. intros s t [H1 H2]. destruct (Hf t) as [E1 E2]. split; [by eapply admitted_step | done]. }
  eapply (hoare_bind _ _ (fun _ => P)); [destruct (status (rq o)); first [apply keeps_raise | by apply Hstp] | intros []].
  eapply (hoare_bind _ _ (fun _ => P)); [destruct (max_loras cfg), (lora_request (rq o)); first [apply keeps_ret | by apply Hstp] | intros []].
  eapply hoare_bind; [apply keeps_get | intros x]. eapply (hoare_bind _ _ (fun _ => P)).
  { apply keeps_stp. intros s t [(rs & E & H1 & H2 & Hd & H3) Ho]. split; [| done]. exists rs. split_and!; try done. split; [by apply od_ok_set |]. intros rid Hr. simpl in Hr.
    apply od_set_keys in Hr as [-> | Hr]; [| by apply H3]. exists i. simpl in *. split; [unfold name_of, tag_of; by rewrite Ho |]. rewrite E. set_solver. }
  intros []. eapply (hoare_bind _ _ (fun _ => wlife [])).
  { intros [s t] [Ha _]. by apply admitted_run. }
  intros []. apply keeps_bind; [apply keeps_sch; [by apply quiet_set_rq | intros; by eapply wlife_frame] | intros []].
  apply record_encoder_keeps; [intros; by eapply wlife_frame | intros; by apply wlife_enc].
Qed.

Lemma waiting_step_life : keeps (wlife []) (waiting_step cfg sha256).
Proof.
  assert (forall A (f : SM W A), quiet tag f -> keeps (wlife []) (sch f)) as Hq.
  { intros A f Hf. apply keeps_sch; [done | intros; by eapply wlife_frame]. }
  unfold waiting_step. solve_keeps; first [apply skip_request_life | apply promote_life | apply admit_request_life | apply Hq, quiet_tag_gate | apply Hq, quiet_alloc_slots, _ | apply Hq; eauto with quiet].
Qed.

Lemma waiting_loop_life fuel : keeps (wlife []) (waiting_loop cfg sha256 fuel).
Proof.
  induction fuel as [|fuel IH]; cbn [waiting_loop]; (apply keeps_bind; [apply keeps_get | intros x]); destruct (_ && _); eauto with keeps.
  apply keeps_bind; [apply waiting_step_life | intros []; eauto with keeps].
Qed.

(** ** The passes together *)
Definition settled x : Prop := life x.1 /\ keyed (rok [] x) x.

Lemma waiting_pass_life : hoare (rlife []) (waiting_pass cfg sha256) (fun _ => settled).
Proof.
  unfold waiting_pass. eapply hoare_bind; [apply (hoare_get _ (fun x y => rlife [] y /\ x = y)); done |]. intros x.
  destruct (_ && _) eqn:E.
  2: { apply hoare_ret. intros y [([H1 H2] & Hq & H3) ->]. split; [| done]. unfold life. by rewrite Hq in H1. }
  apply andb_true_iff in E as [E _]. apply bool_decide_eq_true in E. eapply (hoare_bind _ _ (fun _ => wlife [])).
  { eapply hoare_pre; [apply waiting_loop_life |]. intros y [(Hl & _ & Hd & Hk) ->]. split; [done |]. split; [done |]. intros rid Hr. destruct (Hk rid Hr) as (i & En & Hi).
    exists i. split; [done |]. unfold rok in Hi. rewrite E in Hi. set_solver. }
  intros [] [s t] [[H1 H2] H3]. unfold bind, get. cbn [fst snd]. simpl in H1, H2, H3. assert (forall s', tag_of s' = tag_of s -> running s' = running s ->
    keyed (rok [] (s', t)) (s', t)) as Hk.
  { intros s' Ht Er. eapply keyed_frame; [exact H3 | intros i; apply tag_name; by rewrite Ht |]. intros i Hi. left. simpl in *. by rewrite Er. }
  destruct (queue_bool _) eqn:Eq.
  - unfold sch, zoom, on_queue. cbn [fst snd queue_of with_queue]. destruct (prepend_requests _ _) as [[a|e] q] eqn:Ep; [| done].
    apply qitems_prepend_all in Ep. rewrite qitems_iter in Ep. split; [| by apply Hk]. unfold life. cbn [fst snd running waiting skipped_waiting with_skipped].
    rewrite Ep. assert (forall f i, is_stat f s i -> is_stat f (with_skipped q s) i) as Hs by (intros f i; by apply is_stat_eq).
    pose proof H1 as [P1 P2 P3 P4 P5 P6 P7 P8].
    assert (running s ++ qitems (waiting s) ++ (qitems (st_skipped t) ++ qitems (skipped_waiting s)) ++ [] ≡ₚ
      running s ++ qitems (waiting s) ++ qitems (skipped_waiting s) ++ qitems (st_skipped t)) as Eperm by solve_Permutation.
    split; try done; rewrite ?Eperm; try done; [| by intros i ?%elem_of_nil | by intros i; rewrite Eperm; apply P6 | by intros rid i; rewrite Eperm; apply P7].
    intros i [Hi | Hi]%elem_of_app; apply Hs; auto.
  - apply queue_bool_nil in Eq. cbn. split; [| by apply Hk]. unfold life. by rewrite Eq in H1.
Qed.

Lemma collect_loras_life : keeps (rlife []) (collect_loras (W := W) cfg).
Proof.
  unfold collect_loras. solve_keeps. by apply rlife_stp.
Qed.

Lemma schedule_passes_life s x : life s -> schedule_passes cfg sha256 (s, initial_step cfg s) = (Ok tt, x) -> settled x.
Proof.
  intros Hl. assert (qitems (create_request_queue (policy cfg)) = []) as Hq by (by destruct (policy cfg)).
  apply hoare_run with (P := rlife []) (Q := fun _ => settled).
  - unfold schedule_passes. eapply (hoare_bind _ _ (fun _ => rlife [])); [apply keeps_sch; [apply quiet_on_kv | intros; by eapply rlife_frame] | intros []].
    eapply (hoare_bind _ _ (fun _ => rlife [])); [apply keeps_get | intros y].
    eapply (hoare_bind _ _ (fun _ => rlife [])); [apply running_loop_life | intros []].
    eapply (hoare_bind _ _ (fun _ => rlife [])); [apply collect_loras_life | intros []]. apply waiting_pass_life.
  - split; [split; simpl; rewrite Hq; [exact Hl | by intros i ?%elem_of_nil] |]. split; [exact Hq |]. split; [constructor | by intros rid ?%elem_of_nil].
Qed.
End pass.

#[export] Instance step_stable_tag : StepStable tag.
Proof. done. Qed.

(** ** The whole step *)
Section schedule.
Context {W : Type} `{Externals W} (cfg : SchedulerConfig) (sha256 : bytes -> bytes).
Implicit Types s : Scheduler W.

Lemma life_frame s s' : life s -> frame tag s s' -> life s'.
Proof.
  intros Hl Hf. unfold life. rewrite (fr_running _ _ _ Hf), (fr_waiting _ _ _ Hf), (fr_skipped _ _ _ Hf).
  eapply placed_frame; [exact Hl | apply Hf | apply Hf].
Qed.

(** The requests of an output are distinct, and run or were preempted and wait. *)
Record output_placed (out : SchedulerOutput) s : Prop := {
  op_nodup : NoDup (num_scheduled_tokens out).*1;
  op_place rid : rid ∈ (num_scheduled_tokens out).*1 -> exists i, name_of s i = Some rid /\
    (i ∈ running s \/ i ∈ qitems (waiting s) /\ rid ∈ preempted_req_ids out);
}.

Lemma schedule_life s out s' : life s -> schedule cfg sha256 s = (Ok out, s') -> life s' /\ output_placed out s'.
Proof.
  intros Hl Hr. destruct (schedule_run cfg sha256 tag s out s' Hr) as (x & y & Hp & _ & Hf1 & Hf2 & Hn & _ & Hpre).
  destruct (schedule_passes_life cfg sha256 s x Hl Hp) as (H1 & H2 & H3). assert (frame tag x.1 s') as Hf by (by transitivity y).
  split; [by eapply life_frame |]. split; rewrite Hn; [exact H2 |]. intros rid Hrid. destruct (H3 rid Hrid) as (i & Hi & Hok). exists i.
  rewrite (tag_name _ _ i (fr_obj _ _ _ Hf i)). split; [done |]. rewrite (fr_running _ _ _ Hf), (fr_waiting _ _ _ Hf).
  destruct Hok as [Hok | [Hok | [Hw Hok]]]; [by left | by apply elem_of_nil in Hok | right]. split; [done |].
  rewrite Hpre. apply list_elem_of_fmap. exists i. split; [| done]. rewrite <- (tag_name _ _ i (fr_obj _ _ _ Hf1 i)) in Hi.
  unfold name_of, tag_of, id_in, deref in *. destruct (objs y !! i); simpl in *; congruence.
Qed.
End schedule.
