(* ===== verification/LifecycleUpdate.v ===== *)
(** * LifecycleUpdate
    The places and statuses of requests through the updates of the scheduler and
    update_from_output. *)
From S2P Require Import Prelude OrdDict KVCacheBlock FreeQueue Request BlockHash BlockPool Managers CacheHit Coordinator KVCacheManager EncoderCache HeapQ RequestQueue SchedUtils Scheduler Schedule SchedulerUpdate SchedulerInv SchedulePass ScheduleProps Lifecycle LifecycleSchedule.
(** ** Queues *)
Lemma qitems_add store q i r q' : add_request (RequestQueue := any_queue store) i q = (r, q') -> qitems q' ≡ₚ i :: qitems q.
Proof.
  destruct q as [q|q]; simpl; unfold on_left, on_right; intros [= <- <-]; simpl; [symmetry; apply Permutation_cons_append | apply heappush_perm].
Qed.
Lemma qitems_remove store q l r q' : remove_requests (RequestQueue := any_queue store) l q = (r, q') ->
  qitems q' ≡ₚ filter (fun i => i ∉ l) (qitems q).
Proof. destruct q as [q|q]; simpl; unfold on_left, on_right; intros [= <- <-]; simpl; [done | apply heapify_perm]. Qed.

(** ** Block hashers
    What the scheduler relies on: hashing a request changes nothing but its memo table. *)
Class MemoHasher (hasher : BlockHasher) : Prop :=
  memo_hasher f : hasher = Some f -> forall r, match f r with (Ok _, r') => memo_of r r' | _ => True end.

Lemma hasher_loop_memo sha256 hf nh fuel bs : forall i mm prev r,
  match hasher_loop sha256 hf nh fuel bs i mm prev r with (Ok _, r') => memo_of r r' | _ => True end.
Proof.
  induction fuel as [|fuel IH]; intros i mm prev r; cbn [hasher_loop]; [done |]. unfold bind, get. destruct (_ <? _); [done |].
  pose proof (generate_memo sha256 i (i + bs) mm r) as Hm. destruct (generate_block_hash_extra_keys _ _ _ _ r) as [[x|e] r1]; [| done].
  specialize (IH (i + bs) x.2 (Some (hash_block_tokens hf nh prev (py_slice (_all_token_ids r) i (i + bs)) x.1)) r1).
  destruct (hasher_loop _ _ _ _ _ _ _ _ r1) as [[l|e] r2]; [| done]. unfold memo_of in *. simpl. congruence.
Qed.
#[export] Instance request_hasher_memo sha256 hf nh bs : MemoHasher (Some (request_block_hasher sha256 hf nh bs)).
Proof.
  intros f [= <-] r. unfold request_block_hasher, bind at 1, get. destruct (_ <? _); [done |]. apply hasher_loop_memo.
Qed.
#[export] Instance no_hasher_memo : MemoHasher None.
Proof. done. Qed.

(** ** Calls on one request *)
Section calls.
Context {W : Type} `{Externals W} (cfg : SchedulerConfig) (sha256 : bytes -> bytes) (hasher : BlockHasher) `{!MemoHasher hasher}.
Implicit Types s : Scheduler W.

Definition same_tag {A} (f : M Request A) : Prop :=
  forall r, match f r with (Ok _, r') => request_id r' = request_id r /\ status r' = status r | _ => True end.
Lemma quiet_on_req {A} i (f : M Request A) : same_tag f -> quiet (W := W) tag (on_req i f).
Proof.
  intros Hf s. unfold on_req. destruct (objs s !! i) as [o|] eqn:Eo; [| done]. specialize (Hf (rq o)). destruct (f (rq o)) as [[a|e] r']; [| done].
  destruct Hf as [E1 E2]. split; try done. intros j. simpl. destruct (decide (j = i)) as [-> | Hne]; [| by rewrite lookup_insert_ne].
  rewrite lookup_insert_eq, Eo. simpl. unfold tag. simpl. by rewrite E1, E2.
Qed.
Lemma update_hashes_same : same_tag (update_block_hashes hasher).
Proof.
  intros r. unfold update_block_hashes. destruct hasher as [f|] eqn:Eh; [| done]. unfold bind. pose proof (memo_hasher f eq_refl r) as Hm.
  destruct (f r) as [[hs|e] r']; [| done]. simpl. split; [exact (f_equal request_id Hm) | exact (f_equal status Hm)].
Qed.
Lemma append_same l : same_tag (append_output_token_ids hasher l).
Proof.
  intros r. unfold append_output_token_ids, bind at 1, modify.
  pose proof (update_hashes_same (with_tokens (_output_token_ids r ++ l) (_all_token_ids r ++ l) r)) as Hs. by destruct (update_block_hashes _ _) as [[a|e] r'].
Qed.

(** check_stop: the status stays, or becomes a finished one. *)
Lemma check_stop_status n r b r' : check_stop n r = (Ok b, r') -> request_id r' = request_id r /\
  if b then status_is_finished (status r') = true else status r' = status r.
Proof.
  unfold check_stop, bind, get, assert, lift, set_status, set_stop_reason, modify, ret, raise. destruct (negb _); [| done].
  destruct (sampling_params r) as [sp|]; [| done]. destruct (_ <? _); [by intros [= <- <-] |]. destruct (py_index _ _); [| done].
  destruct (bool_decide _); [by intros [= <- <-] |]. destruct (bool_decide _); [by intros [= <- <-] |]. destruct (_ || _); [by intros [= <- <-] |].
  destruct (repetition_detection sp) as [rd|]; [| by intros [= <- <-]]. destruct (check_sequence_repetition _ _) as [[]|]; [| | done]; by intros [= <- <-].
Qed.

(** Request [i] stops, or only changes in other ways; it does not become a session. *)
Record evolves (i : Z) (stopped : bool) s s' : Prop := {
  ev_local : local i s s';
  ev_tag g : tag_of s i = Some g -> exists st b, tag_of s' i = Some (g.1.1, st, b) /\
    if stopped then status_is_finished st = true /\ (b = true -> g.2 = true) else st = g.1.2 /\ b = g.2;
}.
Lemma evolves_refl i s : evolves i false s s.
Proof. split; [done |]. intros [[n st] b] Hg. by exists st, b. Qed.
Lemma evolves_frame i p s s1 s2 : evolves i p s s1 -> frame tag s1 s2 -> evolves i p s s2.
Proof.
  intros [H1 H2] Hf. split; [transitivity s1; [done | by apply frame_local] |]. intros g Hg. destruct (H2 g Hg) as (st & b & E & Hp).
  exists st, b. split; [| done]. rewrite <- E. apply Hf.
Qed.
Lemma evolves_keeps {A} i p s (f : SM W A) : quiet tag f -> hoare (evolves i p s) f (fun _ => evolves i p s).
Proof. intros Hf s1 Hs. specialize (Hf s1). destruct (f s1) as [[a|e] s2]; [by eapply evolves_frame | done]. Qed.
(** A change of the object that ends the request. *)
Lemma evolves_set i p s f : (forall o, request_id (rq (f o)) = request_id (rq o) /\ status_is_finished (status (rq (f o))) = true /\
  (resumable (f o) = true -> resumable o = true)) -> hoare (evolves i p s) (set_obj i f) (fun _ => evolves i true s).
Proof.
  intros Hf s1 [H1 H2]. simpl. split.
  - transitivity s1; [done |]. split; [done .. |]. apply changes_set. intros o. apply Hf.
  - intros g Hg. destruct (H2 g Hg) as (st & b & E & Hp). unfold tag_of in *. simpl. rewrite lookup_alter_eq. destruct (objs s1 !! i) as [o|]; [| done].
    simpl in *. destruct (Hf o) as (F1 & F2 & F3). injection E as E1 E2 E3. exists (status (rq (f o))), (resumable (f o)). split; [unfold tag; by rewrite F1, E1 |].
    split; [done |]. intros Hr%F3. destruct p; [apply Hp; congruence | destruct Hp; congruence].
Qed.

Lemma append_tokens_ends i tokens s : hoare (evolves i false s) (append_tokens cfg hasher i tokens) (fun x => evolves i x.2 s).
Proof.
  induction tokens as [|t tokens IH]; cbn [append_tokens]; [by apply hoare_ret |].
  eapply hoare_bind; [apply evolves_keeps, quiet_on_req, append_same | intros ?; cbn beta]. eapply (hoare_bind _ _ (fun b => evolves i b s)).
  - intros s1 [H1 H2]. unfold on_req. destruct (objs s1 !! i) as [o|] eqn:Eo; [| done]. destruct (check_stop _ (rq o)) as [[b|e] r'] eqn:Ec; [| done].
    apply check_stop_status in Ec as [E1 E2]. split.
    + transitivity s1; [done |]. split; [done .. |]. split; [| | done].
      * intros j. unfold name_of, tag_of. simpl. destruct (decide (j = i)) as [-> | Hne]; [| by rewrite lookup_insert_ne].
        rewrite lookup_insert_eq, Eo. simpl. by rewrite E1.
      * intros j Hj. unfold tag_of. simpl. by rewrite lookup_insert_ne.
    + intros g Hg. destruct (H2 g Hg) as (st & bb & E & -> & ->). unfold tag_of in *. simpl. rewrite lookup_insert_eq. rewrite Eo in E. simpl in *.
      injection E as F1 F2 F3. exists (status r'), (resumable o). split; [unfold tag; simpl; by rewrite E1, F1 |]. destruct b; [split; [done | congruence] | split; congruence].
  - intros [|]; [by apply hoare_ret |]. eapply hoare_bind; [apply IH | intros x; by apply hoare_ret].
Qed.

Lemma update_output_ends i tokens s : hoare (evolves i false s) (_update_request_with_output cfg sha256 hasher i tokens) (fun x => evolves i x.2 s).
Proof.
  unfold _update_request_with_output. destruct (negb (is_async cfg)); [apply append_tokens_ends |].
  eapply hoare_bind; [apply evolves_keeps, quiet_obj | intros o; cbn beta]. destruct (discard_latest_async_tokens o).
  - eapply hoare_bind; [apply evolves_keeps; by apply quiet_set_obj | intros []; by apply hoare_ret].
  - eapply hoare_bind; [apply append_tokens_ends | intros x; cbn beta].
    eapply hoare_bind; [apply evolves_keeps; by apply quiet_set_obj | intros []; cbn beta].
    eapply hoare_bind; [apply evolves_keeps, quiet_obj | intros o'; cbn beta].
    eapply hoare_bind; [apply evolves_keeps, quiet_assert | intros []; cbn beta].
    eapply (hoare_bind _ _ (fun _ => evolves i x.2 s)); [| intros []; by apply hoare_ret].
    destruct (bool_decide _); [apply evolves_keeps, quiet_cache_request, _ | by apply hoare_ret].
Qed.

Lemma apply_tokens_ends i generated pooled s : hoare (evolves i false s) (apply_tokens cfg sha256 hasher i generated pooled) (fun x => evolves i x.2 s).
Proof.
  unfold apply_tokens. eapply hoare_bind; [apply evolves_keeps, quiet_obj | intros o; cbn beta]. eapply (hoare_bind _ _ (fun x => evolves i x.2 s)).
  - destruct generated; [| apply update_output_ends]. destruct (_ && _); [| by apply hoare_ret].
    eapply hoare_bind; [by apply evolves_set | intros []; by apply hoare_ret].
  - intros x. eapply hoare_bind; [apply evolves_keeps, quiet_obj | intros o1; cbn beta].
    eapply hoare_bind; [apply evolves_keeps, quiet_get | intros s1; cbn beta].
    destruct x.1; [by apply hoare_ret |]. destruct (should_advance _ _); [| by apply hoare_ret].
    eapply hoare_bind; [apply evolves_keeps, quiet_assert | intros []; cbn beta].
    eapply hoare_bind; [apply evolves_keeps, quiet_on_world | intros [|]; cbn beta]; [by apply hoare_ret |].
    eapply (hoare_bind _ _ (fun _ => evolves i true s)); [by apply evolves_set | intros []].
    eapply (hoare_bind _ _ (fun _ => evolves i true s)); [| intros []; by apply hoare_ret].
    intros s2 [H1 H2]. simpl. split.
    + transitivity s2; [done |]. split; [done .. |]. by apply changes_set.
    + intros g Hg. destruct (H2 g Hg) as (st & b & E & Hf & Hb). unfold tag_of in *. simpl. rewrite lookup_alter_eq. destruct (objs s2 !! i) as [o2|]; [| done].
      simpl in *. injection E as E1 E2 E3. exists st, false. split; [unfold tag; simpl; congruence | done].
Qed.

(** *** Queueing a request *)

(** [i] is put into the queue of its status. *)
Record enqueued (i : Z) (st : RequestStatus) s s' : Prop := {
  en_tag j : tag_of s' j = tag_of s j;
  en_requests : s_requests s' = s_requests s;
  en_running : running s' = running s;
  en_waiting : qitems (waiting s') ≡ₚ (if _is_blocked_waiting_status st then [] else [i]) ++ qitems (waiting s);
  en_skipped : qitems (skipped_waiting s') ≡ₚ (if _is_blocked_waiting_status st then [i] else []) ++ qitems (skipped_waiting s);
}.
Lemma enqueue_run i s s' : _enqueue_waiting_request i s = (Ok tt, s') -> exists st, stat_of s i = Some st /\ enqueued i st s s'.
Proof.
  unfold _enqueue_waiting_request, bind, obj. destruct (objs s !! i) as [o|] eqn:Eo; [| done]. unfold on_queue. destruct (add_request _ _) as [r q] eqn:Eq.
  intros [= -> <-]. apply qitems_add in Eq. exists (status (rq o)). split; [unfold stat_of, tag_of; by rewrite Eo |].
  destruct (_is_blocked_waiting_status (status (rq o))) eqn:Eb; split; simpl in *; rewrite ?Eb; done.
Qed.

(** A streaming update makes the request wait. *)
Lemma session_moves i u : moves i WAITING (_update_request_as_session (W := W) hasher i u).
Proof.
  unfold _update_request_as_session. apply moves_before; [apply quiet_obj | intros o]. destruct (prompt_token_ids (rq o)).
  - apply moves_before; [by apply quiet_set_rq | intros _]. apply moves_before; [apply quiet_on_req, update_hashes_same | intros _].
    apply moves_before; [destruct (bool_decide _); [by apply quiet_modify | apply quiet_ret] | intros _].
    intros s a s' [= <- <-] [o1 Ho]. split; [split; [done .. | by apply changes_set] |]. unfold stat_of, tag_of. simpl. by rewrite lookup_alter_eq, Ho.
  - apply moves_before; [by apply quiet_set_rq | intros _]. by intros s a s'.
Qed.

(** A stopped request is finished, or it is a session and queued again. *)
Lemma handle_stopped_run i s b s' : _handle_stopped_request hasher i s = (Ok b, s') ->
  if b then frame tag s s' else (exists g, tag_of s i = Some g /\ g.2 = true) /\
    exists s1 st, local i s s1 /\ stat_of s1 i = Some st /\ queued st = true /\ st <> PREEMPTED /\ enqueued i st s1 s'.
Proof.
  unfold _handle_stopped_request. unfold bind at 1, obj. destruct (objs s !! i) as [o|] eqn:Eo; [| done].
  destruct (resumable o) eqn:Er; simpl; [| by intros [= <- <-]]. assert (exists g, tag_of s i = Some g /\ g.2 = true) as Hg.
  { exists (tag o). split; [unfold tag_of; by rewrite Eo | done]. }
  assert (forall (m : SM W unit) st, queued st = true -> st <> PREEMPTED -> moves i st m -> (m ;;; _enqueue_waiting_request i ;;; ret false) s = (Ok b, s') ->
    if b then frame tag s s' else (exists g, tag_of s i = Some g /\ g.2 = true) /\
    exists s1 st, local i s s1 /\ stat_of s1 i = Some st /\ queued st = true /\ st <> PREEMPTED /\ enqueued i st s1 s') as Hend.
  { intros m st Hq Hp Hm. unfold bind. destruct (m s) as [[[]|e] s1] eqn:Em; [| done]. destruct (Hm s tt s1 Em) as [H1 H2]; [by exists o |].
    destruct (_enqueue_waiting_request i s1) as [[[]|e] s2] eqn:Ee; [| done]. intros [= <- <-]. split; [done |].
    apply enqueue_run in Ee as (st' & E1 & E2). rewrite H2 in E1. injection E1 as <-. by exists s1, st. }
  destruct (streaming_queue o) as [[|u q]|].
  - apply (Hend (set_state i WAITING_FOR_STREAMING_REQ ;;; modify (fun s => with_num_streaming (num_waiting_for_streaming_input s + 1) s)) WAITING_FOR_STREAMING_REQ);
      [done | done |]. apply moves_after; [apply moves_state | intros _; by apply quiet_modify].
  - destruct u as [u|].
    + apply (Hend (set_obj i (with_streaming (Some q)) ;;; _update_request_as_session hasher i u) WAITING); [done | done |].
      apply moves_before; [by apply quiet_set_obj | intros _; apply session_moves].
    + unfold bind. intros [= <- <-]. by apply (quiet_set_obj tag i (with_streaming (Some q))).
  - apply (Hend (set_state i WAITING_FOR_STREAMING_REQ ;;; modify (fun s => with_num_streaming (num_waiting_for_streaming_input s + 1) s)) WAITING_FOR_STREAMING_REQ);
      [done | done |]. apply moves_after; [apply moves_state | intros _; by apply quiet_modify].
Qed.
End calls.

(** ** Freeing requests *)
Section finish.
Context {W : Type} `{Externals W}.
Implicit Types s : Scheduler W.

(** The id of request [i] stands for [i] or for nothing. *)
Definition registered s (i : Z) : Prop := forall rid, name_of s i = Some rid -> od_get rid (s_requests s) = Some i \/ od_get rid (s_requests s) = None.

(** Request [i] is forgotten, or kept for later. *)
Inductive forgets (i : Z) s s' : Prop :=
  | Kept : frame tag s s' -> forgets i s s'
  | Forgotten rid s1 : frame tag s s1 -> name_of s1 i = Some rid -> is_Some (od_get rid (s_requests s1)) ->
      s' = with_requests (od_del rid (s_requests s1)) s1 -> forgets i s s'.

Lemma forgets_before i s s1 s' : frame tag s s1 -> forgets i s1 s' -> forgets i s s'.
Proof. intros Hf [Hg | rid s2 Hg H1 H2 H3]; [left; by transitivity s1 |]. eapply (Forgotten i s s' rid s2); [by transitivity s1 | done ..]. Qed.
Lemma forgets_lists i s s' : forgets i s s' -> running s' = running s /\ waiting s' = waiting s /\ skipped_waiting s' = skipped_waiting s /\
  forall j, tag_of s' j = tag_of s j.
Proof.
  intros [Hf | rid s1 Hf H1 H2 ->]; simpl; rewrite (fr_running _ _ _ Hf), (fr_waiting _ _ _ Hf), (fr_skipped _ _ _ Hf); split_and!; try done; intros j; apply Hf.
Qed.

Lemma free_blocks_run i s s' : _free_blocks i s = (Ok tt, s') -> forgets i s s' /\ is_stat status_is_finished s i.
Proof.
  unfold _free_blocks, bind, obj. destruct (objs s !! i) as [o|] eqn:Eo; [| done]. unfold assert, ret, raise. destruct (is_finished (rq o)) eqn:Ef; [cbv beta iota | done].
  assert (is_stat status_is_finished s i) as Hs by (exists (status (rq o)); split; [unfold stat_of, tag_of; by rewrite Eo | done]).
  pose proof (quiet_on_kv tag (kv_free (rq o)) s) as Hq. destruct (on_kv _ s) as [[[]|e] s1]; [| done]. unfold request_ref, modify.
  destruct (od_get _ (s_requests s1)) as [j|] eqn:Eg; [| done]. intros [= <-]. split; [| done].
  eapply (Forgotten i s _ (request_id (rq o)) s1); [done | | by exists j | done].
  rewrite (tag_name _ _ i (fr_obj _ _ _ Hq i)). unfold name_of, tag_of. by rewrite Eo.
Qed.
Lemma quiet_connector_finished r : quiet (W := W) tag (_connector_finished r).
Proof. unfold _connector_finished. solve_quiet. Qed.
Lemma free_request_run i d s s' : _free_request i d s = (Ok tt, s') -> forgets i s s'.
Proof.
  unfold _free_request. unfold bind at 1, obj. destruct (objs s !! i) as [o|] eqn:Eo; [| done]. unfold bind at 1, assert. destruct (is_finished (rq o)); [| done].
  unfold ret at 1. cbv beta iota. unfold bind at 1. pose proof (quiet_connector_finished (rq o) s) as Q1. destruct (_connector_finished _ s) as [[cd|e] s1]; [| done].
  unfold bind at 1. pose proof (quiet_enc_free tag (rq o) s1) as Q2. destruct (enc_free_request _ s1) as [[[]|e] s2]; [| done].
  unfold bind, modify. intros E. set (s3 := with_finished _ _ s2) in E. assert (frame tag s s3) as Hf by (transitivity s1; [done | by transitivity s2]).
  destruct (d || cd); [injection E as <-; by left |]. apply free_blocks_run in E as [E _]. by eapply forgets_before.
Qed.

Lemma placed_forget rs ws ss ex i s s' : placed rs ws ss ex s -> is_stat status_is_finished s i -> registered s i -> forgets i s s' -> placed rs ws ss ex s'.
Proof.
  intros Hp Hf Hr [Hg | rid s1 Hg H1 [j Hj] ->]; [eapply placed_frame; [exact Hp | apply Hg | apply Hg] |].
  assert (placed rs ws ss ex s1) as Hp1 by (eapply placed_frame; [exact Hp | apply Hg | apply Hg]).
  apply (placed_delete _ _ _ _ _ i); [done | done | | eapply is_stat_eq; [apply tag_stat, Hg | done]].
  rewrite (tag_name _ _ i (fr_obj _ _ _ Hg i)) in H1. rewrite (fr_requests _ _ _ Hg) in *. destruct (Hr rid H1); congruence.
Qed.
Lemma registered_forget j i s s' : od_ok (s_requests s) -> registered s i -> forgets j s s' -> registered s' i.
Proof.
  intros Hok Hr [Hg | rid s1 Hg H1 _ ->]; intros n; [rewrite (tag_name _ _ i (fr_obj _ _ _ Hg i)), (fr_requests _ _ _ Hg); apply Hr |].
  simpl. rewrite (fr_requests _ _ _ Hg), od_get_del by done. change (name_of (with_requests _ s1) i) with (name_of s1 i).
  rewrite (tag_name _ _ i (fr_obj _ _ _ Hg i)). intros Hn%Hr. destruct (decide (n = rid)); auto.
Qed.
Lemma placed_registered rs ws ss ex rid i s : placed rs ws ss ex s -> od_get rid (s_requests s) = Some i -> registered s i.
Proof. intros Hp Hg n Hn. destruct (pl_all _ _ _ _ _ Hp rid i Hg) as [E _]. left. congruence. Qed.

(** ** finish_requests *)

(** What the first pass over the ids collects. *)
Definition picked s (ids : list string) (f : RequestStatus -> bool) (i : Z) : Prop :=
  exists rid, rid ∈ ids /\ od_get rid (s_requests s) = Some i /\ is_stat f s i.
Lemma picked_frame s s' ids rid f i : frame tag s s' -> picked s' ids f i -> picked s (rid :: ids) f i.
Proof.
  intros Hf (n & H1 & H2 & H3). exists n. split; [by right |]. rewrite <- (fr_requests _ _ _ Hf). split; [done |].
  eapply is_stat_eq; [| exact H3]. symmetry. apply tag_stat, Hf.
Qed.

Lemma collect_finished_run ids : forall ro wo s rw s', collect_finished ids ro wo s = (Ok rw, s') -> frame tag s s' /\
  (forall i, i ∈ rw.1 -> i ∈ ro \/ picked s ids (fun st => bool_decide (st = RUNNING)) i) /\ (forall i, i ∈ rw.2 -> i ∈ wo \/ picked s ids queued i).
Proof.
  induction ids as [|rid ids IH]; intros ro wo s rw s'; cbn [collect_finished]; [intros [= <- <-]; split; [reflexivity | auto] |].
  assert (forall ro' wo' s1, frame tag s s1 -> collect_finished ids ro' wo' s1 = (Ok rw, s') ->
    (forall i, i ∈ ro' -> i ∈ ro \/ picked s (rid :: ids) (fun st => bool_decide (st = RUNNING)) i) ->
    (forall i, i ∈ wo' -> i ∈ wo \/ picked s (rid :: ids) queued i) -> frame tag s s' /\
    (forall i, i ∈ rw.1 -> i ∈ ro \/ picked s (rid :: ids) (fun st => bool_decide (st = RUNNING)) i) /\
    (forall i, i ∈ rw.2 -> i ∈ wo \/ picked s (rid :: ids) queued i)) as Hgo.
  { intros ro' wo' s1 Hf E Hr Hw. destruct (IH _ _ _ _ _ E) as (F & H1 & H2). split; [by transitivity s1 |].
    split; intros i Hi; [destruct (H1 i Hi) | destruct (H2 i Hi)]; auto; right; by eapply picked_frame. }
  unfold bind at 1, get. destruct (od_get rid (s_requests s)) as [i|] eqn:Eg; [| intros E; eapply Hgo; eauto; done].
  unfold bind at 1, obj. destruct (objs s !! i) as [o|] eqn:Eo; [| done].
  assert (stat_of s i = Some (status (rq o))) as Hst by (unfold stat_of, tag_of; by rewrite Eo).
  assert (forall f : RequestStatus -> bool, f (status (rq o)) = true -> picked s (rid :: ids) f i) as Hpick.
  { intros f Hf. exists rid. split; [left | split; [done | by exists (status (rq o))]]. }
  destruct (is_finished (rq o)) eqn:Ef; [intros E; eapply Hgo; eauto; done |]. case_bool_decide as Hrun.
  - intros E. eapply Hgo; [reflexivity | exact E | | auto]. intros j [Hj | ->%list_elem_of_singleton]%elem_of_app; [by left | right].
    apply Hpick. by rewrite Hrun.
  - set (m := if bool_decide _ then _ else _). assert (quiet tag m) as Hq by (unfold m; destruct (bool_decide _); [by apply quiet_modify | apply quiet_ret]).
    unfold bind. specialize (Hq s). destruct (m s) as [[[]|e] s1]; [| done]. intros E. eapply Hgo; [exact Hq | exact E | auto |].
    intros j [Hj | ->%list_elem_of_singleton]%elem_of_app; [by left | right]. apply Hpick. unfold queued. unfold is_finished in Ef. rewrite Ef. simpl.
    by rewrite bool_decide_eq_false_2.
Qed.

(** Every request that is named and not finished is collected. *)
Lemma collect_complete ids : forall ro wo s rw s', collect_finished ids ro wo s = (Ok rw, s') ->
  (forall i, i ∈ ro ++ wo -> i ∈ rw.1 ++ rw.2) /\
  (forall rid i, rid ∈ ids -> od_get rid (s_requests s) = Some i -> is_stat status_is_finished s i \/ i ∈ rw.1 ++ rw.2).
Proof.
  induction ids as [|rid ids IH]; intros ro wo s rw s'; cbn [collect_finished]; [intros [= <- <-]; split; [done | by intros ? ? ?%elem_of_nil] |].
  assert (forall ro' wo' s1, frame tag s s1 -> collect_finished ids ro' wo' s1 = (Ok rw, s') -> (forall i, i ∈ ro ++ wo -> i ∈ ro' ++ wo') ->
    (forall i, od_get rid (s_requests s) = Some i -> is_stat status_is_finished s i \/ i ∈ ro' ++ wo') ->
    (forall i, i ∈ ro ++ wo -> i ∈ rw.1 ++ rw.2) /\
    (forall n i, n ∈ rid :: ids -> od_get n (s_requests s) = Some i -> is_stat status_is_finished s i \/ i ∈ rw.1 ++ rw.2)) as Hgo.
  { intros ro' wo' s1 Hf E Hsub Hrid. destruct (IH _ _ _ _ _ E) as (H1 & H2). split; [auto |]. intros n i [-> | Hn]%elem_of_cons Hg.
    - destruct (Hrid i Hg); auto.
    - rewrite <- (fr_requests _ _ _ Hf) in Hg. destruct (H2 n i Hn Hg) as [Hx | ?]; [left | by right].
      eapply is_stat_eq; [| exact Hx]. symmetry. apply tag_stat, Hf. }
  unfold bind at 1, get. destruct (od_get rid (s_requests s)) as [i|] eqn:Eg; [| intros E; eapply Hgo; eauto; done].
  unfold bind at 1, obj. destruct (objs s !! i) as [o|] eqn:Eo; [| done]. destruct (is_finished (rq o)) eqn:Ef.
  { intros E. eapply Hgo; [reflexivity | exact E | done |]. intros j [= <-]. left. exists (status (rq o)). split; [unfold stat_of, tag_of; by rewrite Eo | done]. }
  case_bool_decide.
  - intros E. eapply Hgo; [reflexivity | exact E | set_solver | intros j [= <-]; set_solver].
  - set (m := if bool_decide _ then _ else _). assert (quiet tag m) as Hq by (unfold m; destruct (bool_decide _); [by apply quiet_modify | apply quiet_ret]).
    unfold bind. specialize (Hq s). destruct (m s) as [[[]|e] s1]; [| done]. intros E.
    eapply Hgo; [exact Hq | exact E | set_solver | intros j [= <-]; set_solver].
Qed.

Lemma registered_local i j s s' : local i s s' -> registered s j -> registered s' j.
Proof. intros [_ _ _ [C1 _ C3]] Hr rid. rewrite C1, C3. apply Hr. Qed.

(** The requests in [l] are finished, nothing else changes, and requests are only forgotten. *)
Record finishes (l : list Z) s s' : Prop := {
  fi_tag j : j ∉ l -> tag_of s' j = tag_of s j;
  fi_done j : j ∈ l -> is_stat status_is_finished s' j;
  fi_requests rid j : od_get rid (s_requests s') = Some j -> od_get rid (s_requests s) = Some j;
  fi_keep rid j : od_get rid (s_requests s) = Some j -> j ∉ l -> od_get rid (s_requests s') = Some j;
}.
Lemma finishes_nil s s' : frame tag s s' -> finishes [] s s'.
Proof. intros Hf. split; [intros j _; apply Hf | by intros j ?%elem_of_nil | by rewrite (fr_requests _ _ _ Hf) ..]. Qed.
Lemma finishes_app l k s s1 s' : finishes l s s1 -> finishes k s1 s' -> finishes (l ++ k) s s'.
Proof.
  intros [H1 H2 H3 H4] [G1 G2 G3 G4]. split; [| | auto | intros rid j Hj; rewrite elem_of_app; intros Hn; apply G4; [apply H4 |]; tauto].
  - intros j. rewrite elem_of_app. intros Hj. rewrite G1, H1; [done | tauto | tauto].
  - intros j Hj. destruct (decide (j ∈ k)) as [Hk | Hk]; [auto |]. apply elem_of_app in Hj as [Hj | ?]; [| done].
    eapply is_stat_eq; [by apply tag_stat, G1 | auto].
Qed.
Lemma finishes_stat l s s' j : finishes l s s' -> is_stat status_is_finished s j -> is_stat status_is_finished s' j.
Proof. intros [H1 H2 _ _] Hf. destruct (decide (j ∈ l)) as [Hj | Hj]; [auto |]. eapply is_stat_eq; [by apply tag_stat, H1 | done]. Qed.
Lemma finishes_forget i s s1 s' : od_ok (s_requests s1) -> registered s1 i -> local i s s1 -> is_stat status_is_finished s1 i -> forgets i s1 s' -> finishes [i] s s'.
Proof.
  intros Hok Hr Hl Hs Hg. pose proof (forgets_lists _ _ _ Hg) as (_ & _ & _ & Ht). pose proof (ch_requests _ _ _ (lc_changes _ _ _ Hl)) as Hreq. split.
  - intros j Hj. rewrite Ht. apply (ch_tag _ _ _ (lc_changes _ _ _ Hl)). set_solver.
  - intros j ->%list_elem_of_singleton. by eapply is_stat_eq; [apply tag_stat, Ht |].
  - intros rid j Hj. rewrite <- Hreq. destruct Hg as [Hg | n s2 Hg _ _ ->]; [by rewrite <- (fr_requests _ _ _ Hg) |].
    simpl in Hj. rewrite (fr_requests _ _ _ Hg), od_get_del in Hj by done. by destruct (decide (rid = n)).
  - intros rid j. rewrite <- Hreq. intros Hj Hji. destruct Hg as [Hg | n s2 Hg Hn _ ->]; [by rewrite (fr_requests _ _ _ Hg) |].
    simpl. rewrite (fr_requests _ _ _ Hg), od_get_del by done. destruct (decide (rid = n)) as [-> | _]; [| done].
    rewrite (tag_name _ _ i (fr_obj _ _ _ Hg i)) in Hn. destruct (Hr n Hn) as [E | E]; [| congruence]. rewrite Hj in E. injection E as ->. set_solver.
Qed.

(** A finished request is in none of the lists any more. *)
Lemma placed_drop rs ws ss ex i s s' : placed rs ws ss ex s -> changes i s s' -> is_stat status_is_finished s' i ->
  placed (filter (fun j => j <> i) rs) (filter (fun j => j <> i) ws) (filter (fun j => j <> i) ss) (filter (fun j => j <> i) ex) s'.
Proof.
  intros Hp Hc Hf. eapply (placed_finish _ _ _ _ _ _ _ _ i); [exact Hp | done | | | | done].
  - rewrite <- !filter_app. apply NoDup_filter, Hp.
  - intros j. rewrite <- !filter_app, list_elem_of_filter. tauto.
  - intros j. rewrite !list_elem_of_filter. tauto.
Qed.
Lemma filter_ne_id (l : list Z) i : i ∉ l -> filter (fun j => j <> i) l = l.
Proof. intros Hi. apply filter_id. by intros j Hj ->. Qed.
Lemma filter_ne_perm (l : list Z) i : NoDup l -> i ∈ l -> l ≡ₚ i :: filter (fun j => j <> i) l.
Proof.
  intros Hnd Hi. apply NoDup_Permutation; [done | constructor; [rewrite list_elem_of_filter; tauto | by apply NoDup_filter] |].
  intros j. rewrite elem_of_cons, list_elem_of_filter. destruct (decide (j = i)) as [-> | ?]; tauto.
Qed.

Lemma finish_one_place st i rs ws ss ex s x s' : status_is_finished st = true -> finish_one st i s = (Ok x, s') ->
  placed rs ws ss ex s -> registered s i -> i ∉ rs ++ ws ++ ss ->
  placed rs ws ss (filter (fun j => j <> i) ex) s' /\ (forall j, registered s j -> registered s' j) /\ finishes [i] s s' /\
  running s' = running s /\ waiting s' = waiting s /\ skipped_waiting s' = skipped_waiting s.
Proof.
  intros Hst E Hp Hr Hi. assert (exists s1, local i s s1 /\ stat_of s1 i = Some st /\ forgets i s1 s') as (s1 & Hl & Hs1 & Hg).
  { revert E. unfold finish_one. unfold bind at 1, obj. destruct (objs s !! i) as [o|] eqn:Eo; [| done]. unfold bind at 1, get.
    set (m := if bool_decide _ then _ else _). assert (moves i st (m ;;; set_state i st)) as Hm.
    { apply moves_before; [| intros _; apply moves_state]. unfold m. destruct (bool_decide _); [| apply quiet_ret].
      apply quiet_bind; [by apply quiet_modify | intros; apply quiet_ret]. }
    specialize (Hm s). unfold bind in *. destruct (m s) as [[d|e] s0]; [| done]. destruct (set_state i st s0) as [[[]|e] s1] eqn:Es; [| done].
    destruct (Hm tt s1 eq_refl) as [H1 H2]; [by exists o |]. destruct (_free_request i d s1) as [[[]|e] s2] eqn:Ef; [| done].
    intros [= <- <-]. apply free_request_run in Ef. by exists s1. }
  assert (is_stat status_is_finished s1 i) as Hf by (by exists st).
  destruct (forgets_lists _ _ _ Hg) as (G1 & G2 & G3 & _). pose proof Hl as [L1 L2 L3 L4].
  pose proof (placed_drop _ _ _ _ i s s1 Hp L4 Hf) as Hp1. rewrite !elem_of_app in Hi. rewrite !filter_ne_id in Hp1 by tauto.
  assert (od_ok (s_requests s1)) as Hok by (rewrite (ch_requests _ _ _ L4); apply Hp).
  split; [eapply placed_forget; [exact Hp1 | done | by eapply registered_local | done] |].
  split; [intros j Hj; eapply registered_forget; [done | by eapply registered_local | exact Hg] |].
  split; [eapply finishes_forget; [done | by eapply registered_local | done ..] | by rewrite G1, G2, G3].
Qed.

Lemma filter_not_in_nil {A} `{EqDecision A} (l : list A) : filter (fun x => x ∉ []) l = l.
Proof. apply filter_id. intros x _. apply not_elem_of_nil. Qed.

Lemma finish_all_place st rs ws ss l : status_is_finished st = true -> forall ex s x s', traverse l (finish_one st) s = (Ok x, s') ->
  placed rs ws ss ex s -> (forall i, i ∈ l -> registered s i /\ (i ∉ rs ++ ws ++ ss)) ->
  placed rs ws ss (filter (fun j => j ∉ l) ex) s' /\ finishes l s s' /\
  running s' = running s /\ waiting s' = waiting s /\ skipped_waiting s' = skipped_waiting s.
Proof.
  intros Hst. induction l as [|i l IH]; intros ex s x s'; cbn [traverse].
  - intros [= <- <-] Hp _. split; [by rewrite filter_not_in_nil |]. split; [by apply finishes_nil | done].
  - unfold bind at 1. destruct (finish_one st i s) as [[y|e] s1] eqn:E1; [| done]. unfold bind. destruct (traverse l _ s1) as [[ys|e] s2] eqn:E2; [| done].
    intros [= <- <-] Hp Hl. destruct (Hl i) as [R1 R2]; [left |]. destruct (finish_one_place st i rs ws ss ex s y s1 Hst E1 Hp R1 R2) as (P1 & P2 & PF & P3 & P4 & P5).
    destruct (IH _ _ _ _ E2 P1) as (Q1 & QF & Q2 & Q3 & Q4).
    + intros j Hj. destruct (Hl j) as [H1 H2]; [by right |]. auto.
    + rewrite Q2, Q3, Q4. split; [| split; [exact (finishes_app [i] l _ _ _ PF QF) | done]]. rewrite list_filter_filter in Q1.
      erewrite list_filter_iff; [exact Q1 |]. intros j. set_solver.
Qed.

(** The lists after the requests to finish were taken out. *)
Lemma take_out_place rs ws ss (a b : list Z) s s' : placed rs ws ss [] s -> (forall i, tag_of s' i = tag_of s i) -> s_requests s' = s_requests s ->
  placed (filter (fun i => i ∉ a) rs) (filter (fun i => i ∉ b) ws) (filter (fun i => i ∉ b) ss)
    (filter (fun i => i ∈ a) rs ++ filter (fun i => i ∈ b) ws ++ filter (fun i => i ∈ b) ss) s'.
Proof.
  intros Hp Ht Hr. eapply placed_shrink; [exact Hp | | | done | done].
  - rewrite <- (filter_app_complement (fun i => i ∈ a) rs) at 3. rewrite <- (filter_app_complement (fun i => i ∈ b) ws) at 3.
    rewrite <- (filter_app_complement (fun i => i ∈ b) ss) at 3. solve_Permutation.
  - intros j. rewrite !list_elem_of_filter. tauto.
Qed.


(** The requests that are finished, in the order of their ids. *)
Lemma valid_order_spec s ids (a b : list Z) : (forall i, i ∈ a -> picked s ids (fun st => bool_decide (st = RUNNING)) i) -> (forall i, i ∈ b -> picked s ids queued i) ->
  forall i, i ∈ valid_order s ids (a ++ b) <-> i ∈ a ++ b.
Proof.
  intros Ha Hb i. unfold valid_order. rewrite list_elem_of_filter, list_elem_of_omap. split; [tauto |]. intros Hi. split; [done |].
  apply elem_of_app in Hi as [(rid & H1 & H2 & _)%Ha | (rid & H1 & H2 & _)%Hb]; by exists rid.
Qed.

(** What [finish_requests] has taken out of the lists before it finishes the requests. *)
Lemma finish_lists_run (a b : list Z) s1 s : NoDup (running s) -> frame tag s s1 ->
  hoare (fun x => x = s1) ((match a with [] => ret tt | _ => modify (fun s => with_running (remove_all (running s) a) s) end) ;;;
    (match b with
     | [] => ret tt
     | _ => on_queue Waiting (fun st => remove_requests (RequestQueue := any_queue st) b) ;;;
            on_queue Skipped (fun st => remove_requests (RequestQueue := any_queue st) b)
     end))
    (fun _ s3 => running s3 = filter (fun i => i ∉ a) (running s) /\ qitems (waiting s3) ≡ₚ filter (fun i => i ∉ b) (qitems (waiting s)) /\
      qitems (skipped_waiting s3) ≡ₚ filter (fun i => i ∉ b) (qitems (skipped_waiting s)) /\ (forall i, tag_of s3 i = tag_of s i) /\ s_requests s3 = s_requests s).
Proof.
  intros Hnd Hf. eapply (hoare_bind _ _ (fun _ s2 => running s2 = filter (fun i => i ∉ a) (running s) /\ waiting s2 = waiting s /\
    skipped_waiting s2 = skipped_waiting s /\ (forall i, tag_of s2 i = tag_of s i) /\ s_requests s2 = s_requests s)).
  - intros x ->. assert (remove_all (running s1) a = filter (fun i => i ∉ a) (running s)) as Er.
    { rewrite (fr_running _ _ _ Hf). by apply remove_all_spec. }
    destruct a as [|i0 a0]; simpl; (split; [exact Er |]); split_and!; apply Hf.
  - intros [] s2 (A1 & A2 & A3 & A4 & A5). destruct b as [|i0 b0].
    + unfold ret. rewrite !filter_not_in_nil, A2, A3. done.
    + unfold bind, on_queue. cbn [queue_of with_queue]. destruct (remove_requests _ (waiting s2)) as [[u|e] q1] eqn:Q1; [| done].
      cbn [skipped_waiting with_waiting]. destruct (remove_requests _ (skipped_waiting s2)) as [[u'|e] q2] eqn:Q2; [| done].
      apply qitems_remove in Q1, Q2. rewrite A2 in Q1. rewrite A3 in Q2. done.
Qed.

(** Requests finish and leave the lists, nothing else changes. *)
Record shrinks s s' : Prop := {
  sk_finishes : exists l, finishes l s s';
  sk_running j : j ∈ running s' -> j ∈ running s;
  sk_waiting j : j ∈ qitems (waiting s') -> j ∈ qitems (waiting s);
  sk_skipped j : j ∈ qitems (skipped_waiting s') -> j ∈ qitems (skipped_waiting s);
}.

(** The requests that are named finish, and no others. *)
Definition finishes_named (ids : list string) s s' : Prop := exists l, finishes l s s' /\
  (forall i, i ∈ l -> exists rid, rid ∈ ids /\ od_get rid (s_requests s) = Some i) /\
  (forall rid i, rid ∈ ids -> od_get rid (s_requests s) = Some i -> is_stat status_is_finished s i \/ i ∈ l).
(** The ids that are named. *)
Definition finish_ids (ids : option (list string)) s : list string := match ids with Some l => l | None => od_keys (s_requests s) end.

Lemma finish_requests_life ids st s r s' : life s -> finish_requests ids st s = (Ok r, s') -> life s' /\ shrinks s s' /\
  finishes_named (finish_ids ids s) s s'.
Proof.
  intros Hl. unfold finish_requests. unfold bind at 1, assert. destruct (status_is_finished st) eqn:Hst; [| done]. unfold ret at 1. cbv beta iota.
  unfold bind at 1, get. set (idl := match ids with Some l => l | None => _ end). unfold bind at 1.
  destruct (collect_finished idl [] [] s) as [[[a b]|e] s1] eqn:Ec; [| done]. pose proof (collect_complete _ _ _ _ _ _ Ec) as [_ Hall]. apply collect_finished_run in Ec as (Hf & Ha & Hb). simpl in Ha, Hb.
  assert (forall i, i ∈ a -> picked s idl (fun st => bool_decide (st = RUNNING)) i) as Ha' by (intros i Hi; destruct (Ha i Hi) as [?%elem_of_nil | ?]; done).
  assert (forall i, i ∈ b -> picked s idl queued i) as Hb' by (intros i Hi; destruct (Hb i Hi) as [?%elem_of_nil | ?]; done).
  cbv zeta. cbn [fst snd]. set (valid := valid_order s idl (a ++ b)). intros E.
  assert (NoDup (running s)) as Hnd by (pose proof (pl_nodup _ _ _ _ _ Hl) as Hn; apply NoDup_app in Hn; tauto).
  revert E. apply hoare_run with (P := fun x => x = s1) (Q := fun _ s' => life s' /\ shrinks s s' /\ finishes_named idl s s'); [| done]. apply hoare_assoc.
  eapply hoare_bind; [apply (finish_lists_run a b s1 s Hnd Hf) |]. intros [] s3 (B1 & B2 & B3 & B4 & B5).
  destruct (traverse valid (finish_one st) s3) as [[y|e] s4] eqn:E; [| done].
  pose proof (take_out_place _ _ _ a b s s3 Hl B4 B5) as Hp. rewrite <- B2, <- B3, <- B1 in Hp.
  destruct (finish_all_place st _ _ _ _ Hst _ _ _ _ E Hp) as (P1 & PF & P2 & P3 & P4).
  - intros i Hi. apply (valid_order_spec s idl a b Ha' Hb') in Hi. apply elem_of_app in Hi. rewrite !elem_of_app, B1, B2, B3, !list_elem_of_filter. split.
    + assert (exists rid, od_get rid (s_requests s) = Some i) as [rid Hg].
      { destruct Hi as [(rid & _ & Hg & _)%Ha' | (rid & _ & Hg & _)%Hb']; by exists rid. }
      eapply placed_registered; [exact Hp | by rewrite B5].
    + destruct Hi as [Hi | Hi]; [destruct (Ha' i Hi) as (_ & _ & _ & Hs) | destruct (Hb' i Hi) as (_ & _ & _ & Hs)]; intros [[N Hx] | [[N Hx] | [N Hx]]]; try done.
      * eapply is_stat_not; [| exact Hs | exact (pl_wait _ _ _ _ _ Hl i Hx)]. by intros [].
      * eapply is_stat_not; [| exact Hs | exact (pl_skip _ _ _ _ _ Hl i Hx)]. by intros [].
      * eapply is_stat_not; [| exact Hs | exact (pl_run _ _ _ _ _ Hl i Hx)]. by intros [].
  - assert (finishes valid s s4) as Hfin.
    { exact (finishes_app [] valid s s3 s4 ltac:(split; [intros j _; apply B4 | by intros j ?%elem_of_nil | by rewrite B5 ..]) PF). }
    split; [| split].
    + unfold life. rewrite P2, P3, P4. assert (forall l, (forall i, i ∈ l -> i ∈ valid) -> filter (fun i => i ∉ valid) l = []) as Hnil.
      { intros l Hsub. apply elem_of_nil_inv. intros i. rewrite list_elem_of_filter. intros [Hn Hi]. auto. }
      rewrite Hnil in P1; [exact P1 |]. intros i. rewrite !elem_of_app, !list_elem_of_filter. intros Hi.
      apply (valid_order_spec s idl a b Ha' Hb'). rewrite elem_of_app. tauto.
    + split; [by exists valid | rewrite P2, B1 | rewrite P3 | rewrite P4]; intros j; rewrite ?B2, ?B3, list_elem_of_filter; tauto.
    + exists valid. split; [done |]. split.
      * intros i Hi. apply (valid_order_spec s idl a b Ha' Hb'), elem_of_app in Hi as [(rid & ? & ? & _)%Ha' | (rid & ? & ? & _)%Hb']; by exists rid.
      * intros rid i Hrid Hg. destruct (Hall rid i Hrid Hg); [by left | right; by apply (valid_order_spec s idl a b Ha' Hb')].
Qed.
End finish.

(** ** Requests of an output *)
Section pend.
Context {W : Type}.
Implicit Types s : Scheduler W.

Definition no_session s (i : Z) : Prop := forall g, tag_of s i = Some g -> g.2 = false.

(** The requests [keys] of an output that is still to come are forgotten, finished, running,
    or waiting and no sessions. *)
Definition pend (keys : list string) (rs ws : list Z) s : Prop := forall rid i, rid ∈ keys -> od_get rid (s_requests s) = Some i ->
  is_stat status_is_finished s i \/ i ∈ rs \/ i ∈ ws /\ no_session s i.

Lemma pend_frame keys rs ws s s' : pend keys rs ws s -> (forall i, tag_of s' i = tag_of s i) -> s_requests s' = s_requests s -> pend keys rs ws s'.
Proof.
  intros Hp Ht Hr rid i Hi. rewrite Hr. intros Hg. destruct (Hp rid i Hi Hg) as [Hf | [Hi' | [Hi' Hn]]]; [left | auto |].
  - eapply is_stat_eq; [apply tag_stat, Ht | done].
  - right. right. split; [done |]. intros g. rewrite Ht. apply Hn.
Qed.

(** The requests that have finished meanwhile leave the lists. *)
Lemma pend_shrinks keys s s' : life s -> life s' -> shrinks s s' -> pend keys (running s) (qitems (waiting s)) s ->
  pend keys (running s') (qitems (waiting s')) s'.
Proof.
  intros Hl Hl' [[l Hf] S1 S2 S3] Hp rid i Hi Hg. destruct (pl_all _ _ _ _ _ Hl' rid i Hg) as [_ [? | Hin]]; [by left |].
  pose proof (Hp rid i Hi (fi_requests _ _ _ Hf rid i Hg)) as Hold. pose proof (pl_nodup _ _ _ _ _ Hl) as Hnd. rewrite app_nil_r, !elem_of_app in *.
  pose proof (S1 i). pose proof (S2 i). pose proof (S3 i). rewrite !NoDup_app in Hnd. setoid_rewrite elem_of_app in Hnd.
  destruct Hold as [Hold | [Hold | [Hold Hn]]].
  - left. by eapply finishes_stat.
  - right. left. naive_solver.
  - right. right. split; [naive_solver |]. intros g. rewrite (fi_tag _ _ _ Hf); [apply Hn |]. intros Hil.
    assert (is_stat unfinished s' i) as Hu by (eapply placed_unfinished; [exact Hl' |]; rewrite app_nil_r, !elem_of_app; tauto).
    eapply is_stat_not; [| exact (fi_done _ _ _ Hf i Hil) | exact Hu]. intros st Hst. unfold unfinished. by rewrite Hst.
Qed.
End pend.

Section output.
Context {W : Type} `{Externals W} (cfg : SchedulerConfig) (sha256 : bytes -> bytes) (hasher : BlockHasher) `{!MemoHasher hasher}.
Implicit Types (s : Scheduler W) (a : UpdateAcc).

(** The running and waiting requests without those that have stopped in this loop. *)
Definition rs_of a s : list Z := filter (fun i => i ∉ ua_stopped_running a) (running s).
Definition ws_of a s : list Z := filter (fun i => i ∉ ua_stopped_preempted a) (qitems (waiting s)).

(** The invariant of the loop over the requests of the output; [keys] are still to come. *)
Record updating (keys : list string) a s : Prop := {
  ud_placed : placed (rs_of a s) (ws_of a s) (qitems (skipped_waiting s)) [] s;
  ud_done j : j ∈ ua_stopped_preempted a -> is_stat status_is_finished s j;
  ud_pend : pend keys (rs_of a s) (ws_of a s) s;
  ud_nodup : NoDup (running s);
}.

Lemma updating_frame keys a s s' : updating keys a s -> frame tag s s' -> updating keys a s'.
Proof.
  intros [H1 H2 H3 H4] Hf. unfold rs_of, ws_of in *. split; unfold rs_of, ws_of; rewrite ?(fr_running _ _ _ Hf), ?(fr_waiting _ _ _ Hf), ?(fr_skipped _ _ _ Hf); try done.
  - eapply placed_frame; [done | apply Hf | apply Hf].
  - intros j Hj. eapply is_stat_eq; [apply tag_stat, Hf | auto].
  - eapply pend_frame; [done | apply Hf | apply Hf].
Qed.
Lemma updating_weaken rid keys a s : updating (rid :: keys) a s -> updating keys a s.
Proof. intros [H1 H2 H3 H4]. split; try done. intros n i Hn. apply H3. by right. Qed.
Lemma updating_keeps {A} keys a (f : SM W A) : quiet tag f -> keeps (updating keys a) f.
Proof. intros Hf s Hs. specialize (Hf s). destruct (f s) as [[x|e] s']; [by eapply updating_frame | done]. Qed.

(** What is known of the request that has stopped. *)
Record stopping rid keys a s i o : Prop := {
  sp_upd : updating (rid :: keys) a s;
  sp_new : rid ∉ keys;
  sp_get : od_get rid (s_requests s) = Some i;
  sp_obj : objs s !! i = Some o;
  sp_live : is_finished (rq o) = false;
}.
Definition stop_acc a (i : Z) (o : SchedRequest) : UpdateAcc :=
  if bool_decide (status (rq o) = RUNNING)
  then mkUpd (ua_outputs a) (ua_stopped_running a ++ [i]) (ua_stopped_preempted a)
  else mkUpd (ua_outputs a) (ua_stopped_running a) (ua_stopped_preempted a ++ [i]).

Lemma stopping_stat rid keys a s i o f : stopping rid keys a s i o -> is_stat f s i -> f (status (rq o)) = true.
Proof. intros Hs (st & Hst & Hf). unfold stat_of, tag_of in Hst. rewrite (sp_obj _ _ _ _ _ _ Hs) in Hst. by injection Hst as <-. Qed.
(** It runs, or it waits and is no session. *)
Lemma stopping_place rid keys a s i o : stopping rid keys a s i o ->
  status (rq o) = RUNNING /\ i ∈ rs_of a s \/ status (rq o) <> RUNNING /\ i ∈ ws_of a s /\ no_session s i.
Proof.
  intros Hs. destruct (ud_pend _ _ _ (sp_upd _ _ _ _ _ _ Hs) rid i) as [Hf | [Hi | [Hi Hn]]]; [left | apply Hs | | |].
  - apply (stopping_stat _ _ _ _ _ _ _ Hs) in Hf. pose proof (sp_live _ _ _ _ _ _ Hs) as Hl. unfold is_finished in Hl. congruence.
  - left. split; [| done]. pose proof (pl_run _ _ _ _ _ (ud_placed _ _ _ (sp_upd _ _ _ _ _ _ Hs)) i Hi) as Hr.
    apply (stopping_stat _ _ _ _ _ _ _ Hs) in Hr. by apply bool_decide_eq_true in Hr.
  - right. split; [| done]. pose proof (pl_wait _ _ _ _ _ (ud_placed _ _ _ (sp_upd _ _ _ _ _ _ Hs)) i Hi) as Hr.
    apply (stopping_stat _ _ _ _ _ _ _ Hs) in Hr. intros E. by rewrite E in Hr.
Qed.
(** Other requests of the output are other objects. *)
Lemma stopping_other rid keys a s i o n j : stopping rid keys a s i o -> n ∈ keys -> od_get n (s_requests s) = Some j -> j <> i.
Proof.
  intros Hs Hn Hg ->. pose proof (ud_placed _ _ _ (sp_upd _ _ _ _ _ _ Hs)) as Hp. destruct (pl_all _ _ _ _ _ Hp n i Hg) as [E1 _].
  destruct (pl_all _ _ _ _ _ Hp rid i (sp_get _ _ _ _ _ _ Hs)) as [E2 _]. apply (sp_new _ _ _ _ _ _ Hs). congruence.
Qed.

(** The lists after the request has stopped. *)
Lemma stop_lists rid keys a s i o : stopping rid keys a s i o ->
  rs_of (stop_acc a i o) s = filter (fun j => j <> i) (rs_of a s) /\ ws_of (stop_acc a i o) s = filter (fun j => j <> i) (ws_of a s) /\
  (i ∉ qitems (skipped_waiting s)).
Proof.
  intros Hs. pose proof (pl_nodup _ _ _ _ _ (ud_placed _ _ _ (sp_upd _ _ _ _ _ _ Hs))) as Hnd. rewrite app_nil_r, !NoDup_app in Hnd.
  setoid_rewrite elem_of_app in Hnd. destruct Hnd as (_ & N1 & _ & N2 & _).
  assert (forall l k : list Z, filter (fun j => j ∉ l ++ [i]) k = filter (fun j => j <> i) (filter (fun j => j ∉ l) k)) as Hflt.
  { intros l k. rewrite list_filter_filter. apply list_filter_iff. intros j. set_solver. }
  unfold stop_acc. destruct (stopping_place _ _ _ _ _ _ Hs) as [[E Hi] | (E & Hi & _)].
  - rewrite bool_decide_eq_true_2 by done. unfold rs_of, ws_of in *. simpl. rewrite Hflt. split; [done |]. rewrite (filter_ne_id (filter _ (qitems (waiting s)))); naive_solver.
  - rewrite bool_decide_eq_false_2 by done. unfold rs_of, ws_of in *. simpl. rewrite Hflt. rewrite (filter_ne_id (filter _ (running s))); [| naive_solver].
    split; [done |]. split; [done |]. naive_solver.
Qed.

(** A stopped request that finishes. *)
Lemma stop_finished rid keys a s i o s1 s' : stopping rid keys a s i o -> local i s s1 -> is_stat status_is_finished s1 i -> forgets i s1 s' ->
  updating keys (stop_acc a i o) s'.
Proof.
  intros Hs Hl Hf Hg. destruct (stop_lists _ _ _ _ _ _ Hs) as (E1 & E2 & E3). pose proof (forgets_lists _ _ _ Hg) as (G1 & G2 & G3 & G4).
  pose proof Hl as [L1 L2 L3 L4]. pose proof (ud_placed _ _ _ (sp_upd _ _ _ _ _ _ Hs)) as Hp.
  assert (od_ok (s_requests s1)) as Hok by (rewrite (ch_requests _ _ _ L4); apply Hp).
  assert (registered s1 i) as Hreg.
  { eapply registered_local; [exact Hl |]. eapply placed_registered; [exact Hp | apply Hs]. }
  pose proof (finishes_forget i s s1 s' Hok Hreg Hl Hf Hg) as Hfin.
  assert (rs_of (stop_acc a i o) s' = rs_of (stop_acc a i o) s) as R1 by (unfold rs_of; by rewrite G1, L1).
  assert (ws_of (stop_acc a i o) s' = ws_of (stop_acc a i o) s) as R2 by (unfold ws_of; by rewrite G2, L2).
  split; rewrite ?R1, ?R2, ?G1, ?G3, ?L1, ?L3, ?E1, ?E2; [| | | apply (sp_upd _ _ _ _ _ _ Hs)].
  - eapply placed_forget; [| exact Hf | exact Hreg | exact Hg].
    pose proof (placed_drop _ _ _ _ i s s1 Hp L4 Hf) as Hp1. by rewrite (filter_ne_id (qitems (skipped_waiting s))) in Hp1.
  - intros j Hj. destruct (decide (j = i)) as [-> | Hne]; [apply (fi_done _ _ _ Hfin); left |]. eapply finishes_stat; [exact Hfin |].
    apply (ud_done _ _ _ (sp_upd _ _ _ _ _ _ Hs)). unfold stop_acc in Hj. destruct (bool_decide _); simpl in Hj; set_solver.
  - intros n j Hn Hgn. apply (fi_requests _ _ _ Hfin) in Hgn. pose proof (stopping_other _ _ _ _ _ _ _ _ Hs Hn Hgn) as Hne.
    destruct (ud_pend _ _ _ (sp_upd _ _ _ _ _ _ Hs) n j) as [Hj | [Hj | [Hj Hns]]]; [by right | done | left; by eapply finishes_stat | right; left | right; right].
    + by rewrite list_elem_of_filter.
    + rewrite list_elem_of_filter. split; [done |]. intros g. rewrite (fi_tag _ _ _ Hfin) by set_solver. apply Hns.
Qed.

(** A stopped session is queued again. *)
Lemma stop_session rid keys a s i o s1 s2 s' st : stopping rid keys a s i o -> evolves i true s s1 -> (exists g, tag_of s1 i = Some g /\ g.2 = true) ->
  local i s1 s2 -> stat_of s2 i = Some st -> queued st = true -> st <> PREEMPTED -> enqueued i st s2 s' -> updating keys (stop_acc a i o) s'.
Proof.
  intros Hs He (g & Hg & Hg2) Hl2 Hst Hq Hnp [N1 N2 N3 N4 N5]. destruct (stop_lists _ _ _ _ _ _ Hs) as (E1 & E2 & E3).
  pose proof (sp_upd _ _ _ _ _ _ Hs) as [Hp Hd Hpd Hnd]. assert (status (rq o) = RUNNING /\ i ∈ rs_of a s) as [Hrun Hi].
  { destruct (stopping_place _ _ _ _ _ _ Hs) as [? | (_ & _ & Hns)]; [done |]. exfalso.
    assert (tag_of s i = Some (tag o)) as Ht by (unfold tag_of; by rewrite (sp_obj _ _ _ _ _ _ Hs)).
    destruct (ev_tag _ _ _ _ He _ Ht) as (st1 & b1 & Ht1 & _ & Hb). rewrite Hg in Ht1. injection Ht1 as ->. simpl in Hg2. specialize (Hns _ Ht). rewrite Hb in Hns; done. }
  assert (local i s s2) as [L1 L2 L3 L4] by (transitivity s1; [apply He | done]).
  assert (i ∉ ua_stopped_preempted a) as Hni.
  { intros Hx%Hd. apply (stopping_stat _ _ _ _ _ _ _ Hs) in Hx. by rewrite Hrun in Hx. }
  assert (i ∉ ws_of a s) as Hnw.
  { intros Hx%(pl_wait _ _ _ _ _ Hp). apply (stopping_stat _ _ _ _ _ _ _ Hs) in Hx. by rewrite Hrun in Hx. }
  assert (ua_stopped_preempted (stop_acc a i o) = ua_stopped_preempted a) as Ea by (unfold stop_acc; by rewrite bool_decide_eq_true_2).
  set (pre := if _is_blocked_waiting_status st then [] else [i]) in *. set (pre' := if _is_blocked_waiting_status st then [i] else []) in *.
  assert (rs_of (stop_acc a i o) s' = filter (fun j => j <> i) (rs_of a s)) as R1 by (rewrite <- E1; unfold rs_of; by rewrite N3, L1).
  assert (ws_of (stop_acc a i o) s' ≡ₚ pre ++ ws_of a s) as R2.
  { unfold ws_of. rewrite Ea, N4, L2, filter_app. assert (filter (fun j => j ∉ ua_stopped_preempted a) pre = pre) as ->; [| done].
    apply filter_id. unfold pre. destruct (_is_blocked_waiting_status st); [by intros j ?%elem_of_nil | by intros j ->%list_elem_of_singleton]. }
  assert (forall j, j <> i -> tag_of s' j = tag_of s j) as Ht by (intros j Hj; rewrite N1; by apply L4).
  split.
  - rewrite R1, R2, N5, L3. eapply (placed_move _ _ _ _ _ _ _ _ i st); [exact Hp | | | | | by unfold stat_of; rewrite N1 | by apply queued_unfinished | | |].
    + split; [intros j; rewrite (tag_name _ _ j (N1 j)); apply L4 | done | rewrite N2; apply L4].
    + eapply placed_unfinished; [exact Hp |]. rewrite elem_of_app. by left.
    + rewrite (filter_ne_perm (rs_of a s) i) at 2; [| by apply NoDup_filter | done]. unfold pre, pre'. destruct (_is_blocked_waiting_status st); solve_Permutation.
    + intros j Hj. rewrite !elem_of_app, list_elem_of_filter. unfold pre, pre'. destruct (_is_blocked_waiting_status st); set_solver.
    + rewrite list_elem_of_filter. tauto.
    + unfold pre. destruct (_is_blocked_waiting_status st) eqn:Eb; [| by destruct st]. intros Hx. by destruct Hnw.
    + done.
  - intros j. rewrite Ea. intros Hj. eapply is_stat_eq; [apply tag_stat, Ht; by intros -> | auto].
  - intros n j Hn Hgn. rewrite N2, (ch_requests _ _ _ L4) in Hgn. pose proof (stopping_other _ _ _ _ _ _ _ _ Hs Hn Hgn) as Hne.
    rewrite R1, R2. destruct (Hpd n j) as [Hj | [Hj | [Hj Hns]]]; [by right | done | left | right; left | right; right].
    + eapply is_stat_eq; [by apply tag_stat, Ht | done].
    + by rewrite list_elem_of_filter.
    + split; [rewrite elem_of_app; by right |]. intros g'. rewrite Ht by done. apply Hns.
  - by rewrite N3, L1.
Qed.

Lemma quiet_free_encoder_inputs i : quiet (W := W) tag (_free_encoder_inputs cfg i).
Proof. unfold _free_encoder_inputs. solve_quiet. Qed.
Lemma quiet_reject_drafts i spec new : quiet (W := W) tag (reject_drafts i spec new).
Proof.
  unfold reject_drafts. solve_quiet; [apply quiet_set_rq | apply quiet_set_obj]; intros o; unfold tag; simpl; [by destruct (0 <? _) | by destruct (0 <? _)].
Qed.

(** The end of a stopped request. *)
Lemma stop_one rid keys a s i o : stopping rid keys a s i o ->
  hoare (evolves i true s) (let* finished := _handle_stopped_request hasher i in if finished : bool then _free_request i false else ret tt)
    (fun _ => updating keys (stop_acc a i o)).
Proof.
  intros Hs s1 He. unfold bind. destruct (_handle_stopped_request hasher i s1) as [[b|e] s2] eqn:Eh; [| done]. apply handle_stopped_run in Eh; [| done].
  assert (is_stat status_is_finished s1 i) as Hf1.
  { assert (tag_of s i = Some (tag o)) as Ht by (unfold tag_of; by rewrite (sp_obj _ _ _ _ _ _ Hs)).
    destruct (ev_tag _ _ _ _ He _ Ht) as (st & b' & Ht1 & Hst & _). exists st. split; [unfold stat_of; by rewrite Ht1 | done]. }
  destruct b.
  - destruct (_free_request i false s2) as [[[]|e] s3] eqn:Ef; [| done]. apply free_request_run in Ef.
    eapply stop_finished; [exact Hs | apply He | exact Hf1 | by eapply forgets_before].
  - destruct Eh as (Hg & s0 & st & H1 & H2 & H3 & H4 & H5). cbn. by eapply stop_session.
Qed.

Lemma update_one_life out m failed kn keys a : kn.1 ∉ keys ->
  hoare (updating (kn.1 :: keys) a) (update_one cfg sha256 hasher out m failed kn a) (fun a' => updating keys a').
Proof.
  intros Hnew. unfold update_one. eapply hoare_bind; [apply (updating_keeps (kn.1 :: keys) a), quiet_assert | intros []]. cbn beta.
  destruct (bool_decide _); [apply hoare_ret; intros s; apply updating_weaken |].
  intros s Hs. unfold bind at 1, get. destruct (od_get kn.1 (s_requests s)) as [i|] eqn:Eg; [| by eapply updating_weaken].
  unfold bind at 1, obj. destruct (objs s !! i) as [o|] eqn:Eo; [| done]. destruct (is_finished (rq o)) eqn:Ef; [by eapply updating_weaken |].
  assert (stopping kn.1 keys a s i o) as Hst by done.
  lazymatch goal with |- match ?k s with _ => _ end => assert (hoare (evolves i false s) k (fun a' => updating keys a')) as Hg; [| apply Hg, evolves_refl] end.
  eapply hoare_bind; [apply evolves_keeps; destruct (od_get _ (req_id_to_index m)); eauto with quiet | intros idx; cbn beta].
  eapply hoare_bind; [apply evolves_keeps; destruct (sampled_token_ids m); eauto with quiet | intros generated; cbn beta].
  eapply hoare_bind; [apply evolves_keeps, quiet_reject_drafts | intros []; cbn beta].
  eapply hoare_bind; [apply evolves_keeps; destruct (has_encoder_inputs _); [apply quiet_free_encoder_inputs | apply quiet_ret] | intros []; cbn beta].
  eapply hoare_bind; [apply evolves_keeps; destruct (bool_decide _); eauto with quiet | intros []; cbn beta].
  eapply hoare_bind; [apply evolves_keeps; destruct (pooler_output m); eauto with quiet | intros pooled; cbn beta].
  eapply hoare_bind; [apply apply_tokens_ends; done | intros x; cbn beta].
  eapply (hoare_bind _ _ (fun fin => updating keys fin.2)).
  - destruct x.2.
    + eapply hoare_bind; [apply evolves_keeps, quiet_obj | intros o'; cbn beta]. cbv zeta. apply hoare_assoc_bind.
      eapply hoare_bind; [apply (stop_one kn.1 keys a s i o Hst) | intros []]. by apply hoare_ret.
    + apply hoare_ret. intros s1 [Hl Ht]. simpl. eapply updating_frame; [by eapply updating_weaken |].
      destruct Hl as [L1 L2 L3 L4]. split; try done; [| apply L4]. intros j. destruct (decide (j = i)) as [-> | Hne]; [| by apply L4].
      change (tag_of s1 i = tag_of s i). assert (tag_of s i = Some (tag o)) as Hti by (unfold tag_of; by rewrite Eo).
      destruct (Ht _ Hti) as (st & b & E & -> & ->). by rewrite E, Hti.
  - intros fin. eapply hoare_bind; [apply (updating_keeps keys fin.2), quiet_obj | intros o']. cbn beta.
    destruct (_ || _); [| by apply hoare_ret]. eapply hoare_bind; [apply (updating_keeps keys fin.2); by apply quiet_set_obj | intros []].
    apply hoare_ret. intros s1 [H1 H2 H3 H4]. by split.
Qed.

Lemma update_all_life out m failed l : forall a, NoDup l.*1 ->
  hoare (updating l.*1 a) (update_all cfg sha256 hasher out m failed l a) (fun a' => updating [] a').
Proof.
  induction l as [|kn l IH]; intros a Hnd; cbn [update_all]; [by apply hoare_ret |]. rewrite fmap_cons in *. apply NoDup_cons in Hnd as [Hk Hnd].
  eapply hoare_bind; [by apply (update_one_life out m failed kn l.*1 a) | intros a'; by apply IH].
Qed.

(** ** The rest of update_from_output *)
Lemma quiet_invalid_requests reqs invalid sched : forall marked, quiet (W := W) tag (_update_requests_with_invalid_blocks cfg reqs invalid sched marked).
Proof.
  induction reqs as [|i reqs IH]; intros marked; cbn [_update_requests_with_invalid_blocks]; [apply quiet_ret |].
  apply quiet_bind; [apply quiet_obj | intros o]. apply quiet_bind; [apply quiet_get | intros s].
  destruct (kv_get_block_ids _ _) as [[|ids [|]]|]; try apply quiet_raise. cbv zeta. destruct (scan_blocks _ _ _ _ _ _ _) as [[[affected truncated] marked'] evict].
  apply quiet_bind; [destruct affected; [by apply quiet_set_rq | apply quiet_ret] | intros _]. apply quiet_bind; [apply IH | intros; apply quiet_ret].
Qed.
Lemma quiet_handle_invalid invalid sched : quiet (W := W) tag (_handle_invalid_blocks cfg invalid sched).
Proof. unfold _handle_invalid_blocks. solve_quiet; first [apply quiet_invalid_requests | by apply quiet_modify]. Qed.

Lemma life_keeps {A} (f : SM W A) : quiet tag f -> keeps life f.
Proof. intros Hf s Hs. specialize (Hf s). destruct (f s) as [[x|e] s']; [by eapply life_frame | done]. Qed.

Lemma free_blocks_life rid : keeps life (fun s => match od_get rid (s_requests s) with Some i => _free_blocks i s | None => (Err AssertionError, s) end).
Proof.
  intros s Hs. destruct (od_get rid (s_requests s)) as [i|] eqn:Eg; [| done]. destruct (_free_blocks i s) as [[[]|e] s'] eqn:Ef; [| done].
  apply free_blocks_run in Ef as [Hg Hf]. unfold life. destruct (forgets_lists _ _ _ Hg) as (-> & -> & -> & _).
  eapply placed_forget; [exact Hs | done | by eapply placed_registered | done].
Qed.
Lemma xfer_life k : keeps life (_update_from_kv_xfer_finished k).
Proof.
  unfold _update_from_kv_xfer_finished. apply keeps_bind; [destruct kv_connector; [apply life_keeps, quiet_upd_world | apply keeps_ret] | intros []].
  apply keeps_bind; [| intros []]; apply keeps_foreach; intros rid s Hs; pose proof (free_blocks_life rid s Hs) as Hfree; cbv beta in Hfree; unfold bind at 1, get.
  - destruct (od_get rid (s_requests s)) as [i|]; [| done]. unfold bind at 1, obj. destruct (objs s !! i) as [o|]; [| done].
    destruct (bool_decide _); [by apply (life_keeps (modify _)); [by apply quiet_modify |] |].
    unfold bind, assert. destruct (is_finished (rq o)); [exact Hfree | done].
  - destruct (od_get rid (s_requests s)); [exact Hfree | done].
Qed.

Lemma fail_requests_life failed a : keeps life (fail_requests cfg failed a).
Proof.
  unfold fail_requests. destruct failed; [apply keeps_ret |]. destruct (recompute_kv_load_failures cfg); [apply keeps_ret |].
  apply keeps_bind; [apply life_keeps, quiet_traverse; intros; apply quiet_request_ref | intros rs].
  apply keeps_bind; [| intros ?; apply keeps_bind; [apply keeps_get | intros; apply keeps_ret]].
  intros s1 Hs. destruct (finish_requests _ _ s1) as [[r|e] s'] eqn:E; [| done]. by apply (finish_requests_life _ _ _ _ _ Hs E).
Qed.

(** The stopped requests leave the lists. *)
Lemma updating_life a : hoare (updating [] a)
  ((match ua_stopped_running a with [] => ret tt | l => modify (fun s => with_running (remove_all (running s) l) s) end) ;;;
   (match ua_stopped_preempted a with [] => ret tt | l => on_queue Waiting (fun st => remove_requests (RequestQueue := any_queue st) l) end))
  (fun _ => life).
Proof.
  eapply (hoare_bind _ _ (fun _ s => placed (running s) (ws_of a s) (qitems (skipped_waiting s)) [] s)).
  - intros s [H1 _ _ Hnd]. assert (remove_all (running s) (ua_stopped_running a) = rs_of a s) as Er by (by apply remove_all_spec).
    destruct (ua_stopped_running a) eqn:Ea; unfold ret, modify; cbn [remove_all] in Er; [by rewrite Er |]. rewrite <- Er in H1.
    eapply placed_frame; [exact H1 | done | done].
  - intros [] s Hp. unfold ws_of in Hp. destruct (ua_stopped_preempted a) eqn:Ea; [unfold ret, life; by rewrite filter_not_in_nil in Hp |].
    unfold on_queue. cbn [queue_of with_queue]. destruct (remove_requests _ (waiting s)) as [[u|e] q] eqn:Q; [| done]. apply qitems_remove in Q.
    unfold life. cbn. rewrite Q. eapply placed_frame; [exact Hp | done | done].
Qed.

Lemma update_from_output_life out m s r s' : life s -> NoDup (num_scheduled_tokens out).*1 ->
  pend (num_scheduled_tokens out).*1 (running s) (qitems (waiting s)) s -> update_from_output cfg sha256 hasher out m s = (Ok r, s') -> life s'.
Proof.
  intros Hl Hnd Hpend. pose (keys := (num_scheduled_tokens out).*1). pose (a0 := mkUpd [] [] []).
  apply hoare_run with (P := updating keys a0) (Q := fun _ => life).
  - unfold update_from_output. eapply (hoare_bind _ _ (fun _ => updating keys a0)).
    { destruct (kv_connector_output m) as [k|]; [destruct (invalid_block_ids k) |]; first [apply keeps_ret | apply updating_keeps, quiet_handle_invalid]. }
    intros failed. eapply hoare_bind; [by apply update_all_life | intros a]. cbn beta. apply hoare_assoc.
    eapply (hoare_bind _ _ (fun _ => life)); [apply updating_life | intros []]. apply (keeps_bind life); [apply fail_requests_life | intros a'].
    apply keeps_bind; [destruct (kv_connector_output m); [apply xfer_life | apply keeps_ret] | intros []].
    apply keeps_bind; [apply life_keeps, quiet_on_kv | intros events]. apply keeps_bind; [apply keeps_get | intros s1]. cbv zeta.
    apply keeps_bind; [apply life_keeps; by apply quiet_modify | intros []]. apply keeps_ret.
  - assert (rs_of a0 s = running s) as E1 by apply filter_not_in_nil. assert (ws_of a0 s = qitems (waiting s)) as E2 by apply filter_not_in_nil.
    split; rewrite ?E1, ?E2; [exact Hl | by intros j ?%elem_of_nil | exact Hpend |]. pose proof (pl_nodup _ _ _ _ _ Hl) as Hn. apply NoDup_app in Hn. tauto.
Qed.
End output.
