(* ===== verification/EngineInv.v ===== *)
(** * EngineInv
    The invariant of Lifecycle.v holds in every state the engine loop reaches. *)
From S2P Require Import Prelude OrdDict KVCacheBlock FreeQueue Request BlockHash BlockPool Managers CacheHit Coordinator KVCacheManager EncoderCache HeapQ RequestQueue SchedUtils Scheduler Schedule SchedulerUpdate SchedulerInv SchedulePass ScheduleProps EngineCore Lifecycle LifecycleSchedule LifecycleUpdate.

Section ops.
Context {W : Type} `{Externals W} (cfg : SchedulerConfig) (sha256 : bytes -> bytes) (hasher : BlockHasher) `{!MemoHasher hasher}.
Implicit Types s : Scheduler W.

(** A new scheduler has no requests. *)
Lemma new_scheduler_life kv n b (w : W) : life (new_scheduler cfg kv n b w).
Proof.
  assert (qitems (create_request_queue (policy cfg)) = []) as Hq by (by destruct (policy cfg)). unfold life. simpl. rewrite Hq.
  by split; simpl; first [constructor | intros ? ?%elem_of_nil | intros].
Qed.

(** ** add_request *)
Lemma add_fresh_life i o s s' : life s -> objs s !! i = None -> queued (status (rq o)) = true -> od_get (request_id (rq o)) (s_requests s) = None ->
  add_new_request hasher i o s = (Ok tt, s') -> life s'.
Proof.
  intros Hl Hi Hq Hnew. unfold add_new_request. unfold bind at 1, get. rewrite Hnew. unfold bind at 1, modify. unfold bind at 1.
  set (o' := if resumable o then _ else o). assert (rq o' = rq o) as Eo by (unfold o'; by destruct (resumable o)).
  set (s1 := with_objs _ s). destruct (_enqueue_waiting_request i s1) as [[[]|e] s2] eqn:Ee; [| done]. intros [= <-].
  apply enqueue_run in Ee as (st & Hst & [N1 N2 N3 N4 N5]). simpl in N2, N3, N4, N5.
  assert (tag_of s2 i = Some (tag o')) as Hti by (rewrite N1; unfold tag_of; simpl; by rewrite lookup_insert_eq).
  assert (st = status (rq o)) as ->.
  { unfold stat_of in Hst. rewrite <- N1, Hti in Hst. injection Hst as <-. by rewrite Eo. }
  eapply (placed_add _ _ _ _ _ _ _ _ i (tag o')); [exact Hl | | exact Hti | | | | | | | | |]; unfold tag; simpl; rewrite ?Eo; try done.
  - unfold tag_of. by rewrite Hi.
  - intros j Hj. change (tag_of s2 j = tag_of s j). rewrite N1. unfold tag_of. simpl. by rewrite lookup_insert_ne.
  - by rewrite N2.
  - rewrite N3, N4, N5. destruct (_is_blocked_waiting_status _); solve_Permutation.
  - intros j Hj. rewrite N3, N4, N5. destruct (_is_blocked_waiting_status _); set_solver.
  - by apply queued_unfinished.
  - rewrite N3. intros Hx. exfalso. destruct (pl_run _ _ _ _ _ Hl i Hx) as (? & E & _). unfold stat_of, tag_of in E. by rewrite Hi in E.
  - rewrite N4. intros [Hx | Hx]%elem_of_app; [by destruct (status (rq o)); simpl in *; try apply elem_of_nil in Hx |].
    destruct (pl_wait _ _ _ _ _ Hl i Hx) as (? & E & _). unfold stat_of, tag_of in E. by rewrite Hi in E.
Qed.

(** An update of a session that waits for one. *)
Lemma session_life i u s s' : life s -> is_stat (fun st => bool_decide (st = WAITING_FOR_STREAMING_REQ)) s i -> 
  _update_request_as_session hasher i u s = (Ok tt, s') -> life s'.
Proof.
  intros Hl Hst E. assert (is_Some (objs s !! i)) as Hi.
  { destruct Hst as (st & Hst & _). unfold stat_of, tag_of in Hst. destruct (objs s !! i); [by eexists | done]. }
  destruct (session_moves hasher i u s tt s' E Hi) as [[L1 L2 L3 L4] Hs]. unfold life. rewrite L1, L2, L3.
  eapply (placed_move _ _ _ _ _ _ _ _ i WAITING); [exact Hl | done | | done | done | done | done | | done | done].
  - eapply is_stat_impl; [| exact Hst]. by intros st ->%bool_decide_eq_true.
  - intros Hx. exfalso. eapply is_stat_not; [| exact Hst | exact (pl_run _ _ _ _ _ Hl i Hx)]. by intros st ->%bool_decide_eq_true.
Qed.

Lemma add_request_life i o s s' : life s -> objs s !! i = None -> queued (status (rq o)) = true ->
  add_new_request hasher i o s = (Ok tt, s') -> life s'.
Proof.
  intros Hl Hi Hq E. destruct (od_get (request_id (rq o)) (s_requests s)) as [j|] eqn:Eg; [| by eapply add_fresh_life].
  revert E. unfold add_new_request. unfold bind at 1, get. rewrite Eg. unfold bind at 1, obj. destruct (objs s !! j) as [ex|] eqn:Ej; [| done].
  case_bool_decide as Hst; simpl.
  - destruct (update_from_request o) as [u|].
    + apply session_life; [done |]. exists (status (rq ex)). split; [unfold stat_of, tag_of; by rewrite Ej | by apply bool_decide_eq_true].
    + unfold bind. destruct (finish_requests _ _ s) as [[r|e] s1] eqn:Ef; [| done]. intros [= <-]. by apply (finish_requests_life _ _ _ _ _ Hl Ef).
  - destruct (streaming_queue ex); [| done]. intros [= <-]. eapply life_frame; [exact Hl |].
    by apply (quiet_set_obj tag j (with_streaming (Some (l ++ [update_from_request o])))).
Qed.
End ops.

(** ** Resets *)
Section resets.
Context {W : Type} `{Externals W}.
Lemma preempt_all_life fuel : keeps life (preempt_all (W := W) fuel).
Proof.
  induction fuel as [|fuel IH]; cbn [preempt_all]; intros s Hs; unfold bind at 1, get; destruct (last (running s)) as [i|] eqn:El; try done.
  unfold bind at 1, modify. destruct (take_last_split _ _ El) as (a & E & ->). unfold bind at 1.
  destruct (_preempt_request i (with_running a s)) as [[[]|e] s1] eqn:Ep; [| done].
  assert (placed a (qitems (waiting s)) (qitems (skipped_waiting s)) [i] (with_running a s)) as Hp.
  { unfold life in Hs. rewrite E in Hs. eapply placed_shrink; [exact Hs | solve_Permutation | set_solver | done | done]. }
  destruct (preempt_place _ _ [] i (with_running a s) _ Hp Ep) as (P1 & P2 & P3 & _). simpl in P2, P3.
  assert (keeps (S := Scheduler W) life (set_obj i (with_placeholders 0) ;;; set_obj i (with_discard true) ;;; preempt_all fuel)) as Hk; [| apply Hk; unfold life; by rewrite P2, P3].
  apply keeps_bind; [by apply life_keeps, quiet_set_obj | intros []]. apply keeps_bind; [by apply life_keeps, quiet_set_obj | intros []]. exact IH.
Qed.
Lemma reset_prefix_cache_life a b : keeps life (reset_prefix_cache (W := W) a b).
Proof.
  unfold reset_prefix_cache, reset_connector_cache.
  solve_keeps; first [apply preempt_all_life | by apply life_keeps, quiet_modify | apply life_keeps; eauto with quiet].
Qed.
Lemma update_draft_life l : keeps life (update_draft_token_ids (W := W) l).
Proof. unfold update_draft_token_ids. solve_keeps; first [apply life_keeps, quiet_obj | by apply life_keeps, quiet_set_rq]. Qed.
Lemma finish_keeps ids st : keeps life (finish_requests (W := W) ids st).
Proof. intros s Hs. destruct (finish_requests _ _ s) as [[r|e] s'] eqn:E; [| done]. by apply (finish_requests_life _ _ _ _ _ Hs E). Qed.
End resets.

(** ** The engine *)
Section engine.
Context {W : Type} `{Externals W} `{Executor W} (cfg : SchedulerConfig) (ecfg : EngineConfig) (sha256 : bytes -> bytes) (hasher : BlockHasher) `{!MemoHasher hasher}.
Implicit Types e : EngineCore W.

Definition elife e : Prop := life (scheduler e).

Lemma keeps_on_sched {A} (f : SM W A) : keeps life f -> keeps elife (on_sched f).
Proof. intros Hf e He. unfold on_sched, zoom. specialize (Hf (scheduler e) He). by destruct (f (scheduler e)) as [[a|x] s']. Qed.
Lemma keeps_outside (f : EngineCore W -> EngineCore W) : (forall e, scheduler (f e) = scheduler e) -> keeps elife (modify f).
Proof. intros Hf e He. unfold elife. simpl. by rewrite Hf. Qed.
Lemma quiet_try_world {A} (f : W -> res A * W) : quiet tag (try_world f).
Proof. intros s. unfold try_world. destruct (f (world s)) as [[a|e] w]; done. Qed.

(** A step schedules no streaming session that it also preempts. *)
Definition steady e : Prop := forall out s, schedule cfg sha256 (scheduler e) = (Ok out, s) ->
  forall rid i, rid ∈ (num_scheduled_tokens out).*1 -> rid ∈ preempted_req_ids out -> name_of s i = Some rid -> no_session s i.

Lemma aborts_keeps arrived : keeps elife (_process_aborts_queue (W := W) arrived).
Proof.
  unfold _process_aborts_queue, abort_requests. apply keeps_bind; [apply keeps_get | intros e]. destruct (_ ++ _); [apply keeps_ret |].
  apply keeps_bind; [by apply keeps_outside | intros []]. apply keeps_bind; [apply keeps_on_sched, finish_keeps | intros ?; apply keeps_ret].
Qed.

(** The aborts that arrive during a step finish requests and change nothing else. *)
Lemma aborts_run arrived e e' : elife e -> _process_aborts_queue arrived e = (Ok tt, e') ->
  elife e' /\ (scheduler e' = scheduler e \/ shrinks (scheduler e) (scheduler e')).
Proof.
  intros He. unfold _process_aborts_queue, abort_requests. unfold bind at 1, get. destruct (_ ++ _) as [|l ls]; [intros [= <-]; auto |].
  unfold bind, modify, on_sched, zoom. simpl. destruct (finish_requests _ _ (scheduler e)) as [[r|x] s'] eqn:E; [| done]. intros [= <-].
  destruct (finish_requests_life _ _ _ _ _ He E) as (H1 & H2 & _). split; [exact H1 | by right].
Qed.

Lemma output_pend out (s : Scheduler W) : life s -> output_placed out s ->
  (forall rid i, rid ∈ (num_scheduled_tokens out).*1 -> rid ∈ preempted_req_ids out -> name_of s i = Some rid -> no_session s i) ->
  pend (num_scheduled_tokens out).*1 (running s) (qitems (waiting s)) s.
Proof.
  intros Hl Ho Hns rid i Hr Hg. right. destruct (op_place _ _ Ho rid Hr) as (j & Hj & Hp). assert (j = i) as ->.
  { assert (j ∈ running s ++ qitems (waiting s) ++ qitems (skipped_waiting s) ++ []) as Hin by (rewrite !elem_of_app; tauto).
    destruct (pl_reg _ _ _ _ _ Hl j Hin) as (r & E1 & E2). congruence. }
  destruct Hp as [? | [? ?]]; [by left | right]. split; [done | by eapply Hns].
Qed.

Lemma step_life arrived e x e' : elife e -> steady e -> step cfg sha256 hasher arrived e = (Ok x, e') -> elife e'.
Proof.
  intros He Hs. unfold step. unfold bind at 1, get. destruct (negb _); [by intros [= <- <-] |].
  unfold bind at 1, on_sched at 1, zoom. destruct (schedule cfg sha256 (scheduler e)) as [[out|er] s1] eqn:E1; [| done].
  destruct (schedule_life _ _ _ _ _ He E1) as [L1 O1]. pose proof (output_pend out s1 L1 O1 (Hs out s1 E1)) as P1.
  unfold bind at 1, on_sched at 1, zoom. cbn [scheduler with_scheduler]. pose proof (quiet_try_world (run_model out) s1) as Q2.
  destruct (try_world _ s1) as [[m|er] s2]; [| done]. pose proof (life_frame _ _ L1 Q2) as L2. 
  assert (pend (num_scheduled_tokens out).*1 (running s2) (qitems (waiting s2)) s2) as P2.
  { rewrite (fr_running _ _ _ Q2), (fr_waiting _ _ _ Q2). eapply pend_frame; [exact P1 | apply Q2 | apply Q2]. }
  unfold bind at 1. destruct (_process_aborts_queue arrived _) as [[[]|er] e3] eqn:E3; [| done].
  apply aborts_run in E3 as [L3 H3]; [| exact L2]. simpl in H3.
  assert (pend (num_scheduled_tokens out).*1 (running (scheduler e3)) (qitems (waiting (scheduler e3))) (scheduler e3)) as P3.
  { destruct H3 as [-> | H3]; [exact P2 |]. exact (pend_shrinks _ s2 (scheduler e3) L2 L3 H3 P2). }
  unfold bind, on_sched, zoom. destruct (update_from_output _ _ _ _ _ (scheduler e3)) as [[r|er] s4] eqn:E4; [| done]. intros [= <- <-].
  exact (update_from_output_life cfg sha256 hasher out m _ _ _ L3 (op_nodup _ _ O1) P3 E4).
Qed.

Lemma reset_caches_keeps : keeps elife (_reset_caches (W := W)).
Proof.
  unfold _reset_caches, engine_reset_prefix_cache, engine_reset_encoder_cache, reset_encoder_cache.
  solve_keeps; apply keeps_on_sched; first [apply reset_prefix_cache_life | apply life_keeps; eauto with quiet].
Qed.
Lemma pause_state_keeps p : keeps elife (on_sched (W := W) (set_pause_state p)).
Proof. by apply keeps_on_sched, life_keeps, quiet_modify. Qed.
Lemma send_aborts_keeps l : keeps elife (_send_abort_outputs (W := W) l).
Proof. by apply keeps_outside. Qed.
Lemma pause_keeps mode clear : keeps elife (pause_scheduler (W := W) mode clear).
Proof.
  unfold pause_scheduler. solve_keeps; first [apply keeps_on_sched, finish_keeps | apply pause_state_keeps | apply reset_caches_keeps].
Qed.
Lemma proc_pause_keeps mode clear : keeps elife (proc_pause_scheduler (W := W) mode clear).
Proof.
  unfold proc_pause_scheduler.
  solve_keeps; first [apply keeps_on_sched, finish_keeps | apply send_aborts_keeps | apply pause_state_keeps | apply reset_caches_keeps | by apply keeps_outside].
Qed.
Lemma utility_keeps c : keeps elife (utility (W := W) c).
Proof.
  unfold utility, engine_reset_prefix_cache, engine_reset_encoder_cache, resume_scheduler, reset_encoder_cache.
  solve_keeps; first [apply proc_pause_keeps | apply pause_state_keeps | apply keeps_on_sched, reset_prefix_cache_life | apply keeps_on_sched, life_keeps; eauto with quiet].
Qed.
Lemma notify_keeps l : keeps elife (notify_callbacks (W := W) l).
Proof.
  induction l as [|c l IH]; cbn [notify_callbacks]; [apply keeps_ret |]. apply keeps_bind; [by apply keeps_outside | intros []].
  apply keeps_bind; [destruct c; [apply reset_caches_keeps | apply keeps_ret] | intros []; exact IH].
Qed.
Lemma shutdown_keeps : keeps elife (_handle_shutdown (W := W) ecfg).
Proof.
  unfold _handle_shutdown. solve_keeps; first [apply keeps_on_sched, finish_keeps | apply send_aborts_keeps | by apply keeps_outside].
Qed.
Lemma post_step_keeps b : keeps elife (post_step (W := W) cfg ecfg b).
Proof. unfold post_step. solve_keeps; apply keeps_on_sched; first [apply update_draft_life | apply life_keeps; eauto with quiet]. Qed.

Lemma engine_add_run i o e e' : engine_add_request hasher i o e = (Ok tt, e') ->
  exists s', add_new_request hasher i o (scheduler e) = (Ok tt, s') /\ e' = with_scheduler s' e.
Proof.
  unfold engine_add_request. intros E. assert (on_sched (add_new_request hasher i o) e = (Ok tt, e')) as E'.
  { destruct (pooling_params (rq o)); [destruct (pooling_task_supported (rq o)); [exact E | done] | exact E]. }
  revert E'. unfold on_sched, zoom. destruct (add_new_request hasher i o (scheduler e)) as [[[]|x] s']; [| done]. intros [= <-]. by exists s'.
Qed.

(** ** Reachable states
    The calls that the loop of a process without a batch queue makes between two states. A
    new request is a new object with a status that new requests have. *)
Inductive engine_call : EngineCore W -> EngineCore W -> Prop :=
  | CAdd i o e e' : objs (scheduler e) !! i = None -> queued (status (rq o)) = true ->
      engine_add_request hasher i o e = (Ok tt, e') -> engine_call e e'
  | CAbort ids e e' : abort_requests ids e = (Ok tt, e') -> engine_call e e'
  | CStep arrived x e e' : steady e -> step cfg sha256 hasher arrived e = (Ok x, e') -> engine_call e e'
  | CPost b e e' : post_step cfg ecfg b e = (Ok tt, e') -> engine_call e e'
  | CPause mode clear e e' : pause_scheduler mode clear e = (Ok tt, e') -> engine_call e e'
  | CUtility c e e' : utility c e = (Ok tt, e') -> engine_call e e'
  | CNotify e e' : _notify_idle_state_callbacks e = (Ok tt, e') -> engine_call e e'
  | CShutdown b e e' : _handle_shutdown ecfg e = (Ok b, e') -> engine_call e e'.

Inductive engine_reach : EngineCore W -> Prop :=
  | RStart kv n b w : engine_reach (new_engine (new_scheduler cfg kv n b w))
  | RCall e e' : engine_reach e -> engine_call e e' -> engine_reach e'.

Lemma engine_call_life e e' : elife e -> engine_call e e' -> elife e'.
Proof.
  intros He Hc. revert He. destruct Hc as [i o e e' Hi Hq E | ids e e' E | arrived x e e' Hs E | b e e' E | mode clear e e' E | c e e' E | e e' E | b e e' E]; intros He.
  - apply engine_add_run in E as (s' & Ea & ->).
    exact (add_request_life hasher i o _ _ He Hi Hq Ea).
  - eapply keeps_run; [| exact E | exact He]. apply keeps_bind; [apply keeps_on_sched, finish_keeps | intros ?; apply keeps_ret].
  - exact (step_life arrived _ _ _ He Hs E).
  - eapply keeps_run; [apply post_step_keeps | exact E | exact He].
  - eapply keeps_run; [apply pause_keeps | exact E | exact He].
  - eapply keeps_run; [apply utility_keeps | exact E | exact He].
  - eapply keeps_run; [| exact E | exact He]. apply keeps_bind; [apply keeps_get | intros y; apply notify_keeps].
  - eapply keeps_run; [apply shutdown_keeps | exact E | exact He].
Qed.
End engine.
