(* ===== verification/EngineProps.v ===== *)
(** * EngineProps
    Properties of the engine loop: the places of requests in every reachable state, what
    finishing requests does, that pausing with aborts drains the engine, and an execution
    with batches in flight that loses a streaming session. *)
From S2P Require Import Prelude OrdDict KVCacheBlock FreeQueue Request BlockHash BlockPool Managers CacheHit Coordinator KVCacheManager EncoderCache HeapQ RequestQueue SchedUtils Scheduler Schedule SchedulerUpdate SchedulerDemo SchedulerInv SchedulePass ScheduleProps EngineCore Lifecycle LifecycleSchedule LifecycleUpdate EngineInv.

(** ** A concrete engine *)

(** The model samples token 7, and token 1 for request b from its second batch on. *)
#[global] Instance demo_executor : Executor unit := {|
  run_model out w :=
    let ids := (num_scheduled_tokens out).*1 in
    (Ok (mkRunner (imap (fun i r => (r, Z.of_nat i)) ids)
           ((fun r => [if bool_decide (r = "b"%string) && bool_decide (r ∈ cd_req_ids (scheduled_cached_reqs out)) then 1 else 7]) <$> ids) [] None), w);
  take_draft_token_ids w := (None, w);
  executor_reset_encoder_cache w := w;
  pooling_task_supported _ := true;
|}.
Definition demo_engine_config (queue : Z) : EngineConfig := mkEngineConfig queue true false false 0.
Definition demo_new_engine (cfg : SchedulerConfig) (c : KVCacheConfig) : option (EngineCore unit) :=
  match new_KVCacheManager c 1000 16 (Some 128) false false false false 1 1 false with
  | Ok k => Some (new_engine (new_scheduler cfg k 0 false tt))
  | Err _ => None
  end.

(** Calls whose conditions are checked. *)
Inductive EngineOp := OAdd (i : Z) (o : SchedRequest) | OAbort (ids : list string) | OStep (arrived : list (list string)).
Section checked.
Context {W : Type} `{Externals W} `{Executor W} (cfg : SchedulerConfig) (ecfg : EngineConfig) (sha256 : bytes -> bytes) (hasher : BlockHasher).
Implicit Types e : EngineCore W.

Definition checked_call (op : EngineOp) e : option (EngineCore W) :=
  match op with
  | OAdd i o =>
    if bool_decide (objs (scheduler e) !! i = None) && queued (status (rq o))
    then match engine_add_request hasher i o e with (Ok _, e') => Some e' | _ => None end else None
  | OAbort ids => match abort_requests ids e with (Ok _, e') => Some e' | _ => None end
  | OStep arrived =>
    match schedule cfg sha256 (scheduler e) with
    | (Ok out, _) =>
      if bool_decide (Forall (fun rid => rid ∉ preempted_req_ids out) (num_scheduled_tokens out).*1)
      then match step cfg sha256 hasher arrived e with (Ok _, e') => Some e' | _ => None end else None
    | _ => None
    end
  end.
Fixpoint checked_calls (ops : list EngineOp) e : option (EngineCore W) :=
  match ops with [] => Some e | op :: ops' => e' ← checked_call op e; checked_calls ops' e' end.

Lemma checked_call_sound op e e' : checked_call op e = Some e' -> engine_call cfg ecfg sha256 hasher e e'.
Proof.
  destruct op as [i o|ids|arrived]; simpl.
  - destruct (_ && _) eqn:E; [| done]. apply andb_true_iff in E as [E1%bool_decide_eq_true E2].
    destruct (engine_add_request hasher i o e) as [[[]|x] e1] eqn:Ea; [| done]. intros [= <-]. by eapply CAdd.
  - destruct (abort_requests ids e) as [[[]|x] e1] eqn:Ea; [| done]. intros [= <-]. by eapply CAbort.
  - destruct (schedule cfg sha256 (scheduler e)) as [[out|x] s] eqn:Es; [| done]. case_bool_decide as Hp; [| done].
    destruct (step _ _ _ _ e) as [[y|x] e1] eqn:Ea; [| done]. intros [= <-]. eapply CStep; [| exact Ea].
    intros out' s' E rid i Hr Hpre. rewrite E in Es. injection Es as -> ->. rewrite Forall_forall in Hp. by destruct (Hp rid Hr).
Qed.
Lemma checked_calls_sound ops : forall e e', engine_reach cfg ecfg sha256 hasher e -> checked_calls ops e = Some e' -> engine_reach cfg ecfg sha256 hasher e'.
Proof.
  induction ops as [|op ops IH]; simpl; [by intros e e' He [= <-] |]. intros e e' He (e1 & E1 & E2)%bind_Some.
  eapply IH; [| exact E2]. eapply RCall; [exact He | by eapply checked_call_sound].
Qed.
End checked.

(** ** Where requests are *)
Lemma reach_life {W} `{Externals W} `{Executor W} cfg ecfg sha256 hasher `{!MemoHasher hasher} (e : EngineCore W) :
  engine_reach cfg ecfg sha256 hasher e -> life (scheduler e).
Proof. induction 1 as [kv n b w | e e' _ IH Hc]; [apply new_scheduler_life | by eapply engine_call_life]. Qed.

(** C7 (invariant): the engine loop of a process without a batch queue. In every state it reaches
    by adding, aborting and stepping requests, pausing, resetting caches and shutting down,
    where no step both schedules and preempts the same streaming session ([steady]; a session
    for which that happens can be lost), each unfinished request that the scheduler knows
    is in exactly one of the running list, the waiting queue and the skipped queue, with a
    status that fits the place, and everything in these lists is a known, unfinished request. *)
Theorem engine_requests_placed {W} `{Externals W} `{Executor W} cfg ecfg sha256 hasher (e : EngineCore W) :
  MemoHasher hasher -> engine_reach cfg ecfg sha256 hasher e ->
  let s := scheduler e in
  NoDup (refs s) /\
  (forall rid i, od_get rid (s_requests s) = Some i -> exists o, objs s !! i = Some o /\ request_id (rq o) = rid /\ (is_finished (rq o) = true \/ i ∈ refs s)) /\
  (forall i, i ∈ refs s -> exists o, objs s !! i = Some o /\ od_get (request_id (rq o)) (s_requests s) = Some i /\
     (i ∈ running s -> status (rq o) = RUNNING) /\ (i ∈ qitems (waiting s) -> status (rq o) = WAITING \/ status (rq o) = PREEMPTED) /\
     (i ∈ qitems (skipped_waiting s) -> is_finished (rq o) = false /\ status (rq o) <> RUNNING)).
Proof.
  intros Hh He. pose proof (reach_life cfg ecfg sha256 hasher e He) as Hl. cbv zeta. unfold refs.
  destruct Hl as [H1 H2 H3 H4 _ H6 H7 _]. rewrite app_nil_r in *.
  assert (forall i f, is_stat f (scheduler e) i -> exists o, objs (scheduler e) !! i = Some o /\ f (status (rq o)) = true) as Hs.
  { intros i f (st & E & Hf). unfold stat_of, tag_of in E. destruct (objs (scheduler e) !! i) as [o|]; [| done]. injection E as <-. by exists o. }
  assert (forall i rid, name_of (scheduler e) i = Some rid -> exists o, objs (scheduler e) !! i = Some o /\ request_id (rq o) = rid) as Hn.
  { intros i rid E. unfold name_of, tag_of in E. destruct (objs (scheduler e) !! i) as [o|]; [| done]. injection E as <-. by exists o. }
  split; [done |]. split.
  - intros rid i Hg. destruct (H7 rid i Hg) as [E Hp]. destruct (Hn i rid E) as (o & Ho & Hr). exists o. split_and!; try done.
    destruct Hp as [(o' & Ho' & Hf)%Hs | ?]; [left; unfold is_finished; congruence | by right].
  - intros i Hi. destruct (H6 i Hi) as (rid & E & Hg). destruct (Hn i rid E) as (o & Ho & <-). exists o. split; [done |]. split; [done |].
    split_and!; intros Hx.
    + destruct (Hs _ _ (H2 i Hx)) as (o' & Ho' & Hf%bool_decide_eq_true). congruence.
    + destruct (Hs _ _ (H3 i Hx)) as (o' & Ho' & Hf). assert (o' = o) as -> by congruence. unfold plain in Hf. apply orb_true_iff in Hf as [?%bool_decide_eq_true | ?%bool_decide_eq_true]; auto.
    + destruct (Hs _ _ (H4 i Hx)) as (o' & Ho' & Hf). assert (o' = o) as -> by congruence. unfold queued, is_finished in *. apply andb_true_iff in Hf as [?%negb_true_iff Hf%negb_true_iff].
      by apply bool_decide_eq_false in Hf.
Qed.

Definition demo_ops : list EngineOp :=
  [OAdd 0 (demo_req "a" 15 0); OAdd 1 (demo_req "b" 15 1); OAdd 2 (demo_req "c" 15 2); OStep []; OStep [["c"%string]]; OAbort ["b"%string]].
(** Facts about the state the calls lead to are computed. *)
Definition demo_engine_test (cfg : SchedulerConfig) (ops : list EngineOp) (f : EngineCore unit -> bool) : bool :=
  match demo_new_engine cfg demo_kv_config with
  | Some e0 => match checked_calls cfg (fun x => x) None ops e0 with Some e => f e | None => false end
  | None => false
  end.
Lemma demo_engine_spec cfg ecfg ops f : demo_engine_test cfg ops f = true -> exists e, engine_reach cfg ecfg (fun x => x) None e /\ f e = true.
Proof.
  unfold demo_engine_test, demo_new_engine. destruct (new_KVCacheManager _ _ _ _ _ _ _ _ _ _ _) as [k|]; [| done].
  destruct (checked_calls _ _ _ ops _) as [e|] eqn:E; [| done]. intros Hf. exists e. split; [| done].
  eapply (checked_calls_sound _ _ _ _ ops); [| exact E]. apply RStart.
Qed.

Lemma engine_requests_placed_witness : exists e : EngineCore unit,
  engine_reach (demo_config PRIORITY) (demo_engine_config 1) (fun x => x) None e /\ running (scheduler e) = [0] /\ NoDup (refs (scheduler e)).
Proof.
  destruct (demo_engine_spec (demo_config PRIORITY) (demo_engine_config 1) demo_ops (fun e => bool_decide (running (scheduler e) = [0])))
    as (e & He & Hr%bool_decide_eq_true); [vm_compute; reflexivity |].
  exists e. split; [exact He |]. split; [exact Hr |].
  exact (proj1 (engine_requests_placed (demo_config PRIORITY) (demo_engine_config 1) (fun x => x) None e no_hasher_memo He)).
Defined.

(** ** Finishing requests *)

(** Finish_requests finishes exactly the requests that are named (all of them
    for None): a named request is forgotten or finished and in no list, every other request
    keeps its registration, status and place. *)
Lemma finish_requests_exact {W} `{Externals W} ids st (s s' : Scheduler W) r :
  life s -> finish_requests ids st s = (Ok r, s') ->
  life s' /\
  (forall rid i, rid ∈ finish_ids ids s -> od_get rid (s_requests s') = Some i -> is_stat status_is_finished s' i /\ i ∉ refs s') /\
  (forall rid i, rid ∉ finish_ids ids s -> od_get rid (s_requests s) = Some i ->
     od_get rid (s_requests s') = Some i /\ tag_of s' i = tag_of s i /\ (i ∈ refs s -> i ∈ refs s')).
Proof.
  intros Hl E. destruct (finish_requests_life _ _ _ _ _ Hl E) as (Hl' & _ & l & Hf & H1 & H2). split; [done |].
  assert (forall i, is_stat status_is_finished s' i -> i ∉ refs s') as Hout.
  { intros i Hi Hin. eapply is_stat_not; [| exact Hi | eapply placed_unfinished; [exact Hl' |]; by rewrite app_nil_r].
    intros st' Hst. unfold unfinished. by rewrite Hst. }
  split.
  - intros rid i Hr Hg. assert (is_stat status_is_finished s' i) as Hfin; [| by auto]. apply (fi_requests _ _ _ Hf) in Hg.
    destruct (H2 rid i Hr Hg) as [? | ?]; [by eapply finishes_stat | by apply (fi_done _ _ _ Hf)].
  - intros rid i Hr Hg. assert (i ∉ l) as Hni.
    { intros (n & Hn & Hgn)%H1. destruct (pl_all _ _ _ _ _ Hl rid i Hg) as [E1 _]. destruct (pl_all _ _ _ _ _ Hl n i Hgn) as [E2 _]. congruence. }
    pose proof (fi_keep _ _ _ Hf rid i Hg Hni) as Hg'. pose proof (fi_tag _ _ _ Hf i Hni) as Ht. split_and!; try done. intros Hi. unfold refs in *.
    assert (is_stat unfinished s' i) as Hu.
    { eapply is_stat_eq; [by apply tag_stat |]. eapply placed_unfinished; [exact Hl |]. by rewrite app_nil_r. }
    pose proof (placed_find _ _ _ _ _ rid i Hl' Hg' Hu) as Hx. by rewrite app_nil_r in Hx.
Qed.

(** ** Draining *)
Section drain.
Context {W : Type} `{Externals W} `{Executor W}.

(** No request is left, and new ones are not scheduled. *)
Definition drained (p : PauseState) (s : Scheduler W) : Prop := refs s = [] /\ _pause_state s = p.

Lemma keeps_drained_kv {A} p (f : KM A) : keeps (drained p) (on_kv f).
Proof. intros s Hs. unfold on_kv, zoom. by destruct (f _) as [[a|e] k]. Qed.
Lemma keeps_drained_enc {A} p f g : keeps (drained p) (on_enc (A := A) f g).
Proof. intros s Hs. unfold on_enc, zoom. by destruct (match encoder_cache_manager s with inl c => _ | inr c => _ end) as [[a|e] k]. Qed.
Lemma keeps_drained_world {A} p (f : W -> A * W) : keeps (drained p) (on_world f).
Proof. intros s Hs. unfold on_world. by destruct (f (world s)). Qed.
Lemma reset_prefix_drained p a b : keeps (drained p) (reset_prefix_cache a b).
Proof.
  unfold reset_prefix_cache, reset_connector_cache. solve_keeps; try first [apply keeps_drained_kv | apply keeps_drained_world].
  - intros s [Hs Hp]. assert (running s = []) as Er by (unfold refs in Hs; by apply app_eq_nil in Hs as [-> _]).
    assert (forall n, preempt_all n s = (Ok tt, s)) as Hpa by (intros []; cbn [preempt_all]; unfold bind, get; by rewrite Er). by rewrite Hpa.
  - by intros s Hs.
Qed.

Lemma finish_all_empty (s s' : Scheduler W) st r : life s -> finish_requests None st s = (Ok r, s') -> refs s' = [].
Proof.
  intros Hl E. destruct (finish_requests_life _ _ _ _ _ Hl E) as (Hl' & _ & l & Hf & _ & H2). apply elem_of_nil_inv. intros i Hi.
  assert (i ∈ running s' ++ qitems (waiting s') ++ qitems (skipped_waiting s') ++ []) as Hi' by (by rewrite app_nil_r).
  destruct (pl_reg _ _ _ _ _ Hl' i Hi') as (rid & _ & Hg). apply (fi_requests _ _ _ Hf) in Hg.
  eapply (is_stat_not status_is_finished); [| | eapply placed_unfinished; [exact Hl' | exact Hi']]; [intros st' Hst; unfold unfinished; by rewrite Hst |].
  destruct (H2 rid i) as [? | ?]; [by eapply od_get_Some_key | exact Hg | by eapply finishes_stat | by apply (fi_done _ _ _ Hf)].
Qed.
End drain.

(** C37 (liveness): pausing with aborts drains the engine at once: when the call returns, no
    request runs or waits, the engine has no unfinished requests, and new requests are not
    scheduled. *)
Theorem pause_abort_drains {W} `{Externals W} `{Executor W} clear (e e' : EngineCore W) :
  life (scheduler e) -> pause_scheduler PauseAbort clear e = (Ok tt, e') ->
  refs (scheduler e') = [] /\ has_unfinished_requests (scheduler e') = false /\ is_scheduler_paused (scheduler e') = true.
Proof.
  intros Hl E. assert (drained PAUSED_NEW (scheduler e')) as [H1 H2].
  { revert E. unfold pause_scheduler. apply hoare_run with (P := fun x : EngineCore W => x = e) (Q := fun _ e' => drained PAUSED_NEW (scheduler e')); [| done].
    eapply (hoare_bind _ _ (fun _ e1 => refs (scheduler e1) = [])).
    { intros x ->. unfold bind, on_sched, zoom. destruct (finish_requests None _ (scheduler e)) as [[r|er] s'] eqn:Ef; [| done].
      exact (finish_all_empty _ _ _ _ Hl Ef). }
    intros []. assert (forall A (f : SM W A), keeps (drained PAUSED_NEW) f -> keeps (fun e' => drained PAUSED_NEW (scheduler e')) (on_sched f)) as Hk.
    { intros A f Hf x Hx. unfold on_sched, zoom. specialize (Hf (scheduler x) Hx). by destruct (f (scheduler x)) as [[a|er] s']. }
    eapply (hoare_bind _ _ (fun _ e1 => drained PAUSED_NEW (scheduler e1))); [by intros x Hx |]. intros [].
    destruct clear; [| apply keeps_ret]. unfold _reset_caches, engine_reset_prefix_cache, engine_reset_encoder_cache, reset_encoder_cache.
    change (keeps (fun e' : EngineCore W => drained PAUSED_NEW (scheduler e')) (let* _ := on_sched (reset_prefix_cache true false) in
      on_sched (on_enc enc_reset ed_reset) ;;; on_sched (upd_world executor_reset_encoder_cache))).
    solve_keeps; apply Hk; [apply reset_prefix_drained | apply keeps_drained_enc | by intros s Hs]. }
  split; [done |]. unfold has_unfinished_requests, get_num_unfinished_requests, is_scheduler_paused. rewrite H2.
  unfold refs in H1. apply app_eq_nil in H1 as [-> _]. done.
Qed.

Lemma pause_abort_drains_witness : exists e e' : EngineCore unit,
  pause_scheduler PauseAbort true e = (Ok tt, e') /\ running (scheduler e) = [0; 1; 2] /\ refs (scheduler e') = [].
Proof.
  destruct (demo_engine_spec (demo_config PRIORITY) (demo_engine_config 1) (take 4 demo_ops)
    (fun e => bool_decide (running (scheduler e) = [0; 1; 2]) && match pause_scheduler PauseAbort true e with (Ok _, _) => true | _ => false end))
    as (e & He & [Hr%bool_decide_eq_true Hf]%andb_true_iff); [vm_compute; reflexivity |].
  destruct (pause_scheduler PauseAbort true e) as [[[]|x] e'] eqn:E; [| discriminate Hf].
  exists e, e'. split; [exact E |]. split; [exact Hr |]. exact (proj1 (pause_abort_drains true e e' (reach_life _ _ _ _ e He) E)).
Defined.

(** ** A streaming session that is lost *)

(** Asynchronous scheduling without protection of long requests, on a pool of three usable
    blocks. *)
Definition async_config : SchedulerConfig :=
  mkSchedConfig FCFS true 8 128 1000 0 true false false 0 false false 0 0 false 16 16 None (mkNelssa false 16 16 20 0) false false false true.
Definition async_kv_config : KVCacheConfig := mkConfig 4 [mkGroup (mkSpec FullAttentionSpec 16 0) false] (Some (16, 16)).
(** Requests that stop at token 1. *)
Definition async_req (rid : string) (n arrival : Z) (resumable : bool) : SchedRequest :=
  let toks := replicate (Z.to_nat n) 5 in
  mkSR (mkRequest rid 0 arrival (Some (mkSP (Some 100) 0 (Some 1) None None false None)) None None WAITING None 100 (Some toks) None ∅ n [] toks 0 [] None [] 0 false [] false)
    0 false resumable None false 0 false.
Definition async_step : M (EngineCore unit) (option StepOutputs * bool) := step_with_batch_queue async_config (demo_engine_config 2) (fun x => x) None [] false.
(** A request, a session, an update of the session, and three steps. *)
Definition session_calls : M (EngineCore unit) unit :=
  engine_add_request None 0 (async_req "a" 15 0 false) ;;; engine_add_request None 1 (async_req "b" 15 1 true) ;;;
  engine_add_request None 2 (async_req "b" 4 2 true) ;;; async_step ;;; async_step ;;; async_step ;;; ret tt.

(** With batches in flight a session can be lost. The session is preempted while
    its first batch runs, the batch stops it, the stop turns to the next update and queues the
    session again, and the removal of stopped preempted requests takes it out of the queue:
    the session stays registered and unfinished, in no list, so it is never scheduled. *)
Lemma session_lost : exists e0 e : EngineCore unit,
  demo_new_engine async_config async_kv_config = Some e0 /\ session_calls e0 = (Ok tt, e) /\
  od_get "b"%string (s_requests (scheduler e)) = Some 1 /\ stat_of (scheduler e) 1 = Some WAITING /\ refs (scheduler e) = [0].
Proof.
  assert ((match demo_new_engine async_config async_kv_config with
          | Some e0 => match session_calls e0 with
                       | (Ok _, e) => bool_decide (od_get "b"%string (s_requests (scheduler e)) = Some 1 /\ stat_of (scheduler e) 1 = Some WAITING /\ refs (scheduler e) = [0])
                       | _ => false
                       end
          | None => false
          end) = true) as Ht by (vm_compute; reflexivity).
  destruct (demo_new_engine _ _) as [e0|]; [| discriminate Ht]. destruct (session_calls e0) as [[[]|x] e] eqn:E; [| discriminate Ht].
  apply bool_decide_eq_true in Ht. exists e0, e. split; [reflexivity |]. split; [exact E | exact Ht].
Qed.
