(* ===== verification/KVCacheInterface.v ===== *)
(** * KVCacheInterface
    vllm/v1/kv_cache_interface.py: the KV-cache format of a layer, the size of its pages and
    its largest memory use, the merging of the specs of several layers, and the specs of
    layers of one type with different sizes. The subclasses of FullAttentionSpec and
    SlidingWindowSpec are a tag of the parent; [LayerSpec] has the other classes. *)
From S2P Require Import Prelude OrdDict CacheHit Coordinator.

(** ** Parameters and helpers *)

(** torch: the size of an element of a data type, which is given by its name. *)
Class TorchDtypes := get_dtype_size : string -> Z.

(** Python's [//] and cdiv, which raise on a zero divisor, and round_up. *)
Definition rdiv (a b : Z) : res Z := if b =? 0 then Err ZeroDivisionError else Ok (a / b).
Definition rcdiv (a b : Z) : res Z := if b =? 0 then Err ZeroDivisionError else Ok (cdiv a b).
Definition round_up (x y : Z) : res Z := do q <- rdiv (x + y - 1) y in Ok (q * y).

(** [\[f(x) for x in l\]] and [sum(...)], [max(...)] for calls that may raise. *)
Fixpoint rmap {A B} (f : A -> res B) (l : list A) : res (list B) :=
  match l with
  | [] => Ok []
  | x :: l' => do y <- f x in do ys <- rmap f l' in Ok (y :: ys)
  end.
Definition zsum (l : list Z) : Z := foldr Z.add 0 l.
Definition zmax (l : list Z) : res Z := match l with [] => Err ValueError | x :: l' => Ok (foldl Z.max x l') end.
Definition zmin (l : list Z) : res Z := match l with [] => Err ValueError | x :: l' => Ok (foldl Z.min x l') end.

(** ** Quantization modes *)
Inductive KVQuantMode := QNONE | FP8_PER_TENSOR | INT8_PER_TOKEN_HEAD | FP8_PER_TOKEN_HEAD | NVFP4.
#[export] Instance KVQuantMode_eq_dec : EqDecision KVQuantMode.
Proof. solve_decision. Defined.

Definition is_per_token_head (m : KVQuantMode) : bool :=
  match m with INT8_PER_TOKEN_HEAD | FP8_PER_TOKEN_HEAD => true | _ => false end.
Definition is_nvfp4 (m : KVQuantMode) : bool := match m with NVFP4 => true | _ => false end.

Definition get_kv_quant_mode (kv_cache_dtype : string) : KVQuantMode :=
  if bool_decide (kv_cache_dtype = "int8_per_token_head"%string) then INT8_PER_TOKEN_HEAD
  else if bool_decide (kv_cache_dtype = "fp8_per_token_head"%string) then FP8_PER_TOKEN_HEAD
  else if bool_decide (kv_cache_dtype = "nvfp4"%string) then NVFP4
  else if String.prefix "fp8" kv_cache_dtype then FP8_PER_TENSOR
  else QNONE.
Definition is_quantized_kv_cache (kv_cache_dtype : string) : bool :=
  match get_kv_quant_mode kv_cache_dtype with QNONE => false | _ => true end.
Definition kv_cache_uses_per_token_head_scales (kv_cache_dtype : string) : bool :=
  is_per_token_head (get_kv_quant_mode kv_cache_dtype).

(** ** Specs *)

(** The fields of AttentionSpec. *)
Record AttentionFields := mkAttn {
  at_block_size : Z;
  num_kv_heads : Z;
  head_size : Z;
  dtype : string;
  kv_quant_mode : KVQuantMode;
  page_size_padded : option Z;
}.
(** The fields MLAAttentionSpec and SlidingWindowMLASpec add. *)
Record MLAFields := mkMLA {
  cache_dtype_str : option string;
  alignment : option Z;
  compress_ratio : Z;
  model_version : option string;
}.
Inductive FullClass := PlainFull | TQFull (tq_slot_size : Z) | MLAFull (m : MLAFields) | SinkFull (sink_len : option Z).
(** SlidingWindowMLASpec does not fill in head_size_v. *)
Inductive SlidingClass := PlainSliding (head_size_v : Z) | MLASliding (m : MLAFields) (head_size_v : option Z).
Record MambaFields := mkMamba {
  mb_block_size : Z;
  shapes : list (list Z);
  dtypes : list string;
  mb_page_size_padded : option Z;
  mamba_type : string;
  mb_cache_mode : string;
  mb_num_speculative_blocks : Z;
}.
Inductive LayerSpec :=
  | LFull (c : FullClass) (a : AttentionFields) (head_size_v : Z) (sliding_window attention_chunk_size : option Z)
  | LChunkedLocal (a : AttentionFields) (attention_chunk_size : Z)
  | LSliding (c : SlidingClass) (a : AttentionFields) (sliding_window : Z)
  | LEncoderOnly (a : AttentionFields)
  | LCross (a : AttentionFields)
  | LMamba (m : MambaFields).

#[export] Instance AttentionFields_eq_dec : EqDecision AttentionFields.
Proof. solve_decision. Defined.
#[export] Instance MLAFields_eq_dec : EqDecision MLAFields.
Proof. solve_decision. Defined.
#[export] Instance FullClass_eq_dec : EqDecision FullClass.
Proof. solve_decision. Defined.
#[export] Instance SlidingClass_eq_dec : EqDecision SlidingClass.
Proof. solve_decision. Defined.
#[export] Instance MambaFields_eq_dec : EqDecision MambaFields.
Proof. solve_decision. Defined.
#[export] Instance LayerSpec_eq_dec : EqDecision LayerSpec.
Proof. solve_decision. Defined.

Definition with_block_size (n : Z) (a : AttentionFields) := mkAttn n (num_kv_heads a) (head_size a) (dtype a) (kv_quant_mode a) (page_size_padded a).
Definition with_padded (p : option Z) (a : AttentionFields) := mkAttn (at_block_size a) (num_kv_heads a) (head_size a) (dtype a) (kv_quant_mode a) p.
(** A spec with its attention fields changed. *)
Definition on_attn (f : AttentionFields -> AttentionFields) (s : LayerSpec) : LayerSpec :=
  match s with
  | LFull c a v w k => LFull c (f a) v w k
  | LChunkedLocal a k => LChunkedLocal (f a) k
  | LSliding c a w => LSliding c (f a) w
  | LEncoderOnly a => LEncoderOnly (f a)
  | LCross a => LCross (f a)
  | LMamba m => LMamba m
  end.

Definition block_size_of (s : LayerSpec) : Z :=
  match s with
  | LFull _ a _ _ _ | LChunkedLocal a _ | LSliding _ a _ | LEncoderOnly a | LCross a => at_block_size a
  | LMamba m => mb_block_size m
  end.
Definition mla_of (s : LayerSpec) : option MLAFields :=
  match s with LFull (MLAFull m) _ _ _ _ | LSliding (MLASliding m _) _ _ => Some m | _ => None end.
(** The isinstance tests. *)
Definition is_full (s : LayerSpec) : bool := match s with LFull _ _ _ _ _ => true | _ => false end.
Definition is_mla (s : LayerSpec) : bool := match s with LFull (MLAFull _) _ _ _ _ => true | _ => false end.
Definition is_sliding (s : LayerSpec) : bool := match s with LSliding _ _ _ => true | _ => false end.
Definition is_sliding_mla (s : LayerSpec) : bool := match s with LSliding (MLASliding _ _) _ _ => true | _ => false end.
Definition is_chunked_local (s : LayerSpec) : bool := match s with LChunkedLocal _ _ => true | _ => false end.

(** ** Page sizes *)
Section sizes.
Context `{TorchDtypes}.
Implicit Types (s : LayerSpec) (a : AttentionFields).

(** storage_block_size: a compressed cache stores fewer tokens. *)
Definition storage_block_size s : res Z :=
  match mla_of s with Some m => rdiv (block_size_of s) (compress_ratio m) | None => Ok (block_size_of s) end.

Definition nvfp4_kv_cache_full_dim (n : Z) : Z := n / 2 + n / 16.

(** FullAttentionSpec.real_page_size_bytes *)
Definition full_page_size a (head_size_v : Z) : Z :=
  if is_nvfp4 (kv_quant_mode a)
  then at_block_size a * num_kv_heads a * (nvfp4_kv_cache_full_dim (head_size a) + nvfp4_kv_cache_full_dim head_size_v) * get_dtype_size (dtype a)
  else at_block_size a * num_kv_heads a * (head_size a + head_size_v) * get_dtype_size (dtype a).

(** AttentionSpec.real_page_size_bytes *)
Definition attn_page_size a : Z := 2 * at_block_size a * num_kv_heads a * head_size a * get_dtype_size (dtype a).
(** TQFullAttentionSpec.real_page_size_bytes *)
Definition tq_page_size (tq_slot_size : Z) a (head_size_v : Z) : Z :=
  if 0 <? tq_slot_size then at_block_size a * num_kv_heads a * tq_slot_size else full_page_size a head_size_v.
(** MLAAttentionSpec.real_page_size_bytes *)
Definition mla_page_size (m : MLAFields) a : res Z :=
  if bool_decide (cache_dtype_str m = Some "fp8_ds_mla"%string) then
    if bool_decide (model_version m = Some "deepseek_v4"%string)
    then do n <- rdiv (at_block_size a) (compress_ratio m) in Ok (n * 584)
    else Ok (at_block_size a * 656)
  else do n <- rdiv (at_block_size a) (compress_ratio m) in Ok (n * num_kv_heads a * head_size a * get_dtype_size (dtype a)).
(** SlidingWindowSpec.real_page_size_bytes *)
Definition sliding_page_size a (head_size_v : Z) : Z := at_block_size a * num_kv_heads a * (head_size a + head_size_v) * get_dtype_size (dtype a).
(** SlidingWindowMLASpec.real_page_size_bytes *)
Definition sliding_mla_page_size (m : MLAFields) a : res Z :=
  if bool_decide (model_version m = Some "deepseek_v4"%string) then do n <- rdiv (at_block_size a) (compress_ratio m) in Ok (n * 584)
  else
    do _ <- rassert (bool_decide (model_version m = None)) in
    do n <- rdiv (at_block_size a) (compress_ratio m) in
    Ok (n * num_kv_heads a * head_size a * get_dtype_size (dtype a)).
(** MambaSpec.page_size_bytes before padding *)
Definition mamba_page_size (m : MambaFields) : Z :=
  zsum (zip_with (fun shape d => foldr Z.mul 1 shape * get_dtype_size d) (shapes m) (dtypes m)).

Definition real_page_size_bytes s : res Z :=
  match s with
  | LFull (MLAFull m) a _ _ _ => mla_page_size m a
  | LFull (TQFull slot) a v _ _ => Ok (tq_page_size slot a v)
  | LFull _ a v _ _ => Ok (full_page_size a v)
  | LSliding (PlainSliding v) a _ => Ok (sliding_page_size a v)
  | LSliding (MLASliding m _) a _ => sliding_mla_page_size m a
  | LChunkedLocal a _ | LEncoderOnly a | LCross a => Ok (attn_page_size a)
  | LMamba m => Ok (mamba_page_size m)
  end.

(** The padding of a page. *)
Definition padded_size (padded : option Z) (real : Z) : res Z :=
  match padded with
  | Some p => do _ <- rassert (real <=? p) in Ok p
  | None => Ok real
  end.
Definition page_size_bytes s : res Z :=
  do real <- real_page_size_bytes s in
  match s with
  | LFull _ a _ _ _ | LChunkedLocal a _ | LSliding _ a _ | LEncoderOnly a | LCross a =>
    padded_size (page_size_padded a)
      (if is_per_token_head (kv_quant_mode a) then real + 2 * at_block_size a * num_kv_heads a * get_dtype_size "float32"%string else real)
  | LMamba m => padded_size (mb_page_size_padded m) real
  end.

(** __post_init__ of the MLA classes: padding to the alignment. *)
Definition _apply_alignment_padding s : res LayerSpec :=
  match mla_of s with
  | Some m =>
    match alignment m with
    | None => Ok s
    | Some al =>
      do actual <- real_page_size_bytes s in
      do padded <- round_up actual al in
      Ok (if padded =? actual then s else on_attn (with_padded (Some padded)) s)
    end
  | None => Ok s
  end.

(** [replace(spec, block_size=n)], also copy_with_new_block_size. *)
Definition copy_with_new_block_size s (n : Z) : res LayerSpec :=
  match s with
  | LMamba m => Ok (LMamba (mkMamba n (shapes m) (dtypes m) (mb_page_size_padded m) (mamba_type m) (mb_cache_mode m) (mb_num_speculative_blocks m)))
  | _ => _apply_alignment_padding (on_attn (with_block_size n) s)
  end.
End sizes.

(** ** Memory use *)

(** The fields of VllmConfig the sizing reads. *)
Record VllmConfig := mkVllm {
  v_max_model_len : Z;
  original_max_model_len : Z;
  decode_context_parallel_size : Z;
  prefill_context_parallel_size : Z;
  v_max_num_batched_tokens : Z;
  max_num_encoder_input_tokens : Z;
  mamba_cache_mode : string;
  num_gpu_blocks_override : option Z;
  disable_hybrid_kv_cache_manager : bool;
  v_use_eagle : bool;
  cache_block_size : Z;
  cache_hash_block_size : option Z;
  v_enable_prefix_caching : bool;
  has_kv_transfer_config : bool;
  v_nelssa_config : option (Z * Z);
}.
Definition with_max_model_len (n : Z) (c : VllmConfig) : VllmConfig :=
  mkVllm n (original_max_model_len c) (decode_context_parallel_size c) (prefill_context_parallel_size c) (v_max_num_batched_tokens c)
    (max_num_encoder_input_tokens c) (mamba_cache_mode c) (num_gpu_blocks_override c) (disable_hybrid_kv_cache_manager c) (v_use_eagle c)
    (cache_block_size c) (cache_hash_block_size c) (v_enable_prefix_caching c) (has_kv_transfer_config c) (v_nelssa_config c).

Section usage.
Context `{TorchDtypes}.
Implicit Types (s : LayerSpec) (a : AttentionFields) (cfg : VllmConfig).

(** max_memory_usage_bytes of the classes; [s] is the spec itself. *)
Definition full_max_memory cfg s a : res Z :=
  let ranks := decode_context_parallel_size cfg * prefill_context_parallel_size cfg in
  let len := if 1 <? ranks then cdiv (v_max_model_len cfg) ranks else v_max_model_len cfg in
  do n <- rcdiv len (at_block_size a) in do p <- page_size_bytes s in Ok (n * p).
Definition chunked_max_memory cfg s a (attention_chunk_size : Z) : res Z :=
  do _ <- rcdiv 0 (at_block_size a) in
  do p <- page_size_bytes s in
  Ok (chunked_max_admission (at_block_size a) attention_chunk_size (v_max_num_batched_tokens cfg) (v_max_model_len cfg) * p).
Definition sliding_max_memory cfg s a (sliding_window : Z) : res Z :=
  do _ <- rassert (decode_context_parallel_size cfg =? 1) in
  do _ <- rcdiv 0 (at_block_size a) in
  do p <- page_size_bytes s in
  Ok (swa_max_admission (at_block_size a) sliding_window (v_max_num_batched_tokens cfg) (v_max_model_len cfg) * p).
Definition cross_max_memory cfg s a : res Z :=
  do n <- rcdiv (max_num_encoder_input_tokens cfg) (at_block_size a) in do p <- page_size_bytes s in Ok (n * p).
Definition mamba_max_memory cfg s (m : MambaFields) : res Z :=
  if bool_decide (mamba_cache_mode cfg = "all"%string) then
    do n <- rcdiv (v_max_model_len cfg) (mb_block_size m) in do p <- page_size_bytes s in Ok (n * p)
  else if bool_decide (mamba_cache_mode cfg = "align"%string) then do p <- page_size_bytes s in Ok (p * (2 + mb_num_speculative_blocks m))
  else do p <- page_size_bytes s in Ok (p * (1 + mb_num_speculative_blocks m)).
Definition layer_max_memory cfg s : res Z :=
  match s with
  | LFull _ a _ _ _ => full_max_memory cfg s a
  | LChunkedLocal a k => chunked_max_memory cfg s a k
  | LSliding _ a w => sliding_max_memory cfg s a w
  | LEncoderOnly _ => Ok 0
  | LCross a => cross_max_memory cfg s a
  | LMamba m => mamba_max_memory cfg s m
  end.

(** The number of pages a layer needs at most. *)
Definition layer_max_pages cfg s : res Z :=
  do n <- layer_max_memory cfg s in do p <- page_size_bytes s in rcdiv n p.
End usage.

(** ** Merging the specs of the layers of a group *)
Section merge.
Implicit Types (s : LayerSpec).

(** merge_window_sizes of the sizes that are not None *)
Definition merge_window_sizes (l : list (option Z)) : res (option Z) :=
  match remove_dups (omap id l) with
  | [] => Ok None
  | [w] => Ok (Some w)
  | _ => Err ValueError
  end.

Definition window_of s : option Z := match s with LFull _ _ _ w _ => w | _ => None end.
Definition chunk_of s : option Z := match s with LFull _ _ _ _ k => k | _ => None end.
Definition attn_of s : option AttentionFields :=
  match s with LFull _ a _ _ _ | LChunkedLocal a _ | LSliding _ a _ | LEncoderOnly a | LCross a => Some a | LMamba _ => None end.

(** FullAttentionSpec.merge and SinkFullAttentionSpec.merge: [c] is the class of the merged
    spec, [a] and [v] are the fields of the first spec. *)
Definition full_merge (c : FullClass) (a : AttentionFields) (v : Z) (specs : list LayerSpec) : res LayerSpec :=
  do _ <- rassert (forallb is_full specs) in
  do _ <- rassert (negb (existsb is_mla specs)) in
  do w <- merge_window_sizes (window_of <$> specs) in
  do k <- merge_window_sizes (chunk_of <$> specs) in
  do _ <- rassert (forallb (fun s => bool_decide (attn_of s = Some a)) specs) in
  do _ <- rassert (match w, k with Some _, Some _ => false | _, _ => true end) in
  Ok (LFull c a v w k).

(** [all(s.tq_slot_size == slot for s in specs)] *)
Fixpoint same_slots (slot : Z) (specs : list LayerSpec) : res bool :=
  match specs with
  | [] => Ok true
  | LFull (TQFull slot') _ _ _ _ :: specs' => if slot' =? slot then same_slots slot specs' else Ok false
  | _ => Err AttributeError
  end.

(** [len(set(f(spec) for spec in specs)) == 1] *)
Definition one_value {A B} `{EqDecision B} (f : A -> B) (l : list A) : bool :=
  match remove_dups (f <$> l) with [_] => true | _ => false end.

(** The assertions the MLA classes share. *)
Definition merge_mla_ok (specs : list LayerSpec) : bool :=
  one_value (fun s => cache_dtype_str <$> mla_of s) specs
  && one_value (fun s => compress_ratio <$> mla_of s) specs
  && one_value (fun s => model_version <$> mla_of s) specs.
Definition sliding_window_of s : option Z := match s with LSliding _ _ w => Some w | _ => None end.

(** merge of the other classes: the fields of the first spec, then all specs. *)
Definition tq_merge (slot : Z) (a : AttentionFields) (v : Z) (specs : list LayerSpec) : res LayerSpec :=
  do merged <- full_merge (TQFull 0) a v specs in
  do same <- same_slots slot specs in
  do _ <- rassert same in
  Ok (match merged with LFull _ a' v' w k => LFull (TQFull slot) a' v' w k | s => s end).
Definition sink_merge (sink_len : option Z) (a : AttentionFields) (v : Z) (specs : list LayerSpec) : res LayerSpec := full_merge (SinkFull sink_len) a v specs.
Definition mla_merge (m : MLAFields) (a : AttentionFields) (specs : list LayerSpec) : res LayerSpec :=
  do _ <- rassert (forallb is_mla specs) in
  do _ <- rassert (merge_mla_ok specs) in
  Ok (LFull (MLAFull (mkMLA (cache_dtype_str m) None (compress_ratio m) (model_version m))) a (head_size a) None None).
Definition sliding_mla_merge (m : MLAFields) (a : AttentionFields) (w : Z) (specs : list LayerSpec) : res LayerSpec :=
  do _ <- rassert (forallb is_sliding_mla specs) in
  do _ <- rassert (merge_mla_ok specs && one_value sliding_window_of specs) in
  Ok (LSliding (MLASliding (mkMLA (cache_dtype_str m) None (compress_ratio m) (model_version m)) None)
        (mkAttn (at_block_size a) (num_kv_heads a) (head_size a) (dtype a) QNONE (page_size_padded a)) w).
(** KVCacheSpec.merge *)
Definition base_merge s (specs : list LayerSpec) : res LayerSpec :=
  do _ <- rassert (forallb (fun s' => bool_decide (s' = s)) specs) in Ok s.

(** [specs\[0\].merge(specs)] *)
Definition merge (specs : list LayerSpec) : res LayerSpec :=
  match specs with
  | [] => Err IndexError
  | LFull (MLAFull m) a _ _ _ :: _ => mla_merge m a specs
  | LFull (TQFull slot) a v _ _ :: _ => tq_merge slot a v specs
  | LFull (SinkFull sink) a v _ _ :: _ => sink_merge sink a v specs
  | LFull PlainFull a v _ _ :: _ => full_merge PlainFull a v specs
  | LSliding (MLASliding m _) a w :: _ => sliding_mla_merge m a w specs
  | s :: specs' => base_merge s specs'
  end.
End merge.

(** ** Layers of one type with different page sizes *)

(** The spec of a group: that of a layer, or UniformTypeKVCacheSpecs. *)
Inductive GroupSpec :=
  | GLayer (s : LayerSpec)
  | GUniform (block_size : Z) (kv_cache_specs : list (string * LayerSpec)).
Definition is_uniform_specs (g : GroupSpec) : bool := match g with GUniform _ _ => true | _ => false end.
Definition group_block_size (g : GroupSpec) : Z := match g with GLayer s => block_size_of s | GUniform n _ => n end.

(** UniformTypeKVCacheSpecs.is_uniform_type *)
Definition is_uniform_type (kv_cache_specs : list (string * LayerSpec)) : res bool :=
  let specs := kv_cache_specs.*2 in
  if 1 <? zlen (remove_dups (block_size_of <$> specs)) then Ok false
  else
    match specs with
    | [] => Err StopIteration
    | LSliding (MLASliding _ _) _ w :: _ =>
      Ok (forallb (fun s => is_sliding_mla s && bool_decide (sliding_window_of s = Some w)) specs)
    | LFull _ _ _ _ _ :: _ => Ok (forallb is_full specs)
    | LCross _ :: _ => Ok (forallb (fun s => match s with LCross _ => true | _ => false end) specs)
    | LSliding _ _ w :: _ => Ok (forallb (fun s => bool_decide (sliding_window_of s = Some w)) specs)
    | LChunkedLocal _ k :: _ => Ok (forallb (fun s => match s with LChunkedLocal _ k' => k' =? k | _ => false end) specs)
    | LMamba m :: _ =>
      Ok (forallb (fun s => match s with LMamba m' => mb_num_speculative_blocks m' =? mb_num_speculative_blocks m | _ => false end) specs)
    | LEncoderOnly _ :: _ => Err NotImplementedError
    end.
(** UniformTypeKVCacheSpecs.from_specs *)
Definition from_specs (kv_cache_specs : list (string * LayerSpec)) : res (option GroupSpec) :=
  do u <- is_uniform_type kv_cache_specs in
  Ok (match kv_cache_specs with
      | (_, s) :: _ => if u then Some (GUniform (block_size_of s) kv_cache_specs) else None
      | [] => None
      end).

Section uniform.
Context `{TorchDtypes}.

(** page_size_bytes and max_memory_usage_bytes of a group's spec *)
Definition group_page_size (g : GroupSpec) : res Z :=
  match g with
  | GLayer s => page_size_bytes s
  | GUniform _ specs => do l <- rmap (fun x => page_size_bytes x.2) specs in Ok (zsum l)
  end.
(** max_memory_usage_pages *)
Definition max_memory_usage_pages (cfg : VllmConfig) (specs : list (string * LayerSpec)) : res Z :=
  do l <- rmap (fun x => layer_max_pages cfg x.2) specs in zmax l.
Definition group_max_memory (cfg : VllmConfig) (g : GroupSpec) : res Z :=
  match g with
  | GLayer s => layer_max_memory cfg s
  | GUniform _ specs => do n <- max_memory_usage_pages cfg specs in do p <- group_page_size g in Ok (n * p)
  end.

(** get_page_sizes: a set as a list; its order is not used. *)
Definition get_page_sizes (specs : list (string * LayerSpec)) : res (list Z) :=
  do l <- rmap (fun x => page_size_bytes x.2) specs in Ok (remove_dups l).
(** get_num_layer_tuples: the count of the most common page size *)
Definition count_of (x : Z) (l : list Z) : Z := zlen (filter (fun y => y = x) l).
Definition get_num_layer_tuples (specs : list (string * LayerSpec)) : res Z :=
  do l <- rmap (fun x => page_size_bytes x.2) specs in
  match l with [] => Err IndexError | _ => zmax ((fun x => count_of x l) <$> l) end.
End uniform.
