(* ===== verification/KVCacheSizing.v ===== *)
(** * KVCacheSizing
    The sizing and grouping of KV-cache memory in vllm/v1/core/kv_cache_utils.py: layers are
    split into groups that share a block table, the memory of every worker is divided into
    blocks and laid out as tensors, and the largest model length that fits is searched for.

    A dict from layer names to specs is an association list; every layer has a spec object of
    its own, so that padding one in place does not change another. The temporary assignments to
    max_model_len during a search are arguments. Messages are left out. *)
From Stdlib Require Import QArith_base.
From S2P Require Import Prelude OrdDict CacheHit Coordinator KVCacheInterface.
#[local] Open Scope Z_scope.

Abbreviation LayerSpecs := (list (string * LayerSpec)).

(** KVCacheGroupSpec, KVCacheTensor and KVCacheConfig of a worker *)
Record LayerGroup := mkLayerGroup { layer_names : list string; group_spec : GroupSpec; lg_is_eagle : bool }.
Record KVCacheTensor := mkTensor { t_size : Z; shared_by : list string }.
Record WorkerConfig := mkWorker {
  w_num_blocks : Z;
  kv_cache_tensors : list KVCacheTensor;
  w_groups : list LayerGroup;
  w_nelssa_config : option (Z * Z);
}.

(** [d\[k\]] *)
Definition spec_at (d : LayerSpecs) (k : string) : res LayerSpec :=
  match od_get k d with Some s => Ok s | None => Err KeyError end.

Section grouping.
Context `{TorchDtypes}.
Implicit Types (cfg : VllmConfig) (specs : LayerSpecs).

(** ** Groups *)
Fixpoint create_kv_cache_group_specs specs (grouped_layer_names : list (list string)) : res (list LayerGroup) :=
  match grouped_layer_names with
  | [] => Ok []
  | names :: rest =>
    do ls <- rmap (spec_at specs) names in
    do m <- merge ls in
    do gs <- create_kv_cache_group_specs specs rest in
    Ok (mkLayerGroup names (GLayer m) false :: gs)
  end.

Definition is_kv_cache_spec_uniform specs : res bool :=
  match specs with
  | [] => Ok true
  | _ => match merge specs.*2 with Ok _ => Ok true | Err AssertionError => Ok false | Err e => Err e end
  end.

Definition _get_kv_cache_groups_uniform_spec specs : res (list LayerGroup) := create_kv_cache_group_specs specs [od_keys specs].
Definition _get_kv_cache_groups_uniform_type (us : LayerSpecs) (spec : GroupSpec) : list LayerGroup := [mkLayerGroup (od_keys us) spec false].

Definition get_uniform_page_size (gs : list GroupSpec) : res Z :=
  do l <- rmap group_page_size gs in
  match remove_dups l with [p] => Ok p | _ => Err AssertionError end.

(** is_kv_cache_page_size_uniform *)
Definition is_kv_cache_page_size_uniform specs : res bool :=
  do l <- rmap (fun x => page_size_bytes x.2) specs in Ok (zlen (remove_dups l) =? 1).

(** The new spec of one layer in unify_kv_cache_spec_page_size. *)
Definition unify_layer (max_page_size : Z) (s : LayerSpec) : res LayerSpec :=
  do p <- page_size_bytes s in
  if p =? max_page_size then Ok s
  else if p =? 0 then Err ZeroDivisionError
  else if negb (max_page_size mod p =? 0) then Err NotImplementedError
  else
    do s' <- copy_with_new_block_size s (block_size_of s * (max_page_size / p)) in
    do p' <- page_size_bytes s' in
    do _ <- rassert (p' =? max_page_size) in
    Ok s'.
Definition unify_kv_cache_spec_page_size specs : res LayerSpecs :=
  do l <- rmap (fun x => page_size_bytes x.2) specs in
  if zlen (remove_dups l) <=? 1 then Ok specs
  else
    do m <- zmax l in
    rmap (fun x => do s <- unify_layer m x.2 in Ok (x.1, s)) specs.

Definition is_kv_cache_type_attention_free specs : bool := match specs with [] => true | _ => false end.

(** [layers\[i::n\]] *)
Definition py_stride {A} (l : list A) (i n : Z) : list A := (filter (fun x => x.1 mod n = i) (zip (range (zlen l)) l)).*2.

(** The layers by spec, in order of first occurrence. *)
Definition same_type_layers specs : list (LayerSpec * list string) :=
  foldl (fun d x => od_set x.2 (default [] (od_get x.2 d) ++ [x.1]) d) [] specs.
(** The layers of one type in groups of at most [group_size] *)
Definition split_layers (group_size : Z) (layers : list string) : list (list string) :=
  let num_groups := cdiv (zlen layers) group_size in
  (fun i => py_stride layers i num_groups) <$> range num_groups.
Definition choose_group_size (sizes : list Z) : res Z :=
  do min_num_layers <- zmin sizes in
  do max_num_layers <- zmax sizes in
  Ok (if 2 * max_num_layers <? 3 * min_num_layers then max_num_layers else min_num_layers).
Definition _get_kv_cache_groups_uniform_page_size specs : res (list LayerGroup) :=
  let d := same_type_layers specs in
  do group_size <- choose_group_size ((fun x => zlen x.2) <$> d) in
  create_kv_cache_group_specs specs (concat ((fun x => split_layers group_size x.2) <$> d)).

(** ** One type of attention when the hybrid manager is disabled *)
Definition plain_full (a : AttentionFields) (v : Z) (w k : option Z) : LayerSpec := LFull PlainFull a v w k.
Definition unify_one (uniform_block_size : option Z) (s : LayerSpec) : res LayerSpec :=
  match s with
  | LSliding (MLASliding m _) a _ =>
    _apply_alignment_padding
      (LFull (MLAFull m)
         (mkAttn (default (at_block_size a) uniform_block_size) (num_kv_heads a) (head_size a) (dtype a) QNONE (page_size_padded a))
         (head_size a) None None)
  | LSliding (PlainSliding v) a w => Ok (plain_full a v (Some w) None)
  | LChunkedLocal a k =>
    Ok (plain_full (mkAttn (at_block_size a) (num_kv_heads a) (head_size a) (dtype a) QNONE (page_size_padded a)) (head_size a) None (Some k))
  | _ => Ok s
  end.
(** [is_kv_cache_spec_uniform(specs) or is_uniform_type(specs)] *)
Definition one_type specs : res bool :=
  do u <- is_kv_cache_spec_uniform specs in if u then Ok true else is_uniform_type specs.
Definition unify_hybrid_kv_cache_specs specs : res LayerSpecs :=
  do u <- one_type specs in
  if u then Ok specs
  else
    let ls := specs.*2 in
    let has_full := existsb is_full ls in
    do ubs <- (if existsb is_sliding_mla ls then
                 match filter (fun s => is_full s = true) ls with
                 | s :: _ => Ok (Some (block_size_of s))
                 | [] => Err AssertionError
                 end
               else Ok None) in
    do specs' <- (if has_full && (existsb is_sliding ls || existsb is_chunked_local ls)
                  then rmap (fun x => do s <- unify_one ubs x.2 in Ok (x.1, s)) specs else Ok specs) in
    do u' <- one_type specs' in
    if u' then Ok specs' else Err ValueError.

(** ** Groups of several types with aligned page sizes (DeepseekV4) *)

(** The sliding-window layers by block size and window *)
Definition grouped_swa_mla specs : list (Z * Z * LayerSpecs) :=
  foldl (fun d x =>
    match x.2 with
    | LSliding (MLASliding _ _) a w =>
      let k := (at_block_size a, w) in od_set k (od_set x.1 x.2 (default [] (od_get k d))) d
    | _ => d
    end) [] specs.
Definition uniform_or_fail specs : res LayerSpecs :=
  do o <- from_specs specs in match o with Some _ => Ok specs | None => Err AssertionError end.
(** The first component is the group of the full-attention layers. *)
Definition group_and_unify_kv_cache_specs specs : res (option (list LayerSpecs)) :=
  if negb (existsb is_sliding_mla specs.*2) then Ok None
  else
    let mla_specs := filter (fun x => is_mla x.2 = true) specs in
    do _ <- rassert (match mla_specs with [] => false | _ => true end) in
    do m <- uniform_or_fail mla_specs in
    do sw <- rmap (fun x => uniform_or_fail x.2) (grouped_swa_mla specs) in
    Ok (Some (m :: sw)).

(** _approximate_gcd: the padding for chunk size [d], and the loop over the sizes. *)
Definition padding (values : list Z) (d : Z) : Z := zsum ((fun x => (d - x mod d) mod d) <$> values).
Definition gcd_step (values : list Z) (best : Z * option Z) (d : Z) : Z * option Z :=
  let pad := padding values d in
  match best.2 with
  | None => (d, Some pad)
  | Some b => if (pad <? b) || ((pad =? b) && (best.1 <? d)) then (d, Some pad) else best
  end.
Definition _approximate_gcd (values : list Z) (lower_bound : option Z) : res Z :=
  match values with
  | [] => Err ValueError
  | _ =>
    if existsb (fun x => x <=? 0) values then Err ValueError
    else
      let min_d := Z.max 1 (default 1 lower_bound) in
      do max_d <- zmax values in
      if max_d <? min_d then Ok min_d
      else Ok (foldl (gcd_step values) (min_d, None) (seqZ min_d (max_d - min_d + 1))).1
  end.

(** The nearest page size of the full-attention group that is at least [ps] *)
Definition candidate_size (all_page_sizes : list Z) (ps : Z) : res Z := zmin (filter (fun x => ps <= x) all_page_sizes).
(** Padding of the layers of one sliding-window group, and their names by page size. *)
Fixpoint pad_layers (all_page_sizes : list Z) specs (acc : LayerSpecs * list (Z * list string)) : res (LayerSpecs * list (Z * list string)) :=
  match specs with
  | [] => Ok acc
  | (name, s) :: rest =>
    do ps <- page_size_bytes s in
    do c <- candidate_size all_page_sizes ps in
    let s' := if ps <? c then on_attn (with_padded (Some c)) s else s in
    pad_layers all_page_sizes rest (acc.1 ++ [(name, s')], od_set c (default [] (od_get c acc.2) ++ [name]) acc.2)
  end.
(** [list(zip( *rows))] for rows of equal length *)
Definition zip_rows (rows : list (list string)) : list (list string) :=
  match rows with
  | [] => []
  | r :: _ => (fun j => omap (fun row => row !! j) rows) <$> seq 0 (length r)
  end.
Fixpoint tuple_groups specs (l : list (list string)) : res (list LayerGroup) :=
  match l with
  | [] => Ok []
  | names :: rest =>
    do ls <- rmap (fun n => do s <- spec_at specs n in Ok (n, s)) names in
    let d := foldl (fun d x => od_set x.1 x.2 d) [] ls in
    do o <- from_specs d in
    match o with
    | None => Err AssertionError
    | Some g => do gs <- tuple_groups specs rest in Ok (mkLayerGroup names g false :: gs)
    end
  end.
Definition swa_groups (all_page_sizes : list Z) (num_layer_tuples : Z) specs : res (list LayerGroup) :=
  do sm_page_sizes <- get_page_sizes specs in
  do m <- zmax sm_page_sizes in
  do m' <- zmax all_page_sizes in
  do _ <- rassert (m <=? m') in
  do padded <- pad_layers all_page_sizes specs ([], []) in
  let rows := padded.2.*2 in
  do _ <- rassert (one_value zlen rows) in
  let num_layers_per_size := match rows with r :: _ => zlen r | [] => 0 end in
  do num_tuple_groups <- rcdiv num_layers_per_size num_layer_tuples in
  let layer_tuples := zip_rows rows in
  tuple_groups padded.1 ((fun i => concat (py_stride layer_tuples i num_tuple_groups)) <$> range num_tuple_groups).
Definition _get_kv_cache_groups_uniform_groups (grouped : list LayerSpecs) : res (list LayerGroup) :=
  match grouped with
  | [] => Err AssertionError
  | full_mla :: swa =>
    do _ <- rassert (forallb is_mla full_mla.*2) in
    do tuples <- rmap get_num_layer_tuples grouped in
    do first <- py_index tuples 0 in
    do num_layer_tuples <- _approximate_gcd tuples (Some first) in
    do _ <- rmap (fun x => round_up x num_layer_tuples) tuples in
    do _ <- rassert (forallb (fun g => forallb is_sliding_mla g.*2) swa) in
    do all_page_sizes <- get_page_sizes full_mla in
    do gs <- rmap (swa_groups all_page_sizes num_layer_tuples) swa in
    let bs := match full_mla with (_, s) :: _ => block_size_of s | [] => 0 end in
    Ok (mkLayerGroup (od_keys full_mla) (GUniform bs full_mla) false :: concat gs)
  end.

(** The first group with the last layer is flagged. *)
Fixpoint flag_first (name : string) (gs : list LayerGroup) : list LayerGroup :=
  match gs with
  | [] => []
  | g :: gs' => if bool_decide (name ∈ layer_names g) then mkLayerGroup (layer_names g) (group_spec g) true :: gs' else g :: flag_first name gs'
  end.
Definition _annotate_eagle_groups_deepseek_v4 cfg specs (gs : list LayerGroup) : list LayerGroup :=
  if v_use_eagle cfg && existsb (fun s => bool_decide (mla_of s ≫= model_version = Some "deepseek_v4"%string)) specs.*2
  then match last (od_keys specs) with Some n => flag_first n gs | None => gs end
  else gs.

Definition get_kv_cache_groups cfg specs0 : res (list LayerGroup) :=
  do specs <- (if disable_hybrid_kv_cache_manager cfg then unify_hybrid_kv_cache_specs specs0 else Ok specs0) in
  if is_kv_cache_type_attention_free specs then Ok []
  else
    do u <- is_kv_cache_spec_uniform specs in
    if u then _get_kv_cache_groups_uniform_spec specs
    else
      do o <- from_specs specs in
      match o with
      | Some g => Ok (_get_kv_cache_groups_uniform_type specs g)
      | None =>
        do grouped <- group_and_unify_kv_cache_specs specs in
        match grouped with
        | Some l => do gs <- _get_kv_cache_groups_uniform_groups l in Ok (_annotate_eagle_groups_deepseek_v4 cfg specs gs)
        | None => do specs' <- unify_kv_cache_spec_page_size specs in _get_kv_cache_groups_uniform_page_size specs'
        end
      end.
End grouping.

(** ** Memory needed *)
Section sizing.
Context `{TorchDtypes}.
Implicit Types (cfg : VllmConfig) (specs : LayerSpecs) (gs : list LayerGroup).

Definition max_memory_usage_bytes cfg (l : list GroupSpec) : res Z :=
  do ns <- rmap (group_max_memory cfg) l in Ok (zsum ns).

(** The three layouts of memory: one group of layers with pages of different sizes, several
    such groups, and groups with one page size. *)
Inductive Layout :=
  | OneUniform (names : list string) (us : LayerSpecs)
  | ManyUniform (us : list (list string * LayerSpecs))
  | SharedPools.
Fixpoint all_uniform gs : option (list (list string * LayerSpecs)) :=
  match gs with
  | [] => Some []
  | mkLayerGroup names (GUniform _ us) _ :: gs' => l ← all_uniform gs'; Some ((names, us) :: l)
  | _ => None
  end.
Definition layout_of gs : Layout :=
  match gs with
  | [mkLayerGroup names (GUniform _ us) _] => OneUniform names us
  | _ => match all_uniform gs with Some l => ManyUniform l | None => SharedPools end
  end.

(** The number of layer tuples and the bytes of one of them *)
Definition layer_tuples (l : list (list string * LayerSpecs)) : res (Z * Z) :=
  do first <- py_index l 0 in
  do sizes <- get_page_sizes first.2 in
  do ns <- rmap (fun x => get_num_layer_tuples x.2) l in
  do n <- zmax ns in
  Ok (zsum sizes, n).
Definition group_size_of gs : res Z := zmax ((fun g => zlen (layer_names g)) <$> gs).

Definition _pool_bytes_per_block gs : res Z :=
  match layout_of gs with
  | OneUniform _ us => group_page_size (GUniform 0 us)
  | ManyUniform l => do x <- layer_tuples l in Ok (x.1 * x.2)
  | SharedPools =>
    do n <- group_size_of gs in
    do p <- get_uniform_page_size (group_spec <$> gs) in
    Ok (p * n)
  end.

Definition _max_memory_usage_bytes_from_groups cfg gs : res Z :=
  match gs with
  | [] => Ok 0
  | _ =>
    match layout_of gs with
    | OneUniform _ us => do ns <- rmap (fun x => layer_max_memory cfg x.2) us in Ok (zsum ns)
    | ManyUniform l =>
      do x <- layer_tuples l in
      do ns <- rmap (fun y => do pages <- max_memory_usage_pages cfg y.2 in Ok (x.2 * pages * x.1)) l in
      Ok (zsum ns)
    | SharedPools =>
      do n <- group_size_of gs in
      do p <- get_uniform_page_size (group_spec <$> gs) in
      do blocks <- rmap (fun g => do m <- group_max_memory cfg (group_spec g) in rcdiv m p) gs in
      Ok (n * p * zsum blocks)
    end
  end.

(** ** The largest model length that fits *)

(** [while left <= right: ...] *)
Fixpoint search_loop (fuel : nat) (fits : Z -> res bool) (left right result : Z) : res Z :=
  if left <=? right then
    match fuel with
    | O => Err OutOfFuel
    | S f =>
      let mid := (left + right) / 2 in
      do ok <- fits mid in
      if ok then search_loop f fits (mid + 1) right mid else search_loop f fits left (mid - 1) result
    end
  else Ok result.
(** Every round halves the range. *)
Definition search_fuel (right : Z) : nat := S (Z.to_nat (Z.log2 right)).
Definition search_max (fits : Z -> res bool) (original : Z) : res Z :=
  do ok <- fits 1 in
  if negb ok then Ok 0 else search_loop (search_fuel original) fits 1 original 1.

Definition estimate_max_model_len cfg specs (available_memory : Z) : res Z :=
  search_max (fun n => do m <- max_memory_usage_bytes (with_max_model_len n cfg) (GLayer <$> specs.*2) in Ok (m <=? available_memory))
    (v_max_model_len cfg).
Definition _estimate_max_model_len_from_groups cfg gs (available_memory : Z) : res Z :=
  search_max (fun n => do m <- _max_memory_usage_bytes_from_groups (with_max_model_len n cfg) gs in Ok (m <=? available_memory))
    (v_max_model_len cfg).

(** ** Checks *)
Definition _check_enough_kv_cache_memory (available_memory : Z) (get_needed_memory : res Z) (estimate : Z -> res Z) : res unit :=
  if available_memory <=? 0 then Err ValueError
  else
    do needed <- get_needed_memory in
    if available_memory <? needed then do _ <- estimate available_memory in Err ValueError
    else Ok tt.
Definition check_enough_kv_cache_memory cfg specs (available_memory : Z) : res unit :=
  match specs with
  | [] => Ok tt
  | _ => _check_enough_kv_cache_memory available_memory (max_memory_usage_bytes cfg (GLayer <$> specs.*2)) (estimate_max_model_len cfg specs)
  end.
(** The check of one worker in get_kv_cache_configs *)
Definition check_worker cfg gs (available_memory : Z) : res unit :=
  match gs with
  | [] => Ok tt
  | _ => _check_enough_kv_cache_memory available_memory (_max_memory_usage_bytes_from_groups cfg gs) (_estimate_max_model_len_from_groups cfg gs)
  end.

(** _auto_fit_max_model_len: the new max_model_len *)
Fixpoint fit_workers cfg (ws : list (list LayerGroup * Z)) (auto_fit_max : Z) : res Z :=
  match ws with
  | [] => Ok auto_fit_max
  | ([], _) :: ws' => fit_workers cfg ws' auto_fit_max
  | (gs, mem) :: ws' => do n <- _estimate_max_model_len_from_groups cfg gs mem in fit_workers cfg ws' (Z.min n auto_fit_max)
  end.
Definition _auto_fit_max_model_len cfg (projected : list (list LayerGroup)) (available_memory : list Z) : res VllmConfig :=
  if forallb (fun gs => match gs with [] => true | _ => false end) projected then Ok cfg
  else
    do _ <- py_index available_memory 0 in
    do n <- fit_workers cfg (zip projected available_memory) (v_max_model_len cfg) in
    if n <=? 0 then Err ValueError
    else Ok (if v_max_model_len cfg <=? n then cfg else with_max_model_len n cfg).

(** ** Blocks and tensors *)
Definition may_override_num_blocks cfg (num_blocks : Z) : Z := default num_blocks (num_gpu_blocks_override cfg).
Definition get_num_blocks cfg (num_layers available_memory page_size : Z) : res Z :=
  do n <- rdiv available_memory page_size in
  do n <- rdiv n num_layers in
  Ok (may_override_num_blocks cfg (Z.max n 0)).

(** The layers of a group by page size *)
Fixpoint bucket_layers specs (names : list string) (b : list (Z * list string)) : res (list (Z * list string)) :=
  match names with
  | [] => Ok b
  | n :: rest =>
    do s <- spec_at specs n in
    do p <- page_size_bytes s in
    bucket_layers specs rest (od_set p (default [] (od_get p b) ++ [n]) b)
  end.
(** [sorted(page_sizes)]: the least one first *)
Fixpoint insert_sorted (x : Z) (l : list Z) : list Z :=
  match l with [] => [x] | y :: l' => if x <=? y then x :: l else y :: insert_sorted x l' end.
Definition sorted (l : list Z) : list Z := foldr insert_sorted [] l.
(** The layers that share the tensor of tuple [i] and page size [ps] *)
Definition tuple_layers (bucketed : list (list (Z * list string))) (i : nat) (ps : Z) : list string :=
  omap (fun b => l ← od_get ps b; l !! i) bucketed.
Definition _get_kv_cache_config_deepseek_v4 cfg (l : list (list string * LayerSpecs)) (available_memory : Z) : res (Z * list KVCacheTensor) :=
  do first <- py_index l 0 in
  do sizes <- get_page_sizes first.2 in
  let page_sizes := sorted sizes in
  do bucketed <- rmap (fun x => bucket_layers x.2 x.1 []) l in
  do num_layer_tuples <- zmax ((fun y => zlen y.2) <$> concat bucketed) in
  do n <- rdiv available_memory (zsum page_sizes * num_layer_tuples) in
  let num_blocks := may_override_num_blocks cfg n in
  Ok (num_blocks, concat ((fun i => (fun ps => mkTensor (ps * num_blocks) (tuple_layers bucketed i ps)) <$> page_sizes) <$> seq 0 (Z.to_nat num_layer_tuples))).

(** The [i]-th layers of all groups *)
Definition pool_layers gs (i : nat) : list string := omap (fun g => layer_names g !! i) gs.
Definition get_kv_cache_config_from_groups cfg gs (available_memory : Z) : res WorkerConfig :=
  match gs with
  | [] => Ok (mkWorker 1 [] [] (v_nelssa_config cfg))
  | _ =>
    do x <- match layout_of gs with
            | OneUniform names us =>
              do p <- group_page_size (GUniform 0 us) in
              do n <- rdiv available_memory p in
              let num_blocks := may_override_num_blocks cfg n in
              do ts <- rmap (fun name => do s <- spec_at us name in do q <- page_size_bytes s in Ok (mkTensor (q * num_blocks) [name])) names in
              Ok (num_blocks, ts)
            | ManyUniform l => _get_kv_cache_config_deepseek_v4 cfg l available_memory
            | SharedPools =>
              do group_size <- group_size_of gs in
              do page_size <- get_uniform_page_size (group_spec <$> gs) in
              do _ <- rassert (0 <? group_size) in
              do num_blocks <- get_num_blocks cfg group_size available_memory page_size in
              Ok (num_blocks, (fun i => mkTensor (page_size * num_blocks) (pool_layers gs i)) <$> seq 0 (Z.to_nat group_size))
            end in
    Ok (mkWorker x.1 x.2 gs (v_nelssa_config cfg))
  end.

(** ** Workers *)
Definition project_group (worker_spec : LayerSpecs) (g : LayerGroup) : res LayerGroup :=
  let names := filter (fun n => od_mem n worker_spec = true) (layer_names g) in
  let nonempty := match names with [] => false | _ => true end in
  do spec <- match group_spec g with
             | GUniform bs us =>
               if nonempty then do l <- rmap (fun n => do s <- spec_at us n in Ok (n, s)) names in Ok (GUniform bs l) else Ok (GUniform bs us)
             | s => Ok s
             end in
  Ok (mkLayerGroup names spec (lg_is_eagle g && nonempty)).
Definition _project_kv_cache_groups_to_worker gs (worker_spec : LayerSpecs) : res (list LayerGroup) := rmap (project_group worker_spec) gs.

(** The specs of all workers; a layer must have the same spec on each. *)
Fixpoint merge_worker (l : LayerSpecs) (merged : LayerSpecs) : res LayerSpecs :=
  match l with
  | [] => Ok merged
  | (n, s) :: l' =>
    match od_get n merged with
    | None => merge_worker l' (merged ++ [(n, s)])
    | Some s' => do _ <- rassert (bool_decide (s' = s)) in merge_worker l' merged
    end
  end.
Fixpoint merge_workers (ws : list LayerSpecs) (merged : LayerSpecs) : res LayerSpecs :=
  match ws with
  | [] => Ok merged
  | w :: ws' => do m <- merge_worker w merged in merge_workers ws' m
  end.

(** The memory that num_gpu_blocks_override stands for *)
Definition override_memory cfg (projected : list (list LayerGroup)) (available_memory : list Z) : res (list Z) :=
  match num_gpu_blocks_override cfg with
  | None => Ok available_memory
  | Some n =>
    rmap (fun x => match x.1 with
                   | [] => Ok x.2
                   | _ => do b <- _pool_bytes_per_block x.1 in do _ <- rdiv x.2 b in Ok (n * b)
                   end) (zip projected available_memory)
  end.

(** get_max_concurrency_for_kv_cache_config and _report_kv_cache_config *)
Definition get_max_concurrency_for_kv_cache_config cfg (w : WorkerConfig) : res Q :=
  do n <- group_size_of (w_groups w) in
  do m <- max_memory_usage_bytes cfg (group_spec <$> w_groups w) in
  do g <- py_index (w_groups w) 0 in
  do p <- group_page_size (group_spec g) in
  do b <- rcdiv (n * m) (p * n) in
  if b =? 0 then Err ZeroDivisionError else Ok (inject_Z (w_num_blocks w) / inject_Z b)%Q.

(** The worker's configuration with the smallest number of blocks *)
Definition shrink_tensor (old new : Z) (t : KVCacheTensor) : res KVCacheTensor :=
  if old =? 0 then Err ZeroDivisionError
  else do _ <- rassert (t_size t mod old =? 0) in Ok (mkTensor (t_size t / old * new) (shared_by t)).
Definition shrink_worker cfg (min_num_blocks : Z) (w : WorkerConfig) : res WorkerConfig :=
  do ts <- rmap (shrink_tensor (w_num_blocks w) min_num_blocks) (kv_cache_tensors w) in
  let w' := mkWorker min_num_blocks ts (w_groups w) (w_nelssa_config w) in
  do _ <- match w_groups w with [] => Ok tt | _ => do _ <- get_max_concurrency_for_kv_cache_config cfg w' in Ok tt end in
  Ok w'.

(** One worker's configuration; every layer must be in a group. *)
Definition worker_config cfg (x : list LayerGroup * LayerSpecs * Z) : res WorkerConfig :=
  do _ <- rassert (zsum ((fun g => zlen (layer_names g)) <$> x.1.1) =? zlen x.1.2) in
  get_kv_cache_config_from_groups cfg x.1.1 x.2.

(** get_kv_cache_configs, with the configuration that auto-fit may change *)
Definition get_kv_cache_configs cfg (kv_cache_specs : list LayerSpecs) (available_memory0 : list Z) : res (VllmConfig * list WorkerConfig) :=
  do merged <- merge_workers kv_cache_specs [] in
  do global <- get_kv_cache_groups cfg merged in
  do projected <- rmap (_project_kv_cache_groups_to_worker global) kv_cache_specs in
  do available_memory <- override_memory cfg projected available_memory0 in
  do cfg <- (if original_max_model_len cfg =? -1 then _auto_fit_max_model_len cfg projected available_memory else Ok cfg) in
  do _ <- rmap (fun x => check_worker cfg x.1 x.2) (zip projected available_memory) in
  do configs <- rmap (worker_config cfg) (zip (zip projected kv_cache_specs) available_memory) in
  do min_num_blocks <- zmin (w_num_blocks <$> configs) in
  do configs' <- rmap (shrink_worker cfg min_num_blocks) configs in
  Ok (cfg, configs').

(** ** The scheduler's configuration *)
Definition generate_scheduler_kv_cache_config (configs : list WorkerConfig) : res WorkerConfig :=
  match configs with
  | [] => Err IndexError
  | c :: _ =>
    do _ <- rassert (forallb (fun c' => w_num_blocks c' =? w_num_blocks c) configs) in
    do gs <- rmap (fun g => match group_spec g with
                            | GUniform _ ((_, s) :: _) => Ok (mkLayerGroup (layer_names g) (GLayer s) (lg_is_eagle g))
                            | GUniform _ [] => Err StopIteration
                            | _ => Ok g
                            end) (w_groups c) in
    Ok (mkWorker (w_num_blocks c) (kv_cache_tensors c) gs (w_nelssa_config c))
  end.

Definition is_mamba_group (g : LayerGroup) : bool := match group_spec g with GLayer (LMamba _) => true | _ => false end.
(** has_mamba_layers, needs_kv_cache_zeroing *)
Definition has_mamba_layers (c : WorkerConfig) : bool := existsb is_mamba_group (w_groups c).
Definition needs_kv_cache_zeroing (c : WorkerConfig) : bool := has_mamba_layers c.

Definition gcd_list (l : list Z) : Z := fold_right Z.gcd 0 l.
Definition resolve_kv_cache_block_sizes (c : WorkerConfig) cfg : res (Z * Z) :=
  let dcp := decode_context_parallel_size cfg in
  let pcp := prefill_context_parallel_size cfg in
  match w_groups c with
  | [] | [_] => let bs := cache_block_size cfg * dcp * pcp in Ok (bs, bs)
  | gs =>
    if negb (dcp =? 1) || negb (pcp =? 1) then Err ValueError
    else
      let sizes := (fun g => group_block_size (group_spec g)) <$> gs in
      let scheduler_block_size := lcm_list sizes in
      if negb (v_enable_prefix_caching cfg || has_kv_transfer_config cfg) then Ok (scheduler_block_size, scheduler_block_size)
      else if existsb (fun g => is_mamba_group g && negb (group_block_size (group_spec g) =? cache_block_size cfg)) gs
      then Ok (scheduler_block_size, scheduler_block_size)
      else
        let hbs := default (gcd_list sizes) (cache_hash_block_size cfg) in
        if hbs =? 0 then Err ZeroDivisionError
        else if existsb (fun bs => negb (bs mod hbs =? 0)) sizes then Err ValueError
        else Ok (scheduler_block_size, hbs)
  end.
End sizing.
