(* ===== verification/SizingInv.v ===== *)
(** * SizingInv
    Lemmas on the sizing of KV-cache memory: calls that may raise, the binary search, the
    monotonicity of memory use in the model length, page sizes, and the splitting of layers
    into groups and tensors. *)
From S2P Require Import Prelude OrdDict CacheHit Coordinator KVCacheInterface KVCacheSizing.

(** ** Calls that may raise *)
Lemma rbind_Ok {A B} (m : res A) (k : A -> res B) b : rbind m k = Ok b <-> exists a, m = Ok a /\ k a = Ok b.
Proof. destruct m as [a|e]; simpl; split; [by exists a | by intros (a' & [= <-] & ?) | done | by intros (? & ? & ?)]. Qed.
Lemma Ok_inj {A} (a b : A) : Ok a = Ok b -> a = b.
Proof. by intros [= ->]. Qed.
Lemma rassert_Ok b x : rassert b = Ok x <-> b = true.
Proof. destruct b, x; by cbn. Qed.
(** Takes a returned result of a sequence of calls apart. *)
Ltac rinv :=
  repeat match goal with
  | H : rbind (rassert ?b) _ = Ok _ |- _ => let E := fresh "E" in apply rbind_Ok in H as (? & E%rassert_Ok & H)
  | H : rbind _ _ = Ok _ |- _ => let E := fresh "E" in apply rbind_Ok in H as (? & E & H)
  | H : Ok _ = Ok _ |- _ => injection H as H
  | H : Err _ = Ok _ |- _ => discriminate H
  end.

Lemma rmap_Ok {A B} (f : A -> res B) l l' : rmap f l = Ok l' <-> Forall2 (fun x y => f x = Ok y) l l'.
Proof.
  revert l'. induction l as [|x l IH]; intros l'; simpl.
  - split; [by intros [= <-] | by inversion 1].
  - split.
    + intros Hm. rinv. subst. constructor; [done | by apply IH].
    + inversion 1 as [|? y ? l'' Hx Hl]; subst. rewrite Hx. simpl. apply IH in Hl. by rewrite Hl.
Qed.
Lemma rmap_total {A B} (f : A -> res B) l : (forall x, x ∈ l -> exists y, f x = Ok y) -> exists l', rmap f l = Ok l'.
Proof.
  induction l as [|x l IH]; intros Hf; [by exists [] |]. destruct (Hf x) as [y Hy]; [by left |].
  destruct IH as [l' Hl]; [intros z Hz; apply Hf; by right |]. exists (y :: l'). simpl. by rewrite Hy, Hl.
Qed.
Lemma rmap_fmap {A B} (f : A -> res B) (g : A -> B) l : (forall x, x ∈ l -> f x = Ok (g x)) -> rmap f l = Ok (g <$> l).
Proof. intros Hf. apply rmap_Ok, Forall2_fmap_r, Forall_Forall2_diag, Forall_forall. done. Qed.
Lemma rdiv_pos a b : 0 < b -> rdiv a b = Ok (a / b).
Proof. intros Hb. unfold rdiv. by rewrite (proj2 (Z.eqb_neq b 0)) by lia. Qed.
Lemma rcdiv_pos a b : 0 < b -> rcdiv a b = Ok (cdiv a b).
Proof. intros Hb. unfold rcdiv. by rewrite (proj2 (Z.eqb_neq b 0)) by lia. Qed.

(** ** Sums and maxima *)
Lemma zsum_cons x l : zsum (x :: l) = x + zsum l.
Proof. done. Qed.
Lemma zsum_app l k : zsum (l ++ k) = zsum l + zsum k.
Proof. induction l; simpl; lia. Qed.
Lemma zsum_perm l k : l ≡ₚ k -> zsum l = zsum k.
Proof. induction 1; simpl; lia. Qed.
Lemma zsum_mono l k : Forall2 Z.le l k -> zsum l <= zsum k.
Proof. induction 1; simpl; lia. Qed.
Lemma zsum_const {A} (f : A -> Z) c l : (forall x, x ∈ l -> f x = c) -> zsum (f <$> l) = c * zlen l.
Proof.
  induction l as [|x l IH]; intros Hf; [unfold zlen; simpl; lia |]. rewrite zlen_cons, fmap_cons, zsum_cons, Hf by (by left).
  rewrite IH; [lia |]. intros y Hy. apply Hf. by right.
Qed.
Lemma zsum_mul l c : zsum ((fun x => x * c) <$> l) = zsum l * c.
Proof. induction l as [|x l IH]; [done |]. rewrite fmap_cons, !zsum_cons, IH. lia. Qed.
Lemma zsum_nonneg l : Forall (fun y => 0 < y) l -> 0 <= zsum l.
Proof. induction 1; [done |]. rewrite zsum_cons. lia. Qed.
Lemma foldl_max_spec l : forall x, x <= foldl Z.max x l /\ (forall y, y ∈ l -> y <= foldl Z.max x l) /\ (foldl Z.max x l = x \/ foldl Z.max x l ∈ l).
Proof.
  induction l as [|z l IH]; intros x; simpl; [split_and!; [lia | by intros y ?%elem_of_nil | by left] |].
  destruct (IH (Z.max x z)) as (H1 & H2 & H3). split_and!; [lia | |].
  - intros y [-> | Hy]%elem_of_cons; [lia | auto].
  - destruct H3 as [-> | H3]; [| right; by right]. destruct (Z.max_spec x z) as [[_ ->] | [_ ->]]; [right; left | by left].
Qed.
Lemma foldl_min_spec l : forall x, foldl Z.min x l <= x /\ (forall y, y ∈ l -> foldl Z.min x l <= y) /\ (foldl Z.min x l = x \/ foldl Z.min x l ∈ l).
Proof.
  induction l as [|z l IH]; intros x; simpl; [split_and!; [lia | by intros y ?%elem_of_nil | by left] |].
  destruct (IH (Z.min x z)) as (H1 & H2 & H3). split_and!; [lia | |].
  - intros y [-> | Hy]%elem_of_cons; [lia | auto].
  - destruct H3 as [-> | H3]; [| right; by right]. destruct (Z.min_spec x z) as [[_ ->] | [_ ->]]; [by left | right; left].
Qed.
Lemma zmax_spec l m : zmax l = Ok m -> m ∈ l /\ forall y, y ∈ l -> y <= m.
Proof.
  destruct l as [|x l]; simpl; [done |]. intros [= <-]. destruct (foldl_max_spec l x) as (H1 & H2 & H3). split.
  - destruct H3 as [-> | H3]; [left | by right].
  - intros y [-> | Hy]%elem_of_cons; auto.
Qed.
Lemma zmin_spec l m : zmin l = Ok m -> m ∈ l /\ forall y, y ∈ l -> m <= y.
Proof.
  destruct l as [|x l]; simpl; [done |]. intros [= <-]. destruct (foldl_min_spec l x) as (H1 & H2 & H3). split.
  - destruct H3 as [-> | H3]; [left | by right].
  - intros y [-> | Hy]%elem_of_cons; auto.
Qed.
Lemma zmax_total l : l <> [] -> exists m, zmax l = Ok m.
Proof. destruct l; [done |]. intros _. by eexists. Qed.
Lemma zmin_total l : l <> [] -> exists m, zmin l = Ok m.
Proof. destruct l; [done |]. intros _. by eexists. Qed.
Lemma cdiv_mono a b n : 0 < n -> a <= b -> cdiv a n <= cdiv b n.
Proof. intros Hn Hab. apply cdiv_le_iff; [done |]. pose proof (cdiv_bounds b n Hn). lia. Qed.

(** ** The binary search *)
Section search.
Variables (fits : Z -> res bool) (f : Z -> bool).
Hypothesis fits_f : forall n, 1 <= n -> fits n = Ok (f n).
Hypothesis f_mono : forall n m, 1 <= n <= m -> f m = true -> f n = true.

(** [result] fits, everything between [result] and [left] is ruled out, and so is everything
    above [right]. *)
Lemma search_loop_spec fuel : forall left right result N,
  1 <= result -> result = left - 1 \/ (result = 1 /\ left = 1) -> result <= N -> right <= N -> f result = true ->
  (forall n, right < n <= N -> f n = false) -> right - left + 1 < 2 ^ Z.of_nat fuel ->
  exists r, search_loop fuel fits left right result = Ok r /\ 1 <= r <= N /\ f r = true /\ forall n, r < n <= N -> f n = false.
Proof.
  induction fuel as [|fuel IH]; intros left right result N Hr Hl HrN HN Hf Hout Hfuel; cbn [search_loop].
  - change (2 ^ Z.of_nat 0) with 1 in Hfuel. rewrite (proj2 (Z.leb_gt left right)) by lia. exists result. split_and!; try done; try lia.
    intros n Hn. apply Hout. lia.
  - destruct (Z.leb_spec left right) as [Hlr | Hlr]; [| exists result; split_and!; try done; try lia; intros n Hn; apply Hout; lia].
    pose proof (Z.div_mod (left + right) 2 ltac:(lia)) as Hdm. pose proof (Z.mod_pos_bound (left + right) 2 ltac:(lia)) as Hmb.
    set (mid := (left + right) / 2) in *. assert (left <= mid <= right) as Hmid by lia.
    rewrite Nat2Z.inj_succ, Z.pow_succ_r in Hfuel by lia.
    rewrite fits_f by lia. simpl. destruct (f mid) eqn:Em.
    + apply (IH (mid + 1) right mid N); try done; try lia.
    + apply (IH left (mid - 1) result N); try done; try lia.
      intros n Hn. destruct (f n) eqn:En; [| done]. rewrite (f_mono mid n) in Em; [done | lia | done].
Qed.

Lemma search_max_spec N : 1 <= N ->
  exists r, search_max fits N = Ok r /\ 0 <= r <= N /\ (r = 0 \/ f r = true) /\ forall n, r < n <= N -> f n = false.
Proof.
  intros HN. unfold search_max. rewrite fits_f by lia. cbn [rbind]. destruct (f 1) eqn:E1; cbn [negb].
  - destruct (search_loop_spec (search_fuel N) 1 N 1 N) as (r & Hr & Hb & Hf & Hmax); try done; try lia.
    + unfold search_fuel. rewrite Nat2Z.inj_succ, Z2Nat.id by apply Z.log2_nonneg. pose proof (Z.log2_spec N ltac:(lia)). lia.
    + exists r. split_and!; auto; lia.
  - exists 0. split_and!; auto; try lia. intros n Hn. destruct (f n) eqn:En; [| done]. rewrite (f_mono 1 n) in E1; [done | lia | done].
Qed.
End search.

(** ** Memory use grows with the model length *)

(** A call that returns for every argument, with a monotone result. *)
Definition rmono (F : Z -> res Z) : Prop := exists g, (forall n, F n = Ok (g n)) /\ forall n m, n <= m -> g n <= g m.

Lemma rmono_const F c : (forall n, F n = Ok c) -> rmono F.
Proof. intros HF. exists (fun _ => c). split; [done | lia]. Qed.
Lemma rmono_map F op G : rmono F -> (forall n, G n = (do x <- F n in Ok (op x))) -> (forall x y, x <= y -> op x <= op y) -> rmono G.
Proof. intros (g & H1 & H2) HG Hop. exists (fun n => op (g n)). split; [intros n; by rewrite HG, H1 | auto]. Qed.
Lemma rmono_list {A} (F : A -> Z -> res Z) l : (forall x, x ∈ l -> rmono (F x)) ->
  exists gs, (forall n, rmap (fun x => F x n) l = Ok (gs n)) /\ (forall n m, n <= m -> Forall2 Z.le (gs n) (gs m)) /\ forall n, length (gs n) = length l.
Proof.
  induction l as [|x l IH]; intros HF; [by exists (fun _ => []) |].
  destruct (HF x) as (g & H1 & H2); [by left |]. destruct IH as (gs & H3 & H4 & H5); [intros y Hy; apply HF; by right |].
  exists (fun n => g n :: gs n). split_and!.
  - intros n. simpl. by rewrite H1, H3.
  - intros n m Hn. constructor; auto.
  - intros n. simpl. by rewrite H5.
Qed.
Lemma rmono_sum {A} (F : A -> Z -> res Z) l G : (forall x, x ∈ l -> rmono (F x)) ->
  (forall n, G n = (do ns <- rmap (fun x => F x n) l in Ok (zsum ns))) -> rmono G.
Proof.
  intros HF HG. destruct (rmono_list F l HF) as (gs & H1 & H2 & _). exists (fun n => zsum (gs n)). split.
  - intros n. by rewrite HG, H1.
  - intros n m Hn. by apply zsum_mono, H2.
Qed.
Lemma foldl_max_mono l k x y : Forall2 Z.le l k -> x <= y -> foldl Z.max x l <= foldl Z.max y k.
Proof. intros Hlk. revert x y. induction Hlk; intros x' y' Hxy; simpl; [done |]. apply IHHlk. lia. Qed.
Lemma rmono_max {A} (F : A -> Z -> res Z) l G : l <> [] -> (forall x, x ∈ l -> rmono (F x)) ->
  (forall n, G n = (do ns <- rmap (fun x => F x n) l in zmax ns)) -> rmono G.
Proof.
  intros Hl HF HG. destruct (rmono_list F l HF) as (gs & H1 & H2 & H3).
  assert (forall n, gs n <> []) as Hne by (intros n E; specialize (H3 n); rewrite E in H3; by destruct l).
  exists (fun n => match gs n with [] => 0 | x :: k => foldl Z.max x k end). split.
  - intros n. rewrite HG, H1. simpl. specialize (Hne n). by destruct (gs n).
  - intros n m Hn. specialize (H2 n m Hn). pose proof (Hne n). inversion H2; [congruence |]. by apply foldl_max_mono.
Qed.

Section usage.
Context `{TorchDtypes}.
Implicit Types (cfg : VllmConfig) (s : LayerSpec).

(** A layer with blocks of tokens and pages of bytes, in a configuration that supports it. *)
Definition layer_ok s : Prop := 0 < block_size_of s /\ exists p, page_size_bytes s = Ok p /\ 0 < p.
Definition usage_ok cfg s : Prop := layer_ok s /\ (is_sliding s = true -> decode_context_parallel_size cfg = 1).

(** The number of pages one request of the largest model length needs in a layer. *)
Definition pages_needed cfg s : Z :=
  match s with
  | LFull _ a _ _ _ =>
    let ranks := decode_context_parallel_size cfg * prefill_context_parallel_size cfg in
    cdiv (if 1 <? ranks then cdiv (v_max_model_len cfg) ranks else v_max_model_len cfg) (at_block_size a)
  | LChunkedLocal a k => chunked_max_admission (at_block_size a) k (v_max_num_batched_tokens cfg) (v_max_model_len cfg)
  | LSliding _ a w => swa_max_admission (at_block_size a) w (v_max_num_batched_tokens cfg) (v_max_model_len cfg)
  | LEncoderOnly _ => 0
  | LCross a => cdiv (max_num_encoder_input_tokens cfg) (at_block_size a)
  | LMamba m =>
    if bool_decide (mamba_cache_mode cfg = "all"%string) then cdiv (v_max_model_len cfg) (mb_block_size m)
    else if bool_decide (mamba_cache_mode cfg = "align"%string) then 2 + mb_num_speculative_blocks m
    else 1 + mb_num_speculative_blocks m
  end.
Lemma layer_max_memory_eq cfg s p : usage_ok cfg s -> page_size_bytes s = Ok p -> layer_max_memory cfg s = Ok (pages_needed cfg s * p).
Proof.
  intros [[Hb _] Hs] Hp. unfold layer_max_memory, full_max_memory, chunked_max_memory, sliding_max_memory, cross_max_memory, mamba_max_memory, pages_needed. rewrite Hp.
  destruct s as [c a v w k|a k|c a w|a|a|m]; simpl in Hb; cbn [rbind]; rewrite ?rcdiv_pos by done; cbn [rbind]; try done.
  - by rewrite Hs.
  - case_bool_decide; [done |]. case_bool_decide; f_equal; ring.
Qed.
Lemma pages_needed_mono cfg s n m : usage_ok cfg s -> n <= m -> pages_needed (with_max_model_len n cfg) s <= pages_needed (with_max_model_len m cfg) s.
Proof.
  intros [[Hb _] _] Hn. unfold pages_needed. cbn [decode_context_parallel_size prefill_context_parallel_size v_max_num_batched_tokens v_max_model_len max_num_encoder_input_tokens mamba_cache_mode with_max_model_len].
  destruct s as [c a v w k|a k|c a w|a|a|f]; simpl in Hb; try done.
  - set (r := _ * _). apply cdiv_mono; [done |]. destruct (Z.ltb_spec 1 r); [apply cdiv_mono; lia | done].
  - apply cdiv_mono; lia.
  - unfold swa_max_admission. apply Z.add_le_mono_r. apply cdiv_mono; lia.
  - case_bool_decide; [by apply cdiv_mono | done].
Qed.
Lemma layer_max_memory_mono cfg s : usage_ok cfg s -> rmono (fun n => layer_max_memory (with_max_model_len n cfg) s).
Proof.
  intros Hs. pose proof Hs as [(_ & p & Hp & Hpos) _]. exists (fun n => pages_needed (with_max_model_len n cfg) s * p). split.
  - intros n. by apply layer_max_memory_eq.
  - intros n m Hn. apply Z.mul_le_mono_nonneg_r; [lia | by apply pages_needed_mono].
Qed.
Lemma cdiv_mul k p : 0 < p -> cdiv (k * p) p = k.
Proof. intros Hp. pose proof (cdiv_bounds (k * p) p Hp). nia. Qed.
Lemma layer_max_pages_eq cfg s : usage_ok cfg s -> layer_max_pages cfg s = Ok (pages_needed cfg s).
Proof.
  intros Hs. pose proof Hs as [(_ & p & Hp & Hpos) _]. unfold layer_max_pages. rewrite (layer_max_memory_eq cfg s p Hs Hp), Hp. cbn [rbind].
  by rewrite rcdiv_pos, cdiv_mul.
Qed.
Lemma layer_max_pages_mono cfg s : usage_ok cfg s -> rmono (fun n => layer_max_pages (with_max_model_len n cfg) s).
Proof.
  intros Hs. exists (fun n => pages_needed (with_max_model_len n cfg) s). split; [intros n; by apply layer_max_pages_eq | intros n m Hn; by apply pages_needed_mono].
Qed.

(** The groups of a worker. *)
Definition group_ok cfg (g : GroupSpec) : Prop :=
  match g with GLayer s => usage_ok cfg s | GUniform _ us => us <> [] /\ Forall (fun x => usage_ok cfg x.2) us end.
Lemma page_sizes_pos cfg (us : LayerSpecs) l : Forall (fun x => usage_ok cfg x.2) us -> rmap (fun x => page_size_bytes x.2) us = Ok l -> Forall (fun y => 0 < y) l.
Proof.
  intros Hus Hl%rmap_Ok. induction Hl as [|x y us l Hx Hl IH]; [done |]. inversion Hus as [|? ? [(_ & p & Hp & ?) _] ?]; subst.
  constructor; [congruence | auto].
Qed.
Lemma page_sizes_total cfg (us : LayerSpecs) : Forall (fun x => usage_ok cfg x.2) us -> exists l, rmap (fun x => page_size_bytes x.2) us = Ok l.
Proof. intros Hus. rewrite Forall_forall in Hus. apply rmap_total. intros x Hx. destruct (Hus x Hx) as [(_ & p & Hp & _) _]. by exists p. Qed.
Lemma group_page_pos cfg g : group_ok cfg g -> exists p, group_page_size g = Ok p /\ 0 < p.
Proof.
  destruct g as [s|n us]; [intros [(_ & p & Hp) _]; by exists p |]. intros [Hne Hus]. simpl.
  destruct (page_sizes_total cfg us Hus) as [l Hl]. rewrite Hl. exists (zsum l). split; [done |].
  pose proof (page_sizes_pos cfg us l Hus Hl) as Hpos. apply rmap_Ok in Hl. destruct us; [done |]. inversion Hl as [|? y ? k Hy Hk]; subst.
  inversion Hpos as [|? ? Hy0 Hk0]; subst. pose proof (zsum_nonneg k Hk0). rewrite zsum_cons. lia.
Qed.
Lemma max_pages_mono cfg us : us <> [] -> Forall (fun x => usage_ok cfg x.2) us ->
  rmono (fun n => max_memory_usage_pages (with_max_model_len n cfg) us).
Proof.
  intros Hne Hus. rewrite Forall_forall in Hus. apply (rmono_max (fun x n => layer_max_pages (with_max_model_len n cfg) x.2) us); [done | | done].
  intros x Hx. by apply layer_max_pages_mono, Hus.
Qed.
Lemma group_max_memory_mono cfg g : group_ok cfg g -> rmono (fun n => group_max_memory (with_max_model_len n cfg) g).
Proof.
  intros Hg. pose proof (group_page_pos cfg g Hg) as (p & Hp & Hpos). destruct g as [s|bs us]; [by apply layer_max_memory_mono |].
  destruct Hg as [Hne Hus]. apply (rmono_map _ (fun x => x * p) _ (max_pages_mono cfg us Hne Hus)); [| intros; by apply Z.mul_le_mono_nonneg_r; [lia |]].
  intros n. cbn [group_max_memory]. rewrite Hp. done.
Qed.

Lemma all_uniform_spec gs l : all_uniform gs = Some l -> Forall2 (fun g x => exists bs e, g = mkLayerGroup x.1 (GUniform bs x.2) e) gs l.
Proof.
  revert l. induction gs as [|[names [s|bs us] e] gs IH]; intros l; simpl; [by intros [= <-] | done |].
  destruct (all_uniform gs) as [l'|]; [| done]. intros [= <-]. constructor; [by exists bs, e | by apply IH].
Qed.
Lemma layout_spec gs :
  match layout_of gs with
  | OneUniform names us => exists bs e, gs = [mkLayerGroup names (GUniform bs us) e]
  | ManyUniform l => Forall2 (fun g x => exists bs e, g = mkLayerGroup x.1 (GUniform bs x.2) e) gs l
  | SharedPools => True
  end.
Proof.
  unfold layout_of. destruct gs as [|[names [s|bs us] e] [|g gs]]; try by (destruct (all_uniform _) eqn:E; [by apply all_uniform_spec |]).
  by exists bs, e.
Qed.

(** The bytes and the number of layer tuples are not negative. *)
Lemma num_layer_tuples_nonneg us n : get_num_layer_tuples us = Ok n -> 0 <= n.
Proof.
  intros E. unfold get_num_layer_tuples in E. apply rbind_Ok in E as ([|z zs] & _ & E); [done |].
  apply zmax_spec in E as [(z' & -> & _)%list_elem_of_fmap _]. apply zlen_nonneg.
Qed.
Lemma layer_tuples_nonneg cfg l x : Forall (fun y => y.2 <> [] /\ Forall (fun z => usage_ok cfg z.2) y.2) l -> layer_tuples l = Ok x -> 0 <= x.1 /\ 0 <= x.2.
Proof.
  intros Hl E. unfold layer_tuples in E. rinv. subst x. rewrite Forall_forall in Hl. split.
  - unfold get_page_sizes in E1. rinv. subst. apply zsum_nonneg. assert (x0 ∈ l) as Hin.
    { unfold py_index in E0. simpl in E0. destruct l; [done |]. simpl in E0. injection E0 as <-. left. }
    pose proof (page_sizes_pos cfg _ _ (proj2 (Hl _ Hin)) E) as Hp. apply Forall_forall. rewrite Forall_forall in Hp. intros y Hy. rewrite elem_of_remove_dups in Hy. by apply Hp.
  - apply zmax_spec in E3 as [Hin _]. apply rmap_Ok in E2. apply list_elem_of_lookup in Hin as [i Hi].
    destruct (Forall2_lookup_r _ _ _ _ _ E2 Hi) as (y & _ & Ey). by eapply num_layer_tuples_nonneg.
Qed.

Lemma uniform_page_pos cfg gs p : Forall (fun g => group_ok cfg (group_spec g)) gs -> get_uniform_page_size (group_spec <$> gs) = Ok p -> 0 < p.
Proof.
  intros Hgs E. rewrite Forall_forall in Hgs. unfold get_uniform_page_size in E. apply rbind_Ok in E as (l & Hl & E).
  destruct (remove_dups l) as [|p0 [|]] eqn:Ed; rinv. subst. assert (p ∈ l) as Hin by (apply elem_of_remove_dups; rewrite Ed; left).
  apply rmap_Ok in Hl. apply list_elem_of_lookup in Hin as [i Hi]. destruct (Forall2_lookup_r _ _ _ _ _ Hl Hi) as (g & Hg & Eg).
  apply list_lookup_fmap_Some in Hg as (g' & -> & Hg'). destruct (group_page_pos cfg (group_spec g')) as (q & Hq & ?); [by eapply Hgs, list_elem_of_lookup_2 | congruence].
Qed.
Lemma max_memory_from_groups_mono cfg gs b : gs <> [] -> Forall (fun g => group_ok cfg (group_spec g)) gs -> _pool_bytes_per_block gs = Ok b ->
  rmono (fun n => _max_memory_usage_bytes_from_groups (with_max_model_len n cfg) gs).
Proof.
  intros Hne Hgs Hb. unfold _pool_bytes_per_block in Hb. unfold _max_memory_usage_bytes_from_groups.
  assert (forall A (x : A) (k : A), match gs with [] => x | _ => k end = k) as Hm by (by destruct gs). clear Hne.
  pose proof (layout_spec gs) as Hlay. destruct (layout_of gs) as [names us|l|] eqn:El.
  - destruct Hlay as (bs & e & ->). apply Forall_singleton in Hgs as [_ Hus]. rewrite Forall_forall in Hus.
    apply (rmono_sum (fun x n => layer_max_memory (with_max_model_len n cfg) x.2) us); [| done]. intros x Hx. by apply layer_max_memory_mono, Hus.
  - rinv. apply (rmono_sum (fun y n => do pages <- max_memory_usage_pages (with_max_model_len n cfg) y.2 in Ok (x.2 * pages * x.1)) l); [| intros n; rewrite Hm, E; done].
    assert (Forall (fun y => y.2 <> [] /\ Forall (fun z => usage_ok cfg z.2) y.2) l) as Hl.
    { clear -Hgs Hlay. induction Hlay as [|g y gs l (bs & e & ->) Hl IH]; [done |]. inversion Hgs; subst. constructor; auto. }
    destruct (layer_tuples_nonneg cfg l x Hl E) as [H1 H2]. rewrite Forall_forall in Hl. intros y Hy. destruct (Hl y Hy) as [Hn Hu].
    apply (rmono_map _ (fun p => x.2 * p * x.1) _ (max_pages_mono cfg y.2 Hn Hu)); [done |]. intros p q Hpq. apply Z.mul_le_mono_nonneg_r; [done |]. by apply Z.mul_le_mono_nonneg_l.
  - rinv. pose proof (uniform_page_pos cfg gs x0 Hgs E0) as Hpos. rewrite Forall_forall in Hgs.
    assert (0 <= x) as Hx.
    { unfold group_size_of in E. apply zmax_spec in E as [(g & -> & _)%list_elem_of_fmap _]. apply zlen_nonneg. }
    assert (rmono (fun n => do blocks <- rmap (fun g => do m <- group_max_memory (with_max_model_len n cfg) (group_spec g) in rcdiv m x0) gs in Ok (zsum blocks))) as Hs.
    { apply (rmono_sum (fun g n => do m <- group_max_memory (with_max_model_len n cfg) (group_spec g) in rcdiv m x0) gs); [| done]. intros g Hg.
      apply (rmono_map _ (fun m => cdiv m x0) _ (group_max_memory_mono cfg _ (Hgs g Hg))); [| intros; by apply cdiv_mono].
      intros n. destruct (group_max_memory _ _); [| done]. simpl. by rewrite rcdiv_pos. }
    apply (rmono_map _ (fun z => x * x0 * z) _ Hs); [| intros; apply Z.mul_le_mono_nonneg_l; nia].
    intros n. rewrite Hm, E, E0. cbn [rbind]. by destruct (rmap _ gs).
Qed.
End usage.
