(* ===== verification/SizingGroups.v ===== *)
(** * SizingGroups
    The grouping of layers: strided splitting is a partition, every grouping strategy keeps
    the layers, and the groups it returns have one page size. *)
From Stdlib Require Import Sorting.Sorted.
From S2P Require Import Prelude OrdDict CacheHit Coordinator KVCacheInterface KVCacheSizing SizingInv.

(** ** Splitting a list *)
Lemma concat_filter_perm {A} (f : A -> Z) (ks : list Z) : forall L,
  NoDup ks -> (forall x, x ∈ L -> f x ∈ ks) -> concat ((fun i => filter (fun x => f x = i) L) <$> ks) ≡ₚ L.
Proof.
  induction ks as [|k ks IH]; intros L Hnd Hin; simpl.
  - destruct L as [|x L]; [done |]. specialize (Hin x (list_elem_of_here _ _)). by apply elem_of_nil in Hin.
  - apply NoDup_cons in Hnd as [Hk Hnd].
    transitivity (filter (fun x => f x = k) L ++ filter (fun x => f x <> k) L); [| apply filter_app_complement].
    apply Permutation_app_head. transitivity (concat ((fun i => filter (fun x => f x = i) (filter (fun x => f x <> k) L)) <$> ks)); [| apply (IH (filter (fun x => f x <> k) L) Hnd)].
    + apply Permutation_refl'. f_equal. apply list_fmap_ext. intros j i Hi. apply list_elem_of_lookup_2 in Hi.
      rewrite list_filter_filter. apply list_filter_iff. intros x. split; [intros ->; split; [done | by intros ->] | by intros [? _]].
    + intros x [Hx Hxl]%list_elem_of_filter. by apply Hin, elem_of_cons in Hxl as [? | ?].
Qed.
Lemma concat_fmap {A B} (g : A -> B) (ll : list (list A)) : concat ((fun l : list A => fmap (M := list) g l) <$> ll) = fmap (M := list) g (concat ll).
Proof. induction ll as [|l ll IH]; [done |]. rewrite fmap_cons. simpl. by rewrite IH, fmap_app. Qed.
Lemma concat_perm {A} (l k : list (list A)) : l ≡ₚ k -> concat l ≡ₚ concat k.
Proof. induction 1; simpl; [done | by apply Permutation_app_head | by rewrite !app_assoc, (Permutation_app_comm x) | by etransitivity]. Qed.

Lemma py_stride_perm {A} (l : list A) n : 0 < n -> concat ((fun i => py_stride l i n) <$> range n) ≡ₚ l.
Proof.
  intros Hn. set (L := zip (range (zlen l)) l).
  replace ((fun i => py_stride l i n) <$> range n) with ((fun k : list (Z * A) => k.*2) <$> ((fun i => filter (fun x => x.1 mod n = i) L) <$> range n)); [| by rewrite <- list_fmap_compose].
  rewrite concat_fmap, (concat_filter_perm (fun x => x.1 mod n) (range n) L).
  - subst L. rewrite snd_zip; [done |]. unfold range. rewrite length_seqZ. unfold zlen. lia.
  - apply NoDup_seqZ.
  - intros x _. apply elem_of_seqZ. pose proof (Z.mod_pos_bound x.1 n Hn). lia.
Qed.
Lemma cdiv_pos a b : 0 < b -> 0 < a -> 0 < cdiv a b.
Proof. intros Hb Ha. pose proof (cdiv_bounds a b Hb). nia. Qed.
Lemma zlen_pos {A} (l : list A) : l <> [] -> 0 < zlen l.
Proof. destruct l; [done |]. unfold zlen. simpl. lia. Qed.
Lemma split_layers_perm group_size layers : 0 < group_size -> layers <> [] -> concat (split_layers group_size layers) ≡ₚ layers.
Proof. intros Hg Hl. apply py_stride_perm. apply cdiv_pos; [done |]. by apply zlen_pos. Qed.

(** ** Layers by spec *)
Definition add_layer (d : list (LayerSpec * list string)) (x : string * LayerSpec) := od_set x.2 (default [] (od_get x.2 d) ++ [x.1]) d.
Lemma od_set_concat {K V} `{EqDecision K} (k : K) (v : V) (d : list (K * list V)) :
  concat (od_set k (default [] (od_get k d) ++ [v]) d).*2 ≡ₚ v :: concat d.*2.
Proof.
  induction d as [|[k' l] d IH]; simpl; [done |]. case_decide as Hk; simpl.
  - rewrite <- app_assoc. simpl. by rewrite Permutation_middle.
  - rewrite IH. by rewrite Permutation_middle.
Qed.
Lemma od_set_elem {K V} `{EqDecision K} (k : K) (v : V) (d : list (K * list V)) k' l :
  (k', l) ∈ od_set k (default [] (od_get k d) ++ [v]) d -> (k', l) ∈ d \/ (k' = k /\ (l = [v] \/ exists l0, (k, l0) ∈ d /\ l = l0 ++ [v])).
Proof.
  induction d as [|[k1 l1] d IH]; simpl; [intros [[= -> ->] | ?%elem_of_nil]%elem_of_cons; [right; auto | done] |].
  case_decide as Hk; simpl.
  - subst k1. intros [[= -> ->] | Hin]%elem_of_cons; [right | left; by right]. split; [done |]. right. exists l1. split; [left | done].
  - intros [[= -> ->] | Hin]%elem_of_cons; [left; left |]. destruct (IH Hin) as [? | (-> & [-> | (l0 & Hl0 & ->)])]; [left; by right | right; auto |].
    right. split; [done |]. right. exists l0. split; [by right | done].
Qed.

Lemma same_type_layers_spec (specs : LayerSpecs) :
  concat (same_type_layers specs).*2 ≡ₚ od_keys specs /\
  forall s names, (s, names) ∈ same_type_layers specs -> names <> [] /\ forall n, n ∈ names -> (n, s) ∈ specs.
Proof.
  unfold same_type_layers. change (fun d x => od_set x.2 (default [] (od_get x.2 d) ++ [x.1]) d) with add_layer.
  induction specs as [|[n s] specs IH] using rev_ind; [split; [done | by intros s names ?%elem_of_nil] |].
  rewrite foldl_app. destruct IH as [IH1 IH2]. split.
  - unfold add_layer at 1. simpl. rewrite od_set_concat, IH1. unfold od_keys. rewrite fmap_app. simpl. by rewrite Permutation_app_comm.
  - intros s' names Hin. apply od_set_elem in Hin as [Hin | (-> & [-> | (l0 & Hl0 & ->)])]; simpl in *.
    + destruct (IH2 _ _ Hin) as [? Hn]. split; [done |]. intros m Hm. apply elem_of_app. auto.
    + split; [done |]. intros m ->%list_elem_of_singleton. apply elem_of_app. right. by left.
    + destruct (IH2 _ _ Hl0) as [? Hn]. split; [by destruct l0 |]. intros m [Hm | ->%list_elem_of_singleton]%elem_of_app; apply elem_of_app; [auto | right; by left].
Qed.

(** ** The chunk size with the least padding *)
Definition no_worse (values : list Z) (d x : Z) : Prop := padding values d < padding values x \/ (padding values d = padding values x /\ x <= d).
Lemma gcd_fold values ds : forall best,
  StronglySorted Z.lt (best :: ds) ->
  exists d, foldl (gcd_step values) (best, Some (padding values best)) ds = (d, Some (padding values d)) /\ d ∈ best :: ds /\
    forall x, x ∈ best :: ds -> no_worse values d x.
Proof.
  induction ds as [|y ds IH]; intros best Hs; simpl.
  - exists best. split_and!; [done | left |]. intros x ->%list_elem_of_singleton. right. done.
  - apply StronglySorted_inv in Hs as [Hs Hlt]. pose proof Hs as Hs'. apply StronglySorted_inv in Hs' as [Hss Hy]. inversion Hlt as [|? ? Hby Hb]; subst.
    unfold gcd_step at 2. cbn [fst snd].
    destruct ((padding values y <? padding values best) || ((padding values y =? padding values best) && (best <? y))) eqn:E.
    + destruct (IH y Hs) as (d & Hd & Hin & Hbest). exists d. split_and!; [done | by right |].
      intros x [-> | Hx]%elem_of_cons; [| by apply Hbest]. specialize (Hbest y (list_elem_of_here _ _)). unfold no_worse in *.
      apply orb_true_iff in E as [E%Z.ltb_lt | [E%Z.eqb_eq _]%andb_true_iff]; lia.
    + destruct (IH best) as (d & Hd & Hin & Hbest); [by constructor |]. exists d. split_and!; [done | apply elem_of_cons in Hin as [-> | ?]; [left | right; by right] |].
      intros x [-> | [-> | Hx]%elem_of_cons]%elem_of_cons; [apply Hbest; left | | apply Hbest; by right].
      specialize (Hbest best (list_elem_of_here _ _)). unfold no_worse in *. apply orb_false_iff in E as [E1%Z.ltb_ge E2].
      rewrite (proj2 (Z.ltb_lt best y)) in E2 by done. rewrite andb_true_r in E2. apply Z.eqb_neq in E2. lia.
Qed.
Lemma seqZ_sorted n : forall m, StronglySorted Z.lt (seqZ m (Z.of_nat n)).
Proof.
  induction n as [|n IH]; intros m; [constructor |]. rewrite Nat2Z.inj_succ, seqZ_cons by lia. rewrite Z.pred_succ. constructor; [apply IH |].
  apply Forall_forall. intros x Hx%elem_of_seqZ. lia.
Qed.
Lemma approximate_gcd_spec values lb d : _approximate_gcd values lb = Ok d ->
  let lo := Z.max 1 (default 1 lb) in
  lo <= d /\ forall x, lo <= x -> (exists v, v ∈ values /\ x <= v) -> no_worse values d x.
Proof.
  unfold _approximate_gcd. set (lo := Z.max 1 (default 1 lb)). destruct values as [|v values]; [done |].
  destruct (existsb _ _); [done |]. intros E. rinv. apply zmax_spec in E0 as [Hin Hmax].
  destruct (Z.ltb_spec x lo) as [Hlo | Hlo]; rinv; subst d.
  - split; [done |]. intros y Hy (w & Hw & ?). specialize (Hmax w Hw). lia.
  - rewrite seqZ_cons by lia. cbn [foldl]. change (gcd_step (v :: values) (lo, None) lo) with (lo, Some (padding (v :: values) lo)).
    destruct (gcd_fold (v :: values) (seqZ (Z.succ lo) (Z.pred (x - lo + 1))) lo) as (d & Hd & Hdin & Hbest).
    + rewrite <- seqZ_cons by lia. replace (x - lo + 1) with (Z.of_nat (Z.to_nat (x - lo + 1))) by lia. apply seqZ_sorted.
    + rewrite Hd. cbn [fst]. split.
      * apply elem_of_cons in Hdin as [-> | Hdin%elem_of_seqZ]; lia.
      * intros y Hy (w & Hw & ?). apply Hbest. specialize (Hmax w Hw).
        destruct (decide (y = lo)) as [-> | Hne]; [left |]. right. apply elem_of_seqZ. lia.
Qed.
Lemma approximate_gcd_total values lb : values <> [] -> Forall (fun x => 0 < x) values -> exists d, _approximate_gcd values lb = Ok d.
Proof.
  intros Hne Hpos. unfold _approximate_gcd. destruct values as [|v values]; [done |].
  replace (existsb (fun x => x <=? 0) (v :: values)) with false.
  - cbn [zmax rbind]. case_match; eauto.
  - symmetry. apply not_true_is_false. intros (x & Hx & Hle%Z.leb_le)%existsb_exists. rewrite Forall_forall in Hpos.
    apply list_elem_of_In, Hpos in Hx. lia.
Qed.

(** ** Groups keep the layers *)
Section groups.
Context `{TorchDtypes}.
Implicit Types (specs : LayerSpecs) (gs : list LayerGroup).

Abbreviation grouped_names gs := (concat (layer_names <$> gs)).

Definition group_of specs (names : list string) (g : LayerGroup) : Prop :=
  exists m ls, g = mkLayerGroup names (GLayer m) false /\ rmap (spec_at specs) names = Ok ls /\ merge ls = Ok m.
Lemma create_groups_spec specs names : forall gs, create_kv_cache_group_specs specs names = Ok gs -> Forall2 (group_of specs) names gs.
Proof.
  induction names as [|ns names IH]; intros gs E; simpl in E; rinv; subst; [done |]. constructor; [by exists x0, x | by apply IH].
Qed.
Lemma group_of_names specs names gs : Forall2 (group_of specs) names gs -> layer_names <$> gs = names.
Proof. induction 1 as [|ns g names gs (m & ls & -> & _) Hl IH]; [done |]. rewrite fmap_cons. by rewrite IH. Qed.

Lemma uniform_spec_names specs gs : _get_kv_cache_groups_uniform_spec specs = Ok gs -> grouped_names gs ≡ₚ od_keys specs.
Proof. intros E%create_groups_spec%group_of_names. rewrite E. simpl. by rewrite app_nil_r. Qed.
Lemma choose_group_size_pos sizes n : Forall (fun x => 0 < x) sizes -> choose_group_size sizes = Ok n -> 0 < n.
Proof.
  intros Hs E. unfold choose_group_size in E. rinv. rewrite Forall_forall in Hs. apply zmin_spec in E0 as [H1 _]. apply zmax_spec in E1 as [H2 _].
  apply Hs in H1, H2. by destruct (_ <? _); subst.
Qed.
Lemma concat_concat {A} (ll : list (list (list A))) : concat (concat ll) = concat ((fun l => concat l) <$> ll).
Proof. induction ll as [|l ll IH]; [done |]. rewrite fmap_cons. simpl. by rewrite concat_app, IH. Qed.
Lemma concat_perm_ext {A B} (f g : A -> list B) l : (forall x, x ∈ l -> f x ≡ₚ g x) -> concat (f <$> l) ≡ₚ concat (g <$> l).
Proof.
  induction l as [|x l IH]; intros Hfg; [done |]. rewrite !fmap_cons. simpl. rewrite (Hfg x) by (by left). rewrite IH; [done |].
  intros y Hy. apply Hfg. by right.
Qed.
Lemma uniform_page_size_names specs gs : _get_kv_cache_groups_uniform_page_size specs = Ok gs -> grouped_names gs ≡ₚ od_keys specs.
Proof.
  intros E. unfold _get_kv_cache_groups_uniform_page_size in E. rinv. apply create_groups_spec, group_of_names in E. rewrite E.
  destruct (same_type_layers_spec specs) as [Hp Hs]. rewrite <- Hp, concat_concat, <- list_fmap_compose. apply concat_perm_ext.
  intros [s names] Hin. destruct (Hs s names Hin) as [Hne _]. apply split_layers_perm; [| done].
  eapply choose_group_size_pos; [| exact E0]. apply Forall_forall. intros n ([s' names'] & -> & Hin')%list_elem_of_fmap.
  apply zlen_pos. by eapply Hs.
Qed.

(** Changing the specs of layers keeps the names. *)
Lemma rmap_names (f : LayerSpec -> res LayerSpec) specs specs' :
  rmap (fun x => do s <- f x.2 in Ok (x.1, s)) specs = Ok specs' -> od_keys specs' = od_keys specs.
Proof.
  intros E%rmap_Ok. unfold od_keys. induction E as [|[n s] y specs specs' Hx Hl IH]; [done |]. simpl in Hx. rinv. subst. rewrite !fmap_cons. by rewrite IH.
Qed.
Lemma unify_page_size_names specs specs' : unify_kv_cache_spec_page_size specs = Ok specs' -> od_keys specs' = od_keys specs.
Proof.
  intros E. unfold unify_kv_cache_spec_page_size in E. rinv. destruct (_ <=? 1); [by rinv; subst |]. rinv. by eapply rmap_names.
Qed.
Lemma unify_hybrid_cases specs specs' : unify_hybrid_kv_cache_specs specs = Ok specs' ->
  specs' = specs \/ exists ubs, rmap (fun x => do s <- unify_one ubs x.2 in Ok (x.1, s)) specs = Ok specs'.
Proof.
  intros E. unfold unify_hybrid_kv_cache_specs in E. rinv. destruct x; [rinv; by left |]. rinv. destruct x1; rinv. subst. destruct (_ && _); [| rinv; by left].
  right. by exists x.
Qed.

(** *** Groups of layer tuples *)
Lemma zip_rows_perm rows : forall k, (forall r, r ∈ rows -> length r = k) ->
  concat ((fun j => omap (fun row : list string => row !! j) rows) <$> seq 0 k) ≡ₚ concat rows.
Proof.
  induction rows as [|r rows IH]; intros k Hk.
  - simpl. induction (seq 0 k); [done |]. rewrite fmap_cons. done.
  - assert (length r = k) as <- by (apply Hk; left). simpl. rewrite <- (IH (length r)) at 1 by (intros r' Hr'; apply Hk; by right).
    assert (r = omap (fun j => r !! j) (seq 0 (length r))) as Hr.
    { clear. assert (forall i, omap (fun j => (replicate i "" ++ r) !! j) (seq i (length r)) = r) as Hi.
      { induction r as [|x r IH]; intros i; [done |]. simpl. rewrite lookup_app_r by (rewrite length_replicate; lia). rewrite length_replicate, Nat.sub_diag. simpl. f_equal.
        specialize (IH (S i)). etransitivity; [| exact IH]. apply list_omap_ext. apply Forall2_same_length_lookup. split; [done |].
        intros p a b Ha Hb. rewrite Ha in Hb. injection Hb as <-. apply lookup_seq in Ha as [-> Hp].
        rewrite !lookup_app_r by (rewrite length_replicate; lia). rewrite !length_replicate. replace (S i + p - i)%nat with (S (S i + p - S i)) by lia. done. }
      by rewrite <- (Hi 0%nat) at 1. }
    rewrite Hr at 2. generalize (seq 0 (length r)). intros js. induction js as [|j js IHj]; [done |]. rewrite !fmap_cons. simpl.
    rewrite IHj. destruct (r !! j); simpl; [| solve_Permutation]. constructor. solve_Permutation.
Qed.

Lemma pad_layers_names sizes specs : forall acc x, pad_layers sizes specs acc = Ok x -> concat x.2.*2 ≡ₚ concat acc.2.*2 ++ od_keys specs.
Proof.
  induction specs as [|[n s] specs IH]; intros acc x E; simpl in E; rinv; [subst; by rewrite app_nil_r |].
  apply IH in E. rewrite E. cbn [fst snd]. rewrite od_set_concat. simpl. solve_Permutation.
Qed.
Lemma one_value_eq {A B} `{EqDecision B} (f : A -> B) l : one_value f l = true -> exists v, l <> [] /\ forall x, x ∈ l -> f x = v.
Proof.
  unfold one_value. destruct (remove_dups (f <$> l)) as [|v [|]] eqn:E; try done. intros _. exists v. split; [by intros -> |].
  intros x Hx. assert (f x ∈ remove_dups (f <$> l)) as Hin by (apply elem_of_remove_dups, list_elem_of_fmap; eauto).
  rewrite E in Hin. by apply list_elem_of_singleton in Hin.
Qed.
Lemma tuple_groups_names specs names : forall gs, tuple_groups specs names = Ok gs -> layer_names <$> gs = names.
Proof.
  induction names as [|ns names IH]; intros gs E; simpl in E; rinv; [by subst |]. destruct x0; [| done]. rinv. subst. rewrite fmap_cons. by rewrite (IH _ E2).
Qed.
Lemma swa_groups_names sizes n specs gs : 0 < n -> swa_groups sizes n specs = Ok gs -> grouped_names gs ≡ₚ od_keys specs.
Proof.
  intros Hn E. unfold swa_groups in E. rinv. apply tuple_groups_names in E. rewrite E. clear E. apply pad_layers_names in E4. cbn [snd concat fmap list_fmap app] in E4. rewrite <- E4. clear E4.
  apply one_value_eq in E5 as (k & Hne & Hk). unfold zip_rows. destruct x3.2.*2 as [|r rows] eqn:Er; [done |].
  rewrite rcdiv_pos in E6 by done. injection E6 as <-. set (tuples := (fun j => _) <$> seq 0 (length r)).
  assert (concat tuples ≡ₚ concat (r :: rows)) as <-.
  { subst tuples. apply zip_rows_perm. intros r' Hr'. pose proof (Hk r' Hr'). pose proof (Hk r (list_elem_of_here _ _)). unfold zlen in *. lia. }
  destruct (decide (r = [])) as [-> | Hr]; [subst tuples; replace (cdiv (zlen []) n) with 0 by (unfold cdiv; rewrite Z.div_0_l; lia); done |].
  replace (concat _) with (concat (concat ((fun i => py_stride tuples i (cdiv (zlen r) n)) <$> range (cdiv (zlen r) n)))) by (by rewrite concat_concat, <- list_fmap_compose).
  apply concat_perm, py_stride_perm, cdiv_pos; [done | by apply zlen_pos].
Qed.
Lemma uniform_groups_names (l : list LayerSpecs) gs : _get_kv_cache_groups_uniform_groups l = Ok gs -> grouped_names gs ≡ₚ concat (od_keys <$> l).
Proof.
  intros E. unfold _get_kv_cache_groups_uniform_groups in E. destruct l as [|full swa]; [done |]. rinv. subst. rewrite !fmap_cons. simpl. apply Permutation_app_head.
  apply approximate_gcd_spec in E3 as [Hd _]. apply rmap_Ok in E7. clear -E7 Hd. induction E7 as [|sp g swa gs Hsp Hl IH]; [done |].
  simpl. rewrite fmap_app, concat_app, IH. apply Permutation_app_tail. eapply swa_groups_names; [| exact Hsp]. lia.
Qed.

(** The sliding-window layers by block size and window. *)
Lemma od_set_keys_perm {K} `{EqDecision K} (k : K) (n : string) s (d : list (K * LayerSpecs)) : n ∉ concat (od_keys <$> d.*2) ->
  concat (od_keys <$> (od_set k (od_set n s (default [] (od_get k d))) d).*2) ≡ₚ n :: concat (od_keys <$> d.*2).
Proof.
  assert (forall l : LayerSpecs, n ∉ od_keys l -> od_keys (od_set n s l) = od_keys l ++ [n]) as Hset.
  { unfold od_keys. induction l as [|[n' s'] l IH]; [done |]. rewrite fmap_cons, not_elem_of_cons. intros [Hn Hl]. cbn [od_set]. rewrite decide_False by done. rewrite !fmap_cons, IH by done. done. }
  induction d as [|[k' l] d IH]; simpl; [done |]. rewrite not_elem_of_app. intros [Hl Hd]. case_decide as Hk; simpl.
  - rewrite Hset by done. rewrite <- app_assoc. simpl. by rewrite Permutation_middle.
  - rewrite IH by done. by rewrite Permutation_middle.
Qed.
Lemma grouped_swa_names specs : NoDup (od_keys specs) ->
  concat (od_keys <$> (grouped_swa_mla specs).*2) ≡ₚ od_keys (filter (fun x => is_sliding_mla x.2 = true) specs).
Proof.
  unfold grouped_swa_mla. induction specs as [|[n s] specs IH] using rev_ind; [done |]. intros Hnd.
  unfold od_keys in Hnd. rewrite fmap_app, NoDup_app in Hnd. destruct Hnd as (Hnd & Hn & _). specialize (IH Hnd).
  rewrite foldl_app, filter_app. unfold od_keys at 2. rewrite fmap_app. cbn [foldl].
  destruct s as [|? ?|[v|m v] a w|?|?|?]; simpl; try (rewrite app_nil_r; exact IH).
  rewrite od_set_keys_perm; [rewrite IH; by rewrite Permutation_app_comm |].
  rewrite IH. intros (x & -> & Hx)%list_elem_of_fmap. apply list_elem_of_filter in Hx as [_ Hx]. apply (Hn x.1); [by apply list_elem_of_fmap_2 | left].
Qed.
Lemma group_and_unify_names specs l : NoDup (od_keys specs) -> Forall (fun x => is_mla x.2 || is_sliding_mla x.2 = true) specs ->
  group_and_unify_kv_cache_specs specs = Ok (Some l) -> concat (od_keys <$> l) ≡ₚ od_keys specs.
Proof.
  intros Hnd Hall E. unfold group_and_unify_kv_cache_specs in E. destruct (negb _); [by rinv |]. rinv. subst.
  assert (forall a b, uniform_or_fail a = Ok b -> b = a) as Hu.
  { intros a b Ha. unfold uniform_or_fail in Ha. apply rbind_Ok in Ha as ([g|] & _ & Ha); by rinv. }
  apply Hu in E1 as ->. rewrite fmap_cons. simpl. assert (od_keys <$> x1 = od_keys <$> (grouped_swa_mla specs).*2) as ->.
  { apply rmap_Ok in E2. induction E2 as [|[k y] z ys zs Hy Hl IH]; [done |]. apply Hu in Hy as ->. rewrite !fmap_cons. by rewrite IH. }
  rewrite grouped_swa_names by done. unfold od_keys. rewrite <- fmap_app. f_equiv.
  rewrite <- (filter_app_complement (fun x : string * LayerSpec => is_mla x.2 = true) specs) at 3. apply Permutation_app_head, Permutation_refl'.
  apply filter_ext_in. intros y Hy. rewrite Forall_forall in Hall. specialize (Hall y Hy). apply orb_true_iff in Hall. split; intros Hs; destruct Hall; try done.
  all: destruct y as [n [[] ? ? ? ?|? ?|[] ? ?|?|?|?]]; done.
Qed.

(** *** All strategies *)
Lemma alignment_cases s s' : _apply_alignment_padding s = Ok s' -> s' = s \/ exists p, s' = on_attn (with_padded (Some p)) s.
Proof.
  unfold _apply_alignment_padding. destruct (mla_of s) as [m|]; [| intros; rinv; by left]. destruct (alignment m); [| intros; rinv; by left].
  intros E. rinv. destruct (_ =? _); subst; [by left | right; by eexists].
Qed.
Lemma unify_one_not_sliding_mla ubs s s' : unify_one ubs s = Ok s' -> is_sliding_mla s' = false.
Proof.
  destruct s as [c a v w k|a k|[v|m v] a w|a|a|m]; simpl; try (intros; by rinv; subst).
  intros [-> | (p & ->)]%alignment_cases; done.
Qed.
Lemma flag_first_names n gs : layer_names <$> flag_first n gs = layer_names <$> gs.
Proof. induction gs as [|g gs IH]; [done |]. simpl. case_bool_decide; rewrite !fmap_cons; [done | by rewrite IH]. Qed.

(** Next to sliding-window MLA layers there are only MLA layers. *)
Definition mla_complete specs : Prop :=
  existsb is_sliding_mla specs.*2 = true -> Forall (fun x => is_mla x.2 || is_sliding_mla x.2 = true) specs.
Lemma unify_hybrid_complete specs specs' : mla_complete specs -> unify_hybrid_kv_cache_specs specs = Ok specs' ->
  od_keys specs' = od_keys specs /\ mla_complete specs'.
Proof.
  intros Hc [-> | (ubs & E)]%unify_hybrid_cases; [done |]. split; [by eapply rmap_names |].
  intros (s & Hs & Ht)%existsb_exists. apply list_elem_of_In, list_elem_of_fmap in Hs as ([n s'] & -> & Hin). apply rmap_Ok in E.
  apply list_elem_of_lookup in Hin as [i Hi]. destruct (Forall2_lookup_r _ _ _ _ _ E Hi) as ([n' s0] & _ & E'). simpl in E'. rinv. subst.
  simpl in Ht. by rewrite (unify_one_not_sliding_mla _ _ _ E0) in Ht.
Qed.

Lemma groups_names cfg specs gs : NoDup (od_keys specs) -> mla_complete specs -> get_kv_cache_groups cfg specs = Ok gs -> grouped_names gs ≡ₚ od_keys specs.
Proof.
  intros Hnd Hc E. unfold get_kv_cache_groups in E. apply rbind_Ok in E as (specs' & Hu & E).
  assert (od_keys specs' = od_keys specs /\ mla_complete specs') as [Hk Hc'].
  { destruct (disable_hybrid_kv_cache_manager cfg); [by apply unify_hybrid_complete | by rinv; subst]. }
  rewrite <- Hk in *. clear Hu Hk Hc. destruct specs' as [|x specs']; [cbn in E; rinv; by subst |]. cbn [is_kv_cache_type_attention_free] in E.
  apply rbind_Ok in E as ([|] & _ & E); [by apply uniform_spec_names |].
  apply rbind_Ok in E as ([g|] & _ & E); [rinv; subst; simpl; by rewrite app_nil_r |].
  apply rbind_Ok in E as ([l|] & Hg & E); rinv.
  - subst gs. transitivity (grouped_names x0).
    { unfold _annotate_eagle_groups_deepseek_v4. destruct (_ && _); [| done]. destruct (last _); [| done]. by rewrite flag_first_names. }
    rewrite (uniform_groups_names _ _ E0). apply group_and_unify_names; [done | | done]. apply Hc'.
    unfold group_and_unify_kv_cache_specs in Hg. by destruct (existsb is_sliding_mla _).
  - rewrite (uniform_page_size_names _ _ E). by rewrite (unify_page_size_names _ _ E0).
Qed.

(** ** The page size of a group *)
Lemma merge_page_size (ls : list LayerSpec) s m : merge (s :: ls) = Ok m -> is_sliding_mla s = false -> page_size_bytes m = page_size_bytes s.
Proof.
  destruct s as [[|slot|f|sink] a v w k|a k|[v|f v] a w|a|a|f]; cbn [merge is_sliding_mla]; intros E Hs; try done.
  all: unfold tq_merge, sink_merge, mla_merge, base_merge, full_merge in E; by rinv; subst.
Qed.

(** ** One page size for layers of several types *)
Lemma copy_not_sliding_mla s n s' : copy_with_new_block_size s n = Ok s' -> is_sliding_mla s' = is_sliding_mla s.
Proof.
  destruct s as [c a v w k|a k|[v|m v] a w|a|a|m]; unfold copy_with_new_block_size; [| | | | | | by intros E; rinv; subst].
  all: by intros [-> | (p & ->)]%alignment_cases.
Qed.
Lemma unify_layer_spec M s s' : unify_layer M s = Ok s' -> page_size_bytes s' = Ok M /\ is_sliding_mla s' = is_sliding_mla s.
Proof.
  intros E. unfold unify_layer in E. apply rbind_Ok in E as (p & Hp & E). destruct (Z.eqb_spec p M) as [-> |]; [by rinv; subst |].
  destruct (p =? 0); [done |]. destruct (negb _); [done |]. rinv. subst.
  match goal with H : (_ =? _) = true |- _ => apply Z.eqb_eq in H as -> end. split; [done | by eapply copy_not_sliding_mla].
Qed.
Lemma one_page_size (l : list Z) p q : zlen (remove_dups l) <= 1 -> p ∈ l -> q ∈ l -> p = q.
Proof.
  intros Hd H1%elem_of_remove_dups H2%elem_of_remove_dups. destruct (remove_dups l) as [|a [|b k]]; [by apply elem_of_nil in H1 | | unfold zlen in Hd; simpl in Hd; lia].
  apply list_elem_of_singleton in H1, H2. congruence.
Qed.

(** The layers after unify_kv_cache_spec_page_size have the page size of one of them. *)
Lemma unify_page_size_spec specs specs' : specs <> [] -> unify_kv_cache_spec_page_size specs = Ok specs' ->
  exists M, (exists x, x ∈ specs /\ page_size_bytes x.2 = Ok M) /\ Forall (fun x => page_size_bytes x.2 = Ok M) specs' /\
    (Forall (fun x => is_sliding_mla x.2 = false) specs -> Forall (fun x => is_sliding_mla x.2 = false) specs').
Proof.
  intros Hne E. unfold unify_kv_cache_spec_page_size in E. apply rbind_Ok in E as (l & Hl & E). apply rmap_Ok in Hl.
  destruct (Z.leb_spec (zlen (remove_dups l)) 1) as [Hd | _]; rinv.
  - subst specs'. destruct Hl as [|x p specs l Hx Hl]; [done |]. exists p. split_and!; [exists x; split; [left | done] | | done]. constructor; [done |]. apply Forall_lookup. intros i y Hy.
    destruct (Forall2_lookup_l _ _ _ _ _ Hl Hy) as (q & Hq & E). rewrite E. f_equal. eapply one_page_size; [exact Hd | right; by eapply list_elem_of_lookup_2 | left].
  - exists x. apply rmap_Ok in E. apply zmax_spec in E0 as [(i & Hi)%list_elem_of_lookup _]. split_and!.
    + destruct (Forall2_lookup_r _ _ _ _ _ Hl Hi) as (y & Hy & Hp). exists y. split; [by eapply list_elem_of_lookup_2 | done].
    + clear -E. induction E as [|y z ys zs Hy Hl IH]; constructor; [| done].
      apply rbind_Ok in Hy as (s & [Hs _]%unify_layer_spec & Hy). by injection Hy as <-.
    + intros Hs. clear -E Hs. induction E as [|y z ys zs Hy Hl IH]; [constructor |]. inversion Hs; subst.
      apply rbind_Ok in Hy as (s & [_ Hsl]%unify_layer_spec & Hy). injection Hy as <-. constructor; [by simpl; rewrite Hsl | auto].
Qed.
Lemma spec_at_elem specs n s : spec_at specs n = Ok s -> (n, s) ∈ specs.
Proof. unfold spec_at. destruct (od_get n specs) eqn:E; [| done]. intros [= <-]. by apply od_get_elem. Qed.

(** A group has the page size of one of its layers, and it has layers. *)
Lemma created_page_size specs names gs : Forall (fun x => is_sliding_mla x.2 = false) specs -> create_kv_cache_group_specs specs names = Ok gs ->
  forall g, g ∈ gs -> layer_names g <> [] /\ exists x, x ∈ specs /\ is_uniform_specs (group_spec g) = false /\ group_page_size (group_spec g) = page_size_bytes x.2.
Proof.
  intros Hs Hc%create_groups_spec g Hg. apply list_elem_of_lookup in Hg as [i Hi]. destruct (Forall2_lookup_r _ _ _ _ _ Hc Hi) as (ns & _ & (m & ls & -> & Hls & Hm)).
  apply rmap_Ok in Hls. destruct Hls as [|n s ns ls Hn Hls]; [done |]. split; [done |]. apply spec_at_elem in Hn. exists (n, s). split_and!; [done | done |].
  rewrite Forall_forall in Hs. exact (merge_page_size ls s m Hm (Hs _ Hn)).
Qed.

(** Groups with one page size share their pools. *)
Lemma shared_pool_bytes gs M : gs <> [] -> 0 < M ->
  (forall g, g ∈ gs -> layer_names g <> [] /\ is_uniform_specs (group_spec g) = false /\ group_page_size (group_spec g) = Ok M) ->
  exists b, _pool_bytes_per_block gs = Ok b /\ 0 < b.
Proof.
  intros Hne HM Hg. unfold _pool_bytes_per_block. assert (layout_of gs = SharedPools) as ->.
  { destruct gs as [|g gs]; [done |]. destruct (Hg g (list_elem_of_here _ _)) as (_ & Hu & _). unfold layout_of. destruct g as [ns [s|bs us] e]; [| done]. by destruct gs. }
  destruct (zmax_total ((fun g => zlen (layer_names g)) <$> gs)) as [n Hn]; [by destruct gs |]. unfold group_size_of. rewrite Hn. cbn [rbind].
  assert (get_uniform_page_size (group_spec <$> gs) = Ok M) as ->.
  { unfold get_uniform_page_size. rewrite (rmap_fmap _ (fun _ => M)) by (intros s (g & -> & Hin)%list_elem_of_fmap; by apply Hg). cbn [rbind].
    rewrite <- list_fmap_compose. assert (remove_dups ((fun _ => M) <$> gs) = [M]) as Hr; [| by setoid_rewrite Hr].
    clear -Hne. destruct gs as [|g gs]; [done |]. clear Hne. revert g. induction gs as [|g' gs IH]; intros g; [done |]. rewrite fmap_cons. cbn [remove_dups]. destruct (decide_rel _ _ _) as [|Hn]; [apply (IH g) | destruct Hn; left]. }
  cbn [rbind]. exists (M * n). split; [done |]. apply zmax_spec in Hn as [(g & -> & Hin)%list_elem_of_fmap _]. apply Z.mul_pos_pos; [done |]. by apply zlen_pos, Hg.
Qed.
Lemma created_pool_bytes specs names gs M : gs <> [] -> 0 < M -> Forall (fun x => is_sliding_mla x.2 = false) specs -> Forall (fun x => page_size_bytes x.2 = Ok M) specs ->
  create_kv_cache_group_specs specs names = Ok gs -> exists b, _pool_bytes_per_block gs = Ok b /\ 0 < b.
Proof.
  intros Hne HM Hs Hp Hc. apply (shared_pool_bytes gs M Hne HM). intros g Hg. destruct (created_page_size _ _ _ Hs Hc g Hg) as (Hl & x & Hx & Hu & ->).
  rewrite Forall_forall in Hp. by rewrite Hp.
Qed.

(** The groups of a model without sliding-window MLA layers have a common block size in bytes. *)
Lemma groups_pool_bytes cfg specs gs : disable_hybrid_kv_cache_manager cfg = false -> specs <> [] ->
  Forall (fun x => usage_ok cfg x.2) specs -> Forall (fun x => is_sliding_mla x.2 = false) specs -> get_kv_cache_groups cfg specs = Ok gs ->
  exists b, _pool_bytes_per_block gs = Ok b /\ 0 < b.
Proof.
  intros Hd Hne Hok Hns E. unfold get_kv_cache_groups in E. rewrite Hd in E. cbn [rbind] in E.
  destruct specs as [|x specs]; [done |]. cbn [is_kv_cache_type_attention_free] in E. set (sp := x :: specs) in *.
  apply rbind_Ok in E as ([|] & _ & E).
  - pose proof (created_page_size _ _ _ Hns E) as Hc. apply create_groups_spec in E. inversion E as [|? g ? gs' _ Hnil]; subst. inversion Hnil; subst. clear E Hnil.
    destruct (Hc g (list_elem_of_here _ _)) as (Hl & y & Hy & Hu & Hp). rewrite Forall_forall in Hok. destruct (Hok y Hy) as [(_ & p & Hyp & Hpos) _].
    apply (shared_pool_bytes [g] p); [done | done |]. intros g' ->%list_elem_of_singleton. by rewrite Hp.
  - apply rbind_Ok in E as ([g|] & Hf & E).
    + rinv. subst gs. unfold from_specs in Hf. rinv. unfold sp in Hf. destruct x as [n s]. destruct x0; [| done]. injection Hf as <-.
      by apply (group_page_pos cfg (GUniform (block_size_of s) ((n, s) :: specs))).
    + apply rbind_Ok in E as ([l|] & Hg & E).
      { unfold group_and_unify_kv_cache_specs in Hg. destruct (existsb is_sliding_mla sp.*2) eqn:Ex; [| done].
        apply existsb_exists in Ex as (s & Hs & Ht). apply list_elem_of_In, list_elem_of_fmap in Hs as (y & -> & Hy). rewrite Forall_forall in Hns. rewrite (Hns y Hy) in Ht. done. }
      rinv. destruct (unify_page_size_spec sp x0) as (M & (y & Hy & HyM) & HM & Hns'); [done | done |].
      pose proof (uniform_page_size_names _ _ E) as Hn. rewrite (unify_page_size_names _ _ E0) in Hn. unfold _get_kv_cache_groups_uniform_page_size in E. rinv.
      eapply (created_pool_bytes x0 _ gs M); [| | by apply Hns' | done | done].
      * intros ->. by apply Permutation_nil_l in Hn.
      * rewrite Forall_forall in Hok. destruct (Hok y Hy) as [(_ & p & Hyp & Hpos) _]. rewrite HyM in Hyp. by injection Hyp as ->.
Qed.
End groups.
