(* ===== verification/SizingMemory.v ===== *)
(** * SizingMemory
    Layouts of tensors in the memory of a worker, and the configurations of all workers. *)
From S2P Require Import Prelude OrdDict CacheHit Coordinator KVCacheInterface KVCacheSizing SizingInv SizingGroups.
(** ** Tables of lists *)
Lemma elem_of_concat {A} (x : A) ll : x ∈ concat ll <-> exists l, x ∈ l /\ l ∈ ll.
Proof.
  induction ll as [|l ll IH]; simpl; [split; [by intros ?%elem_of_nil | by intros (? & _ & ?%elem_of_nil)] |]. rewrite elem_of_app, IH. split.
  - intros [Hx | (k & Hx & Hk)]; [exists l; split; [done | left] | exists k; split; [done | by right]].
  - intros (k & Hx & [-> | Hk]%elem_of_cons); eauto.
Qed.
Lemma concat_fmap_app {A B} (f g : A -> list B) l : concat ((fun x => f x ++ g x) <$> l) ≡ₚ concat (f <$> l) ++ concat (g <$> l).
Proof. induction l as [|x l IH]; [done |]. rewrite !fmap_cons. simpl. rewrite IH. solve_Permutation. Qed.
Lemma concat_swap {A B C} (f : A -> B -> list C) xs ys :
  concat ((fun x => concat ((fun y => f x y) <$> ys)) <$> xs) ≡ₚ concat ((fun y => concat ((fun x => f x y) <$> xs)) <$> ys).
Proof.
  induction ys as [|y ys IH]; simpl.
  - induction xs; [done |]. by rewrite fmap_cons.
  - rewrite <- IH. apply concat_fmap_app.
Qed.
Lemma omap_concat {A B} (f : A -> option B) l : omap f l = concat ((fun x => option_list (f x)) <$> l).
Proof. induction l as [|x l IH]; [done |]. rewrite fmap_cons. simpl. destruct (f x); simpl; [f_equal |]; exact IH. Qed.
Lemma concat_lookup_seq {A} (l : list A) : forall i n, (length l <= n)%nat -> concat ((fun j => option_list (l !! (j - i)%nat)) <$> seq i n) = l.
Proof.
  induction l as [|x l IH]; intros i n Hn; simpl in *.
  - induction (seq i n); [done |]. by rewrite fmap_cons.
  - destruct n as [|n]; [lia |]. simpl. rewrite Nat.sub_diag. simpl. f_equal. etransitivity; [| apply (IH (S i) n); lia]. f_equal.
    apply list_fmap_ext. intros k j Hj. apply lookup_seq in Hj as [-> Hj]. by replace (S i + k - i)%nat with (S (S i + k - S i)) by lia.
Qed.
Lemma concat_lookup_seq0 {A} (l : list A) n : (length l <= n)%nat -> concat ((fun j => option_list (l !! j)) <$> seq 0 n) = l.
Proof.
  intros Hn. etransitivity; [| exact (concat_lookup_seq l 0 n Hn)]. f_equal. apply list_fmap_ext. intros k j _. by rewrite Nat.sub_0_r.
Qed.
Lemma zmax_ext l k m : (forall x : Z, x ∈ l <-> x ∈ k) -> zmax l = Ok m -> zmax k = Ok m.
Proof.
  intros Hlk Hm. pose proof (zmax_spec _ _ Hm) as [Hin Hmax].
  destruct (zmax_total k) as [m' Hm']; [by intros ->; apply Hlk, elem_of_nil in Hin |].
  pose proof (zmax_spec _ _ Hm') as [Hin' Hmax']. rewrite Hm'. f_equal. apply Z.le_antisymm; [apply Hmax, Hlk, Hin' | apply Hmax', Hlk, Hin].
Qed.
Lemma sorted_perm l : sorted l ≡ₚ l.
Proof.
  induction l as [|x l IH]; [done |]. simpl. transitivity (x :: sorted l); [| by rewrite IH]. generalize (sorted l). intros k.
  induction k as [|y k IHk]; simpl; [done |]. destruct (_ <=? _); [done |]. rewrite IHk. by constructor.
Qed.

(** ** Buckets of layers *)
Section buckets.
Context `{TorchDtypes}.
Implicit Types (us : LayerSpecs).

(** The layers of [names] with the page sizes [pages], added to the buckets [b]. *)
Definition bucketed (xs : list (string * Z)) (b : list (Z * list string)) : list (Z * list string) :=
  foldl (fun b x => od_set x.2 (default [] (od_get x.2 b) ++ [x.1]) b) b xs.
Lemma bucket_layers_eq us xs : forall b, Forall (fun x => exists s, spec_at us x.1 = Ok s /\ page_size_bytes s = Ok x.2) xs ->
  bucket_layers us xs.*1 b = Ok (bucketed xs b).
Proof.
  induction xs as [|[n p] xs IH]; intros b Hxs; [done |]. inversion Hxs as [|? ? (s & Hs & Hp) Hx]; subst. simpl in *. rewrite Hs. simpl. rewrite Hp. simpl.
  by apply IH.
Qed.
(** A bucket holds the layers with its page size, in order. *)
Lemma bucketed_spec xs p : od_get p (bucketed xs []) = match (filter (fun x => x.2 = p) xs).*1 with [] => None | l => Some l end.
Proof.
  unfold bucketed. induction xs as [|[n q] xs IH] using rev_ind; [done |]. rewrite foldl_app, filter_app, fmap_app. cbn [foldl].
  rewrite od_get_set. cbn [fst snd]. case_decide as Hp.
  - subst q. rewrite IH, filter_cons_True by done. rewrite filter_nil. simpl. by destruct (filter _ xs).*1.
  - rewrite IH, filter_cons_False by done. rewrite filter_nil. simpl. by rewrite app_nil_r.
Qed.
Lemma bucketed_ok xs : od_ok (bucketed xs []).
Proof.
  unfold bucketed. induction xs as [|x xs IH] using rev_ind; [apply NoDup_nil_2 |]. rewrite foldl_app. by apply od_ok_set.
Qed.
Lemma bucketed_names xs : concat (bucketed xs []).*2 ≡ₚ xs.*1.
Proof.
  unfold bucketed. induction xs as [|x xs IH] using rev_ind; [done |]. rewrite foldl_app, fmap_app. cbn [foldl]. rewrite od_set_concat, IH.
  by rewrite Permutation_app_comm.
Qed.
Lemma bucketed_elem xs p l : (p, l) ∈ bucketed xs [] <-> p ∈ xs.*2 /\ l = (filter (fun x => x.2 = p) xs).*1.
Proof.
  assert ((filter (fun x : string * Z => x.2 = p) xs).*1 <> [] <-> p ∈ xs.*2) as Hp.
  { rewrite list_elem_of_fmap. split.
    - intros Hne. destruct (filter _ xs) as [|x k] eqn:E; [done |]. assert (x ∈ filter (fun x => x.2 = p) xs) as [<- Hx]%list_elem_of_filter by (rewrite E; left). eauto.
    - intros (x & -> & Hx) E%fmap_nil_inv. assert (x ∈ filter (fun y => y.2 = x.2) xs) as Hin by (by apply list_elem_of_filter). rewrite E in Hin. by apply elem_of_nil in Hin. }
  split.
  - intros Hin. pose proof (od_elem_get _ _ _ (bucketed_ok xs) Hin) as E. rewrite bucketed_spec in E. rewrite <- Hp.
    destruct (filter _ xs).*1; [done |]. by injection E as <-.
  - intros [Hin ->]. apply od_get_elem. rewrite bucketed_spec. apply Hp in Hin. by destruct (filter _ xs).*1.
Qed.
Lemma count_filter xs p : zlen (filter (fun x : string * Z => x.2 = p) xs).*1 = count_of p xs.*2.
Proof.
  unfold count_of, zlen. rewrite length_fmap. f_equal. induction xs as [|[n q] xs IH]; [done |]. rewrite fmap_cons, !filter_cons. cbn [fst snd].
  case_decide; simpl; by rewrite IH.
Qed.

(** The layers of a group with their page sizes *)
Definition sized us (pages : list Z) : list (string * Z) := zip (od_keys us) pages.
Lemma sized_spec us pages : od_ok us -> rmap (fun x => page_size_bytes x.2) us = Ok pages ->
  (sized us pages).*1 = od_keys us /\ (sized us pages).*2 = pages /\
  Forall (fun x => exists s, spec_at us x.1 = Ok s /\ page_size_bytes s = Ok x.2) (sized us pages).
Proof.
  intros Hok Hp%rmap_Ok. unfold sized, od_keys. pose proof (Forall2_length _ _ _ Hp) as Hlen.
  split_and!; [apply fst_zip; rewrite length_fmap; lia | apply snd_zip; rewrite length_fmap; lia |].
  apply Forall_lookup. intros i [n p] Hi. apply lookup_zip_with_Some in Hi as (n' & p' & [= <- <-] & Hn & Hpi).
  apply list_lookup_fmap_Some in Hn as ([n0 s] & -> & Hs). pose proof (Forall2_lookup_lr _ _ _ _ _ _ Hp Hs Hpi) as Hps. exists s. split; [| exact Hps]. cbn [fst].
  unfold spec_at. by rewrite (od_elem_get n0 s us Hok) by (by eapply list_elem_of_lookup_2).
Qed.
Lemma zmax_intro l (m : Z) : m ∈ l -> (forall y, y ∈ l -> y <= m) -> zmax l = Ok m.
Proof.
  intros Hin Hmax. destruct (zmax_total l) as [m' Hm']; [by intros ->; apply elem_of_nil in Hin |].
  pose proof (zmax_spec _ _ Hm') as [Hin' Hmax']. rewrite Hm'. f_equal. apply Z.le_antisymm; auto.
Qed.
End buckets.

(** The values of a dict over a list of keys *)
Lemma od_values_perm {V} (b : list (Z * list V)) : forall sizes : list Z, od_ok b -> NoDup sizes -> (forall p l, (p, l) ∈ b -> p ∈ sizes) ->
  concat ((fun ps => default [] (od_get ps b)) <$> sizes) ≡ₚ concat b.*2.
Proof.
  induction b as [|[p l] b IH]; intros sizes Hok Hnd Hs; simpl.
  - clear. induction sizes; [done |]. by rewrite fmap_cons.
  - unfold od_ok, od_keys in Hok. rewrite fmap_cons, NoDup_cons in Hok. destruct Hok as [Hp Hok].
    assert (p ∈ sizes) as (s1 & s2 & ->)%list_elem_of_split by (eapply Hs; left).
    destruct (NoDup_app_cons_not_in _ _ _ Hnd) as [Hn1 Hn2].
    assert (forall k : list Z, p ∉ k -> ((fun ps => default [] (if decide (ps = p) then Some l else od_get ps b)) <$> k) = ((fun ps => default [] (od_get ps b)) <$> k)) as Heq.
    { intros k Hk. apply list_fmap_ext. intros i q Hq. rewrite decide_False; [done |]. intros ->. by eapply Hk, list_elem_of_lookup_2. }
    rewrite fmap_app, fmap_cons, concat_app. cbn [concat]. rewrite decide_True by done. cbn [default]. rewrite !Heq by done.
    transitivity (l ++ concat ((fun ps => default [] (od_get ps b)) <$> (s1 ++ s2))); [rewrite fmap_app, concat_app; cbn [from_option id]; solve_Permutation |].
    apply Permutation_app_head, IH; [done | by eapply NoDup_remove_mid |].
    intros q k Hq. specialize (Hs q k (list_elem_of_further _ _ _ Hq)). apply elem_of_app. apply elem_of_app in Hs as [? | [-> | ?]%elem_of_cons]; [by left | | by right].
    destruct Hp. apply list_elem_of_fmap. by exists (p, k).
Qed.

(** ** Groups of layers with different page sizes *)
Section config.
Context `{TorchDtypes}.
Implicit Types (us : LayerSpecs) (cfg : VllmConfig).

(** A list of groups: names, specs and page sizes. *)
Definition sized_group (x : list string * LayerSpecs) (pages : list Z) : Prop :=
  x.1 = od_keys x.2 /\ od_ok x.2 /\ rmap (fun y => page_size_bytes y.2) x.2 = Ok pages.
Definition buckets_of (l : list (list string * LayerSpecs)) (pl : list (list Z)) := zip_with (fun x pages => bucketed (sized x.2 pages) []) l pl.

Lemma buckets_eq l pl : Forall2 sized_group l pl -> rmap (fun x => bucket_layers x.2 x.1 []) l = Ok (buckets_of l pl).
Proof.
  induction 1 as [|x pages l pl (Hn & Hok & Hp) Hl IH]; [done |]. destruct (sized_spec _ _ Hok Hp) as (H1 & _ & H3). simpl.
  rewrite Hn, <- H1, bucket_layers_eq by done. simpl. by rewrite IH.
Qed.
(** The longest bucket is the most common page size. *)
Lemma longest_bucket l pl ns n : Forall2 sized_group l pl -> rmap (fun x => get_num_layer_tuples x.2) l = Ok ns -> zmax ns = Ok n ->
  zmax ((fun y => zlen y.2) <$> concat (buckets_of l pl)) = Ok n.
Proof.
  intros Hl Hns%rmap_Ok [Hin Hmax]%zmax_spec.
  assert (forall x pages n, sized_group x pages -> get_num_layer_tuples x.2 = Ok n ->
    (exists y, y ∈ bucketed (sized x.2 pages) [] /\ zlen y.2 = n) /\ forall y, y ∈ bucketed (sized x.2 pages) [] -> zlen y.2 <= n) as Hg.
  { clear. intros x pages n (Hn & Hok & Hp) E. destruct (sized_spec _ _ Hok Hp) as (_ & H2 & _). unfold get_num_layer_tuples in E. rewrite Hp in E. cbn [rbind] in E.
    assert (zmax ((fun z => count_of z pages) <$> pages) = Ok n) as [Hin Hmax]%zmax_spec by (by destruct pages). clear E. split.
    - apply list_elem_of_fmap in Hin as (p & -> & Hin). exists (p, (filter (fun z => z.2 = p) (sized x.2 pages)).*1). split; [apply bucketed_elem; by rewrite H2 |].
      cbn [snd]. by rewrite count_filter, H2.
    - intros [p k] [Hin' ->]%bucketed_elem. cbn [snd]. rewrite count_filter, H2 in *. apply Hmax, list_elem_of_fmap. eauto. }
  apply zmax_intro.
  - apply list_elem_of_lookup in Hin as [i Hi]. destruct (Forall2_lookup_r _ _ _ _ _ Hns Hi) as (x & Hx & E).
    destruct (Forall2_lookup_l _ _ _ _ _ Hl Hx) as (pages & Hpg & Hs). destruct (Hg x pages n Hs E) as [(y & Hy & <-) _].
    apply list_elem_of_fmap. exists y. split; [done |]. apply elem_of_concat. exists (bucketed (sized x.2 pages) []). split; [done |].
    eapply (list_elem_of_lookup_2 _ i). unfold buckets_of. apply lookup_zip_with_Some. eauto.
  - intros z (y & -> & (b & Hy & Hb)%elem_of_concat)%list_elem_of_fmap. apply list_elem_of_lookup in Hb as [i Hi].
    apply lookup_zip_with_Some in Hi as (x & pages & -> & Hx & Hpg). pose proof (Forall2_lookup_lr _ _ _ _ _ _ Hl Hx Hpg) as Hs.
    destruct (Forall2_lookup_l _ _ _ _ _ Hns Hx) as (m & Hm & E). etransitivity; [by apply (proj2 (Hg x pages m Hs E)) | by eapply Hmax, list_elem_of_lookup_2].
Qed.

(** What is shown of a worker's tensors: their bytes are those of the blocks, in equal shares
    per block, and they hold the layers [names]. *)
Record tensors_ok (num_blocks b : Z) (names : list string) (placed : Prop) (ts : list KVCacheTensor) : Prop := {
  to_bytes : zsum (t_size <$> ts) = num_blocks * b;
  to_share : Forall (fun t => exists q, t_size t = q * num_blocks) ts;
  to_names : placed -> concat (shared_by <$> ts) ≡ₚ names;
}.

(** Every page size is one of the first group. *)
Definition aligned (pl : list (list Z)) : Prop :=
  match pl with [] => True | first :: _ => forall pages p, pages ∈ pl -> p ∈ pages -> p ∈ first end.

Lemma tuple_layers_perm (bs : list (list (Z * list string))) sizes n : NoDup sizes -> Forall (fun b => od_ok b) bs ->
  (forall b p l, b ∈ bs -> (p, l) ∈ b -> p ∈ sizes /\ (length l <= n)%nat) ->
  concat ((fun i => concat ((fun ps => tuple_layers bs i ps) <$> sizes)) <$> seq 0 n) ≡ₚ concat ((fun b => concat b.*2) <$> bs).
Proof.
  intros Hnd Hok Hin. rewrite concat_swap.
  transitivity (concat ((fun ps => concat ((fun b => default [] (od_get ps b)) <$> bs)) <$> sizes)).
  - apply concat_perm_ext. intros ps Hps. unfold tuple_layers.
    transitivity (concat ((fun i => concat ((fun b => option_list (l ← od_get ps b; l !! i)) <$> bs)) <$> seq 0 n)); [apply concat_perm_ext; intros i _; by rewrite omap_concat |].
    rewrite concat_swap. apply concat_perm_ext. intros b Hb. destruct (od_get ps b) as [l|] eqn:E; simpl.
    + rewrite concat_lookup_seq0; [done |]. by apply (Hin b ps l Hb), od_get_elem.
    + induction (seq 0 n); [done |]. by rewrite fmap_cons.
  - rewrite concat_swap. apply concat_perm_ext. intros b Hb. rewrite Forall_forall in Hok. specialize (Hok b Hb). assert (forall p l, (p, l) ∈ b -> p ∈ sizes) as Hs by (intros p l Hp; by eapply Hin).
    by apply od_values_perm.
Qed.

Lemma page_sizes_of x pages first : sized_group x pages -> get_page_sizes x.2 = Ok first -> first = remove_dups pages.
Proof. intros (_ & _ & Hp) E. unfold get_page_sizes in E. rewrite Hp in E. by injection E as <-. Qed.
Lemma zsum_concat (ll : list (list Z)) : zsum (concat ll) = zsum (zsum <$> ll).
Proof. induction ll as [|l ll IH]; [done |]. rewrite fmap_cons. simpl. by rewrite zsum_app, IH. Qed.

(** Several groups: the tuples are the rows of the layout. *)
Lemma many_uniform_config cfg l pl sb n mem : Forall2 sized_group l pl -> layer_tuples l = Ok (sb, n) -> 0 < sb * n ->
  exists ts, _get_kv_cache_config_deepseek_v4 cfg l mem = Ok (may_override_num_blocks cfg (mem / (sb * n)), ts) /\
    tensors_ok (may_override_num_blocks cfg (mem / (sb * n))) (sb * n) (concat l.*1) (aligned pl) ts.
Proof.
  intros Hl E Hpos. unfold layer_tuples in E. rinv. subst. rename x into first, x0 into sizes, x1 into ns. unfold _get_kv_cache_config_deepseek_v4.
  rewrite E0. cbn [rbind]. rewrite E1. cbn [rbind]. rewrite (buckets_eq l pl Hl). cbn [rbind]. pose proof (longest_bucket l pl ns n Hl E2 E3) as Hn. rewrite Hn. cbn [rbind].
  rewrite (zsum_perm _ _ (sorted_perm sizes)), rdiv_pos by done. cbn [rbind]. eexists. split; [done |]. set (nb := may_override_num_blocks _ _).
  assert (0 <= n) as Hn0 by (apply zmax_spec in Hn as [(y & -> & _)%list_elem_of_fmap _]; apply zlen_nonneg). split.
  - set (f := fun i : nat => _). rewrite <- concat_fmap, zsum_concat, <- !list_fmap_compose.
    rewrite (zsum_const _ (zsum sizes * nb)); [unfold zlen; rewrite length_seq, Z2Nat.id by done; ring |].
    intros i _. subst f. cbn. rewrite <- list_fmap_compose. rewrite <- (zsum_mul sizes nb). apply zsum_perm. by rewrite sorted_perm.
  - apply Forall_forall. intros t (row & Ht & (i & -> & _)%list_elem_of_fmap)%elem_of_concat. apply list_elem_of_fmap in Ht as (ps & -> & _). by exists ps.
  - intros Hal. rewrite <- concat_fmap, concat_concat, <- !list_fmap_compose. cbn.
    transitivity (concat ((fun b => concat b.*2) <$> buckets_of l pl)).
    + etransitivity; [| apply (tuple_layers_perm _ (sorted sizes) (Z.to_nat n))].
      * apply concat_perm_ext. intros i _. cbn. by rewrite <- list_fmap_compose.
      * rewrite sorted_perm. unfold get_page_sizes in E1. rinv. subst. apply NoDup_remove_dups.
      * apply Forall_forall. intros b Hb%elem_of_zip_with. by destruct Hb as (x & pages & -> & _); apply bucketed_ok.
      * intros b p k Hb Hk. split.
        -- rewrite sorted_perm. destruct l as [|x0 l]; [done |]. inversion Hl as [|? pages0 ? pl' Hs0 Hl']; subst. injection E0 as <-.
           rewrite (page_sizes_of _ _ _ Hs0 E1). apply elem_of_remove_dups. apply list_elem_of_lookup in Hb as [i Hi].
           apply lookup_zip_with_Some in Hi as (x & pages & -> & Hx & Hp). pose proof (Forall2_lookup_lr _ _ _ _ _ _ Hl Hx Hp) as (_ & Hok & Hpg).
           destruct (sized_spec _ _ Hok Hpg) as (_ & H2 & _). apply bucketed_elem in Hk as [Hk _]. rewrite H2 in Hk.
           eapply Hal; [by eapply list_elem_of_lookup_2 | done].
        -- apply zmax_spec in Hn as [_ Hmax]. specialize (Hmax (zlen k)). unfold zlen in *. rewrite <- Nat2Z.id at 1. apply Z2Nat.inj_le; [lia | lia |]. apply Hmax.
           apply list_elem_of_fmap. exists (p, k). split; [done |]. apply elem_of_concat. eauto.
    + clear -Hl. induction Hl as [|x pages l pl (Hn & Hok & Hp) Hl IH]; [done |]. unfold buckets_of. simpl. apply Permutation_app; [| exact IH].
      destruct (sized_spec _ _ Hok Hp) as (H1 & _ & _). by rewrite bucketed_names, H1, Hn.
Qed.

(** One group: a tensor per layer. *)
Lemma one_uniform_config cfg us pages mem : sized_group (od_keys us, us) pages -> 0 < zsum pages ->
  let nb := may_override_num_blocks cfg (mem / zsum pages) in
  exists ts, rmap (fun name => do s <- spec_at us name in do q <- page_size_bytes s in Ok (mkTensor (q * nb) [name])) (od_keys us) = Ok ts /\
    tensors_ok nb (zsum pages) (od_keys us) True ts.
Proof.
  intros (_ & Hok & Hp) Hpos nb. simpl in Hok, Hp. destruct (sized_spec us pages Hok Hp) as (H1 & H2 & H3).
  exists ((fun x => mkTensor (x.2 * nb) [x.1]) <$> sized us pages). split.
  - rewrite <- H1. clear -H3. induction H3 as [|[n p] xs (s & Hs & Hq) Hx IH]; [done |]. rewrite !fmap_cons. cbn [rmap fst snd]. simpl in Hs, Hq. rewrite Hs. cbn [rbind]. rewrite Hq. cbn [rbind]. by rewrite IH.
  - split.
    + rewrite <- list_fmap_compose. transitivity (zsum ((fun p => p * nb) <$> (sized us pages).*2)); [by rewrite <- list_fmap_compose |]. rewrite H2, zsum_mul. ring.
    + apply Forall_forall. intros t ([n p] & -> & _)%list_elem_of_fmap. by exists p.
    + intros _. rewrite <- list_fmap_compose, <- H1 at 1. clear. induction (sized us pages) as [|x xs IH]; [done |]. rewrite !fmap_cons. simpl. by constructor.
Qed.

(** Groups with one page size: a tensor per position in the groups. *)
Lemma shared_pools_config gs n p nb : group_size_of gs = Ok n ->
  tensors_ok nb (p * n) (concat (layer_names <$> gs)) True ((fun i => mkTensor (p * nb) (pool_layers gs i)) <$> seq 0 (Z.to_nat n)).
Proof.
  intros [Hin Hmax]%zmax_spec. assert (0 <= n) as Hn by (apply list_elem_of_fmap in Hin as (g & -> & _); apply zlen_nonneg). split.
  - rewrite <- list_fmap_compose, (zsum_const _ (p * nb)) by done. unfold zlen. rewrite length_seq, Z2Nat.id by done. ring.
  - apply Forall_forall. intros t (i & -> & _)%list_elem_of_fmap. by exists p.
  - intros _. rewrite <- list_fmap_compose. cbn. transitivity (concat ((fun i => concat ((fun g => option_list (layer_names g !! i)) <$> gs)) <$> seq 0 (Z.to_nat n))).
    { apply concat_perm_ext. intros i _. unfold pool_layers. cbn. by rewrite omap_concat. }
    rewrite concat_swap. apply concat_perm_ext. intros g Hg. rewrite concat_lookup_seq0; [done |].
    assert (zlen (layer_names g) <= n) by (apply Hmax, list_elem_of_fmap; eauto). unfold zlen in *. lia.
Qed.

(** ** All layouts *)

(** The specs of a group with different page sizes are those of its layers. *)
Definition group_complete (g : LayerGroup) : Prop :=
  match group_spec g with GUniform _ us => layer_names g = od_keys us /\ od_ok us | _ => True end.
(** Every page size of the groups is one of the first group, where the layout needs it. *)
Definition groups_aligned (gs : list LayerGroup) : Prop :=
  match layout_of gs with
  | ManyUniform l => forall pl, Forall2 sized_group l pl -> aligned pl
  | _ => True
  end.

Lemma sized_groups cfg gs l : Forall (fun g => group_ok cfg (group_spec g)) gs -> Forall group_complete gs ->
  Forall2 (fun g x => exists bs e, g = mkLayerGroup x.1 (GUniform bs x.2) e) gs l -> (exists pl, Forall2 sized_group l pl) /\ l.*1 = layer_names <$> gs.
Proof.
  intros Hok Hc Hl. induction Hl as [|g [names us] gs l (bs & e & ->) Hl IH]; [split; [by exists [] | done] |].
  inversion Hok as [|? ? Hu Hok']; subst. inversion Hc as [|? ? Hcg Hc']; subst. destruct Hu as [_ Hus], Hcg as [Hn Hd]. destruct (IH Hok' Hc') as [[pl Hpl] Hnm].
  destruct (page_sizes_total cfg us Hus) as [pages Hpages]. split; [exists (pages :: pl); by constructor | by rewrite !fmap_cons, Hnm].
Qed.

Lemma config_spec cfg gs mem b : gs <> [] -> Forall (fun g => group_ok cfg (group_spec g)) gs -> Forall group_complete gs ->
  _pool_bytes_per_block gs = Ok b -> 0 < b -> 0 <= mem ->
  exists ts, get_kv_cache_config_from_groups cfg gs mem = Ok (mkWorker (may_override_num_blocks cfg (mem / b)) ts gs (v_nelssa_config cfg)) /\
    tensors_ok (may_override_num_blocks cfg (mem / b)) b (concat (layer_names <$> gs)) (groups_aligned gs) ts.
Proof.
  intros Hne Hok Hc Hb Hpos Hmem. unfold _pool_bytes_per_block in Hb. unfold get_kv_cache_config_from_groups, groups_aligned.
  assert (forall A (x : A) (k : A), match gs with [] => x | _ => k end = k) as Hm by (by destruct gs). rewrite Hm.
  pose proof (layout_spec gs) as Hlay. destruct (layout_of gs) as [names us|l|] eqn:El.
  - destruct Hlay as (bs & e & ->). apply Forall_singleton in Hok as [Hus Hok]. apply Forall_singleton in Hc as [Hn Hd]. simpl in Hn, Hd. subst names.
    rewrite Hb. cbn [rbind]. rewrite rdiv_pos by done. cbn [rbind]. cbn [group_page_size] in Hb. rinv. subst b.
    destruct (one_uniform_config cfg us x mem) as (ts & Hts & Ht); [done | done |]. rewrite Hts. cbn [rbind]. exists ts. split; [done |].
    destruct Ht. split; [done | done |]. intros _. simpl. rewrite app_nil_r. auto.
  - rinv. destruct x as [sb n]. subst b. destruct (sized_groups cfg gs l Hok Hc Hlay) as [[pl Hpl] Hnm].
    destruct (many_uniform_config cfg l pl sb n mem Hpl E Hpos) as (ts & Hts & Ht). rewrite Hts. cbn [rbind]. exists ts. split; [done |].
    rewrite <- Hnm. destruct Ht. split; [done | done |]. intros Ha. auto.
  - rinv. subst b. rewrite E, E0. cbn [rbind]. assert (0 <= x) by (apply zmax_spec in E as [(g & -> & _)%list_elem_of_fmap _]; apply zlen_nonneg).
    assert (0 < x) by (destruct (Z.eq_dec x 0) as [-> |]; lia). assert (0 < x0) by nia. rewrite (proj2 (Z.ltb_lt 0 x)) by done. cbn [rassert rbind].
    unfold get_num_blocks. rewrite rdiv_pos by done. cbn [rbind]. rewrite rdiv_pos by done. cbn [rbind]. eexists. split.
    + rewrite Z.div_div, Z.max_l by (try lia; apply Z.div_pos; lia). done.
    + apply (shared_pools_config gs x x0 _ E).
Qed.
End config.

(** ** Memory in blocks *)
Section needed.
Context `{TorchDtypes}.
Implicit Types (us : LayerSpecs) (cfg : VllmConfig) (gs : list LayerGroup).

(** The blocks one request of the largest model length needs: those of its groups. *)
Definition group_pages cfg (g : GroupSpec) : Z :=
  match g with
  | GLayer s => pages_needed cfg s
  | GUniform _ ((_, s) :: _) => pages_needed cfg s
  | GUniform _ [] => 0
  end.
Definition blocks_needed cfg gs : Z := zsum ((fun g => group_pages cfg (group_spec g)) <$> gs).
(** All layers of a group need as many pages. *)
Definition group_even cfg (g : GroupSpec) : Prop := match g with GUniform _ us => forall x, x ∈ us -> pages_needed cfg x.2 = group_pages cfg g | _ => True end.

Lemma same_block_size us x y : (1 <? zlen (remove_dups (block_size_of <$> us.*2))) = false -> x ∈ us -> y ∈ us -> block_size_of x.2 = block_size_of y.2.
Proof.
  intros Hd%Z.ltb_ge Hx Hy. assert (forall z, z ∈ us -> block_size_of z.2 ∈ remove_dups (block_size_of <$> us.*2)) as Hin.
  { intros z Hz. apply elem_of_remove_dups, list_elem_of_fmap. exists z.2. split; [done | by apply list_elem_of_fmap_2]. }
  apply Hin in Hx, Hy. unfold zlen in Hd. destruct (remove_dups _) as [|v [|]]; simpl in Hd; [by apply elem_of_nil in Hx | | lia].
  apply list_elem_of_singleton in Hx, Hy. congruence.
Qed.
(** Layers of one type need the same number of pages. *)
Lemma uniform_pages cfg us s k : is_uniform_type us = Ok true -> head us = Some (k, s) -> forall x, x ∈ us -> pages_needed cfg x.2 = pages_needed cfg s.
Proof.
  intros Hu Hh [n s'] Hx. destruct us as [|[n0 s0] us]; [done |]. injection Hh as -> ->. unfold is_uniform_type in Hu. destruct (1 <? _) eqn:Hd; [done |].
  assert (block_size_of s' = block_size_of s) as Hb by (by apply (same_block_size _ (n, s') (k, s) Hd); [| left]). clear Hd.
  assert (forall f : LayerSpec -> bool, forallb f (s :: us.*2) = true -> f s' = true) as Hall.
  { intros f Hf. rewrite forallb_forall in Hf. apply Hf, list_elem_of_In. change (s :: us.*2) with (((k, s) :: us).*2). apply list_elem_of_fmap. by exists (n, s'). }
  cbn [fmap list_fmap snd] in Hu. cbn [snd]. unfold pages_needed.
  destruct s as [c a v w kk|a kk|[v|f v] a w|a|a|f]; lazy beta iota zeta in Hu; try discriminate; apply Ok_inj in Hu; apply Hall in Hu; clear Hall;
    destruct s' as [c' a' v' w' k'|a' k'|[v'|f' v'] a' w'|a'|a'|f']; try discriminate; simpl in Hb; rewrite Hb; try done.
  - apply Z.eqb_eq in Hu. by subst.
  - apply bool_decide_eq_true in Hu. injection Hu as ->. done.
  - apply bool_decide_eq_true in Hu. injection Hu as ->. done.
  - simpl in Hu. apply bool_decide_eq_true in Hu. injection Hu as ->. done.
  - apply Z.eqb_eq in Hu. by rewrite Hu.
Qed.
Lemma from_specs_even cfg us g : from_specs us = Ok (Some g) -> (exists n, g = GUniform n us) /\ group_even cfg g.
Proof.
  intros E. unfold from_specs in E. rinv. destruct us as [|[k s] us]; [done |]. destruct x; [| done]. injection E as <-. split; [by eexists |].
  exact (uniform_pages cfg _ s k E0 eq_refl).
Qed.
Lemma max_pages_eq cfg n us : us <> [] -> Forall (fun x => usage_ok cfg x.2) us -> group_even cfg (GUniform n us) ->
  max_memory_usage_pages cfg us = Ok (group_pages cfg (GUniform n us)).
Proof.
  intros Hne Hok Hu. destruct us as [|[k s] us]; [done |]. set (us' := (k, s) :: us) in *. rewrite Forall_forall in Hok. unfold max_memory_usage_pages.
  rewrite (rmap_fmap _ (fun x => pages_needed cfg x.2)) by (intros x Hx; by apply layer_max_pages_eq, Hok). cbn [rbind].
  apply zmax_intro.
  - apply list_elem_of_fmap. exists (k, s). split; [done | left].
  - intros y (x & -> & Hx)%list_elem_of_fmap. rewrite (Hu x Hx). done.
Qed.
Lemma group_max_memory_eq cfg g p : group_ok cfg g -> group_even cfg g -> group_page_size g = Ok p -> group_max_memory cfg g = Ok (group_pages cfg g * p).
Proof.
  destruct g as [s|n us]; [intros Hok _ Hp; by apply layer_max_memory_eq |]. intros [Hne Hok] Hu Hp. cbn [group_max_memory].
  rewrite (max_pages_eq cfg n us) by done. cbn [rbind]. by rewrite Hp.
Qed.

(** The memory one request needs is a number of blocks. *)
Lemma max_memory_exact cfg gs b : gs <> [] -> Forall (fun g => group_ok cfg (group_spec g)) gs -> Forall (fun g => group_even cfg (group_spec g)) gs ->
  _pool_bytes_per_block gs = Ok b -> _max_memory_usage_bytes_from_groups cfg gs = Ok (blocks_needed cfg gs * b).
Proof.
  intros Hne Hok Hu Hb. unfold _pool_bytes_per_block in Hb. unfold _max_memory_usage_bytes_from_groups, blocks_needed.
  assert (forall A (x : A) (k : A), match gs with [] => x | _ => k end = k) as -> by (by destruct gs). clear Hne.
  pose proof (layout_spec gs) as Hlay. destruct (layout_of gs) as [names us|l|] eqn:El.
  - destruct Hlay as (bs & e & ->). rewrite Forall_singleton in Hok. rewrite Forall_singleton in Hu. destruct Hok as [Hne Hus]. cbn [group_spec group_page_size] in *. rinv. subst b.
    destruct us as [|[k s] us]; [done |]. set (us' := (k, s) :: us) in *. rewrite Forall_forall in Hus.
    assert (rmap (fun y => layer_max_memory cfg y.2) us' = Ok ((fun p => p * pages_needed cfg s) <$> x)) as ->.
    { apply rmap_Ok. apply rmap_Ok in E. apply Forall2_fmap_r, Forall2_same_length_lookup. split; [by eapply Forall2_length |]. intros i y p Hy Hp.
      pose proof (list_elem_of_lookup_2 _ _ _ Hy) as Hin. rewrite (layer_max_memory_eq cfg y.2 p (Hus y Hin) (Forall2_lookup_lr _ _ _ _ _ _ E Hy Hp)).
      rewrite (Hu y Hin). cbn [group_pages us']. f_equal. ring. }
    cbn [rbind]. rewrite zsum_mul. simpl. f_equal. ring.
  - rinv. subst b. rewrite E. cbn [rbind].
    assert (rmap (fun y => do pages <- max_memory_usage_pages cfg y.2 in Ok (x.2 * pages * x.1)) l = Ok ((fun n => n * (x.1 * x.2)) <$> ((fun g => group_pages cfg (group_spec g)) <$> gs))) as ->.
    { clear E El. induction Hlay as [|g [names us] gs l (bs & e & ->) Hl IH]; [done |]. inversion Hok as [|? ? Hg Hok']; subst. inversion Hu as [|? ? Hgu Hu']; subst.
      destruct Hg as [Hne Hus]. rewrite !fmap_cons. cbn [rmap snd group_spec]. rewrite (max_pages_eq cfg bs us Hne Hus Hgu). cbn [rbind]. rewrite (IH Hok' Hu'). cbn [rbind]. do 2 f_equal. ring. }
    cbn [rbind]. by rewrite zsum_mul.
  - rinv. subst b. rewrite E, E0. cbn [rbind]. unfold get_uniform_page_size in E0. rinv.
    assert (forall g, g ∈ gs -> group_page_size (group_spec g) = Ok x0) as Hpage.
    { intros g Hg. apply rmap_Ok in E1. apply list_elem_of_lookup in Hg as [i Hi].
      destruct (Forall2_lookup_l _ _ _ i (group_spec g) E1) as (p & Hp & Eg); [by rewrite list_lookup_fmap, Hi |]. rewrite Eg. f_equal.
      assert (p ∈ remove_dups x1) as Hin by (by eapply elem_of_remove_dups, list_elem_of_lookup_2).
      destruct (remove_dups x1) as [|q [|]]; rinv. subst. by apply list_elem_of_singleton in Hin. }
    rewrite Forall_forall in Hok, Hu.
    rewrite (rmap_fmap _ (fun g => group_pages cfg (group_spec g))); [cbn [rbind]; f_equal; ring |].
    intros g Hg. rewrite (group_max_memory_eq cfg _ x0) by auto. cbn [rbind].
    destruct (group_page_pos cfg (group_spec g)) as (q & Hq & Hpos); [by apply Hok |]. rewrite (Hpage g Hg) in Hq. injection Hq as <-. by rewrite rcdiv_pos, cdiv_mul.
Qed.
End needed.

Section workers.
Context `{TorchDtypes}.
Implicit Types (cfg : VllmConfig) (specs us : LayerSpecs) (gs : list LayerGroup).

(** ** Groups of one type stay so *)
Lemma tuple_groups_even cfg specs names : forall gs, tuple_groups specs names = Ok gs -> Forall (fun g => group_even cfg (group_spec g)) gs.
Proof.
  induction names as [|ns names IH]; intros gs E; simpl in E; rinv; [subst; constructor |]. destruct x0 as [g|]; [| done]. rinv. subst. constructor; [| by apply IH].
  by apply (from_specs_even cfg) in E1 as [_ ?].
Qed.
Lemma uniform_groups_even cfg l gs : Forall (fun us => exists n, group_even cfg (GUniform n us)) l -> _get_kv_cache_groups_uniform_groups l = Ok gs ->
  Forall (fun g => group_even cfg (group_spec g)) gs.
Proof.
  intros Hl E. unfold _get_kv_cache_groups_uniform_groups in E. destruct l as [|full swa]; [done |]. rinv. subst. inversion Hl as [|? ? (n & Hn) _]; subst.
  constructor; [exact Hn |]. apply rmap_Ok in E7. clear -E7. induction E7 as [|sp g swa gs Hsp Hl IH]; [constructor |]. simpl. apply Forall_app. split; [| done].
  unfold swa_groups in Hsp. rinv. by eapply tuple_groups_even.
Qed.
Lemma uniform_or_fail_even cfg us us' : uniform_or_fail us = Ok us' -> us' = us /\ exists n, group_even cfg (GUniform n us').
Proof.
  intros E. unfold uniform_or_fail in E. rinv. destruct x as [g|]; rinv. subst. split; [done |]. apply (from_specs_even cfg) in E0 as [[n ->] He]. by exists n.
Qed.
Lemma create_groups_even cfg specs names gs : create_kv_cache_group_specs specs names = Ok gs -> Forall (fun g => group_even cfg (group_spec g)) gs.
Proof. intros Hg%create_groups_spec. induction Hg as [|ns g names gs (m & ls & -> & _) Hg IH]; by constructor. Qed.
Lemma flag_first_even cfg n gs : Forall (fun g => group_even cfg (group_spec g)) gs -> Forall (fun g => group_even cfg (group_spec g)) (flag_first n gs).
Proof. induction 1 as [|g gs Hg Hgs IH]; [constructor |]. simpl. case_bool_decide; by constructor. Qed.

Lemma groups_even cfg0 cfg specs gs : get_kv_cache_groups cfg0 specs = Ok gs -> Forall (fun g => group_even cfg (group_spec g)) gs.
Proof.
  intros E. unfold get_kv_cache_groups in E. apply rbind_Ok in E as (specs' & _ & E).
  destruct (is_kv_cache_type_attention_free specs'); [rinv; subst; constructor |].
  apply rbind_Ok in E as ([|] & _ & E); [by eapply create_groups_even |].
  apply rbind_Ok in E as ([g|] & Hf & E); [rinv; subst; repeat constructor; by apply (from_specs_even cfg) in Hf as [_ ?] |].
  apply rbind_Ok in E as ([l|] & Hg & E); rinv.
  - subst gs. assert (Forall (fun g => group_even cfg (group_spec g)) x) as Hx.
    { eapply uniform_groups_even; [| exact E0]. unfold group_and_unify_kv_cache_specs in Hg. destruct (negb _); [done |]. rinv. subst.
      constructor; [by apply (uniform_or_fail_even cfg) in E1 as [_ ?] |]. apply rmap_Ok in E2. clear -E2. induction E2 as [|y z ys zs Hy Hl IH]; constructor; [| done].
      by apply (uniform_or_fail_even cfg) in Hy as [_ ?]. }
    unfold _annotate_eagle_groups_deepseek_v4. destruct (_ && _); [| done]. destruct (last _); [by apply flag_first_even | done].
  - unfold _get_kv_cache_groups_uniform_page_size in E. rinv. by eapply create_groups_even.
Qed.

(** ** Projection *)
Lemma project_pages cfg ws g g' : group_even cfg (group_spec g) -> project_group ws g = Ok g' ->
  group_pages cfg (group_spec g') = group_pages cfg (group_spec g) /\ group_even cfg (group_spec g').
Proof.
  intros He E. unfold project_group in E. rinv. subst. cbn [group_spec]. destruct (group_spec g) as [s|n us] eqn:Eg; [rinv; by subst |].
  destruct (filter _ (layer_names g)) as [|n0 names]; [rinv; by subst |]. rinv. subst.
  assert (forall y, y ∈ x0 -> pages_needed cfg y.2 = group_pages cfg (GUniform n us)) as Hy.
  { intros y [i Hi]%list_elem_of_lookup. apply rmap_Ok in E. destruct (Forall2_lookup_r _ _ _ _ _ E Hi) as (m & _ & Em). apply rbind_Ok in Em as (s & Es & [= <-]). simpl. unfold spec_at in Es.
    destruct (od_get m us) as [s'|] eqn:Es'; rinv. subst. apply (He (m, s)). by apply od_get_elem. }
  destruct x0 as [|[k s] l]; [apply rmap_Ok in E; inversion E |]. assert (pages_needed cfg s = group_pages cfg (GUniform n us)) as Hs by (apply (Hy (k, s)); left).
  split; [exact Hs |]. intros y Hin. cbn [group_pages]. by rewrite Hs, Hy.
Qed.
Lemma project_blocks cfg global ws gs : Forall (fun g => group_even cfg (group_spec g)) global -> _project_kv_cache_groups_to_worker global ws = Ok gs ->
  blocks_needed cfg gs = blocks_needed cfg global /\ Forall (fun g => group_even cfg (group_spec g)) gs /\ length gs = length global.
Proof.
  intros He Hp%rmap_Ok. unfold blocks_needed. induction Hp as [|g g' global gs Hg Hp IH]; [done |]. inversion He as [|? ? Heg He']; subst.
  destruct (project_pages cfg ws g g' Heg Hg) as [H1 H2]. destruct (IH He') as (H3 & H4 & H5). rewrite !fmap_cons, !zsum_cons, H1, H3. simpl. split_and!; [done | by constructor | lia].
Qed.

(** ** One worker *)

(** Layers with pages have layer tuples. *)
Lemma num_layer_tuples_pos cfg us : us <> [] -> Forall (fun x => usage_ok cfg x.2) us -> exists n, get_num_layer_tuples us = Ok n /\ 0 < n.
Proof.
  intros Hne Hus. unfold get_num_layer_tuples. destruct (page_sizes_total cfg us Hus) as [pages Hp]. rewrite Hp. cbn [rbind]. apply rmap_Ok in Hp.
  destruct Hp as [|x p us pages Hx Hp]; [done |]. destruct (zmax_total ((fun y => count_of y (p :: pages)) <$> p :: pages)) as [n Hn]; [done |]. exists n. split; [done |].
  apply zmax_spec in Hn as [_ Hmax]. assert (count_of p (p :: pages) <= n) by (apply Hmax; rewrite fmap_cons; left).
  assert (0 < count_of p (p :: pages)); [| lia]. unfold count_of. rewrite filter_cons_True by done. unfold zlen. simpl. lia.
Qed.
Lemma zsum_pos l : l <> [] -> Forall (fun y => 0 < y) l -> 0 < zsum l.
Proof. intros Hne Hl. destruct Hl as [|x l Hx Hl]; [done |]. pose proof (zsum_nonneg l Hl). rewrite zsum_cons. lia. Qed.
Lemma layer_tuples_pos cfg l : l <> [] -> Forall (fun y => y.2 <> [] /\ Forall (fun z => usage_ok cfg z.2) y.2) l -> exists sb n, layer_tuples l = Ok (sb, n) /\ 0 < sb * n.
Proof.
  intros Hne Hl. unfold layer_tuples. destruct Hl as [|[names us] l [Hn Hu] Hl]; [done |]. set (l' := (names, us) :: l).
  assert (Forall (fun y => y.2 <> [] /\ Forall (fun z => usage_ok cfg z.2) y.2) l') as Hl' by (by constructor). rewrite Forall_forall in Hl'.
  change (py_index l' 0) with (Ok (names, us)). cbn [rbind snd] in *. unfold get_page_sizes. destruct (page_sizes_total cfg us Hu) as [pages Hp]. rewrite Hp. cbn [rbind].
  destruct (rmap_total (fun x => get_num_layer_tuples x.2) l') as [ns Hns].
  { intros y Hy. destruct (Hl' y Hy) as [Hy1 Hy2]. destruct (num_layer_tuples_pos cfg y.2 Hy1 Hy2) as (n & ? & _). by exists n. }
  rewrite Hns. cbn [rbind]. apply rmap_Ok in Hns. destruct (zmax_total ns) as [n Hn']; [intros ->; inversion Hns |]. rewrite Hn'. cbn [rbind]. eexists _, _. split; [done |].
  apply Z.mul_pos_pos.
  - apply zsum_pos.
    + apply rmap_Ok in Hp. destruct Hp as [|x p us' pages' Hx Hp]; [done |]. intros E. assert (p ∈ remove_dups (p :: pages')) as Hin by (apply elem_of_remove_dups; left). rewrite E in Hin. by apply elem_of_nil in Hin.
    + pose proof (page_sizes_pos cfg us pages Hu Hp) as Hpos. rewrite Forall_forall in Hpos. apply Forall_forall. intros y Hy. rewrite elem_of_remove_dups in Hy. by apply Hpos.
  - apply zmax_spec in Hn' as [Hin _]. apply list_elem_of_lookup in Hin as [i Hi]. destruct (Forall2_lookup_r _ _ _ _ _ Hns Hi) as (y & Hy & Ey).
    destruct (Hl' y (list_elem_of_lookup_2 _ _ _ Hy)) as [Hy1 Hy2]. destruct (num_layer_tuples_pos cfg y.2 Hy1 Hy2) as (m & Hm & ?). congruence.
Qed.
(** A configuration that is returned has blocks of a positive size. *)
Lemma pool_bytes_pos cfg gs mem w : gs <> [] -> Forall (fun g => group_ok cfg (group_spec g)) gs -> get_kv_cache_config_from_groups cfg gs mem = Ok w ->
  exists b, _pool_bytes_per_block gs = Ok b /\ 0 < b.
Proof.
  intros Hne Hok E. unfold get_kv_cache_config_from_groups in E. unfold _pool_bytes_per_block.
  assert (forall A (x : A) (k : A), match gs with [] => x | _ => k end = k) as Hm by (by destruct gs). rewrite Hm in E.
  pose proof (layout_spec gs) as Hlay. destruct (layout_of gs) as [names us|l|] eqn:El; apply rbind_Ok in E as (x & Hx & _).
  - destruct Hlay as (bs & e & ->). rewrite Forall_singleton in Hok. apply (group_page_pos cfg (GUniform 0 us)). exact Hok.
  - destruct (layer_tuples_pos cfg l) as (sb & n & Hl & Hpos).
    + intros ->. by inversion Hlay.
    + clear -Hok Hlay. induction Hlay as [|g y gs l (bs & e & ->) Hl IH]; [constructor |]. inversion Hok; subst. constructor; auto.
    + rewrite Hl. cbn [rbind fst snd]. eauto.
  - rinv. subst x. rewrite E, E0. cbn [rbind]. apply Z.ltb_lt in E1. exists (x1 * x0). split; [done |]. apply Z.mul_pos_pos; [| done].
    by eapply uniform_page_pos.
Qed.

(** What is required of the groups of a worker. *)
Definition groups_ok cfg gs : Prop := Forall (fun g => group_ok cfg (group_spec g) /\ group_complete g) gs.

(** A worker that passes the check has the blocks one request needs. *)
Lemma worker_spec cfg gs mem w : gs <> [] -> groups_ok cfg gs -> Forall (fun g => group_even cfg (group_spec g)) gs ->
  check_worker cfg gs mem = Ok tt -> get_kv_cache_config_from_groups cfg gs mem = Ok w ->
  (forall n b, num_gpu_blocks_override cfg = Some n -> _pool_bytes_per_block gs = Ok b -> mem = n * b) ->
  exists b, _pool_bytes_per_block gs = Ok b /\ 0 < b /\ w_num_blocks w = mem / b /\ w_groups w = gs /\ blocks_needed cfg gs <= w_num_blocks w /\
    tensors_ok (w_num_blocks w) b (concat (layer_names <$> gs)) (groups_aligned gs) (kv_cache_tensors w).
Proof.
  intros Hne Hgs He Hc Hw Hov. unfold groups_ok in Hgs. rewrite Forall_and in Hgs. destruct Hgs as [Hok Hcp].
  destruct (pool_bytes_pos cfg gs mem w Hne Hok Hw) as (b & Hb & Hpos). pose proof (max_memory_exact cfg gs b Hne Hok He Hb) as Hneed.
  assert (0 < mem /\ blocks_needed cfg gs * b <= mem) as [Hmem Hle].
  { unfold check_worker in Hc. destruct gs as [|g gs]; [done |]. unfold _check_enough_kv_cache_memory in Hc. destruct (Z.leb_spec mem 0); [done |].
    rewrite Hneed in Hc. cbn [rbind] in Hc. destruct (Z.ltb_spec mem (blocks_needed cfg (g :: gs) * b)); [by rinv | done]. }
  destruct (config_spec cfg gs mem b Hne Hok Hcp Hb Hpos) as (ts & Hts & Ht); [lia |]. rewrite Hw in Hts. injection Hts as ->. cbn [w_num_blocks w_groups kv_cache_tensors].
  assert (may_override_num_blocks cfg (mem / b) = mem / b) as Ho.
  { unfold may_override_num_blocks. destruct (num_gpu_blocks_override cfg) as [n|] eqn:En; [| done]. simpl. rewrite (Hov n b eq_refl Hb), Z.div_mul; lia. }
  rewrite Ho in *. exists b. split_and!; try done. apply Z.div_le_lower_bound; lia.
Qed.

(** Shrinking keeps the shares of the layers. *)
Lemma shrink_spec cfg N w w' b names P : shrink_worker cfg N w = Ok w' -> tensors_ok (w_num_blocks w) b names P (kv_cache_tensors w) ->
  w_num_blocks w' = N /\ w_groups w' = w_groups w /\ (0 < N <= w_num_blocks w -> tensors_ok N b names P (kv_cache_tensors w')).
Proof.
  intros E [H1 H2 H3]. unfold shrink_worker in E. rinv. subst w'. cbn [w_num_blocks w_groups kv_cache_tensors]. split; [done |]. split; [done |]. intros HN. set (old := w_num_blocks w) in *.
  apply rmap_Ok in E0.
  assert (exists qs, t_size <$> kv_cache_tensors w = (fun q => q * old) <$> qs /\ t_size <$> x = (fun q => q * N) <$> qs /\ shared_by <$> x = shared_by <$> kv_cache_tensors w) as (qs & Ht & Hx & Hs).
  { clear -E0 H2 HN. induction E0 as [|t t' ts ts' Ht Hts IH]; [by exists [] |]. inversion H2 as [|? ? (q & Hq) Hr]; subst. destruct (IH Hr) as (qs & I1 & I2 & I3).
    unfold shrink_tensor in Ht. rewrite (proj2 (Z.eqb_neq old 0)) in Ht by lia. rinv. subst t'. exists (q :: qs). rewrite !fmap_cons. cbn [t_size shared_by].
    rewrite Hq, Z.div_mul by lia. by rewrite I1, I2, I3. }
  split.
  - rewrite Hx, zsum_mul. rewrite Ht, zsum_mul in H1. assert (zsum qs = b) as -> by nia. ring.
  - apply Forall_fmap in H2. apply Forall_forall. intros t Ht'. assert (t_size t ∈ t_size <$> x) as Hin by (by apply list_elem_of_fmap_2). rewrite Hx in Hin.
    apply list_elem_of_fmap in Hin as (q & -> & _). by exists q.
  - intros HP. rewrite Hs. auto.
Qed.

(** ** All workers *)
Lemma auto_fit_override cfg P mem cfg' : _auto_fit_max_model_len cfg P mem = Ok cfg' -> num_gpu_blocks_override cfg' = num_gpu_blocks_override cfg.
Proof.
  intros E. unfold _auto_fit_max_model_len in E. destruct (forallb _ P); [by rinv; subst |]. rinv. destruct (_ <=? 0); [done |]. rinv. by destruct (_ <=? _); subst.
Qed.
Lemma override_memory_spec cfg P mems mem : override_memory cfg P mems = Ok mem ->
  (num_gpu_blocks_override cfg = None -> mem = mems) /\
  forall i gs m n b, P !! i = Some gs -> mem !! i = Some m -> gs <> [] -> num_gpu_blocks_override cfg = Some n -> _pool_bytes_per_block gs = Ok b -> m = n * b.
Proof.
  unfold override_memory. destruct (num_gpu_blocks_override cfg) as [n0|]; [| intros [= <-]; done]. intros E%rmap_Ok. split; [done |].
  intros i gs m n b Hgs Hm Hne [= <-] Hb. destruct (Forall2_lookup_r _ _ _ _ _ E Hm) as ([gs' m0] & Hi & Em). apply lookup_zip_with_Some in Hi as (? & ? & [= <- <-] & Hgs' & _).
  rewrite Hgs in Hgs'. injection Hgs' as <-. simpl in Em. destruct gs; [done |]. rewrite Hb in Em. cbn [rbind] in Em. rinv. by subst.
Qed.

(** What is known of the configuration of a worker before it is shrunk. *)
Definition worker_known cfg global (m : Z) (w : WorkerConfig) : Prop :=
  blocks_needed cfg (w_groups w) = blocks_needed cfg global /\
  (w_groups w = [] -> global = [] /\ w_num_blocks w = 1) /\
  (w_groups w <> [] -> exists b, _pool_bytes_per_block (w_groups w) = Ok b /\ 0 < b /\ w_num_blocks w = m / b /\ blocks_needed cfg (w_groups w) <= w_num_blocks w /\
     tensors_ok (w_num_blocks w) b (concat (layer_names <$> w_groups w)) (groups_aligned (w_groups w)) (kv_cache_tensors w)).
Lemma worker_config_known cfg global sp gs m w : Forall (fun g => group_even cfg (group_spec g)) global -> _project_kv_cache_groups_to_worker global sp = Ok gs ->
  check_worker cfg gs m = Ok tt -> worker_config cfg (gs, sp, m) = Ok w -> groups_ok cfg (w_groups w) ->
  (forall n b, gs <> [] -> num_gpu_blocks_override cfg = Some n -> _pool_bytes_per_block gs = Ok b -> m = n * b) -> worker_known cfg global m w.
Proof.
  intros Heven Hproj Hck Ew Hgok Hov. apply rbind_Ok in Ew as ([] & _ & Ew). cbn [fst snd] in Ew.
  assert (w_groups w = gs) as Ewg. { unfold get_kv_cache_config_from_groups in Ew. destruct gs; [by injection Ew as <- |]. apply rbind_Ok in Ew as (? & _ & Ew). by injection Ew as <-. }
  unfold worker_known. rewrite Ewg in *. destruct (project_blocks cfg global sp gs Heven Hproj) as (Hb & He & Hlen). split; [done |]. split.
  - intros ->. split; [by destruct global |]. by injection Ew as <-.
  - intros Hne. destruct (worker_spec cfg gs m w Hne Hgok He Hck Ew) as (b & H1 & H2 & H3 & _ & H4 & H5); [by intros; apply Hov | exists b; by split_and!].
Qed.

Lemma configs_spec cfg wspecs mems cfg' ws : get_kv_cache_configs cfg wspecs mems = Ok (cfg', ws) -> Forall (fun w => groups_ok cfg' (w_groups w)) ws ->
  exists N, forall i w, ws !! i = Some w ->
    w_num_blocks w = N /\ blocks_needed cfg' (w_groups w) <= N /\
    (w_groups w <> [] -> 0 < N ->
     exists b, _pool_bytes_per_block (w_groups w) = Ok b /\
       tensors_ok N b (concat (layer_names <$> w_groups w)) (groups_aligned (w_groups w)) (kv_cache_tensors w) /\
       (num_gpu_blocks_override cfg = None -> forall m, mems !! i = Some m -> N * b <= m)).
Proof.
  intros E Hws. unfold get_kv_cache_configs in E. apply rbind_Ok in E as (merged & _ & E). apply rbind_Ok in E as (global & Hg & E). apply rbind_Ok in E as (P & HP & E).
  apply rbind_Ok in E as (mem & Hmem & E). apply rbind_Ok in E as (cfg1 & Hfit & E). apply rbind_Ok in E as (us & Hchk & E). apply rbind_Ok in E as (cs & Hcs & E).
  apply rbind_Ok in E as (N & HN & E). apply rbind_Ok in E as (ws' & Hsh & [= <- <-]).
  assert (num_gpu_blocks_override cfg1 = num_gpu_blocks_override cfg) as Hov.
  { destruct (_ =? -1); [by eapply auto_fit_override | by injection Hfit as ->]. }
  apply rmap_Ok in HP, Hchk, Hcs, Hsh. destruct (override_memory_spec _ _ _ _ Hmem) as [Hm0 Hm1]. pose proof (groups_even cfg cfg1 merged global Hg) as Heven.
  pose proof (zmin_spec _ _ HN) as [HNin HNmin].
  assert (forall i w, cs !! i = Some w -> groups_ok cfg1 (w_groups w) -> exists m, mem !! i = Some m /\ worker_known cfg1 global m w) as Hw.
  { intros i w Hi Hgok. destruct (Forall2_lookup_r _ _ _ _ _ Hcs Hi) as ([[gs sp] m] & Hz & Ew). apply lookup_zip_with_Some in Hz as (? & ? & [= <- <-] & Hz & Hmi).
    apply lookup_zip_with_Some in Hz as (? & ? & [= <- <-] & Hgs & Hsp). destruct (Forall2_lookup_l _ _ _ i (gs, m) Hchk) as ([] & _ & Hck); [apply lookup_zip_with_Some; eauto |].
    exists m. split; [done |]. eapply (worker_config_known cfg1 global sp gs m w); try done; [by apply (Forall2_lookup_lr _ _ _ _ _ _ HP Hsp Hgs) |].
    intros n b Hne Hn Hbb. rewrite Hov in Hn. by eapply Hm1. }
  assert (forall i w', ws' !! i = Some w' -> exists w, cs !! i = Some w /\ shrink_worker cfg1 N w = Ok w' /\ w_groups w' = w_groups w /\ w_num_blocks w' = N) as Hlk.
  { intros i w' Hi. destruct (Forall2_lookup_r _ _ _ _ _ Hsh Hi) as (w & Hwi & Ew). exists w. split_and!; try done; unfold shrink_worker in Ew; by rinv; subst w'. }
  rewrite Forall_forall in Hws.
  assert (forall i w, cs !! i = Some w -> groups_ok cfg1 (w_groups w)) as Hcok.
  { intros i w Hi. destruct (Forall2_lookup_l _ _ _ _ _ Hsh Hi) as (w' & Hi' & _). destruct (Hlk i w' Hi') as (w2 & Hi2 & _ & Eg & _). rewrite Hi in Hi2. injection Hi2 as <-.
    rewrite <- Eg. by eapply Hws, list_elem_of_lookup_2. }
  assert (blocks_needed cfg1 global <= N) as HB.
  { apply list_elem_of_fmap in HNin as (w & -> & Hin). apply list_elem_of_lookup in Hin as [i Hi]. destruct (Hw i w Hi (Hcok i w Hi)) as (m & _ & H1 & H2 & H3).
    destruct (decide (w_groups w = [])) as [Hn | Hn]; [destruct (H2 Hn) as [-> ->]; done |]. destruct (H3 Hn) as (b & _ & _ & _ & ? & _). lia. }
  exists N. intros i w' Hi. destruct (Hlk i w' Hi) as (w & Hwi & Es & Eg & EN). destruct (Hw i w Hwi (Hcok i w Hwi)) as (m & Hm & H1 & _ & H3). rewrite Eg, H1. split_and!; [done | done |].
  intros Hne HNpos. destruct (H3 Hne) as (b & Hb & Hbpos & Hnb & _ & Ht). exists b.
  assert (N <= w_num_blocks w) as Hle by (apply HNmin, list_elem_of_fmap; exists w; split; [done | by eapply list_elem_of_lookup_2]). split_and!; [done | |].
  - by apply (shrink_spec cfg1 N w w' b _ _ Es Ht).
  - intros Hno m' Hm'. rewrite (Hm0 Hno) in Hm. rewrite Hm in Hm'. injection Hm' as <-. rewrite Hnb in Hle. pose proof (Z.mul_div_le m b Hbpos). nia.
Qed.

(** The scheduler's configuration has the blocks and needs of the first worker. *)
Lemma scheduler_config_spec cfg w ws : groups_ok cfg (w_groups w) -> Forall (fun w' => w_num_blocks w' = w_num_blocks w) ws ->
  exists c, generate_scheduler_kv_cache_config (w :: ws) = Ok c /\ w_num_blocks c = w_num_blocks w /\ blocks_needed cfg (w_groups c) = blocks_needed cfg (w_groups w).
Proof.
  intros Hok Hws. unfold generate_scheduler_kv_cache_config. rewrite (proj2 (forallb_forall _ _)).
  2: { rewrite Forall_forall in Hws. intros x [<- | Hx%list_elem_of_In]; apply Z.eqb_eq; [done | by apply Hws]. }
  cbn [rassert rbind]. unfold groups_ok in Hok.
  assert (exists gs, rmap (fun g => match group_spec g with
                            | GUniform _ ((_, s) :: _) => Ok (mkLayerGroup (layer_names g) (GLayer s) (lg_is_eagle g))
                            | GUniform _ [] => Err StopIteration
                            | _ => Ok g
                            end) (w_groups w) = Ok gs /\ blocks_needed cfg gs = blocks_needed cfg (w_groups w)) as (gs & Hgs & Hb).
  { unfold blocks_needed. induction Hok as [|g l [Hg _] Hl IH]; [by exists [] |]. destruct IH as (gs & Hgs & Hb). cbn [rmap].
    destruct (group_spec g) as [s|n [|[k s] us]] eqn:Eg; [| by destruct Hg |]; cbn [rbind]; rewrite Hgs; cbn [rbind]; eexists; (split; [reflexivity |]); rewrite !fmap_cons, !zsum_cons, Hb; cbn [group_spec]; by rewrite Eg. }
  rewrite Hgs. cbn [rbind]. eexists. split; [done |]. done.
Qed.
Lemma configs_nonempty cfg wspecs mems cfg' ws : get_kv_cache_configs cfg wspecs mems = Ok (cfg', ws) -> ws <> [].
Proof.
  intros E. unfold get_kv_cache_configs in E. rinv. subst. intros ->. apply rmap_Ok in E8. inversion E8. subst. discriminate.
Qed.
End workers.
