(* ===== verification/SizingProps.v ===== *)
(** * SizingProps
    Properties of the sizing of KV-cache memory: the search for the largest model length, the
    partition of the layers, the use of memory, what the configurations of all workers
    guarantee, and how that fits the KV-cache manager they are made for. *)
From S2P Require Import Prelude OrdDict KVCacheBlock FreeQueue Request BlockHash BlockPool BlockPoolInv Managers ManagerInv CacheHit Coordinator CoordinatorInv KVCacheManager KVCacheManagerInv Demo AllocProps EncoderCache HeapQ RequestQueue SchedUtils Scheduler Schedule SchedulerUpdate SchedulerDemo SchedulerInv EngineCore EngineProps KVCacheInterface KVCacheSizing SizingInv SizingGroups SizingMemory.

(** ** Concrete models *)

(** Element sizes of some data types. *)
#[local] Instance demo_dtypes : TorchDtypes := fun d => if bool_decide (d = "float32"%string) then 4 else 2.
Definition demo_vllm (max_model_len original : Z) : VllmConfig := mkVllm max_model_len original 1 1 128 0 "none" None false false 16 None true false None.
Definition demo_attn (heads : Z) : AttentionFields := mkAttn 16 heads 64 "bfloat16" QNONE None.
Definition full_layer (heads : Z) : LayerSpec := LFull PlainFull (demo_attn heads) 64 None None.
Definition sliding_layer (heads w : Z) : LayerSpec := LSliding (PlainSliding 64) (demo_attn heads) w.
(** Two full-attention layers and three with a sliding window *)
Definition demo_model : LayerSpecs :=
  [("f0", full_layer 2); ("s0", sliding_layer 2 20); ("s1", sliding_layer 2 20); ("f1", full_layer 2); ("s2", sliding_layer 2 20)]%string.
Definition demo_layer_groups : list LayerGroup :=
  [mkLayerGroup ["f0"; "f1"]%string (GLayer (full_layer 2)) false; mkLayerGroup ["s0"; "s2"]%string (GLayer (sliding_layer 2 20)) false;
   mkLayerGroup ["s1"]%string (GLayer (sliding_layer 2 20)) false].

(** ** The largest model length *)

(** C13 (functional): the search for the model length returns, after a number of rounds that is
    logarithmic in the configured length, the largest length up to the configured one whose
    memory need is within the available memory, or zero if not even one token fits. *)
Theorem max_model_len_maximal `{TorchDtypes} cfg gs b mem :
  gs <> [] -> Forall (fun g => group_ok cfg (group_spec g)) gs -> _pool_bytes_per_block gs = Ok b -> 1 <= v_max_model_len cfg ->
  exists r, _estimate_max_model_len_from_groups cfg gs mem = Ok r /\ 0 <= r <= v_max_model_len cfg /\
    forall n, 1 <= n <= v_max_model_len cfg ->
      exists need, _max_memory_usage_bytes_from_groups (with_max_model_len n cfg) gs = Ok need /\ (n <= r <-> need <= mem).
Proof.
  intros Hne Hok Hb Hlen. destruct (max_memory_from_groups_mono cfg gs b Hne Hok Hb) as (g & Hg & Hmono). unfold _estimate_max_model_len_from_groups.
  destruct (search_max_spec (fun n => do m <- _max_memory_usage_bytes_from_groups (with_max_model_len n cfg) gs in Ok (m <=? mem)) (fun n => g n <=? mem)) with (N := v_max_model_len cfg)
    as (r & Hr & Hbd & Hfit & Hmax); [intros n _; by rewrite Hg | | done |].
  - intros n m Hn Hm%Z.leb_le. apply Z.leb_le. pose proof (Hmono n m). lia.
  - exists r. split_and!; [done | lia | lia |]. intros n Hn. exists (g n). split; [apply Hg |]. split.
    + intros Hnr. destruct Hfit as [-> | Hfit%Z.leb_le]; [lia |]. pose proof (Hmono n r). lia.
    + intros Hle. destruct (Z.le_gt_cases n r) as [? | Hgt]; [done |]. assert ((g n <=? mem) = false) as Hf by (apply Hmax; lia). apply Z.leb_gt in Hf. lia.
Qed.

Lemma demo_groups_ok cfg : decode_context_parallel_size cfg = 1 -> Forall (fun g => group_ok cfg (group_spec g)) demo_layer_groups.
Proof.
  intros Hd. repeat constructor; simpl; try done; eexists; (split; [reflexivity | done]).
Qed.
Lemma max_model_len_maximal_witness : exists r,
  _estimate_max_model_len_from_groups (demo_vllm 1000 1000) demo_layer_groups 1000000 = Ok r /\ r = 624.
Proof.
  destruct (max_model_len_maximal (demo_vllm 1000 1000) demo_layer_groups 16384 1000000) as (r & Hr & _); [done | by apply demo_groups_ok | reflexivity | done |].
  exists r. split; [exact Hr |]. vm_compute in Hr. congruence.
Defined.

(** ** The groups *)

(** C14 (functional): whatever strategy get_kv_cache_groups chooses, every layer is in exactly
    one group, for a model that has only MLA layers next to sliding-window MLA layers, if it has any
    of those (other layers would be left out of all groups). *)
Theorem groups_partition_layers `{TorchDtypes} cfg specs gs :
  NoDup (od_keys specs) -> mla_complete specs -> get_kv_cache_groups cfg specs = Ok gs -> concat (layer_names <$> gs) ≡ₚ od_keys specs.
Proof. apply groups_names. Qed.

Lemma groups_partition_layers_witness :
  exists gs, get_kv_cache_groups (demo_vllm 1000 1000) demo_model = Ok gs /\ length gs = 3%nat /\ concat (layer_names <$> gs) ≡ₚ od_keys demo_model.
Proof.
  destruct (get_kv_cache_groups (demo_vllm 1000 1000) demo_model) as [gs|e] eqn:E; [| vm_compute in E; discriminate E]. exists gs. split; [reflexivity |]. split.
  - vm_compute in E. injection E as <-. reflexivity.
  - apply (groups_partition_layers (demo_vllm 1000 1000) demo_model gs); [| discriminate | exact E]. apply (bool_decide_unpack _). exact I.
Defined.

(** C15 (type): the groups are well formed for a shared pool: for a model without sliding-window
    MLA layers, whatever page sizes its layers have and whatever strategy is chosen, a block
    of the pool has one positive size in bytes (so no worker fails the assertion on page sizes
    and no memory size is divided by zero). *)
Theorem groups_one_page_size `{TorchDtypes} cfg specs gs :
  disable_hybrid_kv_cache_manager cfg = false -> specs <> [] -> Forall (fun x => usage_ok cfg x.2) specs ->
  Forall (fun x => is_sliding_mla x.2 = false) specs -> get_kv_cache_groups cfg specs = Ok gs ->
  exists b, _pool_bytes_per_block gs = Ok b /\ 0 < b.
Proof. apply groups_pool_bytes. Qed.

(** Two page sizes, one of which divides the other *)
Definition demo_two_sizes : LayerSpecs := [("f0", full_layer 2); ("s0", sliding_layer 4 20); ("s1", sliding_layer 4 20); ("f1", full_layer 2)]%string.
Lemma groups_one_page_size_witness : exists gs, get_kv_cache_groups (demo_vllm 1000 1000) demo_two_sizes = Ok gs /\ _pool_bytes_per_block gs = Ok 32768.
Proof.
  destruct (get_kv_cache_groups (demo_vllm 1000 1000) demo_two_sizes) as [gs|e] eqn:E; [| vm_compute in E; discriminate E]. exists gs. split; [reflexivity |].
  destruct (groups_one_page_size (demo_vllm 1000 1000) demo_two_sizes gs) as (b & Hb & _); [reflexivity | discriminate | | repeat constructor | exact E |].
  - repeat constructor; simpl; try reflexivity; eexists; (split; [reflexivity | reflexivity]).
  - rewrite Hb. vm_compute in E. injection E as <-. vm_compute in Hb. symmetry. exact Hb.
Defined.

(** The number of layer tuples per group is chosen optimally: among the sizes
    from the lower bound to the largest value it has the least total padding, and it is the
    largest such size. *)
Lemma approximate_gcd_optimal values lb d : _approximate_gcd values lb = Ok d ->
  Z.max 1 (default 1 lb) <= d /\
  forall x, Z.max 1 (default 1 lb) <= x -> (exists v, v ∈ values /\ x <= v) ->
    padding values d < padding values x \/ (padding values d = padding values x /\ x <= d).
Proof. apply approximate_gcd_spec. Qed.

(** ** The memory of a worker *)

(** The blocks of a worker fill its memory: there are as many blocks as fit (or
    as the override says), the tensors together have exactly the bytes of the blocks, and
    every layer is placed in exactly one tensor. *)
Lemma config_fills_memory `{TorchDtypes} cfg gs mem b :
  gs <> [] -> groups_ok cfg gs -> groups_aligned gs -> _pool_bytes_per_block gs = Ok b -> 0 < b -> 0 <= mem ->
  exists w, get_kv_cache_config_from_groups cfg gs mem = Ok w /\
    zsum (t_size <$> kv_cache_tensors w) = w_num_blocks w * b /\
    concat (shared_by <$> kv_cache_tensors w) ≡ₚ concat (layer_names <$> gs) /\
    match num_gpu_blocks_override cfg with
    | Some n => w_num_blocks w = n
    | None => w_num_blocks w * b <= mem < (w_num_blocks w + 1) * b
    end.
Proof.
  intros Hne Hgs Hal Hb Hpos Hmem. unfold groups_ok in Hgs. rewrite Forall_and in Hgs. destruct Hgs as [Hok Hc].
  destruct (config_spec cfg gs mem b Hne Hok Hc Hb Hpos Hmem) as (ts & Hts & [H1 _ H3]). eexists. split; [exact Hts |]. cbn [w_num_blocks kv_cache_tensors]. split_and!; [done | by apply H3 |].
  unfold may_override_num_blocks. destruct (num_gpu_blocks_override cfg); [done |]. simpl. pose proof (Z.div_mod mem b ltac:(lia)). pose proof (Z.mod_pos_bound mem b Hpos). nia.
Qed.

(** ** All workers *)

(** C12 (safety): when get_kv_cache_configs returns, with groups whose layers have positive
    block and page sizes, all workers have the same number of blocks, their tensors take
    exactly the bytes of these blocks and, unless num_gpu_blocks_override is set, fit into the
    memory they had, the scheduler's configuration can be generated from them, and the number
    of blocks is at least the sum of the pages one request of the largest model length
    needs in each group. (The pool takes one of these blocks as its null block, which this sum
    does not count.) *)
Theorem configs_serve_request `{TorchDtypes} cfg wspecs mems cfg' ws :
  get_kv_cache_configs cfg wspecs mems = Ok (cfg', ws) -> Forall (fun w => groups_ok cfg' (w_groups w)) ws ->
  exists N c, generate_scheduler_kv_cache_config ws = Ok c /\ w_num_blocks c = N /\ blocks_needed cfg' (w_groups c) <= N /\
    forall i w, ws !! i = Some w -> w_num_blocks w = N /\
      (w_groups w <> [] -> 0 < N ->
       exists b, _pool_bytes_per_block (w_groups w) = Ok b /\ zsum (t_size <$> kv_cache_tensors w) = N * b /\
         (num_gpu_blocks_override cfg = None -> forall m, mems !! i = Some m -> N * b <= m)).
Proof.
  intros E Hok. destruct (configs_spec cfg wspecs mems cfg' ws E Hok) as (N & HN). pose proof (configs_nonempty _ _ _ _ _ E) as Hne. destruct ws as [|w ws]; [done |].
  destruct (HN 0%nat w eq_refl) as (Hw & Hneed & _). inversion Hok as [|? ? Hwok _]; subst.
  destruct (scheduler_config_spec cfg' w ws Hwok) as (c & Hc & Hcn & Hcb).
  { apply Forall_forall. intros w' [i Hi]%list_elem_of_lookup. by destruct (HN (S i) w' Hi). }
  exists (w_num_blocks w), c. split_and!; [done | done | by rewrite Hcb |]. intros i w' Hi. destruct (HN i w' Hi) as (H1 & _ & H3). split; [done |].
  intros Hg Hpos. destruct (H3 Hg Hpos) as (b & Hb & [Ht _ _] & Hm). exists b. by split_and!.
Qed.

Lemma configs_serve_request_witness : exists cfg' ws c,
  get_kv_cache_configs (demo_vllm 1000 (-1)) [demo_model] [1000000] = Ok (cfg', ws) /\ v_max_model_len cfg' = 624 /\
  generate_scheduler_kv_cache_config ws = Ok c /\ blocks_needed cfg' (w_groups c) <= w_num_blocks c.
Proof.
  destruct (get_kv_cache_configs (demo_vllm 1000 (-1)) [demo_model] [1000000]) as [[cfg' ws]|e] eqn:E; [| vm_compute in E; discriminate E].
  destruct (configs_serve_request (demo_vllm 1000 (-1)) [demo_model] [1000000] cfg' ws E) as (N & c & Hc & Hn & Hb & _).
  - vm_compute in E. injection E as <- <-. constructor; [| constructor]. unfold groups_ok. rewrite Forall_and. split; [by apply demo_groups_ok | by repeat constructor].
  - exists cfg', ws, c. split; [reflexivity |]. split; [vm_compute in E; injection E as <- <-; reflexivity |]. split; [exact Hc |]. rewrite Hn. exact Hb.
Defined.

(** ** The block sizes of the scheduler *)
Lemma lcm_list_divide l x : x ∈ l -> (x | lcm_list l).
Proof.
  induction l as [|y l IH]; [by intros ?%elem_of_nil |]. simpl. intros [-> | Hx]%elem_of_cons; [apply Z.divide_lcm_l |].
  etransitivity; [by apply IH | apply Z.divide_lcm_r].
Qed.
(** With several groups the scheduler's block size is a multiple of every group's, and block
    hashes are computed either at that size or at one that divides every group's. *)
Lemma resolved_sizes_divide c cfg sbs hbs : (1 < length (w_groups c))%nat -> resolve_kv_cache_block_sizes c cfg = Ok (sbs, hbs) ->
  forall g, g ∈ w_groups c -> (group_block_size (group_spec g) | sbs) /\ (hbs = sbs \/ (hbs | group_block_size (group_spec g))).
Proof.
  intros Hlen E g Hg. unfold resolve_kv_cache_block_sizes in E. destruct (w_groups c) as [|g1 [|g2 gs]] eqn:Egs; simpl in Hlen; [lia | lia |]. rewrite <- Egs in *. clear Hlen.
  set (sizes := (fun g => group_block_size (group_spec g)) <$> w_groups c) in *. assert (group_block_size (group_spec g) ∈ sizes) as Hin by (by apply list_elem_of_fmap; exists g).
  assert (sbs = lcm_list sizes /\ (hbs = sbs \/ (hbs | group_block_size (group_spec g)))) as [-> ?]; [| split; [by apply lcm_list_divide | done]].
  destruct (_ || _); [done |]. destruct (negb _); [by injection E as <- <-; auto |]. destruct (existsb _ (w_groups c)); [by injection E as <- <-; auto |].
  destruct (Z.eqb_spec (default (gcd_list sizes) (cache_hash_block_size cfg)) 0) as [|Hz]; [done |]. destruct (existsb _ sizes) eqn:Ed; [done |]. injection E as <- <-. split; [done |]. right.
  apply Z.mod_divide; [done |]. destruct (Z.eqb_spec (group_block_size (group_spec g) mod default (gcd_list sizes) (cache_hash_block_size cfg)) 0) as [? | Hne]; [done |].
  exfalso. apply not_true_iff_false in Ed. apply Ed, existsb_exists. eexists. split; [by apply list_elem_of_In |]. apply negb_true_iff. by apply Z.eqb_neq.
Qed.

(** ** The KV-cache manager on a sized pool *)

(** The spec of a group as the coordinator reads it; [rest] stands for the fields it only
    compares. Encoder-only layers have no manager. *)
Definition spec_class_of (s : LayerSpec) : option SpecClass :=
  match s with
  | LFull PlainFull _ _ _ _ => Some FullAttentionSpec
  | LFull (TQFull _) _ _ _ _ => Some TQFullAttentionSpec
  | LFull (MLAFull _) _ _ _ _ => Some MLAAttentionSpec
  | LFull (SinkFull n) _ _ _ _ => Some (SinkFullAttentionSpec n)
  | LSliding (PlainSliding _) _ w => Some (SlidingWindowSpec w)
  | LSliding (MLASliding _ _) _ w => Some (SlidingWindowMLASpec w)
  | LChunkedLocal _ k => Some (ChunkedLocalAttentionSpec k)
  | LCross _ => Some CrossAttentionSpec
  | LMamba m => Some (MambaSpec (bool_decide (mb_cache_mode m = "align"%string)) (mb_num_speculative_blocks m))
  | LEncoderOnly _ => None
  end.
Definition coordinator_group (rest : LayerSpec -> Z) (g : LayerGroup) : option KVCacheGroupSpec :=
  match group_spec g with
  | GLayer s => c ← spec_class_of s; Some (mkGroup (mkSpec c (block_size_of s) (rest s)) (lg_is_eagle g))
  | GUniform _ _ => None
  end.
Definition coordinator_config (rest : LayerSpec -> Z) (c : WorkerConfig) : option KVCacheConfig :=
  gs ← mapM (coordinator_group rest) (w_groups c); Some (mkConfig (w_num_blocks c) gs (w_nelssa_config c)).

(** Layers whose blocks are counted in tokens: full attention, sliding windows and chunks. *)
Definition token_layer (s : LayerSpec) : Prop :=
  0 < block_size_of s /\
  match s with
  | LFull (SinkFull _) _ _ _ _ => False
  | LFull _ _ _ _ _ => True
  | LSliding _ _ w => 1 <= w
  | LChunkedLocal _ k => 0 <= k
  | _ => False
  end.

(** The manager a coordinator builds for a group *)
Definition built (batched mml : Z) (g : KVCacheGroupSpec) (m : Manager) : Prop :=
  kind m = manager_class (kv_cache_spec g) /\ block_size m = s_block_size (kv_cache_spec g) /\ req_to_blocks m = ∅ /\
  _max_admission_blocks_per_request m = match spec_class (kv_cache_spec g) with
                                        | SlidingWindowSpec w | SlidingWindowMLASpec w => Some (swa_max_admission (s_block_size (kv_cache_spec g)) w batched mml)
                                        | ChunkedLocalAttentionSpec c => Some (chunked_max_admission (s_block_size (kv_cache_spec g)) c batched mml)
                                        | _ => None
                                        end.
Lemma build_managers_built gs batched mml caching p : forall gid, Forall (plain_group None) gs ->
  exists ms, build_managers gs gid batched mml caching 1 1 None p = (Ok ms, p) /\ Forall2 (built batched mml) gs ms.
Proof.
  induction gs as [|g gs IH]; intros gid Hall; simpl; [by exists [] |]. apply Forall_cons in Hall as [[Hbs Hg] Hall]. destruct (IH (gid + 1) Hall) as (ms & Hrun & Hms).
  assert (exists m, get_manager_for_kv_cache_spec (kv_cache_spec g) batched mml caching gid 1 1 None p = (Ok m, p) /\ built batched mml g m) as (m & Hm & Hb).
  { unfold get_manager_for_kv_cache_spec, built, bind, get. specialize (Hg eq_refl). destruct (spec_class (kv_cache_spec g)) eqn:Ec; try done; (eexists; split; [done |]; unfold manager_class; by rewrite Ec). }
  exists (m :: ms). unfold bind. rewrite Hm, Hrun. split; [done | by constructor].
Qed.
Lemma coordinator_built kc mml batched eagle caching ev hbs ui c : nelssa_config kc = None -> Forall (plain_group None) (kv_cache_groups kc) ->
  get_kv_cache_coordinator kc mml batched eagle caching ev 1 1 hbs ui = Ok c -> Forall2 (built batched mml) (kv_cache_groups kc) (single_type_managers c).
Proof.
  intros Hn Hg. unfold get_kv_cache_coordinator. rewrite Hn. destruct (new_BlockPool _ _ _ _ _) as [p|]; [| done]. cbn [rbind]. cbv zeta.
  destruct (build_managers_built (kv_cache_groups kc) batched mml caching p 0 Hg) as (ms & Hrun & Hms). rewrite Hrun. intros Hc.
  destruct (negb caching); [by injection Hc as <- |]. destruct (kv_cache_groups kc) as [|g [|g' gs]]; rinv; by subst.
Qed.

Section admission.
Variables (cfg : VllmConfig) (rest : LayerSpec -> Z) (rid : string) (n : Z).
Hypothesis no_dcp : decode_context_parallel_size cfg = 1.
Hypothesis no_pcp : prefill_context_parallel_size cfg = 1.
Hypothesis n_pos : 0 < n.
Hypothesis n_batched : n <= v_max_num_batched_tokens cfg.
Hypothesis n_max : n <= v_max_model_len cfg.

Definition token_group (g : LayerGroup) : Prop := match group_spec g with GLayer s => token_layer s | GUniform _ _ => False end.

(** The manager of a group is ready for the first [n] tokens of a request, and they take no
    more blocks than the sizing foresees. *)
Lemma token_need g kg m : token_group g -> coordinator_group rest g = Some kg -> built (v_max_num_batched_tokens cfg) (v_max_model_len cfg) kg m ->
  plain_group None kg /\ ready rid n 0 m /\ need_of rid n m <= group_pages cfg (group_spec g).
Proof.
  unfold token_group, coordinator_group. destruct (group_spec g) as [s|]; [| done]. intros [Hbs Hs] Hk (Hkind & Hb & Ht & Hcap).
  assert (forall k, cdiv n (block_size_of s) <= k -> need_of rid n m <= k) as Hneed.
  { intros k Hle. unfold need_of. destruct (spec_class_of s); [| done]. injection Hk as <-. rewrite Ht, Hb, tbl_empty. simpl in *. change (zlen []) with 0.
    pose proof (cdiv_nonneg n (block_size_of s) Hbs). lia. }
  assert (known rid 0 m <-> skipped_of m 0 <= 0 \/ is_Some (num_cached_block m !! rid)) as Hkn.
  { unfold known. rewrite Ht, tbl_empty. change (zlen []) with 0. tauto. }
  destruct s as [c a v w k|a k|c a w|a|a|f]; try done.
  - assert (spec_class_of (LFull c a v w k) <> None) as Hc by (by destruct c). simpl in Hbs.
    split; [| split].
    + destruct c; try done; injection Hk as <-; by split.
    + split_and!; [destruct c; try done; injection Hk as <-; unfold uses_base; by rewrite Hkind | destruct c; try done; injection Hk as <-; unfold uncapped; by rewrite Hcap |].
      apply Hkn. left. unfold skipped_of. destruct c; try done; injection Hk as <-; rewrite Hkind; done.
    + apply Hneed. cbn [group_pages pages_needed block_size_of]. rewrite no_dcp, no_pcp. simpl. by apply cdiv_mono.
  - injection Hk as <-. simpl in *. split; [by split |]. assert (cdiv n (at_block_size a) <= chunked_max_admission (at_block_size a) k (v_max_num_batched_tokens cfg) (v_max_model_len cfg)) as Hle by (apply cdiv_mono; lia).
    split; [| by apply Hneed]. split_and!; [unfold uses_base; by rewrite Hkind | unfold uncapped; rewrite Hcap; by rewrite Hb |].
    apply Hkn. left. unfold skipped_of. rewrite Hkind, Hb. simpl. by rewrite Zdiv_0_l.
  - assert (cdiv n (at_block_size a) <= swa_max_admission (at_block_size a) w (v_max_num_batched_tokens cfg) (v_max_model_len cfg)) as Hle.
    { unfold swa_max_admission. pose proof (cdiv_mono n (Z.min (w - 1 + v_max_num_batched_tokens cfg) (v_max_model_len cfg)) (at_block_size a) Hbs). lia. }
    split; [destruct c; injection Hk as <-; by split |]. split; [| by apply Hneed].
    split_and!; [unfold uses_base; destruct c; injection Hk as <-; by rewrite Hkind | unfold uncapped; destruct c; injection Hk as <-; rewrite Hcap; by rewrite Hb |].
    apply Hkn. left. unfold skipped_of. destruct c; injection Hk as <-; rewrite Hkind, Hb; simpl; rewrite Z.max_l by lia; by rewrite Zdiv_0_l.
Qed.
Lemma token_needs gs kgs ms : Forall token_group gs -> mapM (coordinator_group rest) gs = Some kgs ->
  Forall2 (built (v_max_num_batched_tokens cfg) (v_max_model_len cfg)) kgs ms ->
  (forall m, m ∈ ms -> ready rid n 0 m) /\ sum_over (need_of rid n) ms <= blocks_needed cfg gs.
Proof.
  intros Hgs Hk%mapM_Some Hms. unfold blocks_needed. revert ms Hms. induction Hk as [|g kg gs kgs Hg Hk IH]; intros ms Hms; inversion Hms as [|? m ? ms' Hm Hms']; subst.
  - split; [by intros m ?%elem_of_nil | done].
  - inversion Hgs as [|? ? Hg1 Hgs1]; subst. destruct (token_need g kg m Hg1 Hg Hm) as (_ & H1 & H2). destruct (IH Hgs1 ms' Hms') as [H3 H4]. split.
    + intros m' [-> | Hm']%elem_of_cons; auto.
    + rewrite fmap_cons, zsum_cons. simpl. lia.
Qed.
Lemma token_plain gs kgs : Forall token_group gs -> mapM (coordinator_group rest) gs = Some kgs -> Forall (plain_group None) kgs.
Proof.
  intros Hgs Hk%mapM_Some. induction Hk as [|g kg gs kgs Hg Hk IH]; [constructor |]. inversion Hgs as [|? ? Hg1 Hgs1]; subst. constructor; [| auto].
  unfold token_group in Hg1. unfold coordinator_group in Hg. destruct (group_spec g) as [s|]; [| done]. destruct Hg1 as [Hb Hs].
  destruct s as [[] a v w k|a k|[] a w|a|a|f]; try done; injection Hg as <-; by split.
Qed.
End admission.

(** The pool is large enough for what it was sized for: on a new KV-cache manager
    with more blocks than the sizing says one request needs, allocate_slots grants the first
    tokens of a request, up to the batch size and the largest model length, over any number
    of full-attention, sliding-window and chunked groups. *)
Lemma sized_pool_admits sha256 cfg rest c kc hbs caching eagle logs ev ui k r n :
  decode_context_parallel_size cfg = 1 -> prefill_context_parallel_size cfg = 1 ->
  Forall token_group (w_groups c) -> w_nelssa_config c = None -> blocks_needed cfg (w_groups c) < w_num_blocks c ->
  coordinator_config rest c = Some kc ->
  new_KVCacheManager kc (v_max_model_len cfg) hbs (Some (v_max_num_batched_tokens cfg)) caching eagle logs ev 1 1 ui = Ok k ->
  num_computed_tokens r = 0 -> nelssa_long_mask r = false -> 0 < n <= v_max_num_batched_tokens cfg -> n <= v_max_model_len cfg ->
  (caching = true -> slots_cache r n k) ->
  exists Ks r' k', allocate_slots sha256 r n 0 None 0 0 false 0 k = (Ok (Some (create_kv_cache_blocks Ks), r'), k').
Proof.
  intros Hd Hp Hgs Hne Hn Hkc Hk Hr0 Hrl Hnb Hnm Hcache. unfold coordinator_config in Hkc. destruct (mapM _ _) as [kgs|] eqn:Em; [| done]. injection Hkc as <-.
  unfold new_KVCacheManager in Hk. rinv. rename x into co. cbn [default] in E. unfold id in E. rewrite Hne in E. pose proof (token_plain rest _ _ Hgs Em) as Hplain.
  set (kc := mkConfig (w_num_blocks c) kgs None) in E.
  destruct (coordinator_initial_ok kc _ _ _ _ _ _ _ _ _ _ Hplain E) as (Hok & _ & Hlen).
  pose proof (coordinator_built kc _ _ _ _ _ _ _ _ eq_refl Hplain E) as Hbuilt. cbn [kc kv_cache_groups num_blocks] in *.
  destruct (token_needs cfg rest (request_id r) n Hd Hp (proj1 Hnb) (proj2 Hnb) Hnm _ _ _ Hgs Em Hbuilt) as [Hready Hneed]. set (L := seq 1 _) in Hok.
  assert (slots_needed r n 0 k = n) as Hsn by (unfold slots_needed, slots_total; subst k; simpl; rewrite Hr0; lia).
  destruct (allocate_slots_spec sha256 r n 0 0 false k L) as (c1 & L1 & Hc1 & HL1 & _ & Hres).
  - split; subst k; simpl in *; try done; try lia.
    + unfold slots_total. simpl. rewrite Hr0. lia.
    + intros m Hm. rewrite Hsn, Hr0. by apply Hready.
  - intros Hon _. apply Hcache. by subst k.
  - cbv zeta in Hres. rewrite Hsn in Hres. rewrite (proj2 (Z.ltb_ge _ _)) in Hres; [by destruct Hres as (Ks & r' & k' & Hrun & _); exists Ks, r', k' |].
    subst k. simpl. assert (zlen L = w_num_blocks c - 1); [| lia]. subst L. unfold zlen. rewrite length_seq. assert (0 <= blocks_needed cfg (w_groups c)); [| lia].
    etransitivity; [| exact Hneed]. clear. induction (single_type_managers co) as [|m ms IH]; simpl; [done |]. pose proof (need_of_nonneg (request_id r) n m). lia.
Qed.

(** ** A pool that fits exactly *)

(** A model of one layer on a worker with memory for three pages; its engine, with one request
    of 40 tokens. *)
Definition sized_config : SchedulerConfig :=
  mkSchedConfig FCFS false 8 128 48 0 true false false 0 false false 0 0 false 16 16 None (mkNelssa false 16 16 20 0) false false false true.
Definition sized_engine : option (EngineCore unit) :=
  match get_kv_cache_configs (demo_vllm 48 48) [[("f0"%string, full_layer 1)]] [12288] with
  | Ok (cfg, ws) =>
    match generate_scheduler_kv_cache_config ws with
    | Ok c =>
      kc ← coordinator_config (fun _ => 0) c;
      match new_KVCacheManager kc (v_max_model_len cfg) 16 (Some (v_max_num_batched_tokens cfg)) true false false false 1 1 false with
      | Ok k => match engine_add_request None 0 (demo_req "a" 40 0) (new_engine (new_scheduler sized_config k 0 false tt)) with (Ok _, e) => Some e | _ => None end
      | Err _ => None
      end
    | Err _ => None
    end
  | Err _ => None
  end.
Definition sized_step (o : option (EngineCore unit)) : option (EngineCore unit) :=
  e ← o; match step sized_config (fun x => x) None [] e with (Ok _, e') => Some e' | _ => None end.
Definition starved (o : option (EngineCore unit)) : bool :=
  match o with Some e => bool_decide (running (scheduler e) = [] /\ qitems (waiting (scheduler e)) = [0]) | None => false end.

(** The check at startup does not count the null block. On a worker whose memory is
    exactly what one request of the largest model length (48 tokens) needs, the check passes,
    but a request of 40 tokens is never scheduled: after any number of steps it is the only
    request, waiting. *)
Lemma exact_fit_starves n : exists e, Nat.iter n sized_step sized_engine = Some e /\ running (scheduler e) = [] /\ qitems (waiting (scheduler e)) = [0].
Proof.
  assert (forall o, starved o = true -> exists e, o = Some e /\ running (scheduler e) = [] /\ qitems (waiting (scheduler e)) = [0]) as Hs.
  { intros [e|] Ho; [| discriminate Ho]. apply bool_decide_eq_true in Ho. by exists e. }
  apply Hs. destruct n as [|n]; [vm_compute; reflexivity |].
  assert (Nat.iter (S n) sized_step sized_engine = sized_step sized_engine) as ->; [| vm_compute; reflexivity].
  induction n as [|n IH]; [reflexivity |]. change (Nat.iter (S (S n)) sized_step sized_engine) with (sized_step (Nat.iter (S n) sized_step sized_engine)).
  rewrite IH. clear. vm_compute. reflexivity.
Qed.

(** ** Executions that do not do what the code means to do *)

(** FullAttentionSpec.merge does not compare the sizes of the value heads: both layers get
    tensors for the pages of the first. *)
Definition wide_layer : LayerSpec := LFull PlainFull (demo_attn 1) 128 None None.
Example merge_ignores_value_heads :
  match get_kv_cache_configs (demo_vllm 48 48) [[("l0", full_layer 1); ("l1", wide_layer)]%string] [65536] with
  | Ok (_, [w]) => w_num_blocks w = 8 /\ (fun t => (t_size t, shared_by t)) <$> kv_cache_tensors w = [(32768, ["l0"%string]); (32768, ["l1"%string])]
  | _ => False
  end /\ page_size_bytes wide_layer = Ok 6144 /\ 32768 < 6144 * 8.
Proof. vm_compute. repeat split. Qed.

(** Two sliding windows among full-attention specs are not reported as different specs: the
    ValueError of merge_window_sizes is not caught. *)
Example two_windows_raise :
  is_kv_cache_spec_uniform [("l0", LFull PlainFull (demo_attn 1) 64 (Some 16) None); ("l1", LFull PlainFull (demo_attn 1) 64 (Some 32) None)]%string = Err ValueError.
Proof. reflexivity. Qed.

(** Converting a chunked-local layer to full attention drops its quantization mode, and with it
    the bytes for its scales. *)
Example unified_layer_loses_scales :
  let s := LChunkedLocal (mkAttn 16 2 64 "int8" INT8_PER_TOKEN_HEAD None) 32 in
  match unify_one None s with
  | Ok s' => page_size_bytes s = Ok 8448 /\ page_size_bytes s' = Ok 8192
  | Err _ => False
  end.
Proof. vm_compute. by split. Qed.

(** On a pipeline stage that has no full-attention layer of the page size to which a
    sliding-window layer was padded, this layer is in no tensor. *)
Definition mla_attn (head_size : Z) : AttentionFields := mkAttn 16 1 head_size "bfloat16" QNONE None.
Definition plain_mla : MLAFields := mkMLA None None 1 None.
Definition mla_layer (head_size : Z) : LayerSpec := LFull (MLAFull plain_mla) (mla_attn head_size) head_size None None.
Definition swa_mla_layer (head_size : Z) : LayerSpec := LSliding (MLASliding plain_mla None) (mla_attn head_size) 16.
Example stage_without_tensor :
  match get_kv_cache_configs (demo_vllm 48 48) [[("m0", mla_layer 64); ("s0", swa_mla_layer 128)]; [("m1", mla_layer 128); ("s1", swa_mla_layer 128)]]%string [1000000; 1000000] with
  | Ok (_, [w; _]) => concat (layer_names <$> w_groups w) = ["m0"; "s0"]%string /\ concat (shared_by <$> kv_cache_tensors w) = ["m0"]%string
  | _ => False
  end.
Proof. vm_compute. by split. Qed.
