(* ===== verification/WorkerBlockTable.v ===== *)
(** * WorkerBlockTable
    vllm/v1/worker/block_table.py: the block tables of a GPU worker, one row per request of
    the persistent batch, with the compaction of rows for NELSSA and the mapping of token
    positions to slots of the KV cache.

    Row indices are natural numbers. A numpy array with one entry per row is a list; the
    32-bit entries hold block numbers and counts, which are far below their bound. The device
    copy of the table is a second list; a worker does not survive an exception, so the
    state at a raise is not kept. *)
From S2P Require Import Prelude OrdDict CacheHit KVCacheInterface.

(** ** Arrays *)
Section arrays.
Context {A : Type}.
Implicit Types (l : list A).

(** [a\[i\]], [a\[i\] = x] *)
Definition np_get l (i : nat) : res A := match l !! i with Some x => Ok x | None => Err IndexError end.
Definition np_set l (i : nat) (x : A) : res (list A) := if bool_decide (i < length l)%nat then Ok (<[i := x]> l) else Err IndexError.

(** [a\[start:stop\] = vals] and [a\[start:stop\] = x]. The values must have the length of the slice; one value is repeated. *)
Definition np_put l (start : Z) (vals : list A) : list A :=
  take (Z.to_nat start) l ++ vals ++ drop (Z.to_nat start + length vals) l.
Definition slice_len l (start stop : Z) : Z := Z.max 0 (slice_bound (zlen l) stop - slice_bound (zlen l) start).
Definition np_fill l (start stop : Z) (x : A) : list A :=
  np_put l (slice_bound (zlen l) start) (replicate (Z.to_nat (slice_len l start stop)) x).
Definition np_assign l (start stop : Z) (vals : list A) : res (list A) :=
  if zlen vals =? slice_len l start stop then Ok (np_put l (slice_bound (zlen l) start) vals)
  else match vals with [x] => Ok (np_fill l start stop x) | _ => Err ValueError end.
End arrays.

(** ** BlockTable *)
Record BlockTable := mkBT {
  bt_block_size : Z;
  blocks_per_kv_block : Z;
  use_hybrid_blocks : bool;
  bt_max_num_blocks_per_req : Z;
  block_table : list (list Z);
  block_table_gpu : list (list Z);
  num_blocks_per_row : list Z;
  nelssa_compacted : list bool;
  nelssa_head_blocks : list Z;
  bt_nelssa_tail_blocks : list Z;
  bt_nelssa_tail_start_pos : list Z;
  pcp_world_size : Z;
  pcp_rank : Z;
  dcp_world_size : Z;
  dcp_rank : Z;
  cp_kv_cache_interleave_size : Z;
}.

(** [cp] is the world size and rank of the two context-parallel groups. *)
Definition new_BlockTable (block_size : Z) (max_num_reqs : nat) (max_num_blocks_per_req kernel_block_size interleave : Z) (cp : Z * Z * (Z * Z)) : res BlockTable :=
  do x <- (if kernel_block_size =? block_size then Ok (block_size, 1, false)
           else if kernel_block_size =? 0 then Err ZeroDivisionError
           else if negb (block_size mod kernel_block_size =? 0) then Err ValueError
           else Ok (kernel_block_size, block_size / kernel_block_size, true)) in
  let width := max_num_blocks_per_req * x.1.2 in
  let empty := replicate max_num_reqs (replicate (Z.to_nat width) 0) in
  let zeros := replicate max_num_reqs 0 in
  Ok (mkBT x.1.1 x.1.2 x.2 width empty empty zeros (replicate max_num_reqs false) zeros zeros zeros cp.1.1 cp.1.2 cp.2.1 cp.2.2 interleave).

Definition with_table (t : list (list Z)) (n : list Z) (b : BlockTable) : BlockTable :=
  mkBT (bt_block_size b) (blocks_per_kv_block b) (use_hybrid_blocks b) (bt_max_num_blocks_per_req b) t (block_table_gpu b) n
    (nelssa_compacted b) (nelssa_head_blocks b) (bt_nelssa_tail_blocks b) (bt_nelssa_tail_start_pos b)
    (pcp_world_size b) (pcp_rank b) (dcp_world_size b) (dcp_rank b) (cp_kv_cache_interleave_size b).
Definition with_gpu (g : list (list Z)) (b : BlockTable) : BlockTable :=
  mkBT (bt_block_size b) (blocks_per_kv_block b) (use_hybrid_blocks b) (bt_max_num_blocks_per_req b) (block_table b) g (num_blocks_per_row b)
    (nelssa_compacted b) (nelssa_head_blocks b) (bt_nelssa_tail_blocks b) (bt_nelssa_tail_start_pos b)
    (pcp_world_size b) (pcp_rank b) (dcp_world_size b) (dcp_rank b) (cp_kv_cache_interleave_size b).
Definition with_layout (c : list bool) (h t s : list Z) (b : BlockTable) : BlockTable :=
  mkBT (bt_block_size b) (blocks_per_kv_block b) (use_hybrid_blocks b) (bt_max_num_blocks_per_req b) (block_table b) (block_table_gpu b) (num_blocks_per_row b)
    c h t s (pcp_world_size b) (pcp_rank b) (dcp_world_size b) (dcp_rank b) (cp_kv_cache_interleave_size b).

Definition map_to_kernel_blocks (kv_manager_block_ids : list Z) (n : Z) : list Z :=
  if n =? 1 then kv_manager_block_ids
  else concat ((fun b => (fun j => b * n + j) <$> range n) <$> kv_manager_block_ids).

Definition append_row (block_ids : list Z) (row_idx : nat) (b : BlockTable) : res BlockTable :=
  match block_ids with
  | [] => Ok b
  | _ =>
    let ids := if use_hybrid_blocks b then map_to_kernel_blocks block_ids (blocks_per_kv_block b) else block_ids in
    do start <- np_get (num_blocks_per_row b) row_idx in
    do counts <- np_set (num_blocks_per_row b) row_idx (start + zlen ids) in
    do row <- np_get (block_table b) row_idx in
    do row' <- np_assign row start (start + zlen ids) ids in
    do t <- np_set (block_table b) row_idx row' in
    Ok (with_table t counts b)
  end.
Definition add_row (block_ids : list Z) (row_idx : nat) (b : BlockTable) : res BlockTable :=
  do counts <- np_set (num_blocks_per_row b) row_idx 0 in
  append_row block_ids row_idx (with_table (block_table b) counts b).
Definition clear_row (row_idx : nat) (b : BlockTable) : res BlockTable :=
  do n <- np_get (num_blocks_per_row b) row_idx in
  do row <- np_get (block_table b) row_idx in
  do t <- np_set (block_table b) row_idx (if 0 <? n then np_fill row 0 n 0 else row) in
  do counts <- np_set (num_blocks_per_row b) row_idx 0 in
  Ok (with_table t counts b).

Definition set_layout (row_idx : nat) (c : bool) (head_blocks tail_blocks tail_start_pos : Z) (b : BlockTable) : res BlockTable :=
  do cs <- np_set (nelssa_compacted b) row_idx c in
  do hs <- np_set (nelssa_head_blocks b) row_idx head_blocks in
  do ts <- np_set (bt_nelssa_tail_blocks b) row_idx tail_blocks in
  do ss <- np_set (bt_nelssa_tail_start_pos b) row_idx tail_start_pos in
  Ok (with_layout cs hs ts ss b).
Definition clear_middle_blocks (row_idx : nat) (head_blocks tail_blocks tail_start_pos0 : Z) (b : BlockTable) : res BlockTable :=
  do total_blocks <- np_get (num_blocks_per_row b) row_idx in
  if total_blocks =? 0 then Ok b
  else
    do bt <- np_get (block_table b) row_idx in
    let keep_blocks := head_blocks + tail_blocks in
    let tail_start_pos := if tail_start_pos0 <? 0 then total_blocks * bt_block_size b - tail_blocks * bt_block_size b else tail_start_pos0 in
    do compacted <- np_get (nelssa_compacted b) row_idx in
    if compacted then set_layout row_idx true head_blocks tail_blocks tail_start_pos b
    else
      let tail_start_idx := total_blocks - tail_blocks in
      do bt1 <- np_assign bt head_blocks (head_blocks + tail_blocks) (py_slice bt tail_start_idx total_blocks) in
      let bt2 := np_fill bt1 keep_blocks total_blocks 0 in
      do t <- np_set (block_table b) row_idx bt2 in
      do counts <- np_set (num_blocks_per_row b) row_idx keep_blocks in
      set_layout row_idx true head_blocks tail_blocks tail_start_pos (with_table t counts b).

Definition move_row (src tgt : nat) (b : BlockTable) : res BlockTable :=
  do n <- np_get (num_blocks_per_row b) src in
  do r <- np_get (block_table b) src in
  do q <- np_get (block_table b) tgt in
  do q' <- np_assign q 0 n (py_slice r 0 n) in
  do t <- np_set (block_table b) tgt q' in
  do counts <- np_set (num_blocks_per_row b) tgt n in
  Ok (with_table t counts b).
Definition swap_row (src tgt : nat) (b : BlockTable) : res BlockTable :=
  do n <- np_get (num_blocks_per_row b) src in
  do k <- np_get (num_blocks_per_row b) tgt in
  do r <- np_get (block_table b) src in
  do q <- np_get (block_table b) tgt in
  Ok (with_table (<[tgt := r]> (<[src := q]> (block_table b))) (<[tgt := n]> (<[src := k]> (num_blocks_per_row b))) b).

(** The first rows are copied to the device. *)
Definition commit_block_table (num_reqs : nat) (b : BlockTable) : BlockTable :=
  with_gpu (take num_reqs (block_table b) ++ drop num_reqs (block_table_gpu b)) b.
Definition bt_clear (b : BlockTable) : BlockTable :=
  let zero := fmap (M := list) (fun r : list Z => replicate (length r) 0) in
  with_gpu (zero (block_table_gpu b)) (with_table (zero (block_table b)) (num_blocks_per_row b) b).

(** ** Slots *)
Definition PAD_SLOT_ID : Z := -1.

(** The block index and offset of a position: with a compacted row, the tail and the generated
    tokens follow the head. *)
Definition logical_slot (compacted : bool) (head_size tail_start_pos pos : Z) : Z :=
  if compacted then if tail_start_pos <=? pos then head_size + (pos - tail_start_pos) else pos else pos.
(** The kernel for one token. The table is one contiguous array on the device; [None] is a read
    outside of it. *)
Definition slot_id (b : BlockTable) (req_idx : nat) (pos : Z) : option Z :=
  let total_cp_world_size := pcp_world_size b * dcp_world_size b in
  let total_cp_rank := pcp_rank b * dcp_world_size b + dcp_rank b in
  let virtual_block_size := bt_block_size b * total_cp_world_size in
  head_blocks ← nelssa_head_blocks b !! req_idx;
  compacted ← nelssa_compacted b !! req_idx;
  tail_start_pos ← bt_nelssa_tail_start_pos b !! req_idx;
  let slot := logical_slot compacted (head_blocks * virtual_block_size) tail_start_pos pos in
  let logical_block_index := slot / virtual_block_size in
  let offsets := slot mod virtual_block_size in
  block_number ← concat (block_table_gpu b) !! (req_idx * Z.to_nat (bt_max_num_blocks_per_req b) + Z.to_nat logical_block_index)%nat;
  let interleave := cp_kv_cache_interleave_size b in
  let is_local := (offsets / interleave) mod total_cp_world_size =? total_cp_rank in
  let local_block_offsets := offsets / (total_cp_world_size * interleave) * interleave + offsets mod interleave in
  Some (if is_local then block_number * bt_block_size b + local_block_offsets else PAD_SLOT_ID).

(** The program of request [i] writes the slots of its tokens; the last program pads the
    buffer. *)
Definition slots_of_request (b : BlockTable) (query_start_loc positions : list Z) (buf : list (option Z)) (i : nat) : list (option Z) :=
  match query_start_loc !! i, query_start_loc !! S i with
  | Some start, Some stop =>
    foldl (fun buf off => <[Z.to_nat off := p ← positions !! Z.to_nat off; slot_id b i p]> buf) buf (seqZ start (stop - start))
  | _, _ => buf
  end.
Definition compute_slot_mapping (num_reqs : nat) (query_start_loc positions : list Z) (slot_mapping : list (option Z)) (b : BlockTable) : list (option Z) :=
  let buf := foldl (slots_of_request b query_start_loc positions) slot_mapping (seq 0 num_reqs) in
  take (length positions) buf ++ replicate (length buf - length positions) (Some PAD_SLOT_ID).

(** ** MultiGroupBlockTable *)
Definition new_MultiGroupBlockTable (max_num_reqs : nat) (max_model_len : Z) (block_sizes kernel_block_sizes : list Z) (max_num_blocks : option (list Z)) (interleave total_cp_world_size : Z) (cp : Z * Z * (Z * Z)) : res (list BlockTable) :=
  if negb (zlen kernel_block_sizes =? zlen block_sizes) then Err ValueError
  else
    do ms <- match max_num_blocks with
             | Some l => Ok l
             | None => rmap (fun bs => rcdiv max_model_len (bs * total_cp_world_size)) block_sizes
             end in
    if negb (zlen ms =? zlen block_sizes) then Err ValueError
    else rmap (fun x => new_BlockTable x.1.1 max_num_reqs x.2 x.1.2 interleave cp) (zip (zip block_sizes kernel_block_sizes) ms).

(** [for i, block_table in enumerate(self.block_tables): f(block_ids\[i\])] *)
Fixpoint per_group (f : list Z -> BlockTable -> res BlockTable) (block_ids : list (list Z)) (ts : list BlockTable) : res (list BlockTable) :=
  match ts with
  | [] => Ok []
  | t :: ts' =>
    match block_ids with
    | [] => Err IndexError
    | ids :: rest => do t' <- f ids t in do ts'' <- per_group f rest ts' in Ok (t' :: ts'')
    end
  end.
Definition mg_append_row (block_ids : list (list Z)) (row_idx : nat) : list BlockTable -> res (list BlockTable) := per_group (fun ids => append_row ids row_idx) block_ids.
Definition mg_add_row (block_ids : list (list Z)) (row_idx : nat) : list BlockTable -> res (list BlockTable) := per_group (fun ids => add_row ids row_idx) block_ids.
Definition mg_clear_row (row_idx : nat) : list BlockTable -> res (list BlockTable) := rmap (clear_row row_idx).
Definition mg_move_row (src tgt : nat) : list BlockTable -> res (list BlockTable) := rmap (move_row src tgt).
Definition mg_swap_row (src tgt : nat) : list BlockTable -> res (list BlockTable) := rmap (swap_row src tgt).
Definition mg_commit_block_table (num_reqs : nat) : list BlockTable -> list BlockTable := fmap (commit_block_table num_reqs).
Definition mg_clear : list BlockTable -> list BlockTable := fmap bt_clear.
Definition mg_compute_slot_mapping (num_reqs : nat) (query_start_loc positions : list Z) (bufs : list (list (option Z))) (ts : list BlockTable) : list (list (option Z)) :=
  zip_with (fun t buf => compute_slot_mapping num_reqs query_start_loc positions buf t) ts bufs.
