(* ===== verification/InputBatch.v ===== *)
(** * InputBatch
    vllm/v1/worker/gpu_input_batch.py: the persistent batch of a GPU worker, and
    vllm/v1/sample/logits_processor/state.py: the changes to it within a step.

    The numpy arrays and tensors with one entry per request index are the fields of one
    record [Row], in a list of rows; every operation says what it does to each field.
    Dictionaries that are keyed by index or by request id are maps. A list of output tokens is
    shared with the request it belongs to and is referred to by its location. Objects that are
    only passed on (generators, embeddings, pooling parameters) are numbers. The copies of
    tensors on the device are left out. *)
From Stdlib Require Import QArith_base.
From stdpp Require Import sorting.
From S2P Require Import Prelude OrdDict KVCacheBlock Request CacheHit KVCacheInterface WorkerBlockTable.
#[local] Open Scope Z_scope.

(** An object that is only passed on *)
Abbreviation obj := Z.
(** Rounding of a Python float to 32 bits *)
Class Float32 := to_f32 : Q -> Q.

(** ** BatchUpdateBuilder *)
Record WSamplingParams := mkWSampling {
  sp_greedy : bool;
  sp_seed : option obj;
  sp_temperature : Q;
  sp_top_p : Q;
  sp_top_k : Z;
  sp_frequency_penalty : Q;
  sp_presence_penalty : Q;
  sp_repetition_penalty : Q;
  sp_logprobs : option Z;
  sp_prompt_logprobs : option Z;
  sp_logprob_token_ids : option (list Z);
  sp_allowed_token_ids : list Z;
  sp_bad_words_token_ids : list (list Z);
}.
Inductive MoveDirectionality := UNIDIRECTIONAL | SWAP.
Record BatchUpdateBuilder := mkBuilder {
  _removed : list nat;
  _is_removed_sorted : bool;
  added : list (nat * WSamplingParams * option (list Z) * nat);
  moved : list (nat * nat * MoveDirectionality);
  batch_changed : bool;
}.
Definition new_builder : BatchUpdateBuilder := mkBuilder [] false [] [] false.

(** [sort(reverse=True)] *)
Definition descending (x y : nat) : Prop := (y <= x)%nat.
#[export] Instance descending_dec x y : Decision (descending x y) := le_dec y x.
Definition _ensure_removed_sorted (u : BatchUpdateBuilder) : BatchUpdateBuilder :=
  if _is_removed_sorted u then u else mkBuilder (merge_sort descending (_removed u)) true (added u) (moved u) (batch_changed u).
Definition removed_append (i : nat) (u : BatchUpdateBuilder) : res BatchUpdateBuilder :=
  if _is_removed_sorted u then Err RuntimeError else Ok (mkBuilder (_removed u ++ [i]) false (added u) (moved u) true).
Definition has_removed (u : BatchUpdateBuilder) : bool := match _removed u with [] => false | _ => true end.
Definition peek_removed (u : BatchUpdateBuilder) : option nat * BatchUpdateBuilder :=
  if has_removed u then let u' := _ensure_removed_sorted u in (last (_removed u'), u') else (None, u).
Definition pop_removed (u : BatchUpdateBuilder) : option nat * BatchUpdateBuilder :=
  if has_removed u then
    let u' := _ensure_removed_sorted u in
    (last (_removed u'), mkBuilder (take (length (_removed u') - 1) (_removed u')) true (added u') (moved u') (batch_changed u'))
  else (None, u).
Definition add_moved (x : nat * nat * MoveDirectionality) (u : BatchUpdateBuilder) : BatchUpdateBuilder :=
  mkBuilder (_removed u) (_is_removed_sorted u) (added u) (moved u ++ [x]) (batch_changed u).
Definition builder_reset (u : BatchUpdateBuilder) : bool * BatchUpdateBuilder := (batch_changed u, new_builder).
Record BatchUpdate := mkUpdate {
  bu_batch_size : nat;
  bu_removed : list nat;
  bu_added : list (nat * WSamplingParams * option (list Z) * nat);
  bu_moved : list (nat * nat * MoveDirectionality);
}.
Definition get_and_reset (batch_size : nat) (u : BatchUpdateBuilder) : option BatchUpdate * BatchUpdateBuilder :=
  match _removed u, moved u, added u with
  | [], [], [] => (None, mkBuilder [] false [] [] false)
  | _, _, _ => (Some (mkUpdate batch_size (_removed u) (added u) (moved u)), new_builder)
  end.

(** ** CachedRequestState *)
Record CachedRequestState := mkCached {
  cr_req_id : string;
  cr_prompt_token_ids : option (list Z);
  cr_prompt_embeds : option (list bytes);
  cr_sampling_params : option WSamplingParams;
  cr_pooling_params : option (obj * bool);
  cr_pooling_states : option obj;
  cr_generator : option obj;
  cr_block_ids : list (list Z);
  cr_num_computed_tokens : Z;
  cr_output_token_ids : nat;
  cr_lora_request : option (Z * obj);
  prev_num_draft_len : Z;
  cr_num_prompt_tokens : Z;
}.
Definition cr_num_tokens (r : CachedRequestState) (output_token_ids : list Z) : Z := cr_num_prompt_tokens r + zlen output_token_ids.
Definition get_token_id (r : CachedRequestState) (output_token_ids : list Z) (idx : Z) : res Z :=
  if idx <? cr_num_prompt_tokens r then
    match cr_prompt_token_ids r with None => Err ValueError | Some l => py_index l idx end
  else if idx - cr_num_prompt_tokens r <? zlen output_token_ids then py_index output_token_ids (idx - cr_num_prompt_tokens r)
  else Ok (-1).

(** ** The state *)
Record SampRow := mkSamp {
  temperature_cpu : Q;
  top_p_cpu : Q;
  top_k_cpu : Z;
  frequency_penalties_cpu : Q;
  presence_penalties_cpu : Q;
  repetition_penalties_cpu : Q;
  num_accepted_tokens_cpu : Z;
  allowed_token_ids_mask : list bool;
}.
Record Row := mkRow {
  token_ids_cpu : list Z;
  is_token_ids : list bool;
  num_tokens_no_spec : Z;
  num_prompt_tokens : Z;
  num_computed_tokens_cpu : Z;
  request_lora_mapping : Z;
  logits_processing_needs_token_ids : bool;
  samp : SampRow;
}.
(** Sets of request ids *)
Record IdSets := mkSets {
  greedy_reqs : gset string;
  random_reqs : gset string;
  top_p_reqs : gset string;
  top_k_reqs : gset string;
  frequency_penalties_reqs : gset string;
  presence_penalties_reqs : gset string;
  repetition_penalties_reqs : gset string;
  has_allowed_token_ids : gset string;
}.
(** Dictionaries by request id *)
Record IdDicts := mkDicts {
  num_logprobs : gmap string Z;
  logprob_token_ids : gmap string (list Z);
  in_progress_prompt_logprobs_cpu : gmap string obj;
  ib_pooling_params : gmap string (obj * bool);
  ib_pooling_states : gmap string obj;
}.
Record LoRAState := mkLoRA {
  lora_id_to_request_ids : gmap Z (gset string);
  lora_id_to_lora_request : gmap Z obj;
}.
(** Dictionaries by index *)
Record IndexDicts := mkIndexDicts {
  req_prompt_embeds : gmap nat (list bytes);
  generators : gmap nat obj;
  bad_words_token_ids : gmap nat (list (list Z));
}.
Record BatchConfig := mkBatchConfig {
  is_pooling_model : bool;
  ib_max_num_reqs : nat;
  vocab_size : Z;
}.
Record InputBatch := mkIB {
  ib_config : BatchConfig;
  _req_ids : list (option string);
  req_id_to_index : gmap string nat;
  req_output_token_ids : list (option nat);
  spec_token_ids : list (list Z);
  rows : list Row;
  ib_block_table : list BlockTable;
  index_dicts : IndexDicts;
  allowed_mask_allocated : bool;
  id_sets : IdSets;
  id_dicts : IdDicts;
  lora : LoRAState;
  prev_req_id_to_index : option (gmap string nat);
  batch_update_builder : BatchUpdateBuilder;
}.
Definition num_reqs (b : InputBatch) : nat := size (req_id_to_index b).

(** [mkIB] with some fields changed *)
Definition with_ids ids idx outs specs (b : InputBatch) : InputBatch :=
  mkIB (ib_config b) ids idx outs specs (rows b) (ib_block_table b) (index_dicts b) (allowed_mask_allocated b) (id_sets b) (id_dicts b) (lora b) (prev_req_id_to_index b) (batch_update_builder b).
Definition with_rows rs ts ds al (b : InputBatch) : InputBatch :=
  mkIB (ib_config b) (_req_ids b) (req_id_to_index b) (req_output_token_ids b) (spec_token_ids b) rs ts ds al (id_sets b) (id_dicts b) (lora b) (prev_req_id_to_index b) (batch_update_builder b).
Definition with_id_state ss ds l pv (b : InputBatch) : InputBatch :=
  mkIB (ib_config b) (_req_ids b) (req_id_to_index b) (req_output_token_ids b) (spec_token_ids b) (rows b) (ib_block_table b) (index_dicts b) (allowed_mask_allocated b) ss ds l pv (batch_update_builder b).
Definition with_builder u (b : InputBatch) : InputBatch :=
  mkIB (ib_config b) (_req_ids b) (req_id_to_index b) (req_output_token_ids b) (spec_token_ids b) (rows b) (ib_block_table b) (index_dicts b) (allowed_mask_allocated b) (id_sets b) (id_dicts b) (lora b) (prev_req_id_to_index b) u.

Definition empty_samp : SampRow := mkSamp 0 0 0 0 0 0 1 [].
Definition new_InputBatch (is_pooling : bool) (max_num_reqs : nat) (max_model_len vocab : Z) (tables : list BlockTable) : InputBatch :=
  let row := mkRow (replicate (Z.to_nat max_model_len) 0) (replicate (Z.to_nat max_model_len) false) 0 0 0 0 false empty_samp in
  mkIB (mkBatchConfig is_pooling max_num_reqs vocab) [] ∅ [] (replicate max_num_reqs []) (replicate max_num_reqs row) tables
    (mkIndexDicts ∅ ∅ ∅) false (mkSets ∅ ∅ ∅ ∅ ∅ ∅ ∅ ∅) (mkDicts ∅ ∅ ∅ ∅ ∅) (mkLoRA ∅ ∅) None new_builder.

(** ** Adding a request *)
Definition _register_add_request (r : CachedRequestState) (b : InputBatch) : res (nat * InputBatch) :=
  let x := pop_removed (batch_update_builder b) in
  let new_req_index := default (num_reqs b) x.1 in
  do _ <- rassert (bool_decide (new_req_index < ib_max_num_reqs (ib_config b))%nat) in
  let u := x.2 in
  let u' := mkBuilder (_removed u) (_is_removed_sorted u)
              (match cr_sampling_params r with Some sp => added u ++ [(new_req_index, sp, cr_prompt_token_ids r, cr_output_token_ids r)] | None => added u end)
              (moved u) true in
  Ok (new_req_index, with_builder u' b).

(** The lists of ids, outputs and draft tokens. *)
Definition put_request (req_index : nat) (r : CachedRequestState) (b : InputBatch) : res InputBatch :=
  let idx := <[cr_req_id r := req_index]> (req_id_to_index b) in
  if bool_decide (req_index = length (_req_ids b)) then
    Ok (with_ids (_req_ids b ++ [Some (cr_req_id r)]) idx (req_output_token_ids b ++ [Some (cr_output_token_ids r)]) (spec_token_ids b ++ [[]]) b)
  else
    do ids <- np_set (_req_ids b) req_index (Some (cr_req_id r)) in
    do outs <- np_set (req_output_token_ids b) req_index (Some (cr_output_token_ids r)) in
    do specs <- np_set (spec_token_ids b) req_index [] in
    Ok (with_ids ids idx outs specs b).

(** The prompt and output tokens in a row; [outs] are the output tokens. *)
Definition fill_row (r : CachedRequestState) (outs : list Z) (row : Row) : res Row :=
  do n <- length_from_prompt_token_ids_or_embeds (cr_prompt_token_ids r) (cr_prompt_embeds r) in
  let e := n + zlen outs in
  do ids <- match cr_prompt_token_ids r with Some l => np_assign (token_ids_cpu row) 0 n l | None => Ok (token_ids_cpu row) end in
  let is_ids := np_fill (is_token_ids row) 0 n (match cr_prompt_token_ids r with Some _ => true | None => false end) in
  do ids <- np_assign ids n e outs in
  let is_ids := np_fill is_ids n e true in
  Ok (mkRow ids is_ids (cr_num_tokens r outs) n (cr_num_computed_tokens r) (request_lora_mapping row) (logits_processing_needs_token_ids row) (samp row)).

Definition set_if {A} (c : bool) (rid : A) `{Countable A} (s : gset A) : gset A := if c then {[rid]} ∪ s else s.
(** [mask\[i\] = False] for the allowed tokens *)
Fixpoint allow_tokens (mask : list bool) (l : list Z) : res (list bool) :=
  match l with [] => Ok mask | t :: l' => do m <- py_set mask t false in allow_tokens m l' end.

Section add.
Context `{Float32}.

(** The sampling parameters of a row *)
Definition samp_row (vocab : Z) (sp : WSamplingParams) (row : SampRow) : res SampRow :=
  do mask <- match sp_allowed_token_ids sp with
             | [] => Ok (allowed_token_ids_mask row)
             | l => allow_tokens (replicate (Z.to_nat vocab) true) l
             end in
  Ok (mkSamp (if sp_greedy sp then 0 else to_f32 (sp_temperature sp))
        (to_f32 (sp_top_p sp))
        (if (0 <? sp_top_k sp) && (sp_top_k sp <? vocab) then sp_top_k sp else vocab)
        (to_f32 (sp_frequency_penalty sp)) (to_f32 (sp_presence_penalty sp)) (to_f32 (sp_repetition_penalty sp))
        (num_accepted_tokens_cpu row) mask).
Definition add_to_sets (vocab : Z) (rid : string) (sp : WSamplingParams) (s : IdSets) : IdSets :=
  mkSets (set_if (sp_greedy sp) rid (greedy_reqs s)) (set_if (negb (sp_greedy sp)) rid (random_reqs s))
    (set_if (negb (Qle_bool 1 (sp_top_p sp))) rid (top_p_reqs s))
    (set_if ((0 <? sp_top_k sp) && (sp_top_k sp <? vocab)) rid (top_k_reqs s))
    (set_if (negb (Qeq_bool (sp_frequency_penalty sp) 0)) rid (frequency_penalties_reqs s))
    (set_if (negb (Qeq_bool (sp_presence_penalty sp) 0)) rid (presence_penalties_reqs s))
    (set_if (negb (Qeq_bool (sp_repetition_penalty sp) 1)) rid (repetition_penalties_reqs s))
    (set_if (match sp_allowed_token_ids sp with [] => false | _ => true end) rid (has_allowed_token_ids s)).
Definition add_to_dicts (vocab : Z) (rid : string) (sp : WSamplingParams) (d : IdDicts) : IdDicts :=
  mkDicts (match sp_logprobs sp with Some n => <[rid := if n =? -1 then vocab else n]> (num_logprobs d) | None => num_logprobs d end)
    (match sp_logprob_token_ids sp with Some l => <[rid := l]> (logprob_token_ids d) | None => logprob_token_ids d end)
    (in_progress_prompt_logprobs_cpu d) (ib_pooling_params d) (ib_pooling_states d).

(** The part of add_request for sampling or pooling parameters *)
Definition add_params (req_index : nat) (r : CachedRequestState) (row : Row) (b : InputBatch) : res (Row * InputBatch) :=
  let rid := cr_req_id r in
  let vocab := vocab_size (ib_config b) in
  match cr_sampling_params r, cr_pooling_params r with
  | Some sp, _ =>
    do s <- samp_row vocab sp (samp row) in
    let d := index_dicts b in
    let d' := mkIndexDicts (req_prompt_embeds d)
                (match cr_generator r with Some g => <[req_index := g]> (generators d) | None => generators d end)
                (match sp_bad_words_token_ids sp with [] => bad_words_token_ids d | l => <[req_index := l]> (bad_words_token_ids d) end) in
    let row' := mkRow (token_ids_cpu row) (is_token_ids row) (num_tokens_no_spec row) (num_prompt_tokens row) (num_computed_tokens_cpu row)
                  (request_lora_mapping row) (logits_processing_needs_token_ids row) s in
    let al := match sp_allowed_token_ids sp with [] => allowed_mask_allocated b | _ => true end in
    Ok (row', with_id_state (add_to_sets vocab rid sp (id_sets b)) (add_to_dicts vocab rid sp (id_dicts b)) (lora b) (prev_req_id_to_index b)
                (with_rows (rows b) (ib_block_table b) d' al b))
  | None, Some pp =>
    match cr_pooling_states r with
    | None => Err AssertionError
    | Some ps =>
      let d := id_dicts b in
      let d' := mkDicts (num_logprobs d) (logprob_token_ids d) (in_progress_prompt_logprobs_cpu d) (<[rid := pp]> (ib_pooling_params d)) (<[rid := ps]> (ib_pooling_states d)) in
      let row' := mkRow (token_ids_cpu row) (is_token_ids row) (num_tokens_no_spec row) (num_prompt_tokens row) (num_computed_tokens_cpu row)
                    (request_lora_mapping row) pp.2 (samp row) in
      Ok (row', with_id_state (id_sets b) d' (lora b) (prev_req_id_to_index b) b)
    end
  | None, None => Err NotImplementedError
  end.

Definition add_lora (r : CachedRequestState) (l : LoRAState) : LoRAState :=
  match cr_lora_request r with
  | Some (lora_id, o) =>
    mkLoRA (<[lora_id := {[cr_req_id r]} ∪ default ∅ (lora_id_to_request_ids l !! lora_id)]> (lora_id_to_request_ids l))
      (<[lora_id := o]> (lora_id_to_lora_request l))
  | None => l
  end.
Definition set_accepted (n : Z) (s : SampRow) : SampRow :=
  mkSamp (temperature_cpu s) (top_p_cpu s) (top_k_cpu s) (frequency_penalties_cpu s) (presence_penalties_cpu s) (repetition_penalties_cpu s) n (allowed_token_ids_mask s).

(** add_request; [outs] is the list at [cr_output_token_ids r]. *)
Definition ib_add_request (r : CachedRequestState) (outs : list Z) (b : InputBatch) : res (nat * InputBatch) :=
  do x <- _register_add_request r b in
  let req_index := x.1 in
  do b <- put_request req_index r x.2 in
  do row <- np_get (rows b) req_index in
  do row <- fill_row r outs row in
  let d := index_dicts b in
  let d' := mkIndexDicts (match cr_prompt_embeds r with Some e => <[req_index := e]> (req_prompt_embeds d) | None => req_prompt_embeds d end)
              (generators d) (bad_words_token_ids d) in
  do ts <- mg_add_row (cr_block_ids r) req_index (ib_block_table b) in
  do y <- add_params req_index r row (with_rows (rows b) ts d' (allowed_mask_allocated b) b) in
  let row := y.1 in
  let b := y.2 in
  let row' := mkRow (token_ids_cpu row) (is_token_ids row) (num_tokens_no_spec row) (num_prompt_tokens row) (num_computed_tokens_cpu row)
                (match cr_lora_request r with Some (i, _) => i | None => 0 end) (logits_processing_needs_token_ids row) (set_accepted 1 (samp row)) in
  do rs <- np_set (rows b) req_index row' in
  Ok (req_index, with_id_state (id_sets b) (id_dicts b) (add_lora r (lora b)) (prev_req_id_to_index b)
                   (with_rows rs (ib_block_table b) (index_dicts b) (allowed_mask_allocated b) b)).
End add.

(** ** Draft tokens *)

(** The result has the new prev_num_draft_len of the request. *)
Definition update_req_spec_token_ids (r : CachedRequestState) (scheduled_spec_tokens : list (string * list Z)) (b : InputBatch) : res (Z * InputBatch) :=
  match req_id_to_index b !! cr_req_id r with
  | None => Err KeyError
  | Some req_index =>
    let toks := default [] (od_get (cr_req_id r) scheduled_spec_tokens) in
    do specs <- np_set (spec_token_ids b) req_index toks in
    let b' := with_ids (_req_ids b) (req_id_to_index b) (req_output_token_ids b) specs b in
    match toks with
    | [] => Ok (0, b')
    | _ =>
      do row <- np_get (rows b) req_index in
      let start_index := num_tokens_no_spec row in
      do ids <- np_assign (token_ids_cpu row) start_index (start_index + zlen toks) toks in
      let row' := mkRow ids (is_token_ids row) (num_tokens_no_spec row) (num_prompt_tokens row) (num_computed_tokens_cpu row)
                    (request_lora_mapping row) (logits_processing_needs_token_ids row) (samp row) in
      do rs <- np_set (rows b) req_index row' in
      Ok (zlen toks, with_rows rs (ib_block_table b) (index_dicts b) (allowed_mask_allocated b) b')
    end
  end.

(** ** Removing a request *)
Definition remove_lora (rid : string) (lora_id : Z) (l : LoRAState) : res LoRAState :=
  if lora_id =? 0 then Ok l
  else
    match lora_id_to_request_ids l !! lora_id with
    | None => Err KeyError
    | Some ids =>
      let ids' := ids ∖ {[rid]} in
      if bool_decide (ids' = ∅) then
        match lora_id_to_lora_request l !! lora_id with
        | None => Err KeyError
        | Some _ => Ok (mkLoRA (delete lora_id (lora_id_to_request_ids l)) (delete lora_id (lora_id_to_lora_request l)))
        end
      else Ok (mkLoRA (<[lora_id := ids']> (lora_id_to_request_ids l)) (lora_id_to_lora_request l))
    end.
Definition remove_from_sets (rid : string) (s : IdSets) : IdSets :=
  mkSets (greedy_reqs s ∖ {[rid]}) (random_reqs s ∖ {[rid]}) (top_p_reqs s ∖ {[rid]}) (top_k_reqs s ∖ {[rid]})
    (frequency_penalties_reqs s ∖ {[rid]}) (presence_penalties_reqs s ∖ {[rid]}) (repetition_penalties_reqs s ∖ {[rid]}) (has_allowed_token_ids s ∖ {[rid]}).
Definition clear_mask (s : SampRow) : SampRow :=
  mkSamp (temperature_cpu s) (top_p_cpu s) (top_k_cpu s) (frequency_penalties_cpu s) (presence_penalties_cpu s) (repetition_penalties_cpu s)
    (num_accepted_tokens_cpu s) ((fun _ => false) <$> allowed_token_ids_mask s).

Definition ib_remove_request (rid : string) (b : InputBatch) : res (option nat * InputBatch) :=
  match req_id_to_index b !! rid with
  | None => Ok (None, b)
  | Some req_index =>
    do u <- removed_append req_index (batch_update_builder b) in
    do ids <- np_set (_req_ids b) req_index None in
    do outs <- np_set (req_output_token_ids b) req_index None in
    do specs <- np_set (spec_token_ids b) req_index [] in
    do ts <- mg_clear_row req_index (ib_block_table b) in
    do row <- np_get (rows b) req_index in
    do l <- remove_lora rid (request_lora_mapping row) (lora b) in
    let b1 := with_builder u (with_ids ids (delete rid (req_id_to_index b)) outs specs b) in
    let clear f := mkRow (token_ids_cpu row) (is_token_ids row) (num_tokens_no_spec row) (num_prompt_tokens row) (num_computed_tokens_cpu row)
                     0 (logits_processing_needs_token_ids row) (f (samp row)) in
    let d := id_dicts b in
    if is_pooling_model (ib_config b) then
      do rs <- np_set (rows b) req_index (clear id) in
      let d' := mkDicts (num_logprobs d) (logprob_token_ids d) (in_progress_prompt_logprobs_cpu d) (delete rid (ib_pooling_params d)) (delete rid (ib_pooling_states d)) in
      Ok (Some req_index, with_id_state (id_sets b) d' l (prev_req_id_to_index b) (with_rows rs ts (index_dicts b) (allowed_mask_allocated b) b1))
    else
      do rs <- np_set (rows b) req_index (clear (if allowed_mask_allocated b then clear_mask else id)) in
      let d' := mkDicts (delete rid (num_logprobs d)) (delete rid (logprob_token_ids d)) (delete rid (in_progress_prompt_logprobs_cpu d)) (ib_pooling_params d) (ib_pooling_states d) in
      let i := index_dicts b in
      let i' := mkIndexDicts (req_prompt_embeds i) (delete req_index (generators i)) (delete req_index (bad_words_token_ids i)) in
      Ok (Some req_index, with_id_state (remove_from_sets rid (id_sets b)) d' l (delete rid <$> prev_req_id_to_index b) (with_rows rs ts i' (allowed_mask_allocated b) b1))
  end.

(** ** Swapping two requests
    A row of the mask is a view of the tensor: when the mask of the first request has been
    overwritten, the second one gets the new value. *)
Definition _get_active_token_count (b : InputBatch) (i : nat) : res Z :=
  do row <- np_get (rows b) i in
  do specs <- np_get (spec_token_ids b) i in
  Ok (num_tokens_no_spec row + zlen specs).

(** [l\[i1\], l\[i2\] = l\[i2\], l\[i1\]] *)
Definition np_swap {A} (l : list A) (i1 i2 : nat) : res (list A) :=
  do x <- np_get l i1 in do y <- np_get l i2 in Ok (<[i2 := x]> (<[i1 := y]> l)).
(** swap_dict_values *)
Definition swap_dict_values {A} (d : gmap nat A) (k1 k2 : nat) : gmap nat A :=
  let put k (v : option A) (d : gmap nat A) := match v with Some x => <[k := x]> d | None => delete k d end in
  put k1 (d !! k2) (put k2 (d !! k1) d).
(** The sampling columns of [t], with a mask *)
Definition copy_samp (mask : list bool) (t : SampRow) : SampRow :=
  mkSamp (temperature_cpu t) (top_p_cpu t) (top_k_cpu t) (frequency_penalties_cpu t) (presence_penalties_cpu t) (repetition_penalties_cpu t)
    (num_accepted_tokens_cpu t) mask.
(** Row [s] with [n] tokens and the columns of [t] copied in, and with a mask; the flag for pooling stays. *)
Definition copy_row (pooling : bool) (mask : list bool) (n : Z) (t s : Row) : res Row :=
  do ids <- np_assign (token_ids_cpu s) 0 n (py_slice (token_ids_cpu t) 0 n) in
  do is_ids <- np_assign (is_token_ids s) 0 n (py_slice (is_token_ids t) 0 n) in
  Ok (mkRow ids is_ids (num_tokens_no_spec t) (num_prompt_tokens t) (num_computed_tokens_cpu t) (request_lora_mapping t)
        (logits_processing_needs_token_ids s) (if pooling then samp s else copy_samp mask (samp t))).
Definition row_mask (row : Row) : list bool := allowed_token_ids_mask (samp row).

Definition swap_states (i1 i2 : nat) (b : InputBatch) : res InputBatch :=
  let pooling := is_pooling_model (ib_config b) in
  do id1 <- np_get (_req_ids b) i1 in
  do id2 <- np_get (_req_ids b) i2 in
  do n1 <- _get_active_token_count b i1 in
  do n2 <- _get_active_token_count b i2 in
  let n := Z.max n1 n2 in
  do ids <- np_swap (_req_ids b) i1 i2 in
  do outs <- np_swap (req_output_token_ids b) i1 i2 in
  do specs <- np_swap (spec_token_ids b) i1 i2 in
  match id1, id2 with
  | Some r1, Some r2 =>
    match req_id_to_index b !! r1, req_id_to_index b !! r2 with
    | Some k1, Some k2 =>
      let idx := <[r2 := k1]> (<[r1 := k2]> (req_id_to_index b)) in
      do row1 <- np_get (rows b) i1 in
      do row2 <- np_get (rows b) i2 in
      let mask := allowed_mask_allocated b in
      do row1' <- copy_row pooling (row_mask (if mask then row2 else row1)) n row2 row1 in
      do row2' <- copy_row pooling (row_mask (if mask then row1' else row2)) n row1 row2 in
      do ts <- mg_swap_row i1 i2 (ib_block_table b) in
      let d := index_dicts b in
      let d' := mkIndexDicts (swap_dict_values (req_prompt_embeds d) i1 i2)
                  (if pooling then generators d else swap_dict_values (generators d) i1 i2)
                  (if pooling then bad_words_token_ids d else swap_dict_values (bad_words_token_ids d) i1 i2) in
      let u := if pooling then batch_update_builder b else add_moved (i1, i2, SWAP) (batch_update_builder b) in
      Ok (with_builder u (with_rows (<[i2 := row2']> (<[i1 := row1']> (rows b))) ts d' mask (with_ids ids idx outs specs b)))
    | _, _ => Err KeyError
    end
  | _, _ => Err AssertionError
  end.

(** ** Condensing the batch *)

(** [while last_req_index in empty_req_indices: last_req_index -= 1]; index 0 is never left in
    condense, where a request remains. *)
Fixpoint skip_empty (removed : list nat) (last_req_index : nat) : nat :=
  if bool_decide (last_req_index ∈ removed) then match last_req_index with O => O | S n => skip_empty removed n end else last_req_index.

(** [d\[tgt\] = d.pop(src)] if there is one *)
Definition move_key {A} (src tgt : nat) (d : gmap nat A) : gmap nat A :=
  match d !! src with Some x => <[tgt := x]> (delete src d) | None => d end.

(** One request is moved from index [src] down to the empty index [tgt]. *)
Definition move_request (src tgt : nat) (b : InputBatch) : res InputBatch :=
  let pooling := is_pooling_model (ib_config b) in
  do rid0 <- np_get (_req_ids b) src in
  do out <- np_get (req_output_token_ids b) src in
  match rid0 with
  | None => Err AssertionError
  | Some rid =>
    do ids <- np_set (_req_ids b) tgt (Some rid) in
    do ids <- np_set ids src None in
    do outs <- np_set (req_output_token_ids b) tgt out in
    do outs <- np_set outs src None in
    do n <- _get_active_token_count b src in
    do specs <- np_swap (spec_token_ids b) src tgt in
    do specs <- np_set specs src [] in
    do row <- np_get (rows b) src in
    do row' <- np_get (rows b) tgt in
    do row' <- copy_row pooling (row_mask (if allowed_mask_allocated b then row else row')) n row row' in
    do rs <- np_set (rows b) tgt row' in
    do ts <- mg_move_row src tgt (ib_block_table b) in
    let d := index_dicts b in
    let d' := mkIndexDicts (move_key src tgt (req_prompt_embeds d))
                (if pooling then generators d else move_key src tgt (generators d))
                (if pooling then bad_words_token_ids d else move_key src tgt (bad_words_token_ids d)) in
    let u := if pooling then batch_update_builder b else add_moved (src, tgt, UNIDIRECTIONAL) (batch_update_builder b) in
    Ok (with_builder u (with_rows rs ts d' (allowed_mask_allocated b) (with_ids ids (<[rid := tgt]> (req_id_to_index b)) outs specs b)))
  end.

(** [while empty_req_indices: ...] *)
Fixpoint condense_loop (fuel : nat) (last_req_index : nat) (b : InputBatch) : res InputBatch :=
  match _removed (batch_update_builder b) with
  | [] => Ok b
  | removed =>
    match fuel with
    | O => Err OutOfFuel
    | S f =>
      let l := skip_empty removed last_req_index in
      let x := peek_removed (batch_update_builder b) in
      match x.1 with
      | None => Err AssertionError
      | Some empty_index =>
        if bool_decide (l <= empty_index)%nat then Ok (with_builder x.2 b)
        else
          do b' <- move_request l empty_index (with_builder (pop_removed x.2).2 b) in
          condense_loop f (l - 1) b'
      end
    end
  end.
Definition condense (b0 : InputBatch) : res InputBatch :=
  let n := num_reqs b0 in
  let b := with_builder (_ensure_removed_sorted (batch_update_builder b0)) b0 in
  let empty_req_indices := _removed (batch_update_builder b) in
  match empty_req_indices with
  | [] => Ok b
  | _ =>
    if bool_decide (n = 0%nat) then Ok (with_ids [] (req_id_to_index b) [] [] b)
    else
      do b' <- condense_loop (length empty_req_indices) (n + length empty_req_indices - 1) b in
      Ok (with_ids (take n (_req_ids b')) (req_id_to_index b') (take n (req_output_token_ids b')) (take n (spec_token_ids b')) b')
  end.

(** refresh_metadata: the update for the logits processors *)
Definition refresh_metadata (b : InputBatch) : option BatchUpdate * InputBatch :=
  if is_pooling_model (ib_config b) then (None, with_builder (builder_reset (batch_update_builder b)).2 b)
  else let x := get_and_reset (num_reqs b) (batch_update_builder b) in (x.1, with_builder x.2 b).

(** ** Reordering: reorder_batch_to_split_decodes_and_prefills *)

(** 0: decode, 1: short extend, 2: long extend, 3: prefill *)
Definition req_region (decode_threshold num_scheduled : Z) (row : Row) : nat :=
  if num_computed_tokens_cpu row <=? 0 then 3
  else if decode_threshold <? num_scheduled then 2
  else if num_computed_tokens_cpu row <? num_prompt_tokens row then 1
  else 0.
(** The region of every request. *)
Fixpoint req_regions (decode_threshold : Z) (num_scheduled_tokens : list (string * Z)) (ids : list (option string)) (rs : list Row) : res (list nat) :=
  match ids, rs with
  | [], _ => Ok []
  | id :: ids', row :: rs' =>
    match id ≫= (fun rid => od_get rid num_scheduled_tokens) with
    | None => Err KeyError
    | Some n => do l <- req_regions decode_threshold num_scheduled_tokens ids' rs' in Ok (req_region decode_threshold n row :: l)
    end
  | _, [] => Err IndexError
  end.
(** The elements of [l] of region 0, then 1, 2 and 3: np.argsort with kind stable *)
Definition by_region {A} (region : A -> nat) (l : list A) : list A :=
  concat ((fun k => filter (fun x => region x = k) l) <$> [0; 1; 2; 3]%nat).

(** np.repeat of the regions with the number of requests of each *)
Definition target_regions (regions : list nat) : list nat :=
  concat ((fun k => replicate (length (filter (fun x => x = k) regions)) k) <$> [0; 1; 2; 3]%nat).

(** [while src != dst: ...] *)
Fixpoint follow_cycle (fuel : nat) (src dst : nat) (m : list (nat * nat)) (b : InputBatch) : res (list (nat * nat) * InputBatch) :=
  if bool_decide (src = dst) then Ok (m, b)
  else
    match fuel with
    | O => Err OutOfFuel
    | S f =>
      do b' <- swap_states src dst b in
      let next_dst := default dst (od_get dst m) in
      follow_cycle f src next_dst (od_set dst dst m) b'
    end.
Fixpoint follow_cycles (srcs : list nat) (m : list (nat * nat)) (b : InputBatch) : res InputBatch :=
  match srcs with
  | [] => Ok b
  | src :: rest =>
    match od_get src m with
    | None => Err KeyError
    | Some dst => do x <- follow_cycle (length m) src dst m b in follow_cycles rest x.1 x.2
    end
  end.
(** True if the batch was modified *)
Definition reorder_batch_to_split_decodes_and_prefills (num_scheduled_tokens : list (string * Z)) (decode_threshold : Z) (b : InputBatch) : res (bool * InputBatch) :=
  do regions <- req_regions decode_threshold num_scheduled_tokens (_req_ids b) (rows b) in
  let target := target_regions regions in
  let region i := default 0%nat (regions !! i) in
  let orig_indices := filter (fun i => regions !! i <> target !! i) (seq 0 (length regions)) in
  match orig_indices with
  | [] => Ok (false, b)
  | _ =>
    let src_indices := by_region region orig_indices in
    let src_dest_map := zip src_indices orig_indices in
    do b' <- follow_cycles src_indices src_dest_map b in
    Ok (true, b')
  end.

(** ** Data for the model and the sampler *)
Definition all_greedy (b : InputBatch) : bool := bool_decide (size (random_reqs (id_sets b)) = 0%nat).
Definition all_random (b : InputBatch) : bool := bool_decide (size (greedy_reqs (id_sets b)) = 0%nat).
Definition no_top_p (b : InputBatch) : bool := bool_decide (size (top_p_reqs (id_sets b)) = 0%nat).
Definition no_top_k (b : InputBatch) : bool := bool_decide (size (top_k_reqs (id_sets b)) = 0%nat).
Definition no_penalties (b : InputBatch) : bool :=
  bool_decide (size (presence_penalties_reqs (id_sets b)) = 0%nat) && bool_decide (size (frequency_penalties_reqs (id_sets b)) = 0%nat)
  && bool_decide (size (repetition_penalties_reqs (id_sets b)) = 0%nat).
Definition no_allowed_token_ids (b : InputBatch) : bool := bool_decide (size (has_allowed_token_ids (id_sets b)) = 0%nat).
Definition max_num_logprobs (b : InputBatch) : option Z :=
  match (map_to_list (num_logprobs (id_dicts b))).*2 with [] => None | x :: l => Some (foldl Z.max x l) end.

(** The prompts padded with the vocabulary size, a row per request *)
Definition _make_prompt_token_ids_cpu_tensor (b : InputBatch) : res (list (list Z)) :=
  let rs := take (num_reqs b) (rows b) in
  do max_prompt_len <- zmax (num_prompt_tokens <$> rs) in
  Ok ((fun row => np_fill (py_slice (token_ids_cpu row) 0 max_prompt_len) (num_prompt_tokens row) max_prompt_len (vocab_size (ib_config b))) <$> rs).
(** The parameters of the sampler for a step. The tensors hold a row per request; the penalties
    are [None] when their copy on the device is stale, and they are not read then. *)
Record SamplingMetadata := mkSamplingMetadata {
  sm_temperature : option (list Q);
  sm_all_greedy : bool;
  sm_all_random : bool;
  sm_top_p : option (list Q);
  sm_top_k : option (list Z);
  sm_generators : gmap nat obj;
  sm_max_num_logprobs : option Z;
  sm_logprob_token_ids : option (gmap nat (list Z));
  sm_prompt_token_ids : option (list (list Z));
  sm_penalties : option (list Q * list Q * list Q);
  sm_output_token_ids : list (option nat);
  sm_spec_token_ids : list (list Z);
  sm_no_penalties : bool;
  sm_allowed_token_ids_mask : option (list (list bool));
  sm_bad_words_token_ids : gmap nat (list (list Z));
}.
Definition _make_sampling_metadata (logitsprocs_need_output_token_ids : bool) (b : InputBatch) : res SamplingMetadata :=
  let n := num_reqs b in
  let rs := take n (rows b) in
  let column {A} (absent : bool) (f : SampRow -> A) : option (list A) := if absent then None else Some ((fun row => f (samp row)) <$> rs) in
  let needs_prompt_token_ids := negb (no_penalties b) || existsb logits_processing_needs_token_ids rs in
  do prompts <- (if needs_prompt_token_ids then do t <- _make_prompt_token_ids_cpu_tensor b in Ok (Some t) else Ok None) in
  let needs_output_token_ids := negb (no_penalties b) || negb (bool_decide (bad_words_token_ids (index_dicts b) = ∅)) || logitsprocs_need_output_token_ids in
  do _ <- rassert (no_allowed_token_ids b || allowed_mask_allocated b) in
  let by_index := list_to_map (omap (fun x => i ← req_id_to_index b !! x.1; Some (i, x.2)) (map_to_list (logprob_token_ids (id_dicts b)))) in
  Ok (mkSamplingMetadata (column (all_greedy b) temperature_cpu) (all_greedy b) (all_random b) (column (no_top_p b) top_p_cpu) (column (no_top_k b) top_k_cpu)
        (generators (index_dicts b)) (max_num_logprobs b) (if bool_decide (logprob_token_ids (id_dicts b) = ∅) then None else Some by_index) prompts
        (if no_penalties b then None else Some ((fun row => frequency_penalties_cpu (samp row)) <$> rs, (fun row => presence_penalties_cpu (samp row)) <$> rs, (fun row => repetition_penalties_cpu (samp row)) <$> rs))
        (if needs_output_token_ids then req_output_token_ids b else []) (spec_token_ids b) (no_penalties b)
        (column (no_allowed_token_ids b) allowed_token_ids_mask) (bad_words_token_ids (index_dicts b))).

(** The parameters and states of pooling requests *)
Definition in_batch_order {A} (d : gmap string A) (b : InputBatch) : res (list A) :=
  do _ <- rassert (bool_decide (length (_req_ids b) = size d)) in
  rmap (fun id => match id ≫= (fun rid => d !! rid) with Some x => Ok x | None => Err KeyError end) (_req_ids b).
Definition get_pooling_params (b : InputBatch) : res (list (obj * bool)) := in_batch_order (ib_pooling_params (id_dicts b)) b.
Definition get_pooling_states (b : InputBatch) : res (list obj) := in_batch_order (ib_pooling_states (id_dicts b)) b.

(** Placeholders in [outs] become the sampled tokens; [new_ids] is padded with -1. *)
Definition index_of (x : Z) (l : list Z) : nat := match list_find (fun y => y = x) l with Some (i, _) => i | None => length l end.
Definition replace_placeholders (outs new_ids : list Z) : list Z :=
  match last outs, last new_ids with
  | Some (-1), Some t =>
    let num_sampled_ids := if t =? -1 then index_of (-1) new_ids else length new_ids in
    let first_placeholder := index_of (-1) outs in
    let num_to_replace := Nat.min num_sampled_ids (length outs - first_placeholder) in
    take first_placeholder outs ++ take num_to_replace new_ids
  | _, _ => outs
  end.
(** [sampled] are the tokens of the previous step, [outputs] the store of the output tokens. *)
Fixpoint repair_outputs (prev : gmap string nat) (sampled : list (list Z)) (ids : list (option string)) (outs : list (option nat)) (outputs : gmap nat (list Z)) : res (gmap nat (list Z)) :=
  match ids, outs with
  | [], _ => Ok outputs
  | id :: ids', out :: outs' =>
    match id ≫= (fun rid => prev !! rid), out with
    | Some prev_index, Some loc =>
      match outputs !! loc with
      | Some ((_ :: _) as l) =>
        if bool_decide (last l = Some (-1)) then
          do new_ids <- np_get sampled prev_index in
          repair_outputs prev sampled ids' outs' (<[loc := replace_placeholders l new_ids]> outputs)
        else repair_outputs prev sampled ids' outs' outputs
      | _ => repair_outputs prev sampled ids' outs' outputs
      end
    | _, _ => repair_outputs prev sampled ids' outs' outputs
    end
  | _ :: _, [] => Err IndexError
  end.
Definition update_async_output_token_ids (sampled : option (list (list Z))) (m : SamplingMetadata) (b : InputBatch) (outputs : gmap nat (list Z)) : res (gmap nat (list Z)) :=
  match sampled, sm_output_token_ids m with
  | None, _ | _, [] => Ok outputs
  | Some l, outs => match prev_req_id_to_index b with None => Err AssertionError | Some prev => repair_outputs prev l (_req_ids b) outs outputs end
  end.
(** The drafts of the requests become those of the previous step, as many as there are now. *)
Fixpoint repair_drafts (prev : gmap string nat) (drafts : list (list Z)) (ids : list (option string)) (specs : list (list Z)) : res (list (list Z)) :=
  match ids, specs with
  | id :: ids', spec_ids :: specs' =>
    do spec_ids' <- match spec_ids, id ≫= (fun rid => prev !! rid) with
                    | _ :: _, Some prev_index => do draft_ids <- np_get drafts prev_index in Ok (match draft_ids with [] => spec_ids | _ => take (length spec_ids) draft_ids end)
                    | _, _ => Ok spec_ids
                    end in
    do rest <- repair_drafts prev drafts ids' specs' in
    Ok (spec_ids' :: rest)
  | _, _ => Ok specs
  end.
Definition update_async_spec_token_ids (drafts : list (list Z)) (b : InputBatch) : res InputBatch :=
  match drafts, prev_req_id_to_index b with
  | [], _ | _, None => Ok b
  | _, Some prev =>
    if bool_decide (prev = ∅) then Ok b
    else do specs <- repair_drafts prev drafts (_req_ids b) (spec_token_ids b) in Ok (with_ids (_req_ids b) (req_id_to_index b) (req_output_token_ids b) specs b)
  end.

(** [a.repeat(counts)] *)
Definition np_repeat {A} (l : list A) (counts : list Z) : res (list A) :=
  if zlen counts =? zlen l then Ok (concat (zip_with (fun x n => replicate (Z.to_nat n) x) l counts))
  else match counts with [n] => Ok (concat ((fun x => replicate (Z.to_nat n) x) <$> l)) | _ => Err ValueError end.
(** The LoRA of every sampled token and of every token, and the active LoRAs *)
Definition make_lora_inputs (num_scheduled_tokens num_sampled_tokens : list Z) (b : InputBatch) : res (list Z * list Z * list obj) :=
  let m := request_lora_mapping <$> take (num_reqs b) (rows b) in
  do prompt_lora_mapping <- np_repeat m num_sampled_tokens in
  do token_lora_mapping <- np_repeat m num_scheduled_tokens in
  Ok (prompt_lora_mapping, token_lora_mapping, (map_to_list (lora_id_to_lora_request (lora b))).*2).
