(* ===== verification/ModelRunner.v ===== *)
(** * ModelRunner
    The part of vllm/v1/worker/gpu_model_runner.py that keeps the state of a worker in step
    with the scheduler: the cached requests and the persistent batch are updated from the
    scheduler's output, rows of long requests are compacted after their prefill (NELSSA), and
    positions, input tokens and slots of a step are computed.

    The lists of output tokens are kept in a store, since the persistent batch shares them
    with the requests. Left out: positions for M-RoPE and XD-RoPE, the zeroing of GPU blocks,
    pooling-model updates, and drafts computed by n-grams on the GPU. *)
From S2P Require Import Prelude OrdDict KVCacheBlock FreeQueue Request BlockHash BlockPool Managers CacheHit Coordinator KVCacheManager EncoderCache HeapQ RequestQueue SchedUtils Scheduler KVCacheInterface WorkerBlockTable InputBatch.

(** The fields of NewRequestData that are copied from the request *)
Record RequestData := mkRequestData {
  rd_prompt_token_ids : option (list Z);
  rd_prompt_embeds : option (list bytes);
  rd_sampling_params : option WSamplingParams;
  rd_pooling_params : option (obj * bool);
  rd_pooling_states : obj;
  rd_generator : obj;
  rd_lora_request : option (Z * obj);
}.
Record RunnerConfig := mkRunnerConfig {
  is_last_rank : bool;
  use_async_scheduling : bool;
  use_async_spec_decode : bool;
  num_kv_cache_groups : nat;
  reorder_batch_threshold : option Z;
  nelssa_first_n : Z;
  nelssa_last_m : Z;
}.
Record ModelRunner := mkRunner {
  mr_requests : gmap string CachedRequestState;
  outputs : gmap nat (list Z);
  next_output : nat;
  num_prompt_logprobs : gmap string Z;
  encoder_cache : gmap string obj;
  input_batch : InputBatch;
  prev_num_draft_tokens : list Z;
}.
Definition with_requests rs (m : ModelRunner) : ModelRunner :=
  mkRunner rs (outputs m) (next_output m) (num_prompt_logprobs m) (encoder_cache m) (input_batch m) (prev_num_draft_tokens m).
Definition with_outputs o (m : ModelRunner) : ModelRunner :=
  mkRunner (mr_requests m) o (next_output m) (num_prompt_logprobs m) (encoder_cache m) (input_batch m) (prev_num_draft_tokens m).
Definition with_batch b (m : ModelRunner) : ModelRunner :=
  mkRunner (mr_requests m) (outputs m) (next_output m) (num_prompt_logprobs m) (encoder_cache m) b (prev_num_draft_tokens m).
Definition with_drafts d (m : ModelRunner) : ModelRunner :=
  mkRunner (mr_requests m) (outputs m) (next_output m) (num_prompt_logprobs m) (encoder_cache m) (input_batch m) d.
Definition with_caches p e (m : ModelRunner) : ModelRunner :=
  mkRunner (mr_requests m) (outputs m) (next_output m) p e (input_batch m) (prev_num_draft_tokens m).
(** A new list *)
Definition alloc_output (l : list Z) (m : ModelRunner) : nat * ModelRunner :=
  (next_output m, mkRunner (mr_requests m) (<[next_output m := l]> (outputs m)) (S (next_output m)) (num_prompt_logprobs m) (encoder_cache m) (input_batch m) (prev_num_draft_tokens m)).
Definition output_of (m : ModelRunner) (r : CachedRequestState) : list Z := default [] (outputs m !! cr_output_token_ids r).

(** A cached request with some fields changed *)
Definition with_cached (blocks : list (list Z)) (computed : Z) (out : nat) (draft : Z) (r : CachedRequestState) : CachedRequestState :=
  mkCached (cr_req_id r) (cr_prompt_token_ids r) (cr_prompt_embeds r) (cr_sampling_params r) (cr_pooling_params r) (cr_pooling_states r) (cr_generator r)
    blocks computed out (cr_lora_request r) draft (cr_num_prompt_tokens r).

(** [for x in l: m = f(x, m)] *)
Fixpoint rfold {A S} (f : A -> S -> res S) (l : list A) (s : S) : res S :=
  match l with [] => Ok s | x :: l' => do s' <- f x s in rfold f l' s' end.

Definition remove_from_batch (rid : string) (m : ModelRunner) : res ModelRunner :=
  do x <- ib_remove_request rid (input_batch m) in Ok (with_batch x.2 m).

(** ** New requests *)
Definition _update_streaming_request (n : NewRequestData) (d : RequestData) (r : CachedRequestState) (m : ModelRunner) : res ModelRunner :=
  do m <- remove_from_batch (new_req_id n) m in
  do len <- length_from_prompt_token_ids_or_embeds (rd_prompt_token_ids d) (rd_prompt_embeds d) in
  let r' := mkCached (cr_req_id r) (rd_prompt_token_ids d) (rd_prompt_embeds d) (rd_sampling_params d) (rd_pooling_params d) (cr_pooling_states r) (cr_generator r)
              (new_block_ids n) (new_num_computed_tokens n) (cr_output_token_ids r) (cr_lora_request r) (prev_num_draft_len r) len in
  Ok (with_outputs (<[cr_output_token_ids r := []]> (outputs m)) (with_requests (<[new_req_id n := r']> (mr_requests m)) m)).

(** One element of scheduled_new_reqs *)
Definition add_new_request (info : string -> RequestData) (n : NewRequestData) (m : ModelRunner) : res ModelRunner :=
  let rid := new_req_id n in
  let d := info rid in
  match mr_requests m !! rid with
  | Some r => _update_streaming_request n d r m
  | None =>
    let x := alloc_output [] m in
    do len <- length_from_prompt_token_ids_or_embeds (rd_prompt_token_ids d) (rd_prompt_embeds d) in
    let seeded := match rd_sampling_params d with Some sp => match sp_seed sp with Some _ => negb (sp_greedy sp) | None => false end | None => false end in
    let r := mkCached rid (rd_prompt_token_ids d) (rd_prompt_embeds d) (rd_sampling_params d) (rd_pooling_params d)
               (match rd_pooling_params d with Some _ => Some (rd_pooling_states d) | None => None end)
               (if seeded then Some (rd_generator d) else None)
               (new_block_ids n) (new_num_computed_tokens n) x.1 (rd_lora_request d) 0 len in
    let m := with_requests (<[rid := r]> (mr_requests m)) x.2 in
    let lp := match rd_sampling_params d ≫= sp_prompt_logprobs with
              | Some k => <[rid := if k =? -1 then vocab_size (ib_config (input_batch m)) else k]> (num_prompt_logprobs m)
              | None => num_prompt_logprobs m
              end in
    Ok (with_caches lp (encoder_cache m) m)
  end.

(** ** Running and resumed requests *)

(** [for block_ids, new_ids in zip(a, b): block_ids.extend(new_ids)] *)
Fixpoint zip_extend (a b : list (list Z)) : list (list Z) :=
  match a, b with x :: a', y :: b' => (x ++ y) :: zip_extend a' b' | _, _ => a end.

Definition set_row (req_index : nat) (f : Row -> res Row) (b : InputBatch) : res InputBatch :=
  do row <- np_get (rows b) req_index in
  do row' <- f row in
  do rs <- np_set (rows b) req_index row' in
  Ok (with_rows rs (ib_block_table b) (index_dicts b) (allowed_mask_allocated b) b).
Definition row_with (ids : list Z) (no_spec computed : Z) (row : Row) : Row :=
  mkRow ids (is_token_ids row) no_spec (num_prompt_tokens row) computed (request_lora_mapping row) (logits_processing_needs_token_ids row) (samp row).

(** The tokens of a request whose last stage is on another worker: those of new_token_ids that
    the cached request does not have yet. *)
Definition take_new_tokens (num_computed num_tokens : Z) (new_token_ids outs : list Z) : res (list Z) :=
  let num_new_tokens := num_computed + zlen new_token_ids - num_tokens in
  if num_new_tokens =? 1 then do t <- py_index new_token_ids (-1) in Ok (outs ++ [t])
  else if 0 <? num_new_tokens then Ok (outs ++ py_slice new_token_ids (- num_new_tokens) (zlen new_token_ids))
  else Ok outs.

(** What the scheduler sends for one cached request *)
Record CachedData := mkCachedDatum {
  c_req_id : string;
  c_num_computed : Z;
  c_new_blocks : option (list (list Z));
  c_resumed : bool;
  c_num_output : Z;
  c_new_token_ids : option (list Z);
  c_all_token_ids : option (list Z);
}.
Definition cached_datum (d : CachedRequestData) (i : nat) (rid : string) : res CachedData :=
  do computed <- np_get (cd_num_computed_tokens d) i in
  do blocks <- np_get (cd_new_block_ids d) i in
  do num_output <- np_get (cd_num_output_tokens d) i in
  do toks <- match cd_new_token_ids d with [] => Ok None | l => do t <- np_get l i in Ok (Some t) end in
  Ok (mkCachedDatum rid computed blocks (bool_decide (rid ∈ cd_resumed_req_ids d)) num_output toks (od_get rid (cd_all_token_ids d))).

(** Drafts of the last step are taken to be accepted, until they are known to be. *)
Definition assume_accepted (cfg : RunnerConfig) (req_index : option nat) (r : CachedRequestState) (m : ModelRunner) : res (CachedRequestState * bool * ModelRunner) :=
  if negb (prev_num_draft_len r =? 0) && use_async_scheduling cfg then
    match req_index with
    | None => Ok (with_cached (cr_block_ids r) (cr_num_computed_tokens r) (cr_output_token_ids r) 0 r, false, m)
    | Some _ =>
      let n := prev_num_draft_len r in
      let m1 := with_outputs (<[cr_output_token_ids r := output_of m r ++ replicate (Z.to_nat n) (-1)]> (outputs m)) m in
      match prev_req_id_to_index (input_batch m) ≫= (fun d => d !! cr_req_id r) with
      | Some p => do d <- np_set (prev_num_draft_tokens m1) p n in Ok (r, true, with_drafts d m1)
      | None => Ok (r, true, m1)
      end
    end
  else Ok (r, false, m).

(** Output tokens of a cached request: those sampled by another stage, or a cut after a failed
    load. *)
Definition align_outputs (cfg : RunnerConfig) (c : CachedData) (req_index : option nat) (r : CachedRequestState) (m : ModelRunner) : res ModelRunner :=
  let outs := output_of m r in
  if negb (is_last_rank cfg) then
    match c_new_token_ids c with
    | None => Ok m
    | Some l => do outs' <- take_new_tokens (c_num_computed c) (cr_num_tokens r outs) l outs in Ok (with_outputs (<[cr_output_token_ids r := outs']> (outputs m)) m)
    end
  else if c_num_output c <? zlen outs then
    let m' := with_outputs (<[cr_output_token_ids r := py_slice outs 0 (c_num_output c)]> (outputs m)) m in
    match req_index with
    | None => Ok m'
    | Some i =>
      do b <- set_row i (fun row => Ok (row_with (token_ids_cpu row) (num_prompt_tokens row + c_num_output c) (num_computed_tokens_cpu row) row)) (input_batch m') in
      Ok (with_batch b m')
    end
  else Ok m.

Definition new_blocks_of (c : CachedData) (req_index : option nat) (r : CachedRequestState) : res (list (list Z)) :=
  if c_resumed c then
    match req_index, c_new_blocks c with
    | None, Some l => Ok l
    | _, _ => Err AssertionError
    end
  else Ok (match c_new_blocks c with Some l => zip_extend (cr_block_ids r) l | None => cr_block_ids r end).

(** The persistent batch for a request that stays in it *)
Definition update_batch_row (cfg : RunnerConfig) (c : CachedData) (i : nat) (b : InputBatch) : res InputBatch :=
  do b <- set_row i (fun row => Ok (row_with (token_ids_cpu row) (num_tokens_no_spec row) (c_num_computed c) row)) b in
  do ts <- match c_new_blocks c with Some l => mg_append_row l i (ib_block_table b) | None => Ok (ib_block_table b) end in
  let b := with_rows (rows b) ts (index_dicts b) (allowed_mask_allocated b) b in
  if is_last_rank cfg then Ok b
  else
    set_row i (fun row =>
      let toks := default [] (c_new_token_ids c) in
      let e := c_num_computed c + zlen toks in
      do ids <- np_assign (token_ids_cpu row) (c_num_computed c) e toks in
      Ok (row_with ids e (num_computed_tokens_cpu row) row)) b.

(** One element of scheduled_cached_reqs. The lists collect the requests to add to the batch
    and the corrections for drafts. *)
Definition update_cached_request (cfg : RunnerConfig) (specs : list (string * list Z)) (c : CachedData)
    (x : ModelRunner * list string * list (string * Z)) : res (ModelRunner * list string * list (string * Z)) :=
  let '(m, reqs_to_add, corrections) := x in
  let rid := c_req_id c in
  match mr_requests m !! rid with
  | None => Err KeyError
  | Some r =>
    let req_index := req_id_to_index (input_batch m) !! rid in
    do y <- assume_accepted cfg req_index r m in
    let corrections := if y.1.2 then corrections ++ [(rid, prev_num_draft_len r)] else corrections in
    let r := with_cached (cr_block_ids r) (c_num_computed c) (cr_output_token_ids r) (prev_num_draft_len y.1.1) y.1.1 in
    do m <- align_outputs cfg c req_index r y.2 in
    do blocks <- new_blocks_of c req_index r in
    let r := with_cached blocks (cr_num_computed_tokens r) (cr_output_token_ids r) (prev_num_draft_len r) r in
    match req_index with
    | None =>
      if use_async_scheduling cfg && (0 <? c_num_output c) then
        match c_all_token_ids c with
        | None => Err KeyError
        | Some l =>
          let z := alloc_output (py_slice l (- c_num_output c) (zlen l)) m in
          let r := with_cached (cr_block_ids r) (cr_num_computed_tokens r) z.1 (prev_num_draft_len r) r in
          Ok (with_requests (<[rid := r]> (mr_requests z.2)) z.2, reqs_to_add ++ [rid], corrections)
        end
      else Ok (with_requests (<[rid := r]> (mr_requests m)) m, reqs_to_add ++ [rid], corrections)
    | Some i =>
      do b <- update_batch_row cfg c i (input_batch m) in
      do s <- update_req_spec_token_ids r specs b in
      let r := with_cached (cr_block_ids r) (cr_num_computed_tokens r) (cr_output_token_ids r) s.1 r in
      Ok (with_requests (<[rid := r]> (mr_requests m)) (with_batch s.2 m), reqs_to_add, corrections)
    end
  end.

(** ** _update_states *)
Section update.
Context `{Float32}.

(** [for i, req_id in enumerate(req_data.req_ids): ...] *)
Definition update_cached_requests (cfg : RunnerConfig) (specs : list (string * list Z)) (d : CachedRequestData) : ModelRunner * list string * list (string * Z) -> res (ModelRunner * list string * list (string * Z)) :=
  rfold (fun (i : nat * string) x => do c <- cached_datum d i.1 i.2 in update_cached_request cfg specs c x) (zip (seq 0 (length (cd_req_ids d))) (cd_req_ids d)).

(** One request of reqs_to_add *)
Definition add_to_batch (specs : list (string * list Z)) (rid : string) (m : ModelRunner) : res ModelRunner :=
  match mr_requests m !! rid with
  | None => Err KeyError
  | Some r =>
    do x <- ib_add_request r (output_of m r) (input_batch m) in
    do s <- update_req_spec_token_ids r specs x.2 in
    let r := with_cached (cr_block_ids r) (cr_num_computed_tokens r) (cr_output_token_ids r) s.1 r in
    Ok (with_requests (<[rid := r]> (mr_requests m)) (with_batch s.2 m))
  end.

Definition _may_reorder_batch (cfg : RunnerConfig) (scheduled : list (string * Z)) (b : InputBatch) : res InputBatch :=
  if bool_decide (num_kv_cache_groups cfg = 0%nat) then Ok b
  else
    match reorder_batch_threshold cfg with
    | None => Ok b
    | Some t => do x <- reorder_batch_to_split_decodes_and_prefills scheduled t b in Ok x.2
    end.

(** Finished requests, and the requests of the batch that are not scheduled *)
Definition drop_finished (o : SchedulerOutput) (m : ModelRunner) : res ModelRunner :=
  let fin := elements (out_finished_req_ids o) in
  let del {A} (d : gmap string A) := foldl (fun d rid => delete rid d) d fin in
  let m1 := with_caches (del (num_prompt_logprobs m)) (foldl (fun d h => delete h d) (encoder_cache m) (free_encoder_mm_hashes o)) (with_requests (del (mr_requests m)) m) in
  rfold remove_from_batch fin m1.
Definition unscheduled_req_ids (o : SchedulerOutput) (b : InputBatch) : gset string :=
  dom (req_id_to_index b) ∖ (list_to_set (od_keys (num_scheduled_tokens o)) ∖ list_to_set (cd_resumed_req_ids (scheduled_cached_reqs o))).

(** The corrections are for correct_spec_decode_token_counts. *)
Definition _update_states (cfg : RunnerConfig) (info : string -> RequestData) (o : SchedulerOutput) (m : ModelRunner) : res (ModelRunner * list (string * Z)) :=
  let specs := scheduled_spec_decode_tokens o in
  do m <- drop_finished o m in
  do m <- rfold remove_from_batch (elements (unscheduled_req_ids o (input_batch m))) m in
  do m <- rfold (add_new_request info) (scheduled_new_reqs o) m in
  let m := if use_async_spec_decode cfg then with_drafts ((fun _ => 0) <$> prev_num_draft_tokens m) m else m in
  do x <- update_cached_requests cfg specs (scheduled_cached_reqs o) (m, new_req_id <$> scheduled_new_reqs o, []) in
  do m <- rfold (add_to_batch specs) x.1.2 x.1.1 in
  do b <- condense (input_batch m) in
  do b <- _may_reorder_batch cfg (num_scheduled_tokens o) b in
  Ok (with_batch (refresh_metadata b).2 m, x.2).

(** correct_spec_decode_token_counts, with the numbers of tokens that were valid *)
Definition correct_one (valid : list Z) (prev : gmap string nat) (x : string * Z) (m : ModelRunner) : res ModelRunner :=
  let (rid, optimistic) := x in
  match prev !! rid with
  | None => Ok m
  | Some p =>
    do n <- np_get valid p in
    let correction := optimistic - (n - 1) in
    let m1 := with_requests (alter (fun r => with_cached (cr_block_ids r) (cr_num_computed_tokens r - correction) (cr_output_token_ids r) (prev_num_draft_len r) r) rid (mr_requests m)) m in
    match req_id_to_index (input_batch m) !! rid with
    | None => Ok m1
    | Some i =>
      do b <- set_row i (fun row => Ok (row_with (token_ids_cpu row) (num_tokens_no_spec row) (num_computed_tokens_cpu row - correction) row)) (input_batch m1) in
      Ok (with_batch b m1)
    end
  end.
Definition correct_spec_decode_token_counts (valid : list Z) (corrections : list (string * Z)) (m : ModelRunner) : res ModelRunner :=
  match valid, prev_req_id_to_index (input_batch m) with
  | [], _ | _, None => Ok m
  | _, Some prev => if bool_decide (prev = ∅) then Ok m else rfold (correct_one valid prev) corrections m
  end.
End update.

(** ** Compaction of long requests *)

(** Head blocks, tail blocks and the position at which the tail starts *)
Definition tail_layout (bs last_m : Z) (prompt_len : option Z) : Z * Z :=
  match prompt_len with
  | None => ((last_m + bs - 1) / bs, -1)
  | Some n =>
    let tail_start_pos := Z.max (n - last_m) 0 / bs * bs in
    ((Z.max (n - tail_start_pos) 0 + bs - 1) / bs, tail_start_pos)
  end.
Definition compact_request (cfg : RunnerConfig) (rid : string) (x : bool * ModelRunner) : res (bool * ModelRunner) :=
  let (changed, m) := x in
  let b := input_batch m in
  match ib_block_table b with
  | [] => Err IndexError
  | t :: ts =>
    match req_id_to_index b !! rid with
    | None => Ok (changed, m)
    | Some i =>
      let bs := bt_block_size t in
      let head_blocks := (nelssa_first_n cfg + bs - 1) / bs in
      let (tail_blocks, tail_start_pos) := tail_layout bs (nelssa_last_m cfg) (cr_num_prompt_tokens <$> mr_requests m !! rid) in
      do n <- np_get (num_blocks_per_row t) i in
      if n <=? head_blocks + tail_blocks then Ok (changed, m)
      else
        do t' <- clear_middle_blocks i head_blocks tail_blocks tail_start_pos t in
        Ok (true, with_batch (with_rows (rows b) (t' :: ts) (index_dicts b) (allowed_mask_allocated b) b) m)
    end
  end.
Definition _clear_middle_blocks_for_prefill_complete (cfg : RunnerConfig) (request_ids : list string) (m : ModelRunner) : res ModelRunner :=
  do _ <- match ib_block_table (input_batch m) with [] => Err IndexError | _ => Ok tt end in
  do x <- rfold (compact_request cfg) request_ids (false, m) in
  let m := x.2 in
  let b := input_batch m in
  Ok (if x.1 then with_batch (with_rows (rows b) (mg_commit_block_table (num_reqs b) (ib_block_table b)) (index_dicts b) (allowed_mask_allocated b) b) m else m).

(** ** Inputs of a step *)

(** _get_cumsum_and_arange: [2, 5, 3] gives [2, 7, 10] and [0, 1, 0, 1, 2, 3, 4, 0, 1, 2] *)
Fixpoint cumsum (acc : Z) (l : list Z) : list Z := match l with [] => [] | x :: l' => (acc + x) :: cumsum (acc + x) l' end.
Definition _get_cumsum_and_arange (num_tokens : list Z) : list Z * list Z := (cumsum 0 num_tokens, concat (range <$> num_tokens)).
(** [torch.index_select(token_ids.flatten(), 0, indices)] *)
Definition index_select (table : list (list Z)) (indices : list Z) : res (list Z) := rmap (fun i => py_index (concat table) i) indices.
(** The beginning of _prepare_inputs: the positions and token ids of the scheduled tokens, and
    query_start_loc. [max_model_len] is the width of the token table. *)
Definition prepare_tokens (num_scheduled : list Z) (max_model_len : Z) (b : InputBatch) : res (list Z * list Z * list Z) :=
  let n := num_reqs b in
  do _ <- rassert (bool_decide (0 < n)%nat) in
  do req_indices <- np_repeat (seq 0 n) num_scheduled in
  let (cu_num_tokens, query_pos) := _get_cumsum_and_arange num_scheduled in
  do computed <- rmap (fun i => do row <- np_get (rows b) i in Ok (num_computed_tokens_cpu row)) req_indices in
  let positions := zip_with Z.add computed query_pos in
  let token_indices := zip_with (fun p i => p + Z.of_nat i * max_model_len) positions req_indices in
  do input_ids <- index_select (token_ids_cpu <$> rows b) token_indices in
  Ok (positions, input_ids, 0 :: cu_num_tokens).
