(* ===== verification/InputBatchInv.v ===== *)
(** * InputBatchInv
    Views of rows of the persistent batch, moving a row, and condensing and swapping. *)
From stdpp Require Import sorting.
From S2P Require Import Prelude OrdDict KVCacheBlock Request CacheHit KVCacheInterface SizingInv WorkerBlockTable InputBatch.
(** ** Arrays *)
Section arrays.
Context {A : Type}.
Implicit Types (l : list A).

Lemma np_get_Ok l i x : np_get l i = Ok x <-> l !! i = Some x.
Proof. unfold np_get. destruct (l !! i); split; congruence. Qed.
Lemma np_get_lt l i : (i < length l)%nat -> exists x, l !! i = Some x /\ np_get l i = Ok x.
Proof. intros [x Hx]%lookup_lt_is_Some. exists x. by rewrite np_get_Ok. Qed.
Lemma np_set_lt l i x : (i < length l)%nat -> np_set l i x = Ok (<[i := x]> l).
Proof. intros Hi. unfold np_set. by rewrite bool_decide_eq_true_2. Qed.

Lemma length_np_put l s (vals : list A) : 0 <= s -> s + zlen vals <= zlen l -> length (np_put l s vals) = length l.
Proof. unfold np_put, zlen. intros. rewrite !length_app, length_take, length_drop. lia. Qed.
Lemma lookup_np_put l s (vals : list A) (i : nat) : 0 <= s -> s + zlen vals <= zlen l ->
  np_put l s vals !! i = if bool_decide (s <= Z.of_nat i < s + zlen vals) then vals !! (i - Z.to_nat s)%nat else l !! i.
Proof.
  unfold np_put, zlen. intros Hs Hl. case_bool_decide as Hi.
  - rewrite lookup_app_r by (rewrite length_take; lia). rewrite length_take, Nat.min_l by lia. apply lookup_app_l. lia.
  - destruct (decide (Z.of_nat i < s)) as [Hlt | Hge].
    + rewrite lookup_app_l by (rewrite length_take; lia). by rewrite lookup_take_lt by lia.
    + rewrite lookup_app_r by (rewrite length_take; lia). rewrite length_take, Nat.min_l by lia. rewrite lookup_app_r by lia. rewrite lookup_drop. f_equal. lia.
Qed.
Lemma take_np_put l (vals : list A) s n : 0 <= s -> s + zlen vals <= zlen l -> n = s + zlen vals -> take (Z.to_nat n) (np_put l s vals) = take (Z.to_nat s) l ++ vals.
Proof.
  intros Hs Hl ->. unfold np_put, zlen in *. rewrite app_assoc. apply take_app_length'. rewrite length_app, length_take. lia.
Qed.

Lemma slice_bound_in n i : 0 <= i <= n -> slice_bound n i = i.
Proof. intros [H1 H2]. unfold slice_bound. rewrite (proj2 (Z.ltb_ge _ _)) by lia. lia. Qed.
Lemma np_assign_in l s e (vals : list A) : 0 <= s -> e = s + zlen vals -> e <= zlen l -> np_assign l s e vals = Ok (np_put l s vals).
Proof.
  intros Hs -> He. pose proof (zlen_nonneg vals). unfold np_assign, slice_len. rewrite !slice_bound_in by lia. by rewrite (proj2 (Z.eqb_eq _ _)) by lia.
Qed.
Lemma np_fill_in l s e x : 0 <= s <= e -> e <= zlen l -> np_fill l s e x = np_put l s (replicate (Z.to_nat (e - s)) x).
Proof. intros Hs He. unfold np_fill, slice_len. rewrite !slice_bound_in by lia. do 3 f_equal. lia. Qed.
Lemma length_np_fill l s e x : 0 <= s <= e -> e <= zlen l -> length (np_fill l s e x) = length l.
Proof. intros Hs He. rewrite np_fill_in by done. apply length_np_put; [lia |]. unfold zlen. rewrite length_replicate. unfold zlen in He. lia. Qed.
Lemma py_slice_prefix l n : 0 <= n -> py_slice l 0 n = take (Z.to_nat n) l.
Proof. intros Hn. rewrite py_slice_nonneg by lia. by rewrite Z.sub_0_r. Qed.
End arrays.

(** ** Block tables *)
Record table_ok (max : nat) (t : BlockTable) : Prop := {
  to_rows : length (block_table t) = max;
  to_counts : length (num_blocks_per_row t) = max;
  to_width : Forall (fun r => zlen r = bt_max_num_blocks_per_req t) (block_table t);
  to_bound : Forall (fun n => 0 <= n <= bt_max_num_blocks_per_req t) (num_blocks_per_row t);
}.
(** The blocks of a row *)
Definition row_blocks (t : BlockTable) (i : nat) : option (list Z) :=
  n ← num_blocks_per_row t !! i; r ← block_table t !! i; Some (take (Z.to_nat n) r).
Definition kernel_ids (t : BlockTable) (ids : list Z) : list Z :=
  if use_hybrid_blocks t then map_to_kernel_blocks ids (blocks_per_kv_block t) else ids.
(** Only the host table changes. *)
Definition same_setup (t t' : BlockTable) : Prop :=
  exists tb ns, t' = with_table tb ns t.

Section tables.
Context (max : nat).
Implicit Types (t : BlockTable).

Lemma same_setup_refl t : same_setup t t.
Proof. exists (block_table t), (num_blocks_per_row t). by destruct t. Qed.
Lemma same_setup_trans t t1 t2 : same_setup t t1 -> same_setup t1 t2 -> same_setup t t2.
Proof. intros (a & b & ->) (c & d & ->). by exists c, d. Qed.
Lemma same_setup_width t t' : same_setup t t' -> bt_max_num_blocks_per_req t' = bt_max_num_blocks_per_req t.
Proof. by intros (a & b & ->). Qed.
Lemma same_setup_kernel t t' ids : same_setup t t' -> kernel_ids t' ids = kernel_ids t ids.
Proof. by intros (a & b & ->). Qed.

Lemma table_row t i : table_ok max t -> (i < max)%nat -> exists n r, num_blocks_per_row t !! i = Some n /\ block_table t !! i = Some r /\
  0 <= n <= zlen r /\ zlen r = bt_max_num_blocks_per_req t /\ row_blocks t i = Some (take (Z.to_nat n) r).
Proof.
  intros [H1 H2 H3 H4] Hi. destruct (lookup_lt_is_Some_2 (num_blocks_per_row t) i) as [n Hn]; [by rewrite H2 |].
  destruct (lookup_lt_is_Some_2 (block_table t) i) as [r Hr]; [by rewrite H1 |]. exists n, r. rewrite Forall_lookup in H3. rewrite Forall_lookup in H4.
  pose proof (H3 i r Hr). pose proof (H4 i n Hn). split_and!; try done; try lia. unfold row_blocks. by rewrite Hn, Hr.
Qed.
Lemma row_blocks_len t i l : table_ok max t -> row_blocks t i = Some l -> zlen l <= bt_max_num_blocks_per_req t.
Proof.
  intros Ht Hl. assert (i < max)%nat as Hi.
  { unfold row_blocks in Hl. destruct (num_blocks_per_row t !! i) eqn:E; [| done]. apply lookup_lt_Some in E. by rewrite (to_counts _ _ Ht) in E. }
  destruct (table_row t i Ht Hi) as (n & r & _ & _ & Hn & Hr & Hb). rewrite Hb in Hl. injection Hl as <-. unfold zlen in *. rewrite length_take. lia.
Qed.

(** Writing one row *)
Lemma write_row t i r n : table_ok max t -> (i < max)%nat -> zlen r = bt_max_num_blocks_per_req t -> 0 <= n <= zlen r ->
  let t' := with_table (<[i := r]> (block_table t)) (<[i := n]> (num_blocks_per_row t)) t in
  table_ok max t' /\ same_setup t t' /\ row_blocks t' i = Some (take (Z.to_nat n) r) /\ forall k, k <> i -> row_blocks t' k = row_blocks t k.
Proof.
  intros [H1 H2 H3 H4] Hi Hr Hn t'. split_and!.
  - split; simpl; rewrite ?length_insert; try done; apply Forall_insert; try done. lia.
  - by eexists _, _.
  - unfold row_blocks. simpl. rewrite !list_lookup_insert_eq by lia. done.
  - intros k Hk. unfold row_blocks. simpl. by rewrite !list_lookup_insert_ne.
Qed.

Definition row_written t i l t' : Prop :=
  table_ok max t' /\ same_setup t t' /\ row_blocks t' i = Some l /\ forall k, k <> i -> row_blocks t' k = row_blocks t k.

Lemma append_row_spec t i l ids : table_ok max t -> (i < max)%nat -> row_blocks t i = Some l -> zlen l + zlen (kernel_ids t ids) <= bt_max_num_blocks_per_req t ->
  exists t', append_row ids i t = Ok t' /\ row_written t i (l ++ kernel_ids t ids) t'.
Proof.
  intros Ht Hi Hl Hcap. destruct (decide (ids = [])) as [-> | Hne].
  { exists t. split; [done |]. assert (kernel_ids t [] = []) as -> by (unfold kernel_ids, map_to_kernel_blocks; destruct (use_hybrid_blocks t); [by case_match | done]).
    rewrite app_nil_r. split_and!; [done | apply same_setup_refl | done | done]. }
  assert (append_row ids i t = (do start <- np_get (num_blocks_per_row t) i in do counts <- np_set (num_blocks_per_row t) i (start + zlen (kernel_ids t ids)) in
    do row <- np_get (block_table t) i in do row' <- np_assign row start (start + zlen (kernel_ids t ids)) (kernel_ids t ids) in
    do tb <- np_set (block_table t) i row' in Ok (with_table tb counts t))) as -> by (by destruct ids).
  destruct (table_row t i Ht Hi) as (n & r & Hn & Hr & Hb & Hw & Hrow). rewrite Hrow in Hl. injection Hl as <-.
  assert (zlen (take (Z.to_nat n) r) = n) as Htk by (unfold zlen in *; rewrite length_take; lia). rewrite Htk in Hcap.
  rewrite (proj2 (np_get_Ok _ _ _) Hn). cbn [rbind]. rewrite np_set_lt by (rewrite (to_counts _ _ Ht); done). cbn [rbind].
  rewrite (proj2 (np_get_Ok _ _ _) Hr). cbn [rbind]. rewrite np_assign_in by lia. cbn [rbind]. rewrite np_set_lt by (rewrite (to_rows _ _ Ht); done). cbn [rbind].
  eexists. split; [done |]. pose proof (zlen_nonneg (kernel_ids t ids)). assert (zlen (np_put r n (kernel_ids t ids)) = zlen r) as Hlen by (unfold zlen at 1; rewrite length_np_put; [done | lia | lia]).
  destruct (write_row t i (np_put r n (kernel_ids t ids)) (n + zlen (kernel_ids t ids)) Ht Hi) as (H1 & H2 & H3 & H4); [lia | lia |]. split_and!; try done.
  rewrite H3. f_equal. apply take_np_put; lia.
Qed.
Lemma set_count_zero t i : table_ok max t -> (i < max)%nat -> row_written t i [] (with_table (block_table t) (<[i := 0]> (num_blocks_per_row t)) t).
Proof.
  intros Ht Hi. destruct (table_row t i Ht Hi) as (n & r & Hn & Hr & Hb & Hw & _). destruct (write_row t i r 0 Ht Hi Hw) as (H1 & H2 & H3 & H4); [lia |].
  rewrite list_insert_id in H1, H2, H3, H4 by done. by split_and!.
Qed.
Lemma add_row_spec t i ids : table_ok max t -> (i < max)%nat -> zlen (kernel_ids t ids) <= bt_max_num_blocks_per_req t ->
  exists t', add_row ids i t = Ok t' /\ row_written t i (kernel_ids t ids) t'.
Proof.
  intros Ht Hi Hcap. unfold add_row. rewrite np_set_lt by (rewrite (to_counts _ _ Ht); done). cbn [rbind].
  destruct (set_count_zero t i Ht Hi) as (H1 & H2 & H3 & H4). destruct (append_row_spec _ i [] ids H1 Hi H3) as (t' & -> & G1 & G2 & G3 & G4); [done |].
  exists t'. split; [done |]. split_and!; [done | exact (same_setup_trans _ _ _ H2 G2) | done |]. intros k Hk. rewrite G4 by done. by apply H4.
Qed.
Lemma clear_row_spec t i : table_ok max t -> (i < max)%nat -> exists t', clear_row i t = Ok t' /\ row_written t i [] t'.
Proof.
  intros Ht Hi. destruct (table_row t i Ht Hi) as (n & r & Hn & Hr & Hb & Hw & Hrow). unfold clear_row.
  rewrite (proj2 (np_get_Ok _ _ _) Hn), (proj2 (np_get_Ok _ _ _) Hr). cbn [rbind]. set (r' := if 0 <? n then _ else _).
  assert (zlen r' = zlen r) as Hlen by (subst r'; destruct (0 <? n); [unfold zlen; rewrite length_np_fill by lia; done | done]).
  rewrite !np_set_lt by (rewrite ?(to_rows _ _ Ht), ?(to_counts _ _ Ht); done). cbn [rbind]. eexists. split; [done |].
  destruct (write_row t i r' 0 Ht Hi) as (H1 & H2 & H3 & H4); [lia | lia |]. by split_and!.
Qed.
Lemma move_row_spec t src tgt l : table_ok max t -> (src < max)%nat -> (tgt < max)%nat -> row_blocks t src = Some l ->
  exists t', move_row src tgt t = Ok t' /\ row_written t tgt l t'.
Proof.
  intros Ht Hs Hi Hl. destruct (table_row t src Ht Hs) as (n & r & Hn & Hr & Hb & Hw & Hrow). rewrite Hrow in Hl. injection Hl as <-.
  destruct (table_row t tgt Ht Hi) as (n2 & q & Hn2 & Hq & Hb2 & Hw2 & _). unfold move_row.
  rewrite (proj2 (np_get_Ok _ _ _) Hn), (proj2 (np_get_Ok _ _ _) Hr), (proj2 (np_get_Ok _ _ _) Hq). cbn [rbind]. rewrite py_slice_prefix by lia.
  assert (zlen (take (Z.to_nat n) r) = n) as Htk by (unfold zlen in *; rewrite length_take; lia).
  rewrite np_assign_in by lia. cbn [rbind]. rewrite !np_set_lt by (rewrite ?(to_rows _ _ Ht), ?(to_counts _ _ Ht); done). cbn [rbind]. eexists. split; [done |].
  assert (zlen (np_put q 0 (take (Z.to_nat n) r)) = zlen q) as Hlen by (unfold zlen at 1; rewrite length_np_put by lia; done).
  destruct (write_row t tgt (np_put q 0 (take (Z.to_nat n) r)) n Ht Hi) as (H1 & H2 & H3 & H4); [lia | lia |]. split_and!; try done.
  rewrite H3, take_np_put by lia. done.
Qed.
Lemma swap_row_spec t i j : table_ok max t -> (i < max)%nat -> (j < max)%nat -> i <> j ->
  exists t', swap_row i j t = Ok t' /\ table_ok max t' /\ same_setup t t' /\
    row_blocks t' i = row_blocks t j /\ row_blocks t' j = row_blocks t i /\ forall k, k <> i -> k <> j -> row_blocks t' k = row_blocks t k.
Proof.
  intros Ht Hi Hj Hne. destruct (table_row t i Ht Hi) as (n & r & Hn & Hr & Hb & Hw & Hrow). destruct (table_row t j Ht Hj) as (n2 & q & Hn2 & Hq & Hb2 & Hw2 & Hrow2).
  unfold swap_row. rewrite (proj2 (np_get_Ok _ _ _) Hn), (proj2 (np_get_Ok _ _ _) Hn2), (proj2 (np_get_Ok _ _ _) Hr), (proj2 (np_get_Ok _ _ _) Hq). cbn [rbind].
  eexists. split; [done |]. destruct (write_row t i q n2 Ht Hi) as (H1 & H2 & H3 & H4); [lia | lia |].
  destruct (write_row _ j r n H1 Hj) as (G1 & G2 & G3 & G4); [simpl; lia | lia |]. cbn [block_table num_blocks_per_row with_table] in *.
  split_and!; [done | exact (same_setup_trans _ _ _ H2 G2) | | |].
  - etransitivity; [by apply G4 |]. by rewrite H3, Hrow2.
  - by rewrite Hrow.
  - intros k Hk1 Hk2. etransitivity; [by apply G4 | by apply H4].
Qed.
End tables.

(** All groups *)
Lemma rmap_Forall2 {A B} (f : A -> res B) (R : A -> B -> Prop) l : Forall (fun x => exists y, f x = Ok y /\ R x y) l -> exists k, rmap f l = Ok k /\ Forall2 R l k.
Proof.
  induction 1 as [|x l (y & Hy & Hr) Hl (k & Hk & IH)]; [by exists [] |]. exists (y :: k). simpl. rewrite Hy. cbn [rbind]. rewrite Hk. split; [done | by constructor].
Qed.
Definition blocks_at (ts : list BlockTable) (i : nat) : option (list (list Z)) := mapM (fun t => row_blocks t i) ts.
Definition same_setups : list BlockTable -> list BlockTable -> Prop := Forall2 same_setup.

Section groups.
Context (max : nat).
Implicit Types (ts : list BlockTable).

Lemma blocks_at_Some ts i : Forall (table_ok max) ts -> (i < max)%nat -> is_Some (blocks_at ts i).
Proof.
  intros Hts Hi. apply mapM_is_Some. eapply Forall_impl; [exact Hts |]. intros t Ht. cbn beta. destruct (table_row max t i Ht Hi) as (n & r & _ & _ & _ & _ & Hb). exact (ex_intro _ _ Hb).
Qed.
Lemma blocks_at_ext ts ts' i j : Forall2 (fun t t' => row_blocks t' j = row_blocks t i) ts ts' -> blocks_at ts' j = blocks_at ts i.
Proof. unfold blocks_at. induction 1 as [|t t' ts ts' Ht Hts IH]; [done |]. simpl. by rewrite Ht, IH. Qed.
Definition rows_written ts (i : nat) (l : list (list Z)) ts' : Prop :=
  Forall (table_ok max) ts' /\ same_setups ts ts' /\ blocks_at ts' i = Some l /\ forall k, k <> i -> blocks_at ts' k = blocks_at ts k.
Lemma rows_written_intro ts i l ts' : Forall2 (fun t x => row_written max t i x.1 x.2) ts (zip l ts') -> length l = length ts' -> rows_written ts i l ts'.
Proof.
  intros Hf Hlen. revert l ts' Hlen Hf. induction ts as [|t ts IH]; intros [|x l] [|t' ts'] Hlen Hf; try done; simpl in Hf; inversion Hf as [|? ? ? ? (H1 & H2 & H3 & H4) Hf']; subst.
  - split_and!; try done. constructor.
  - destruct (IH l ts' ltac:(by injection Hlen) Hf') as (G1 & G2 & G3 & G4). split_and!; [by constructor | by constructor | |].
    + unfold blocks_at in *. simpl in *. by rewrite H3, G3.
    + intros k Hk. unfold blocks_at in *. simpl in *. by rewrite H4, G4.
Qed.

(** Whether the blocks of a request fit, and the kernel blocks they become *)
Definition fits ts (old ids : list (list Z)) : Prop :=
  length old = length ts /\ length ids = length ts /\
  forall g t o l, ts !! g = Some t -> old !! g = Some o -> ids !! g = Some l -> zlen o + zlen (kernel_ids t l) <= bt_max_num_blocks_per_req t.
Definition kernel_rows ts (ids : list (list Z)) : list (list Z) := zip_with kernel_ids ts ids.

Lemma fits_cons t ts o old l ids : fits (t :: ts) (o :: old) (l :: ids) -> zlen o + zlen (kernel_ids t l) <= bt_max_num_blocks_per_req t /\ fits ts old ids.
Proof.
  intros (H1 & H2 & H3). split; [by apply (H3 0%nat) |]. split_and!; [by injection H1 | by injection H2 |]. intros g. exact (H3 (S g)).
Qed.
Lemma mg_append_spec ts i old ids : Forall (table_ok max) ts -> (i < max)%nat -> blocks_at ts i = Some old -> fits ts old ids ->
  exists ts', mg_append_row ids i ts = Ok ts' /\ rows_written ts i (zip_with app old (kernel_rows ts ids)) ts'.
Proof.
  intros Hts Hi. revert old ids. induction Hts as [|t ts Ht Hts IH]; intros old ids Hold Hf.
  - exists []. destruct Hf as (H1 & H2 & _). destruct old, ids; try done. split; [done |]. split_and!; try done. constructor.
  - unfold blocks_at in Hold. simpl in Hold. destruct (row_blocks t i) as [o|] eqn:Eo; [| done]. destruct (mapM _ ts) as [old'|] eqn:Eold; [| done]. injection Hold as <-.
    destruct ids as [|l ids]; [by destruct Hf as (_ & ? & _) |]. apply fits_cons in Hf as [Hf1 Hf2].
    destruct (append_row_spec max t i o l Ht Hi Eo Hf1) as (t' & Ht' & Hw). destruct (IH old' ids Eold Hf2) as (ts' & Hts' & (G1 & G2 & G3 & G4)).
    exists (t' :: ts'). unfold mg_append_row in *. simpl. rewrite Ht'. cbn [rbind]. rewrite Hts'. split; [done |]. destruct Hw as (K1 & K2 & K3 & K4).
    split_and!; [by constructor | by constructor | unfold blocks_at in *; simpl in *; by rewrite K3, G3 |]. intros k Hk. unfold blocks_at in *. simpl. by rewrite K4, G4.
Qed.
Lemma mg_add_spec ts i ids : Forall (table_ok max) ts -> (i < max)%nat -> fits ts (replicate (length ts) []) ids ->
  exists ts', mg_add_row ids i ts = Ok ts' /\ rows_written ts i (kernel_rows ts ids) ts'.
Proof.
  intros Hts Hi. revert ids. induction Hts as [|t ts Ht Hts IH]; intros ids Hf.
  - exists []. destruct Hf as (H1 & H2 & _). destruct ids; try done. split; [done |]. split_and!; try done. constructor.
  - destruct ids as [|l ids]; [by destruct Hf as (_ & ? & _) |]. simpl replicate in Hf. apply fits_cons in Hf as [Hf1 Hf2].
    destruct (add_row_spec max t i l Ht Hi) as (t' & Ht' & (K1 & K2 & K3 & K4)); [unfold zlen in Hf1 at 1; simpl in Hf1; lia |].
    destruct (IH ids Hf2) as (ts' & Hts' & (G1 & G2 & G3 & G4)). exists (t' :: ts'). unfold mg_add_row in *. simpl. rewrite Ht'. cbn [rbind]. rewrite Hts'. split; [done |].
    split_and!; [by constructor | by constructor | unfold blocks_at in *; simpl in *; by rewrite K3, G3 |]. intros k Hk. unfold blocks_at in *. simpl. by rewrite K4, G4.
Qed.
Lemma mg_rmap_spec (f : BlockTable -> res BlockTable) (R : BlockTable -> BlockTable -> Prop) ts :
  (forall t, table_ok max t -> exists t', f t = Ok t' /\ table_ok max t' /\ same_setup t t' /\ R t t') -> Forall (table_ok max) ts ->
  exists ts', rmap f ts = Ok ts' /\ Forall (table_ok max) ts' /\ same_setups ts ts' /\ Forall2 R ts ts'.
Proof.
  intros Hf Hts. destruct (rmap_Forall2 f (fun t t' => table_ok max t' /\ same_setup t t' /\ R t t') ts) as (ts' & Hr & Hall).
  - eapply Forall_impl; [exact Hts |]. intros t Ht. by apply Hf.
  - exists ts'. split; [done |]. clear -Hall. induction Hall as [|t t' ts ts' (H1 & H2 & H3) Hall (IH1 & IH2 & IH3)]; [split_and!; constructor | split_and!; by constructor].
Qed.
Lemma mg_clear_spec ts i : Forall (table_ok max) ts -> (i < max)%nat ->
  exists ts', mg_clear_row i ts = Ok ts' /\ Forall (table_ok max) ts' /\ same_setups ts ts' /\ forall k, k <> i -> blocks_at ts' k = blocks_at ts k.
Proof.
  intros Hts Hi. destruct (mg_rmap_spec (clear_row i) (fun t t' => forall k, k <> i -> row_blocks t' k = row_blocks t k) ts) as (ts' & Hr & H1 & H2 & H3); [| done |].
  - intros t Ht. destruct (clear_row_spec max t i Ht Hi) as (t' & E & (? & ? & _ & ?)). by exists t'.
  - exists ts'. split_and!; try done. intros k Hk. apply blocks_at_ext. eapply Forall2_impl; [exact H3 |]. simpl. auto.
Qed.
Lemma mg_move_spec ts src tgt : Forall (table_ok max) ts -> (src < max)%nat -> (tgt < max)%nat ->
  exists ts', mg_move_row src tgt ts = Ok ts' /\ Forall (table_ok max) ts' /\ same_setups ts ts' /\ blocks_at ts' tgt = blocks_at ts src /\ forall k, k <> tgt -> blocks_at ts' k = blocks_at ts k.
Proof.
  intros Hts Hs Hi. destruct (mg_rmap_spec (move_row src tgt) (fun t t' => row_blocks t' tgt = row_blocks t src /\ forall k, k <> tgt -> row_blocks t' k = row_blocks t k) ts) as (ts' & Hr & H1 & H2 & H3); [| done |].
  - intros t Ht. destruct (table_row max t src Ht Hs) as (n & r & _ & _ & _ & _ & Hrow). destruct (move_row_spec max t src tgt _ Ht Hs Hi Hrow) as (t' & E & (? & ? & ? & ?)).
    exists t'. split_and!; try done. congruence.
  - exists ts'. split_and!; try done; [| intros k Hk]; apply blocks_at_ext; (eapply Forall2_impl; [exact H3 |]); simpl; [tauto |]. intros t t' [_ ?]. auto.
Qed.
Lemma mg_swap_spec ts i j : Forall (table_ok max) ts -> (i < max)%nat -> (j < max)%nat -> i <> j ->
  exists ts', mg_swap_row i j ts = Ok ts' /\ Forall (table_ok max) ts' /\ same_setups ts ts' /\
    blocks_at ts' i = blocks_at ts j /\ blocks_at ts' j = blocks_at ts i /\ forall k, k <> i -> k <> j -> blocks_at ts' k = blocks_at ts k.
Proof.
  intros Hts Hi Hj Hne. destruct (mg_rmap_spec (swap_row i j) (fun t t' => row_blocks t' i = row_blocks t j /\ row_blocks t' j = row_blocks t i /\ forall k, k <> i -> k <> j -> row_blocks t' k = row_blocks t k) ts) as (ts' & Hr & H1 & H2 & H3); [| done |].
  - intros t Ht. destruct (swap_row_spec max t i j Ht Hi Hj Hne) as (t' & E & ?). by exists t'.
  - exists ts'. split_and!; try done; [| | intros k Hk1 Hk2]; apply blocks_at_ext; (eapply Forall2_impl; [exact H3 |]); simpl; [tauto | tauto |]. intros t t' (_ & _ & ?). auto.
Qed.
End groups.

(** ** Views *)

(** What a row says about its request: the tokens in use, which of them are token ids, the
    numbers of tokens, prompt tokens and computed tokens, the LoRA, the sampling parameters, the
    blocks of every group, the generator, bad words, prompt embeddings (read only for positions
    without token ids), draft tokens and output tokens.
    Three things of a row are left out because the code does not keep them with the request: the
    allowed-token mask ([swap_duplicates_mask], [stale_mask_restricts]), the layout of a
    compacted NELSSA row ([condense_loses_compaction]) and the flag of pooling models. *)
Record View := mkView {
  v_tokens : list Z;
  v_is_ids : list bool;
  v_no_spec : Z;
  v_prompt : Z;
  v_computed : Z;
  v_lora : Z;
  v_samp : SampRow;
  v_blocks : list (list Z);
  v_generator : option obj;
  v_bad_words : option (list (list Z));
  v_embeds : option (list bytes);
  v_specs : list Z;
  v_out : option nat;
}.
Definition active (row : Row) (specs : list Z) : nat := Z.to_nat (num_tokens_no_spec row + zlen specs).
Definition read_embeds (is_ids : list bool) (n : Z) (e : option (list bytes)) : option (list bytes) :=
  if forallb id (take (Z.to_nat n) is_ids) then None else e.
Definition row_view (pooling : bool) (row : Row) (specs : list Z) (blocks : list (list Z)) (gen : option obj) (bad : option (list (list Z))) (e : option (list bytes)) (out : option nat) : View :=
  let is_ids := take (active row specs) (is_token_ids row) in
  mkView (take (active row specs) (token_ids_cpu row)) is_ids (num_tokens_no_spec row) (num_prompt_tokens row) (num_computed_tokens_cpu row) (request_lora_mapping row)
    (if pooling then empty_samp else copy_samp [] (samp row)) blocks (if pooling then None else gen) (if pooling then None else bad)
    (read_embeds is_ids (num_prompt_tokens row) e) specs out.
Definition view_at (b : InputBatch) (i : nat) : option View :=
  row ← rows b !! i;
  specs ← spec_token_ids b !! i;
  blocks ← blocks_at (ib_block_table b) i;
  Some (row_view (is_pooling_model (ib_config b)) row specs blocks (generators (index_dicts b) !! i) (bad_words_token_ids (index_dicts b) !! i)
          (req_prompt_embeds (index_dicts b) !! i) (mjoin (req_output_token_ids b !! i))).
Definition view (b : InputBatch) (rid : string) : option View := req_id_to_index b !! rid ≫= view_at b.

(** ** The invariant *)
Definition row_ok (L : nat) (row : Row) : Prop := length (token_ids_cpu row) = L /\ length (is_token_ids row) = L.
Definition active_ok (L : nat) (row : Row) (specs : list Z) : Prop := 0 <= num_tokens_no_spec row /\ (active row specs <= L)%nat.

Definition reads_embeds (row : Row) (specs : list Z) : Prop :=
  forallb id (take (Z.to_nat (num_prompt_tokens row)) (take (active row specs) (is_token_ids row))) = false.

(** [H] are the empty indices, [L] the width of the token table. *)
Record ib_ok (L : nat) (H : list nat) (b : InputBatch) : Prop := {
  ok_index : forall rid i, req_id_to_index b !! rid = Some i <-> _req_ids b !! i = Some (Some rid);
  ok_holes : forall i, _req_ids b !! i = Some None <-> i ∈ H;
  ok_nodup : NoDup H;
  ok_count : (num_reqs b + length H = length (_req_ids b))%nat;
  ok_outs : length (req_output_token_ids b) = length (_req_ids b);
  ok_specs : (length (_req_ids b) <= length (spec_token_ids b))%nat;
  ok_unused : forall i s, (length (_req_ids b) <= i)%nat -> spec_token_ids b !! i = Some s -> s = [];
  ok_len : (length (_req_ids b) <= ib_max_num_reqs (ib_config b))%nat;
  ok_rows : length (rows b) = ib_max_num_reqs (ib_config b);
  ok_tables : Forall (table_ok (ib_max_num_reqs (ib_config b))) (ib_block_table b);
  ok_row : Forall (row_ok L) (rows b);
  ok_active : forall i rid row specs, _req_ids b !! i = Some (Some rid) -> rows b !! i = Some row -> spec_token_ids b !! i = Some specs ->
    active_ok L row specs /\ (reads_embeds row specs -> is_Some (req_prompt_embeds (index_dicts b) !! i));
  ok_free : forall i, is_pooling_model (ib_config b) = false -> mjoin (_req_ids b !! i) = None ->
    generators (index_dicts b) !! i = None /\ bad_words_token_ids (index_dicts b) !! i = None;
}.

Section batch.
Context (L : nat).
Implicit Types (b : InputBatch) (H : list nat).

Lemma ok_lt H b i x : ib_ok L H b -> _req_ids b !! i = Some x -> (i < length (_req_ids b))%nat /\ (i < ib_max_num_reqs (ib_config b))%nat.
Proof. intros Hb Hi%lookup_lt_Some. pose proof (ok_len _ _ _ Hb). lia. Qed.
(** The data of an index below the length of the batch *)
Lemma ok_data H b i : ib_ok L H b -> (i < length (_req_ids b))%nat -> exists row specs out blocks,
  rows b !! i = Some row /\ spec_token_ids b !! i = Some specs /\ req_output_token_ids b !! i = Some out /\ blocks_at (ib_block_table b) i = Some blocks /\
  row_ok L row /\ view_at b i = Some (row_view (is_pooling_model (ib_config b)) row specs blocks (generators (index_dicts b) !! i) (bad_words_token_ids (index_dicts b) !! i)
    (req_prompt_embeds (index_dicts b) !! i) out).
Proof.
  intros Hb Hi. pose proof (ok_len _ _ _ Hb) as Hlen.
  destruct (lookup_lt_is_Some_2 (rows b) i) as [row Hrow]; [rewrite (ok_rows _ _ _ Hb); lia |].
  destruct (lookup_lt_is_Some_2 (spec_token_ids b) i) as [specs Hspecs]; [pose proof (ok_specs _ _ _ Hb); lia |].
  destruct (lookup_lt_is_Some_2 (req_output_token_ids b) i) as [out Hout]; [by rewrite (ok_outs _ _ _ Hb) |].
  destruct (blocks_at_Some (ib_max_num_reqs (ib_config b)) (ib_block_table b) i (ok_tables _ _ _ Hb)) as [blocks Hblocks]; [lia |].
  exists row, specs, out, blocks. split_and!; try done; [exact (Forall_lookup_1 _ _ _ _ (ok_row _ _ _ Hb) Hrow) |].
  unfold view_at. rewrite Hrow, Hspecs, Hblocks, Hout. done.
Qed.

(** Copying a row *)
Lemma take_copied {A} (l k : list A) n m : 0 <= n -> (Z.to_nat n <= length k)%nat -> length l = length k -> (m <= Z.to_nat n)%nat ->
  exists l', np_assign l 0 n (py_slice k 0 n) = Ok l' /\ length l' = length l /\ take m l' = take m k.
Proof.
  intros Hn Hk Hl Hm. rewrite py_slice_prefix by done. assert (zlen (take (Z.to_nat n) k) = n) as Hz by (unfold zlen; rewrite length_take; lia).
  rewrite np_assign_in; [| lia | lia | unfold zlen; lia]. eexists. split; [done |]. split; [apply length_np_put; [lia | rewrite Hz; unfold zlen; lia] |].
  unfold np_put. simpl. rewrite take_app_le by (rewrite length_take; lia). rewrite take_take. f_equal. lia.
Qed.
Lemma copy_row_spec pooling mask n t s specs : row_ok L t -> row_ok L s -> 0 <= n -> (Z.to_nat n <= L)%nat -> (active t specs <= Z.to_nat n)%nat ->
  exists s', copy_row pooling mask n t s = Ok s' /\ row_ok L s' /\ num_tokens_no_spec s' = num_tokens_no_spec t /\
    forall blocks gen bad e out, row_view pooling s' specs blocks gen bad e out = row_view pooling t specs blocks gen bad e out.
Proof.
  intros [Ht1 Ht2] [Hs1 Hs2] Hn HL Ha. destruct (take_copied (token_ids_cpu s) (token_ids_cpu t) n (active t specs)) as (ids & Hi & Hil & Hie); [done | lia | lia | done |].
  destruct (take_copied (is_token_ids s) (is_token_ids t) n (active t specs)) as (ks & Hj & Hjl & Hje); [done | lia | lia | done |].
  unfold copy_row. rewrite Hi. cbn [rbind]. rewrite Hj. cbn [rbind]. eexists. split; [done |]. split; [split; simpl; lia |]. split; [done |].
  intros. unfold row_view. unfold active in *. cbn [num_tokens_no_spec token_ids_cpu is_token_ids num_prompt_tokens num_computed_tokens_cpu request_lora_mapping samp].
  rewrite Hie, Hje. by destruct pooling.
Qed.

Lemma ib_ok_perm H H' b : H ≡ₚ H' -> ib_ok L H b -> ib_ok L H' b.
Proof.
  intros Hp [? Hh Hn Hc]. split; try done.
  - intros i. rewrite Hh. by rewrite Hp.
  - by rewrite <- Hp.
  - by rewrite <- (Permutation_length Hp).
Qed.
Lemma size_insert_old {A} (m : gmap string A) k x : is_Some (m !! k) -> size (<[k := x]> m) = size m.
Proof. intros [y Hy]. by rewrite map_size_insert, Hy. Qed.

(** What does not change while requests are moved *)
Definition same_frame b b' : Prop :=
  ib_config b' = ib_config b /\ same_setups (ib_block_table b) (ib_block_table b') /\ id_sets b' = id_sets b /\ id_dicts b' = id_dicts b /\ lora b' = lora b /\
  prev_req_id_to_index b' = prev_req_id_to_index b /\ dom (req_id_to_index b') = dom (req_id_to_index b) /\ allowed_mask_allocated b' = allowed_mask_allocated b.
Lemma same_frame_refl b : same_frame b b.
Proof. split_and!; try done. apply Forall_Forall2_diag, Forall_true. exact same_setup_refl. Qed.
Lemma same_frame_trans b b1 b2 : same_frame b b1 -> same_frame b1 b2 -> same_frame b b2.
Proof.
  intros (A1 & A2 & A3 & A4 & A5 & A6 & A7 & A8) (B1 & B2 & B3 & B4 & B5 & B6 & B7 & B8). split_and!; try congruence.
  unfold same_setups in *. clear -A2 B2. revert B2. generalize (ib_block_table b2). induction A2 as [|t t1 ts ts1 Ht Hts IH]; intros ts2 B2; inversion B2; subst; constructor; eauto using same_setup_trans.
Qed.

Definition same_removed b b' : Prop :=
  _removed (batch_update_builder b') = _removed (batch_update_builder b) /\ _is_removed_sorted (batch_update_builder b') = _is_removed_sorted (batch_update_builder b).

Lemma move_key_eq {A} (d : gmap nat A) src tgt : src <> tgt -> d !! tgt = None -> move_key src tgt d !! tgt = d !! src.
Proof. intros Hne Ht. unfold move_key. destruct (d !! src) eqn:E; [by rewrite lookup_insert_eq | by rewrite Ht]. Qed.
Lemma move_key_src {A} (d : gmap nat A) src tgt : src <> tgt -> move_key src tgt d !! src = None.
Proof. intros Hne. unfold move_key. destruct (d !! src) eqn:E; [by rewrite lookup_insert_ne, lookup_delete_eq | done]. Qed.
Lemma move_key_ne {A} (d : gmap nat A) src tgt k : k <> src -> k <> tgt -> move_key src tgt d !! k = d !! k.
Proof. intros H1 H2. unfold move_key. destruct (d !! src); [| done]. rewrite lookup_insert_ne by done. by rewrite lookup_delete_ne. Qed.

(** A moved row has the same view. *)
Lemma row_view_embeds pooling row specs blocks gen bad e e' out : (reads_embeds row specs -> e = e') -> row_view pooling row specs blocks gen bad e out = row_view pooling row specs blocks gen bad e' out.
Proof. unfold row_view, read_embeds, reads_embeds. intros He. destruct (forallb _ _); [done | by rewrite He]. Qed.
Lemma row_view_pooling row specs blocks gen bad gen' bad' e out (p : bool) : (p = false -> gen = gen' /\ bad = bad') -> row_view p row specs blocks gen bad e out = row_view p row specs blocks gen' bad' e out.
Proof. intros Hp. destruct p; [done |]. by destruct (Hp eq_refl) as [-> ->]. Qed.
Lemma reads_embeds_view p row row' specs : row_view p row' specs [] None None None None = row_view p row specs [] None None None None -> reads_embeds row' specs -> reads_embeds row specs.
Proof. unfold row_view, reads_embeds. intros [=]. congruence. Qed.

(** The index and the list of ids when a request moves *)
Definition indexed (idx : gmap string nat) (ids : list (option string)) : Prop := forall r i, idx !! r = Some i <-> ids !! i = Some (Some r).
Lemma indexed_move idx ids src tgt rid : indexed idx ids -> ids !! src = Some (Some rid) -> ids !! tgt = Some None ->
  indexed (<[rid := tgt]> idx) (<[src := None]> (<[tgt := Some rid]> ids)).
Proof.
  intros Hi Hs Ht r i. assert (src <> tgt) as Hne by congruence. pose proof (lookup_lt_Some _ _ _ Hs) as Hsl. pose proof (lookup_lt_Some _ _ _ Ht) as Htl.
  destruct (decide (i = src)) as [-> | H1].
  - rewrite list_lookup_insert_eq by (rewrite length_insert; done). split; [| done]. destruct (decide (r = rid)) as [-> | Hr]; [rewrite lookup_insert_eq; congruence |].
    rewrite lookup_insert_ne by done. intros E%Hi. congruence.
  - rewrite list_lookup_insert_ne by done. destruct (decide (i = tgt)) as [-> | H2].
    + rewrite list_lookup_insert_eq by done. destruct (decide (r = rid)) as [-> | Hr]; [by rewrite lookup_insert_eq |]. rewrite lookup_insert_ne by done.
      split; [intros E%Hi; congruence | congruence].
    + rewrite list_lookup_insert_ne by done. rewrite <- (Hi r i). destruct (decide (r = rid)) as [-> | Hr]; [| by rewrite lookup_insert_ne].
      rewrite lookup_insert_eq. apply Hi in Hs. split; congruence.
Qed.
Lemma holes_move (ids : list (option string)) src tgt rid K : (forall i, ids !! i = Some None <-> i ∈ tgt :: K) -> NoDup (tgt :: K) -> ids !! src = Some (Some rid) ->
  (forall i, <[src := None]> (<[tgt := Some rid]> ids) !! i = Some None <-> i ∈ src :: K) /\ NoDup (src :: K).
Proof.
  intros Hh [Ht HK]%NoDup_cons Hs. pose proof (lookup_lt_Some _ _ _ Hs) as Hsl. assert (ids !! tgt = Some None) as Htn by (apply Hh; left). pose proof (lookup_lt_Some _ _ _ Htn) as Htl. split.
  - intros i. rewrite elem_of_cons. destruct (decide (i = src)) as [-> | H1]; [rewrite list_lookup_insert_eq by (rewrite length_insert; done); tauto |].
    rewrite list_lookup_insert_ne by done. destruct (decide (i = tgt)) as [-> | H2].
    + rewrite list_lookup_insert_eq by done. split; [done | intros [? | ?]; done].
    + rewrite list_lookup_insert_ne by done. rewrite Hh, elem_of_cons. tauto.
  - constructor; [| done]. intros Hin. assert (ids !! src = Some None) by (apply Hh; by right). congruence.
Qed.
(** The views after one request has been moved *)
Lemma view_move b b' src tgt rid : indexed (req_id_to_index b) (_req_ids b) -> _req_ids b !! src = Some (Some rid) -> _req_ids b !! tgt = Some None ->
  req_id_to_index b' = <[rid := tgt]> (req_id_to_index b) -> view_at b' tgt = view_at b src ->
  (forall k, k <> src -> k <> tgt -> view_at b' k = view_at b k) -> forall r, view b' r = view b r.
Proof.
  intros Hi Hs Ht Hidx Hv Hk r. unfold view. rewrite Hidx. destruct (decide (r = rid)) as [-> | Hr].
  - rewrite lookup_insert_eq. apply Hi in Hs. by rewrite Hs.
  - rewrite lookup_insert_ne by done. destruct (req_id_to_index b !! r) as [k|] eqn:E; [| done]. simpl. apply Hi in E. apply Hk; congruence.
Qed.

(** The result of move_request, field by field *)
Record relocated (src tgt : nat) (rid : string) (row row' : Row) (specs tspecs : list Z) (out : option nat) b b' : Prop := {
  md_row : rows b !! src = Some row;
  md_specs : spec_token_ids b !! src = Some specs;
  md_out : req_output_token_ids b !! src = Some out;
  md_row_ok : row_ok L row';
  md_count : num_tokens_no_spec row' = num_tokens_no_spec row;
  md_view : forall blocks gen bad e o, row_view (is_pooling_model (ib_config b)) row' specs blocks gen bad e o = row_view (is_pooling_model (ib_config b)) row specs blocks gen bad e o;
  md_ids : _req_ids b' = <[src := None]> (<[tgt := Some rid]> (_req_ids b));
  md_index : req_id_to_index b' = <[rid := tgt]> (req_id_to_index b);
  md_outs : req_output_token_ids b' = <[src := None]> (<[tgt := out]> (req_output_token_ids b));
  md_specs' : spec_token_ids b' = <[src := []]> (<[tgt := specs]> (<[src := tspecs]> (spec_token_ids b)));
  md_rows : rows b' = <[tgt := row']> (rows b);
  md_tables : Forall (table_ok (ib_max_num_reqs (ib_config b))) (ib_block_table b');
  md_blocks : blocks_at (ib_block_table b') tgt = blocks_at (ib_block_table b) src;
  md_blocks_ne : forall k, k <> tgt -> blocks_at (ib_block_table b') k = blocks_at (ib_block_table b) k;
  md_embeds : req_prompt_embeds (index_dicts b') = move_key src tgt (req_prompt_embeds (index_dicts b));
  md_gens : is_pooling_model (ib_config b) = false -> generators (index_dicts b') = move_key src tgt (generators (index_dicts b));
  md_bad : is_pooling_model (ib_config b) = false -> bad_words_token_ids (index_dicts b') = move_key src tgt (bad_words_token_ids (index_dicts b));
  md_frame : same_frame b b';
  md_removed : same_removed b b';
}.

Lemma move_request_run K b src tgt rid : ib_ok L (tgt :: K) b -> _req_ids b !! src = Some (Some rid) -> _req_ids b !! tgt = Some None -> src <> tgt ->
  exists b' row row' specs tspecs out, move_request src tgt b = Ok b' /\ relocated src tgt rid row row' specs tspecs out b b'.
Proof.
  intros Hb Hsrc Htgt Hne. destruct (ok_lt _ _ _ _ Hb Hsrc) as [Hs1 Hs2]. destruct (ok_lt _ _ _ _ Hb Htgt) as [Ht1 Ht2].
  destruct (ok_data _ _ _ Hb Hs1) as (row & specs & out & blocks & Hrow & Hspecs & Hout & Hblocks & Hrok & Hview).
  destruct (ok_data _ _ _ Hb Ht1) as (trow & tspecs & tout & tblocks & Htrow & Htspecs & Htout & _ & Htok & _).
  destruct (ok_active _ _ _ Hb src rid row specs Hsrc Hrow Hspecs) as [[Ha1 Ha2] Hemb]. pose proof (zlen_nonneg specs) as Hz.
  set (mask := row_mask (if allowed_mask_allocated b then row else trow)).
  destruct (copy_row_spec (is_pooling_model (ib_config b)) mask (num_tokens_no_spec row + zlen specs) row trow specs Hrok Htok) as (row' & Hcopy & Hr'ok & Hr'n & Hr'v); [lia | unfold active in Ha2; lia | done |].
  destruct (mg_move_spec _ (ib_block_table b) src tgt (ok_tables _ _ _ Hb) Hs2 Ht2) as (ts & Hts & Htsok & Hsetup & Hbt & Hbk).
  unfold move_request. rewrite (proj2 (np_get_Ok _ _ _) Hsrc), (proj2 (np_get_Ok _ _ _) Hout). cbn [rbind].
  do 2 (rewrite !np_set_lt by (rewrite ?length_insert, ?(ok_outs _ _ _ Hb); done); cbn [rbind]).
  unfold _get_active_token_count, np_swap. rewrite (proj2 (np_get_Ok _ _ _) Hrow), (proj2 (np_get_Ok _ _ _) Hspecs), (proj2 (np_get_Ok _ _ _) Htspecs). cbn [rbind].
  rewrite np_set_lt by (rewrite !length_insert; by eapply lookup_lt_Some). cbn [rbind]. rewrite (proj2 (np_get_Ok _ _ _) Htrow). cbn [rbind].
  fold mask. rewrite Hcopy. cbn [rbind]. rewrite np_set_lt by (rewrite (ok_rows _ _ _ Hb); done). cbn [rbind]. rewrite Hts. cbn [rbind].
  eexists _, row, row', specs, tspecs, out. split; [done |]. split; try done; try (simpl; by intros ->).
  - split_and!; try done. simpl. rewrite dom_insert_L. assert (rid ∈ dom (req_id_to_index b)); [| set_solver]. apply elem_of_dom. exists src. by apply (ok_index _ _ _ Hb).
  - unfold same_removed. simpl. by destruct (is_pooling_model (ib_config b)).
Qed.

Lemma moved_views K src tgt rid row row' specs tspecs out b b' : ib_ok L (tgt :: K) b -> _req_ids b !! src = Some (Some rid) -> _req_ids b !! tgt = Some None -> src <> tgt ->
  relocated src tgt rid row row' specs tspecs out b b' -> forall r, view b' r = view b r.
Proof.
  intros Hb Hsrc Htgt Hne Hm. destruct (ok_lt _ _ _ _ Hb Hsrc) as [Hs1 Hs2]. destruct (ok_lt _ _ _ _ Hb Htgt) as [Ht1 Ht2].
  pose proof (ok_outs _ _ _ Hb) as Hol. pose proof (ok_rows _ _ _ Hb) as Hrl. pose proof (ok_specs _ _ _ Hb) as Hsl.
  destruct (ok_active _ _ _ Hb src rid row specs Hsrc (md_row _ _ _ _ _ _ _ _ _ _ Hm) (md_specs _ _ _ _ _ _ _ _ _ _ Hm)) as [_ Hemb]. destruct Hm. destruct md_frame0 as (Ec & _).
  apply (view_move b b' src tgt rid (ok_index _ _ _ Hb) Hsrc Htgt md_index0).
  - unfold view_at. rewrite md_rows0, md_specs'0, md_outs0, Ec. rewrite list_lookup_insert_eq by lia. rewrite !(list_lookup_insert_ne _ src) by done. rewrite !list_lookup_insert_eq by (rewrite ?length_insert; lia).
    rewrite md_blocks0, md_row0, md_specs0, md_out0. cbn -[row_view]. destruct (blocks_at _ src); [| done]. cbn -[row_view]. f_equal. rewrite md_view0. etransitivity; [apply row_view_pooling | apply row_view_embeds].
    + intros Hpool. rewrite md_gens0, md_bad0 by done. destruct (ok_free _ _ _ Hb tgt Hpool) as [G1 G2]; [by rewrite Htgt |]. split; by apply move_key_eq.
    + intros [e He]%Hemb. rewrite md_embeds0. unfold move_key. by rewrite He, lookup_insert_eq.
  - intros k Hk1 Hk2. unfold view_at. rewrite md_rows0, md_specs'0, md_outs0, Ec, !list_lookup_insert_ne, md_blocks_ne0 by done. rewrite md_embeds0, move_key_ne by done.
    destruct (rows b !! k); [| done]. destruct (spec_token_ids b !! k); [| done]. destruct (blocks_at _ k); [| done]. cbn -[row_view]. f_equal. apply row_view_pooling.
    intros Hpool. by rewrite md_gens0, md_bad0, !move_key_ne.
Qed.

Lemma moved_ok K src tgt rid row row' specs tspecs out b b' : ib_ok L (tgt :: K) b -> _req_ids b !! src = Some (Some rid) -> _req_ids b !! tgt = Some None -> src <> tgt ->
  relocated src tgt rid row row' specs tspecs out b b' -> ib_ok L (src :: K) b'.
Proof.
  intros Hb Hsrc Htgt Hne Hm. destruct (ok_lt _ _ _ _ Hb Hsrc) as [Hs1 Hs2]. destruct (ok_lt _ _ _ _ Hb Htgt) as [Ht1 Ht2]. pose proof (ok_specs _ _ _ Hb) as Hsl. pose proof (ok_rows _ _ _ Hb) as Hrl.
  destruct (ok_active _ _ _ Hb src rid row specs Hsrc (md_row _ _ _ _ _ _ _ _ _ _ Hm) (md_specs _ _ _ _ _ _ _ _ _ _ Hm)) as [[Ha1 Ha2] Hemb]. destruct Hm. destruct md_frame0 as (Ec & _).
  destruct (holes_move (_req_ids b) src tgt rid K (ok_holes _ _ _ Hb) (ok_nodup _ _ _ Hb) Hsrc) as [Hh Hnd].
  assert (is_Some (req_id_to_index b !! rid)) as Hin by (exists src; by apply (ok_index _ _ _ Hb)).
  split; rewrite ?md_ids0, ?md_index0, ?md_rows0, ?md_outs0, ?md_specs'0, ?Ec, ?length_insert; try done; try apply Hb.
  - exact (indexed_move _ _ _ _ _ (ok_index _ _ _ Hb) Hsrc Htgt).
  - unfold num_reqs. rewrite md_index0, size_insert_old by done. apply (ok_count _ _ _ Hb).
  - intros i q Hi. rewrite !list_lookup_insert_ne by lia. by apply (ok_unused _ _ _ Hb).
  - apply Forall_insert; [apply (ok_row _ _ _ Hb) | done].
  - intros i r row0 specs0 Hi. rewrite md_embeds0. destruct (decide (i = src)) as [-> | H1]; [by rewrite list_lookup_insert_eq in Hi by (rewrite length_insert; done) |].
    rewrite list_lookup_insert_ne in Hi by done. rewrite (list_lookup_insert_ne _ src) by done. destruct (decide (i = tgt)) as [-> | H2].
    + rewrite !list_lookup_insert_eq by (rewrite ?length_insert; lia). intros [= <-] [= <-]. split; [split; [lia | unfold active; rewrite md_count0; done] |].
      intros Hre. apply (reads_embeds_view _ _ _ _ (md_view0 [] None None None None)) in Hre. apply Hemb in Hre as [e He]. exists e. unfold move_key. by rewrite He, lookup_insert_eq.
    + rewrite list_lookup_insert_ne in Hi by done. rewrite !list_lookup_insert_ne by done. rewrite move_key_ne by done. intros ? ?. by eapply (ok_active _ _ _ Hb).
  - intros i Hpool Hi. rewrite md_gens0, md_bad0 by done. destruct (decide (i = tgt)) as [-> | H2]; [by rewrite list_lookup_insert_ne, list_lookup_insert_eq in Hi by done |].
    destruct (decide (i = src)) as [-> | H1]; [split; by apply move_key_src |]. rewrite !list_lookup_insert_ne in Hi by done. rewrite !move_key_ne by done. by apply (ok_free _ _ _ Hb).
Qed.

Lemma move_request_spec H b src tgt rid K : ib_ok L H b -> H ≡ₚ tgt :: K -> _req_ids b !! src = Some (Some rid) ->
  exists b', move_request src tgt b = Ok b' /\ ib_ok L (src :: K) b' /\ same_frame b b' /\ same_removed b b' /\
    _req_ids b' = <[src := None]> (<[tgt := Some rid]> (_req_ids b)) /\ forall r, view b' r = view b r.
Proof.
  intros Hb Hp Hsrc. apply (ib_ok_perm _ _ _ Hp) in Hb. assert (_req_ids b !! tgt = Some None) as Htgt by (apply (ok_holes _ _ _ Hb); left). assert (src <> tgt) as Hne by congruence.
  destruct (move_request_run K b src tgt rid Hb Hsrc Htgt Hne) as (b' & row & row' & specs & tspecs & out & Hrun & Hm). exists b'.
  split_and!; [done | by eapply moved_ok | apply Hm | apply Hm | apply Hm | by eapply moved_views].
Qed.
End batch.

(** ** The removed indices *)
Lemma skip_empty_spec (R : list nat) last : (exists i, (i <= last)%nat /\ (i ∉ R)) ->
  let l := skip_empty R last in (l <= last)%nat /\ (l ∉ R) /\ forall k, (l < k <= last)%nat -> k ∈ R.
Proof.
  induction last as [|n IH]; intros (i & Hi & HiR); simpl.
  - assert (i = 0%nat) as -> by lia. rewrite bool_decide_eq_false_2 by done. split_and!; [lia | done | lia].
  - case_bool_decide as Hn; [| split_and!; [lia | done | lia]].
    destruct IH as (H1 & H2 & H3); [exists i; split; [| done]; destruct (decide (i = S n)) as [-> |]; [done | lia] |].
    split_and!; [lia | done |]. intros k Hk. destruct (decide (k = S n)) as [-> |]; [done | apply H3; lia].
Qed.
Lemma sorted_last (R : list nat) e R0 : StronglySorted descending R -> R = R0 ++ [e] -> forall x, x ∈ R -> (e <= x)%nat.
Proof.
  intros Hs ->. induction R0 as [|y R0 IH]; simpl in *; [by intros x ->%list_elem_of_singleton |].
  inversion Hs as [|? ? Hs' Hall]; subst. intros x [-> | Hx]%elem_of_cons; [| by apply IH]. rewrite Forall_forall in Hall. apply (Hall e). apply elem_of_app. right. left.
Qed.
Lemma sorted_init (R : list nat) e R0 : StronglySorted descending R -> R = R0 ++ [e] -> StronglySorted descending R0.
Proof. intros Hs ->. by apply StronglySorted_app in Hs as (_ & ? & _). Qed.
Lemma ensure_sorted (u : BatchUpdateBuilder) : (_is_removed_sorted u = true -> StronglySorted descending (_removed u)) ->
  let u' := _ensure_removed_sorted u in _removed u' ≡ₚ _removed u /\ StronglySorted descending (_removed u') /\ _is_removed_sorted u' = true.
Proof.
  intros Hs. unfold _ensure_removed_sorted. destruct (_is_removed_sorted u) eqn:E; [by split_and!; [| apply Hs |] |]. simpl. split_and!; [apply merge_sort_Permutation | | done].
  apply StronglySorted_merge_sort; [| intros x y; unfold descending; lia]. intros x y z. unfold descending. lia.
Qed.

(** ** condense *)
Section condense.
Context (L : nat).
Implicit Types (b : InputBatch).

Lemma with_builder_ok u H b : ib_ok L H b -> ib_ok L H (with_builder u b).
Proof. intros []. by split. Qed.
Lemma with_builder_frame u b : same_frame b (with_builder u b).
Proof. destruct (same_frame_refl b) as (_ & ? & _). by split_and!. Qed.

(** Requests have been moved down from the indices [V], all above [last]; the indices [R] are
    still to be filled. *)
Record condensing (last : nat) (R V : list nat) b : Prop := {
  cd_ok : ib_ok L (R ++ V) b;
  cd_removed : _removed (batch_update_builder b) = R;
  cd_flag : _is_removed_sorted (batch_update_builder b) = true;
  cd_sorted : StronglySorted descending R;
  cd_above : forall i, (last < i < length (_req_ids b))%nat -> i ∈ R ++ V;
  cd_vacated : forall v, v ∈ V -> (last < v)%nat;
  cd_last : (last < length (_req_ids b))%nat;
  cd_live : exists i rid, _req_ids b !! i = Some (Some rid);
}.
(** The requests are the first [n] indices. *)
Definition dense (n : nat) (H : list nat) b : Prop := forall i, (i < length (_req_ids b))%nat -> (i ∈ H <-> (n <= i)%nat).

Lemma live_below last R V b i rid : condensing last R V b -> _req_ids b !! i = Some (Some rid) -> (i <= last)%nat /\ (i ∉ R).
Proof.
  intros Hc Hi. assert (i ∉ R ++ V) as Hn by (intros Hin%(ok_holes _ _ _ (cd_ok _ _ _ _ Hc)); congruence). split; [| set_solver].
  destruct (decide (last < i)%nat) as [Hl |]; [| lia]. apply lookup_lt_Some in Hi. destruct Hn. apply (cd_above _ _ _ _ Hc). lia.
Qed.

(** When no index below the last request is empty, the batch is dense. *)
Lemma condensing_dense last R V b l : condensing last R V b -> (l <= last)%nat -> (l ∉ R) -> (forall k, (l < k <= last)%nat -> k ∈ R) -> (forall x, x ∈ R -> (l <= x)%nat) ->
  (l < length (_req_ids b))%nat -> dense (S l) (R ++ V) b.
Proof.
  intros Hc Hl HlR Hab Hbe Hlen i Hi. split.
  - intros [HR | HV]%elem_of_app; [| pose proof (cd_vacated _ _ _ _ Hc i HV); lia]. pose proof (Hbe i HR). destruct (decide (i = l)) as [-> |]; [done | lia].
  - intros Hge. destruct (decide (i <= last)%nat); [apply elem_of_app; left; apply Hab; lia | apply (cd_above _ _ _ _ Hc); lia].
Qed.
Lemma last_live last R V b : condensing last R V b -> let l := skip_empty R last in (l <= last)%nat /\ (l ∉ R) /\ (forall k, (l < k <= last)%nat -> k ∈ R) /\
  exists rid, _req_ids b !! l = Some (Some rid).
Proof.
  intros Hc. pose proof Hc as [Hok _ _ _ _ Hvac Hlast (i & rid & Hi)]. destruct (live_below _ _ _ _ _ _ Hc Hi) as [Hl HiR]. destruct (skip_empty_spec R last) as (H1 & H2 & H3); [by exists i |].
  cbv zeta. set (l := skip_empty R last) in *. split_and!; try done. assert (i <= l)%nat as Hil by (destruct (decide (l < i)%nat); [destruct HiR; apply H3; lia | lia]).
  apply lookup_lt_Some in Hi. destruct (lookup_lt_is_Some_2 (_req_ids b) l) as [[r|] Hx]; [lia | by exists r |].
  apply (ok_holes _ _ _ Hok), elem_of_app in Hx as [? | Hv]; [done |]. pose proof (Hvac l Hv). lia.
Qed.
(** One request is moved down. *)
Lemma condensing_move last R0 e V b rid l : condensing last (R0 ++ [e]) V b -> (l <= last)%nat -> (l ∉ R0 ++ [e]) -> (forall k, (l < k <= last)%nat -> k ∈ R0 ++ [e]) -> (e < l)%nat -> _req_ids b !! l = Some (Some rid) ->
  exists b', move_request l e (with_builder (mkBuilder R0 true (added (batch_update_builder b)) (moved (batch_update_builder b)) (batch_changed (batch_update_builder b))) b) = Ok b' /\
    (exists V', condensing (l - 1) R0 V' b') /\ length (_req_ids b') = length (_req_ids b) /\ same_frame b b' /\ forall r, view b' r = view b r.
Proof.
  intros Hc Hl HlR Hab Hel Hid. pose proof Hc as [Hok _ _ Hs Habove Hvac Hlast Hlive]. set (b1 := with_builder _ b).
  destruct (move_request_spec L ((R0 ++ [e]) ++ V) b1 l e rid (R0 ++ V)) as (b' & Hrun & Hok' & Hfr & [Hrm Hflag] & Hids & Hv); [by apply with_builder_ok | | done |].
  { rewrite <- app_assoc. simpl. by rewrite Permutation_middle. }
  exists b'. split; [done |]. assert (length (_req_ids b') = length (_req_ids b)) as Hlen by (rewrite Hids, !length_insert; done).
  split_and!; [exists (l :: V) | done | exact (same_frame_trans _ _ _ (with_builder_frame _ _) Hfr) | exact Hv]. split.
  - eapply ib_ok_perm; [| exact Hok']. by rewrite Permutation_middle.
  - by rewrite Hrm.
  - by rewrite Hflag.
  - by eapply sorted_init.
  - intros i. rewrite Hlen. intros Hi. destruct (decide (i = l)) as [-> |]; [set_solver |]. destruct (decide (i <= last)%nat).
    + assert (i ∈ R0 ++ [e]) as [? | ->%list_elem_of_singleton]%elem_of_app by (apply Hab; lia); [set_solver | lia].
    + assert (i ∈ (R0 ++ [e]) ++ V) as Hin by (apply Habove; lia). rewrite !elem_of_app, list_elem_of_singleton in Hin. destruct Hin as [[? | ->] | ?]; [set_solver | lia | set_solver].
  - intros v [-> | Hin]%elem_of_cons; [lia |]. pose proof (Hvac v Hin). lia.
  - lia.
  - exists e, rid. rewrite Hids. rewrite list_lookup_insert_ne by lia. apply list_lookup_insert_eq. simpl. lia.
Qed.

Lemma condense_loop_spec fuel : forall last R V b, condensing last R V b -> (length R <= fuel)%nat ->
  exists b' H n, condense_loop fuel last b = Ok b' /\ ib_ok L H b' /\ dense n H b' /\ (n <= length (_req_ids b'))%nat /\
    same_frame b b' /\ forall r, view b' r = view b r.
Proof.
  induction fuel as [|fuel IH]; intros last R V b Hc Hf; pose proof Hc as [Hok Hr Hfl Hs Habove Hvac Hlast Hlive]; destruct R as [|e R0 _] using rev_ind.
  1,3: exists b, V, (S last); split_and!; [simpl; by rewrite Hr | done | | lia | apply same_frame_refl | done].
  1,2: apply (condensing_dense last [] V b last Hc); try done; [by intros ?%elem_of_nil | lia | by intros ? ?%elem_of_nil].
  - rewrite length_app in Hf. simpl in Hf. lia.
  - rewrite length_app in Hf. simpl in Hf. destruct (last_live _ _ _ _ Hc) as (H1 & H2 & H3 & rid & Hrid). cbv zeta in H1, H2, H3, Hrid.
    set (l := skip_empty (R0 ++ [e]) last) in *. set (u := batch_update_builder b) in *.
    assert (peek_removed u = (Some e, u)) as Hpeek.
    { unfold peek_removed, has_removed, _ensure_removed_sorted. rewrite Hfl, Hr, last_snoc. by destruct R0. }
    assert (pop_removed u = (Some e, mkBuilder R0 true (added u) (moved u) (batch_changed u))) as Hpop.
    { unfold pop_removed, has_removed, _ensure_removed_sorted. rewrite Hfl, Hr, last_snoc, length_app. simpl. rewrite Nat.add_sub, take_app_length. by destruct R0. }
    assert (condense_loop (S fuel) last b = if bool_decide (l <= e)%nat then Ok (with_builder u b) else do b' <- move_request l e (with_builder (pop_removed u).2 b) in condense_loop fuel (l - 1) b') as ->.
    { simpl. fold u. rewrite Hr. fold l. rewrite Hpeek. by destruct R0. }
    case_bool_decide as Hle.
    + exists (with_builder u b), ((R0 ++ [e]) ++ V), (S l). split_and!; [done | by apply with_builder_ok | | simpl; lia | apply with_builder_frame | done].
      apply (condensing_dense last (R0 ++ [e]) V b l Hc); try done; [| lia]. intros x Hx. pose proof (sorted_last _ _ _ Hs eq_refl x Hx). lia.
    + destruct (condensing_move last R0 e V b rid l Hc H1 H2 H3 ltac:(lia) Hrid) as (b' & Hrun & (V' & Hc') & Hlen & Hfr & Hv). rewrite Hpop. cbn [snd]. fold u in Hrun. rewrite Hrun. cbn [rbind].
      destruct (IH _ _ _ _ Hc' ltac:(lia)) as (b2 & H & n & E & G1 & G2 & G3 & G4 & G5). exists b2, H, n. split_and!; try done; [exact (same_frame_trans _ _ _ Hfr G4) |].
      intros r. by rewrite G5, Hv.
Qed.

Lemma dense_size n H b : ib_ok L H b -> dense n H b -> (n <= length (_req_ids b))%nat -> num_reqs b = n.
Proof.
  intros Hb Hd Hn. assert (H ≡ₚ seq n (length (_req_ids b) - n)) as Hp.
  { apply NoDup_Permutation; [apply (ok_nodup _ _ _ Hb) | apply NoDup_seq |]. intros i. rewrite elem_of_seq. split.
    - intros Hi. apply (ok_holes _ _ _ Hb) in Hi as Hl. apply lookup_lt_Some in Hl. apply Hd in Hi; [lia | done].
    - intros Hi. apply Hd; lia. }
  apply Permutation_length in Hp. rewrite length_seq in Hp. pose proof (ok_count _ _ _ Hb). lia.
Qed.
Lemma trim_ok H b : ib_ok L H b -> dense (num_reqs b) H b -> let n := num_reqs b in
  let b' := with_ids (take n (_req_ids b)) (req_id_to_index b) (take n (req_output_token_ids b)) (take n (spec_token_ids b)) b in
  ib_ok L [] b' /\ length (_req_ids b') = n /\ forall r, view b' r = view b r.
Proof.
  intros Hb Hd n b'. pose proof (ok_count _ _ _ Hb) as Hc. pose proof (ok_len _ _ _ Hb) as Hl. pose proof (ok_specs _ _ _ Hb) as Hsp. pose proof (ok_outs _ _ _ Hb) as Ho. fold n in Hc, Hd.
  assert (forall i rid, _req_ids b !! i = Some (Some rid) -> (i < n)%nat) as Hlive.
  { intros i rid Hi. destruct (decide (i < n)%nat) as [? | Hge]; [done |]. assert (i ∈ H) as Hin by (apply Hd; [by eapply lookup_lt_Some | lia]). apply (ok_holes _ _ _ Hb) in Hin. congruence. }
  assert (forall i rid, take n (_req_ids b) !! i = Some (Some rid) <-> _req_ids b !! i = Some (Some rid)) as Htake.
  { intros i rid. rewrite lookup_take_Some. split; [tauto |]. intros Hi. split; [done | by eapply Hlive]. }
  assert (length (take n (_req_ids b)) = n) as Hlen by (rewrite length_take; lia). split; [split; simpl; rewrite ?Hlen |].
  - intros rid i. by rewrite Htake, (ok_index _ _ _ Hb).
  - intros i. split; [| by intros ?%elem_of_nil]. intros [Hi Hin]%lookup_take_Some. apply (ok_holes _ _ _ Hb) in Hi as Hh. apply lookup_lt_Some in Hi. apply Hd in Hh; lia.
  - constructor.
  - unfold num_reqs. simpl. fold (num_reqs b). lia.
  - rewrite length_take. lia.
  - rewrite length_take. lia.
  - intros i q Hi Hq. apply lookup_take_Some in Hq as [_ ?]. lia.
  - lia.
  - apply (ok_rows _ _ _ Hb).
  - apply (ok_tables _ _ _ Hb).
  - apply (ok_row _ _ _ Hb).
  - intros i rid row specs Hi%Htake Hr [Hsi _]%lookup_take_Some. by apply (ok_active _ _ _ Hb i rid).
  - intros i Hp Hi. apply (ok_free _ _ _ Hb i Hp). destruct (_req_ids b !! i) as [[rid|]|] eqn:E; try done. apply Htake in E. by rewrite E in Hi.
  - split; [done |]. intros r. unfold view. simpl. destruct (req_id_to_index b !! r) as [i|] eqn:E; [| done]. simpl. apply (ok_index _ _ _ Hb) in E. apply Hlive in E.
    unfold view_at. simpl. by rewrite !lookup_take_lt by done.
Qed.

Definition removed_ok (H : list nat) b : Prop :=
  _removed (batch_update_builder b) ≡ₚ H /\ (_is_removed_sorted (batch_update_builder b) = true -> StronglySorted descending (_removed (batch_update_builder b))).

Lemma condense_spec H b : ib_ok L H b -> removed_ok H b ->
  exists b', condense b = Ok b' /\ ib_ok L [] b' /\ length (_req_ids b') = num_reqs b /\ same_frame b b' /\ forall r, view b' r = view b r.
Proof.
  intros Hb [HR Hs]. unfold condense. destruct (ensure_sorted (batch_update_builder b) Hs) as (E1 & E2 & E3). cbv zeta in E1, E2, E3. set (u := _ensure_removed_sorted _) in *.
  set (b0 := with_builder u b). assert (ib_ok L (_removed u) b0) as Hb0 by (apply with_builder_ok; eapply ib_ok_perm; [| exact Hb]; by rewrite E1, HR).
  change (_removed (batch_update_builder b0)) with (_removed u). pose proof (ok_count _ _ _ Hb0) as Hc. change (num_reqs b0) with (num_reqs b) in Hc.
  destruct (_removed u) as [|x R] eqn:ER.
  - exists b0. split_and!; [done | done | rewrite ?ER in Hc; simpl in *; lia | apply with_builder_frame | done].
  - rewrite <- ER in *. case_bool_decide as Hn.
    + assert (req_id_to_index b = ∅) as Hemp by (by apply map_size_empty_inv). eexists. split; [done |]. split_and!; [| simpl; lia | destruct (with_builder_frame u b) as (_ & ? & _); by split_and! |].
      * split; simpl; try done; try apply Hb0; try lia.
        -- rewrite Hemp. intros rid i. by rewrite lookup_empty.
        -- intros i. split; [done | by intros ?%elem_of_nil].
        -- constructor.
        -- unfold num_reqs. simpl. fold (num_reqs b). lia.
        -- intros i Hp _. apply (ok_free _ _ _ Hb i Hp). destruct (_req_ids b !! i) as [[rid|]|] eqn:E; try done. apply (ok_index _ _ _ Hb) in E. by rewrite Hemp in E.
      * intros r. unfold view. simpl. by rewrite Hemp.
    + assert (condensing (num_reqs b + length (_removed u) - 1) (_removed u) [] b0) as Hcd.
      { split; try done; [by rewrite app_nil_r | intros i; simpl in *; lia | by intros ? ?%elem_of_nil | simpl in *; lia |].
        destruct (map_choose (req_id_to_index b)) as (rid & i & Hi); [intros E; apply Hn; unfold num_reqs; by rewrite E |]. exists i, rid. by apply (ok_index _ _ _ Hb) in Hi. }
      destruct (condense_loop_spec (length (_removed u)) _ _ _ _ Hcd (Nat.le_refl _)) as (b' & H' & n & Hrun & Hok' & Hd & Hle & Hfr & Hv). rewrite Hrun. cbn [rbind].
      pose proof (dense_size n H' b' Hok' Hd Hle) as Hsz. assert (num_reqs b' = num_reqs b) as Hsame.
      { unfold num_reqs. destruct Hfr as (_ & _ & _ & _ & _ & _ & Hdom & _). rewrite <- !size_dom. by rewrite Hdom. }
      rewrite <- Hsz in Hd. rewrite <- Hsame. destruct (trim_ok H' b' Hok' Hd) as (G1 & G2 & G3). eexists. split; [done |]. split_and!; [done | done | | intros r; by rewrite G3, Hv].
      eapply same_frame_trans; [exact (with_builder_frame u b) |]. eapply same_frame_trans; [exact Hfr |]. destruct (same_frame_refl b') as (_ & ? & _). by split_and!.
Qed.
End condense.

(** ** swap_states *)
Section swap.
Context (L : nat).
Implicit Types (b : InputBatch).

Definition swapped {A} (l : list A) (i j : nat) (x y : A) : list A := <[j := x]> (<[i := y]> l).
Lemma lookup_swapped {A} (l : list A) i j x y k : l !! i = Some x -> l !! j = Some y ->
  swapped l i j x y !! k = if bool_decide (k = i) then l !! j else if bool_decide (k = j) then l !! i else l !! k.
Proof.
  intros Hi Hj. pose proof (lookup_lt_Some _ _ _ Hi). pose proof (lookup_lt_Some _ _ _ Hj). unfold swapped. case_bool_decide as H1; [subst k | case_bool_decide as H2; [subst k |]].
  - destruct (decide (i = j)) as [-> |]; [rewrite list_lookup_insert_eq by (rewrite length_insert; done); congruence |]. rewrite list_lookup_insert_ne, list_lookup_insert_eq by done. done.
  - rewrite list_lookup_insert_eq by (rewrite length_insert; done). done.
  - by rewrite !list_lookup_insert_ne.
Qed.
Lemma lookup_swap_dict {A} (d : gmap nat A) i j k : i <> j -> swap_dict_values d i j !! k = if bool_decide (k = i) then d !! j else if bool_decide (k = j) then d !! i else d !! k.
Proof.
  intros Hne. unfold swap_dict_values. destruct (d !! i) as [x|] eqn:Ei, (d !! j) as [y|] eqn:Ej; repeat case_bool_decide; subst; try done;
    repeat first [rewrite lookup_insert_eq by done | rewrite lookup_insert_ne by done | rewrite lookup_delete_eq by done | rewrite lookup_delete_ne by done]; done.
Qed.

(** The result of swap_states, field by field. Each row has the columns of the other. *)
Record exchanged (i j : nat) (r1 r2 : string) (row1 row2 row1' row2' : Row) (s1 s2 : list Z) (o1 o2 : option nat) b b' : Prop := {
  ex_row1 : rows b !! i = Some row1;
  ex_row2 : rows b !! j = Some row2;
  ex_specs1 : spec_token_ids b !! i = Some s1;
  ex_specs2 : spec_token_ids b !! j = Some s2;
  ex_out1 : req_output_token_ids b !! i = Some o1;
  ex_out2 : req_output_token_ids b !! j = Some o2;
  ex_ok1 : row_ok L row1' /\ num_tokens_no_spec row1' = num_tokens_no_spec row2;
  ex_ok2 : row_ok L row2' /\ num_tokens_no_spec row2' = num_tokens_no_spec row1;
  ex_view1 : forall blocks gen bad e o, row_view (is_pooling_model (ib_config b)) row1' s2 blocks gen bad e o = row_view (is_pooling_model (ib_config b)) row2 s2 blocks gen bad e o;
  ex_view2 : forall blocks gen bad e o, row_view (is_pooling_model (ib_config b)) row2' s1 blocks gen bad e o = row_view (is_pooling_model (ib_config b)) row1 s1 blocks gen bad e o;
  ex_ids : _req_ids b' = swapped (_req_ids b) i j (Some r1) (Some r2);
  ex_index : req_id_to_index b' = <[r2 := i]> (<[r1 := j]> (req_id_to_index b));
  ex_outs : req_output_token_ids b' = swapped (req_output_token_ids b) i j o1 o2;
  ex_specs : spec_token_ids b' = swapped (spec_token_ids b) i j s1 s2;
  ex_rows : rows b' = <[j := row2']> (<[i := row1']> (rows b));
  ex_tables : Forall (table_ok (ib_max_num_reqs (ib_config b))) (ib_block_table b');
  ex_blocks1 : blocks_at (ib_block_table b') i = blocks_at (ib_block_table b) j;
  ex_blocks2 : blocks_at (ib_block_table b') j = blocks_at (ib_block_table b) i;
  ex_blocks_ne : forall k, k <> i -> k <> j -> blocks_at (ib_block_table b') k = blocks_at (ib_block_table b) k;
  ex_embeds : req_prompt_embeds (index_dicts b') = swap_dict_values (req_prompt_embeds (index_dicts b)) i j;
  ex_gens : is_pooling_model (ib_config b) = false -> generators (index_dicts b') = swap_dict_values (generators (index_dicts b)) i j;
  ex_bad : is_pooling_model (ib_config b) = false -> bad_words_token_ids (index_dicts b') = swap_dict_values (bad_words_token_ids (index_dicts b)) i j;
  ex_frame : same_frame b b';
  ex_removed : same_removed b b';
}.

Lemma swap_states_run H b i j r1 r2 : ib_ok L H b -> _req_ids b !! i = Some (Some r1) -> _req_ids b !! j = Some (Some r2) -> i <> j ->
  exists b' row1 row2 row1' row2' s1 s2 o1 o2, swap_states i j b = Ok b' /\ exchanged i j r1 r2 row1 row2 row1' row2' s1 s2 o1 o2 b b'.
Proof.
  intros Hb Hi Hj Hne. destruct (ok_lt _ _ _ _ _ Hb Hi) as [Hi1 Hi2]. destruct (ok_lt _ _ _ _ _ Hb Hj) as [Hj1 Hj2].
  destruct (ok_data _ _ _ _ Hb Hi1) as (row1 & s1 & o1 & bl1 & Hrow1 & Hs1 & Ho1 & Hbl1 & Hok1 & _).
  destruct (ok_data _ _ _ _ Hb Hj1) as (row2 & s2 & o2 & bl2 & Hrow2 & Hs2 & Ho2 & Hbl2 & Hok2 & _).
  destruct (ok_active _ _ _ Hb i r1 row1 s1 Hi Hrow1 Hs1) as [[Ha1 Ha2] _]. destruct (ok_active _ _ _ Hb j r2 row2 s2 Hj Hrow2 Hs2) as [[Hc1 Hc2] _].
  pose proof (zlen_nonneg s1) as Hz1. pose proof (zlen_nonneg s2) as Hz2. set (n := Z.max (num_tokens_no_spec row1 + zlen s1) (num_tokens_no_spec row2 + zlen s2)).
  set (p := is_pooling_model (ib_config b)). set (al := allowed_mask_allocated b).
  destruct (copy_row_spec L p (row_mask (if al then row2 else row1)) n row2 row1 s2 Hok2 Hok1) as (row1' & Hcopy1 & H1ok & H1n & H1v); [lia | unfold active in *; lia | unfold active; lia |].
  destruct (copy_row_spec L p (row_mask (if al then row1' else row2)) n row1 row2 s1 Hok1 Hok2) as (row2' & Hcopy2 & H2ok & H2n & H2v); [lia | unfold active in *; lia | unfold active; lia |].
  destruct (mg_swap_spec _ (ib_block_table b) i j (ok_tables _ _ _ Hb) Hi2 Hj2 Hne) as (ts & Hts & Htsok & Hsetup & Hb1 & Hb2 & Hbk).
  unfold swap_states. cbv zeta. rewrite (proj2 (np_get_Ok _ _ _) Hi), (proj2 (np_get_Ok _ _ _) Hj). cbn [rbind].
  unfold _get_active_token_count, np_swap. rewrite (proj2 (np_get_Ok _ _ _) Hrow1), (proj2 (np_get_Ok _ _ _) Hrow2), (proj2 (np_get_Ok _ _ _) Hs1), (proj2 (np_get_Ok _ _ _) Hs2). cbn [rbind].
  rewrite (proj2 (np_get_Ok _ _ _) Hi), (proj2 (np_get_Ok _ _ _) Hj), (proj2 (np_get_Ok _ _ _) Ho1), (proj2 (np_get_Ok _ _ _) Ho2). cbn [rbind].
  rewrite (proj2 (ok_index _ _ _ Hb _ _) Hi), (proj2 (ok_index _ _ _ Hb _ _) Hj). fold n p al. rewrite Hcopy1. cbn [rbind]. rewrite Hcopy2. cbn [rbind]. rewrite Hts. cbn [rbind].
  eexists _, row1, row2, row1', row2', s1, s2, o1, o2. split; [done |]. split; try done; try (simpl; fold p; by intros ->).
  - split_and!; try done. simpl. rewrite !dom_insert_L. assert (r1 ∈ dom (req_id_to_index b) /\ r2 ∈ dom (req_id_to_index b)) as []; [| set_solver].
    split; apply elem_of_dom; [exists i | exists j]; by apply (ok_index _ _ _ Hb).
  - unfold same_removed. simpl. by destruct p.
Qed.

Lemma indexed_swap idx (ids : list (option string)) i j r1 r2 : indexed idx ids -> ids !! i = Some (Some r1) -> ids !! j = Some (Some r2) -> i <> j ->
  indexed (<[r2 := i]> (<[r1 := j]> idx)) (swapped ids i j (Some r1) (Some r2)).
Proof.
  intros Hx Hi Hj Hne r k. assert (r1 <> r2) as Hr by (intros ->; apply Hx in Hi, Hj; congruence). rewrite (lookup_swapped _ _ _ _ _ _ Hi Hj).
  destruct (decide (r = r2)) as [-> | H2]; [rewrite lookup_insert_eq | rewrite lookup_insert_ne by done; destruct (decide (r = r1)) as [-> | H1]; [rewrite lookup_insert_eq | rewrite lookup_insert_ne by done]].
  - case_bool_decide as E1; [subst; by rewrite Hj |]. split; [congruence |]. case_bool_decide; [congruence |]. intros E%Hx. apply Hx in Hj. congruence.
  - case_bool_decide as E1; [subst; split; [congruence | rewrite Hj; congruence] |]. case_bool_decide as E2; [subst; by rewrite Hi |]. split; [congruence |]. intros E%Hx. apply Hx in Hi. congruence.
  - case_bool_decide as E1; [subst; rewrite Hj, (Hx r i), Hi; split; congruence |]. case_bool_decide as E2; [subst; rewrite Hi, (Hx r j), Hj; split; congruence |]. apply Hx.
Qed.

Lemma exchanged_at H b i j r1 r2 row1 row2 row1' row2' s1 s2 o1 o2 b' : ib_ok L H b -> i <> j ->
  exchanged i j r1 r2 row1 row2 row1' row2' s1 s2 o1 o2 b b' -> forall k, view_at b' k = if bool_decide (k = i) then view_at b j else if bool_decide (k = j) then view_at b i else view_at b k.
Proof.
  intros Hb Hne [] k. destruct ex_frame0 as (Ec & _). pose proof (lookup_lt_Some _ _ _ ex_row3) as Hli. pose proof (lookup_lt_Some _ _ _ ex_row4) as Hlj.
  unfold view_at. rewrite ex_rows0, ex_specs0, ex_outs0, Ec, (lookup_swapped _ _ _ _ _ k ex_specs3 ex_specs4), (lookup_swapped _ _ _ _ _ k ex_out3 ex_out4), ex_embeds0, lookup_swap_dict by done.
  assert (is_pooling_model (ib_config b) = false -> generators (index_dicts b') !! k = (if bool_decide (k = i) then generators (index_dicts b) !! j else if bool_decide (k = j) then generators (index_dicts b) !! i else generators (index_dicts b) !! k) /\
    bad_words_token_ids (index_dicts b') !! k = (if bool_decide (k = i) then bad_words_token_ids (index_dicts b) !! j else if bool_decide (k = j) then bad_words_token_ids (index_dicts b) !! i else bad_words_token_ids (index_dicts b) !! k)) as Hg.
  { intros Hp. rewrite ex_gens0, ex_bad0, !lookup_swap_dict by done. done. }
  destruct (decide (k = i)) as [E1 | E1]; [subst k; rewrite !(bool_decide_eq_true_2 (i = i)) in * by done | rewrite !(bool_decide_eq_false_2 (k = i)) in * by done; destruct (decide (k = j)) as [E2 | E2]; [subst k; rewrite !(bool_decide_eq_true_2 (j = j)) in * by done | rewrite !(bool_decide_eq_false_2 (k = j)) in * by done]].
  - rewrite list_lookup_insert_ne, list_lookup_insert_eq by done. rewrite ex_blocks3, ex_row4, ex_specs4. cbn -[row_view]. destruct (blocks_at (ib_block_table b) j); [| reflexivity]. cbn -[row_view]. f_equal. rewrite ex_view3. by apply row_view_pooling.
  - rewrite list_lookup_insert_eq by (rewrite length_insert; done). rewrite ex_blocks4, ex_row3, ex_specs3. cbn -[row_view]. destruct (blocks_at (ib_block_table b) i); [| reflexivity]. cbn -[row_view]. f_equal. rewrite ex_view4. by apply row_view_pooling.
  - rewrite !list_lookup_insert_ne, ex_blocks_ne0 by done. destruct (rows b !! k); [| done]. destruct (spec_token_ids b !! k); [| done]. destruct (blocks_at (ib_block_table b) k); [| reflexivity]. cbn -[row_view]. f_equal. by apply row_view_pooling.
Qed.

Lemma exchanged_active H b i j r1 r2 row1 row2 row1' row2' s1 s2 o1 o2 b' : ib_ok L H b -> _req_ids b !! i = Some (Some r1) -> _req_ids b !! j = Some (Some r2) -> i <> j ->
  exchanged i j r1 r2 row1 row2 row1' row2' s1 s2 o1 o2 b b' ->
  forall k r row specs, _req_ids b' !! k = Some (Some r) -> rows b' !! k = Some row -> spec_token_ids b' !! k = Some specs ->
    active_ok L row specs /\ (reads_embeds row specs -> is_Some (req_prompt_embeds (index_dicts b') !! k)).
Proof.
  intros Hb Hi Hj Hne [] k r row specs. rewrite ex_ids0, ex_rows0, ex_specs0, ex_embeds0, lookup_swap_dict by done.
  rewrite (lookup_swapped _ _ _ _ _ k Hi Hj), (lookup_swapped _ _ _ _ _ k ex_specs3 ex_specs4).
  pose proof (lookup_lt_Some _ _ _ ex_row3) as Hli. pose proof (lookup_lt_Some _ _ _ ex_row4) as Hlj. destruct ex_ok3 as [_ Hn1], ex_ok4 as [_ Hn2].
  case_bool_decide as E1; [subst k | case_bool_decide as E2; [subst k |]].
  - rewrite list_lookup_insert_ne, list_lookup_insert_eq by done. intros _ [= <-] Hsp. rewrite ex_specs4 in Hsp. injection Hsp as <-.
    destruct (ok_active _ _ _ Hb j r2 row2 s2 Hj ex_row4 ex_specs4) as [[Ha1 Ha2] He]. split; [split; [lia | unfold active; by rewrite Hn1] |].
    intros Hre. apply He. exact (reads_embeds_view _ _ _ _ (ex_view3 [] None None None None) Hre).
  - rewrite list_lookup_insert_eq by (rewrite length_insert; done). intros _ [= <-] Hsp. rewrite ex_specs3 in Hsp. injection Hsp as <-.
    destruct (ok_active _ _ _ Hb i r1 row1 s1 Hi ex_row3 ex_specs3) as [[Ha1 Ha2] He]. split; [split; [lia | unfold active; by rewrite Hn2] |].
    intros Hre. apply He. exact (reads_embeds_view _ _ _ _ (ex_view4 [] None None None None) Hre).
  - rewrite !list_lookup_insert_ne by done. intros. by eapply (ok_active _ _ _ Hb).
Qed.

Lemma exchanged_ok H b i j r1 r2 row1 row2 row1' row2' s1 s2 o1 o2 b' : ib_ok L H b -> _req_ids b !! i = Some (Some r1) -> _req_ids b !! j = Some (Some r2) -> i <> j ->
  exchanged i j r1 r2 row1 row2 row1' row2' s1 s2 o1 o2 b b' -> ib_ok L H b'.
Proof.
  intros Hb Hi Hj Hne Hex. pose proof (exchanged_active _ _ _ _ _ _ _ _ _ _ _ _ _ _ _ Hb Hi Hj Hne Hex) as Hact. destruct Hex. destruct ex_frame0 as (Ec & _).
  pose proof (lookup_lt_Some _ _ _ Hi) as Hli. pose proof (lookup_lt_Some _ _ _ Hj) as Hlj.
  assert (length (_req_ids b') = length (_req_ids b)) as Hlen by (rewrite ex_ids0; unfold swapped; by rewrite !length_insert).
  split; try exact Hact; rewrite ?Hlen, ?Ec; try apply Hb.
  - rewrite ex_index0, ex_ids0. exact (indexed_swap _ _ _ _ _ _ (ok_index _ _ _ Hb) Hi Hj Hne).
  - intros k. rewrite ex_ids0, (lookup_swapped _ _ _ _ _ k Hi Hj), <- (ok_holes _ _ _ Hb). case_bool_decide as E1; [subst; rewrite Hi, Hj; split; congruence |]. case_bool_decide as E2; [subst; rewrite Hi, Hj; split; congruence | done].
  - unfold num_reqs. rewrite ex_index0, !size_insert_old; [apply (ok_count _ _ _ Hb) | exists i; by apply (ok_index _ _ _ Hb) |]. apply lookup_insert_is_Some'. right. exists j. by apply (ok_index _ _ _ Hb).
  - rewrite ex_outs0. unfold swapped. rewrite !length_insert. apply (ok_outs _ _ _ Hb).
  - rewrite ex_specs0. unfold swapped. rewrite !length_insert. apply (ok_specs _ _ _ Hb).
  - intros k q Hk. rewrite ex_specs0. unfold swapped. rewrite !list_lookup_insert_ne by lia. by apply (ok_unused _ _ _ Hb).
  - rewrite ex_rows0, !length_insert. apply (ok_rows _ _ _ Hb).
  - done.
  - rewrite ex_rows0. apply Forall_insert; [apply Forall_insert; [apply (ok_row _ _ _ Hb) | apply ex_ok3] | apply ex_ok4].
  - intros k Hp. rewrite ex_ids0, (lookup_swapped _ _ _ _ _ k Hi Hj), ex_gens0, ex_bad0, !lookup_swap_dict by done. case_bool_decide; [by rewrite Hj |]. case_bool_decide; [by rewrite Hi |]. by apply (ok_free _ _ _ Hb).
Qed.

Lemma swap_states_spec H b i j r1 r2 : ib_ok L H b -> _req_ids b !! i = Some (Some r1) -> _req_ids b !! j = Some (Some r2) -> i <> j ->
  exists b', swap_states i j b = Ok b' /\ ib_ok L H b' /\ same_frame b b' /\ same_removed b b' /\ _req_ids b' = swapped (_req_ids b) i j (Some r1) (Some r2) /\ forall r, view b' r = view b r.
Proof.
  intros Hb Hi Hj Hne. destruct (swap_states_run H b i j r1 r2 Hb Hi Hj Hne) as (b' & row1 & row2 & row1' & row2' & s1 & s2 & o1 & o2 & Hrun & Hex). exists b'.
  split_and!; [done | exact (exchanged_ok _ _ _ _ _ _ _ _ _ _ _ _ _ _ _ Hb Hi Hj Hne Hex) | apply Hex | apply Hex | apply Hex |]. intros r. unfold view. pose proof (exchanged_at _ _ _ _ _ _ _ _ _ _ _ _ _ _ _ Hb Hne Hex) as Hat.
  pose proof (ok_index _ _ _ Hb) as Hx. destruct Hex. rewrite ex_index0. destruct (decide (r = r2)) as [-> | H2]; [rewrite lookup_insert_eq | rewrite lookup_insert_ne by done; destruct (decide (r = r1)) as [-> | H1]; [rewrite lookup_insert_eq | rewrite lookup_insert_ne by done]].
  - simpl. rewrite Hat, bool_decide_eq_true_2 by done. apply Hx in Hj. by rewrite Hj.
  - simpl. rewrite Hat, bool_decide_eq_false_2, bool_decide_eq_true_2 by done. apply Hx in Hi. by rewrite Hi.
  - destruct (req_id_to_index b !! r) as [k|] eqn:E; [| done]. simpl. apply Hx in E. rewrite Hat, !bool_decide_eq_false_2 by congruence. done.
Qed.
End swap.
