(* ===== verification/InputBatchReorder.v ===== *)
(** * InputBatchReorder
    reorder_batch_to_split_decodes_and_prefills: following the cycles of the map from indices to
    their destinations ends, and puts the batch in the order of the regions. *)
From stdpp Require Import sorting.
From S2P Require Import Prelude OrdDict KVCacheBlock Request CacheHit KVCacheInterface SizingInv WorkerBlockTable InputBatch InputBatchInv.

(** ** The regions *)
Definition in_range (l : list nat) : Prop := Forall (fun x => (x < 4)%nat) l.
Lemma req_region_lt t n row : (req_region t n row < 4)%nat.
Proof. unfold req_region. repeat case_match; lia. Qed.

Lemma fmap_by_region {A} (f : A -> nat) l : f <$> by_region f l = target_regions (f <$> l).
Proof.
  assert (forall k, f <$> filter (fun x => f x = k) l = replicate (length (filter (fun x => x = k) (f <$> l))) k) as E.
  { intros k. induction l as [|x l IH]; [done |]. rewrite fmap_cons, !filter_cons. repeat case_decide; try done. rewrite fmap_cons, IH. simpl. by f_equal. }
  unfold by_region, target_regions. simpl. by rewrite !fmap_app, !E.
Qed.
Lemma by_region_perm {A} (f : A -> nat) l : in_range (f <$> l) -> by_region f l ≡ₚ l.
Proof.
  unfold by_region. simpl. rewrite app_nil_r. induction l as [|x l IH]; intros Hr; [done |]. rewrite fmap_cons in Hr. inversion Hr as [|? ? Hx Hl]; subst. specialize (IH Hl). rewrite !filter_cons.
  etransitivity; [| apply Permutation_skip; exact IH]. generalize (filter (fun y => f y = 0%nat) l), (filter (fun y => f y = 1%nat) l), (filter (fun y => f y = 2%nat) l), (filter (fun y => f y = 3%nat) l). intros a b c d.
  repeat case_decide; try lia; rewrite <- ?Permutation_middle; simpl; rewrite <- ?Permutation_middle; simpl; rewrite <- ?Permutation_middle; done.
Qed.
Lemma target_perm l : in_range l -> target_regions l ≡ₚ l.
Proof. intros Hr. rewrite <- (list_fmap_id l) at 1. rewrite <- fmap_by_region, list_fmap_id. apply by_region_perm. by rewrite list_fmap_id. Qed.
Lemma sorted_replicate n k m l : Sorted Nat.le l -> (forall x, x ∈ l -> (k <= x)%nat) -> m = replicate n k -> Sorted Nat.le (m ++ l).
Proof.
  intros Hl Hx ->. induction n as [|n IH]; [done |]. simpl. constructor; [done |]. destruct n; simpl; [| by constructor]. destruct l; constructor. apply Hx. left.
Qed.
Lemma target_sorted l : Sorted Nat.le (target_regions l).
Proof.
  unfold target_regions. simpl. repeat (eapply sorted_replicate; [| | reflexivity]); [constructor | ..]; intros x; rewrite ?elem_of_app, ?elem_of_replicate, ?elem_of_nil; lia.
Qed.

Lemma ssorted_filter {A} (R : A -> A -> Prop) P `{forall x, Decision (P x)} l : StronglySorted R l -> StronglySorted R (filter P l).
Proof.
  induction 1 as [|x l Hl IH Hx]; [constructor |]. rewrite filter_cons. case_decide; [| done]. constructor; [done |]. apply Forall_forall. intros y [_ Hy]%list_elem_of_filter. rewrite Forall_forall in Hx. by apply Hx.
Qed.
Lemma ssorted_seq k n : StronglySorted lt (seq k n).
Proof. revert k. induction n as [|n IH]; intros k; [constructor |]. simpl. constructor; [done |]. apply Forall_forall. intros x Hx%elem_of_seq. lia. Qed.
Lemma ssorted_lookup {A} (R : A -> A -> Prop) l i j x y : StronglySorted R l -> l !! i = Some x -> l !! j = Some y -> (i < j)%nat -> R x y.
Proof.
  intros Hl. revert i j. induction Hl as [|z l Hl IH Hz]; intros [|i] [|j] Hi Hj Hij; try done; try lia.
  - injection Hi as ->. rewrite Forall_forall in Hz. apply Hz. by eapply list_elem_of_lookup_2.
  - apply (IH i j); [done | done | lia].
Qed.

(** ** The destinations *)
Section plan.
Context (regions : list nat) (Hrange : in_range regions).

Definition target := target_regions regions.
Definition misplaced : list nat := filter (fun i => regions !! i <> target !! i) (seq 0 (length regions)).
Definition region_of (i : nat) : nat := default 0%nat (regions !! i).
Definition sources : list nat := by_region region_of misplaced.

Lemma target_length : length target = length regions.
Proof. apply Permutation_length, target_perm, Hrange. Qed.
Lemma region_of_range (l : list nat) : in_range (region_of <$> l).
Proof.
  apply Forall_fmap, Forall_forall. intros i _. unfold region_of. simpl. destruct (regions !! i) as [x|] eqn:E; simpl; [| lia]. exact (Forall_lookup_1 _ _ _ _ Hrange E).
Qed.
Lemma sources_perm : sources ≡ₚ misplaced.
Proof. apply by_region_perm, region_of_range. Qed.
Lemma misplaced_nodup : NoDup misplaced.
Proof. apply NoDup_filter, NoDup_seq. Qed.
Lemma misplaced_elem i : i ∈ misplaced <-> (i < length regions)%nat /\ regions !! i <> target !! i.
Proof. unfold misplaced. rewrite list_elem_of_filter, elem_of_seq. split; intros []; split; [lia | done | done | lia]. Qed.

Lemma fmap_lookup_seq (l : list nat) : (fun i => default 0%nat (l !! i)) <$> seq 0 (length l) = l.
Proof.
  apply list_eq. intros i. rewrite list_lookup_fmap. destruct (decide (i < length l)%nat) as [Hi |]; [rewrite lookup_seq_lt by done; destruct (lookup_lt_is_Some_2 l i Hi) as [x Hx]; simpl; by rewrite Hx |].
  rewrite lookup_seq_ge by lia. by rewrite lookup_ge_None_2 by lia.
Qed.
Lemma fmap_partition (l : list nat) (f g : nat -> nat) P `{forall x, Decision (P x)} : (forall i, i ∈ l -> ~ P i -> f i = g i) -> f <$> l ≡ₚ g <$> l -> f <$> filter P l ≡ₚ g <$> filter P l.
Proof.
  intros Hfg Hp. assert (forall h : nat -> nat, h <$> l ≡ₚ (h <$> filter P l) ++ (h <$> filter (fun i => ~ P i) l)) as Hsplit.
  { intros h. rewrite <- fmap_app. apply fmap_Permutation. clear. induction l as [|x l IH]; [done |]. rewrite !filter_cons. repeat case_decide; try done; simpl; [by apply Permutation_skip |]. rewrite <- Permutation_middle. by apply Permutation_skip. }
  rewrite (Hsplit f), (Hsplit g) in Hp. assert (f <$> filter (fun i => ~ P i) l = g <$> filter (fun i => ~ P i) l) as E.
  { apply list_fmap_ext. intros k i Hi%list_elem_of_lookup_2. apply list_elem_of_filter in Hi as [Hn Hi]. by apply Hfg. }
  rewrite E in Hp. by apply Permutation_app_inv_r in Hp.
Qed.
(** The k-th source has the region wanted at the k-th misplaced index. *)
Lemma plan_regions : region_of <$> sources = (fun i => default 0%nat (target !! i)) <$> misplaced.
Proof.
  unfold sources. rewrite fmap_by_region. apply (Sorted_unique Nat.le).
  - apply target_sorted.
  - assert (forall l, StronglySorted lt l -> Forall (fun i => (i < length target)%nat) l -> Sorted Nat.le ((fun i => default 0%nat (target !! i)) <$> l)) as Hmono.
    { assert (StronglySorted Nat.le target) as Hts by (apply Sorted_StronglySorted; [intros ? ? ?; apply Nat.le_trans | apply target_sorted]).
      intros l Hl Hb. apply StronglySorted_Sorted. induction Hl as [|x l Hl IH Hx]; [constructor |]. inversion Hb as [|? ? Hxb Hb']; subst.
      rewrite fmap_cons. constructor; [by apply IH |]. apply Forall_fmap, Forall_forall. intros y Hy. simpl. rewrite Forall_forall in Hx, Hb'. specialize (Hx y Hy). specialize (Hb' y Hy). simpl in *.
      destruct (lookup_lt_is_Some_2 target x Hxb) as [u Hu]. destruct (lookup_lt_is_Some_2 target y Hb') as [v Hv]. rewrite Hu, Hv. simpl. exact (ssorted_lookup _ _ _ _ _ _ Hts Hu Hv Hx). }
    apply Hmono; [| apply Forall_forall; intros i [Hi _]%misplaced_elem; by rewrite target_length].
    apply ssorted_filter, ssorted_seq.
  - rewrite target_perm by apply region_of_range. apply fmap_partition.
    + intros i Hi Hn. unfold region_of. destruct (decide (regions !! i = target !! i)) as [-> |]; [done | tauto].
    + unfold region_of. rewrite fmap_lookup_seq. rewrite <- target_length, fmap_lookup_seq. symmetry. apply target_perm, Hrange.
Qed.
End plan.

(** ** Following the cycles *)
Lemma filter_shorter {A} (P Q : A -> Prop) `{forall x, Decision (P x)} `{forall x, Decision (Q x)} (l : list A) y : (forall x, x ∈ l -> P x -> Q x) -> y ∈ l -> Q y -> ~ P y -> (length (filter P l) < length (filter Q l))%nat.
Proof.
  intros Hpq Hy HQ HP. assert (forall k, (forall x, x ∈ k -> P x -> Q x) -> (length (filter P k) <= length (filter Q k))%nat) as Hle.
  { induction k as [|x k IH]; intros Hk; [done |]. rewrite !filter_cons. assert (P x -> Q x) as Hx by (apply Hk; left). specialize (IH ltac:(intros; apply Hk; [by right | done])). repeat case_decide; simpl; (lia || tauto). }
  induction l as [|x l IH]; [by apply elem_of_nil in Hy |]. rewrite !filter_cons. assert (P x -> Q x) as Hx by (apply Hpq; left). assert (forall z, z ∈ l -> P z -> Q z) as Hl by (intros; apply Hpq; [by right | done]).
  specialize (Hle l Hl). apply elem_of_cons in Hy as [-> | Hy]; [| specialize (IH Hl Hy)]; repeat case_decide; simpl; (lia || tauto).
Qed.

Section cycles.
Context (L : nat) (reg : string -> nat) (tgt : list nat) (S : list nat).
Implicit Types (P : nat -> nat) (b : InputBatch) (m : list (nat * nat)).

(** [P] says where the request at an index of [S] has to go. *)
Record placing P b : Prop := {
  pl_ok : ib_ok L [] b;
  pl_inj : forall x y, x ∈ S -> y ∈ S -> P x = P y -> x = y;
  pl_in : forall x, x ∈ S -> P x ∈ S;
  pl_region : forall x, x ∈ S -> exists rid, _req_ids b !! x = Some (Some rid) /\ tgt !! P x = Some (reg rid);
}.
Definition misfits P : nat := length (filter (fun x => P x <> x) S).
(** The map agrees with [P] where it is still to be read. *)
Definition agrees P m (todo : list nat) (src : nat) : Prop := forall k, k ∈ S -> k <> src -> P k <> k \/ k ∈ todo -> od_get k m = Some (P k).
(** What the swaps keep; indices outside of [S] are not touched. *)
Definition untouched b b' : Prop :=
  same_frame b b' /\ same_removed b b' /\ length (_req_ids b') = length (_req_ids b) /\ (forall k, (k ∉ S) -> _req_ids b' !! k = _req_ids b !! k) /\ forall r, view b' r = view b r.
Lemma untouched_refl b : untouched b b.
Proof. split_and!; try done; apply same_frame_refl. Qed.
Lemma untouched_trans b b1 b2 : untouched b b1 -> untouched b1 b2 -> untouched b b2.
Proof.
  intros (A1 & [A2 A2'] & A3 & A4 & A5) (B1 & [B2 B2'] & B3 & B4 & B5). split_and!; [exact (same_frame_trans _ _ _ A1 B1) | split; congruence | congruence | |].
  - intros k Hk. by rewrite B4, A4.
  - intros r. by rewrite B5, A5.
Qed.

(** The request at [src] goes to [dst], and the one at [dst] comes to [src]. *)
Definition exchange P (src dst : nat) : nat -> nat := fun k => if bool_decide (k = src) then P dst else if bool_decide (k = dst) then dst else P k.
Lemma exchange_eq P src dst : exchange P src dst src = P dst.
Proof. unfold exchange. by rewrite bool_decide_eq_true_2. Qed.
Lemma exchange_dst P src dst : src <> dst -> exchange P src dst dst = dst.
Proof. intros. unfold exchange. rewrite bool_decide_eq_false_2 by done. by rewrite bool_decide_eq_true_2. Qed.
Lemma exchange_ne P src dst k : k <> src -> k <> dst -> exchange P src dst k = P k.
Proof. intros. unfold exchange. by rewrite !bool_decide_eq_false_2. Qed.

Lemma placing_swap P b src : placing P b -> src ∈ S -> src <> P src ->
  exists b', swap_states src (P src) b = Ok b' /\ placing (exchange P src (P src)) b' /\ untouched b b'.
Proof.
  intros [Hb Hinj Hin Hreg] Hs Hne. set (dst := P src) in *. assert (dst ∈ S) as Hd by (by apply Hin). assert (forall k, k ∈ S -> P k = dst -> k = src) as Honly by (intros k Hk E; by apply Hinj).
  destruct (Hreg src Hs) as (r1 & Hr1 & Ht1). destruct (Hreg dst Hd) as (r2 & Hr2 & Ht2). destruct (swap_states_spec L [] b src dst r1 r2 Hb Hr1 Hr2 Hne) as (b' & Hrun & Hb' & Hfr & Hrm & Hids & Hv). exists b'.
  assert (forall k, _req_ids b' !! k = if bool_decide (k = src) then _req_ids b !! dst else if bool_decide (k = dst) then _req_ids b !! src else _req_ids b !! k) as Hat by (intros k; rewrite Hids; by apply lookup_swapped).
  split; [done |]. split; [split; [done | | |] |].
  - intros x y Hx Hy. set (t := fun k => if bool_decide (k = src) then dst else if bool_decide (k = dst) then src else k).
    assert (forall k, exchange P src dst k = P (t k)) as Et by (intros k; unfold exchange, t; repeat case_bool_decide; subst; done). assert (forall k, k ∈ S -> t k ∈ S) as Hts by (intros k Hk; unfold t; repeat case_bool_decide; done).
    rewrite !Et. intros E%Hinj; [| by apply Hts | by apply Hts]. unfold t in E. repeat case_bool_decide; congruence.
  - intros x Hx. unfold exchange. repeat case_bool_decide; subst; auto.
  - intros x Hx. rewrite Hat. unfold exchange. repeat case_bool_decide; subst; [by exists r2 | by exists r1 | by apply Hreg].
  - split_and!; try done; [rewrite Hids; unfold swapped; by rewrite !length_insert |]. intros k Hk. rewrite Hat, !bool_decide_eq_false_2 by (intros ->; done). done.
Qed.

Lemma exchange_fixed P b src k : placing P b -> src ∈ S -> src <> P src -> k ∈ S -> P k = k -> exchange P src (P src) k = k.
Proof.
  intros [_ Hinj _ _] Hs Hne Hk Hf. destruct (decide (k = src)) as [-> |]; [congruence |]. destruct (decide (k = P src)) as [-> |]; [by apply exchange_dst | by rewrite exchange_ne].
Qed.
Lemma misfits_exchange P b src : placing P b -> src ∈ S -> src <> P src -> (misfits (exchange P src (P src)) < misfits P)%nat.
Proof.
  intros Hp Hs Hne. pose proof (pl_in _ _ Hp src Hs) as Hd. apply (filter_shorter _ _ S (P src)); [| done | |].
  - intros x Hx Hm Hf. apply Hm. by eapply exchange_fixed.
  - intros E. apply Hne. by apply (pl_inj _ _ Hp).
  - intros Hm. apply Hm. by apply exchange_dst.
Qed.

Lemma follow_cycle_spec fuel : forall P m b src todo, placing P b -> src ∈ S -> agrees P m todo src -> (misfits P <= fuel)%nat ->
  exists m' b' P', follow_cycle fuel src (P src) m b = Ok (m', b') /\ placing P' b' /\ P' src = src /\ agrees P' m' todo src /\ (forall k, k ∈ S -> P k = k -> P' k = k) /\
    length m' = length m /\ untouched b b'.
Proof.
  induction fuel as [|fuel IH]; intros P m b src todo Hp Hs Ha Hf; simpl; case_bool_decide as E;
    try (exists m, b, P; split_and!; try done; apply untouched_refl).
  - pose proof (misfits_exchange P b src Hp Hs E). lia.
  - destruct (placing_swap P b src Hp Hs E) as (b1 & Hrun & Hp1 & Hu). rewrite Hrun. cbn [rbind]. pose proof (pl_in _ _ Hp src Hs) as Hd.
    assert (P (P src) <> P src) as Hnf by (intros Ed; apply E; by apply (pl_inj _ _ Hp)). assert (od_get (P src) m = Some (P (P src))) as Hget by (apply Ha; [done | done | by left]). rewrite Hget. cbn [default].
    pose proof (misfits_exchange P b src Hp Hs E) as Hlt. set (P1 := exchange P src (P src)) in *. assert (P (P src) = P1 src) as -> by (symmetry; apply exchange_eq).
    destruct (IH P1 (od_set (P src) (P src) m) b1 src todo Hp1 Hs) as (m' & b' & P' & Hr & G1 & G2 & G3 & G4 & G5 & G6); [| lia |].
    + intros k Hk Hks Hor. rewrite od_get_set. destruct (decide (k = P src)) as [-> | Hkd]; [f_equal; symmetry; by apply exchange_dst |]. unfold P1 in *. rewrite exchange_ne in * by done. by apply Ha.
    + exists m', b', P'. split_and!; try done; [| rewrite G5, od_length_set; unfold od_mem; rewrite Hget; done | exact (untouched_trans _ _ _ Hu G6)]. intros k Hk Hfx. apply G4; [done |]. by eapply exchange_fixed.
Qed.

Lemma follow_cycles_spec todo : forall P m b, placing P b -> NoDup todo -> (forall k, k ∈ todo -> k ∈ S) -> (forall k, k ∈ S -> P k <> k \/ k ∈ todo -> od_get k m = Some (P k)) ->
  (forall k, k ∈ S -> (k ∉ todo) -> P k = k) -> (length S <= length m)%nat ->
  exists b' P', follow_cycles todo m b = Ok b' /\ placing P' b' /\ (forall k, k ∈ S -> P' k = k) /\ untouched b b'.
Proof.
  induction todo as [|src todo IH]; intros P m b Hp Hnd Hin Ha Hdone Hlen; simpl.
  - exists b, P. split_and!; [done | done | intros k Hk; apply Hdone; [done | by intros ?%elem_of_nil] | apply untouched_refl].
  - apply NoDup_cons in Hnd as [Hns Hnd]. assert (src ∈ S) as Hs by (apply Hin; left). rewrite (Ha src Hs) by (right; left).
    destruct (follow_cycle_spec (length m) P m b src todo Hp Hs) as (m' & b1 & P1 & Hr & G1 & G2 & G3 & G4 & G5 & G6).
    + intros k Hk Hks [Hor | Hor]; apply Ha; try done; [by left | right; by right].
    + etransitivity; [apply length_filter | done].
    + rewrite Hr. cbn [rbind fst snd]. destruct (IH P1 m' b1 G1 Hnd) as (b' & P' & Hr' & K1 & K2 & K3).
      * intros k Hk. apply Hin. by right.
      * intros k Hk Hor. apply G3; [done | | done]. intros ->. destruct Hor as [Hor | Hor]; [by apply Hor | done].
      * intros k Hk Hnt. destruct (decide (k = src)) as [-> | Hks]; [done |]. apply G4; [done |]. apply Hdone; [done |]. by intros [-> | ?]%elem_of_cons.
      * lia.
      * exists b', P'. split_and!; try done. exact (untouched_trans _ _ _ G6 K3).
Qed.
End cycles.

(** ** The reordered batch *)
Section reorder.
Context (L : nat) (sched : list (string * Z)) (threshold : Z).
Implicit Types (b : InputBatch).

(** The region of a request, from its view *)
Definition view_region (v : View) (n : Z) : nat :=
  if v_computed v <=? 0 then 3 else if threshold <? n then 2 else if v_computed v <? v_prompt v then 1 else 0.
Definition request_region b (rid : string) : nat := default 0%nat (v ← view b rid; n ← od_get rid sched; Some (view_region v n)).
Definition scheduled b : Prop := forall rid i, req_id_to_index b !! rid = Some i -> is_Some (od_get rid sched).

Lemma req_regions_spec b : ib_ok L [] b -> scheduled b ->
  exists l, req_regions threshold sched (_req_ids b) (rows b) = Ok l /\ length l = length (_req_ids b) /\ in_range l /\
    forall i rid, _req_ids b !! i = Some (Some rid) -> l !! i = Some (request_region b rid).
Proof.
  intros Hb Hs. assert (forall ids rs k, (length ids <= length rs)%nat -> (forall j, ids !! j = _req_ids b !! (k + j)%nat) -> (forall j, rs !! j = rows b !! (k + j)%nat) ->
    exists l, req_regions threshold sched ids rs = Ok l /\ length l = length ids /\ in_range l /\ forall j rid, ids !! j = Some (Some rid) -> l !! j = Some (request_region b rid)) as Hgen.
  { induction ids as [|x ids IH]; intros rs k Hlen Hids Hrs; [exists []; split_and!; try done; constructor |]. destruct rs as [|row rs]; [simpl in Hlen; lia |].
    destruct (IH rs (S k)) as (l & Hl & Hll & Hr & Hat); [simpl in Hlen; lia | intros j; specialize (Hids (S j)); simpl in Hids; rewrite Hids; f_equal; lia | intros j; specialize (Hrs (S j)); simpl in Hrs; rewrite Hrs; f_equal; lia |].
    specialize (Hids 0%nat). specialize (Hrs 0%nat). rewrite Nat.add_0_r in Hids, Hrs. simpl in Hids, Hrs. symmetry in Hids, Hrs.
    destruct x as [rid|]; [| apply (ok_holes _ _ _ Hb) in Hids; by apply elem_of_nil in Hids]. pose proof Hids as Hx%(ok_index _ _ _ Hb). destruct (Hs rid k Hx) as [n Hn].
    simpl. rewrite Hn, Hl. cbn [rbind]. exists (req_region threshold n row :: l). split_and!; [done | by simpl; rewrite Hll | constructor; [apply req_region_lt | done] |].
    intros [|j] r; [intros [= <-] | apply Hat]. simpl. f_equal. unfold request_region, view. rewrite Hx. simpl.
    destruct (ok_lt _ _ _ _ _ Hb Hids) as [Hk _]. destruct (ok_data _ _ _ _ Hb Hk) as (row' & sp & out & bl & Hrow & _ & _ & _ & _ & Hv). rewrite Hv, Hn. simpl. assert (row' = row) as -> by congruence. done. }
  destruct (Hgen (_req_ids b) (rows b) 0%nat) as (l & ? & ? & ? & ?); [rewrite (ok_rows _ _ _ Hb); apply (ok_len _ _ _ Hb) | done | done |]. by exists l.
Qed.

Lemma od_get_zip (ks vs : list nat) k v : NoDup ks -> length ks = length vs -> od_get k (zip ks vs) = Some v <-> exists j, ks !! j = Some k /\ vs !! j = Some v.
Proof.
  intros Hnd Hlen. assert (od_ok (zip ks vs)) as Hok by (unfold od_ok, od_keys; rewrite fst_zip by lia; done). split.
  - intros Hg%od_get_elem. apply list_elem_of_lookup in Hg as [j Hj]. apply lookup_zip_with_Some in Hj as (x & y & [= -> ->] & H1 & H2). by exists j.
  - intros (j & H1 & H2). apply od_elem_get; [done |]. apply list_elem_of_lookup. exists j. apply lookup_zip_with_Some. by exists k, v.
Qed.
(** Where the request at an index has to go first *)
Definition destination (l : list nat) (k : nat) : nat := default k (od_get k (zip (sources l) (misplaced l))).
Lemma destination_spec l k : in_range l -> k ∈ misplaced l -> exists j, sources l !! j = Some k /\ misplaced l !! j = Some (destination l k) /\ od_get k (zip (sources l) (misplaced l)) = Some (destination l k).
Proof.
  intros Hr Hk. pose proof (sources_perm l Hr) as Hp. pose proof (misplaced_nodup l) as Hnd. assert (NoDup (sources l)) as Hns by (by rewrite Hp). pose proof (Permutation_length Hp) as Hlen.
  rewrite <- Hp in Hk. apply list_elem_of_lookup in Hk as [j Hj]. destruct (lookup_lt_is_Some_2 (misplaced l) j) as [d Hd]; [rewrite <- Hlen; by eapply lookup_lt_Some |].
  assert (od_get k (zip (sources l) (misplaced l)) = Some d) as Hg by (apply od_get_zip; [done | done | by exists j]). exists j. unfold destination. by rewrite Hg.
Qed.
Lemma initial_placing b l : ib_ok L [] b -> length l = length (_req_ids b) -> in_range l -> (forall i rid, _req_ids b !! i = Some (Some rid) -> l !! i = Some (request_region b rid)) ->
  placing L (request_region b) (target_regions l) (misplaced l) (destination l) b.
Proof.
  intros Hb Hlen Hr Hat. pose proof (misplaced_nodup l) as Hnd. assert (NoDup (sources l)) as Hns by (by rewrite sources_perm). split; [done | | |].
  - intros x y Hx Hy E. destruct (destination_spec l x Hr Hx) as (j & Hj1 & Hj2 & _). destruct (destination_spec l y Hr Hy) as (k & Hk1 & Hk2 & _). rewrite E in Hj2. assert (j = k) as -> by (exact (NoDup_lookup _ _ _ _ Hnd Hj2 Hk2)). congruence.
  - intros x Hx. destruct (destination_spec l x Hr Hx) as (j & _ & Hj & _). by eapply list_elem_of_lookup_2.
  - intros x Hx. destruct (destination_spec l x Hr Hx) as (j & Hj1 & Hj2 & _). apply misplaced_elem in Hx as [Hxl _]. rewrite Hlen in Hxl. destruct (lookup_lt_is_Some_2 _ _ Hxl) as [[rid|] Hid]; [| apply (ok_holes _ _ _ Hb) in Hid; by apply elem_of_nil in Hid].
    exists rid. split; [done |]. pose proof (plan_regions l Hr) as Hplan. apply (f_equal (fun k => k !! j)) in Hplan. rewrite !list_lookup_fmap, Hj1, Hj2 in Hplan. simpl in Hplan. injection Hplan as Hplan. unfold region_of in Hplan. rewrite (Hat x rid Hid) in Hplan. simpl in Hplan.
    apply list_elem_of_lookup_2, misplaced_elem in Hj2 as [Hd _]. destruct (lookup_lt_is_Some_2 (target l) (destination l x)) as [t Ht]; [by rewrite target_length |]. unfold target in *. rewrite Ht in Hplan |- *. simpl in Hplan. by rewrite Hplan.
Qed.

Lemma request_region_view b b' rid : (forall r, view b' r = view b r) -> request_region b' rid = request_region b rid.
Proof. intros Hv. unfold request_region. by rewrite Hv. Qed.
Lemma reorder_spec b : ib_ok L [] b -> scheduled b -> exists l changed b', req_regions threshold sched (_req_ids b) (rows b) = Ok l /\ reorder_batch_to_split_decodes_and_prefills sched threshold b = Ok (changed, b') /\
  ib_ok L [] b' /\ same_frame b b' /\ same_removed b b' /\ length (_req_ids b') = length (_req_ids b) /\ (forall r, view b' r = view b r) /\ req_regions threshold sched (_req_ids b') (rows b') = Ok (target_regions l).
Proof.
  intros Hb Hs. destruct (req_regions_spec b Hb Hs) as (l & Hl & Hlen & Hr & Hat). exists l. unfold reorder_batch_to_split_decodes_and_prefills. rewrite Hl. cbn [rbind]. cbv zeta.
  fold (target l). fold (misplaced l). change (by_region (fun i => default 0%nat (l !! i)) (misplaced l)) with (sources l).
  assert (forall b', ib_ok L [] b' -> untouched (misplaced l) b b' -> (forall k, k ∈ misplaced l -> exists rid, _req_ids b' !! k = Some (Some rid) /\ target l !! k = Some (request_region b rid)) -> req_regions threshold sched (_req_ids b') (rows b') = Ok (target_regions l)) as Hfin.
  { intros b' Hb' (Hfr & _ & Hlen' & Hout & Hv) Hin. assert (scheduled b') as Hs'. { intros rid i Hi. assert (rid ∈ dom (req_id_to_index b)) as [j Hj]%elem_of_dom; [| by eapply Hs]. destruct Hfr as (_ & _ & _ & _ & _ & _ & <- & _). by apply elem_of_dom_2 in Hi. }
    destruct (req_regions_spec b' Hb' Hs') as (l' & Hl' & Hll' & _ & Hat'). rewrite Hl'. f_equal. apply list_eq. intros k. destruct (_req_ids b' !! k) as [[rid|]|] eqn:E.
    - rewrite (Hat' k rid E), (request_region_view b b' rid Hv). destruct (decide (k ∈ misplaced l)) as [Hk | Hk].
      + destruct (Hin k Hk) as (rid' & E' & Ht). rewrite E in E'. injection E' as <-. exact (eq_sym Ht).
      + rewrite (Hout k Hk) in E. pose proof (Hat k rid E) as Hreg. rewrite <- Hreg. rewrite misplaced_elem in Hk. apply lookup_lt_Some in Hreg. destruct (decide (l !! k = target l !! k)); [done | tauto].
    - apply (ok_holes _ _ _ Hb') in E. by apply elem_of_nil in E.
    - apply lookup_ge_None in E. rewrite !lookup_ge_None_2; [done | fold (target l); rewrite target_length by done; lia | lia]. }
  destruct (misplaced l) as [|x rest] eqn:Em; [| rewrite <- Em in *].
  - exists false, b. split_and!; try done; [apply same_frame_refl |]. apply Hfin; [done | apply untouched_refl | by intros k ?%elem_of_nil].
  - pose proof (sources_perm l Hr) as Hp. pose proof (initial_placing b l Hb Hlen Hr Hat) as Hpl.
    destruct (follow_cycles_spec L (request_region b) (target_regions l) (misplaced l) (sources l) (destination l) (zip (sources l) (misplaced l)) b Hpl) as (b' & P' & Hrun & Hpl' & Hfix & Hu).
    + rewrite Hp. apply misplaced_nodup.
    + intros k Hk. by rewrite <- Hp.
    + intros k Hk _. by destruct (destination_spec l k Hr Hk) as (_ & _ & _ & ?).
    + intros k Hk Hn. rewrite Hp in Hn. done.
    + rewrite length_zip_with, (Permutation_length Hp). lia.
    + rewrite Hrun. cbn [rbind]. exists true, b'. destruct (Hu) as (G1 & G2 & G3 & G4 & G5). split_and!; try done; [apply Hpl' |]. apply Hfin; [apply Hpl' | done |].
      intros k Hk. destruct (pl_region _ _ _ _ _ _ Hpl' k Hk) as (rid & Hid & Ht). exists rid. by rewrite (Hfix k Hk) in Ht.
Qed.
End reorder.
