(* ===== verification/InputBatchStep.v ===== *)
(** * InputBatchStep
    Adding and removing requests of the persistent batch, on views and on what is kept by
    request id, and a whole step: removals, additions, condensing and the reset of the
    changes. *)
From Stdlib Require Import QArith_base.
From stdpp Require Import sorting.
From S2P Require Import Prelude OrdDict KVCacheBlock Request CacheHit KVCacheInterface SizingInv WorkerBlockTable InputBatch InputBatchInv.
#[local] Open Scope Z_scope.

(** ** LoRA
    [f] gives the LoRA of every request of the batch, 0 for none. *)
Record lora_inv (f : string -> option Z) (l : LoRAState) : Prop := {
  li_iff : forall id r, (exists ids, lora_id_to_request_ids l !! id = Some ids /\ r ∈ ids) <-> (id <> 0 /\ f r = Some id);
  li_nonempty : forall id, lora_id_to_request_ids l !! id <> Some ∅;
  li_dom : forall id, is_Some (lora_id_to_request_ids l !! id) <-> is_Some (lora_id_to_lora_request l !! id);
}.
Lemma lora_inv_ext f g l : (forall r, f r = g r) -> lora_inv f l -> lora_inv g l.
Proof. intros E []. split; try done. intros id r. by rewrite <- E. Qed.
Lemma remove_lora_spec f l rid id : lora_inv f l -> f rid = Some id ->
  exists l', remove_lora rid id l = Ok l' /\ lora_inv (fun r => if bool_decide (r = rid) then None else f r) l'.
Proof.
  intros [Hi Hn Hd] Hf. unfold remove_lora. case_match eqn:E0.
  { exists l. split; [done |]. split; try done. intros k r. rewrite Hi. case_bool_decide; [| done]. subst. rewrite Hf. apply Z.eqb_eq in E0. subst. split; [intros [? [= <-]] | intros [? [=]]]. done. }
  apply Z.eqb_neq in E0. destruct (proj2 (Hi id rid)) as (ids & Hids & Hin); [done |]. rewrite Hids. destruct (proj1 (Hd id)) as [o Ho]; [by exists ids |].
  case_bool_decide as Hem.
  - rewrite Ho. eexists. split; [done |]. split; simpl.
    + intros k r. destruct (decide (k = id)) as [-> | Hk].
      * rewrite lookup_delete_eq. split; [by intros (? & ? & _) |]. case_bool_decide; [by intros [_ ?] |]. intros (? & Hr & Hrin)%Hi. rewrite Hids in Hr. injection Hr as <-. set_solver.
      * rewrite lookup_delete_ne by done. rewrite Hi. case_bool_decide; [subst | done]. rewrite Hf. split; [intros [? [= ->]] | intros [? [=]]]. done.
    + intros k. destruct (decide (k = id)) as [-> | Hk]; [by rewrite lookup_delete_eq | by rewrite lookup_delete_ne].
    + intros k. destruct (decide (k = id)) as [-> | Hk]; [by rewrite !lookup_delete_eq | by rewrite !lookup_delete_ne].
  - eexists. split; [done |]. split; simpl.
    + intros k r. destruct (decide (k = id)) as [-> | Hk].
      * rewrite lookup_insert_eq. split.
        -- intros (? & [= <-] & [Hr Hne]%elem_of_difference). rewrite bool_decide_eq_false_2 by set_solver. apply Hi. by exists ids.
        -- case_bool_decide; [by intros [_ ?] |]. intros (? & Hr & Hrin)%Hi. rewrite Hids in Hr. injection Hr as <-. eexists. split; [done | set_solver].
      * rewrite lookup_insert_ne by done. rewrite Hi. case_bool_decide; [subst | done]. rewrite Hf. split; [intros [? [= ->]] | intros [? [=]]]. done.
    + intros k. destruct (decide (k = id)) as [-> | Hk]; [rewrite lookup_insert_eq; congruence | by rewrite lookup_insert_ne].
    + intros k. destruct (decide (k = id)) as [-> | Hk]; [| by rewrite lookup_insert_ne]. rewrite lookup_insert_eq. split; [by exists o | done].
Qed.
(** The LoRA of a request *)
Definition lora_of (r : CachedRequestState) : Z := match cr_lora_request r with Some (i, _) => i | None => 0 end.
Lemma add_lora_spec f l r : lora_inv f l -> f (cr_req_id r) = None -> (forall i o, cr_lora_request r = Some (i, o) -> i <> 0) ->
  lora_inv (fun x => if bool_decide (x = cr_req_id r) then Some (lora_of r) else f x) (add_lora r l).
Proof.
  intros [Hi Hn Hd] Hf H0. unfold add_lora, lora_of. destruct (cr_lora_request r) as [[i o]|].
  - specialize (H0 i o eq_refl). assert (forall x, x ∈ default ∅ (lora_id_to_request_ids l !! i) <-> f x = Some i) as Hdef.
    { intros x. destruct (lora_id_to_request_ids l !! i) as [ids|] eqn:E; simpl; [| rewrite elem_of_empty]; (split; [| intros Hx; assert (i <> 0 /\ f x = Some i) as (ids' & E' & Hin)%Hi by done]).
      - intros Hx. apply (Hi i x). by exists ids.
      - congruence.
      - done.
      - congruence. }
    split; simpl.
    + intros k x. destruct (decide (k = i)) as [-> | Hk].
      * rewrite lookup_insert_eq. split.
        -- intros (? & [= <-] & [-> %elem_of_singleton | Hx]%elem_of_union); [by rewrite bool_decide_eq_true_2 |]. apply Hdef in Hx. rewrite bool_decide_eq_false_2 by congruence. done.
        -- intros [_ Hx]. eexists. split; [done |]. case_bool_decide; [set_solver |]. apply Hdef in Hx. set_solver.
      * rewrite lookup_insert_ne by done. rewrite Hi. case_bool_decide; [subst | done]. rewrite Hf. split; [by intros [_ ?] | intros [_ [= ->]]; done].
    + intros k. destruct (decide (k = i)) as [-> | Hk]; [rewrite lookup_insert_eq; intros [= E]; set_solver | by rewrite lookup_insert_ne].
    + intros k. destruct (decide (k = i)) as [-> | Hk]; [rewrite !lookup_insert_eq | by rewrite !lookup_insert_ne]. by split; eexists.
  - split; try done. intros k x. rewrite Hi. case_bool_decide; [subst | done]. rewrite Hf. split; [by intros [_ ?] | intros [? [= <-]]; done].
Qed.

(** ** What is kept by request id *)
Definition sets_within (D : gset string) (s : IdSets) : Prop :=
  greedy_reqs s ∪ random_reqs s = D /\ greedy_reqs s ## random_reqs s /\ top_p_reqs s ⊆ D /\ top_k_reqs s ⊆ D /\ frequency_penalties_reqs s ⊆ D /\
  presence_penalties_reqs s ⊆ D /\ repetition_penalties_reqs s ⊆ D /\ has_allowed_token_ids s ⊆ D.
Definition dicts_within (pooling : bool) (D : gset string) (d : IdDicts) : Prop :=
  dom (ib_pooling_params d) = (if pooling then D else ∅) /\ dom (ib_pooling_states d) = (if pooling then D else ∅) /\
  dom (num_logprobs d) ⊆ (if pooling then ∅ else D) /\ dom (logprob_token_ids d) ⊆ (if pooling then ∅ else D).
(** The ids are those of the requests in the batch. *)
Record by_id_ok (b : InputBatch) : Prop := {
  bi_lora : lora_inv (fun r => v_lora <$> view b r) (lora b);
  bi_sets : sets_within (if is_pooling_model (ib_config b) then ∅ else dom (req_id_to_index b)) (id_sets b);
  bi_dicts : dicts_within (is_pooling_model (ib_config b)) (dom (req_id_to_index b)) (id_dicts b);
}.
Lemma by_id_frame b b' : same_frame b b' -> (forall r, view b' r = view b r) -> by_id_ok b -> by_id_ok b'.
Proof.
  intros (Ec & _ & Es & Ed & El & _ & Edom & _) Hv [H1 H2 H3]. split; rewrite ?Ec, ?Es, ?Ed, ?El, ?Edom; try done.
  eapply lora_inv_ext; [| exact H1]. intros r. simpl. by rewrite Hv.
Qed.
Lemma sets_remove D rid s : sets_within D s -> sets_within (D ∖ {[rid]}) (remove_from_sets rid s).
Proof. intros (H1 & H2 & H3 & H4 & H5 & H6 & H7 & H8). split_and!; simpl; set_solver. Qed.

(** ** Removing *)
Section remove.
Context (L : nat).
Implicit Types (b : InputBatch).

(** Requests can be removed: nothing has been added since the last reset. *)
Definition open_ok (H : list nat) b : Prop := _removed (batch_update_builder b) ≡ₚ H /\ _is_removed_sorted (batch_update_builder b) = false.

Lemma indexed_delete idx (ids : list (option string)) i rid : indexed idx ids -> ids !! i = Some (Some rid) -> indexed (delete rid idx) (<[i := None]> ids).
Proof.
  intros Hx Hi r k. pose proof (lookup_lt_Some _ _ _ Hi). destruct (decide (r = rid)) as [-> | Hr]; [rewrite lookup_delete_eq | rewrite lookup_delete_ne by done]; (destruct (decide (k = i)) as [-> | Hk]; [rewrite list_lookup_insert_eq by done | rewrite list_lookup_insert_ne by done]).
  - done.
  - split; [done |]. intros E%Hx. apply Hx in Hi. congruence.
  - split; [| done]. intros E%Hx. congruence.
  - apply Hx.
Qed.

(** The result of removing the request at index [i], field by field *)
Record dropped (i : nat) (rid : string) b b' : Prop := {
  dr_ids : _req_ids b' = <[i := None]> (_req_ids b);
  dr_index : req_id_to_index b' = delete rid (req_id_to_index b);
  dr_outs : req_output_token_ids b' = <[i := None]> (req_output_token_ids b);
  dr_specs : spec_token_ids b' = <[i := []]> (spec_token_ids b);
  dr_rows : exists row', row_ok L row' /\ rows b' = <[i := row']> (rows b);
  dr_tables : Forall (table_ok (ib_max_num_reqs (ib_config b))) (ib_block_table b') /\ same_setups (ib_block_table b) (ib_block_table b');
  dr_blocks : forall k, k <> i -> blocks_at (ib_block_table b') k = blocks_at (ib_block_table b) k;
  dr_embeds : req_prompt_embeds (index_dicts b') = req_prompt_embeds (index_dicts b);
  dr_free : is_pooling_model (ib_config b) = false -> generators (index_dicts b') = delete i (generators (index_dicts b)) /\ bad_words_token_ids (index_dicts b') = delete i (bad_words_token_ids (index_dicts b));
  dr_config : ib_config b' = ib_config b;
  dr_lora : lora_inv (fun r => if bool_decide (r = rid) then None else v_lora <$> view b r) (lora b');
  dr_sets : id_sets b' = if is_pooling_model (ib_config b) then id_sets b else remove_from_sets rid (id_sets b);
  dr_dicts : dicts_within (is_pooling_model (ib_config b)) (dom (req_id_to_index b) ∖ {[rid]}) (id_dicts b');
  dr_removed : _removed (batch_update_builder b') = _removed (batch_update_builder b) ++ [i] /\ _is_removed_sorted (batch_update_builder b') = false;
}.
Lemma remove_run H b rid i : ib_ok L H b -> by_id_ok b -> open_ok H b -> req_id_to_index b !! rid = Some i ->
  exists b', ib_remove_request rid b = Ok (Some i, b') /\ dropped i rid b b'.
Proof.
  intros Hb [Hl Hs Hd] [Hr Hfl] Hi. pose proof Hi as Hid%(ok_index _ _ _ Hb). destruct (ok_lt _ _ _ _ _ Hb Hid) as [Hi1 Hi2].
  destruct (ok_data _ _ _ _ Hb Hi1) as (row & specs & out & bl & Hrow & Hsp & Hout & Hbl & Hrok & Hv).
  destruct (mg_clear_spec _ (ib_block_table b) i (ok_tables _ _ _ Hb) Hi2) as (ts & Hts & Htok & Hset & Hne).
  destruct (remove_lora_spec _ (lora b) rid (request_lora_mapping row) Hl) as (l & Hlo & Hlinv); [unfold view; by rewrite Hi; simpl; rewrite Hv |].
  unfold ib_remove_request, removed_append. rewrite Hi, Hfl. cbn [rbind]. rewrite !np_set_lt by (rewrite ?(ok_outs _ _ _ Hb); pose proof (ok_specs _ _ _ Hb); lia). cbn [rbind].
  rewrite Hts. cbn [rbind]. rewrite (proj2 (np_get_Ok _ _ _) Hrow). cbn [rbind]. rewrite Hlo. cbn [rbind]. cbv zeta. destruct Hd as (D1 & D2 & D3 & D4).
  destruct (is_pooling_model (ib_config b)) eqn:Ep; rewrite np_set_lt by (rewrite (ok_rows _ _ _ Hb); done); cbn [rbind]; eexists; (split; [done |]); split; try done; simpl; rewrite ?Ep; try done.
  all: try (eexists; split; [| done]; exact Hrok).
  all: split_and!; simpl; rewrite ?dom_delete_L; set_solver.
Qed.
Lemma dropped_ok H b rid i b' : ib_ok L H b -> req_id_to_index b !! rid = Some i -> dropped i rid b b' -> ib_ok L (i :: H) b'.
Proof.
  intros Hb Hi []. pose proof Hi as Hid%(ok_index _ _ _ Hb). destruct (ok_lt _ _ _ _ _ Hb Hid) as [Hi1 Hi2]. destruct dr_rows0 as (row' & Hrok & Hrows).
  assert (i ∉ H) as HiH by (intros Hin%(ok_holes _ _ _ Hb); congruence). pose proof (ok_count _ _ _ Hb) as Hc.
  split; rewrite ?dr_config0, ?dr_ids0, ?dr_outs0, ?dr_specs0, ?Hrows, ?length_insert; try apply Hb.
  - rewrite dr_index0. exact (indexed_delete _ _ _ _ (ok_index _ _ _ Hb) Hid).
  - intros k. rewrite elem_of_cons. destruct (decide (k = i)) as [-> | Hk]; [rewrite list_lookup_insert_eq by done; tauto |]. rewrite list_lookup_insert_ne by done. rewrite (ok_holes _ _ _ Hb). tauto.
  - constructor; [done | apply (ok_nodup _ _ _ Hb)].
  - unfold num_reqs in *. rewrite dr_index0, map_size_delete, Hi. simpl. assert (size (req_id_to_index b) <> 0%nat); [| lia]. intros E%map_size_empty_inv. by rewrite E in Hi.
  - intros k s Hk. rewrite list_lookup_insert_ne by lia. by apply (ok_unused _ _ _ Hb).
  - apply dr_tables0.
  - apply Forall_insert; [apply (ok_row _ _ _ Hb) | done].
  - intros k r row specs. destruct (decide (k = i)) as [-> | Hk]; [by rewrite list_lookup_insert_eq |]. rewrite !list_lookup_insert_ne, dr_embeds0 by done. apply (ok_active _ _ _ Hb).
  - intros k Hp. destruct (dr_free0 Hp) as [-> ->]. destruct (decide (k = i)) as [-> | Hk]; [by rewrite !lookup_delete_eq |]. rewrite list_lookup_insert_ne, !lookup_delete_ne by done. by apply (ok_free _ _ _ Hb).
Qed.
Lemma dropped_views H b rid i b' : ib_ok L H b -> req_id_to_index b !! rid = Some i -> dropped i rid b b' -> forall r, view b' r = if bool_decide (r = rid) then None else view b r.
Proof.
  intros Hb Hi [] r. destruct dr_rows0 as (row' & Hrok & Hrows). unfold view. rewrite dr_index0. case_bool_decide as Hr; [subst; by rewrite lookup_delete_eq |]. rewrite lookup_delete_ne by done.
  destruct (req_id_to_index b !! r) as [k|] eqn:E; [| done]. simpl. assert (k <> i) as Hk. { intros ->. apply (ok_index _ _ _ Hb) in E, Hi. congruence. }
  unfold view_at. rewrite Hrows, dr_specs0, dr_outs0, dr_config0, dr_embeds0, !list_lookup_insert_ne, dr_blocks0 by done. destruct (rows b !! k); [| done]. destruct (spec_token_ids b !! k); [| done]. destruct (blocks_at _ k); [| done].
  cbn -[row_view]. f_equal. apply row_view_pooling. intros Hp. destruct (dr_free0 Hp) as [-> ->]. by rewrite !lookup_delete_ne.
Qed.

(** A batch to which requests can be added and from which they can be removed *)
Definition open_batch b : Prop := exists H, ib_ok L H b /\ by_id_ok b /\ open_ok H b.
Definition same_shape b b' : Prop := ib_config b' = ib_config b /\ same_setups (ib_block_table b) (ib_block_table b').

Lemma remove_request_views b rid : open_batch b ->
  exists b', ib_remove_request rid b = Ok (req_id_to_index b !! rid, b') /\ open_batch b' /\ same_shape b b' /\ dom (req_id_to_index b') = dom (req_id_to_index b) ∖ {[rid]} /\
    forall r, view b' r = if bool_decide (r = rid) then None else view b r.
Proof.
  intros (H & Hb & Hid & Ho). destruct (req_id_to_index b !! rid) as [i|] eqn:Hi.
  - destruct (remove_run H b rid i Hb Hid Ho Hi) as (b' & Hrun & Hd). exists b'. pose proof (dropped_views _ _ _ _ _ Hb Hi Hd) as Hv. pose proof (dropped_ok _ _ _ _ _ Hb Hi Hd) as Hb'.
    split_and!; [done | | exact (conj (dr_config _ _ _ _ Hd) (proj2 (dr_tables _ _ _ _ Hd))) | by rewrite (dr_index _ _ _ _ Hd), dom_delete_L | done]. exists (i :: H). destruct Hd, Hid as [_ Hs _]. split_and!; [done | | split; [| apply dr_removed0]].
    + split; rewrite ?dr_config0, ?dr_index0, ?dom_delete_L; [| | done].
      * eapply lora_inv_ext; [| exact dr_lora0]. intros r. simpl. rewrite Hv. by case_bool_decide.
      * rewrite dr_sets0. destruct (is_pooling_model _); [done | by apply sets_remove].
    + destruct Ho as [Ho _], dr_removed0 as [-> _]. rewrite Ho. symmetry. apply Permutation_cons_append.
  - exists b. assert (view b rid = None) as Hv by (unfold view; by rewrite Hi). split_and!; [unfold ib_remove_request; by rewrite Hi | by exists H | by split; [| apply same_frame_refl] | |].
    + apply not_elem_of_dom in Hi. set_solver.
    + intros r. case_bool_decide; [by subst | done].
Qed.
End remove.

(** ** Adding *)
Section add.
Context `{F32 : Float32} (L : nat).
Implicit Types (b : InputBatch) (r : CachedRequestState) (outs : list Z).

(** The sampling columns of a request *)
Definition samp_of (vocab : Z) (sp : WSamplingParams) : SampRow :=
  mkSamp (if sp_greedy sp then 0%Q else to_f32 (sp_temperature sp)) (to_f32 (sp_top_p sp)) (if (0 <? sp_top_k sp) && (sp_top_k sp <? vocab) then sp_top_k sp else vocab)
    (to_f32 (sp_frequency_penalty sp)) (to_f32 (sp_presence_penalty sp)) (to_f32 (sp_repetition_penalty sp)) 1 [].
(** The view of a request that has just been added; [prompt] are the tokens of its prompt. *)
Definition view_of (cfg : BatchConfig) (ts : list BlockTable) r (prompt outs : list Z) : View :=
  let n := cr_num_prompt_tokens r in
  let ids := match cr_prompt_token_ids r with Some _ => true | None => false end in
  let sp := if is_pooling_model cfg then None else cr_sampling_params r in
  mkView (prompt ++ outs) (replicate (Z.to_nat n) ids ++ replicate (length outs) true) (n + zlen outs) n (cr_num_computed_tokens r) (lora_of r)
    (match sp with Some p => samp_of (vocab_size cfg) p | None => empty_samp end) (kernel_rows ts (cr_block_ids r))
    (if is_pooling_model cfg then None else cr_generator r)
    (p ← sp; match sp_bad_words_token_ids p with [] => None | l => Some l end)
    (if ids then None else if n =? 0 then None else cr_prompt_embeds r) [] (Some (cr_output_token_ids r)).
(** Without token ids, the tokens of the prompt are whatever the row held before. *)
Definition fresh_view b r outs (v : View) : Prop :=
  exists prompt, zlen prompt = cr_num_prompt_tokens r /\ (forall l, cr_prompt_token_ids r = Some l -> prompt = l) /\ v = view_of (ib_config b) (ib_block_table b) r prompt outs.

(** What a request must satisfy, apart from room in the batch *)
Record addable (cfg : BatchConfig) (ts : list BlockTable) r outs : Prop := {
  ad_len : length_from_prompt_token_ids_or_embeds (cr_prompt_token_ids r) (cr_prompt_embeds r) = Ok (cr_num_prompt_tokens r);
  ad_fit : cr_num_prompt_tokens r + zlen outs <= Z.of_nat L;
  ad_blocks : fits ts (replicate (length ts) []) (cr_block_ids r);
  ad_params : if is_pooling_model cfg then cr_sampling_params r = None /\ is_Some (cr_pooling_params r) /\ is_Some (cr_pooling_states r)
              else exists sp, cr_sampling_params r = Some sp /\ Forall (fun t => - vocab_size cfg <= t < vocab_size cfg) (sp_allowed_token_ids sp);
  ad_lora : forall i o, cr_lora_request r = Some (i, o) -> i <> 0;
}.

Lemma pop_removed_spec H u : _removed u ≡ₚ H -> (_is_removed_sorted u = true -> StronglySorted descending (_removed u)) ->
  match pop_removed u with
  | (None, u') => u' = u /\ H = []
  | (Some e, u') => exists K, H ≡ₚ e :: K /\ _removed u' ≡ₚ K /\ StronglySorted descending (_removed u')
  end.
Proof.
  intros HR Hs. unfold pop_removed, has_removed. destruct (_removed u) as [|x R] eqn:ER; [by apply Permutation_nil_l in HR |]. rewrite <- ER in *.
  destruct (ensure_sorted u Hs) as (E1 & E2 & E3). cbv zeta in *. set (u' := _ensure_removed_sorted u) in *. destruct (_removed u') as [|e R0 _] eqn:EU using rev_ind.
  { apply Permutation_nil_l in E1. congruence. }
  rewrite last_snoc, length_app. simpl. rewrite Nat.add_sub, take_app_length. exists R0. split_and!; [| done | by eapply sorted_init].
  rewrite <- HR, <- E1. symmetry. apply Permutation_cons_append.
Qed.

Lemma length_from_len ids e n : length_from_prompt_token_ids_or_embeds ids e = Ok n ->
  (forall l, ids = Some l -> n = zlen l) /\ (ids = None -> exists l, e = Some l /\ n = zlen l) /\ 0 <= n.
Proof.
  unfold length_from_prompt_token_ids_or_embeds. destruct ids as [l|], e as [k|]; try done; [case_match; [| done] |..]; intros [= <-]; (split_and!; [| | apply zlen_nonneg]); try (by intros ? [= <-]); try done; by exists k.
Qed.
Lemma np_put_tail {A} (l : list A) n m (vals : list A) : 0 <= n -> n + zlen vals <= zlen l -> m = (Z.to_nat n + length vals)%nat -> take m (np_put l n vals) = take (Z.to_nat n) l ++ vals.
Proof. intros Hn Hl ->. rewrite <- (take_np_put l vals n (n + zlen vals) Hn Hl eq_refl). f_equal. unfold zlen. lia. Qed.

Lemma fill_row_spec r outs row n : length_from_prompt_token_ids_or_embeds (cr_prompt_token_ids r) (cr_prompt_embeds r) = Ok n -> cr_num_prompt_tokens r = n ->
  n + zlen outs <= Z.of_nat L -> row_ok L row ->
  exists row' prompt, fill_row r outs row = Ok row' /\ row_ok L row' /\ zlen prompt = n /\ (forall l, cr_prompt_token_ids r = Some l -> prompt = l) /\
    row' = mkRow (token_ids_cpu row') (is_token_ids row') (n + zlen outs) n (cr_num_computed_tokens r) (request_lora_mapping row) (logits_processing_needs_token_ids row) (samp row) /\
    take (active row' []) (token_ids_cpu row') = prompt ++ outs /\
    take (active row' []) (is_token_ids row') = replicate (Z.to_nat n) (match cr_prompt_token_ids r with Some _ => true | None => false end) ++ replicate (length outs) true.
Proof.
  intros Hlen Hn Hfit [H1 H2]. destruct (length_from_len _ _ _ Hlen) as (Hl1 & Hl2 & Hn0). pose proof (zlen_nonneg outs) as Ho. unfold fill_row. rewrite Hlen. cbn [rbind].
  assert (exists ids, match cr_prompt_token_ids r with Some l => np_assign (token_ids_cpu row) 0 n l | None => Ok (token_ids_cpu row) end = Ok ids /\ length ids = L /\ forall l, cr_prompt_token_ids r = Some l -> take (Z.to_nat n) ids = l) as (ids & -> & Hil & Hip).
  { destruct (cr_prompt_token_ids r) as [l|]; [| by eexists]. specialize (Hl1 l eq_refl). subst n. exists (np_put (token_ids_cpu row) 0 l).
    rewrite Hl1 in *. assert (zlen l <= zlen (token_ids_cpu row)) by (unfold zlen in *; lia). rewrite np_assign_in by lia. split; [done |]. split; [by rewrite length_np_put by lia |].
    intros ? [= <-]. rewrite (take_np_put _ l 0) by lia. done. }
  cbn [rbind]. assert (zlen ids = Z.of_nat L) as Hzi by (unfold zlen; lia). rewrite np_assign_in by lia. cbn [rbind]. set (f := match cr_prompt_token_ids r with Some _ => true | None => false end).
  assert (length (np_fill (is_token_ids row) 0 n f) = L) as Hfl by (rewrite length_np_fill; [lia | lia | unfold zlen; lia]). eexists _, (take (Z.to_nat n) ids). split; [done |]. unfold cr_num_tokens. rewrite Hn.
  assert (active (mkRow (np_put ids n outs) (np_fill (np_fill (is_token_ids row) 0 n f) n (n + zlen outs) true) (n + zlen outs) n (cr_num_computed_tokens r) (request_lora_mapping row) (logits_processing_needs_token_ids row) (samp row)) [] = (Z.to_nat n + length outs)%nat) as Ha
    by (unfold active, zlen in *; simpl; lia).
  split_and!.
  - split; simpl; [rewrite length_np_put by lia; done | rewrite length_np_fill; [done | lia | unfold zlen in *; lia]].
  - unfold zlen. rewrite length_take. unfold zlen in *. lia.
  - done.
  - done.
  - rewrite Ha. apply np_put_tail; lia.
  - rewrite Ha. cbn [is_token_ids]. rewrite np_fill_in by (unfold zlen in *; lia). assert (Z.to_nat (n + zlen outs - n) = length outs) as -> by (unfold zlen; lia).
    rewrite np_put_tail; [| lia | unfold zlen in *; rewrite length_replicate; lia | by rewrite length_replicate]. f_equal.
    rewrite np_fill_in by (unfold zlen in *; lia). rewrite Z.sub_0_r. rewrite (take_np_put _ _ 0); [done | lia | |]; unfold zlen in *; rewrite length_replicate; lia.
Qed.

Lemma allow_tokens_ok (mask : list bool) l : Forall (fun t => - zlen mask <= t < zlen mask) l -> exists m, allow_tokens mask l = Ok m.
Proof.
  intros Hl. remember (zlen mask) as n eqn:En. revert mask En. induction Hl as [|t l Ht Hl IH]; intros mask En; [by exists mask |]. simpl. unfold py_set. rewrite <- En.
  case_match eqn:E; [destruct (t <? 0) eqn:E0; apply orb_true_iff in E as [E | E]; lia |]. cbn [rbind]. apply IH. unfold zlen. rewrite length_insert. exact En.
Qed.
Lemma samp_row_spec vocab sp s : Forall (fun t => - vocab <= t < vocab) (sp_allowed_token_ids sp) ->
  exists s', samp_row vocab sp s = Ok s' /\ copy_samp [] (set_accepted 1 s') = samp_of vocab sp.
Proof.
  intros Hl. unfold samp_row. assert (exists m, match sp_allowed_token_ids sp with [] => Ok (allowed_token_ids_mask s) | l => allow_tokens (replicate (Z.to_nat vocab) true) l end = Ok m) as [m Hm].
  { destruct (sp_allowed_token_ids sp) as [|t l] eqn:E; [by eexists |]. apply allow_tokens_ok. rewrite Forall_forall in *. intros x Hx. specialize (Hl x Hx). unfold zlen. rewrite length_replicate. lia. }
  rewrite Hm. cbn [rbind]. by eexists.
Qed.

(** The columns and sets for the parameters of a request *)
Record with_params (i : nat) r (row row' : Row) b b' (D : gset string) : Prop := {
  wp_row : row' = mkRow (token_ids_cpu row) (is_token_ids row) (num_tokens_no_spec row) (num_prompt_tokens row) (num_computed_tokens_cpu row) (request_lora_mapping row) (logits_processing_needs_token_ids row') (samp row');
  wp_samp : is_pooling_model (ib_config b) = false -> exists sp, cr_sampling_params r = Some sp /\ copy_samp [] (set_accepted 1 (samp row')) = samp_of (vocab_size (ib_config b)) sp /\
    bad_words_token_ids (index_dicts b') = match sp_bad_words_token_ids sp with [] => bad_words_token_ids (index_dicts b) | l => <[i := l]> (bad_words_token_ids (index_dicts b)) end;
  wp_gens : is_pooling_model (ib_config b) = false -> generators (index_dicts b') = match cr_generator r with Some g => <[i := g]> (generators (index_dicts b)) | None => generators (index_dicts b) end;
  wp_embeds : req_prompt_embeds (index_dicts b') = req_prompt_embeds (index_dicts b);
  wp_rest : b' = with_id_state (id_sets b') (id_dicts b') (lora b) (prev_req_id_to_index b) (with_rows (rows b) (ib_block_table b) (index_dicts b') (allowed_mask_allocated b') b);
  wp_sets : sets_within (if is_pooling_model (ib_config b) then ∅ else D) (id_sets b) -> (cr_req_id r ∉ D) -> sets_within (if is_pooling_model (ib_config b) then ∅ else {[cr_req_id r]} ∪ D) (id_sets b');
  wp_dicts : dicts_within (is_pooling_model (ib_config b)) D (id_dicts b) -> dicts_within (is_pooling_model (ib_config b)) ({[cr_req_id r]} ∪ D) (id_dicts b');
}.
Lemma set_if_subseteq (c : bool) (rid : string) (s D : gset string) : s ⊆ D -> set_if c rid s ⊆ {[rid]} ∪ D.
Proof. destruct c; simpl; set_solver. Qed.
Lemma dom_opt_insert {A} (o : option A) k (m : gmap string A) (D : gset string) : dom m ⊆ D -> dom (match o with Some x => <[k := x]> m | None => m end) ⊆ {[k]} ∪ D.
Proof. destruct o; rewrite ?dom_insert_L; set_solver. Qed.
Lemma add_params_spec ts i r outs row b D : addable (ib_config b) ts r outs -> exists row' b', add_params i r row b = Ok (row', b') /\ with_params i r row row' b b' D.
Proof.
  intros [_ _ _ Hp _]. unfold add_params. destruct (is_pooling_model (ib_config b)) eqn:Ep.
  - destruct Hp as (-> & [pp Hpp] & [ps Hps]). rewrite Hpp, Hps. eexists _, _. split; [done |]. split; rewrite ?Ep; try done.
    + intros (H1 & H2 & H3 & H4). split_and!; simpl; rewrite ?dom_insert_L; set_solver.
  - destruct Hp as (sp & Hsp & Hall). rewrite Hsp. destruct (samp_row_spec (vocab_size (ib_config b)) sp (samp row) Hall) as (s' & Hs & Heq). rewrite Hs. cbn [rbind].
    eexists _, _. split; [done |]. split; rewrite ?Ep; try done.
    + intros _. exists sp. exact (conj Hsp (conj Heq eq_refl)).
    + intros (H1 & H2 & H3 & H4 & H5 & H6 & H7 & H8) HD. split_and!; simpl; try (by apply set_if_subseteq); destruct (sp_greedy sp); simpl; set_solver.
    + intros (H1 & H2 & H3 & H4). split_and!; simpl; try done; [destruct (sp_logprobs sp) | destruct (sp_logprob_token_ids sp)]; rewrite ?dom_insert_L; set_solver.
Qed.

(** The lists when a request gets index [i] *)
Definition put_at {A} (i : nat) (x : A) (l l' : list A) : Prop := length l' = Nat.max (S i) (length l) /\ forall k, l' !! k = if bool_decide (k = i) then Some x else l !! k.
Lemma put_at_intro {A} i (x : A) l : (i <= length l)%nat -> put_at i x l (if bool_decide (i = length l) then l ++ [x] else <[i := x]> l).
Proof.
  intros Hi. case_bool_decide as E; (split; [rewrite ?length_app, ?length_insert; simpl; lia |]); intros k; case_bool_decide as Ek.
  - subst. by rewrite lookup_app_r, Nat.sub_diag by lia.
  - destruct (decide (k < length l)%nat); [by rewrite lookup_app_l |]. rewrite (lookup_ge_None_2 l) by lia. apply lookup_ge_None_2. rewrite length_app. simpl. lia.
  - subst. apply list_lookup_insert_eq. lia.
  - by rewrite list_lookup_insert_ne.
Qed.
Lemma put_request_spec H i r b : ib_ok L H b -> (i <= length (_req_ids b))%nat ->
  exists ids os specs, put_request i r b = Ok (with_ids ids (<[cr_req_id r := i]> (req_id_to_index b)) os specs b) /\
    put_at i (Some (cr_req_id r)) (_req_ids b) ids /\ put_at i (Some (cr_output_token_ids r)) (req_output_token_ids b) os /\
    specs !! i = Some [] /\ (length ids <= length specs)%nat /\ (forall k, k <> i -> (k < length (_req_ids b))%nat -> specs !! k = spec_token_ids b !! k) /\
    (forall k s, (length ids <= k)%nat -> specs !! k = Some s -> s = []).
Proof.
  intros Hb Hi. pose proof (ok_outs _ _ _ Hb) as Ho. pose proof (ok_specs _ _ _ Hb) as Hs. pose proof (ok_unused _ _ _ Hb) as Hu. pose proof (put_at_intro i (Some (cr_req_id r)) _ Hi) as P.
  assert (i <= length (req_output_token_ids b))%nat as Hi2 by lia. pose proof (put_at_intro i (Some (cr_output_token_ids r)) _ Hi2) as Q. unfold put_request. rewrite Ho in Q. case_bool_decide as E.
  - eexists _, _, _. split; [done |]. split_and!; try done; rewrite ?length_app; simpl; try lia.
    + destruct (decide (i < length (spec_token_ids b))%nat) as [Hlt |]; [| rewrite lookup_app_r by lia; replace (i - length (spec_token_ids b))%nat with 0%nat by lia; done].
      rewrite lookup_app_l by done. destruct (lookup_lt_is_Some_2 _ _ Hlt) as [s Hsp]. rewrite Hsp. f_equal. apply (Hu i s); [lia | done].
    + intros k Hk1 Hk2. apply lookup_app_l. lia.
    + intros k s Hk [Hx | [Hge Hx]]%lookup_app_Some; [by apply (Hu k s); [lia |] |]. apply list_lookup_singleton_Some in Hx. by destruct Hx.
  - rewrite !np_set_lt by lia. cbn [rbind]. eexists _, _, _. split; [done |]. rewrite length_insert. split_and!; try done; rewrite ?length_insert; try lia.
    + apply list_lookup_insert_eq. lia.
    + intros k Hk _. by apply list_lookup_insert_ne.
    + intros k s Hk. rewrite list_lookup_insert_ne by lia. apply Hu. lia.
Qed.

(** The result of adding a request at index [i], field by field *)
Record inserted (i : nat) r outs (row' : Row) b b' : Prop := {
  in_config : ib_config b' = ib_config b;
  in_ids : put_at i (Some (cr_req_id r)) (_req_ids b) (_req_ids b');
  in_index : req_id_to_index b' = <[cr_req_id r := i]> (req_id_to_index b);
  in_outs : put_at i (Some (cr_output_token_ids r)) (req_output_token_ids b) (req_output_token_ids b');
  in_spec : spec_token_ids b' !! i = Some [];
  in_specs : forall k, k <> i -> (k < length (_req_ids b))%nat -> spec_token_ids b' !! k = spec_token_ids b !! k;
  in_specs_len : (length (_req_ids b') <= length (spec_token_ids b'))%nat;
  in_unused : forall k s, (length (_req_ids b') <= k)%nat -> spec_token_ids b' !! k = Some s -> s = [];
  in_rows : rows b' = <[i := row']> (rows b);
  in_row_ok : row_ok L row' /\ num_tokens_no_spec row' = cr_num_prompt_tokens r + zlen outs;
  in_tables : rows_written (ib_max_num_reqs (ib_config b)) (ib_block_table b) i (kernel_rows (ib_block_table b) (cr_block_ids r)) (ib_block_table b');
  in_embeds : req_prompt_embeds (index_dicts b') = match cr_prompt_embeds r with Some e => <[i := e]> (req_prompt_embeds (index_dicts b)) | None => req_prompt_embeds (index_dicts b) end;
  in_dicts_ne : is_pooling_model (ib_config b) = false -> forall k, k <> i -> generators (index_dicts b') !! k = generators (index_dicts b) !! k /\ bad_words_token_ids (index_dicts b') !! k = bad_words_token_ids (index_dicts b) !! k;
  in_view : exists v, view_at b' i = Some v /\ fresh_view b r outs v;
  in_lora : lora b' = add_lora r (lora b);
  in_sets : sets_within (if is_pooling_model (ib_config b) then ∅ else dom (req_id_to_index b')) (id_sets b');
  in_dicts : dicts_within (is_pooling_model (ib_config b)) (dom (req_id_to_index b')) (id_dicts b');
}.
Lemma register_spec H r b : ib_ok L H b -> removed_ok H b -> (num_reqs b < ib_max_num_reqs (ib_config b))%nat ->
  exists i K u, _register_add_request r b = Ok (i, with_builder u b) /\ removed_ok K (with_builder u b) /\ (H ≡ₚ i :: K \/ H = [] /\ K = [] /\ i = length (_req_ids b)) /\
    (i <= length (_req_ids b))%nat /\ (i < ib_max_num_reqs (ib_config b))%nat /\ mjoin (_req_ids b !! i) = None.
Proof.
  intros Hb [HR Hs] Hroom. pose proof (ok_count _ _ _ Hb) as Hc. pose proof (ok_len _ _ _ Hb) as Hl. pose proof (pop_removed_spec H _ HR Hs) as Hpop. unfold _register_add_request.
  destruct (pop_removed (batch_update_builder b)) as [[e|] u]; cbn [fst snd default].
  - destruct Hpop as (K & Hp & HK & Hsrt). assert (_req_ids b !! e = Some None) as He by (apply (ok_holes _ _ _ Hb); rewrite Hp; left). destruct (ok_lt _ _ _ _ _ Hb He) as [H1 H2].
    simpl. rewrite bool_decide_eq_true_2 by done. cbn [rassert rbind]. eexists e, K, _. split; [done |]. split_and!; [exact (conj HK (fun _ => Hsrt)) | by left | lia | done | by rewrite He].
  - destruct Hpop as [-> ->]. simpl in Hc |- *. rewrite bool_decide_eq_true_2 by done. cbn [rassert rbind]. eexists (num_reqs b), [], _. split; [done |].
    split_and!; [exact (conj HR Hs) | right; split_and!; [done | done | lia] | lia | done |]. by rewrite lookup_ge_None_2 by lia.
Qed.

Lemma view_of_row D i r outs row row' b b' prompt blocks : is_pooling_model (ib_config b') = is_pooling_model (ib_config b) ->
  length_from_prompt_token_ids_or_embeds (cr_prompt_token_ids r) (cr_prompt_embeds r) = Ok (cr_num_prompt_tokens r) -> with_params i r row row' b b' D ->
  num_tokens_no_spec row = cr_num_prompt_tokens r + zlen outs -> num_prompt_tokens row = cr_num_prompt_tokens r -> num_computed_tokens_cpu row = cr_num_computed_tokens r ->
  take (active row []) (token_ids_cpu row) = prompt ++ outs ->
  take (active row []) (is_token_ids row) = replicate (Z.to_nat (cr_num_prompt_tokens r)) (match cr_prompt_token_ids r with Some _ => true | None => false end) ++ replicate (length outs) true ->
  (is_pooling_model (ib_config b) = false -> generators (index_dicts b) !! i = None /\ bad_words_token_ids (index_dicts b) !! i = None) ->
  row_view (is_pooling_model (ib_config b)) (mkRow (token_ids_cpu row') (is_token_ids row') (num_tokens_no_spec row') (num_prompt_tokens row') (num_computed_tokens_cpu row') (lora_of r) (logits_processing_needs_token_ids row') (set_accepted 1 (samp row')))
    [] blocks (generators (index_dicts b') !! i) (bad_words_token_ids (index_dicts b') !! i) (match cr_prompt_embeds r with Some e => Some e | None => req_prompt_embeds (index_dicts b) !! i end) (Some (cr_output_token_ids r))
  = mkView (prompt ++ outs) (replicate (Z.to_nat (cr_num_prompt_tokens r)) (match cr_prompt_token_ids r with Some _ => true | None => false end) ++ replicate (length outs) true)
      (cr_num_prompt_tokens r + zlen outs) (cr_num_prompt_tokens r) (cr_num_computed_tokens r) (lora_of r)
      (match (if is_pooling_model (ib_config b) then None else cr_sampling_params r) with Some p => samp_of (vocab_size (ib_config b)) p | None => empty_samp end) blocks
      (if is_pooling_model (ib_config b) then None else cr_generator r)
      (p ← (if is_pooling_model (ib_config b) then None else cr_sampling_params r); match sp_bad_words_token_ids p with [] => None | l => Some l end)
      (if match cr_prompt_token_ids r with Some _ => true | None => false end then None else if cr_num_prompt_tokens r =? 0 then None else cr_prompt_embeds r) [] (Some (cr_output_token_ids r)).
Proof.
  intros Ep Hlen Hw Hc1 Hc2 Hc3 Htok Hids Hfree. destruct (length_from_len _ _ _ Hlen) as (Hl1 & Hl2 & Hn0). set (n := cr_num_prompt_tokens r) in *.
  pose proof (wp_row _ _ _ _ _ _ _ Hw) as Hrow'. assert (active row' [] = active row []) as Ha by (unfold active; rewrite Hrow'; done). unfold row_view. cbn [token_ids_cpu is_token_ids num_tokens_no_spec num_prompt_tokens num_computed_tokens_cpu request_lora_mapping samp].
  unfold active in *. cbn [num_tokens_no_spec]. rewrite Ha. rewrite Hrow'. cbn [token_ids_cpu is_token_ids num_tokens_no_spec num_prompt_tokens num_computed_tokens_cpu samp]. rewrite Htok, Hids.
  rewrite Hc1, Hc2, Hc3.
  f_equal.
  - destruct (is_pooling_model (ib_config b)) eqn:E; [done |]. destruct (wp_samp _ _ _ _ _ _ _ Hw E) as (sp & -> & Hsamp & _). exact Hsamp.
  - destruct (is_pooling_model (ib_config b)) eqn:E; [done |]. rewrite (wp_gens _ _ _ _ _ _ _ Hw E). destruct (Hfree eq_refl) as [Hg _]. destruct (cr_generator r); [by rewrite lookup_insert_eq | done].
  - destruct (is_pooling_model (ib_config b)) eqn:E; [done |]. destruct (wp_samp _ _ _ _ _ _ _ Hw E) as (sp & -> & _ & ->). destruct (Hfree eq_refl) as [_ Hg]. simpl. destruct (sp_bad_words_token_ids sp); [done | by rewrite lookup_insert_eq].
  - unfold read_embeds. rewrite take_app_length' by (by rewrite length_replicate). destruct (cr_prompt_token_ids r) as [l|].
    + assert (forallb id (replicate (Z.to_nat n) true) = true) as -> by (clear; induction (Z.to_nat n); done). done.
    + destruct (Hl2 eq_refl) as (e & -> & Hn). destruct (Z.eqb_spec n 0) as [Hz | Hz]; [by rewrite Hz |]. replace (Z.to_nat n) with (S (Z.to_nat n - 1)) by lia. done.
Qed.

Lemma add_run H r outs b : ib_ok L H b -> by_id_ok b -> removed_ok H b -> (num_reqs b < ib_max_num_reqs (ib_config b))%nat -> req_id_to_index b !! cr_req_id r = None ->
  addable (ib_config b) (ib_block_table b) r outs ->
  exists i K row' b', ib_add_request r outs b = Ok (i, b') /\ removed_ok K b' /\ (H ≡ₚ i :: K \/ H = [] /\ K = [] /\ i = length (_req_ids b)) /\ (i < ib_max_num_reqs (ib_config b))%nat /\ inserted i r outs row' b b'.
Proof.
  intros Hb [Hlo Hs Hd] Hrm Hroom Hnew Had. destruct (register_spec H r b Hb Hrm Hroom) as (i & K & u & Hreg & HK & HH & Hi & Him & Hfree).
  destruct (put_request_spec H i r (with_builder u b) (with_builder_ok L u H b Hb) Hi) as (ids & os & specs & Hput & P1 & P2 & P3 & P4 & P5 & P6).
  assert (i < length (rows b))%nat as Hir by (rewrite (ok_rows _ _ _ Hb); done). destruct (np_get_lt _ _ Hir) as (row0 & Hrow0 & Hget). pose proof (Forall_lookup_1 _ _ _ _ (ok_row _ _ _ Hb) Hrow0) as Hrok0.
  destruct (fill_row_spec r outs row0 _ (ad_len _ _ _ _ Had) eq_refl (ad_fit _ _ _ _ Had) Hrok0) as (row & prompt & Hfill & Hrok & Hpl & Hpp & Hrow & Htok & Hisk).
  destruct (mg_add_spec _ (ib_block_table b) i (cr_block_ids r) (ok_tables _ _ _ Hb) Him (ad_blocks _ _ _ _ Had)) as (ts & Hts & Hw).
  unfold ib_add_request. rewrite Hreg. cbn [rbind fst snd]. rewrite Hput. cbn [rbind]. simpl rows. rewrite Hget. cbn [rbind]. rewrite Hfill. cbn [rbind]. simpl ib_block_table. rewrite Hts. cbn [rbind].
  match goal with |- context [add_params i r row ?bb] => set (b1 := bb) end.
  destruct (add_params_spec (ib_block_table b) i r outs row b1 (dom (req_id_to_index b)) Had) as (row1 & b2 & Hpar & Hwp). rewrite Hpar. cbn [rbind fst snd].
  pose proof (wp_rest _ _ _ _ _ _ _ Hwp) as Hb2. assert (rows b2 = rows b) as Hrs by (rewrite Hb2; done). rewrite Hrs. rewrite np_set_lt by done. cbn [rbind].
  eexists i, K, _, _. split; [done |]. assert (removed_ok K b2) as HK2 by (rewrite Hb2; exact HK). split_and!; try done.
  assert (ib_config b2 = ib_config b /\ _req_ids b2 = ids /\ req_id_to_index b2 = <[cr_req_id r := i]> (req_id_to_index b) /\ req_output_token_ids b2 = os /\ spec_token_ids b2 = specs /\ ib_block_table b2 = ts /\ lora b2 = lora b)
    as (E1 & E2 & E3 & E4 & E5 & E6 & E7) by (rewrite Hb2; split_and!; reflexivity). clear Hb2.
  assert (forall k, generators (index_dicts b) !! k = generators (index_dicts b1) !! k /\ bad_words_token_ids (index_dicts b) !! k = bad_words_token_ids (index_dicts b1) !! k) as Hg by done.
  assert (cr_req_id r ∉ dom (req_id_to_index b)) as Hnd by (by apply not_elem_of_dom).
  split; simpl; rewrite ?E1, ?E2, ?E3, ?E4, ?E5, ?E6, ?E7, ?dom_insert_L; try done.
  - rewrite (wp_row _ _ _ _ _ _ _ Hwp). split; [exact Hrok | simpl]. by rewrite Hrow.
  - rewrite (wp_embeds _ _ _ _ _ _ _ Hwp). done.
  - intros Hp k Hk. destruct (wp_samp _ _ _ _ _ _ _ Hwp Hp) as (sp & _ & _ & ->). rewrite (wp_gens _ _ _ _ _ _ _ Hwp Hp). split; [destruct (cr_generator r) | destruct (sp_bad_words_token_ids sp)]; try done; by rewrite lookup_insert_ne.
  - unfold view_at. simpl. rewrite ?E1, ?E4, ?E5, ?E6. rewrite list_lookup_insert_eq by done. rewrite P3. cbn -[row_view]. destruct Hw as (_ & _ & Hbl & _). rewrite Hbl. cbn -[row_view]. eexists. split; [done |].
    exists prompt. split; [done |]. split; [done |]. destruct P2 as [_ P2]. rewrite P2, bool_decide_eq_true_2 by done. cbn -[row_view].
    etransitivity; [| apply (view_of_row _ i r outs row row1 b1 b2 prompt _ ltac:(by rewrite E1) (ad_len _ _ _ _ Had) Hwp); [by rewrite Hrow | by rewrite Hrow | by rewrite Hrow | exact Htok | exact Hisk |]].
    + change (is_pooling_model (ib_config b1)) with (is_pooling_model (ib_config b)). f_equal. rewrite (wp_embeds _ _ _ _ _ _ _ Hwp). simpl. destruct (cr_prompt_embeds r); [by rewrite lookup_insert_eq | done].
    + intros Hp. exact (ok_free _ _ _ Hb i Hp Hfree).
  - apply (wp_sets _ _ _ _ _ _ _ Hwp); done.
  - by apply (wp_dicts _ _ _ _ _ _ _ Hwp).
Qed.

Lemma indexed_put idx (ids ids' : list (option string)) i rid : indexed idx ids -> idx !! rid = None -> mjoin (ids !! i) = None -> put_at i (Some rid) ids ids' -> indexed (<[rid := i]> idx) ids'.
Proof.
  intros Hx Hn Hf [_ Hp] r k. rewrite Hp. destruct (decide (r = rid)) as [-> | Hr]; [rewrite lookup_insert_eq | rewrite lookup_insert_ne by done]; case_bool_decide as Hk.
  - subst. done.
  - split; [congruence |]. intros E%Hx. congruence.
  - subst. split; [intros E%Hx; by rewrite E in Hf | congruence].
  - apply Hx.
Qed.
(** The index of the new request *)
Definition taken (H K : list nat) (n i : nat) : Prop := H ≡ₚ i :: K \/ H = [] /\ K = [] /\ i = n.
Lemma taken_free H K b i : ib_ok L H b -> taken H K (length (_req_ids b)) i -> mjoin (_req_ids b !! i) = None /\ (i <= length (_req_ids b))%nat /\ (Nat.max (S i) (length (_req_ids b)) + length H = length (_req_ids b) + S (length K))%nat.
Proof.
  intros Hb [Hp | (-> & -> & ->)].
  - assert (_req_ids b !! i = Some None) as Hi by (apply (ok_holes _ _ _ Hb); rewrite Hp; left). rewrite Hi. apply lookup_lt_Some in Hi. apply Permutation_length in Hp. simpl in Hp. split; [done | lia].
  - rewrite lookup_ge_None_2 by lia. split; [done |]. simpl. lia.
Qed.
Lemma taken_holes H K b i x ids : ib_ok L H b -> taken H K (length (_req_ids b)) i -> put_at i (Some x) (_req_ids b) ids -> (forall k, ids !! k = Some None <-> k ∈ K) /\ NoDup K.
Proof.
  intros Hb HH [_ Hp]. pose proof (ok_nodup _ _ _ Hb) as Hnd. destruct HH as [Hpm | (-> & -> & ->)].
  - rewrite Hpm in Hnd. apply NoDup_cons in Hnd as [Hi HK]. split; [| done]. intros k. rewrite Hp. case_bool_decide as Hk; [subst; split; done |]. rewrite (ok_holes _ _ _ Hb), Hpm, elem_of_cons. tauto.
  - split; [| constructor]. intros k. rewrite Hp. case_bool_decide as Hk; [split; [done | by intros ?%elem_of_nil] |]. apply (ok_holes _ _ _ Hb).
Qed.

(** A request without embeddings has token ids everywhere. *)
Lemma inserted_no_embeds i r outs row' b b' : inserted i r outs row' b b' -> (i < length (rows b))%nat -> length_from_prompt_token_ids_or_embeds (cr_prompt_token_ids r) (cr_prompt_embeds r) = Ok (cr_num_prompt_tokens r) ->
  cr_prompt_embeds r = None -> ~ reads_embeds row' [].
Proof.
  intros [] Hi Hlen He. destruct (length_from_len _ _ _ Hlen) as (_ & Hids & _). destruct in_view0 as (v & Hv & prompt & _ & _ & ->). unfold view_at in Hv. rewrite in_rows0, in_spec0, list_lookup_insert_eq in Hv by done.
  apply (f_equal (fmap v_is_ids)) in Hv. destruct (blocks_at _ i); [| done]. cbn in Hv. injection Hv as Hv. unfold reads_embeds. rewrite Hv. destruct (cr_prompt_token_ids r); [| by destruct (Hids eq_refl) as (? & ? & _); congruence].
  rewrite <- replicate_add, take_replicate. intros Hf. enough (forall n, forallb id (replicate n true) = true) as E by (by rewrite E in Hf). clear. intros n. by induction n.
Qed.

Lemma inserted_ok H K i r outs row' b b' : ib_ok L H b -> req_id_to_index b !! cr_req_id r = None -> addable (ib_config b) (ib_block_table b) r outs -> taken H K (length (_req_ids b)) i -> (i < ib_max_num_reqs (ib_config b))%nat ->
  inserted i r outs row' b b' -> ib_ok L K b'.
Proof.
  intros Hb Hnew Had HH Him Hins. destruct (Hins). destruct (taken_free _ _ _ _ Hb HH) as (Hfree & Hi & Hcount). destruct (taken_holes _ _ _ _ _ _ Hb HH in_ids0) as [Hholes Hnd]. destruct in_ids0 as [Hlen Hat], in_outs0 as [Hol Hoat].
  pose proof (ok_count _ _ _ Hb) as Hc. pose proof (ok_len _ _ _ Hb) as Hl. pose proof (ok_outs _ _ _ Hb) as Ho. destruct (length_from_len _ _ _ (ad_len _ _ _ _ Had)) as (_ & _ & Hn0). pose proof (ad_fit _ _ _ _ Had) as Hfit. pose proof (zlen_nonneg outs) as Hz.
  split; rewrite ?in_config0; try done.
  - rewrite in_index0. exact (indexed_put _ _ _ _ _ (ok_index _ _ _ Hb) Hnew Hfree (conj Hlen Hat)).
  - unfold num_reqs in *. rewrite in_index0, map_size_insert, Hnew, Hlen. lia.
  - lia.
  - lia.
  - rewrite in_rows0, length_insert. apply (ok_rows _ _ _ Hb).
  - apply in_tables0.
  - rewrite in_rows0. apply Forall_insert; [apply (ok_row _ _ _ Hb) | apply in_row_ok0].
  - intros k rid row specs. rewrite Hat, in_rows0, in_embeds0. case_bool_decide as Hk.
    + subst k. intros _. rewrite list_lookup_insert_eq by (rewrite (ok_rows _ _ _ Hb); done). intros [= <-]. rewrite in_spec0. intros [= <-]. destruct in_row_ok0 as [_ Hnt].
      split; [split; [lia | unfold active; rewrite Hnt; unfold zlen in *; simpl; lia] |]. destruct (cr_prompt_embeds r) as [e|] eqn:Ee; [rewrite lookup_insert_eq; by eexists |].
      intros Hre. destruct (inserted_no_embeds _ _ _ _ _ _ Hins ltac:(rewrite (ok_rows _ _ _ Hb); done) (ad_len _ _ _ _ Had) Ee Hre).
    + intros Hid. rewrite list_lookup_insert_ne by done. apply lookup_lt_Some in Hid as Hkl. rewrite in_specs0 by done. intros Hr Hs. destruct (ok_active _ _ _ Hb k rid row specs Hid Hr Hs) as [Ha He]. split; [done |].
      intros Hre. destruct (cr_prompt_embeds r); [rewrite lookup_insert_ne by done |]; by apply He.
  - intros k Hp. rewrite Hat. case_bool_decide as Hk; [done |]. intros Hj. destruct (in_dicts_ne0 Hp k Hk) as [-> ->]. by apply (ok_free _ _ _ Hb).
Qed.
Lemma inserted_views H i r outs row' b b' : ib_ok L H b -> req_id_to_index b !! cr_req_id r = None -> mjoin (_req_ids b !! i) = None -> inserted i r outs row' b b' ->
  (exists v, view b' (cr_req_id r) = Some v /\ fresh_view b r outs v) /\ forall x, x <> cr_req_id r -> view b' x = view b x.
Proof.
  intros Hb Hnew Hfree []. unfold view. rewrite in_index0, lookup_insert_eq. split; [done |]. intros x Hx. rewrite lookup_insert_ne by done. destruct (req_id_to_index b !! x) as [k|] eqn:E; [| done]. simpl.
  apply (ok_index _ _ _ Hb) in E. assert (k <> i) as Hk by (intros ->; by rewrite E in Hfree). apply lookup_lt_Some in E. destruct in_outs0 as [_ Ho], in_tables0 as (_ & _ & _ & Hbl).
  unfold view_at. rewrite in_rows0, in_config0, in_specs0, Ho, bool_decide_eq_false_2, list_lookup_insert_ne, Hbl by done. destruct (rows b !! k); [| done]. destruct (spec_token_ids b !! k); [| done]. destruct (blocks_at _ k); [| done].
  cbn -[row_view]. f_equal. rewrite in_embeds0. etransitivity; [apply row_view_pooling; intros Hp; exact (in_dicts_ne0 Hp k Hk) |]. f_equal. destruct (cr_prompt_embeds r); [by rewrite lookup_insert_ne | done].
Qed.

(** A batch to which requests can be added *)
Definition filling b : Prop := exists H, ib_ok L H b /\ by_id_ok b /\ removed_ok H b.
Lemma open_filling b : open_batch L b -> filling b.
Proof. intros (H & Hb & Hid & Ho & Hf). exists H. split_and!; try done. split; [done | congruence]. Qed.

Lemma add_spec r outs b : filling b -> (num_reqs b < ib_max_num_reqs (ib_config b))%nat -> req_id_to_index b !! cr_req_id r = None -> addable (ib_config b) (ib_block_table b) r outs ->
  exists i b', ib_add_request r outs b = Ok (i, b') /\ filling b' /\ same_shape b b' /\ req_id_to_index b' = <[cr_req_id r := i]> (req_id_to_index b) /\
    (exists v, view b' (cr_req_id r) = Some v /\ fresh_view b r outs v) /\ forall x, x <> cr_req_id r -> view b' x = view b x.
Proof.
  intros (H & Hb & Hid & Hrm) Hroom Hnew Had. destruct (add_run H r outs b Hb Hid Hrm Hroom Hnew Had) as (i & K & row' & b' & Hrun & HK & HH & Him & Hins). exists i, b'.
  destruct (taken_free H K b i Hb HH) as (Hfree & _ & _). destruct (inserted_views _ _ _ _ _ _ _ Hb Hnew Hfree Hins) as [(v & Hv & Hfresh) Hne]. pose proof (inserted_ok _ _ _ _ _ _ _ _ Hb Hnew Had HH Him Hins) as Hb'.
  destruct Hins. split_and!; try done; [| exact (conj in_config0 (proj1 (proj2 in_tables0))) | by exists v]. exists K. split_and!; try done. split; rewrite ?in_config0; try done. rewrite in_lora0.
  eapply lora_inv_ext; [| apply (add_lora_spec _ _ r (bi_lora _ Hid)); [unfold view; by rewrite Hnew | apply Had]]. intros x. simpl. case_bool_decide as Hx; [subst x; rewrite Hv | by rewrite Hne].
  destruct Hfresh as (prompt & _ & _ & ->). done.
Qed.
End add.
