(* ===== verification/WorkerProps.v ===== *)
(** * WorkerProps
    Slots of compacted rows, and properties of the worker: the persistent batch, its
    reordering and the compaction of long requests. At the end, behaviour of the persistent
    batch that loses data of a request, on concrete batches. *)
From Stdlib Require Import QArith_base.
From stdpp Require Import sorting.
From S2P Require Import Prelude OrdDict KVCacheBlock Request CacheHit KVCacheInterface SizingInv WorkerBlockTable InputBatch ModelRunner InputBatchInv InputBatchReorder InputBatchStep.
(** The arrays of NELSSA have one entry per row. *)
Definition layout_ok (max : nat) (t : BlockTable) : Prop :=
  length (nelssa_compacted t) = max /\ length (nelssa_head_blocks t) = max /\ length (bt_nelssa_tail_blocks t) = max /\ length (bt_nelssa_tail_start_pos t) = max.
Definition virtual_block_size (t : BlockTable) : Z := bt_block_size t * (pcp_world_size t * dcp_world_size t).
(** The slot of an offset in a block *)
Definition place (t : BlockTable) (block offsets : Z) : Z :=
  let cp := pcp_world_size t * dcp_world_size t in
  let interleave := cp_kv_cache_interleave_size t in
  if (offsets / interleave) mod cp =? pcp_rank t * dcp_world_size t + dcp_rank t
  then block * bt_block_size t + (offsets / (cp * interleave) * interleave + offsets mod interleave) else PAD_SLOT_ID.

Lemma concat_lookup (rs : list (list Z)) W i j r : (forall k q, (k <= i)%nat -> rs !! k = Some q -> length q = W) -> rs !! i = Some r -> (j < W)%nat -> concat rs !! (i * W + j)%nat = r !! j.
Proof.
  revert i. induction rs as [|x rs IH]; intros i Hw Hi Hj; [done |]. simpl. destruct i as [|i].
  - injection Hi as ->. simpl. apply lookup_app_l. rewrite (Hw 0%nat r) by done. done.
  - assert (length x = W) as Hx by (apply (Hw 0%nat); [lia | done]). rewrite lookup_app_r by (rewrite Hx; nia). replace (S i * W + j - length x)%nat with (i * W + j)%nat by (rewrite Hx; nia).
    apply IH; [| done | done]. intros k q Hk. apply (Hw (S k)). lia.
Qed.

Section slots.
Context (max : nat).
Implicit Types (t : BlockTable).

(** The slot of a position whose block is in the row *)
Lemma slot_committed t k i row c h ts p : table_ok max t -> (i < k)%nat -> block_table t !! i = Some row ->
  nelssa_compacted t !! i = Some c -> nelssa_head_blocks t !! i = Some h -> bt_nelssa_tail_start_pos t !! i = Some ts ->
  let s := logical_slot c (h * virtual_block_size t) ts p in 0 <= s / virtual_block_size t < zlen row ->
  slot_id (commit_block_table k t) i p = (fun block => place t block (s mod virtual_block_size t)) <$> row !! Z.to_nat (s / virtual_block_size t).
Proof.
  intros Ht Hk Hrow Hc Hh Hts s Hs. pose proof (to_width _ _ Ht) as Hw. rewrite Forall_lookup in Hw. unfold slot_id. simpl. rewrite Hc, Hh, Hts. simpl. fold (virtual_block_size t). fold s.
  pose proof (Hw i row Hrow) as Hl. rewrite (concat_lookup _ _ i _ row).
  - by destruct (row !! Z.to_nat (s / virtual_block_size t)).
  - intros j q Hj. rewrite lookup_app_l by (rewrite length_take; apply lookup_lt_Some in Hrow; lia). rewrite lookup_take_lt by lia. intros Hq. pose proof (Hw j q Hq) as E. unfold zlen in E. lia.
  - rewrite lookup_app_l by (rewrite length_take; apply lookup_lt_Some in Hrow; lia). rewrite lookup_take_lt by lia. done.
  - unfold zlen in Hl, Hs. lia.
Qed.
(** In terms of the blocks of the row *)
Lemma slot_blocks t k i l c h ts p : table_ok max t -> (i < k)%nat -> row_blocks t i = Some l ->
  nelssa_compacted t !! i = Some c -> nelssa_head_blocks t !! i = Some h -> bt_nelssa_tail_start_pos t !! i = Some ts ->
  let s := logical_slot c (h * virtual_block_size t) ts p in 0 <= s / virtual_block_size t < zlen l ->
  slot_id (commit_block_table k t) i p = (fun block => place t block (s mod virtual_block_size t)) <$> l !! Z.to_nat (s / virtual_block_size t).
Proof.
  intros Ht Hk Hl Hc Hh Hts s Hs. unfold row_blocks in Hl. destruct (num_blocks_per_row t !! i) as [n|] eqn:En; [| done]. destruct (block_table t !! i) as [row|] eqn:Er; [| done]. injection Hl as <-.
  unfold zlen in Hs. rewrite length_take in Hs. rewrite (slot_committed t k i row c h ts p) by (done || (unfold zlen; fold s; lia)). fold s. by rewrite lookup_take_lt by lia.
Qed.

(** ** Compaction *)
Lemma set_layout_ok i c h tl ts t : layout_ok max t -> (i < max)%nat ->
  set_layout i c h tl ts t = Ok (with_layout (<[i := c]> (nelssa_compacted t)) (<[i := h]> (nelssa_head_blocks t)) (<[i := tl]> (bt_nelssa_tail_blocks t)) (<[i := ts]> (bt_nelssa_tail_start_pos t)) t).
Proof. intros (H1 & H2 & H3 & H4) Hi. unfold set_layout. by rewrite !np_set_lt by lia. Qed.

(** The blocks of the head, then those of the tail *)
Definition compacted_blocks (head tail : Z) (l : list Z) : list Z := take (Z.to_nat head) l ++ drop (Z.to_nat (zlen l - tail)) l.

(** [t'] is [t] with a layout, and the rows of a table. *)
Definition same_cache t t' : Prop :=
  virtual_block_size t' = virtual_block_size t /\ (forall b o, place t' b o = place t b o) /\ bt_max_num_blocks_per_req t' = bt_max_num_blocks_per_req t /\ forall ids, kernel_ids t' ids = kernel_ids t ids.

Lemma clear_middle_spec t i l head tail ts : table_ok max t -> layout_ok max t -> (i < max)%nat -> row_blocks t i = Some l -> nelssa_compacted t !! i = Some false ->
  0 <= head -> 0 <= tail -> head + tail <= zlen l -> 0 < zlen l -> 0 <= ts ->
  exists t', clear_middle_blocks i head tail ts t = Ok t' /\ table_ok max t' /\ layout_ok max t' /\ same_cache t t' /\ row_blocks t' i = Some (compacted_blocks head tail l) /\
    nelssa_compacted t' !! i = Some true /\ nelssa_head_blocks t' !! i = Some head /\ bt_nelssa_tail_start_pos t' !! i = Some ts /\ forall k, k <> i -> row_blocks t' k = row_blocks t k.
Proof.
  intros Ht Hlay Hi Hl Hc Hh Htl Hsum Hpos Hts. destruct (table_row max t i Ht Hi) as (n & r & Hn & Hr & Hb & Hw & Hrow). rewrite Hrow in Hl. injection Hl as <-.
  assert (zlen (take (Z.to_nat n) r) = n) as Hlen by (unfold zlen in *; rewrite length_take; lia). rewrite Hlen in *. unfold clear_middle_blocks.
  rewrite (proj2 (np_get_Ok _ _ _) Hn). cbn [rbind]. rewrite (proj2 (Z.eqb_neq n 0)) by lia. rewrite (proj2 (np_get_Ok _ _ _) Hr). cbn [rbind]. rewrite (proj2 (np_get_Ok _ _ _) Hc). cbn [rbind].
  rewrite (proj2 (Z.ltb_ge ts 0)) by lia. rewrite py_slice_nonneg by lia. set (tl := take (Z.to_nat (n - (n - tail))) (drop (Z.to_nat (n - tail)) r)).
  assert (zlen tl = tail) as Htlen by (unfold tl, zlen in *; rewrite length_take, length_drop; lia). rewrite np_assign_in by lia. cbn [rbind].
  assert (zlen (np_put r head tl) = zlen r) as Hl1 by (unfold zlen at 1; rewrite length_np_put by lia; done). rewrite np_fill_in by lia.
  set (r' := np_put (np_put r head tl) (head + tail) (replicate (Z.to_nat (n - (head + tail))) 0)).
  assert (zlen r' = zlen r) as Hl2. { unfold r'. unfold zlen at 1. rewrite length_np_put; [unfold zlen in *; lia | lia |]. unfold zlen. rewrite length_replicate. unfold zlen in *. lia. }
  rewrite !np_set_lt by (rewrite ?(to_rows _ _ Ht), ?(to_counts _ _ Ht); done). cbn [rbind]. destruct (write_row max t i r' (head + tail) Ht Hi) as (G1 & G2 & G3 & G4); [lia | lia |].
  destruct Hlay as (L1 & L2 & L3 & L4). rewrite set_layout_ok by done. eexists. split; [done |]. split_and!; try (simpl; rewrite ?length_insert; done); try (simpl; rewrite list_lookup_insert_eq by lia; done).
  - destruct G1. by split.
  - split_and!; simpl; by rewrite length_insert.
  - etransitivity; [exact G3 |]. f_equal. unfold compacted_blocks. rewrite Hlen. unfold r'.
    assert (take (Z.to_nat (head + tail)) (np_put (np_put r head tl) (head + tail) (replicate (Z.to_nat (n - (head + tail))) 0)) = take (Z.to_nat (head + tail)) (np_put r head tl)) as ->.
    { unfold np_put at 1. apply take_app_length'. rewrite length_take. unfold zlen in *. lia. }
    rewrite (take_np_put r tl head (head + tail)) by lia. rewrite take_take, Nat.min_l by lia. f_equal. unfold tl. rewrite skipn_firstn_comm. f_equal. lia.
Qed.

(** Appending keeps the layout. *)
Lemma append_layout t i ids t' : append_row ids i t = Ok t' ->
  same_cache t t' /\ nelssa_compacted t' = nelssa_compacted t /\ nelssa_head_blocks t' = nelssa_head_blocks t /\ bt_nelssa_tail_start_pos t' = bt_nelssa_tail_start_pos t.
Proof. unfold append_row. destruct ids; [intros [= <-]; by split_and! |]. intros H. rinv. by subst. Qed.

Lemma lookup_compacted head tail l ids j : 0 <= head -> 0 <= tail -> head + tail <= zlen l -> 
  (0 <= j < head -> (compacted_blocks head tail l ++ ids) !! Z.to_nat j = (l ++ ids) !! Z.to_nat j) /\
  (0 <= j -> (compacted_blocks head tail l ++ ids) !! Z.to_nat (head + j) = (l ++ ids) !! Z.to_nat (zlen l - tail + j)).
Proof.
  intros Hh Ht Hs. unfold compacted_blocks, zlen in *. split; intros Hj.
  - rewrite !lookup_app_l by (rewrite ?length_app, ?length_take; lia). apply lookup_take_lt. lia.
  - rewrite <- app_assoc, lookup_app_r by (rewrite length_take; lia). rewrite length_take.
    destruct (decide (Z.to_nat (zlen l - tail + j) < length l)%nat) as [Hlt | Hge]; unfold zlen in *.
    + rewrite !lookup_app_l by (rewrite ?length_drop; lia). rewrite lookup_drop. f_equal. lia.
    + rewrite !lookup_app_r by (rewrite ?length_drop; lia). f_equal. rewrite length_drop. lia.
Qed.

(** The slots of the head and of everything from the tail on, with blocks [ids] appended later *)
Lemma compaction_slots t i k l head tail ids : table_ok max t -> layout_ok max t -> (i < max)%nat -> (i < k)%nat -> row_blocks t i = Some l -> nelssa_compacted t !! i = Some false ->
  0 < virtual_block_size t -> 0 <= head -> 0 <= tail -> head + tail <= zlen l -> 0 < zlen l -> zlen l + zlen (kernel_ids t ids) <= bt_max_num_blocks_per_req t ->
  let start := (zlen l - tail) * virtual_block_size t in
  exists t1 t2 t3, clear_middle_blocks i head tail start t = Ok t1 /\ append_row ids i t1 = Ok t2 /\ append_row ids i t = Ok t3 /\
    forall p, 0 <= p < head * virtual_block_size t \/ start <= p < (zlen l + zlen (kernel_ids t ids)) * virtual_block_size t ->
      slot_id (commit_block_table k t2) i p = slot_id (commit_block_table k t3) i p /\ is_Some (slot_id (commit_block_table k t3) i p).
Proof.
  intros Ht Hlay Hi Hk Hl Hc HV Hh Htl Hsum Hpos Hcap start. set (V := virtual_block_size t) in *. assert (0 <= start) as Hst by (unfold start; nia).
  destruct (clear_middle_spec t i l head tail start Ht Hlay Hi Hl Hc Hh Htl Hsum Hpos Hst) as (t1 & Hr1 & Ht1 & _ & (V1 & P1 & W1 & K1) & Hb1 & C1 & D1 & S1 & _).
  assert (zlen (compacted_blocks head tail l) = head + tail) as Hcl by (unfold compacted_blocks, zlen in *; rewrite length_app, length_take, length_drop; lia).
  destruct (append_row_spec max t1 i _ ids Ht1 Hi Hb1) as (t2 & Hr2 & Ht2 & _ & Hb2 & _); [rewrite Hcl, K1, W1; lia |]. destruct (append_row_spec max t i l ids Ht Hi Hl Hcap) as (t3 & Hr3 & Ht3 & _ & Hb3 & _).
  exists t1, t2, t3. split_and!; try done. destruct (append_layout _ _ _ _ Hr2) as ((V2 & P2 & _ & _) & C2 & D2 & S2). destruct (append_layout _ _ _ _ Hr3) as ((V3 & P3 & _ & _) & C3 & D3 & S3).
  rewrite K1 in Hb2. set (ks := kernel_ids t ids) in *. destruct Hlay as (L1 & L2 & L3 & L4). destruct (lookup_lt_is_Some_2 (nelssa_head_blocks t) i) as [h0 Hh0]; [lia |]. destruct (lookup_lt_is_Some_2 (bt_nelssa_tail_start_pos t) i) as [s0 Hs0]; [lia |].
  rewrite <- C2 in C1. rewrite <- D2 in D1. rewrite <- S2 in S1. rewrite <- C3 in Hc. rewrite <- D3 in Hh0. rewrite <- S3 in Hs0. intros p Hp.
  pose proof (slot_blocks t2 k i _ _ _ _ p Ht2 Hk Hb2 C1 D1 S1) as E2. pose proof (slot_blocks t3 k i _ _ _ _ p Ht3 Hk Hb3 Hc Hh0 Hs0) as E3. cbv zeta in E2, E3. rewrite V2, V1 in E2. rewrite V3 in E3. fold V in E2, E3.
  assert (zlen (l ++ ks) = zlen l + zlen ks) as Hz3 by (unfold zlen; rewrite length_app; lia). assert (zlen (compacted_blocks head tail l ++ ks) = head + tail + zlen ks) as Hz2 by (rewrite <- Hcl; unfold zlen; rewrite length_app; lia).
  rewrite Hz2 in E2. rewrite Hz3 in E3. unfold logical_slot in E2, E3. pose proof (zlen_nonneg ks) as Hks.
  assert (0 <= p < (zlen l + zlen ks) * V) as Hpr by (destruct Hp; [assert (head * V <= (zlen l + zlen ks) * V) by (apply Z.mul_le_mono_nonneg_r; lia) |]; lia).
  assert (p / V < zlen l + zlen ks) as Hpb by (apply Z.div_lt_upper_bound; lia). assert (0 <= p / V) as Hp0 by (apply Z.div_pos; lia). rewrite E3 by lia. destruct (lookup_compacted head tail l ks (p / V) Hh Htl Hsum) as [Hlo _].
  split; [| apply fmap_is_Some, lookup_lt_is_Some_2; unfold zlen in *; rewrite length_app; lia]. destruct (start <=? p) eqn:Es.
  - apply Z.leb_le in Es. destruct (lookup_compacted head tail l ks (p / V - (zlen l - tail)) Hh Htl Hsum) as [_ Hhi].
    assert (head * V + (p - start) = p + (head - (zlen l - tail)) * V) as Ep by (unfold start; lia). rewrite Ep in E2. rewrite Z.div_add, Z_mod_plus_full in E2 by lia. assert (zlen l - tail <= p / V) by (apply Z.div_le_lower_bound; unfold start in Es; nia).
    rewrite E2 by lia. replace (p / V + (head - (zlen l - tail))) with (head + (p / V - (zlen l - tail))) by lia. rewrite Hhi by lia. replace (zlen l - tail + (p / V - (zlen l - tail))) with (p / V) by lia.
    apply option_fmap_ext. intros b. by rewrite P2, P1, P3.
  - apply Z.leb_gt in Es. destruct Hp as [Hp | Hp]; [| lia]. assert (p / V < head) by (apply Z.div_lt_upper_bound; lia). rewrite E2 by lia. rewrite Hlo by lia. apply option_fmap_ext. intros b. by rewrite P2, P1, P3.
Qed.
End slots.

#[local] Open Scope Z_scope.

(** ** A step of the persistent batch *)
Section step.
Context `{F32 : Float32} (L : nat).
Implicit Types (b : InputBatch) (rs : list (CachedRequestState * list Z)).

Definition remove_all (rids : list string) b : res InputBatch := rfold (fun rid b => do x <- ib_remove_request rid b in Ok x.2) rids b.
(** Requests with their output tokens *)
Definition add_all rs b : res InputBatch := rfold (fun r b => do x <- ib_add_request r.1 r.2 b in Ok x.2) rs b.
Definition batch_step (rids : list string) rs b : res InputBatch :=
  do b <- remove_all rids b in
  do b <- add_all rs b in
  do b <- condense b in
  Ok (refresh_metadata b).2.

(** Between steps: no empty index, and no change recorded *)
Definition settled b : Prop := ib_ok L [] b /\ by_id_ok b /\ batch_update_builder b = new_builder.

Lemma same_shape_refl b : same_shape b b.
Proof. split; [done | apply same_frame_refl]. Qed.
Lemma same_setups_trans ts ts1 ts2 : same_setups ts ts1 -> same_setups ts1 ts2 -> same_setups ts ts2.
Proof. unfold same_setups. intros H. revert ts2. induction H as [|t t1 ts ts1 Ht Hts IH]; intros ts2 H2; inversion H2; subst; constructor; eauto using same_setup_trans. Qed.
Lemma same_shape_trans b b1 b2 : same_shape b b1 -> same_shape b1 b2 -> same_shape b b2.
Proof. intros [A1 A2] [B1 B2]. split; [congruence | exact (same_setups_trans _ _ _ A2 B2)]. Qed.
Lemma same_setups_lookup ts ts' g t' : same_setups ts ts' -> ts' !! g = Some t' -> exists t, ts !! g = Some t /\ same_setup t t'.
Proof. intros H Hg. by destruct (Forall2_lookup_r _ _ _ _ _ H Hg) as (t & ? & ?); exists t. Qed.
Lemma kernel_rows_setup ts ts' ids : same_setups ts ts' -> kernel_rows ts' ids = kernel_rows ts ids.
Proof.
  intros H. revert ids. induction H as [|t t' ts ts' Ht Hts IH]; intros [|l ids]; try done. unfold kernel_rows in *. simpl. by rewrite IH, (same_setup_kernel _ _ _ Ht).
Qed.
Lemma addable_shape b b' r outs : same_shape b b' -> addable L (ib_config b) (ib_block_table b) r outs -> addable L (ib_config b') (ib_block_table b') r outs.
Proof.
  intros [Ec Hs] []. rewrite Ec. split; try done. destruct ad_blocks as (H1 & H2 & H3). pose proof (Forall2_length _ _ _ Hs) as Hl. split_and!; [by rewrite length_replicate | by rewrite <- Hl |].
  intros g t o l Ht Ho Hg. destruct (same_setups_lookup _ _ _ _ Hs Ht) as (t0 & Ht0 & Hst). rewrite (same_setup_kernel _ _ _ Hst), (same_setup_width _ _ Hst). apply (H3 g t0 o l); try done. by rewrite Hl.
Qed.
Lemma fresh_shape b b' r outs v : same_shape b b' -> fresh_view b' r outs v -> fresh_view b r outs v.
Proof. intros [Ec Hs] (prompt & H1 & H2 & ->). exists prompt. split_and!; try done. unfold view_of. by rewrite Ec, (kernel_rows_setup _ _ _ Hs). Qed.

Lemma remove_requests_spec rids : forall b, open_batch L b -> exists b', remove_all rids b = Ok b' /\ open_batch L b' /\ same_shape b b' /\ dom (req_id_to_index b') = dom (req_id_to_index b) ∖ list_to_set rids /\
  forall r, view b' r = if bool_decide (r ∈ rids) then None else view b r.
Proof.
  induction rids as [|rid rids IH]; intros b Hb; [exists b; split_and!; try done; [apply same_shape_refl | set_solver] |].
  destruct (remove_request_views L b rid Hb) as (b1 & Hrun & Hb1 & Hsh & Hdom & Hv). unfold remove_all. simpl. rewrite Hrun. cbn [rbind snd]. destruct (IH b1 Hb1) as (b' & Hrun' & Hb' & Hsh' & Hdom' & Hv'). exists b'.
  split_and!; [done | done | exact (same_shape_trans _ _ _ Hsh Hsh') | rewrite Hdom', Hdom; set_solver |]. intros r. rewrite Hv', Hv. repeat case_bool_decide; set_solver.
Qed.
Lemma add_all_spec rs : forall b, filling L b -> NoDup (cr_req_id <$> rs.*1) -> (forall r, r ∈ rs -> cr_req_id r.1 ∉ dom (req_id_to_index b)) ->
  (num_reqs b + length rs <= ib_max_num_reqs (ib_config b))%nat -> Forall (fun r => addable L (ib_config b) (ib_block_table b) r.1 r.2) rs ->
  exists b', add_all rs b = Ok b' /\ filling L b' /\ same_shape b b' /\ dom (req_id_to_index b') = dom (req_id_to_index b) ∪ list_to_set (cr_req_id <$> rs.*1) /\
    (forall r, r ∈ rs -> exists v, view b' (cr_req_id r.1) = Some v /\ fresh_view b r.1 r.2 v) /\ forall x, (x ∉ cr_req_id <$> rs.*1) -> view b' x = view b x.
Proof.
  induction rs as [|r rs IH]; intros b Hb Hnd Hnew Hroom Had; [exists b; split_and!; try done; [apply same_shape_refl | set_solver | by intros ? ?%elem_of_nil] |].
  rewrite !fmap_cons in Hnd. apply NoDup_cons in Hnd as [Hni Hnd]. inversion Had as [|? ? Hr Had']; subst. simpl in Hroom.
  destruct (add_spec L r.1 r.2 b Hb ltac:(lia) ltac:(apply not_elem_of_dom, Hnew; left) Hr) as (i & b1 & Hrun & Hb1 & Hsh & Hidx & (v & Hv & Hfresh) & Hne). unfold add_all. simpl. rewrite Hrun. cbn [rbind snd].
  assert (dom (req_id_to_index b1) = {[cr_req_id r.1]} ∪ dom (req_id_to_index b)) as Hdom by (by rewrite Hidx, dom_insert_L).
  destruct (IH b1 Hb1 Hnd) as (b' & Hrun' & Hb' & Hsh' & Hdom' & Hin' & Hne').
  - intros r' Hr'. rewrite Hdom. intros [E%elem_of_singleton | Hd]%elem_of_union; [| by apply (Hnew r'); [right |]]. apply Hni. rewrite <- E. apply list_elem_of_fmap. exists r'.1. split; [done |]. apply list_elem_of_fmap. by exists r'.
  - unfold num_reqs in *. destruct Hsh as [-> _]. rewrite Hidx, map_size_insert_None by (apply not_elem_of_dom, Hnew; left). lia.
  - eapply Forall_impl; [exact Had' |]. intros x. by apply addable_shape.
  - exists b'. split_and!; [done | done | exact (same_shape_trans _ _ _ Hsh Hsh') | rewrite Hdom', Hdom; set_solver | |].
    + intros x [-> | Hx]%elem_of_cons; [exists v; split; [by rewrite Hne' | done] |]. destruct (Hin' x Hx) as (w & Hw & Hf). exists w. split; [done |]. by eapply fresh_shape.
    + intros x Hx. rewrite Hne' by (intros ?; apply Hx; by right). apply Hne. intros ->. apply Hx. left.
Qed.

Lemma refresh_settled b : ib_ok L [] b -> by_id_ok b -> let b' := (refresh_metadata b).2 in
  settled b' /\ _req_ids b' = _req_ids b /\ req_id_to_index b' = req_id_to_index b /\ forall r, view b' r = view b r.
Proof.
  intros Hb Hid. unfold refresh_metadata. destruct (is_pooling_model (ib_config b)); simpl; (split_and!; [split_and!; [by apply with_builder_ok | by destruct Hid | try done] | done | done | done]).
  unfold get_and_reset. by destruct (_removed _), (moved _), (added _).
Qed.

(** A new batch is settled. *)
Lemma new_table_ok bs max w kbs il cp t : new_BlockTable bs max w kbs il cp = Ok t -> 0 <= bt_max_num_blocks_per_req t -> table_ok max t /\ layout_ok max t.
Proof.
  unfold new_BlockTable. intros H Hw. rinv. subst t. simpl in Hw. split.
  - split; simpl; rewrite ?length_replicate; try done; apply Forall_replicate; [unfold zlen; rewrite length_replicate; lia | lia].
  - split_and!; simpl; apply length_replicate.
Qed.
Lemma new_batch_settled p max vocab ts : Forall (table_ok max) ts -> settled (new_InputBatch p max (Z.of_nat L) vocab ts).
Proof.
  intros Hts. split_and!; [| | done].
  - split; simpl; rewrite ?length_replicate; try done; try lia.
    + intros i. by rewrite elem_of_nil.
    + constructor.
    + intros i s _ Hs. by apply lookup_replicate in Hs as [-> _].
    + apply Forall_replicate. split; simpl; rewrite length_replicate; lia.
  - split; simpl.
    + split; simpl; [| intros id; by rewrite lookup_empty | intros id; by rewrite !lookup_empty]. intros id r. rewrite lookup_empty. split; [by intros (? & ? & _) |]. intros [_ H]. unfold view in H. simpl in H. by rewrite lookup_empty in H.
    + destruct p; rewrite ?dom_empty_L; split_and!; set_solver.
    + split_and!; simpl; destruct p; rewrite ?dom_empty_L; done.
Qed.

Lemma batch_step_spec (rids : list string) rs b : settled b -> NoDup (cr_req_id <$> rs.*1) -> (forall r, r ∈ rs -> cr_req_id r.1 ∈ dom (req_id_to_index b) -> cr_req_id r.1 ∈ rids) ->
  (size (dom (req_id_to_index b) ∖ list_to_set rids) + length rs <= ib_max_num_reqs (ib_config b))%nat -> Forall (fun r => addable L (ib_config b) (ib_block_table b) r.1 r.2) rs ->
  exists b', batch_step rids rs b = Ok b' /\ settled b' /\ num_reqs b' = length (_req_ids b') /\ dom (req_id_to_index b') = (dom (req_id_to_index b) ∖ list_to_set rids) ∪ list_to_set (cr_req_id <$> rs.*1) /\
    (forall r, r ∈ rs -> exists v, view b' (cr_req_id r.1) = Some v /\ fresh_view b r.1 r.2 v) /\
    (forall x, (x ∉ cr_req_id <$> rs.*1) -> view b' x = if bool_decide (x ∈ rids) then None else view b x).
Proof.
  intros (Hb & Hid & Hu) Hnd Hnew Hroom Had. assert (open_batch L b) as Ho by (exists []; split_and!; try done; unfold open_ok; by rewrite Hu). unfold batch_step.
  destruct (remove_requests_spec rids b Ho) as (b1 & -> & Ho1 & Hsh1 & Hdom1 & Hv1). cbn [rbind]. destruct (add_all_spec rs b1 (open_filling L b1 Ho1) Hnd) as (b2 & -> & (H & Hb2 & Hid2 & Hrm2) & Hsh2 & Hdom2 & Hin2 & Hne2).
  - intros r Hr. rewrite Hdom1. intros [Hd Hn]%elem_of_difference. apply Hn, elem_of_list_to_set. by apply Hnew.
  - destruct Hsh1 as [-> _]. unfold num_reqs. by rewrite <- size_dom, Hdom1.
  - eapply Forall_impl; [exact Had |]. intros x. by apply addable_shape.
  - cbn [rbind]. destruct (condense_spec L H b2 Hb2 Hrm2) as (b3 & -> & Hb3 & Hlen3 & Hfr3 & Hv3). cbn [rbind]. eexists. split; [done |]. pose proof (refresh_settled b3 Hb3 (by_id_frame _ _ Hfr3 Hv3 Hid2)) as (Hs & Hids & Hidx & Hv).
    destruct Hfr3 as (_ & _ & _ & _ & _ & _ & Hdom3 & _). split_and!; [done | | by rewrite Hidx, Hdom3, Hdom2, Hdom1 | |].
    + rewrite Hids, Hlen3. unfold num_reqs. rewrite Hidx, <- !size_dom. by rewrite Hdom3.
    + intros r Hr. destruct (Hin2 r Hr) as (v & Hw & Hf). exists v. rewrite Hv, Hv3. split; [done | by eapply fresh_shape].
    + intros x Hx. rewrite Hv, Hv3, Hne2 by done. apply Hv1.
Qed.

(** C8 (refinement): a step of the persistent batch as a map from request ids to what their rows
    say ([View]: tokens, counters, blocks, LoRA, sampling parameters, generator, bad words,
    embeddings, draft and output tokens; not the allowed-token mask and not the layout of a
    compacted NELSSA row, which the code does not keep with the request). In a settled batch the given
    requests are removed and new ones added, at most as many as there are rows; the step
    returns, the requests again take the first rows, and the views are these: the removed
    requests have none, the added ones have their prompt, output tokens, blocks, LoRA and sampling
    parameters, and all others the view they had. *)
Theorem batch_step_refines (rids : list string) rs b : settled b -> NoDup (cr_req_id <$> rs.*1) -> (forall r, r ∈ rs -> cr_req_id r.1 ∈ dom (req_id_to_index b) -> cr_req_id r.1 ∈ rids) ->
  (size (dom (req_id_to_index b) ∖ list_to_set rids) + length rs <= ib_max_num_reqs (ib_config b))%nat -> Forall (fun r => addable L (ib_config b) (ib_block_table b) r.1 r.2) rs ->
  exists b', batch_step rids rs b = Ok b' /\ settled b' /\ num_reqs b' = length (_req_ids b') /\ dom (req_id_to_index b') = (dom (req_id_to_index b) ∖ list_to_set rids) ∪ list_to_set (cr_req_id <$> rs.*1) /\
    (forall r, r ∈ rs -> exists v, view b' (cr_req_id r.1) = Some v /\ fresh_view b r.1 r.2 v) /\
    (forall x, (x ∉ cr_req_id <$> rs.*1) -> view b' x = if bool_decide (x ∈ rids) then None else view b x).
Proof. exact (batch_step_spec rids rs b). Qed.
End step.

(** Three rows of up to eight tokens, in blocks of two tokens *)
Definition example_table : res BlockTable := new_BlockTable 2 3 4 2 1 (1, 0, (1, 0)).
Definition example_sampling : WSamplingParams := mkWSampling true None 0 1 0 0 0 1 None None None [3; 7] [].
Definition example_request (rid : string) (toks : list Z) (blocks : list Z) (out : nat) : CachedRequestState :=
  mkCached rid (Some toks) None (Some example_sampling) None None None [blocks] 0 out (Some (1, 5)) 0 (zlen toks).
Definition example_batch : InputBatch :=
  match example_table with Ok t => new_InputBatch false 3 8 10 [t] | Err _ => new_InputBatch false 3 8 10 [] end.

Lemma batch_step_refines_witness : let F : Float32 := fun q => q in
  exists b', batch_step ["x"%string] [(example_request "a" [1; 2; 3] [4; 5] 0, []); (example_request "b" [7] [6] 1, [8; 9])] example_batch = Ok b' /\ dom (req_id_to_index b') = {["a"; "b"]}.
Proof.
  intros F. destruct (batch_step_refines 8 ["x"%string] [(example_request "a" [1; 2; 3] [4; 5] 0, []); (example_request "b" [7] [6] 1, [8; 9])] example_batch) as (b' & H1 & _ & _ & H2 & _).
  - apply (new_batch_settled 8 false 3 10). apply Forall_singleton. by apply (new_table_ok 2 3 4 2 1 (1, 0, (1, 0))).
  - eapply bool_decide_unpack; by vm_compute.
  - intros r Hr Hd. assert (req_id_to_index example_batch = ∅) as E by (by vm_compute). rewrite E, dom_empty_L in Hd. by apply elem_of_empty in Hd.
  - vm_compute. lia.
  - repeat constructor; vm_compute; try done; try (intros ? ? [= <- <-]; done).
    all: try (intros [|[|g]] t o l; simpl; try done; intros [= <-] [= <-] [= <-]; done).
    all: eexists; split; [done | repeat constructor; done].
  - exists b'. split; [done |]. rewrite H2. eapply bool_decide_unpack; by vm_compute.
Defined.

(** ** The order of the requests *)

(** C10 (functional): reorder_batch_to_split_decodes_and_prefills. When every request of a settled
    batch is scheduled, following the cycles of the map of destinations ends; afterwards the
    decodes come first, then short extends, long extends and first prefills, with as many
    of each as before, and every request keeps its [View]: tokens, counters, blocks, LoRA, sampling
    parameters, generator, bad words, embeddings, draft and output tokens, but not the
    allowed-token mask and the layout of a compacted NELSSA row, which do not follow a swap. *)
Theorem reorder_splits_batch L sched threshold b : ib_ok L [] b -> scheduled sched b ->
  exists regions changed b' regions', req_regions threshold sched (_req_ids b) (rows b) = Ok regions /\ reorder_batch_to_split_decodes_and_prefills sched threshold b = Ok (changed, b') /\
    req_regions threshold sched (_req_ids b') (rows b') = Ok regions' /\ Sorted Nat.le regions' /\ regions' ≡ₚ regions /\ ib_ok L [] b' /\ forall r, view b' r = view b r.
Proof.
  intros Hb Hs. destruct (reorder_spec L sched threshold b Hb Hs) as (l & changed & b' & H1 & H2 & H3 & _ & _ & _ & H4 & H5). exists l, changed, b', (target_regions l). split_and!; try done; [apply target_sorted |].
  destruct (req_regions_spec L sched threshold b Hb Hs) as (l' & E & _ & Hr & _). rewrite H1 in E. injection E as <-. by apply target_perm.
Qed.

(** A prefill, a decode and a short extend *)
Definition example_rows : list (CachedRequestState * list Z) :=
  let with_computed n r := mkCached (cr_req_id r) (cr_prompt_token_ids r) None (cr_sampling_params r) None None None (cr_block_ids r) n (cr_output_token_ids r) None 0 (cr_num_prompt_tokens r) in
  [(with_computed 0 (example_request "p" [1; 2; 3] [4; 5] 0), []); (with_computed 1 (example_request "d" [7] [6] 1), [8]); (with_computed 2 (example_request "e" [7; 8; 9] [1; 2] 2), [])].
Definition example_running : InputBatch := match batch_step (F32 := fun q => q) [] example_rows example_batch with Ok b => b | Err _ => example_batch end.
Lemma example_running_ok : ib_ok 8 [] example_running.
Proof.
  destruct (batch_step_spec (F32 := fun q => q) 8 [] example_rows example_batch) as (b' & H1 & (H2 & _) & _).
  - apply (new_batch_settled 8 false 3 10). apply Forall_singleton. by apply (new_table_ok 2 3 4 2 1 (1, 0, (1, 0))).
  - eapply bool_decide_unpack. by vm_compute.
  - intros r Hr Hd. assert (req_id_to_index example_batch = ∅) as E by (by vm_compute). rewrite E, dom_empty_L in Hd. by apply elem_of_empty in Hd.
  - vm_compute. lia.
  - repeat constructor; vm_compute; try done.
    all: try (intros [|[|g]] t o l; simpl; try done; intros [= <-] [= <-] [= <-]; done).
    all: eexists; split; [done | repeat constructor; done].
  - unfold example_running. rewrite H1. exact H2.
Qed.
Lemma reorder_splits_batch_witness : let sched := [("p", 3); ("d", 1); ("e", 1)]%string in
  exists regions changed b' regions', req_regions 1 sched (_req_ids example_running) (rows example_running) = Ok regions /\ reorder_batch_to_split_decodes_and_prefills sched 1 example_running = Ok (changed, b') /\
    req_regions 1 sched (_req_ids b') (rows b') = Ok regions' /\ regions = [3; 0; 1]%nat /\ regions' ≡ₚ regions /\ Sorted Nat.le regions'.
Proof.
  intros sched. destruct (reorder_splits_batch 8 sched 1 example_running example_running_ok) as (l & c & b' & l' & H1 & H2 & H3 & H4 & H5 & _).
  - assert (map_Forall (fun rid (_ : nat) => is_Some (od_get rid sched)) (req_id_to_index example_running)) as Hall; [| intros rid i Hi; exact (Hall rid i Hi)]. eapply bool_decide_unpack. by vm_compute.
  - exists l, c, b', l'. repeat (split; [exact H1 || exact H2 || exact H3 || exact H5 || idtac |]); [| exact H4]. apply Ok_inj. rewrite <- H1. by vm_compute.
Defined.

(** ** Compaction of block-table rows *)
Section compaction.
Context (max : nat).

(** The tail of the runner ends where the prompt ends. *)
Lemma runner_tail_layout_spec bs last_m n : 0 < bs -> 0 <= last_m -> 0 < n -> let '(tail, start) := tail_layout bs last_m (Some n) in
  0 <= tail <= (n + bs - 1) / bs /\ start = ((n + bs - 1) / bs - tail) * bs /\ start <= Z.max (n - last_m) 0.
Proof.
  intros Hbs Hm Hn. unfold tail_layout. set (q := Z.max (n - last_m) 0 / bs). assert (0 <= q) by (apply Z.div_pos; lia). assert (q * bs <= Z.max (n - last_m) 0) as Hq by (unfold q; rewrite Z.mul_comm; apply Z.mul_div_le; lia).
  rewrite Z.max_l by lia. replace (n - q * bs + bs - 1) with (n + bs - 1 + (- q) * bs) by lia. rewrite Z.div_add by lia. assert (q <= (n + bs - 1) / bs) by (apply Z.div_le_lower_bound; lia). split_and!; lia.
Qed.

(** C9 (safety): compaction of a long request after its prefill, without context parallelism. When
    the row holds exactly the blocks of the prompt (no lookahead block beyond them), compact_request
    returns, and whatever blocks are then appended to the row, as long as it is not moved to
    another index, the first tokens, the last tokens of the prompt and all generated tokens
    have the same slots as in the table that was not compacted, the one the scheduler has. *)
Theorem compaction_keeps_tokens cfg rid changed m t ts i r l k : ib_block_table (input_batch m) = t :: ts -> req_id_to_index (input_batch m) !! rid = Some i -> mr_requests m !! rid = Some r ->
  table_ok max t -> layout_ok max t -> (i < max)%nat -> (i < k)%nat -> pcp_world_size t * dcp_world_size t = 1 -> 0 < bt_block_size t -> 0 < nelssa_first_n cfg -> 0 <= nelssa_last_m cfg -> 0 < cr_num_prompt_tokens r ->
  row_blocks t i = Some l -> zlen l = (cr_num_prompt_tokens r + bt_block_size t - 1) / bt_block_size t -> nelssa_compacted t !! i = Some false ->
  exists changed' m' t', compact_request cfg rid (changed, m) = Ok (changed', m') /\ ib_block_table (input_batch m') = t' :: ts /\
    forall ids, zlen l + zlen (kernel_ids t ids) <= bt_max_num_blocks_per_req t -> exists t2 t3, append_row ids i t' = Ok t2 /\ append_row ids i t = Ok t3 /\
      forall p, 0 <= p < (zlen l + zlen (kernel_ids t ids)) * bt_block_size t -> p < nelssa_first_n cfg \/ cr_num_prompt_tokens r - nelssa_last_m cfg <= p ->
        slot_id (commit_block_table k t2) i p = slot_id (commit_block_table k t3) i p /\ is_Some (slot_id (commit_block_table k t3) i p).
Proof.
  intros Hts Hidx Hreq Ht Hlay Hi Hk Hcp Hbs Hf Hm Hn Hl Hlen Hc. set (bs := bt_block_size t) in *. set (n := cr_num_prompt_tokens r) in *. assert (virtual_block_size t = bs) as HV by (unfold virtual_block_size; rewrite Hcp; lia).
  pose proof (runner_tail_layout_spec bs (nelssa_last_m cfg) n Hbs Hm Hn) as Hlayout. unfold compact_request. rewrite Hts, Hidx, Hreq. cbn [fmap option_fmap option_map]. fold bs n. destruct (tail_layout bs (nelssa_last_m cfg) (Some n)) as [tail start]. destruct Hlayout as (Htl & Hstart & Hle).
  set (head := (nelssa_first_n cfg + bs - 1) / bs). assert (0 < head) as Hhead by (apply Z.div_str_pos; lia). assert (nelssa_first_n cfg <= head * bs) as Hhb by (unfold head; pose proof (Z.mul_succ_div_gt (nelssa_first_n cfg + bs - 1) bs Hbs); lia).
  assert (0 < zlen l) as Hpos by (rewrite Hlen; apply Z.div_str_pos; lia). destruct (table_row max t i Ht Hi) as (c & row & Hcount & Hrow & Hb & Hw & Hrb). rewrite Hrb in Hl. assert (c = zlen l) as -> by (injection Hl as <-; unfold zlen in *; rewrite length_take; lia).
  rewrite (proj2 (np_get_Ok _ _ _) Hcount). cbn [rbind]. rewrite <- Hrb in Hl. rewrite Hl in Hrb. destruct (zlen l <=? head + tail) eqn:E.
  - exists changed, m, t. split_and!; [done | done |]. intros ids Hcap. destruct (append_row_spec max t i l ids Ht Hi Hl Hcap) as (t' & Hr & Ht' & _ & Hb' & _). exists t', t'. split_and!; try done. intros p Hp _. split; [done |].
    destruct (append_layout _ _ _ _ Hr) as ((V & _) & C & D & S). destruct Hlay as (L1 & L2 & L3 & L4). destruct (lookup_lt_is_Some_2 (nelssa_head_blocks t) i) as [h0 Hh0]; [lia |]. destruct (lookup_lt_is_Some_2 (bt_nelssa_tail_start_pos t) i) as [s0 Hs0]; [lia |].
    rewrite <- C in Hc. rewrite <- D in Hh0. rewrite <- S in Hs0. rewrite (slot_blocks max t' k i _ _ _ _ p Ht' Hk Hb' Hc Hh0 Hs0); unfold logical_slot; rewrite V, HV.
    + apply fmap_is_Some, lookup_lt_is_Some_2. rewrite length_app. pose proof (Z.div_lt_upper_bound p bs (zlen l + zlen (kernel_ids t ids)) Hbs ltac:(lia)). assert (0 <= p / bs) by (apply Z.div_pos; lia). unfold zlen in *. lia.
    + pose proof (Z.div_lt_upper_bound p bs (zlen l + zlen (kernel_ids t ids)) Hbs ltac:(lia)). assert (0 <= p / bs) by (apply Z.div_pos; lia). unfold zlen in *. rewrite length_app. lia.
  - apply Z.leb_gt in E. assert (forall ids, zlen l + zlen (kernel_ids t ids) <= bt_max_num_blocks_per_req t -> _) as Hall
      by (intros ids Hcap; exact (compaction_slots max t i k l head tail ids Ht Hlay Hi Hk Hl Hc ltac:(lia) ltac:(lia) ltac:(lia) ltac:(lia) Hpos Hcap)).
    cbv zeta in Hall. rewrite HV in Hall. replace ((zlen l - tail) * bs) with start in Hall by (rewrite Hlen; lia). destruct (Hall []) as (t1 & _ & _ & Hrun & _).
    { unfold kernel_ids, map_to_kernel_blocks. pose proof (row_blocks_len max t i l Ht Hl). unfold zlen in *. destruct (use_hybrid_blocks t); [case_match |]; simpl; lia. }
    rewrite Hrun. cbn [rbind]. eexists true, _, t1. split_and!; [done | done |]. intros ids Hcap. destruct (Hall ids Hcap) as (t1' & t2 & t3 & Hrun' & H2 & H3 & Hp). rewrite Hrun in Hrun'. injection Hrun' as <-. exists t2, t3. split_and!; try done.
    intros p Hpr Hwhich. apply Hp. destruct Hwhich; [left; lia |]. destruct (decide (p < head * bs)); [left; lia | right]. assert (start <= p) by (destruct (Z.max_spec (n - nelssa_last_m cfg) 0); lia). lia.
Qed.
End compaction.

(** Row 1 holds a prompt of 24 tokens in 6 blocks of 4 tokens. *)
Definition example_long_table : BlockTable :=
  match (do t <- new_BlockTable 4 3 8 4 1 (1, 0, (1, 0)) in add_row [10; 11; 12; 13; 14; 15] 1 t) with Ok t => t | Err _ => mkBT 0 0 false 0 [] [] [] [] [] [] [] 0 0 0 0 0 end.
Definition example_long_request : CachedRequestState := example_request "long" (range 24) [10; 11; 12; 13; 14; 15] 0.
Definition example_runner (t : BlockTable) : ModelRunner :=
  mkRunner {["long"%string := example_long_request]} ∅ 0 ∅ ∅
    (with_ids [Some "short"; Some "long"]%string {["short" := 0%nat; "long" := 1%nat]}%string [Some 1; Some 0]%nat [[]; []; []] (new_InputBatch false 3 32 100 [t])) [].
Definition example_cfg : RunnerConfig := mkRunnerConfig true false false 1 None 4 5.

Lemma compaction_keeps_tokens_witness : exists c m' t', compact_request example_cfg "long" (false, example_runner example_long_table) = Ok (c, m') /\ ib_block_table (input_batch m') = [t'] /\
  exists t2 t3, append_row [16] 1 t' = Ok t2 /\ append_row [16] 1 example_long_table = Ok t3 /\
    slot_id (commit_block_table 2 t2) 1 3 = slot_id (commit_block_table 2 t3) 1 3 /\ slot_id (commit_block_table 2 t2) 1 19 = slot_id (commit_block_table 2 t3) 1 19 /\
    slot_id (commit_block_table 2 t2) 1 26 = slot_id (commit_block_table 2 t3) 1 26.
Proof.
  assert (table_ok 3 example_long_table) as Ht by (split; [by vm_compute | by vm_compute | |]; vm_compute; repeat constructor; done).
  assert (layout_ok 3 example_long_table) as Hlay by (split_and!; by vm_compute).
  destruct (compaction_keeps_tokens 3 example_cfg "long" false (example_runner example_long_table) example_long_table [] 1 example_long_request [10; 11; 12; 13; 14; 15] 2 eq_refl eq_refl eq_refl Ht Hlay
    ltac:(lia) ltac:(lia) eq_refl eq_refl eq_refl ltac:(by vm_compute) eq_refl eq_refl eq_refl eq_refl) as (c & m' & t' & H1 & H2 & H3).
  destruct (H3 [16]) as (t2 & t3 & H4 & H5 & H6); [by vm_compute |]. exists c, m', t'. split; [exact H1 |]. split; [exact H2 |]. exists t2, t3. split; [exact H4 |]. split; [exact H5 |].
  split; [| split]; apply H6; vm_compute; try (by auto); try (split; done); try (right; done); left; done.
Defined.

#[local] Open Scope Z_scope.
#[local] Instance round_exactly : Float32 := fun q => q.

(** The slot of a position of the first group after a commit *)
Definition committed_slot (b : InputBatch) (i : nat) (p : Z) : option Z := t ← head (ib_block_table b); slot_id (commit_block_table (num_reqs b) t) i p.

(** The long request in row 1 is compacted, the request in row 0 finishes, and another one of 20
    tokens arrives. The results are the slot of position 19 of the long request before and
    after, and the slot of position 17 of the new one. *)
Definition compact_then_condense : res (option Z * option Z * option Z) :=
  do x <- compact_request example_cfg "long" (false, example_runner example_long_table) in
  let b := input_batch x.2 in
  do y <- ib_remove_request "short" b in
  do c <- condense y.2 in
  do z <- ib_add_request (example_request "new" (range 20) [1; 2; 3; 4; 5] 2) [] (refresh_metadata c).2 in
  Ok (committed_slot b 1 19, committed_slot c 0 19, committed_slot z.2 1 17).

(** Compaction is recorded by row, and condense does not move the record. The long
    request reads position 19 from slot 59 in row 1; moved to row 0 it counts as not
    compacted, and the position has slot 3, in no block of the request. The new request in
    row 1 counts as compacted: position 17 has slot 9 of its second block, not 21 of its
    fifth. *)
Lemma condense_loses_compaction : compact_then_condense = Ok (Some 59, Some 3, Some 9).
Proof. vm_compute. reflexivity. Qed.

(** Requests with their sampling parameters *)
Definition allowing (toks : list Z) (rid : string) (block : Z) (out : nat) : CachedRequestState :=
  mkCached rid (Some [1; 2]) None (Some (mkWSampling true None 0 1 0 0 0 1 None None None toks [])) None None None [[block]] 0 out None 0 2.
Definition mask_at (b : InputBatch) (i : nat) : option (list bool) := row_mask <$> rows b !! i.
(** The tokens a mask lets through *)
Definition allowed (mask : option (list bool)) : list Z := match mask with Some m => filter (fun t => m !! Z.to_nat t <> Some true) (range 10) | None => [] end.

(** The masks after the first request, which allows all tokens, has finished and another such
    request has arrived next to one that allows tokens 3 and 7 *)
Definition mask_after_condense : res (list Z * list Z) :=
  do b <- batch_step [] [(allowing [] "a" 1 0, []); (allowing [3; 7] "b" 2 1, [])] example_batch in
  do b <- batch_step ["a"%string] [] b in
  do b <- batch_step [] [(allowing [] "c" 1 2, [])] b in
  Ok (allowed (mask_at b 0), allowed (mask_at b 1)).
(** Condense copies the mask of allowed tokens down and leaves it in the row it comes
    from, and add_request only writes a mask for requests that have one. A request without
    allowed tokens that gets this row may only produce the tokens of the other request. *)
Lemma stale_mask_restricts : mask_after_condense = Ok ([3; 7], [3; 7]).
Proof. vm_compute. reflexivity. Qed.

(** swap_states exchanges rows of the mask through views: both requests end up with one mask. *)
Definition masks_after_swap : res (list Z * list Z) :=
  do b <- batch_step [] [(allowing [3; 7] "a" 1 0, []); (allowing [1; 2] "b" 2 1, [])] example_batch in
  do b <- swap_states 0 1 b in
  Ok (allowed (mask_at b 0), allowed (mask_at b 1)).
Lemma swap_duplicates_mask : masks_after_swap = Ok ([1; 2], [1; 2]).
Proof. vm_compute. reflexivity. Qed.

(** The tail is the last blocks of the row, but its position comes from the prompt: with one more
    block than the prompt needs, position 19 of the prompt moves from slot 59 to slot 63. *)
Definition compact_with_spare_block : res (option Z * option Z) :=
  do t <- append_row [16] 1 example_long_table in
  let m := example_runner t in
  do x <- compact_request example_cfg "long" (false, m) in
  Ok (committed_slot (input_batch m) 1 19, committed_slot (input_batch x.2) 1 19).
Lemma spare_block_shifts_tail : compact_with_spare_block = Ok (Some 59, Some 63).
Proof. vm_compute. reflexivity. Qed.
