(* ===== verification/NgramProposer.v ===== *)
(** * NgramProposer
    vllm/v1/spec_decode/ngram_proposer.py: draft tokens for speculative decoding, found by
    matching the end of a request's tokens against its earlier tokens. The search is that of
    Knuth, Morris and Pratt on the reversed tokens, with prefixes capped at the largest n-gram.

    Lengths and positions are natural numbers, as they are never negative in the code; the
    limits of the configuration are integers. The number of threads is left out. *)
From S2P Require Import Prelude OrdDict CacheHit KVCacheInterface WorkerBlockTable InputBatchInv.
#[local] Open Scope nat_scope.

(** ** _find_longest_matched_ngram_and_propose_tokens *)

(** The local variables of the loop *)
Record Search := mkSearch {
  lps : list nat;
  longest_ngram : nat;
  position : nat;
  prev_lps : nat;
  cursor : nat;
}.

(** [while i < total_token: ...] *)
Fixpoint search_ngram (fuel : nat) (tokens : list Z) (max_ngram : nat) (s : Search) : res Search :=
  let i := cursor s in
  if bool_decide (i < length tokens) then
    match fuel with
    | O => Err OutOfFuel
    | S f =>
      do a <- np_get tokens (prev_lps s) in
      do b <- np_get tokens i in
      if (a =? b)%Z then
        let prev := S (prev_lps s) in
        let '(longest, pos) := if bool_decide (longest_ngram s <= prev) then (prev, i) else (longest_ngram s, position s) in
        do l <- (if bool_decide (i < max_ngram) then np_set (lps s) i prev else Ok (lps s)) in
        do prev' <- (if bool_decide (prev = max_ngram) then np_get l (max_ngram - 1) else Ok prev) in
        search_ngram f tokens max_ngram (mkSearch l longest pos prev' (S i))
      else if bool_decide (prev_lps s <> 0) then
        do p <- np_get (lps s) (prev_lps s - 1) in
        search_ngram f tokens max_ngram (mkSearch (lps s) (longest_ngram s) (position s) p i)
      else search_ngram f tokens max_ngram (mkSearch (lps s) (longest_ngram s) (position s) (prev_lps s) (S i))
    end
  else Ok s.

Definition find_longest_matched_ngram_and_propose_tokens (origin_tokens : list Z) (min_ngram max_ngram max_model_len k0 : Z) : res (list Z) :=
  let total_token := zlen origin_tokens in
  if (total_token <? min_ngram)%Z then Ok []
  else
    let k := Z.min k0 (max_model_len - total_token) in
    if (k <=? 0)%Z then Ok []
    else
      let tokens := reverse origin_tokens in
      let m := Z.to_nat max_ngram in
      do s <- search_ngram (2 * length tokens) tokens m (mkSearch (replicate m 0) 0 0 0 1) in
      if (Z.of_nat (longest_ngram s) <? min_ngram)%Z then Ok []
      else
        let start_position := (total_token - 1 - Z.of_nat (position s) + Z.of_nat (longest_ngram s))%Z in
        let k' := Z.min k (total_token - start_position) in
        Ok (py_slice origin_tokens start_position (start_position + k')).

(** ** Batches *)
Record Proposer := mkProposer {
  min_n : Z;
  max_n : Z;
  num_spec : Z;
  p_max_model_len : Z;
  valid_ngram_draft : list (list Z);
  valid_ngram_num_drafts : list Z;
}.
Definition new_Proposer (min_n max_n k max_model_len : Z) (max_num_seqs : nat) : Proposer :=
  mkProposer min_n max_n k max_model_len (replicate max_num_seqs (replicate (Z.to_nat k) 0%Z)) (replicate max_num_seqs 0%Z).

(** One iteration of batch_propose_numba. The iterations write different rows. *)
Definition propose_one (num_tokens_no_spec : list Z) (token_ids_cpu : list (list Z)) (p : Proposer) (idx : nat) : res Proposer :=
  do num_tokens <- np_get num_tokens_no_spec idx in
  do row <- np_get token_ids_cpu idx in
  do out <- find_longest_matched_ngram_and_propose_tokens (py_slice row 0 num_tokens) (min_n p) (max_n p) (p_max_model_len p) (num_spec p) in
  do counts <- np_set (valid_ngram_num_drafts p) idx (zlen out) in
  do drafts <- match out with
               | [] => Ok (valid_ngram_draft p)
               | _ => do d <- np_get (valid_ngram_draft p) idx in do d' <- np_assign d 0 (zlen out) out in np_set (valid_ngram_draft p) idx d'
               end in
  Ok (mkProposer (min_n p) (max_n p) (num_spec p) (p_max_model_len p) drafts counts).
Fixpoint batch_propose_numba (num_tokens_no_spec : list Z) (token_ids_cpu : list (list Z)) (valid : list nat) (p : Proposer) : res Proposer :=
  match valid with
  | [] => Ok p
  | idx :: rest => do p' <- propose_one num_tokens_no_spec token_ids_cpu p idx in batch_propose_numba num_tokens_no_spec token_ids_cpu rest p'
  end.
Definition batch_propose (num_requests : nat) (valid : list nat) (num_tokens_no_spec : list Z) (token_ids_cpu : list (list Z)) (p : Proposer) : res (list (list Z) * Proposer) :=
  do p' <- batch_propose_numba num_tokens_no_spec token_ids_cpu valid p in
  do drafts <- rmap (fun i =>
      if bool_decide (i ∈ valid) then
        do n <- np_get (valid_ngram_num_drafts p') i in
        if (0 <? n)%Z then do d <- np_get (valid_ngram_draft p') i in Ok (py_slice d 0 n) else Ok []
      else Ok []) (seq 0 num_requests) in
  Ok (drafts, p').

(** [for i, sampled_ids in enumerate(sampled_token_ids): ...] *)
Fixpoint valid_requests (max_model_len : Z) (num_tokens_no_spec : list Z) (i : nat) (sampled : list (list Z)) : res (list nat) :=
  match sampled with
  | [] => Ok []
  | ids :: rest =>
    do this <- match ids with [] => Ok false | _ => do n <- np_get num_tokens_no_spec i in Ok (n <? max_model_len)%Z end in
    do l <- valid_requests max_model_len num_tokens_no_spec (S i) rest in
    Ok (if (this : bool) then i :: l else l)
  end.
Definition propose (sampled_token_ids : list (list Z)) (num_tokens_no_spec : list Z) (token_ids_cpu : list (list Z)) (p : Proposer) : res (list (list Z) * Proposer) :=
  do valid <- valid_requests (p_max_model_len p) num_tokens_no_spec 0 sampled_token_ids in
  batch_propose (length sampled_token_ids) valid num_tokens_no_spec token_ids_cpu p.

(** ** Reference: the longest suffix that occurs earlier, at its first occurrence *)
Section reference.
Context (tokens : list Z).

(** The last [v] tokens occur at [s], and a token follows them there. *)
Definition occurs (v s : nat) : Prop := s + v < length tokens /\ take v (drop s tokens) = drop (length tokens - v) tokens.
#[export] Instance occurs_dec v s : Decision (occurs v s).
Proof. unfold occurs. apply _. Defined.
Definition first_occurrence (v : nat) : option nat := fst <$> list_find (fun s => occurs v s) (seq 0 (length tokens)).
(** The largest length from [lo] to [hi] that occurs, and where *)
Fixpoint longest_suffix (lo hi : nat) : option (nat * nat) :=
  if bool_decide (hi < lo) then None
  else match first_occurrence hi with
       | Some s => Some (hi, s)
       | None => match hi with O => None | S hi' => longest_suffix lo hi' end
       end.
Definition ngram_reference (min_n max_n k : nat) : list Z :=
  match longest_suffix min_n max_n with Some (v, s) => take k (drop (s + v) tokens) | None => [] end.
End reference.
