(* ===== verification/NgramProps.v ===== *)
(** * NgramProps
    The invariant of the n-gram search (the prefix function), and its properties. *)
From S2P Require Import Prelude OrdDict CacheHit KVCacheInterface SizingInv WorkerBlockTable InputBatchInv NgramProposer.
#[local] Open Scope nat_scope.

(** ** Borders
    [T] are the reversed tokens, [M] is the cap on lengths. *)
Section borders.
Context (T : list Z) (M : nat).

(** The first [v] tokens end at [i]. *)
Definition border (v i : nat) : Prop := v <= i /\ forall t, t < v -> T !! t = T !! (i - v + t).
Lemma border_0 i : border 0 i.
Proof. split; [lia | lia]. Qed.
Lemma border_trans v w i : border v i -> border w v -> border w i.
Proof. intros [H1 H2] [H3 H4]. split; [lia |]. intros t Ht. rewrite H4, H2 by lia. f_equal. lia. Qed.
Lemma border_nested v w i : border v i -> border w i -> w <= v -> border w v.
Proof.
  intros [H1 H2] [H3 H4] Hw. split; [done |]. intros t Ht. rewrite H4 by done. rewrite (H2 (v - w + t)) by lia. f_equal. lia.
Qed.
Lemma border_S v i : border (S v) (S i) <-> border v i /\ T !! v = T !! i.
Proof.
  split.
  - intros [H1 H2]. split; [split; [lia |]; intros t Ht; apply H2; lia |]. rewrite (H2 v) by lia. f_equal. lia.
  - intros [[H1 H2] H3]. split; [lia |]. intros t Ht. destruct (decide (t = v)) as [-> |]; [rewrite H3; f_equal; lia |]. apply H2. lia.
Qed.

(** [v] is the longest border of the first [i] tokens that is shorter than [i] and than [c]. *)
Definition best (c v i : nat) : Prop := border v i /\ v < i /\ v < c /\ forall w, border w i -> w < i -> w < c -> w <= v.
(** A match of length [v] ends at [j]. *)
Definition hit (v j : nat) : Prop := 1 <= v <= M /\ v <= j /\ j < length T /\ border v (S j).

(** ** The loop *)
Record searching (s : Search) : Prop := {
  se_cursor : 1 <= cursor s;
  se_len : length (lps s) = M;
  se_lps : forall j, j < cursor s -> j < M -> exists v, lps s !! j = Some v /\ best (S j) v (S j);
  se_zero : forall j, cursor s <= j -> j < M -> lps s !! j = Some 0;
  se_prev : border (prev_lps s) (cursor s) /\ prev_lps s < cursor s /\ prev_lps s < M;
  se_longer : cursor s < length T -> forall v, border v (cursor s) -> prev_lps s < v -> v < cursor s -> v < M -> T !! v <> T !! cursor s;
  se_best : forall v j, hit v j -> j < cursor s -> v <= longest_ngram s /\ (v = longest_ngram s -> j <= position s);
  se_hit : 0 < longest_ngram s -> hit (longest_ngram s) (position s);
}.
(** Nothing longer than the longest border of the tokens before the cursor has to be tried. *)
Lemma longer_of_best v i : best M v i -> forall w, border w i -> v < w -> w < i -> w < M -> T !! w <> T !! i.
Proof. intros (_ & _ & _ & H) w Hw H1 H2 H3. pose proof (H w Hw H2 H3). lia. Qed.
(** The match at the cursor is the longest one that ends there. *)
Lemma extended_best s : searching s -> cursor s < length T -> T !! prev_lps s = T !! cursor s -> forall w, border w (S (cursor s)) -> w <= cursor s -> w <= M -> w <= S (prev_lps s).
Proof.
  intros Hs Hi Heq [|w] Hb H1 H2; [lia |]. apply border_S in Hb as [Hb Ht]. destruct (decide (w <= prev_lps s)); [lia |].
  destruct (se_longer s Hs Hi w Hb ltac:(lia) ltac:(lia) ltac:(lia) Ht).
Qed.
Lemma prev_hit s : searching s -> cursor s < length T -> T !! prev_lps s = T !! cursor s -> hit (S (prev_lps s)) (cursor s).
Proof. intros Hs Hi Heq. destruct (se_prev s Hs) as (H1 & H2 & H3). split_and!; [lia | lia | lia | done |]. by apply border_S. Qed.

(** The values after a match *)
Lemma matched_lps s l : searching s -> cursor s < length T -> T !! prev_lps s = T !! cursor s -> l = (if bool_decide (cursor s < M) then <[cursor s := S (prev_lps s)]> (lps s) else lps s) ->
  length l = M /\ (forall j, j < S (cursor s) -> j < M -> exists v, l !! j = Some v /\ best (S j) v (S j)) /\ (forall j, S (cursor s) <= j -> j < M -> l !! j = Some 0).
Proof.
  intros Hs Hi Heq ->. pose proof (se_len s Hs) as Hlen. pose proof (prev_hit s Hs Hi Heq) as (H1 & H2 & H3 & H4). case_bool_decide as Hc.
  - split_and!; [by rewrite length_insert | |].
    + intros j Hj HjM. destruct (decide (j = cursor s)) as [-> |].
      * exists (S (prev_lps s)). rewrite list_lookup_insert_eq by lia. split; [done |]. split_and!; [done | lia | lia |]. intros w Hw1 Hw2 _. apply (extended_best s Hs Hi Heq w Hw1); lia.
      * rewrite list_lookup_insert_ne by done. apply (se_lps s Hs); lia.
    + intros j Hj HjM. rewrite list_lookup_insert_ne by lia. apply (se_zero s Hs); lia.
  - split_and!; [done | |]; intros j Hj HjM; [apply (se_lps s Hs) | apply (se_zero s Hs)]; lia.
Qed.
Lemma matched_prev s l : searching s -> cursor s < length T -> T !! prev_lps s = T !! cursor s ->
  (forall j, j < S (cursor s) -> j < M -> exists v, l !! j = Some v /\ best (S j) v (S j)) ->
  exists p, (if bool_decide (S (prev_lps s) = M) then np_get l (M - 1) else Ok (S (prev_lps s))) = Ok p /\ best M p (S (cursor s)) /\ p <= S (prev_lps s).
Proof.
  intros Hs Hi Heq Hl. pose proof (prev_hit s Hs Hi Heq) as (H1 & H2 & H3 & H4). pose proof (extended_best s Hs Hi Heq) as Hmax. case_bool_decide as Hc.
  - destruct (Hl (M - 1)) as (v & Hv & (Hb1 & Hb2 & _ & Hb4)); [lia | lia |]. replace (S (M - 1)) with M in * by lia. exists v. rewrite (proj2 (np_get_Ok _ _ _) Hv). split; [done |]. rewrite Hc in H4. split; [| lia].
    split_and!; [by apply (border_trans M) | lia | done |]. intros w Hw Hw1 Hw2. apply Hb4; [| lia | lia]. apply (border_nested _ _ _ H4 Hw). lia.
  - exists (S (prev_lps s)). split; [done |]. split; [| done]. split_and!; [done | lia | lia |]. intros w Hw Hw1 Hw2. apply Hmax; [done | lia | lia].
Qed.
Lemma matched_best s longest pos : searching s -> cursor s < length T -> T !! prev_lps s = T !! cursor s ->
  (longest, pos) = (if bool_decide (longest_ngram s <= S (prev_lps s)) then (S (prev_lps s), cursor s) else (longest_ngram s, position s)) ->
  (forall v j, hit v j -> j < S (cursor s) -> v <= longest /\ (v = longest -> j <= pos)) /\ (0 < longest -> hit longest pos).
Proof.
  intros Hs Hi Heq E. assert (forall v, hit v (cursor s) -> v <= S (prev_lps s)) as Hc by (intros v (H1 & H2 & H3 & H4); apply (extended_best s Hs Hi Heq v H4); lia).
  case_bool_decide as Hl; injection E as -> ->; (split; [intros v j Hh Hj; destruct (decide (j = cursor s)) as [-> |]; [specialize (Hc v Hh) | destruct (se_best s Hs v j Hh ltac:(lia))]; lia |]).
  - intros _. by apply prev_hit.
  - apply (se_hit s Hs).
Qed.

Lemma search_spec : 0 < M -> forall fuel s, searching s -> cursor s <= length T -> 2 * (length T - cursor s) + prev_lps s <= fuel ->
  exists s', search_ngram fuel T M s = Ok s' /\ searching s' /\ cursor s' = length T.
Proof.
  intros HM. induction fuel as [|fuel IH]; intros s Hs Hle Hf; simpl; (case_bool_decide as Hi; [| exists s; split_and!; [done | done | lia]]); [lia |].
  destruct (se_prev s Hs) as (Hb & Hp & HpM). destruct (np_get_lt T (prev_lps s)) as (a & Ha & ->); [lia |]. destruct (np_get_lt T (cursor s) Hi) as (b & Hb' & ->). cbn [rbind]. destruct (Z.eqb_spec a b) as [-> | Hab].
  - assert (T !! prev_lps s = T !! cursor s) as Heq by congruence. destruct (if bool_decide (longest_ngram s <= S (prev_lps s)) then _ else _) as [longest pos] eqn:El.
    destruct (matched_best s longest pos Hs Hi Heq (eq_sym El)) as [B1 B2]. assert (exists l, (if bool_decide (cursor s < M) then np_set (lps s) (cursor s) (S (prev_lps s)) else Ok (lps s)) = Ok l /\ l = (if bool_decide (cursor s < M) then <[cursor s := S (prev_lps s)]> (lps s) else lps s)) as (l & -> & El').
    { clear El. case_bool_decide as Hc; [rewrite np_set_lt by (rewrite (se_len s Hs); exact Hc) |]; eexists; split; reflexivity. }
    cbn [rbind]. destruct (matched_lps s l Hs Hi Heq El') as (L1 & L2 & L3). destruct (matched_prev s l Hs Hi Heq L2) as (p & -> & Hbest & Hple). cbn [rbind].
    destruct (IH (mkSearch l longest pos p (S (cursor s)))) as (s' & Hr & Hs' & Hc); [| simpl; lia | simpl; lia | by exists s'].
    split; simpl; try done; [lia | destruct Hbest as (? & ? & ? & _); split_and!; done |]. intros Hlt v. by apply longer_of_best.
  - case_bool_decide as Hp0.
    + destruct (se_lps s Hs (prev_lps s - 1)) as (v & Hv & (Hv1 & Hv2 & _ & Hv4)); [lia | lia |]. replace (S (prev_lps s - 1)) with (prev_lps s) in * by lia. rewrite (proj2 (np_get_Ok _ _ _) Hv). cbn [rbind].
      destruct (IH (mkSearch (lps s) (longest_ngram s) (position s) v (cursor s))) as (s' & Hr & Hs' & Hc); [| simpl; lia | simpl; lia | by exists s'].
      destruct Hs. split; simpl; try done; [split_and!; [by apply (border_trans (prev_lps s)) | lia | lia] |]. intros _ w Hw1 Hw2 Hw3 Hw4. destruct (decide (w = prev_lps s)) as [-> |]; [congruence |]. destruct (decide (prev_lps s < w)); [by apply se_longer0 |].
      pose proof (Hv4 w (border_nested _ _ _ Hb Hw1 ltac:(lia)) ltac:(lia) ltac:(lia)). lia.
    + assert (prev_lps s = 0) as E0 by lia. rewrite E0 in *. assert (forall w, border w (S (cursor s)) -> w <= cursor s -> w <= M -> w = 0) as Hnone.
      { intros [|w] Hw H1 H2; [done |]. apply border_S in Hw as [Hw Ht]. destruct (decide (w = 0)) as [-> |]; [congruence |]. destruct (se_longer s Hs Hi w Hw ltac:(lia) ltac:(lia) ltac:(lia) Ht). }
      destruct (IH (mkSearch (lps s) (longest_ngram s) (position s) 0 (S (cursor s)))) as (s' & Hr & Hs' & Hc); [| simpl; lia | simpl; lia | by exists s'].
      destruct Hs. split; simpl; try done; [lia | | | split_and!; [apply border_0 | lia | done] | |].
      * intros j Hj HjM. destruct (decide (j = cursor s)) as [-> |]; [| apply se_lps0; lia]. exists 0. split; [apply se_zero0; lia |]. split_and!; [apply border_0 | lia | lia |]. intros w Hw1 Hw2 _. rewrite (Hnone w Hw1); lia.
      * intros j Hj. apply se_zero0. lia.
      * intros _ v Hv1 Hv2 Hv3 Hv4. rewrite (Hnone v Hv1) in Hv2 by lia. lia.
      * intros v j Hh Hj. destruct (decide (j = cursor s)) as [-> |]; [| apply se_best0; [done | lia]]. destruct Hh as (G1 & G2 & G3 & G4). rewrite (Hnone v G4) in G1 by lia. lia.
Qed.
Lemma search_initial : 0 < M -> searching (mkSearch (replicate M 0) 0 0 0 1).
Proof.
  intros HM. split; simpl; [lia | apply length_replicate | | | split_and!; [apply border_0 | lia | done] | lia | | lia].
  - intros j Hj HjM. exists 0. rewrite lookup_replicate_2 by done. split; [done |]. split_and!; [apply border_0 | lia | lia |]. intros w _ Hw _. lia.
  - intros j Hj HjM. by apply lookup_replicate_2.
  - intros v j (H1 & H2 & _) Hj. lia.
Qed.
End borders.

(** ** The reference *)
Section reference.
Context (O : list Z).
Local Notation n := (length O).

Lemma first_occurrence_Some v s : first_occurrence O v = Some s <-> occurs O v s /\ forall s', s' < s -> ~ occurs O v s'.
Proof.
  unfold first_occurrence. split.
  - intros Hf. apply fmap_Some in Hf as ([i x] & Hf & ->). apply list_find_Some in Hf as (H1 & H2 & H3). apply lookup_seq in H1 as [-> H1]. simpl in *. split; [done |]. intros s' Hs'. apply (H3 s' s'); [| done]. apply lookup_seq. lia.
  - intros [Ho Hn]. assert (list_find (fun s => occurs O v s) (seq 0 n) = Some (s, s)) as ->; [| done]. apply list_find_Some. pose proof Ho as [Hs _]. split_and!; [apply lookup_seq; lia | done |].
    intros j y [-> Hj]%lookup_seq Hlt. by apply Hn.
Qed.
Lemma first_occurrence_None v : first_occurrence O v = None <-> forall s, ~ occurs O v s.
Proof.
  split.
  - intros Hf s Ho. unfold first_occurrence in Hf. apply fmap_None, list_find_None in Hf. rewrite Forall_forall in Hf. apply (Hf s); [| done]. destruct Ho as [Hs _]. apply elem_of_seq. lia.
  - intros Hn. destruct (first_occurrence O v) as [s|] eqn:E; [| done]. apply first_occurrence_Some in E as [Ho _]. by destruct (Hn s).
Qed.
Lemma longest_suffix_spec lo hi : match longest_suffix O lo hi with
  | Some (v, s) => lo <= v <= hi /\ first_occurrence O v = Some s /\ forall w, v < w <= hi -> first_occurrence O w = None
  | None => forall w, lo <= w <= hi -> first_occurrence O w = None
  end.
Proof.
  induction hi as [|hi IH]; simpl; (case_bool_decide; [intros; lia |]).
  - destruct (first_occurrence O 0) as [s|] eqn:E; [split_and!; [lia | lia | done | lia] |]. intros w Hw. by assert (w = 0) as -> by lia.
  - destruct (first_occurrence O (S hi)) as [s|] eqn:E; [split_and!; [lia | lia | done | lia] |]. destruct (longest_suffix O lo hi) as [[v s]|].
    + destruct IH as (H1 & H2 & H3). split_and!; [lia | lia | done |]. intros w Hw. destruct (decide (w = S hi)) as [-> |]; [done | apply H3; lia].
    + intros w Hw. destruct (decide (w = S hi)) as [-> |]; [done | apply IH; lia].
Qed.

(** A match in the reversed tokens is an earlier occurrence of the suffix. *)
Lemma hit_occurs M v j : 1 <= v <= M -> v <= j -> j < n -> hit (reverse O) M v j <-> occurs O v (n - 1 - j).
Proof.
  intros Hv Hj Hn. assert (forall t, t < n -> reverse O !! t = O !! (n - S t)) as Hrev by (intros t Ht; by apply reverse_lookup).
  assert (take v (drop (n - 1 - j) O) = drop (n - v) O <-> forall u, u < v -> O !! (n - 1 - j + u) = O !! (n - v + u)) as Heq.
  { split.
    - intros E u Hu. apply (f_equal (fun l => l !! u)) in E. rewrite lookup_take_lt in E by done. by rewrite !lookup_drop in E.
    - intros E. apply list_eq. intros u. destruct (decide (u < v)) as [Hu |]; [rewrite lookup_take_lt by done; rewrite !lookup_drop; by apply E |]. rewrite !lookup_ge_None_2; [done | rewrite length_drop; lia | rewrite length_take; lia]. }
  unfold hit, occurs, border. rewrite Heq, length_reverse. split.
  - intros (_ & _ & _ & _ & Hb). split; [lia |]. intros u Hu. specialize (Hb (v - 1 - u) ltac:(lia)). rewrite !Hrev in Hb by lia. replace (n - S (v - 1 - u)) with (n - v + u) in Hb by lia. rewrite Hb. f_equal. lia.
  - intros [_ Hu]. split_and!; try lia. intros t Ht. rewrite !Hrev by lia. specialize (Hu (v - 1 - t) ltac:(lia)). replace (n - v + (v - 1 - t)) with (n - S t) in Hu by lia. rewrite <- Hu. f_equal. lia.
Qed.
Lemma occurs_hit M v s : 1 <= v <= M -> occurs O v s -> hit (reverse O) M v (n - 1 - s).
Proof. intros Hv Ho. pose proof Ho as [Hs _]. apply hit_occurs; [done | lia | lia |]. by replace (n - 1 - (n - 1 - s)) with s by lia. Qed.

(** The result of the search, as the reference sees it *)
Lemma search_reference M lo s : 0 < lo -> searching (reverse O) M s -> cursor s = n ->
  longest_suffix O lo M = if bool_decide (longest_ngram s < lo) then None else Some (longest_ngram s, n - 1 - position s).
Proof.
  intros Hlo Hs Hc. assert (forall v s', 1 <= v <= M -> occurs O v s' -> v <= longest_ngram s /\ (v = longest_ngram s -> n - 1 - s' <= position s)) as Hbest.
  { intros v s' Hv Ho. pose proof Ho as [Hlt _]. apply (se_best _ _ s Hs); [by apply occurs_hit | lia]. }
  pose proof (longest_suffix_spec lo M) as Hspec. case_bool_decide as Hlt.
  - destruct (longest_suffix O lo M) as [[v s']|]; [| done]. destruct Hspec as (Hv & Hf & _). apply first_occurrence_Some in Hf as [Ho _]. destruct (Hbest v s' ltac:(lia) Ho). lia.
  - destruct (se_hit _ _ s Hs) as (H1 & H2 & H3 & H4); [lia |]. pose proof H3 as H3'. rewrite length_reverse in H3'. assert (occurs O (longest_ngram s) (n - 1 - position s)) as Hocc by (apply (hit_occurs M); [lia | done | done | done]).
    assert (first_occurrence O (longest_ngram s) = Some (n - 1 - position s)) as Hfirst. { apply first_occurrence_Some. split; [done |]. intros s' Hs' Ho. destruct (Hbest _ _ H1 Ho) as [_ Hp]. specialize (Hp eq_refl). lia. }
    destruct (longest_suffix O lo M) as [[v s']|].
    + destruct Hspec as (Hv & Hf & Hmax). pose proof Hf as [Ho _]%first_occurrence_Some. destruct (Hbest v s' ltac:(lia) Ho) as [Hle _]. destruct (decide (v = longest_ngram s)) as [-> |]; [congruence |]. rewrite Hmax in Hfirst by lia. done.
    + rewrite Hspec in Hfirst by lia. done.
Qed.
End reference.

Lemma find_reference O min_n max_n max_len k : (1 <= min_n <= max_n)%Z ->
  find_longest_matched_ngram_and_propose_tokens O min_n max_n max_len k = Ok (ngram_reference O (Z.to_nat min_n) (Z.to_nat max_n) (Z.to_nat (Z.min k (max_len - zlen O)))).
Proof.
  intros Hn. unfold find_longest_matched_ngram_and_propose_tokens, ngram_reference. pose proof (longest_suffix_spec O (Z.to_nat min_n) (Z.to_nat max_n)) as Hspec.
  destruct (zlen O <? min_n)%Z eqn:E1; [apply Z.ltb_lt in E1 | apply Z.ltb_ge in E1].
  { destruct (longest_suffix O _ _) as [[v s]|]; [| done]. destruct Hspec as (Hv & Hf & _). apply first_occurrence_Some in Hf as [[Hs _] _]. unfold zlen in E1. lia. }
  destruct (Z.min k (max_len - zlen O) <=? 0)%Z eqn:E2; [apply Z.leb_le in E2 | apply Z.leb_gt in E2]. { assert (Z.to_nat (Z.min k (max_len - zlen O)) = 0) as -> by lia. by destruct (longest_suffix O _ _) as [[v s]|]. }
  assert (0 < length O) as Hpos by (unfold zlen in E1; lia). assert (0 < Z.to_nat max_n) as HM by lia.
  destruct (search_spec (reverse O) (Z.to_nat max_n) HM (2 * length (reverse O)) _ (search_initial (reverse O) _ HM)) as (s & -> & Hs & Hc); [simpl; rewrite length_reverse; lia | simpl; lia |]. cbn [rbind]. rewrite length_reverse in Hc.
  rewrite (search_reference O (Z.to_nat max_n) (Z.to_nat min_n) s ltac:(lia) Hs Hc) in *. destruct (Z.of_nat (longest_ngram s) <? min_n)%Z eqn:E3; [apply Z.ltb_lt in E3; by rewrite bool_decide_eq_true_2 by lia | apply Z.ltb_ge in E3; rewrite bool_decide_eq_false_2 by lia]. f_equal.
  destruct (se_hit _ _ s Hs) as (H1 & H2 & H3 & _); [lia |]. rewrite length_reverse in H3. unfold zlen in *. set (k' := Z.min k (max_len - Z.of_nat (length O))) in *.
  rewrite py_slice_nonneg by lia. set (start := (_ - 1 - _ + _)%Z). assert (Z.to_nat start = length O - 1 - position s + longest_ngram s) as Hst by (unfold start; lia). rewrite Hst.
  destruct (Z.min_spec k' (Z.of_nat (length O) - start)) as [[Hm ->] | [Hm ->]]; [f_equal; lia |]. rewrite !take_ge; [done | rewrite length_drop; lia | rewrite length_drop; lia].
Qed.

#[local] Open Scope nat_scope.

Section batch.
Context (num_tokens_no_spec : list Z) (token_ids_cpu : list (list Z)).

(** The drafts a request with tokens gets by the reference *)
Definition expected_drafts (p : Proposer) (i : nat) : list Z :=
  match num_tokens_no_spec !! i, token_ids_cpu !! i with
  | Some n, Some row => ngram_reference (take (Z.to_nat n) row) (Z.to_nat (min_n p)) (Z.to_nat (max_n p)) (Z.to_nat (Z.min (num_spec p) (p_max_model_len p - n)))
  | _, _ => []
  end.

(** [n] rows of the arrays are there, and the counts are within the rows. *)
Record proposer_ok (n : nat) (p : Proposer) : Prop := {
  po_ngram : (1 <= min_n p <= max_n p)%Z;
  po_counts : n <= length num_tokens_no_spec;
  po_rows : n <= length token_ids_cpu;
  po_in_row : forall i x row, i < n -> num_tokens_no_spec !! i = Some x -> token_ids_cpu !! i = Some row -> (0 <= x <= zlen row)%Z;
  po_drafts : n <= length (valid_ngram_draft p);
  po_width : Forall (fun d => length d = Z.to_nat (num_spec p)) (valid_ngram_draft p);
  po_num_drafts : n <= length (valid_ngram_num_drafts p);
}.

Lemma ngram_reference_length O lo hi k : length (ngram_reference O lo hi k) <= k.
Proof. unfold ngram_reference. destruct (longest_suffix O lo hi) as [[v s]|]; simpl; [rewrite length_take |]; lia. Qed.
Lemma expected_drafts_length p i : length (expected_drafts p i) <= Z.to_nat (num_spec p).
Proof. unfold expected_drafts. destruct (num_tokens_no_spec !! i) as [n|], (token_ids_cpu !! i) as [row|]; simpl; [| lia ..]. etrans; [apply ngram_reference_length | lia]. Qed.

(** What the buffers of [p] hold for request [i] *)
Definition holds (p : Proposer) (i : nat) (ds : list Z) : Prop :=
  valid_ngram_num_drafts p !! i = Some (zlen ds) /\ exists d, valid_ngram_draft p !! i = Some d /\ take (length ds) d = ds.
Definition same_limits (p q : Proposer) : Prop := min_n p = min_n q /\ max_n p = max_n q /\ num_spec p = num_spec q /\ p_max_model_len p = p_max_model_len q.
Lemma expected_same_limits p q i : same_limits p q -> expected_drafts p i = expected_drafts q i.
Proof. intros (H1 & H2 & H3 & H4). unfold expected_drafts. by rewrite H1, H2, H3, H4. Qed.

Lemma find_expected n p i x row : proposer_ok n p -> i < n -> num_tokens_no_spec !! i = Some x -> token_ids_cpu !! i = Some row ->
  find_longest_matched_ngram_and_propose_tokens (py_slice row 0 x) (min_n p) (max_n p) (p_max_model_len p) (num_spec p) = Ok (expected_drafts p i).
Proof.
  intros Hp Hi Hx Hrow. pose proof (po_in_row n p Hp i x row Hi Hx Hrow) as Hin. rewrite py_slice_prefix by lia. rewrite find_reference by apply Hp.
  unfold expected_drafts. rewrite Hx, Hrow. assert (zlen (take (Z.to_nat x) row) = x) as -> by (unfold zlen in *; rewrite length_take; lia). done.
Qed.

Lemma propose_one_spec n p i : proposer_ok n p -> i < n -> exists q, propose_one num_tokens_no_spec token_ids_cpu p i = Ok q /\
  proposer_ok n q /\ same_limits q p /\ holds q i (expected_drafts p i) /\ forall j ds, j <> i -> holds p j ds -> holds q j ds.
Proof.
  intros Hp Hi. destruct (np_get_lt num_tokens_no_spec i) as (x & Hx & Gx); [pose proof (po_counts n p Hp); lia |]. destruct (np_get_lt token_ids_cpu i) as (row & Hrow & Grow); [pose proof (po_rows n p Hp); lia |].
  unfold propose_one. rewrite Gx, Grow. cbn [rbind]. rewrite (find_expected n p i x row) by done. cbn [rbind].
  rewrite np_set_lt by (pose proof (po_num_drafts n p Hp); lia). cbn [rbind]. pose proof (expected_drafts_length p i) as Hlen. set (out := expected_drafts p i) in *.
  destruct (np_get_lt (valid_ngram_draft p) i) as (d & Hd & Gd); [pose proof (po_drafts n p Hp); lia |]. pose proof (Forall_lookup_1 _ _ _ _ (po_width n p Hp) Hd) as Hw. cbv beta in Hw.
  assert (exists d', match out with [] => Ok (valid_ngram_draft p) | _ => do d <- np_get (valid_ngram_draft p) i in do d' <- np_assign d 0 (zlen out) out in np_set (valid_ngram_draft p) i d' end = Ok (<[i := d']> (valid_ngram_draft p)) /\ length d' = length d /\ take (length out) d' = out) as (d' & -> & Hl' & Ht').
  { destruct out as [|t out'] eqn:E; [exists d; by rewrite list_insert_id |]. rewrite <- E in *. rewrite Gd. cbn [rbind]. rewrite np_assign_in by (unfold zlen; lia). cbn [rbind]. rewrite np_set_lt by (eapply lookup_lt_Some, Hd). eexists. split; [done |]. split; [apply length_np_put; unfold zlen; lia |].
    pose proof (take_np_put d out 0 (zlen out) ltac:(lia) ltac:(unfold zlen; lia) ltac:(lia)) as Ht. unfold zlen in Ht. by rewrite Nat2Z.id in Ht. }
  cbn [rbind]. eexists. split; [done |]. split; [| split; [done | split]].
  - split; simpl; rewrite ?length_insert; try apply Hp. apply Forall_insert; [apply Hp | by rewrite Hl'].
  - split; simpl; [apply list_lookup_insert_eq; pose proof (po_num_drafts n p Hp); lia |]. exists d'. split; [| done]. apply list_lookup_insert_eq. pose proof (po_drafts n p Hp); lia.
  - intros j ds Hj (H1 & e & H2 & H3). split; simpl; [by rewrite list_lookup_insert_ne |]. exists e. by rewrite list_lookup_insert_ne.
Qed.

(** The requests may be taken in any order: each fills its own rows of the buffers. *)
Lemma batch_propose_numba_spec n valid p : proposer_ok n p -> Forall (fun i => i < n) valid -> NoDup valid -> exists q, batch_propose_numba num_tokens_no_spec token_ids_cpu valid p = Ok q /\
  proposer_ok n q /\ same_limits q p /\ (forall i, i ∈ valid -> holds q i (expected_drafts p i)) /\ forall j ds, j ∉ valid -> holds p j ds -> holds q j ds.
Proof.
  intros Hp Hv Hnd. revert p Hp. induction valid as [|i valid IH]; intros p Hp; [exists p; split_and!; try done; set_solver |]. apply Forall_cons in Hv as [Hi Hv]. apply NoDup_cons in Hnd as [Hni Hnd].
  destruct (propose_one_spec n p i Hp Hi) as (q & E & Hq & Hs & Hi' & Ho). cbn [batch_propose_numba]. rewrite E. cbn [rbind].
  destruct (IH Hv Hnd q Hq) as (r & Er & Hr & Hsr & Hvr & Hor). exists r. split; [done |]. split; [done |]. split; [unfold same_limits in *; intuition congruence |]. split.
  - intros j [-> | Hj]%elem_of_cons; [by apply Hor | rewrite <- (expected_same_limits q p j Hs); by apply Hvr].
  - intros j ds [H1 H2]%not_elem_of_cons Hh. by apply Hor, Ho.
Qed.

(** Whether a request gets drafts: it has sampled tokens and is below the longest length *)
Definition wants_drafts (p : Proposer) (sampled : list (list Z)) (i : nat) : bool :=
  match sampled !! i, num_tokens_no_spec !! i with Some (_ :: _), Some n => (n <? p_max_model_len p)%Z | _, _ => false end.
Lemma valid_requests_spec L sampled k : k + length sampled <= length num_tokens_no_spec -> exists valid, valid_requests L num_tokens_no_spec k sampled = Ok valid /\
  NoDup valid /\ forall i, i ∈ valid <-> exists t ids n, k <= i /\ sampled !! (i - k) = Some (t :: ids) /\ num_tokens_no_spec !! i = Some n /\ (n < L)%Z.
Proof.
  revert k. induction sampled as [|ids rest IH]; intros k Hk; simpl in *; [exists []; split_and!; [done | constructor | set_solver] |].
  destruct (IH (S k)) as (valid & E & Hnd & Hv); [lia |]. destruct (np_get_lt num_tokens_no_spec k) as (n & Hn & Gn); [lia |].
  assert (forall i, i ∈ valid <-> exists t xs m, k <= i /\ i <> k /\ (ids :: rest) !! (i - k) = Some (t :: xs) /\ num_tokens_no_spec !! i = Some m /\ (m < L)%Z) as Hv'.
  { intros i. rewrite Hv. split; intros (t & xs & m & H).
    - exists t, xs, m. destruct H as (H1 & H2 & H3). replace (i - k) with (S (i - S k)) by lia. split_and!; [lia | lia | done | apply H3 ..].
    - exists t, xs, m. destruct H as (H1 & Hne & H2 & H3). replace (i - k) with (S (i - S k)) in H2 by lia. split_and!; [lia | done | apply H3 ..]. }
  assert (k ∉ valid) as Hk' by (rewrite Hv'; naive_solver). destruct ids as [|t0 ids]; cbn [rbind]; [| rewrite Gn; cbn [rbind]]; rewrite E; cbn [rbind]; [exists valid | destruct (n <? L)%Z eqn:El; [exists (k :: valid) | exists valid]]; (split; [done |]).
  - split; [done |]. intros i. rewrite Hv'. split; intros (t & xs & m & H); [naive_solver |]. exists t, xs, m. destruct H as (H1 & H2 & H3). destruct (decide (i = k)) as [-> | Hne]; [by rewrite Nat.sub_diag in H2 |]. done.
  - split; [by constructor |]. intros i. rewrite elem_of_cons, Hv'. split; [intros [-> | (t & xs & m & H)]; [exists t0, ids, n; rewrite Nat.sub_diag; apply Z.ltb_lt in El; done | naive_solver] |].
    intros (t & xs & m & H1 & H2 & H3). destruct (decide (i = k)) as [-> | Hne]; [by left | right]. by exists t, xs, m.
  - split; [done |]. intros i. rewrite Hv'. split; intros (t & xs & m & H); [naive_solver |]. exists t, xs, m. destruct H as (H1 & H2 & H3 & H4). apply Z.ltb_ge in El. destruct (decide (i = k)) as [-> | Hne]; [simplify_eq; lia | done].
Qed.
Lemma valid_requests_wants p sampled : length sampled <= length num_tokens_no_spec -> exists valid, valid_requests (p_max_model_len p) num_tokens_no_spec 0 sampled = Ok valid /\ NoDup valid /\ forall i, i ∈ valid <-> wants_drafts p sampled i = true.
Proof.
  intros Hl. destruct (valid_requests_spec (p_max_model_len p) sampled 0 Hl) as (valid & E & Hnd & Hv). exists valid. split_and!; [done .. |]. intros i. rewrite Hv. unfold wants_drafts. rewrite Nat.sub_0_r. split.
  - intros (t & ids & n & _ & -> & -> & Hn). by apply Z.ltb_lt.
  - destruct (sampled !! i) as [[|t ids]|] eqn:E1, (num_tokens_no_spec !! i) as [n|] eqn:E2; try done. intros Hn%Z.ltb_lt. exists t, ids, n. split_and!; (done || lia).
Qed.

Lemma propose_spec sampled p : proposer_ok (length sampled) p -> exists q, propose sampled num_tokens_no_spec token_ids_cpu p = Ok ((fun i => if wants_drafts p sampled i then expected_drafts p i else []) <$> seq 0 (length sampled), q) /\
  proposer_ok (length sampled) q /\ same_limits q p.
Proof.
  intros Hp. destruct (valid_requests_wants p sampled) as (valid & E & Hnd & Hv); [apply Hp |]. unfold propose, batch_propose. rewrite E. cbn [rbind].
  assert (Forall (fun i => i < length sampled) valid) as Hlt.
  { apply Forall_forall. intros i Hi%Hv. unfold wants_drafts in Hi. destruct (sampled !! i) eqn:Es; [by eapply lookup_lt_Some | done]. }
  destruct (batch_propose_numba_spec _ valid p Hp Hlt Hnd) as (q & -> & Hq & Hs & Hin & _). cbn [rbind]. exists q. split; [| done].
  erewrite (rmap_fmap _ (fun i => if wants_drafts p sampled i then expected_drafts p i else [])); [done |]. intros i _.
  destruct (wants_drafts p sampled i) eqn:Ew; [rewrite bool_decide_eq_true_2 by (by apply Hv) | rewrite bool_decide_eq_false_2; [done | intros Hi%Hv; congruence]].
  destruct (Hin i) as (H1 & d & H2 & H3); [by apply Hv |]. apply np_get_Ok in H1 as ->, H2 as ->. cbn [rbind]. destruct (0 <? zlen (expected_drafts p i))%Z eqn:E0.
  - rewrite py_slice_prefix by apply zlen_nonneg. unfold zlen. by rewrite Nat2Z.id, H3.
  - apply Z.ltb_ge in E0. destruct (expected_drafts p i); [done |]. unfold zlen in E0. simpl in E0. lia.
Qed.
End batch.

(** C23 (equivalence): for 1 <= min_ngram <= max_ngram the search of the n-gram proposer, one pass over the reversed tokens with a table of max_ngram prefix lengths, ends and returns what the direct reading says: among the suffixes of min_ngram to max_ngram tokens that also occur earlier in the tokens, take the longest and its earliest occurrence, and propose the tokens that follow it, as many as k, the tokens there are and the length of the model allow. *)
Theorem ngram_search_correct origin_tokens min_ngram max_ngram max_model_len k : (1 <= min_ngram <= max_ngram)%Z ->
  find_longest_matched_ngram_and_propose_tokens origin_tokens min_ngram max_ngram max_model_len k
  = Ok (ngram_reference origin_tokens (Z.to_nat min_ngram) (Z.to_nat max_ngram) (Z.to_nat (Z.min k (max_model_len - zlen origin_tokens)))).
Proof.
  intros Hn.
  exact (find_reference origin_tokens min_ngram max_ngram max_model_len k Hn).
Qed.
Lemma ngram_search_correct_witness : find_longest_matched_ngram_and_propose_tokens [1; 2; 3; 4; 1; 2; 3; 5; 1; 2; 3]%Z 2 5 100 4 = Ok [4; 1; 2; 3]%Z.
Proof. rewrite ngram_search_correct by lia. vm_compute. reflexivity. Defined.

(** C24 (functional): NgramProposer.propose returns, for every request that sampled a token and is shorter than the longest length, the drafts of the reference on the request's own tokens (those before its speculative ones), and no drafts for the others; the buffers keep their shape for the next step. The drafts of a request are at most num_speculative_tokens and never take it past the longest length. *)
Theorem propose_correct sampled_token_ids num_tokens_no_spec token_ids_cpu p : proposer_ok num_tokens_no_spec token_ids_cpu (length sampled_token_ids) p -> exists drafts q,
  propose sampled_token_ids num_tokens_no_spec token_ids_cpu p = Ok (drafts, q) /\ proposer_ok num_tokens_no_spec token_ids_cpu (length sampled_token_ids) q /\ same_limits q p /\ length drafts = length sampled_token_ids /\
  forall i ds, drafts !! i = Some ds ->
    ds = (if wants_drafts num_tokens_no_spec p sampled_token_ids i then expected_drafts num_tokens_no_spec token_ids_cpu p i else []) /\ length ds <= Z.to_nat (num_spec p) /\
    forall n, num_tokens_no_spec !! i = Some n -> (n <= p_max_model_len p -> n + zlen ds <= p_max_model_len p)%Z.
Proof.
  intros Hp. destruct (propose_spec num_tokens_no_spec token_ids_cpu sampled_token_ids p Hp) as (q & E & Hq & Hs). eexists _, q. split; [exact E |]. split; [done |]. split; [done |].
  split; [by rewrite length_fmap, length_seq |]. intros i ds Hds. apply list_lookup_fmap_Some in Hds as (j & -> & [-> Hj]%lookup_seq). split; [done |]. simpl.
  destruct (wants_drafts _ _ _ i); [| split; [simpl; lia | intros n _ Hn; unfold zlen; simpl; lia]]. split; [apply expected_drafts_length |].
  intros n Hn Hle. unfold expected_drafts. rewrite Hn. destruct (token_ids_cpu !! i) as [row|]; [| unfold zlen; simpl; lia].
  match goal with |- context [ngram_reference ?O ?a ?b ?c] => pose proof (ngram_reference_length O a b c) end. unfold zlen. lia.
Qed.
Definition example_rows : list (list Z) := [[1; 2; 3; 1; 2; 0; 0; 0]; [7; 7; 7; 7; 7; 7; 7; 7]; [5; 6; 5; 9; 0; 0; 0; 0]]%Z.
Lemma propose_correct_witness : exists drafts q, propose [[2]; [7]; []]%Z [5; 8; 3]%Z example_rows (new_Proposer 2 3 4 8 3) = Ok (drafts, q) /\ drafts = [[3; 1; 2]; []; []]%Z.
Proof.
  destruct (propose_correct [[2]; [7]; []]%Z [5; 8; 3]%Z example_rows (new_Proposer 2 3 4 8 3)) as (drafts & q & E & _).
  - split; simpl; try lia; [| repeat constructor]. intros [|[|[|i]]] x row Hi Hx Hrow; simplify_eq/=; unfold zlen; simpl; lia.
  - exists drafts, q. split; [exact E |]. vm_compute in E. congruence.
Defined.
