(* ===== verification/NelssaClusters.v ===== *)
(** * NelssaClusters
    How NELSSA lays out the offloaded keys and values of one layer by clusters:
    vllm/v1/core/kmeans_utils.py (the index part of segment_k_means),
    vllm/v1/nelssa/clustering.py (numbers of clusters, offsets, reorganization) and the
    reorganization of the C++ extension (vllm/v1/nelssa/clustering_cpu.cpp).

    A tensor of shape [kv_heads, tokens, head_dim] is a list of heads of lists of vectors; the
    type of vectors is a parameter. Which cluster a token belongs to comes from inner products
    of floats and is an input, the list [max_idx]. Token ids, sizes and offsets are natural
    numbers. *)
From S2P Require Import Prelude CacheHit KVCacheInterface SizingInv WorkerBlockTable InputBatchInv.
(** ** Numbers of segments and clusters *)

(** round(a / b) for a non-negative [a] and a positive [b]: to the nearest integer, halves to
    the even one. The quotients of the code are below 2^50, where the float division does not
    change the result. *)
Definition pyround (a b : Z) : Z :=
  let q := a / b in let r := a mod b in
  if 2 * r <? b then q else if b <? 2 * r then q + 1 else if Z.even q then q else q + 1.

(** The three lines of cluster_sparse_kv *)
Definition n_segment (total_tokens : Z) : Z := Z.max (pyround total_tokens 8192) 1.
Definition n_centroids (total_tokens : Z) : Z :=
  let n_factor := Z.lcm 8 (n_segment total_tokens) in
  Z.max (pyround (pyround total_tokens 16) n_factor * n_factor) n_factor.
(** GPUModelRunner._compute_max_n_centroids *)
Definition _compute_max_n_centroids (max_model_len : Z) : Z :=
  let n_segment := Z.max (pyround max_model_len 8192) 1 in
  let n_factor := Z.lcm 8 n_segment in
  Z.max (pyround (pyround max_model_len 16) n_factor * n_factor) n_factor.

#[local] Open Scope nat_scope.

(** ** The index part of segment_k_means *)

(** The token a centroid starts from: int(i * (num_tokens / num_centroids) + num_tokens / num_centroids / 2) *)
Definition centroid_index (num_tokens num_centroids i : Z) : Z := ((2 * i + 1) * num_tokens / (2 * num_centroids))%Z.

(** data_cnt of _triton_k_means_train: the number of tokens of every cluster *)
Definition data_cnt (num_centroids : nat) (max_idx : list nat) : list nat :=
  (fun k => length (filter (fun x => x = k) max_idx)) <$> seq 0 num_centroids.
Definition list_max (l : list nat) : nat := foldr Nat.max 0 l.

(** One lane of _triton_reverse_index_kernel: the atomic counter of the token's cluster gives
    the place of the token. An access outside the tensors is [IndexError]. *)
Record RevIndex := mkRI {
  ri_clusters : list (list nat);
  ri_size : list nat;
}.
Definition reverse_token (max_idx : list nat) (n : nat) (st : RevIndex) : res RevIndex :=
  do k <- np_get max_idx n in
  do cnt <- np_get (ri_size st) k in
  do sizes <- np_set (ri_size st) k (S cnt) in
  do row <- np_get (ri_clusters st) k in
  do row' <- np_set row cnt n in
  do cs <- np_set (ri_clusters st) k row' in
  Ok (mkRI cs sizes).
Fixpoint reverse_tokens (max_idx : list nat) (order : list nat) (st : RevIndex) : res RevIndex :=
  match order with
  | [] => Ok st
  | n :: order' => do st' <- reverse_token max_idx n st in reverse_tokens max_idx order' st'
  end.
(** [order] is the order in which the lanes of the GPU reach their atomic operation. *)
Definition triton_reverse_index (order : list nat) (max_idx : list nat) (num_centroids max_cluster_size : nat) : res RevIndex :=
  reverse_tokens max_idx order (mkRI (replicate num_centroids (replicate max_cluster_size 0)) (replicate num_centroids 0)).

(** The clusters of all heads, from the assignment of the last training step *)
Definition segment_k_means (orders max_idx : list (list nat)) (num_centroids num_segments : nat) : res (list RevIndex) :=
  if bool_decide (num_centroids mod num_segments = 0) then
    let max_cluster_size := list_max ((fun m => list_max (data_cnt num_centroids m)) <$> max_idx) in
    rmap (fun x => triton_reverse_index x.1 x.2 num_centroids max_cluster_size) (zip orders max_idx)
  else Err AssertionError.

(** ** Offsets *)
Fixpoint cumsum (acc : nat) (l : list nat) : list nat :=
  match l with [] => [] | x :: l' => (acc + x) :: cumsum (acc + x) l' end.
(** One head of _compute_cluster_offsets; the numbers of tokens are far below 2^31. *)
Definition _compute_cluster_offsets (cluster_size : list nat) : list nat := take (length cluster_size) (0 :: cumsum 0 cluster_size).

(** ** Reorganization of a head *)
Section head.
Context {A : Type}.
Implicit Types src dst : list A.

(** [l[start:stop] = vals] of a tensor: one element is spread over the slice, and any other
    difference in length raises. *)
Definition torch_assign {B} (l : list B) (start stop : nat) (vals : list B) : res (list B) :=
  let lo := start `min` length l in let hi := stop `min` length l in
  if bool_decide (length vals = hi - lo) then Ok (take lo l ++ vals ++ drop (lo + length vals) l)
  else match vals with
       | [v] => Ok (take lo l ++ replicate (hi - lo) v ++ drop (hi `max` lo) l)
       | _ => Err RuntimeError
       end.
(** torch.index_select(src, 0, index) *)
Definition index_select src (index : list nat) : res (list A) := rmap (np_get src) index.

(** [for centroid_idx in range(n_centroids): ...]: the source positions in their new order. The
    list dst_positions the code also fills is not used. *)
Fixpoint fill_positions (clusters : list (list nat)) (sizes : list nat) (cs : list nat) (src_positions : list nat) (pos : nat) : res (list nat * nat) :=
  match cs with
  | [] => Ok (src_positions, pos)
  | c :: cs' =>
    do size <- np_get sizes c in
    if bool_decide (0 < size) then
      do row <- np_get clusters c in
      do p <- torch_assign src_positions pos (pos + size) (take size row) in
      fill_positions clusters sizes cs' p (pos + size)
    else fill_positions clusters sizes cs' src_positions pos
  end.
Definition reorganize_head (clusters : list (list nat)) (sizes : list nat) (n_centroids total_tokens : nat) src : res (list A) :=
  do r <- fill_positions clusters sizes (seq 0 n_centroids) (replicate total_tokens 0) 0 in
  do sel <- index_select src (take r.2 r.1) in
  torch_assign src 0 (length src) sel.

(** ** Reorganization of a head in C++
    [dst] is not initialised; an access outside a tensor is [IndexError]. *)
Fixpoint copy_tokens (idx : list nat) (at_ : nat) src dst : res (list A) :=
  match idx with
  | [] => Ok dst
  | kv_id :: idx' =>
    do dst' <- match src !! kv_id with Some x => np_set dst at_ x | None => Ok dst end in
    copy_tokens idx' (S at_) src dst'
  end.
Fixpoint copy_clusters (clusters : list (list nat)) (sizes : list nat) (cs : list nat) (dst_off : nat) src dst : res (list A) :=
  match cs with
  | [] => Ok dst
  | c :: cs' =>
    do size <- np_get sizes c in
    if bool_decide (size <= 0) then copy_clusters clusters sizes cs' dst_off src dst
    else
      do row <- np_get clusters c in
      if bool_decide (size <= length row) then
        do dst' <- copy_tokens (take size row) dst_off src dst in
        copy_clusters clusters sizes cs' (dst_off + size) src dst'
      else Err IndexError
  end.
Definition reorganize_head_cpp (clusters : list (list nat)) (sizes : list nat) src dst : res (list A) :=
  copy_clusters clusters sizes (seq 0 (length sizes)) 0 src dst.

(** ** The layout a lookup by cluster relies on
    Cluster [c] of a reorganized head, at its offset *)
Definition cluster_slice (offsets sizes : list nat) (buf : list A) (c : nat) : list A :=
  match offsets !! c, sizes !! c with Some o, Some s => take s (drop o buf) | _, _ => [] end.
End head.

#[local] Open Scope nat_scope.

Lemma filter_agree {B} (P Q : B -> Prop) `{!forall x, Decision (P x), !forall x, Decision (Q x)} (l : list B) : (forall x, x ∈ l -> P x <-> Q x) -> filter P l = filter Q l.
Proof.
  induction l as [|x l IH]; [done |]. intros Hl. rewrite !filter_cons, IH by (intros y Hy; apply Hl; by right). pose proof (Hl x ltac:(by left)) as Hx. destruct (decide (P x)), (decide (Q x)); tauto || done.
Qed.

Lemma list_max_elem l x : x ∈ l -> x <= list_max l.
Proof. induction 1; simpl; lia. Qed.

(** ** The reverse index *)
Section reverse.
Context (max_idx : list nat) (nc mcs : nat).

(** The tokens of cluster [k], in the order they were placed *)
Definition assigned (k : nat) (order : list nat) : list nat := filter (fun n => max_idx !! n = Some k) order.
Record placed (done : list nat) (st : RevIndex) : Prop := {
  pl_clusters : length (ri_clusters st) = nc;
  pl_sizes : length (ri_size st) = nc;
  pl_size : forall k, k < nc -> ri_size st !! k = Some (length (assigned k done));
  pl_row : forall k, k < nc -> exists row, ri_clusters st !! k = Some row /\ length row = mcs /\ take (length (assigned k done)) row = assigned k done;
}.
Lemma assigned_snoc k done n : assigned k (done ++ [n]) = assigned k done ++ (if decide (max_idx !! n = Some k) then [n] else []).
Proof. unfold assigned. by rewrite filter_app. Qed.
Lemma assigned_app_le k done rest : length (assigned k done) <= length (assigned k (done ++ rest)).
Proof. unfold assigned. rewrite filter_app, length_app. lia. Qed.

Lemma reverse_token_spec done n k st : placed done st -> max_idx !! n = Some k -> k < nc -> length (assigned k (done ++ [n])) <= mcs ->
  exists st', reverse_token max_idx n st = Ok st' /\ placed (done ++ [n]) st'.
Proof.
  intros Hp Hn Hk Hlen. destruct (pl_row done st Hp k Hk) as (row & Hrow & Hw & Ht). pose proof (pl_size done st Hp k Hk) as Hs. rewrite assigned_snoc, decide_True in Hlen by done. rewrite length_app in Hlen. simpl in Hlen.
  unfold reverse_token. apply np_get_Ok in Hn as E. rewrite E. cbn [rbind]. apply np_get_Ok in Hs as E'. rewrite E'. cbn [rbind]. rewrite np_set_lt by (rewrite (pl_sizes done st Hp); lia). cbn [rbind].
  apply np_get_Ok in Hrow as E''. rewrite E''. cbn [rbind]. rewrite np_set_lt by lia. cbn [rbind]. rewrite np_set_lt by (rewrite (pl_clusters done st Hp); lia). cbn [rbind].
  eexists. split; [done |]. split; simpl; rewrite ?length_insert; [apply Hp | apply Hp | |]; intros j Hj; rewrite assigned_snoc.
  - destruct (decide (j = k)) as [-> | Hne]; [rewrite list_lookup_insert_eq by (rewrite (pl_sizes done st Hp); lia); rewrite decide_True by done; rewrite length_app; simpl; f_equal; lia |].
    rewrite list_lookup_insert_ne by done. rewrite decide_False by congruence. rewrite app_nil_r. by apply Hp.
  - destruct (decide (j = k)) as [-> | Hne].
    + eexists. split; [apply list_lookup_insert_eq; rewrite (pl_clusters done st Hp); lia |]. split; [by rewrite length_insert |]. rewrite decide_True by done. rewrite length_app. simpl. rewrite Nat.add_1_r.
      erewrite take_S_r by (apply list_lookup_insert_eq; lia). f_equal. by rewrite take_insert_ge by lia.
    + rewrite list_lookup_insert_ne by done. rewrite decide_False by congruence. rewrite app_nil_r. by apply Hp.
Qed.
Lemma reverse_tokens_spec order : forall done st, placed done st -> (forall n, n ∈ order -> exists k, max_idx !! n = Some k /\ k < nc) -> (forall k, k < nc -> length (assigned k (done ++ order)) <= mcs) ->
  exists st', reverse_tokens max_idx order st = Ok st' /\ placed (done ++ order) st'.
Proof.
  induction order as [|n order IH]; intros done st Hp Ho Hc; [exists st; by rewrite app_nil_r |]. destruct (Ho n) as (k & Hn & Hk); [by left |].
  replace (done ++ n :: order) with ((done ++ [n]) ++ order) in * by by rewrite <- app_assoc.
  destruct (reverse_token_spec done n k st Hp Hn Hk) as (st' & E & Hp'); [etrans; [apply assigned_app_le | by apply Hc] |].
  cbn [reverse_tokens]. rewrite E. cbn [rbind]. apply IH; [done | | done]. intros m Hm. apply Ho. by right.
Qed.
Lemma reverse_index_spec order : (forall n, n ∈ order -> exists k, max_idx !! n = Some k /\ k < nc) -> (forall k, k < nc -> length (assigned k order) <= mcs) ->
  exists st, triton_reverse_index order max_idx nc mcs = Ok st /\ placed order st.
Proof.
  intros Ho Hc. apply (reverse_tokens_spec order []); [| done | done]. split; simpl; rewrite ?length_replicate; [done | done | |]; intros k Hk; [by apply lookup_replicate_2 |].
  eexists. split; [by apply lookup_replicate_2 |]. split; [apply length_replicate | by apply take_0].
Qed.

(** Counting *)
Lemma assigned_count k : length (assigned k (seq 0 (length max_idx))) = length (filter (fun x => x = k) max_idx).
Proof.
  unfold assigned. induction max_idx as [|x l IH] using rev_ind; [done |]. rewrite length_app. simpl. rewrite Nat.add_1_r, seq_S. simpl. rewrite !filter_app, !length_app. f_equal.
  - rewrite <- IH. f_equal. apply filter_agree. intros n [_ Hn]%elem_of_seq. by rewrite lookup_app_l.
  - rewrite !filter_cons, !filter_nil. rewrite lookup_app_r, Nat.sub_diag by done. simpl. destruct (decide (x = k)) as [-> | Hne]; [by rewrite decide_True | by rewrite decide_False by congruence].
Qed.
Lemma assigned_perm k order order' : order ≡ₚ order' -> assigned k order ≡ₚ assigned k order'.
Proof. intros H. unfold assigned. by rewrite H. Qed.
End reverse.

(** ** Selecting and reorganizing *)
Section reorganize.
Context {A : Type}.
Implicit Types src dst : list A.

Definition select src (ids : list nat) : list A := omap (fun i => src !! i) ids.
Lemma select_app src a b : select src (a ++ b) = select src a ++ select src b.
Proof. apply omap_app. Qed.
Lemma select_cons src i ids x : src !! i = Some x -> select src (i :: ids) = x :: select src ids.
Proof. intros Hx. unfold select. simpl. by rewrite Hx. Qed.
Lemma length_select src ids : Forall (fun i => i < length src) ids -> length (select src ids) = length ids.
Proof. induction 1 as [|i ids [x Hx]%lookup_lt_is_Some _ IH]; [done |]. rewrite (select_cons src i ids x) by done. simpl. by rewrite IH. Qed.
Lemma index_select_Ok src ids : Forall (fun i => i < length src) ids -> index_select src ids = Ok (select src ids).
Proof.
  unfold index_select. induction 1 as [|i ids [x Hx]%lookup_lt_is_Some _ IH]; [done |]. cbn [rmap]. apply np_get_Ok in Hx as E. rewrite E. cbn [rbind]. rewrite IH. cbn [rbind]. by rewrite (select_cons src i ids x).
Qed.
Lemma select_all src : select src (seq 0 (length src)) = src.
Proof.
  unfold select. induction src as [|x l IH] using rev_ind; [done |]. rewrite length_app. simpl. rewrite Nat.add_1_r, seq_S, omap_app. f_equal; [| simpl; by rewrite lookup_app_r, Nat.sub_diag by done].
  rewrite <- IH at 2. apply list_omap_ext. apply Forall2_same_length_lookup_2; [done |]. intros i a b Ha Hb. simplify_eq. apply lookup_seq in Ha as [-> Hi]. by rewrite lookup_app_l.
Qed.
Lemma select_perm src ids : ids ≡ₚ seq 0 (length src) -> select src ids ≡ₚ src.
Proof. intros H. rewrite <- (select_all src) at 2. unfold select. by rewrite H. Qed.

Section clusters.
Context (clusters : list (list nat)) (sizes : list nat).
(** The tokens of every cluster *)
Definition parts : list (list nat) := zip_with take sizes clusters.
Definition parts_ok : Prop := Forall2 (fun s row => s <= length row) sizes clusters.

Lemma parts_length : parts_ok -> length parts = length sizes.
Proof. intros H. unfold parts. rewrite length_zip_with. apply Forall2_length in H. lia. Qed.
Lemma parts_lookup c s row : sizes !! c = Some s -> clusters !! c = Some row -> parts !! c = Some (take s row).
Proof. intros Hs Hr. unfold parts. apply lookup_zip_with_Some. eauto. Qed.
Lemma parts_at c : parts_ok -> c < length sizes -> exists s row, sizes !! c = Some s /\ clusters !! c = Some row /\ s <= length row /\ parts !! c = Some (take s row).
Proof.
  intros H [s Hs]%lookup_lt_is_Some. destruct (Forall2_lookup_l _ _ _ _ _ H Hs) as (row & Hr & Hle). exists s, row. split_and!; [done .. |]. by apply parts_lookup.
Qed.

(** The positions of the clusters before [c] *)
Definition before (c : nat) : list nat := concat (take c parts).
Lemma before_S c p : parts !! c = Some p -> before (S c) = before c ++ p.
Proof. intros Hp. unfold before. erewrite take_S_r by done. by rewrite concat_app, concat_cons, concat_nil, app_nil_r. Qed.
Lemma before_all : parts_ok -> before (length sizes) = concat parts.
Proof. intros H. unfold before. by rewrite take_ge by (by rewrite parts_length). Qed.
Lemma before_le c : length (before c) <= length (concat parts).
Proof. unfold before. rewrite <- (take_drop c parts) at 2. rewrite concat_app, length_app. lia. Qed.

Lemma assign_prefix done (vals : list nat) total n : length vals = n -> length done + n <= total ->
  torch_assign (done ++ replicate (total - length done) 0) (length done) (length done + n) vals = Ok ((done ++ vals) ++ replicate (total - length (done ++ vals)) 0).
Proof.
  intros <- Hle. unfold torch_assign. rewrite length_app, length_replicate. rewrite !Nat.min_l by lia. rewrite bool_decide_eq_true_2 by lia. f_equal.
  rewrite take_app_length. rewrite drop_app_ge by lia. rewrite drop_replicate. rewrite <- app_assoc. do 2 f_equal. rewrite length_app. f_equal. lia.
Qed.
Lemma fill_positions_spec total : parts_ok -> length (concat parts) <= total -> forall m c, c + m = length sizes ->
  fill_positions clusters sizes (seq c m) (before c ++ replicate (total - length (before c)) 0) (length (before c)) = Ok (concat parts ++ replicate (total - length (concat parts)) 0, length (concat parts)).
Proof.
  intros Hok Htot. induction m as [|m IH]; intros c Hc; [simpl; rewrite Nat.add_0_r in Hc; subst c; by rewrite before_all |].
  destruct (parts_at c Hok) as (s & row & Hs & Hr & Hle & Hp); [lia |]. cbn [seq fill_positions]. apply np_get_Ok in Hs as E. rewrite E. cbn [rbind]. pose proof (before_S c _ Hp) as HS.
  destruct (bool_decide (0 < s)) eqn:Eb.
  - apply np_get_Ok in Hr as E'. rewrite E'. cbn [rbind]. rewrite assign_prefix; [| rewrite length_take; lia | pose proof (before_le (S c)) as Hb; rewrite HS, length_app, length_take in Hb; lia]. cbn [rbind].
    rewrite <- HS. replace (length (before c) + s) with (length (before (S c))); [apply IH; lia |]. rewrite HS, length_app, length_take. lia.
  - apply bool_decide_eq_false in Eb. assert (s = 0) as -> by lia. rewrite take_0, app_nil_r in HS. rewrite <- HS. apply IH. lia.
Qed.
Lemma reorganize_head_spec src : parts_ok -> length (concat parts) = length src -> Forall (fun i => i < length src) (concat parts) ->
  reorganize_head clusters sizes (length sizes) (length src) src = Ok (select src (concat parts)).
Proof.
  intros Hok Hl Hin. unfold reorganize_head. pose proof (fill_positions_spec (length src) Hok ltac:(lia) (length sizes) 0 eq_refl) as H. simpl in H. rewrite Nat.sub_0_r in H. rewrite H. cbn [rbind fst snd].
  rewrite take_app_length. rewrite index_select_Ok by done. cbn [rbind]. unfold torch_assign. rewrite Nat.min_0_l, Nat.min_id. rewrite bool_decide_eq_true_2 by (rewrite length_select by done; lia).
  f_equal. rewrite take_0. simpl. rewrite drop_ge by (rewrite length_select by done; lia). by rewrite app_nil_r.
Qed.

(** The C++ copies *)
Lemma copy_tokens_spec src ids : Forall (fun i => i < length src) ids -> forall pre rest, length ids <= length rest ->
  copy_tokens ids (length pre) src (pre ++ rest) = Ok ((pre ++ select src ids) ++ drop (length ids) rest).
Proof.
  induction 1 as [|i ids [x Hx]%lookup_lt_is_Some Hin IH]; intros pre rest Hl; [simpl; by rewrite app_nil_r |]. destruct rest as [|y rest]; [simpl in Hl; lia |]. cbn [copy_tokens]. rewrite Hx.
  rewrite np_set_lt by (rewrite length_app; simpl; lia). cbn [rbind]. rewrite insert_app_r_alt by lia. rewrite Nat.sub_diag. simpl.
  specialize (IH (pre ++ [x]) rest ltac:(simpl in Hl; lia)). rewrite length_app, Nat.add_comm, <- app_assoc in IH. simpl in IH. rewrite IH, Hx. by rewrite <- !app_assoc.
Qed.
Lemma copy_clusters_spec src : parts_ok -> Forall (fun i => i < length src) (concat parts) -> forall m c rest, c + m = length sizes -> length (concat parts) <= length (before c) + length rest ->
  copy_clusters clusters sizes (seq c m) (length (before c)) src (select src (before c) ++ rest) = Ok (select src (concat parts) ++ drop (length (concat parts) - length (before c)) rest).
Proof.
  intros Hok Hin. assert (forall c, length (select src (before c)) = length (before c)) as Hlb.
  { intros c. apply length_select. unfold before. rewrite <- (take_drop c parts), concat_app, Forall_app in Hin. apply Hin. }
  induction m as [|m IH]; intros c rest Hc Hl; [simpl; rewrite Nat.add_0_r in Hc; subst c; rewrite before_all by done; by rewrite Nat.sub_diag |].
  destruct (parts_at c Hok) as (s & row & Hs & Hr & Hle & Hp); [lia |]. cbn [seq copy_clusters]. apply np_get_Ok in Hs as E. rewrite E. cbn [rbind]. pose proof (before_S c _ Hp) as HS. pose proof (before_le (S c)) as Hb.
  rewrite HS, length_app, length_take in Hb. destruct (bool_decide (s <= 0)) eqn:Eb.
  - apply bool_decide_eq_true in Eb. assert (s = 0) as -> by lia. rewrite take_0, app_nil_r in HS. rewrite <- HS. apply IH; [lia | by rewrite HS].
  - apply np_get_Ok in Hr as E'. rewrite E'. cbn [rbind]. rewrite bool_decide_eq_true_2 by done. rewrite <- (Hlb c). rewrite copy_tokens_spec; [| | rewrite length_take; lia].
    + cbn [rbind]. rewrite <- select_app, <- HS, length_take. rewrite Nat.min_l by done. replace (length (select src (before c)) + s) with (length (before (S c))) by (rewrite Hlb, HS, length_app, length_take; lia).
      rewrite IH; [| lia | rewrite length_drop, HS, length_app, length_take; lia]. rewrite drop_drop. do 3 f_equal. rewrite Hlb, HS, length_app, length_take. lia.
    + apply Forall_concat in Hin. eapply Forall_lookup_1 in Hin; [exact Hin | exact Hp].
Qed.
Lemma reorganize_head_cpp_spec src dst : parts_ok -> length (concat parts) = length src -> length dst = length src -> Forall (fun i => i < length src) (concat parts) ->
  reorganize_head_cpp clusters sizes src dst = Ok (select src (concat parts)).
Proof.
  intros Hok Hl Hd Hin. unfold reorganize_head_cpp. pose proof (copy_clusters_spec src Hok Hin (length sizes) 0 dst eq_refl ltac:(simpl; lia)) as H. simpl in H. rewrite H. f_equal. rewrite drop_ge by lia. by rewrite app_nil_r.
Qed.

(** ** Offsets *)
Lemma cumsum_lookup l : forall acc c, c < length l -> cumsum acc l !! c = Some (acc + sum_list (take (S c) l)).
Proof.
  induction l as [|x l IH]; intros acc c Hc; simpl in *; [lia |]. destruct c as [|c]; simpl; [f_equal; lia |]. rewrite IH by lia. simpl. f_equal. lia.
Qed.
Lemma offsets_lookup c : parts_ok -> c < length sizes -> _compute_cluster_offsets sizes !! c = Some (length (before c)).
Proof.
  intros Hok Hc. unfold _compute_cluster_offsets. rewrite lookup_take_lt by done. assert (forall d, d <= length sizes -> length (before d) = sum_list (take d sizes)) as Hb.
  { induction d as [|d IH]; intros Hd; [done |]. destruct (parts_at d Hok) as (s & row & Hs & Hr & Hle & Hp); [lia |]. rewrite (before_S d _ Hp), length_app, length_take, IH by lia. erewrite take_S_r by done. rewrite sum_list_with_app. simpl. lia. }
  rewrite Hb by lia. destruct c as [|c]; [done |]. simpl. rewrite cumsum_lookup by lia. done.
Qed.
Lemma offsets_length : length (_compute_cluster_offsets sizes) = length sizes.
Proof. unfold _compute_cluster_offsets. rewrite length_take. simpl. assert (forall acc l, length (cumsum acc l) = length l) as -> by (intros acc l; revert acc; induction l; intros; simpl; auto). lia. Qed.
Lemma cluster_slice_spec src c p : parts_ok -> Forall (fun i => i < length src) (concat parts) -> parts !! c = Some p ->
  cluster_slice (_compute_cluster_offsets sizes) sizes (select src (concat parts)) c = select src p.
Proof.
  intros Hok Hin Hp. assert (c < length sizes) as Hc by (rewrite <- parts_length by done; by eapply lookup_lt_Some). destruct (parts_at c Hok Hc) as (s & row & Hs & Hr & Hle & Hp'). simplify_eq.
  unfold cluster_slice. rewrite offsets_lookup, Hs by done. assert (concat parts = before c ++ take s row ++ concat (drop (S c) parts)) as Hcat.
  { rewrite <- (take_drop_middle parts c _ Hp) at 1. by rewrite concat_app, concat_cons. }
  rewrite Hcat in *. apply Forall_app in Hin as [Hin1 [Hin2 _]%Forall_app]. rewrite !select_app. rewrite drop_app_length' by (by rewrite length_select). rewrite take_app_length'; [done |]. rewrite length_select, length_take by done. lia.
Qed.
End clusters.
End reorganize.

(** ** The clusters of k-means partition the tokens *)
Section partition.
Context (max_idx : list nat).

Definition below (m n : nat) : Prop := match max_idx !! n with Some k => k < m | None => False end.
#[export] Instance below_dec m n : Decision (below m n).
Proof. unfold below. destruct (max_idx !! n); apply _. Defined.
Lemma assigned_below m order : filter (below m) order ++ assigned max_idx m order ≡ₚ filter (below (S m)) order.
Proof.
  unfold assigned. induction order as [|n order IH]; [done |]. rewrite !filter_cons.
  assert (below (S m) n <-> below m n \/ max_idx !! n = Some m) as HS by (unfold below; destruct (max_idx !! n) as [k|]; [| naive_solver]; split; [intros; destruct (decide (k = m)); [right; congruence | left; lia] | intros [? | [=]]; lia]).
  assert (below m n -> max_idx !! n <> Some m) as Hd by (unfold below; intros H1 H2; rewrite H2 in H1; lia).
  destruct (decide (below m n)), (decide (max_idx !! n = Some m)), (decide (below (S m) n)); try tauto; simpl; rewrite <- ?Permutation_middle; by rewrite IH.
Qed.
Lemma assigned_concat nc order : (forall n, n ∈ order -> exists k, max_idx !! n = Some k /\ k < nc) -> concat ((fun k => assigned max_idx k order) <$> seq 0 nc) ≡ₚ order.
Proof.
  intros H. assert (forall m, concat ((fun k => assigned max_idx k order) <$> seq 0 m) ≡ₚ filter (below m) order) as Hm.
  { induction m as [|m IH]; [simpl; symmetry; apply Permutation_nil_r; clear H; induction order as [|n order IH]; [done |]; rewrite filter_cons, decide_False; [done | unfold below; destruct (max_idx !! n); lia] |].
    rewrite seq_S, fmap_app, concat_app. simpl. by rewrite app_nil_r, IH, assigned_below. }
  rewrite Hm. clear Hm. induction order as [|n order IH]; [done |]. rewrite filter_cons, decide_True; [f_equiv; apply IH; intros m Hm; apply H; by right |].
  destruct (H n) as (k & Hn & Hk); [by left |]. unfold below. by rewrite Hn.
Qed.

(** The reverse index, as the parts of the reorganization *)
Lemma placed_parts nc mcs order st : placed max_idx nc mcs order st -> parts (ri_clusters st) (ri_size st) = (fun k => assigned max_idx k order) <$> seq 0 nc.
Proof.
  intros Hp. apply list_eq. intros k. unfold parts. destruct (decide (k < nc)) as [Hk | Hk].
  - destruct (pl_row _ _ _ _ _ Hp k Hk) as (row & Hr & _ & Ht). rewrite list_lookup_fmap, lookup_seq_lt by done. simpl. apply lookup_zip_with_Some. exists (length (assigned max_idx k order)), row. split_and!; [by rewrite Ht | by apply Hp | done].
  - rewrite (proj2 (lookup_ge_None _ k)); [symmetry; apply lookup_ge_None; rewrite length_fmap, length_seq; lia |]. rewrite length_zip_with, (pl_clusters _ _ _ _ _ Hp), (pl_sizes _ _ _ _ _ Hp). lia.
Qed.
Lemma placed_parts_ok nc mcs order st : placed max_idx nc mcs order st -> parts_ok (ri_clusters st) (ri_size st).
Proof.
  intros Hp. unfold parts_ok. apply Forall2_same_length_lookup_2; [by rewrite (pl_clusters _ _ _ _ _ Hp), (pl_sizes _ _ _ _ _ Hp) |].
  intros k s row Hs Hr. assert (k < nc) as Hk by (rewrite <- (pl_sizes _ _ _ _ _ Hp); by eapply lookup_lt_Some). destruct (pl_row _ _ _ _ _ Hp k Hk) as (row' & Hr' & _ & Ht). rewrite (pl_size _ _ _ _ _ Hp k Hk) in Hs. simplify_eq.
  rewrite <- Ht at 1. rewrite length_take. lia.
Qed.
(** All tokens of a head are placed, whatever the order of the lanes. *)
Lemma reverse_index_partition nc mcs order : Forall (fun k => k < nc) max_idx -> order ≡ₚ seq 0 (length max_idx) -> list_max (data_cnt nc max_idx) <= mcs ->
  exists st, triton_reverse_index order max_idx nc mcs = Ok st /\ placed max_idx nc mcs order st.
Proof.
  intros Hlt Hperm Hmax. apply reverse_index_spec.
  - intros n Hn. rewrite Hperm in Hn. apply elem_of_seq in Hn as [_ [k Hk]%lookup_lt_is_Some]. exists k. split; [done |]. by apply (Forall_lookup_1 _ _ _ _ Hlt Hk).
  - intros k Hk. rewrite (Permutation_length (assigned_perm max_idx k _ _ Hperm)), assigned_count. etrans; [| exact Hmax]. apply (list_max_elem (data_cnt nc max_idx)). unfold data_cnt. apply list_elem_of_fmap. exists k. split; [done |]. apply elem_of_seq. lia.
Qed.
End partition.
