(* ===== verification/NelssaWorker.v ===== *)
(** * NelssaWorker
    The state NELSSA keeps in a worker for long requests: buffers of offloaded keys and values,
    cluster metadata and the staging slots through which a prefill worker passes metadata to a
    decode worker. vllm/v1/worker/gpu_model_runner.py (_setup_sparse_kv_offloading,
    _sparse_kv_offload_callback, _cluster_sparse_kv, _stage_nelssa_metadata_for_transfer,
    _store_received_nelssa_metadata, _free_nelssa_meta_slot, _cleanup_sparse_kv_cache),
    vllm/v1/nelssa/clustering.py (KVCacheClusteringEngine) and the slot registry of
    vllm/distributed/kv_transfer/kv_transfer_state.py.

    The copies to the CPU run on a second stream: what they find in the temporary buffer is an
    argument here, and NelssaStreams.v says what it can be.
    A vector of a head is an element of the type [A], and memory that is allocated but not
    written holds [uninit]. *)
From S2P Require Import Prelude OrdDict CacheHit KVCacheInterface Scheduler WorkerBlockTable NelssaClusters.
#[local] Open Scope nat_scope.

Section worker.
Context {A : Type}.

(** ** State *)

(** One layer of a request's buffer: {'keys', 'values', 'offset'} *)
Record Buffer := mkBuffer {
  b_keys : list (list A);
  b_values : list (list A);
  b_offset : nat;
}.
(** The metadata of one layer; a missing key of the dict is [None]. *)
Record LayerMeta := mkMeta {
  lm_centroids : option (list (list A));
  lm_cluster_size : option (list (list nat));
  lm_cluster_size_cpu : option (list (list nat));
  lm_n_centroids : option nat;
  lm_clusters : option (list (list (list nat)));
  lm_cluster_offsets : option (list (list nat));
  lm_reorganized : bool;
}.
Definition empty_meta : LayerMeta := mkMeta None None None None None None false.
Inductive KVRole := kv_producer | kv_consumer.
#[export] Instance KVRole_eq_dec : EqDecision KVRole.
Proof. solve_decision. Defined.
Record NelssaCfg := mkNelssaCfg {
  is_pd_disaggregated : bool;
  kv_role : KVRole;
  num_layers : nat;
  num_kv_heads : nat;
  max_model_len : nat;
  first_n : Z;
  last_m : Z;
  enable_offloading : bool;
  use_cpp_reorg : bool;
  has_kv_transfer_group : bool;
}.
Record Runner := mkRunner {
  (** self.requests, with the remote_request_id of a request's kv_transfer_params *)
  nr_requests : gmap string (option string);
  gpu_buffers : gmap string (list (nat * Buffer));
  cpu_buffers : gmap string (list (nat * Buffer));
  cluster_metadata : gmap string (list (nat * LayerMeta));
  temp_keys : list (list A);
  temp_values : list (list A);
  request_id_to_buffer_key : list (string * string);
  long_request_buffer_keys : gset string;
  meta_free_slots : gset nat;
  meta_slot_by_req : gmap string nat;
  (** None outside P/D mode *)
  centroid_buf : option (list (list (list (list A))));
  cluster_size_buf : list (list (list (list nat)));
  meta_slot_registry : gmap string (nat * nat);
}.
Definition with_buffers (g c : gmap string (list (nat * Buffer))) (r : Runner) : Runner :=
  mkRunner (nr_requests r) g c (cluster_metadata r) (temp_keys r) (temp_values r) (request_id_to_buffer_key r) (long_request_buffer_keys r) (meta_free_slots r) (meta_slot_by_req r) (centroid_buf r) (cluster_size_buf r) (meta_slot_registry r).
Definition with_metadata (m : gmap string (list (nat * LayerMeta))) (r : Runner) : Runner :=
  mkRunner (nr_requests r) (gpu_buffers r) (cpu_buffers r) m (temp_keys r) (temp_values r) (request_id_to_buffer_key r) (long_request_buffer_keys r) (meta_free_slots r) (meta_slot_by_req r) (centroid_buf r) (cluster_size_buf r) (meta_slot_registry r).
Definition with_temp (k v : list (list A)) (r : Runner) : Runner :=
  mkRunner (nr_requests r) (gpu_buffers r) (cpu_buffers r) (cluster_metadata r) k v (request_id_to_buffer_key r) (long_request_buffer_keys r) (meta_free_slots r) (meta_slot_by_req r) (centroid_buf r) (cluster_size_buf r) (meta_slot_registry r).
Definition with_keys (ids : list (string * string)) (long : gset string) (r : Runner) : Runner :=
  mkRunner (nr_requests r) (gpu_buffers r) (cpu_buffers r) (cluster_metadata r) (temp_keys r) (temp_values r) ids long (meta_free_slots r) (meta_slot_by_req r) (centroid_buf r) (cluster_size_buf r) (meta_slot_registry r).
Definition with_slots (free : gset nat) (by_req : gmap string nat) (r : Runner) : Runner :=
  mkRunner (nr_requests r) (gpu_buffers r) (cpu_buffers r) (cluster_metadata r) (temp_keys r) (temp_values r) (request_id_to_buffer_key r) (long_request_buffer_keys r) free by_req (centroid_buf r) (cluster_size_buf r) (meta_slot_registry r).
Definition with_staging (c : option (list (list (list (list A))))) (s : list (list (list (list nat)))) (r : Runner) : Runner :=
  mkRunner (nr_requests r) (gpu_buffers r) (cpu_buffers r) (cluster_metadata r) (temp_keys r) (temp_values r) (request_id_to_buffer_key r) (long_request_buffer_keys r) (meta_free_slots r) (meta_slot_by_req r) c s (meta_slot_registry r).
Definition with_registry (g : gmap string (nat * nat)) (r : Runner) : Runner :=
  mkRunner (nr_requests r) (gpu_buffers r) (cpu_buffers r) (cluster_metadata r) (temp_keys r) (temp_values r) (request_id_to_buffer_key r) (long_request_buffer_keys r) (meta_free_slots r) (meta_slot_by_req r) (centroid_buf r) (cluster_size_buf r) g.
Definition with_requests (q : gmap string (option string)) (r : Runner) : Runner :=
  mkRunner q (gpu_buffers r) (cpu_buffers r) (cluster_metadata r) (temp_keys r) (temp_values r) (request_id_to_buffer_key r) (long_request_buffer_keys r) (meta_free_slots r) (meta_slot_by_req r) (centroid_buf r) (cluster_size_buf r) (meta_slot_registry r).

Context (cfg : NelssaCfg) (uninit : A).

(** [a or b] of strings *)
Definition or_str (a : option string) (b : string) : string := match a with Some s => if bool_decide (s = EmptyString) then b else s | None => b end.
Definition _get_remote_request_id (r : Runner) (req_id : string) : option string :=
  if is_pd_disaggregated cfg then
    Some (match nr_requests r !! req_id with Some remote => or_str remote req_id | None => req_id end)
  else None.
(** [self._get_remote_request_id(req_id) or req_id]; _get_buffer_key of the clustering engine *)
Definition _get_buffer_key (r : Runner) (req_id : string) : string := or_str (_get_remote_request_id r req_id) req_id.

(** The allocations of initialize_kv_cache *)
Definition new_Runner (max_chunk_size n_slots : nat) : Runner :=
  let width := Z.to_nat (_compute_max_n_centroids (Z.of_nat (max_model_len cfg))) in
  let temp := replicate (num_kv_heads cfg) (replicate max_chunk_size uninit) in
  mkRunner ∅ ∅ ∅ ∅ temp temp [] ∅
    (if is_pd_disaggregated cfg then list_to_set (seq 0 n_slots) else ∅) ∅
    (if is_pd_disaggregated cfg then Some (replicate n_slots (replicate (num_layers cfg) (replicate (num_kv_heads cfg) (replicate width uninit)))) else None)
    (if is_pd_disaggregated cfg then replicate n_slots (replicate (num_layers cfg) (replicate (num_kv_heads cfg) (replicate width 0))) else []) ∅.

(** ** _setup_sparse_kv_offloading *)
Definition new_buffer (max_total_len : nat) : Buffer :=
  let t := replicate (num_kv_heads cfg) (replicate max_total_len uninit) in mkBuffer t t 0.
Definition new_buffers (max_total_len : nat) (d : list (nat * Buffer)) : list (nat * Buffer) :=
  fold_left (fun d l => od_set l (new_buffer max_total_len) d) (seq 0 (num_layers cfg)) d.
Definition setup_request (chunk_info : list (string * ChunkInfo)) (req : string * bool) (r : Runner) : Runner :=
  let '(req_id, is_long) := req in
  if negb is_long || bool_decide (is_Some (cpu_buffers r !! req_id)) then r
  else
    let buffer_key := _get_buffer_key r req_id in
    let meta := <[buffer_key := default [] (cluster_metadata r !! buffer_key)]> (cluster_metadata r) in
    if is_pd_disaggregated cfg && bool_decide (kv_role cfg = kv_consumer) then
      with_keys (request_id_to_buffer_key r) ({[buffer_key]} ∪ long_request_buffer_keys r) (with_metadata meta r)
    else
      let len := match od_get req_id chunk_info with Some i => ci_max_total_len i | None => 0%Z end in
      let max_total_len := if (len =? 0)%Z then max_model_len cfg else Z.to_nat len in
      with_keys (od_set req_id buffer_key (request_id_to_buffer_key r)) (long_request_buffer_keys r)
        (with_metadata meta
          (with_buffers (<[buffer_key := new_buffers max_total_len (default [] (gpu_buffers r !! buffer_key))]> (gpu_buffers r))
                        (<[buffer_key := new_buffers max_total_len (default [] (cpu_buffers r !! buffer_key))]> (cpu_buffers r)) r)).
Definition _setup_sparse_kv_offloading (chunk_info : list (string * ChunkInfo)) (nelssa_long_mask : list (string * bool)) (r : Runner) : Runner :=
  if enable_offloading cfg then fold_left (fun r req => setup_request chunk_info req r) nelssa_long_mask r else r.

(** ** _sparse_kv_offload_callback *)

(** [d[k1][k2]] *)
Definition layer_of {B} (m : gmap string (list (nat * B))) (key : string) (layer : nat) : res B :=
  match m !! key with
  | Some d => match od_get layer d with Some b => Ok b | None => Err KeyError end
  | None => Err KeyError
  end.
(** [states[a:b].view(num_offload, -1, head_dim).transpose(0, 1)] *)
Definition heads_of (states : list (list A)) (a n : nat) : res (list (list A)) :=
  let s := take n (drop a states) in
  if bool_decide (length s = n) then rmap (fun h => rmap (fun tok => np_get tok h) s) (seq 0 (num_kv_heads cfg))
  else Err RuntimeError.
(** [buf[:, start:stop, :].copy_(vals)] *)
Definition write_rows {B} (buf : list (list B)) (start stop : nat) (vals : list (list B)) : res (list (list B)) :=
  if bool_decide (length buf = length vals) then rmap (fun x => torch_assign x.1 start stop x.2) (zip buf vals)
  else Err RuntimeError.

(** The tokens of a chunk that go to the CPU *)
Definition middle_of (info : ChunkInfo) : Z * Z :=
  (Z.max (first_n cfg) (ci_chunk_start info),
   if (0 <? ci_prompt_len info)%Z then Z.min (ci_prompt_len info - last_m cfg)%Z (ci_chunk_end info) else ci_chunk_end info).
(** What the copies to the CPU find in the temporary buffer. They are enqueued on the offload
    stream and run when the main stream may already have overwritten the buffer for another
    layer or request (NelssaStreams.v), so each copy reads some contents that depend on what
    this call has written: the same, when the copy runs in time. *)
Record Seen := mkSeen {
  seen_keys : list (list A) -> list (list A);
  seen_values : list (list A) -> list (list A);
}.
(** Copies of one request in one layer: to the temporary and the GPU buffer on the main stream,
    and from the temporary buffer to the CPU on the offload stream *)
Definition offload_layer (seen : Seen) (key_states value_states : list (list A)) (start n : nat) (tk tv : list (list A)) (g c : Buffer) : res (list (list A) * list (list A) * Buffer * Buffer) :=
  do k <- heads_of key_states start n in
  do v <- heads_of value_states start n in
  do tk' <- write_rows tk 0 n k in
  do tv' <- write_rows tv 0 n v in
  do gk <- write_rows (b_keys g) (b_offset g) (b_offset g + n) k in
  do gv <- write_rows (b_values g) (b_offset g) (b_offset g + n) v in
  do ck <- write_rows (b_keys c) (b_offset c) (b_offset c + n) (take n <$> seen_keys seen tk') in
  do cv <- write_rows (b_values c) (b_offset c) (b_offset c + n) (take n <$> seen_values seen tv') in
  Ok (tk', tv', mkBuffer gk gv (b_offset g + n), mkBuffer ck cv (b_offset c + n)).
Definition offload_request (seen : string -> Seen) (key_states value_states : list (list A)) (query_start_loc : list nat) (req_ids : list string) (layer_idx : nat) (x : string * ChunkInfo) (r : Runner) : res Runner :=
  let '(req_id, info) := x in
  if negb (ci_is_prefill_chunk info) then Ok r
  else
    let buffer_key := match _get_remote_request_id r req_id with Some k => k | None => req_id end in
    match od_get req_id (fold_left (fun d x => od_set x.1 x.2 d) (zip req_ids (seq 0 (length req_ids))) []) with
    | None => Ok r
    | Some req_idx =>
      do g <- layer_of (gpu_buffers r) buffer_key layer_idx in
      do c <- layer_of (cpu_buffers r) buffer_key layer_idx in
      do req_token_start <- np_get query_start_loc req_idx in
      do _ <- np_get query_start_loc (S req_idx) in
      let '(mid_start, mid_end) := middle_of info in
      if (mid_end <=? mid_start)%Z then Ok r
      else
        let start := req_token_start + Z.to_nat (mid_start - ci_chunk_start info) in
        do y <- offload_layer (seen req_id) key_states value_states start (Z.to_nat (mid_end - mid_start)) (temp_keys r) (temp_values r) g c in
        let '(tk, tv, g', c') := y in
        Ok (with_temp tk tv
             (with_buffers (<[buffer_key := od_set layer_idx g' (default [] (gpu_buffers r !! buffer_key))]> (gpu_buffers r))
                           (<[buffer_key := od_set layer_idx c' (default [] (cpu_buffers r !! buffer_key))]> (cpu_buffers r)) r))
    end.
Fixpoint _sparse_kv_offload_callback (seen : string -> Seen) (key_states value_states : list (list A)) (query_start_loc : list nat) (req_ids : list string) (layer_idx : nat) (chunk_info : list (string * ChunkInfo)) (r : Runner) : res Runner :=
  match chunk_info with
  | [] => Ok r
  | x :: rest =>
    do r' <- offload_request seen key_states value_states query_start_loc req_ids layer_idx x r in
    _sparse_kv_offload_callback seen key_states value_states query_start_loc req_ids layer_idx rest r'
  end.
End worker.
Arguments Buffer : clear implicits.
Arguments LayerMeta : clear implicits.
Arguments Runner : clear implicits.
Arguments Seen : clear implicits.
