(* ===== verification/NelssaEngine.v ===== *)
(** * NelssaEngine
    The end of a long request's prefill and of its life in a worker: clustering and
    reorganization of the offloaded tokens (KVCacheClusteringEngine of
    vllm/v1/nelssa/clustering.py), the staging slots for the transfer of metadata and the
    cleanup (vllm/v1/worker/gpu_model_runner.py).

    K-means on floats is a parameter: [kmeans] gives the cluster of every token of every head,
    [centroids_of] the centroids. [orders] is the order of the GPU lanes in the reverse index,
    and [pick] the element a Python set pops. *)
From S2P Require Import Prelude OrdDict CacheHit KVCacheInterface Scheduler WorkerBlockTable NelssaClusters NelssaWorker.
#[local] Open Scope nat_scope.

Section engine.
Context {A : Type} (cfg : NelssaCfg) (uninit : A).
Context (kmeans : list (list A) -> nat -> nat -> list (list nat)) (centroids_of : list (list A) -> nat -> nat -> list (list A)) (orders : list (list nat) -> list (list nat)).

(** ** cluster_sparse_kv *)
Definition cluster_layer (b : Buffer A) (meta : LayerMeta A) : res (LayerMeta A) :=
  let total_tokens := b_offset b in
  let n_segment := Z.to_nat (n_segment (Z.of_nat total_tokens)) in
  let n_centroids := Z.to_nat (n_centroids (Z.of_nat total_tokens)) in
  let keys_view := take total_tokens <$> b_keys b in
  let max_idx := kmeans keys_view n_centroids n_segment in
  do ri <- segment_k_means (orders max_idx) max_idx n_centroids n_segment in
  let cluster_size := ri_size <$> ri in
  Ok (mkMeta (Some (centroids_of keys_view n_centroids n_segment)) (Some cluster_size) (Some cluster_size) (Some n_centroids)
        (Some (ri_clusters <$> ri)) (lm_cluster_offsets meta) (lm_reorganized meta)).
Fixpoint cluster_layers (buffers : list (nat * Buffer A)) (d : list (nat * LayerMeta A)) : res (list (nat * LayerMeta A)) :=
  match buffers with
  | [] => Ok d
  | (layer_idx, b) :: rest =>
    if bool_decide (b_offset b <= 0) then cluster_layers rest d
    else
      do m <- cluster_layer b (default empty_meta (od_get layer_idx d)) in
      cluster_layers rest (od_set layer_idx m d)
  end.
(** The metadata dict of a request is made when its first layer is clustered. *)
Definition cluster_request (r : Runner A) (req_id : string) : res (Runner A) :=
  let buffer_key := _get_buffer_key cfg r req_id in
  match gpu_buffers r !! buffer_key with
  | None => Ok r
  | Some buffers =>
    do d <- cluster_layers buffers (default [] (cluster_metadata r !! buffer_key)) in
    Ok (match d, cluster_metadata r !! buffer_key with
        | [], None => r
        | _, _ => with_metadata (<[buffer_key := d]> (cluster_metadata r)) r
        end)
  end.
Fixpoint rfold {B S} (f : S -> B -> res S) (l : list B) (s : S) : res S :=
  match l with [] => Ok s | x :: l' => do s' <- f s x in rfold f l' s' end.
Definition cluster_sparse_kv (request_ids : list string) (r : Runner A) : res (Runner A) := rfold cluster_request request_ids r.

(** ** reorganize_by_clusters_cpu and reorganize_by_clusters_cpu_cpp *)

(** [b['keys'][:, :total_tokens, :] = dst] *)
Definition write_back (rows dst : list (list A)) (total_tokens : nat) : list (list A) := zip_with (fun d row => d ++ drop total_tokens row) dst rows.
Definition reorganize_tensor (clusters : list (list (list nat))) (cluster_size : list (list nat)) (n_centroids total_tokens : nat) (rows : list (list A)) : res (list (list A)) :=
  do dst <- rmap (fun h =>
      do src <- np_get rows h in
      do cl <- np_get clusters h in
      do sz <- np_get cluster_size h in
      let src := take total_tokens src in
      if use_cpp_reorg cfg then reorganize_head_cpp cl sz src (replicate (length src) uninit)
      else reorganize_head cl sz n_centroids total_tokens src) (seq 0 (num_kv_heads cfg)) in
  Ok (write_back rows dst total_tokens).
Definition reorganize_layer (b : Buffer A) (meta : LayerMeta A) (clusters : list (list (list nat))) (cluster_size : list (list nat)) : res (Buffer A * LayerMeta A) :=
  let total_tokens := b_offset b in
  do k <- reorganize_tensor clusters cluster_size (default 0 (lm_n_centroids meta)) total_tokens (b_keys b) in
  do v <- reorganize_tensor clusters cluster_size (default 0 (lm_n_centroids meta)) total_tokens (b_values b) in
  Ok (mkBuffer k v total_tokens,
      mkMeta (lm_centroids meta) (lm_cluster_size meta) (Some cluster_size) (lm_n_centroids meta) (lm_clusters meta)
        (Some (_compute_cluster_offsets <$> cluster_size)) true).
Fixpoint reorganize_layers (buffers : list (nat * Buffer A)) (bs : list (nat * Buffer A)) (ms : list (nat * LayerMeta A)) : res (list (nat * Buffer A) * list (nat * LayerMeta A)) :=
  match buffers with
  | [] => Ok (bs, ms)
  | (layer_idx, b) :: rest =>
    match od_get layer_idx ms with
    | None => reorganize_layers rest bs ms
    | Some meta =>
      match lm_clusters meta, lm_cluster_size meta with
      | Some clusters, Some cluster_size =>
        if bool_decide (b_offset b <= 0) then reorganize_layers rest bs ms
        else
          do x <- reorganize_layer b meta clusters cluster_size in
          reorganize_layers rest (od_set layer_idx x.1 bs) (od_set layer_idx x.2 ms)
      | _, _ => reorganize_layers rest bs ms
      end
    end
  end.
Definition reorganize_request (r : Runner A) (req_id : string) : res (Runner A) :=
  let buffer_key := _get_buffer_key cfg r req_id in
  match cluster_metadata r !! buffer_key, cpu_buffers r !! buffer_key with
  | Some ms, Some bs =>
    do x <- reorganize_layers bs bs ms in
    Ok (with_metadata (<[buffer_key := x.2]> (cluster_metadata r)) (with_buffers (gpu_buffers r) (<[buffer_key := x.1]> (cpu_buffers r)) r))
  | _, _ => Ok r
  end.
Definition reorganize_by_clusters (request_ids : list string) (r : Runner A) : res (Runner A) := rfold reorganize_request request_ids r.

(** ** cleanup_gpu_buffers *)
Definition cleanup_gpu_buffers (request_ids : list string) (r : Runner A) : Runner A :=
  fold_left (fun r req_id => with_buffers (delete (_get_buffer_key cfg r req_id) (gpu_buffers r)) (cpu_buffers r) r) request_ids r.

(** ** Staging slots *)
Context (pick : gset nat -> nat).

(** [self._nelssa_centroid_buf[slot, layer_idx, :, :n_centroids, :].copy_(vals)] *)
Definition write_slot {B} (buf : list (list (list (list B)))) (slot layer_idx n_centroids : nat) (vals : list (list B)) : res (list (list (list (list B)))) :=
  do layers <- np_get buf slot in
  do rows <- np_get layers layer_idx in
  do rows' <- write_rows rows 0 n_centroids vals in
  do layers' <- np_set layers layer_idx rows' in
  np_set buf slot layers'.
Definition stage_layer (slot n_centroids : nat) (st : list (list (list (list A))) * list (list (list (list nat)))) (x : nat * LayerMeta A) : res (list (list (list (list A))) * list (list (list (list nat)))) :=
  match lm_centroids x.2, lm_cluster_size x.2 with
  | Some c, Some s =>
    do cb <- write_slot st.1 slot x.1 n_centroids c in
    do sb <- write_slot st.2 slot x.1 n_centroids s in
    Ok (cb, sb)
  | _, _ => Err AttributeError
  end.
(** record_nelssa_meta_slot, pop_nelssa_meta_slot *)
Definition record_nelssa_meta_slot (req_id : string) (slot n_centroids : nat) (r : Runner A) : Runner A := with_registry (<[req_id := (slot, n_centroids)]> (meta_slot_registry r)) r.
Definition pop_nelssa_meta_slot (req_id : string) (r : Runner A) : option (nat * nat) * Runner A := (meta_slot_registry r !! req_id, with_registry (delete req_id (meta_slot_registry r)) r).
Definition stage_request (r : Runner A) (req_id : string) : res (Runner A) :=
  let buffer_key := _get_buffer_key cfg r req_id in
  match default [] (cluster_metadata r !! buffer_key) with
  | [] => Ok r
  | (l0, m0) :: rest =>
    let n_centroids := default 0 (lm_n_centroids m0) in
    if bool_decide (n_centroids = 0) then Ok r
    else if bool_decide (meta_free_slots r = ∅) then Ok r
    else
      let slot := pick (meta_free_slots r) in
      let r1 := with_slots (meta_free_slots r ∖ {[slot]}) (<[buffer_key := slot]> (meta_slot_by_req r)) r in
      do st <- rfold (stage_layer slot n_centroids) ((l0, m0) :: rest) (default [] (centroid_buf r1), cluster_size_buf r1) in
      let r2 := with_staging (Some st.1) st.2 r1 in
      Ok (if has_kv_transfer_group cfg then record_nelssa_meta_slot req_id slot n_centroids r2 else r2)
  end.
Definition _stage_nelssa_metadata_for_transfer (request_ids : list string) (r : Runner A) : res (Runner A) := rfold stage_request request_ids r.

(** ** _cluster_sparse_kv *)
Definition _cluster_sparse_kv (request_ids : list string) (r : Runner A) : res (Runner A) :=
  do r1 <- cluster_sparse_kv request_ids r in
  do r2 <- (if negb (is_pd_disaggregated cfg) || bool_decide (kv_role cfg = kv_producer) then reorganize_by_clusters request_ids r1 else Ok r1) in
  let r3 := cleanup_gpu_buffers request_ids r2 in
  if is_pd_disaggregated cfg && bool_decide (kv_role cfg = kv_producer) && bool_decide (is_Some (centroid_buf r3)) then _stage_nelssa_metadata_for_transfer request_ids r3
  else Ok r3.

(** ** Metadata received by a decode worker
    [centroid_slot] and [cluster_size_slot] are the rows of the staging slot, one per layer. *)
Definition store_layer (n_centroids : nat) (d : list (nat * LayerMeta A)) (x : nat * (list (list A) * list (list nat))) : list (nat * LayerMeta A) :=
  let m := default empty_meta (od_get x.1 d) in
  od_set x.1 (mkMeta (Some x.2.1) (Some x.2.2) (lm_cluster_size_cpu m) (Some n_centroids) (lm_clusters m) (lm_cluster_offsets m) (lm_reorganized m)) d.
Definition _store_received_nelssa_metadata (req_id : string) (centroid_slot : list (list (list A))) (cluster_size_slot : list (list (list nat))) (n_centroids : nat) (slot_idx : option nat) (r : Runner A) : Runner A :=
  let buffer_key := _get_buffer_key cfg r req_id in
  let by_req := match slot_idx, meta_slot_by_req r !! buffer_key with Some s, None => <[buffer_key := s]> (meta_slot_by_req r) | _, _ => meta_slot_by_req r end in
  let d := fold_left (store_layer n_centroids) (zip (seq 0 (length centroid_slot)) (zip centroid_slot cluster_size_slot)) (default [] (cluster_metadata r !! buffer_key)) in
  with_metadata (<[buffer_key := d]> (cluster_metadata r)) (with_slots (meta_free_slots r) by_req r).

(** ** _free_nelssa_meta_slot *)
Definition _free_nelssa_meta_slot (request_id : string) (slot : option nat) (r : Runner A) : Runner A :=
  match slot with
  | Some s => with_slots ({[s]} ∪ meta_free_slots r) (filter (fun kv => kv.2 <> s) (meta_slot_by_req r)) r
  | None =>
    let buffer_key := _get_buffer_key cfg r request_id in
    match meta_slot_by_req r !! buffer_key with
    | Some s => with_slots ({[s]} ∪ meta_free_slots r) (delete buffer_key (meta_slot_by_req r)) r
    | None => r
    end
  end.

(** ** _cleanup_sparse_kv_cache
    Lookup caches, query buffers and events hold no state of the model. *)
Definition _cleanup_sparse_kv_cache (req_id : string) (r : Runner A) : Runner A :=
  let buffer_key := _get_buffer_key cfg r req_id in
  let r1 := with_metadata (delete buffer_key (cluster_metadata r)) (with_buffers (gpu_buffers r) (delete buffer_key (cpu_buffers r)) r) in
  let r2 := match meta_slot_by_req r1 !! buffer_key with
            | Some s => with_slots ({[s]} ∪ meta_free_slots r1) (delete buffer_key (meta_slot_by_req r1)) r1
            | None => r1
            end in
  with_buffers (delete buffer_key (gpu_buffers r2)) (cpu_buffers r2) r2.
End engine.
