(* ===== verification/NelssaAttention.v ===== *)
(** * NelssaAttention
    Which keys and values the CPU attention of NELSSA reads: vllm/v1/nelssa/cpu_attention.py
    (_normalize_cluster_ids, _gather_selected_clusters, _select_kv_sparse, the selection of
    RPCAttentionEngine.handle_batch, _resolve_buffer_key) and the gather functions of the C++
    extension (vllm/v1/nelssa/clustering_cpu.cpp). Cluster ids come from another worker and are
    integers; all other indices are natural numbers. *)
From S2P Require Import Prelude OrdDict CacheHit KVCacheInterface WorkerBlockTable NelssaClusters NelssaWorker.
#[local] Open Scope nat_scope.

(** ** _normalize_cluster_ids *)

(** The forms the ids come in: a tensor of one or two dimensions, a flat list, a list of rows *)
Inductive ClusterIds :=
  | Ids1D (ids : list Z)
  | Ids2D (rows : list (list Z))
  | IdsFlat (ids : list Z)
  | IdsRows (rows : list (list Z)).
Definition pad_row (n : nat) (row : list Z) : list Z := row ++ replicate (n - length row) 0%Z.
Definition _normalize_cluster_ids (cluster_ids : ClusterIds) (num_kv_heads : nat) : list (list Z) :=
  let padded rows :=
    let max_nprobe := list_max (length <$> rows) in
    (fun h => pad_row max_nprobe (default [] (rows !! h))) <$> seq 0 num_kv_heads in
  match cluster_ids with
  | Ids1D ids => replicate num_kv_heads ids
  | Ids2D rows => rows
  | IdsFlat [] | IdsRows [] => replicate num_kv_heads [0%Z]
  | IdsFlat ids => padded [ids]
  | IdsRows (row0 :: _ as rows) =>
    if bool_decide (length rows = num_kv_heads /\ Forall (fun r => length r = length row0) rows) then rows else padded rows
  end.
Definition has_cluster_ids (topk_ids : ClusterIds) : bool :=
  match topk_ids with
  | Ids1D ids | IdsFlat ids => bool_decide (ids <> [])
  | Ids2D rows | IdsRows rows => existsb (fun r => bool_decide (r <> [])) rows
  end.

(** torch.gather(row, 1, ids) for one head *)
Definition torch_gather (row : list nat) (ids : list Z) : res (list nat) :=
  rmap (fun c => if (c <? 0)%Z then Err RuntimeError else match row !! Z.to_nat c with Some x => Ok x | None => Err RuntimeError end) ids.

Section gather.
Context {A : Type} (zero : A).
Implicit Types src dst : list A.

(** ** gather_selected_clusters_cpu and gather_selected_clusters_batch_cpu: one head
    Cluster after cluster is copied to [dst], cut at the ends of [src] and [dst]. *)
Fixpoint gather_loop (offsets sizes : list nat) (ids : list Z) src dst (dst_off : nat) : res (list A * nat) :=
  match ids with
  | [] => Ok (dst, dst_off)
  | c :: ids' =>
    if (c <? 0)%Z || (zlen offsets <=? c)%Z then gather_loop offsets sizes ids' src dst dst_off
    else
      do start <- np_get offsets (Z.to_nat c) in
      do size <- np_get sizes (Z.to_nat c) in
      if bool_decide (size <= 0) then gather_loop offsets sizes ids' src dst dst_off
      else
        let copy1 := if bool_decide (length src < start + size) then length src - start else size in
        let copy := if bool_decide (length dst < dst_off + copy1) then length dst - dst_off else copy1 in
        if bool_decide (copy <= 0) then gather_loop offsets sizes ids' src dst dst_off
        else gather_loop offsets sizes ids' src (take dst_off dst ++ take copy (drop start src) ++ drop (dst_off + copy) dst) (dst_off + copy)
  end.
(** The variant for one request also clears the rest of the row. *)
Definition gather_selected_clusters_cpu (offsets sizes : list nat) (ids : list Z) src dst : res (list A * nat) :=
  do r <- gather_loop offsets sizes ids src dst 0 in
  Ok (take r.2 r.1 ++ replicate (length r.1 - r.2) zero, r.2).

(** ** _gather_selected_clusters, for one of the tensors keys and values *)
Definition max_selected (per_head_lens : list nat) : nat := list_max per_head_lens `max` 1.
Definition _gather_selected_clusters (tensor : list (list A)) (cluster_ids : ClusterIds) (cluster_offsets cluster_size : list (list nat)) (reuse : option (list (list A))) : res (list (list A) * list nat) :=
  let ids_t := _normalize_cluster_ids cluster_ids (length tensor) in
  do _ <- rmap (fun x => torch_gather x.1 x.2) (zip cluster_offsets ids_t) in
  do sizes <- rmap (fun x => torch_gather x.1 x.2) (zip cluster_size ids_t) in
  let per_head_lens := sum_list <$> sizes in
  let width := max_selected per_head_lens in
  let dst0 := match reuse with
              | Some (row0 :: _ as b) => if bool_decide (width <= length row0) then b else replicate (length tensor) (replicate width zero)
              | _ => replicate (length tensor) (replicate width zero)
              end in
  do rows <- rmap (fun h =>
      do src <- np_get tensor h in
      do offs <- np_get cluster_offsets h in
      do sz <- np_get cluster_size h in
      do ids <- np_get ids_t h in
      do dst <- np_get dst0 h in
      gather_selected_clusters_cpu offs sz ids src dst) (seq 0 (length tensor)) in
  Ok (rows.*1, per_head_lens).

(** ** _gather_selected_clusters_torch: one head
    [width] and [C] are the maxima over all heads. [order] is the order in which scatter_
    writes its elements: the library leaves it open which of several elements with the same
    index remains. *)
Definition slot_positions (C : nat) (starts : list nat) : list nat := concat ((fun s => (fun c => s + c) <$> seq 0 C) <$> starts).
Definition slot_valid (C : nat) (sizes : list nat) : list bool := concat ((fun s => (fun c => bool_decide (c < s)) <$> seq 0 C) <$> sizes).
Definition slot_rank (valid : list bool) : list nat := (fun n => n - 1) <$> cumsum 0 ((fun b : bool => if b then 1 else 0) <$> valid).
Fixpoint scatter (order : list nat) (index vals : list nat) (self : list nat) : res (list nat) :=
  match order with
  | [] => Ok self
  | i :: order' =>
    do k <- np_get index i in
    do v <- np_get vals i in
    do self' <- np_set self k v in
    scatter order' index vals self'
  end.
Definition gather_head_torch (order : list nat) (C width : nat) (starts sizes : list nat) src : res (list A) :=
  do idx <- scatter order (slot_rank (slot_valid C sizes)) (slot_positions C starts) (replicate width 0) in
  index_select src idx.
Definition _gather_selected_clusters_torch (order : list nat) (tensor : list (list A)) (ids_t : list (list Z)) (cluster_offsets cluster_size : list (list nat)) : res (list (list A) * list nat) :=
  do starts <- rmap (fun x => torch_gather x.1 x.2) (zip cluster_offsets ids_t) in
  do sizes <- rmap (fun x => torch_gather x.1 x.2) (zip cluster_size ids_t) in
  let per_head_lens := sum_list <$> sizes in
  let C := list_max (list_max <$> sizes) `max` 1 in
  do rows <- rmap (fun h =>
      do src <- np_get tensor h in
      do st <- np_get starts h in
      do sz <- np_get sizes h in
      gather_head_torch order C (max_selected per_head_lens) st sz src) (seq 0 (length tensor)) in
  Ok (rows, per_head_lens).

(** ** _select_kv_sparse
    [fraction n] is int(n * cpu_attention_kv_fraction). The mask of a head marks its first
    tokens, so its number of tokens stands for the mask. *)
Context (fraction : nat -> nat).
Definition _select_kv_sparse (tensor : list (list A)) (topk_ids : ClusterIds) (meta : option (LayerMeta A)) (num_valid_tokens : nat) (reuse : option (list (list A))) : res (list (list A) * list nat) :=
  let num_offload_tokens := if bool_decide (0 < num_valid_tokens) then num_valid_tokens else length (default [] (tensor !! 0)) in
  match meta with
  | Some (mkMeta _ size size_cpu _ _ (Some offsets) true as m) =>
    if has_cluster_ids topk_ids then
      match size_cpu, size with
      | Some s, _ | None, Some s => _gather_selected_clusters tensor topk_ids offsets s reuse
      | None, None => Err KeyError
      end
    else let n := 1 `max` fraction num_offload_tokens in Ok (take n <$> tensor, replicate (length tensor) n)
  | _ => let n := 1 `max` fraction num_offload_tokens in Ok (take n <$> tensor, replicate (length tensor) n)
  end.
End gather.

(** ** _resolve_buffer_key *)

(** s.split("-"); the code of the dash is 45 *)
Fixpoint split_dash (s : string) : list string :=
  match s with
  | EmptyString => [EmptyString]
  | String c s' =>
    if bool_decide (c = Ascii.ascii_of_nat 45) then EmptyString :: split_dash s'
    else match split_dash s' with p :: ps => String c p :: ps | [] => [String c EmptyString] end
  end.
Definition uuid_of (req_id : string) : string := match split_dash req_id with _ :: u :: _ => u | _ => req_id end.
Definition _resolve_buffer_key (req_id : string) (request_id_to_buffer_key : list (string * string)) : string :=
  match list_find (fun x => uuid_of x.1 = uuid_of req_id) request_id_to_buffer_key with Some (_, x) => x.2 | None => req_id end.

(** ** RPCAttentionEngine.handle_batch: the keys of a batch of requests
    The batched gather writes rows of the fixed width [M_CAP] that are kept between calls. *)
Definition M_CAP_DEFAULT : nat := 2304.
Section batch.
Context {A : Type}.
Definition buffer_for (r : Runner A) (layer_idx : nat) (req_id : string) : res (string * Buffer A) :=
  let buffer_key := _resolve_buffer_key req_id (request_id_to_buffer_key r) in
  match cpu_buffers r !! buffer_key with
  | None => Err RuntimeError
  | Some d => match od_get layer_idx d with Some b => Ok (buffer_key, b) | None => Err KeyError end
  end.
Definition fused_meta (r : Runner A) (buffer_key : string) (layer_idx : nat) : option (list (list nat) * option (list (list nat))) :=
  match od_get layer_idx (default [] (cluster_metadata r !! buffer_key)) with
  | Some (mkMeta _ size size_cpu _ _ (Some offsets) true) => Some (offsets, match size_cpu with Some s => Some s | None => size end)
  | _ => None
  end.
(** One request of gather_selected_clusters_batch_cpu: one row of [keys_batch] per head *)
Definition gather_request (tensor : list (list A)) (offsets sizes : list (list nat)) (ids : list (list Z)) (batch : list (list A)) : res (list (list A * nat)) :=
  rmap (fun h =>
      do src <- np_get tensor h in
      do offs <- np_get offsets h in
      do sz <- np_get sizes h in
      do i <- np_get ids h in
      do dst <- np_get batch h in
      gather_loop offs sz i src dst 0) (seq 0 (length tensor)).
(** What the fused path gathers from, request by request; [None] at the first request without
    reorganized metadata, where the path request by request is taken. *)
Fixpoint fused_inputs (r : Runner A) (layer_idx : nat) (reqs : list (string * ClusterIds)) : res (option (list (Buffer A * list (list nat) * list (list nat) * list (list Z)))) :=
  match reqs with
  | [] => Ok (Some [])
  | (req_id, topk_ids) :: reqs' =>
    do kb <- buffer_for r layer_idx req_id in
    match fused_meta r kb.1 layer_idx with
    | None => Ok None
    | Some (_, None) => Err KeyError
    | Some (offs, Some sz) =>
      do rest <- fused_inputs r layer_idx reqs' in
      Ok (cons (kb.2, offs, sz, _normalize_cluster_ids topk_ids (length (b_keys kb.2))) <$> rest)
    end
  end.
Definition gather_batch (r : Runner A) (layer_idx : nat) (tensor_of : Buffer A -> list (list A)) (reqs : list (string * ClusterIds)) (keys_batch : list (list (list A))) : res (option (list (list (list A * nat)))) :=
  do inputs <- fused_inputs r layer_idx reqs in
  match inputs with
  | None => Ok None
  | Some l =>
    do rows <- rmap (fun x => let '((b, offs, sz, ids), batch) := x in gather_request (tensor_of b) offs sz ids batch) (zip l keys_batch) in
    Ok (Some rows)
  end.
End batch.
