(* ===== verification/NelssaGatherInv.v ===== *)
(** * NelssaGatherInv
    Gathering of clusters, numbers of centroids, and the layers of a request: clustered,
    reorganized, and gathered from. *)
From S2P Require Import Prelude OrdDict CacheHit Scheduler KVCacheInterface SizingInv WorkerBlockTable InputBatchInv NelssaClusters NelssaWorker NelssaEngine NelssaAttention.
#[local] Open Scope nat_scope.

Lemma take_min_length {B} n (l : list B) : take (n `min` length l) l = take n l.
Proof. destruct (decide (n <= length l)); [by rewrite Nat.min_l | rewrite Nat.min_r by lia; rewrite !take_ge by lia; done]. Qed.

Section gather.
Context {A : Type}.
Implicit Types src dst : list A.

(** What the selected clusters hold, one after another *)
Definition slice_at (offsets sizes : list nat) src (c : Z) : list A := if (c <? 0)%Z then [] else cluster_slice offsets sizes src (Z.to_nat c).
Definition chosen (offsets sizes : list nat) src (ids : list Z) : list A := concat (slice_at offsets sizes src <$> ids).

(** The gather fills the destination with the chosen tokens up to its width, and leaves the rest. *)
Lemma gather_loop_spec offsets sizes src : length sizes = length offsets -> forall ids dst n, n <= length dst ->
  exists out m, gather_loop offsets sizes ids src dst n = Ok (out, m) /\ m = (n + length (chosen offsets sizes src ids)) `min` length dst /\
    out = take m (take n dst ++ chosen offsets sizes src ids) ++ drop m dst.
Proof.
  intros Hlen. induction ids as [|c ids IH]; intros dst n Hn; [simpl; exists dst, n; split; [done |]; split; [lia |]; rewrite app_nil_r, take_take, Nat.min_id; by rewrite take_drop |].
  assert (forall l, slice_at offsets sizes src c = l -> chosen offsets sizes src (c :: ids) = l ++ chosen offsets sizes src ids) as Hc by (by intros l <-).
  cbn [gather_loop]. destruct (c <? 0)%Z eqn:E0; [rewrite (Hc []) by (unfold slice_at; by rewrite E0); by apply IH |]. apply Z.ltb_ge in E0. destruct (zlen offsets <=? c)%Z eqn:E1.
  { apply Z.leb_le in E1. rewrite (Hc []); [by apply IH |]. unfold slice_at, cluster_slice. rewrite (proj2 (Z.ltb_ge c 0)) by lia. rewrite (proj2 (lookup_ge_None offsets _)); [done | unfold zlen in E1; lia]. }
  apply Z.leb_gt in E1. unfold zlen in E1. destruct (np_get_lt offsets (Z.to_nat c)) as (start & Hs & ->); [lia |]. destruct (np_get_lt sizes (Z.to_nat c)) as (size & Hz & ->); [lia |]. cbn [orb rbind].
  assert (slice_at offsets sizes src c = take size (drop start src)) as Hslice by (unfold slice_at, cluster_slice; rewrite (proj2 (Z.ltb_ge c 0)), Hs, Hz by lia; done). rewrite (Hc _ Hslice).
  set (copy1 := if bool_decide (length src < start + size) then length src - start else size). assert (copy1 = length (take size (drop start src))) as Hc1.
  { unfold copy1. rewrite length_take, length_drop. destruct (bool_decide (length src < start + size)) eqn:E; [apply bool_decide_eq_true in E | apply bool_decide_eq_false in E]; lia. }
  set (copy := if bool_decide (length dst < n + copy1) then length dst - n else copy1). assert (copy = copy1 `min` (length dst - n)) as Hcp.
  { unfold copy. destruct (bool_decide (length dst < n + copy1)) eqn:E; [apply bool_decide_eq_true in E | apply bool_decide_eq_false in E]; lia. }
  destruct (bool_decide (size <= 0)) eqn:E2; [apply bool_decide_eq_true in E2; assert (size = 0) as -> by lia; rewrite take_0; by apply IH | apply bool_decide_eq_false in E2].
  destruct (bool_decide (copy <= 0)) eqn:E3; [apply bool_decide_eq_true in E3 | apply bool_decide_eq_false in E3].
  - destruct (decide (copy1 = 0)) as [H0 | H0]; [assert (take size (drop start src) = []) as -> by (apply length_zero_iff_nil; lia); by apply IH |].
    destruct (IH dst n Hn) as (out & m & -> & Hm & ->). exists (take m (take n dst ++ chosen offsets sizes src ids) ++ drop m dst), m. assert (n = length dst) as -> by lia. assert (m = length dst) as -> by lia.
    split; [done |]. rewrite length_app. split; [lia |]. by rewrite firstn_all, !take_app_length.
  - set (piece := take copy (drop start src)). assert (length piece = copy) as Hpl by (unfold piece; rewrite length_take, length_drop; rewrite length_take, length_drop in Hc1; lia).
    destruct (IH (take n dst ++ piece ++ drop (n + copy) dst) (n + copy)) as (out & m & -> & Hm & ->); [rewrite !length_app, length_take, length_drop; lia |].
    assert (length (take n dst ++ piece ++ drop (n + copy) dst) = length dst) as Hd by (rewrite !length_app, length_take, length_drop; lia). rewrite Hd in Hm.
    assert (take (n + copy) (take n dst ++ piece ++ drop (n + copy) dst) = take n dst ++ piece) as Ht by (rewrite app_assoc; apply take_app_length'; rewrite length_app, length_take; lia).
    eexists _, m. split; [done |]. rewrite length_app, <- Hc1. rewrite Ht. assert (drop m (take n dst ++ piece ++ drop (n + copy) dst) = drop m dst) as ->.
    { rewrite app_assoc, drop_app_ge by (rewrite length_app, length_take; lia). rewrite length_app, length_take, drop_drop. f_equal. lia. }
    destruct (decide (copy = copy1)) as [He | He].
    + split; [lia |]. f_equal. rewrite <- app_assoc. do 3 f_equal. unfold piece. rewrite He, Hc1. rewrite length_take. apply take_min_length.
    + assert (n + copy = length dst) by lia. split; [lia |]. f_equal. assert (m = length (take n dst ++ piece)) as -> by (rewrite length_app, length_take; lia). rewrite take_app_length.
      assert (take size (drop start src) = piece ++ drop copy (take size (drop start src))) as Hsplit.
      { rewrite <- (take_drop copy (take size (drop start src))) at 1. f_equal. unfold piece. rewrite take_take. f_equal. rewrite length_take, length_drop in Hc1. lia. }
      rewrite Hsplit, <- app_assoc, app_assoc. by rewrite take_app_length.
Qed.
End gather.

(** ** Numbers of clusters *)
Lemma pyround_nonneg a b : (0 <= a -> 0 < b -> 0 <= pyround a b)%Z.
Proof. intros Ha Hb. unfold pyround. pose proof (Z.div_pos a b Ha Hb). repeat (match goal with |- context [if ?c then _ else _] => destruct c end); lia. Qed.
Lemma pyround_bounds a b : (0 <= a -> 0 < b -> 2 * a - b <= 2 * b * pyround a b <= 2 * a + b)%Z.
Proof.
  intros Ha Hb. unfold pyround. pose proof (Z.div_mod a b ltac:(lia)) as Hd. pose proof (Z.mod_pos_bound a b Hb). set (q := (a / b)%Z) in *. set (r := (a mod b)%Z) in *.
  destruct (2 * r <? b)%Z eqn:E1; [apply Z.ltb_lt in E1; nia | apply Z.ltb_ge in E1]. destruct (b <? 2 * r)%Z eqn:E2; [apply Z.ltb_lt in E2; nia | apply Z.ltb_ge in E2]. destruct (Z.even q); nia.
Qed.
Lemma n_segment_pos t : (1 <= n_segment t)%Z.
Proof. unfold n_segment. lia. Qed.
Lemma lcm_pos t : (0 < Z.lcm 8 (n_segment t))%Z.
Proof. pose proof (n_segment_pos t). pose proof (Z.lcm_nonneg 8 (n_segment t)). assert (Z.lcm 8 (n_segment t) <> 0)%Z by (rewrite Z.lcm_eq_0; lia). lia. Qed.
Lemma n_centroids_spec t : (0 <= t)%Z -> (0 < n_centroids t /\ (n_segment t | n_centroids t) /\ (8 | n_centroids t))%Z.
Proof.
  intros Ht. pose proof (lcm_pos t) as Hf. assert (exists k, n_centroids t = k * Z.lcm 8 (n_segment t) /\ 0 < k)%Z as (k & -> & Hk).
  { unfold n_centroids. set (f := Z.lcm 8 (n_segment t)) in *. pose proof (pyround_nonneg (pyround t 16) f ltac:(apply pyround_nonneg; lia) Hf). set (q := pyround (pyround t 16) f) in *.
    destruct (Z.max_spec (q * f) f) as [[? ->] | [? ->]]; [exists 1%Z; lia | exists q; split; [done | nia]]. }
  split; [nia |]. split; apply Z.divide_mul_r; [apply Z.divide_lcm_r | apply Z.divide_lcm_l].
Qed.

(** ** Clustering, reorganization and gather of a layer *)
Section layer.
Context {A : Type} (cfg : NelssaCfg) (uninit : A).
Context (kmeans : list (list A) -> nat -> nat -> list (list nat)) (centroids_of : list (list A) -> nat -> nat -> list (list A)) (orders : list (list nat) -> list (list nat)).
(** Every token of every head gets one of the clusters, and every lane runs once. *)
Definition assigns : Prop := forall keys nc ns, 0 < nc -> Forall2 (fun row idx => length idx = length row /\ Forall (fun k => k < nc) idx) keys (kmeans keys nc ns).
Definition runs_all_lanes : Prop := forall max_idx, Forall2 (fun idx o => o ≡ₚ seq 0 (length idx)) max_idx (orders max_idx).
Context (Hkm : assigns) (Hord : runs_all_lanes).

(** The clusters of one head of a layer with [total] tokens in the row [row] *)
Record clustered (nc total : nat) (row : list A) (idx o : list nat) (st : RevIndex) : Prop := {
  cl_total : total <= length row;
  cl_idx : length idx = total;
  cl_lt : Forall (fun k => k < nc) idx;
  cl_order : o ≡ₚ seq 0 total;
  cl_placed : exists mcs, placed idx nc mcs o st;
}.
Definition rows_ok (total : nat) (rows : list (list A)) : Prop := length rows = num_kv_heads cfg /\ Forall (fun row => total <= length row) rows.
Definition layer_view (b : Buffer A) : list (list A) := take (b_offset b) <$> b_keys b.
Definition layer_nc (b : Buffer A) : nat := Z.to_nat (n_centroids (Z.of_nat (b_offset b))).
Definition layer_assignment (b : Buffer A) : list (list nat) := kmeans (layer_view b) (layer_nc b) (Z.to_nat (n_segment (Z.of_nat (b_offset b)))).
Definition layer_orders (b : Buffer A) : list (list nat) := orders (layer_assignment b).

Lemma layer_nc_pos b : 0 < layer_nc b.
Proof. unfold layer_nc. destruct (n_centroids_spec (Z.of_nat (b_offset b))) as [? _]; lia. Qed.
Lemma segments_divide b : layer_nc b mod Z.to_nat (n_segment (Z.of_nat (b_offset b))) = 0.
Proof.
  unfold layer_nc. destruct (n_centroids_spec (Z.of_nat (b_offset b))) as (Hp & Hd & _); [lia |]. pose proof (n_segment_pos (Z.of_nat (b_offset b))). apply Nat.Lcm0.mod_divide. destruct Hd as [k Hk]. exists (Z.to_nat k). rewrite Hk. rewrite Z2Nat.inj_mul by nia. done.
Qed.
Lemma segment_k_means_spec b h row : rows_ok (b_offset b) (b_keys b) -> b_keys b !! h = Some row ->
  exists ri, segment_k_means (layer_orders b) (layer_assignment b) (layer_nc b) (Z.to_nat (n_segment (Z.of_nat (b_offset b)))) = Ok ri /\ length ri = num_kv_heads cfg /\
    forall h row, b_keys b !! h = Some row -> exists idx o st, layer_assignment b !! h = Some idx /\ layer_orders b !! h = Some o /\ ri !! h = Some st /\ clustered (layer_nc b) (b_offset b) row idx o st.
Proof.
  intros [Hlen Hrows] _. pose proof (Hkm (layer_view b) (layer_nc b) (Z.to_nat (n_segment (Z.of_nat (b_offset b)))) (layer_nc_pos b)) as HA. fold (layer_assignment b) in HA. pose proof (Hord (layer_assignment b)) as HO. fold (layer_orders b) in HO.
  unfold segment_k_means. rewrite bool_decide_eq_true_2 by apply segments_divide. set (mcs := list_max _).
  destruct (rmap_Forall2 (fun x => triton_reverse_index x.1 x.2 (layer_nc b) mcs) (fun x st => x.1 ≡ₚ seq 0 (length x.2) /\ placed x.2 (layer_nc b) mcs x.1 st) (zip (layer_orders b) (layer_assignment b))) as (ri & -> & Hri).
  { apply Forall_lookup_2. intros i [o idx] Hx. apply lookup_zip_with_Some in Hx as (o' & idx' & [= -> ->] & Ho & Hi). pose proof (Forall2_lookup_lr _ _ _ _ _ _ HO Hi Ho) as Hp. simpl.
    destruct (Forall2_lookup_r _ _ _ _ _ HA Hi) as (v & Hv & Hl & Hlt). destruct (reverse_index_partition idx' (layer_nc b) mcs o' Hlt Hp) as (st & E & Hst); [| exists st; done].
    apply list_max_elem, list_elem_of_fmap. exists idx'. split; [done |]. by eapply list_elem_of_lookup_2. }
  exists ri. split; [done |]. pose proof (Forall2_length _ _ _ HA) as L1. pose proof (Forall2_length _ _ _ HO) as L2. unfold layer_view in L1. rewrite length_fmap in L1.
  split; [rewrite <- (Forall2_length _ _ _ Hri), length_zip_with; lia |]. intros j row' Hrow. assert (layer_view b !! j = Some (take (b_offset b) row')) as Hview by (unfold layer_view; by rewrite list_lookup_fmap, Hrow).
  destruct (Forall2_lookup_l _ _ _ _ _ HA Hview) as (idx & Hidx & Hl & Hlt).
  destruct (Forall2_lookup_l _ _ _ _ _ HO Hidx) as (o & Ho & Hp). assert (zip (layer_orders b) (layer_assignment b) !! j = Some (o, idx)) as Hzip by (apply lookup_zip_with_Some; eauto).
  destruct (Forall2_lookup_l _ _ _ _ _ Hri Hzip) as (st & Hst & _ & Hpl).
  pose proof (Forall_lookup_1 _ _ _ _ Hrows Hrow) as Hle. cbv beta in Hle. rewrite length_take, Nat.min_l in Hl by done. exists idx, o, st. split_and!; [done .. |]. split; [done | done | done | by rewrite <- Hl | by exists mcs].
Qed.

(** The reorganized rows *)
Definition reorganized_row (total : nat) (row : list A) (st : RevIndex) : list A := select (take total row) (concat (parts (ri_clusters st) (ri_size st))) ++ drop total row.
Lemma clustered_parts nc total row idx o st : clustered nc total row idx o st -> parts_ok (ri_clusters st) (ri_size st) /\ concat (parts (ri_clusters st) (ri_size st)) ≡ₚ seq 0 total /\ length (ri_size st) = nc.
Proof.
  intros [H1 H2 H3 H4 (mcs & H5)]. split; [by eapply placed_parts_ok |]. split; [| apply H5]. rewrite (placed_parts idx nc mcs o st) by done. rewrite <- H4. apply assigned_concat.
  intros n Hn. rewrite H4 in Hn. apply elem_of_seq in Hn as [_ Hn]. simpl in Hn. rewrite <- H2 in Hn. apply lookup_lt_is_Some in Hn as [k Hk]. exists k. split; [done |]. by apply (Forall_lookup_1 _ _ _ _ H3 Hk).
Qed.
Lemma clustered_bounds nc total row idx o st : clustered nc total row idx o st -> Forall (fun i => i < length (take total row)) (concat (parts (ri_clusters st) (ri_size st))).
Proof.
  intros H. destruct (clustered_parts _ _ _ _ _ _ H) as (_ & Hp & _). rewrite Hp. apply Forall_forall. intros i [_ Hi]%elem_of_seq. rewrite length_take. pose proof (cl_total _ _ _ _ _ _ H). lia.
Qed.
Lemma reorganize_one nc total row idx o st : clustered nc total row idx o st ->
  (if use_cpp_reorg cfg then reorganize_head_cpp (ri_clusters st) (ri_size st) (take total row) (replicate (length (take total row)) uninit) else reorganize_head (ri_clusters st) (ri_size st) nc total (take total row))
  = Ok (select (take total row) (concat (parts (ri_clusters st) (ri_size st)))).
Proof.
  intros H. destruct (clustered_parts _ _ _ _ _ _ H) as (Hok & Hp & Hn). pose proof (clustered_bounds _ _ _ _ _ _ H) as Hb. pose proof (cl_total _ _ _ _ _ _ H) as Ht.
  assert (length (concat (parts (ri_clusters st) (ri_size st))) = length (take total row)) as Hl by (rewrite Hp, length_seq, length_take; lia).
  destruct (use_cpp_reorg cfg); [apply reorganize_head_cpp_spec; [done | done | apply length_replicate | done] |].
  pose proof (reorganize_head_spec (ri_clusters st) (ri_size st) (take total row) Hok Hl Hb) as E. rewrite Hn in E. replace total with (length (take total row)) at 1 by (rewrite length_take; lia). exact E.
Qed.
Lemma reorganize_tensor_spec nc total rows ri : length rows = num_kv_heads cfg -> length ri = num_kv_heads cfg -> (forall h row st, rows !! h = Some row -> ri !! h = Some st -> exists idx o, clustered nc total row idx o st) ->
  reorganize_tensor cfg uninit (ri_clusters <$> ri) (ri_size <$> ri) nc total rows = Ok (zip_with (fun row st => reorganized_row total row st) rows ri).
Proof.
  intros Hl Hr Hc. unfold reorganize_tensor.
  match goal with |- context [rmap ?f ?l] => destruct (rmap_Forall2 f
    (fun h d => exists row st, rows !! h = Some row /\ ri !! h = Some st /\ d = select (take total row) (concat (parts (ri_clusters st) (ri_size st)))) l) as (dst & -> & Hd) end.
  { apply Forall_forall. intros h [_ Hh]%elem_of_seq. simpl in Hh. destruct (np_get_lt rows h ltac:(lia)) as (row & Hrow & ->). destruct (lookup_lt_is_Some_2 ri h) as [st Hst]; [lia |]. destruct (Hc h row st Hrow Hst) as (idx & o & Hcl).
    eexists. split; [| by exists row, st]. cbn [rbind]. rewrite (proj2 (np_get_Ok (ri_clusters <$> ri) h (ri_clusters st))) by (by rewrite list_lookup_fmap, Hst). cbn [rbind]. rewrite (proj2 (np_get_Ok (ri_size <$> ri) h (ri_size st))) by (by rewrite list_lookup_fmap, Hst). cbn [rbind].
    by apply (reorganize_one nc total row idx o st). }
  cbn [rbind]. f_equal. unfold write_back. apply list_eq. intros h. destruct (decide (h < length rows)) as [Hh | Hh].
  - destruct (lookup_lt_is_Some_2 rows h Hh) as [row Hrow]. destruct (Forall2_lookup_l _ _ _ _ _ Hd (lookup_seq_lt 0 (num_kv_heads cfg) h ltac:(lia))) as (d & Hdh & row' & st & H1 & H2 & ->). simpl in H1, H2. simplify_eq.
    transitivity (Some (reorganized_row total row st)); [apply lookup_zip_with_Some; eexists _, _; eauto | symmetry; apply lookup_zip_with_Some; eauto].
  - rewrite !lookup_ge_None_2; [done | rewrite length_zip_with; lia | rewrite length_zip_with; lia].
Qed.

(** Gathering from a reorganized row gives the tokens of the chosen clusters. *)
Lemma slice_reorganized nc total row idx o st c : clustered nc total row idx o st -> c < nc ->
  cluster_slice (_compute_cluster_offsets (ri_size st)) (ri_size st) (reorganized_row total row st) c = select (take total row) (assigned idx c o).
Proof.
  intros H Hc. destruct (clustered_parts _ _ _ _ _ _ H) as (Hok & Hp & Hn). pose proof (clustered_bounds _ _ _ _ _ _ H) as Hb. destruct (cl_placed _ _ _ _ _ _ H) as (mcs & Hpl).
  assert (parts (ri_clusters st) (ri_size st) !! c = Some (assigned idx c o)) as Hpart by (rewrite (placed_parts idx nc mcs o st) by done; rewrite list_lookup_fmap, lookup_seq_lt by done; done).
  rewrite <- (cluster_slice_spec (ri_clusters st) (ri_size st) (take total row) c _ Hok Hb Hpart). unfold cluster_slice, reorganized_row. rewrite (offsets_lookup (ri_clusters st)) by (done || lia). rewrite (pl_size _ _ _ _ _ Hpl c Hc).
  pose proof (before_S _ _ c _ Hpart) as HS. pose proof (before_le (ri_clusters st) (ri_size st) (S c)) as Hle. rewrite HS, length_app in Hle. rewrite drop_app_le by (rewrite length_select by done; lia). rewrite take_app_le; [done |]. rewrite length_drop, length_select by done. lia.
Qed.
Definition tokens_of (total : nat) (row : list A) (idx o : list nat) (ids : list Z) : list A := concat ((fun c => select (take total row) (assigned idx (Z.to_nat c) o)) <$> ids).
Lemma chosen_reorganized nc total row idx o st ids : clustered nc total row idx o st -> Forall (fun c => 0 <= c < Z.of_nat nc)%Z ids ->
  chosen (_compute_cluster_offsets (ri_size st)) (ri_size st) (reorganized_row total row st) ids = tokens_of total row idx o ids.
Proof.
  intros H Hids. unfold chosen, tokens_of. f_equal. apply list_fmap_ext. intros i c Hc. pose proof (Forall_lookup_1 _ _ _ _ Hids Hc) as Hr. cbv beta in Hr. unfold slice_at. rewrite (proj2 (Z.ltb_ge c 0)) by lia. apply (slice_reorganized nc); [done | lia].
Qed.
Lemma reorganized_perm nc total row idx o st : clustered nc total row idx o st -> take total (reorganized_row total row st) ≡ₚ take total row /\ drop total (reorganized_row total row st) = drop total row.
Proof.
  intros H. destruct (clustered_parts _ _ _ _ _ _ H) as (_ & Hp & _). pose proof (clustered_bounds _ _ _ _ _ _ H) as Hb. pose proof (cl_total _ _ _ _ _ _ H) as Ht. unfold reorganized_row.
  assert (length (select (take total row) (concat (parts (ri_clusters st) (ri_size st)))) = total) as Hl by (rewrite length_select by done; rewrite Hp; by rewrite length_seq).
  rewrite take_app_length', drop_app_length' by done. split; [| done]. apply select_perm. rewrite Hp, length_take. by rewrite Nat.min_l.
Qed.

(** ** One layer *)
Record layer_done (g c : Buffer A) (c' : Buffer A) (m : LayerMeta A) : Prop := {
  ld_offset : b_offset c' = b_offset c;
  ld_reorganized : lm_reorganized m = true;
  ld_rows : exists ri, length ri = num_kv_heads cfg /\ lm_cluster_offsets m = Some (_compute_cluster_offsets <$> (ri_size <$> ri)) /\ lm_cluster_size_cpu m = Some (ri_size <$> ri) /\
    (forall h st, ri !! h = Some st -> exists idx o, layer_assignment g !! h = Some idx /\ layer_orders g !! h = Some o /\
       (forall row, b_keys c !! h = Some row -> clustered (layer_nc g) (b_offset c) row idx o st) /\ (forall row, b_values c !! h = Some row -> clustered (layer_nc g) (b_offset c) row idx o st)) /\
    b_keys c' = zip_with (fun row st => reorganized_row (b_offset c) row st) (b_keys c) ri /\ b_values c' = zip_with (fun row st => reorganized_row (b_offset c) row st) (b_values c) ri;
}.
Definition layer_pair_ok (g c : Buffer A) : Prop :=
  0 < b_offset g /\ b_offset c = b_offset g /\ rows_ok (b_offset g) (b_keys g) /\ rows_ok (b_offset c) (b_keys c) /\ rows_ok (b_offset c) (b_values c) /\ 0 < num_kv_heads cfg.
Lemma cluster_layer_spec g meta : 0 < b_offset g -> rows_ok (b_offset g) (b_keys g) -> 0 < num_kv_heads cfg ->
  exists ri, length ri = num_kv_heads cfg /\
    cluster_layer kmeans centroids_of orders g meta = Ok (mkMeta (Some (centroids_of (layer_view g) (layer_nc g) (Z.to_nat (n_segment (Z.of_nat (b_offset g)))))) (Some (ri_size <$> ri)) (Some (ri_size <$> ri)) (Some (layer_nc g)) (Some (ri_clusters <$> ri)) (lm_cluster_offsets meta) (lm_reorganized meta)) /\
    forall h row, b_keys g !! h = Some row -> exists idx o st, layer_assignment g !! h = Some idx /\ layer_orders g !! h = Some o /\ ri !! h = Some st /\ clustered (layer_nc g) (b_offset g) row idx o st.
Proof.
  intros Hoff Hrows Hheads. destruct (lookup_lt_is_Some_2 (b_keys g) 0) as [row0 H0]; [destruct Hrows; lia |]. destruct (segment_k_means_spec g 0 row0 Hrows H0) as (ri & E & Hl & Hri). exists ri. split; [done |]. split; [| done].
  unfold cluster_layer. fold (layer_view g) (layer_nc g). fold (layer_assignment g). fold (layer_orders g). rewrite E. done.
Qed.
Lemma clustered_other_row nc total row row' idx o st : clustered nc total row idx o st -> total <= length row' -> clustered nc total row' idx o st.
Proof. intros [H1 H2 H3 H4 H5] Hle. by split. Qed.
Lemma reorganize_layer_spec g c meta : layer_pair_ok g c -> exists m cl sz c' m', cluster_layer kmeans centroids_of orders g meta = Ok m /\ lm_clusters m = Some cl /\ lm_cluster_size m = Some sz /\
  reorganize_layer cfg uninit c m cl sz = Ok (c', m') /\ layer_done g c c' m'.
Proof.
  intros (Hoff & Heq & Hg & Hk & Hv & Hh). destruct (cluster_layer_spec g meta Hoff Hg Hh) as (ri & Hl & -> & Hri). eexists _, _, _, _, _. split; [done |]. split; [done |]. split; [done |]. unfold reorganize_layer. cbn [lm_n_centroids from_option id].
  assert (forall h st, ri !! h = Some st -> exists idx o, layer_assignment g !! h = Some idx /\ layer_orders g !! h = Some o /\ forall row, b_offset c <= length row -> clustered (layer_nc g) (b_offset c) row idx o st) as Hall.
  { intros h st Hst. destruct (lookup_lt_is_Some_2 (b_keys g) h) as [row Hrow]; [apply lookup_lt_Some in Hst; destruct Hg; lia |]. destruct (Hri h row Hrow) as (idx & o & st' & H1 & H2 & H3 & H4). simplify_eq. exists idx, o. split_and!; [done .. |]. intros row' Hr'. rewrite Heq in *. by apply (clustered_other_row _ _ row). }
  assert (forall rows, rows_ok (b_offset c) rows -> forall h row st, rows !! h = Some row -> ri !! h = Some st -> exists idx o, clustered (layer_nc g) (b_offset c) row idx o st) as Hcl.
  { intros rows [_ Hrows] h row st Hrow Hst. destruct (Hall h st Hst) as (idx & o & _ & _ & H). exists idx, o. apply H. by apply (Forall_lookup_1 _ _ _ _ Hrows Hrow). }
  rewrite (reorganize_tensor_spec (layer_nc g) (b_offset c) (b_keys c) ri) by (apply Hk || done || by apply Hcl). cbn [rbind]. rewrite (reorganize_tensor_spec (layer_nc g) (b_offset c) (b_values c) ri) by (apply Hv || done || by apply Hcl). cbn [rbind].
  split; [done |]. split; [done | done |]. exists ri. split; [done |]. split; [done |]. split; [done |]. split; [| done]. intros h st Hst. destruct (Hall h st Hst) as (idx & o & H1 & H2 & H3). exists idx, o. split_and!; [done | done | |]; intros row Hrow; apply H3; [apply (Forall_lookup_1 _ _ _ _ (proj2 Hk) Hrow) | apply (Forall_lookup_1 _ _ _ _ (proj2 Hv) Hrow)].
Qed.
End layer.

#[local] Open Scope nat_scope.

Section request.
Context {A : Type} (cfg : NelssaCfg) (uninit : A).
Context (kmeans : list (list A) -> nat -> nat -> list (list nat)) (centroids_of : list (list A) -> nat -> nat -> list (list A)) (orders : list (list nat) -> list (list nat)).
Context (Hkm : assigns kmeans) (Hord : runs_all_lanes orders).

Lemma cluster_layers_spec gs : forall d, od_ok gs -> (forall l g, (l, g) ∈ gs -> 0 < b_offset g /\ rows_ok cfg (b_offset g) (b_keys g)) -> 0 < num_kv_heads cfg ->
  exists d', cluster_layers kmeans centroids_of orders gs d = Ok d' /\ (forall l, l ∉ od_keys gs -> od_get l d' = od_get l d) /\
    forall l g, (l, g) ∈ gs -> exists meta m, cluster_layer kmeans centroids_of orders g meta = Ok m /\ od_get l d' = Some m.
Proof.
  induction gs as [|[l g] gs IH]; intros d Hok Hgs Hh; [exists d; split; [done |]; split; [done |]; intros l g H; by apply elem_of_nil in H |]. apply NoDup_cons in Hok as [Hni Hok]. destruct (Hgs l g) as [Hoff Hrows]; [by left |]. cbn [cluster_layers]. rewrite bool_decide_eq_false_2 by lia.
  destruct (cluster_layer_spec cfg kmeans centroids_of orders Hkm Hord g (default empty_meta (od_get l d)) Hoff Hrows Hh) as (ri & _ & E & _). rewrite E. cbn [rbind].
  match type of E with _ = Ok ?m => destruct (IH (od_set l m d) Hok) as (d' & -> & Hout & Hin) end; [intros l' g' H; apply (Hgs l' g'); by right | done |]. exists d'. split; [done |]. split.
  - intros l' [Hne Hl']%not_elem_of_cons. rewrite Hout by done. rewrite od_get_set. by rewrite decide_False.
  - intros l' g' [[= -> ->] | H]%elem_of_cons; [| by apply Hin]. eexists _, _. split; [exact E |]. rewrite Hout by done. rewrite od_get_set. by rewrite decide_True.
Qed.

Definition clustered_layer (ms : list (nat * LayerMeta A)) (l : nat) (g c : Buffer A) : Prop :=
  layer_pair_ok cfg g c /\ exists meta m, cluster_layer kmeans centroids_of orders g meta = Ok m /\ od_get l ms = Some m.
Lemma clustered_layer_other ms l l' g c m : l <> l' -> clustered_layer ms l g c -> clustered_layer (od_set l' m ms) l g c.
Proof. intros Hne (Hp & meta & m0 & H1 & H2). split; [done |]. exists meta, m0. split; [done |]. rewrite od_get_set. by rewrite decide_False. Qed.
Lemma reorganize_layers_step l c buffers bs ms g : clustered_layer ms l g c ->
  exists c' m', reorganize_layers cfg uninit ((l, c) :: buffers) bs ms = reorganize_layers cfg uninit buffers (od_set l c' bs) (od_set l m' ms) /\ layer_done cfg kmeans orders g c c' m'.
Proof.
  intros (Hpair & meta & m & E & Hm). destruct (reorganize_layer_spec cfg uninit kmeans centroids_of orders Hkm Hord g c meta Hpair) as (m1 & cl & sz & c' & m' & E1 & Hcl & Hsz & E2 & Hdone). rewrite E in E1. injection E1 as <-.
  exists c', m'. split; [| done]. cbn [reorganize_layers]. rewrite Hm, Hcl, Hsz. destruct Hpair as (Hoff & Heq & _). rewrite bool_decide_eq_false_2 by lia. by rewrite E2.
Qed.
Lemma reorganize_layers_spec gs buffers : forall bs ms, od_ok buffers -> (forall l c, (l, c) ∈ buffers -> exists g, od_get l gs = Some g /\ clustered_layer ms l g c) ->
  exists bs' ms', reorganize_layers cfg uninit buffers bs ms = Ok (bs', ms') /\ (forall l, l ∉ od_keys buffers -> od_get l bs' = od_get l bs /\ od_get l ms' = od_get l ms) /\
    forall l c g, (l, c) ∈ buffers -> od_get l gs = Some g -> exists c' m', od_get l bs' = Some c' /\ od_get l ms' = Some m' /\ layer_done cfg kmeans orders g c c' m'.
Proof.
  induction buffers as [|[l c] buffers IH]; intros bs ms Hok Hb; [exists bs, ms; split; [done |]; split; [done |]; intros l c g H; by apply elem_of_nil in H |]. apply NoDup_cons in Hok as [Hni Hok].
  destruct (Hb l c) as (g & Hg & Hcl); [by left |]. destruct (reorganize_layers_step l c buffers bs ms g Hcl) as (c' & m' & -> & Hdone).
  destruct (IH (od_set l c' bs) (od_set l m' ms) Hok) as (bs' & ms' & E' & Hout & Hin).
  { intros l' c2 H. destruct (Hb l' c2) as (g' & Hg' & Hc'); [by right |]. exists g'. split; [done |]. apply clustered_layer_other; [| done]. intros ->. apply Hni. by apply (list_elem_of_fmap_2' fst _ (l, c2) l). }
  exists bs', ms'. split; [done |]. split.
  - intros l' [Hne Hl']%not_elem_of_cons. destruct (Hout l' Hl') as [-> ->]. rewrite !od_get_set. by rewrite !decide_False.
  - intros l' c2 g' [[= -> ->] | H]%elem_of_cons Hg'; [| by apply (Hin l' c2 g')]. destruct (Hout l Hni) as [H1 H2]. rewrite od_get_set in H1. rewrite od_get_set in H2. rewrite decide_True in H1 by done. rewrite decide_True in H2 by done. simplify_eq. by exists c', m'.
Qed.

(** The two calls of _cluster_sparse_kv that change the metadata and the CPU buffers *)
Definition request_ready (r : Runner A) (key : string) (gs cs : list (nat * Buffer A)) : Prop :=
  gpu_buffers r !! key = Some gs /\ cpu_buffers r !! key = Some cs /\ od_ok gs /\ od_ok cs /\ 0 < num_kv_heads cfg /\
  (forall l g, od_get l gs = Some g -> 0 < b_offset g /\ rows_ok cfg (b_offset g) (b_keys g)) /\
  (forall l c, od_get l cs = Some c -> exists g, od_get l gs = Some g /\ layer_pair_ok cfg g c).
Lemma buffer_key_with_metadata (r : Runner A) m req_id : _get_buffer_key cfg (with_metadata m r) req_id = _get_buffer_key cfg r req_id.
Proof. done. Qed.
Lemma cluster_then_reorganize (r : Runner A) req_id gs cs : request_ready r (_get_buffer_key cfg r req_id) gs cs ->
  exists r1 r2, cluster_sparse_kv cfg kmeans centroids_of orders [req_id] r = Ok r1 /\ reorganize_by_clusters cfg uninit [req_id] r1 = Ok r2 /\ request_id_to_buffer_key r2 = request_id_to_buffer_key r /\
    forall l c g, od_get l cs = Some c -> od_get l gs = Some g -> exists c' m', layer_of (cpu_buffers r2) (_get_buffer_key cfg r req_id) l = Ok c' /\ layer_of (cluster_metadata r2) (_get_buffer_key cfg r req_id) l = Ok m' /\ layer_done cfg kmeans orders g c c' m'.
Proof.
  set (key := _get_buffer_key cfg r req_id). intros (Hg & Hc & Hokg & Hokc & Hh & Hgs & Hcs).
  destruct (cluster_layers_spec gs (default [] (cluster_metadata r !! key)) Hokg) as (d & Ed & _ & Hd); [intros l g H; apply (Hgs l g); by apply od_elem_get | done |].
  unfold cluster_sparse_kv, reorganize_by_clusters. cbn [rfold]. unfold cluster_request. fold key. rewrite Hg, Ed. cbn [rbind].
  assert (forall l c, (l, c) ∈ cs -> exists g, od_get l gs = Some g /\ clustered_layer d l g c) as Hready.
  { intros l c H. apply od_elem_get in H; [| done]. destruct (Hcs l c H) as (g & H1 & H2). exists g. split; [done |]. split; [done |]. destruct (Hd l g (od_get_elem _ _ _ H1)) as (meta & m & H3 & H4). by exists meta, m. }
  destruct (reorganize_layers_spec gs cs cs d Hokc Hready) as (bs' & ms' & E & _ & Hdone).
  assert (forall r1, r1 = with_metadata (<[key := d]> (cluster_metadata r)) r -> reorganize_request cfg uninit r1 req_id = Ok (with_metadata (<[key := ms']> (cluster_metadata r1)) (with_buffers (gpu_buffers r1) (<[key := bs']> (cpu_buffers r1)) r1))) as Hreq.
  { intros r1 ->. unfold reorganize_request. rewrite buffer_key_with_metadata. fold key. simpl. rewrite lookup_insert_eq, Hc, E. done. }
  destruct d as [|x d]; [destruct (cluster_metadata r !! key) as [d0|] eqn:Em |].
  2:{ eexists _, _. split; [done |]. split; [unfold reorganize_request; fold key; rewrite Em; done |]. split; [done |]. intros l c g _ H2. destruct (Hd l g (od_get_elem _ _ _ H2)) as (meta & m & _ & H). done. }
  all: eexists _, _; split; [done |]; split; [rewrite Hreq by done; done |]; split; [done |]; intros l c g H1 H2; destruct (Hdone l c g (od_get_elem _ _ _ H1) H2) as (c' & m' & H3 & H4 & H5); exists c', m'; unfold layer_of; simpl; rewrite !lookup_insert_eq, H3, H4; done.
Qed.

(** The gather of the fused path on a layer that is done *)
Lemma gather_request_spec g c c' m tensor_of (ids : list (list Z)) (batch : list (list A)) : (tensor_of = b_keys \/ tensor_of = b_values) -> layer_pair_ok cfg g c -> layer_done cfg kmeans orders g c c' m ->
  length ids = num_kv_heads cfg -> length batch = num_kv_heads cfg -> Forall (Forall (fun i => 0 <= i < Z.of_nat (layer_nc g))%Z) ids ->
  exists offs sz rows, lm_cluster_offsets m = Some offs /\ lm_cluster_size_cpu m = Some sz /\ gather_request (tensor_of c') offs sz ids batch = Ok rows /\
    forall h row i dst, tensor_of c !! h = Some row -> ids !! h = Some i -> batch !! h = Some dst -> exists idx o out n, layer_assignment kmeans g !! h = Some idx /\ layer_orders kmeans orders g !! h = Some o /\
      rows !! h = Some (out, n) /\ n = length (tokens_of (b_offset c) row idx o i) `min` length dst /\ take n out = take n (tokens_of (b_offset c) row idx o i).
Proof.
  intros Htens (_ & Heq & _ & Hk & Hv & Hh) [_ _ (ri & Hl & Ho & Hs & Hri & Hk' & Hv')] Li Lb Hids. exists (_compute_cluster_offsets <$> (ri_size <$> ri)), (ri_size <$> ri).
  assert (length (tensor_of c) = num_kv_heads cfg /\ tensor_of c' = zip_with (fun row st => reorganized_row (b_offset c) row st) (tensor_of c) ri /\
    forall h st row, ri !! h = Some st -> tensor_of c !! h = Some row -> exists idx o, layer_assignment kmeans g !! h = Some idx /\ layer_orders kmeans orders g !! h = Some o /\ clustered (layer_nc g) (b_offset c) row idx o st) as (Lt & Et & Hrow).
  { destruct Htens as [-> | ->]; (split; [apply Hk || apply Hv |]); (split; [done |]); intros h st row Hst Hrow; destruct (Hri h st Hst) as (idx & o & H1 & H2 & H3 & H4); exists idx, o; eauto. }
  unfold gather_request. assert (length (tensor_of c') = num_kv_heads cfg) as -> by (rewrite Et, length_zip_with; lia).
  match goal with |- context [rmap ?f ?l] => destruct (rmap_Forall2 f (fun h x => forall row i dst, tensor_of c !! h = Some row -> ids !! h = Some i -> batch !! h = Some dst -> exists idx o, layer_assignment kmeans g !! h = Some idx /\ layer_orders kmeans orders g !! h = Some o /\
      x.2 = length (tokens_of (b_offset c) row idx o i) `min` length dst /\ take x.2 x.1 = take x.2 (tokens_of (b_offset c) row idx o i)) l) as (rows & -> & Hrows) end.
  - apply Forall_forall. intros h [_ Hlt]%elem_of_seq. simpl in Hlt. destruct (lookup_lt_is_Some_2 ri h) as [st Hst]; [lia |]. destruct (lookup_lt_is_Some_2 (tensor_of c) h) as [row Hrw]; [lia |]. destruct (Hrow h st row Hst Hrw) as (idx & o & H1 & H2 & Hcl).
    destruct (np_get_lt ids h) as (i & Hi & ->); [lia |]. destruct (np_get_lt batch h) as (dst & Hd & ->); [lia |].
    rewrite (proj2 (np_get_Ok (tensor_of c') h (reorganized_row (b_offset c) row st))) by (rewrite Et; apply lookup_zip_with_Some; eauto). cbn [rbind].
    rewrite (proj2 (np_get_Ok (_compute_cluster_offsets <$> (ri_size <$> ri)) h (_compute_cluster_offsets (ri_size st)))) by (by rewrite !list_lookup_fmap, Hst). cbn [rbind]. rewrite (proj2 (np_get_Ok (ri_size <$> ri) h (ri_size st))) by (by rewrite list_lookup_fmap, Hst). cbn [rbind].
    destruct (gather_loop_spec (_compute_cluster_offsets (ri_size st)) (ri_size st) (reorganized_row (b_offset c) row st) ltac:(symmetry; apply offsets_length) i dst 0 ltac:(lia)) as (out & n & E & Hn & Hout).
    rewrite (chosen_reorganized (layer_nc g) (b_offset c) row idx o st i) in Hn, Hout by (done || by apply (Forall_lookup_1 _ _ _ _ Hids Hi)). exists (out, n). split; [exact E |]. intros row' i' dst' Hr' Hi' Hd'. simplify_eq. exists idx, o. split_and!; [done | done | done |]. simpl.
    rewrite take_app_le by (rewrite length_take; lia). by rewrite take_take, Nat.min_id.
  - eexists. split; [done |]. split; [done |]. split; [done |]. intros h row i dst H1 H2 H3. assert (h < num_kv_heads cfg) as Hlt by (rewrite <- Lt; by eapply lookup_lt_Some). destruct (Forall2_lookup_l _ _ _ _ _ Hrows (lookup_seq_lt 0 _ h Hlt)) as ([out n] & Hx & H). simpl in H.
    destruct (H row i dst H1 H2 H3) as (idx & o & H4 & H5 & H6 & H7). exists idx, o, out, n. done.
Qed.
End request.
