(* ===== verification/NelssaWorkerProps.v ===== *)
(** * NelssaWorkerProps
    The tokens the offload callback has collected, chunk after chunk, and the properties of
    offloading, reorganization and gathering. *)
From S2P Require Import Prelude OrdDict CacheHit Scheduler KVCacheInterface SizingInv WorkerBlockTable InputBatchInv NelssaClusters NelssaWorker NelssaEngine NelssaAttention NelssaGatherInv.
#[local] Open Scope nat_scope.

Section offload.
Context {A : Type} (cfg : NelssaCfg).
Notation H := (num_kv_heads cfg).

(** The vectors of head [h] of some tokens *)
Definition column (h : nat) (toks : list (list A)) : list A := omap (fun t => t !! h) toks.
Definition full_tokens (toks : list (list A)) : Prop := Forall (fun t => length t = H) toks.
Lemma column_app h a b : column h (a ++ b) = column h a ++ column h b.
Proof. apply omap_app. Qed.
Lemma rmap_column h toks : full_tokens toks -> h < H -> rmap (fun tok => np_get tok h) toks = Ok (column h toks) /\ length (column h toks) = length toks.
Proof.
  intros Hf Hh. induction Hf as [|t toks Ht Hf [IH1 IH2]]; [done |]. destruct (np_get_lt t h) as (x & Hx & Gx); [lia |]. cbn [rmap]. rewrite Gx. cbn [rbind]. rewrite IH1. cbn [rbind].
  assert (column h (t :: toks) = x :: column h toks) as -> by (unfold column; simpl; by rewrite Hx). simpl. by rewrite IH2.
Qed.
Lemma heads_of_spec states a n : n <= length states - a -> full_tokens (take n (drop a states)) -> heads_of cfg states a n = Ok ((fun h => column h (take n (drop a states))) <$> seq 0 H).
Proof.
  intros Hn Hf. unfold heads_of. rewrite bool_decide_eq_true_2 by (rewrite length_take, length_drop; lia). apply rmap_fmap. intros h [_ Hh]%elem_of_seq. by apply rmap_column.
Qed.

(** Writing one piece per row *)
Definition rows_from (f : nat -> list A) : list (list A) := f <$> seq 0 H.
Lemma rows_from_lookup f h : h < H -> rows_from f !! h = Some (f h).
Proof. intros Hh. unfold rows_from. rewrite list_lookup_fmap, lookup_seq_lt by done. done. Qed.
Lemma rows_from_Some f h x : rows_from f !! h = Some x -> h < H /\ x = f h.
Proof. intros Hx. unfold rows_from in Hx. apply list_lookup_fmap_Some in Hx as (j & -> & [-> Hj]%lookup_seq). done. Qed.
Definition put_at (start : nat) (v row : list A) : list A := take start row ++ v ++ drop (start + length v) row.
Lemma length_put_at start v row : start + length v <= length row -> length (put_at start v row) = length row.
Proof. intros Hl. unfold put_at. rewrite !length_app, length_take, length_drop. lia. Qed.
Lemma take_put_at start v row : start + length v <= length row -> take (start + length v) (put_at start v row) = take start row ++ v.
Proof. intros Hl. unfold put_at. rewrite app_assoc. apply take_app_length'. rewrite length_app, length_take. lia. Qed.
Definition wide (n : nat) (rows : list (list A)) : Prop := length rows = H /\ Forall (fun row => n <= length row) rows.
Lemma write_rows_spec rows start n f : wide (start + n) rows -> (forall h, h < H -> length (f h) = n) ->
  exists rows', write_rows rows start (start + n) (rows_from f) = Ok rows' /\ length rows' = H /\ forall h row, rows !! h = Some row -> rows' !! h = Some (put_at start (f h) row).
Proof.
  intros [Hl Hw] Hf. unfold write_rows. rewrite bool_decide_eq_true_2 by (unfold rows_from; rewrite length_fmap, length_seq; done).
  match goal with |- context [rmap ?g ?l] => destruct (rmap_Forall2 g (fun x y => y = put_at start x.2 x.1) l) as (rows' & -> & Hr) end.
  - apply Forall_lookup_2. intros h [row v] Hx. apply lookup_zip_with_Some in Hx as (row' & v' & [= -> ->] & Hrow & Hv). apply rows_from_Some in Hv as [Hh ->]. pose proof (Forall_lookup_1 _ _ _ _ Hw Hrow) as Hle. cbv beta in Hle.
    exists (put_at start (f h) row'). split; [| done]. cbn [fst snd]. unfold torch_assign, put_at. rewrite !Nat.min_l by lia. rewrite bool_decide_eq_true_2 by (rewrite Hf by done; lia). done.
  - exists rows'. split; [done |]. split; [rewrite <- (Forall2_length _ _ _ Hr), length_zip_with; unfold rows_from; rewrite length_fmap, length_seq; lia |].
    intros h row Hrow. assert (h < H) as Hh by (rewrite <- Hl; by eapply lookup_lt_Some). assert (zip rows (rows_from f) !! h = Some (row, f h)) as Hz by (apply lookup_zip_with_Some; eexists _, _; split_and!; [done | done | by apply rows_from_lookup]).
    destruct (Forall2_lookup_l _ _ _ _ _ Hr Hz) as (y & Hy & ->). done.
Qed.

(** ** The middle of a prompt *)
Definition middle_upto (K : list (list A)) (e : nat) : list (list A) := drop (Z.to_nat (first_n cfg)) (take (Z.to_nat (Z.min (zlen K - last_m cfg) (Z.of_nat e))) K).
(** Rows of a buffer of capacity [cap]; they start with the vectors of [toks] if [P]. *)
Definition rows_hold (P : Prop) (toks : list (list A)) (cap : nat) (rows : list (list A)) : Prop :=
  length rows = H /\ forall h row, rows !! h = Some row -> cap <= length row /\ (P -> take (length toks) row = column h toks).
Definition buffer_holds (P : Prop) (K V : list (list A)) (cap e : nat) (b : Buffer A) : Prop :=
  b_offset b = length (middle_upto K e) /\ rows_hold P (middle_upto K e) cap (b_keys b) /\ rows_hold P (middle_upto V e) cap (b_values b).
Lemma write_holds (P : Prop) toks more cap rows f : full_tokens more -> (forall h, h < H -> length (f h) = length more) -> (P -> forall h, h < H -> f h = column h more) -> rows_hold P toks cap rows -> length toks + length more <= cap ->
  exists rows', write_rows rows (length toks) (length toks + length more) (rows_from f) = Ok rows' /\ rows_hold P (toks ++ more) cap rows'.
Proof.
  intros Hf Lf Ef [Hl Hr] Hcap. destruct (write_rows_spec rows (length toks) (length more) f) as (rows' & E & Hl' & Hr').
  - split; [done |]. apply Forall_lookup_2. intros h row Hrow. destruct (Hr h row Hrow). lia.
  - exact Lf.
  - exists rows'. split; [done |]. split; [done |]. intros h row' Hrow'. assert (h < H) as Hh by (rewrite <- Hl'; by eapply lookup_lt_Some). destruct (lookup_lt_is_Some_2 rows h) as [row Hrow]; [lia |].
    destruct (Hr h row Hrow) as [Hc Ht]. rewrite (Hr' h row Hrow) in Hrow'. injection Hrow' as <-. pose proof (Lf h Hh) as Hlm. rewrite length_put_at by lia. split; [done |].
    intros HP. rewrite length_app, <- Hlm, take_put_at by lia. rewrite (Ht HP), (Ef HP h Hh). by rewrite column_app.
Qed.

(** Writing to a temporary buffer and reading it back *)
Lemma write_temp tk more w : full_tokens more -> wide w tk -> length more <= w ->
  exists tk', write_rows tk 0 (length more) (rows_from (fun h => column h more)) = Ok tk' /\ wide w tk' /\ take (length more) <$> tk' = rows_from (fun h => column h more).
Proof.
  intros Hf [Hl Hw] Hle. destruct (write_rows_spec tk 0 (length more) (fun h => column h more)) as (tk' & E & Hl' & Hr').
  - split; [done |]. eapply Forall_impl; [exact Hw |]. simpl. lia.
  - intros h Hh. by apply (rmap_column h more Hf Hh).
  - exists tk'. split; [exact E |]. assert (forall h, h < H -> exists row, tk !! h = Some row /\ w <= length row /\ tk' !! h = Some (put_at 0 (column h more) row) /\ length (column h more) = length more) as Hrow.
    { intros h Hh. destruct (lookup_lt_is_Some_2 tk h) as [row Hrow]; [lia |]. exists row. split; [done |]. split; [by apply (Forall_lookup_1 _ _ _ _ Hw Hrow) |]. split; [by apply Hr' | by apply rmap_column]. }
    split; [split; [done |] |].
    + apply Forall_lookup_2. intros h row' Hrow'. destruct (Hrow h) as (row & _ & Hw' & Hr & Hc); [rewrite <- Hl'; by eapply lookup_lt_Some |]. rewrite Hr in Hrow'. injection Hrow' as <-. rewrite length_put_at; lia.
    + apply list_eq. intros h. rewrite list_lookup_fmap. destruct (decide (h < H)) as [Hh | Hh].
      * destruct (Hrow h Hh) as (row & _ & Hw' & -> & Hc). rewrite rows_from_lookup by done. simpl. f_equal. rewrite <- Hc. apply (take_put_at 0). lia.
      * rewrite (lookup_ge_None_2 tk') by lia. symmetry. apply lookup_ge_None_2. unfold rows_from. rewrite length_fmap, length_seq. lia.
Qed.
Record temp_ok (w : nat) (tk tv : list (list A)) : Prop := { to_keys : wide w tk; to_values : wide w tv }.

(** What the copy to the CPU reads has the shape of the temporary buffer; in time, it is what
    the call has written. *)
Record seen_shape (seen : Seen A) : Prop := {
  ss_keys : forall t, length <$> seen_keys seen t = length <$> t;
  ss_values : forall t, length <$> seen_values seen t = length <$> t;
}.
Definition in_time (seen : Seen A) : Prop := forall t, seen_keys seen t = t /\ seen_values seen t = t.
Lemma seen_rows (f : list (list A) -> list (list A)) t n w more : (forall t, length <$> f t = length <$> t) -> wide w t -> n <= w -> take n <$> t = rows_from (fun h => column h more) ->
  exists rows, take n <$> f t = rows_from rows /\ (forall h, h < H -> length (rows h) = n) /\ ((forall t, f t = t) -> forall h, h < H -> rows h = column h more).
Proof.
  intros Hf [Hl Hw] Hn Ht. exists (fun h => default [] ((take n <$> f t) !! h)). assert (length (f t) = H) as Hlf by (rewrite <- Hl, <- (length_fmap length), Hf; apply length_fmap). split_and!.
  - apply list_eq. intros h. destruct (decide (h < H)) as [Hh | Hh].
    + rewrite rows_from_lookup by done. destruct (lookup_lt_is_Some_2 (take n <$> f t) h) as [x Hx]; [by rewrite length_fmap; lia |]. by rewrite Hx.
    + rewrite !lookup_ge_None_2; [done | unfold rows_from; rewrite length_fmap, length_seq; lia | rewrite length_fmap; lia].
  - intros h Hh. destruct (lookup_lt_is_Some_2 (f t) h) as [x Hx]; [lia |]. rewrite list_lookup_fmap, Hx. simpl. rewrite length_take. destruct (lookup_lt_is_Some_2 t h) as [y Hy]; [lia |].
    pose proof (f_equal (fun l => l !! h) (Hf t)) as Hxy. simpl in Hxy. rewrite !list_lookup_fmap, Hx, Hy in Hxy. injection Hxy as ->. pose proof (Forall_lookup_1 _ _ _ _ Hw Hy) as Hle. simpl in Hle. lia.
  - intros Hid h Hh. rewrite Hid, Ht, rows_from_lookup by done. done.
Qed.
Lemma offload_layer_spec (P : Prop) seen ks vs start n w tk tv g c tokK tokV moreK moreV cap :
  take n (drop start ks) = moreK -> take n (drop start vs) = moreV -> length moreK = n -> length moreV = n -> full_tokens moreK -> full_tokens moreV -> n <= w -> temp_ok w tk tv -> seen_shape seen -> (P -> in_time seen) ->
  (forall Q b, Q = True /\ b = g \/ Q = P /\ b = c -> b_offset b = length tokK /\ rows_hold Q tokK cap (b_keys b) /\ rows_hold Q tokV cap (b_values b)) -> length tokV = length tokK -> length tokK + n <= cap ->
  exists tk' tv' g' c', offload_layer cfg seen ks vs start n tk tv g c = Ok (tk', tv', g', c') /\ temp_ok w tk' tv' /\
    forall Q b, Q = True /\ b = g' \/ Q = P /\ b = c' -> b_offset b = length (tokK ++ moreK) /\ rows_hold Q (tokK ++ moreK) cap (b_keys b) /\ rows_hold Q (tokV ++ moreV) cap (b_values b).
Proof.
  intros HK HV LK LV FK FV Hw [Wk Wv] [Sk Sv] Hin Hb Hlen Hcap. unfold offload_layer.
  rewrite heads_of_spec; [| apply (f_equal length) in HK; rewrite length_take, length_drop in HK; lia | by rewrite HK]. rewrite HK. cbn [rbind].
  rewrite heads_of_spec; [| apply (f_equal length) in HV; rewrite length_take, length_drop in HV; lia | by rewrite HV]. rewrite HV. cbn [rbind].
  fold (rows_from (fun h => column h moreK)) (rows_from (fun h => column h moreV)).
  destruct (write_temp tk moreK w FK Wk ltac:(lia)) as (tk' & E1 & Wk' & T1). destruct (write_temp tv moreV w FV Wv ltac:(lia)) as (tv' & E2 & Wv' & T2). rewrite LK in E1, T1. rewrite LV in E2, T2. rewrite E1. cbn [rbind]. rewrite E2. cbn [rbind].
  destruct (seen_rows _ tk' n w moreK Sk Wk' Hw T1) as (fk & -> & Lfk & Efk). destruct (seen_rows _ tv' n w moreV Sv Wv' Hw T2) as (fv & -> & Lfv & Efv).
  assert (forall more, full_tokens more -> forall h, h < H -> length (column h more) = length more) as Lc by (intros more Hf h Hh; by apply (rmap_column h more Hf Hh)).
  destruct (Hb True g) as (Og & Gk & Gv); [by left |]. destruct (Hb P c) as (Oc & Ck & Cv); [by right |].
  destruct (write_holds True tokK moreK cap (b_keys g) (fun h => column h moreK) FK (Lc _ FK) ltac:(done) Gk ltac:(lia)) as (gk & E3 & Hgk). destruct (write_holds True tokV moreV cap (b_values g) (fun h => column h moreV) FV (Lc _ FV) ltac:(done) Gv ltac:(lia)) as (gv & E4 & Hgv).
  destruct (write_holds P tokK moreK cap (b_keys c) fk FK ltac:(by rewrite LK) ltac:(intros HP; apply Efk; intros t; apply (Hin HP)) Ck ltac:(lia)) as (ck & E5 & Hck). destruct (write_holds P tokV moreV cap (b_values c) fv FV ltac:(by rewrite LV) ltac:(intros HP; apply Efv; intros t; apply (Hin HP)) Cv ltac:(lia)) as (cv & E6 & Hcv).
  rewrite LK in E3, E5. rewrite LV, Hlen in E4, E6. rewrite Og, Oc, E3. cbn [rbind]. rewrite E4. cbn [rbind]. rewrite E5. cbn [rbind]. rewrite E6. cbn [rbind].
  eexists _, _, _, _. split; [done |]. split; [by split |]. intros Q b [[-> ->] | [-> ->]]; simpl; rewrite length_app, LK; done.
Qed.

(** ** One chunk *)
Record chunk_ok (K V : list (list A)) (s e : nat) (info : ChunkInfo) : Prop := {
  co_prefill : ci_is_prefill_chunk info = true;
  co_prompt : ci_prompt_len info = zlen K;
  co_start : ci_chunk_start info = Z.of_nat s;
  co_end : ci_chunk_end info = Z.of_nat e;
  co_range : s <= e <= length K;
  co_total : (zlen K <= ci_max_total_len info)%Z;
}.
Record prompt_ok (K V : list (list A)) : Prop := {
  pr_keys : full_tokens K;
  pr_values : full_tokens V;
  pr_len : length V = length K;
  pr_pos : 0 < length K;
  pr_first : (0 <= first_n cfg)%Z;
  pr_last : (0 <= last_m cfg)%Z;
}.
Lemma middle_full K e : full_tokens K -> full_tokens (middle_upto K e).
Proof. intros Hf. apply Forall_drop, Forall_take, Hf. Qed.
(** What a chunk adds to the middle *)
Lemma middle_step K V s e info : prompt_ok K V -> chunk_ok K V s e info -> let '(ms, me) := middle_of cfg info in
  if (me <=? ms)%Z then middle_upto K e = middle_upto K s /\ middle_upto V e = middle_upto V s
  else (Z.of_nat s <= ms /\ me <= Z.of_nat e)%Z /\
       let n := Z.to_nat (me - ms) in let a := Z.to_nat ms in
       a + n <= length K /\ middle_upto K e = middle_upto K s ++ take n (drop a K) /\ middle_upto V e = middle_upto V s ++ take n (drop a V) /\ length (middle_upto K s) + n <= length K.
Proof.
  intros [_ _ Hlv Hpos Hf Hl] [_ Hp Hs He Hr _]. unfold middle_of. rewrite Hp, Hs, He. rewrite (proj2 (Z.ltb_lt 0 (zlen K))) by (unfold zlen; lia). unfold middle_upto. assert (zlen V = zlen K) as -> by (unfold zlen; lia).
  set (F := Z.to_nat (first_n cfg)). set (L := (zlen K - last_m cfg)%Z). assert (L <= Z.of_nat (length K))%Z as HL by (unfold L, zlen; lia).
  destruct (Z.min L (Z.of_nat e) <=? Z.max (first_n cfg) (Z.of_nat s))%Z eqn:E; [apply Z.leb_le in E | apply Z.leb_gt in E].
  - destruct (decide (Z.min L (Z.of_nat e) = Z.min L (Z.of_nat s))) as [-> | Hne]; [done |]. split; (rewrite !drop_ge; [done | rewrite length_take; lia | rewrite length_take; lia]).
  - split; [lia |]. cbv zeta. assert (Z.min L (Z.of_nat s) = Z.of_nat s) as -> by lia. rewrite Nat2Z.id. set (m := Z.to_nat (Z.min L (Z.of_nat e))). set (a := Z.to_nat (Z.max (first_n cfg) (Z.of_nat s))).
    replace (Z.to_nat (Z.min L (Z.of_nat e) - Z.max (first_n cfg) (Z.of_nat s))) with (m - a) by lia. assert (a = F `max` s) as Ha by lia. assert (a < m <= length K) as Hm by (unfold m; lia).
    assert (forall T : list (list A), length T = length K -> drop F (take m T) = drop F (take s T) ++ take (m - a) (drop a T)) as Hsplit.
    { intros T HT. destruct (decide (s <= F)) as [Hsf | Hsf].
      - rewrite (drop_ge (take s T)) by (rewrite length_take; lia). replace a with F by lia. rewrite take_drop_commute. by replace (F + (m - F)) with m by lia.
      - replace a with s by lia. rewrite take_drop_commute. replace (s + (m - s)) with m by lia. rewrite <- (take_drop s (take m T)) at 1. rewrite take_take, Nat.min_l by lia. rewrite drop_app_le by (rewrite length_take; lia). done. }
    split; [lia |]. split; [by apply Hsplit |]. split; [by apply Hsplit |]. rewrite length_drop, length_take. lia.
Qed.

(** ** The callback *)
Lemma fold_od_set {B} (l : list (string * B)) : forall d x v, NoDup (l.*1) -> (x, v) ∈ l -> od_get x (fold_left (fun d y => od_set y.1 y.2 d) l d) = Some v.
Proof.
  assert (forall (l : list (string * B)) d x, x ∉ l.*1 -> od_get x (fold_left (fun d y => od_set y.1 y.2 d) l d) = od_get x d) as Hout.
  { clear. induction l as [|[k w] l IH]; intros d x Hx; [done |]. simpl in *. apply not_elem_of_cons in Hx as [H1 H2]. rewrite IH by done. rewrite od_get_set. by rewrite decide_False. }
  induction l as [|[k w] l IH]; intros d x v Hnd Hin; [by apply elem_of_nil in Hin |]. simpl in *. apply NoDup_cons in Hnd as [Hni Hnd]. apply elem_of_cons in Hin as [[= -> ->] | Hin]; [| by apply IH]. rewrite Hout by done. rewrite od_get_set. by rewrite decide_True.
Qed.
Lemma index_in_batch (req_ids : list string) i req_id : NoDup req_ids -> req_ids !! i = Some req_id -> od_get req_id (fold_left (fun d x => od_set x.1 x.2 d) (zip req_ids (seq 0 (length req_ids))) []) = Some i.
Proof.
  intros Hnd Hi. apply fold_od_set; [by rewrite fst_zip by (by rewrite length_seq) |]. apply list_elem_of_lookup_2 with i. apply lookup_zip_with_Some. eexists _, _. split_and!; [done | done |]. apply lookup_seq_lt. by eapply lookup_lt_Some.
Qed.
Lemma remote_is_buffer_key (r : Runner A) req_id : match _get_remote_request_id cfg r req_id with Some k => k | None => req_id end = _get_buffer_key cfg r req_id.
Proof.
  unfold _get_buffer_key, _get_remote_request_id. destruct (is_pd_disaggregated cfg); [| done]. assert (forall k, (k = EmptyString -> req_id = EmptyString) -> k = or_str (Some k) req_id) as Hk.
  { intros k Hk. simpl. destruct (bool_decide (k = EmptyString)) eqn:E; [| done]. apply bool_decide_eq_true in E. by rewrite (Hk E). }
  apply Hk. destruct (nr_requests r !! req_id) as [[x|]|]; [| done ..]. simpl. destruct (bool_decide (x = EmptyString)) eqn:E; [done |]. apply bool_decide_eq_false in E. done.
Qed.

(** The inputs of the calls of the callback in one step, one call for each layer, when the
    request is the one long prompt of the batch *)
Record Chunk := mkCall {
  ch_keys : nat -> list (list A);
  ch_values : nat -> list (list A);
  ch_seen : nat -> Seen A;
  ch_start_loc : list nat;
  ch_req_ids : list string;
  ch_info : ChunkInfo;
}.
Record call_ok (K V : list (list A)) (w s e : nat) (req_id : string) (layer : nat) (ch : Chunk) : Prop := {
  ca_chunk : chunk_ok K V s e (ch_info ch);
  ca_width : e - s <= w;
  ca_ids : NoDup (ch_req_ids ch);
  ca_seen : seen_shape (ch_seen ch layer);
  ca_slice : exists i qs qe, ch_req_ids ch !! i = Some req_id /\ ch_start_loc ch !! i = Some qs /\ ch_start_loc ch !! S i = Some qe /\
    take (e - s) (drop qs (ch_keys ch layer)) = take (e - s) (drop s K) /\ take (e - s) (drop qs (ch_values ch layer)) = take (e - s) (drop s V);
}.
Definition holds_upto (P : Prop) (r : Runner A) (key : string) (layer : nat) (K V : list (list A)) (cap e : nat) : Prop :=
  exists g c, layer_of (gpu_buffers r) key layer = Ok g /\ layer_of (cpu_buffers r) key layer = Ok c /\ buffer_holds True K V cap e g /\ buffer_holds P K V cap e c.
Definition runner_temp_ok (w : nat) (r : Runner A) : Prop := temp_ok w (temp_keys r) (temp_values r).

Lemma sub_slice (T U : list (list A)) qs s d j n : take d (drop qs T) = take d (drop s U) -> j + n <= d -> take n (drop (qs + j) T) = take n (drop (s + j) U).
Proof.
  intros Heq Hle. apply (f_equal (fun l => take n (drop j l))) in Heq. rewrite !skipn_firstn_comm, !take_take, !drop_drop in Heq. by rewrite Nat.min_l in Heq by lia.
Qed.
Lemma offload_request_spec (P : Prop) K V cap w s e req_id layer ch (r : Runner A) : prompt_ok K V -> call_ok K V w s e req_id layer ch -> (P -> in_time (ch_seen ch layer)) -> length K <= cap -> runner_temp_ok w r -> holds_upto P r (_get_buffer_key cfg r req_id) layer K V cap s ->
  exists r', offload_request cfg (fun _ => ch_seen ch layer) (ch_keys ch layer) (ch_values ch layer) (ch_start_loc ch) (ch_req_ids ch) layer (req_id, ch_info ch) r = Ok r' /\ nr_requests r' = nr_requests r /\ runner_temp_ok w r' /\
    holds_upto P r' (_get_buffer_key cfg r req_id) layer K V cap e /\ forall k l, k <> _get_buffer_key cfg r req_id \/ l <> layer -> layer_of (gpu_buffers r') k l = layer_of (gpu_buffers r) k l /\ layer_of (cpu_buffers r') k l = layer_of (cpu_buffers r) k l.
Proof.
  intros Hpr [Hch Hw Hids Hsh (i & qs & qe & Hi & Hqs & Hqe & HK & HV)] Hin Hcap Htemp (g & c & Hg & Hc & Bg & Bc). pose proof (middle_step K V s e (ch_info ch) Hpr Hch) as Hstep. unfold offload_request. rewrite (co_prefill _ _ _ _ _ Hch), remote_is_buffer_key. set (key := _get_buffer_key cfg r req_id) in *. cbn [negb].
  rewrite (index_in_batch _ i req_id Hids Hi). rewrite Hg, Hc. cbn [rbind]. rewrite (proj2 (np_get_Ok _ _ _) Hqs). cbn [rbind]. rewrite (proj2 (np_get_Ok _ _ _) Hqe). cbn [rbind].
  destruct (middle_of cfg (ch_info ch)) as [ms me]. destruct (me <=? ms)%Z eqn:E.
  { destruct Hstep as [Ek Ev]. exists r. split; [done |]. split; [done |]. split; [done |]. split; [| done]. exists g, c. unfold buffer_holds in *. rewrite Ek, Ev. done. }
  apply Z.leb_gt in E. destruct Hstep as ([Hms Hme] & Hrange & Ek & Ev & Hlen). set (n := Z.to_nat (me - ms)) in *. set (a := Z.to_nat ms) in *. rewrite (co_start _ _ _ _ _ Hch). set (j := Z.to_nat (ms - Z.of_nat s)). assert (a = s + j) as Ha by lia. assert (j + n <= e - s) as Hjn by lia.
  pose proof (pr_len _ _ Hpr) as HlV. pose proof (co_range _ _ _ _ _ Hch) as Hr.
  destruct (offload_layer_spec P (ch_seen ch layer) (ch_keys ch layer) (ch_values ch layer) (qs + j) n w (temp_keys r) (temp_values r) g c (middle_upto K s) (middle_upto V s) (take n (drop a K)) (take n (drop a V)) cap) as (tk' & tv' & g' & c' & -> & Ht' & Hb).
  - rewrite Ha. by apply (sub_slice _ _ _ _ (e - s)).
  - rewrite Ha. by apply (sub_slice _ _ _ _ (e - s)).
  - rewrite length_take, length_drop. lia.
  - rewrite length_take, length_drop. lia.
  - apply Forall_take, Forall_drop, (pr_keys _ _ Hpr).
  - apply Forall_take, Forall_drop, (pr_values _ _ Hpr).
  - lia.
  - exact Htemp.
  - exact Hsh.
  - exact Hin.
  - intros Q b [[-> ->] | [-> ->]]; [exact Bg | exact Bc].
  - unfold middle_upto, zlen. rewrite !length_drop, !length_take, HlV. done.
  - lia.
  - cbn [rbind]. eexists. split; [done |]. split; [done |]. split; [exact Ht' |]. assert (layer_of (gpu_buffers r) key layer = Ok g) as Hg' by done. unfold layer_of in Hg, Hc.
    destruct (gpu_buffers r !! key) as [dg|] eqn:Eg; [| done]. destruct (cpu_buffers r !! key) as [dc|] eqn:Ec; [| done]. split.
    + exists g', c'. unfold layer_of. simpl. rewrite !lookup_insert_eq. rewrite !od_get_set, !decide_True by done. unfold buffer_holds. rewrite Ek, Ev. split; [done |]. split; [done |]. split; apply Hb; [by left | by right].
    + intros k l Hne. unfold layer_of. simpl. destruct (decide (k = key)) as [-> | Hk].
      * rewrite !lookup_insert_eq, Eg, Ec. simpl. rewrite !od_get_set. rewrite !decide_False by (destruct Hne; done). done.
      * by rewrite !lookup_insert_ne.
Qed.

(** ** The layers of one step *)
Notation L := (num_layers cfg).
Definition layer_calls (req_id : string) (ch : Chunk) (layers : list nat) (r : Runner A) : res (Runner A) :=
  rfold (fun r l => _sparse_kv_offload_callback cfg (fun _ => ch_seen ch l) (ch_keys ch l) (ch_values ch l) (ch_start_loc ch) (ch_req_ids ch) l [(req_id, ch_info ch)] r) layers r.
(** The keys and values of a prompt of [n] tokens in every layer *)
Definition prompts_ok (K V : nat -> list (list A)) (n : nat) : Prop := forall l, l < L -> prompt_ok (K l) (V l) /\ length (K l) = n.
Lemma same_buffer_key (r r' : Runner A) req_id : nr_requests r' = nr_requests r -> _get_buffer_key cfg r' req_id = _get_buffer_key cfg r req_id.
Proof. intros Hq. unfold _get_buffer_key, _get_remote_request_id. by rewrite Hq. Qed.
Lemma layer_calls_spec (P : Prop) K V n cap w s e req_id ch : prompts_ok K V n -> (forall l, l < L -> call_ok (K l) (V l) w s e req_id l ch) -> (P -> forall l, l < L -> in_time (ch_seen ch l)) -> n <= cap ->
  forall layers (r : Runner A), NoDup layers -> (forall l, l ∈ layers -> l < L) -> runner_temp_ok w r -> (forall l, l < L -> holds_upto P r (_get_buffer_key cfg r req_id) l (K l) (V l) cap (if decide (l ∈ layers) then s else e)) ->
  exists r', layer_calls req_id ch layers r = Ok r' /\ nr_requests r' = nr_requests r /\ runner_temp_ok w r' /\ forall l, l < L -> holds_upto P r' (_get_buffer_key cfg r req_id) l (K l) (V l) cap e.
Proof.
  intros Hpr Hcall Hin Hcap. induction layers as [|x layers IH]; intros r Hnd Hlt Ht Hh.
  { exists r. split; [done |]. split; [done |]. split; [done |]. intros l Hl. specialize (Hh l Hl). by rewrite decide_False in Hh by apply not_elem_of_nil. }
  apply NoDup_cons in Hnd as [Hx Hnd]. assert (x < L) as HxL by (apply Hlt; by left). destruct (Hpr x HxL) as [Hprx Hn]. pose proof (Hh x HxL) as Hhx. rewrite decide_True in Hhx by by left.
  destruct (offload_request_spec P (K x) (V x) cap w s e req_id x ch r Hprx (Hcall x HxL) ltac:(intros HP; by apply Hin) ltac:(lia) Ht Hhx) as (r1 & E1 & Hq & Ht1 & Hh1 & Ho1). pose proof (same_buffer_key r r1 req_id Hq) as Hkey.
  destruct (IH r1 Hnd ltac:(intros l Hl; apply Hlt; by right) Ht1) as (r' & E' & Hq' & Ht' & Hh').
  - intros l Hl. rewrite Hkey. destruct (decide (l = x)) as [-> | Hne]; [by rewrite decide_False |]. destruct (Hh l Hl) as (g & c & Hg & Hc & Bg & Bc). destruct (Ho1 (_get_buffer_key cfg r req_id) l) as [Eg Ec]; [by right |]. exists g, c. rewrite Eg, Ec. split; [done |]. split; [done |].
    assert ((if decide (l ∈ x :: layers) then s else e) = if decide (l ∈ layers) then s else e) as <-; [| done]. apply decide_ext. rewrite elem_of_cons. naive_solver.
  - exists r'. unfold layer_calls in *. cbn [rfold _sparse_kv_offload_callback]. rewrite E1. cbn [rbind]. split; [exact E' |]. split; [congruence |]. split; [done |]. by rewrite <- Hkey.
Qed.
End offload.

#[local] Open Scope nat_scope.

(** ** Offloading *)
Section setup.
Context {A : Type} (cfg : NelssaCfg) (uninit : A).
Lemma new_buffers_lookup n d l : l < num_layers cfg -> od_get l (new_buffers cfg uninit n d) = Some (new_buffer cfg uninit n).
Proof.
  unfold new_buffers. assert (forall (b : Buffer A) ls d, l ∈ ls \/ od_get l d = Some b -> od_get l (fold_left (fun d l => od_set l b d) ls d) = Some b) as Hf.
  { intros b. induction ls as [|k ls IH]; intros d0 H; [destruct H as [H%elem_of_nil | H]; done |]. simpl. apply IH. rewrite od_get_set. destruct (decide (l = k)); [by right |]. destruct H as [[-> | H]%elem_of_cons | H]; [done | by left | by right]. }
  intros Hl. apply Hf. left. apply elem_of_seq. lia.
Qed.
Lemma new_buffer_holds (P : Prop) K V cap : prompt_ok cfg K V -> buffer_holds cfg P K V cap 0 (new_buffer cfg uninit cap).
Proof.
  intros Hpr. assert (forall T : list (list A), middle_upto cfg T 0 = []) as Hz by (intros T; unfold middle_upto; apply length_zero_iff_nil; rewrite length_drop, length_take; lia). unfold buffer_holds. rewrite !Hz. split; [done |].
  assert (rows_hold cfg P [] cap (replicate (num_kv_heads cfg) (replicate cap uninit))) as Hr; [| done]. split; [apply length_replicate |]. intros h row [-> _]%lookup_replicate. by rewrite length_replicate, take_0.
Qed.
Lemma setup_holds (P : Prop) (r : Runner A) req_id info K V n : prompts_ok cfg K V n -> 0 < num_layers cfg -> is_pd_disaggregated cfg && bool_decide (kv_role cfg = kv_consumer) = false -> enable_offloading cfg = true -> cpu_buffers r !! req_id = None ->
  (Z.of_nat n <= ci_max_total_len info)%Z ->
  let r1 := _setup_sparse_kv_offloading cfg uninit [(req_id, info)] [(req_id, true)] r in
  nr_requests r1 = nr_requests r /\ temp_keys r1 = temp_keys r /\ temp_values r1 = temp_values r /\ forall layer, layer < num_layers cfg -> holds_upto cfg P r1 (_get_buffer_key cfg r req_id) layer (K layer) (V layer) (Z.to_nat (ci_max_total_len info)) 0.
Proof.
  intros Hpr HL Hrole Hen Hnone Hlen. unfold _setup_sparse_kv_offloading. rewrite Hen. cbn [fold_left setup_request negb orb]. rewrite bool_decide_eq_false_2 by (rewrite Hnone; by intros [? ?]). rewrite Hrole. cbn [od_get]. rewrite decide_True by done.
  destruct (Hpr 0 HL) as [[_ _ _ Hpos _ _] Hn]. rewrite (proj2 (Z.eqb_neq (ci_max_total_len info) 0)) by lia. cbv zeta. split; [done |]. split; [done |]. split; [done |]. intros layer Hl.
  exists (new_buffer cfg uninit (Z.to_nat (ci_max_total_len info))), (new_buffer cfg uninit (Z.to_nat (ci_max_total_len info))). unfold layer_of. simpl. rewrite !lookup_insert_eq, !new_buffers_lookup by done. split; [done |]. split; [done |]. destruct (Hpr layer Hl). split; by apply new_buffer_holds.
Qed.

(** ** A whole prompt *)

(** A step sets up the buffers and calls the callback in every layer. *)
Definition run_step (req_id : string) (ch : Chunk) (r : Runner A) : res (Runner A) :=
  layer_calls cfg req_id ch (seq 0 (num_layers cfg)) (_setup_sparse_kv_offloading cfg uninit [(req_id, ch_info ch)] [(req_id, true)] r).
Definition run_steps (req_id : string) (steps : list Chunk) (r : Runner A) : res (Runner A) := rfold (fun r ch => run_step req_id ch r) steps r.
(** The chunks of the steps follow each other from [s] to the end of the prompt. *)
Fixpoint covers (K V : nat -> list (list A)) (n w : nat) (req_id : string) (s : nat) (steps : list Chunk) : Prop :=
  match steps with
  | [] => s = n
  | ch :: rest => exists e, (forall l, l < num_layers cfg -> call_ok (K l) (V l) w s e req_id l ch) /\ covers K V n w req_id e rest
  end.
Definition copied_in_time (steps : list (@Chunk A)) : Prop := forall ch l, ch ∈ steps -> l < num_layers cfg -> in_time (ch_seen ch l).
(** The set-up of a request that has buffers under its own id changes nothing. *)
Lemma setup_again chunk_info (r : Runner A) req_id : is_Some (cpu_buffers r !! req_id) -> _setup_sparse_kv_offloading cfg uninit chunk_info [(req_id, true)] r = r.
Proof. intros Hb. unfold _setup_sparse_kv_offloading. destruct (enable_offloading cfg); [| done]. cbn [fold_left setup_request negb orb]. by rewrite bool_decide_eq_true_2. Qed.
Lemma run_steps_spec (P : Prop) K V n cap w req_id steps : prompts_ok cfg K V n -> 0 < num_layers cfg -> (P -> copied_in_time steps) -> n <= cap -> forall s (r : Runner A), covers K V n w req_id s steps -> runner_temp_ok cfg w r -> _get_buffer_key cfg r req_id = req_id ->
  (forall l, l < num_layers cfg -> holds_upto cfg P r req_id l (K l) (V l) cap s) ->
  exists r', run_steps req_id steps r = Ok r' /\ forall l, l < num_layers cfg -> holds_upto cfg P r' req_id l (K l) (V l) cap n.
Proof.
  intros Hpr HL Hin Hcap. induction steps as [|ch steps IH]; intros s r Hcov Ht Hkey Hh; [simpl in Hcov; subst s; by exists r |]. destruct Hcov as (e & Hcall & Hcov).
  assert (_setup_sparse_kv_offloading cfg uninit [(req_id, ch_info ch)] [(req_id, true)] r = r) as Hset.
  { apply setup_again. destruct (Hh 0 HL) as (g & c & _ & Hc & _). unfold layer_of in Hc. by destruct (cpu_buffers r !! req_id). }
  destruct (layer_calls_spec cfg P K V n cap w s e req_id ch Hpr Hcall ltac:(intros HP l Hl; apply (Hin HP ch l); [by left | done]) Hcap (seq 0 (num_layers cfg)) r) as (r1 & E1 & Hq & Ht1 & Hh1).
  - apply NoDup_seq.
  - intros l Hl%elem_of_seq. lia.
  - done.
  - intros l Hl. rewrite Hkey, decide_True by (apply elem_of_seq; lia). by apply Hh.
  - rewrite Hkey in Hh1. destruct (IH ltac:(intros HP ch' l Hch; apply (Hin HP); by right) e r1 Hcov Ht1 ltac:(by rewrite (same_buffer_key _ _ _ _ Hq)) Hh1) as (r' & E' & Hh'). exists r'. split; [| done]. unfold run_steps in *. cbn [rfold]. unfold run_step at 1. by rewrite Hset, E1.
Qed.
End setup.

(** C16 (functional): the steps that prefill a long prompt, each with the set-up of the buffers and one call of the offload callback in every layer, all return, whatever the sizes of the chunks. The GPU buffer of every layer then holds exactly the keys and values of the prompt's middle tokens, from first_n to last_m before the end, in order and once each, with the offset at their number, whatever the copies of the offload stream have read. The CPU buffer has the same offset, and holds the same vectors if every copy of the offload stream ran before the temporary buffer was overwritten. The prompt is the one long prompt of its batches, its buffers are kept under its own id and did not exist before, and they were allocated for at least the prompt's length. *)
Theorem offload_collects_middle {A} cfg (uninit : A) (r : Runner A) req_id K V n w layer steps :
  prompts_ok cfg K V n -> is_pd_disaggregated cfg && bool_decide (kv_role cfg = kv_consumer) = false -> enable_offloading cfg = true -> cpu_buffers r !! req_id = None -> _get_buffer_key cfg r req_id = req_id ->
  layer < num_layers cfg -> runner_temp_ok cfg w r -> covers cfg K V n w req_id 0 steps ->
  exists r' g c, run_steps cfg uninit req_id steps r = Ok r' /\ layer_of (gpu_buffers r') req_id layer = Ok g /\ layer_of (cpu_buffers r') req_id layer = Ok c /\
    let middle T := drop (Z.to_nat (first_n cfg)) (take (Z.to_nat (Z.of_nat n - last_m cfg)) T) in
    let holds (b : Buffer A) := (forall h row, b_keys b !! h = Some row -> take (b_offset b) row = column h (middle (K layer))) /\ (forall h row, b_values b !! h = Some row -> take (b_offset b) row = column h (middle (V layer))) in
    (forall b, b = g \/ b = c -> b_offset b = length (middle (K layer)) /\ length (b_keys b) = num_kv_heads cfg /\ length (b_values b) = num_kv_heads cfg) /\
    holds g /\ (copied_in_time cfg steps -> holds c).
Proof.
  intros Hpr Hrole Hen Hnone Hkey Hl Ht Hcov. assert (0 < num_layers cfg) as HL by lia. destruct (Hpr layer Hl) as [Hprl Hn]. destruct steps as [|ch steps]; [exfalso; simpl in Hcov; pose proof (pr_pos _ _ _ Hprl); lia |].
  assert (Z.of_nat n <= ci_max_total_len (ch_info ch))%Z as Hcap by (destruct Hcov as (e & Hcall & _); destruct (Hcall layer Hl) as [[_ _ _ _ _ Htot] _ _ _ _]; unfold zlen in Htot; lia).
  destruct (setup_holds cfg uninit (copied_in_time cfg (ch :: steps)) r req_id (ch_info ch) K V n Hpr HL Hrole Hen Hnone Hcap) as (Hq & Htk & Htv & Hh). set (r1 := _setup_sparse_kv_offloading _ _ _ _ _) in *. rewrite Hkey in Hh.
  destruct (run_steps_spec cfg uninit (copied_in_time cfg (ch :: steps)) K V n (Z.to_nat (ci_max_total_len (ch_info ch))) w req_id (ch :: steps) Hpr HL ltac:(done) ltac:(lia) 0 r1 Hcov) as (r' & E & Hh'); [by unfold runner_temp_ok; rewrite Htk, Htv | by rewrite (same_buffer_key _ _ _ _ Hq) | done |].
  destruct (Hh' layer Hl) as (g & c & Hg & Hc & Bg & Bc). exists r', g, c. split.
  { rewrite <- E. unfold run_steps, run_step. cbn [rfold]. rewrite (setup_again cfg uninit [(req_id, ch_info ch)] r1 req_id); [done |]. destruct (Hh layer Hl) as (g0 & c0 & _ & Hc0 & _). unfold layer_of in Hc0. by destruct (cpu_buffers r1 !! req_id). }
  split; [done |]. split; [done |]. pose proof (pr_last _ _ _ Hprl). pose proof (pr_len _ _ _ Hprl).
  assert (forall T : list (list A), length T = n -> middle_upto cfg T n = drop (Z.to_nat (first_n cfg)) (take (Z.to_nat (Z.of_nat n - last_m cfg)) T)) as Hmid by (intros T HT; unfold middle_upto, zlen; rewrite HT; do 2 f_equal; lia).
  cbv beta zeta. rewrite <- !Hmid by lia. destruct Bg as (G1 & [G2 G3] & [G4 G5]), Bc as (C1 & [C2 C3] & [C4 C5]). assert (length (middle_upto cfg (V layer) n) = length (middle_upto cfg (K layer) n)) as Hlv by (rewrite !Hmid, !length_drop, !length_take by lia; lia). rewrite Hlv in *.
  split; [by intros b [-> | ->] |]. split; [split; intros h row Hrow; rewrite G1; [by apply G3 | by apply G5] |]. intros Hin. split; intros h row Hrow; rewrite C1; [by apply C3 | by apply C5].
Qed.

(** A prompt of eight tokens with two heads and two layers, in chunks of three and five tokens *)
Definition demo_cfg : NelssaCfg := mkNelssaCfg false kv_producer 2 2 16 1 2 true true false.
Definition demo_keys (l : nat) : list (list Z) := (fun i => [1000 * Z.of_nat l + 10 * i; 1000 * Z.of_nat l + 10 * i + 1]%Z) <$> seqZ 0 8.
Definition demo_values (l : nat) : list (list Z) := (fun i => [1000 * Z.of_nat l + 100 * i; 1000 * Z.of_nat l + 100 * i + 1]%Z) <$> seqZ 0 8.
Definition demo_info (s e : Z) : ChunkInfo := mkChunk true 8 12 s e 0.
Definition on_time : Seen Z := mkSeen id id.
(** The copies of layer 0 run after layer 1 has written the temporary buffer. *)
Definition too_late (t : list (list Z)) : list (list Z) := (fun row : list Z => (fun x => x + 1000)%Z <$> row) <$> t.
Definition demo_steps (first : Seen Z) : list (@Chunk Z) :=
  [mkCall (fun l => take 3 (demo_keys l)) (fun l => take 3 (demo_values l)) (fun l => if bool_decide (l = 0) then first else on_time) [0; 3] ["a"] (demo_info 0 3);
   mkCall (fun l => [7; 7]%Z :: drop 3 (demo_keys l)) (fun l => [7; 7]%Z :: drop 3 (demo_values l)) (fun _ => on_time) [0; 1; 6] ["b"; "a"] (demo_info 3 8)].
Definition demo_start : Runner Z := new_Runner demo_cfg 0%Z 5 0.
Lemma two_layers (P : nat -> Prop) : P 0 -> P 1 -> forall l, l < 2 -> P l.
Proof. intros H0 H1 [|[|l]] Hl; [done | done | lia]. Qed.
Lemma demo_prompts_ok : prompts_ok demo_cfg demo_keys demo_values 8.
Proof. refine (two_layers (fun l => prompt_ok demo_cfg (demo_keys l) (demo_values l) /\ length (demo_keys l) = 8) _ _); (split; [split; [repeat constructor | repeat constructor | reflexivity | simpl; lia | simpl; lia | simpl; lia] | reflexivity]). Qed.
Lemma on_time_shape : seen_shape on_time.
Proof. by split. Qed.
Lemma too_late_shape : seen_shape (mkSeen too_late too_late).
Proof. split; intros t; simpl; unfold too_late; rewrite <- list_fmap_compose; apply list_fmap_ext; intros i row _; simpl; apply length_fmap. Qed.
Lemma demo_covers first : seen_shape first -> covers demo_cfg demo_keys demo_values 8 5 "a" 0 (demo_steps first).
Proof.
  intros Hf. exists 3. split; [refine (two_layers (fun l => call_ok (demo_keys l) (demo_values l) 5 0 3 "a" l _) _ _); (split; [split; (reflexivity || (vm_compute; congruence) || (simpl; lia)) | lia | repeat constructor; set_solver | by (exact Hf || exact on_time_shape) | exists 0, 0, 3; repeat split; reflexivity]) |].
  exists 8. split; [refine (two_layers (fun l => call_ok (demo_keys l) (demo_values l) 5 3 8 "a" l _) _ _); (split; [split; (reflexivity || (vm_compute; congruence) || (simpl; lia)) | lia | repeat constructor; set_solver | exact on_time_shape | exists 1, 1, 6; repeat split; reflexivity]) |]. reflexivity.
Qed.
Lemma demo_copied_in_time : copied_in_time demo_cfg (demo_steps on_time).
Proof. intros ch l Hch _ t. apply elem_of_cons in Hch as [-> | [-> | []%elem_of_nil]%elem_of_cons]; simpl; [by case_bool_decide | done]. Qed.
Lemma offload_collects_middle_witness : exists r' g c, run_steps demo_cfg 0%Z "a" (demo_steps on_time) demo_start = Ok r' /\
  layer_of (gpu_buffers r') "a" 1 = Ok g /\ layer_of (cpu_buffers r') "a" 1 = Ok c /\ b_offset c = 5 /\ take 5 <$> b_keys g = [[1010; 1020; 1030; 1040; 1050]; [1011; 1021; 1031; 1041; 1051]]%Z /\
  (forall h row, b_keys c !! h = Some row -> take (b_offset c) row = column h (drop 1 (take 6 (demo_keys 1)))).
Proof.
  destruct (offload_collects_middle demo_cfg 0%Z demo_start "a" demo_keys demo_values 8 5 1 (demo_steps on_time)) as (r' & g & c & E & Hg & Hc & _ & _ & Hcpu);
    [exact demo_prompts_ok | reflexivity | reflexivity | reflexivity | reflexivity | simpl; lia | split; (split; [reflexivity | repeat constructor]) | exact (demo_covers on_time on_time_shape) |].
  exists r', g, c. split; [exact E |]. split; [exact Hg |]. split; [exact Hc |]. specialize (Hcpu demo_copied_in_time). destruct Hcpu as [Hcpu _]. split; [| split; [| exact Hcpu]]; clear Hcpu; vm_compute in E; injection E as <-; [vm_compute in Hc; injection Hc as <- | vm_compute in Hg; injection Hg as <-]; reflexivity.
Defined.
(** With a late copy in layer 0 the CPU buffer of that layer holds keys of layer 1; the GPU
    buffer does not. *)
Example late_copy_wrong_layer : match run_steps demo_cfg 0%Z "a" (demo_steps (mkSeen too_late too_late)) demo_start with
  | Ok r => match layer_of (gpu_buffers r) "a" 0, layer_of (cpu_buffers r) "a" 0 with Ok g, Ok c => take 5 <$> b_keys g = [[10; 20; 30; 40; 50]; [11; 21; 31; 41; 51]]%Z /\ take 5 <$> b_keys c = [[1010; 1020; 30; 40; 50]; [1011; 1021; 31; 41; 51]]%Z | _, _ => False end
  | Err _ => False end.
Proof. vm_compute. split; reflexivity. Qed.
(** The guard of the set-up looks for the request id, the buffers are kept under the buffer key:
    for a prefill worker whose request carries another id, the second set-up drops what the
    first chunk has collected. *)
Definition remote_cfg : NelssaCfg := mkNelssaCfg true kv_producer 2 2 16 1 2 true true false.
Example setup_again_resets : let r0 := with_requests {["a" := Some "p"]} (new_Runner remote_cfg 0%Z 5 1) in
  match run_steps remote_cfg 0%Z "a" (demo_steps on_time) r0 with
  | Ok r => match layer_of (gpu_buffers r) "p" 0 with Ok g => b_offset g = 3 /\ take 5 <$> b_keys g = [[30; 40; 50; 0; 0]; [31; 41; 51; 0; 0]]%Z | Err _ => False end
  | Err _ => False end.
Proof. vm_compute. split; reflexivity. Qed.

(** ** The layout by clusters *)

(** C22 (equivalence): for any assignment of the tokens of a head to the clusters and any order in which the lanes of the reverse index run, the PyTorch and the C++ reorganization return the same row: a permutation of the tokens in which every cluster is the slice at its offset, of its size, and holds exactly the tokens assigned to it. *)
Theorem reorganize_paths_agree {A} (row dst : list A) max_idx order nc mcs :
  Forall (fun k => k < nc) max_idx -> length max_idx = length row -> order ≡ₚ seq 0 (length row) -> list_max (data_cnt nc max_idx) <= mcs -> length dst = length row ->
  exists st row', triton_reverse_index order max_idx nc mcs = Ok st /\ reorganize_head (ri_clusters st) (ri_size st) nc (length row) row = Ok row' /\
    reorganize_head_cpp (ri_clusters st) (ri_size st) row dst = Ok row' /\ row' ≡ₚ row /\
    forall c, c < nc -> cluster_slice (_compute_cluster_offsets (ri_size st)) (ri_size st) row' c = select row (filter (fun n => max_idx !! n = Some c) order).
Proof.
  intros Hlt Hl Hord Hmax Hd. destruct (reverse_index_partition max_idx nc mcs order Hlt) as (st & E & Hp); [by rewrite Hl | done |]. assert (clustered nc (length row) row max_idx order st) as Hc by (split; [done | done | done | done | by exists mcs]).
  destruct (clustered_parts _ _ _ _ _ _ Hc) as (Hok & Hperm & Hn). pose proof (clustered_bounds _ _ _ _ _ _ Hc) as Hb. rewrite firstn_all in Hb. assert (length (concat (parts (ri_clusters st) (ri_size st))) = length row) as Hlen by (rewrite Hperm; apply length_seq).
  exists st, (select row (concat (parts (ri_clusters st) (ri_size st)))). split; [done |]. split; [pose proof (reorganize_head_spec _ _ row Hok Hlen Hb) as E1; by rewrite Hn in E1 |]. split; [by apply reorganize_head_cpp_spec |]. split; [by apply select_perm |].
  intros c Hcn. pose proof (slice_reorganized nc (length row) row max_idx order st c Hc Hcn) as Hs. unfold reorganized_row in Hs. rewrite firstn_all, drop_ge, app_nil_r in Hs by done. exact Hs.
Qed.
Lemma reorganize_paths_agree_witness : exists st row', triton_reverse_index [3; 0; 2; 1; 4] [1; 0; 1; 2; 1] 3 3 = Ok st /\ reorganize_head (ri_clusters st) (ri_size st) 3 5 ["a"; "b"; "c"; "d"; "e"] = Ok row' /\ row' = ["b"; "a"; "c"; "e"; "d"].
Proof.
  destruct (reorganize_paths_agree ["a"; "b"; "c"; "d"; "e"] ["?"; "?"; "?"; "?"; "?"] [1; 0; 1; 2; 1] [3; 0; 2; 1; 4] 3 3) as (st & row' & E1 & E2 & _); [repeat constructor | reflexivity | vm_compute; solve_Permutation | vm_compute; lia | reflexivity |].
  exists st, row'. split; [exact E1 |]. split; [exact E2 |]. vm_compute in E1. injection E1 as <-. vm_compute in E2. congruence.
Defined.

(** ** What the CPU attention reads *)

(** C17 (functional): after clustering and reorganizing a request the fused (C++) path of the CPU attention gathers, for every layer, head and tensor, the vectors of the tokens that k-means assigned to the selected clusters, cluster after cluster: all of them when they fit the row of the batch buffer, and otherwise as many as the row holds, the number it reports; all calls return, for any k-means, lane order and reorganization path. The path in PyTorch is not covered. *)
Theorem selected_clusters_gathered {A} cfg (uninit : A) kmeans centroids_of orders (r : Runner A) req_id gs cs :
  assigns kmeans -> runs_all_lanes orders -> request_ready cfg r (_get_buffer_key cfg r req_id) gs cs ->
  exists r1 r2, cluster_sparse_kv cfg kmeans centroids_of orders [req_id] r = Ok r1 /\ reorganize_by_clusters cfg uninit [req_id] r1 = Ok r2 /\
    forall l g c rpc_id tensor_of ids batch, od_get l gs = Some g -> od_get l cs = Some c -> _resolve_buffer_key rpc_id (request_id_to_buffer_key r) = _get_buffer_key cfg r req_id -> (tensor_of = b_keys \/ tensor_of = b_values) ->
      length ids = num_kv_heads cfg -> length batch = num_kv_heads cfg -> Forall (Forall (fun i => 0 <= i < Z.of_nat (layer_nc g))%Z) ids ->
      exists rows, gather_batch r2 l tensor_of [(rpc_id, Ids2D ids)] [batch] = Ok (Some [rows]) /\
        forall h row i dst, tensor_of c !! h = Some row -> ids !! h = Some i -> batch !! h = Some dst -> exists idx o out n, layer_assignment kmeans g !! h = Some idx /\ layer_orders kmeans orders g !! h = Some o /\
          rows !! h = Some (out, n) /\ n = length (tokens_of (b_offset c) row idx o i) `min` length dst /\ take n out = take n (tokens_of (b_offset c) row idx o i).
Proof.
  intros Hkm Hord Hready. destruct (cluster_then_reorganize cfg uninit kmeans centroids_of orders Hkm Hord r req_id gs cs Hready) as (r1 & r2 & E1 & E2 & Hids & Hdone). exists r1, r2. split; [done |]. split; [done |].
  intros l g c rpc_id tensor_of ids batch Hg Hc Hres Htens Li Lb Hr. destruct (Hdone l c g Hc Hg) as (c' & m & Hc' & Hm & Hd). destruct Hready as (_ & _ & _ & _ & _ & _ & Hcs). destruct (Hcs l c Hc) as (g' & Hg' & Hpair). simplify_eq.
  destruct (gather_request_spec cfg kmeans orders g c c' m tensor_of ids batch Htens Hpair Hd Li Lb Hr) as (offs & sz & rows & Ho & Hs & E & Hrows). exists rows. split; [| exact Hrows].
  pose proof (ld_reorganized _ _ _ _ _ _ _ Hd) as Hreo. unfold gather_batch. cbn [fused_inputs]. unfold buffer_for, fused_meta. cbn [fst snd]. rewrite Hids, Hres. unfold layer_of in Hc', Hm. destruct (cpu_buffers r2 !! _) as [db|]; [| done]. destruct (od_get l db) as [b'|]; [| done]. injection Hc' as ->. cbn [rbind].
  simpl. destruct (cluster_metadata r2 !! _) as [dm|]; [| done]. destruct (od_get l dm) as [m'|] eqn:El; [| done]. injection Hm as ->. simpl. rewrite ?El. destruct m as [m1 m2 m3 m4 m5 m6 m7]. simpl in *. subst m6 m7 m3. simpl. rewrite E. done.
Qed.
(** Every third token in a cluster, lanes in reverse order *)
Definition demo_kmeans (keys : list (list Z)) (nc ns : nat) : list (list nat) := (fun row => (fun i => (i `mod` 3) `mod` nc) <$> seq 0 (length row)) <$> keys.
Definition demo_orders (max_idx : list (list nat)) : list (list nat) := (fun idx => reverse (seq 0 (length idx))) <$> max_idx.
Lemma demo_assigns : assigns demo_kmeans.
Proof.
  intros keys nc ns Hnc. unfold demo_kmeans. apply Forall2_fmap_r, Forall_Forall2_diag, Forall_forall. intros row _. simpl. split; [by rewrite length_fmap, length_seq |]. apply Forall_fmap, Forall_forall. intros i _. simpl. apply Nat.mod_upper_bound. lia.
Qed.
Lemma demo_lanes : runs_all_lanes demo_orders.
Proof. intros m. unfold demo_orders. apply Forall2_fmap_r, Forall_Forall2_diag, Forall_forall. intros idx _. apply reverse_Permutation. Qed.
Definition demo_buffer : Buffer Z := mkBuffer [[10; 20; 30; 40; 50; 0]; [11; 21; 31; 41; 51; 0]]%Z [[1; 2; 3; 4; 5; 0]; [6; 7; 8; 9; 5; 0]]%Z 5.
Definition demo_offloaded : Runner Z := with_keys [("a", "a")] ∅ (with_buffers {["a" := [(0, demo_buffer)]]} {["a" := [(0, demo_buffer)]]} demo_start).
Lemma demo_ready : request_ready demo_cfg demo_offloaded "a" [(0, demo_buffer)] [(0, demo_buffer)].
Proof.
  assert (rows_ok demo_cfg 5 (b_keys demo_buffer) /\ rows_ok demo_cfg 5 (b_values demo_buffer)) as [Hk Hv] by (split; (split; [reflexivity | repeat constructor; simpl; lia])).
  assert (forall l (b : Buffer Z), od_get l [(0, demo_buffer)] = Some b -> l = 0 /\ b = demo_buffer) as Hone by (intros l b; simpl; destruct (decide (l = 0)); naive_solver).
  assert (od_ok [(0, demo_buffer)]) as Hok by (apply NoDup_singleton).
  split; [reflexivity |]. split; [reflexivity |]. split; [exact Hok |]. split; [exact Hok |]. split; [simpl; lia |]. split; intros l b [-> ->]%Hone; [split; [simpl; lia | exact Hk] |]. exists demo_buffer. split; [done |]. split; [simpl; lia |]. split; [done |]. split; [exact Hk |]. split; [exact Hk |]. split; [exact Hv | simpl; lia].
Qed.
Lemma selected_clusters_gathered_witness : exists r1 r2 rows, cluster_sparse_kv demo_cfg demo_kmeans (fun _ _ _ => []) demo_orders ["a"] demo_offloaded = Ok r1 /\ reorganize_by_clusters demo_cfg 0%Z ["a"] r1 = Ok r2 /\
  gather_batch r2 0 b_keys [("a", Ids2D [[2; 0]; [1; 1]]%Z)] [[[9; 9; 9; 9]; [9; 9; 9; 9]]]%Z = Ok (Some [rows]) /\ rows = [([30; 40; 10; 9]%Z, 3); ([51; 21; 51; 21]%Z, 4)].
Proof.
  destruct (selected_clusters_gathered demo_cfg 0%Z demo_kmeans (fun _ _ _ => []) demo_orders demo_offloaded "a" [(0, demo_buffer)] [(0, demo_buffer)] demo_assigns demo_lanes demo_ready) as (r1 & r2 & E1 & E2 & H).
  destruct (H 0 demo_buffer demo_buffer "a" b_keys [[2; 0]; [1; 1]]%Z [[9; 9; 9; 9]; [9; 9; 9; 9]]%Z) as (rows & E3 & _); [reflexivity | reflexivity | reflexivity | by left | reflexivity | reflexivity | repeat constructor; vm_compute; congruence |].
  exists r1, r2, rows. split; [exact E1 |]. split; [exact E2 |]. split; [exact E3 |]. vm_compute in E1. injection E1 as <-. vm_compute in E2. injection E2 as <-. vm_compute in E3. congruence.
Defined.
