(* ===== verification/NelssaSlotProps.v ===== *)
(** * NelssaSlotProps
    The staging slots through which a prefill worker hands the cluster metadata of a request to
    a decode worker. *)
From S2P Require Import Prelude OrdDict CacheHit KVCacheInterface SizingInv Scheduler WorkerBlockTable InputBatchInv NelssaClusters NelssaWorker NelssaEngine.
#[local] Open Scope nat_scope.

Lemma in_added (t s : nat) (X : gset nat) : t ∈ {[s]} ∪ X <-> t = s \/ t ∈ X.
Proof. set_solver. Qed.

(** ** Calls that leave the slots alone *)
Lemma rfold_keeps {B S} (f : S -> B -> res S) (P : S -> Prop) l : (forall s x s', f s x = Ok s' -> P s -> P s') -> forall s s', rfold f l s = Ok s' -> P s -> P s'.
Proof.
  intros Hf. induction l as [|x l IH]; intros s s' E Hs; [by injection E as <- |]. cbn [rfold] in E. apply rbind_Ok in E as (s1 & E1 & E). apply (IH s1 s' E). by apply (Hf s x).
Qed.
Section others.
Context {A : Type} (cfg : NelssaCfg) (uninit : A).
Context (kmeans : list (list A) -> nat -> nat -> list (list nat)) (centroids_of : list (list A) -> nat -> nat -> list (list A)) (orders : list (list nat) -> list (list nat)).
Definition same_slots (r r' : Runner A) : Prop := meta_free_slots r' = meta_free_slots r /\ meta_slot_by_req r' = meta_slot_by_req r /\ centroid_buf r' = centroid_buf r /\ cluster_size_buf r' = cluster_size_buf r.
Lemma same_slots_trans r1 r2 r3 : same_slots r1 r2 -> same_slots r2 r3 -> same_slots r1 r3.
Proof. unfold same_slots. intuition congruence. Qed.
Lemma setup_same_slots chunk_info mask r : same_slots r (_setup_sparse_kv_offloading cfg uninit chunk_info mask r).
Proof.
  unfold _setup_sparse_kv_offloading. destruct (enable_offloading cfg); [| done]. revert r. induction mask as [|[req_id long] mask IH]; intros r; [done |]. simpl. eapply same_slots_trans; [| apply IH].
  destruct (negb long || _); [done |]. by destruct (is_pd_disaggregated cfg && _).
Qed.
Lemma offload_same_slots seen ks vs loc ids layer chunk_info r r' : _sparse_kv_offload_callback cfg seen ks vs loc ids layer chunk_info r = Ok r' -> same_slots r r'.
Proof.
  revert r. induction chunk_info as [|[req_id info] chunk_info IH]; intros r E; [by injection E as <- |]. cbn [_sparse_kv_offload_callback] in E. apply rbind_Ok in E as (r1 & E1 & E). eapply same_slots_trans; [| by apply IH]. clear IH E. unfold offload_request in E1.
  destruct (negb _); [by injection E1 as <- |]. destruct (od_get req_id _); [| by injection E1 as <-]. apply rbind_Ok in E1 as (g & _ & E1). apply rbind_Ok in E1 as (c & _ & E1). apply rbind_Ok in E1 as (q & _ & E1). apply rbind_Ok in E1 as (q' & _ & E1).
  destruct (middle_of cfg info) as [ms me]. destruct (me <=? ms)%Z; [by injection E1 as <- |]. apply rbind_Ok in E1 as ([[[tk tv] g'] c'] & _ & E1). by injection E1 as <-.
Qed.
Lemma cluster_same_slots ids r r' : cluster_sparse_kv cfg kmeans centroids_of orders ids r = Ok r' -> same_slots r r'.
Proof.
  intros E. eapply (rfold_keeps _ (same_slots r)); [| exact E | done]. intros s x s' Es Hs. eapply same_slots_trans; [exact Hs |]. unfold cluster_request in Es. destruct (gpu_buffers s !! _); [| by injection Es as <-].
  apply rbind_Ok in Es as (d & _ & Es). destruct d; [destruct (cluster_metadata s !! _) |]; by injection Es as <-.
Qed.
Lemma reorganize_same_slots ids r r' : reorganize_by_clusters cfg uninit ids r = Ok r' -> same_slots r r'.
Proof.
  intros E. eapply (rfold_keeps _ (same_slots r)); [| exact E | done]. intros s x s' Es Hs. eapply same_slots_trans; [exact Hs |]. unfold reorganize_request in Es. destruct (cluster_metadata s !! _); [| by injection Es as <-]. destruct (cpu_buffers s !! _); [| by injection Es as <-].
  apply rbind_Ok in Es as (d & _ & Es). by injection Es as <-.
Qed.
Lemma cleanup_gpu_same_slots ids r : same_slots r (cleanup_gpu_buffers cfg ids r).
Proof. unfold cleanup_gpu_buffers. revert r. induction ids as [|x ids IH]; intros r; [done |]. simpl. eapply same_slots_trans; [| apply IH]. done. Qed.
End others.

Section slots.
Context {A : Type} (cfg : NelssaCfg) (uninit : A) (pick : gset nat -> nat).
Context (kmeans : list (list A) -> nat -> nat -> list (list nat)) (centroids_of : list (list A) -> nat -> nat -> list (list A)) (orders : list (list nat) -> list (list nat)).
(** A Python set pops one of its elements. *)
Definition pops_member : Prop := forall s : gset nat, s <> ∅ -> pick s ∈ s.

(** No slot is both free and held, and no slot is held by two requests. *)
Record slots_ok (n_slots : nat) (r : Runner A) : Prop := {
  so_free : forall s, s ∈ meta_free_slots r -> s < n_slots;
  so_held : forall k s, meta_slot_by_req r !! k = Some s -> s < n_slots /\ s ∉ meta_free_slots r;
  so_once : forall k k' s, meta_slot_by_req r !! k = Some s -> meta_slot_by_req r !! k' = Some s -> k = k';
}.
(** No slot is lost. *)
Definition slots_all (n_slots : nat) (r : Runner A) : Prop := forall s, s < n_slots -> s ∈ meta_free_slots r \/ exists k, meta_slot_by_req r !! k = Some s.
Definition staged_rows (r : Runner A) (s : nat) : option (list (list (list A))) * option (list (list (list nat))) := (default [] (centroid_buf r) !! s, cluster_size_buf r !! s).

(** The calls on a prefill worker. A request is staged when its prefill ends; with [once] it
    holds no slot at that time (a request that is preempted after its prefill and prefilled
    again may still hold one). *)
Inductive slot_step (once : bool) (n_slots : nat) (r : Runner A) : Runner A -> Prop :=
  | step_setup chunk_info mask : slot_step once n_slots r (_setup_sparse_kv_offloading cfg uninit chunk_info mask r)
  | step_offload seen ks vs loc ids layer chunk_info r' : _sparse_kv_offload_callback cfg seen ks vs loc ids layer chunk_info r = Ok r' -> slot_step once n_slots r r'
  | step_cluster ids r' : cluster_sparse_kv cfg kmeans centroids_of orders ids r = Ok r' -> slot_step once n_slots r r'
  | step_reorganize ids r' : reorganize_by_clusters cfg uninit ids r = Ok r' -> slot_step once n_slots r r'
  | step_cleanup_gpu ids : slot_step once n_slots r (cleanup_gpu_buffers cfg ids r)
  | step_requests q : slot_step once n_slots r (with_requests q r)
  | step_stage req_id r' : (once = true -> meta_slot_by_req r !! _get_buffer_key cfg r req_id = None) -> stage_request cfg pick r req_id = Ok r' -> slot_step once n_slots r r'
  | step_free req_id s : s < n_slots -> slot_step once n_slots r (_free_nelssa_meta_slot cfg req_id (Some s) r)
  | step_free_by_id req_id : slot_step once n_slots r (_free_nelssa_meta_slot cfg req_id None r)
  | step_cleanup req_id : slot_step once n_slots r (_cleanup_sparse_kv_cache cfg req_id r)
  | step_pop req_id : slot_step once n_slots r (pop_nelssa_meta_slot req_id r).2.
Definition slot_reachable (once : bool) (n_slots : nat) : Runner A -> Runner A -> Prop := rtc (slot_step once n_slots).

Lemma slot_release_ok n_slots (r r' : Runner A) k s : slots_ok n_slots r -> meta_slot_by_req r !! k = Some s -> meta_free_slots r' = {[s]} ∪ meta_free_slots r -> meta_slot_by_req r' = delete k (meta_slot_by_req r) -> slots_ok n_slots r'.
Proof.
  intros [H1 H2 H3] Hk Hf Hb. split; rewrite ?Hf, ?Hb.
  - intros t [-> | Ht]%in_added; [by apply (H2 k) | by apply H1].
  - intros k' t [Hne Ht]%lookup_delete_Some. destruct (H2 k' t Ht) as [Hlt Hni]. split; [done |]. intros [-> | Hin]%in_added; [| done]. by apply Hne, (H3 k k' s).
  - intros k1 k2 t [_ Ht1]%lookup_delete_Some [_ Ht2]%lookup_delete_Some. by apply (H3 k1 k2 t).
Qed.
Lemma slot_release_all n_slots (r r' : Runner A) k s : slots_all n_slots r -> meta_slot_by_req r !! k = Some s -> meta_free_slots r' = {[s]} ∪ meta_free_slots r -> meta_slot_by_req r' = delete k (meta_slot_by_req r) -> slots_all n_slots r'.
Proof.
  intros H Hk Hf Hb t Ht. rewrite Hf, Hb. destruct (H t Ht) as [Hin | [k' Hk']]; [left; set_solver |]. destruct (decide (k' = k)) as [-> | Hne]; [left; simplify_eq; set_solver | right; exists k'; by apply lookup_delete_Some].
Qed.
Lemma free_slot_ok n_slots r req_id s : s < n_slots -> slots_ok n_slots r -> slots_ok n_slots (_free_nelssa_meta_slot cfg req_id (Some s) r).
Proof.
  intros Hs [H1 H2 H3]. split; simpl.
  - intros t [-> | Ht]%in_added; [done | by apply H1].
  - intros k t [Hk Hne]%map_lookup_filter_Some. destruct (H2 k t Hk) as [Hlt Hni]. split; [done |]. intros [-> | Hin]%in_added; [by apply Hne | done].
  - intros k k' t [Hk _]%map_lookup_filter_Some [Hk' _]%map_lookup_filter_Some. by apply (H3 k k' t).
Qed.
Lemma free_slot_all n_slots r req_id s : slots_all n_slots r -> slots_all n_slots (_free_nelssa_meta_slot cfg req_id (Some s) r).
Proof.
  intros H t Ht. simpl. destruct (decide (t = s)) as [-> | Hne]; [left; set_solver |]. destruct (H t Ht) as [Hin | [k Hk]]; [left; set_solver | right; exists k; by apply map_lookup_filter_Some].
Qed.

(** What staging a request does to the slots *)
Lemma write_slot_other {B} (buf buf' : list (list (list (list B)))) slot l n vals s : write_slot buf slot l n vals = Ok buf' -> s <> slot -> buf' !! s = buf !! s.
Proof.
  unfold write_slot. intros E Hne. rinv. unfold np_set in E. destruct (bool_decide (slot < length buf)); [| done]. injection E as <-. by apply list_lookup_insert_ne.
Qed.
Lemma stage_layers_other slot n ms : forall (st st' : list (list (list (list A))) * list (list (list (list nat)))) s, rfold (stage_layer slot n) ms st = Ok st' -> s <> slot -> st'.1 !! s = st.1 !! s /\ st'.2 !! s = st.2 !! s.
Proof.
  induction ms as [|[l m] ms IH]; intros st st' s E Hne; [injection E as ->; done |]. cbn [rfold] in E. unfold stage_layer in E at 1. destruct (lm_centroids (l, m).2) as [c|], (lm_cluster_size (l, m).2) as [z|]; try done. rinv. subst.
  destruct (IH _ _ s E Hne) as [-> ->]. simpl. split; by eapply write_slot_other.
Qed.
Lemma stage_request_cases r req_id r' : pops_member -> stage_request cfg pick r req_id = Ok r' -> r' = r \/ exists slot, slot ∈ meta_free_slots r /\ meta_free_slots r' = meta_free_slots r ∖ {[slot]} /\
  meta_slot_by_req r' = <[_get_buffer_key cfg r req_id := slot]> (meta_slot_by_req r) /\ forall s, s <> slot -> staged_rows r' s = staged_rows r s.
Proof.
  intros Hpick. unfold stage_request. destruct (default [] (cluster_metadata r !! _)) as [|[l0 m0] rest]; [intros [= <-]; by left |]. destruct (bool_decide (default 0 (lm_n_centroids m0) = 0)); [intros [= <-]; by left |].
  destruct (bool_decide (meta_free_slots r = ∅)) eqn:Ef; [intros [= <-]; by left |]. apply bool_decide_eq_false in Ef. intros E. apply rbind_Ok in E as ([cb sb] & Hst & E). right. exists (pick (meta_free_slots r)). split; [by apply Hpick |].
  split; [by destruct (has_kv_transfer_group cfg); injection E as <- |]. split; [by destruct (has_kv_transfer_group cfg); injection E as <- |].
  intros s Hne. destruct (stage_layers_other _ _ _ _ _ s Hst Hne) as [H1 H2]. simpl in H1, H2. unfold staged_rows. destruct (has_kv_transfer_group cfg); injection E as <-; simpl; by rewrite H1, H2.
Qed.
Lemma stage_ok n_slots r req_id r' : pops_member -> slots_ok n_slots r -> stage_request cfg pick r req_id = Ok r' -> slots_ok n_slots r'.
Proof.
  intros Hpick Hok E. destruct (stage_request_cases r req_id r' Hpick E) as [-> | (slot & Hin & Hf & Hb & _)]; [done |]. destruct Hok as [H1 H2 H3]. set (key := _get_buffer_key cfg r req_id) in *. split; rewrite ?Hf, ?Hb.
  - intros s Hs. apply H1. set_solver.
  - intros k s [[<- <-] | [Hne Hk]]%lookup_insert_Some; [split; [by apply H1 | set_solver] |]. destruct (H2 k s Hk). split; [done | set_solver].
  - intros k k' s [[<- <-] | [Hne Hk]]%lookup_insert_Some [[<- Hs] | [Hne' Hk']]%lookup_insert_Some; [done | by destruct (H2 k' slot Hk') | by destruct (H2 k slot); [congruence |] | by apply (H3 k k' s)].
Qed.
Lemma stage_all n_slots r req_id r' : pops_member -> slots_all n_slots r -> meta_slot_by_req r !! _get_buffer_key cfg r req_id = None -> stage_request cfg pick r req_id = Ok r' -> slots_all n_slots r'.
Proof.
  intros Hpick H Hnone E s Hs. destruct (stage_request_cases r req_id r' Hpick E) as [-> | (slot & Hin & Hf & Hb & _)]; [by apply H |]. rewrite Hf, Hb.
  destruct (decide (s = slot)) as [-> | Hne]; [right; eexists; by rewrite lookup_insert_eq |]. destruct (H s Hs) as [Hin' | [k Hk]]; [left; set_solver |]. right. exists k. rewrite lookup_insert_ne; [done |]. intros <-. congruence.
Qed.
Lemma same_slots_ok n_slots r r' : same_slots r r' -> slots_ok n_slots r -> slots_ok n_slots r'.
Proof. intros (E1 & E2 & _) [H1 H2 H3]. split; rewrite ?E1, ?E2; done. Qed.
Lemma same_slots_all n_slots r r' : same_slots r r' -> slots_all n_slots r -> slots_all n_slots r'.
Proof. intros (E1 & E2 & _) H s. rewrite E1, E2. apply H. Qed.
Lemma same_slots_rows r r' s : same_slots r r' -> staged_rows r' s = staged_rows r s.
Proof. intros (_ & _ & E1 & E2). unfold staged_rows. by rewrite E1, E2. Qed.
#[local] Hint Resolve setup_same_slots offload_same_slots cluster_same_slots reorganize_same_slots cleanup_gpu_same_slots : slots.
Lemma slot_step_ok once n_slots r r' : pops_member -> slots_ok n_slots r -> slot_step once n_slots r r' -> slots_ok n_slots r'.
Proof.
  intros Hpick Hok Hstep. destruct Hstep as [| | | | | | req_id r' Hnone E | req_id s Hs | req_id | req_id | req_id]; try (eapply same_slots_ok; [eauto with slots; fail | exact Hok]).
  - destruct Hok. by split.
  - by apply (stage_ok n_slots r req_id).
  - by apply free_slot_ok.
  - simpl. destruct (meta_slot_by_req r !! _get_buffer_key cfg r req_id) as [s|] eqn:E; [| done]. by apply (slot_release_ok n_slots r _ (_get_buffer_key cfg r req_id) s).
  - unfold _cleanup_sparse_kv_cache. simpl. destruct (meta_slot_by_req r !! _get_buffer_key cfg r req_id) as [s|] eqn:E; simpl; [by apply (slot_release_ok n_slots r _ (_get_buffer_key cfg r req_id) s) | destruct Hok; by split].
  - destruct Hok. by split.
Qed.
Lemma slot_step_all n_slots r r' : pops_member -> slots_all n_slots r -> slot_step true n_slots r r' -> slots_all n_slots r'.
Proof.
  intros Hpick Hok Hstep. destruct Hstep as [| | | | | | req_id r' Hnone E | req_id s Hs | req_id | req_id | req_id]; try (eapply same_slots_all; [eauto with slots; fail | exact Hok]); try done.
  - by apply (stage_all n_slots r req_id); auto.
  - by apply free_slot_all.
  - simpl. destruct (meta_slot_by_req r !! _get_buffer_key cfg r req_id) as [s|] eqn:E; [| done]. by apply (slot_release_all n_slots r _ (_get_buffer_key cfg r req_id) s).
  - unfold _cleanup_sparse_kv_cache. simpl. destruct (meta_slot_by_req r !! _get_buffer_key cfg r req_id) as [s|] eqn:E; simpl; [by apply (slot_release_all n_slots r _ (_get_buffer_key cfg r req_id) s) | done].
Qed.
Lemma slot_step_rows once n_slots r r' k s : pops_member -> slots_ok n_slots r -> slot_step once n_slots r r' -> meta_slot_by_req r !! k = Some s -> meta_slot_by_req r' !! k = Some s -> staged_rows r' s = staged_rows r s.
Proof.
  intros Hpick Hok Hstep Hk Hk'. destruct Hstep as [| | | | | | req_id r' Hnone E | req_id t Ht | req_id | req_id | req_id]; try (apply same_slots_rows; eauto with slots; fail); try done.
  - destruct (stage_request_cases r req_id r' Hpick E) as [-> | (slot & Hin & _ & Hb & Hrows)]; [done |]. apply Hrows. intros ->. by destruct (so_held _ _ Hok k slot Hk).
  - simpl. by destruct (meta_slot_by_req r !! _get_buffer_key cfg r req_id).
  - unfold _cleanup_sparse_kv_cache. simpl. by destruct (meta_slot_by_req r !! _get_buffer_key cfg r req_id).
Qed.
End slots.

Lemma new_Runner_slots {A} cfg (uninit : A) max_chunk_size n_slots : is_pd_disaggregated cfg = true -> slots_ok n_slots (new_Runner cfg uninit max_chunk_size n_slots) /\ slots_all n_slots (new_Runner cfg uninit max_chunk_size n_slots).
Proof.
  intros Hpd. assert (meta_free_slots (new_Runner cfg uninit max_chunk_size n_slots) = list_to_set (seq 0 n_slots)) as Hf by (simpl; by rewrite Hpd). assert (forall s, s ∈ (list_to_set (seq 0 n_slots) : gset nat) <-> s < n_slots) as Hin by (intros s; rewrite elem_of_list_to_set, elem_of_seq; lia).
  split; [split; rewrite ?Hf; [intros s; by rewrite Hin | done | done] |]. intros s Hs. rewrite Hf. left. by rewrite Hin.
Qed.

(** C20 (safety): in every state a prefill worker reaches, also when a request is staged again while it holds a slot, no staging slot is both free and held, no slot is held by two requests, and a step never changes the rows of a slot that a request holds before and after it, so staging or cleaning up one request cannot damage the metadata another one waits to be read. In runs that stage a request only while it holds no slot, every slot is free or held. A slot number that a decode worker sends to be freed is a number of a slot of this worker. *)
Theorem staging_slots_safe {A} cfg (uninit : A) pick kmeans centroids_of orders max_chunk_size n_slots once r :
  pops_member pick -> is_pd_disaggregated cfg = true -> slot_reachable cfg uninit pick kmeans centroids_of orders once n_slots (new_Runner cfg uninit max_chunk_size n_slots) r ->
  slots_ok n_slots r /\ (once = true -> slots_all n_slots r) /\
  forall r' k s, slot_step cfg uninit pick kmeans centroids_of orders once n_slots r r' -> meta_slot_by_req r !! k = Some s -> meta_slot_by_req r' !! k = Some s -> staged_rows r' s = staged_rows r s.
Proof.
  intros Hpick Hpd Hr. destruct (new_Runner_slots cfg uninit max_chunk_size n_slots Hpd) as [H0 H1]. revert Hr H0 H1. generalize (new_Runner cfg uninit max_chunk_size n_slots). intros r0 Hr H0 H1.
  assert (slots_ok n_slots r) as Hok by (clear H1; induction Hr as [r | r1 r2 r3 Hs _ IH]; [done | by apply IH, (slot_step_ok cfg uninit pick kmeans centroids_of orders once n_slots r1)]).
  assert (once = true -> slots_all n_slots r) as Hall by (intros ->; clear H0 Hok; induction Hr as [r | r1 r2 r3 Hs _ IH]; [done | by apply IH, (slot_step_all cfg uninit pick kmeans centroids_of orders n_slots r1)]).
  split_and!; [done | done |]. intros r' k s Hs Hk Hk'. by apply (slot_step_rows cfg uninit pick kmeans centroids_of orders once n_slots r r' k s).
Qed.

(** One request of three tokens, clustered and staged in a worker with two slots *)
Definition slot_cfg : NelssaCfg := mkNelssaCfg true kv_producer 1 1 16 0 0 true true true.
Definition first_of (s : gset nat) : nat := default 0 (head (elements s)).
Lemma first_of_pops : pops_member first_of.
Proof. intros s Hs. unfold first_of. destruct (elements s) as [|x l] eqn:E; [apply elements_empty_inv in E; set_solver | simpl; apply elem_of_elements; rewrite E; by left]. Qed.
Definition slot_kmeans (keys : list (list Z)) (nc ns : nat) : list (list nat) := (fun row : list Z => replicate (length row) 0) <$> keys.
Definition slot_orders (max_idx : list (list nat)) : list (list nat) := (fun idx => seq 0 (length idx)) <$> max_idx.
Definition slot_centroids (keys : list (list Z)) (nc ns : nat) : list (list Z) := (fun _ => replicate nc 5%Z) <$> keys.
Definition slot_chunks (req_id : string) : list (string * ChunkInfo) := [(req_id, mkChunk true 3 4 0 3 0)].
Definition staged_once (req_id : string) (r : Runner Z) : res (Runner Z) :=
  do r2 <- _sparse_kv_offload_callback slot_cfg (fun _ => mkSeen id id) [[1]; [2]; [3]]%Z [[4]; [5]; [6]]%Z [0; 3] [req_id] 0 (slot_chunks req_id) (_setup_sparse_kv_offloading slot_cfg 0%Z (slot_chunks req_id) [(req_id, true)] r) in
  do r3 <- cluster_sparse_kv slot_cfg slot_kmeans slot_centroids slot_orders [req_id] r2 in
  stage_request slot_cfg first_of r3 req_id.
Definition slot_start : Runner Z := new_Runner slot_cfg 0%Z 4 2.
Lemma staged_once_steps req_id r r' : meta_slot_by_req r = ∅ -> staged_once req_id r = Ok r' -> slot_reachable slot_cfg 0%Z first_of slot_kmeans slot_centroids slot_orders true 2 r r'.
Proof.
  intros Hnone E. unfold staged_once in E. apply rbind_Ok in E as (r2 & E2 & E). apply rbind_Ok in E as (r3 & E3 & E).
  eapply rtc_l; [apply step_setup |]. eapply rtc_l; [eapply step_offload; exact E2 |]. eapply rtc_l; [eapply step_cluster; exact E3 |]. eapply rtc_once, step_stage; [| exact E]. intros _.
  destruct (offload_same_slots _ _ _ _ _ _ _ _ _ _ E2) as (_ & H2 & _), (cluster_same_slots _ _ _ _ _ _ _ E3) as (_ & H3 & _), (setup_same_slots slot_cfg 0%Z (slot_chunks req_id) [(req_id, true)] r) as (_ & H1 & _). rewrite H3, H2, H1, Hnone. apply lookup_empty.
Qed.
Lemma staging_slots_safe_witness : exists r, staged_once "a" slot_start = Ok r /\ meta_slot_by_req r !! "a" = Some 1 /\ slots_ok 2 r /\ slots_all 2 r.
Proof.
  destruct (staged_once "a" slot_start) as [r | e] eqn:E; [| vm_compute in E; discriminate]. exists r. split; [reflexivity |]. split; [vm_compute in E; injection E as <-; reflexivity |].
  destruct (staging_slots_safe slot_cfg 0%Z first_of slot_kmeans slot_centroids slot_orders 4 2 true r first_of_pops eq_refl (staged_once_steps "a" slot_start r eq_refl E)) as (Hok & Hall & _).
  split; [exact Hok | exact (Hall eq_refl)].
Defined.
