(* ===== verification/NelssaStreams.v ===== *)
(** * NelssaStreams
    The two CUDA streams of _sparse_kv_offload_callback (vllm/v1/worker/gpu_model_runner.py).
    In one forward pass the callback runs once per layer and long request. Each call enqueues,
    on the main stream, copies of the new keys and values to the temporary buffer, which all
    calls share, and to the GPU buffer, and then an event; on the offload stream it enqueues a
    wait for the event and the copies of the temporary buffer to the CPU. The host waits for
    the offload stream only after the forward pass, so the streams run at their own pace.

    The model follows one cell of the buffers (a head and a row). Calls are numbered from 0 in
    the order in which they are made; those that do not write the cell are left out. *)
From S2P Require Import Prelude.
#[local] Open Scope nat_scope.

Inductive Tensor := keys | values.
#[export] Instance Tensor_eq_dec : EqDecision Tensor.
Proof. solve_decision. Defined.
(** Places that hold an element: key_states and value_states of a call, the temporary buffer,
    and the cells of the GPU and CPU buffers a call writes *)
Inductive Loc := states (t : Tensor) (call : nat) | temp_buffer (t : Tensor) | gpu_buffer (t : Tensor) (call : nat) | cpu_buffer (t : Tensor) (call : nat).
#[export] Instance Loc_eq_dec : EqDecision Loc.
Proof. solve_decision. Defined.
Inductive Op := copy_ (dst src : Loc) | record (event : nat) | wait (event : nat).

(** What one call enqueues on the main stream and on the offload stream *)
Definition main_ops (call : nat) : list Op :=
  [copy_ (temp_buffer keys) (states keys call); copy_ (temp_buffer values) (states values call);
   copy_ (gpu_buffer keys call) (states keys call); copy_ (gpu_buffer values call) (states values call); record call].
Definition offload_ops (call : nat) : list Op :=
  [wait call; copy_ (cpu_buffer keys call) (temp_buffer keys); copy_ (cpu_buffer values call) (temp_buffer values)].

Section streams.
Context {A : Type} (input : Tensor -> nat -> A).

Record Streams := mkStreams {
  main_stream : list Op;
  offload_stream : list Op;
  recorded : gset nat;
  mem : Loc -> option A;
}.
Definition upd (m : Loc -> option A) (l : Loc) (v : option A) : Loc -> option A := fun l' => if decide (l' = l) then v else m l'.
(** The first operation of a stream; a wait for an event that is not recorded cannot run. *)
Definition run_op (op : Op) (ev : gset nat) (m : Loc -> option A) : option (gset nat * (Loc -> option A)) :=
  match op with
  | copy_ dst src => Some (ev, upd m dst (m src))
  | record e => Some ({[e]} ∪ ev, m)
  | wait e => if decide (e ∈ ev) then Some (ev, m) else None
  end.
Inductive stream_step : Streams -> Streams -> Prop :=
  | step_main op rest off ev m ev' m' : run_op op ev m = Some (ev', m') -> stream_step (mkStreams (op :: rest) off ev m) (mkStreams rest off ev' m')
  | step_offload op rest main ev m ev' m' : run_op op ev m = Some (ev', m') -> stream_step (mkStreams main (op :: rest) ev m) (mkStreams main rest ev' m').
Definition start_mem (l : Loc) : option A := match l with states t i => Some (input t i) | _ => None end.
(** The streams of a forward pass with [n] calls *)
Definition forward_pass (n : nat) : Streams := mkStreams (seq 0 n ≫= main_ops) (seq 0 n ≫= offload_ops) ∅ start_mem.

(** ** Invariant *)

(** The main stream has run the calls before [i] and [k] operations of call [i], the offload
    stream the calls before [i'] and [k'] operations of call [i']. *)
Definition temp_after (p k i : nat) (v : option A) (t : Tensor) : Prop := v = if bool_decide (p < k) then Some (input t i) else match i with 0 => None | S j => Some (input t j) end.
(** The operation at [pos] of call [c] has run. *)
Definition reached (pos k i c : nat) : bool := bool_decide (c < i \/ c = i /\ pos < k).
Definition gpu_pos (t : Tensor) : nat := match t with keys => 2 | values => 3 end.
Definition cpu_pos (t : Tensor) : nat := match t with keys => 1 | values => 2 end.
Record at_point (n i k i' k' : nat) (s : Streams) : Prop := {
  ap_main : main_stream s = drop k (main_ops i) ++ (seq (S i) (n - S i) ≫= main_ops);
  ap_off : offload_stream s = drop k' (offload_ops i') ++ (seq (S i') (n - S i') ≫= offload_ops);
  ap_i : i < n /\ k <= 5;
  ap_i' : i' < n /\ k' <= 3;
  ap_rec : forall e, e ∈ recorded s <-> e < i \/ e = i /\ k = 5;
  ap_wait : 0 < k' -> i' ∈ recorded s;
  ap_waited : forall e, e < i' -> e ∈ recorded s;
  ap_states : forall t c, mem s (states t c) = Some (input t c);
  ap_tk : temp_after 0 k i (mem s (temp_buffer keys)) keys;
  ap_tv : temp_after 1 k i (mem s (temp_buffer values)) values;
  ap_gpu : forall t c, mem s (gpu_buffer t c) = if reached (gpu_pos t) k i c then Some (input t c) else None;
  ap_cpu : forall t c, if reached (cpu_pos t) k' i' c then exists j, c <= j < n /\ mem s (cpu_buffer t c) = Some (input t j) else mem s (cpu_buffer t c) = None;
}.
Lemma upd_same m l v : upd m l v l = v.
Proof. unfold upd. by rewrite decide_True. Qed.
Lemma upd_other m l l' v : l' <> l -> upd m l v l' = m l'.
Proof. intros H. unfold upd. by rewrite decide_False. Qed.
Lemma next_call {B} (f : nat -> list B) n i : S i < n -> (seq (S i) (n - S i) ≫= f) = f (S i) ++ (seq (S (S i)) (n - S (S i)) ≫= f).
Proof. intros H. replace (n - S i) with (S (n - S (S i))) by lia. done. Qed.
Lemma last_call {B} (f : nat -> list B) n i : n <= S i -> (seq (S i) (n - S i) ≫= f) = [].
Proof. intros H. by replace (n - S i) with 0 by lia. Qed.

Lemma reached_roll pos k i c : pos < k -> reached pos k i c = reached pos 0 (S i) c.
Proof. intros H. apply bool_decide_ext. lia. Qed.
Lemma reached_now k i : reached k (S k) i i = true.
Proof. apply bool_decide_eq_true. lia. Qed.
Lemma reached_other pos k i c : pos <> k \/ c <> i -> reached pos (S k) i c = reached pos k i c.
Proof. intros H. apply bool_decide_ext. lia. Qed.

(** A stream that is through with a call is at the start of the next one. *)
Lemma main_roll n i i' k' s : at_point n i 5 i' k' s -> S i < n -> at_point n (S i) 0 i' k' s.
Proof.
  intros [] Hi. split; try done; try lia.
  - rewrite ap_main0, next_call by done. done.
  - intros e. rewrite ap_rec0. lia.
  - intros t c. rewrite ap_gpu0. apply (f_equal (fun b : bool => if b then _ else _)), reached_roll. destruct t; simpl; lia.
Qed.
Lemma offload_roll n i k i' s : at_point n i k i' 3 s -> S i' < n -> at_point n i k (S i') 0 s.
Proof.
  intros [] Hi. split; try done; try lia.
  - rewrite ap_off0, next_call by done. done.
  - intros e He. destruct (decide (e = i')) as [->|]; [apply ap_wait0; lia | apply ap_waited0; lia].
  - intros t c. specialize (ap_cpu0 t c). rewrite <- (reached_roll (cpu_pos t) 3 i' c); [done | destruct t; simpl; lia].
Qed.
Lemma in_recorded (e i : nat) (ev : gset nat) : e ∈ {[i]} ∪ ev <-> e = i \/ e ∈ ev.
Proof. set_solver. Qed.
Lemma upd_gpu m t t' i c v : upd m (gpu_buffer t i) v (gpu_buffer t' c) = if bool_decide (t' = t /\ c = i) then v else m (gpu_buffer t' c).
Proof. case_bool_decide as H; [destruct H as [-> ->]; apply upd_same | apply upd_other; intros [=]; by destruct H]. Qed.
Lemma upd_cpu m t t' i c v : upd m (cpu_buffer t i) v (cpu_buffer t' c) = if bool_decide (t' = t /\ c = i) then v else m (cpu_buffer t' c).
Proof. case_bool_decide as H; [destruct H as [-> ->]; apply upd_same | apply upd_other; intros [=]; by destruct H]. Qed.
(** One operation of a stream, by its place in the call *)
Lemma main_point n i k i' k' op ms off ev m ev' m' : at_point n i k i' k' (mkStreams (op :: ms) off ev m) -> k < 5 -> run_op op ev m = Some (ev', m') -> at_point n i (S k) i' k' (mkStreams ms off ev' m').
Proof.
  intros [] Hk E. simpl in *. destruct k as [|[|[|[|[|k]]]]]; [.. | lia]; simpl in ap_main0; injection ap_main0 as -> ->; injection E as <- <-.
  all: split; simpl; try done; try lia; try (intros; rewrite ?upd_other by congruence; by auto); try (unfold temp_after; by rewrite upd_same, ap_states0).
  all: try (intros e; rewrite ?in_recorded, ap_rec0; lia); try (intros; apply in_recorded; by auto).
  all: intros t c; rewrite ?upd_gpu; try (rewrite upd_other by congruence); rewrite ap_gpu0, ?ap_states0; unfold reached; destruct t; simpl; repeat case_bool_decide; first [done | lia | naive_solver lia].
Qed.
(** The temporary buffer holds data of a call whose event is recorded, or of a later one. *)
Lemma temp_fresh n i k i' k' s t : at_point n i k i' k' s -> i' ∈ recorded s -> exists j, i' <= j < n /\ mem s (temp_buffer t) = Some (input t j).
Proof.
  intros [] H. apply ap_rec0 in H. assert (exists pos, temp_after pos k i (mem s (temp_buffer t)) t /\ pos < 5) as (pos & Ht & Hp) by (destruct t; [exists 0 | exists 1]; split; [done | lia | done | lia]).
  unfold temp_after in Ht. case_bool_decide; [exists i; split; [lia | done] |]. destruct i as [|j]; [lia |]. exists j. split; [lia | done].
Qed.
Lemma offload_point n i k i' k' op os main ev m ev' m' : at_point n i k i' k' (mkStreams main (op :: os) ev m) -> k' < 3 -> run_op op ev m = Some (ev', m') -> at_point n i k i' (S k') (mkStreams main os ev' m').
Proof.
  intros H Hk E. pose proof (fun t => temp_fresh n i k i' k' _ t H) as Hfresh. destruct H as []. simpl in *. destruct k' as [|[|[|k']]]; [.. | lia]; simpl in ap_off0; injection ap_off0 as -> ->; simpl in E.
  { destruct (decide (i' ∈ ev)) as [Hin|]; [| done]. injection E as <- <-. split; simpl; try done; try lia. intros t c. specialize (ap_cpu0 t c). rewrite reached_other; [done | destruct t; simpl; lia]. }
  all: injection E as <- <-; split; simpl; try done; try lia; try (intros; rewrite ?upd_other by congruence; by auto).
  all: intros t c; specialize (ap_cpu0 t c); rewrite upd_cpu; case_bool_decide as Htc; [destruct Htc as [-> ->]; rewrite reached_now; apply Hfresh, ap_wait0; lia |]; rewrite reached_other; [done |].
  all: destruct t; simpl; [naive_solver | naive_solver].
Qed.

(** ** Every state of a forward pass *)
Definition on_course (n : nat) (s : Streams) : Prop := exists i k i' k', at_point n i k i' k' s.
Lemma start_on_course n : 0 < n -> on_course n (forward_pass n).
Proof.
  intros Hn. exists 0, 0, 0, 0. destruct n as [|n]; [lia |]. split; simpl; try done; try lia.
  - by rewrite Nat.sub_0_r.
  - by rewrite Nat.sub_0_r.
  - intros e. split; [set_solver | lia].
  - intros t c. unfold reached. case_bool_decide; [lia | done].
  - intros t c. unfold reached. case_bool_decide; [lia | done].
Qed.
Lemma step_on_course n s s' : on_course n s -> stream_step s s' -> on_course n s'.
Proof.
  intros (i & k & i' & k' & H) Hs. destruct Hs as [op rest off ev m ev' m' E | op rest main ev m ev' m' E].
  - destruct (decide (k < 5)) as [Hk|Hk]; [exists i, (S k), i', k'; by apply (main_point _ _ _ _ _ op _ _ ev m) |]. assert (k = 5) as -> by (destruct H; lia). assert (S i < n) as Hi.
    { destruct (decide (S i < n)); [done |]. destruct H. rewrite last_call in ap_main0 by lia. done. }
    exists (S i), 1, i', k'. apply (main_point _ _ 0 _ _ op _ _ ev m); [by apply main_roll | lia | done].
  - destruct (decide (k' < 3)) as [Hk|Hk]; [exists i, k, i', (S k'); by apply (offload_point _ _ _ _ _ op _ _ ev m) |]. assert (k' = 3) as -> by (destruct H; lia). assert (S i' < n) as Hi.
    { destruct (decide (S i' < n)); [done |]. destruct H. rewrite last_call in ap_off0 by lia. done. }
    exists i, k, (S i'), 1. apply (offload_point _ _ _ _ 0 op _ _ ev m); [by apply offload_roll | lia | done].
Qed.
Lemma reachable_on_course n s : 0 < n -> rtc stream_step (forward_pass n) s -> on_course n s.
Proof. intros Hn Hr. remember (forward_pass n) as s0 eqn:E. assert (on_course n s0) as H by (subst; by apply start_on_course). clear E. induction Hr; [done |]. eauto using step_on_course. Qed.

(** The offload stream waits only for events the main stream has still to record. *)
Lemma on_course_progress n s : on_course n s -> main_stream s = [] /\ offload_stream s = [] \/ exists s', stream_step s s'.
Proof.
  intros (i & k & i' & k' & H). destruct s as [main off ev m]. simpl. destruct main as [|op main].
  - destruct off as [|op off]; [by left |]. right. destruct op as [d sr | e | e]; try (eexists; apply step_offload; reflexivity). destruct (decide (e ∈ ev)) as [He|He]; [eexists; apply step_offload; simpl; by rewrite decide_True |]. destruct He.
    assert (k = 5 /\ n <= S i) as [-> Hn]. { destruct H. simpl in *. destruct k as [|[|[|[|[|[|k]]]]]]; try done; [| lia]. split; [done |]. destruct (decide (S i < n)); [| lia]. by rewrite next_call in ap_main0. }
    assert (e < n) as Hlt. { destruct H. simpl in *. destruct k' as [|[|[|[|k']]]]; simpl in ap_off0; try done; [injection ap_off0 as -> _; lia | | lia]. destruct (decide (S i' < n)); [rewrite next_call in ap_off0 by done; injection ap_off0 as -> _; lia | by rewrite last_call in ap_off0 by lia]. }
    destruct H. apply ap_rec0. lia.
  - right. destruct op as [d sr | e | e]; try (eexists; apply step_main; reflexivity). exfalso. destruct H. simpl in *. destruct k as [|[|[|[|[|[|k]]]]]]; try done; [| lia]. destruct (decide (S i < n)); [by rewrite next_call in ap_main0 | by rewrite last_call in ap_main0 by lia].
Qed.
Lemma all_done n s : on_course n s -> main_stream s = [] -> offload_stream s = [] -> exists i i', at_point n i 5 i' 3 s /\ n <= S i /\ n <= S i'.
Proof.
  intros (i & k & i' & k' & H) Em Eo. exists i, i'. assert (k = 5 /\ n <= S i) as [-> Hi].
  { destruct H. rewrite Em in ap_main0. destruct k as [|[|[|[|[|[|k]]]]]]; try done; [| lia]. split; [done |]. destruct (decide (S i < n)); [| lia]. by rewrite next_call in ap_main0. }
  assert (k' = 3 /\ n <= S i') as [-> Hi'].
  { destruct H. rewrite Eo in ap_off0. destruct k' as [|[|[|[|k']]]]; try done; [| lia]. split; [done |]. destruct (decide (S i' < n)); [| lia]. by rewrite next_call in ap_off0. }
  done.
Qed.
End streams.
Arguments Streams : clear implicits.

(** C21 (invariant): however the two streams of a forward pass interleave, a copy to the CPU never takes data older than its own call's: it holds the keys or values of the call or of a later one, and of the last call exactly its own. The GPU buffer, which only the main stream writes, always holds the call's own data. The streams never block each other for good, and when both are empty every call has its copy. *)
Theorem offload_streams_ordered {A} (input : Tensor -> nat -> A) n s : 0 < n -> rtc stream_step (forward_pass input n) s ->
  (forall t c v, mem s (cpu_buffer t c) = Some v -> exists j, c <= j < n /\ v = input t j) /\
  (forall t c v, mem s (gpu_buffer t c) = Some v -> v = input t c) /\
  (main_stream s = [] /\ offload_stream s = [] \/ exists s', stream_step s s') /\
  (main_stream s = [] -> offload_stream s = [] -> forall t c, c < n -> mem s (gpu_buffer t c) = Some (input t c) /\ exists j, c <= j < n /\ mem s (cpu_buffer t c) = Some (input t j)).
Proof.
  intros Hn Hr. apply reachable_on_course in Hr; [| done]. split; [| split; [| split]].
  - destruct Hr as (i & k & i' & k' & []). intros t c v Hv. specialize (ap_cpu0 t c). destruct (reached _ _ _ _); [| congruence]. destruct ap_cpu0 as (j & Hj & E). exists j. split; [done | congruence].
  - destruct Hr as (i & k & i' & k' & []). intros t c v Hv. rewrite ap_gpu0 in Hv. destruct (reached _ _ _ _); congruence.
  - by apply (on_course_progress input n).
  - intros Em Eo t c Hc. destruct (all_done input n s Hr Em Eo) as (i & i' & H & Hi & Hi'). destruct H. specialize (ap_gpu0 t c). specialize (ap_cpu0 t c). unfold reached in ap_gpu0, ap_cpu0. rewrite bool_decide_true in ap_gpu0 by (destruct t; simpl; lia). by rewrite bool_decide_true in ap_cpu0 by (destruct t; simpl; lia).
Qed.

(** The state after the streams have run in the given order, [true] for the main stream *)
Fixpoint run_schedule {A} (order : list bool) (s : Streams A) : option (Streams A) :=
  match order, s with
  | [], _ => Some s
  | true :: order', mkStreams (op :: rest) off ev m => x ← run_op op ev m; run_schedule order' (mkStreams rest off x.1 x.2)
  | false :: order', mkStreams main (op :: rest) ev m => x ← run_op op ev m; run_schedule order' (mkStreams main rest x.1 x.2)
  | _, _ => None
  end.
Lemma run_schedule_steps {A} order (s s' : Streams A) : run_schedule order s = Some s' -> rtc stream_step s s'.
Proof.
  revert s. induction order as [|[] order IH]; intros [main off ev m] E; simpl in E; [by injection E as <- | |].
  - destruct main as [|op main]; [done |]. destruct (run_op op ev m) as [[ev' m']|] eqn:Eo; [| done]. eapply rtc_l; [by apply step_main | by apply IH].
  - destruct off as [|op off]; [done |]. destruct (run_op op ev m) as [[ev' m']|] eqn:Eo; [| done]. eapply rtc_l; [by apply step_offload | by apply IH].
Qed.
(** The offload stream starts when the main stream has finished two calls. *)
Definition late_offload : list bool := replicate 10 true ++ replicate 6 false.

(** C39 (safety): the temporary buffer is overwritten before it is read. If the main stream finishes the second layer before the offload stream starts on the first, both copies end, and the CPU buffer of the first layer holds the keys and values of the second, while its GPU buffer, which is clustered, holds its own. *)
Theorem temp_buffer_race {A} (input : Tensor -> nat -> A) : exists s, rtc stream_step (forward_pass input 2) s /\ main_stream s = [] /\ offload_stream s = [] /\
  forall t, mem s (cpu_buffer t 0) = Some (input t 1) /\ mem s (gpu_buffer t 0) = Some (input t 0).
Proof.
  destruct (run_schedule late_offload (forward_pass input 2)) as [s|] eqn:E; [| vm_compute in E; discriminate]. exists s. split; [by apply (run_schedule_steps late_offload) |]. vm_compute in E. injection E as <-. split; [done | split; [done |]]. intros []; by vm_compute.
Qed.

Lemma offload_streams_ordered_witness : exists s, run_schedule late_offload (forward_pass (fun (_ : Tensor) (c : nat) => c) 2) = Some s /\ exists j, 0 <= j < 2 /\ mem s (cpu_buffer keys 0) = Some j.
Proof.
  destruct (run_schedule late_offload (forward_pass (fun (_ : Tensor) (c : nat) => c) 2)) as [s|] eqn:E; [| vm_compute in E; discriminate]. exists s. split; [done |].
  destruct (offload_streams_ordered (fun (_ : Tensor) (c : nat) => c) 2 s ltac:(lia) (run_schedule_steps _ _ _ E)) as (_ & _ & _ & H). vm_compute in E. injection E as <-. destruct (H eq_refl eq_refl keys 0 ltac:(lia)) as (_ & j & Hj & Ej). exists j. split; [exact Hj | exact Ej].
Defined.
