(* ===== verification/NelssaFindings.v ===== *)
(** * NelssaFindings
    Behaviour of the NELSSA worker that loses data or resources of a long request. *)
From S2P Require Import Prelude OrdDict CacheHit KVCacheInterface SizingInv Scheduler WorkerBlockTable InputBatchInv NelssaClusters NelssaWorker NelssaEngine NelssaAttention NelssaSlotProps.
#[local] Open Scope nat_scope.

(** The gather written with torch operations scatters the slots beyond the end of a cluster as well, to the place of the cluster's last token. For a cluster of one token and one of three, with the elements written in order, the first token is replaced by the third; the C++ gather copies the four tokens. *)
Lemma torch_gather_overwrites {A} (t0 t1 t2 t3 x : A) :
  gather_head_torch (seq 0 6) 3 4 [0; 1] [1; 3] [t0; t1; t2; t3] = Ok [t2; t1; t2; t3] /\
  gather_loop [0; 1] [1; 3] [0; 1]%Z [t0; t1; t2; t3] (replicate 4 x) 0 = Ok ([t0; t1; t2; t3], 4).
Proof. split; vm_compute; reflexivity. Qed.

(** ** Staging slots that are too narrow *)
Section narrow.
Context {A : Type} (cfg : NelssaCfg) (uninit : A) (pick : gset nat -> nat).
Lemma torch_assign_narrow {B} (l : list B) stop vals : length l < length vals -> 1 < length vals -> torch_assign l 0 stop vals = Err RuntimeError.
Proof. intros H H1. unfold torch_assign. simpl. rewrite bool_decide_false by lia. destruct vals as [|v [|w vals]]; simpl in *; [lia | lia | done]. Qed.
Lemma write_slot_narrow {B} (buf : list (list (list (list B)))) slot layer n layers rows row vals v vs : buf !! slot = Some layers -> layers !! layer = Some (row :: rows) -> vals = v :: vs -> length vals = S (length rows) -> length row < length v -> 1 < length v ->
  write_slot buf slot layer n vals = Err RuntimeError.
Proof.
  intros Hb Hl -> Hn Hw H1. unfold write_slot, np_get. rewrite Hb. simpl. rewrite Hl. simpl. unfold write_rows. rewrite bool_decide_true by (simpl in *; lia). simpl. by rewrite torch_assign_narrow.
Qed.
End narrow.

(** C40 (bounds): a staging slot has room for the centroids of a prompt of max_model_len tokens, which are not the most a shorter prompt can have. With max_model_len 120000 the slot has 7440 rows, and 118729 offloaded tokens have 7448 centroids: the copy to the slot raises, after the slot has been taken. *)
Theorem staging_slot_too_narrow {A} cfg (uninit : A) pick max_chunk_size n_slots r req_id meta rest c cs :
  max_model_len cfg = 120000 -> is_pd_disaggregated cfg = true -> 0 < num_layers cfg ->
  pick (meta_free_slots r) < n_slots -> meta_free_slots r <> ∅ -> centroid_buf r = centroid_buf (new_Runner cfg uninit max_chunk_size n_slots) ->
  cluster_metadata r !! _get_buffer_key cfg r req_id = Some ((0, meta) :: rest) ->
  lm_n_centroids meta = Some (Z.to_nat (n_centroids 118729)) -> lm_centroids meta = Some (c :: cs) -> num_kv_heads cfg = S (length cs) -> length c = Z.to_nat (n_centroids 118729) -> is_Some (lm_cluster_size meta) ->
  stage_request cfg pick r req_id = Err RuntimeError.
Proof.
  intros Hmax Hpd Hl Hslot Hfree Hbuf Hmeta Hn Hc Hheads Hlen [sz Hsz]. assert (Z.to_nat (n_centroids 118729) = Z.to_nat 7448) as Ec by (vm_compute; reflexivity). assert (_compute_max_n_centroids (Z.of_nat (max_model_len cfg)) = 7440%Z) as Ew by (rewrite Hmax; vm_compute; reflexivity).
  unfold stage_request. rewrite Hmeta. cbn [default from_option id]. rewrite Hn. cbn [default from_option id]. rewrite Ec in *. rewrite bool_decide_false by lia. rewrite bool_decide_false by done. cbn [rfold]. unfold stage_layer. cbn [snd fst]. rewrite Hc, Hsz.
  change (centroid_buf (with_slots _ _ r)) with (centroid_buf r). rewrite Hbuf. unfold new_Runner. cbn [centroid_buf]. rewrite Hpd, Ew. cbn [default from_option id]. destruct (num_layers cfg) as [|nl] eqn:En; [lia |].
  erewrite (write_slot_narrow _ _ _ _ _ (replicate (length cs) (replicate (Z.to_nat 7440) uninit)) (replicate (Z.to_nat 7440) uninit)); [reflexivity | by apply lookup_replicate_2 | | reflexivity | by rewrite length_replicate | rewrite length_replicate; lia | lia].
  rewrite lookup_replicate_2 by lia. by rewrite Hheads.
Qed.

Definition narrow_cfg : NelssaCfg := mkNelssaCfg true kv_producer 1 1 120000 16 64 true true true.
Definition narrow_meta : LayerMeta Z := mkMeta (Some [replicate (Z.to_nat (n_centroids 118729)) 0%Z]) (Some []) None (Some (Z.to_nat (n_centroids 118729))) None None false.
Definition narrow_runner : Runner Z := with_metadata {["long" := [(0, narrow_meta)]]} (new_Runner narrow_cfg 0%Z 8192 2).
Lemma staging_slot_too_narrow_witness : stage_request narrow_cfg (fun _ => 0) narrow_runner "long" = Err RuntimeError.
Proof.
  assert (meta_free_slots narrow_runner = list_to_set (seq 0 2)) as Hf by reflexivity.
  apply (staging_slot_too_narrow narrow_cfg 0%Z (fun _ => 0) 8192 2 narrow_runner "long" narrow_meta [] (replicate (Z.to_nat (n_centroids 118729)) 0%Z) []); try reflexivity; try (simpl; lia).
  - rewrite Hf. apply (non_empty_inhabited_L 0). set_solver.
  - by exists [].
Defined.

(** A decode worker keeps the metadata and the staging slot of a request under the id the request has on the prefill worker, and looks that id up in the request. A finished request is no longer there when its resources are released: the local id is used, and metadata and slot stay, which the same call frees while the request is known. *)
Lemma decode_cleanup_misses {A} cfg (r : Runner A) req_id remote s d :
  is_pd_disaggregated cfg = true -> nr_requests r !! req_id = Some (Some remote) -> remote <> "" -> remote <> req_id ->
  cluster_metadata r !! remote = Some d -> meta_slot_by_req r !! remote = Some s ->
  let finished := _cleanup_sparse_kv_cache cfg req_id (with_requests (delete req_id (nr_requests r)) r) in
  let known := _cleanup_sparse_kv_cache cfg req_id r in
  (cluster_metadata finished !! remote = Some d /\ meta_slot_by_req finished !! remote = Some s) /\
  (cluster_metadata known !! remote = None /\ meta_slot_by_req known !! remote = None /\ s ∈ meta_free_slots known).
Proof.
  intros Hpd Hreq Hne Hdiff Hd Hs finished known. assert (_get_buffer_key cfg r req_id = remote) as Hk.
  { unfold _get_buffer_key, _get_remote_request_id. rewrite Hpd, Hreq. unfold or_str. by repeat rewrite (bool_decide_eq_false_2 (remote = "")) by done. }
  assert (_get_buffer_key cfg (with_requests (delete req_id (nr_requests r)) r) req_id = req_id) as Hk'.
  { unfold _get_buffer_key, _get_remote_request_id. rewrite Hpd. simpl. rewrite lookup_delete_eq. simpl. by case_bool_decide. }
  split.
  - subst finished. unfold _cleanup_sparse_kv_cache. rewrite Hk'. simpl. destruct (meta_slot_by_req r !! req_id); simpl; rewrite ?lookup_delete_ne by congruence; done.
  - subst known. unfold _cleanup_sparse_kv_cache. rewrite Hk. simpl. rewrite Hs. simpl. rewrite !lookup_delete_eq. set_solver.
Qed.
(** A decode worker that has received the metadata of a request into slot 0 *)
Definition decode_cfg : NelssaCfg := mkNelssaCfg true kv_consumer 1 1 16 0 0 true true true.
Definition received : Runner Z := _store_received_nelssa_metadata decode_cfg "local" [] [] 8 (Some 0) (with_requests {["local" := Some "remote"]} (new_Runner decode_cfg 0%Z 4 2)).
Lemma decode_cleanup_misses_witness : meta_slot_by_req (_cleanup_sparse_kv_cache decode_cfg "local" (with_requests (delete "local" (nr_requests received)) received)) !! "remote" = Some 0.
Proof. apply (decode_cleanup_misses decode_cfg received "local" "remote" 0 []); try reflexivity; discriminate. Defined.

(** ** A request staged twice *)
Definition restaged : res (Runner Z) := do r <- staged_once "a" slot_start in stage_request slot_cfg first_of r "a".
(** Staging a request that holds a slot takes a second one and forgets the first, which is then neither free nor held: with two slots the pool is empty and one request holds one slot. *)
Lemma restaging_leaks_slot : match restaged with Ok r => meta_free_slots r = ∅ /\ meta_slot_by_req r = {["a" := 0]} | Err _ => False end.
Proof. vm_compute. split; reflexivity. Qed.
