(* ===== verification/RpcProtocol.v ===== *)
(** * RpcProtocol
    The messages a prefill and a decode worker exchange:
    vllm/distributed/rpc_kv/protocol.py. Tensors travel as a header (code of the type, number
    of dimensions, shape) and their raw bytes; messages are dataclasses that serialize to
    dicts. A byte is an integer from 0 to 255. *)
From stdpp Require Import list_numbers.
From S2P Require Import Prelude CacheHit KVCacheInterface.
#[local] Open Scope Z_scope.

Definition is_byte (b : Z) : Prop := 0 <= b < 256.

(** ** Tensors *)

(** [complex64] stands for the types without a code. *)
Inductive Dtype := float32 | float16 | bfloat16 | float64 | int64 | int32 | int16 | int8 | uint8 | bool_ | complex64.
#[export] Instance Dtype_eq_dec : EqDecision Dtype.
Proof. solve_decision. Defined.
Definition _DTYPE_CODE : list (Dtype * Z) :=
  [(float32, 0); (float16, 1); (bfloat16, 2); (float64, 3); (int64, 4); (int32, 5); (int16, 6); (int8, 7); (uint8, 8); (bool_, 9)].
Definition code_of (d : Dtype) : option Z := (fun x => x.2.2) <$> list_find (fun x => x.1 = d) _DTYPE_CODE.
Definition _CODE_TO_DTYPE (code : Z) : option Dtype := (fun x => x.2.1) <$> list_find (fun x => x.2 = code) _DTYPE_CODE.
(** Bytes of an element *)
Definition itemsize (d : Dtype) : nat :=
  match d with
  | float32 | int32 => 4
  | float16 | bfloat16 | int16 => 2
  | float64 | int64 | complex64 => 8
  | int8 | uint8 | bool_ => 1
  end.
(** A contiguous tensor on the CPU; an element is the list of its bytes in memory. *)
Record Tensor := mkTensor {
  t_dtype : Dtype;
  t_shape : list Z;
  t_elems : list (list Z);
}.
Definition numel (shape : list Z) : Z := foldr Z.mul 1 shape.
Record tensor_ok (t : Tensor) : Prop := {
  tk_dims : Forall (fun d => 0 <= d < 2 ^ 63) (t_shape t);
  tk_ndim : (length (t_shape t) < 256)%nat;
  tk_size : zlen (t_elems t) = numel (t_shape t);
  tk_elems : Forall (fun e => length e = itemsize (t_dtype t)) (t_elems t);
}.

(** struct.pack and struct.unpack_from for the formats "B" and "q", little-endian *)
Definition pack_B (z : Z) : res (list Z) := if bool_decide (is_byte z) then Ok [z] else Err StructError.
Definition pack_q (z : Z) : res (list Z) := if bool_decide (- 2 ^ 63 <= z < 2 ^ 63) then Ok (Z_to_little_endian 8 8 z) else Err StructError.
Definition unpack_q (bs : list Z) : Z := let z := little_endian_to_Z 8 bs in if z <? 2 ^ 63 then z else z - 2 ^ 64.
Fixpoint unpack_qs (n : nat) (data : list Z) : res (list Z) :=
  match n with
  | O => Ok []
  | S n' =>
    if bool_decide (8 <= length data)%nat then
      do rest <- unpack_qs n' (drop 8 data) in Ok (unpack_q (take 8 data) :: rest)
    else Err StructError
  end.

Definition tensor_to_bytes (t : Tensor) : res (list Z) :=
  match code_of (t_dtype t) with
  | None => Err ValueError
  | Some code =>
    do c <- pack_B code in
    do n <- pack_B (zlen (t_shape t)) in
    do dims <- rmap pack_q (t_shape t) in
    Ok (c ++ n ++ concat dims ++ concat (t_elems t))
  end.

(** np.frombuffer: the elements of a buffer *)
Fixpoint chunks (fuel size : nat) (l : list Z) : list (list Z) :=
  match fuel, l with
  | S f, _ :: _ => take size l :: chunks f size (drop size l)
  | _, _ => []
  end.
Definition frombuffer (size : nat) (body : list Z) : res (list (list Z)) :=
  if bool_decide (Z.of_nat (length body) mod Z.of_nat size = 0) then Ok (chunks (length body) size body) else Err ValueError.

(** reshape of NumPy: given the number of elements, the shape of the result *)
Class NumPy := np_reshape : Z -> list Z -> option (list Z).
(** Dimensions that are not negative have to multiply to the number of elements. *)
Class NumPyLaws `{NumPy} : Prop := np_reshape_spec n shape : Forall (fun d => 0 <= d) shape -> np_reshape n shape = if bool_decide (numel shape = n) then Some shape else None.

Definition bytes_to_tensor `{NumPy} (data : list Z) : res Tensor :=
  match data with
  | code :: ndim :: rest =>
    do shape <- unpack_qs (Z.to_nat ndim) rest in
    let body := drop (8 * Z.to_nat ndim) rest in
    match _CODE_TO_DTYPE code with
    | None => Err KeyError
    | Some dtype =>
      do elems <- frombuffer (itemsize dtype) body in
      match np_reshape (zlen elems) shape with
      | Some s => Ok (mkTensor dtype s elems)
      | None => Err ValueError
      end
    end
  | _ => Err StructError
  end.

(** ** Messages *)

(** The values of the dicts that are sent *)
Inductive Val := VNone | VBool (b : bool) | VInt (z : Z) | VStr (s : string) | VBytes (bs : list Z) | VList (l : list Val) | VDict (d : list (string * Val)).
Definition lookup_key (k : string) (d : list (string * Val)) : option Val := (fun x => x.2.2) <$> list_find (fun x => x.1 = k) d.
(** [data\[k\]] and [data.get(k)] *)
Definition subscript (data : Val) (k : string) : res Val :=
  match data with
  | VDict d => match lookup_key k d with Some v => Ok v | None => Err KeyError end
  | _ => Err TypeError
  end.
Definition get_key (data : Val) (k : string) : res Val :=
  match data with VDict d => Ok (default VNone (lookup_key k d)) | _ => Err AttributeError end.
Definition truthy (v : Val) : bool :=
  match v with
  | VNone => false
  | VBool b => b
  | VInt z => negb (z =? 0)
  | VStr s => bool_decide (s <> EmptyString)
  | VBytes l => bool_decide (l <> [])
  | VList l => match l with [] => false | _ => true end
  | VDict d => match d with [] => false | _ => true end
  end.

(** The message classes: fields hold any value, as those of a dataclass do. *)
Class Message (M : Type) := {
  serialize : M -> Val;
  deserialize : Val -> res M;
}.
Class MessageLaws (M : Type) `{Message M} : Prop := roundtrip m : deserialize (serialize m) = Ok m.

Record SparseAttentionRequest := mkAttentionRequest {
  ar_request_id : Val; ar_query_data : Val; ar_topk_cluster_ids : Val; ar_seq_len : Val;
  ar_num_heads : Val; ar_head_dim : Val; ar_num_kv_heads : Val; ar_layer_idx : Val;
}.
#[export] Instance SparseAttentionRequest_message : Message SparseAttentionRequest := {
  serialize m := VDict [("request_id", ar_request_id m); ("query_data", ar_query_data m); ("topk_cluster_ids", ar_topk_cluster_ids m); ("seq_len", ar_seq_len m);
                        ("num_heads", ar_num_heads m); ("head_dim", ar_head_dim m); ("num_kv_heads", ar_num_kv_heads m); ("layer_idx", ar_layer_idx m)];
  deserialize data :=
    do request_id <- subscript data "request_id" in
    do query_data <- subscript data "query_data" in
    do topk_cluster_ids <- subscript data "topk_cluster_ids" in
    do seq_len <- subscript data "seq_len" in
    do num_heads <- subscript data "num_heads" in
    do head_dim <- subscript data "head_dim" in
    do num_kv_heads <- subscript data "num_kv_heads" in
    do layer_idx <- subscript data "layer_idx" in
    Ok (mkAttentionRequest request_id query_data topk_cluster_ids seq_len num_heads head_dim num_kv_heads layer_idx);
}.
Record SparseAttentionResponse := mkAttentionResponse { as_output_data : Val; as_success : Val; as_error_message : Val }.
#[export] Instance SparseAttentionResponse_message : Message SparseAttentionResponse := {
  serialize m := VDict [("attention_output_data", as_output_data m); ("success", as_success m); ("error_message", as_error_message m)];
  deserialize data :=
    do attention_output_data <- subscript data "attention_output_data" in
    do success <- subscript data "success" in
    do error_message <- get_key data "error_message" in
    Ok (mkAttentionResponse attention_output_data success error_message);
}.
Record KVStoreNotification := mkKVStore { ks_request_id : Val; ks_block_ids : Val; ks_layer_idx : Val; ks_num_tokens : Val }.
#[export] Instance KVStoreNotification_message : Message KVStoreNotification := {
  serialize m := VDict [("request_id", ks_request_id m); ("block_ids", ks_block_ids m); ("layer_idx", ks_layer_idx m); ("num_tokens", ks_num_tokens m)];
  deserialize data :=
    do request_id <- subscript data "request_id" in
    do block_ids <- subscript data "block_ids" in
    do layer_idx <- subscript data "layer_idx" in
    do num_tokens <- subscript data "num_tokens" in
    Ok (mkKVStore request_id block_ids layer_idx num_tokens);
}.
Record CleanupRequest := mkCleanupRequest { cr_request_id : Val }.
#[export] Instance CleanupRequest_message : Message CleanupRequest := {
  serialize m := VDict [("request_id", cr_request_id m)];
  deserialize data := do request_id <- subscript data "request_id" in Ok (mkCleanupRequest request_id);
}.
(** CleanupResponse and SlotFreeResponse have the same fields. *)
Record CleanupResponse := mkCleanupResponse { cs_success : Val; cs_error_message : Val }.
#[export] Instance CleanupResponse_message : Message CleanupResponse := {
  serialize m := VDict [("success", cs_success m); ("error_message", cs_error_message m)];
  deserialize data :=
    do success <- subscript data "success" in
    do error_message <- get_key data "error_message" in
    Ok (mkCleanupResponse success error_message);
}.
Record SlotFreeResponse := mkSlotFreeResponse { fs_success : Val; fs_error_message : Val }.
#[export] Instance SlotFreeResponse_message : Message SlotFreeResponse := {
  serialize m := VDict [("success", fs_success m); ("error_message", fs_error_message m)];
  deserialize data :=
    do success <- subscript data "success" in
    do error_message <- get_key data "error_message" in
    Ok (mkSlotFreeResponse success error_message);
}.
(** [int(v)]; [int_of_text] reads strings and bytes. *)
Class IntOfText := int_of_text : Val -> option Z.
Definition py_int `{IntOfText} (v : Val) : res Z :=
  match v with
  | VInt z => Ok z
  | VBool b => Ok (if b then 1 else 0)
  | VStr _ | VBytes _ => match int_of_text v with Some z => Ok z | None => Err ValueError end
  | _ => Err TypeError
  end.
Record SlotFreeRequest := mkSlotFreeRequest { fr_request_id : Val; fr_slot : Z }.
#[export] Instance SlotFreeRequest_message `{IntOfText} : Message SlotFreeRequest := {
  serialize m := VDict [("request_id", fr_request_id m); ("slot", VInt (fr_slot m))];
  deserialize data :=
    do request_id <- subscript data "request_id" in
    do s <- subscript data "slot" in
    do slot <- py_int s in
    Ok (mkSlotFreeRequest request_id slot);
}.
Record SparseAttentionBatchRequest := mkBatchRequest {
  br_request_ids : Val; br_query_data : Val; br_cluster_ids_list : Val; br_layer_idx : Val; br_num_heads : Val; br_head_dim : Val; br_num_kv_heads : Val;
}.
#[export] Instance SparseAttentionBatchRequest_message : Message SparseAttentionBatchRequest := {
  serialize m := VDict [("request_ids", br_request_ids m); ("query_data", br_query_data m); ("cluster_ids_list", br_cluster_ids_list m); ("layer_idx", br_layer_idx m);
                        ("num_heads", br_num_heads m); ("head_dim", br_head_dim m); ("num_kv_heads", br_num_kv_heads m)];
  deserialize data :=
    do request_ids <- subscript data "request_ids" in
    do query_data <- subscript data "query_data" in
    do cluster_ids_list <- subscript data "cluster_ids_list" in
    do layer_idx <- subscript data "layer_idx" in
    do num_heads <- subscript data "num_heads" in
    do head_dim <- subscript data "head_dim" in
    do num_kv_heads <- subscript data "num_kv_heads" in
    Ok (mkBatchRequest request_ids query_data cluster_ids_list layer_idx num_heads head_dim num_kv_heads);
}.
Record SparseAttentionBatchResponse := mkBatchResponse { bs_outputs_data : Val; bs_success : Val; bs_error_message : Val }.
#[export] Instance SparseAttentionBatchResponse_message : Message SparseAttentionBatchResponse := {
  serialize m := VDict [("attention_outputs_data", bs_outputs_data m); ("success", bs_success m); ("error_message", bs_error_message m)];
  deserialize data :=
    do attention_outputs_data <- subscript data "attention_outputs_data" in
    do success <- subscript data "success" in
    do error_message <- get_key data "error_message" in
    Ok (mkBatchResponse attention_outputs_data success error_message);
}.
#[export] Instance SparseAttentionRequest_laws : MessageLaws SparseAttentionRequest.
Proof. by intros []. Qed.
#[export] Instance SparseAttentionResponse_laws : MessageLaws SparseAttentionResponse.
Proof. by intros []. Qed.
#[export] Instance KVStoreNotification_laws : MessageLaws KVStoreNotification.
Proof. by intros []. Qed.
#[export] Instance CleanupRequest_laws : MessageLaws CleanupRequest.
Proof. by intros []. Qed.
#[export] Instance CleanupResponse_laws : MessageLaws CleanupResponse.
Proof. by intros []. Qed.
#[export] Instance SlotFreeResponse_laws : MessageLaws SlotFreeResponse.
Proof. by intros []. Qed.
#[export] Instance SlotFreeRequest_laws `{IntOfText} : MessageLaws SlotFreeRequest.
Proof. by intros []. Qed.
#[export] Instance SparseAttentionBatchRequest_laws : MessageLaws SparseAttentionBatchRequest.
Proof. by intros []. Qed.
#[export] Instance SparseAttentionBatchResponse_laws : MessageLaws SparseAttentionBatchResponse.
Proof. by intros []. Qed.
