(* ===== verification/RpcServer.v ===== *)
(** * RpcServer
    The RPC server of a prefill worker and the client of a decode worker:
    vllm/distributed/rpc_kv/server.py (RPCKVServer) and client.py (RPCKVClient). A message is a
    pickled dict with its length in four bytes before it. Timing, log messages and socket
    options are left out. *)
From stdpp Require Import list_numbers.
From S2P Require Import Prelude CacheHit KVCacheInterface RpcProtocol.
#[local] Open Scope Z_scope.

(** The functions of the pickle module; bytes that are no pickle raise. *)
Class Pickle := { dumps : Val -> list Z; loads : list Z -> option Val }.
Class PickleLaws `{Pickle} : Prop := loads_dumps v : loads (dumps v) = Some v.
(** [str(e)] and [str(v)] *)
Class PyText := { exn_str : exn -> string; val_str : Val -> string }.

(** What the server calls on the model runner it serves: the handler of attention requests
    (its result is a tuple or a list; [None] is an element that is not a tensor),
    _cleanup_sparse_kv_cache and _free_nelssa_meta_slot *)
Class RpcRunner (S : Type) := {
  attention_batch : SparseAttentionBatchRequest -> M S (list (option Tensor));
  attention_single : SparseAttentionRequest -> M S (option Tensor);
  cleanup_request : Val -> M S unit;
  free_slot : Val -> Z -> M S unit;
}.

(** ** Frames *)

(** [len(data).to_bytes(4, 'big') + data] *)
Definition frame (data : list Z) : res (list Z) :=
  if bool_decide (zlen data < 2 ^ 32) then Ok (reverse (Z_to_little_endian 4 8 (zlen data)) ++ data) else Err OverflowError.
(** readexactly(4), then readexactly(length); [None] while bytes are missing *)
Definition read_frame (stream : list Z) : option (list Z * list Z) :=
  if bool_decide (length stream < 4)%nat then None
  else
    let message_length := Z.to_nat (little_endian_to_Z 8 (reverse (take 4 stream))) in
    let rest := drop 4 stream in
    if bool_decide (length rest < message_length)%nat then None else Some (take message_length rest, drop message_length rest).

Section server.
Context {S : Type} `{RpcRunner S, Pickle, IntOfText, PyText}.

(** [try: m except Exception as e: h] *)
Definition try_except {A} (m : M S A) (h : exn -> M S A) : M S A := fun s =>
  match m s with (Ok a, s') => (Ok a, s') | (Err e, s') => h e s' end.

(** The handler a server has: none, a plain function, or a bound method *)
Inductive Handler := no_handler | plain_function | bound_method (has_cleanup : bool).
Context (handler : Handler).

Definition _create_error_response (error_msg : string) : Val := serialize (mkAttentionResponse (VBytes []) (VBool false) (VStr error_msg)).
Definition to_bytes (t : option Tensor) : res (list Z) := match t with Some t => tensor_to_bytes t | None => Err AttributeError end.

(** ** _handle_sparse_attention *)
Definition attend_batch (message : Val) : M S Val :=
  let* data := lift (subscript message "data") in
  let* batch_request := lift (deserialize data) in
  let* result := match handler with no_handler => raise RuntimeError | _ => attention_batch batch_request end in
  let* output_data_list := lift (rmap to_bytes result) in
  ret (serialize (mkBatchResponse (VList (VBytes <$> output_data_list)) (VBool true) VNone)).
Definition attend_single (message : Val) : M S Val :=
  let* data := lift (subscript message "data") in
  let* request := lift (deserialize data) in
  let* output_tensor := match handler with no_handler => raise RuntimeError | _ => attention_single request end in
  let* output_data := lift (to_bytes output_tensor) in
  ret (serialize (mkAttentionResponse (VBytes output_data) (VBool true) VNone)).
Definition _handle_sparse_attention (message : Val) : M S Val :=
  let* is_batch := lift (get_key message "batch") in
  if truthy is_batch then try_except (attend_batch message) (fun e => ret (serialize (mkBatchResponse (VList []) (VBool false) (VStr (exn_str e)))))
  else try_except (attend_single message) (fun e => ret (_create_error_response (exn_str e))).

(** ** _handle_cleanup, _handle_slot_free *)
Definition _handle_cleanup (message : Val) : M S Val :=
  try_except (
    let* data := lift (subscript message "data") in
    let* cleanup_req := lift (deserialize data) in
    match handler with
    | no_handler => ret (_create_error_response "No sparse attention handler registered")
    | plain_function => ret (_create_error_response "Could not access runner from handler")
    | bound_method false => ret (_create_error_response "Runner does not have _cleanup_sparse_kv_cache method")
    | bound_method true => cleanup_request (cr_request_id cleanup_req) ;;; ret (serialize (mkCleanupResponse (VBool true) VNone))
    end) (fun e => ret (_create_error_response (exn_str e))).
Definition _handle_slot_free (message : Val) : M S Val :=
  try_except (
    let* data := lift (subscript message "data") in
    let* req := lift (deserialize data) in
    match handler with
    | bound_method _ => free_slot (fr_request_id req) (fr_slot req) ;;; ret (serialize (mkSlotFreeResponse (VBool true) VNone))
    | _ => raise AttributeError
    end) (fun e => ret (_create_error_response (exn_str e))).

(** ** _route_message
    The method _handle_kv_store does not exist. *)
Definition route (message : Val) : M S Val :=
  let* msg_type := lift (get_key message "type") in
  match msg_type with
  | VStr t =>
    if bool_decide (t = "sparse_attention") then _handle_sparse_attention message
    else if bool_decide (t = "heartbeat") then ret (VDict [("type", VStr "heartbeat"); ("status", VStr "ok")])
    else if bool_decide (t = "kv_store") then raise AttributeError
    else if bool_decide (t = "cleanup") then _handle_cleanup message
    else if bool_decide (t = "slot_free") then _handle_slot_free message
    else ret (_create_error_response ("Unknown message type: " +:+ val_str msg_type))
  | _ => ret (_create_error_response ("Unknown message type: " +:+ val_str msg_type))
  end.
Definition _route_message (data : list Z) : M S Val :=
  try_except (match loads data with Some message => route message | None => raise UnpicklingError end) (fun e => ret (_create_error_response (exn_str e))).

(** ** _handle_client
    The bytes sent back for those received so far, and what is left of them. A response that
    is too long for its length field ends the connection. *)
Definition respond (data : list Z) : M S (list Z) :=
  let* response := _route_message data in
  lift (frame (dumps response)).
Fixpoint _handle_client (fuel : nat) (stream : list Z) : M S (list Z * list Z) :=
  match fuel, read_frame stream with
  | Datatypes.S f, Some (data, rest) =>
    fun s => match respond data s with
             | (Ok out, s') => match _handle_client f rest s' with (Ok x, s'') => (Ok (out ++ x.1, x.2), s'') | (Err e, s'') => (Err e, s'') end
             | (Err _, s') => (Ok ([], []), s')
             end
  | _, _ => ret ([], stream)
  end.

(** ** The client, on a connection that answers in time *)
Definition _send_receive (message : Val) : M S (list Z) :=
  let* out := lift (frame (dumps message)) in
  let* answer := _handle_client (length out) out in
  match read_frame answer.1 with
  | Some (response_data, _) => ret response_data
  | None => raise ConnectionError
  end.
Definition load_response (response_data : list Z) : M S Val := match loads response_data with Some v => ret v | None => raise UnpicklingError end.
Definition send_cleanup (request_id : string) : M S bool :=
  let* response_data := _send_receive (VDict [("type", VStr "cleanup"); ("data", serialize (mkCleanupRequest (VStr request_id)))]) in
  let* response_dict := load_response response_data in
  let* response := lift (deserialize response_dict) in
  ret (truthy (cs_success response)).
Definition send_slot_free (request_id : string) (slot : Z) : M S bool :=
  let* response_data := _send_receive (VDict [("type", VStr "slot_free"); ("data", serialize (mkSlotFreeRequest (VStr request_id) slot))]) in
  let* response_dict := load_response response_data in
  let* response := lift (deserialize response_dict) in
  ret (truthy (fs_success response)).
Definition as_bytes (v : Val) : res (list Z) := match v with VBytes bs => Ok bs | _ => Err TypeError end.
Definition as_list (v : Val) : res (list Val) := match v with VList l => Ok l | _ => Err TypeError end.
(** Heads and head size of the query; a tensor without dimensions has none. *)
Definition batch_dims (shape : list Z) : res (Z * Z) :=
  match (if bool_decide (length shape = 3%nat) then shape !! 1%nat else shape !! 0%nat), last shape with
  | Some h, Some d => Ok (h, d)
  | _, _ => Err IndexError
  end.
(** num_tokens, num_heads and head_dim of the query *)
Definition single_dims (shape : list Z) : res (Z * Z * Z) :=
  match shape !! 0%nat, shape !! (length shape - 2)%nat, last shape with
  | Some n, Some h, Some d => Ok (if bool_decide (1 < length shape)%nat then (n, h, d) else (1, n, d))
  | _, _, _ => Err IndexError
  end.
(** The request of send_sparse_attention_batch *)
Definition batch_request (request_ids : list string) (query_tensor : Tensor) (cluster_ids_list : Val) (layer_idx : Z) (num_kv_heads : option Z) : res SparseAttentionBatchRequest :=
  do dims <- batch_dims (t_shape query_tensor) in
  let num_kv_heads := match num_kv_heads with Some n => n | None => dims.1 end in
  do query_data <- tensor_to_bytes query_tensor in
  Ok (mkBatchRequest (VList (VStr <$> request_ids)) (VBytes query_data) cluster_ids_list (VInt layer_idx) (VInt dims.1) (VInt dims.2) (VInt num_kv_heads)).
Definition batch_message (request : SparseAttentionBatchRequest) : Val := VDict [("type", VStr "sparse_attention"); ("data", serialize request); ("batch", VBool true)].
Definition send_sparse_attention_batch `{NumPy} (request_ids : list string) (query_tensor : Tensor) (cluster_ids_list : Val) (layer_idx : Z) (num_kv_heads : option Z) : M S (list Tensor) :=
  let* request := lift (batch_request request_ids query_tensor cluster_ids_list layer_idx num_kv_heads) in
  let* response_data := _send_receive (batch_message request) in
  let* response_dict := load_response response_data in
  let* response := lift (deserialize response_dict) in
  if truthy (bs_success response) then
    let* outputs := lift (as_list (bs_outputs_data response)) in
    lift (rmap (fun v => do bs <- as_bytes v in bytes_to_tensor bs) outputs)
  else raise RuntimeError.
Definition send_sparse_attention `{NumPy} (request_id : string) (query_tensor : Tensor) (topk_cluster_ids : Val) (layer_idx : Z) (seq_len : option Z) : M S Tensor :=
  let* query_data := lift (tensor_to_bytes query_tensor) in
  let* dims := lift (single_dims (t_shape query_tensor)) in
  let '(num_tokens, num_heads, head_dim) := dims in
  let seq_len := match seq_len with Some n => if n =? 0 then num_tokens else n | None => num_tokens end in
  let request := mkAttentionRequest (VStr request_id) (VBytes query_data) topk_cluster_ids (VInt seq_len) (VInt num_heads) (VInt head_dim) (VInt num_heads) (VInt layer_idx) in
  let* response_data := _send_receive (VDict [("type", VStr "sparse_attention"); ("data", serialize request)]) in
  let* response_dict := load_response response_data in
  let* response := lift (deserialize response_dict) in
  if truthy (as_success response) then lift (do bs <- as_bytes (as_output_data response) in bytes_to_tensor bs)
  else raise RuntimeError.
Definition _send_heartbeat : M S bool :=
  try_except (
    let* response_data := _send_receive (VDict [("type", VStr "heartbeat")]) in
    let* response := load_response response_data in
    match response with
    | VDict d => ret match lookup_key "status" d with Some (VStr s) => bool_decide (s = "ok") | _ => false end
    | _ => ret true
    end) (fun _ => ret false).
End server.
