(* ===== verification/RpcProps.v ===== *)
(** * RpcProps
    Encoding and decoding of tensors and frames, and properties of the RPC layer between
    decode and prefill workers. *)
From stdpp Require Import list_numbers.
From S2P Require Import Prelude CacheHit KVCacheInterface SizingInv RpcProtocol RpcServer.
#[local] Open Scope Z_scope.

(** ** Tensors *)
Lemma code_of_Some d c : code_of d = Some c -> is_byte c /\ _CODE_TO_DTYPE c = Some d.
Proof. unfold is_byte. destruct d; vm_compute; intros [=]; subst; (split; [split; congruence | reflexivity]). Qed.
Lemma itemsize_pos d : (0 < itemsize d)%nat.
Proof. destruct d; simpl; lia. Qed.
Lemma length_le8 z : length (Z_to_little_endian 8 8 z) = 8%nat.
Proof. pose proof (length_Z_to_little_endian 8 8 z ltac:(lia)). lia. Qed.
Lemma unpack_pack_q z : 0 <= z < 2 ^ 63 -> unpack_q (Z_to_little_endian 8 8 z) = z.
Proof.
  intros H. unfold unpack_q. rewrite little_endian_to_Z_to_little_endian by lia. change (8 * 8) with 64. rewrite Z.mod_small by lia. by destruct (Z.ltb_spec z (2 ^ 63)); [| lia].
Qed.
Lemma pack_dims shape : Forall (fun d => 0 <= d < 2 ^ 63) shape -> rmap pack_q shape = Ok (Z_to_little_endian 8 8 <$> shape).
Proof. intros H. apply rmap_fmap. intros z Hz. rewrite Forall_forall in H. apply H in Hz. unfold pack_q. by rewrite bool_decide_true by lia. Qed.
Definition dim_bytes (shape : list Z) : list Z := concat (Z_to_little_endian 8 8 <$> shape).
Lemma length_dim_bytes shape : length (dim_bytes shape) = (8 * length shape)%nat.
Proof. unfold dim_bytes. induction shape as [|d shape IH]; [done |]. rewrite fmap_cons, concat_cons. rewrite length_app, IH, length_le8. simpl. lia. Qed.
Lemma unpack_dims shape rest : Forall (fun d => 0 <= d < 2 ^ 63) shape -> unpack_qs (length shape) (dim_bytes shape ++ rest) = Ok shape.
Proof.
  intros H. unfold dim_bytes. induction H as [|d shape Hd _ IH]; [done |]. rewrite fmap_cons, concat_cons. cbn [length unpack_qs]. rewrite bool_decide_true by (rewrite !length_app, length_le8; lia).
  rewrite <- app_assoc, drop_app_length' by (by rewrite length_le8). rewrite IH. cbn [rbind]. rewrite take_app_length' by (by rewrite length_le8). by rewrite unpack_pack_q.
Qed.
Lemma unpack_short n data : (length data < 8 * n)%nat -> unpack_qs n data = Err StructError.
Proof.
  revert data. induction n as [|n IH]; intros data H; [lia |]. cbn [unpack_qs]. case_bool_decide; [| done]. rewrite IH; [done |]. rewrite length_drop. lia.
Qed.
Lemma chunks_concat fuel size elems : (0 < size)%nat -> (length (concat elems) <= fuel)%nat -> Forall (fun e => length e = size) elems -> chunks fuel size (concat elems) = elems.
Proof.
  intros Hs Hf H. revert fuel Hf. induction H as [|e elems He _ IH]; intros fuel Hf; [by destruct fuel |]. rewrite concat_cons in *. rewrite length_app in Hf. destruct fuel as [|fuel]; [lia |]. destruct e as [|b e]; [simpl in He; lia |]. cbn [chunks app].
  change (b :: e ++ concat elems) with ((b :: e) ++ concat elems). rewrite take_app_length', drop_app_length' by done. f_equal. apply IH. simpl in He, Hf. lia.
Qed.
Lemma length_concat_elems size elems : Forall (fun e : list Z => length e = size) elems -> length (concat elems) = (size * length elems)%nat.
Proof. induction 1 as [|e elems He _ IH]; [simpl; lia |]. simpl. rewrite length_app, IH. lia. Qed.
(** The number of elements of a buffer *)
Lemma chunks_count fuel size n (l : list Z) : (0 < size)%nat -> length l = (size * n)%nat -> (length l <= fuel)%nat -> length (chunks fuel size l) = n.
Proof.
  intros Hs. revert n l. induction fuel as [|fuel IH]; intros n l Hl Hf.
  - destruct n; simpl; [done | nia].
  - destruct l as [|b l]; [destruct n; simpl in *; [done | nia] |]. destruct n as [|n]; [simpl in Hl; lia |]. cbn [chunks length]. f_equal. apply IH; rewrite length_drop; simpl in *; lia.
Qed.
Lemma frombuffer_concat size elems : (0 < size)%nat -> Forall (fun e => length e = size) elems -> frombuffer size (concat elems) = Ok elems.
Proof.
  intros Hs H. unfold frombuffer. rewrite (length_concat_elems size) by done. rewrite bool_decide_true by (rewrite Nat2Z.inj_mul, Z.mul_comm, Z_mod_mult; done). f_equal. apply chunks_concat; [done | | done]. by rewrite (length_concat_elems size).
Qed.
(** What [tensor_to_bytes] returns for a tensor whose type has a code *)
Lemma tensor_bytes t c : tensor_ok t -> code_of (t_dtype t) = Some c -> tensor_to_bytes t = Ok (c :: zlen (t_shape t) :: dim_bytes (t_shape t) ++ concat (t_elems t)).
Proof.
  intros [] Hc. unfold tensor_to_bytes. rewrite Hc. destruct (code_of_Some _ _ Hc) as [Hb _]. unfold pack_B. rewrite bool_decide_true by done. cbn [rbind]. rewrite bool_decide_true by (unfold is_byte, zlen; lia). cbn [rbind]. rewrite pack_dims by done. done.
Qed.

(** ** Frames *)
Lemma read_frame_app data b rest : frame data = Ok b -> read_frame (b ++ rest) = Some (data, rest).
Proof.
  unfold frame. case_bool_decide as Hlt; [| done]. intros E. assert (b = reverse (Z_to_little_endian 4 8 (zlen data)) ++ data) as -> by congruence. clear E. pose proof (length_Z_to_little_endian 4 8 (zlen data) ltac:(lia)) as Hl. unfold read_frame. rewrite <- app_assoc. assert (length (reverse (Z_to_little_endian 4 8 (zlen data))) = 4%nat) as H4 by (rewrite length_reverse; lia).
  rewrite bool_decide_false by (rewrite length_app; lia). rewrite take_app_length', drop_app_length' by done. rewrite reverse_involutive, little_endian_to_Z_to_little_endian by lia. change (4 * 8) with 32. rewrite Z.mod_small by (unfold zlen in *; lia). unfold zlen. rewrite Nat2Z.id.
  rewrite bool_decide_false by (rewrite length_app; lia). by rewrite take_app_length, drop_app_length.
Qed.
Lemma frame_length data b : frame data = Ok b -> (4 <= length b)%nat.
Proof. unfold frame. case_bool_decide; [| done]. intros E. assert (b = reverse (Z_to_little_endian 4 8 (zlen data)) ++ data) as -> by congruence. pose proof (length_Z_to_little_endian 4 8 (zlen data) ltac:(lia)). rewrite length_app, length_reverse. lia. Qed.
Lemma read_frame_nil : read_frame [] = None.
Proof. done. Qed.

#[local] Open Scope Z_scope.

(** ** Tensors *)
Lemma decode_header `{NumPy} code ndim rest body shape dtype : unpack_qs (Z.to_nat ndim) rest = Ok shape -> body = drop (8 * Z.to_nat ndim) rest -> _CODE_TO_DTYPE code = Some dtype ->
  bytes_to_tensor (code :: ndim :: rest) = rbind (frombuffer (itemsize dtype) body) (fun elems => match np_reshape (zlen elems) shape with Some s => Ok (mkTensor dtype s elems) | None => Err ValueError end).
Proof. intros Hs -> Hd. unfold bytes_to_tensor. rewrite Hs. cbn [rbind]. by rewrite Hd. Qed.
Section tensors.
Context `{NumPyLaws}.
Lemma decode_body t c body : tensor_ok t -> code_of (t_dtype t) = Some c ->
  bytes_to_tensor (c :: zlen (t_shape t) :: dim_bytes (t_shape t) ++ body) =
  rbind (frombuffer (itemsize (t_dtype t)) body) (fun elems => if bool_decide (numel (t_shape t) = zlen elems) then Ok (mkTensor (t_dtype t) (t_shape t) elems) else Err ValueError).
Proof.
  intros [Hdims Hndim Hsize Helems] Hc. destruct (code_of_Some _ _ Hc) as [_ Hd]. assert (Z.to_nat (zlen (t_shape t)) = length (t_shape t)) as Hn by (unfold zlen; lia).
  rewrite (decode_header _ _ _ body (t_shape t) (t_dtype t)); [| by rewrite Hn, unpack_dims | by rewrite Hn, drop_app_length' by (by rewrite length_dim_bytes) | done].
  destruct (frombuffer _ body) as [elems|]; [| done]. cbn [rbind]. rewrite np_reshape_spec by (eapply Forall_impl; [exact Hdims | simpl; lia]). by case_bool_decide.
Qed.
(** A tensor that is cut off *)
Lemma short_body t c k : tensor_ok t -> code_of (t_dtype t) = Some c -> (k < length (concat (t_elems t)))%nat -> exists e, bytes_to_tensor (c :: zlen (t_shape t) :: dim_bytes (t_shape t) ++ take k (concat (t_elems t))) = Err e.
Proof.
  intros Hok Hc Hk. rewrite (decode_body _ _ _ Hok Hc). destruct Hok as [Hdims Hndim Hsize Helems]. pose proof (itemsize_pos (t_dtype t)) as Hs. unfold frombuffer. rewrite length_take, Nat.min_l by lia. case_bool_decide as Hm; [| by eexists]. cbn [rbind].
  apply Z.mod_divide in Hm as [m Hm]; [| lia]. rewrite (length_concat_elems (itemsize (t_dtype t))) in Hk by done. assert (k = (itemsize (t_dtype t) * Z.to_nat m)%nat) as Ek by nia.
  rewrite bool_decide_false; [by eexists |]. rewrite <- Hsize. unfold zlen. rewrite (chunks_count _ _ (Z.to_nat m)); [nia | done | | ]; rewrite length_take, Nat.min_l; try (rewrite ?(length_concat_elems (itemsize (t_dtype t))) by done; lia); lia.
Qed.
Lemma short_header t c k : tensor_ok t -> code_of (t_dtype t) = Some c -> (k < length (dim_bytes (t_shape t)))%nat -> bytes_to_tensor (c :: zlen (t_shape t) :: take k (dim_bytes (t_shape t))) = Err StructError.
Proof.
  intros [Hdims Hndim Hsize Helems] Hc Hk. unfold bytes_to_tensor. rewrite unpack_short; [done |]. rewrite length_take. rewrite length_dim_bytes in *. unfold zlen. lia.
Qed.

Lemma tensor_decoded t c : tensor_ok t -> code_of (t_dtype t) = Some c -> bytes_to_tensor (c :: zlen (t_shape t) :: dim_bytes (t_shape t) ++ concat (t_elems t)) = Ok t.
Proof.
  intros Hok Hc. rewrite (decode_body t c _ Hok Hc). destruct Hok as [Hdims Hndim Hsize Helems]. rewrite frombuffer_concat by (done || apply itemsize_pos). cbn [rbind]. rewrite bool_decide_true by done. by destruct t.
Qed.

(** C25 (roundtrip): a tensor of a type with a code is decoded from its bytes exactly, with its type, shape and elements; every shorter prefix of the bytes raises, so a message that was cut off is never read as another tensor; and a type without a code raises ValueError when it is encoded. *)
Theorem tensor_bytes_roundtrip t : tensor_ok t ->
  match code_of (t_dtype t) with
  | None => tensor_to_bytes t = Err ValueError
  | Some _ => exists b, tensor_to_bytes t = Ok b /\ bytes_to_tensor b = Ok t /\ forall n, (n < length b)%nat -> exists e, bytes_to_tensor (take n b) = Err e
  end.
Proof.
  intros Hok. destruct (code_of (t_dtype t)) as [c|] eqn:Hc; [| unfold tensor_to_bytes; by rewrite Hc]. eexists. split; [by apply tensor_bytes |]. split.
  - by apply tensor_decoded.
  - intros n Hn. destruct n as [|[|n]]; [by exists StructError | by exists StructError |]. cbn [take length] in *. rewrite length_app in Hn. destruct (decide (n < length (dim_bytes (t_shape t)))%nat) as [Hlt|Hge].
    + rewrite take_app_le by lia. exists StructError. by apply short_header.
    + rewrite take_app_ge by lia. apply short_body; [done | done | lia].
Qed.
End tensors.

(** ** Calls over the wire *)
Section calls.
Context {S : Type} `{RpcRunner S, PickleLaws, IntOfText, PyText} (handler : Handler).
(** A message whose length fits in four bytes *)
Definition fits (v : Val) : Prop := zlen (dumps v) < 2 ^ 32.
Lemma frame_fits v : fits v -> exists b, frame (dumps v) = Ok b.
Proof. intros Hv. unfold frame. rewrite bool_decide_true by done. by eexists. Qed.
(** Whatever arrives, the server answers. *)
Lemma route_answers data s : exists v s', _route_message handler data s = (Ok v, s').
Proof. unfold _route_message, try_except. match goal with |- context [match ?m s with _ => _ end] => destruct (m s) as [[v|e] s'] end; [by exists v, s' | by eexists _, s']. Qed.
Lemma route_loads message s : _route_message handler (dumps message) s = try_except (route handler message) (fun e => ret (_create_error_response (exn_str e))) s.
Proof. unfold _route_message. by rewrite loads_dumps. Qed.
(** A request on a fresh connection is answered with the response to it. *)
Lemma send_receive_spec message v s s' : fits message -> _route_message handler (dumps message) s = (Ok v, s') -> fits v -> _send_receive handler message s = (Ok (dumps v), s').
Proof.
  intros Hm Hr Hv. destruct (frame_fits message Hm) as [b Hb], (frame_fits v Hv) as [b' Hb']. unfold _send_receive, bind, lift. rewrite Hb. pose proof (frame_length _ _ Hb). destruct (length b) as [|n] eqn:En; [lia |]. cbn [_handle_client].
  assert (read_frame b = Some (dumps message, [])) as Er by (rewrite <- (app_nil_r b); by apply read_frame_app). rewrite Er. unfold respond, bind, lift. rewrite Hr, Hb'.
  assert (_handle_client handler n [] s' = (Ok ([], []), s')) as En' by (by destruct n). rewrite En'. simpl. rewrite (read_frame_app (dumps v) b' []) by done. done.
Qed.
Lemma load_dumps v : load_response (dumps v) = (ret v : M S Val).
Proof. unfold load_response. by rewrite loads_dumps. Qed.

Lemma send_slot_free_spec request_id slot has s s' : handler = bound_method has -> free_slot (VStr request_id) slot s = (Ok tt, s') ->
  fits (VDict [("type", VStr "slot_free"); ("data", serialize (mkSlotFreeRequest (VStr request_id) slot))]) -> fits (serialize (mkSlotFreeResponse (VBool true) VNone)) -> send_slot_free handler request_id slot s = (Ok true, s').
Proof.
  intros Hh Hf Hm Hv. unfold send_slot_free, bind. rewrite (send_receive_spec _ (serialize (mkSlotFreeResponse (VBool true) VNone)) s s'); [| done | | done].
  - rewrite load_dumps. reflexivity.
  - rewrite route_loads. unfold try_except, route, bind, lift. simpl. unfold _handle_slot_free, try_except, bind, lift. simpl. rewrite Hh. by rewrite Hf.
Qed.
Lemma send_cleanup_spec request_id s s' : handler = bound_method true -> cleanup_request (VStr request_id) s = (Ok tt, s') ->
  fits (VDict [("type", VStr "cleanup"); ("data", serialize (mkCleanupRequest (VStr request_id)))]) -> fits (serialize (mkCleanupResponse (VBool true) VNone)) -> send_cleanup handler request_id s = (Ok true, s').
Proof.
  intros Hh Hf Hm Hv. unfold send_cleanup, bind. rewrite (send_receive_spec _ (serialize (mkCleanupResponse (VBool true) VNone)) s s'); [| done | | done].
  - rewrite load_dumps. reflexivity.
  - rewrite route_loads. unfold try_except, route, bind, lift. simpl. unfold _handle_cleanup, try_except, bind, lift. simpl. rewrite Hh. by rewrite Hf.
Qed.

(** ** Attention *)
Context `{!NumPy, !NumPyLaws}.
Definition sendable (t : Tensor) : Prop := tensor_ok t /\ is_Some (code_of (t_dtype t)).
Definition batch_response (data : list (list Z)) : Val := serialize (mkBatchResponse (VList (VBytes <$> data)) (VBool true) VNone).
Definition batch_failure (e : exn) : Val := serialize (mkBatchResponse (VList []) (VBool false) (VStr (exn_str e))).
Lemma tensors_to_bytes ts : Forall sendable ts -> exists data, rmap to_bytes (Some <$> ts) = Ok data /\ rmap (fun v => do bs <- as_bytes v in bytes_to_tensor bs) (VBytes <$> data) = Ok ts.
Proof.
  induction 1 as [|t ts [Hok [c Hc]] _ (data & E1 & E2)]; [by exists [] |]. pose proof (tensor_bytes t c Hok Hc) as Eb. pose proof (tensor_decoded t c Hok Hc) as Ed. set (b := c :: _) in *. exists (b :: data). split.
  - rewrite fmap_cons. cbn [rmap to_bytes]. rewrite Eb. cbn [rbind]. by rewrite E1.
  - rewrite fmap_cons. cbn [rmap as_bytes rbind]. rewrite Ed. cbn [rbind]. by rewrite E2.
Qed.
Lemma route_batch req s : handler <> no_handler -> _route_message handler (dumps (batch_message req)) s =
  match attention_batch req s with
  | (Ok outs, s') => match rmap to_bytes outs with Ok data => (Ok (batch_response data), s') | Err e => (Ok (batch_failure e), s') end
  | (Err e, s') => (Ok (batch_failure e), s')
  end.
Proof.
  intros Hh. rewrite route_loads. unfold try_except, route, bind, lift. simpl. unfold _handle_sparse_attention, try_except, bind, lift. simpl. unfold attend_batch, bind, lift. destruct req. simpl.
  destruct handler; [done | |]; (match goal with |- context [attention_batch ?q s] => destruct (attention_batch q s) as [[outs|e] s'] end; [destruct (rmap to_bytes outs) |]; done).
Qed.

(** C26 (equivalence): an attention call over RPC is the local call on the prefill worker: the handler runs once, on the request the client built, and the decode worker gets exactly the tensors it returned; when the handler raises, the client raises RuntimeError. *)
Theorem rpc_attention_exact request_ids query ids layer num_kv_heads req r s s' :
  handler <> no_handler -> batch_request request_ids query ids layer num_kv_heads = Ok req -> attention_batch req s = (r, s') -> fits (batch_message req) ->
  match r with
  | Ok outs => forall ts, outs = Some <$> ts -> Forall sendable ts -> (forall data, rmap to_bytes outs = Ok data -> fits (batch_response data)) ->
               send_sparse_attention_batch handler request_ids query ids layer num_kv_heads s = (Ok ts, s')
  | Err e => fits (batch_failure e) -> send_sparse_attention_batch handler request_ids query ids layer num_kv_heads s = (Err RuntimeError, s')
  end.
Proof.
  intros Hh Hreq Hrun Hm. pose proof (route_batch req s Hh) as Hr. rewrite Hrun in Hr. unfold send_sparse_attention_batch, bind, lift. rewrite Hreq. destruct r as [outs | e].
  - intros ts -> Hts Hfit. destruct (tensors_to_bytes ts Hts) as (data & E1 & E2). rewrite E1 in Hr. rewrite (send_receive_spec _ _ s s' Hm Hr (Hfit _ E1)), load_dumps. simpl. by rewrite E2.
  - intros Hfit. rewrite (send_receive_spec _ _ s s' Hm Hr Hfit), load_dumps. done.
Qed.
End calls.
