(* ===== verification/RpcConnection.v ===== *)
(** * RpcConnection
    The connection of an RPC client over time: RPCKVClient.connect, disconnect and
    _send_receive of vllm/distributed/rpc_kv/client.py, with the server of RpcServer.v at the
    other end. Calls of a client run one after the other: the worker makes them in a thread
    pool of one thread, and _send_receive holds a lock. A timeout can strike at any time; the
    client then gives up the connection, on which a late response may still arrive. *)
From stdpp Require Import list_numbers.
From S2P Require Import Prelude CacheHit KVCacheInterface SizingInv RpcProtocol RpcServer RpcProps.
#[local] Open Scope nat_scope.

Section connection.
Context {S : Type} `{RpcRunner S, PickleLaws, IntOfText, PyText} (handler : Handler).

(** Bytes under way in both directions, and the answers the server has given, newest first *)
Record Conn := mkConn {
  to_server : list Z;
  to_client : list Z;
  answered : list (list Z * Val);
}.
Record World := mkWorld {
  connected : bool;
  (** the connection of the reader and the writer *)
  current : option nat;
  conns : list Conn;
  runner : S;
  (** the message whose response _send_receive waits for *)
  pending : option Val;
}.
Definition start (s : S) : World := mkWorld false None [] s None.

(** One message of a connection at the server *)
Definition serve (c : Conn) (s : S) : option (Conn * S) :=
  match read_frame (to_server c) with
  | None => None
  | Some (data, rest) =>
    match _route_message handler data s with
    | (Ok v, s') =>
      Some (match frame (dumps v) with
            | Ok b => mkConn rest (to_client c ++ b) ((data, v) :: answered c)
            | Err _ => mkConn [] (to_client c) ((data, v) :: answered c)
            end, s')
    | (Err _, s') => Some (mkConn [] (to_client c) (answered c), s')
    end
  end.
Inductive rpc_step : World -> World -> Prop :=
  | step_connect cur cs s : rpc_step (mkWorld false cur cs s None) (mkWorld true (Some (length cs)) (cs ++ [mkConn [] [] []]) s None)
  | step_disconnect cur cs s : rpc_step (mkWorld true cur cs s None) (mkWorld false None cs s None)
  | step_send c cs s conn message b : cs !! c = Some conn -> frame (dumps message) = Ok b ->
      rpc_step (mkWorld true (Some c) cs s None) (mkWorld true (Some c) (<[c := mkConn (to_server conn ++ b) (to_client conn) (answered conn)]> cs) s (Some message))
  | step_receive c cs s conn message data rest : cs !! c = Some conn -> read_frame (to_client conn) = Some (data, rest) ->
      rpc_step (mkWorld true (Some c) cs s (Some message)) (mkWorld true (Some c) (<[c := mkConn (to_server conn) rest (answered conn)]> cs) s None)
  | step_timeout cur cs s message : rpc_step (mkWorld true cur cs s (Some message)) (mkWorld false cur cs s None)
  | step_serve b cur cs s m c conn conn' s' : cs !! c = Some conn -> serve conn s = Some (conn', s') -> rpc_step (mkWorld b cur cs s m) (mkWorld b cur (<[c := conn']> cs) s' m).

(** The current connection carries at most the message that is pending, or the answer to it. *)
Definition carries (conn : Conn) (m : option Val) : Prop :=
  match m with
  | None => to_server conn = [] /\ to_client conn = []
  | Some message =>
    (frame (dumps message) = Ok (to_server conn) /\ to_client conn = []) \/
    (to_server conn = [] /\ (to_client conn = [] \/ exists v, head (answered conn) = Some (dumps message, v) /\ frame (dumps v) = Ok (to_client conn)))
  end.
Definition in_sync (w : World) : Prop :=
  if connected w then exists c conn, current w = Some c /\ conns w !! c = Some conn /\ carries conn (pending w) else pending w = None.
Lemma read_frame_frame data b : frame data = Ok b -> read_frame b = Some (data, []).
Proof. intros Hb. rewrite <- (app_nil_r b). by apply read_frame_app. Qed.
Lemma serve_carries conn s conn' s' m : carries conn m -> serve conn s = Some (conn', s') -> carries conn' m.
Proof.
  intros Hc E. unfold serve in E. destruct m as [message|].
  - destruct Hc as [[Hf Ht] | [Hs Ht]]; [| by rewrite Hs in E]. rewrite (read_frame_frame _ _ Hf) in E. destruct (_route_message handler (dumps message) s) as [[v|e] s1]; [| injection E as <- <-; right; simpl; auto]. injection E as <- <-.
    right. destruct (frame (dumps v)) as [b|e] eqn:Eb; simpl; [| auto]. split; [done |]. right. exists v. by rewrite Ht.
  - destruct Hc as [Hs _]. by rewrite Hs in E.
Qed.
Lemma rpc_step_in_sync w w' : in_sync w -> rpc_step w w' -> in_sync w'.
Proof.
  intros Hw Hs. destruct Hs as [cur cs s | cur cs s | c cs s conn message b Hc Hb | c cs s conn message data rest Hc Hr | cur cs s message | b cur cs s m c conn conn' s' Hc Hv]; unfold in_sync in *; simpl in *; try done.
  - exists (length cs), (mkConn [] [] []). split; [done |]. split; [by apply list_lookup_middle | done].
  - destruct Hw as (c' & conn' & [= <-] & Hc' & Hs & Ht). assert (conn' = conn) as -> by congruence. exists c, (mkConn (to_server conn ++ b) (to_client conn) (answered conn)). split; [done |]. split; [apply list_lookup_insert_eq; by eapply lookup_lt_Some |]. left. simpl. by rewrite Hs.
  - destruct Hw as (c' & conn' & [= <-] & Hc' & Hw). assert (conn' = conn) as -> by congruence. destruct Hw as [[_ Ht] | [Hs [Ht | (v & _ & Ht)]]]; [by rewrite Ht in Hr | by rewrite Ht in Hr |]. rewrite (read_frame_frame _ _ Ht) in Hr. injection Hr as <- <-. exists c, (mkConn (to_server conn) [] (answered conn)).
    split; [done |]. split; [apply list_lookup_insert_eq; by eapply lookup_lt_Some | done].
  - destruct b; [| done]. destruct Hw as (c0 & conn0 & -> & Hc0 & Hw). destruct (decide (c = c0)) as [->|Hne].
    + assert (conn0 = conn) as -> by congruence. exists c0, conn'. split; [done |]. split; [apply list_lookup_insert_eq; by eapply lookup_lt_Some | by eapply serve_carries].
    + exists c0, conn0. split; [done |]. split; [by rewrite list_lookup_insert_ne | done].
Qed.

(** C27 (safety): a client never takes the answer to one message for the answer to another. Whenever it can read a response, the response is the one the server gave to the message it waits for, and nothing else is on the connection, also after timeouts and new connections. *)
Theorem rpc_response_matches s w message c conn data rest :
  rtc rpc_step (start s) w -> pending w = Some message -> connected w = true -> current w = Some c -> conns w !! c = Some conn -> read_frame (to_client conn) = Some (data, rest) ->
  rest = [] /\ exists v, data = dumps v /\ head (answered conn) = Some (dumps message, v).
Proof.
  intros Hr Hm Hk Hcur Hc Hd. assert (in_sync w) as Hw. { remember (start s) as w0 eqn:E. assert (in_sync w0) as Hw0 by (by subst). clear E Hm Hk Hcur Hc Hd. induction Hr; [done |]. eauto using rpc_step_in_sync. }
  unfold in_sync in Hw. rewrite Hk in Hw. destruct Hw as (c' & conn' & Hcur' & Hc' & Hw). assert (c' = c) as -> by congruence. assert (conn' = conn) as -> by congruence. rewrite Hm in Hw. destruct Hw as [[_ Ht] | [Hs [Ht | (v & Ha & Ht)]]]; [by rewrite Ht in Hd | by rewrite Ht in Hd |].
  rewrite (read_frame_frame _ _ Ht) in Hd. injection Hd as <- <-. split; [done |]. by exists v.
Qed.
End connection.
