(* ===== verification/RpcExamples.v ===== *)
(** * RpcExamples
    The RPC layer on the NELSSA worker, and concrete instances of its parameters. *)
From stdpp Require Import list_numbers countable.
From S2P Require Import Prelude OrdDict CacheHit KVCacheInterface SizingInv Scheduler NelssaClusters NelssaWorker NelssaEngine NelssaSlotProps RpcProtocol RpcServer RpcProps RpcConnection.
#[local] Open Scope Z_scope.

(** ** The NELSSA worker behind the server
    [attend] is the attention of handle_batch. Slots are indices of staging buffers, not
    negative; an id that is not a string is the key of no request. *)
Section runner.
Context {A : Type} (cfg : NelssaCfg) (attend : SparseAttentionBatchRequest -> Runner A -> res (list (option Tensor))).
Definition on_id (request_id : Val) (f : string -> Runner A -> Runner A) : M (Runner A) unit :=
  match request_id with
  | VStr s => modify (f s)
  | VList _ | VDict _ => raise TypeError
  | _ => ret tt
  end.
#[local] Instance nelssa_runner : RpcRunner (Runner A) := {
  attention_batch req := fun r => (attend req r, r);
  attention_single _ := raise RuntimeError;
  cleanup_request rid := on_id rid (_cleanup_sparse_kv_cache cfg);
  free_slot rid slot := match rid with VStr s => modify (_free_nelssa_meta_slot cfg s (Some (Z.to_nat slot))) | _ => modify (_free_nelssa_meta_slot cfg "" (Some (Z.to_nat slot))) end;
}.
Context `{PickleLaws, IntOfText, PyText}.

(** C28 (refinement): over RPC a decode worker frees a staging slot and the buffers of a request as a local call would: send_slot_free and send_cleanup return True, and the prefill worker is in the state after _free_nelssa_meta_slot and _cleanup_sparse_kv_cache. *)
Theorem rpc_control_refines request_id (slot : nat) r :
  fits (VDict [("type", VStr "slot_free"); ("data", serialize (mkSlotFreeRequest (VStr request_id) (Z.of_nat slot)))]) -> fits (serialize (mkSlotFreeResponse (VBool true) VNone)) ->
  fits (VDict [("type", VStr "cleanup"); ("data", serialize (mkCleanupRequest (VStr request_id)))]) -> fits (serialize (mkCleanupResponse (VBool true) VNone)) ->
  send_slot_free (bound_method true) request_id (Z.of_nat slot) r = (Ok true, _free_nelssa_meta_slot cfg request_id (Some slot) r) /\
  send_cleanup (bound_method true) request_id r = (Ok true, _cleanup_sparse_kv_cache cfg request_id r).
Proof.
  intros F1 F2 F3 F4. split.
  - eapply (send_slot_free_spec _ _ _ true); [done | | done | done]. simpl. unfold modify. by rewrite Nat2Z.id.
  - by apply send_cleanup_spec.
Qed.
End runner.

(** ** A pickle *)
Fixpoint val_tree (v : Val) : gen_tree (bool + Z + string + list Z) :=
  match v with
  | VNone => GenNode 0 []
  | VBool b => GenLeaf (inl (inl (inl b)))
  | VInt z => GenLeaf (inl (inl (inr z)))
  | VStr s => GenLeaf (inl (inr s))
  | VBytes l => GenLeaf (inr l)
  | VList l => GenNode 1 (val_tree <$> l)
  | VDict d => GenNode 2 ((fun x => GenNode 3 [GenLeaf (inl (inr x.1)); val_tree x.2]) <$> d)
  end.
Fixpoint tree_val (t : gen_tree (bool + Z + string + list Z)) : Val :=
  match t with
  | GenLeaf (inl (inl (inl b))) => VBool b
  | GenLeaf (inl (inl (inr z))) => VInt z
  | GenLeaf (inl (inr s)) => VStr s
  | GenLeaf (inr l) => VBytes l
  | GenNode 1 l => VList (tree_val <$> l)
  | GenNode 2 l => VDict ((fun t => match t with GenNode _ [GenLeaf (inl (inr k)); u] => (k, tree_val u) | _ => (EmptyString, VNone) end) <$> l)
  | _ => VNone
  end.
Lemma tree_val_tree v : tree_val (val_tree v) = v.
Proof.
  revert v. fix IH 1. intros [| b | z | s | l | l | d]; simpl; try reflexivity; f_equal.
  - induction l as [|v l IHl]; [reflexivity |]. simpl. f_equal; [apply IH | exact IHl].
  - induction d as [|[k v] d IHd]; [reflexivity |]. simpl. f_equal; [f_equal; apply IH | exact IHd].
Qed.
(** The bits of the code of the value, one in a byte *)
Fixpoint pos_bits (p : positive) : list Z := match p with xH => [] | xO q => 0 :: pos_bits q | xI q => 1 :: pos_bits q end.
Fixpoint bits_pos (l : list Z) : positive := match l with [] => xH | b :: l' => if b =? 0 then xO (bits_pos l') else xI (bits_pos l') end.
Lemma bits_pos_bits p : bits_pos (pos_bits p) = p.
Proof. induction p; simpl; congruence. Qed.
#[local] Instance bit_pickle : Pickle := { dumps v := pos_bits (encode (val_tree v)); loads bs := tree_val <$> decode (bits_pos bs) }.
#[local] Instance bit_pickle_laws : PickleLaws.
Proof. intros v. simpl. rewrite bits_pos_bits, decode_encode. simpl. by rewrite tree_val_tree. Qed.
#[local] Instance exact_reshape : NumPy := fun n shape => if bool_decide (numel shape = n) then Some shape else None.
#[local] Instance exact_reshape_laws : NumPyLaws.
Proof. done. Qed.
#[local] Instance no_text : IntOfText := fun _ => None.
#[local] Instance short_text : PyText := { exn_str _ := "error"; val_str _ := "value" }.

(** ** Witnesses *)
Definition small_tensor : Tensor := mkTensor int16 [2; 1] [[1; 0]; [2; 255]].
Lemma small_tensor_ok : tensor_ok small_tensor.
Proof. split; [repeat constructor; lia | simpl; lia | reflexivity | repeat constructor]. Qed.
Lemma tensor_bytes_roundtrip_witness : exists b, tensor_to_bytes small_tensor = Ok b /\ bytes_to_tensor b = Ok small_tensor /\ forall n, (n < length b)%nat -> exists e, bytes_to_tensor (take n b) = Err e.
Proof. exact (tensor_bytes_roundtrip small_tensor small_tensor_ok). Defined.

(** A handler that returns the query and one more tensor *)
Definition echo (req : SparseAttentionBatchRequest) (r : Runner Z) : res (list (option Tensor)) := Ok (Some <$> [small_tensor; small_tensor]).
#[local] Instance echo_runner : RpcRunner (Runner Z) := nelssa_runner slot_cfg echo.
Lemma rpc_attention_exact_witness : send_sparse_attention_batch (bound_method true) ["a"] small_tensor (VList []) 0 (Some 1) slot_start = (Ok [small_tensor; small_tensor], slot_start).
Proof.
  destruct (batch_request ["a"] small_tensor (VList []) 0 (Some 1)) as [req | e] eqn:Ereq; [| vm_compute in Ereq; discriminate].
  apply (rpc_attention_exact (bound_method true) ["a"] small_tensor (VList []) 0 (Some 1) req (Ok (Some <$> [small_tensor; small_tensor])) slot_start slot_start); [discriminate | exact Ereq | reflexivity | | reflexivity | |].
  - vm_compute in Ereq. injection Ereq as <-. vm_compute. reflexivity.
  - assert (sendable small_tensor) as Hs by (split; [apply small_tensor_ok | by eexists]). apply Forall_cons. split; [exact Hs |]. apply Forall_singleton. exact Hs.
  - intros data E. vm_compute in E. injection E as <-. vm_compute. reflexivity.
Defined.
Lemma rpc_control_refines_witness : send_slot_free (bound_method true) "a" 1 slot_start = (Ok true, _free_nelssa_meta_slot slot_cfg "a" (Some 1%nat) slot_start).
Proof. apply (rpc_control_refines slot_cfg echo "a" 1 slot_start); vm_compute; reflexivity. Defined.

(** A client that has timed out once and sends a heartbeat on a new connection *)
Definition heartbeat : Val := VDict [("type", VStr "heartbeat")].
Definition ok_response : Val := VDict [("type", VStr "heartbeat"); ("status", VStr "ok")].
Definition frame_of (v : Val) : list Z := match frame (dumps v) with Ok b => b | Err _ => [] end.
Definition late : Conn := mkConn (frame_of (VDict [("type", VStr "cleanup")])) [] [].
Definition answered_world : World := mkWorld true (Some 1%nat) [late; mkConn [] (frame_of ok_response) [(dumps heartbeat, ok_response)]] slot_start (Some heartbeat).
Lemma frame_of_spec v : fits v -> frame (dumps v) = Ok (frame_of v).
Proof. intros Hv. unfold frame_of. by destruct (frame_fits v Hv) as [b ->]. Qed.
Lemma serve_heartbeat : serve (bound_method true) (mkConn (frame_of heartbeat) [] []) slot_start = Some (mkConn [] (frame_of ok_response) [(dumps heartbeat, ok_response)], slot_start).
Proof. vm_compute. reflexivity. Qed.
Lemma answered_world_reachable : rtc (rpc_step (bound_method true)) (start slot_start) answered_world.
Proof.
  eapply rtc_l; [apply step_connect |]. eapply rtc_l; [eapply (step_send _ 0%nat _ _ _ (VDict [("type", VStr "cleanup")])); [reflexivity | apply frame_of_spec; vm_compute; reflexivity] |].
  eapply rtc_l; [apply step_timeout |]. eapply rtc_l; [apply step_connect |]. eapply rtc_l; [eapply (step_send _ 1%nat _ _ _ heartbeat); [reflexivity | apply frame_of_spec; vm_compute; reflexivity] |].
  apply rtc_once. exact (step_serve (bound_method true) true (Some 1%nat) [late; mkConn (frame_of heartbeat) [] []] slot_start (Some heartbeat) 1%nat (mkConn (frame_of heartbeat) [] []) (mkConn [] (frame_of ok_response) [(dumps heartbeat, ok_response)]) slot_start eq_refl serve_heartbeat).
Qed.
Lemma rpc_response_matches_witness : exists v, read_frame (frame_of ok_response) = Some (dumps v, []) /\ v = ok_response.
Proof.
  assert (read_frame (frame_of ok_response) = Some (dumps ok_response, [])) as E by (vm_compute; reflexivity).
  destruct (rpc_response_matches (bound_method true) slot_start answered_world heartbeat 1 _ (dumps ok_response) [] answered_world_reachable eq_refl eq_refl eq_refl eq_refl E) as (_ & v & Ev & Ha). exists v. rewrite <- Ev. split; [exact E |]. simpl in Ha. injection Ha as <-. reflexivity.
Defined.
