(* ===== verification/NelssaMerge.v ===== *)
(** * NelssaMerge
    Attention of a head over a set of tokens, and the merge of the attention on the GPU (first
    and last tokens of a prompt) with that on the CPU (the selected clusters):
    _batched_gqa and AttentionResultMerger of vllm/v1/nelssa/cpu_attention.py. Arithmetic is
    on real numbers. The conversions of the CPU results to bfloat16 that the code writes out
    are applications of a rounding function [bf16]; the rounding of the operations themselves
    is not modelled. A log-sum-exp of
    [None] is minus infinity, and an output of [None] is not a number. *)
From Stdlib Require Import Reals Lra.
From S2P Require Import Prelude CacheHit KVCacheInterface.
#[local] Open Scope R_scope.

Definition Rsum (l : list R) : R := foldr Rplus 0 l.

(** A key and a value of a head as one query sees them *)
Record Token := mkToken {
  tk_mask : bool;
  tk_score : R;
  tk_value : list R;
}.
Definition score (query key : list R) : R := Rsum (zip_with Rmult query key) * (1 / sqrt (INR (length query))).

(** ** _batched_gqa *)
Fixpoint scores_max (toks : list Token) : option R :=
  match toks with
  | [] => None
  | t :: toks' =>
    if tk_mask t then Some (match scores_max toks' with Some m => Rmax (tk_score t) m | None => tk_score t end)
    else scores_max toks'
  end.
Definition scores_exp (m : R) (t : Token) : R := if tk_mask t then exp (tk_score t - m) else 0.
(** Without a token all weights are 0. *)
Definition attention_head (head_dim : nat) (toks : list Token) : list R * option R :=
  match scores_max toks with
  | None => (replicate head_dim 0, None)
  | Some m =>
    let scores_sum := Rmax (Rsum (scores_exp m <$> toks)) (1 / 10 ^ 9) in
    ((fun j => Rsum ((fun t => scores_exp m t / scores_sum * nth j (tk_value t) 0) <$> toks)) <$> seq 0 head_dim, Some (m + ln scores_sum))
  end.
(** One request: query heads share the keys and values of a group. *)
Definition head_tokens (query : list R) (keys values : list (list R)) (mask : list bool) : list Token :=
  (fun x => mkToken x.2 (score query x.1.1) x.1.2) <$> zip (zip keys values) mask.
Definition _batched_gqa (head_dim : nat) (queries : list (list R)) (keys values : list (list (list R))) (masks : list (list bool)) : list (list R * option R) :=
  let group_size := (length queries / length keys)%nat in
  imap (fun h q => let kv := (h / group_size)%nat in attention_head head_dim (head_tokens q (nth kv keys []) (nth kv values []) (nth kv masks []))) queries.

(** ** AttentionResultMerger *)
Definition logsumexp (a b : option R) : option R :=
  match a, b with
  | Some x, Some y => Some (ln (exp x + exp y))
  | Some x, None | None, Some x => Some x
  | None, None => None
  end.
(** [exp(lse - global_lse)]; [None] is not a number. *)
Definition weight (lse global_lse : option R) : option R :=
  match global_lse with
  | None => None
  | Some g => Some (match lse with Some l => exp (l - g) | None => 0 end)
  end.
Definition combine (w1 w2 : R) (out1 out2 : list R) : list R := zip_with (fun a b => a * w1 + b * w2) out1 out2.
Definition merge (result1 result2 : list R * option R) : list R * option R :=
  let global_lse := logsumexp result1.2 result2.2 in
  (combine (default 0 (weight result1.2 global_lse)) (default 0 (weight result2.2 global_lse)) result1.1 result2.1, global_lse).

(** A row of a batch: the heads of one request *)
Notation Row := (list (list R * option R)).
Definition merge_lse (gpu cpu : list R * option R) : option (list R) :=
  let global_lse := logsumexp gpu.2 cpu.2 in
  w1 ← weight gpu.2 global_lse; w2 ← weight cpu.2 global_lse; Some (combine w1 w2 gpu.1 cpu.1).
(** [x\[bool_mask\]] and [x\[bool_mask\] = rows] *)
Fixpoint select_rows {B} (mask : list bool) (rows : list B) : list B :=
  match mask, rows with
  | true :: mask', r :: rows' => r :: select_rows mask' rows'
  | false :: mask', _ :: rows' => select_rows mask' rows'
  | _, _ => []
  end.
Fixpoint assign_rows {B} (mask : list bool) (rows new : list B) : list B :=
  match mask, rows with
  | true :: mask', r :: rows' => match new with n :: new' => n :: assign_rows mask' rows' new' | [] => r :: assign_rows mask' rows' [] end
  | false :: mask', r :: rows' => r :: assign_rows mask' rows' new
  | _, _ => rows
  end.
(** [.to(torch.bfloat16)] of the outputs and of the log-sum-exps of a row *)
Definition out_to (bf16 : R -> R) (row : Row) : Row := (fun h : list R * option R => (bf16 <$> h.1, h.2)) <$> row.
Definition lse_to (bf16 : R -> R) (row : Row) : Row := (fun h : list R * option R => (h.1, bf16 <$> h.2)) <$> row.
Definition merge_with_mask (bf16 : R -> R) (gpu cpu : list Row) (long_request_mask : list bool) : res (list (list (option (list R)))) :=
  let gpu_output := (fun row : Row => (fun h => Some h.1) <$> row) <$> gpu in
  let num_long := length (filter (fun b : bool => b = true) long_request_mask) in
  if bool_decide (num_long = 0%nat) then Ok gpu_output
  else if bool_decide (length cpu < num_long)%nat then Err RuntimeError
  else
    let gpu_long := select_rows long_request_mask gpu in
    let cpu_bf := (fun row => lse_to bf16 (out_to bf16 row)) <$> cpu in
    Ok (assign_rows long_request_mask gpu_output (zip_with (zip_with merge_lse) gpu_long cpu_bf)).

(** ** Attention over the tokens that are not masked *)
Definition valid (toks : list Token) : bool := existsb tk_mask toks.
Definition weight_sum (f : Token -> R) (toks : list Token) : R := Rsum ((fun t => if tk_mask t then exp (tk_score t) * f t else 0) <$> toks).
Definition softmax_head (head_dim : nat) (toks : list Token) : list R * option R :=
  if valid toks then
    let total := weight_sum (fun _ => 1) toks in
    ((fun j => weight_sum (fun t => nth j (tk_value t) 0) toks / total) <$> seq 0 head_dim, Some (ln total))
  else (replicate head_dim 0, None).

#[local] Open Scope R_scope.

Lemma Rsum_cons x l : Rsum (x :: l) = x + Rsum l.
Proof. done. Qed.
Lemma Rsum_app l1 l2 : Rsum (l1 ++ l2) = Rsum l1 + Rsum l2.
Proof. unfold Rsum. induction l1 as [|x l1 IH]; simpl; [ring | rewrite IH; ring]. Qed.
Lemma Rsum_scale {B} (f : B -> R) c l : Rsum ((fun x => c * f x) <$> l) = c * Rsum (f <$> l).
Proof. induction l as [|x l IH]; [unfold Rsum; simpl; ring |]. rewrite !fmap_cons, !Rsum_cons, IH. ring. Qed.
Lemma Rsum_nonneg {B} (f : B -> R) l : (forall x, 0 <= f x) -> 0 <= Rsum (f <$> l).
Proof. intros Hf. induction l as [|x l IH]; [unfold Rsum; simpl; lra |]. rewrite fmap_cons, Rsum_cons. pose proof (Hf x). lra. Qed.
Lemma Rsum_elem {B} (f : B -> R) l x : (forall x, 0 <= f x) -> x ∈ l -> f x <= Rsum (f <$> l).
Proof.
  intros Hf Hx. induction l as [|y l IH]; [by apply elem_of_nil in Hx |]. rewrite fmap_cons, Rsum_cons. apply elem_of_cons in Hx as [-> | Hx]; [pose proof (Rsum_nonneg f l Hf); lra |]. pose proof (Hf y). pose proof (IH Hx). lra.
Qed.
Lemma Rsum_ext {B} (f g : B -> R) l : (forall x, f x = g x) -> Rsum (f <$> l) = Rsum (g <$> l).
Proof. intros E. f_equal. apply list_fmap_ext. auto. Qed.
Lemma weight_sum_app f l1 l2 : weight_sum f (l1 ++ l2) = weight_sum f l1 + weight_sum f l2.
Proof. unfold weight_sum. rewrite fmap_app. apply Rsum_app. Qed.
Lemma valid_app l1 l2 : valid (l1 ++ l2) = valid l1 || valid l2.
Proof. apply existsb_app. Qed.
Lemma valid_spec toks : valid toks = true <-> exists t, t ∈ toks /\ tk_mask t = true.
Proof. unfold valid. rewrite existsb_exists. split; intros (t & Ht & E); exists t; [by apply list_elem_of_In in Ht | by apply list_elem_of_In in Ht]. Qed.
Lemma invalid_sum f toks : valid toks = false -> weight_sum f toks = 0.
Proof.
  unfold weight_sum, valid. induction toks as [|t toks IH]; [done |]. cbn [existsb]. intros [Ht Hv]%orb_false_iff. rewrite fmap_cons, Rsum_cons, Ht, IH by done. ring.
Qed.
Lemma weight_nonneg t : 0 <= (if tk_mask t then exp (tk_score t) * 1 else 0).
Proof. destruct (tk_mask t); [| lra]. pose proof (exp_pos (tk_score t)). lra. Qed.
Lemma total_pos toks : valid toks = true -> 0 < weight_sum (fun _ => 1) toks.
Proof.
  intros (t & Ht & Hm)%valid_spec. unfold weight_sum. pose proof (Rsum_elem _ toks t weight_nonneg Ht) as H. simpl in H. rewrite Hm in H. pose proof (exp_pos (tk_score t)). lra.
Qed.

(** ** The shift by the maximal score *)
Lemma scores_max_None toks : scores_max toks = None <-> valid toks = false.
Proof. unfold valid. induction toks as [|t toks IH]; [done |]. simpl. by destruct (tk_mask t). Qed.
Lemma scores_max_member toks m : scores_max toks = Some m -> exists t, t ∈ toks /\ tk_mask t = true /\ tk_score t = m.
Proof.
  revert m. induction toks as [|t toks IH]; intros m; [done |]. simpl. destruct (tk_mask t) eqn:Ht.
  - intros [= <-]. destruct (scores_max toks) as [m'|]; [| exists t; split; [by left | done]]. unfold Rmax. destruct (Rle_dec (tk_score t) m'); [| exists t; split; [by left | done]]. destruct (IH m' eq_refl) as (u & Hu & H). exists u. split; [by right | done].
  - intros E. destruct (IH m E) as (u & Hu & H). exists u. split; [by right | done].
Qed.
Lemma scores_exp_shift m t : scores_exp m t = exp (- m) * (if tk_mask t then exp (tk_score t) * 1 else 0).
Proof. unfold scores_exp. destruct (tk_mask t); [| ring]. unfold Rminus. rewrite exp_plus. ring. Qed.
Lemma scores_sum_shift m toks : Rsum (scores_exp m <$> toks) = exp (- m) * weight_sum (fun _ => 1) toks.
Proof. unfold weight_sum. rewrite <- Rsum_scale. apply Rsum_ext, scores_exp_shift. Qed.
(** The maximal score itself contributes 1, so that the lower bound on the sum has no effect. *)
Lemma scores_sum_ge_1 m toks : scores_max toks = Some m -> 1 <= Rsum (scores_exp m <$> toks).
Proof.
  intros (t & Ht & Hm & Hs)%scores_max_member. assert (forall u, 0 <= scores_exp m u) as H0 by (intros u; unfold scores_exp; destruct (tk_mask u); [left; apply exp_pos | lra]).
  pose proof (Rsum_elem (scores_exp m) toks t H0 Ht) as H. unfold scores_exp at 1 in H. rewrite Hm, Hs, Rminus_diag, exp_0 in H. done.
Qed.
Lemma attention_softmax head_dim toks : attention_head head_dim toks = softmax_head head_dim toks.
Proof.
  unfold attention_head, softmax_head. destruct (scores_max toks) as [m|] eqn:Em; [| apply scores_max_None in Em; by rewrite Em]. assert (valid toks = true) as Hv by (destruct (valid toks) eqn:E; [done |]; apply scores_max_None in E; congruence). rewrite Hv.
  pose proof (total_pos toks Hv) as Hp. pose proof (exp_pos (- m)) as He. rewrite Rmax_left by (pose proof (scores_sum_ge_1 m toks Em); lra). rewrite scores_sum_shift. f_equal.
  - apply list_fmap_ext. intros _ j _. set (T := weight_sum (fun _ => 1) toks) in *. transitivity (/ T * weight_sum (fun t => nth j (tk_value t) 0) toks); [| unfold Rdiv; ring]. unfold weight_sum. rewrite <- Rsum_scale. apply Rsum_ext. intros t. rewrite scores_exp_shift. destruct (tk_mask t); field; lra.
  - f_equal. rewrite ln_mult by done. rewrite ln_exp. ring.
Qed.

(** ** Merging *)
Lemma combine_map w1 w2 f g (l : list nat) : combine w1 w2 (f <$> l) (g <$> l) = (fun j => f j * w1 + g j * w2) <$> l.
Proof. unfold combine. induction l as [|x l IH]; [done |]. rewrite !fmap_cons. simpl. by rewrite IH. Qed.
Lemma zeros_map n : replicate n 0 = (fun _ => 0) <$> seq 0 n.
Proof. rewrite <- (length_seq n 0) at 1. generalize (seq 0 n). intros l. induction l as [|x l IH]; [done |]. simpl. by rewrite IH. Qed.
Lemma merge_softmax head_dim l1 l2 : merge (softmax_head head_dim l1) (softmax_head head_dim l2) = softmax_head head_dim (l1 ++ l2).
Proof.
  unfold merge, softmax_head. rewrite valid_app. destruct (valid l1) eqn:H1, (valid l2) eqn:H2; simpl; rewrite ?zeros_map, combine_map; (apply (f_equal2 pair); [apply list_fmap_ext; intros _ j _ | try apply (f_equal Some)]); rewrite ?weight_sum_app; try (rewrite ?(invalid_sum _ l1), ?(invalid_sum _ l2) by done).
  - pose proof (total_pos l1 H1). pose proof (total_pos l2 H2). rewrite !exp_ln by lra. unfold Rminus. rewrite !exp_plus, !exp_Ropp, !exp_ln by lra. field. lra.
  - pose proof (total_pos l1 H1). pose proof (total_pos l2 H2). by rewrite !exp_ln by lra.
  - pose proof (total_pos l1 H1). rewrite Rminus_diag, exp_0. field. lra.
  - by rewrite Rplus_0_r.
  - pose proof (total_pos l2 H2). rewrite Rminus_diag, exp_0. field. lra.
  - by rewrite Rplus_0_l.
  - ring.
  - done.
Qed.
Lemma merge_attention head_dim l1 l2 : merge (attention_head head_dim l1) (attention_head head_dim l2) = attention_head head_dim (l1 ++ l2).
Proof. rewrite !attention_softmax. apply merge_softmax. Qed.
Lemma attention_lse head_dim toks : valid toks = true -> is_Some (attention_head head_dim toks).2.
Proof. intros H. rewrite attention_softmax. unfold softmax_head. rewrite H. by eexists. Qed.
(** Where one part has a token the merge without the test for a number is the same. *)
Lemma merge_lse_merge r1 r2 : is_Some r1.2 -> merge_lse r1 r2 = Some (merge r1 r2).1.
Proof. destruct r1 as [o1 [x|]], r2 as [o2 [y|]]; intros [? H]; done. Qed.

(** ** Batches *)
Section batch.
Context (head_dim : nat).
Definition attend (rows : list (list (list Token))) : list Row := fmap (M := list) (attention_head head_dim) <$> rows.
(** The outputs a merged batch should have: long requests attend to the tokens of both parts. *)
Fixpoint merged_outputs (mask : list bool) (gpu cpu : list (list (list Token))) : list (list (option (list R))) :=
  match mask, gpu with
  | true :: mask', g :: gpu' =>
    match cpu with
    | c :: cpu' => zip_with (fun a b => Some (attention_head head_dim (a ++ b)).1) g c :: merged_outputs mask' gpu' cpu'
    | [] => []
    end
  | false :: mask', g :: gpu' => ((fun toks => Some (attention_head head_dim toks).1) <$> g) :: merged_outputs mask' gpu' cpu
  | _, _ => []
  end.
Lemma merge_row g c : Forall (fun toks => valid toks = true) g -> zip_with merge_lse (attention_head head_dim <$> g) (attention_head head_dim <$> c) = zip_with (fun a b => Some (attention_head head_dim (a ++ b)).1) g c.
Proof.
  intros H. revert c. induction H as [|a g Ha _ IH]; intros [|b c]; [done | done | done |]. rewrite !fmap_cons. simpl. rewrite IH, merge_lse_merge by (by apply attention_lse). by rewrite merge_attention.
Qed.
Definition num_long (mask : list bool) : nat := length (filter (fun b : bool => b = true) mask).
Lemma assign_merged mask gpu cpu : length mask = length gpu -> (num_long mask <= length cpu)%nat -> Forall (Forall (fun toks => valid toks = true)) gpu ->
  assign_rows mask ((fun row : Row => (fun h => Some h.1) <$> row) <$> attend gpu) (zip_with (zip_with merge_lse) (select_rows mask (attend gpu)) (attend cpu)) = merged_outputs mask gpu cpu.
Proof.
  unfold num_long. revert gpu cpu. induction mask as [|b mask IH]; intros [|g gpu] cpu Hl Hc Hg; try done. apply Forall_cons in Hg as [Hg Hgs]. injection Hl as Hl. unfold attend. rewrite !fmap_cons. destruct b.
  - rewrite filter_cons_True in Hc by done. simpl in Hc. destruct cpu as [|c cpu]; [simpl in Hc; lia |]. rewrite fmap_cons. cbn [select_rows zip_with assign_rows merged_outputs]. f_equal; [by apply merge_row | apply IH; [done | simpl in Hc; lia | done]].
  - rewrite filter_cons_False in Hc by done. cbn [select_rows assign_rows merged_outputs]. f_equal; [by rewrite <- list_fmap_compose | by apply IH].
Qed.
Lemma merged_none mask gpu cpu : length mask = length gpu -> num_long mask = 0%nat -> merged_outputs mask gpu cpu = (fun row : Row => (fun h => Some h.1) <$> row) <$> attend gpu.
Proof.
  unfold num_long. revert gpu. induction mask as [|b mask IH]; intros [|g gpu] Hl Hc; try done. injection Hl as Hl. destruct b; [by rewrite filter_cons_True in Hc |]. rewrite filter_cons_False in Hc by done. unfold attend. rewrite !fmap_cons. cbn [merged_outputs]. f_equal; [by rewrite <- list_fmap_compose | by apply IH].
Qed.
End batch.

Lemma exact_rows (rows : list Row) : (fun row => lse_to (fun x => x) (out_to (fun x => x) row)) <$> rows = rows.
Proof.
  rewrite <- (list_fmap_id rows) at 2. apply list_fmap_ext. intros _ row _. unfold lse_to, out_to. rewrite <- list_fmap_compose. rewrite <- (list_fmap_id row) at 2. apply list_fmap_ext. intros _ [o l] _. simpl. f_equal; [apply list_fmap_id | by destruct l].
Qed.

(** C18 (equivalence): in a batch where the GPU attends to some tokens of every request and the CPU to others of the long ones, merging the results gives every long request, in each head, exactly the attention over the tokens of both parts together, and leaves the other requests as they are, in exact arithmetic (the conversion to bfloat16 is the identity). The i-th row of the CPU belongs to the i-th long request; with fewer rows the merge raises. *)
Theorem merged_attention_exact head_dim gpu cpu mask : length mask = length gpu -> Forall (Forall (fun toks => valid toks = true)) gpu ->
  merge_with_mask (fun x => x) (attend head_dim gpu) (attend head_dim cpu) mask = if bool_decide (length cpu < num_long mask)%nat then Err RuntimeError else Ok (merged_outputs head_dim mask gpu cpu).
Proof.
  intros Hl Hg. unfold merge_with_mask. fold (num_long mask). case_bool_decide as H0.
  - rewrite bool_decide_false by lia. by rewrite merged_none.
  - assert (length (attend head_dim cpu) = length cpu) as -> by apply length_fmap. case_bool_decide; [done |]. rewrite exact_rows, assign_merged by (done || lia). done.
Qed.
Definition one_token (s v : R) : list Token := [mkToken true s [v]].
Lemma merged_attention_exact_witness : merge_with_mask (fun x => x) (attend 1 [[one_token 1 2]; [one_token 3 4]]) (attend 1 [[one_token 5 6]]) [false; true] =
  Ok [[Some (attention_head 1 (one_token 1 2)).1]; [Some (attention_head 1 (one_token 3 4 ++ one_token 5 6)).1]].
Proof. rewrite (merged_attention_exact 1 [[one_token 1 2]; [one_token 3 4]] [[one_token 5 6]] [false; true]); [reflexivity | reflexivity | repeat constructor]. Defined.

(** ** The merge for CUDA graphs
    All shapes are fixed by [max_num_long]: rows of other requests fill up the list of rows to
    merge, in front of those of the long requests. At most [max_num_long] requests of a batch
    are long. *)

(** torch.nonzero *)
Fixpoint nonzero (i : nat) (mask : list bool) : list nat :=
  match mask with
  | [] => []
  | b :: mask' => if b then i :: nonzero (S i) mask' else nonzero (S i) mask'
  end.
(** long_indices_static and valid_mask of the model runner *)
Definition static_layout (mask : list bool) (max_num_long : nat) : list nat * list bool :=
  let long_idx := nonzero 0 mask in
  let pad_count := (max_num_long - length long_idx)%nat in
  let pad_idx := take pad_count (nonzero 0 (negb <$> mask)) in
  (pad_idx ++ long_idx, replicate pad_count false ++ replicate (max_num_long - pad_count) true).
(** The results of the CPU in the last rows of buffers that are kept between calls: bfloat16 for the outputs, float32 for the log-sum-exps *)
Definition pad_results (bf16 : R -> R) (buf cpu : list Row) : list Row := take (length buf - length cpu) buf ++ (out_to bf16 <$> cpu).
Definition insert_rows {B} (index : list nat) (new rows : list B) : list B := foldl (fun out x => <[x.1 := x.2]> out) rows (zip index new).
Definition masked_lse (ok : bool) (h : list R * option R) : list R * option R := (h.1, if ok then h.2 else None).
Definition _merge_with_mask_static_torch (gpu cpu_padded : list Row) (long_indices : list nat) (valid_mask : list bool) : res (list (list (option (list R)))) :=
  do gpu_long <- rmap (fun i => match gpu !! i with Some row => Ok row | None => Err IndexError end) long_indices in
  let cpu_eff := zip_with (fun ok (row : Row) => masked_lse ok <$> row) valid_mask cpu_padded in
  Ok (insert_rows long_indices (zip_with (zip_with merge_lse) gpu_long cpu_eff) ((fun row : Row => (fun h => Some h.1) <$> row) <$> gpu)).

Definition outputs (row : Row) : list (option (list R)) := (fun h => Some h.1) <$> row.
Definition shaped (heads head_dim : nat) (row : Row) : Prop := length row = heads /\ Forall (fun h => length h.1 = head_dim) row.
Lemma insert_rows_cons {B} i index (x : B) new rows : insert_rows (i :: index) (x :: new) rows = insert_rows index new (<[i := x]> rows).
Proof. done. Qed.
Lemma insert_rows_app {B} i1 i2 (n1 n2 : list B) rows : length i1 = length n1 -> insert_rows (i1 ++ i2) (n1 ++ n2) rows = insert_rows i2 n2 (insert_rows i1 n1 rows).
Proof. revert n1 rows. induction i1 as [|i i1 IH]; intros [|x n1] rows Hl; [done | done | done |]. injection Hl as Hl. simpl. rewrite !insert_rows_cons. by apply IH. Qed.
(** Writing rows that are there already *)
Lemma insert_rows_id {B} index (new rows : list B) : Forall2 (fun i x => rows !! i = Some x) index new -> insert_rows index new rows = rows.
Proof. induction 1 as [|i x index new Hi _ IH]; [done |]. rewrite insert_rows_cons, list_insert_id by done. exact IH. Qed.
Lemma nonzero_lookup i mask k : k ∈ nonzero i mask -> exists j, k = (i + j)%nat /\ mask !! j = Some true.
Proof.
  revert i. induction mask as [|b mask IH]; intros i H; [by apply elem_of_nil in H |]. simpl in H. destruct b; [apply elem_of_cons in H as [-> | H]; [exists 0%nat; split; [lia | done] |] |]; (destruct (IH (S i) H) as (j & -> & Hj); exists (S j); split; [lia | done]).
Qed.
Lemma length_nonzero i mask : length (nonzero i mask) = num_long mask.
Proof. unfold num_long. revert i. induction mask as [|[] mask IH]; intros i; [done | |]; simpl; rewrite IH; done. Qed.
Lemma length_nonzero_neg i mask : (length (nonzero i (negb <$> mask)) + num_long mask = length mask)%nat.
Proof.
  unfold num_long. revert i. induction mask as [|[] mask IH]; intros i; [done | |]; specialize (IH (S i)); rewrite fmap_cons; [rewrite filter_cons_True by done | rewrite filter_cons_False by done]; cbn [negb nonzero length]; lia.
Qed.
Lemma select_nonzero {B} pre mask (rows : list B) : length mask = length rows -> Forall2 (fun i x => (pre ++ rows) !! i = Some x) (nonzero (length pre) mask) (select_rows mask rows).
Proof.
  revert pre rows. induction mask as [|b mask IH]; intros pre [|r rows] Hl; [constructor | done | done |]. injection Hl as Hl. specialize (IH (pre ++ [r]) rows Hl). rewrite length_app, Nat.add_1_r, <- app_assoc in IH. simpl. destruct b; [| exact IH]. constructor; [by apply list_lookup_middle | exact IH].
Qed.
Lemma assign_rows_insert {B} pre mask (rows new : list B) : length mask = length rows -> length new = num_long mask -> pre ++ assign_rows mask rows new = insert_rows (nonzero (length pre) mask) new (pre ++ rows).
Proof.
  unfold num_long. revert pre rows new. induction mask as [|b mask IH]; intros pre [|r rows] new Hl Hn; [by destruct new | done | done |]. injection Hl as Hl. destruct b.
  - rewrite filter_cons_True in Hn by done. destruct new as [|x new]; [done |]. injection Hn as Hn. simpl. rewrite insert_rows_cons, insert_app_r_alt, Nat.sub_diag by done. cbn [insert list_insert]. specialize (IH (pre ++ [x]) rows new Hl Hn). rewrite length_app, Nat.add_1_r, <- !app_assoc in IH. exact IH.
  - rewrite filter_cons_False in Hn by done. simpl. specialize (IH (pre ++ [r]) rows new Hl Hn). rewrite length_app, Nat.add_1_r, <- !app_assoc in IH. exact IH.
Qed.
Lemma assign_rows_nonzero {B} mask (rows new : list B) : length mask = length rows -> length new = num_long mask -> insert_rows (nonzero 0 mask) new rows = assign_rows mask rows new.
Proof. intros Hl Hn. symmetry. exact (assign_rows_insert [] mask rows new Hl Hn). Qed.
Section static.
Context (bf16 : R -> R) (gpu cpu buf : list Row) (mask : list bool) (max_num_long heads head_dim : nat).
Hypothesis (Hmask : length mask = length gpu) (Hcpu : length cpu = num_long mask) (Hbuf : length buf = max_num_long).
Hypothesis (Hmax : (num_long mask <= max_num_long <= length gpu)%nat).
Hypothesis (Hgpu : Forall (shaped heads head_dim) gpu) (Hpad : Forall (shaped heads head_dim) buf) (Hlse : Forall (Forall (fun h => is_Some h.2)) gpu).
Let pad_count := (max_num_long - num_long mask)%nat.
Let pad_idx := take pad_count (nonzero 0 (negb <$> mask)).

Lemma layout_parts : static_layout mask max_num_long = (pad_idx ++ nonzero 0 mask, replicate pad_count false ++ replicate (num_long mask) true).
Proof. unfold static_layout. rewrite length_nonzero. fold pad_count pad_idx. by replace (max_num_long - pad_count)%nat with (num_long mask) by lia. Qed.
Lemma pad_idx_length : length pad_idx = pad_count.
Proof. pose proof (length_nonzero_neg 0 mask). unfold pad_idx. rewrite length_take. unfold pad_count in *. lia. Qed.
(** A row that is not long is merged with nothing. *)
Lemma merge_pad g b : length g.1 = length b.1 -> is_Some g.2 -> merge_lse g (masked_lse false b) = Some g.1.
Proof.
  destruct g as [o1 [x|]], b as [o2 l]; simpl; intros Hl [y [=]]; subst. unfold merge_lse. simpl. rewrite Rminus_diag, exp_0. f_equal. revert o2 Hl. induction o1 as [|a o1 IH]; intros [|c o2] Hl; [done | done | done |]. injection Hl as Hl. unfold combine in *. simpl. rewrite IH by done. f_equal. ring.
Qed.
Lemma merge_pad_row g b : shaped heads head_dim g -> shaped heads head_dim b -> Forall (fun h => is_Some h.2) g -> zip_with merge_lse g (masked_lse false <$> b) = outputs g.
Proof.
  intros [Lg Hg] [Lb Hb] Hs. assert (length g = length b) as Hl by congruence. clear Lg Lb. revert b Hl Hb. induction Hs as [|h g Hh _ IH]; intros [|k b] Hl Hb; [done | done | done |]. injection Hl as Hl. apply Forall_cons in Hg as [H1 Hg]. apply Forall_cons in Hb as [H2 Hb]. unfold outputs. rewrite !fmap_cons. simpl. rewrite merge_pad by (done || congruence). f_equal. by apply IH.
Qed.
Lemma rmap_lookup (l : list nat) gs : Forall2 (fun i g => gpu !! i = Some g) l gs -> rmap (fun i => match gpu !! i with Some row => Ok row | None => Err IndexError end) l = Ok gs.
Proof. induction 1 as [|i g l gs Hi _ IH]; [done |]. cbn [rmap]. rewrite Hi. cbn [rbind]. by rewrite IH. Qed.
Lemma pad_rows : exists gs, Forall2 (fun i g => gpu !! i = Some g) pad_idx gs.
Proof.
  assert (Forall (fun i => is_Some (gpu !! i)) pad_idx) as H.
  { apply Forall_forall. intros i Hi. apply elem_of_take in Hi as (k & Hk & _). apply list_elem_of_lookup_2, nonzero_lookup in Hk as (j & -> & Hj). apply lookup_lt_is_Some. rewrite <- Hmask. apply lookup_lt_Some in Hj. by rewrite length_fmap in Hj. }
  induction H as [|i l [g Hg] _ (gs & IH)]; [exists []; constructor | exists (g :: gs); by constructor].
Qed.
Lemma pad_merge gs : Forall2 (fun i g => gpu !! i = Some g) pad_idx gs -> zip_with (zip_with merge_lse) gs ((fun row : Row => masked_lse false <$> row) <$> take pad_count buf) = outputs <$> gs.
Proof.
  intros H. assert (length gs = length (take pad_count buf)) as Hl by (rewrite <- (Forall2_length _ _ _ H), pad_idx_length, length_take; lia). assert (Forall (fun g => shaped heads head_dim g /\ Forall (fun h => is_Some h.2) g) gs) as Hgs.
  { clear Hl. induction H as [|i g l gs Hi _ IH]; constructor; [| done]. split; [by apply (Forall_lookup_1 _ gpu i) | by apply (Forall_lookup_1 _ gpu i)]. }
  assert (Forall (shaped heads head_dim) (take pad_count buf)) as Hb by (by apply Forall_take). clear H. revert gs Hl Hgs. induction Hb as [|b bs Hb _ IH]; intros [|g gs] Hl Hgs; [done | done | done |]. injection Hl as Hl. apply Forall_cons in Hgs as [[Hg Hs] Hgs]. rewrite !fmap_cons. simpl. rewrite merge_pad_row by done. f_equal. by apply IH.
Qed.
Lemma cpu_effective : zip_with (fun ok (row : Row) => masked_lse ok <$> row) (replicate pad_count false ++ replicate (num_long mask) true) (pad_results bf16 buf cpu) = ((fun row : Row => masked_lse false <$> row) <$> take pad_count buf) ++ (out_to bf16 <$> cpu).
Proof.
  unfold pad_results. rewrite Hbuf, Hcpu. fold pad_count. rewrite zip_with_app by (rewrite length_replicate, length_take; lia). rewrite !zip_with_replicate_l by (rewrite ?length_fmap, ?length_take; lia). f_equal. rewrite <- (list_fmap_id (out_to bf16 <$> cpu)) at 2. apply list_fmap_ext. intros _ row _. rewrite <- (list_fmap_id row) at 2. apply list_fmap_ext. by intros _ [o l] _.
Qed.
End static.

Lemma lse_out_commute bf16 (rows : list Row) : out_to bf16 <$> (lse_to bf16 <$> rows) = (fun row => lse_to bf16 (out_to bf16 row)) <$> rows.
Proof.
  rewrite <- list_fmap_compose. apply list_fmap_ext. intros _ row _. unfold compose, lse_to, out_to. rewrite <- !list_fmap_compose. reflexivity.
Qed.

(** C19 (equivalence): the merge with fixed shapes, in which rows of other requests fill up the rows to merge and the buffer keeps results of earlier calls, gives what the merge by mask gives, for any number of long requests up to the maximum and batches at least as large as the maximum. The merge by mask rounds the CPU's log-sum-exps to bfloat16 and the static merge does not: the two agree, for any rounding function, when the static merge gets the rounded log-sum-exps (in particular when these are bfloat16 numbers already). The outputs are rounded in both. *)
Theorem static_merge_agrees bf16 gpu cpu buf mask max_num_long heads head_dim :
  length mask = length gpu -> length cpu = num_long mask -> length buf = max_num_long -> (num_long mask <= max_num_long <= length gpu)%nat ->
  Forall (shaped heads head_dim) gpu -> Forall (shaped heads head_dim) buf -> Forall (Forall (fun h => is_Some h.2)) gpu ->
  _merge_with_mask_static_torch gpu (pad_results bf16 buf (lse_to bf16 <$> cpu)) (static_layout mask max_num_long).1 (static_layout mask max_num_long).2 = merge_with_mask bf16 gpu cpu mask.
Proof.
  intros Hmask Hcpu Hbuf Hmax Hgpu Hpad Hlse. assert (length (lse_to bf16 <$> cpu) = num_long mask) as Hcpu' by (by rewrite length_fmap). rewrite (layout_parts gpu cpu buf mask max_num_long) by done. cbn [fst snd]. destruct (pad_rows gpu mask max_num_long Hmask) as [gs Hgs].
  pose proof (select_nonzero [] mask gpu Hmask) as Hlong. unfold _merge_with_mask_static_torch. rewrite (rmap_lookup gpu _ (gs ++ select_rows mask gpu)) by (by apply Forall2_app). cbn [rbind]. rewrite (cpu_effective bf16 gpu (lse_to bf16 <$> cpu) buf mask max_num_long) by done. rewrite lse_out_commute.
  pose proof (Forall2_length _ _ _ Hgs) as Lg. rewrite (pad_idx_length gpu cpu buf mask max_num_long) in Lg by done. rewrite zip_with_app by (rewrite length_fmap, length_take; lia). rewrite (pad_merge gpu cpu buf mask max_num_long heads head_dim) by done.
  rewrite insert_rows_app by (by rewrite length_fmap, <- (Forall2_length _ _ _ Hgs)). rewrite (insert_rows_id _ (outputs <$> gs)) by (apply Forall2_fmap_r; eapply Forall2_impl; [exact Hgs |]; intros i g E; change (fun row : Row => (fun h => Some h.1) <$> row) with outputs; by rewrite list_lookup_fmap, E).
  pose proof (Forall2_length _ _ _ Hlong) as Ll. rewrite length_nonzero in Ll. rewrite assign_rows_nonzero by (rewrite ?length_zip_with, ?length_fmap; lia || done).
  unfold merge_with_mask. fold (num_long mask). case_bool_decide as H0; [| by rewrite bool_decide_false by lia]. destruct cpu; [| simpl in Hcpu; lia]. rewrite fmap_nil, zip_with_nil_r, <- assign_rows_nonzero by (rewrite ?length_fmap; done). rewrite <- (length_nonzero 0) in H0. by destruct (nonzero 0 mask).
Qed.
(** Three requests, the last of them long, in a batch with room for two *)
Definition to_integer (x : R) : R := IZR (up x).
Definition head_of (v : R) : Row := [([v], Some v)].
Lemma static_merge_agrees_witness : _merge_with_mask_static_torch [head_of 1; head_of 2; head_of 3] (pad_results to_integer [head_of 7; head_of 8] (lse_to to_integer <$> [head_of 4])) [0; 2]%nat [false; true] = merge_with_mask to_integer [head_of 1; head_of 2; head_of 3] [head_of 4] [false; false; true].
Proof.
  apply (static_merge_agrees to_integer [head_of 1; head_of 2; head_of 3] [head_of 4] [head_of 7; head_of 8] [false; false; true] 2 1 1); try reflexivity; [split; vm_compute; repeat constructor | repeat constructor | repeat constructor |].
  repeat constructor; by eexists.
Defined.
